(* ===== verification/_CoqProject ===== *)
-Q . S2P
Prelude.v
PolicyFile.v
Mem.v
Ebitmap.v
EbitmapThms.v
EbitmapRange.v
EbitmapIO.v
Hashtab.v
HashtabThms.v
Symtab.v
Avtab.v
AvtabThms.v
AvtabIO.v
Cond.v
CondEval.v
CondNorm.v
CondRules.v
Codec.v
Symbols.v
SymCodec.v
SymbolsIO.v
SymbolsThms.v
SymbolsSample.v
Trans.v
TransIO.v
TransIns.v
TransRT.v
TransFt.v
TransThms.v
Index.v
IndexThms.v
ExpandThms.v
IndexAll.v
IndexSample.v
SymbolsSound.v
Contexts.v
ContextsIO.v
ContextsValid.v
ContextsSound.v
ContextText.v
ContextPrint.v
ContextParse.v
CondIO.v
CondIOThms.v
CondSound.v
PolicydbSame.v
Policydb.v
PolicydbIO.v
PolicydbThms.v
PolicydbSound.v
PolicydbInit.v
PolicydbConvert.v
PolicydbSample.v
ContextTextSample.v
Sidtab.v
Constraint.v
ConstraintThms.v
ConstraintEval.v
Services.v
ServicesThms.v
ServicesSpec.v
ServicesObjects.v
ServicesRun.v
ServicesLoad.v
Validate.v
ValidateThms.v
ServicesSample.v
XzCrc32.v
XzDict.v
XzLzma.v
XzLzmaSafe.v
XzLzmaThms.v
XzLzma2.v
XzLzma2Thms.v
XzStream.v
XzVli.v
XzFormat.v
XzStreamPieces.v
XzStreamIndex.v
XzStreamThms.v
