(* ===== verification/Prelude.v ===== *)
(** * Verification of the C core of magiskboot and magiskpolicy

    The repository builds Magisk's native tools.  Their own code is C++ and
    Rust; the C code that carries the logic they rely on is linked in from
    src/native/src/external (paths below are relative to it):

    - xz-embedded, the decoder magiskinit and magiskboot unpack ramdisks and
      payloads with;
    - libsepol, with which magiskpolicy loads a binary SELinux policy, changes
      it and writes it back.

    The development models these two and proves them correct, from the bit
    level (CRC tables, bitmaps) up to whole .xz Streams and whole binary
    policies.

    ** How C is modelled

    An unsigned C integer of w bits is a [Z]; what can leave its range is
    wrapped ([wrap], [u32], ...).  An allocation consults an [oracle], a list
    of booleans saying which of the coming allocations fail; when it is used
    up they succeed.  [mem_ok o] says that none fails.  An error code is
    returned as the code returns it.  An access outside a buffer, a null
    pointer that is followed or a failing assertion makes the computation
    [None] (Mem.v for the decoders, the monads [X] of Index.v and [RX] of
    Contexts.v), so that a proof of [Some] is a proof of memory safety.  A loop
    that is not structural takes fuel; the theorems state that the fuel the
    operation itself passes is enough, never that a result is right if there is
    one.  The fuel is the number of bytes of input plus the room in the output
    for the decoders, the number of nodes for lists and 2^32 steps for 32-bit
    counters.

    ** Files, in the order they depend on each other

    - Prelude: machine integers, C truth values, the hint database [cdb],
      lists and bytes shared by all files.
    - PolicyFile (libsepol/src/services.c, private.h): [policy_file],
      [next_entry], [put_entry].  Mem: buffers with checked accesses.
    - Ebitmap, EbitmapThms, EbitmapRange, EbitmapIO (libsepol/src/ebitmap.c,
      ebitmap.h, [ebitmap_write] of write.c): a bitmap is a list of 64-bit
      nodes in increasing order; every operation is the operation on the finite
      set [ebitmap_set]; iteration; storage.
    - Hashtab, HashtabThms, Symtab (hashtab.c, symtab.c): chained tables over
      any keys with the interface [KeyOps]/[KeyLaws], refined by finite maps.
    - Avtab, AvtabThms, AvtabIO (avtab.c, [avtab_write] of write.c): the access
      vector table as a collection of rules; its storage.
    - Cond, CondEval, CondNorm, CondRules (conditional.c): conditional
      expressions against the boolean expressions they denote, normal forms,
      comparison, and what a conditional does to the rules.
    - Codec: the monads [R] and [W] of readers and writers and the triples
      [reads], [writes] and [sound]; SymCodec: the interface [SymCodec] between
      the reader and the writer of one kind of symbol, and the round trip of
      tables from it.
    - Symbols, SymbolsIO, SymbolsThms, SymbolsSample, SymbolsSound (policydb.c, write.c,
      policydb.h, constraint.h, mls_types.h): the eight symbol tables with
      their constraints, type sets and levels; every [*_read] and [*_write].
    - Trans, TransIO, TransIns, TransRT, TransFt, TransThms
      (policydb.c, write.c): role transitions, role allows, file name
      transitions in both formats, range transitions; insertion into the file
      name transitions.
    - Index, IndexThms, ExpandThms, IndexAll, IndexSample (policydb.c,
      expand.c): the arrays from values to symbols, the expansion of sets of
      types and roles, the caches of roles and users.
    - Contexts, ContextsIO, ContextsValid, ContextsSound (context.c, mls.c, policydb.c,
      write.c): security contexts and when they are valid, the lists of
      labelled objects and file systems; their storage.
    - ContextText, ContextPrint, ContextParse, ContextTextSample (context.c,
      context_record.c, mls.c): contexts and levels as text and as records.
    - CondIO, CondIOThms, CondSound (conditional.c, write.c): the storage of
      conditionals, whose lists point to nodes of the conditional table; nodes
      have addresses there.
    - Policydb, PolicydbSame, PolicydbIO, PolicydbThms, PolicydbSound
      (policydb.c, write.c):
      [policydb_read] and [policydb_write] of kernel policies, composed of all
      of the above; PolicydbInit (policydb.c, util.c,
      avrule_block.c): [policydb_init] and [symtab_insert]; PolicydbConvert
      (policydb_convert.c): memory images; PolicydbSample: a small policy.
    - Sidtab (sidtab.c): the table of security identifiers.
    - Constraint, ConstraintThms, ConstraintEval (services.c, util.c): the
      evaluation of a constraint on a stack of five values, with the buffers
      its explanation is composed in; a constraint denotes a tree.
    - Services, ServicesThms, ServicesSpec (services.c, mls.c): the security
      server.  Its state [server] holds the active policy, the SID table and
      the stack of texts; access decisions, validated transitions, the SIDs of
      new objects, the texts of SIDs.
    - ServicesObjects (services.c): the labels of file systems, ports,
      interfaces, nodes and paths, with the SIDs kept in the entries of the
      policy.  ServicesRun: any sequence of requests.  ServicesLoad
      (services.c, mls.c): a new policy for a server that is running.
      ServicesSample: a server.
    - Validate, ValidateThms (policydb_validate.c, polcaps.c): the check of a
      whole kernel policy, composed of boolean checks that may go wrong; each
      [decides] a property, [policy_valid] for all of them.
    - XzCrc32 (xz_crc32.c); XzDict, XzLzma, XzLzmaSafe, XzLzmaThms, XzLzma2,
      XzLzma2Thms (xz_dec_lzma2.c): dictionary, range decoder, LZMA, LZMA2;
      XzStream, XzVli, XzFormat, XzStreamPieces, XzStreamIndex, XzStreamThms
      (xz_dec_stream.c): the stream decoder over the interface
      [BlockOps]/[BlockLaws] to the LZMA2 decoder, against the file format.

    ** What the theorems show

    - Refinement: bitmaps implement sets, hash tables implement maps, file
      name transitions implement a map from keys to results, set expansion
      computes the set denoted, the index arrays are the inverse of the tables,
      the SID table is an injective numbering of contexts that only grows; an
      access decision grants what the policy permits, said by its rules,
      constraints, roles and bounds; a new context is the one that the defaults
      and rules describe, with memory unless it is not valid, the ranges have
      no common level or the SIDs are used up; a loaded policy keeps, with
      memory, the SIDs whose contexts have a counterpart.  The theorems on
      decisions are about policies that meet [policy_usable] and source types
      whose chain of bounds ends ([bound_chain]).
    - Invariants: the security server stays sound under any requests and any
      allocation failures; with memory it answers exactly the sequences of
      requests without the text [<<none>>], whose null pointer it follows.
    - Round trips: a whole kernel policy is read back as it was written, and so
      are its parts: bitmaps, access vector tables, symbol tables, conditionals,
      transitions, labelled objects; the writer is the same for memory, for a
      stream and for counting, so that an image has exactly the length that was
      counted; contexts as text; variable-length integers.
      These hold for SELinux policies in the formats the writer theorems cover
      (whole policies: versions 29 to 33; tables of rules: since version 20),
      contexts as text for names without separators and categories without
      gaps.
    - Errors: on any bytes whatever the readers accept is well formed (tables of
      rules and conditionals: since version 20); the constraint reader bounds
      the depth of expressions.
    - Safety and termination: [policydb_read] on any bytes but the images of
      modules and any allocation failures stays inside its arrays and accepts
      only policies whose values are in range and whose arrays are the inverse
      of their tables; the xz decoder on any input, in any pieces, stays inside
      its buffers, returns, and what it accepts is a .xz Stream whose contents
      it has put out; the evaluators stay inside their stacks.
    - Equivalence: CRC32 with its bit-serial definition, the conditional
      evaluator with the meaning of expressions, the constraint evaluator with
      the value of the tree, searches with linear scans; [policydb_validate]
      with the validity of a policy: every value that is mentioned is one of a
      symbol, conditional expressions are postfix forms, permissions are
      distinct.  A policy without gaps that it accepts meets the condition
      [policy_usable] of the theorems on the security server; chains of bounds
      are not checked, and a decision is given exactly where they end.
    - Where the code does not do what it means to, a theorem exhibits it
      ([cond_expr_equal_confuses], [cond_normalize_expr_leaks],
      [mls_level_to_semantic_gap], [ebitmap_not_diverges],
      [filetrans_insert_conflict], [policydb_init_fails_silently],
      [context_from_string_null], [mls_sid_to_context_gap],
      [mls_context_to_sid_trailing], [constraint_fails_open],
      [compute_av_cyclic_bounds], [infix_text_ambiguous],
      [failed_load_frees_policy], [failed_clone_shuts_sidtab],
      [cyclic_bounds_accepted]).

    ** Bounds

    The file images of a policy are at most 2^64 bytes long; counts that are
    stored in 32 bits are below 2^32.  Bit numbers stay below 2^32 - 64, where
    the 32-bit arithmetic of the bitmap loops does not wrap; what happens above
    is [ebitmap_not_diverges]; that [policydb_validate] accepts every valid
    policy needs as few symbols of each kind.  The calls of a decision nest once for every
    type that bounds another; [bounds_fuel] is the number of types, which is
    enough when the bounds do not go round ([bound_chain]).  The lengths of
    texts are not wrapped at 31 bits.

    ** Not modelled

    - Of libsepol: the writer of access vector tables for
      versions before 20, modules (their contents in policydb.c and write.c,
      module.c, link.c, expand.c beyond set expansion, the checks of modules in
      policydb_validate.c; [policydb_read] has no result on the image of a
      module once its header is read), [sepol_polcap_getnum], the CIL compiler (linked
      in, never called), and what only frees memory ([*_destroy]), since memory
      that is freed is not observed by the model.
    - A server whose active policy is not its own when it loads another one
      from a file; [sepol_get_user_sids] is modelled, no theorem is about it.
    - Messages (ERR, WARN), which change no state.
    - The C++ and Rust clients, the static libc (crt0) and the other external
      libraries. *)
From Stdlib Require Import ZArith Lia Bool Sorting.Sorted.
From stdpp Require Import base list list_numbers gmap sets.

Declare Scope c_scope.
Delimit Scope c_scope with c.
Open Scope Z_scope.

(** ** Machine integers

    A w-bit unsigned C integer is a [Z]; every operation of the source that
    can leave the range is followed by [wrap]. *)

Definition wrap (w x : Z) : Z := x mod 2 ^ w.

Abbreviation u8 := (wrap 8).
Abbreviation u16 := (wrap 16).
Abbreviation u32 := (wrap 32).
Abbreviation u64 := (wrap 64).

(** Bitwise complement at width [w]: the C expression [~x]. *)
Definition lnot_w (w x : Z) : Z := Z.lxor x (Z.ones w).

Definition in_range (w x : Z) : Prop := 0 <= x < 2 ^ w.

(** Truth value of a C integer used as a condition. *)
Definition ctrue (x : Z) : bool := negb (x =? 0).

Definition c_of_bool (b : bool) : Z := if b then 1 else 0.

(** [__builtin_popcount] on the low [w] bits. *)
Fixpoint popcount_upto (w : nat) (x : Z) : Z :=
  match w with
  | O => 0
  | S w' => c_of_bool (Z.odd x) + popcount_upto w' (Z.div2 x)
  end.

(** ** Hint databases and tactics *)

Create HintDb cdb discriminated.
Create HintDb bitdb discriminated.

Lemma wrap_small w x : in_range w x -> wrap w x = x.
Proof. unfold wrap, in_range. intros. by apply Z.mod_small. Qed.

Lemma wrap_range w x : 0 <= w -> in_range w (wrap w x).
Proof. intros. unfold wrap, in_range. apply Z.mod_pos_bound. lia. Qed.

Lemma wrap_wrap_add w x y : 0 <= w -> wrap w (wrap w x + y) = wrap w (x + y).
Proof. intros. unfold wrap. by rewrite Z.add_mod_idemp_l by lia. Qed.

Lemma wrap_add_wrap w x y : 0 <= w -> wrap w (x + wrap w y) = wrap w (x + y).
Proof. intros. unfold wrap. by rewrite Z.add_mod_idemp_r by lia. Qed.

Lemma wrap_bit w x i :
  0 <= w -> 0 <= i -> Z.testbit (wrap w x) i = (i <? w) && Z.testbit x i.
Proof.
  intros Hw Hi. unfold wrap. destruct (Z.ltb_spec i w) as [Hlt|Hge].
  - by rewrite Z.mod_pow2_bits_low by lia.
  - by rewrite Z.mod_pow2_bits_high by lia.
Qed.

Lemma testbit_high w x i : in_range w x -> 0 <= w <= i -> Z.testbit x i = false.
Proof.
  intros Hx Hi. rewrite <- (wrap_small w x Hx), wrap_bit by lia.
  destruct (Z.ltb_spec i w); [lia|done].
Qed.

Lemma wrap_eq_bits w x y :
  0 <= w -> (forall i, 0 <= i < w -> Z.testbit x i = Z.testbit y i) ->
  wrap w x = wrap w y.
Proof.
  intros Hw H. apply Z.bits_inj'. intros i Hi.
  rewrite !wrap_bit by lia. destruct (Z.ltb_spec i w); [|done]. by rewrite H by lia.
Qed.

Lemma range_eq_bits w x y :
  0 <= w -> in_range w x -> in_range w y ->
  (forall i, 0 <= i < w -> Z.testbit x i = Z.testbit y i) -> x = y.
Proof.
  intros Hw Hx Hy H. rewrite <- (wrap_small w x Hx), <- (wrap_small w y Hy).
  by apply wrap_eq_bits.
Qed.

(** A non-negative number all of whose bits from [w] up are clear is in range. *)
Lemma range_of_bits w x :
  0 <= w -> 0 <= x -> (forall i, w <= i -> Z.testbit x i = false) -> in_range w x.
Proof.
  intros Hw Hx H. assert (x = wrap w x) as ->; [|by apply wrap_range].
  apply Z.bits_inj'. intros i Hi. rewrite wrap_bit by lia.
  destruct (Z.ltb_spec i w); [done|]. rewrite H by lia. done.
Qed.

Lemma lor_range w x y : 0 <= w -> in_range w x -> in_range w y -> in_range w (Z.lor x y).
Proof.
  intros Hw Hx Hy. apply range_of_bits; [done| |].
  - apply Z.lor_nonneg. unfold in_range in *. lia.
  - intros i Hi. rewrite Z.lor_spec, !(testbit_high w) by (done || lia). done.
Qed.

Lemma land_range_l w x y : 0 <= w -> in_range w x -> in_range w (Z.land x y).
Proof.
  intros Hw Hx. apply range_of_bits; [done| |].
  - apply Z.land_nonneg. left. unfold in_range in *. lia.
  - intros i Hi. rewrite Z.land_spec, (testbit_high w x) by (done || lia). done.
Qed.

Lemma lxor_range w x y : 0 <= w -> in_range w x -> in_range w y -> in_range w (Z.lxor x y).
Proof.
  intros Hw Hx Hy. apply range_of_bits; [done| |].
  - apply Z.lxor_nonneg. unfold in_range in *. lia.
  - intros i Hi. rewrite Z.lxor_spec, !(testbit_high w) by (done || lia). done.
Qed.

Lemma ones_range w : 0 <= w -> in_range w (Z.ones w).
Proof. intros. unfold in_range. rewrite Z.ones_equiv. lia. Qed.

Lemma lnot_w_range w x : 0 <= w -> in_range w x -> in_range w (lnot_w w x).
Proof. intros. apply lxor_range; auto using ones_range. Qed.

Lemma lnot_w_bit w x i :
  0 <= w -> in_range w x -> 0 <= i ->
  Z.testbit (lnot_w w x) i = (i <? w) && negb (Z.testbit x i).
Proof.
  intros Hw Hx Hi. unfold lnot_w. rewrite Z.lxor_spec.
  destruct (Z.ltb_spec i w) as [Hlt|Hge].
  - rewrite Z.ones_spec_low by lia. by rewrite xorb_true_r.
  - rewrite Z.ones_spec_high by lia. rewrite (testbit_high w x) by (done || lia). done.
Qed.

Lemma shiftr_range w x n : 0 <= w -> 0 <= n -> in_range w x -> in_range w (Z.shiftr x n).
Proof.
  unfold in_range. intros Hw Hn Hx. rewrite Z.shiftr_div_pow2 by lia.
  assert (0 < 2 ^ n) by lia. split; [apply Z.div_pos; lia|].
  apply Z.div_lt_upper_bound; nia.
Qed.

Lemma one_shiftl_bit n i : 0 <= n -> 0 <= i -> Z.testbit (Z.shiftl 1 n) i = (i =? n).
Proof.
  intros Hn Hi. rewrite Z.shiftl_spec by lia.
  destruct (Z.eqb_spec i n) as [->|Hne].
  - by rewrite Z.sub_diag.
  - destruct (Z.ltb_spec i n).
    + by rewrite Z.testbit_neg_r by lia.
    + replace 1 with (2 ^ 0) by done. apply Z.pow2_bits_false. lia.
Qed.

Lemma one_shiftl_range w n : 0 <= n < w -> in_range w (Z.shiftl 1 n).
Proof.
  intros. unfold in_range. rewrite Z.shiftl_1_l.
  split; [lia|apply Z.pow_lt_mono_r; lia].
Qed.

Lemma nonzero_has_bit w x : in_range w x -> 0 < x -> exists i, 0 <= i < w /\ Z.testbit x i = true.
Proof.
  intros Hx Hpos. exists (Z.log2 x). split; [|by apply Z.bit_log2].
  split; [apply Z.log2_nonneg|]. apply Z.log2_lt_pow2; [done|]. apply Hx.
Qed.

Lemma land_ones_eq_mod x w : 0 <= w -> Z.land x (2 ^ w - 1) = x mod 2 ^ w.
Proof. intros. rewrite <- Z.land_ones by lia. by rewrite Z.ones_equiv. Qed.

Lemma land_bound_r x y : 0 <= y -> 0 <= Z.land x y <= y.
Proof.
  intros Hy. assert (0 <= Z.land x y) by (apply Z.land_nonneg; lia). split; [done|].
  assert (y = Z.land x y + Z.ldiff y x) as Hsum; [|pose proof (proj2 (Z.ldiff_nonneg y x) ltac:(lia)); lia].
  assert (Hd : Z.land (Z.land x y) (Z.ldiff y x) = 0).
  { apply Z.bits_inj'. intros i Hi. rewrite !Z.land_spec, Z.ldiff_spec, Z.bits_0.
    destruct (Z.testbit x i), (Z.testbit y i); done. }
  rewrite Z.add_nocarry_lxor by done.
  apply Z.bits_inj'. intros i Hi. rewrite Z.lxor_spec, Z.land_spec, Z.ldiff_spec.
  destruct (Z.testbit x i), (Z.testbit y i); done.
Qed.

(** ** Little-endian byte strings

    Bytes are [Z] values of range [in_range 8]; [le_split n x] is the n-byte
    image a little-endian machine stores for [x], [le_combine] reads it back. *)

Fixpoint le_split (n : nat) (x : Z) : list Z :=
  match n with
  | O => []
  | S n' => x mod 256 :: le_split n' (x / 256)
  end.

Fixpoint le_combine (bs : list Z) : Z :=
  match bs with
  | [] => 0
  | b :: bs' => b + 256 * le_combine bs'
  end.

Abbreviation bytes_ok := (Forall (in_range 8)).

Lemma length_le_split n x : length (le_split n x) = n.
Proof. revert x. induction n; intros; simpl; auto. Qed.

Lemma le_split_bytes n x : bytes_ok (le_split n x).
Proof.
  revert x. induction n; intros x; simpl; constructor; [|done].
  by apply (wrap_range 8).
Qed.

Lemma le_combine_range bs :
  bytes_ok bs -> in_range (8 * Z.of_nat (length bs)) (le_combine bs).
Proof.
  unfold in_range. induction 1 as [|b bs Hb _ IH]; simpl le_combine; [done|].
  simpl length. rewrite Nat2Z.inj_succ.
  replace (8 * Z.succ (Z.of_nat (length bs))) with (8 * Z.of_nat (length bs) + 8) by lia.
  rewrite Z.pow_add_r by lia. change (2 ^ 8) with 256 in *. nia.
Qed.

Lemma le_combine_split n x :
  le_combine (le_split n x) = wrap (8 * Z.of_nat n) x.
Proof.
  unfold wrap. revert x. induction n as [|n IH]; intros x.
  - simpl. by rewrite Z.mod_1_r.
  - simpl le_split. simpl le_combine. rewrite IH, Nat2Z.inj_succ.
    replace (8 * Z.succ (Z.of_nat n)) with (8 + 8 * Z.of_nat n) by lia.
    rewrite Z.pow_add_r by lia. change (2 ^ 8) with 256.
    rewrite Z.rem_mul_r by lia. done.
Qed.

Lemma le_split_combine bs :
  bytes_ok bs -> le_split (length bs) (le_combine bs) = bs.
Proof.
  unfold in_range. induction 1 as [|b bs Hb _ IH]; simpl; [done|].
  change (2 ^ 8) with 256 in Hb. f_equal.
  - rewrite Z.mul_comm, Z.mod_add by lia. apply Z.mod_small. lia.
  - rewrite Z.mul_comm, Z.div_add by lia. rewrite Z.div_small by lia. done.
Qed.

Lemma le_split_inj n x y :
  in_range (8 * Z.of_nat n) x -> in_range (8 * Z.of_nat n) y ->
  le_split n x = le_split n y -> x = y.
Proof.
  intros Hx Hy H. apply (f_equal le_combine) in H.
  rewrite !le_combine_split in H. by rewrite !wrap_small in H by done.
Qed.

Arguments le_split : simpl never.
Arguments le_combine : simpl never.

(** ** The allocator

    [malloc] and [calloc] can fail.  An [oracle] lists the outcomes of the
    allocations to come; past its end every allocation succeeds.  All
    theorems quantify over the oracle, so each covers a failure at any
    allocation. *)

Definition oracle := list bool.

Definition malloc (o : oracle) : bool * oracle :=
  match o with
  | [] => (true, [])
  | b :: o' => (b, o')
  end.

(** No allocation of the sequence fails. *)
Definition mem_ok (o : oracle) : Prop := Forall (fun b => b = true) o.

Lemma malloc_mem_ok o b o' : malloc o = (b, o') -> mem_ok o -> b = true /\ mem_ok o'.
Proof.
  unfold malloc, mem_ok. destruct o as [|b0 o0]; intros; simplify_eq; [done|].
  by match goal with H : Forall _ (_ :: _) |- _ => apply Forall_cons in H end.
Qed.

Lemma malloc_mem_ok_next o b o' : malloc o = (b, o') -> mem_ok o -> mem_ok o'.
Proof. intros H M. by destruct (malloc_mem_ok _ _ _ H M). Qed.

(** ** Error numbers used by the sources *)

Definition ENOMEM : Z := 12.
Definition EINVAL : Z := 22.
Definition EOVERFLOW : Z := 75.
Definition SEPOL_OK : Z := 0.
Definition SEPOL_ENOENT : Z := - 2.
Definition SEPOL_ENOMEM : Z := - 12.
Definition SEPOL_EEXIST : Z := - 17.

(** ** Shared tactics *)

(** Case analysis on the integer comparisons of the goal. *)
Ltac zcase :=
  match goal with
  | |- context [?a =? ?b] => destruct (Z.eqb_spec a b)
  | |- context [?a <? ?b] => destruct (Z.ltb_spec a b)
  | |- context [?a <=? ?b] => destruct (Z.leb_spec a b)
  end.

Ltac zcases := repeat (zcase; simpl; try lia; try done).

(** Case analysis on the integer comparisons of a hypothesis. *)
Ltac zcase_in H :=
  match type of H with
  | context [?a =? ?b] => destruct (Z.eqb_spec a b)
  | context [?a <? ?b] => destruct (Z.ltb_spec a b)
  | context [?a <=? ?b] => destruct (Z.leb_spec a b)
  end.

(** Split the allocation at the head of the computation in [H]. *)
Ltac malloc_in H :=
  match type of H with
  | context [malloc ?o] => destruct (malloc o) as [[] ?] eqn:?
  end.

(** Facts about concrete values, by evaluation. *)
Ltac concrete :=
  repeat (hnf; lazymatch goal with
          | |- _ /\ _ => split
          | |- Forall _ _ => constructor
          | |- StronglySorted _ _ => constructor
          end);
  vm_compute; first [reflexivity | discriminate | done].

(** ** Exhaustive checks over the values of a small width *)

Fixpoint forall_bits (w : nat) (f : Z -> bool) : bool :=
  match w with
  | O => f 0
  | S w' => forall_bits w' (fun x => f (2 * x)) && forall_bits w' (fun x => f (2 * x + 1))
  end.

Lemma forall_bits_spec w f x :
  forall_bits w f = true -> 0 <= x < 2 ^ Z.of_nat w -> f x = true.
Proof.
  revert f x. induction w as [|w IH]; intros f x H Hx.
  - simpl in *. by assert (x = 0) as -> by lia.
  - rewrite Nat2Z.inj_succ, Z.pow_succ_r in Hx by lia. cbn [forall_bits] in H.
    apply andb_true_iff in H as [H0 H1]. pose proof (Z.div_mod x 2 ltac:(lia)) as Hd.
    assert (Hq : 0 <= x / 2 < 2 ^ Z.of_nat w) by (split; [apply Z.div_pos|apply Z.div_lt_upper_bound]; lia).
    destruct (Z.mod_pos_bound x 2 ltac:(lia)).
    assert (x mod 2 = 0 \/ x mod 2 = 1) as [Hm|Hm] by lia; rewrite Hm in Hd; rewrite Hd.
    + rewrite Z.add_0_r. by apply (IH (fun x => f (2 * x))).
    + by apply (IH (fun x => f (2 * x + 1))).
Qed.
