(* ===== verification/PolicyFile.v ===== *)
(** * PolicyFile: the policy "file" of libsepol

    [next_entry] and [put_entry] of libsepol/src/services.c and
    [exceeds_available_bytes] of src/private.h, over [struct policy_file].
    A memory image, a stdio stream or a length counter stand behind the same
    two calls. *)
From Stdlib Require Import ZArith Lia Bool.
From stdpp Require Import base list list_numbers.
From S2P Require Import Prelude.

Inductive pf_type := PF_USE_MEMORY | PF_USE_STDIO | PF_LEN.

(** [pf_data] is what can still be read: the bytes from [fp->data] on, or
    the rest of the stream.  [pf_out] is what has been written.  [pf_len] is
    [fp->len].  [pf_io] tells which of the coming [fwrite] calls fail. *)
Record policy_file := mk_policy_file {
  pf_ty : pf_type;
  pf_data : list Z;
  pf_len : Z;
  pf_out : list Z;
  pf_io : oracle
}.

Definition zlength {A} (l : list A) : Z := Z.of_nat (length l).
Definition ztake {A} (n : Z) (l : list A) : list A := take (Z.to_nat n) l.
Definition zdrop {A} (n : Z) (l : list A) : list A := drop (Z.to_nat n) l.
Arguments zlength : simpl never.
Arguments ztake : simpl never.
Arguments zdrop : simpl never.

(** [next_entry]: (return value, what [memcpy]/[fread] put in [buf], file). *)
Definition next_entry (fp : policy_file) (bytes : Z) : Z * list Z * policy_file :=
  match pf_ty fp with
  | PF_USE_STDIO =>
      let fp' d := mk_policy_file PF_USE_STDIO d (pf_len fp) (pf_out fp) (pf_io fp) in
      if (bytes =? 0) || (zlength (pf_data fp) <? bytes) then
        (-1, [], fp' (zdrop bytes (pf_data fp)))
      else (0, ztake bytes (pf_data fp), fp' (zdrop bytes (pf_data fp)))
  | PF_USE_MEMORY =>
      if pf_len fp <? bytes then (-1, [], fp)
      else (0, ztake bytes (pf_data fp),
            mk_policy_file PF_USE_MEMORY (zdrop bytes (pf_data fp)) (pf_len fp - bytes)
              (pf_out fp) (pf_io fp))
  | PF_LEN => (-1, [], fp)
  end.

(** [put_entry ptr size n fp] with [ptr] the bytes at [ptr]. *)
Definition put_entry (ptr : list Z) (size n : Z) (fp : policy_file) : Z * policy_file :=
  let bytes := size * n in
  if 2 ^ 64 <=? bytes then (0, fp) else
  match pf_ty fp with
  | PF_USE_STDIO =>
      let '(ok, io) := malloc (pf_io fp) in
      if ok then
        (n, mk_policy_file PF_USE_STDIO (pf_data fp) (pf_len fp) (pf_out fp ++ ztake bytes ptr) io)
      else (0, mk_policy_file PF_USE_STDIO (pf_data fp) (pf_len fp) (pf_out fp) io)
  | PF_USE_MEMORY =>
      if pf_len fp <? bytes then (0, fp)
      else (n, mk_policy_file PF_USE_MEMORY (pf_data fp) (pf_len fp - bytes)
                 (pf_out fp ++ ztake bytes ptr) (pf_io fp))
  | PF_LEN => (n, mk_policy_file PF_LEN (pf_data fp) (u64 (pf_len fp + bytes)) (pf_out fp) (pf_io fp))
  end.

Definition exceeds_available_bytes (fp : policy_file) (x req_elem_size : Z) : bool :=
  match pf_ty fp with
  | PF_USE_MEMORY =>
      if 2 ^ 64 <=? x * req_elem_size then true else pf_len fp <? x * req_elem_size
  | _ => false
  end.

(** [zero_or_saturated] on a w-bit unsigned value. *)
Definition zero_or_saturated (w x : Z) : bool := (x =? 0) || (x =? 2 ^ w - 1).

(** The [i]-th 32-bit word of a buffer. *)
Definition word32 (buf : list Z) (i : nat) : Z := le_combine (take 4 (drop (4 * i) buf)).

(** The image of an array of 32-bit words. *)
Definition words32 (ws : list Z) : list Z := concat (map (le_split 4) ws).

(** A memory image: the length field counts the bytes behind the pointer. *)
Definition mem_file (data : list Z) : policy_file :=
  mk_policy_file PF_USE_MEMORY data (zlength data) [] [].

(** [fp] is a readable memory image. *)
Definition mem_ready (fp : policy_file) : Prop :=
  pf_ty fp = PF_USE_MEMORY /\ pf_len fp = zlength (pf_data fp).

Definition with_data (fp : policy_file) (data : list Z) : policy_file :=
  mk_policy_file PF_USE_MEMORY data (zlength data) (pf_out fp) (pf_io fp).

Arguments next_entry : simpl never.
Arguments put_entry : simpl never.

(** ** Laws *)

Lemma zlength_app {A} (l1 l2 : list A) : zlength (l1 ++ l2) = zlength l1 + zlength l2.
Proof. unfold zlength. rewrite length_app. lia. Qed.

Lemma zlength_cons {A} (x : A) l : zlength (x :: l) = zlength l + 1.
Proof. unfold zlength. cbn [length]. lia. Qed.

Lemma zlength_nonneg {A} (l : list A) : 0 <= zlength l.
Proof. unfold zlength. lia. Qed.

Lemma ztake_app {A} (l1 l2 : list A) : ztake (zlength l1) (l1 ++ l2) = l1.
Proof. unfold ztake, zlength. rewrite Nat2Z.id. apply take_app_length. Qed.

Lemma zdrop_app {A} (l1 l2 : list A) : zdrop (zlength l1) (l1 ++ l2) = l2.
Proof. unfold zdrop, zlength. rewrite Nat2Z.id. apply drop_app_length. Qed.

Lemma ztake_all {A} (l : list A) n : n = zlength l -> ztake n l = l.
Proof. intros ->. unfold ztake, zlength. rewrite Nat2Z.id. by apply firstn_all. Qed.

Lemma zlength_le_split n x : zlength (le_split n x) = Z.of_nat n.
Proof. unfold zlength. by rewrite length_le_split. Qed.

(** Reading back what is at the front of a memory image. *)
Lemma next_entry_app fp bs rest bytes :
  mem_ready fp -> pf_data fp = bs ++ rest -> bytes = zlength bs ->
  next_entry fp bytes = (0, bs, with_data fp rest).
Proof.
  intros [Hty Hlen] Hd ->. unfold next_entry. rewrite Hty, Hlen, Hd, zlength_app.
  pose proof (zlength_nonneg rest). destruct (Z.ltb_spec (zlength bs + zlength rest) (zlength bs)); [lia|].
  rewrite ztake_app, zdrop_app. unfold with_data. do 2 f_equal. lia.
Qed.

Lemma with_data_ready fp d : mem_ready (with_data fp d).
Proof. done. Qed.

(** What a successful write leaves: the bytes in the image or in the stream,
    or only their number. *)
Definition wrote (fp : policy_file) (bs : list Z) : policy_file :=
  mk_policy_file (pf_ty fp) (pf_data fp)
    (match pf_ty fp with PF_USE_MEMORY => pf_len fp - zlength bs | PF_LEN => pf_len fp + zlength bs | PF_USE_STDIO => pf_len fp end)
    (match pf_ty fp with PF_LEN => pf_out fp | _ => pf_out fp ++ bs end) (pf_io fp).

(** There is room for [n] bytes more: in the memory image; no write to the
    stream fails; the number does not wrap. *)
Definition room (fp : policy_file) (n : Z) : Prop :=
  match pf_ty fp with
  | PF_USE_MEMORY => n <= pf_len fp < 2 ^ 64
  | PF_USE_STDIO => n < 2 ^ 64 /\ pf_io fp = []
  | PF_LEN => 0 <= pf_len fp /\ pf_len fp + n < 2 ^ 64
  end.

Lemma room_le fp n m : m <= n -> room fp n -> room fp m.
Proof. unfold room. intros. destruct (pf_ty fp); intuition lia. Qed.

Lemma room_wrote fp bs n : 0 <= n -> room fp (zlength bs + n) -> room (wrote fp bs) n.
Proof. unfold room, wrote. cbn. pose proof (zlength_nonneg bs). intros. destruct (pf_ty fp); intuition lia. Qed.

Lemma wrote_app fp bs bs' : wrote (wrote fp bs) bs' = wrote fp (bs ++ bs').
Proof. unfold wrote. cbn. destruct (pf_ty fp); rewrite ?zlength_app, ?app_assoc; f_equal; lia. Qed.

Lemma wrote_nil fp : wrote fp [] = fp.
Proof. unfold wrote. change (zlength []) with 0. destruct fp as [[] d l out io]; cbn; rewrite ?app_nil_r; f_equal; lia. Qed.

Lemma wrote_out fp bs : pf_ty fp <> PF_LEN -> pf_out (wrote fp bs) = pf_out fp ++ bs.
Proof. unfold wrote. cbn. by destruct (pf_ty fp). Qed.

Lemma put_entry_room ptr size n fp :
  zlength ptr = size * n -> room fp (size * n) -> put_entry ptr size n fp = (n, wrote fp ptr).
Proof.
  intros Hp Hr. pose proof (zlength_nonneg ptr). unfold put_entry, wrote, room in *. rewrite Hp in *. rewrite ztake_all by done.
  destruct (pf_ty fp) eqn:Hty; (replace (2 ^ 64 <=? size * n) with false by lia).
  - by replace (pf_len fp <? size * n) with false by lia.
  - destruct Hr as [_ ->]. done.
  - by rewrite wrap_small by (unfold in_range; lia).
Qed.

Arguments words32 : simpl never.

Lemma zlength_words32 ws : zlength (words32 ws) = 4 * zlength ws.
Proof.
  unfold words32. induction ws as [|w ws IH]; [done|]. cbn [map concat].
  rewrite zlength_app, zlength_le_split, IH. unfold zlength. simpl length. lia.
Qed.

Lemma take_drop_bytes n k bs : bytes_ok bs -> bytes_ok (take n (drop k bs)).
Proof. intros. by apply Forall_take, Forall_drop. Qed.

Lemma le_combine_lt bs n w :
  bytes_ok bs -> (length bs <= n)%nat -> w = 8 * Z.of_nat n -> in_range w (le_combine bs).
Proof.
  intros Hb Hl ->. pose proof (le_combine_range bs Hb) as Hr. unfold in_range in *.
  split; [lia|]. eapply Z.lt_le_trans; [apply Hr|]. apply Z.pow_le_mono_r; lia.
Qed.

Lemma word32_range buf i : bytes_ok buf -> in_range 32 (word32 buf i).
Proof.
  intros Hb. apply (le_combine_lt _ 4); [by apply take_drop_bytes| |done].
  rewrite length_take. lia.
Qed.

(** The bytes still to be read are bytes. *)
Definition pf_bytes (fp : policy_file) : Prop := bytes_ok (pf_data fp).

Lemma next_entry_bytes fp bytes rc buf fp' :
  pf_bytes fp -> next_entry fp bytes = (rc, buf, fp') ->
  pf_bytes fp' /\ bytes_ok buf /\ (length buf <= Z.to_nat bytes)%nat /\ (rc = 0 \/ rc = -1).
Proof.
  unfold pf_bytes, next_entry, ztake, zdrop. intros Hb H.
  destruct (pf_ty fp); repeat case_match; simplify_eq; simpl;
    rewrite ?length_take; split_and!; auto using Forall_take, Forall_drop; lia.
Qed.

Lemma word32_words32 ws i w rest :
  ws !! i = Some w -> in_range 32 w -> word32 (words32 ws ++ rest) i = w.
Proof.
  unfold word32, words32. revert i. induction ws as [|x ws IH]; intros i Hi Hw; [done|].
  cbn [map concat]. rewrite <- app_assoc. destruct i as [|i]; simpl in Hi.
  - simplify_eq. rewrite Nat.mul_0_r, drop_0, take_app_length' by (by rewrite length_le_split).
    rewrite le_combine_split. by apply wrap_small.
  - replace (4 * S i)%nat with (4 + 4 * i)%nat by lia. rewrite <- drop_drop.
    rewrite drop_app_length' by (by rewrite length_le_split). by apply IH.
Qed.

