(* ===== verification/Mem.v ===== *)
(** * Mem: buffers with checked accesses

    C code that works on raw buffers is modelled in a state monad that may
    fault: an access outside the buffer it is meant for (and a loop that does
    not stop) has no result.  A triple [wp m Q s] says that [m], run from [s],
    does not fault and ends in [Q]; the theorems about the decoders are such
    triples, so they include memory safety and termination. *)
From Stdlib Require Import ZArith Lia Bool.
From stdpp Require Import base list list_numbers.
From S2P Require Import Prelude PolicyFile.

(** ** Buffers *)

(** [buf[i]]. *)
Definition rd (buf : list Z) (i : Z) : option Z :=
  if 0 <=? i then buf !! Z.to_nat i else None.

(** [buf[i] = v]. *)
Definition wr (buf : list Z) (i v : Z) : option (list Z) :=
  if (0 <=? i) && (i <? zlength buf) then Some (<[Z.to_nat i := v]> buf) else None.

(** [n] bytes from [buf + i]. *)
Definition slice (buf : list Z) (i n : Z) : list Z := ztake n (zdrop i buf).

(** The same as a read that is checked. *)
Definition sub_buf (buf : list Z) (i n : Z) : option (list Z) :=
  if (0 <=? i) && (0 <=? n) && (i + n <=? zlength buf) then Some (slice buf i n) else None.

(** [memcpy(dst + j, src + i, n)]. *)
Definition memcpy (dst : list Z) (j : Z) (src : list Z) (i n : Z) : option (list Z) :=
  if (0 <=? i) && (0 <=? j) && (0 <=? n) && (i + n <=? zlength src) && (j + n <=? zlength dst)
  then Some (ztake j dst ++ slice src i n ++ zdrop (j + n) dst)
  else None.

(** [memset(dst + j, 0, n)]. *)
Definition memzero (dst : list Z) (j n : Z) : option (list Z) :=
  if (0 <=? j) && (0 <=? n) && (j + n <=? zlength dst)
  then Some (ztake j dst ++ replicate (Z.to_nat n) 0 ++ zdrop (j + n) dst)
  else None.

Lemma rd_some buf i v : rd buf i = Some v -> 0 <= i < zlength buf.
Proof.
  unfold rd, zlength. destruct (Z.leb_spec 0 i); [|done]. intros H'%lookup_lt_Some. lia.
Qed.

Lemma rd_ok buf i : 0 <= i < zlength buf -> exists v, rd buf i = Some v.
Proof.
  unfold rd, zlength. intros H. destruct (Z.leb_spec 0 i); [|lia].
  destruct (lookup_lt_is_Some_2 buf (Z.to_nat i)) as [v Hv]; [lia|]. by exists v.
Qed.

Lemma rd_forall (P : Z -> Prop) buf i v : Forall P buf -> rd buf i = Some v -> P v.
Proof. unfold rd. case_match; [|done]. intros. by eapply Forall_lookup_1. Qed.

Lemma wr_ok buf i v : 0 <= i < zlength buf -> wr buf i v = Some (<[Z.to_nat i := v]> buf).
Proof. intros. unfold wr. by replace ((0 <=? i) && (i <? zlength buf)) with true by lia. Qed.

Lemma rd_wr buf buf' i j v :
  wr buf i v = Some buf' -> rd buf' j = if j =? i then Some v else rd buf j.
Proof.
  unfold wr, rd, zlength. intros H. destruct (_ && _) eqn:Hi; [|done]. simplify_eq.
  destruct (Z.eqb_spec j i) as [->|Hne].
  - destruct (Z.leb_spec 0 i); [|lia]. apply list_lookup_insert_eq. lia.
  - destruct (Z.leb_spec 0 j); [|done]. apply list_lookup_insert_ne. lia.
Qed.

Lemma wr_length buf buf' i v : wr buf i v = Some buf' -> zlength buf' = zlength buf.
Proof. unfold wr, zlength. intros. case_match; simplify_eq. by rewrite length_insert. Qed.

Lemma wr_forall (P : Z -> Prop) buf buf' i v :
  wr buf i v = Some buf' -> Forall P buf -> P v -> Forall P buf'.
Proof. unfold wr. intros. case_match; simplify_eq. by apply Forall_insert. Qed.

Lemma sub_buf_ok buf i n : 0 <= i -> 0 <= n -> i + n <= zlength buf -> sub_buf buf i n = Some (slice buf i n).
Proof. intros. unfold sub_buf. by replace (_ && _ && _) with true by lia. Qed.

Lemma zlength_slice buf i n : 0 <= i -> 0 <= n -> i + n <= zlength buf -> zlength (slice buf i n) = n.
Proof. unfold slice, ztake, zdrop, zlength. intros. rewrite length_take, length_drop. lia. Qed.

Lemma slice_forall (P : Z -> Prop) buf i n : Forall P buf -> Forall P (slice buf i n).
Proof. intros. unfold slice, ztake, zdrop. by apply Forall_take, Forall_drop. Qed.

Lemma rd_slice buf i n k :
  0 <= i -> 0 <= k -> rd (slice buf i n) k = if k <? n then rd buf (i + k) else None.
Proof.
  intros Hi Hk. unfold rd, slice, ztake, zdrop. replace (0 <=? k) with true by lia.
  replace (0 <=? i + k) with true by lia. destruct (Z.ltb_spec k n).
  - rewrite lookup_take_lt, lookup_drop by lia. f_equal. lia.
  - apply lookup_take_ge. lia.
Qed.

Lemma slice_app buf i n m :
  0 <= i -> 0 <= n -> 0 <= m -> slice buf i (n + m) = slice buf i n ++ slice buf (i + n) m.
Proof.
  intros. unfold slice, ztake, zdrop. rewrite !Z2Nat.inj_add by lia.
  rewrite <- drop_drop. rewrite <- (take_take_drop _ (Z.to_nat n) (Z.to_nat m)). done.
Qed.

Lemma slice_0 buf i : slice buf i 0 = [].
Proof. done. Qed.

Lemma slice_full buf : slice buf 0 (zlength buf) = buf.
Proof. unfold slice, zdrop, ztake, zlength. rewrite drop_0, Nat2Z.id. by apply firstn_all. Qed.

Lemma slice_cons buf i n x : rd buf i = Some x -> 0 <= n -> slice buf i (n + 1) = x :: slice buf (i + 1) n.
Proof.
  intros Hr Hn. pose proof (rd_some _ _ _ Hr) as [Hi _]. unfold rd in Hr. replace (0 <=? i) with true in Hr by lia.
  unfold slice, ztake, zdrop. rewrite (drop_S _ _ _ Hr). rewrite !Z2Nat.inj_add by lia.
  change (Z.to_nat 1) with 1%nat. rewrite (Nat.add_comm _ 1). simpl. by rewrite Nat.add_1_r.
Qed.

Lemma memcpy_ok dst j src i n :
  0 <= i -> 0 <= j -> 0 <= n -> i + n <= zlength src -> j + n <= zlength dst ->
  memcpy dst j src i n = Some (ztake j dst ++ slice src i n ++ zdrop (j + n) dst).
Proof.
  intros. unfold memcpy.
  by replace (_ && _ && _ && _ && _) with true by lia.
Qed.

Lemma memcpy_inv dst j src i n dst' :
  memcpy dst j src i n = Some dst' ->
  0 <= i /\ 0 <= j /\ 0 <= n /\ i + n <= zlength src /\ j + n <= zlength dst /\
  dst' = ztake j dst ++ slice src i n ++ zdrop (j + n) dst.
Proof. unfold memcpy. intros. case_match; simplify_eq. split_and!; (done || lia). Qed.

Lemma memcpy_length dst j src i n dst' :
  memcpy dst j src i n = Some dst' -> zlength dst' = zlength dst.
Proof.
  intros (? & ? & ? & ? & ? & ->)%memcpy_inv. rewrite !zlength_app, zlength_slice by lia.
  unfold ztake, zdrop, zlength in *. rewrite length_take, length_drop. lia.
Qed.

Lemma memcpy_forall (P : Z -> Prop) dst j src i n dst' :
  memcpy dst j src i n = Some dst' -> Forall P dst -> Forall P src -> Forall P dst'.
Proof.
  intros (? & ? & ? & ? & ? & ->)%memcpy_inv Hd Hs. rewrite !Forall_app. unfold ztake, zdrop.
  split_and!; auto using Forall_take, Forall_drop, slice_forall.
Qed.

Lemma rd_memcpy dst j src i n dst' k :
  memcpy dst j src i n = Some dst' -> 0 <= k ->
  rd dst' k = if (j <=? k) && (k <? j + n) then rd src (i + (k - j)) else rd dst k.
Proof.
  intros (? & ? & ? & ? & ? & ->)%memcpy_inv Hk.
  assert (Hj : length (ztake j dst) = Z.to_nat j).
  { unfold ztake, zlength in *. rewrite length_take. lia. }
  assert (Hn : length (slice src i n) = Z.to_nat n).
  { pose proof (zlength_slice src i n). unfold zlength in *. lia. }
  unfold rd at 1 3. replace (0 <=? k) with true by lia.
  destruct (Z.leb_spec j k); cbn [andb].
  - rewrite lookup_app_r, Hj by lia. destruct (Z.ltb_spec k (j + n)).
    + rewrite lookup_app_l by lia. pose proof (rd_slice src i n (k - j)) as Hr.
      unfold rd at 1 in Hr. replace (0 <=? k - j) with true in Hr by lia.
      replace (k - j <? n) with true in Hr by lia. rewrite <- Z2Nat.inj_sub by lia. apply Hr; lia.
    + rewrite lookup_app_r, Hn by lia. unfold zdrop. rewrite lookup_drop. f_equal. lia.
  - rewrite lookup_app_l by lia. unfold ztake. rewrite lookup_take_lt by lia. done.
Qed.

Lemma memzero_ok dst j n :
  0 <= j -> 0 <= n -> j + n <= zlength dst ->
  memzero dst j n = Some (ztake j dst ++ replicate (Z.to_nat n) 0 ++ zdrop (j + n) dst).
Proof. intros. unfold memzero. by replace (_ && _ && _) with true by lia. Qed.

Lemma memzero_length dst j n dst' : memzero dst j n = Some dst' -> zlength dst' = zlength dst.
Proof.
  unfold memzero. intros. case_match; simplify_eq. rewrite !zlength_app. unfold ztake, zdrop, zlength in *.
  rewrite length_take, length_drop, length_replicate. lia.
Qed.

Lemma memzero_bytes dst j n dst' : memzero dst j n = Some dst' -> bytes_ok dst -> bytes_ok dst'.
Proof.
  unfold memzero. intros H Hd. case_match; simplify_eq. rewrite !Forall_app. unfold ztake, zdrop.
  split_and!; auto using Forall_take, Forall_drop. by apply Forall_replicate.
Qed.

(** ** The fault monad *)

Definition M (S A : Type) : Type := S -> option (A * S).

Definition mret' {S A} (a : A) : M S A := fun s => Some (a, s).
Definition mbind' {S A B} (m : M S A) (k : A -> M S B) : M S B :=
  fun s => match m s with Some (a, s') => k a s' | None => None end.
Definition mget {S} : M S S := fun s => Some (s, s).
Definition mput {S} (s : S) : M S unit := fun _ => Some (tt, s).
Definition mfault {S A} : M S A := fun _ => None.
(** An access that may fault. *)
Definition mlift {S A} (o : option A) : M S A :=
  fun s => match o with Some a => Some (a, s) | None => None end.

Notation "x <-- m ;; k" := (mbind' m (fun x => k)) (at level 100, m at next level, right associativity).
Notation "m ;;; k" := (mbind' m (fun _ => k)) (at level 100, right associativity).

Definition wp {S A} (m : M S A) (Q : A -> S -> Prop) (s : S) : Prop :=
  match m s with Some (a, s') => Q a s' | None => False end.

Section Wp.
Context {S : Type}.
Implicit Types s : S.

Lemma wp_ret {A} (a : A) (Q : A -> S -> Prop) s : Q a s -> wp (mret' a) Q s.
Proof. done. Qed.

Lemma wp_bind {A B} (m : M S A) (k : A -> M S B) Q s :
  wp m (fun a s' => wp (k a) Q s') s -> wp (mbind' m k) Q s.
Proof. unfold wp, mbind'. by destruct (m s) as [[a s']|]. Qed.

Lemma wp_get (Q : S -> S -> Prop) s : Q s s -> wp mget Q s.
Proof. done. Qed.

Lemma wp_put s' (Q : unit -> S -> Prop) s : Q tt s' -> wp (mput s') Q s.
Proof. done. Qed.

Lemma wp_lift {A} (o : option A) a (Q : A -> S -> Prop) s : o = Some a -> Q a s -> wp (mlift o) Q s.
Proof. by intros ->. Qed.

Lemma wp_mono {A} (m : M S A) (Q Q' : A -> S -> Prop) s :
  wp m Q s -> (forall a s', Q a s' -> Q' a s') -> wp m Q' s.
Proof. unfold wp. destruct (m s) as [[a s']|]; [|done]. auto. Qed.

Lemma wp_run {A} (m : M S A) (Q : A -> S -> Prop) s :
  wp m Q s -> exists a s', m s = Some (a, s') /\ Q a s'.
Proof. unfold wp. destruct (m s) as [[a s']|]; [|done]. eauto. Qed.
End Wp.

(** Break a monadic goal at its first step. *)
Ltac wp_step :=
  first [ apply wp_bind | apply wp_ret | apply wp_get | apply wp_put ]; cbv beta.
