(* ===== verification/Ebitmap.v ===== *)
(** * Ebitmap: libsepol's extensible bitmaps

    Model of libsepol/src/ebitmap.c and of the iteration macros of
    include/sepol/policydb/ebitmap.h.  A bitmap is a linked list of nodes,
    each an aligned 64-bit window; the list is a Rocq list, the [next]
    pointer its tail.  The abstraction is a finite set of bit positions
    ([ebitmap_set]); [ebitmap_ok] is the representation invariant. *)
From Stdlib Require Import ZArith Lia Bool.
From stdpp Require Import base list list_numbers gmap sets.
From S2P Require Import Prelude.

(** ** Data *)

Abbreviation MAPSIZE := 64.

Record ebitmap_node := mk_node { startbit : Z; nmap : Z }.

Record ebitmap := mk_ebitmap { node : list ebitmap_node; highbit : Z }.

#[global] Instance ebitmap_node_eq_dec : EqDecision ebitmap_node.
Proof. solve_decision. Defined.
#[global] Instance ebitmap_eq_dec : EqDecision ebitmap.
Proof. solve_decision. Defined.

Definition ebitmap_init : ebitmap := mk_ebitmap [] 0.

Definition ebitmap_destroy (e : ebitmap) : ebitmap := mk_ebitmap [] 0.

(** Outcome of a loop that builds a list of nodes: the list, or the failure
    of an allocation. *)
Definition cons_res (n : ebitmap_node) (r : option (list ebitmap_node) * oracle) :
    option (list ebitmap_node) * oracle :=
  let '(l, o) := r in (match l with Some l => Some (n :: l) | None => None end, o).

(** ** Operations *)

(** The [while (n1 || n2)] loop of [ebitmap_or]. *)
Fixpoint or_loop (n1 : list ebitmap_node) :
    list ebitmap_node -> oracle -> option (list ebitmap_node) * oracle :=
  fix aux (n2 : list ebitmap_node) (o : oracle) {struct n2} :=
    match n1, n2 with
    | [], [] => (Some [], o)
    | _, _ =>
      let '(ok, o) := malloc o in
      if negb ok then (None, o) else
      match n1, n2 with
      | a :: n1', b :: n2' =>
          if startbit a =? startbit b then
            cons_res (mk_node (startbit a) (Z.lor (nmap a) (nmap b))) (or_loop n1' n2' o)
          else if startbit a <? startbit b then
            cons_res (mk_node (startbit a) (nmap a)) (or_loop n1' n2 o)
          else
            cons_res (mk_node (startbit b) (nmap b)) (aux n2' o)
      | a :: n1', [] => cons_res (mk_node (startbit a) (nmap a)) (or_loop n1' n2 o)
      | [], b :: n2' => cons_res (mk_node (startbit b) (nmap b)) (aux n2' o)
      | [], [] => (Some [], o)
      end
    end.

Definition ebitmap_or (e1 e2 : ebitmap) (o : oracle) : Z * ebitmap * oracle :=
  match or_loop (node e1) (node e2) o with
  | (None, o) => (- ENOMEM, ebitmap_init, o)
  | (Some l, o) =>
      (0, mk_ebitmap l (if highbit e2 <? highbit e1 then highbit e1 else highbit e2), o)
  end.

Definition ebitmap_union (dst e1 : ebitmap) (o : oracle) : Z * ebitmap * oracle :=
  match ebitmap_or dst e1 o with
  | (rc, tmp, o) => if ctrue rc then (-1, dst, o) else (0, tmp, o)
  end.

(** The [while (n1 && n2)] loop of [ebitmap_and]. *)
Fixpoint and_loop (n1 : list ebitmap_node) :
    list ebitmap_node -> oracle -> option (list ebitmap_node) * oracle :=
  fix aux (n2 : list ebitmap_node) (o : oracle) {struct n2} :=
    match n1, n2 with
    | a :: n1', b :: n2' =>
        if startbit a =? startbit b then
          if ctrue (Z.land (nmap a) (nmap b)) then
            let '(ok, o) := malloc o in
            if negb ok then (None, o) else
            cons_res (mk_node (startbit a) (Z.land (nmap a) (nmap b))) (and_loop n1' n2' o)
          else and_loop n1' n2' o
        else if startbit b <? startbit a then aux n2' o
        else and_loop n1' n2 o
    | _, _ => (Some [], o)
    end.

(** [if (new) dst->highbit = new->startbit + MAPSIZE]: [new] is the last
    node appended, NULL when there is none. *)
Definition set_highbit_new (l : list ebitmap_node) : ebitmap :=
  mk_ebitmap l (match last l with Some new => u32 (startbit new + MAPSIZE) | None => 0 end).

Definition ebitmap_and (e1 e2 : ebitmap) (o : oracle) : Z * ebitmap * oracle :=
  match and_loop (node e1) (node e2) o with
  | (None, o) => (- ENOMEM, ebitmap_init, o)
  | (Some l, o) => (0, set_highbit_new l, o)
  end.

(** Append the node when [map != 0], as the loops of [ebitmap_xor] and
    [ebitmap_not] do. *)
Definition append_nonzero (start map : Z) (o : oracle)
    (k : oracle -> option (list ebitmap_node) * oracle) :
    option (list ebitmap_node) * oracle :=
  if ctrue map then
    let '(ok, o) := malloc o in
    if negb ok then (None, o) else cons_res (mk_node start map) (k o)
  else k o.

(** The [while (n1 || n2)] loop of [ebitmap_xor]. *)
Fixpoint xor_loop (n1 : list ebitmap_node) :
    list ebitmap_node -> oracle -> option (list ebitmap_node) * oracle :=
  fix aux (n2 : list ebitmap_node) (o : oracle) {struct n2} :=
    match n1, n2 with
    | a :: n1', b :: n2' =>
        if startbit a =? startbit b then
          append_nonzero (startbit a) (Z.lxor (nmap a) (nmap b)) o (xor_loop n1' n2')
        else if startbit a <? startbit b then
          append_nonzero (startbit a) (nmap a) o (xor_loop n1' n2)
        else append_nonzero (startbit b) (nmap b) o (aux n2')
    | a :: n1', [] => append_nonzero (startbit a) (nmap a) o (xor_loop n1' n2)
    | [], b :: n2' => append_nonzero (startbit b) (nmap b) o (aux n2')
    | [], [] => (Some [], o)
    end.

Definition ebitmap_xor (e1 e2 : ebitmap) (o : oracle) : Z * ebitmap * oracle :=
  match xor_loop (node e1) (node e2) o with
  | (None, o) => (- ENOMEM, ebitmap_init, o)
  | (Some l, o) => (0, set_highbit_new l, o)
  end.

(** Result of a loop whose bound the caller chooses and whose counter is a
    32-bit integer: it can also fail to stop. *)
Inductive loop_res :=
| LDone (l : list ebitmap_node)
| LNoMem (l : list ebitmap_node)
| LFuel.

Definition cons_loop (n : ebitmap_node) (r : loop_res * oracle) : loop_res * oracle :=
  let '(r, o) := r in
  (match r with LDone l => LDone (n :: l) | LNoMem l => LNoMem (n :: l) | LFuel => LFuel end, o).

(** The [for (cur_startbit = 0; cur_startbit < maxbit; cur_startbit += MAPSIZE)]
    loop of [ebitmap_not]; one unit of fuel per iteration. *)
Fixpoint not_loop (fuel : nat) (cur maxbit : Z) (n : list ebitmap_node) (o : oracle) :
    loop_res * oracle :=
  if cur <? maxbit then
    match fuel with
    | O => (LFuel, o)
    | S fuel =>
        let '(start, map, n) :=
          match n with
          | a :: n' =>
              if startbit a =? cur then (startbit a, lnot_w 64 (nmap a), n')
              else (cur, lnot_w 64 0, n)
          | [] => (cur, lnot_w 64 0, n)
          end in
        let map :=
          if maxbit - cur <? MAPSIZE then Z.land map (Z.shiftl 1 (maxbit - cur) - 1) else map in
        if ctrue map then
          let '(ok, o) := malloc o in
          if negb ok then (LNoMem [], o)
          else cons_loop (mk_node start map) (not_loop fuel (u32 (cur + MAPSIZE)) maxbit n o)
        else not_loop fuel (u32 (cur + MAPSIZE)) maxbit n o
    end
  else (LDone [], o).

(** Iterations of a loop that walks the windows below [maxbit]. *)
Definition windows (maxbit : Z) : nat := Z.to_nat (maxbit / MAPSIZE + 1).

(** [None] is a call that does not return. *)
Definition ebitmap_not (e1 : ebitmap) (maxbit : Z) (o : oracle) : option (Z * ebitmap * oracle) :=
  match not_loop (windows maxbit) 0 maxbit (node e1) o with
  | (LFuel, _) => None
  | (LNoMem _, o) => Some (- ENOMEM, ebitmap_init, o)
  | (LDone l, o) => Some (0, set_highbit_new l, o)
  end.

Definition ebitmap_andnot (e1 e2 : ebitmap) (maxbit : Z) (o : oracle) :
    option (Z * ebitmap * oracle) :=
  match ebitmap_not e2 maxbit o with
  | None => None
  | Some (rc, e3, o) =>
      if rc <? 0 then Some (rc, ebitmap_init, o) else
      let '(rc, dst, o) := ebitmap_and e1 e3 o in
      if rc <? 0 then Some (rc, dst, o) else Some (0, dst, o)
  end.

(** [__builtin_popcountll]. *)
Definition popcountll (x : Z) : Z := popcount_upto 64 x.

Fixpoint cardinality_loop (n : list ebitmap_node) (count : Z) : Z :=
  match n with
  | [] => count
  | a :: n' => cardinality_loop n' (u32 (count + popcountll (nmap a)))
  end.

Definition ebitmap_cardinality (e1 : ebitmap) : Z := cardinality_loop (node e1) 0.

(** The comparison loop of [ebitmap_cmp]: where it stops. *)
Fixpoint cmp_loop (n1 n2 : list ebitmap_node) : list ebitmap_node * list ebitmap_node :=
  match n1, n2 with
  | a :: n1', b :: n2' =>
      if (startbit a =? startbit b) && (nmap a =? nmap b) then cmp_loop n1' n2' else (n1, n2)
  | _, _ => (n1, n2)
  end.

Definition is_null {A} (l : list A) : bool := match l with [] => true | _ => false end.

Definition ebitmap_cmp (e1 e2 : ebitmap) : Z :=
  if negb (highbit e1 =? highbit e2) then 0
  else let '(n1, n2) := cmp_loop (node e1) (node e2) in
       if negb (is_null n1) || negb (is_null n2) then 0 else 1.

(** [int distance = ebitmap_cardinality(&tmp)]: the unsigned count read as
    an [int]. *)
Definition s32 (x : Z) : Z := let y := u32 x in if y <? 2 ^ 31 then y else y - 2 ^ 32.

Definition ebitmap_hamming_distance (e1 e2 : ebitmap) (o : oracle) : Z * oracle :=
  if ctrue (ebitmap_cmp e1 e2) then (0, o)
  else let '(rc, tmp, o) := ebitmap_xor e1 e2 o in
       if rc <? 0 then (-1, o) else (s32 (ebitmap_cardinality tmp), o).

Fixpoint cpy_loop (n : list ebitmap_node) (o : oracle) : option (list ebitmap_node) * oracle :=
  match n with
  | [] => (Some [], o)
  | a :: n' =>
      let '(ok, o) := malloc o in
      if negb ok then (None, o) else cons_res (mk_node (startbit a) (nmap a)) (cpy_loop n' o)
  end.

Definition ebitmap_cpy (src : ebitmap) (o : oracle) : Z * ebitmap * oracle :=
  match cpy_loop (node src) o with
  | (None, o) => (- ENOMEM, ebitmap_init, o)
  | (Some l, o) => (0, mk_ebitmap l (highbit src), o)
  end.

(** The loop of [ebitmap_contains]: [None] for the early [return 0], else
    what is left of [n2]. *)
Fixpoint contains_loop (n1 n2 : list ebitmap_node) : option (list ebitmap_node) :=
  match n1, n2 with
  | a :: n1', b :: n2' =>
      if startbit a <=? startbit b then
        if startbit a <? startbit b then contains_loop n1' n2
        else if negb (Z.land (nmap a) (nmap b) =? nmap b) then None
        else contains_loop n1' n2'
      else Some n2
  | _, _ => Some n2
  end.

Definition ebitmap_contains (e1 e2 : ebitmap) : Z :=
  if highbit e1 <? highbit e2 then 0
  else match contains_loop (node e1) (node e2) with
       | None => 0
       | Some n2 => if negb (is_null n2) then 0 else 1
       end.

Fixpoint match_any_loop (n1 : list ebitmap_node) : list ebitmap_node -> Z :=
  fix aux (n2 : list ebitmap_node) {struct n2} :=
    match n1, n2 with
    | a :: n1', b :: n2' =>
        if startbit a <? startbit b then match_any_loop n1' n2
        else if startbit b <? startbit a then aux n2'
        else if ctrue (Z.land (nmap a) (nmap b)) then 1
        else match_any_loop n1' n2'
    | _, _ => 0
    end.

Definition ebitmap_match_any (e1 e2 : ebitmap) : Z := match_any_loop (node e1) (node e2).

Fixpoint get_bit_loop (n : list ebitmap_node) (bit : Z) : Z :=
  match n with
  | a :: n' =>
      if startbit a <=? bit then
        if bit <? startbit a + MAPSIZE then
          if ctrue (Z.land (nmap a) (Z.shiftl 1 (bit - startbit a))) then 1 else 0
        else get_bit_loop n' bit
      else 0
  | [] => 0
  end.

Definition ebitmap_get_bit (e : ebitmap) (bit : Z) : Z :=
  if highbit e <? bit then 0 else get_bit_loop (node e) bit.

(** The part of [ebitmap_set_bit] after its loop: [n] is where the loop
    stopped, the result the list that now hangs off [prev]. *)
Definition set_bit_insert (n : list ebitmap_node) (bit value sbit hbit high : Z) (o : oracle) :
    Z * list ebitmap_node * Z * oracle :=
  if value =? 0 then (0, n, high, o) else
  let '(ok, o) := malloc o in
  if negb ok then (- ENOMEM, n, high, o)
  else (0, mk_node sbit (Z.shiftl 1 (bit - sbit)) :: n, (if is_null n then hbit else high), o).

(** The [while (n && n->startbit <= bit)] loop of [ebitmap_set_bit];
    the result is (rc, the list from [n] on, e->highbit, oracle). *)
Fixpoint set_bit_loop (prev : option ebitmap_node) (n : list ebitmap_node)
    (bit value sbit hbit high : Z) (o : oracle) : Z * list ebitmap_node * Z * oracle :=
  match n with
  | a :: n' =>
      if startbit a <=? bit then
        if bit <? startbit a + MAPSIZE then
          if ctrue value then
            (0, mk_node (startbit a) (Z.lor (nmap a) (Z.shiftl 1 (bit - startbit a))) :: n', high, o)
          else
            let map := Z.land (nmap a) (lnot_w 64 (Z.shiftl 1 (bit - startbit a))) in
            if map =? 0 then
              (0, n',
               (if is_null n' then
                  match prev with Some p => u32 (startbit p + MAPSIZE) | None => 0 end
                else high), o)
            else (0, mk_node (startbit a) map :: n', high, o)
        else
          let '(rc, l, high, o) := set_bit_loop (Some a) n' bit value sbit hbit high o in
          (rc, a :: l, high, o)
      else set_bit_insert n bit value sbit hbit high o
  | [] => set_bit_insert n bit value sbit hbit high o
  end.

(** [bit & ~(MAPSIZE - 1)]. *)
Definition align (bit : Z) : Z := u32 (Z.land bit (lnot_w 64 (MAPSIZE - 1))).

Definition ebitmap_set_bit (e : ebitmap) (bit value : Z) (o : oracle) : Z * ebitmap * oracle :=
  let sbit := align bit in
  let hbit := u32 (sbit + MAPSIZE) in
  if hbit =? 0 then (- EINVAL, e, o) else
  let '(rc, l, high, o) := set_bit_loop None (node e) bit value sbit hbit (highbit e) o in
  (rc, mk_ebitmap l high, o).

(** The map of the node at [start] in [ebitmap_init_range]. *)
Definition init_range_map (start minstart maxstart minbit maxbit : Z) : Z :=
  if negb (start =? minstart) && negb (start =? maxstart) then lnot_w 64 0
  else if negb (start =? maxstart) then u64 (Z.shiftl (lnot_w 64 0) (minbit - start))
  else if negb (start =? minstart) then
    Z.shiftr (lnot_w 64 0) (MAPSIZE - (maxbit - start + 1))
  else
    let mask := Z.shiftr (lnot_w 64 0) (MAPSIZE - (maxbit - minbit + 1)) in
    u64 (Z.shiftl mask (minbit - start)).

(** The [for (startbit = minstartbit; ...)] loop of [ebitmap_init_range]. *)
Fixpoint init_range_loop (fuel : nat) (start minstart maxstart minbit maxbit : Z) (o : oracle) :
    loop_res * oracle :=
  if start <=? maxstart then
    match fuel with
    | O => (LFuel, o)
    | S fuel =>
        let '(ok, o) := malloc o in
        if negb ok then (LNoMem [], o) else
        cons_loop (mk_node start (init_range_map start minstart maxstart minbit maxbit))
          (init_range_loop fuel (u32 (start + MAPSIZE)) minstart maxstart minbit maxbit o)
    end
  else (LDone [], o).

(** [None] is a call that does not return.  When an allocation fails the
    nodes built so far stay in the bitmap. *)
Definition ebitmap_init_range (minbit maxbit : Z) (o : oracle) : option (Z * ebitmap * oracle) :=
  let minstart := align minbit in
  let maxstart := align maxbit in
  let minhigh := u32 (minstart + MAPSIZE) in
  let maxhigh := u32 (maxstart + MAPSIZE) in
  if maxbit <? minbit then Some (- EINVAL, ebitmap_init, o)
  else if (minhigh =? 0) || (maxhigh =? 0) then Some (- EOVERFLOW, ebitmap_init, o)
  else match init_range_loop (windows maxbit) minstart minstart maxstart minbit maxbit o with
       | (LFuel, _) => None
       | (LNoMem l, o) => Some (- ENOMEM, mk_ebitmap l 0, o)
       | (LDone l, o) => Some (0, mk_ebitmap l maxhigh, o)
       end.

(** [while (map >>= 1) pos++]. *)
Fixpoint highest_loop (fuel : nat) (map pos : Z) : Z :=
  match fuel with
  | O => pos
  | S fuel =>
      let map := Z.shiftr map 1 in
      if ctrue map then highest_loop fuel map (u32 (pos + 1)) else pos
  end.

Definition ebitmap_highest_set_bit (e : ebitmap) : Z :=
  match last (node e) with
  | None => 0
  | Some n => u32 (startbit n + highest_loop 64 (nmap n) 0)
  end.

(** ** Iteration (ebitmap.h) *)

Definition ebitmap_is_empty (e : ebitmap) : bool := is_null (node e).

Definition ebitmap_length (e : ebitmap) : Z :=
  match node e with [] => 0 | _ => highbit e end.

Definition ebitmap_startbit (e : ebitmap) : Z :=
  match node e with [] => 0 | a :: _ => startbit a end.

Definition ebitmap_node_get_bit (n : ebitmap_node) (bit : Z) : Z :=
  if ctrue (Z.land (nmap n) (Z.shiftl 1 (bit - startbit n))) then 1 else 0.

(** [ebitmap_next]: [n] is the pointer with what follows it. *)
Definition ebitmap_next (n : list ebitmap_node) (bit : Z) : list ebitmap_node * Z :=
  match n with
  | a :: b :: n' =>
      if bit =? startbit a + MAPSIZE - 1 then (b :: n', startbit b) else (n, u32 (bit + 1))
  | _ => (n, u32 (bit + 1))
  end.

(** [ebitmap_for_each_positive_bit]: the bits the loop body runs on, in
    order; one unit of fuel per evaluation of the loop condition. *)
Fixpoint for_each_positive_bit_loop (fuel : nat) (len : Z) (n : list ebitmap_node) (bit : Z) :
    option (list Z) :=
  match fuel with
  | O => None
  | S fuel =>
      if bit <? len then
        let '(n', bit') := ebitmap_next n bit in
        match for_each_positive_bit_loop fuel len n' bit' with
        | None => None
        | Some l =>
            match n with
            | a :: _ => if ctrue (ebitmap_node_get_bit a bit) then Some (bit :: l) else Some l
            | [] => Some l
            end
        end
      else Some []
  end.

Definition for_each_positive_bit (e : ebitmap) : option (list Z) :=
  for_each_positive_bit_loop (S (64 * length (node e))) (ebitmap_length e) (node e)
    (ebitmap_startbit e).

(** ** The abstraction: a bitmap is a finite set of bit positions *)

Definition node_bit (n : ebitmap_node) (b : Z) : bool :=
  (startbit n <=? b) && (b <? startbit n + MAPSIZE) && Z.testbit (nmap n) (b - startbit n).

Definition nodes_bit (l : list ebitmap_node) (b : Z) : bool :=
  existsb (fun n => node_bit n b) l.
Arguments nodes_bit : simpl never.

Definition node_bits (n : ebitmap_node) : list Z :=
  filter (fun b => node_bit n b = true) (seqZ (startbit n) MAPSIZE).

(** The bits of a list of nodes, in the order of the list. *)
Definition nodes_bits (l : list ebitmap_node) : list Z := concat (map node_bits l).

Definition ebitmap_set (e : ebitmap) : gset Z := list_to_set (nodes_bits (node e)).

Lemma nodes_bit_unfold n l b : nodes_bit (n :: l) b = node_bit n b || nodes_bit l b.
Proof. done. Qed.

Lemma nodes_bit_nil b : nodes_bit [] b = false.
Proof. done. Qed.

(** Boolean identities between the bits of lists of nodes. *)
Ltac bits_btauto :=
  rewrite ?nodes_bit_unfold, ?nodes_bit_nil; simpl;
  repeat match goal with
  | |- context [nodes_bit ?l ?b] => destruct (nodes_bit l b)
  | |- context [node_bit ?n ?b] => destruct (node_bit n b)
  end; done.

(** ** The representation invariant *)

Definition node_ok (n : ebitmap_node) : Prop :=
  0 <= startbit n /\ startbit n mod MAPSIZE = 0 /\ startbit n + MAPSIZE < 2 ^ 32 /\
  0 < nmap n /\ in_range 64 (nmap n).

Fixpoint nodes_ok (lo : Z) (l : list ebitmap_node) : Prop :=
  match l with
  | [] => True
  | n :: l' => lo <= startbit n /\ node_ok n /\ nodes_ok (startbit n + MAPSIZE) l'
  end.

Definition nodes_high (l : list ebitmap_node) : Z :=
  match last l with Some n => startbit n + MAPSIZE | None => 0 end.

Definition ebitmap_ok (e : ebitmap) : Prop :=
  nodes_ok 0 (node e) /\ highbit e = nodes_high (node e).

(** ** Lemmas on nodes *)

Lemma ctrue_spec x : ctrue x = true <-> x <> 0.
Proof. unfold ctrue. destruct (Z.eqb_spec x 0); simpl; split; congruence. Qed.

Lemma node_bit_spec n b :
  node_bit n b = true <->
  startbit n <= b < startbit n + MAPSIZE /\ Z.testbit (nmap n) (b - startbit n) = true.
Proof. unfold node_bit. rewrite !andb_true_iff, Z.leb_le, Z.ltb_lt. done. Qed.

Lemma node_bit_out n b : ~ startbit n <= b < startbit n + MAPSIZE -> node_bit n b = false.
Proof. intros H. apply not_true_is_false. rewrite node_bit_spec. tauto. Qed.

Lemma elem_of_node_bits n b : b ∈ node_bits n <-> node_bit n b = true.
Proof.
  unfold node_bits. rewrite list_elem_of_filter, elem_of_seqZ, node_bit_spec. tauto.
Qed.

Lemma elem_of_nodes_bits l b : b ∈ nodes_bits l <-> nodes_bit l b = true.
Proof.
  unfold nodes_bits. induction l as [|n l IH]; simpl.
  - split; [by intros ?%elem_of_nil|done].
  - rewrite elem_of_app, elem_of_node_bits, IH, nodes_bit_unfold, orb_true_iff. done.
Qed.

Lemma elem_of_ebitmap_set e b : b ∈ ebitmap_set e <-> nodes_bit (node e) b = true.
Proof. unfold ebitmap_set. by rewrite elem_of_list_to_set, elem_of_nodes_bits. Qed.

(** Two bitmaps whose bits agree have the same set. *)
Lemma ebitmap_set_eq e (X : gset Z) :
  (forall b, nodes_bit (node e) b = true <-> b ∈ X) -> ebitmap_set e = X.
Proof. intros H. apply set_eq. intros b. by rewrite elem_of_ebitmap_set, H. Qed.

Lemma aligned_lt x y : x mod MAPSIZE = 0 -> y mod MAPSIZE = 0 -> x < y -> x + MAPSIZE <= y.
Proof.
  intros Hx Hy H.
  pose proof (Z.div_mod x 64). pose proof (Z.div_mod y 64). lia.
Qed.

Lemma nodes_ok_weaken lo lo' l : lo' <= lo -> nodes_ok lo l -> nodes_ok lo' l.
Proof. destruct l; simpl; [done|]. intros ? (? & ? & ?). split_and!; [lia|done|done]. Qed.

(** The list can be entered at the next aligned window. *)
Lemma nodes_ok_after a n l :
  node_ok a -> startbit a < startbit n -> nodes_ok 0 (n :: l) ->
  nodes_ok (startbit a + MAPSIZE) (n :: l).
Proof.
  intros (_ & Ha & _) Hlt (_ & Hn & Hl). split_and!; [|done|done].
  apply aligned_lt; [done|apply Hn|done].
Qed.

Lemma nodes_bit_low lo l b : nodes_ok lo l -> b < lo -> nodes_bit l b = false.
Proof.
  revert lo. induction l as [|n l IH]; intros lo Hok Hb; [done|].
  destruct Hok as (? & _ & Hl). rewrite nodes_bit_unfold, node_bit_out by lia.
  apply (IH (startbit n + MAPSIZE)); [done|]. lia.
Qed.

(** A node and what follows it never share a bit. *)
Lemma nodes_bit_cons lo n l b :
  nodes_ok lo (n :: l) ->
  nodes_bit (n :: l) b =
    if b <? startbit n + MAPSIZE then node_bit n b else nodes_bit l b.
Proof.
  intros (_ & _ & Hl). rewrite nodes_bit_unfold. destruct (Z.ltb_spec b (startbit n + MAPSIZE)).
  - rewrite (nodes_bit_low _ l b Hl) by lia. apply orb_false_r.
  - rewrite node_bit_out by lia. done.
Qed.

Lemma nodes_ok_lo lo l : nodes_ok lo l -> 0 <= lo -> nodes_ok 0 l.
Proof. intros. by apply (nodes_ok_weaken lo). Qed.

Lemma node_ok_mk n m : node_ok n -> 0 < m -> in_range 64 m -> node_ok (mk_node (startbit n) m).
Proof. intros (? & ? & ? & ? & ?) ? ?. unfold node_ok; simpl. split_and!; done. Qed.

Lemma land_pos x y : 0 <= x -> Z.land x y <> 0 -> 0 < Z.land x y.
Proof. intros Hx Hne. assert (0 <= Z.land x y) by (apply Z.land_nonneg; lia). lia. Qed.

Lemma lxor_pos x y : 0 <= x -> 0 <= y -> Z.lxor x y <> 0 -> 0 < Z.lxor x y.
Proof. intros. assert (0 <= Z.lxor x y) by (apply Z.lxor_nonneg; lia). lia. Qed.

Lemma lor_pos x y : 0 < x -> 0 <= y -> 0 < Z.lor x y.
Proof.
  intros. assert (0 <= Z.lor x y) by (apply Z.lor_nonneg; lia).
  assert (Z.lor x y <> 0) by (rewrite Z.lor_eq_0_iff; lia). lia.
Qed.

#[export] Hint Resolve node_ok_mk lor_range land_range_l lxor_range : cdb.

(** ** The two-list loops

    Each loop, when no allocation fails, returns a well-formed list whose
    bits are the pointwise combination of the bits of its arguments. *)

Lemma cons_res_Some n r l o :
  cons_res n r = (Some l, o) -> exists l', r = (Some l', o) /\ l = n :: l'.
Proof. destruct r as [[l'|] o']; simpl; intros; simplify_eq; eauto. Qed.

(** One step of a merge: the head windows are combined with [f], the tails
    recursively. *)
Lemma merge_bits lo (f : bool -> bool -> bool) a n1 c n2 m l b :
  f false false = false ->
  nodes_ok lo (a :: n1) -> nodes_ok lo (c :: n2) -> startbit a = startbit c ->
  (forall i, 0 <= i < MAPSIZE -> Z.testbit m i = f (Z.testbit (nmap a) i) (Z.testbit (nmap c) i)) ->
  (forall b, nodes_bit l b = f (nodes_bit n1 b) (nodes_bit n2 b)) ->
  nodes_bit (mk_node (startbit a) m :: l) b =
    f (nodes_bit (a :: n1) b) (nodes_bit (c :: n2) b).
Proof.
  intros Hf Ha Hc Heq Hm Hl.
  change (node_bit (mk_node (startbit a) m) b || nodes_bit l b =
    f (nodes_bit (a :: n1) b) (nodes_bit (c :: n2) b)).
  rewrite (nodes_bit_cons lo a), (nodes_bit_cons lo c), <- Heq by done.
  destruct Ha as (_ & _ & Ha), Hc as (_ & _ & Hc). rewrite <- Heq in Hc.
  destruct (Z.ltb_spec b (startbit a + MAPSIZE)).
  - rewrite Hl, (nodes_bit_low _ n1 b Ha), (nodes_bit_low _ n2 b Hc), Hf, orb_false_r by lia.
    unfold node_bit; simpl. rewrite <- Heq.
    destruct (Z.leb_spec (startbit a) b); simpl; [|done].
    destruct (Z.ltb_spec b (startbit a + MAPSIZE)); simpl; [|lia]. apply Hm. lia.
  - rewrite Hl, node_bit_out by (simpl; lia). done.
Qed.

(** The other step: one head window is below everything in the other list. *)
Lemma nodes_bit_below a l b :
  nodes_ok (startbit a + MAPSIZE) l -> node_bit a b = true -> nodes_bit l b = false.
Proof. intros Hl Hb%node_bit_spec. apply (nodes_bit_low _ _ _ Hl). lia. Qed.

Lemma or_loop_ok n1 n2 o l o' lo :
  0 <= lo -> nodes_ok lo n1 -> nodes_ok lo n2 -> or_loop n1 n2 o = (Some l, o') ->
  nodes_ok lo l /\ (forall b, nodes_bit l b = nodes_bit n1 b || nodes_bit n2 b).
Proof.
  revert n2 o l o' lo. induction n1 as [|a n1 IH1]; intros n2;
    induction n2 as [|c n2 IH2]; intros o l o' lo Hlo H1 H2 H.
  - simpl in H. simplify_eq. done.
  - simpl in H. malloc_in H; simpl in H; [|done].
    apply cons_res_Some in H as (l' & H & ->). destruct H2 as (? & Hc & H2).
    destruct (IH2 _ _ _ (startbit c + MAPSIZE) ltac:(destruct Hc; lia) I H2 H) as [Hl Hb].
    split; [by destruct c|]. intros b. destruct c. rewrite nodes_bit_unfold, Hb. bits_btauto.
  - simpl in H. malloc_in H; simpl in H; [|done].
    apply cons_res_Some in H as (l' & H & ->). destruct H1 as (? & Ha & H1).
    destruct (IH1 [] _ _ _ (startbit a + MAPSIZE) ltac:(destruct Ha; lia) H1 I H) as [Hl Hb].
    split; [by destruct a|]. intros b. destruct a. rewrite nodes_bit_unfold, Hb. bits_btauto.
  - pose proof H1 as (? & Ha & Hn1). pose proof H2 as (? & Hc & Hn2).
    assert (0 <= startbit a /\ 0 <= startbit c) as [? ?] by (unfold node_ok in *; lia).
    simpl in H. malloc_in H; simpl in H; [|done].
    destruct (Z.eqb_spec (startbit a) (startbit c)) as [Heq|Hne].
    + apply cons_res_Some in H as (l' & H & ->).
      assert (nodes_ok (startbit a + MAPSIZE) n2) by (by rewrite Heq).
      destruct (IH1 _ _ _ _ (startbit a + MAPSIZE) ltac:(lia)
        ltac:(done) ltac:(done) H) as [Hl Hb].
      split.
      * simpl. split_and!; [done| |done]. unfold node_ok in *.
        apply node_ok_mk; [done| |]; [apply lor_pos; lia|apply lor_range; lia || tauto].
      * intros b. apply (merge_bits lo orb); try done. intros. apply Z.lor_spec.
    + destruct (Z.ltb_spec (startbit a) (startbit c)) as [Hlt|Hge].
      * apply cons_res_Some in H as (l' & H & ->).
        destruct (IH1 _ _ _ _ (startbit a + MAPSIZE) ltac:(lia) ltac:(done)
          (nodes_ok_after a c n2 ltac:(done) Hlt (nodes_ok_lo _ _ H2 Hlo)) H) as [Hl Hb].
        split; [by destruct a|]. intros b. destruct a. rewrite nodes_bit_unfold, Hb. bits_btauto.
      * apply cons_res_Some in H as (l' & H & ->).
        destruct (IH2 _ _ _ (startbit c + MAPSIZE) ltac:(lia)
          (nodes_ok_after c a n1 ltac:(done) ltac:(lia) (nodes_ok_lo _ _ H1 Hlo))
          ltac:(done) H) as [Hl Hb].
        split; [by destruct c|]. intros b. destruct c. rewrite nodes_bit_unfold, Hb. bits_btauto.
Qed.

Lemma and_loop_ok n1 n2 o l o' lo :
  0 <= lo -> nodes_ok lo n1 -> nodes_ok lo n2 -> and_loop n1 n2 o = (Some l, o') ->
  nodes_ok lo l /\ (forall b, nodes_bit l b = nodes_bit n1 b && nodes_bit n2 b).
Proof.
  revert n2 o l o' lo. induction n1 as [|a n1 IH1]; intros n2;
    induction n2 as [|c n2 IH2]; intros o l o' lo Hlo H1 H2 H;
    [simpl in H; simplify_eq; split; [done|intros b; bits_btauto]..|].
  pose proof H1 as (? & Ha & Hn1). pose proof H2 as (? & Hc & Hn2).
  assert (0 <= startbit a /\ 0 <= startbit c) as [? ?] by (unfold node_ok in *; lia).
  simpl in H. destruct (Z.eqb_spec (startbit a) (startbit c)) as [Heq|Hne];
    [|destruct (Z.ltb_spec (startbit c) (startbit a)) as [Hlt|Hge]].
  - assert (nodes_ok (startbit a + MAPSIZE) n2) by (by rewrite Heq).
    assert (Hbits : forall l', (forall b, nodes_bit l' b = nodes_bit n1 b && nodes_bit n2 b) ->
      forall b, nodes_bit (mk_node (startbit a) (Z.land (nmap a) (nmap c)) :: l') b =
        nodes_bit (a :: n1) b && nodes_bit (c :: n2) b).
    { intros l' Hl' b. apply (merge_bits lo andb); try done. intros. apply Z.land_spec. }
    destruct (ctrue _) eqn:Hm.
    + apply ctrue_spec in Hm. malloc_in H; simpl in H; [|done].
      apply cons_res_Some in H as (l' & H & ->).
      destruct (IH1 _ _ _ _ (startbit a + MAPSIZE) ltac:(lia)
        ltac:(done) ltac:(done) H) as [Hl Hb]. split; [|by apply Hbits].
      split_and!; [done| |done]. unfold node_ok in *.
      apply node_ok_mk; [done|apply land_pos; lia|apply land_range_l; [lia|tauto]].
    + destruct (IH1 _ _ _ _ (startbit a + MAPSIZE) ltac:(lia)
        ltac:(done) ltac:(done) H) as [Hl Hb].
      split; [apply (nodes_ok_weaken (startbit a + MAPSIZE)); [lia|done]|].
      intros b. rewrite <- (Hbits l Hb b), nodes_bit_unfold.
      assert (Z.land (nmap a) (nmap c) = 0) as ->.
      { unfold ctrue in Hm. destruct (Z.eqb_spec (Z.land (nmap a) (nmap c)) 0); done. }
      unfold node_bit at 1. simpl. by rewrite Z.testbit_0_l, andb_false_r.
  - pose proof (nodes_ok_after c a n1 Hc Hlt (nodes_ok_lo _ _ H1 Hlo)) as Hafter.
    destruct (IH2 _ _ _ (startbit c + MAPSIZE) ltac:(lia) Hafter Hn2 H) as [Hl Hb].
    split; [apply (nodes_ok_weaken (startbit c + MAPSIZE)); [lia|done]|].
    intros b. rewrite Hb, (nodes_bit_unfold c). destruct (node_bit c b) eqn:Hcb; simpl; [|done].
    rewrite (nodes_bit_below c _ _ Hafter Hcb). done.
  - pose proof (nodes_ok_after a c n2 Ha ltac:(lia) (nodes_ok_lo _ _ H2 Hlo)) as Hafter.
    destruct (IH1 _ _ _ _ (startbit a + MAPSIZE) ltac:(lia) Hn1 Hafter H) as [Hl Hb].
    split; [apply (nodes_ok_weaken (startbit a + MAPSIZE)); [lia|done]|].
    intros b. rewrite Hb, (nodes_bit_unfold a). destruct (node_bit a b) eqn:Hab; simpl; [|done].
    rewrite (nodes_bit_below a _ _ Hafter Hab). by rewrite andb_false_r.
Qed.

Lemma append_nonzero_Some s m o k l o' :
  append_nonzero s m o k = (Some l, o') ->
  exists l' o1, k o1 = (Some l', o') /\
    (forall b, nodes_bit l b = nodes_bit (mk_node s m :: l') b) /\
    (forall lo, lo <= s -> (m <> 0 -> node_ok (mk_node s m)) -> nodes_ok (s + MAPSIZE) l' ->
      nodes_ok lo l).
Proof.
  unfold append_nonzero. destruct (ctrue m) eqn:Hm; intros H.
  - malloc_in H; simpl in H; [|done]. apply cons_res_Some in H as (l' & H & ->).
    eexists l', _. split_and!; [exact H|done|]. intros. apply ctrue_spec in Hm. simpl. auto.
  - exists l, o. split_and!; [done| |].
    + intros b. assert (m = 0) as -> by (unfold ctrue in Hm; destruct (Z.eqb_spec m 0); done).
      rewrite nodes_bit_unfold. unfold node_bit. simpl. by rewrite Z.testbit_0_l, andb_false_r.
    + intros lo ? _ ?. apply (nodes_ok_weaken (s + MAPSIZE)); [lia|done].
Qed.

Lemma xorb_below a l1 l2 b :
  nodes_ok (startbit a + MAPSIZE) l2 -> nodes_ok (startbit a + MAPSIZE) l1 ->
  node_bit a b || xorb (nodes_bit l1 b) (nodes_bit l2 b) =
  xorb (node_bit a b || nodes_bit l1 b) (nodes_bit l2 b).
Proof.
  intros H2 H1. destruct (node_bit a b) eqn:Hb; simpl; [|done].
  by rewrite (nodes_bit_below a _ _ H2 Hb).
Qed.

Lemma xor_loop_ok n1 n2 o l o' lo :
  0 <= lo -> nodes_ok lo n1 -> nodes_ok lo n2 -> xor_loop n1 n2 o = (Some l, o') ->
  nodes_ok lo l /\ (forall b, nodes_bit l b = xorb (nodes_bit n1 b) (nodes_bit n2 b)).
Proof.
  revert n2 o l o' lo. induction n1 as [|a n1 IH1]; intros n2;
    induction n2 as [|c n2 IH2]; intros o l o' lo Hlo H1 H2 H.
  - simpl in H. simplify_eq. done.
  - simpl in H. apply append_nonzero_Some in H as (l' & o1 & H & Hbl & Hok).
    destruct H2 as (? & Hc & H2).
    destruct (IH2 _ _ _ (startbit c + MAPSIZE) ltac:(destruct Hc; lia) I H2 H) as [Hl Hb].
    split; [apply Hok; [done| |done]; by destruct c|].
    intros b. destruct c. rewrite Hbl, nodes_bit_unfold, Hb. bits_btauto.
  - simpl in H. apply append_nonzero_Some in H as (l' & o1 & H & Hbl & Hok).
    destruct H1 as (? & Ha & H1).
    destruct (IH1 [] _ _ _ (startbit a + MAPSIZE) ltac:(destruct Ha; lia) H1 I H) as [Hl Hb].
    split; [apply Hok; [done| |done]; by destruct a|].
    intros b. destruct a. rewrite Hbl, nodes_bit_unfold, Hb. bits_btauto.
  - pose proof H1 as (? & Ha & Hn1). pose proof H2 as (? & Hc & Hn2).
    assert (0 <= startbit a /\ 0 <= startbit c) as [? ?] by (unfold node_ok in *; lia).
    simpl in H. destruct (Z.eqb_spec (startbit a) (startbit c)) as [Heq|Hne];
      [|destruct (Z.ltb_spec (startbit a) (startbit c)) as [Hlt|Hge]];
      apply append_nonzero_Some in H as (l' & o1 & H & Hbl & Hok).
    + assert (nodes_ok (startbit a + MAPSIZE) n2) by (by rewrite Heq).
      destruct (IH1 _ _ _ _ (startbit a + MAPSIZE) ltac:(lia)
        ltac:(done) ltac:(done) H) as [Hl Hb]. split.
      * apply Hok; [done| |done]. intros Hm. unfold node_ok in *.
        apply node_ok_mk; [done|apply lxor_pos; lia|apply lxor_range; [lia|tauto|tauto]].
      * intros b. rewrite Hbl. apply (merge_bits lo xorb); try done. intros. apply Z.lxor_spec.
    + pose proof (nodes_ok_after a c n2 Ha Hlt (nodes_ok_lo _ _ H2 Hlo)) as Hafter.
      destruct (IH1 _ _ _ _ (startbit a + MAPSIZE) ltac:(lia) Hn1 Hafter H) as [Hl Hb].
      split; [apply Hok; [done| |done]; by destruct a|].
      intros b. rewrite Hbl, nodes_bit_unfold, Hb, (nodes_bit_unfold a). destruct a. by apply xorb_below.
    + pose proof (nodes_ok_after c a n1 Hc ltac:(lia) (nodes_ok_lo _ _ H1 Hlo)) as Hafter.
      destruct (IH2 _ _ _ (startbit c + MAPSIZE) ltac:(lia) Hafter Hn2 H) as [Hl Hb].
      split; [apply Hok; [done| |done]; by destruct c|].
      intros b. rewrite Hbl, nodes_bit_unfold, Hb, (nodes_bit_unfold c), xorb_comm. destruct c.
      rewrite xorb_below by done. apply xorb_comm.
Qed.

(** ** The high bit *)

Lemma nodes_high_cons a l : l <> [] -> nodes_high (a :: l) = nodes_high l.
Proof. intros. unfold nodes_high. destruct l; done. Qed.

Lemma node_ok_bit n : node_ok n -> exists b, node_bit n b = true.
Proof.
  intros (? & ? & ? & Hpos & Hr). destruct (nonzero_has_bit 64 _ Hr Hpos) as (i & Hi & Hbit).
  exists (startbit n + i). apply node_bit_spec.
  replace (startbit n + i - startbit n) with i by lia. split; [|done]. lia.
Qed.

Lemma nodes_high_props lo l :
  0 <= lo -> nodes_ok lo l ->
  nodes_high l mod MAPSIZE = 0 /\ 0 <= nodes_high l < 2 ^ 32 /\
  (forall b, nodes_bit l b = true -> b < nodes_high l) /\
  (l <> [] -> lo + MAPSIZE <= nodes_high l /\
     exists b, nodes_high l - MAPSIZE <= b /\ nodes_bit l b = true).
Proof.
  revert lo. induction l as [|a l IH]; intros lo Hlo Hok; [done|].
  destruct Hok as (? & Ha & Hl).
  destruct (IH (startbit a + MAPSIZE) ltac:(lia) Hl) as (Hm & Hr & Hb & Htop).
  destruct l as [|c l].
  - unfold nodes_high. simpl. destruct (node_ok_bit a Ha) as [b Hab].
    pose proof Ha as (? & Hmod & ? & ?). split_and!; [|lia|lia| |].
    + rewrite <- Z.add_mod_idemp_l, Hmod by done. done.
    + intros b'. rewrite nodes_bit_unfold, nodes_bit_nil, orb_false_r, node_bit_spec. lia.
    + intros _. split; [lia|]. exists b. rewrite nodes_bit_unfold, Hab. split; [|done].
      apply node_bit_spec in Hab. lia.
  - rewrite nodes_high_cons by done. destruct (Htop ltac:(done)) as (Hge & b & Hbge & Hbit).
    split_and!; [done|lia|lia| |].
    + intros b'. rewrite nodes_bit_unfold, orb_true_iff, node_bit_spec.
      intros [?|?]; [lia|auto].
    + intros _. split; [lia|]. exists b. split; [done|].
      by rewrite nodes_bit_unfold, Hbit, orb_true_r.
Qed.

(** The high bit grows with the set of bits. *)
Lemma nodes_high_le l1 l2 :
  nodes_ok 0 l1 -> nodes_ok 0 l2 ->
  (forall b, nodes_bit l1 b = true -> nodes_bit l2 b = true) -> nodes_high l1 <= nodes_high l2.
Proof.
  intros H1 H2 Hsub.
  destruct (nodes_high_props 0 l1 ltac:(done) H1) as (Hm1 & Hr1 & Hb1 & Ht1).
  destruct (nodes_high_props 0 l2 ltac:(done) H2) as (Hm2 & Hr2 & Hb2 & Ht2).
  destruct (decide (l1 = [])) as [->|Hne]; [unfold nodes_high at 1; simpl; lia|].
  destruct (Ht1 Hne) as (_ & b & Hge & Hbit). apply Hsub, Hb2 in Hbit.
  destruct (Z.le_gt_cases (nodes_high l1) (nodes_high l2)) as [?|Hgt]; [done|].
  pose proof (aligned_lt _ _ Hm2 Hm1 ltac:(lia)). lia.
Qed.

Lemma nodes_high_or l n1 n2 :
  nodes_ok 0 l -> nodes_ok 0 n1 -> nodes_ok 0 n2 ->
  (forall b, nodes_bit l b = nodes_bit n1 b || nodes_bit n2 b) ->
  nodes_high l = Z.max (nodes_high n1) (nodes_high n2).
Proof.
  intros Hl H1 H2 Hb.
  assert (nodes_high n1 <= nodes_high l).
  { apply nodes_high_le; [done..|]. intros b E. by rewrite Hb, E. }
  assert (nodes_high n2 <= nodes_high l).
  { apply nodes_high_le; [done..|]. intros b E. by rewrite Hb, E, orb_true_r. }
  destruct (nodes_high_props 0 l ltac:(done) Hl) as (Hm & Hr & _ & Ht).
  destruct (nodes_high_props 0 n1 ltac:(done) H1) as (Hm1 & Hr1 & Hb1 & _).
  destruct (nodes_high_props 0 n2 ltac:(done) H2) as (Hm2 & Hr2 & Hb2 & _).
  destruct (decide (l = [])) as [->|Hne]; [unfold nodes_high in *; simpl in *; lia|].
  destruct (Ht Hne) as (_ & b & Hge & Hbit). rewrite Hb in Hbit.
  assert (b < Z.max (nodes_high n1) (nodes_high n2)).
  { apply orb_true_iff in Hbit as [?%Hb1|?%Hb2]; lia. }
  assert (Z.max (nodes_high n1) (nodes_high n2) mod MAPSIZE = 0) by (destruct (Z.max_spec (nodes_high n1) (nodes_high n2)) as [[_ ->]|[_ ->]]; done).
  destruct (Z.le_gt_cases (nodes_high l) (Z.max (nodes_high n1) (nodes_high n2))); [lia|].
  pose proof (aligned_lt (Z.max (nodes_high n1) (nodes_high n2)) (nodes_high l)). lia.
Qed.

(** A freshly built list with its recomputed high bit is well formed. *)
Lemma set_highbit_new_ok l : nodes_ok 0 l -> ebitmap_ok (set_highbit_new l).
Proof.
  intros Hl. split; [done|]. unfold set_highbit_new, nodes_high. simpl.
  destruct (nodes_high_props 0 l ltac:(done) Hl) as (_ & Hr & _). unfold nodes_high in Hr.
  destruct (last l); [|done]. by apply wrap_small.
Qed.

(** ** Canonicity: the nodes are determined by the set *)

Lemma nodes_ok_head_bit lo a l :
  nodes_ok lo (a :: l) -> exists b, startbit a <= b < startbit a + MAPSIZE /\ nodes_bit (a :: l) b = true.
Proof.
  intros (_ & Ha & _). destruct (node_ok_bit a Ha) as [b Hb]. exists b.
  rewrite nodes_bit_unfold, Hb. apply node_bit_spec in Hb. split; [lia|done].
Qed.

Lemma nodes_canonical l1 l2 lo1 lo2 :
  nodes_ok lo1 l1 -> nodes_ok lo2 l2 ->
  (forall b, nodes_bit l1 b = nodes_bit l2 b) -> l1 = l2.
Proof.
  revert l2 lo1 lo2. induction l1 as [|a l1 IH]; intros [|c l2] lo1 lo2 H1 H2 Hb.
  - done.
  - destruct (nodes_ok_head_bit _ _ _ H2) as (b & _ & E). by rewrite <- Hb in E.
  - destruct (nodes_ok_head_bit _ _ _ H1) as (b & _ & E). by rewrite Hb in E.
  - pose proof H1 as (_ & Ha & Hl1). pose proof H2 as (_ & Hc & Hl2).
    assert (Hs : startbit a = startbit c).
    { destruct (nodes_ok_head_bit _ _ _ H1) as (b1 & Hr1 & E1). rewrite Hb in E1.
      destruct (nodes_ok_head_bit _ _ _ H2) as (b2 & Hr2 & E2). rewrite <- Hb in E2.
      destruct (Z.lt_trichotomy (startbit a) (startbit c)) as [Hlt|[?|Hlt]]; [|done|].
      - pose proof (aligned_lt _ _ (proj1 (proj2 Ha)) (proj1 (proj2 Hc)) Hlt).
        rewrite (nodes_bit_low (startbit c)) in E1 by (simpl; split_and?; done || lia). done.
      - pose proof (aligned_lt _ _ (proj1 (proj2 Hc)) (proj1 (proj2 Ha)) Hlt).
        rewrite (nodes_bit_low (startbit a)) in E2 by (simpl; split_and?; done || lia). done. }
    assert (Hm : nmap a = nmap c).
    { apply (range_eq_bits 64); [lia|apply Ha|apply Hc|]. intros i Hi. specialize (Hb (startbit a + i)).
      rewrite (nodes_bit_cons _ _ _ _ H1), (nodes_bit_cons _ _ _ _ H2), <- Hs in Hb.
      destruct (Z.ltb_spec (startbit a + i) (startbit a + 64)); [|lia].
      unfold node_bit in Hb. rewrite <- Hs in Hb.
      destruct (Z.leb_spec (startbit a) (startbit a + i)); [|lia].
      destruct (Z.ltb_spec (startbit a + i) (startbit a + 64)); [|lia].
      by replace (startbit a + i - startbit a) with i in Hb by lia. }
    f_equal; [destruct a, c; simpl in *; congruence|].
    apply (IH l2 (startbit a + MAPSIZE) (startbit c + MAPSIZE)); [done..|].
    intros b. destruct (Z.ltb_spec b (startbit a + MAPSIZE)).
    + rewrite (nodes_bit_low _ _ _ Hl1), (nodes_bit_low _ _ _ Hl2); [done|lia|lia].
    + specialize (Hb b). rewrite (nodes_bit_cons _ _ _ _ H1), (nodes_bit_cons _ _ _ _ H2), <- Hs in Hb.
      destruct (Z.ltb_spec b (startbit a + MAPSIZE)); [lia|done].
Qed.
