(* ===== verification/EbitmapThms.v ===== *)
(** * EbitmapThms: the bitmap operations implement finite sets

    Every operation of [Ebitmap] preserves the representation invariant
    [ebitmap_ok] and computes the operation on sets of bits its name
    promises; where it allocates, the only other outcome is -ENOMEM. *)
From Stdlib Require Import ZArith Lia Bool.
From stdpp Require Import base list list_numbers gmap sets.
From S2P Require Import Prelude Ebitmap.

(** What a set-valued operation returns: the set [X] in a well-formed
    bitmap, or -ENOMEM and the empty bitmap, the latter only if an
    allocation failed. *)
Definition returns_set (o : oracle) (X : gset Z) (r : Z * ebitmap * oracle) : Prop :=
  let '(rc, dst, o') := r in
  (rc = 0 /\ ebitmap_ok dst /\ ebitmap_set dst = X) \/
  (rc = - ENOMEM /\ dst = ebitmap_init /\ ~ mem_ok o).

Lemma cons_res_None n r o : cons_res n r = (None, o) -> r = (None, o).
Proof. destruct r as [[l'|] o']; simpl; intros; simplify_eq; done. Qed.

(** A loop that fails met a failing allocation. *)
Ltac alloc_fail H :=
  repeat first
    [ progress simplify_eq
    | discriminate H
    | match type of H with
      | context [malloc ?o] =>
          let E := fresh "E" in destruct (malloc o) as [[] ?] eqn:E; simpl in H;
          [|intros M; by destruct (malloc_mem_ok _ _ _ E M)]
      | context [if ?c then _ else _] => destruct c; simpl in H
      | cons_res _ _ = _ => apply cons_res_None in H
      end ];
  intros M;
  repeat match goal with
  | E : malloc _ = (true, _) |- _ => apply malloc_mem_ok in E as [_ E]; [|done]; revert E
  end; intros;
  match goal with IH : forall _, _ |- _ => eapply IH; [exact H|done] end.

Lemma or_loop_fail n1 n2 o o' : or_loop n1 n2 o = (None, o') -> ~ mem_ok o.
Proof.
  revert n2 o o'. induction n1 as [|a n1 IH1]; intros n2; induction n2 as [|c n2 IH2];
    intros o o' H; simpl in H; alloc_fail H.
Qed.

Lemma and_loop_fail n1 n2 o o' : and_loop n1 n2 o = (None, o') -> ~ mem_ok o.
Proof.
  revert n2 o o'. induction n1 as [|a n1 IH1]; intros n2; induction n2 as [|c n2 IH2];
    intros o o' H; simpl in H; alloc_fail H.
Qed.

Lemma append_nonzero_None s m o k o' :
  append_nonzero s m o k = (None, o') ->
  mem_ok o -> exists o1, mem_ok o1 /\ k o1 = (None, o').
Proof.
  unfold append_nonzero. intros H M. destruct (ctrue m); [|by eauto].
  destruct (malloc o) as [ok o1] eqn:E. destruct (malloc_mem_ok _ _ _ E M) as [-> M1].
  simpl in H. apply cons_res_None in H. eauto.
Qed.

Lemma xor_loop_fail n1 n2 o o' : xor_loop n1 n2 o = (None, o') -> ~ mem_ok o.
Proof.
  revert n2 o o'. induction n1 as [|a n1 IH1]; intros n2; induction n2 as [|c n2 IH2];
    intros o o' H M; simpl in H; [done| | |];
    repeat (match type of H with context [if ?c then _ else _] => destruct c end);
    apply append_nonzero_None in H as (o1 & M1 & H); try done;
    match goal with IH : forall _, _ |- _ => eapply IH; [exact H|done] end.
Qed.

Lemma cpy_loop_fail n o o' : cpy_loop n o = (None, o') -> ~ mem_ok o.
Proof. revert o o'. induction n as [|a n IH]; intros o o' H; simpl in H; alloc_fail H. Qed.

(** [set_highbit_new] does not change the set. *)
Lemma set_highbit_new_set l : ebitmap_set (set_highbit_new l) = list_to_set (nodes_bits l).
Proof. done. Qed.

Lemma ebitmap_or_ok e1 e2 o :
  ebitmap_ok e1 -> ebitmap_ok e2 ->
  returns_set o (ebitmap_set e1 ∪ ebitmap_set e2) (ebitmap_or e1 e2 o).
Proof.
  intros [H1 Hh1] [H2 Hh2]. unfold ebitmap_or, returns_set.
  destruct (or_loop _ _ o) as [[l|] o'] eqn:E; [left|right].
  - destruct (or_loop_ok _ _ _ _ _ 0 ltac:(done) H1 H2 E) as [Hl Hb]. split; [done|]. split.
    + split; [done|]. simpl. rewrite (nodes_high_or _ _ _ Hl H1 H2 Hb), Hh1, Hh2.
      destruct (Z.ltb_spec (nodes_high (node e2)) (nodes_high (node e1))); lia.
    + apply ebitmap_set_eq. simpl. intros b.
      rewrite elem_of_union, !elem_of_ebitmap_set, Hb, orb_true_iff. done.
  - split_and!; [done|done|]. by eapply or_loop_fail.
Qed.

(** [ebitmap_or] computes the union of the two sets, in a well-formed
    bitmap, or reports -ENOMEM with an empty destination. *)
Theorem ebitmap_or_spec e1 e2 o :
  ebitmap_ok e1 -> ebitmap_ok e2 ->
  returns_set o (ebitmap_set e1 ∪ ebitmap_set e2) (ebitmap_or e1 e2 o).
Proof. apply ebitmap_or_ok. Qed.

Lemma ebitmap_and_ok e1 e2 o :
  ebitmap_ok e1 -> ebitmap_ok e2 ->
  returns_set o (ebitmap_set e1 ∩ ebitmap_set e2) (ebitmap_and e1 e2 o).
Proof.
  intros [H1 Hh1] [H2 Hh2]. unfold ebitmap_and, returns_set.
  destruct (and_loop _ _ o) as [[l|] o'] eqn:E; [left|right].
  - destruct (and_loop_ok _ _ _ _ _ 0 ltac:(done) H1 H2 E) as [Hl Hb].
    split_and!; [done|by apply set_highbit_new_ok|].
    apply ebitmap_set_eq. simpl. intros b.
    rewrite elem_of_intersection, !elem_of_ebitmap_set, Hb, andb_true_iff. done.
  - split_and!; [done|done|]. by eapply and_loop_fail.
Qed.

(** [ebitmap_and] computes the intersection. *)
Theorem ebitmap_and_spec e1 e2 o :
  ebitmap_ok e1 -> ebitmap_ok e2 ->
  returns_set o (ebitmap_set e1 ∩ ebitmap_set e2) (ebitmap_and e1 e2 o).
Proof. apply ebitmap_and_ok. Qed.

Lemma ebitmap_xor_ok e1 e2 o :
  ebitmap_ok e1 -> ebitmap_ok e2 ->
  returns_set o ((ebitmap_set e1 ∖ ebitmap_set e2) ∪ (ebitmap_set e2 ∖ ebitmap_set e1))
    (ebitmap_xor e1 e2 o).
Proof.
  intros [H1 Hh1] [H2 Hh2]. unfold ebitmap_xor, returns_set.
  destruct (xor_loop _ _ o) as [[l|] o'] eqn:E; [left|right].
  - destruct (xor_loop_ok _ _ _ _ _ 0 ltac:(done) H1 H2 E) as [Hl Hb].
    split_and!; [done|by apply set_highbit_new_ok|].
    apply ebitmap_set_eq. simpl. intros b.
    rewrite elem_of_union, !elem_of_difference, !elem_of_ebitmap_set, Hb.
    destruct (nodes_bit (node e1) b), (nodes_bit (node e2) b); simpl; intuition congruence.
  - split_and!; [done|done|]. by eapply xor_loop_fail.
Qed.

(** [ebitmap_xor] computes the symmetric difference. *)
Theorem ebitmap_xor_spec e1 e2 o :
  ebitmap_ok e1 -> ebitmap_ok e2 ->
  returns_set o ((ebitmap_set e1 ∖ ebitmap_set e2) ∪ (ebitmap_set e2 ∖ ebitmap_set e1))
    (ebitmap_xor e1 e2 o).
Proof. apply ebitmap_xor_ok. Qed.

(** ** Comparison, containment and intersection tests *)

Lemma cmp_loop_eq n1 n2 : cmp_loop n1 n2 = ([], []) <-> n1 = n2.
Proof.
  revert n2. induction n1 as [|[s1 m1] n1 IH]; intros [|[s2 m2] n2]; simpl; try done.
  destruct (Z.eqb_spec s1 s2); [destruct (Z.eqb_spec m1 m2)|]; simpl; rewrite ?IH;
    split; intros; simplify_eq; done.
Qed.

Lemma ebitmap_set_ext e1 e2 :
  ebitmap_set e1 = ebitmap_set e2 <->
  forall b, nodes_bit (node e1) b = nodes_bit (node e2) b.
Proof.
  rewrite set_eq. split; intros H b; specialize (H b).
  - rewrite !elem_of_ebitmap_set in H. by apply eq_true_iff_eq.
  - by rewrite !elem_of_ebitmap_set, H.
Qed.

Lemma ebitmap_cmp_bool e1 e2 : ebitmap_cmp e1 e2 = 1 \/ ebitmap_cmp e1 e2 = 0.
Proof. unfold ebitmap_cmp. repeat case_match; auto. Qed.

Lemma ebitmap_cmp_ok e1 e2 :
  ebitmap_ok e1 -> ebitmap_ok e2 ->
  (ebitmap_cmp e1 e2 = 1 <-> ebitmap_set e1 = ebitmap_set e2).
Proof.
  intros [H1 Hh1] [H2 Hh2]. rewrite ebitmap_set_ext. unfold ebitmap_cmp. split.
  - destruct (Z.eqb_spec (highbit e1) (highbit e2)); simpl; [|done].
    destruct (cmp_loop (node e1) (node e2)) as [[|] [|]] eqn:E; simpl; try done.
    intros _ b. apply cmp_loop_eq in E. by rewrite E.
  - intros Hb. pose proof (nodes_canonical _ _ _ _ H1 H2 Hb) as Heq.
    rewrite Hh1, Hh2, Heq, Z.eqb_refl. simpl.
    by rewrite (proj2 (cmp_loop_eq (node e2) (node e2)) eq_refl).
Qed.

(** [ebitmap_cmp] is equality of sets: on well-formed bitmaps the
    representation is canonical, so comparing nodes decides set equality. *)
Theorem ebitmap_cmp_spec e1 e2 :
  ebitmap_ok e1 -> ebitmap_ok e2 ->
  (ebitmap_cmp e1 e2 = 1 <-> ebitmap_set e1 = ebitmap_set e2).
Proof. apply ebitmap_cmp_ok. Qed.

Lemma land_eq_r_bits x y :
  0 <= y -> Z.land x y = y <-> (forall i, 0 <= i -> Z.testbit y i = true -> Z.testbit x i = true).
Proof.
  intros Hy. split.
  - intros H i Hi Hb. rewrite <- H, Z.land_spec in Hb. by apply andb_true_iff in Hb as [? _].
  - intros H. apply Z.bits_inj'. intros i Hi. rewrite Z.land_spec. specialize (H i Hi).
    destruct (Z.testbit y i); [by rewrite H|by rewrite andb_false_r].
Qed.

Definition nodes_sub (n2 n1 : list ebitmap_node) : Prop :=
  forall b, nodes_bit n2 b = true -> nodes_bit n1 b = true.

(** Same window at the head of both lists. *)
Lemma nodes_sub_same lo a n1 c n2 :
  nodes_ok lo (a :: n1) -> nodes_ok lo (c :: n2) -> startbit a = startbit c ->
  nodes_sub (c :: n2) (a :: n1) <-> Z.land (nmap a) (nmap c) = nmap c /\ nodes_sub n2 n1.
Proof.
  intros H1 H2 Hs. pose proof H1 as (_ & Ha & Hn1). pose proof H2 as (_ & Hc & Hn2).
  assert (Hw : forall i, 0 <= i < 64 -> node_bit a (startbit a + i) = Z.testbit (nmap a) i /\
    node_bit c (startbit a + i) = Z.testbit (nmap c) i).
  { intros i Hi. unfold node_bit. rewrite <- Hs.
    replace (startbit a + i - startbit a) with i by lia.
    destruct (Z.leb_spec (startbit a) (startbit a + i)); [|lia].
    destruct (Z.ltb_spec (startbit a + i) (startbit a + 64)); [done|lia]. }
  rewrite land_eq_r_bits by (destruct Hc as (_ & _ & _ & ? & _); lia). split.
  - intros Hsub. split.
    + intros i Hi Hb. assert (i < 64).
      { destruct (Z.lt_ge_cases i 64); [done|]. rewrite (testbit_high 64) in Hb; [done|apply Hc|lia]. }
      destruct (Hw i ltac:(lia)) as [<- Hci]. specialize (Hsub (startbit a + i)).
      rewrite (nodes_bit_cons _ _ _ _ H1), (nodes_bit_cons _ _ _ _ H2), <- Hs in Hsub.
      destruct (Z.ltb_spec (startbit a + i) (startbit a + 64)); [|lia]. apply Hsub. by rewrite Hci.
    + intros b Hb. specialize (Hsub b).
      rewrite (nodes_bit_cons _ _ _ _ H1), (nodes_bit_cons _ _ _ _ H2), <- Hs in Hsub.
      destruct (Z.ltb_spec b (startbit a + 64)); [|auto].
      rewrite (nodes_bit_low _ _ _ Hn2) in Hb by lia. done.
  - intros [Hm Hsub] b.
    rewrite (nodes_bit_cons _ _ _ _ H1), (nodes_bit_cons _ _ _ _ H2), <- Hs.
    destruct (Z.ltb_spec b (startbit a + 64)); [|apply Hsub].
    rewrite !node_bit_spec, <- Hs. intros [? ?]. split; [done|]. apply Hm; [lia|done].
Qed.

(** A window below the first one of [n2] plays no role. *)
Lemma nodes_sub_skip lo a n1 c n2 :
  nodes_ok lo (a :: n1) -> nodes_ok 0 (c :: n2) -> startbit a < startbit c ->
  nodes_sub (c :: n2) (a :: n1) <-> nodes_sub (c :: n2) n1.
Proof.
  intros (_ & Ha & _) H2 Hlt. pose proof (nodes_ok_after a c n2 Ha Hlt H2) as Hafter.
  split; intros Hsub b Hb; specialize (Hsub b Hb).
  - rewrite nodes_bit_unfold in Hsub. destruct (node_bit a b) eqn:E; [|done].
    rewrite (nodes_bit_below a _ _ Hafter E) in Hb. done.
  - by rewrite nodes_bit_unfold, Hsub, orb_true_r.
Qed.

Lemma nodes_sub_nil n : nodes_sub [] n.
Proof. by intros b. Qed.

(** A first window with no counterpart refutes containment. *)
Lemma nodes_sub_not c n2 lo n1 :
  nodes_ok 0 (c :: n2) -> nodes_ok lo n1 -> startbit c + 64 <= lo \/ n1 = [] -> ~ nodes_sub (c :: n2) n1.
Proof.
  intros H2 H1 Hlo Hsub. destruct (nodes_ok_head_bit _ _ _ H2) as (b & Hr & Hb).
  apply Hsub in Hb. destruct Hlo as [Hlo| ->]; [|done].
  rewrite (nodes_bit_low lo) in Hb by (done || lia). done.
Qed.

Lemma contains_loop_spec n1 n2 lo :
  0 <= lo -> nodes_ok lo n1 -> nodes_ok lo n2 ->
  (contains_loop n1 n2 = Some [] <-> nodes_sub n2 n1).
Proof.
  revert n2 lo. induction n1 as [|a n1 IH]; intros [|c n2] lo Hlo H1 H2; simpl.
  - split; [intros _; apply nodes_sub_nil|done].
  - split; [done|]. intros Hsub. exfalso.
    eapply nodes_sub_not; [by eapply nodes_ok_lo|exact H1| |done]. by right.
  - split; [intros _; apply nodes_sub_nil|done].
  - pose proof H1 as (? & Ha & Hn1). pose proof H2 as (? & Hc & Hn2).
    destruct (Z.leb_spec (startbit a) (startbit c)) as [Hle|Hgt];
      [destruct (Z.ltb_spec (startbit a) (startbit c)) as [Hlt|Hge]|].
    + rewrite (nodes_sub_skip lo) by (done || by eapply nodes_ok_lo).
      apply (IH _ (startbit a + 64)); [lia|done|].
      apply nodes_ok_after; [done..|by eapply nodes_ok_lo].
    + assert (Hs : startbit a = startbit c) by lia.
      rewrite (nodes_sub_same lo) by done.
      destruct (Z.eqb_spec (Z.land (nmap a) (nmap c)) (nmap c)); simpl; [|by split; [|intros []]].
      rewrite (IH _ (startbit a + 64)); [tauto|lia|done|by rewrite Hs].
    + split; [done|]. intros Hsub. exfalso.
      pose proof (aligned_lt _ _ (proj1 (proj2 Hc)) (proj1 (proj2 Ha)) Hgt).
      eapply (nodes_sub_not c n2 (startbit a) (a :: n1)); [by eapply nodes_ok_lo| |by left|done].
      by split_and!.
Qed.

(** [ebitmap_contains e1 e2] decides [e2 ⊆ e1], the early exit on the
    high bits included. *)
Theorem ebitmap_contains_spec e1 e2 :
  ebitmap_ok e1 -> ebitmap_ok e2 ->
  (ebitmap_contains e1 e2 = 1 <-> ebitmap_set e2 ⊆ ebitmap_set e1).
Proof.
  intros [H1 Hh1] [H2 Hh2].
  assert (Hsub : ebitmap_set e2 ⊆ ebitmap_set e1 <-> nodes_sub (node e2) (node e1)).
  { unfold nodes_sub. rewrite elem_of_subseteq. by setoid_rewrite elem_of_ebitmap_set. }
  rewrite Hsub. unfold ebitmap_contains. destruct (Z.ltb_spec (highbit e1) (highbit e2)) as [Hlt|_].
  - split; [done|]. intros Hs. pose proof (nodes_high_le _ _ H2 H1 Hs). lia.
  - rewrite <- (contains_loop_spec _ _ 0) by done.
    destruct (contains_loop _ _) as [[|]|]; simpl; split; intros; simplify_eq; done.
Qed.

(** Two windows at the same place share a bit iff their maps do. *)
Lemma land_nonzero_bit x y :
  0 <= x -> Z.land x y <> 0 <-> exists i, 0 <= i /\ Z.testbit x i = true /\ Z.testbit y i = true.
Proof.
  intros Hx. split.
  - intros Hne. pose proof (land_pos x y Hx Hne). exists (Z.log2 (Z.land x y)).
    split; [apply Z.log2_nonneg|]. apply andb_true_iff. rewrite <- Z.land_spec. by apply Z.bit_log2.
  - intros (i & Hi & Hxi & Hyi) H0. assert (Hf : Z.testbit (Z.land x y) i = false) by (by rewrite H0, Z.testbit_0_l).
    rewrite Z.land_spec, Hxi, Hyi in Hf. done.
Qed.

Definition nodes_meet (n1 n2 : list ebitmap_node) : Prop :=
  exists b, nodes_bit n1 b = true /\ nodes_bit n2 b = true.

Lemma nodes_meet_same lo a n1 c n2 :
  nodes_ok lo (a :: n1) -> nodes_ok lo (c :: n2) -> startbit a = startbit c ->
  nodes_meet (a :: n1) (c :: n2) <-> Z.land (nmap a) (nmap c) <> 0 \/ nodes_meet n1 n2.
Proof.
  intros H1 H2 Hs. pose proof H1 as (_ & Ha & Hn1). pose proof H2 as (_ & Hc & Hn2).
  rewrite land_nonzero_bit by (destruct Ha as (_ & _ & _ & ? & _); lia). split.
  - intros (b & E1 & E2). rewrite (nodes_bit_cons _ _ _ _ H1) in E1.
    rewrite (nodes_bit_cons _ _ _ _ H2), <- Hs in E2.
    destruct (Z.ltb_spec b (startbit a + 64)); [left|right; by exists b].
    rewrite node_bit_spec in E1, E2. rewrite <- Hs in E2. exists (b - startbit a).
    split_and!; [lia|apply E1|apply E2].
  - intros [(i & Hi & E1 & E2)|(b & E1 & E2)].
    + assert (i < 64).
      { destruct (Z.lt_ge_cases i 64); [done|]. rewrite (testbit_high 64) in E1; [done|apply Ha|lia]. }
      exists (startbit a + i). rewrite !nodes_bit_unfold.
      rewrite (proj2 (node_bit_spec a _)), (proj2 (node_bit_spec c _)); [done| |];
        rewrite <- ?Hs; replace (startbit a + i - startbit a) with i by lia; (split; [lia|done]).
    + exists b. rewrite !nodes_bit_unfold, E1, E2. by rewrite !orb_true_r.
Qed.

Lemma nodes_meet_sym n1 n2 : nodes_meet n1 n2 <-> nodes_meet n2 n1.
Proof. split; intros (b & ? & ?); by exists b. Qed.

Lemma nodes_meet_skip a n1 l :
  nodes_ok (startbit a + 64) l -> nodes_meet (a :: n1) l <-> nodes_meet n1 l.
Proof.
  intros Hl. split; intros (b & E1 & E2); exists b; split; try done.
  - rewrite nodes_bit_unfold in E1. destruct (node_bit a b) eqn:E; [|done].
    by rewrite (nodes_bit_below a _ _ Hl E) in E2.
  - by rewrite nodes_bit_unfold, E1, orb_true_r.
Qed.

Lemma match_any_loop_spec n1 n2 lo :
  0 <= lo -> nodes_ok lo n1 -> nodes_ok lo n2 ->
  (match_any_loop n1 n2 = 1 <-> nodes_meet n1 n2).
Proof.
  revert n2 lo. induction n1 as [|a n1 IH1]; intros n2; induction n2 as [|c n2 IH2];
    intros lo Hlo H1 H2; [simpl; split; [done|intros (b & E1 & E2); done]..|].
  pose proof H1 as (? & Ha & Hn1). pose proof H2 as (? & Hc & Hn2). simpl.
  assert (0 <= startbit a /\ 0 <= startbit c) as [? ?] by (unfold node_ok in *; lia).
  destruct (Z.ltb_spec (startbit a) (startbit c)) as [Hlt|Hge];
    [|destruct (Z.ltb_spec (startbit c) (startbit a)) as [Hlt|Hge']].
  - pose proof (nodes_ok_after a c n2 Ha Hlt (nodes_ok_lo _ _ H2 Hlo)) as Hafter.
    rewrite nodes_meet_skip by done. apply (IH1 _ (startbit a + 64)); [lia|done..].
  - pose proof (nodes_ok_after c a n1 Hc Hlt (nodes_ok_lo _ _ H1 Hlo)) as Hafter.
    rewrite nodes_meet_sym, nodes_meet_skip, nodes_meet_sym by done.
    apply (IH2 (startbit c + 64)); [lia|done..].
  - assert (Hs : startbit a = startbit c) by lia.
    rewrite (nodes_meet_same lo) by done. destruct (ctrue _) eqn:E.
    + apply ctrue_spec in E. tauto.
    + assert (E' : Z.land (nmap a) (nmap c) = 0).
      { unfold ctrue in E. destruct (Z.eqb_spec (Z.land (nmap a) (nmap c)) 0); done. }
      rewrite (IH1 _ (startbit a + 64)); [tauto|lia|done|by rewrite Hs].
Qed.

(** [ebitmap_match_any] decides whether the two sets intersect. *)
Theorem ebitmap_match_any_spec e1 e2 :
  ebitmap_ok e1 -> ebitmap_ok e2 ->
  (ebitmap_match_any e1 e2 = 1 <-> ~ ebitmap_set e1 ## ebitmap_set e2).
Proof.
  intros [H1 _] [H2 _]. unfold ebitmap_match_any. rewrite (match_any_loop_spec _ _ 0) by done.
  unfold nodes_meet. split.
  - intros (b & E1 & E2) Hd. apply (Hd b); by apply elem_of_ebitmap_set.
  - intros Hd. destruct (decide (ebitmap_set e1 ∩ ebitmap_set e2 = ∅)) as [He|Hne].
    + exfalso. apply Hd. apply disjoint_intersection_L. done.
    + apply set_choose_L in Hne as [b [E1 E2]%elem_of_intersection]. exists b.
      by rewrite <- !elem_of_ebitmap_set.
Qed.

(** ** Reading and changing one bit *)

Lemma land_one_shiftl m i : 0 <= i -> ctrue (Z.land m (Z.shiftl 1 i)) = Z.testbit m i.
Proof.
  intros Hi. apply eq_true_iff_eq. rewrite ctrue_spec, Z.land_comm, land_nonzero_bit by (apply Z.shiftl_nonneg; lia).
  split.
  - intros (j & Hj & E1 & E2). rewrite one_shiftl_bit in E1 by lia. by apply Z.eqb_eq in E1 as ->.
  - intros E. exists i. rewrite one_shiftl_bit, Z.eqb_refl by lia. done.
Qed.

Lemma get_bit_loop_spec n b lo :
  nodes_ok lo n -> get_bit_loop n b = c_of_bool (nodes_bit n b).
Proof.
  revert lo. induction n as [|a n IH]; intros lo H; simpl; [done|].
  pose proof H as (_ & Ha & Hn).
  destruct (Z.leb_spec (startbit a) b) as [Hle|Hgt].
  - rewrite (nodes_bit_cons _ _ _ _ H).
    destruct (Z.ltb_spec b (startbit a + 64)); [|by apply (IH (startbit a + 64))].
    rewrite land_one_shiftl by lia. unfold node_bit.
    destruct (Z.leb_spec (startbit a) b); [|lia].
    destruct (Z.ltb_spec b (startbit a + 64)); [|lia]. done.
  - rewrite (nodes_bit_low (startbit a)); [done| |lia]. by split_and!.
Qed.

(** [ebitmap_get_bit] is membership. *)
Theorem ebitmap_get_bit_spec e b :
  ebitmap_ok e -> ebitmap_get_bit e b = c_of_bool (bool_decide (b ∈ ebitmap_set e)).
Proof.
  intros [H Hh]. unfold ebitmap_get_bit.
  assert (Hd : bool_decide (b ∈ ebitmap_set e) = nodes_bit (node e) b).
  { apply eq_true_iff_eq. by rewrite bool_decide_eq_true, elem_of_ebitmap_set. }
  rewrite Hd. destruct (Z.ltb_spec (highbit e) b) as [Hlt|_].
  - destruct (nodes_high_props 0 (node e) ltac:(done) H) as (_ & _ & Hb & _).
    destruct (nodes_bit (node e) b) eqn:E; [|done]. apply Hb in E. lia.
  - by eapply get_bit_loop_spec.
Qed.

Lemma align_spec b : in_range 32 b -> align b = b - b mod 64.
Proof.
  intros Hb. unfold align. assert (Z.land b (lnot_w 64 (64 - 1)) = b - b mod 64) as ->.
  - change (64 - 1) with (Z.ones 6).
    assert (Z.land b (lnot_w 64 (Z.ones 6)) = Z.ldiff b (Z.ones 6)) as ->.
    { apply Z.bits_inj'. intros i Hi. rewrite Z.land_spec, Z.ldiff_spec.
      rewrite lnot_w_bit by (lia || done). destruct (Z.ltb_spec i 64); [done|].
      by rewrite (testbit_high 32 b) by (done || lia). }
    rewrite Z.ldiff_ones_r, Z.shiftl_mul_pow2, Z.shiftr_div_pow2 by lia.
    change (2 ^ 6) with 64. pose proof (Z.div_mod b 64). lia.
  - apply wrap_small. unfold in_range in *. pose proof (Z.mod_pos_bound b 64).
    pose proof (Z.mod_le b 64). lia.
Qed.

Lemma align_props b :
  in_range 32 b -> align b mod 64 = 0 /\ align b <= b < align b + 64 /\ 0 <= align b.
Proof.
  intros Hb. rewrite align_spec by done. unfold in_range in Hb.
  pose proof (Z.mod_pos_bound b 64). pose proof (Z.mod_le b 64).
  rewrite Zminus_mod_idemp_r, Z.sub_diag. split_and!; [done|lia..].
Qed.

Lemma aligned_add x : x mod 64 = 0 -> (x + 64) mod 64 = 0.
Proof. intros H. by rewrite <- Zplus_mod_idemp_l, H. Qed.

(** The high bit of a list that follows a prefix of high bit [hp]. *)
Definition nodes_high_from (hp : Z) (l : list ebitmap_node) : Z :=
  match last l with Some n => startbit n + 64 | None => hp end.

Lemma nodes_high_from_cons hp a l :
  nodes_high_from hp (a :: l) = nodes_high_from (startbit a + 64) l.
Proof. unfold nodes_high_from. rewrite last_cons. by destruct (last l). Qed.

Lemma node_bit_set a bit b :
  startbit a <= bit < startbit a + 64 ->
  node_bit (mk_node (startbit a) (Z.lor (nmap a) (Z.shiftl 1 (bit - startbit a)))) b =
    (b =? bit) || node_bit a b.
Proof.
  intros Hr. unfold node_bit; simpl.
  destruct (Z.leb_spec (startbit a) b), (Z.ltb_spec b (startbit a + 64)); simpl;
    try (destruct (Z.eqb_spec b bit); [lia|done]).
  rewrite Z.lor_spec, one_shiftl_bit, orb_comm by lia. f_equal.
  destruct (Z.eqb_spec b bit), (Z.eqb_spec (b - startbit a) (bit - startbit a)); done || lia.
Qed.

Lemma node_bit_clear a bit b :
  startbit a <= bit < startbit a + 64 ->
  node_bit (mk_node (startbit a) (Z.land (nmap a) (lnot_w 64 (Z.shiftl 1 (bit - startbit a))))) b =
    negb (b =? bit) && node_bit a b.
Proof.
  intros Hr. unfold node_bit; simpl.
  destruct (Z.leb_spec (startbit a) b), (Z.ltb_spec b (startbit a + 64)); simpl;
    rewrite ?andb_false_r; try done.
  rewrite Z.land_spec, lnot_w_bit by (lia || apply one_shiftl_range; lia).
  rewrite one_shiftl_bit, andb_comm by lia. f_equal.
  destruct (Z.ltb_spec (b - startbit a) 64); [|lia]. simpl. f_equal.
  destruct (Z.eqb_spec b bit), (Z.eqb_spec (b - startbit a) (bit - startbit a)); done || lia.
Qed.

Ltac and4 := refine (conj _ (conj _ (conj _ _))).

Section SetBit.
Context (bit value sbit : Z).
Hypothesis Hsbit : sbit mod 64 = 0 /\ sbit <= bit < sbit + 64 /\ 0 <= sbit /\ sbit + 64 < 2 ^ 32.

(** The bits after the update. *)
Definition upd_bit (n : list ebitmap_node) (b : Z) : bool :=
  if b =? bit then ctrue value else nodes_bit n b.

Definition set_bit_post (lo hp : Z) (n : list ebitmap_node) (high : Z) (o : oracle)
    (r : Z * list ebitmap_node * Z * oracle) : Prop :=
  let '(rc, l, high', o') := r in
  (rc = 0 /\ nodes_ok lo l /\ (forall b, nodes_bit l b = upd_bit n b) /\
     high' = nodes_high_from hp l) \/
  (rc = - ENOMEM /\ l = n /\ high' = high /\ ~ mem_ok o).

Lemma set_bit_insert_ok lo hp n o :
  lo <= sbit -> nodes_ok (sbit + 64) n ->
  set_bit_post lo hp n (nodes_high_from hp n) o
    (set_bit_insert n bit value sbit (sbit + 64) (nodes_high_from hp n) o).
Proof.
  intros Hlo Hn. unfold set_bit_insert, set_bit_post, upd_bit. destruct Hsbit as (? & ? & ? & ?).
  assert (Hout : nodes_bit n bit = false) by (eapply nodes_bit_low; [done|lia]).
  destruct (Z.eqb_spec value 0) as [->|Hv].
  { left. split_and!; [done|eapply nodes_ok_weaken; [|done]; lia| |done].
    intros b. destruct (Z.eqb_spec b bit) as [->|]; done. }
  destruct (malloc o) as [[] o'] eqn:E; simpl; [left|right].
  2:{ split_and!; [done..|]. intros M. by destruct (malloc_mem_ok _ _ _ E M). }
  assert (Hb : 0 < Z.shiftl 1 (bit - sbit)) by (rewrite Z.shiftl_1_l; lia).
  and4; [done| | |].
  - simpl. split_and!; [done| |done]. unfold node_ok; simpl.
    split_and!; [lia..|]. apply one_shiftl_range. lia.
  - intros b. rewrite nodes_bit_unfold. rewrite (proj2 (ctrue_spec value)) by done.
    unfold node_bit; simpl. destruct (Z.eqb_spec b bit) as [->|Hne].
    + rewrite one_shiftl_bit, Z.eqb_refl by lia.
      destruct (Z.leb_spec sbit bit), (Z.ltb_spec bit (sbit + 64)); simpl; lia || done.
    + destruct (Z.leb_spec sbit b), (Z.ltb_spec b (sbit + 64)); simpl; try done.
      rewrite one_shiftl_bit by lia. destruct (Z.eqb_spec (b - sbit) (bit - sbit)); [lia|done].
  - rewrite nodes_high_from_cons. simpl. unfold nodes_high_from.
    destruct n as [|c n]; [done|]. simpl. destruct (last_is_Some (c :: n)) as [_ Hs].
    destruct (Hs ltac:(done)) as [x Hx]. simpl in Hx. by rewrite Hx.
Qed.

Lemma set_bit_loop_ok prev n lo hp o :
  0 <= lo <= sbit -> lo mod 64 = 0 -> nodes_ok lo n ->
  hp = match prev with Some p => u32 (startbit p + 64) | None => 0 end ->
  set_bit_post lo hp n (nodes_high_from hp n) o
    (set_bit_loop prev n bit value sbit (sbit + 64) (nodes_high_from hp n) o).
Proof.
  pose proof Hsbit as (Hs0 & Hs1 & Hs2 & Hs3).
  revert prev lo hp o. induction n as [|a n IH]; intros prev lo hp o Hlo Hmod Hn Hhp;
    [apply set_bit_insert_ok; [lia|done]|].
  pose proof Hn as (Hge & Ha & Hn'). simpl set_bit_loop.
  destruct (Z.leb_spec (startbit a) bit) as [Hle|Hgt].
  2:{ apply set_bit_insert_ok; [lia|]. split_and!; [|done|done].
      apply aligned_lt; [done|apply Ha|]. lia. }
  destruct (Z.ltb_spec bit (startbit a + 64)) as [Hlt|Hout].
  - assert (Hupd : forall m l,
      (forall b, node_bit (mk_node (startbit a) m) b =
         if b =? bit then ctrue value else node_bit a b) -> l = n ->
      forall b, nodes_bit (mk_node (startbit a) m :: l) b = upd_bit (a :: n) b).
    { intros m l Hm -> b. rewrite nodes_bit_unfold, Hm. unfold upd_bit.
      destruct (Z.eqb_spec b bit) as [->|]; [|done].
      rewrite (nodes_bit_low _ _ _ Hn') by lia. apply orb_false_r. }
    pose proof Ha as (? & ? & ? & ? & ?).
    assert (Hsh : in_range 64 (Z.shiftl 1 (bit - startbit a))) by (apply one_shiftl_range; lia).
    destruct (ctrue value) eqn:Hv.
    + left. and4; [done| | |].
      * split_and!; [done| |done]. apply node_ok_mk; [done| |].
        -- apply lor_pos; [done|]. apply Z.shiftl_nonneg. lia.
        -- apply lor_range; [lia|done|done].
      * apply Hupd; [|done]. intros b. rewrite node_bit_set by lia.
        by destruct (b =? bit); rewrite ?Hv.
      * by rewrite !nodes_high_from_cons.
    + set (m := Z.land (nmap a) (lnot_w 64 (Z.shiftl 1 (bit - startbit a)))).
      assert (Hm : forall b, node_bit (mk_node (startbit a) m) b =
        if b =? bit then false else node_bit a b).
      { intros b. unfold m. rewrite node_bit_clear by lia. by destruct (b =? bit); rewrite ?Hv. }
      destruct (Z.eqb_spec m 0) as [Hz|Hnz].
      * left. split_and!; [done|eapply nodes_ok_weaken; [|done]; lia| |].
        -- intros b. rewrite <- (Hupd m n Hm eq_refl b), nodes_bit_unfold, Hz.
           unfold node_bit at 1; simpl. by rewrite Z.testbit_0_l, andb_false_r.
        -- rewrite nodes_high_from_cons. unfold nodes_high_from. destruct n as [|c n]; [done|].
           simpl. destruct (last_is_Some (c :: n)) as [_ Hl].
           destruct (Hl ltac:(done)) as [x Hx]. simpl in Hx. by rewrite Hx.
      * left. and4; [done| |by apply Hupd|by rewrite !nodes_high_from_cons].
        split_and!; [done| |done]. apply node_ok_mk; [done| |].
        -- apply land_pos; [lia|done].
        -- by apply land_range_l.
  - assert (Hhi : startbit a + 64 = u32 (startbit a + 64)).
    { symmetry. apply wrap_small. unfold in_range. destruct Ha as (? & ? & ? & ?). lia. }
    specialize (IH (Some a) (startbit a + 64) (startbit a + 64) o).
    rewrite nodes_high_from_cons. unfold set_bit_post in *.
    destruct (set_bit_loop (Some a) n bit value sbit (sbit + 64) _ o) as [[[rc l] high'] o'].
    destruct IH as [(-> & Hl & Hb & Hh)|(-> & -> & -> & HM)].
    + split; [destruct Ha; lia|]. destruct Ha as (? & Ha & ?).
      destruct (Z.le_gt_cases (startbit a + 64) sbit); [done|].
      pose proof (aligned_lt sbit (startbit a + 64) Hs0 (aligned_add _ Ha)). lia.
    + destruct Ha as (_ & Ha & _). by apply aligned_add.
    + done.
    + done.
    + left. and4; [done|by split_and!| |by rewrite nodes_high_from_cons].
      intros b. rewrite nodes_bit_unfold, Hb. unfold upd_bit. rewrite nodes_bit_unfold.
      destruct (Z.eqb_spec b bit) as [->|]; [|done]. by rewrite node_bit_out by lia.
    + by right.
Qed.
End SetBit.

Lemma ebitmap_set_bit_ok e bit value o :
  ebitmap_ok e -> 0 <= bit < 2 ^ 32 - 64 ->
  let '(rc, e', o') := ebitmap_set_bit e bit value o in
  (rc = 0 /\ ebitmap_ok e' /\
     ebitmap_set e' = if value =? 0 then ebitmap_set e ∖ {[bit]} else {[bit]} ∪ ebitmap_set e) \/
  (rc = - ENOMEM /\ e' = e /\ ~ mem_ok o).
Proof.
  intros [Hn Hh] Hbit. unfold ebitmap_set_bit.
  destruct (align_props bit) as (Hs0 & Hs1 & Hs2); [unfold in_range; lia|].
  assert (Hlt : align bit + 64 < 2 ^ 32).
  { destruct (Z.le_gt_cases (align bit + 64) (2 ^ 32 - 64)); [lia|].
    pose proof (aligned_lt (2 ^ 32 - 64) (align bit + 64) eq_refl (aligned_add _ Hs0)). lia. }
  assert (u32 (align bit + 64) = align bit + 64) as -> by (apply wrap_small; unfold in_range; lia).
  destruct (Z.eqb_spec (align bit + 64) 0); [lia|].
  pose proof (set_bit_loop_ok bit value (align bit) ltac:(lia) None (node e) 0 0 o
    ltac:(lia) eq_refl Hn eq_refl) as Hpost.
  change (nodes_high_from 0 (node e)) with (nodes_high (node e)) in Hpost.
  rewrite Hh. unfold set_bit_post in Hpost.
  destruct (set_bit_loop None (node e) bit value (align bit) _ _ o) as [[[rc l] h] o'].
  destruct Hpost as [(-> & Hl & Hb & ->)|(-> & -> & -> & HM)]; [left|right].
  - split; [done|]. split; [by split|]. apply ebitmap_set_eq. simpl. intros b. rewrite Hb.
    unfold upd_bit, ctrue. destruct (Z.eqb_spec value 0); simpl.
    + rewrite elem_of_difference, elem_of_singleton, elem_of_ebitmap_set.
      destruct (Z.eqb_spec b bit); intuition congruence.
    + rewrite elem_of_union, elem_of_singleton, elem_of_ebitmap_set.
      destruct (Z.eqb_spec b bit); intuition congruence.
  - rewrite <- Hh. by destruct e.
Qed.

(** [ebitmap_set_bit] adds or removes exactly the named bit and keeps
    the invariant (a node emptied by the removal is dropped, the high bit
    follows); a failed allocation leaves the bitmap as it was. *)
Theorem ebitmap_set_bit_spec e bit value o :
  ebitmap_ok e -> 0 <= bit < 2 ^ 32 - 64 ->
  let '(rc, e', o') := ebitmap_set_bit e bit value o in
  (rc = 0 /\ ebitmap_ok e' /\
     ebitmap_set e' = if value =? 0 then ebitmap_set e ∖ {[bit]} else {[bit]} ∪ ebitmap_set e) \/
  (rc = - ENOMEM /\ e' = e /\ ~ mem_ok o).
Proof. apply ebitmap_set_bit_ok. Qed.

(** a bit in the last window of the 32-bit range is refused with
    -EINVAL and the bitmap is left alone. *)
Theorem ebitmap_set_bit_overflow e bit value o :
  2 ^ 32 - 64 <= bit < 2 ^ 32 -> ebitmap_set_bit e bit value o = (- EINVAL, e, o).
Proof.
  intros Hbit. unfold ebitmap_set_bit.
  destruct (align_props bit) as (Hs0 & Hs1 & Hs2); [unfold in_range; lia|].
  assert (align bit = 2 ^ 32 - 64) as ->; [|done].
  destruct (Z.lt_trichotomy (align bit) (2 ^ 32 - 64)) as [Hlt|[?|Hlt]]; [|done|].
  - pose proof (aligned_lt _ (2 ^ 32 - 64) Hs0 eq_refl Hlt). lia.
  - pose proof (aligned_lt (2 ^ 32 - 64) _ eq_refl Hs0 Hlt). lia.
Qed.

(** ** Instances *)

(** {0, 1, 3, 191}. *)
Definition sample_a : ebitmap := mk_ebitmap [mk_node 0 11; mk_node 128 (2 ^ 63)] 192.
(** {1, 2, 64}. *)
Definition sample_b : ebitmap := mk_ebitmap [mk_node 0 6; mk_node 64 1] 128.

Lemma sample_a_ok : ebitmap_ok sample_a.
Proof. concrete. Qed.

Lemma sample_b_ok : ebitmap_ok sample_b.
Proof. concrete. Qed.

Lemma ebitmap_or_witness : returns_set [] (ebitmap_set sample_a ∪ ebitmap_set sample_b) (ebitmap_or sample_a sample_b []).
Proof. apply ebitmap_or_spec; concrete. Defined.

Lemma ebitmap_and_witness : returns_set [] (ebitmap_set sample_a ∩ ebitmap_set sample_b) (ebitmap_and sample_a sample_b []).
Proof. apply ebitmap_and_spec; concrete. Defined.

Lemma ebitmap_xor_witness :
  returns_set [true; false]
    ((ebitmap_set sample_a ∖ ebitmap_set sample_b) ∪ (ebitmap_set sample_b ∖ ebitmap_set sample_a))
    (ebitmap_xor sample_a sample_b [true; false]).
Proof. apply ebitmap_xor_spec; concrete. Defined.

Lemma ebitmap_cmp_witness : ebitmap_set sample_a <> ebitmap_set sample_b.
Proof.
  intros H. apply (ebitmap_cmp_spec sample_a sample_b) in H; [|concrete|concrete]. vm_compute in H. discriminate.
Defined.

Lemma ebitmap_contains_witness : ~ ebitmap_set sample_b ⊆ ebitmap_set sample_a.
Proof.
  intros H. apply (ebitmap_contains_spec sample_a sample_b) in H; [|concrete|concrete]. vm_compute in H. discriminate.
Defined.

Lemma ebitmap_match_any_witness : ~ ebitmap_set sample_a ## ebitmap_set sample_b.
Proof. apply (ebitmap_match_any_spec sample_a sample_b); concrete. Defined.

Lemma ebitmap_get_bit_witness : ebitmap_get_bit sample_a 191 = c_of_bool (bool_decide (191 ∈ ebitmap_set sample_a)).
Proof. apply ebitmap_get_bit_spec; concrete. Defined.

Lemma ebitmap_set_bit_witness :
  let '(rc, e', o') := ebitmap_set_bit sample_a 191 0 [] in
  (rc = 0 /\ ebitmap_ok e' /\ ebitmap_set e' = ebitmap_set sample_a ∖ {[191]}) \/
  (rc = - ENOMEM /\ e' = sample_a /\ ~ mem_ok []).
Proof. apply (ebitmap_set_bit_spec sample_a 191 0 []); concrete. Defined.
