(* ===== verification/EbitmapRange.v ===== *)
(** * EbitmapRange: counting, iteration, complement and ranges

    [ebitmap_cardinality] and [ebitmap_hamming_distance] count the set,
    [ebitmap_for_each_positive_bit] enumerates it in order,
    [ebitmap_highest_set_bit] is its maximum; [ebitmap_not],
    [ebitmap_andnot] and [ebitmap_init_range] build sets below a bound. *)
From Stdlib Require Import ZArith Lia Bool Sorting.Sorted.
From stdpp Require Import base list list_numbers gmap sets fin_sets sorting.
From S2P Require Import Prelude Ebitmap EbitmapThms.

(** ** Counting *)

Lemma filter_ext_in {A} (P Q : A -> Prop) `{!forall x, Decision (P x), !forall x, Decision (Q x)} (l : list A) :
  (forall x, x ∈ l -> P x <-> Q x) -> filter P l = filter Q l.
Proof.
  induction l as [|x l IH]; intros Hl; [done|]. rewrite !filter_cons, IH.
  - destruct (Hl x ltac:(left)) as [HPQ HQP].
    destruct (decide (P x)), (decide (Q x)); done || tauto.
  - intros y Hy. apply Hl. by right.
Qed.

Lemma popcount_upto_spec w s x :
  popcount_upto w x =
  Z.of_nat (length (filter (fun b => Z.testbit x (b - s) = true) (seqZ s (Z.of_nat w)))).
Proof.
  revert s x. induction w as [|w IH]; intros s x; [done|].
  rewrite Nat2Z.inj_succ, seqZ_cons, Z.pred_succ by lia. simpl popcount_upto.
  rewrite (IH (Z.succ s)), filter_cons, Z.sub_diag, Z.bit0_odd.
  rewrite (filter_ext_in (fun b => Z.testbit (Z.div2 x) (b - Z.succ s) = true)
                         (fun b => Z.testbit x (b - s) = true)).
  - destruct (Z.odd x); simpl; rewrite ?Nat2Z.inj_succ; lia.
  - intros b Hb%elem_of_seqZ. rewrite Z.div2_spec, Z.shiftr_spec by lia.
    by replace (b - Z.succ s + 1) with (b - s) by lia.
Qed.

Lemma popcount_node_bits n : popcountll (nmap n) = Z.of_nat (length (node_bits n)).
Proof.
  unfold popcountll, node_bits. rewrite (popcount_upto_spec 64 (startbit n)).
  do 2 f_equal. apply filter_ext_in. intros b Hb%elem_of_seqZ. rewrite node_bit_spec.
  change (Z.of_nat 64) with 64 in Hb. split; [intros; split; [lia|done]|by intros []].
Qed.

Lemma node_bits_sorted n : StronglySorted Z.lt (node_bits n).
Proof.
  unfold node_bits. assert (H : forall k s, StronglySorted Z.lt (filter (fun b => node_bit n b = true) (seqZ s (Z.of_nat k)))).
  { induction k as [|k IH]; intros s; [constructor|].
    rewrite Nat2Z.inj_succ, seqZ_cons, Z.pred_succ, filter_cons by lia.
    case_decide; [|apply IH]. apply StronglySorted_cons. split; [|apply IH].
    apply Forall_forall. intros b [_ Hb%elem_of_seqZ]%list_elem_of_filter. lia. }
  apply (H 64%nat).
Qed.

(** The bits of a well-formed list come in increasing order. *)
Lemma nodes_bits_sorted lo l : nodes_ok lo l -> StronglySorted Z.lt (nodes_bits l).
Proof.
  revert lo. induction l as [|a l IH]; intros lo H; [constructor|].
  destruct H as (_ & _ & Hl). unfold nodes_bits. simpl. apply StronglySorted_app_2.
  - intros b1 b2 H1 H2. apply elem_of_node_bits, node_bit_spec in H1.
    apply elem_of_nodes_bits in H2. destruct (Z.lt_ge_cases b2 (startbit a + 64)); [|lia].
    by rewrite (nodes_bit_low _ _ _ Hl) in H2 by lia.
  - apply node_bits_sorted.
  - by eapply IH.
Qed.

Lemma sorted_lt_NoDup l : StronglySorted Z.lt l -> NoDup l.
Proof.
  induction 1 as [|x l _ IH Hx]; constructor; [|done].
  intros Hin. rewrite Forall_forall in Hx. specialize (Hx x Hin). lia.
Qed.

Lemma ebitmap_set_size e :
  ebitmap_ok e -> size (ebitmap_set e) = length (nodes_bits (node e)).
Proof.
  intros [H _]. unfold ebitmap_set. apply size_list_to_set.
  by eapply sorted_lt_NoDup, nodes_bits_sorted.
Qed.

Lemma length_node_bits n : Z.of_nat (length (node_bits n)) <= 64.
Proof.
  unfold node_bits. etrans; [apply inj_le, length_filter|]. rewrite length_seqZ. lia.
Qed.

Lemma nodes_bits_bound lo l :
  nodes_ok lo l -> Z.of_nat (length (nodes_bits l)) <= nodes_high_from lo l - lo.
Proof.
  revert lo. induction l as [|a l IH]; intros lo H.
  - unfold nodes_high_from. simpl. lia.
  - destruct H as (? & Ha & Hl). rewrite nodes_high_from_cons. unfold nodes_bits. simpl.
    rewrite length_app. specialize (IH _ Hl). unfold nodes_bits in IH.
    pose proof (length_node_bits a). lia.
Qed.

Lemma cardinality_loop_spec n count :
  0 <= count -> count + Z.of_nat (length (nodes_bits n)) < 2 ^ 32 ->
  cardinality_loop n count = count + Z.of_nat (length (nodes_bits n)).
Proof.
  revert count. induction n as [|a n IH]; intros count Hc Hlt; simpl; [unfold nodes_bits; simpl; lia|].
  unfold nodes_bits in *. simpl in *. rewrite length_app, Nat2Z.inj_add in *.
  rewrite popcount_node_bits, wrap_small by (unfold in_range; lia). rewrite IH; lia.
Qed.

Lemma ebitmap_cardinality_ok e :
  ebitmap_ok e -> ebitmap_cardinality e = Z.of_nat (size (ebitmap_set e)).
Proof.
  intros He. rewrite ebitmap_set_size by done. destruct He as [H Hh]. unfold ebitmap_cardinality.
  rewrite cardinality_loop_spec; [done|done|]. pose proof (nodes_bits_bound 0 _ H) as Hb.
  destruct (nodes_high_props 0 (node e) ltac:(done) H) as (_ & Hr & _).
  unfold nodes_high_from in Hb. unfold nodes_high in Hr. lia.
Qed.

(** [ebitmap_cardinality] is the number of bits of the set; the
    32-bit counter never wraps. *)
Theorem ebitmap_cardinality_spec e :
  ebitmap_ok e -> ebitmap_cardinality e = Z.of_nat (size (ebitmap_set e)).
Proof. apply ebitmap_cardinality_ok. Qed.

(** [ebitmap_hamming_distance] is the size of the symmetric
    difference, as long as it is an [int]; -1 reports a failed allocation. *)
Theorem ebitmap_hamming_distance_spec e1 e2 o :
  ebitmap_ok e1 -> ebitmap_ok e2 ->
  let D := (ebitmap_set e1 ∖ ebitmap_set e2) ∪ (ebitmap_set e2 ∖ ebitmap_set e1) in
  Z.of_nat (size D) < 2 ^ 31 ->
  fst (ebitmap_hamming_distance e1 e2 o) = Z.of_nat (size D) \/
  (fst (ebitmap_hamming_distance e1 e2 o) = -1 /\ ~ mem_ok o).
Proof.
  intros H1 H2 D HD. unfold ebitmap_hamming_distance.
  destruct (ebitmap_cmp_bool e1 e2) as [Hc|Hc]; rewrite Hc; simpl.
  - left. apply ebitmap_cmp_ok in Hc; [|done..].
    assert (D = ∅) as ->; [|done]. apply set_eq. intros b. unfold D. rewrite Hc. set_solver.
  - pose proof (ebitmap_xor_ok e1 e2 o H1 H2) as Hx. unfold returns_set in Hx.
    destruct (ebitmap_xor e1 e2 o) as [[rc tmp] o'].
    destruct Hx as [(-> & Hok & Hset)|(-> & -> & HM)]; simpl; [left|right; done].
    rewrite ebitmap_cardinality_ok, Hset by done. fold D. unfold s32.
    rewrite wrap_small by (unfold in_range; lia).
    destruct (Z.ltb_spec (Z.of_nat (size D)) (2 ^ 31)); [done|lia].
Qed.

(** ** Iteration *)

Lemma node_get_bit_ctrue a b :
  startbit a <= b < startbit a + 64 -> ctrue (ebitmap_node_get_bit a b) = node_bit a b.
Proof.
  intros Hb. unfold ebitmap_node_get_bit. rewrite land_one_shiftl by lia. unfold node_bit.
  destruct (Z.leb_spec (startbit a) b); [|lia]. destruct (Z.ltb_spec b (startbit a + 64)); [|lia].
  simpl. by destruct (Z.testbit _ _).
Qed.

(** What the loop still has to visit from [bit] on in the node [a]. *)
Definition rest_bits (a : ebitmap_node) (bit : Z) : list Z :=
  filter (fun b => node_bit a b = true) (seqZ bit (startbit a + 64 - bit)).

Lemma rest_bits_step a bit :
  bit < startbit a + 64 ->
  rest_bits a bit = (if node_bit a bit then [bit] else []) ++ rest_bits a (bit + 1).
Proof.
  intros H. unfold rest_bits. rewrite seqZ_cons, filter_cons by lia.
  replace (Z.pred (startbit a + 64 - bit)) with (startbit a + 64 - (bit + 1)) by lia.
  unfold Z.succ. destruct (node_bit a bit); simpl; [|done]. done.
Qed.

Lemma rest_bits_end a : rest_bits a (startbit a + 64) = [].
Proof. unfold rest_bits. by rewrite seqZ_nil by lia. Qed.

Lemma rest_bits_start a l : rest_bits a (startbit a) ++ nodes_bits l = nodes_bits (a :: l).
Proof.
  unfold rest_bits, nodes_bits, node_bits. simpl.
  by replace (startbit a + 64 - startbit a) with 64 by lia.
Qed.

Lemma for_each_loop_spec fuel a l bit lo :
  0 <= lo -> nodes_ok lo (a :: l) -> startbit a <= bit < startbit a + 64 ->
  (Z.to_nat (startbit a + 64 - bit) + 64 * length l < fuel)%nat ->
  for_each_positive_bit_loop fuel (nodes_high (a :: l)) (a :: l) bit =
    Some (rest_bits a bit ++ nodes_bits l).
Proof.
  revert a l bit lo. induction fuel as [|fuel IH]; intros a l bit lo Hlo Hok Hbit Hfuel; [lia|].
  pose proof Hok as (? & Ha & Hl).
  destruct (nodes_high_props lo (a :: l) Hlo Hok) as (_ & Hr & _ & Htop).
  assert (Hhi : startbit a + 64 <= nodes_high (a :: l)).
  { destruct l as [|c l]; [unfold nodes_high; simpl; lia|]. rewrite nodes_high_cons by done.
    destruct (nodes_high_props (startbit a + 64) (c :: l) ltac:(lia) Hl) as (_ & _ & _ & Ht).
    destruct (Ht ltac:(done)). lia. }
  simpl for_each_positive_bit_loop.
  destruct (Z.ltb_spec bit (nodes_high (a :: l))) as [_|]; [|lia].
  assert (Hw : u32 (bit + 1) = bit + 1) by (apply wrap_small; unfold in_range; lia).
  assert (Hsame : bit < startbit a + 63 ->
    for_each_positive_bit_loop fuel (nodes_high (a :: l)) (a :: l) (bit + 1) =
      Some (rest_bits a (bit + 1) ++ nodes_bits l)).
  { intros. apply (IH _ _ _ lo); [done|done|lia|lia]. }
  assert (Hgoal : forall r, r = Some (rest_bits a (bit + 1) ++ nodes_bits l) ->
    match r with
    | Some l0 => if ctrue (ebitmap_node_get_bit a bit) then Some (bit :: l0) else Some l0
    | None => None
    end = Some (rest_bits a bit ++ nodes_bits l)).
  { intros r ->. rewrite node_get_bit_ctrue, (rest_bits_step a bit) by lia.
    by destruct (node_bit a bit). }
  destruct l as [|c l]; simpl ebitmap_next; cbv beta iota; rewrite ?Hw.
  - apply Hgoal. destruct (Z.lt_ge_cases bit (startbit a + 63)); [by apply Hsame|].
    assert (bit + 1 = startbit a + 64) as -> by lia. rewrite rest_bits_end.
    destruct fuel as [|fuel]; [simpl in *; lia|]. simpl. unfold nodes_high; simpl.
    destruct (Z.ltb_spec (startbit a + 64) (startbit a + 64)); [lia|done].
  - destruct (Z.eqb_spec bit (startbit a + 64 - 1)) as [Hlast|]; rewrite ?Hw; apply Hgoal; [|apply Hsame; lia].
    rewrite nodes_high_cons by done. replace (bit + 1) with (startbit a + 64) by lia.
    rewrite rest_bits_end, <- rest_bits_start. simpl. pose proof Hl as (? & Hc & ?).
    apply (IH c l (startbit c) (startbit a + 64)); [lia|done|lia|]. simpl length in Hfuel. lia.
Qed.

Lemma for_each_bits e : ebitmap_ok e -> for_each_positive_bit e = Some (nodes_bits (node e)).
Proof.
  intros [H Hh]. unfold for_each_positive_bit, ebitmap_length, ebitmap_startbit. rewrite Hh.
  destruct (node e) as [|a l] eqn:E; [done|].
  rewrite (for_each_loop_spec _ a l _ 0); [by rewrite rest_bits_start|done|done|lia|].
  simpl length. lia.
Qed.

Lemma for_each_positive_bit_ok e :
  ebitmap_ok e ->
  exists l, for_each_positive_bit e = Some l /\ StronglySorted Z.lt l /\
    (forall b, b ∈ l <-> b ∈ ebitmap_set e).
Proof.
  intros He. exists (nodes_bits (node e)). split_and!; [by apply for_each_bits| |].
  - destruct He as [H _]. by eapply nodes_bits_sorted.
  - intros b. by rewrite elem_of_nodes_bits, elem_of_ebitmap_set.
Qed.

(** the loop of [ebitmap_for_each_positive_bit] terminates and runs
    its body exactly on the members of the set, in increasing order. *)
Theorem for_each_positive_bit_spec e :
  ebitmap_ok e ->
  exists l, for_each_positive_bit e = Some l /\ StronglySorted Z.lt l /\
    (forall b, b ∈ l <-> b ∈ ebitmap_set e).
Proof. apply for_each_positive_bit_ok. Qed.

Lemma highest_loop_spec fuel m pos :
  0 < m < 2 ^ Z.of_nat fuel -> 0 <= pos -> pos + Z.of_nat fuel < 2 ^ 32 ->
  highest_loop fuel m pos = pos + Z.log2 m.
Proof.
  revert m pos. induction fuel as [|fuel IH]; intros m pos Hm Hp Hf; [simpl in Hm; lia|].
  simpl highest_loop. rewrite Nat2Z.inj_succ, Z.pow_succ_r in Hm by lia.
  assert (Hs : Z.shiftr m 1 = m / 2) by (by rewrite Z.shiftr_div_pow2). rewrite Hs.
  destruct (ctrue (m / 2)) eqn:E.
  - apply ctrue_spec in E. assert (0 < m / 2) by (pose proof (Z.div_pos m 2); lia).
    rewrite wrap_small by (unfold in_range; lia).
    rewrite IH; [|split; [done|apply Z.div_lt_upper_bound; lia]|lia|lia].
    rewrite <- Hs, Z.log2_shiftr by lia.
    assert (1 <= Z.log2 m); [|lia]. apply (Z.log2_le_mono 2).
    destruct (Z.lt_ge_cases m 2); [|done]. by rewrite Z.div_small in E by lia.
  - assert (m / 2 = 0) by (unfold ctrue in E; destruct (Z.eqb_spec (m / 2) 0); done).
    assert (m = 1) as -> by (apply Z.div_small_iff in H; lia). simpl. lia.
Qed.

Lemma nodes_bit_app l1 l2 b : nodes_bit (l1 ++ l2) b = nodes_bit l1 b || nodes_bit l2 b.
Proof. apply existsb_app. Qed.

Lemma nodes_ok_snoc lo l n :
  nodes_ok lo (l ++ [n]) ->
  node_ok n /\ lo <= startbit n /\ (forall b, nodes_bit l b = true -> b < startbit n).
Proof.
  revert lo. induction l as [|a l IH]; intros lo H; [destruct H as (? & ? & _); done|].
  destruct H as (? & Ha & H). destruct (IH _ H) as (Hn & Hlo & Hb). split_and!; [done|lia|].
  intros b. rewrite nodes_bit_unfold, orb_true_iff, node_bit_spec. intros [?|?]; [lia|auto].
Qed.

Lemma node_bit_log2 n b :
  node_ok n -> node_bit n b = true -> b <= startbit n + Z.log2 (nmap n).
Proof.
  intros (_ & _ & _ & Hpos & _) [Hb Ht]%node_bit_spec.
  destruct (Z.le_gt_cases (b - startbit n) (Z.log2 (nmap n))); [lia|].
  rewrite Z.bits_above_log2 in Ht by lia. done.
Qed.

(** [ebitmap_highest_set_bit] of a nonempty bitmap is its greatest
    member. *)
Theorem ebitmap_highest_set_bit_spec e :
  ebitmap_ok e -> ebitmap_set e <> ∅ ->
  ebitmap_highest_set_bit e ∈ ebitmap_set e /\
  (forall b, b ∈ ebitmap_set e -> b <= ebitmap_highest_set_bit e).
Proof.
  intros [H Hh] Hne. unfold ebitmap_highest_set_bit.
  destruct (last (node e)) as [n|] eqn:El.
  2:{ exfalso. apply Hne. apply last_None in El. unfold ebitmap_set. by rewrite El. }
  apply last_Some in El as [l El]. rewrite El in H.
  destruct (nodes_ok_snoc _ _ _ H) as (Hn & ? & Hlt). pose proof Hn as (? & ? & ? & Hpos & Hr).
  rewrite highest_loop_spec by (unfold in_range in Hr; simpl; lia).
  assert (Hlog : 0 <= Z.log2 (nmap n) < 64).
  { split; [apply Z.log2_nonneg|]. apply Z.log2_lt_pow2; [done|apply Hr]. }
  rewrite wrap_small by (unfold in_range; lia). rewrite Z.add_0_l.
  setoid_rewrite elem_of_ebitmap_set. rewrite El. setoid_rewrite nodes_bit_app. split.
  - rewrite nodes_bit_unfold, (proj2 (node_bit_spec _ _)); [by rewrite orb_true_r|].
    replace (startbit n + Z.log2 (nmap n) - startbit n) with (Z.log2 (nmap n)) by lia.
    split; [lia|by apply Z.bit_log2].
  - intros b. rewrite nodes_bit_unfold, nodes_bit_nil, orb_false_r, orb_true_iff.
    intros [?%Hlt|?%node_bit_log2]; [lia|done|done].
Qed.

(** ** Complement below a bound *)

Lemma lnot_w_0 : lnot_w 64 0 = Z.ones 64.
Proof. done. Qed.

Lemma cons_loop_LDone n r l o :
  cons_loop n r = (LDone l, o) -> exists l', r = (LDone l', o) /\ l = n :: l'.
Proof. destruct r as [[] o']; simpl; intros; simplify_eq; eauto. Qed.

(** The window of the complement at [cur]: [m] the map before the mask. *)
Definition not_mask (maxbit cur m : Z) : Z :=
  if maxbit - cur <? 64 then Z.land m (Z.shiftl 1 (maxbit - cur) - 1) else m.

Lemma not_mask_bit maxbit cur m i :
  cur < maxbit -> in_range 64 m -> 0 <= i ->
  Z.testbit (not_mask maxbit cur m) i = (cur + i <? maxbit) && Z.testbit m i.
Proof.
  intros Hc Hm Hi. unfold not_mask. destruct (Z.ltb_spec (maxbit - cur) 64) as [Hlt|Hge].
  - rewrite Z.land_spec, Z.shiftl_1_l.
    change (2 ^ (maxbit - cur) - 1) with (Z.pred (2 ^ (maxbit - cur))).
    rewrite <- Z.ones_equiv, andb_comm. f_equal.
    destruct (Z.ltb_spec (cur + i) maxbit); [apply Z.ones_spec_low; lia|apply Z.ones_spec_high; lia].
  - destruct (Z.ltb_spec (cur + i) maxbit); [done|]. by rewrite (testbit_high 64) by (done || lia).
Qed.

Lemma not_mask_range maxbit cur m : in_range 64 m -> in_range 64 (not_mask maxbit cur m).
Proof. intros. unfold not_mask. case_match; [by apply land_range_l|done]. Qed.

(** Bits of the complement from [cur] on. *)
Definition not_bits (cur maxbit : Z) (n : list ebitmap_node) (b : Z) : bool :=
  (cur <=? b) && (b <? maxbit) && negb (nodes_bit n b).

(** One iteration of the loop: the node consumed and the map it gives. *)
Lemma not_window cur maxbit n :
  0 <= cur < maxbit -> nodes_ok cur n -> cur mod 64 = 0 ->
  exists m n',
    match n with
    | a :: n' =>
        if startbit a =? cur then (startbit a, lnot_w 64 (nmap a), n')
        else (cur, lnot_w 64 0, n)
    | [] => (cur, lnot_w 64 0, n)
    end = (cur, m, n') /\
    in_range 64 m /\ nodes_ok (cur + 64) n' /\
    (forall b, not_bits cur maxbit n b =
       node_bit (mk_node cur (not_mask maxbit cur m)) b || not_bits (cur + 64) maxbit n' b).
Proof.
  intros Hc Hn Hmod.
  assert (Hbits : forall m n',
    in_range 64 m -> nodes_ok (cur + 64) n' ->
    (forall b, cur <= b < cur + 64 -> Z.testbit m (b - cur) = negb (nodes_bit n b)) ->
    (forall b, cur + 64 <= b -> nodes_bit n' b = nodes_bit n b) ->
    forall b, not_bits cur maxbit n b =
       node_bit (mk_node cur (not_mask maxbit cur m)) b || not_bits (cur + 64) maxbit n' b).
  { intros m n' Hm Hn' Hlow Hhigh b. unfold not_bits, node_bit; simpl.
    destruct (Z.leb_spec cur b); simpl; [|destruct (Z.leb_spec (cur + 64) b); [lia|done]].
    destruct (Z.ltb_spec b (cur + 64)), (Z.leb_spec (cur + 64) b); simpl; try lia.
    - rewrite orb_false_r, not_mask_bit, Hlow by (done || lia).
      by replace (cur + (b - cur)) with b by lia.
    - by rewrite Hhigh. }
  destruct n as [|a n].
  - exists (lnot_w 64 0), []. split_and!; [done|by apply ones_range|done|].
    apply Hbits; [by apply ones_range|done| |done]. intros b Hb.
    rewrite lnot_w_0, Z.ones_spec_low by lia. done.
  - pose proof Hn as (? & Ha & Hn'). destruct (Z.eqb_spec (startbit a) cur) as [<-|Hne].
    + exists (lnot_w 64 (nmap a)), n.
      assert (in_range 64 (lnot_w 64 (nmap a))) by (apply lnot_w_range; [lia|apply Ha]).
      split; [done|]. split; [done|]. split; [done|]. apply Hbits; [done|done| |].
      * intros b Hb. rewrite lnot_w_bit by (lia || apply Ha).
        rewrite (nodes_bit_cons _ _ _ _ Hn). unfold node_bit.
        destruct (Z.ltb_spec (b - startbit a) 64); [|lia].
        destruct (Z.ltb_spec b (startbit a + 64)); [|lia].
        destruct (Z.leb_spec (startbit a) b); [done|lia].
      * intros b Hb. rewrite (nodes_bit_cons _ _ _ _ Hn).
        destruct (Z.ltb_spec b (startbit a + 64)); [lia|done].
    + assert (nodes_ok (cur + 64) (a :: n)).
      { split_and!; [|done|done]. apply aligned_lt; [done|apply Ha|lia]. }
      exists (lnot_w 64 0), (a :: n).
      split; [done|]. split; [by apply ones_range|]. split; [done|].
      apply Hbits; [by apply ones_range|done| |done].
      intros b Hb. rewrite lnot_w_0, Z.ones_spec_low by lia.
      by rewrite (nodes_bit_low (cur + 64)) by (done || lia).
Qed.

Lemma not_bits_above cur maxbit n b : maxbit <= cur -> not_bits cur maxbit n b = false.
Proof.
  intros. unfold not_bits. destruct (Z.leb_spec cur b), (Z.ltb_spec b maxbit); simpl; done || lia.
Qed.

Lemma not_loop_ok fuel cur maxbit n o :
  0 <= cur -> cur mod 64 = 0 -> maxbit <= 2 ^ 32 - 64 -> nodes_ok cur n ->
  maxbit - cur <= 64 * Z.of_nat fuel ->
  match not_loop fuel cur maxbit n o with
  | (LFuel, _) => False
  | (LNoMem _, _) => ~ mem_ok o
  | (LDone l, _) => nodes_ok cur l /\ forall b, nodes_bit l b = not_bits cur maxbit n b
  end.
Proof.
  revert cur n o. induction fuel as [|fuel IH]; intros cur n o Hc Hmod Hmax Hn Hf; simpl.
  - destruct (Z.ltb_spec cur maxbit); [lia|]. split; [done|].
    intros b. by rewrite not_bits_above by lia.
  - destruct (Z.ltb_spec cur maxbit) as [Hlt|Hge].
    2:{ split; [done|]. intros b. by rewrite not_bits_above by lia. }
    destruct (not_window cur maxbit n ltac:(lia) Hn Hmod) as (m & n' & -> & Hm & Hn' & Hb).
    change (if maxbit - cur <? 64 then Z.land m (Z.shiftl 1 (maxbit - cur) - 1) else m)
      with (not_mask maxbit cur m).
    assert (cur + 64 <= 2 ^ 32 - 64) by (apply aligned_lt; [done|done|lia]).
    assert (u32 (cur + 64) = cur + 64) as -> by (apply wrap_small; unfold in_range; lia).
    assert (IH' := fun o => IH (cur + 64) n' o ltac:(lia) (aligned_add _ Hmod) Hmax Hn' ltac:(lia)).
    destruct (ctrue (not_mask maxbit cur m)) eqn:Hz.
    + destruct (malloc o) as [[] o1] eqn:E; simpl.
      2:{ intros M. by destruct (malloc_mem_ok _ _ _ E M). }
      specialize (IH' o1). destruct (not_loop fuel (cur + 64) maxbit n' o1) as [[l|l|] o2]; simpl.
      * destruct IH' as [Hl Hlb]. split.
        -- apply ctrue_spec in Hz. pose proof (not_mask_range maxbit cur m Hm) as Hr.
           split_and!; [simpl; lia| |done]. unfold node_ok; simpl.
           split_and!; [done|done|lia| |done]. unfold in_range in Hr. lia.
        -- intros b. by rewrite nodes_bit_unfold, Hlb, Hb.
      * intros M. apply IH'. by destruct (malloc_mem_ok _ _ _ E M).
      * done.
    + specialize (IH' o). destruct (not_loop fuel (cur + 64) maxbit n' o) as [[l|l|] o2]; [|done|done].
      destruct IH' as [Hl Hlb]. split; [eapply nodes_ok_weaken; [|done]; lia|].
      intros b. rewrite Hlb, Hb. assert (not_mask maxbit cur m = 0) as ->.
      { unfold ctrue in Hz. by destruct (Z.eqb_spec (not_mask maxbit cur m) 0). }
      unfold node_bit; simpl. by rewrite Z.testbit_0_l, andb_false_r.
Qed.

Lemma windows_enough maxbit : 0 <= maxbit -> maxbit <= 64 * Z.of_nat (windows maxbit).
Proof.
  intros. unfold windows. assert (0 <= maxbit / 64) by (apply Z.div_pos; lia).
  rewrite Z2Nat.id by lia. pose proof (Z.div_mod maxbit 64). pose proof (Z.mod_pos_bound maxbit 64). lia.
Qed.

Lemma aligned_max x : in_range 32 x -> x mod 64 = 0 -> x <= 2 ^ 32 - 64.
Proof.
  unfold in_range. intros Hx Hmod. destruct (Z.le_gt_cases x (2 ^ 32 - 64)) as [|Hgt]; [done|].
  pose proof (aligned_lt (2 ^ 32 - 64) x eq_refl Hmod ltac:(lia)). lia.
Qed.

Lemma bits_range e b : ebitmap_ok e -> b ∈ ebitmap_set e -> 0 <= b < 2 ^ 32 - 64.
Proof.
  intros [Hn Hh] Hb. apply elem_of_ebitmap_set in Hb.
  destruct (nodes_high_props 0 (node e) ltac:(done) Hn) as (Hm & Hr & Hlt & _). specialize (Hlt b Hb).
  pose proof (aligned_max (nodes_high (node e)) Hr Hm). split; [|lia].
  destruct (Z.lt_ge_cases b 0) as [Hneg|]; [|done]. by rewrite (nodes_bit_low 0) in Hb.
Qed.

(** The positions from [lo] to [hi] excluded. *)
Definition range_set (lo hi : Z) : gset Z := list_to_set (seqZ lo (hi - lo)).

Lemma elem_of_range_set lo hi b : b ∈ range_set lo hi <-> lo <= b < hi.
Proof. unfold range_set. rewrite elem_of_list_to_set, elem_of_seqZ. lia. Qed.

Lemma ebitmap_not_ok e maxbit o :
  ebitmap_ok e -> 0 <= maxbit <= 2 ^ 32 - 64 ->
  exists r, ebitmap_not e maxbit o = Some r /\
    returns_set o (range_set 0 maxbit ∖ ebitmap_set e) r.
Proof.
  intros [H Hh] Hm. unfold ebitmap_not.
  pose proof (not_loop_ok (windows maxbit) 0 maxbit (node e) o ltac:(done) eq_refl ltac:(lia) H
    ltac:(pose proof (windows_enough maxbit); lia)) as Hl.
  destruct (not_loop _ _ _ _ _) as [[l|l|] o'].
  - destruct Hl as [Hl Hb]. eexists. split; [done|]. left.
    split_and!; [done|by apply set_highbit_new_ok|]. apply ebitmap_set_eq. simpl. intros b.
    rewrite Hb, elem_of_difference, elem_of_range_set, elem_of_ebitmap_set. unfold not_bits.
    rewrite !andb_true_iff, Z.leb_le, Z.ltb_lt, negb_true_iff, not_true_iff_false. done.
  - eexists. split; [done|]. right. done.
  - done.
Qed.

(** for every bound up to 2^32 - 64 [ebitmap_not] returns, and what it
    returns is the complement of the set below the bound. *)
Theorem ebitmap_not_spec e maxbit o :
  ebitmap_ok e -> 0 <= maxbit <= 2 ^ 32 - 64 ->
  exists r, ebitmap_not e maxbit o = Some r /\
    returns_set o (range_set 0 maxbit ∖ ebitmap_set e) r.
Proof. apply ebitmap_not_ok. Qed.

(** C39: for a bound above 2^32 - 64 the 32-bit loop counter wraps to 0 and, as
    long as memory lasts, the loop of [ebitmap_not] never ends. *)
Theorem ebitmap_not_diverges fuel cur maxbit n o :
  2 ^ 32 - 64 < maxbit < 2 ^ 32 -> mem_ok o -> in_range 32 cur -> cur mod 64 = 0 ->
  fst (not_loop fuel cur maxbit n o) = LFuel.
Proof.
  intros Hm. revert cur n o. induction fuel as [|fuel IH]; intros cur n o M Hc Hmod; simpl;
    pose proof (aligned_max cur Hc Hmod); (destruct (Z.ltb_spec cur maxbit); [|lia]); [done|].
  destruct (match n with [] => _ | _ => _ end) as [[s m] n'].
  assert (Hw : in_range 32 (u32 (cur + 64)) /\ u32 (cur + 64) mod 64 = 0).
  { split; [by apply wrap_range|]. unfold wrap.
    rewrite Z.mod_mod_divide; [by apply aligned_add|by exists (2 ^ 26)]. }
  destruct (ctrue _); [|apply IH; [done|apply Hw|apply Hw]].
  destruct (malloc o) as [ok o1] eqn:E. destruct (malloc_mem_ok _ _ _ E M) as [-> M1]. simpl.
  specialize (IH (u32 (cur + 64)) n' o1 M1 (proj1 Hw) (proj2 Hw)).
  destruct (not_loop fuel (u32 (cur + 64)) maxbit n' o1) as [r o2]. simpl in IH. by rewrite IH.
Qed.

(** [ebitmap_andnot] is set difference below the bound. *)
Theorem ebitmap_andnot_spec e1 e2 maxbit o :
  ebitmap_ok e1 -> ebitmap_ok e2 -> 0 <= maxbit <= 2 ^ 32 - 64 ->
  exists rc dst o', ebitmap_andnot e1 e2 maxbit o = Some (rc, dst, o') /\
    ((rc = 0 /\ ebitmap_ok dst /\
        ebitmap_set dst = (ebitmap_set e1 ∖ ebitmap_set e2) ∩ range_set 0 maxbit) \/
     (rc = - ENOMEM /\ dst = ebitmap_init)).
Proof.
  intros H1 H2 Hm. unfold ebitmap_andnot.
  destruct (ebitmap_not_ok e2 maxbit o H2 Hm) as ([[rc e3] o1] & -> & Hn).
  destruct Hn as [(-> & H3 & Hs3)|(-> & -> & _)]; simpl; [|by eauto 10].
  pose proof (ebitmap_and_ok e1 e3 o1 H1 H3) as Ha. unfold returns_set in Ha.
  destruct (ebitmap_and e1 e3 o1) as [[rc dst] o2].
  destruct Ha as [(-> & Hd & Hsd)|(-> & -> & _)]; simpl; [|by eauto 10].
  eexists _, _, _. split; [done|]. left. split_and!; [done|done|].
  rewrite Hsd, Hs3. apply set_eq. intros b.
  rewrite !elem_of_intersection, !elem_of_difference. tauto.
Qed.

(** ** Ranges *)

Lemma init_range_map_bit start minstart maxstart minbit maxbit i :
  minstart <= minbit < minstart + 64 -> maxstart <= maxbit < maxstart + 64 ->
  minbit <= maxbit -> start mod 64 = 0 -> minstart mod 64 = 0 -> maxstart mod 64 = 0 ->
  minstart <= start <= maxstart -> 0 <= i < 64 ->
  Z.testbit (init_range_map start minstart maxstart minbit maxbit) i =
    (minbit <=? start + i) && (start + i <=? maxbit).
Proof.
  intros Hmin Hmax Hle A1 A2 A3 Hs Hi. unfold init_range_map. rewrite lnot_w_0.
  assert (Hones : forall j, Z.testbit (Z.ones 64) j = (0 <=? j) && (j <? 64)).
  { intros j. destruct (Z.leb_spec 0 j); [|by rewrite Z.testbit_neg_r by lia].
    destruct (Z.ltb_spec j 64); [by rewrite Z.ones_spec_low by lia|by rewrite Z.ones_spec_high by lia]. }
  destruct (Z.eqb_spec start minstart) as [E1|E1], (Z.eqb_spec start maxstart) as [E2|E2]; simpl;
    try (pose proof (aligned_lt minstart start A2 A1 ltac:(lia)));
    try (pose proof (aligned_lt start maxstart A1 A3 ltac:(lia)));
    rewrite ?wrap_bit, ?Z.shiftl_spec, ?Z.shiftr_spec, ?Hones by lia.
  - destruct (Z.ltb_spec i 64); [|lia]. simpl.
    destruct (Z.lt_ge_cases (i - (minbit - start)) 0).
    + rewrite Z.testbit_neg_r by lia. destruct (Z.leb_spec minbit (start + i)); [lia|done].
    + rewrite Z.shiftr_spec, Hones by lia. lia.
  - lia.
  - lia.
  - lia.
Qed.

Lemma init_range_map_range start minstart maxstart minbit maxbit :
  (start = maxstart -> maxbit < start + 64) ->
  in_range 64 (init_range_map start minstart maxstart minbit maxbit).
Proof.
  intros H. unfold init_range_map. rewrite lnot_w_0.
  destruct (Z.eqb_spec start minstart), (Z.eqb_spec start maxstart); simpl;
    first [by apply ones_range | by apply wrap_range
          | apply shiftr_range; [lia|lia|by apply ones_range]].
Qed.

Section InitRange.
Context (minstart maxstart minbit maxbit : Z).
Hypothesis Hmin : minstart mod 64 = 0 /\ minstart <= minbit < minstart + 64 /\ 0 <= minstart.
Hypothesis Hmax : maxstart mod 64 = 0 /\ maxstart <= maxbit < maxstart + 64.
Hypothesis Hle : minbit <= maxbit.
Hypothesis Hhigh : maxstart + 64 < 2 ^ 32.

(** Every node of the range has bits of the range below 64. *)
Lemma init_range_node_ok start :
  start mod 64 = 0 -> minstart <= start <= maxstart ->
  node_ok (mk_node start (init_range_map start minstart maxstart minbit maxbit)).
Proof.
  intros A1 Hs. destruct Hmin as (? & ? & ?), Hmax as (? & ?).
  set (m := init_range_map start minstart maxstart minbit maxbit).
  assert (Hr : in_range 64 m) by (apply init_range_map_range; lia).
  unfold node_ok; simpl. split_and!; [lia|done|lia| |done].
  assert (m <> 0); [|unfold in_range in Hr; lia]. intros Hz.
  assert (Ht : Z.testbit m (Z.max minbit start - start) = true).
  { assert (start < maxstart -> start + 64 <= maxstart) by (by apply aligned_lt).
    assert (minstart < start -> minstart + 64 <= start) by (by apply aligned_lt).
    unfold m. rewrite init_range_map_bit; try done; lia. }
  by rewrite Hz, Z.testbit_0_l in Ht.
Qed.

Lemma init_range_loop_ok fuel start o :
  start mod 64 = 0 -> minstart <= start -> maxstart + 64 - start <= 64 * Z.of_nat fuel ->
  match init_range_loop fuel start minstart maxstart minbit maxbit o with
  | (LFuel, _) => False
  | (LNoMem _, _) => ~ mem_ok o
  | (LDone l, _) => nodes_ok start l /\
      (forall b, nodes_bit l b = (start <=? b) && (minbit <=? b) && (b <=? maxbit)) /\
      (start <= maxstart -> nodes_high l = maxstart + 64)
  end.
Proof.
  destruct Hmin as (Hmin1 & ? & ?), Hmax as (Hmax1 & ?).
  revert start o. induction fuel as [|fuel IH]; intros start o A1 Hs Hf; simpl;
    (destruct (Z.leb_spec start maxstart) as [Hlt|Hge];
     [|split_and!; [done|intros b; pose proof (aligned_lt _ _ Hmax1 A1 Hge); rewrite nodes_bit_nil; lia|lia]]);
    [lia|].
  destruct (malloc o) as [[] o1] eqn:E; simpl.
  2:{ intros M. by destruct (malloc_mem_ok _ _ _ E M). }
  assert (u32 (start + 64) = start + 64) as -> by (apply wrap_small; unfold in_range; lia).
  specialize (IH (start + 64) o1 (aligned_add _ A1) ltac:(lia) ltac:(lia)).
  destruct (init_range_loop fuel (start + 64) _ _ _ _ o1) as [[l|l|] o2] eqn:El; simpl.
  - destruct IH as (Hl & Hb & Hh). split; [|split].
    + simpl. split; [lia|]. split; [apply init_range_node_ok; [done|lia]|done].
    + intros b. rewrite nodes_bit_unfold, Hb. unfold node_bit; simpl.
      destruct (Z.leb_spec start b), (Z.ltb_spec b (start + 64)); simpl; try lia.
      rewrite init_range_map_bit by (done || lia). replace (start + (b - start)) with b by lia. lia.
    + intros _. destruct (Z.le_gt_cases (start + 64) maxstart) as [Hn|Hn].
      * specialize (Hh Hn). rewrite nodes_high_cons; [done|].
        intros ->. unfold nodes_high in Hh; simpl in Hh. lia.
      * destruct fuel; simpl in El; destruct (Z.leb_spec (start + 64) maxstart); try lia;
          simplify_eq; unfold nodes_high; simpl;
          (destruct (Z.lt_ge_cases start maxstart) as [Hx|];
            [pose proof (aligned_lt _ _ A1 Hmax1 Hx)|]; lia).
  - intros M. apply IH. by destruct (malloc_mem_ok _ _ _ E M).
  - done.
Qed.
End InitRange.

(** [ebitmap_init_range] returns, and the bitmap it builds holds
    exactly the bits from [minbit] to [maxbit]; it never claims success when
    an allocation failed. *)
Theorem ebitmap_init_range_spec minbit maxbit o :
  0 <= minbit <= maxbit -> maxbit < 2 ^ 32 - 64 ->
  exists rc e o', ebitmap_init_range minbit maxbit o = Some (rc, e, o') /\
    ((rc = 0 /\ ebitmap_ok e /\ ebitmap_set e = range_set minbit (maxbit + 1)) \/
     (rc = - ENOMEM /\ ~ mem_ok o)).
Proof.
  intros Hmin Hmax. unfold ebitmap_init_range.
  destruct (align_props minbit) as (A1 & A2 & A3); [unfold in_range; lia|].
  destruct (align_props maxbit) as (B1 & B2 & B3); [unfold in_range; lia|].
  destruct (Z.ltb_spec maxbit minbit); [lia|].
  assert (align maxbit + 64 <= 2 ^ 32 - 64) by (apply aligned_lt; [done|done|lia]).
  rewrite !wrap_small by (unfold in_range; lia).
  destruct (Z.eqb_spec (align minbit + 64) 0), (Z.eqb_spec (align maxbit + 64) 0); try lia. simpl.
  assert (Hfuel : align maxbit + 64 - align minbit <= 64 * Z.of_nat (windows maxbit)).
  { unfold windows. assert (0 <= maxbit / 64) by (apply Z.div_pos; lia). rewrite Z2Nat.id by lia.
    pose proof (Z.div_mod maxbit 64). pose proof (align_spec maxbit ltac:(unfold in_range; lia)). lia. }
  pose proof (init_range_loop_ok (align minbit) (align maxbit) minbit maxbit ltac:(lia) ltac:(lia)
    ltac:(lia) ltac:(lia) (windows maxbit) (align minbit) o A1 ltac:(lia) Hfuel) as Hl.
  destruct (init_range_loop _ _ _ _ _ _ _) as [[l|l|] o'].
  - destruct Hl as (Hl & Hb & Hh).
    eexists _, _, _. split; [done|]. left. split; [done|]. split.
    + split; simpl; [by eapply nodes_ok_weaken; [|done]|]. symmetry. apply Hh. 
      destruct (Z.le_gt_cases (align minbit) (align maxbit)) as [|Hgt]; [done|].
      pose proof (aligned_lt _ _ B1 A1 ltac:(lia)). lia.
    + apply ebitmap_set_eq. simpl. intros b. rewrite Hb, elem_of_range_set. lia.
  - eexists _, _, _. split; [done|]. right. done.
  - done.
Qed.

(** the two refusals of [ebitmap_init_range]: an empty range is
    -EINVAL, a range that reaches the last window of the 32-bit space is
    -EOVERFLOW; the bitmap is empty in both cases. *)
Theorem ebitmap_init_range_errors minbit maxbit o :
  in_range 32 minbit -> in_range 32 maxbit ->
  (maxbit < minbit -> ebitmap_init_range minbit maxbit o = Some (- EINVAL, ebitmap_init, o)) /\
  (minbit <= maxbit -> 2 ^ 32 - 64 <= maxbit ->
     ebitmap_init_range minbit maxbit o = Some (- EOVERFLOW, ebitmap_init, o)).
Proof.
  intros Hmin Hmax. unfold ebitmap_init_range. split.
  - intros. destruct (Z.ltb_spec maxbit minbit); [done|lia].
  - intros Hle Hhi. destruct (Z.ltb_spec maxbit minbit); [lia|].
    destruct (align_props maxbit Hmax) as (B1 & B2 & B3). unfold in_range in *.
    assert (align maxbit = 2 ^ 32 - 64) as ->; [|by rewrite orb_true_r].
    destruct (Z.lt_trichotomy (align maxbit) (2 ^ 32 - 64)) as [Hlt|[?|Hlt]]; [|done|].
    + pose proof (aligned_lt _ (2 ^ 32 - 64) B1 eq_refl Hlt). lia.
    + pose proof (aligned_lt (2 ^ 32 - 64) _ eq_refl B1 Hlt). lia.
Qed.

(** ** Instances *)

Lemma ebitmap_cardinality_witness : ebitmap_cardinality sample_a = Z.of_nat (size (ebitmap_set sample_a)).
Proof. apply ebitmap_cardinality_spec; concrete. Defined.

Lemma for_each_positive_bit_witness :
  exists l, for_each_positive_bit sample_a = Some l /\ StronglySorted Z.lt l /\ (forall b, b ∈ l <-> b ∈ ebitmap_set sample_a).
Proof. apply for_each_positive_bit_spec; concrete. Defined.

Lemma ebitmap_not_witness :
  exists r, ebitmap_not sample_a 100 [] = Some r /\ returns_set [] (range_set 0 100 ∖ ebitmap_set sample_a) r.
Proof. apply ebitmap_not_spec; concrete. Defined.

Lemma ebitmap_andnot_witness :
  exists rc dst o', ebitmap_andnot sample_a sample_b 192 [] = Some (rc, dst, o') /\
    ((rc = 0 /\ ebitmap_ok dst /\ ebitmap_set dst = (ebitmap_set sample_a ∖ ebitmap_set sample_b) ∩ range_set 0 192) \/
     (rc = - ENOMEM /\ dst = ebitmap_init)).
Proof. apply ebitmap_andnot_spec; concrete. Defined.

Lemma ebitmap_init_range_witness :
  exists rc e o', ebitmap_init_range 60 130 [] = Some (rc, e, o') /\
    ((rc = 0 /\ ebitmap_ok e /\ ebitmap_set e = range_set 60 131) \/ (rc = - ENOMEM /\ ~ mem_ok [])).
Proof. apply (ebitmap_init_range_spec 60 130 []); concrete. Defined.

Lemma ebitmap_not_diverges_witness : fst (not_loop 1000 0 (2 ^ 32 - 1) (node sample_a) []) = LFuel.
Proof. apply ebitmap_not_diverges; concrete. Defined.
