(* ===== verification/EbitmapIO.v ===== *)
(** * EbitmapIO: bitmaps in binary policies

    [ebitmap_read] of libsepol/src/ebitmap.c and [ebitmap_write] of
    src/write.c: the reader accepts only well-formed bitmaps, whatever bytes
    it is given, and reads back what the writer wrote. *)
From Stdlib Require Import ZArith Lia Bool.
From stdpp Require Import base list list_numbers gmap sets.
From S2P Require Import Prelude PolicyFile Ebitmap EbitmapThms.

Definition POLICYDB_SUCCESS : Z := 0.
Definition POLICYDB_ERROR : Z := -1.

(** ** Operations *)

(** The loop [for (i = 0; i < count; i++)] of [ebitmap_read]: [l] is the
    node read last.  The result carries rc and, on success, the nodes. *)
Fixpoint read_loop (i : nat) (l : option ebitmap_node) (high : Z) (fp : policy_file) (o : oracle) :
    Z * list ebitmap_node * option ebitmap_node * policy_file * oracle :=
  match i with
  | O => (0, [], l, fp, o)
  | S i' =>
      let '(rc, buf, fp) := next_entry fp 4 in
      if rc <? 0 then (rc, [], l, fp, o) else
      let '(ok, o) := malloc o in
      if negb ok then (- ENOMEM, [], l, fp, o) else
      let sbit := word32 buf 0 in
      if ctrue (Z.land sbit (MAPSIZE - 1)) then (- EINVAL, [], l, fp, o)
      else if high - MAPSIZE <? sbit then (- EINVAL, [], l, fp, o)
      else
        let '(rc, buf, fp) := next_entry fp 8 in
        if rc <? 0 then (rc, [], l, fp, o) else
        let m := le_combine buf in
        if m =? 0 then (- EINVAL, [], l, fp, o)
        else if match l with Some l => sbit <=? startbit l | None => false end
        then (- EINVAL, [], l, fp, o)
        else
          let n := mk_node sbit m in
          let '(rc, ns, l, fp, o) := read_loop i' (Some n) high fp o in
          (rc, n :: ns, l, fp, o)
  end.

Definition ebitmap_read (fp : policy_file) (o : oracle) : Z * ebitmap * policy_file * oracle :=
  let '(rc, buf, fp) := next_entry fp 12 in
  if rc <? 0 then (rc, ebitmap_init, fp, o) else
  let mapsize := word32 buf 0 in
  let high := word32 buf 1 in
  let count := word32 buf 2 in
  if negb (mapsize =? MAPSIZE) then (- EINVAL, ebitmap_init, fp, o)
  else if high =? 0 then (0, mk_ebitmap [] high, fp, o)
  else if ctrue (Z.land high (MAPSIZE - 1)) then (- EINVAL, ebitmap_init, fp, o)
  else if ctrue high && (count =? 0) then (- EINVAL, ebitmap_init, fp, o)
  else
    let '(rc, ns, l, fp, o) := read_loop (Z.to_nat count) None high fp o in
    if ctrue rc then (rc, ebitmap_init, fp, o)
    else if negb (count =? 0) &&
            match l with Some l => negb (startbit l + MAPSIZE =? high) | None => false end
    then (- EINVAL, ebitmap_init, fp, o)
    else (0, mk_ebitmap ns high, fp, o).

(** The second loop of [ebitmap_write]. *)
Fixpoint write_loop (n : list ebitmap_node) (fp : policy_file) : Z * policy_file :=
  match n with
  | [] => (POLICYDB_SUCCESS, fp)
  | a :: n' =>
      let '(items, fp) := put_entry (le_split 4 (startbit a)) 4 1 fp in
      if negb (items =? 1) then (POLICYDB_ERROR, fp) else
      let '(items, fp) := put_entry (le_split 8 (nmap a)) 8 1 fp in
      if negb (items =? 1) then (POLICYDB_ERROR, fp) else write_loop n' fp
  end.

Fixpoint count_nodes (n : list ebitmap_node) (count : Z) : Z :=
  match n with
  | [] => count
  | _ :: n' => count_nodes n' (u32 (count + 1))
  end.

Definition ebitmap_write (e : ebitmap) (fp : policy_file) : Z * policy_file :=
  let count := count_nodes (node e) 0 in
  let '(items, fp) := put_entry (words32 [MAPSIZE; highbit e; count]) 4 3 fp in
  if negb (items =? 3) then (POLICYDB_ERROR, fp) else write_loop (node e) fp.

(** ** The image of a bitmap *)

Definition node_image (n : ebitmap_node) : list Z := le_split 4 (startbit n) ++ le_split 8 (nmap n).

Definition ebitmap_image (e : ebitmap) : list Z :=
  words32 [MAPSIZE; highbit e; zlength (node e)] ++ concat (map node_image (node e)).

#[local] Opaque le_split le_combine put_entry next_entry.

Lemma count_nodes_spec n count :
  0 <= count -> count + zlength n < 2 ^ 32 -> count_nodes n count = count + zlength n.
Proof.
  unfold zlength. revert count. induction n as [|a n IH]; intros count Hc Hlt; simpl in *; [lia|].
  rewrite wrap_small by (unfold in_range; lia). rewrite IH; lia.
Qed.

Lemma nodes_count_bound lo l : nodes_ok lo l -> 64 * zlength l <= nodes_high_from lo l - lo.
Proof.
  revert lo. induction l as [|a l IH]; intros lo H; [unfold nodes_high_from, zlength; simpl; lia|].
  destruct H as (? & _ & Hl). rewrite nodes_high_from_cons. specialize (IH _ Hl).
  unfold zlength in *. simpl length. lia.
Qed.

Lemma nodes_count_u32 e : ebitmap_ok e -> zlength (node e) < 2 ^ 32.
Proof.
  intros [H _]. pose proof (nodes_count_bound 0 _ H) as Hb.
  destruct (nodes_high_props 0 (node e) ltac:(done) H) as (_ & Hr & _).
  unfold nodes_high_from in Hb. unfold nodes_high in Hr. lia.
Qed.

Lemma zlength_node_image a : zlength (node_image a) = 12.
Proof. unfold node_image. by rewrite zlength_app, !zlength_le_split. Qed.

Lemma zlength_nodes_image l : zlength (concat (map node_image l)) = 12 * zlength l.
Proof.
  induction l as [|a l IH]; [done|]. cbn [map concat]. rewrite zlength_app, zlength_node_image, IH.
  unfold zlength. simpl length. lia.
Qed.

Lemma zlength_image e : zlength (ebitmap_image e) = 12 + 12 * zlength (node e).
Proof. unfold ebitmap_image. rewrite zlength_app, zlength_nodes_image, zlength_words32. done. Qed.

Lemma write_loop_room n fp :
  room fp (12 * zlength n) -> write_loop n fp = (POLICYDB_SUCCESS, wrote fp (concat (map node_image n))).
Proof.
  revert fp. induction n as [|a n IH]; intros fp Hr; cbn [write_loop map concat]; [by rewrite wrote_nil|].
  assert (12 * zlength (a :: n) = 12 + 12 * zlength n) as Hz by (unfold zlength; simpl length; lia). pose proof (zlength_nonneg n). rewrite Hz in Hr.
  rewrite put_entry_room; [|by rewrite zlength_le_split|eapply room_le; [|exact Hr]; lia]. cbn [Z.eqb Pos.eqb negb].
  assert (Hr1 : room (wrote fp (le_split 4 (startbit a))) (8 + 12 * zlength n)) by (apply room_wrote; rewrite ?zlength_le_split; [lia|]; by replace (Z.of_nat 4 + (8 + 12 * zlength n)) with (12 + 12 * zlength n) by lia).
  rewrite put_entry_room; [|by rewrite zlength_le_split|eapply room_le; [|exact Hr1]; lia]. cbn [Z.eqb Pos.eqb negb].
  rewrite IH by (apply room_wrote; rewrite ?zlength_le_split; [lia|exact Hr1]). by rewrite !wrote_app.
Qed.

(** [ebitmap_write] into a file with room for it appends exactly the image of
    the bitmap; sizing a policy counts exactly these bytes. *)
Lemma ebitmap_write_ok e fp :
  ebitmap_ok e -> room fp (zlength (ebitmap_image e)) -> ebitmap_write e fp = (POLICYDB_SUCCESS, wrote fp (ebitmap_image e)).
Proof.
  intros He Hr. pose proof (nodes_count_u32 e He). pose proof (zlength_nonneg (node e)).
  rewrite zlength_image in Hr. unfold ebitmap_write. rewrite count_nodes_spec by lia. rewrite Z.add_0_l.
  rewrite put_entry_room; [|by rewrite zlength_words32|eapply room_le; [|exact Hr]; lia]. cbn [Z.eqb Pos.eqb negb].
  rewrite write_loop_room by (apply room_wrote; rewrite ?zlength_words32; [lia|exact Hr]). by rewrite wrote_app.
Qed.

(** ** Reading *)

Lemma land_mask_aligned x : in_range 32 x -> ctrue (Z.land x (MAPSIZE - 1)) = false <-> x mod 64 = 0.
Proof.
  intros Hx. change (MAPSIZE - 1) with (2 ^ 6 - 1). rewrite land_ones_eq_mod by lia.
  change (2 ^ 6) with 64. unfold ctrue. destruct (Z.eqb_spec (x mod 64) 0); simpl; split; congruence.
Qed.


(** A path on which the return code is an error. *)
Ltac bad_rc := unfold ENOMEM, EINVAL in *; simplify_eq; lia || done.

(** Whatever the bytes, the nodes the loop accepts are well formed and start
    where the last one ended. *)
Lemma read_loop_ok i l high fp o rc ns l' fp' o' lo :
  pf_bytes fp -> in_range 32 high -> 0 <= lo ->
  match l with Some p => startbit p mod 64 = 0 /\ lo = startbit p + 64 | None => lo = 0 end ->
  read_loop i l high fp o = (rc, ns, l', fp', o') -> rc = 0 ->
  nodes_ok lo ns /\ length ns = i /\ l' = match last ns with Some n => Some n | None => l end.
Proof.
  intros Hb Hh. revert l fp o rc ns l' fp' o' lo Hb.
  induction i as [|i IH]; intros l fp o rc ns l' fp' o' lo Hb Hlo Hl H Hrc; simpl in H.
  { by simplify_eq. }
  destruct (next_entry fp 4) as [[rc1 buf1] fp1] eqn:E1.
  destruct (next_entry_bytes _ _ _ _ _ Hb E1) as (Hb1 & Hbuf1 & _ & Hrc1).
  destruct Hrc1 as [-> | ->]; simpl in H; [|by simplify_eq].
  malloc_in H; simpl in H; [|by simplify_eq].
  pose proof (word32_range buf1 0 Hbuf1) as Hw.
  destruct (ctrue (Z.land (word32 buf1 0) (64 - 1))) eqn:Hal; [bad_rc|].
  apply (land_mask_aligned _ Hw) in Hal.
  destruct (Z.ltb_spec (high - 64) (word32 buf1 0)); [bad_rc|].
  destruct (next_entry fp1 8) as [[rc2 buf2] fp2] eqn:E2.
  destruct (next_entry_bytes _ _ _ _ _ Hb1 E2) as (Hb2 & Hbuf2 & Hlen2 & Hrc2).
  destruct Hrc2 as [-> | ->]; simpl in H; [|by simplify_eq].
  assert (Hm : in_range 64 (le_combine buf2)) by (by eapply (le_combine_lt _ 8)).
  destruct (Z.eqb_spec (le_combine buf2) 0); [bad_rc|].
  destruct (match l with Some l => _ | None => false end) eqn:Hord; [bad_rc|].
  destruct (read_loop i _ high fp2 _) as [[[[rc3 ns3] l3] fp3] o3] eqn:E3.
  simplify_eq. specialize (IH (Some (mk_node (word32 buf1 0) (le_combine buf2))) _ _ _ _ _ _ _ (word32 buf1 0 + 64) Hb2 ltac:(unfold in_range in *; lia)
    (conj Hal eq_refl) E3 eq_refl) as (Hns & Hlen & Hl').
  split; [|split].
  - simpl. split; [|split; [|done]].
    + destruct l as [p|]; [|unfold in_range in Hw; lia].
      destruct Hl as [Hp ->]. apply Z.leb_gt in Hord. by apply aligned_lt.
    + unfold node_ok, in_range in *; simpl. lia.
  - simpl. by rewrite Hlen.
  - rewrite Hl', last_cons. by destruct (last ns3).
Qed.

Lemma read_loop_rc i l high fp o rc ns l' fp' o' :
  pf_bytes fp -> read_loop i l high fp o = (rc, ns, l', fp', o') -> rc <> 0 -> rc < 0.
Proof.
  revert l fp o rc ns l' fp' o'. induction i as [|i IH]; intros l fp o rc ns l' fp' o' Hb H Hrc;
    simpl in H; [by simplify_eq|].
  destruct (next_entry fp 4) as [[rc1 buf1] fp1] eqn:E1.
  destruct (next_entry_bytes _ _ _ _ _ Hb E1) as (Hb1 & _ & _ & [-> | ->]); simpl in H; [|bad_rc].
  malloc_in H; simpl in H; [|bad_rc]. do 2 (case_match; [bad_rc|]).
  destruct (next_entry fp1 8) as [[rc2 buf2] fp2] eqn:E2.
  destruct (next_entry_bytes _ _ _ _ _ Hb1 E2) as (Hb2 & _ & _ & [-> | ->]); simpl in H; [|bad_rc].
  do 2 (case_match; [bad_rc|]).
  destruct (read_loop i _ high fp2 _) as [[[[rc3 ns3] l3] fp3] o3] eqn:E3. simplify_eq. by eapply IH.
Qed.

Lemma ebitmap_read_ok fp o :
  pf_bytes fp ->
  let '(rc, e, _, _) := ebitmap_read fp o in
  (rc = 0 /\ ebitmap_ok e) \/ (rc < 0 /\ e = ebitmap_init).
Proof.
  intros Hb. unfold ebitmap_read.
  destruct (next_entry fp 12) as [[rc1 buf1] fp1] eqn:E1.
  destruct (next_entry_bytes _ _ _ _ _ Hb E1) as (Hb1 & Hbuf1 & _ & Hrc1).
  destruct Hrc1 as [-> | ->]; simpl; [|right; done].
  pose proof (word32_range buf1 1 Hbuf1) as Hh. pose proof (word32_range buf1 2 Hbuf1) as Hc.
  destruct (word32 buf1 0 =? 64); simpl; [|right; done].
  destruct (Z.eqb_spec (word32 buf1 1) 0) as [->|Hnz]; [left; done|].
  destruct (ctrue (Z.land _ _)) eqn:Hal; [right; done|].
  rewrite (proj2 (ctrue_spec _) Hnz). simpl.
  destruct (Z.eqb_spec (word32 buf1 2) 0) as [|Hcnz]; [right; done|]. simpl.
  destruct (read_loop (Z.to_nat (word32 buf1 2)) None (word32 buf1 1) fp1 o) as [[[[rc ns] l] fp2] o2] eqn:E.
  destruct (ctrue rc) eqn:Hrc; [right; split; [|done]|].
  - apply ctrue_spec in Hrc. eapply read_loop_rc; [exact Hb1|exact E|done].
  - assert (rc = 0) as -> by (unfold ctrue in Hrc; by destruct (Z.eqb_spec rc 0)).
    destruct (read_loop_ok _ None _ _ _ _ _ _ _ _ 0 Hb1 Hh ltac:(done) eq_refl E eq_refl) as (Hns & Hlen & ->).
    unfold in_range in *. destruct (last ns) as [n|] eqn:Hlast.
    + destruct (Z.eqb_spec (startbit n + 64) (word32 buf1 1)) as [Heq|]; simpl; [left|right; done].
      split; [done|]. split; [done|]. simpl. unfold nodes_high. by rewrite Hlast.
    + apply last_None in Hlast as ->. simpl in Hlen. lia.
Qed.

(** whatever bytes it is given, [ebitmap_read] either builds a
    well-formed bitmap or fails and leaves an empty one. *)
Theorem ebitmap_read_sound fp o :
  pf_bytes fp ->
  let '(rc, e, _, _) := ebitmap_read fp o in
  (rc = 0 /\ ebitmap_ok e) \/ (rc < 0 /\ e = ebitmap_init).
Proof. apply ebitmap_read_ok. Qed.

(** ** Round trip *)

Lemma read_loop_image ns l high fp rest o lo :
  mem_ready fp -> mem_ok o -> nodes_ok lo ns ->
  (ns <> [] -> nodes_high_from lo ns <= high) ->
  (forall p, l = Some p -> startbit p < lo) ->
  pf_data fp = concat (map node_image ns) ++ rest ->
  exists o', read_loop (length ns) l high fp o =
    (0, ns, match last ns with Some n => Some n | None => l end,
     match ns with [] => fp | _ => with_data fp rest end, o').
Proof.
  revert l fp o lo. induction ns as [|a ns IH]; intros l fp o lo Hfp M Hok Hhi Hl Hd; [by exists o|].
  destruct Hok as (Hlo & Ha & Hns). pose proof Ha as (? & Hmod & ? & Hpos & Hr).
  cbn [map concat length read_loop] in *. unfold node_image in Hd. rewrite <- !app_assoc in Hd.
  rewrite (next_entry_app fp _ _ 4 Hfp Hd) by (by rewrite zlength_le_split). simpl.
  destruct (malloc o) as [ok o1] eqn:E. destruct (malloc_mem_ok _ _ _ E M) as [-> M1]. simpl.
  assert (Hw : word32 (le_split 4 (startbit a)) 0 = startbit a).
  { unfold word32. rewrite Nat.mul_0_r, drop_0. rewrite take_ge by (rewrite length_le_split; lia).
    rewrite le_combine_split. apply wrap_small. change (in_range 32 (startbit a)). unfold in_range. lia. }
  rewrite Hw, (proj2 (land_mask_aligned (startbit a) ltac:(unfold in_range; lia)) Hmod).
  specialize (Hhi ltac:(done)). rewrite nodes_high_from_cons in Hhi.
  assert (startbit a + 64 <= nodes_high_from (startbit a + 64) ns).
  { pose proof (nodes_count_bound _ _ Hns). pose proof (zlength_nonneg ns). lia. }
  destruct (Z.ltb_spec (high - 64) (startbit a)); [lia|].
  rewrite (next_entry_app _ (le_split 8 (nmap a)) (concat (map node_image ns) ++ rest) 8)
    by (done || by rewrite zlength_le_split). simpl.
  rewrite le_combine_split, wrap_small by done. destruct (Z.eqb_spec (nmap a) 0); [lia|].
  assert (match l with Some l => startbit a <=? startbit l | None => false end = false) as ->.
  { destruct l as [p|]; [|done]. specialize (Hl p eq_refl). apply Z.leb_gt. lia. }
  match goal with |- context [read_loop (length ns) (Some ?n) high ?f o1] =>
    destruct (IH (Some n) f o1 (startbit a + 64)) as [o' ->] end.
  - done.
  - done.
  - done.
  - by intros _.
  - intros p [= <-]. simpl. lia.
  - done.
  - exists o'. rewrite last_cons. destruct a as [s m]; simpl.
    destruct (last ns) eqn:El; [|apply last_None in El as ->; done].
    by destruct ns.
Qed.

Lemma read_loop_mem_ok i l high fp o rc ns l' fp' o' :
  read_loop i l high fp o = (rc, ns, l', fp', o') -> mem_ok o -> mem_ok o'.
Proof.
  revert l fp o rc ns l' fp' o'. induction i as [|i IH]; intros l fp o rc ns l' fp' o' H M; cbn [read_loop] in H; [by simplify_eq|].
  destruct (next_entry fp 4) as [[rc1 buf1] fp1]. case_match; [by simplify_eq|].
  destruct (malloc o) as [ok o1] eqn:E. destruct (malloc_mem_ok _ _ _ E M) as [-> M1]. cbn [negb] in H.
  do 2 (case_match; [by simplify_eq|]). destruct (next_entry fp1 8) as [[rc2 buf2] fp2].
  do 2 (case_match; [by simplify_eq|]). case_match; [by simplify_eq|].
  destruct (read_loop i _ high fp2 o1) as [[[[rc3 ns3] l3] fp3] o3] eqn:E3. simplify_eq. by eapply IH.
Qed.

Lemma ebitmap_read_mem_ok fp o rc e fp' o' : ebitmap_read fp o = (rc, e, fp', o') -> mem_ok o -> mem_ok o'.
Proof.
  unfold ebitmap_read. intros H M. destruct (next_entry fp 12) as [[rc1 buf1] fp1].
  do 5 (case_match; [by simplify_eq|]).
  destruct (read_loop _ _ _ _ _) as [[[[rc2 ns] l] fp2] o2] eqn:E. pose proof (read_loop_mem_ok _ _ _ _ _ _ _ _ _ _ E M).
  repeat case_match; by simplify_eq.
Qed.

Lemma ebitmap_read_image e fp rest o :
  ebitmap_ok e -> mem_ready fp -> mem_ok o -> pf_data fp = ebitmap_image e ++ rest ->
  exists o', ebitmap_read fp o = (0, e, with_data fp rest, o').
Proof.
  intros He Hfp M Hd. pose proof (nodes_count_u32 e He) as Hcnt. destruct He as [Hok Hh].
  destruct (nodes_high_props 0 (node e) ltac:(done) Hok) as (Hal & Hr & _ & Htop).
  unfold ebitmap_image in Hd. rewrite <- app_assoc in Hd. unfold ebitmap_read.
  rewrite (next_entry_app fp _ _ 12 Hfp Hd) by (by rewrite zlength_words32). simpl.
  set (ws := words32 [64; highbit e; zlength (node e)]).
  pose proof (zlength_nonneg (node e)).
  assert (Hws : forall i w, [64; highbit e; zlength (node e)] !! i = Some w -> in_range 32 w -> word32 ws i = w).
  { intros i w Hi Hw. rewrite <- (app_nil_r ws). by apply word32_words32. }
  rewrite !(Hws 0%nat 64), !(Hws 1%nat (highbit e)), !(Hws 2%nat (zlength (node e)))
    by (done || (unfold in_range; lia)). simpl. clear Hws.
  destruct (Z.eqb_spec (highbit e) 0) as [Hz|Hnz].
  - exists o. destruct (node e) as [|a l] eqn:En; [|destruct (Htop ltac:(done)); lia].
    destruct e; simpl in *. by subst.
  - rewrite (proj2 (land_mask_aligned (highbit e) ltac:(unfold in_range; lia))) by (by rewrite Hh).
    rewrite (proj2 (ctrue_spec _) Hnz). simpl.
    assert (Hne : node e <> []) by (intros En; rewrite En in Hh; done).
    destruct (Z.eqb_spec (zlength (node e)) 0) as [Hz0|].
    { unfold zlength in Hz0. destruct (node e); [done|simpl in Hz0; lia]. }
    unfold zlength at 1. rewrite Nat2Z.id.
    destruct (read_loop_image (node e) None (highbit e)
      (with_data fp (concat (map node_image (node e)) ++ rest)) rest o 0) as [o' ->]; try done.
    { intros _. by rewrite Hh. }
    simpl. exists o'. unfold nodes_high in Hh. destruct (last (node e)) as [nd|] eqn:El.
    + rewrite Hh, Z.eqb_refl. simpl. destruct (node e) eqn:En; [done|]. rewrite <- En, <- Hh. by destruct e.
    + by apply last_None in El.
Qed.

(** a bitmap written into a memory image or a stream is read back as it
    was, and the reader is left just behind it, whatever follows. *)
Theorem ebitmap_roundtrip e fp rest o :
  ebitmap_ok e -> pf_ty fp <> PF_LEN -> pf_out fp = [] -> room fp (zlength (ebitmap_image e)) -> mem_ok o ->
  exists out o', ebitmap_write e fp = (POLICYDB_SUCCESS, out) /\ ebitmap_read (mem_file (pf_out out ++ rest)) o = (0, e, mem_file rest, o').
Proof.
  intros He Hty Hout Hr M. destruct (ebitmap_read_image e (mem_file (ebitmap_image e ++ rest)) rest o) as (o' & E); [done..|].
  exists (wrote fp (ebitmap_image e)), o'. split; [by apply ebitmap_write_ok|]. by rewrite wrote_out, Hout.
Qed.

Lemma read_loop_bytes i l high fp o rc ns l' fp' o' :
  read_loop i l high fp o = (rc, ns, l', fp', o') -> pf_bytes fp -> pf_bytes fp'.
Proof.
  revert l fp o rc ns l' fp' o'. induction i as [|i IH]; intros l fp o rc ns l' fp' o' H Hb; cbn [read_loop] in H; [by simplify_eq|].
  destruct (next_entry fp 4) as [[rc1 buf1] fp1] eqn:E1. destruct (next_entry_bytes _ _ _ _ _ Hb E1) as (Hb1 & _ & _ & _).
  case_match; [by simplify_eq|]. destruct (malloc o) as [ok o1]. case_match; [by simplify_eq|].
  do 2 (case_match; [by simplify_eq|]). destruct (next_entry fp1 8) as [[rc2 buf2] fp2] eqn:E2.
  destruct (next_entry_bytes _ _ _ _ _ Hb1 E2) as (Hb2 & _ & _ & _).
  do 3 (case_match; [by simplify_eq|]).
  destruct (read_loop i _ high fp2 o1) as [[[[rc3 ns3] l3] fp3] o3] eqn:E3. simplify_eq. by eapply IH.
Qed.

Lemma ebitmap_read_bytes fp o rc e fp' o' : ebitmap_read fp o = (rc, e, fp', o') -> pf_bytes fp -> pf_bytes fp'.
Proof.
  unfold ebitmap_read. intros H Hb. destruct (next_entry fp 12) as [[rc1 buf1] fp1] eqn:E1.
  destruct (next_entry_bytes _ _ _ _ _ Hb E1) as (Hb1 & _ & _ & _). do 5 (case_match; [by simplify_eq|]).
  destruct (read_loop _ _ _ _ _) as [[[[rc2 ns] l] fp2] o2] eqn:E. pose proof (read_loop_bytes _ _ _ _ _ _ _ _ _ _ E Hb1).
  repeat case_match; by simplify_eq.
Qed.

(** ** Instances *)

Lemma ebitmap_read_witness :
  let '(rc, e, _, _) := ebitmap_read (mem_file (ebitmap_image sample_a)) [] in
  (rc = 0 /\ ebitmap_ok e) \/ (rc < 0 /\ e = ebitmap_init).
Proof. apply (ebitmap_read_sound (mem_file (ebitmap_image sample_a)) []). repeat constructor; concrete. Defined.

Lemma ebitmap_roundtrip_witness :
  exists out o', ebitmap_write sample_a (mk_policy_file PF_USE_STDIO [] 0 [] []) = (POLICYDB_SUCCESS, out) /\
    ebitmap_read (mem_file (pf_out out ++ [1; 2; 3])) [] = (0, sample_a, mem_file [1; 2; 3], o').
Proof.
  apply (ebitmap_roundtrip sample_a (mk_policy_file PF_USE_STDIO [] 0 [] []) [1; 2; 3] []);
    [concrete|discriminate|reflexivity|split; reflexivity|constructor].
Defined.
