(* ===== verification/Hashtab.v ===== *)
(** * Hashtab: libsepol's chained hash tables

    Model of libsepol/src/hashtab.c.  Keys come with the two function
    pointers a table stores, [hash_value] and [keycmp]; the class [KeyOps]
    holds them and [KeyLaws] states what a table needs of them.  The chain
    of a slot is a Rocq list in the order of the [next] pointers.  The
    abstraction of a table is a finite map. *)
From Stdlib Require Import ZArith Lia Bool Sorting.Sorted.
From stdpp Require Import base list list_numbers gmap sets sorting.
From S2P Require Import Prelude.

(** ** The interface of keys *)

(** [hash_value size k] is [h->hash_value(h, k)] in a table of [size] slots. *)
Class KeyOps (K : Type) := {
  hash_value : Z -> K -> Z;
  keycmp : K -> K -> Z
}.

(** What the table relies on: slots exist and the comparison is a total
    order whose zero is equality. *)
Class KeyLaws (K : Type) `{KeyOps K} := {
  hash_value_range size k : 0 < size -> 0 <= hash_value size k < size;
  keycmp_eq a b : keycmp a b = 0 <-> a = b;
  keycmp_antisym a b : 0 < keycmp a b <-> keycmp b a < 0;
  keycmp_trans a b c : keycmp a b < 0 -> keycmp b c < 0 -> keycmp a c < 0
}.

Section Model.
Context {K D : Type} `{!KeyOps K}.

Record hashtab := mk_hashtab {
  htable : list (list (K * D));
  ht_size : Z;
  ht_nel : Z
}.

(** [h->htable[i]]. *)
Definition slot (tbl : list (list (K * D))) (i : Z) : list (K * D) :=
  default [] (tbl !! Z.to_nat i).

Definition hashtab_create (sz : Z) (o : oracle) : option hashtab * oracle :=
  let '(ok, o) := malloc o in
  if negb ok then (None, o) else
  let '(ok, o) := malloc o in
  if negb ok then (None, o) else (Some (mk_hashtab (replicate (Z.to_nat sz) []) sz 0), o).

(** [while (new_size <= h->nel && new_size * 2 != 0) new_size *= 2]. *)
Fixpoint new_size_loop (fuel : nat) (n new_size : Z) : Z :=
  match fuel with
  | O => new_size
  | S fuel =>
      if (new_size <=? n) && negb (u32 (new_size * 2) =? 0)
      then new_size_loop fuel n (u32 (new_size * 2)) else new_size
  end.

(** The inner loop of the resize: [dst] advances while the key of [cur] is
    greater than the key there, then [cur] is linked in. *)
Fixpoint chain_place (cur : K * D) (dst : list (K * D)) : list (K * D) :=
  match dst with
  | [] => [cur]
  | x :: dst' => if 0 <? keycmp cur.1 x.1 then x :: chain_place cur dst' else cur :: dst
  end.

Definition move_one (sz : Z) (tbl : list (list (K * D))) (cur : K * D) : list (list (K * D)) :=
  let hvalue := hash_value sz cur.1 in
  <[Z.to_nat hvalue := chain_place cur (slot tbl hvalue)]> tbl.

(** The two nested loops that move every element to the new table. *)
Definition move_all (sz : Z) (old new : list (list (K * D))) : list (list (K * D)) :=
  fold_left (fun tbl chain => fold_left (move_one sz) chain tbl) old new.

Definition hashtab_check_resize (h : hashtab) (o : oracle) : hashtab * oracle :=
  let new_size := new_size_loop 32 (ht_nel h) (ht_size h) in
  if ht_size h =? new_size then (h, o) else
  let '(ok, o) := malloc o in
  if negb ok then (h, o)
  else (mk_hashtab (move_all new_size (htable h) (replicate (Z.to_nat new_size) [])) new_size (ht_nel h), o).

(** The search for the place of [key] in its chain: [None] when the key is
    there, else the chain with the new node linked in. *)
Fixpoint chain_insert (key : K) (datum : D) (cur : list (K * D)) : option (list (K * D)) :=
  match cur with
  | [] => Some [(key, datum)]
  | x :: cur' =>
      let cmp := keycmp key x.1 in
      if 0 <? cmp then
        match chain_insert key datum cur' with Some l => Some (x :: l) | None => None end
      else if cmp =? 0 then None
      else Some ((key, datum) :: cur)
  end.

Definition hashtab_insert (h : option hashtab) (key : K) (datum : D) (o : oracle) :
    Z * option hashtab * oracle :=
  match h with
  | None => (SEPOL_ENOMEM, None, o)
  | Some h =>
      if ht_nel h =? 2 ^ 32 - 1 then (SEPOL_ENOMEM, Some h, o) else
      let '(h, o) := hashtab_check_resize h o in
      let hvalue := hash_value (ht_size h) key in
      match chain_insert key datum (slot (htable h) hvalue) with
      | None => (SEPOL_EEXIST, Some h, o)
      | Some chain =>
          let '(ok, o) := malloc o in
          if negb ok then (SEPOL_ENOMEM, Some h, o)
          else (SEPOL_OK,
                Some (mk_hashtab (<[Z.to_nat hvalue := chain]> (htable h)) (ht_size h) (u32 (ht_nel h + 1))), o)
      end
  end.

(** The search loop of [hashtab_remove]: the node found and the chain
    without it. *)
Fixpoint chain_remove (key : K) (cur : list (K * D)) : option ((K * D) * list (K * D)) :=
  match cur with
  | [] => None
  | x :: cur' =>
      let cmp := keycmp key x.1 in
      if 0 <? cmp then
        match chain_remove key cur' with Some (y, l) => Some (y, x :: l) | None => None end
      else if cmp =? 0 then Some (x, cur')
      else None
  end.

(** The result lists the entry [destroy] is applied to. *)
Definition hashtab_remove (h : option hashtab) (key : K) : Z * option hashtab * option (K * D) :=
  match h with
  | None => (SEPOL_ENOENT, None, None)
  | Some h =>
      let hvalue := hash_value (ht_size h) key in
      match chain_remove key (slot (htable h) hvalue) with
      | None => (SEPOL_ENOENT, Some h, None)
      | Some (x, chain) =>
          (SEPOL_OK,
           Some (mk_hashtab (<[Z.to_nat hvalue := chain]> (htable h)) (ht_size h) (u32 (ht_nel h - 1))),
           Some x)
      end
  end.

Fixpoint chain_search (key : K) (cur : list (K * D)) : option D :=
  match cur with
  | [] => None
  | x :: cur' =>
      let cmp := keycmp key x.1 in
      if 0 <? cmp then chain_search key cur'
      else if cmp =? 0 then Some x.2 else None
  end.

Definition hashtab_search (h : option hashtab) (key : K) : option D :=
  match h with
  | None => None
  | Some h => chain_search key (slot (htable h) (hash_value (ht_size h) key))
  end.

(** [hashtab_map]: [apply] may change the state [args] points to. *)
Fixpoint chain_map {S} (apply : K -> D -> S -> Z * S) (cur : list (K * D)) (args : S) : Z * S :=
  match cur with
  | [] => (SEPOL_OK, args)
  | x :: cur' =>
      let '(ret, args) := apply x.1 x.2 args in
      if ctrue ret then (ret, args) else chain_map apply cur' args
  end.

Fixpoint table_map {S} (apply : K -> D -> S -> Z * S) (tbl : list (list (K * D))) (args : S) : Z * S :=
  match tbl with
  | [] => (SEPOL_OK, args)
  | c :: tbl' =>
      let '(ret, args) := chain_map apply c args in
      if ctrue ret then (ret, args) else table_map apply tbl' args
  end.

Definition hashtab_map {S} (h : option hashtab) (apply : K -> D -> S -> Z * S) (args : S) : Z * S :=
  match h with
  | None => (SEPOL_OK, args)
  | Some h => table_map apply (htable h) args
  end.

(** [hashtab_hash_eval]: (slots_used, max_chain_len, chain2_len_sum). *)
Definition hashtab_hash_eval (h : hashtab) : Z * Z * Z :=
  fold_left (fun '(slots_used, max_chain_len, chain2_len_sum) (cur : list (K * D)) =>
    match cur with
    | [] => (slots_used, max_chain_len, chain2_len_sum)
    | _ =>
        let chain_len := Z.of_nat (length cur) in
        (slots_used + 1, (if max_chain_len <? chain_len then chain_len else max_chain_len),
         chain2_len_sum + chain_len * chain_len)
    end) (htable h) (0, 0, 0).
End Model.
Arguments hashtab : clear implicits.

(** ** The abstraction and the invariant *)

Section Theory.
Context {K D : Type} `{!KeyOps K} `{!EqDecision K} `{!Countable K} `{!KeyLaws K}.

Definition key_lt (x y : K * D) : Prop := keycmp x.1 y.1 < 0.

(** The chain of slot [i]: sorted by key, every key hashed there. *)
Definition chain_ok (sz i : Z) (c : list (K * D)) : Prop :=
  StronglySorted key_lt c /\ Forall (fun x => hash_value sz x.1 = i) c.

Fixpoint table_ok (sz i : Z) (tbl : list (list (K * D))) : Prop :=
  match tbl with
  | [] => True
  | c :: tbl' => chain_ok sz i c /\ table_ok sz (i + 1) tbl'
  end.

Definition table_inv (sz : Z) (tbl : list (list (K * D))) : Prop :=
  Z.of_nat (length tbl) = sz /\ table_ok sz 0 tbl.

Definition hashtab_ok (h : hashtab K D) : Prop :=
  0 < ht_size h < 2 ^ 32 /\ table_inv (ht_size h) (htable h) /\
  ht_nel h = Z.of_nat (length (concat (htable h))) /\ ht_nel h < 2 ^ 32.

(** The finite map a table stands for. *)
Definition hashtab_abs (h : hashtab K D) : gmap K D := list_to_map (concat (htable h)).

(** *** Chains *)

Lemma keycmp_lt_ne a b : keycmp a b < 0 -> a <> b.
Proof. intros H Heq. apply keycmp_eq in Heq. lia. Qed.

Lemma chain_tail_lookup k x (c : list (K * D)) :
  keycmp k x.1 <= 0 -> StronglySorted key_lt (x :: c) ->
  (list_to_map c : gmap K D) !! k = None.
Proof.
  intros Hk Hs. apply StronglySorted_cons in Hs as [Hx _]. apply not_elem_of_list_to_map.
  intros (y & -> & Hy)%list_elem_of_fmap. rewrite Forall_forall in Hx. specialize (Hx _ Hy).
  unfold key_lt in Hx. destruct (Z.eq_dec (keycmp y.1 x.1) 0) as [He|Hne].
  - apply keycmp_eq in He. rewrite He in Hx. by apply keycmp_lt_ne in Hx.
  - assert (Hlt : keycmp y.1 x.1 < 0) by lia.
    pose proof (keycmp_trans y.1 x.1 y.1 Hlt Hx) as Hyy. by apply keycmp_lt_ne in Hyy.
Qed.

Lemma chain_search_spec k (c : list (K * D)) :
  StronglySorted key_lt c -> chain_search k c = (list_to_map c : gmap K D) !! k.
Proof.
  induction c as [|[k' d] c IH]; intros Hs; [done|]. simpl.
  pose proof Hs as [_ Hs']%StronglySorted_cons.
  destruct (Z.ltb_spec 0 (keycmp k k')) as [Hgt|Hle].
  - rewrite IH by done. rewrite lookup_insert_ne; [done|].
    intros ->. pose proof (proj2 (keycmp_eq k k) eq_refl). lia.
  - destruct (Z.eqb_spec (keycmp k k') 0) as [He|Hne].
    + apply keycmp_eq in He as ->. by rewrite lookup_insert_eq.
    + rewrite lookup_insert_ne; [|intros ->; pose proof (proj2 (keycmp_eq k k) eq_refl); lia].
      by rewrite (chain_tail_lookup k (k', d)).
Qed.

(** Inserting keeps a chain sorted; [chain_place] and [chain_insert] agree
    on a new key. *)
Lemma chain_place_Forall (P : K * D -> Prop) x c :
  P x -> Forall P c -> Forall P (chain_place x c).
Proof.
  intros Hx. induction 1 as [|y c Hy Hc IH]; simpl; [by constructor|].
  destruct (0 <? _); constructor; auto.
Qed.

Lemma chain_place_sorted x c :
  StronglySorted key_lt c -> x.1 ∉ c.*1 -> StronglySorted key_lt (chain_place x c).
Proof.
  induction c as [|y c IH]; intros Hs Hnot; simpl; [repeat constructor|].
  pose proof Hs as [Hy Hs']%StronglySorted_cons.
  rewrite fmap_cons, not_elem_of_cons in Hnot. destruct Hnot as [Hne Hnot].
  destruct (Z.ltb_spec 0 (keycmp x.1 y.1)) as [Hgt|Hle]; apply StronglySorted_cons.
  - split; [|by apply IH]. apply chain_place_Forall; [|done]. by apply keycmp_antisym.
  - split; [|done].
    assert (Hlt : keycmp x.1 y.1 < 0).
    { assert (keycmp x.1 y.1 <> 0) by (by rewrite keycmp_eq). lia. }
    constructor; [done|]. eapply Forall_impl; [exact Hy|]. intros z Hz. by eapply keycmp_trans.
Qed.

Lemma chain_place_elem (x : K * D) c y : y ∈ chain_place x c <-> y = x \/ y ∈ c.
Proof.
  induction c as [|z c IH]; simpl; [by rewrite list_elem_of_singleton, elem_of_nil; tauto|].
  destruct (0 <? _); rewrite !elem_of_cons, ?IH; tauto.
Qed.

Lemma chain_place_length (x : K * D) c : length (chain_place x c) = S (length c).
Proof. induction c as [|z c IH]; simpl; [done|]. destruct (0 <? _); simpl; auto. Qed.

Lemma chain_insert_spec k (d : D) c :
  StronglySorted key_lt c ->
  chain_insert k d c =
    match (list_to_map c : gmap K D) !! k with
    | Some _ => None
    | None => Some (chain_place (k, d) c)
    end.
Proof.
  intros Hs. rewrite <- chain_search_spec by done. clear Hs.
  induction c as [|[k' d'] c IH]; [done|]. simpl. rewrite IH.
  destruct (0 <? keycmp k k'); [by destruct (chain_search k c)|].
  by destruct (keycmp k k' =? 0).
Qed.

Lemma NoDup_chain_keys (c : list (K * D)) : StronglySorted key_lt c -> NoDup c.*1.
Proof.
  induction 1 as [|x c _ IH Hx]; [constructor|]. rewrite fmap_cons. constructor; [|done].
  intros (y & He & Hy)%list_elem_of_fmap. rewrite Forall_forall in Hx. specialize (Hx _ Hy).
  unfold key_lt in Hx. by apply keycmp_lt_ne in Hx.
Qed.

Lemma chain_remove_spec k (c : list (K * D)) :
  StronglySorted key_lt c ->
  match chain_remove k c with
  | None => (list_to_map c : gmap K D) !! k = None
  | Some (x, c') => x.1 = k /\ (exists c1 c2, c = c1 ++ x :: c2 /\ c' = c1 ++ c2)
  end.
Proof.
  intros Hs. pose proof (chain_search_spec k c Hs) as Hsrch. revert Hsrch.
  generalize ((list_to_map c : gmap K D) !! k). intros r.
  induction c as [|[k' d'] c IH]; [by intros <-|]. simpl.
  pose proof Hs as [_ Hs']%StronglySorted_cons.
  destruct (0 <? keycmp k k').
  - intros Hsrch. specialize (IH Hs' Hsrch). destruct (chain_remove k c) as [[y l]|]; [|done].
    destruct IH as (Hy & c1 & c2 & -> & ->). split; [done|]. by exists ((k', d') :: c1), c2.
  - destruct (Z.eqb_spec (keycmp k k') 0) as [He|]; [|by intros <-].
    intros _. apply keycmp_eq in He. split; [done|]. by exists [], c.
Qed.
End Theory.
