(* ===== verification/HashtabThms.v ===== *)
(** * HashtabThms: a hash table is a finite map

    Search, insertion, removal, resizing and iteration of [Hashtab] are the
    operations of a finite map, on every table that satisfies the invariant;
    the proofs use only the laws of the key class. *)
From Stdlib Require Import ZArith Lia Bool Sorting.Sorted.
From stdpp Require Import base list list_numbers gmap sets sorting.
From S2P Require Import Prelude Hashtab.

Section Tables.
Context {K D : Type} `{!KeyOps K} `{!EqDecision K} `{!Countable K} `{!KeyLaws K}.
Implicit Types (c : list (K * D)) (tbl : list (list (K * D))) (m : gmap K D).

(** Lookup through the slot of the key. *)
Definition tlookup (sz : Z) tbl (k : K) : option D :=
  (list_to_map (slot tbl (hash_value sz k)) : gmap K D) !! k.

Lemma chain_other sz i c k :
  chain_ok sz i c -> hash_value sz k <> i -> (list_to_map c : gmap K D) !! k = None.
Proof.
  intros [_ Hc] Hne. apply not_elem_of_list_to_map.
  intros (y & -> & Hy)%list_elem_of_fmap. rewrite Forall_forall in Hc. by apply Hc in Hy.
Qed.

Lemma table_lookup sz i tbl k :
  table_ok sz i tbl ->
  (list_to_map (concat tbl) : gmap K D) !! k =
    if decide (i <= hash_value sz k)
    then (list_to_map (slot tbl (hash_value sz k - i)) : gmap K D) !! k else None.
Proof.
  revert i. induction tbl as [|c tbl IH]; intros i H.
  - unfold slot. simpl. by case_decide.
  - destruct H as [Hc Htbl]. simpl concat. rewrite list_to_map_app, lookup_union, (IH (i + 1) Htbl).
    destruct (decide (hash_value sz k = i)) as [He|Hne].
    + rewrite decide_False by lia. rewrite decide_True by lia. unfold slot.
      replace (hash_value sz k - i) with 0 by lia. simpl. by destruct (list_to_map c !! k).
    + rewrite (chain_other sz i c k Hc Hne), (left_id_L None _).
      destruct (decide (i + 1 <= hash_value sz k)); [rewrite decide_True by lia|by rewrite decide_False by lia].
      unfold slot. replace (Z.to_nat (hash_value sz k - i)) with (S (Z.to_nat (hash_value sz k - (i + 1)))) by lia.
      done.
Qed.

Lemma table_lookup_0 sz tbl k :
  0 < sz -> table_ok sz 0 tbl -> (list_to_map (concat tbl) : gmap K D) !! k = tlookup sz tbl k.
Proof.
  intros Hsz H. rewrite (table_lookup sz 0) by done. unfold tlookup.
  pose proof (hash_value_range sz k Hsz). rewrite decide_True by lia. by rewrite Z.sub_0_r.
Qed.

Lemma slot_ok_from sz i tbl j :
  table_ok sz i tbl -> 0 <= j < Z.of_nat (length tbl) -> chain_ok sz (i + j) (slot tbl j).
Proof.
  revert i j. induction tbl as [|c tbl IH]; intros i j H Hj; [simpl in Hj; lia|].
  destruct H as [Hc Htbl]. unfold slot in *. destruct (Z.eq_dec j 0) as [->|Hne].
  - simpl. by rewrite Z.add_0_r.
  - specialize (IH (i + 1) (j - 1) Htbl). replace (Z.to_nat j) with (S (Z.to_nat (j - 1))) by lia.
    replace (i + 1 + (j - 1)) with (i + j) in IH by lia. simpl. apply IH. simpl in Hj. lia.
Qed.

Lemma slot_ok sz tbl k : 0 < sz -> table_inv sz tbl ->
  chain_ok sz (hash_value sz k) (slot tbl (hash_value sz k)).
Proof.
  intros Hsz [Hlen H]. apply (slot_ok_from sz 0); [done|]. rewrite Hlen. by apply hash_value_range.
Qed.

Lemma table_ok_insert sz i tbl j c :
  table_ok sz i tbl -> chain_ok sz (i + Z.of_nat j) c -> table_ok sz i (<[j:=c]> tbl).
Proof.
  revert i j. induction tbl as [|c' tbl IH]; intros i j H Hc; [done|].
  destruct H as [Hc' Htbl]. destruct j as [|j]; simpl.
  - split; [|done]. by rewrite Z.add_0_r in Hc.
  - split; [done|]. apply IH; [done|]. by replace (i + 1 + Z.of_nat j) with (i + Z.of_nat (S j)) by lia.
Qed.

(** Replacing the chain of a key's slot. *)
Lemma table_inv_update sz tbl k c :
  0 < sz -> table_inv sz tbl -> chain_ok sz (hash_value sz k) c ->
  table_inv sz (<[Z.to_nat (hash_value sz k) := c]> tbl).
Proof.
  intros Hsz [Hlen H] Hc. pose proof (hash_value_range sz k Hsz). split; [by rewrite length_insert|].
  apply table_ok_insert; [done|]. by rewrite Z2Nat.id, Z.add_0_l by lia.
Qed.

Lemma tlookup_update sz tbl k c k' :
  0 < sz -> table_inv sz tbl ->
  tlookup sz (<[Z.to_nat (hash_value sz k) := c]> tbl) k' =
    if decide (hash_value sz k' = hash_value sz k)
    then (list_to_map c : gmap K D) !! k' else tlookup sz tbl k'.
Proof.
  intros Hsz [Hlen H]. unfold tlookup, slot.
  pose proof (hash_value_range sz k Hsz). pose proof (hash_value_range sz k' Hsz).
  case_decide as He.
  - rewrite He, list_lookup_insert_eq by lia. done.
  - rewrite list_lookup_insert_ne by lia. done.
Qed.

Lemma length_concat_insert tbl j c c' :
  tbl !! j = Some c -> (length (concat (<[j:=c']> tbl)) + length c = length (concat tbl) + length c')%nat.
Proof.
  revert j. induction tbl as [|x tbl IH]; intros j Hj; [done|]. destruct j as [|j]; simpl in *.
  - simplify_eq. rewrite !length_app. lia.
  - rewrite !length_app. specialize (IH j Hj). lia.
Qed.

Lemma slot_lookup sz tbl k :
  0 < sz -> table_inv sz tbl ->
  tbl !! Z.to_nat (hash_value sz k) = Some (slot tbl (hash_value sz k)).
Proof.
  intros Hsz [Hlen _]. pose proof (hash_value_range sz k Hsz). unfold slot.
  destruct (lookup_lt_is_Some_2 tbl (Z.to_nat (hash_value sz k))) as [c Hc]; [lia|]. by rewrite Hc.
Qed.

Lemma chain_place_lookup k d c k' :
  StronglySorted key_lt c -> (list_to_map c : gmap K D) !! k = None ->
  (list_to_map (chain_place (k, d) c) : gmap K D) !! k' =
    (<[k := d]> (list_to_map c : gmap K D)) !! k'.
Proof.
  intros Hs Hn. apply not_elem_of_list_to_map_2 in Hn.
  pose proof (chain_place_sorted (k, d) c Hs Hn) as Hs'.
  assert (Hnd : NoDup ((k, d) :: c).*1) by (simpl; constructor; [done|by apply NoDup_chain_keys]).
  change (<[k := d]> (list_to_map c : gmap K D)) with (list_to_map ((k, d) :: c) : gmap K D).
  f_equal. apply list_to_map_proper; [by apply NoDup_chain_keys|].
  apply NoDup_Permutation.
  - by eapply NoDup_fmap_1, NoDup_chain_keys.
  - by eapply NoDup_fmap_1.
  - intros y. by rewrite chain_place_elem, elem_of_cons.
Qed.

Lemma chain_place_ok sz i k d c :
  chain_ok sz i c -> hash_value sz k = i -> (list_to_map c : gmap K D) !! k = None ->
  chain_ok sz i (chain_place (k, d) c).
Proof.
  intros [Hs Hf] Hh Hn. split; [|by apply chain_place_Forall].
  apply chain_place_sorted; [done|]. by apply not_elem_of_list_to_map_2.
Qed.
End Tables.

Section Theorems.
Context {K D : Type} `{!KeyOps K} `{!EqDecision K} `{!Countable K} `{!KeyLaws K}.
Implicit Types (h : hashtab K D) (tbl : list (list (K * D))).

Lemma hashtab_abs_lookup h k :
  hashtab_ok h -> hashtab_abs h !! k = tlookup (ht_size h) (htable h) k.
Proof. intros (? & [_ ?] & _). apply table_lookup_0; [lia|done]. Qed.

Lemma hashtab_search_ok h k :
  hashtab_ok h -> hashtab_search (Some h) k = hashtab_abs h !! k.
Proof.
  intros Hh. rewrite hashtab_abs_lookup by done. destruct Hh as (? & Hinv & _).
  simpl. unfold tlookup. apply chain_search_spec. by apply slot_ok; [lia|].
Qed.

(** [hashtab_search] is the lookup of the finite map. *)
Theorem hashtab_search_spec h k :
  hashtab_ok h -> hashtab_search (Some h) k = hashtab_abs h !! k.
Proof. apply hashtab_search_ok. Qed.

(** *** Resizing *)

Lemma new_size_loop_bounds fuel n sz :
  0 < sz < 2 ^ 32 -> 0 < new_size_loop fuel n sz < 2 ^ 32.
Proof.
  revert sz. induction fuel as [|fuel IH]; intros sz Hsz; simpl; [done|].
  destruct (_ && _) eqn:E; [|done]. apply IH.
  apply andb_true_iff in E as [_ E]. apply negb_true_iff, Z.eqb_neq in E.
  pose proof (wrap_range 32 (sz * 2) ltac:(lia)). unfold in_range in *. lia.
Qed.

(** From a power of two the loop doubles until the table has more slots
    than entries, or reaches 2^31. *)
Lemma new_size_loop_pow2 fuel n k :
  0 <= k < 32 -> 32 <= k + Z.of_nat fuel ->
  exists k', k <= k' < 32 /\ new_size_loop fuel n (2 ^ k) = 2 ^ k' /\ (n < 2 ^ k' \/ k' = 31).
Proof.
  revert k. induction fuel as [|fuel IH]; intros k Hk Hf; [lia|]. simpl new_size_loop.
  destruct (Z.leb_spec (2 ^ k) n); simpl; [|by exists k; split; [lia|auto]].
  rewrite Z.mul_comm, <- Z.pow_succ_r by lia. destruct (Z.eq_dec k 31) as [->|Hne].
  - simpl. exists 31. split; [lia|auto].
  - assert (Hp : u32 (2 ^ Z.succ k) = 2 ^ Z.succ k).
    { apply wrap_small. unfold in_range. split; [lia|]. apply Z.pow_lt_mono_r; lia. }
    rewrite Hp. destruct (Z.eqb_spec (2 ^ Z.succ k) 0); [lia|]. simpl.
    destruct (IH (Z.succ k)) as (k' & ? & ? & ?); [lia|lia|]. exists k'. split; [lia|done].
Qed.

(** Moving one entry with a new key. *)
Lemma move_one_spec sz tbl k d :
  0 < sz -> table_inv sz tbl -> tlookup sz tbl k = None ->
  table_inv sz (move_one sz tbl (k, d)) /\
  (forall k', tlookup sz (move_one sz tbl (k, d)) k' = if decide (k' = k) then Some d else tlookup sz tbl k') /\
  length (concat (move_one sz tbl (k, d))) = S (length (concat tbl)).
Proof.
  intros Hsz Hinv Hn. unfold move_one. simpl fst. pose proof (slot_ok sz tbl k Hsz Hinv) as Hc.
  unfold tlookup in Hn. split_and!.
  - apply table_inv_update; [done..|]. by apply chain_place_ok.
  - intros k'. rewrite tlookup_update by done. unfold tlookup.
    destruct (decide (k' = k)) as [->|Hne].
    + rewrite decide_True by done. rewrite chain_place_lookup by (done || apply Hc). by rewrite lookup_insert_eq.
    + case_decide as He; [|done].
      rewrite chain_place_lookup by (done || apply Hc). rewrite lookup_insert_ne by done. by rewrite He.
  - pose proof (length_concat_insert tbl _ _ (chain_place (k, d) (slot tbl (hash_value sz k))) (slot_lookup sz tbl k Hsz Hinv)) as Hl.
    rewrite chain_place_length in Hl. lia.
Qed.

Lemma move_all_flat sz (old new : list (list (K * D))) :
  move_all sz old new = fold_left (move_one sz) (concat old) new.
Proof.
  unfold move_all. revert new. induction old as [|c old IH]; intros new; simpl; [done|].
  by rewrite fold_left_app, IH.
Qed.

Lemma move_fold_spec sz (l : list (K * D)) tbl :
  0 < sz -> table_inv sz tbl -> NoDup l.*1 -> (forall k, k ∈ l.*1 -> tlookup sz tbl k = None) ->
  let tbl' := fold_left (move_one sz) l tbl in
  table_inv sz tbl' /\
  (forall k, tlookup sz tbl' k = from_option Some (tlookup sz tbl k) ((list_to_map l : gmap K D) !! k)) /\
  length (concat tbl') = (length l + length (concat tbl))%nat.
Proof.
  revert tbl. induction l as [|[k d] l IH]; intros tbl Hsz Hinv Hnd Hnew; simpl; [done|].
  apply NoDup_cons in Hnd as [Hk Hnd].
  destruct (move_one_spec sz tbl k d Hsz Hinv (Hnew k ltac:(left))) as (Hinv1 & Hl1 & Hlen1).
  destruct (IH (move_one sz tbl (k, d)) Hsz Hinv1 Hnd) as (Hinv2 & Hl2 & Hlen2).
  { intros k' Hk'. rewrite Hl1, decide_False by (by intros ->). apply Hnew. by right. }
  split; [done|]. split; [|lia]. intros k'. rewrite Hl2, Hl1.
  destruct (decide (k' = k)) as [->|Hne].
  - rewrite lookup_insert_eq, (not_elem_of_list_to_map_1 _ _ Hk). done.
  - by rewrite lookup_insert_ne.
Qed.

Lemma table_keys_NoDup sz i tbl : table_ok sz i tbl -> NoDup (concat tbl).*1.
Proof.
  revert i. induction tbl as [|c tbl IH]; intros i H; [constructor|].
  destruct H as [Hc Htbl]. simpl concat. rewrite fmap_app. apply NoDup_app. split_and!.
  - by apply NoDup_chain_keys, Hc.
  - intros k Hk1 Hk2. apply list_elem_of_fmap in Hk1 as (x & -> & Hx).
    destruct Hc as [_ Hc]. rewrite Forall_forall in Hc. specialize (Hc _ Hx).
    pose proof (table_lookup sz (i + 1) tbl x.1 Htbl) as Hl.
    rewrite decide_False in Hl by lia. by apply not_elem_of_list_to_map_2 in Hl.
  - by eapply IH.
Qed.

Lemma replicate_table sz n i : table_ok sz i (replicate n ([] : list (K * D))).
Proof. revert i. induction n; intros i; simpl; [done|]. split; [|done]. split; constructor. Qed.

Lemma replicate_concat n : concat (replicate n ([] : list (K * D))) = [].
Proof. induction n; done. Qed.

Lemma replicate_lookup sz n k : tlookup sz (replicate n ([] : list (K * D))) k = None.
Proof.
  unfold tlookup, slot. destruct (replicate n [] !! _) as [c|] eqn:E; [|done].
  apply lookup_replicate in E as [-> _]. done.
Qed.

Lemma hashtab_check_resize_ok h o h' o' :
  hashtab_ok h -> hashtab_check_resize h o = (h', o') ->
  hashtab_ok h' /\ hashtab_abs h' = hashtab_abs h /\ ht_nel h' = ht_nel h /\
  (mem_ok o -> (exists k, 0 <= k < 32 /\ ht_size h = 2 ^ k) ->
     ht_nel h' < ht_size h' \/ ht_size h' = 2 ^ 31).
Proof.
  intros Hok H. pose proof Hok as (Hsz & Hinv & Hnel & Hmax). unfold hashtab_check_resize in H.
  pose proof (new_size_loop_bounds 32 (ht_nel h) (ht_size h) Hsz) as Hns.
  assert (Hload : (exists k, 0 <= k < 32 /\ ht_size h = 2 ^ k) ->
    ht_nel h < new_size_loop 32 (ht_nel h) (ht_size h) \/ new_size_loop 32 (ht_nel h) (ht_size h) = 2 ^ 31).
  { intros (k & Hk & ->). destruct (new_size_loop_pow2 32 (ht_nel h) k Hk ltac:(lia)) as (k' & _ & -> & [?| ->]); auto. }
  revert H Hns Hload. generalize (new_size_loop 32 (ht_nel h) (ht_size h)). intros ns H Hns Hload.
  destruct (Z.eqb_spec (ht_size h) ns) as [He|Hne].
  { simplify_eq. split; [done|]. split; [done|]. split; [done|by auto]. }
  destruct (malloc o) as [ok o1] eqn:E. destruct ok; simpl in H; simplify_eq.
  2:{ split; [done|]. split; [done|]. split; [done|]. intros M. by destruct (malloc_mem_ok _ _ _ E M). }
  simpl. rewrite move_all_flat.
  destruct (move_fold_spec ns (concat (htable h)) (replicate (Z.to_nat ns) [])) as (Hi & Hl & Hlen).
  - lia.
  - split; [rewrite length_replicate; lia|apply replicate_table].
  - eapply table_keys_NoDup, Hinv.
  - intros k _. apply replicate_lookup.
  - rewrite replicate_concat, Nat.add_0_r in Hlen.
    assert (Hok' : hashtab_ok (mk_hashtab (fold_left (move_one ns) (concat (htable h)) (replicate (Z.to_nat ns) [])) ns (ht_nel h))).
    { split; [done|]. split; [apply Hi|]. simpl. by rewrite Hlen. }
    split; [done|]. split; [|split; [done|by auto]].
    apply map_eq. intros k. rewrite hashtab_abs_lookup by done. simpl. rewrite Hl, replicate_lookup.
    unfold hashtab_abs. by destruct (list_to_map (concat (htable h)) !! k).
Qed.

(** [hashtab_check_resize] preserves the map and the invariant whether
    or not its allocation succeeds; a table of 2^k slots that could be
    resized ends with more slots than entries (or 2^31 slots). *)
Theorem hashtab_check_resize_spec h o h' o' :
  hashtab_ok h -> hashtab_check_resize h o = (h', o') ->
  hashtab_ok h' /\ hashtab_abs h' = hashtab_abs h /\ ht_nel h' = ht_nel h /\
  (mem_ok o -> (exists k, 0 <= k < 32 /\ ht_size h = 2 ^ k) ->
     ht_nel h' < ht_size h' \/ ht_size h' = 2 ^ 31).
Proof. apply hashtab_check_resize_ok. Qed.

(** *** Insertion and removal *)

Lemma resize_mem_ok h o h' o' :
  hashtab_check_resize h o = (h', o') -> mem_ok o -> mem_ok o'.
Proof.
  unfold hashtab_check_resize. generalize (new_size_loop 32 (ht_nel h) (ht_size h)). intros ns H M.
  destruct (ht_size h =? ns); [by simplify_eq|]. destruct (malloc o) as [ok o1] eqn:E. destruct (malloc_mem_ok _ _ _ E M) as [-> M1].
  cbn [negb] in H. by simplify_eq.
Qed.

(** The outcomes of an insertion. *)
Definition insert_post h (k : K) (d : D) (o : oracle) (r : Z * option (hashtab K D) * oracle) : Prop :=
  let '(rc, h', _) := r in
  exists h2, h' = Some h2 /\ hashtab_ok h2 /\
  ((rc = SEPOL_OK /\ hashtab_abs h !! k = None /\ hashtab_abs h2 = <[k := d]> (hashtab_abs h)) \/
   (rc = SEPOL_EEXIST /\ is_Some (hashtab_abs h !! k) /\ hashtab_abs h2 = hashtab_abs h) \/
   (rc = SEPOL_ENOMEM /\ hashtab_abs h2 = hashtab_abs h /\ (ht_nel h = 2 ^ 32 - 1 \/ ~ mem_ok o))).

Lemma hashtab_insert_ok h k d o :
  hashtab_ok h -> insert_post h k d o (hashtab_insert (Some h) k d o).
Proof.
  intros Hok. unfold insert_post, hashtab_insert.
  destruct (Z.eqb_spec (ht_nel h) (2 ^ 32 - 1)) as [|Hroom]; [by eexists; eauto 10|].
  destruct (hashtab_check_resize h o) as [h1 o1] eqn:E.
  destruct (hashtab_check_resize_ok h o h1 o1 Hok E) as (Hok1 & Habs & Hnel & _).
  pose proof Hok1 as (Hsz & Hinv & Hcnt & Hmax).
  pose proof (slot_ok (ht_size h1) (htable h1) k ltac:(lia) Hinv) as [Hs Hf].
  rewrite chain_insert_spec by done. pose proof (hashtab_abs_lookup h1 k Hok1) as Hlk.
  unfold tlookup in Hlk. rewrite Habs in Hlk.
  destruct (list_to_map (slot _ _) !! k) as [d0|] eqn:Hk.
  { exists h1. split; [done|]. split; [done|]. right; left. split; [done|]. split; [by eauto|done]. }
  destruct (malloc o1) as [ok o2] eqn:E2. destruct ok; cbn [negb].
  2:{ exists h1. split; [done|]. split; [done|]. right; right. split; [done|]. split; [done|].
      right. intros M. assert (M1 : mem_ok o1) by (by eapply resize_mem_ok).
      by destruct (malloc_mem_ok _ _ _ E2 M1). }
  pose proof (move_one_spec (ht_size h1) (htable h1) k d ltac:(lia) Hinv Hk) as (Hi & Hl & Hlen).
  unfold move_one in Hi, Hl, Hlen. cbn [fst] in Hi, Hl, Hlen. eexists. split; [done|].
  match goal with |- hashtab_ok ?x /\ _ => assert (Hok2 : hashtab_ok x) end.
  { split; [done|]. split; [done|]. simpl. rewrite Hlen. rewrite Hnel in *.
    rewrite wrap_small by (unfold in_range; lia). lia. }
  split; [done|]. left. split; [done|]. split; [done|]. apply map_eq. intros k'.
  rewrite hashtab_abs_lookup by done. simpl. rewrite Hl. rewrite lookup_insert.
  destruct (decide (k' = k)) as [->|Hne]; [by rewrite decide_True|].
  rewrite decide_False by done. by rewrite <- Habs, hashtab_abs_lookup.
Qed.

(** [hashtab_insert] adds a binding for a new key, reports
    SEPOL_EEXIST for a key that is there and leaves its datum alone, and
    on SEPOL_ENOMEM (a full table or a failed allocation) changes no
    binding; the invariant holds after every outcome. *)
Theorem hashtab_insert_spec h k d o :
  hashtab_ok h -> insert_post h k d o (hashtab_insert (Some h) k d o).
Proof. apply hashtab_insert_ok. Qed.

(** [hashtab_remove] removes exactly the binding of the key and hands
    it to [destroy]; a missing key is SEPOL_ENOENT and changes nothing. *)
Theorem hashtab_remove_spec h k :
  hashtab_ok h ->
  match hashtab_remove (Some h) k with
  | (rc, Some h', freed) =>
      hashtab_ok h' /\
      ((rc = SEPOL_OK /\ exists d, freed = Some (k, d) /\ hashtab_abs h !! k = Some d /\
          hashtab_abs h' = delete k (hashtab_abs h)) \/
       (rc = SEPOL_ENOENT /\ freed = None /\ hashtab_abs h !! k = None /\ h' = h))
  | _ => False
  end.
Proof.
  intros Hok. pose proof Hok as (Hsz & Hinv & Hcnt & Hmax). unfold hashtab_remove.
  pose proof (slot_ok (ht_size h) (htable h) k ltac:(lia) Hinv) as [Hs Hf].
  pose proof (chain_remove_spec k _ Hs) as Hr.
  pose proof (hashtab_abs_lookup h k Hok) as Hlk0. unfold tlookup in Hlk0.
  destruct (chain_remove k (slot (htable h) (hash_value (ht_size h) k))) as [[[k0 d] c']|] eqn:Er.
  2:{ split; [done|]. right. by rewrite Hlk0. }
  destruct Hr as (Hk0 & c1 & c2 & Hc & ->). simpl in Hk0. subst k0.
  pose proof (NoDup_chain_keys _ Hs) as Hnd. rewrite Hc in Hs, Hf, Hnd.
  assert (Hc' : chain_ok (ht_size h) (hash_value (ht_size h) k) (c1 ++ c2)).
  { split; [|by apply Forall_app in Hf as [? [_ ?]%Forall_cons]; apply Forall_app].
    apply StronglySorted_app in Hs as (H12 & Hs1 & [_ Hs2]%StronglySorted_cons).
    apply StronglySorted_app_2; [|done|done]. intros x y Hx Hy. apply H12; [done|by right]. }
  assert (Hlk : forall k', (list_to_map (c1 ++ c2) : gmap K D) !! k' =
    delete k (list_to_map (c1 ++ (k, d) :: c2) : gmap K D) !! k').
  { intros k'. rewrite !list_to_map_app, fmap_app, fmap_cons in *. simpl in *.
    apply NoDup_app in Hnd as (_ & Hd & [Hk2 _]%NoDup_cons).
    assert (Hk1 : k ∉ c1.*1) by (intros Hin; apply (Hd k Hin); left).
    destruct (decide (k' = k)) as [->|Hne].
    - rewrite lookup_delete_eq, lookup_union. by rewrite !not_elem_of_list_to_map_1.
    - rewrite lookup_delete_ne, !lookup_union, lookup_insert_ne by done. done. }
  pose proof (length_concat_insert (htable h) _ _ (c1 ++ c2) (slot_lookup (ht_size h) (htable h) k ltac:(lia) Hinv)) as Hlen.
  rewrite Hc, !length_app in Hlen. simpl in Hlen.
  match goal with |- hashtab_ok ?x /\ _ => assert (Hok2 : hashtab_ok x) end.
  { split; [done|]. split; [apply table_inv_update; [lia|done|done]|]. simpl.
    rewrite wrap_small by (unfold in_range; lia). lia. }
  split; [done|]. left. split; [done|]. exists d. split; [done|]. rewrite Hlk0, Hc. split.
  - apply elem_of_list_to_map; [done|]. apply elem_of_app. right. left.
  - apply map_eq. intros k'. rewrite hashtab_abs_lookup by done. simpl.
    rewrite tlookup_update by (done || lia). rewrite Hlk.
    case_decide as He.
    + rewrite !lookup_delete. case_decide; [done|]. rewrite hashtab_abs_lookup by done.
      unfold tlookup. by rewrite He, Hc.
    + rewrite lookup_delete_ne by (by intros ->). by rewrite hashtab_abs_lookup.
Qed.

(** *** Iteration *)

Lemma table_map_flat {S} (apply : K -> D -> S -> Z * S) tbl args :
  table_map apply tbl args = chain_map apply (concat tbl) args.
Proof.
  assert (Happ : forall c1 c2 args, chain_map apply (c1 ++ c2) args =
    let '(ret, args) := chain_map apply c1 args in
    if ctrue ret then (ret, args) else chain_map apply c2 args).
  { induction c1 as [|x c1 IH]; intros c2 args'; simpl; [done|].
    destruct (apply x.1 x.2 args') as [ret a]. destruct (ctrue ret) eqn:Hret; [by rewrite Hret|apply IH]. }
  revert args. induction tbl as [|c tbl IH]; intros args; simpl; [done|]. rewrite Happ.
  destruct (chain_map apply c args) as [ret a]. destruct (ctrue ret); [done|apply IH].
Qed.

Lemma hashtab_map_ok {S} h (apply : K -> D -> S -> Z * S) args :
  hashtab_ok h ->
  exists l, l ≡ₚ map_to_list (hashtab_abs h) /\ hashtab_map (Some h) apply args = chain_map apply l args.
Proof.
  intros (_ & [_ Hinv] & _). exists (concat (htable h)). split; [|apply table_map_flat].
  symmetry. unfold hashtab_abs. apply map_to_list_to_map. by eapply table_keys_NoDup.
Qed.

(** [hashtab_map] applies the function to every binding of the map
    exactly once, in some order, until the first nonzero return value. *)
Theorem hashtab_map_spec {S} h (apply : K -> D -> S -> Z * S) args :
  hashtab_ok h ->
  exists l, l ≡ₚ map_to_list (hashtab_abs h) /\ hashtab_map (Some h) apply args = chain_map apply l args.
Proof. apply hashtab_map_ok. Qed.

(** a table just created is the empty map. *)
Theorem hashtab_create_spec sz o h o' :
  0 < sz < 2 ^ 32 -> hashtab_create (K:=K) (D:=D) sz o = (Some h, o') ->
  hashtab_ok h /\ hashtab_abs h = ∅.
Proof.
  intros Hsz H. unfold hashtab_create in H. do 2 (malloc_in H; cbn [negb] in H; [|done]).
  simplify_eq. unfold hashtab_ok, hashtab_abs, table_inv; simpl. rewrite replicate_concat.
  split; [|done]. split; [done|]. split; [|done]. split; [rewrite length_replicate; lia|apply replicate_table].
Qed.
End Theorems.
