(* ===== verification/Symtab.v ===== *)
(** * Symtab: symbol tables

    Model of libsepol/src/symtab.c: the hash function and the comparison of
    symbol names, and the creation of a symbol table.  The names satisfy the
    laws of [KeyLaws], so every theorem about hash tables holds of symbol
    tables. *)
From Stdlib Require Import ZArith Lia Bool.
From stdpp Require Import base list list_numbers gmap.
From S2P Require Import Prelude Hashtab HashtabThms.

(** A C string: its bytes before the terminating NUL. *)
Definition cstring := list Z.
#[global] Instance cstring_eq_dec : EqDecision cstring := _.
#[global] Instance cstring_countable : Countable cstring := _.

(** [strcmp], with the difference of the first bytes that differ. *)
Fixpoint strcmp (s1 s2 : cstring) : Z :=
  match s1, s2 with
  | [], [] => 0
  | [], _ :: _ => -1
  | _ :: _, [] => 1
  | c1 :: s1', c2 :: s2' => if c1 =? c2 then strcmp s1' s2' else c1 - c2
  end.

(** [while ((c = *(unsigned const char * )key++)) hash = ((hash << 5) + hash) ^ c]. *)
Fixpoint symhash_loop (hash : Z) (key : cstring) : Z :=
  match key with
  | [] => hash
  | c :: key' => symhash_loop (Z.lxor (u32 (u32 (Z.shiftl hash 5) + hash)) c) key'
  end.

Definition symhash (size : Z) (key : cstring) : Z :=
  Z.land (symhash_loop 5381 key) (u32 (size - 1)).

Definition symcmp (key1 key2 : cstring) : Z := strcmp key1 key2.

#[global] Instance symtab_key_ops : KeyOps cstring :=
  {| hash_value := symhash; keycmp := symcmp |}.

Record symtab (D : Type) := mk_symtab { st_table : option (hashtab cstring D); st_nprim : Z }.
Arguments mk_symtab {D}.
Arguments st_table {D}.
Arguments st_nprim {D}.

(** [symtab_init] leaves [nprim] as it was when the table cannot be created. *)
Definition symtab_init {D} (s : symtab D) (size : Z) (o : oracle) : Z * symtab D * oracle :=
  match hashtab_create size o with
  | (None, o) => (-1, mk_symtab None (st_nprim s), o)
  | (Some t, o) => (0, mk_symtab (Some t) 0, o)
  end.

(** ** The laws *)

Lemma symhash_range size k : 0 < size -> 0 <= symhash size k < size.
Proof.
  intros Hs. unfold symhash.
  pose proof (wrap_range 32 (size - 1) ltac:(lia)) as [? _].
  assert (u32 (size - 1) <= size - 1) by (apply Z.mod_le; lia).
  pose proof (land_bound_r (symhash_loop 5381 k) (u32 (size - 1))). lia.
Qed.

Lemma strcmp_eq a b : strcmp a b = 0 <-> a = b.
Proof.
  revert b. induction a as [|x a IH]; intros [|y b]; simpl; try done.
  destruct (Z.eqb_spec x y) as [->|Hne].
  - rewrite IH. split; [by intros ->|by intros [= ->]].
  - split; [lia|]. intros [= ? ?]. lia.
Qed.

Lemma strcmp_antisym a b : 0 < strcmp a b <-> strcmp b a < 0.
Proof.
  revert b. induction a as [|x a IH]; intros [|y b]; simpl; try lia.
  destruct (Z.eqb_spec x y) as [->|Hne].
  - rewrite Z.eqb_refl. apply IH.
  - destruct (Z.eqb_spec y x); lia.
Qed.

Lemma strcmp_trans a b c : strcmp a b < 0 -> strcmp b c < 0 -> strcmp a c < 0.
Proof.
  revert b c. induction a as [|x a IH]; intros [|y b] [|z c]; simpl; try lia.
  destruct (Z.eqb_spec x y), (Z.eqb_spec y z), (Z.eqb_spec x z); try lia. apply IH.
Qed.

#[global] Instance symtab_key_laws : KeyLaws cstring.
Proof.
  split; [apply symhash_range|apply strcmp_eq|apply strcmp_antisym|apply strcmp_trans].
Qed.

(** The finite map of a symbol table. *)
Definition symtab_abs {D} (s : symtab D) : gmap cstring D :=
  match st_table s with Some t => hashtab_abs t | None => ∅ end.

(** a fresh symbol table is empty; a name inserted into a symbol table is
    found again with its datum, and no other name is affected. *)
Theorem symtab_insert_search {D} (t t' : hashtab cstring D) (k k' : cstring) (d : D) o o' :
  hashtab_ok t -> hashtab_insert (Some t) k d o = (SEPOL_OK, Some t', o') ->
  hashtab_search (Some t') k = Some d /\
  (k' <> k -> hashtab_search (Some t') k' = hashtab_search (Some t) k').
Proof.
  intros Hok H. pose proof (hashtab_insert_ok t k d o Hok) as Hp. unfold insert_post in Hp.
  rewrite H in Hp. destruct Hp as (t2 & [= <-] & Hok' & Hcases).
  destruct Hcases as [(_ & _ & Habs)|[(? & _)|(? & _)]]; [|done|done].
  rewrite !hashtab_search_ok, Habs by done. split; [apply lookup_insert_eq|].
  intros. by rewrite lookup_insert_ne.
Qed.

(** ** Instances *)

Definition sample_table : hashtab cstring Z :=
  default (mk_hashtab [] 0 0)
    (fold_left (fun t kd => (hashtab_insert t kd.1 kd.2 []).1.2)
       [([97; 98], 1); ([99], 2); ([97], 3); ([120; 121], 4); ([98], 5)] (hashtab_create 2 []).1).

Lemma hashtab_search_witness : hashtab_search (Some sample_table) [99] = hashtab_abs sample_table !! [99].
Proof. apply hashtab_search_spec. concrete. Defined.

Lemma hashtab_insert_witness :
  insert_post sample_table [99] 6 [] (hashtab_insert (Some sample_table) [99] 6 []) /\
  insert_post sample_table [100] 6 [] (hashtab_insert (Some sample_table) [100] 6 []).
Proof. split; apply hashtab_insert_spec; concrete. Defined.

Lemma hashtab_remove_witness :
  match hashtab_remove (Some sample_table) [97] with
  | (rc, Some h', freed) =>
      hashtab_ok h' /\
      ((rc = SEPOL_OK /\ exists d, freed = Some ([97], d) /\ hashtab_abs sample_table !! [97] = Some d /\
          hashtab_abs h' = delete [97] (hashtab_abs sample_table)) \/
       (rc = SEPOL_ENOENT /\ freed = None /\ hashtab_abs sample_table !! [97] = None /\ h' = sample_table))
  | _ => False
  end.
Proof. apply (hashtab_remove_spec sample_table [97]). concrete. Defined.

Lemma hashtab_check_resize_witness :
  let h := mk_hashtab [[([97], 3); ([98], 5)]] 1 2 in
  let '(h', o') := hashtab_check_resize h [] in
  hashtab_ok h' /\ hashtab_abs h' = hashtab_abs h /\ ht_nel h' = ht_nel h /\
  (mem_ok [] -> (exists k, 0 <= k < 32 /\ ht_size h = 2 ^ k) -> ht_nel h' < ht_size h' \/ ht_size h' = 2 ^ 31).
Proof.
  set (h := mk_hashtab [[([97], 3); ([98], 5)]] 1 2). cbv zeta.
  destruct (hashtab_check_resize h []) as [h' o'] eqn:E.
  apply (hashtab_check_resize_spec h [] h' o'); [concrete|exact E].
Defined.

Lemma hashtab_map_witness :
  exists l, l ≡ₚ map_to_list (hashtab_abs sample_table) /\
    hashtab_map (Some sample_table) (fun _ d sum => (0, sum + d)) 0 = chain_map (fun _ d sum => (0, sum + d)) l 0.
Proof. apply (hashtab_map_spec sample_table (fun _ d sum => (0, sum + d)) 0). concrete. Defined.

Lemma symtab_insert_search_witness :
  exists t', hashtab_search (Some t') [100] = Some 6 /\
    ([99] <> [100] -> hashtab_search (Some t') [99] = hashtab_search (Some sample_table) [99]).
Proof.
  eexists. apply (symtab_insert_search sample_table _ [100] [99] 6 [] []); [concrete|vm_compute; reflexivity].
Defined.
