(* ===== verification/Avtab.v ===== *)
(** * Avtab: the access vector table

    Model of libsepol/src/avtab.c: the hash table of access vectors and
    transition types, keyed by (source type, target type, class) and by the
    kind of rule ([specified]).  A chain is a Rocq list in the order of the
    [next] pointers; a node pointer together with its successors is a suffix
    of a chain. *)
From Stdlib Require Import ZArith Lia Bool Sorting.Sorted.
From stdpp Require Import base list list_numbers sorting.
From S2P Require Import Prelude.

(** ** Data (avtab.h) *)

Definition AVTAB_ALLOWED : Z := 0x0001.
Definition AVTAB_AUDITALLOW : Z := 0x0002.
Definition AVTAB_AUDITDENY : Z := 0x0004.
Definition AVTAB_NEVERALLOW : Z := 0x0080.
Definition AVTAB_AV : Z := 0x0007.
Definition AVTAB_TRANSITION : Z := 0x0010.
Definition AVTAB_MEMBER : Z := 0x0020.
Definition AVTAB_CHANGE : Z := 0x0040.
Definition AVTAB_TYPE : Z := 0x0070.
Definition AVTAB_XPERMS_ALLOWED : Z := 0x0100.
Definition AVTAB_XPERMS_AUDITALLOW : Z := 0x0200.
Definition AVTAB_XPERMS_DONTAUDIT : Z := 0x0400.
Definition AVTAB_XPERMS : Z := 0x0700.
Definition AVTAB_ENABLED_OLD : Z := 0x80000000.
Definition AVTAB_ENABLED : Z := 0x8000.
Definition AVTAB_XPERMS_IOCTLFUNCTION : Z := 0x01.
Definition AVTAB_XPERMS_IOCTLDRIVER : Z := 0x02.
Definition AVTAB_XPERMS_NLMSG : Z := 0x03.
Definition MAX_AVTAB_HASH_BUCKETS : Z := 2 ^ 20.

Record avtab_key := mk_avtab_key {
  source_type : Z;
  target_type : Z;
  target_class : Z;
  specified : Z
}.

Record avtab_extended_perms := mk_xperms { x_specified : Z; x_driver : Z; x_perms : list Z }.

Record avtab_datum := mk_avtab_datum { data : Z; xperms : option avtab_extended_perms }.

Record avtab_node := mk_avtab_node { key : avtab_key; datum : avtab_datum }.

Record avtab := mk_avtab {
  av_htable : option (list (list avtab_node));
  av_nel : Z;
  av_nslot : Z;
  av_mask : Z
}.

#[global] Instance avtab_key_eq_dec : EqDecision avtab_key.
Proof. solve_decision. Defined.
#[global] Instance avtab_extended_perms_eq_dec : EqDecision avtab_extended_perms.
Proof. solve_decision. Defined.
#[global] Instance avtab_datum_eq_dec : EqDecision avtab_datum.
Proof. solve_decision. Defined.
#[global] Instance avtab_node_eq_dec : EqDecision avtab_node.
Proof. solve_decision. Defined.

(** ** Operations *)

(** [(v << r) | (v >> (32 - r))] on 32 bits. *)
Definition rotl32 (v r : Z) : Z := Z.lor (u32 (Z.shiftl v r)) (Z.shiftr v (32 - r)).

(** The macro [mix] of [avtab_hash]. *)
Definition mix (hash input : Z) : Z :=
  let v := u32 (input * 0xcc9e2d51) in
  let v := rotl32 v 15 in
  let v := u32 (v * 0x1b873593) in
  let hash := Z.lxor hash v in
  let hash := rotl32 hash 13 in
  u32 (u32 (hash * 5) + 0xe6546b64).

Definition avtab_hash (k : avtab_key) (mask : Z) : Z :=
  let hash := 0 in
  let hash := mix hash (target_class k) in
  let hash := mix hash (target_type k) in
  let hash := mix hash (source_type k) in
  let hash := Z.lxor hash (Z.shiftr hash 16) in
  let hash := u32 (hash * 0x85ebca6b) in
  let hash := Z.lxor hash (Z.shiftr hash 13) in
  let hash := u32 (hash * 0xc2b2ae35) in
  let hash := Z.lxor hash (Z.shiftr hash 16) in
  Z.land hash mask.

(** [key->specified & ~(AVTAB_ENABLED | AVTAB_ENABLED_OLD)] in a [uint16_t]. *)
Definition clear_enabled (spec : Z) : Z :=
  u16 (Z.land spec (lnot_w 32 (Z.lor AVTAB_ENABLED AVTAB_ENABLED_OLD))).

(** The conditions the chain loops share: same type pair and class and a
    common specifier; and the three tests that end a loop in a sorted chain. *)
Definition same_types (k k' : avtab_key) : bool :=
  (source_type k =? source_type k') && (target_type k =? target_type k') &&
  (target_class k =? target_class k').

Definition node_matches (k : avtab_key) (spec : Z) (cur : avtab_node) : bool :=
  same_types k (key cur) && ctrue (Z.land spec (specified (key cur))).

Definition key_before (k k' : avtab_key) : bool :=
  (source_type k <? source_type k') ||
  ((source_type k =? source_type k') && (target_type k <? target_type k')) ||
  ((source_type k =? source_type k') && (target_type k =? target_type k') &&
   (target_class k <? target_class k')).

Definition av_slot (tbl : list (list avtab_node)) (i : Z) : list avtab_node :=
  default [] (tbl !! Z.to_nat i).

Definition zero_xperms : avtab_extended_perms := mk_xperms 0 0 (replicate 8 0).

(** The node [avtab_insert_node] builds: [None] when an allocation fails. *)
Definition avtab_new_node (k : avtab_key) (d : avtab_datum) (o : oracle) : option avtab_node * oracle :=
  let '(ok, o) := malloc o in
  if negb ok then (None, o) else
  if ctrue (Z.land (specified k) AVTAB_XPERMS) then
    let '(ok, o) := malloc o in
    if negb ok then (None, o) else
    let xp := match xperms d with Some x => x | None => zero_xperms end in
    (Some (mk_avtab_node k (mk_avtab_datum (data d) (Some xp))), o)
  else (Some (mk_avtab_node k d), o).

(** [avtab_insert_node]: [pre] is the part of the chain up to [prev]. *)
Definition avtab_insert_node (h : avtab) (tbl : list (list avtab_node)) (hvalue : Z)
    (pre post : list avtab_node) (k : avtab_key) (d : avtab_datum) (o : oracle) :
    option avtab_node * avtab * oracle :=
  match avtab_new_node k d o with
  | (None, o) => (None, h, o)
  | (Some n, o) =>
      (Some n,
       mk_avtab (Some (<[Z.to_nat hvalue := pre ++ n :: post]> tbl)) (u32 (av_nel h + 1))
         (av_nslot h) (av_mask h), o)
  end.

(** Where the loop of [avtab_insert] stops: the nodes up to [prev] and the
    rest, or [None] when the entry is there. *)
Fixpoint insert_walk (k : avtab_key) (spec : Z) (cur : list avtab_node) :
    option (list avtab_node * list avtab_node) :=
  match cur with
  | [] => Some ([], [])
  | x :: cur' =>
      if node_matches k spec x then
        if ctrue (Z.land spec AVTAB_XPERMS) then Some ([], cur) else None
      else if key_before k (key x) then Some ([], cur)
      else match insert_walk k spec cur' with
           | Some (pre, post) => Some (x :: pre, post)
           | None => None
           end
  end.

Definition avtab_insert (h : avtab) (k : avtab_key) (d : avtab_datum) (o : oracle) :
    Z * avtab * oracle :=
  let spec := clear_enabled (specified k) in
  match av_htable h with
  | None => (SEPOL_ENOMEM, h, o)
  | Some tbl =>
      let hvalue := avtab_hash k (av_mask h) in
      match insert_walk k spec (av_slot tbl hvalue) with
      | None => (SEPOL_EEXIST, h, o)
      | Some (pre, post) =>
          match avtab_insert_node h tbl hvalue pre post k d o with
          | (None, h, o) => (SEPOL_ENOMEM, h, o)
          | (Some _, h, o) => (0, h, o)
          end
      end
  end.

(** Where the loop of [avtab_insert_nonunique] stops. *)
Fixpoint nonunique_walk (k : avtab_key) (spec : Z) (cur : list avtab_node) :
    list avtab_node * list avtab_node :=
  match cur with
  | [] => ([], [])
  | x :: cur' =>
      if node_matches k spec x then ([], cur)
      else if key_before k (key x) then ([], cur)
      else let '(pre, post) := nonunique_walk k spec cur' in (x :: pre, post)
  end.

Definition avtab_insert_nonunique (h : avtab) (k : avtab_key) (d : avtab_datum) (o : oracle) :
    option avtab_node * avtab * oracle :=
  let spec := clear_enabled (specified k) in
  match av_htable h with
  | None => (None, h, o)
  | Some tbl =>
      let hvalue := avtab_hash k (av_mask h) in
      let '(pre, post) := nonunique_walk k spec (av_slot tbl hvalue) in
      avtab_insert_node h tbl hvalue pre post k d o
  end.

(** The search loop: the node found and what follows it. *)
Fixpoint search_walk (k : avtab_key) (spec : Z) (cur : list avtab_node) :
    option (avtab_node * list avtab_node) :=
  match cur with
  | [] => None
  | x :: cur' =>
      if node_matches k spec x then Some (x, cur')
      else if key_before k (key x) then None
      else search_walk k spec cur'
  end.

Definition avtab_search (h : avtab) (k : avtab_key) : option avtab_datum :=
  let spec := clear_enabled (specified k) in
  match av_htable h with
  | None => None
  | Some tbl =>
      match search_walk k spec (av_slot tbl (avtab_hash k (av_mask h))) with
      | Some (n, _) => Some (datum n)
      | None => None
      end
  end.

Definition avtab_search_node (h : avtab) (k : avtab_key) : option (avtab_node * list avtab_node) :=
  let spec := clear_enabled (specified k) in
  match av_htable h with
  | None => None
  | Some tbl => search_walk k spec (av_slot tbl (avtab_hash k (av_mask h)))
  end.

(** [specified &= ~(AVTAB_ENABLED | AVTAB_ENABLED_OLD)] on an [int]. *)
Definition avtab_search_node_next (node : option (avtab_node * list avtab_node)) (spec : Z) :
    option (avtab_node * list avtab_node) :=
  match node with
  | None => None
  | Some (n, next) =>
      search_walk (key n) (Z.land spec (lnot_w 32 (Z.lor AVTAB_ENABLED AVTAB_ENABLED_OLD))) next
  end.

(** [avtab_destroy] frees everything and keeps [nel]. *)
Definition avtab_destroy (h : avtab) : avtab :=
  match av_htable h with
  | None => h
  | Some _ => mk_avtab None (av_nel h) 0 0
  end.

(** [avtab_map]: [apply] may change the state [args] points to. *)
Fixpoint av_chain_map {S} (apply : avtab_key -> avtab_datum -> S -> Z * S)
    (cur : list avtab_node) (args : S) : Z * S :=
  match cur with
  | [] => (0, args)
  | x :: cur' =>
      let '(ret, args) := apply (key x) (datum x) args in
      if ctrue ret then (ret, args) else av_chain_map apply cur' args
  end.

Fixpoint av_table_map {S} (apply : avtab_key -> avtab_datum -> S -> Z * S)
    (tbl : list (list avtab_node)) (args : S) : Z * S :=
  match tbl with
  | [] => (0, args)
  | c :: tbl' =>
      let '(ret, args) := av_chain_map apply c args in
      if ctrue ret then (ret, args) else av_table_map apply tbl' args
  end.

Definition avtab_map {S} (h : avtab) (apply : avtab_key -> avtab_datum -> S -> Z * S) (args : S) : Z * S :=
  match av_htable h with
  | None => (0, args)
  | Some tbl => av_table_map apply (take (Z.to_nat (av_nslot h)) tbl) args
  end.

Definition avtab_init (h : avtab) : Z * avtab := (0, mk_avtab None 0 (av_nslot h) (av_mask h)).

(** [while (work) { work = work >> 1; shift++; }]. *)
Fixpoint shift_loop (fuel : nat) (work shift : Z) : Z :=
  match fuel with
  | O => shift
  | S fuel => if ctrue work then shift_loop fuel (Z.shiftr work 1) (shift + 1) else shift
  end.

(** The number of slots [avtab_alloc] chooses for [nrules <> 0]. *)
Definition avtab_nslot (nrules : Z) : Z :=
  let shift := shift_loop 33 nrules 0 in
  let shift := if 2 <? shift then shift - 2 else shift in
  let nslot := u32 (Z.shiftl 1 shift) in
  if MAX_AVTAB_HASH_BUCKETS <? nslot then MAX_AVTAB_HASH_BUCKETS else nslot.

Definition avtab_alloc (h : avtab) (nrules : Z) (o : oracle) : Z * avtab * oracle :=
  if nrules =? 0 then (0, mk_avtab (av_htable h) 0 0 0, o) else
  let nslot := avtab_nslot nrules in
  let mask := nslot - 1 in
  let '(ok, o) := malloc o in
  if negb ok then (-1, mk_avtab None (av_nel h) (av_nslot h) (av_mask h), o)
  else (0, mk_avtab (Some (replicate (Z.to_nat nslot) [])) 0 nslot mask, o).

(** [avtab_hash_eval]: (slots_used, max_chain_len). *)
Definition avtab_hash_eval (h : avtab) : Z * Z :=
  fold_left (fun '(slots_used, max_chain_len) (cur : list avtab_node) =>
    match cur with
    | [] => (slots_used, max_chain_len)
    | _ => (slots_used + 1,
            if max_chain_len <? Z.of_nat (length cur) then Z.of_nat (length cur) else max_chain_len)
    end) (default [] (av_htable h)) (0, 0).
