(* ===== verification/AvtabThms.v ===== *)
(** * AvtabThms: the access vector table as a collection of rules

    The abstraction of a table is the list of its nodes ([nodes_of]).  The
    hashed, sorted, early-exit searches of [Avtab] are the plain linear
    searches of that list; insertion adds one node and rejects exactly the
    duplicates it is meant to reject; the sizing of the table is what its
    comment promises. *)
From Stdlib Require Import ZArith Lia Bool Sorting.Sorted.
From stdpp Require Import base list list_numbers sorting.
From S2P Require Import Prelude Avtab.

(** ** The invariant *)

Definition nodes_of (h : avtab) : list avtab_node := concat (default [] (av_htable h)).

(** Keys do not decrease along a chain. *)
Definition node_le (x y : avtab_node) : Prop := key_before (key y) (key x) = false.

Definition av_chain_ok (mask i : Z) (c : list avtab_node) : Prop :=
  StronglySorted node_le c /\ Forall (fun n => avtab_hash (key n) mask = i) c.

Fixpoint av_table_ok (mask i : Z) (tbl : list (list avtab_node)) : Prop :=
  match tbl with
  | [] => True
  | c :: tbl' => av_chain_ok mask i c /\ av_table_ok mask (i + 1) tbl'
  end.

Definition avtab_ok (h : avtab) : Prop :=
  match av_htable h with
  | None => False
  | Some tbl =>
      Z.of_nat (length tbl) = av_nslot h /\ 0 < av_nslot h <= MAX_AVTAB_HASH_BUCKETS /\
      av_mask h = av_nslot h - 1 /\ av_table_ok (av_mask h) 0 tbl /\
      av_nel h = Z.of_nat (length (concat tbl)) /\ av_nel h < 2 ^ 32
  end.

(** ** The order on keys *)

Ltac keys := unfold node_matches, same_types, key_before in *; lia.

Lemma key_before_trans a b c :
  key_before a b = true -> key_before c b = false -> key_before a c = true.
Proof. keys. Qed.

Lemma key_le_trans a b c :
  key_before b a = false -> key_before c b = false -> key_before c a = false.
Proof. keys. Qed.

Lemma same_types_before a b : same_types a b = true -> key_before a b = false /\ key_before b a = false.
Proof. intros. split; keys. Qed.

Lemma same_types_hash a b mask : same_types a b = true -> avtab_hash a mask = avtab_hash b mask.
Proof.
  unfold same_types, avtab_hash. rewrite !andb_true_iff, !Z.eqb_eq. intros [[-> ->] ->]. done.
Qed.

Lemma node_matches_types k spec n : node_matches k spec n = true -> same_types k (key n) = true.
Proof. unfold node_matches. by intros [? _]%andb_true_iff. Qed.

Lemma avtab_hash_range k mask : 0 <= mask -> 0 <= avtab_hash k mask <= mask.
Proof. intros. unfold avtab_hash. by apply land_bound_r. Qed.

#[local] Opaque avtab_hash.

(** ** Searching a chain *)

Abbreviation matching k spec := (filter (fun n => node_matches k spec n = true)).

Lemma chain_after_none k spec x c :
  key_before k (key x) = true -> StronglySorted node_le (x :: c) ->
  matching k spec (x :: c) = [].
Proof.
  intros Hb Hs. apply StronglySorted_cons in Hs as [Hx _].
  assert (H : Forall (fun n => key_before k (key n) = true) (x :: c)).
  { constructor; [done|]. eapply Forall_impl; [exact Hx|]. intros y Hy. unfold node_le in Hy.
    by eapply key_before_trans. }
  clear Hx. induction H as [|y l Hy _ IH]; [done|]. rewrite filter_cons, IH.
  destruct (decide (node_matches k spec y = true)) as [Hm|]; [|done].
  apply node_matches_types, same_types_before in Hm. destruct Hm. congruence.
Qed.

Lemma search_walk_spec k spec c :
  StronglySorted node_le c ->
  match search_walk k spec c with
  | Some (n, next) =>
      node_matches k spec n = true /\ matching k spec c = n :: matching k spec next /\
      StronglySorted node_le next /\ (length next < length c)%nat
  | None => matching k spec c = []
  end.
Proof.
  induction c as [|x c IH]; intros Hs; simpl; [done|].
  pose proof Hs as [_ Hs']%StronglySorted_cons. specialize (IH Hs').
  rewrite filter_cons. destruct (node_matches k spec x) eqn:Hm.
  - rewrite decide_True by done. split_and!; [done|done|done|lia].
  - rewrite decide_False by congruence. destruct (key_before k (key x)) eqn:Hb.
    + pose proof (chain_after_none k spec x c Hb Hs) as Hn. rewrite filter_cons in Hn.
      by rewrite decide_False in Hn by congruence.
    + destruct (search_walk k spec c) as [[n next]|]; [|done].
      destruct IH as (? & ? & ? & ?). split_and!; [done|done|done|lia].
Qed.

(** ** From chains to tables *)

Lemma matching_none k spec (c : list avtab_node) :
  Forall (fun n => same_types k (key n) = false) c -> matching k spec c = [].
Proof.
  induction 1 as [|n c Hn _ IH]; [done|]. rewrite filter_cons, IH.
  rewrite decide_False; [done|]. intros Hm%node_matches_types. congruence.
Qed.

Lemma chain_other_hash mask i k spec c :
  av_chain_ok mask i c -> avtab_hash k mask <> i -> matching k spec c = [].
Proof.
  intros [_ Hc] Hne. apply matching_none. eapply Forall_impl; [exact Hc|].
  intros n Hn. apply not_true_is_false. intros Hs%(same_types_hash _ _ mask). congruence.
Qed.

(** Matching nodes are all in the slot of the key. *)
Lemma matching_table mask i tbl k spec :
  av_table_ok mask i tbl ->
  matching k spec (concat tbl) =
    if decide (i <= avtab_hash k mask) then matching k spec (av_slot tbl (avtab_hash k mask - i)) else [].
Proof.
  revert i. induction tbl as [|c tbl IH]; intros i H; [unfold av_slot; simpl; by case_decide|].
  destruct H as [Hc Htbl]. simpl concat. rewrite filter_app, (IH (i + 1) Htbl).
  destruct (decide (avtab_hash k mask = i)) as [He|Hne].
  - rewrite decide_False by lia. rewrite decide_True by lia. unfold av_slot.
    replace (avtab_hash k mask - i) with 0 by lia. simpl. by rewrite app_nil_r.
  - rewrite (chain_other_hash mask i k spec c Hc Hne). simpl.
    destruct (decide (i + 1 <= avtab_hash k mask)); [rewrite decide_True by lia|by rewrite decide_False by lia].
    unfold av_slot. replace (Z.to_nat (avtab_hash k mask - i)) with (S (Z.to_nat (avtab_hash k mask - (i + 1)))) by lia.
    done.
Qed.

Lemma av_slot_ok_from mask i tbl j :
  av_table_ok mask i tbl -> 0 <= j < Z.of_nat (length tbl) -> av_chain_ok mask (i + j) (av_slot tbl j).
Proof.
  revert i j. induction tbl as [|c tbl IH]; intros i j H Hj; [simpl in Hj; lia|].
  destruct H as [Hc Htbl]. unfold av_slot in *. destruct (Z.eq_dec j 0) as [->|Hne].
  - simpl. by rewrite Z.add_0_r.
  - specialize (IH (i + 1) (j - 1) Htbl). replace (Z.to_nat j) with (S (Z.to_nat (j - 1))) by lia.
    replace (i + 1 + (j - 1)) with (i + j) in IH by lia. simpl. apply IH. simpl in Hj. lia.
Qed.

(** What the invariant says of the slot of a key. *)
Lemma avtab_ok_slot h tbl k :
  avtab_ok h -> av_htable h = Some tbl ->
  let hv := avtab_hash k (av_mask h) in
  0 <= hv < Z.of_nat (length tbl) /\ av_chain_ok (av_mask h) hv (av_slot tbl hv) /\
  forall spec, matching k spec (nodes_of h) = matching k spec (av_slot tbl hv).
Proof.
  intros Hok Ht. unfold avtab_ok in Hok. unfold nodes_of. rewrite Ht in *. simpl.
  destruct Hok as (Hlen & Hns & Hmask & Htbl & _).
  pose proof (avtab_hash_range k (av_mask h) ltac:(lia)).
  split; [lia|]. split; [rewrite <- (Z.add_0_l (avtab_hash k (av_mask h))) at 1; apply av_slot_ok_from; [done|lia]|].
  intros spec. rewrite (matching_table (av_mask h) 0) by done. rewrite decide_True by lia.
  by rewrite Z.sub_0_r.
Qed.

(** Searching is taking the first match of the list of nodes. *)
Lemma avtab_search_first h k :
  avtab_ok h ->
  avtab_search h k = datum <$> head (matching k (clear_enabled (specified k)) (nodes_of h)).
Proof.
  intros Hok. unfold avtab_search. destruct (av_htable h) as [tbl|] eqn:Ht.
  2:{ unfold avtab_ok in Hok. by rewrite Ht in Hok. }
  destruct (avtab_ok_slot h tbl k Hok Ht) as (_ & [Hs _] & Hm). rewrite Hm.
  pose proof (search_walk_spec k (clear_enabled (specified k)) _ Hs) as Hw.
  destruct (search_walk _ _ _) as [[n next]|]; [|by rewrite Hw].
  destruct Hw as (_ & -> & _). done.
Qed.

(** [avtab_search] finds what a linear scan of all the rules finds: the
    datum of the first node with the same types and class and a common
    specifier; NULL exactly when there is none. *)
Theorem avtab_search_spec h k :
  avtab_ok h ->
  avtab_search h k = datum <$> head (matching k (clear_enabled (specified k)) (nodes_of h)).
Proof. apply avtab_search_first. Qed.

(** The loop [for (node = first; node; node = avtab_search_node_next(node, spec))]
    of the callers; one unit of fuel per node visited. *)
Fixpoint visit_nodes (fuel : nat) (node : option (avtab_node * list avtab_node)) (spec : Z) :
    option (list avtab_node) :=
  match node with
  | None => Some []
  | Some (n, _) =>
      match fuel with
      | O => None
      | S fuel =>
          match visit_nodes fuel (avtab_search_node_next node spec) spec with
          | Some l => Some (n :: l)
          | None => None
          end
      end
  end.

Lemma clear_enabled_int spec :
  in_range 16 spec ->
  Z.land spec (lnot_w 32 (Z.lor AVTAB_ENABLED AVTAB_ENABLED_OLD)) = clear_enabled spec.
Proof.
  intros Hr. unfold clear_enabled. symmetry. apply wrap_small. by apply land_range_l.
Qed.

Lemma same_types_matching a b spec (c : list avtab_node) :
  same_types a b = true -> matching a spec c = matching b spec c.
Proof.
  intros H. induction c as [|n c IH]; [done|]. rewrite !filter_cons, IH.
  assert (node_matches a spec n = node_matches b spec n) as ->; [|done].
  unfold node_matches. f_equal. keys.
Qed.

Lemma visit_nodes_spec fuel n next spec :
  in_range 16 spec -> StronglySorted node_le next -> (length next < fuel)%nat ->
  visit_nodes fuel (Some (n, next)) spec = Some (n :: matching (key n) (clear_enabled spec) next).
Proof.
  intros Hr. revert n next. induction fuel as [|fuel IH]; intros n next Hs Hf; [lia|].
  simpl visit_nodes. unfold avtab_search_node_next. rewrite clear_enabled_int by done.
  pose proof (search_walk_spec (key n) (clear_enabled spec) next Hs) as Hw.
  destruct (search_walk (key n) (clear_enabled spec) next) as [[n' next']|].
  - destruct Hw as (Hm & -> & Hs' & Hlen). rewrite IH by (done || lia).
    by rewrite (same_types_matching (key n) (key n')) by by eapply node_matches_types.
  - rewrite Hw. by destruct fuel.
Qed.

Lemma visit_all h k :
  avtab_ok h -> in_range 16 (specified k) ->
  visit_nodes (S (length (nodes_of h))) (avtab_search_node h k) (specified k) =
    Some (matching k (clear_enabled (specified k)) (nodes_of h)).
Proof.
  intros Hok Hr. unfold avtab_search_node. destruct (av_htable h) as [tbl|] eqn:Ht.
  2:{ unfold avtab_ok in Hok. by rewrite Ht in Hok. }
  destruct (avtab_ok_slot h tbl k Hok Ht) as (Hhv & [Hs _] & Hm). rewrite Hm.
  pose proof (search_walk_spec k (clear_enabled (specified k)) _ Hs) as Hw.
  destruct (search_walk _ _ _) as [[n next]|]; [|by rewrite Hw].
  destruct Hw as (Hmn & -> & Hs' & Hlen). rewrite visit_nodes_spec; [|done|done|].
  - by rewrite (same_types_matching (key n) k) by (apply node_matches_types in Hmn; keys).
  - assert (length (av_slot tbl (avtab_hash k (av_mask h))) <= length (nodes_of h))%nat; [|lia].
    unfold nodes_of. rewrite Ht. simpl. clear -Hhv. unfold av_slot.
    destruct (tbl !! _) as [c|] eqn:Hc; [|simpl; lia]. simpl.
    apply list_elem_of_lookup_2, list_elem_of_split in Hc as (l1 & l2 & ->).
    rewrite concat_app, length_app. simpl. rewrite length_app. lia.
Qed.

(** the loop that starts at [avtab_search_node] and advances with
    [avtab_search_node_next] terminates and visits exactly the nodes of the
    table that match the key, in table order. *)
Theorem avtab_search_nodes_spec h k :
  avtab_ok h -> in_range 16 (specified k) ->
  visit_nodes (S (length (nodes_of h))) (avtab_search_node h k) (specified k) =
    Some (matching k (clear_enabled (specified k)) (nodes_of h)).
Proof. apply visit_all. Qed.

(** ** Insertion *)

(** Placing a node where a walk stopped keeps the chain sorted. *)
Lemma sorted_place k n pre post :
  key n = k -> StronglySorted node_le (pre ++ post) ->
  Forall (fun x => key_before k (key x) = false) pre ->
  match post with [] => True | y :: _ => key_before (key y) k = false end ->
  StronglySorted node_le (pre ++ n :: post).
Proof.
  intros Hk Hs Hpre Hpost. apply StronglySorted_app in Hs as (H12 & Hs1 & Hs2).
  assert (Hall : Forall (node_le n) post).
  { destruct post as [|y post]; [done|]. apply StronglySorted_cons in Hs2 as [Hy _].
    unfold node_le in *. rewrite Hk. constructor; [done|]. eapply Forall_impl; [exact Hy|].
    intros z Hz. simpl in Hz. by eapply key_le_trans. }
  apply StronglySorted_app_2; [|done|by apply StronglySorted_cons].
  intros x y Hx Hy. apply elem_of_cons in Hy as [->|Hy]; [|by apply H12].
  unfold node_le. rewrite Hk. rewrite Forall_forall in Hpre. by apply Hpre.
Qed.

Lemma insert_walk_spec k spec c :
  StronglySorted node_le c ->
  match insert_walk k spec c with
  | None => Z.land spec AVTAB_XPERMS = 0 /\ matching k spec c <> []
  | Some (pre, post) =>
      c = pre ++ post /\ Forall (fun x => key_before k (key x) = false) pre /\
      match post with [] => True | y :: _ => key_before (key y) k = false end /\
      (Z.land spec AVTAB_XPERMS = 0 -> matching k spec c = [])
  end.
Proof.
  induction c as [|x c IH]; intros Hs; simpl; [done|].
  pose proof Hs as [_ Hs']%StronglySorted_cons. specialize (IH Hs').
  destruct (node_matches k spec x) eqn:Hm.
  - destruct (ctrue (Z.land spec AVTAB_XPERMS)) eqn:Hx; unfold ctrue in Hx.
    + split; [done|]. split; [constructor|]. split.
      * apply node_matches_types in Hm. keys.
      * intros H0. rewrite H0 in Hx. done.
    + split; [by destruct (Z.eqb_spec (Z.land spec AVTAB_XPERMS) 0)|].
      rewrite filter_cons. by rewrite decide_True.
  - destruct (key_before k (key x)) eqn:Hb.
    + split; [done|]. split; [constructor|]. split; [keys|].
      intros _. by apply chain_after_none.
    + rewrite filter_cons, decide_False by congruence.
      destruct (insert_walk k spec c) as [[pre post]|]; [|done].
      destruct IH as (-> & Hpre & Hpost & Hno). split; [done|]. split; [by constructor|done].
Qed.

Lemma nonunique_walk_spec k spec c :
  StronglySorted node_le c ->
  let '(pre, post) := nonunique_walk k spec c in
  c = pre ++ post /\ Forall (fun x => key_before k (key x) = false) pre /\
  match post with [] => True | y :: _ => key_before (key y) k = false end.
Proof.
  induction c as [|x c IH]; intros Hs; simpl; [done|].
  pose proof Hs as [_ Hs']%StronglySorted_cons. specialize (IH Hs').
  destruct (node_matches k spec x) eqn:Hm.
  - split; [done|]. split; [constructor|]. apply node_matches_types in Hm. keys.
  - destruct (key_before k (key x)) eqn:Hb.
    + split; [done|]. split; [constructor|keys].
    + destruct (nonunique_walk k spec c) as [pre post]. destruct IH as (-> & ? & ?).
      split; [done|]. split; [by constructor|done].
Qed.

Lemma av_table_ok_insert mask i tbl j c :
  av_table_ok mask i tbl -> av_chain_ok mask (i + Z.of_nat j) c -> av_table_ok mask i (<[j:=c]> tbl).
Proof.
  revert i j. induction tbl as [|c' tbl IH]; intros i j H Hc; [done|].
  destruct H as [Hc' Htbl]. destruct j as [|j]; simpl.
  - split; [|done]. by rewrite Z.add_0_r in Hc.
  - split; [done|]. apply IH; [done|]. by replace (i + 1 + Z.of_nat j) with (i + Z.of_nat (S j)) by lia.
Qed.

Lemma concat_insert_perm (tbl : list (list avtab_node)) j c pre post n :
  tbl !! j = Some c -> c = pre ++ post ->
  concat (<[j := pre ++ n :: post]> tbl) ≡ₚ n :: concat tbl.
Proof.
  revert j. induction tbl as [|x tbl IH]; intros j Hj ->; [done|]. destruct j as [|j]; simpl in *.
  - simplify_eq. rewrite <- !app_assoc. simpl. symmetry. apply Permutation_middle.
  - rewrite (IH j Hj eq_refl). symmetry. apply Permutation_middle.
Qed.

(** The node an insertion adds. *)
Definition stored_node (k : avtab_key) (d : avtab_datum) : avtab_node :=
  mk_avtab_node k
    (if ctrue (Z.land (specified k) AVTAB_XPERMS)
     then mk_avtab_datum (data d) (Some (default zero_xperms (xperms d))) else d).

Lemma avtab_new_node_spec k d o :
  match avtab_new_node k d o with
  | (Some n, o') => n = stored_node k d
  | (None, _) => ~ mem_ok o
  end.
Proof.
  unfold avtab_new_node, stored_node. destruct (malloc o) as [[] o1] eqn:E; simpl.
  2:{ intros M. by destruct (malloc_mem_ok _ _ _ E M). }
  destruct (ctrue _); [|done]. destruct (malloc o1) as [[] o2] eqn:E2; simpl.
  - by destruct (xperms d).
  - intros M. destruct (malloc_mem_ok _ _ _ E M) as [_ M1]. by destruct (malloc_mem_ok _ _ _ E2 M1).
Qed.

(** Linking a node into the slot of its key at a sorted place. *)
Lemma avtab_insert_node_spec h tbl k d pre post o :
  avtab_ok h -> av_htable h = Some tbl -> av_nel h < 2 ^ 32 - 1 ->
  av_slot tbl (avtab_hash k (av_mask h)) = pre ++ post ->
  Forall (fun x => key_before k (key x) = false) pre ->
  match post with [] => True | y :: _ => key_before (key y) k = false end ->
  match avtab_insert_node h tbl (avtab_hash k (av_mask h)) pre post k d o with
  | (Some n, h', _) =>
      n = stored_node k d /\ avtab_ok h' /\ nodes_of h' ≡ₚ n :: nodes_of h /\
      (forall k' spec, node_matches k' spec n = false ->
         matching k' spec (nodes_of h') = matching k' spec (nodes_of h))
  | (None, h', _) => h' = h /\ ~ mem_ok o
  end.
Proof.
  intros Hok Ht Hnel Hsl Hpre Hpost. pose proof (avtab_ok_slot h tbl k Hok Ht) as (Hhv & [Hs Hh] & _).
  unfold avtab_insert_node. pose proof (avtab_new_node_spec k d o) as Hn.
  destruct (avtab_new_node k d o) as [[n|] o1]; [|done]. rewrite Hsl in Hs, Hh.
  assert (Hkey : key n = k) by (by rewrite Hn).
  set (hv := avtab_hash k (av_mask h)) in *.
  assert (Hlk : tbl !! Z.to_nat hv = Some (pre ++ post)).
  { unfold av_slot in Hsl. destruct (lookup_lt_is_Some_2 tbl (Z.to_nat hv)) as [c Hc]; [lia|].
    rewrite Hc in Hsl. simpl in Hsl. by rewrite Hc, Hsl. }
  pose proof (concat_insert_perm tbl (Z.to_nat hv) _ pre post n Hlk eq_refl) as Hperm.
  assert (Hok' : avtab_ok (mk_avtab (Some (<[Z.to_nat hv := pre ++ n :: post]> tbl))
    (u32 (av_nel h + 1)) (av_nslot h) (av_mask h))).
  { unfold avtab_ok in *. rewrite Ht in Hok. simpl.
    destruct Hok as (Hlen & Hns & Hmask & Htbl & Hcnt & Hmax). rewrite length_insert.
    split; [done|]. split; [done|]. split; [done|]. split.
    - apply av_table_ok_insert; [done|]. rewrite Z2Nat.id, Z.add_0_l by lia. split.
      + by eapply sorted_place.
      + apply Forall_app in Hh as [? ?]. apply Forall_app. split; [done|].
        constructor; [by rewrite Hkey|done].
    - rewrite wrap_small by (unfold in_range; lia). rewrite Hperm. simpl. lia. }
  split; [done|]. split; [done|]. split; [unfold nodes_of; by rewrite Ht|].
  intros k' spec Hnm.
  destruct (avtab_ok_slot h tbl k' Hok Ht) as (Hhv' & _ & ->).
  destruct (avtab_ok_slot _ _ k' Hok' eq_refl) as (_ & _ & ->). simpl.
  unfold av_slot. destruct (decide (Z.to_nat (avtab_hash k' (av_mask h)) = Z.to_nat hv)) as [He|Hne].
  - rewrite He, list_lookup_insert_eq, Hlk by lia. simpl. rewrite !filter_app, filter_cons.
    by rewrite decide_False by congruence.
  - by rewrite list_lookup_insert_ne.
Qed.

(** With memory left, an insertion leaves the allocator willing. *)
Lemma avtab_insert_mem h k d o :
  mem_ok o -> let '(_, _, o') := avtab_insert h k d o in mem_ok o'.
Proof.
  intros M. unfold avtab_insert, avtab_insert_node, avtab_new_node. repeat case_match; simplify_eq;
    eauto using malloc_mem_ok_next.
Qed.

(** The cases of an insertion. *)
Lemma avtab_insert_post h k d o :
  avtab_ok h -> av_nel h < 2 ^ 32 - 1 ->
  let spec := clear_enabled (specified k) in
  let '(rc, h', _) := avtab_insert h k d o in
  avtab_ok h' /\
  ((rc = 0 /\ nodes_of h' ≡ₚ stored_node k d :: nodes_of h /\
      (Z.land spec AVTAB_XPERMS = 0 -> matching k spec (nodes_of h) = []) /\
      (forall k' spec', node_matches k' spec' (stored_node k d) = false ->
         matching k' spec' (nodes_of h') = matching k' spec' (nodes_of h))) \/
   (rc = SEPOL_EEXIST /\ h' = h /\ Z.land spec AVTAB_XPERMS = 0 /\ matching k spec (nodes_of h) <> []) \/
   (rc = SEPOL_ENOMEM /\ h' = h /\ ~ mem_ok o)).
Proof.
  intros Hok Hnel spec. unfold avtab_insert. fold spec.
  destruct (av_htable h) as [tbl|] eqn:Ht; [|unfold avtab_ok in Hok; by rewrite Ht in Hok].
  destruct (avtab_ok_slot h tbl k Hok Ht) as (_ & [Hs _] & Hm).
  pose proof (insert_walk_spec k spec _ Hs) as Hw.
  destruct (insert_walk k spec _) as [[pre post]|].
  - destruct Hw as (Hsl & Hpre & Hpost & Hno).
    pose proof (avtab_insert_node_spec h tbl k d pre post o Hok Ht Hnel Hsl Hpre Hpost) as Hi.
    destruct (avtab_insert_node _ _ _ _ _ _ _ _) as [[[n|] h'] o'].
    + destruct Hi as (-> & Hok' & Hperm & Hother). split; [done|]. left.
      split; [done|]. split; [done|]. split; [|done]. rewrite Hm. done.
    + destruct Hi as [-> HM]. split; [done|]. right; right. done.
  - split; [done|]. right; left. split; [done|]. split; [done|]. by rewrite Hm.
Qed.

(** C38: [avtab_insert] adds the rule, or returns SEPOL_EEXIST exactly when a
    rule with the same types, class and a common specifier is there (extended
    permissions excepted), or SEPOL_ENOMEM when an allocation failed; only in
    the first case does the table change, and searches for keys the new rule
    does not match are unaffected. *)
Theorem avtab_insert_spec h k d o :
  avtab_ok h -> av_nel h < 2 ^ 32 - 1 ->
  let spec := clear_enabled (specified k) in
  let '(rc, h', _) := avtab_insert h k d o in
  avtab_ok h' /\
  ((rc = 0 /\ nodes_of h' ≡ₚ stored_node k d :: nodes_of h /\
      (Z.land spec AVTAB_XPERMS = 0 -> matching k spec (nodes_of h) = []) /\
      (forall k' spec', node_matches k' spec' (stored_node k d) = false ->
         matching k' spec' (nodes_of h') = matching k' spec' (nodes_of h))) \/
   (rc = SEPOL_EEXIST /\ h' = h /\ Z.land spec AVTAB_XPERMS = 0 /\ matching k spec (nodes_of h) <> []) \/
   (rc = SEPOL_ENOMEM /\ h' = h /\ ~ mem_ok o)).
Proof. apply avtab_insert_post. Qed.

(** a rule that was inserted is found by [avtab_search] under its own
    key. *)
Theorem avtab_insert_search h k d o h' o' :
  avtab_ok h -> av_nel h < 2 ^ 32 - 1 -> Z.land (clear_enabled (specified k)) AVTAB_XPERMS = 0 ->
  Z.land (clear_enabled (specified k)) (specified k) <> 0 ->
  avtab_insert h k d o = (0, h', o') ->
  avtab_search h' k = Some (datum (stored_node k d)).
Proof.
  intros Hok Hnel Hx Hspec H. pose proof (avtab_insert_post h k d o Hok Hnel) as Hi.
  cbv zeta in Hi. rewrite H in Hi. destruct Hi as [Hok' [(_ & Hperm & Hno & _)|[(? & _)|(? & _)]]]; [|done|done].
  rewrite avtab_search_first by done. specialize (Hno Hx).
  assert (Hf : matching k (clear_enabled (specified k)) (nodes_of h') ≡ₚ [stored_node k d]).
  { rewrite Hperm, filter_cons, Hno. rewrite decide_True; [done|].
    unfold node_matches, same_types, stored_node. simpl. rewrite !Z.eqb_refl. simpl.
    unfold ctrue. by destruct (Z.eqb_spec (Z.land (clear_enabled (specified k)) (specified k)) 0). }
  apply Permutation_singleton_r in Hf as ->. done.
Qed.

(** [avtab_insert_nonunique] adds the rule whatever is there already. *)
Theorem avtab_insert_nonunique_spec h k d o :
  avtab_ok h -> av_nel h < 2 ^ 32 - 1 ->
  match avtab_insert_nonunique h k d o with
  | (Some n, h', _) => n = stored_node k d /\ avtab_ok h' /\ nodes_of h' ≡ₚ n :: nodes_of h
  | (None, h', _) => h' = h /\ ~ mem_ok o
  end.
Proof.
  intros Hok Hnel. unfold avtab_insert_nonunique.
  destruct (av_htable h) as [tbl|] eqn:Ht; [|unfold avtab_ok in Hok; by rewrite Ht in Hok].
  destruct (avtab_ok_slot h tbl k Hok Ht) as (_ & [Hs _] & _).
  pose proof (nonunique_walk_spec k (clear_enabled (specified k)) _ Hs) as Hw.
  destruct (nonunique_walk k _ _) as [pre post]. destruct Hw as (Hsl & Hpre & Hpost).
  pose proof (avtab_insert_node_spec h tbl k d pre post o Hok Ht Hnel Hsl Hpre Hpost) as Hi.
  destruct (avtab_insert_node _ _ _ _ _ _ _ _) as [[[n|] h'] o']; [|done].
  destruct Hi as (? & ? & ? & _). done.
Qed.

(** ** Sizing *)

Lemma shift_loop_spec fuel work shift :
  0 <= work < 2 ^ Z.of_nat fuel -> 0 <= shift ->
  shift_loop (S fuel) work shift = shift + (if work =? 0 then 0 else Z.log2 work + 1).
Proof.
  revert work shift. induction fuel as [|fuel IH]; intros work shift Hw Hs.
  - assert (work = 0) as -> by (simpl in Hw; lia). simpl. lia.
  - remember (S fuel) as f eqn:Ef. simpl shift_loop. unfold ctrue. destruct (Z.eqb_spec work 0); simpl; [lia|].
    subst f. rewrite Nat2Z.inj_succ, Z.pow_succ_r in Hw by lia. rewrite Z.shiftr_div_pow2 by lia. change (2 ^ 1) with 2.
    rewrite IH; [|split; [apply Z.div_pos; lia|apply Z.div_lt_upper_bound; lia]|lia].
    destruct (Z.eqb_spec (work / 2) 0) as [Hz|Hz].
    + assert (work = 1) as -> by (apply Z.div_small_iff in Hz; lia). simpl. lia.
    + assert (Z.log2 (work / 2) = Z.log2 work - 1); [|lia].
      change 2 with (2 ^ 1) at 1. rewrite <- (Z.shiftr_div_pow2 work 1), Z.log2_shiftr by lia.
      assert (2 <= work) by (destruct (Z.lt_ge_cases work 2); [rewrite Z.div_small in Hz; lia|done]).
      pose proof (Z.log2_le_mono 2 work ltac:(lia)). change (Z.log2 2) with 1 in *. lia.
Qed.

Lemma avtab_nslot_spec nrules :
  0 < nrules < 2 ^ 32 ->
  exists s, 1 <= s <= 20 /\ avtab_nslot nrules = 2 ^ s /\
    (3 < nrules < 2 ^ 22 -> s = Z.log2 nrules - 1).
Proof.
  intros Hn. unfold avtab_nslot. rewrite shift_loop_spec by (simpl; lia).
  destruct (Z.eqb_spec nrules 0); [lia|]. rewrite Z.add_0_l.
  assert (Hlog : 0 <= Z.log2 nrules < 32) by (split; [apply Z.log2_nonneg|apply Z.log2_lt_pow2; lia]).
  set (L := Z.log2 nrules) in *.
  assert (HL : 3 < nrules -> 2 <= L) by (intros; unfold L; change 2 with (Z.log2 4); apply Z.log2_le_mono; lia).
  assert (HL2 : nrules < 2 ^ 22 -> L < 22) by (intros; unfold L; apply Z.log2_lt_pow2; lia).
  set (s := if 2 <? L + 1 then L + 1 - 2 else L + 1).
  assert (Hs : 1 <= s <= 30) by (unfold s; destruct (Z.ltb_spec 2 (L + 1)); lia).
  rewrite Z.shiftl_1_l.
  assert (2 ^ s < 2 ^ 32) by (apply Z.pow_lt_mono_r; lia).
  rewrite wrap_small by (unfold in_range; lia).
  destruct (Z.ltb_spec MAX_AVTAB_HASH_BUCKETS (2 ^ s)) as [Hgt|Hle].
  - exists 20. split; [lia|]. split; [done|]. unfold MAX_AVTAB_HASH_BUCKETS in Hgt.
    apply Z.pow_lt_mono_r_iff in Hgt; [|lia|lia]. intros [H3 H22].
    specialize (HL H3). specialize (HL2 H22). unfold s in *. destruct (Z.ltb_spec 2 (L + 1)); lia.
  - exists s. unfold MAX_AVTAB_HASH_BUCKETS in Hle. apply Z.pow_le_mono_r_iff in Hle; [|lia|lia].
    split; [lia|]. split; [done|]. intros [H3 _]. specialize (HL H3). unfold s.
    destruct (Z.ltb_spec 2 (L + 1)); lia.
Qed.

Lemma replicate_av_table mask i n : av_table_ok mask i (replicate n []).
Proof. revert i. induction n; intros i; simpl; [done|]. split; [split; constructor|done]. Qed.

(** A fresh table. *)
Lemma avtab_alloc_post h nrules o h' o' :
  0 < nrules < 2 ^ 32 -> avtab_alloc h nrules o = (0, h', o') ->
  avtab_ok h' /\ nodes_of h' = [] /\
  (3 < nrules < 2 ^ 22 -> 2 * av_nslot h' <= nrules < 4 * av_nslot h').
Proof.
  intros Hn H. unfold avtab_alloc in H. destruct (Z.eqb_spec nrules 0); [lia|].
  destruct (avtab_nslot_spec nrules Hn) as (s & Hs & Hns & Hlog). rewrite Hns in H.
  malloc_in H; cbn [negb] in H; [|done]. simplify_eq. unfold nodes_of, avtab_ok; simpl.
  assert (Hc : concat (replicate (Z.to_nat (2 ^ s)) ([] : list avtab_node)) = []) by (induction (Z.to_nat (2 ^ s)); done).
  assert (2 ^ s <= MAX_AVTAB_HASH_BUCKETS) by (apply Z.pow_le_mono_r; lia).
  rewrite Hc, length_replicate, Z2Nat.id by lia. split; [|split; [done|]].
  - split; [done|]. split; [lia|]. split; [done|]. split; [|done].
    apply replicate_av_table.
  - intros Hr. rewrite (Hlog Hr). destruct (Z.log2_spec nrules ltac:(lia)) as [H1 H2].
    rewrite Hlog in Hs by done.
    replace (Z.log2 nrules) with (Z.succ (Z.log2 nrules - 1)) in H1 by lia.
    replace (Z.succ (Z.log2 nrules)) with (Z.succ (Z.succ (Z.log2 nrules - 1))) in H2 by lia.
    rewrite Z.pow_succ_r in H1 by lia. rewrite !Z.pow_succ_r in H2 by lia. lia.
Qed.

(** [avtab_alloc] makes an empty well-formed table; for 4 rules up to
    2^22 it has one slot per 2 to 4 rules, as the comment in avtab.h says. *)
Theorem avtab_alloc_spec h nrules o h' o' :
  0 < nrules < 2 ^ 32 -> avtab_alloc h nrules o = (0, h', o') ->
  avtab_ok h' /\ nodes_of h' = [] /\
  (3 < nrules < 2 ^ 22 -> 2 * av_nslot h' <= nrules < 4 * av_nslot h').
Proof. apply avtab_alloc_post. Qed.

(** ** Instances *)

Definition sample_rule (s t c spec : Z) : avtab_key := mk_avtab_key s t c spec.

(** A table for 16 rules holding four, one of them with extended
    permissions. *)
Definition sample_avtab : avtab := Eval vm_compute in
  fold_left (fun h kd => (avtab_insert h kd.1 kd.2 []).1.2)
    [(sample_rule 1 2 3 AVTAB_ALLOWED, mk_avtab_datum 7 None);
     (sample_rule 1 2 3 AVTAB_TRANSITION, mk_avtab_datum 9 None);
     (sample_rule 5 2 3 AVTAB_ALLOWED, mk_avtab_datum 1 None);
     (sample_rule 1 2 3 AVTAB_XPERMS_ALLOWED, mk_avtab_datum 0 (Some (mk_xperms 1 137 (replicate 8 21))))]
    (avtab_alloc (mk_avtab None 0 0 0) 16 []).1.2.

Lemma avtab_search_witness :
  avtab_search sample_avtab (sample_rule 1 2 3 AVTAB_TRANSITION) =
    datum <$> head (matching (sample_rule 1 2 3 AVTAB_TRANSITION) (clear_enabled AVTAB_TRANSITION) (nodes_of sample_avtab)).
Proof. apply avtab_search_spec. concrete. Defined.

Lemma avtab_search_nodes_witness :
  visit_nodes (S (length (nodes_of sample_avtab))) (avtab_search_node sample_avtab (sample_rule 1 2 3 AVTAB_AV)) AVTAB_AV =
    Some (matching (sample_rule 1 2 3 AVTAB_AV) (clear_enabled AVTAB_AV) (nodes_of sample_avtab)).
Proof. apply (avtab_search_nodes_spec sample_avtab (sample_rule 1 2 3 AVTAB_AV)); concrete. Defined.

Lemma avtab_insert_witness :
  let k := sample_rule 1 2 4 AVTAB_AUDITALLOW in
  let d := mk_avtab_datum 6 None in
  let spec := clear_enabled (specified k) in
  let '(rc, h', _) := avtab_insert sample_avtab k d [] in
  avtab_ok h' /\
  ((rc = 0 /\ nodes_of h' ≡ₚ stored_node k d :: nodes_of sample_avtab /\
      (Z.land spec AVTAB_XPERMS = 0 -> matching k spec (nodes_of sample_avtab) = []) /\
      (forall k' spec', node_matches k' spec' (stored_node k d) = false ->
         matching k' spec' (nodes_of h') = matching k' spec' (nodes_of sample_avtab))) \/
   (rc = SEPOL_EEXIST /\ h' = sample_avtab /\ Z.land spec AVTAB_XPERMS = 0 /\ matching k spec (nodes_of sample_avtab) <> []) \/
   (rc = SEPOL_ENOMEM /\ h' = sample_avtab /\ ~ mem_ok [])).
Proof. apply (avtab_insert_spec sample_avtab (sample_rule 1 2 4 AVTAB_AUDITALLOW) (mk_avtab_datum 6 None) []); concrete. Defined.

Lemma avtab_insert_nonunique_witness :
  let k := sample_rule 1 2 3 AVTAB_ALLOWED in
  let d := mk_avtab_datum 6 None in
  match avtab_insert_nonunique sample_avtab k d [] with
  | (Some n, h', _) => n = stored_node k d /\ avtab_ok h' /\ nodes_of h' ≡ₚ n :: nodes_of sample_avtab
  | (None, h', _) => h' = sample_avtab /\ ~ mem_ok []
  end.
Proof. apply (avtab_insert_nonunique_spec sample_avtab (sample_rule 1 2 3 AVTAB_ALLOWED) (mk_avtab_datum 6 None) []); concrete. Defined.
