(* ===== verification/AvtabIO.v ===== *)
(** * AvtabIO: the access vector table in binary policies

    [avtab_read_item] and [avtab_read] of libsepol/src/avtab.c (both item
    formats and the Android 6.0 compatibility mode of android_m_compat.h) and
    the current-format part of [avtab_write_item] and [avtab_write] of
    src/write.c.  The reader builds well-formed tables only, whatever bytes it
    is given, and reads back what the writer wrote. *)
From Stdlib Require Import ZArith Lia Bool.
From stdpp Require Import base list list_numbers sorting.
From S2P Require Import Prelude PolicyFile EbitmapIO Avtab AvtabThms.

(** ** Operations *)

Definition POLICYDB_VERSION_AVTAB : Z := 20.
Definition POLICYDB_VERSION_XPERMS_IOCTL : Z := 30.
Definition SEPOL_TARGET_SELINUX : Z := 0.

Definition AVTAB_OPTYPE : Z := 0x7000.
Definition avtab_xperms_to_optype (x : Z) : Z := Z.shiftl x 4.
Definition avtab_optype_to_xperms (x : Z) : Z := Z.shiftr x 4.

(** Ordering of datums in the original avtab format in the policy file. *)
Definition spec_order : list Z :=
  [AVTAB_ALLOWED; AVTAB_AUDITDENY; AVTAB_AUDITALLOW; AVTAB_TRANSITION; AVTAB_CHANGE; AVTAB_MEMBER;
   AVTAB_XPERMS_ALLOWED; AVTAB_XPERMS_AUDITALLOW; AVTAB_XPERMS_DONTAUDIT].

(** The [i]-th 16-bit word of a buffer. *)
Definition word16 (buf : list Z) (i : nat) : Z := le_combine (take 2 (drop (2 * i) buf)).

(** [key.specified & ~(AVTAB_AV | AVTAB_TYPE | AVTAB_XPERMS | AVTAB_ENABLED)]. *)
Definition invalid_bits (spec : Z) : Z :=
  Z.land spec (lnot_w 32 (Z.lor (Z.lor (Z.lor AVTAB_AV AVTAB_TYPE) AVTAB_XPERMS) AVTAB_ENABLED)).

(** [__builtin_popcount(key.specified & ~AVTAB_ENABLED)]. *)
Definition specifier_count (spec : Z) : Z := popcount_upto 32 (Z.land spec (lnot_w 32 AVTAB_ENABLED)).

Section Reader.
(** [insertf] with the state behind its arguments [a] and [p]. *)
Context {St : Type} (insertf : avtab_key -> avtab_datum -> St -> Z * St).

(** The loop over [spec_order] of the old format: (rc, items, state). *)
Fixpoint old_items_loop (specs : list Z) (val enabled : Z) (buf32 : list Z) (items items2 : Z)
    (k : avtab_key) (st : St) : Z * Z * St :=
  match specs with
  | [] => (0, items, st)
  | s :: specs' =>
      if ctrue (Z.land val s) then
        if items2 <=? items then (-1, items, st) else
        let k := mk_avtab_key (source_type k) (target_type k) (target_class k) (Z.lor s enabled) in
        let d := mk_avtab_datum (word32 buf32 (Z.to_nat items)) None in
        let '(rc, st) := insertf k d st in
        if ctrue rc then (rc, items + 1, st)
        else old_items_loop specs' val enabled buf32 (items + 1) items2 k st
      else old_items_loop specs' val enabled buf32 items items2 k st
  end.

(** The branch [vers < POLICYDB_VERSION_AVTAB]. *)
Definition read_item_old (fp : policy_file) (st : St) : Z * policy_file * St :=
  let '(rc, buf32, fp) := next_entry fp 4 in
  if rc <? 0 then (-1, fp, st) else
  let items2 := word32 buf32 0 in
  if (items2 <? 5) || (8 <? items2) then (-1, fp, st) else
  let '(rc, buf32, fp) := next_entry fp (4 * items2) in
  if rc <? 0 then (-1, fp, st) else
  let val := word32 buf32 0 in
  if negb (u16 val =? val) then (-1, fp, st) else
  let source := u16 val in
  let val := word32 buf32 1 in
  if negb (u16 val =? val) then (-1, fp, st) else
  let target := u16 val in
  let val := word32 buf32 2 in
  if negb (u16 val =? val) then (-1, fp, st) else
  let tclass := u16 val in
  let val := word32 buf32 3 in
  let enabled := if ctrue (Z.land val AVTAB_ENABLED_OLD) then AVTAB_ENABLED else 0 in
  if negb (ctrue (Z.land val (Z.lor AVTAB_AV AVTAB_TYPE))) then (-1, fp, st) else
  if ctrue (Z.land val AVTAB_AV) && ctrue (Z.land val AVTAB_TYPE) then (-1, fp, st) else
  let '(rc, items, st) :=
    old_items_loop spec_order val enabled buf32 4 items2 (mk_avtab_key source target tclass 0) st in
  if ctrue rc then (rc, fp, st)
  else if negb (items =? items2) then (-1, fp, st)
  else (0, fp, st).

(** The extended permissions of an item: [xspec] is [xperms.specified] so
    far.  The result carries the global [avtab_android_m_compat]. *)
Definition read_xperms (fp : policy_file) (vers compat xspec : Z) :
    option avtab_extended_perms * policy_file * Z :=
  let '(rc, buf8, fp) := next_entry fp 1 in
  if rc <? 0 then (None, fp, compat) else
  let b := le_combine buf8 in
  let finish xs drv fp compat :=
    let '(rc, buf32, fp) := next_entry fp 32 in
    if rc <? 0 then (None, fp, compat)
    else (Some (mk_xperms xs drv (map (word32 buf32) (seq 0 8))), fp, compat) in
  if ctrue compat || ((vers =? POLICYDB_VERSION_XPERMS_IOCTL) &&
       negb (b =? AVTAB_XPERMS_IOCTLFUNCTION) && negb (b =? AVTAB_XPERMS_IOCTLDRIVER) &&
       negb (b =? AVTAB_XPERMS_NLMSG)) then
    finish (if xspec =? 0 then AVTAB_XPERMS_IOCTLFUNCTION else xspec) b fp 1
  else
    let '(rc, buf8, fp) := next_entry fp 1 in
    if rc <? 0 then (None, fp, compat) else finish b (le_combine buf8) fp compat.

Definition avtab_read_item (fp : policy_file) (vers compat : Z) (st : St) :
    Z * policy_file * Z * St :=
  if vers <? POLICYDB_VERSION_AVTAB then
    let '(rc, fp, st) := read_item_old fp st in (rc, fp, compat, st)
  else
  let '(rc, buf16, fp) := next_entry fp 8 in
  if rc <? 0 then (-1, fp, compat, st) else
  let spec := word16 buf16 3 in
  let '(spec, xspec, compat) :=
    if (vers =? POLICYDB_VERSION_XPERMS_IOCTL) && ctrue (Z.land spec AVTAB_OPTYPE)
    then (avtab_optype_to_xperms spec, AVTAB_XPERMS_IOCTLDRIVER, 1)
    else (spec, 0, compat) in
  let k := mk_avtab_key (word16 buf16 0) (word16 buf16 1) (word16 buf16 2) spec in
  if ctrue (invalid_bits spec) then (-1, fp, compat, st) else
  if negb (specifier_count spec =? 1) then (-1, fp, compat, st) else
  if (vers <? POLICYDB_VERSION_XPERMS_IOCTL) && ctrue (Z.land spec AVTAB_XPERMS) then
    (-1, fp, compat, st)
  else if ctrue (Z.land spec AVTAB_XPERMS) then
    match read_xperms fp vers compat xspec with
    | (None, fp, compat) => (-1, fp, compat, st)
    | (Some xp, fp, compat) =>
        let '(rc, st) := insertf k (mk_avtab_datum 0 (Some xp)) st in (rc, fp, compat, st)
    end
  else
    let '(rc, buf32, fp) := next_entry fp 4 in
    if rc <? 0 then (-1, fp, compat, st) else
    let '(rc, st) := insertf k (mk_avtab_datum (word32 buf32 0) None) st in (rc, fp, compat, st).

(** The loop [for (i = 0; i < nel; i++)] of [avtab_read]. *)
Fixpoint read_items (i : nat) (fp : policy_file) (vers compat : Z) (st : St) :
    Z * policy_file * Z * St :=
  match i with
  | O => (0, fp, compat, st)
  | S i' =>
      let '(rc, fp, compat, st) := avtab_read_item fp vers compat st in
      if ctrue rc then (rc, fp, compat, st) else read_items i' fp vers compat st
  end.
End Reader.

Definition avtab_insertf (k : avtab_key) (d : avtab_datum) (st : avtab * oracle) : Z * (avtab * oracle) :=
  let '(rc, a, o) := avtab_insert (st.1) k d (st.2) in (rc, (a, o)).

Definition avtab_read (a : avtab) (fp : policy_file) (vers compat : Z) (o : oracle) :
    Z * avtab * policy_file * Z * oracle :=
  let '(rc, buf, fp) := next_entry fp 4 in
  if rc <? 0 then (-1, avtab_destroy a, fp, compat, o) else
  let nel := word32 buf 0 in
  if zero_or_saturated 32 nel || exceeds_available_bytes fp nel 12 then
    (-1, avtab_destroy a, fp, compat, o)
  else
  let '(rc, a, o) := avtab_alloc a nel o in
  if ctrue rc then (-1, avtab_destroy a, fp, compat, o) else
  let '(rc, fp, compat, (a, o)) := read_items avtab_insertf (Z.to_nat nel) fp vers compat (a, o) in
  if ctrue rc then (-1, avtab_destroy a, fp, compat, o) else (0, a, fp, compat, o).

(** The fields of [policydb_t] that [avtab_write_item] looks at. *)
Record write_params := mk_write_params { policyvers : Z; target_platform : Z }.

(** [cur->datum.xperms]: never null when [specified] has an extended
    permission bit, see [avtab_insert_node]. *)
Definition node_xperms (cur : avtab_node) : avtab_extended_perms :=
  default zero_xperms (xperms (datum cur)).

(** [avtab_write_item] when [oldvers] is false ("Generate the new avtab format"). *)
Definition avtab_write_item (p : write_params) (compat : Z) (cur : avtab_node) (fp : policy_file) :
    Z * policy_file :=
  let spec := specified (key cur) in
  let is_x := ctrue (Z.land spec AVTAB_XPERMS) in
  let w3 := if ctrue compat && is_x && (x_specified (node_xperms cur) =? AVTAB_XPERMS_IOCTLDRIVER)
            then u16 (avtab_xperms_to_optype spec) else spec in
  let '(items, fp) :=
    put_entry (concat (map (le_split 2)
      [source_type (key cur); target_type (key cur); target_class (key cur); w3])) 2 4 fp in
  if negb (items =? 4) then (POLICYDB_ERROR, fp) else
  if (policyvers p <? POLICYDB_VERSION_XPERMS_IOCTL) && is_x then (POLICYDB_ERROR, fp) else
  if negb (target_platform p =? SEPOL_TARGET_SELINUX) && is_x then (POLICYDB_ERROR, fp) else
  if is_x then
    let '(items, fp) :=
      if negb (ctrue compat) then put_entry (le_split 1 (x_specified (node_xperms cur))) 1 1 fp
      else (1, fp) in
    if negb (items =? 1) then (POLICYDB_ERROR, fp) else
    let '(items, fp) := put_entry (le_split 1 (x_driver (node_xperms cur))) 1 1 fp in
    if negb (items =? 1) then (POLICYDB_ERROR, fp) else
    let '(items, fp) := put_entry (words32 (x_perms (node_xperms cur))) 4 8 fp in
    if negb (items =? 8) then (POLICYDB_ERROR, fp) else (POLICYDB_SUCCESS, fp)
  else
    let '(items, fp) := put_entry (words32 [data (datum cur)]) 4 1 fp in
    if negb (items =? 1) then (POLICYDB_ERROR, fp) else (POLICYDB_SUCCESS, fp).

Fixpoint write_items (p : write_params) (compat : Z) (ns : list avtab_node) (fp : policy_file) :
    Z * policy_file :=
  match ns with
  | [] => (0, fp)
  | n :: ns' =>
      let '(rc, fp) := avtab_write_item p compat n fp in
      if ctrue rc then (-1, fp) else write_items p compat ns' fp
  end.

(** [avtab_write] when [oldvers] is false. *)
Definition avtab_write (p : write_params) (compat : Z) (a : avtab) (fp : policy_file) : Z * policy_file :=
  let '(items, fp) := put_entry (words32 [av_nel a]) 4 1 fp in
  if negb (items =? 1) then (POLICYDB_ERROR, fp)
  else write_items p compat (concat (take (Z.to_nat (av_nslot a)) (default [] (av_htable a)))) fp.

(** ** Soundness of the reader *)

Definition xperms_ok (xp : avtab_extended_perms) : Prop :=
  in_range 8 (x_specified xp) /\ in_range 8 (x_driver xp) /\
  length (x_perms xp) = 8%nat /\ Forall (in_range 32) (x_perms xp).

(** What a rule of a binary policy looks like: 16-bit key fields, exactly one
    specifier, and extended permissions exactly where the specifier says so. *)
Definition item_ok (k : avtab_key) (d : avtab_datum) : Prop :=
  in_range 16 (source_type k) /\ in_range 16 (target_type k) /\ in_range 16 (target_class k) /\
  in_range 16 (specified k) /\ invalid_bits (specified k) = 0 /\ specifier_count (specified k) = 1 /\
  if ctrue (Z.land (specified k) AVTAB_XPERMS)
  then data d = 0 /\ exists xp, xperms d = Some xp /\ xperms_ok xp
  else in_range 32 (data d) /\ xperms d = None.

Definition node_item_ok (n : avtab_node) : Prop := item_ok (key n) (datum n).

#[local] Opaque le_split le_combine put_entry next_entry invalid_bits specifier_count.

Lemma word16_range buf i : bytes_ok buf -> in_range 16 (word16 buf i).
Proof.
  intros Hb. apply (le_combine_lt _ 2); [by apply take_drop_bytes| |done].
  rewrite length_take. lia.
Qed.

Lemma byte_range buf : bytes_ok buf -> (length buf <= 1)%nat -> in_range 8 (le_combine buf).
Proof. intros. by apply (le_combine_lt _ 1). Qed.

(** Step over a [next_entry] of hypothesis [H], keeping the case where it
    succeeds. *)
Ltac next_in H Hb :=
  match type of H with
  | context [next_entry ?fp ?n] =>
      let rc := fresh "rc" in let buf := fresh "buf" in let fp' := fresh "fp" in
      let E := fresh "E" in let Hb' := fresh "Hb" in let Hbuf := fresh "Hbuf" in let Hlen := fresh "Hlen" in
      destruct (next_entry fp n) as [[rc buf] fp'] eqn:E;
      destruct (next_entry_bytes _ _ _ _ _ Hb E) as (Hb' & Hbuf & Hlen & [-> | ->]); clear E;
      [change (0 <? 0) with false in H | change (-1 <? 0) with true in H]; cbn iota in H
  end.

Lemma read_xperms_sound fp vers compat xspec xp fp' compat' :
  pf_bytes fp -> in_range 8 xspec ->
  read_xperms fp vers compat xspec = (xp, fp', compat') ->
  pf_bytes fp' /\ match xp with Some xp => xperms_ok xp | None => True end.
Proof.
  intros Hb Hx H. unfold read_xperms in H. next_in H Hb; [|by simplify_eq].
  pose proof (byte_range _ Hbuf Hlen) as Hby.
  assert (Hfin : forall xs drv b, in_range 8 xs -> in_range 8 drv -> bytes_ok b ->
    xperms_ok (mk_xperms xs drv (map (word32 b) (seq 0 8)))).
  { intros. split_and!; simpl; auto. repeat constructor; by apply word32_range. }
  destruct (ctrue compat || _).
  - next_in H Hb0; simplify_eq; [|done]. split; [done|]. apply Hfin; auto. by case_match.
  - next_in H Hb0; [|by simplify_eq]. next_in H Hb1; simplify_eq; [|done].
    split; [done|]. apply Hfin; auto. by apply byte_range.
Qed.

(** An item of the current format either fails without calling [insertf] or
    ends in one call of it, on a valid rule. *)
Lemma avtab_read_item_sound {St} (insertf : avtab_key -> avtab_datum -> St -> Z * St)
    fp vers compat st rc fp' compat' st' :
  pf_bytes fp -> POLICYDB_VERSION_AVTAB <= vers ->
  avtab_read_item insertf fp vers compat st = (rc, fp', compat', st') ->
  pf_bytes fp' /\
  ((rc = -1 /\ st' = st) \/ exists k d, item_ok k d /\ insertf k d st = (rc, st')).
Proof.
  intros Hb Hv H. unfold avtab_read_item in H. destruct (Z.ltb_spec vers POLICYDB_VERSION_AVTAB); [lia|].
  next_in H Hb; [|by simplify_eq; auto].
  set (spec0 := word16 buf 3) in H. pose proof (word16_range buf 3 Hbuf) as Hs0. fold spec0 in Hs0.
  destruct (if (vers =? _) && _ then _ else (spec0, 0, compat)) as [[spec xspec] cp] eqn:Esp.
  assert (in_range 16 spec /\ in_range 8 xspec) as [Hs Hxs].
  { destruct (_ && _); simplify_eq; [|done]. split; [|done]. by apply shiftr_range. }
  clear Esp.
  destruct (ctrue (invalid_bits spec)) eqn:Hinv; [by simplify_eq; auto|].
  assert (invalid_bits spec = 0) by (unfold ctrue in Hinv; by destruct (Z.eqb_spec (invalid_bits spec) 0)).
  destruct (Z.eqb_spec (specifier_count spec) 1); cbn [negb] in H; [|by simplify_eq; auto].
  destruct (_ && _); [by simplify_eq; auto|].
  destruct (ctrue (Z.land spec AVTAB_XPERMS)) eqn:Hx.
  - destruct (read_xperms fp0 vers cp xspec) as [[xp fp1] cp1] eqn:Er.
    destruct (read_xperms_sound _ _ _ _ _ _ _ Hb0 Hxs Er) as [Hb1 Hxp].
    destruct xp as [xp|]; [|by simplify_eq; auto].
    destruct (insertf _ _ st) as [rc1 st1] eqn:Ei. simplify_eq. split; [done|]. right.
    eexists _, _. split; [|exact Ei]. unfold item_ok; simpl. rewrite Hx.
    split_and!; eauto using word16_range.
  - next_in H Hb0; [|by simplify_eq; auto].
    destruct (insertf _ _ st) as [rc1 st1] eqn:Ei. simplify_eq. split; [done|]. right.
    eexists _, _. split; [|exact Ei]. unfold item_ok; simpl. rewrite Hx.
    split_and!; auto using word16_range, word32_range.
Qed.

Lemma stored_node_valid k d : item_ok k d -> stored_node k d = mk_avtab_node k d.
Proof.
  unfold item_ok, stored_node. intros (_ & _ & _ & _ & _ & _ & H). case_match; [|done].
  destruct H as (_ & xp & Hx & _). rewrite Hx. simpl. rewrite <- Hx. by destruct d.
Qed.

(** The invariant of the loop of [avtab_read]. *)
Definition reading (n : Z) (st : avtab * oracle) : Prop :=
  avtab_ok (st.1) /\ Forall node_item_ok (nodes_of (st.1)) /\ zlength (nodes_of (st.1)) = n.

Lemma avtab_ok_count a : avtab_ok a -> av_nel a = zlength (nodes_of a).
Proof.
  unfold avtab_ok, nodes_of. destruct (av_htable a); [|done]. simpl. unfold zlength. naive_solver.
Qed.

Lemma avtab_insertf_reading k d n st rc st' :
  item_ok k d -> reading n st -> n < 2 ^ 32 - 1 -> avtab_insertf k d st = (rc, st') ->
  avtab_ok (st'.1) /\ (rc = 0 -> reading (n + 1) st').
Proof.
  destruct st as [a o]. intros Hk (Hok & Hall & Hlen) Hn H. unfold avtab_insertf in H; simpl in *.
  pose proof (avtab_ok_count a Hok) as Hc.
  pose proof (avtab_insert_post a k d o Hok ltac:(lia)) as Hi. cbv zeta in Hi.
  destruct (avtab_insert a k d o) as [[rc1 a1] o1]. simplify_eq; simpl.
  destruct Hi as [Hok1 [(-> & Hperm & _)|[(-> & _)|(-> & _)]]]; (split; [done|]); [intros _|done|done].
  rewrite (stored_node_valid k d Hk) in Hperm. split; [done|]. unfold reading, zlength; simpl.
  rewrite Hperm. split; [by constructor|]. simpl. unfold zlength in *. lia.
Qed.

Lemma read_items_sound i fp vers compat st rc fp' compat' st' n :
  pf_bytes fp -> POLICYDB_VERSION_AVTAB <= vers -> 0 <= n -> n + Z.of_nat i <= 2 ^ 32 - 1 ->
  reading n st ->
  read_items avtab_insertf i fp vers compat st = (rc, fp', compat', st') ->
  avtab_ok (st'.1) /\ (rc = 0 -> reading (n + Z.of_nat i) st').
Proof.
  revert fp compat st n. induction i as [|i IH]; intros fp compat st n Hb Hv Hn Hmax Hr H; simpl in H.
  - simplify_eq. rewrite Z.add_0_r. split; [apply Hr|done].
  - destruct (avtab_read_item _ fp vers compat st) as [[[rc1 fp1] cp1] st1] eqn:E.
    destruct (avtab_read_item_sound _ _ _ _ _ _ _ _ _ Hb Hv E) as [Hb1 [[-> ->]|(k & d & Hk & Hi)]].
    + simpl in H. simplify_eq. split; [apply Hr|done].
    + destruct (avtab_insertf_reading _ _ _ _ _ _ Hk Hr ltac:(lia) Hi) as [Hok1 Hr1].
      destruct (ctrue rc1) eqn:Hrc.
      * simplify_eq. split; [done|]. intros ->. done.
      * assert (rc1 = 0) as -> by (unfold ctrue in Hrc; by destruct (Z.eqb_spec rc1 0)).
        replace (n + Z.of_nat (S i)) with (n + 1 + Z.of_nat i) by lia.
        eapply IH; [done|done|lia|lia|by apply Hr1|done].
Qed.

Lemma avtab_destroy_none a : av_htable (avtab_destroy a) = None.
Proof. unfold avtab_destroy. by destruct (av_htable a) eqn:E. Qed.

(** Reading leaves bytes behind, in every format. *)
Lemma read_item_bytes {St} (insertf : avtab_key -> avtab_datum -> St -> Z * St) fp vers compat st rc fp' compat' st' :
  pf_bytes fp -> avtab_read_item insertf fp vers compat st = (rc, fp', compat', st') -> pf_bytes fp'.
Proof.
  intros Hb H. destruct (Z.ltb_spec vers POLICYDB_VERSION_AVTAB) as [Hv|Hv].
  - unfold avtab_read_item in H. destruct (Z.ltb_spec vers POLICYDB_VERSION_AVTAB); [|lia].
    destruct (read_item_old insertf fp st) as [[rc1 fp1] st1] eqn:E. simplify_eq. unfold read_item_old in E.
    next_in E Hb; [|by simplify_eq]. destruct (_ || _); [by simplify_eq|]. next_in E Hb0; [|by simplify_eq]. by repeat case_match; simplify_eq.
  - by eapply avtab_read_item_sound.
Qed.

Lemma read_items_bytes {St} (insertf : avtab_key -> avtab_datum -> St -> Z * St) i fp vers compat st rc fp' compat' st' :
  pf_bytes fp -> read_items insertf i fp vers compat st = (rc, fp', compat', st') -> pf_bytes fp'.
Proof.
  revert fp compat st. induction i as [|i IH]; intros fp compat st Hb H; simpl in H; [by simplify_eq|].
  destruct (avtab_read_item _ fp vers compat st) as [[[rc1 fp1] cp1] st1] eqn:E. pose proof (read_item_bytes _ _ _ _ _ _ _ _ _ Hb E).
  destruct (ctrue rc1); [by simplify_eq|]. by eapply IH.
Qed.

Lemma avtab_read_bytes a fp vers compat o rc a' fp' compat' o' :
  pf_bytes fp -> avtab_read a fp vers compat o = (rc, a', fp', compat', o') -> pf_bytes fp'.
Proof.
  intros Hb H. unfold avtab_read in H. next_in H Hb; [|by simplify_eq]. destruct (_ || _); [by simplify_eq|].
  destruct (avtab_alloc a _ o) as [[rc1 a1] o1]. destruct (ctrue rc1); [by simplify_eq|].
  destruct (read_items _ _ _ _ _ _) as [[[rc2 fp2] cp2] [a2 o2]] eqn:E. apply read_items_bytes in E; [|done]. destruct (ctrue rc2); by simplify_eq.
Qed.

Lemma avtab_read_ok a fp vers compat o :
  pf_bytes fp -> POLICYDB_VERSION_AVTAB <= vers ->
  let '(rc, a', _, _, _) := avtab_read a fp vers compat o in
  (rc = 0 /\ avtab_ok a' /\ Forall node_item_ok (nodes_of a') /\
     zlength (nodes_of a') = word32 (pf_data fp) 0 /\ 0 < word32 (pf_data fp) 0) \/
  (rc = -1 /\ av_htable a' = None).
Proof.
  intros Hb Hv. unfold avtab_read.
  destruct (next_entry fp 4) as [[rc buf] fp1] eqn:E.
  destruct (next_entry_bytes _ _ _ _ _ Hb E) as (Hb1 & Hbuf & Hlen & [-> | ->]); simpl;
    [|right; auto using avtab_destroy_none].
  assert (Hw : word32 buf 0 = word32 (pf_data fp) 0).
  { unfold word32. rewrite !Nat.mul_0_r, !drop_0. Transparent next_entry. unfold next_entry in E.
    Opaque next_entry. unfold ztake in E. destruct (pf_ty fp); repeat case_match; simplify_eq;
      by rewrite take_take. }
  rewrite Hw. pose proof (word32_range (pf_data fp) 0 Hb) as Hr. unfold in_range in Hr.
  destruct (zero_or_saturated _ _) eqn:Hz; simpl; [right; auto using avtab_destroy_none|].
  unfold zero_or_saturated in Hz. apply orb_false_iff in Hz as [Hz1%Z.eqb_neq Hz2%Z.eqb_neq].
  destruct (exceeds_available_bytes _ _ _); [right; auto using avtab_destroy_none|].
  destruct (avtab_alloc a _ o) as [[rc a1] o1] eqn:Ea.
  destruct (ctrue rc) eqn:Hrc; [right; auto using avtab_destroy_none|].
  assert (rc = 0) as -> by (unfold ctrue in Hrc; by destruct (Z.eqb_spec rc 0)).
  apply avtab_alloc_post in Ea as (Hok & Hnil & _); [|lia].
  destruct (read_items _ _ fp1 vers compat (a1, o1)) as [[[rc fp2] cp2] [a2 o2]] eqn:Ei.
  assert (Hr0 : reading 0 (a1, o1)) by (by split_and!; simpl; rewrite ?Hnil).
  eapply (read_items_sound _ _ _ _ _ _ _ _ _ 0 Hb1 Hv) in Ei as [Hok2 Hr2]; [|lia|lia|done].
  destruct (ctrue rc) eqn:Hrc2; [right; auto using avtab_destroy_none|].
  assert (rc = 0) as -> by (unfold ctrue in Hrc2; by destruct (Z.eqb_spec rc 0)).
  destruct (Hr2 eq_refl) as (_ & Hall & Hlen2). left. split_and!; [done|done|done| |lia].
  simpl in Hlen2. rewrite Hlen2. lia.
Qed.

(** C36: whatever bytes it is given, [avtab_read] in the formats since version 20
    either fails with the table freed, or builds a well-formed table of
    exactly the announced number of rules, each with 16-bit key fields,
    exactly one specifier, and extended permissions exactly when the specifier
    calls for them. *)
Theorem avtab_read_sound a fp vers compat o :
  pf_bytes fp -> POLICYDB_VERSION_AVTAB <= vers ->
  let '(rc, a', _, _, _) := avtab_read a fp vers compat o in
  (rc = 0 /\ avtab_ok a' /\ Forall node_item_ok (nodes_of a') /\
     zlength (nodes_of a') = word32 (pf_data fp) 0) \/
  (rc = -1 /\ av_htable a' = None).
Proof.
  intros Hb Hv. pose proof (avtab_read_ok a fp vers compat o Hb Hv) as H. destruct (avtab_read a fp vers compat o) as [[[[rc a'] ?] ?] ?].
  destruct H as [(? & ? & ? & ? & _)|?]; [by left|by right].
Qed.

(** ** Round trip *)

Definition words16 (ws : list Z) : list Z := concat (map (le_split 2) ws).

(** The fourth 16-bit word of an item. *)
Definition item_word3 (compat : Z) (n : avtab_node) : Z :=
  if ctrue compat && ctrue (Z.land (specified (key n)) AVTAB_XPERMS) &&
     (x_specified (node_xperms n) =? AVTAB_XPERMS_IOCTLDRIVER)
  then u16 (avtab_xperms_to_optype (specified (key n))) else specified (key n).

Definition item_image (compat : Z) (n : avtab_node) : list Z :=
  words16 [source_type (key n); target_type (key n); target_class (key n); item_word3 compat n] ++
  if ctrue (Z.land (specified (key n)) AVTAB_XPERMS) then
    (if ctrue compat then [] else le_split 1 (x_specified (node_xperms n))) ++
    le_split 1 (x_driver (node_xperms n)) ++ words32 (x_perms (node_xperms n))
  else words32 [data (datum n)].

Definition avtab_image (compat : Z) (a : avtab) : list Z :=
  words32 [av_nel a] ++ concat (map (item_image compat) (nodes_of a)).

(** The rules the format can hold: extended permissions need version 30 and
    one of the known kinds; the Android 6.0 format only has the two ioctl
    kinds, at version 30 and outside conditionals. *)
Definition item_writable (vers compat : Z) (n : avtab_node) : Prop :=
  node_item_ok n /\
  (Z.land (specified (key n)) AVTAB_XPERMS <> 0 ->
     POLICYDB_VERSION_XPERMS_IOCTL <= vers /\
     if ctrue compat then
       vers = POLICYDB_VERSION_XPERMS_IOCTL /\ Z.land (specified (key n)) AVTAB_ENABLED = 0 /\
       (x_specified (node_xperms n) = AVTAB_XPERMS_IOCTLFUNCTION \/
        x_specified (node_xperms n) = AVTAB_XPERMS_IOCTLDRIVER)
     else 1 <= x_specified (node_xperms n) <= 3).

Lemma zlength_words16 ws : zlength (words16 ws) = 2 * zlength ws.
Proof.
  unfold words16. induction ws as [|w ws IH]; [done|]. cbn [map concat].
  rewrite zlength_app, zlength_le_split, IH. unfold zlength. simpl length. lia.
Qed.

Lemma word16_words16 ws i w rest :
  ws !! i = Some w -> in_range 16 w -> word16 (words16 ws ++ rest) i = w.
Proof.
  unfold word16, words16. revert i. induction ws as [|x ws IH]; intros i Hi Hw; [done|].
  cbn [map concat]. rewrite <- app_assoc. destruct i as [|i]; simpl in Hi.
  - simplify_eq. rewrite Nat.mul_0_r, drop_0, take_app_length' by (by rewrite length_le_split).
    rewrite le_combine_split. by apply wrap_small.
  - replace (2 * S i)%nat with (2 + 2 * i)%nat by lia. rewrite <- drop_drop.
    rewrite drop_app_length' by (by rewrite length_le_split). by apply IH.
Qed.

Lemma read_words32 ws :
  Forall (in_range 32) ws -> map (word32 (words32 ws)) (seq 0 (length ws)) = ws.
Proof.
  intros H. apply list_eq. intros i. rewrite list_lookup_fmap.
  destruct (ws !! i) as [w|] eqn:E.
  - rewrite lookup_seq_lt by (by eapply lookup_lt_Some). simpl. f_equal.
    rewrite <- (app_nil_r (words32 ws)). apply word32_words32; [done|]. by eapply Forall_lookup_1.
  - rewrite lookup_seq_ge by (by apply lookup_ge_None). done.
Qed.

(** The eighteen specifiers a rule can have. *)
Definition all_specified : list Z :=
  concat (map (fun s => [s; Z.lor s AVTAB_ENABLED]) spec_order).

Definition valid_specified_check (s : Z) : bool :=
  negb (invalid_bits s =? 0) || negb (specifier_count s =? 1) || existsb (Z.eqb s) all_specified.

Lemma valid_specified s :
  in_range 16 s -> invalid_bits s = 0 -> specifier_count s = 1 -> In s all_specified.
Proof.
  intros Hr Hi Hc.
  assert (Hall : forall_bits 16 valid_specified_check = true) by (vm_compute; reflexivity).
  pose proof (forall_bits_spec 16 _ s Hall Hr) as H. unfold valid_specified_check in H.
  rewrite Hi, Hc in H. cbn [Z.eqb Pos.eqb negb orb] in H.
  apply existsb_exists in H as (y & Hy & He%Z.eqb_eq). by subst.
Qed.

Lemma valid_no_optype s : In s all_specified -> Z.land s AVTAB_OPTYPE = 0.
Proof.
  assert (Hall : forallb (fun s => Z.land s AVTAB_OPTYPE =? 0) all_specified = true) by reflexivity.
  rewrite forallb_forall in Hall. intros H. by apply Z.eqb_eq, Hall.
Qed.

(** The Android 6.0 encoding of a driver rule is unambiguous. *)
Lemma optype_roundtrip s :
  In s all_specified -> Z.land s AVTAB_XPERMS <> 0 -> Z.land s AVTAB_ENABLED = 0 ->
  in_range 16 (u16 (avtab_xperms_to_optype s)) /\
  Z.land (u16 (avtab_xperms_to_optype s)) AVTAB_OPTYPE <> 0 /\
  avtab_optype_to_xperms (u16 (avtab_xperms_to_optype s)) = s.
Proof.
  set (good s := (Z.land s AVTAB_XPERMS =? 0) || negb (Z.land s AVTAB_ENABLED =? 0) ||
    (negb (Z.land (u16 (avtab_xperms_to_optype s)) AVTAB_OPTYPE =? 0) &&
     (avtab_optype_to_xperms (u16 (avtab_xperms_to_optype s)) =? s))).
  assert (Hall : forallb good all_specified = true) by reflexivity.
  rewrite forallb_forall in Hall. intros Hs Hx He. specialize (Hall s Hs). unfold good in Hall.
  apply Z.eqb_neq in Hx. rewrite Hx, He in Hall. simpl in Hall.
  apply andb_true_iff in Hall as [H1%negb_true_iff%Z.eqb_neq H2%Z.eqb_eq].
  split; [by apply wrap_range|done].
Qed.

Lemma ctrue_false x : ctrue x = false <-> x = 0.
Proof. unfold ctrue. destruct (Z.eqb_spec x 0); simpl; split; congruence. Qed.

Lemma ctrue_true x : ctrue x = true <-> x <> 0.
Proof. unfold ctrue. destruct (Z.eqb_spec x 0); simpl; split; congruence. Qed.

Lemma le_byte x : in_range 8 x -> le_combine (le_split 1 x) = x.
Proof. intros. rewrite le_combine_split. by apply wrap_small. Qed.

(** Advance over a [next_entry] of the goal whose bytes are at the front. *)
Ltac next_app bs rest :=
  erewrite (next_entry_app _ bs rest);
  [change (0 <? 0) with false; cbn iota beta
  |done || apply with_data_ready|done
  |rewrite ?zlength_words16, ?zlength_words32, ?zlength_le_split; done].

Lemma with_data_twice fp d d' : with_data (with_data fp d) d' = with_data fp d'.
Proof. done. Qed.

Lemma read_xperms_image fp vers compat xspec xp rest :
  mem_ready fp -> xperms_ok xp -> in_range 8 xspec ->
  pf_data fp = (if ctrue compat then [] else le_split 1 (x_specified xp)) ++
    le_split 1 (x_driver xp) ++ words32 (x_perms xp) ++ rest ->
  (if ctrue compat then compat = 1 /\ x_specified xp = (if xspec =? 0 then AVTAB_XPERMS_IOCTLFUNCTION else xspec)
   else compat = 0 /\ 1 <= x_specified xp <= 3) ->
  read_xperms fp vers compat xspec = (Some xp, with_data fp rest, compat).
Proof.
  intros Hfp (Hxs & Hdr & Hlen & Hps) Hxr Hd Hk. unfold read_xperms.
  assert (Hz : zlength (x_perms xp) = 8) by (unfold zlength; by rewrite Hlen).
  pose proof (read_words32 _ Hps) as Hrw. rewrite Hlen in Hrw.
  destruct (ctrue compat) eqn:Hc; simpl in Hd.
  - destruct Hk as [-> Hk]. erewrite (next_entry_app _ _ _ 1 Hfp Hd) by (by rewrite zlength_le_split).
    change (0 <? 0) with false; cbn iota beta. rewrite orb_true_l.
    erewrite (next_entry_app _ (words32 (x_perms xp)) rest) by (try done; by rewrite zlength_words32, Hz).
    change (0 <? 0) with false; cbn iota beta. rewrite Hrw, <- Hk, le_byte by done. by destruct xp.
  - destruct Hk as [-> Hk]. erewrite (next_entry_app _ _ _ 1 Hfp Hd) by (by rewrite zlength_le_split).
    change (0 <? 0) with false; cbn iota beta. rewrite orb_false_l, le_byte by done.
    replace (_ && _ && _ && _) with false by (unfold AVTAB_XPERMS_IOCTLFUNCTION, AVTAB_XPERMS_IOCTLDRIVER, AVTAB_XPERMS_NLMSG; lia).
    next_app (le_split 1 (x_driver xp)) (words32 (x_perms xp) ++ rest).
    erewrite (next_entry_app _ (words32 (x_perms xp)) rest) by (try done; by rewrite zlength_words32, Hz).
    change (0 <? 0) with false; cbn iota beta. rewrite Hrw, le_byte by done. by destruct xp.
Qed.

(** Reading the image of a rule hands exactly that rule to [insertf]. *)
Lemma read_item_image {St} (insertf : avtab_key -> avtab_datum -> St -> Z * St) fp vers compat st n rest :
  mem_ready fp -> POLICYDB_VERSION_AVTAB <= vers -> compat = 0 \/ compat = 1 ->
  item_writable vers compat n -> pf_data fp = item_image compat n ++ rest ->
  avtab_read_item insertf fp vers compat st =
    (let '(rc, st) := insertf (key n) (datum n) st in (rc, with_data fp rest, compat, st)).
Proof.
  intros Hfp Hv Hcp [Hn Hw] Hd. pose proof Hn as (Hs & Ht & Hc & Hsp & Hinv & Hcnt & Hdat).
  pose proof (valid_specified _ Hsp Hinv Hcnt) as Hin.
  unfold avtab_read_item, item_image in *. destruct (Z.ltb_spec vers POLICYDB_VERSION_AVTAB); [lia|].
  rewrite <- app_assoc in Hd.
  rewrite (next_entry_app fp _ _ 8 Hfp Hd) by (by rewrite zlength_words16).
  change (0 <? 0) with false; cbn iota beta.
  set (ws := [source_type (key n); target_type (key n); target_class (key n); item_word3 compat n]) in *.
  assert (Hws : forall i w, ws !! i = Some w -> in_range 16 w -> word16 (words16 ws) i = w).
  { intros i w Hi Hr. rewrite <- (app_nil_r (words16 ws)). by apply word16_words16. }
  rewrite !(Hws 0%nat (source_type (key n))), !(Hws 1%nat (target_type (key n))),
    !(Hws 2%nat (target_class (key n))) by done.
  destruct (ctrue (Z.land (specified (key n)) AVTAB_XPERMS)) eqn:Hx.
  - destruct Hdat as (Hd0 & xp & Hxp & Hxok). apply ctrue_true in Hx as Hx'. destruct (Hw Hx') as [Hv30 Hk].
    assert (Hnx : node_xperms n = xp) by (unfold node_xperms; by rewrite Hxp). rewrite Hnx in *.
    assert (Hsel : exists xspec, in_range 8 xspec /\
      (if ctrue compat then compat = 1 /\ x_specified xp = (if xspec =? 0 then AVTAB_XPERMS_IOCTLFUNCTION else xspec)
       else compat = 0 /\ 1 <= x_specified xp <= 3) /\
      (if (vers =? POLICYDB_VERSION_XPERMS_IOCTL) && ctrue (Z.land (word16 (words16 ws) 3) AVTAB_OPTYPE)
       then (avtab_optype_to_xperms (word16 (words16 ws) 3), AVTAB_XPERMS_IOCTLDRIVER, 1)
       else (word16 (words16 ws) 3, 0, compat)) = (specified (key n), xspec, compat)).
    { destruct (ctrue compat) eqn:Hcc.
      - assert (compat = 1) as Hc1 by (destruct Hcp; subst; done). destruct Hk as (-> & Hen & Hkind).
        destruct (optype_roundtrip _ Hin Hx' Hen) as (Hr & Hop & Hback).
        assert (Hw3 : word16 (words16 ws) 3 = item_word3 compat n).
        { apply Hws; [done|]. unfold item_word3. by case_match. }
        rewrite Hw3. unfold item_word3. rewrite Hnx, Hcc, Hx. simpl.
        destruct Hkind as [-> | ->]; simpl.
        + exists 0. by rewrite valid_no_optype, Hc1 by done.
        + exists AVTAB_XPERMS_IOCTLDRIVER. rewrite (proj2 (ctrue_true _) Hop). simpl. by rewrite Hback, Hc1.
      - exists 0. assert (Hw3 : word16 (words16 ws) 3 = specified (key n)).
        { apply Hws; [|done]. simpl. unfold item_word3. by rewrite Hcc. }
        rewrite Hw3, valid_no_optype by done. rewrite andb_false_r. apply ctrue_false in Hcc. done. }
    destruct Hsel as (xspec & Hxr & Hsel & ->). rewrite Hinv, Hcnt, Hx. simpl.
    destruct (Z.ltb_spec vers POLICYDB_VERSION_XPERMS_IOCTL); [lia|]. simpl.
    erewrite (read_xperms_image _ vers compat xspec xp rest) by (try done; simpl; by rewrite <- !app_assoc).
    rewrite with_data_twice. clear - Hd0 Hxp. destruct n as [[] []]; simpl in *. by subst.
  - assert (Hw3 : word16 (words16 ws) 3 = specified (key n)).
    { apply Hws; [|done]. simpl. unfold item_word3. by rewrite Hx, andb_false_r. }
    rewrite Hw3, valid_no_optype by done. rewrite andb_false_r, Hinv, Hcnt, Hx. simpl. rewrite andb_false_r.
    next_app (words32 [data (datum n)]) rest. destruct Hdat as [Hdr Hxn].
    rewrite <- (app_nil_r (words32 _)), (word32_words32 _ _ (data (datum n))) by done.
    rewrite with_data_twice. clear - Hxn. destruct n as [[] []]; simpl in *. by subst.
Qed.

(** No rule of the list is a duplicate, for [avtab_insert], of an earlier one. *)
Fixpoint no_duplicates (seen ns : list avtab_node) : Prop :=
  match ns with
  | [] => True
  | n :: ns' =>
      let spec := clear_enabled (specified (key n)) in
      (Z.land spec AVTAB_XPERMS = 0 -> matching (key n) spec seen = []) /\
      no_duplicates (n :: seen) ns'
  end.

Lemma no_duplicates_perm seen seen' ns : seen ≡ₚ seen' -> no_duplicates seen ns -> no_duplicates seen' ns.
Proof.
  revert seen seen'. induction ns as [|n ns IH]; intros seen seen' Hp; [done|]. intros [H1 H2]. split.
  - intros Hx. specialize (H1 Hx). apply Permutation_nil_r. by rewrite <- Hp, H1.
  - eapply IH; [|exact H2]. by rewrite Hp.
Qed.

Lemma avtab_insertf_new n st :
  avtab_ok (st.1) -> mem_ok (st.2) -> node_item_ok n -> zlength (nodes_of (st.1)) < 2 ^ 32 - 1 ->
  (Z.land (clear_enabled (specified (key n))) AVTAB_XPERMS = 0 ->
   matching (key n) (clear_enabled (specified (key n))) (nodes_of (st.1)) = []) ->
  exists st', avtab_insertf (key n) (datum n) st = (0, st') /\ avtab_ok (st'.1) /\ mem_ok (st'.2) /\
    nodes_of (st'.1) ≡ₚ n :: nodes_of (st.1).
Proof.
  destruct st as [a o]; simpl. intros Hok M Hn Hlen Hnew.
  pose proof (avtab_ok_count a Hok) as Hc.
  pose proof (avtab_insert_post a (key n) (datum n) o Hok ltac:(lia)) as Hi. cbv zeta in Hi.
  pose proof (avtab_insert_mem a (key n) (datum n) o M) as Hm.
  unfold avtab_insertf; simpl. destruct (avtab_insert a _ _ o) as [[rc a1] o1].
  destruct Hi as [Hok1 [(-> & Hp & _)|[(-> & _ & Hx & Hne)|(-> & _ & HM)]]].
  - exists (a1, o1). simpl. rewrite (stored_node_valid _ _ Hn) in Hp. by destruct n.
  - by destruct Hne; apply Hnew.
  - done.
Qed.

Lemma read_items_image ns fp vers compat st rest :
  mem_ready fp -> POLICYDB_VERSION_AVTAB <= vers -> compat = 0 \/ compat = 1 ->
  Forall (item_writable vers compat) ns -> no_duplicates (nodes_of (st.1)) ns ->
  avtab_ok (st.1) -> mem_ok (st.2) -> zlength (nodes_of (st.1)) + zlength ns <= 2 ^ 32 - 1 ->
  pf_data fp = concat (map (item_image compat) ns) ++ rest ->
  exists st', read_items avtab_insertf (length ns) fp vers compat st =
      (0, with_data fp rest, compat, st') /\
    avtab_ok (st'.1) /\ mem_ok (st'.2) /\ nodes_of (st'.1) ≡ₚ ns ++ nodes_of (st.1).
Proof.
  revert fp st. induction ns as [|n ns IH]; intros fp st Hfp Hv Hcp Hall Hnd Hok M Hlen Hd; simpl.
  { exists st. split; [|done]. destruct Hfp as [Hty Hl]. simpl in Hd. destruct fp; simpl in *.
    unfold with_data; simpl. by subst. }
  apply Forall_cons in Hall as [Hn Hall]. destruct Hnd as [Hnew Hnd]. simpl in Hd. rewrite <- app_assoc in Hd.
  unfold zlength in Hlen; simpl length in Hlen.
  destruct (avtab_insertf_new n st Hok M (proj1 Hn) ltac:(unfold zlength; lia) Hnew)
    as (st1 & Hi & Hok1 & M1 & Hp).
  rewrite (read_item_image avtab_insertf fp vers compat st n _ Hfp Hv Hcp Hn Hd), Hi. simpl.
  destruct (IH (with_data fp (concat (map (item_image compat) ns) ++ rest)) st1) as (st2 & -> & Hok2 & M2 & Hp2);
    try done.
  - by eapply no_duplicates_perm; [|exact Hnd].
  - unfold zlength. rewrite Hp. simpl length. lia.
  - exists st2. rewrite with_data_twice. split; [done|]. split; [done|]. split; [done|].
    rewrite Hp2, Hp. symmetry. apply Permutation_middle.
Qed.

Lemma zlength_item_image vers compat n : item_writable vers compat n -> 12 <= zlength (item_image compat n).
Proof.
  intros [(_ & _ & _ & _ & _ & _ & Hd) _]. unfold item_image. rewrite zlength_app, zlength_words16.
  change (zlength [_; _; _; _]) with 4. destruct (ctrue _); [|rewrite zlength_words32; change (zlength [_]) with 1; lia].
  destruct Hd as (_ & xp & Hx & _ & _ & Hl & _). rewrite !zlength_app, zlength_words32, zlength_le_split.
  unfold node_xperms. rewrite Hx. simpl. pose proof (zlength_nonneg (if ctrue compat then [] else le_split 1 (x_specified xp))).
  assert (zlength (x_perms xp) = 8) by (unfold zlength; by rewrite Hl). lia.
Qed.

Lemma zlength_items_image vers compat ns :
  Forall (item_writable vers compat) ns -> 12 * zlength ns <= zlength (concat (map (item_image compat) ns)).
Proof.
  induction 1 as [|n ns Hn _ IH]; [done|]. cbn [map concat]. rewrite zlength_app.
  apply zlength_item_image in Hn. change (zlength (n :: ns)) with (Z.of_nat (S (length ns))).
  unfold zlength in *. lia.
Qed.

(** One entry behind what has been put, of [a] bytes before [b] more. *)
Lemma put_entry_next ptr size n fp b :
  zlength ptr = size * n -> 0 <= b -> room fp (size * n + b) -> put_entry ptr size n fp = (n, wrote fp ptr) /\ room (wrote fp ptr) b.
Proof.
  intros Hp Hb Hr. pose proof (zlength_nonneg ptr). split; [apply put_entry_room; [done|eapply room_le; [|exact Hr]; lia]|].
  apply room_wrote; [done|]. by rewrite Hp.
Qed.

Lemma avtab_write_item_ok p compat n fp :
  item_writable (policyvers p) compat n -> target_platform p = SEPOL_TARGET_SELINUX -> room fp (zlength (item_image compat n)) ->
  avtab_write_item p compat n fp = (POLICYDB_SUCCESS, wrote fp (item_image compat n)).
Proof.
  intros [(_ & _ & _ & _ & _ & _ & Hd) Hw] Htp Hr. unfold avtab_write_item, item_image in *.
  fold (item_word3 compat n). set (w3 := item_word3 compat n) in *.
  fold (words16 [source_type (key n); target_type (key n); target_class (key n); w3]).
  set (hd := words16 _) in *. assert (zlength hd = 2 * 4) as Hhd by (by unfold hd; rewrite zlength_words16).
  rewrite zlength_app, Hhd in Hr. rewrite Htp. cbn [SEPOL_TARGET_SELINUX Z.eqb negb andb].
  destruct (put_entry_next hd 2 4 fp _ Hhd (zlength_nonneg _) Hr) as [E1 R1]. rewrite E1. cbn [Z.eqb Pos.eqb negb].
  destruct (ctrue (Z.land (specified (key n)) AVTAB_XPERMS)) eqn:Hx.
  - destruct (Hw ltac:(by apply ctrue_true)) as [Hv _]. destruct Hd as (_ & xp & Hxp & _ & _ & Hl & _).
    assert (Hnx : node_xperms n = xp) by (unfold node_xperms; by rewrite Hxp). rewrite Hnx in *.
    destruct (Z.ltb_spec (policyvers p) POLICYDB_VERSION_XPERMS_IOCTL); [lia|]. cbn [andb].
    assert (Hz : zlength (words32 (x_perms xp)) = 4 * 8) by (rewrite zlength_words32; unfold zlength; by rewrite Hl).
    assert (Hdr : zlength (le_split 1 (x_driver xp)) = 1 * 1) by (by rewrite zlength_le_split).
    assert (Hsp : zlength (le_split 1 (x_specified xp)) = 1 * 1) by (by rewrite zlength_le_split).
    rewrite !zlength_app, Hz, Hdr in R1. destruct (ctrue compat); cbn [negb app] in *.
    + change (zlength ([] : list Z)) with 0 in R1.
      destruct (put_entry_next (le_split 1 (x_driver xp)) 1 1 _ (4 * 8) Hdr ltac:(lia) R1) as [E2 R2]. rewrite E2. cbn [Z.eqb Pos.eqb negb].
      rewrite (put_entry_room _ _ _ _ Hz R2). cbn [Z.eqb Pos.eqb negb]. by rewrite !wrote_app, <- ?app_assoc.
    + rewrite Hsp in R1. destruct (put_entry_next (le_split 1 (x_specified xp)) 1 1 _ (1 * 1 + 4 * 8) Hsp ltac:(lia) R1) as [E2 R2].
      rewrite E2. cbn [Z.eqb Pos.eqb negb]. destruct (put_entry_next (le_split 1 (x_driver xp)) 1 1 _ (4 * 8) Hdr ltac:(lia) R2) as [E3 R3].
      rewrite E3. cbn [Z.eqb Pos.eqb negb]. rewrite (put_entry_room _ _ _ _ Hz R3). cbn [Z.eqb Pos.eqb negb]. by rewrite !wrote_app, <- ?app_assoc.
  - rewrite andb_false_r. assert (Hz : zlength (words32 [data (datum n)]) = 4 * 1) by (by rewrite zlength_words32). rewrite Hz in R1.
    rewrite (put_entry_room _ _ _ _ Hz R1). cbn [Z.eqb Pos.eqb negb]. by rewrite wrote_app.
Qed.

Lemma write_items_ok p compat ns fp :
  Forall (item_writable (policyvers p) compat) ns -> target_platform p = SEPOL_TARGET_SELINUX ->
  room fp (zlength (concat (map (item_image compat) ns))) ->
  write_items p compat ns fp = (0, wrote fp (concat (map (item_image compat) ns))).
Proof.
  revert fp. induction ns as [|n ns IH]; intros fp Hall Htp Hr; simpl.
  { by rewrite wrote_nil. }
  apply Forall_cons in Hall as [Hn Hall]. cbn [map concat] in Hr. rewrite zlength_app in Hr.
  pose proof (zlength_nonneg (concat (map (item_image compat) ns))).
  rewrite avtab_write_item_ok; [|done|done|eapply room_le; [|exact Hr]; lia]. simpl. rewrite IH; [|done|done|by apply room_wrote].
  by rewrite wrote_app.
Qed.

Lemma avtab_write_image p compat a fp :
  avtab_ok a -> Forall (item_writable (policyvers p) compat) (nodes_of a) ->
  target_platform p = SEPOL_TARGET_SELINUX -> room fp (zlength (avtab_image compat a)) ->
  avtab_write p compat a fp = (0, wrote fp (avtab_image compat a)).
Proof.
  intros Hok Hall Htp Hr. unfold avtab_write, avtab_image in *. rewrite zlength_app, zlength_words32 in Hr. change (zlength [av_nel a]) with 1 in Hr.
  destruct (put_entry_next (words32 [av_nel a]) 4 1 fp _ ltac:(by rewrite zlength_words32) (zlength_nonneg _) Hr) as [E1 R1].
  rewrite E1. cbn [Z.eqb Pos.eqb negb].
  assert (concat (take (Z.to_nat (av_nslot a)) (default [] (av_htable a))) = nodes_of a) as ->.
  { unfold nodes_of, avtab_ok in *. destruct (av_htable a) as [tbl|]; [|done]. simpl.
    rewrite take_ge; [done|]. lia. }
  rewrite write_items_ok by done. by rewrite <- wrote_app.
Qed.

(** In front of the image of a table the reader rebuilds it. *)
Lemma avtab_read_image vers compat a a0 fp rest o :
  avtab_ok a -> nodes_of a <> [] -> av_nel a < 2 ^ 32 - 1 -> no_duplicates [] (nodes_of a) ->
  Forall (item_writable vers compat) (nodes_of a) -> compat = 0 \/ compat = 1 ->
  POLICYDB_VERSION_AVTAB <= vers -> mem_ready fp -> mem_ok o -> pf_data fp = avtab_image compat a ++ rest ->
  exists a' o', avtab_read a0 fp vers compat o = (0, a', with_data fp rest, compat, o') /\ mem_ok o' /\
    avtab_ok a' /\ nodes_of a' ≡ₚ nodes_of a.
Proof.
  intros Hok Hne Hnel Hnd Hall Hcp Hv Hfp M Hd.
  pose proof (avtab_ok_count a Hok) as Hc. pose proof (zlength_items_image _ _ _ Hall) as Himg.
  pose proof (zlength_nonneg (nodes_of a)).
  assert (zlength (nodes_of a) <> 0) by (unfold zlength; by destruct (nodes_of a)).
  unfold avtab_image in Hd. rewrite <- app_assoc in Hd. unfold avtab_read.
  rewrite (next_entry_app fp _ _ 4 Hfp Hd) by (by rewrite zlength_words32).
  change (0 <? 0) with false; cbv iota beta zeta.
  rewrite <- (app_nil_r (words32 _)), (word32_words32 [av_nel a] 0 (av_nel a))
    by (done || (unfold in_range; lia)).
  assert (zero_or_saturated 32 (av_nel a) = false) as -> by (unfold zero_or_saturated; lia).
  match goal with |- context [exceeds_available_bytes ?f ?n 12] =>
    assert (exceeds_available_bytes f n 12 = false) as -> end.
  { unfold exceeds_available_bytes; simpl. rewrite zlength_app. pose proof (zlength_nonneg rest). repeat case_match; lia. }
  cbn [orb]. unfold avtab_alloc at 1. destruct (Z.eqb_spec (av_nel a) 0); [lia|].
  destruct (malloc o) as [ok o1] eqn:E. destruct (malloc_mem_ok _ _ _ E M) as [-> M1]. cbn [negb].
  assert (Ea : avtab_alloc a0 (av_nel a) o = (0, mk_avtab (Some (replicate (Z.to_nat (avtab_nslot (av_nel a))) []))
     0 (avtab_nslot (av_nel a)) (avtab_nslot (av_nel a) - 1), o1)).
  { unfold avtab_alloc. rewrite E. by destruct (Z.eqb_spec (av_nel a) 0); [lia|]. }
  apply avtab_alloc_post in Ea as (Hok1 & Hnil & _); [|lia]. cbn [ctrue Z.eqb negb].
  match goal with |- context [read_items _ _ ?f _ _ (?t, ?o)] =>
    destruct (read_items_image (nodes_of a) f vers compat (t, o) rest) as ([a' o'] & Hr & Hok' & M' & Hp) end;
    try done; simpl in *; rewrite ?Hnil; try done.
  { change (zlength []) with 0. lia. }
  replace (Z.to_nat (av_nel a)) with (length (nodes_of a)) by (rewrite Hc; unfold zlength; lia).
  rewrite Hr. cbn [ctrue Z.eqb negb].
  exists a', o'. split; [done|]. split; [done|]. split; [done|]. by rewrite Hp, Hnil, app_nil_r.
Qed.

(** C27: writing a table that is not empty, has no duplicates and only rules the
    format can express into a memory image or a stream with room and reading
    it back, for a SELinux policy since version 20, in the standard and in the
    Android 6.0 format, gives, if memory lasts, a well-formed table with the
    same rules, and leaves the reader just behind the table, whatever follows. *)
Theorem avtab_roundtrip p compat a a0 fp rest o :
  avtab_ok a -> nodes_of a <> [] -> av_nel a < 2 ^ 32 - 1 -> no_duplicates [] (nodes_of a) ->
  Forall (item_writable (policyvers p) compat) (nodes_of a) -> compat = 0 \/ compat = 1 ->
  POLICYDB_VERSION_AVTAB <= policyvers p -> target_platform p = SEPOL_TARGET_SELINUX ->
  pf_ty fp <> PF_LEN -> pf_out fp = [] -> mem_ok o -> room fp (zlength (avtab_image compat a)) ->
  let '(rc, out) := avtab_write p compat a fp in
  rc = 0 /\
  exists a' o', avtab_read a0 (mem_file (pf_out out ++ rest)) (policyvers p) compat o =
      (0, a', mem_file rest, compat, o') /\
    avtab_ok a' /\ nodes_of a' ≡ₚ nodes_of a.
Proof.
  intros Hok Hne Hnel Hnd Hall Hcp Hv Htp Hty Hout M Hlen. rewrite avtab_write_image by done. split; [done|]. rewrite wrote_out by done.
  destruct (avtab_read_image (policyvers p) compat a a0 (mem_file (pf_out fp ++ avtab_image compat a ++ rest)) rest o)
    as (a' & o' & E & _ & H); try done; [by rewrite Hout|]. rewrite <- app_assoc. exists a', o'. by rewrite E.
Qed.

(** ** Instances *)

Definition sample_image : list Z := Eval vm_compute in avtab_image 0 sample_avtab.

Lemma avtab_read_witness :
  let '(rc, a', _, _, _) := avtab_read (mk_avtab None 0 0 0) (mem_file sample_image) 30 0 [] in
  (rc = 0 /\ avtab_ok a' /\ Forall node_item_ok (nodes_of a') /\
     zlength (nodes_of a') = word32 (pf_data (mem_file sample_image)) 0) \/
  (rc = -1 /\ av_htable a' = None).
Proof. apply (avtab_read_sound (mk_avtab None 0 0 0) (mem_file sample_image) 30 0 []); concrete. Defined.

(** One concrete rule. *)
Ltac sample_item :=
  split;
  [ unfold node_item_ok, item_ok; do 4 (split; [concrete|]); do 2 (split; [by vm_compute|]);
    hnf; split; [concrete|]; first [reflexivity | eexists; split; [reflexivity|concrete]]
  | first [by (intros []; vm_compute) | intros _; concrete] ].

Lemma sample_writable : Forall (item_writable 30 0) (nodes_of sample_avtab).
Proof.
  let l := eval vm_compute in (nodes_of sample_avtab) in change (nodes_of sample_avtab) with l.
  do 4 (apply Forall_cons; split; [sample_item|]). apply Forall_nil_2.
Qed.

Lemma avtab_roundtrip_witness :
  let fp := mk_policy_file PF_USE_MEMORY [] 1000 [] [] in
  let '(rc, out) := avtab_write (mk_write_params 30 SEPOL_TARGET_SELINUX) 0 sample_avtab fp in
  rc = 0 /\
  exists a' o', avtab_read (mk_avtab None 0 0 0) (mem_file (pf_out out ++ [1; 2])) 30 0 [] = (0, a', mem_file [1; 2], 0, o') /\
    avtab_ok a' /\ nodes_of a' ≡ₚ nodes_of sample_avtab.
Proof.
  apply (avtab_roundtrip (mk_write_params 30 SEPOL_TARGET_SELINUX) 0 sample_avtab (mk_avtab None 0 0 0)
           (mk_policy_file PF_USE_MEMORY [] 1000 [] []) [1; 2] []).
  - concrete.
  - by vm_compute.
  - by vm_compute.
  - by (vm_compute; repeat split).
  - apply sample_writable.
  - by left.
  - by vm_compute.
  - reflexivity.
  - discriminate.
  - reflexivity.
  - apply Forall_nil_2.
  - concrete.
Defined.
