(* ===== verification/Cond.v ===== *)
(** * Cond: conditional policy

    Model of libsepol/src/conditional.c: conditional expressions in reverse
    polish notation, their evaluation on a stack of fixed size, the truth
    table ([expr_pre_comp]) by which expressions are compared and merged, and
    the switching of the rules of the two branches of a conditional.

    Pointers that may be null or dangling are checked: [None] is a fault.
    - [p->bool_val_to_struct] is a list of optional structs, a null entry
      being [None]; the structs are reached through this array only.
    - The nodes of [te_cond_avtab] are a store, a list of nodes; the lists of
      rules of a conditional hold positions in it, which are the pointers
      [cur->node].
    - The lists of [avrule_t], used for modules, are only swapped by this
      file; they are kept as the addresses of their heads. *)
From Stdlib Require Import ZArith Lia Bool.
From stdpp Require Import base option list list_numbers.
From S2P Require Import Prelude PolicyFile Mem Avtab.

(** ** Data (conditional.h) *)

Definition COND_EXPR_MAXDEPTH : Z := 10.
Definition COND_MAX_BOOLS : Z := 5.
Definition COND_BOOL : Z := 1.
Definition COND_NOT : Z := 2.
Definition COND_OR : Z := 3.
Definition COND_AND : Z := 4.
Definition COND_XOR : Z := 5.
Definition COND_EQ : Z := 6.
Definition COND_NEQ : Z := 7.
Definition COND_LAST : Z := COND_NEQ.

Record cond_bool_datum := mk_cond_bool_datum { bool_value : Z; bool_state : Z; bool_flags : Z }.

Record cond_expr := mk_cond_expr { expr_type : Z; boolean : Z }.

Record cond_node := mk_cond_node {
  cur_state : Z;
  expr : list cond_expr;
  true_list : list nat;
  false_list : list nat;
  avtrue_list : Z;
  avfalse_list : Z;
  nbools : Z;
  bool_ids : list Z;
  expr_pre_comp : Z;
  cn_flags : Z
}.

#[global] Instance cond_expr_eq_dec : EqDecision cond_expr.
Proof. solve_decision. Defined.
#[global] Instance cond_bool_datum_eq_dec : EqDecision cond_bool_datum.
Proof. solve_decision. Defined.
#[global] Instance cond_node_eq_dec : EqDecision cond_node.
Proof. solve_decision. Defined.

Abbreviation bools := (list (option cond_bool_datum)).

(** The fields of [policydb_t] this file works on. *)
Record cond_policydb := mk_cond_policydb {
  bool_val_to_struct : bools;
  cond_rules : list avtab_node;
  cond_list : list cond_node
}.

(** [p->bool_val_to_struct[b - 1]], with the subtraction on 32 bits. *)
Definition bool_struct (bs : bools) (b : Z) : option cond_bool_datum :=
  mjoin (bs !! Z.to_nat (u32 (b - 1))).

(** [p->bool_val_to_struct[b - 1]->state = v]. *)
Definition set_bool_state (bs : bools) (b v : Z) : option bools :=
  d ← bool_struct bs b;
  Some (<[Z.to_nat (u32 (b - 1)) := Some (mk_cond_bool_datum (bool_value d) v (bool_flags d))]> bs).

(** ** Evaluation *)

(** The outcome of a step of [cond_evaluate_expr]: a return value, or the
    stack and its pointer. *)
Abbreviation eval_state := (Z + list Z * Z)%type.

Definition eval_binary (f : Z -> Z -> Z) (s : list Z) (sp : Z) : option eval_state :=
  if sp <? 1 then Some (inl (-1)) else
  let sp := sp - 1 in
  x ← rd s sp; y ← rd s (sp + 1); s ← wr s sp (f x y); Some (inr (s, sp)).

(** One turn of the loop of [cond_evaluate_expr]. *)
Definition eval_step (bs : bools) (s : list Z) (sp : Z) (cur : cond_expr) : option eval_state :=
  let t := expr_type cur in
  if t =? COND_BOOL then
    if sp =? COND_EXPR_MAXDEPTH - 1 then Some (inl (-1)) else
    let sp := sp + 1 in
    d ← bool_struct bs (boolean cur); s ← wr s sp (bool_state d); Some (inr (s, sp))
  else if t =? COND_NOT then
    if sp <? 0 then Some (inl (-1)) else
    x ← rd s sp; s ← wr s sp (c_of_bool (x =? 0)); Some (inr (s, sp))
  else if t =? COND_OR then eval_binary Z.lor s sp
  else if t =? COND_AND then eval_binary Z.land s sp
  else if t =? COND_XOR then eval_binary Z.lxor s sp
  else if t =? COND_EQ then eval_binary (fun x y => c_of_bool (x =? y)) s sp
  else if t =? COND_NEQ then eval_binary (fun x y => c_of_bool (negb (x =? y))) s sp
  else Some (inl (-1)).

Fixpoint eval_loop (bs : bools) (s : list Z) (sp : Z) (cur : list cond_expr) : option eval_state :=
  match cur with
  | [] => Some (inr (s, sp))
  | e :: cur =>
      st ← eval_step bs s sp e;
      match st with
      | inl rc => Some (inl rc)
      | inr (s, sp) => eval_loop bs s sp cur
      end
  end.

(** [cond_evaluate_expr] when the uninitialised part of its stack holds [junk]. *)
Definition cond_evaluate_expr_on (junk : list Z) (bs : bools) (e : list cond_expr) : option Z :=
  st ← eval_loop bs (-1 :: junk) (-1) e;
  match st with
  | inl rc => Some rc
  | inr (s, _) => rd s 0
  end.

Definition cond_evaluate_expr (bs : bools) (e : list cond_expr) : option Z :=
  cond_evaluate_expr_on (replicate 9 0) bs e.

(** ** Comparison *)

(** The search loop of [bool_present] over [bools[i..num_bools)]. *)
Fixpoint present_loop (n : nat) (target : Z) (ids : list Z) (i : Z) : option bool :=
  match n with
  | O => Some false
  | S n => x ← rd ids i; if target =? x then Some true else present_loop n target ids (i + 1)
  end.

Definition bool_present (target : Z) (ids : list Z) (num_bools : Z) : option bool :=
  if COND_MAX_BOOLS <? num_bools then Some false
  else present_loop (Z.to_nat num_bools) target ids 0.

Fixpoint same_bools_loop (n : nat) (a b : cond_node) (i : Z) : option bool :=
  match n with
  | O => Some true
  | S n =>
      x ← rd (bool_ids a) i;
      here ← bool_present x (bool_ids b) (nbools a);
      if (here : bool) then same_bools_loop n a b (i + 1) else Some false
  end.

Definition same_bools (a b : cond_node) : option bool :=
  if negb (nbools a =? nbools b) then Some false
  else same_bools_loop (Z.to_nat (nbools a)) a b 0.

Fixpoint expr_list_equal (cur_a cur_b : list cond_expr) : bool :=
  match cur_a, cur_b with
  | [], [] => true
  | [], _ | _, [] => false
  | x :: cur_a, y :: cur_b =>
      if negb (expr_type x =? expr_type y) then false
      else if (expr_type x =? COND_BOOL) && negb (boolean x =? boolean y) then false
      else expr_list_equal cur_a cur_b
  end.

(** [a] and [b] are not null. *)
Definition cond_expr_equal (a b : cond_node) : option bool :=
  if negb (nbools a =? nbools b) then Some false
  else if (nbools a <=? COND_MAX_BOOLS) && (nbools b <=? COND_MAX_BOOLS) then
    same ← same_bools a b;
    Some (if negb same then false else expr_pre_comp a =? expr_pre_comp b)
  else Some (expr_list_equal (expr a) (expr b)).

(** ** Creation and search of conditional nodes *)

(** A null pointer, also the result of a failed allocation, is []. *)
Fixpoint copy_loop (cur : list cond_expr) (o : oracle) : option (list cond_expr) * oracle :=
  match cur with
  | [] => (Some [], o)
  | e :: cur =>
      let '(ok, o) := malloc o in
      if negb ok then (None, o) else
      let '(tail, o) := copy_loop cur o in
      (cons (mk_cond_expr (expr_type e) (boolean e)) <$> tail, o)
  end.

Definition cond_copy_expr (e : list cond_expr) (o : oracle) : list cond_expr * oracle :=
  let '(r, o) := copy_loop e o in (default [] r, o).

Definition zero_ids : list Z := replicate 5 0.
Definition empty_cond_node : cond_node := mk_cond_node 0 [] [] [] 0 0 0 zero_ids 0 0.

(** A fault, or the new node (or a null pointer) and the allocator. *)
Definition cond_node_create (bs : bools) (node : option cond_node) (o : oracle) :
    option (option cond_node * oracle) :=
  let '(ok, o) := malloc o in
  if negb ok then Some (None, o) else
  match node with
  | None => Some (Some empty_cond_node, o)
  | Some node =>
      let '(e, o) := cond_copy_expr (expr node) o in
      if bool_decide (e = []) then Some (None, o) else
      state ← cond_evaluate_expr bs e;
      let n := Z.to_nat (Z.min (nbools node) COND_MAX_BOOLS) in
      Some (Some (mk_cond_node state e [] [] 0 0 (nbools node)
                    (take n (bool_ids node) ++ drop n zero_ids)
                    (expr_pre_comp node) (cn_flags node)), o)
  end.

(** The node [cond_node_find] returns: one of the list, by its position, or a
    created one. *)
Inductive found_node := Existing (i : nat) | Created (n : option cond_node).

Fixpoint cond_node_find (bs : bools) (needle : cond_node) (haystack : list cond_node) (i : nat) (o : oracle) :
    option (found_node * oracle) :=
  match haystack with
  | [] => '(n, o) ← cond_node_create bs (Some needle) o; Some (Created n, o)
  | h :: haystack =>
      eq ← cond_expr_equal needle h;
      if (eq : bool) then Some (Existing i, o) else cond_node_find bs needle haystack (S i) o
  end.

(** Searching the list of the policy itself. *)
Definition cond_node_search (p : cond_policydb) (cn : cond_node) (o : oracle) :
    option (found_node * cond_policydb * oracle) :=
  '(r, o) ← cond_node_find (bool_val_to_struct p) cn (cond_list p) 0 o;
  match r with
  | Created (Some n) =>
      Some (r, mk_cond_policydb (bool_val_to_struct p) (cond_rules p) (n :: cond_list p), o)
  | _ => Some (r, p, o)
  end.

(** ** Normalization *)

(** The state of [cond_normalize_expr] that its loop over the bools changes:
    [cn->bool_ids] and [cn->nbools]. *)
Fixpoint find_bools (e : list cond_expr) (ids : list Z) (n : Z) : option (list Z * Z) :=
  match e with
  | [] => Some (ids, n)
  | x :: e =>
      if expr_type x =? COND_BOOL then
        seen ← bool_present (boolean x) ids n;
        if negb (seen : bool) then
          if n <? COND_MAX_BOOLS then
            ids ← wr ids n (boolean x); find_bools e ids (u32 (n + 1))
          else find_bools e ids (u32 (n + 1))
        else find_bools e ids n
      else find_bools e ids n
  end.

(** The values of the bools [ids[i..i+n)]. *)
Fixpoint save_bools (n : nat) (bs : bools) (ids : list Z) (i : Z) : option (list Z) :=
  match n with
  | O => Some []
  | S n =>
      b ← rd ids i; d ← bool_struct bs b;
      vs ← save_bools n bs ids (i + 1); Some (bool_state d :: vs)
  end.

(** [state = vals[i]] for the bools [ids[i..)]. *)
Fixpoint restore_bools (vals : list Z) (bs : bools) (ids : list Z) (i : Z) : option bools :=
  match vals with
  | [] => Some bs
  | v :: vals => b ← rd ids i; bs ← set_bool_state bs b v; restore_bools vals bs ids (i + 1)
  end.

(** [state = (test & (1 << j)) ? 1 : 0] for the bools [ids[j..j+n)]. *)
Fixpoint assign_test (n : nat) (bs : bools) (ids : list Z) (test j : Z) : option bools :=
  match n with
  | O => Some bs
  | S n =>
      b ← rd ids j;
      bs ← set_bool_state bs b (c_of_bool (ctrue (Z.land test (Z.shiftl 1 j))));
      assign_test n bs ids test (j + 1)
  end.

(** The loop over all combinations from [test] on; the flag is false when the
    function returned -1. *)
Fixpoint precomp_loop (n : nat) (bs : bools) (e : list cond_expr) (ids : list Z) (nb test pre : Z) :
    option (bool * bools * Z) :=
  match n with
  | O => Some (true, bs, pre)
  | S n =>
      bs ← assign_test (Z.to_nat nb) bs ids test 0;
      k ← cond_evaluate_expr bs e;
      if k =? -1 then Some (false, bs, pre) else
      let pre := if ctrue k then Z.lor pre (u32 (Z.shiftl 1 test)) else pre in
      precomp_loop n bs e ids nb (test + 1) pre
  end.

(** The "!expr" case: the last element of the expression is dropped and the
    branches are swapped; [inl] is the return of -1. *)
Definition strip_not (cn : cond_node) : option (cond_node + cond_node) :=
  e ← last (expr cn);
  if expr_type e =? COND_NOT then
    if bool_decide (length (expr cn) = 1%nat) then Some (inl cn)
    else Some (inr (mk_cond_node (cur_state cn) (removelast (expr cn)) (false_list cn) (true_list cn)
                      (avfalse_list cn) (avtrue_list cn) (nbools cn) (bool_ids cn)
                      (expr_pre_comp cn) (cn_flags cn)))
  else Some (inr cn).

Definition set_precomp (cn : cond_node) (n : Z) (ids : list Z) (pre : Z) : cond_node :=
  mk_cond_node (cur_state cn) (expr cn) (true_list cn) (false_list cn) (avtrue_list cn) (avfalse_list cn)
    n ids pre (cn_flags cn).

Definition cond_normalize_expr (bs : bools) (cn : cond_node) : option (Z * bools * cond_node) :=
  st ← strip_not (set_precomp cn 0 zero_ids 0);
  match st with
  | inl cn => Some (-1, bs, cn)
  | inr cn =>
      '(ids, n) ← find_bools (expr cn) (bool_ids cn) (nbools cn);
      let cn := set_precomp cn n ids 0 in
      if n <=? COND_MAX_BOOLS then
        orig ← save_bools (Z.to_nat n) bs ids 0;
        '(ok, bs, pre) ← precomp_loop (Z.to_nat (2 ^ n)) bs (expr cn) ids n 0 0;
        let cn := set_precomp cn n ids pre in
        if negb ok then Some (-1, bs, cn) else
        bs ← restore_bools orig bs ids 0;
        Some (0, bs, cn)
      else Some (0, bs, cn)
  end.

(** ** Switching rules *)

(** [key.specified |= AVTAB_ENABLED], or [&= ~AVTAB_ENABLED], in a [uint16_t]. *)
Definition set_enabled (on : bool) (n : avtab_node) : avtab_node :=
  let k := key n in
  let spec := if on then u16 (Z.lor (specified k) AVTAB_ENABLED)
              else u16 (Z.land (specified k) (lnot_w 32 AVTAB_ENABLED)) in
  mk_avtab_node (mk_avtab_key (source_type k) (target_type k) (target_class k) spec) (datum n).

Fixpoint switch_rules (on : bool) (l : list nat) (rules : list avtab_node) : option (list avtab_node) :=
  match l with
  | [] => Some rules
  | p :: l => n ← rules !! p; switch_rules on l (<[p := set_enabled on n]> rules)
  end.

Definition set_state (cn : cond_node) (st : Z) : cond_node :=
  mk_cond_node st (expr cn) (true_list cn) (false_list cn) (avtrue_list cn) (avfalse_list cn)
    (nbools cn) (bool_ids cn) (expr_pre_comp cn) (cn_flags cn).

Definition evaluate_cond_node (bs : bools) (rules : list avtab_node) (node : cond_node) :
    option (list avtab_node * cond_node) :=
  new_state ← cond_evaluate_expr bs (expr node);
  if negb (new_state =? cur_state node) then
    rules ← switch_rules (negb (new_state <=? 0)) (true_list node) rules;
    rules ← switch_rules (negb (ctrue new_state)) (false_list node) rules;
    Some (rules, set_state node new_state)
  else Some (rules, node).

Fixpoint evaluate_loop (bs : bools) (rules : list avtab_node) (l : list cond_node) :
    option (list avtab_node * list cond_node) :=
  match l with
  | [] => Some (rules, [])
  | cur :: l =>
      '(rules, cur) ← evaluate_cond_node bs rules cur;
      '(rules, l) ← evaluate_loop bs rules l;
      Some (rules, cur :: l)
  end.

Definition evaluate_conds (p : cond_policydb) : option cond_policydb :=
  '(rules, l) ← evaluate_loop (bool_val_to_struct p) (cond_rules p) (cond_list p);
  Some (mk_cond_policydb (bool_val_to_struct p) rules l).

(** ** Order of the rules and searches *)

(** The loop of [cond_optimize]: [front] is the list from [top] up to [p],
    [cur] the rest; a type rule that is not at the top is moved there. *)
Fixpoint optimize_loop (rules : list avtab_node) (front cur : list nat) : option (list nat) :=
  match cur with
  | [] => Some front
  | x :: cur =>
      n ← rules !! x;
      if ctrue (Z.land (specified (key n)) AVTAB_TYPE) && negb (bool_decide (front = []))
      then optimize_loop rules (x :: front) cur
      else optimize_loop rules (front ++ [x]) cur
  end.

Definition cond_optimize (rules : list avtab_node) (l : list nat) : option (list nat) :=
  optimize_loop rules [] l.

Fixpoint cond_optimize_lists (rules : list avtab_node) (cl : list cond_node) : option (list cond_node) :=
  match cl with
  | [] => Some []
  | n :: cl =>
      t ← cond_optimize rules (true_list n);
      f ← cond_optimize rules (false_list n);
      cl ← cond_optimize_lists rules cl;
      Some (mk_cond_node (cur_state n) (expr n) t f (avtrue_list n) (avfalse_list n)
              (nbools n) (bool_ids n) (expr_pre_comp n) (cn_flags n) :: cl)
  end.

Fixpoint cond_av_list_search (rules : list avtab_node) (k : avtab_key) (l : list nat) :
    option (option avtab_datum) :=
  match l with
  | [] => Some None
  | x :: l =>
      n ← rules !! x;
      if (source_type (key n) =? source_type k) && (target_type (key n) =? target_type k) &&
         (target_class (key n) =? target_class k)
      then Some (Some (datum n)) else cond_av_list_search rules k l
  end.

(** ** The decision of the conditional rules *)

Record sepol_av_decision := mk_av_decision {
  allowed : Z;
  decided : Z;
  auditallow : Z;
  auditdeny : Z;
  seqno : Z
}.

(** All of [flag | AVTAB_ENABLED] is set. *)
Definition enabled_with (flag : Z) (n : avtab_node) : bool :=
  Z.lor flag AVTAB_ENABLED =? Z.land (specified (key n)) (Z.lor flag AVTAB_ENABLED).

(** The body of the loop of [cond_compute_av]. *)
Definition compute_node (avd : sepol_av_decision) (n : avtab_node) : sepol_av_decision :=
  let d := data (datum n) in
  let avd := if enabled_with AVTAB_ALLOWED n then
               mk_av_decision (Z.lor (allowed avd) d) (decided avd) (auditallow avd) (auditdeny avd) (seqno avd)
             else avd in
  let avd := if enabled_with AVTAB_AUDITDENY n then
               mk_av_decision (allowed avd) (decided avd) (auditallow avd) (Z.land (auditdeny avd) d) (seqno avd)
             else avd in
  if enabled_with AVTAB_AUDITALLOW n then
    mk_av_decision (allowed avd) (decided avd) (Z.lor (auditallow avd) d) (auditdeny avd) (seqno avd)
  else avd.

(** The loop of [cond_compute_av]; one unit of fuel per node visited. *)
Fixpoint compute_loop (fuel : nat) (node : option (avtab_node * list avtab_node)) (spec : Z)
    (avd : sepol_av_decision) : option sepol_av_decision :=
  match node with
  | None => Some avd
  | Some (n, _) =>
      match fuel with
      | O => None
      | S fuel => compute_loop fuel (avtab_search_node_next node spec) spec (compute_node avd n)
      end
  end.

(** No argument is null. *)
Definition cond_compute_av (fuel : nat) (ctab : avtab) (k : avtab_key) (avd : sepol_av_decision) :
    option sepol_av_decision :=
  compute_loop fuel (avtab_search_node ctab k) (specified k) avd.

(** ** Reading: the checks and the index of the booleans *)

Definition expr_isvalid (nprim : Z) (e : cond_expr) : bool :=
  if (expr_type e <=? 0) || (COND_LAST <? expr_type e) then false
  else if nprim <? boolean e then false
  else true.

Definition bool_isvalid (b : cond_bool_datum) : bool :=
  if negb ((bool_state b =? 0) || (bool_state b =? 1)) then false else true.

Definition cond_init_bool_indexes (nprim : Z) (o : oracle) : option bools * oracle :=
  let '(ok, o) := malloc o in
  (if negb ok then None else Some (replicate (Z.to_nat nprim) None), o).

(** [cond_index_bool] on the two arrays of the policy; a key is its name. *)
Definition cond_index_bool {K : Type} (nprim : Z) (k : K) (d : cond_bool_datum)
    (names : list (option K)) (bs : bools) : option (Z * list (option K) * bools) :=
  if negb (ctrue (bool_value d)) || (nprim <? bool_value d) then Some (- EINVAL, names, bs) else
  let i := Z.to_nat (bool_value d - 1) in
  old ← names !! i;
  match old with
  | Some _ => Some (- EINVAL, names, bs)
  | None =>
      _ ← bs !! i;
      Some (0, <[i := Some k]> names, <[i := Some d]> bs)
  end.
