(* ===== verification/CondEval.v ===== *)
(** * CondEval: evaluation of conditional expressions

    The stack machine of [cond_evaluate_expr] against the meaning of boolean
    expressions: a postfix form evaluates to the value of the expression it
    stands for when the expression needs at most COND_EXPR_MAXDEPTH stack
    cells, and is undefined (-1) when it needs more; and on any list whatever
    of valid elements the machine stays inside its stack. *)
From Stdlib Require Import ZArith Lia Bool.
From stdpp Require Import base option list list_numbers.
From S2P Require Import Prelude PolicyFile Mem Avtab Cond.

(** ** Boolean expressions and their postfix forms *)

Inductive bop := BOr | BAnd | BXor | BEq | BNeq.

Inductive bexp :=
  | BVar (b : Z)
  | BNot (e : bexp)
  | BBin (op : bop) (e1 e2 : bexp).

Definition bop_type (op : bop) : Z :=
  match op with BOr => COND_OR | BAnd => COND_AND | BXor => COND_XOR | BEq => COND_EQ | BNeq => COND_NEQ end.

Definition bop_fun (op : bop) : bool -> bool -> bool :=
  match op with BOr => orb | BAnd => andb | BXor => xorb | BEq => Bool.eqb | BNeq => xorb end.

Fixpoint beval (rho : Z -> bool) (e : bexp) : bool :=
  match e with
  | BVar b => rho b
  | BNot e => negb (beval rho e)
  | BBin op e1 e2 => bop_fun op (beval rho e1) (beval rho e2)
  end.

(** The postfix forms of an expression; the [boolean] field of an operator
    is not used. *)
Inductive rpn : bexp -> list cond_expr -> Prop :=
  | rpn_var b : rpn (BVar b) [mk_cond_expr COND_BOOL b]
  | rpn_not e l x : rpn e l -> rpn (BNot e) (l ++ [mk_cond_expr COND_NOT x])
  | rpn_bin op e1 e2 l1 l2 x :
      rpn e1 l1 -> rpn e2 l2 -> rpn (BBin op e1 e2) (l1 ++ l2 ++ [mk_cond_expr (bop_type op) x]).

(** The stack cells an expression needs. *)
Fixpoint depth (e : bexp) : Z :=
  match e with
  | BVar _ => 1
  | BNot e => depth e
  | BBin _ e1 e2 => Z.max (depth e1) (1 + depth e2)
  end.

Fixpoint bvars (e : bexp) : list Z :=
  match e with
  | BVar b => [b]
  | BNot e => bvars e
  | BBin _ e1 e2 => bvars e1 ++ bvars e2
  end.

(** The valuation the policy holds, and the booleans it defines. *)
Definition rho_of (bs : bools) (b : Z) : bool :=
  match bool_struct bs b with Some d => ctrue (bool_state d) | None => false end.

Definition bool_ready (bs : bools) (b : Z) : Prop :=
  exists d, bool_struct bs b = Some d /\ (bool_state d = 0 \/ bool_state d = 1).

Lemma bool_ready_state bs b :
  bool_ready bs b -> exists d, bool_struct bs b = Some d /\ bool_state d = c_of_bool (rho_of bs b).
Proof.
  intros (d & Hd & H). exists d. split; [done|]. unfold rho_of. rewrite Hd. by destruct H as [-> | ->].
Qed.

Lemma depth_pos e : 1 <= depth e.
Proof. induction e; simpl; lia. Qed.

(** ** Steps of the machine *)

Lemma rd_wr_same s i v s' : wr s i v = Some s' -> rd s' i = Some v.
Proof. intros H. by rewrite (rd_wr _ _ _ _ _ H), Z.eqb_refl. Qed.

Lemma rd_wr_other s i v s' j : wr s i v = Some s' -> j <> i -> rd s' j = rd s j.
Proof. intros H Hj. rewrite (rd_wr _ _ _ _ _ H). by destruct (Z.eqb_spec j i). Qed.

Lemma step_bool bs s sp x b d :
  x = mk_cond_expr COND_BOOL b -> bool_struct bs b = Some d ->
  -1 <= sp < COND_EXPR_MAXDEPTH - 1 -> zlength s = COND_EXPR_MAXDEPTH ->
  exists s', eval_step bs s sp x = Some (inr (s', sp + 1)) /\ wr s (sp + 1) (bool_state d) = Some s'.
Proof.
  intros -> Hd Hsp Hs. eexists. unfold eval_step. cbn [expr_type boolean].
  replace (COND_BOOL =? COND_BOOL) with true by done.
  destruct (Z.eqb_spec sp (COND_EXPR_MAXDEPTH - 1)); [lia|].
  rewrite Hd. cbn [mbind option_bind]. rewrite wr_ok by lia. done.
Qed.

Lemma step_not bs s sp x v :
  0 <= sp -> rd s sp = Some v ->
  exists s', eval_step bs s sp (mk_cond_expr COND_NOT x) = Some (inr (s', sp)) /\
    wr s sp (c_of_bool (v =? 0)) = Some s'.
Proof.
  intros Hsp Hv. eexists. unfold eval_step. cbn [expr_type boolean].
  replace (COND_NOT =? COND_BOOL) with false by done. replace (COND_NOT =? COND_NOT) with true by done.
  destruct (Z.ltb_spec sp 0); [lia|]. rewrite Hv. cbn [mbind option_bind].
  rewrite wr_ok by by eapply rd_some. done.
Qed.

(** The integer operation of a binary operator. *)
Definition bop_int (op : bop) : Z -> Z -> Z :=
  match op with
  | BOr => Z.lor | BAnd => Z.land | BXor => Z.lxor
  | BEq => fun x y => c_of_bool (x =? y)
  | BNeq => fun x y => c_of_bool (negb (x =? y))
  end.

Lemma bop_int_fun op u v : bop_int op (c_of_bool u) (c_of_bool v) = c_of_bool (bop_fun op u v).
Proof. by destruct op, u, v. Qed.

Lemma step_bin_eq bs s sp op x :
  eval_step bs s sp (mk_cond_expr (bop_type op) x) = eval_binary (bop_int op) s sp.
Proof. by destruct op. Qed.

Lemma step_bin bs s sp op x u v :
  1 <= sp -> rd s (sp - 1) = Some u -> rd s sp = Some v ->
  exists s', eval_step bs s sp (mk_cond_expr (bop_type op) x) = Some (inr (s', sp - 1)) /\
    wr s (sp - 1) (bop_int op u v) = Some s'.
Proof.
  intros Hsp Hu Hv. eexists. rewrite step_bin_eq. unfold eval_binary.
  destruct (Z.ltb_spec sp 1); [lia|]. cbv zeta. rewrite Hu. cbn [mbind option_bind].
  replace (sp - 1 + 1) with sp by lia. rewrite Hv. cbn [mbind option_bind].
  rewrite wr_ok by by eapply rd_some. done.
Qed.

Lemma eval_loop_cons bs s sp e l s' sp' :
  eval_step bs s sp e = Some (inr (s', sp')) -> eval_loop bs s sp (e :: l) = eval_loop bs s' sp' l.
Proof. intros H. cbn [eval_loop]. by rewrite H. Qed.

(** ** The machine computes the value *)

(** Running a postfix form pushes the value of its expression and keeps the
    cells below. *)
Definition pushes (bs : bools) (s : list Z) (sp : Z) (l rest : list cond_expr) (v : Z) : Prop :=
  exists s', eval_loop bs s sp (l ++ rest) = eval_loop bs s' (sp + 1) rest /\
    zlength s' = COND_EXPR_MAXDEPTH /\ rd s' (sp + 1) = Some v /\
    forall i, i <= sp -> rd s' i = rd s i.

Lemma rpn_pushes bs e l :
  rpn e l -> Forall (bool_ready bs) (bvars e) -> forall s sp rest,
  -1 <= sp -> zlength s = COND_EXPR_MAXDEPTH -> sp + depth e < COND_EXPR_MAXDEPTH ->
  pushes bs s sp l rest (c_of_bool (beval (rho_of bs) e)).
Proof.
  induction 1 as [b|e l x _ IH|op e1 e2 l1 l2 x _ IH1 _ IH2]; intros Hv s sp rest Hsp Hs Hd; simpl in Hv, Hd.
  - apply Forall_singleton, bool_ready_state in Hv as (d & Hb & Hst).
    destruct (step_bool bs s sp _ b d eq_refl Hb) as (s' & Hstep & Hw); [lia|done|].
    exists s'. simpl app. rewrite (eval_loop_cons _ _ _ _ _ _ _ Hstep). split_and!; [done| | |].
    + by rewrite (wr_length _ _ _ _ Hw).
    + by rewrite (rd_wr_same _ _ _ _ Hw), Hst.
    + intros i Hi. apply (rd_wr_other _ _ _ _ _ Hw). lia.
  - destruct (IH Hv s sp (mk_cond_expr COND_NOT x :: rest) Hsp Hs Hd) as (s1 & E & Hs1 & Htop & Hlow).
    destruct (step_not bs s1 (sp + 1) x _ ltac:(lia) Htop) as (s' & Hstep & Hw).
    exists s'. rewrite <- app_assoc. simpl app. rewrite E, (eval_loop_cons _ _ _ _ _ _ _ Hstep). split_and!; [done| | |].
    + by rewrite (wr_length _ _ _ _ Hw).
    + rewrite (rd_wr_same _ _ _ _ Hw). simpl. by destruct (beval (rho_of bs) e).
    + intros i Hi. rewrite (rd_wr_other _ _ _ _ _ Hw) by lia. by apply Hlow.
  - apply Forall_app in Hv as [Hv1 Hv2]. pose proof (depth_pos e1). pose proof (depth_pos e2).
    destruct (IH1 Hv1 s sp (l2 ++ mk_cond_expr (bop_type op) x :: rest) Hsp Hs ltac:(lia)) as (s1 & E1 & Hs1 & Ht1 & Hl1).
    destruct (IH2 Hv2 s1 (sp + 1) (mk_cond_expr (bop_type op) x :: rest) ltac:(lia) Hs1 ltac:(lia)) as (s2 & E2 & Hs2 & Ht2 & Hl2).
    destruct (step_bin bs s2 (sp + 1 + 1) op x (c_of_bool (beval (rho_of bs) e1)) (c_of_bool (beval (rho_of bs) e2)) ltac:(lia)) as (s' & Hstep & Hw); [|exact Ht2|].
    { replace (sp + 1 + 1 - 1) with (sp + 1) by lia. by rewrite Hl2 by lia. }
    replace (sp + 1 + 1 - 1) with (sp + 1) in * by lia.
    exists s'. rewrite <- !app_assoc. simpl app. rewrite E1, E2, (eval_loop_cons _ _ _ _ _ _ _ Hstep). split_and!; [done| | |].
    + by rewrite (wr_length _ _ _ _ Hw).
    + by rewrite (rd_wr_same _ _ _ _ Hw), bop_int_fun.
    + intros i Hi. rewrite (rd_wr_other _ _ _ _ _ Hw), Hl2 by lia. by apply Hl1.
Qed.

(** An expression that needs too many cells stops the machine. *)
Lemma rpn_too_deep bs e l :
  rpn e l -> Forall (bool_ready bs) (bvars e) -> forall s sp rest,
  -1 <= sp < COND_EXPR_MAXDEPTH -> zlength s = COND_EXPR_MAXDEPTH -> COND_EXPR_MAXDEPTH <= sp + depth e ->
  eval_loop bs s sp (l ++ rest) = Some (inl (-1)).
Proof.
  induction 1 as [b|e l x _ IH|op e1 e2 l1 l2 x R1 IH1 _ IH2]; intros Hv s sp rest Hsp Hs Hd; simpl in Hv, Hd.
  - assert (sp = COND_EXPR_MAXDEPTH - 1) as -> by lia. done.
  - rewrite <- app_assoc. by apply IH.
  - apply Forall_app in Hv as [Hv1 Hv2]. rewrite <- !app_assoc.
    destruct (Z.le_gt_cases COND_EXPR_MAXDEPTH (sp + depth e1)) as [Hd1|Hd1]; [by apply IH1|].
    destruct (rpn_pushes bs e1 l1 R1 Hv1 s sp (l2 ++ [mk_cond_expr (bop_type op) x] ++ rest) ltac:(lia) Hs Hd1)
      as (s1 & E & Hs1 & _ & _).
    rewrite E. pose proof (depth_pos e1). apply IH2; [done|lia|done|lia].
Qed.

Lemma eval_junk junk : length junk = 9%nat -> zlength (-1 :: junk) = COND_EXPR_MAXDEPTH.
Proof. intros H. unfold zlength. simpl. by rewrite H. Qed.

Lemma evaluate_rpn bs e l :
  rpn e l -> Forall (bool_ready bs) (bvars e) ->
  cond_evaluate_expr bs l =
    Some (if depth e <=? COND_EXPR_MAXDEPTH then c_of_bool (beval (rho_of bs) e) else -1).
Proof.
  intros Hr Hv. unfold cond_evaluate_expr, cond_evaluate_expr_on. rewrite <- (app_nil_r l).
  destruct (Z.leb_spec (depth e) COND_EXPR_MAXDEPTH) as [Hd|Hd].
  - destruct (rpn_pushes bs e l Hr Hv (-1 :: replicate 9 0) (-1) [] ltac:(lia) eq_refl ltac:(lia)) as (s' & E & _ & Ht & _).
    rewrite E. exact Ht.
  - by rewrite (rpn_too_deep bs e l Hr Hv) by (done || lia).
Qed.

(** C32: The value of the expression for the booleans of the policy, or -1 when
    the expression needs more than COND_EXPR_MAXDEPTH stack cells: what
    [cond_evaluate_expr] returns for a postfix form. *)
Theorem cond_evaluate_expr_spec bs e l :
  rpn e l -> Forall (bool_ready bs) (bvars e) ->
  cond_evaluate_expr bs l =
    Some (if depth e <=? COND_EXPR_MAXDEPTH then c_of_bool (beval (rho_of bs) e) else -1).
Proof. apply evaluate_rpn. Qed.

(** ** Safety on any list *)

(** Every boolean operand names a boolean of the policy. *)
Definition operands_ok (bs : bools) (l : list cond_expr) : Prop :=
  Forall (fun x => expr_type x = COND_BOOL -> bool_ready bs (boolean x)) l.

(** Two stacks that agree on the cells in use, which hold truth values. *)
Record stacks_ok (sp : Z) (s s' : list Z) : Prop := {
  so_sp : -1 <= sp < COND_EXPR_MAXDEPTH;
  so_len : zlength s = COND_EXPR_MAXDEPTH;
  so_len' : zlength s' = COND_EXPR_MAXDEPTH;
  so_eq : forall i, 0 <= i <= sp -> rd s i = rd s' i;
  so_val : forall i, 0 <= i <= sp -> exists b, rd s i = Some (c_of_bool b);
  so_empty : sp = -1 -> rd s 0 = Some (-1) /\ rd s' 0 = Some (-1)
}.

Lemma stacks_write sp sp' s s' b s1 s1' :
  stacks_ok sp s s' -> 0 <= sp' < COND_EXPR_MAXDEPTH -> sp' <= sp + 1 ->
  wr s sp' (c_of_bool b) = Some s1 -> wr s' sp' (c_of_bool b) = Some s1' -> stacks_ok sp' s1 s1'.
Proof.
  intros H Hsp' Hle W W'. split.
  - lia.
  - rewrite (wr_length _ _ _ _ W). apply H.
  - rewrite (wr_length _ _ _ _ W'). apply H.
  - intros i Hi. rewrite (rd_wr _ _ _ i _ W), (rd_wr _ _ _ i _ W').
    destruct (Z.eqb_spec i sp'); [done|]. apply H. lia.
  - intros i Hi. rewrite (rd_wr _ _ _ i _ W). destruct (Z.eqb_spec i sp'); [by exists b|].
    apply H. lia.
  - lia.
Qed.

(** Both runs return the same value, or go on with stacks that agree. *)
Definition same_outcome (r r' : option eval_state) : Prop :=
  (r = Some (inl (-1)) /\ r' = Some (inl (-1))) \/
  (exists s s' sp, r = Some (inr (s, sp)) /\ r' = Some (inr (s', sp)) /\ stacks_ok sp s s').

Lemma binary_same op s s' sp : stacks_ok sp s s' ->
  same_outcome (eval_binary (bop_int op) s sp) (eval_binary (bop_int op) s' sp).
Proof.
  intros H. unfold eval_binary. destruct (Z.ltb_spec sp 1); [by left|]. right. cbv zeta.
  rewrite <- !(so_eq _ _ _ H) by lia.
  destruct (so_val _ _ _ H (sp - 1) ltac:(lia)) as [u ->].
  destruct (so_val _ _ _ H (sp - 1 + 1) ltac:(lia)) as [v ->]. cbn [mbind option_bind].
  rewrite bop_int_fun. pose proof (so_len _ _ _ H) as L. pose proof (so_len' _ _ _ H) as L'.
  pose proof (so_sp _ _ _ H).
  do 3 eexists. rewrite !wr_ok by lia. split_and!; [done..|].
  eapply (stacks_write sp); [done|lia|lia|apply wr_ok; lia|apply wr_ok; lia].
Qed.

Lemma step_same bs s s' sp x :
  stacks_ok sp s s' -> (expr_type x = COND_BOOL -> bool_ready bs (boolean x)) ->
  same_outcome (eval_step bs s sp x) (eval_step bs s' sp x).
Proof.
  intros H Hx. pose proof (so_len _ _ _ H) as L. pose proof (so_len' _ _ _ H) as L'.
  pose proof (so_sp _ _ _ H) as Hsp. unfold eval_step. cbv zeta.
  destruct (Z.eqb_spec (expr_type x) COND_BOOL) as [E|_].
  { destruct (Z.eqb_spec sp (COND_EXPR_MAXDEPTH - 1)); [by left|]. right.
    apply bool_ready_state in Hx as (d & -> & Hst); [|done]. cbn [mbind option_bind]. rewrite Hst.
    do 3 eexists. rewrite !wr_ok by lia. split_and!; [done..|].
    eapply (stacks_write sp); [done|lia|lia|apply wr_ok; lia|apply wr_ok; lia]. }
  destruct (Z.eqb_spec (expr_type x) COND_NOT) as [E|_].
  { destruct (Z.ltb_spec sp 0); [by left|]. right. rewrite <- (so_eq _ _ _ H) by lia.
    destruct (so_val _ _ _ H sp ltac:(lia)) as [u ->]. cbn [mbind option_bind].
    do 3 eexists. rewrite !wr_ok by lia. split_and!; [done..|].
    replace (c_of_bool (c_of_bool u =? 0)) with (c_of_bool (negb u)) by by destruct u.
    eapply (stacks_write sp); [done|lia|lia|apply wr_ok; lia|apply wr_ok; lia]. }
  destruct (Z.eqb_spec (expr_type x) COND_OR) as [_|_]; [by apply (binary_same BOr)|].
  destruct (Z.eqb_spec (expr_type x) COND_AND) as [_|_]; [by apply (binary_same BAnd)|].
  destruct (Z.eqb_spec (expr_type x) COND_XOR) as [_|_]; [by apply (binary_same BXor)|].
  destruct (Z.eqb_spec (expr_type x) COND_EQ) as [_|_]; [by apply (binary_same BEq)|].
  destruct (Z.eqb_spec (expr_type x) COND_NEQ) as [_|_]; [by apply (binary_same BNeq)|].
  by left.
Qed.

Lemma loop_same bs l : operands_ok bs l -> forall s s' sp, stacks_ok sp s s' ->
  same_outcome (eval_loop bs s sp l) (eval_loop bs s' sp l).
Proof.
  induction 1 as [|x l Hx _ IH]; intros s s' sp H; [right; eauto 10|]. cbn [eval_loop].
  destruct (step_same bs s s' sp x H Hx) as [[-> ->]|(s1 & s1' & sp1 & -> & -> & H1)]; [by left|].
  cbn [mbind option_bind]. by apply IH.
Qed.

Lemma start_stacks junk junk' : length junk = 9%nat -> length junk' = 9%nat -> stacks_ok (-1) (-1 :: junk) (-1 :: junk').
Proof. intros. split; try (apply eval_junk; done); try done; lia. Qed.

Lemma evaluate_total bs l junk :
  operands_ok bs l -> length junk = 9%nat ->
  exists v, cond_evaluate_expr bs l = Some v /\ cond_evaluate_expr_on junk bs l = Some v /\
    (v = -1 \/ v = 0 \/ v = 1).
Proof.
  intros Hl Hj. unfold cond_evaluate_expr, cond_evaluate_expr_on.
  destruct (loop_same bs l Hl _ _ _ (start_stacks (replicate 9 0) junk eq_refl Hj))
    as [[-> ->]|(s & s' & sp & -> & -> & H)]; [eauto 10|]. cbn [mbind option_bind].
  pose proof (so_sp _ _ _ H). destruct (Z.eq_dec sp (-1)) as [->|Hne].
  - destruct (so_empty _ _ _ H eq_refl) as [-> ->]. eauto 10.
  - rewrite <- (so_eq _ _ _ H 0) by lia. destruct (so_val _ _ _ H 0 ltac:(lia)) as [b ->].
    destruct b; eauto 10.
Qed.

(** On any list whose operands name booleans of the policy, whatever its
    operators and its shape, [cond_evaluate_expr] stays inside its stack, does
    not depend on the uninitialised part of the stack, and returns -1, 0 or 1. *)
Theorem cond_evaluate_expr_safe bs l junk :
  operands_ok bs l -> length junk = 9%nat ->
  exists v, cond_evaluate_expr bs l = Some v /\ cond_evaluate_expr_on junk bs l = Some v /\
    (v = -1 \/ v = 0 \/ v = 1).
Proof. apply evaluate_total. Qed.
