(* ===== verification/CondNorm.v ===== *)
(** * CondNorm: normal forms of conditionals and their comparison

    [cond_normalize_expr] strips a trailing negation by exchanging the two
    branches, lists the booleans of the expression, and tabulates its value
    for every assignment of up to COND_MAX_BOOLS booleans.  The file shows
    what a normalized node is, that the booleans of the policy come out
    unchanged, and what [cond_expr_equal] decides on normalized nodes. *)
From Stdlib Require Import ZArith Lia Bool.
From stdpp Require Import base option list list_numbers sets.
From S2P Require Import Prelude PolicyFile Mem Avtab Cond CondEval.

(** ** The booleans of a policy under assignments *)

Definition idx (b : Z) : nat := Z.to_nat (u32 (b - 1)).

Lemma idx_inj b b' : in_range 32 b -> in_range 32 b' -> idx b = idx b' -> b = b'.
Proof.
  unfold idx, wrap, in_range. intros Hb Hb' H.
  apply Z2Nat.inj in H; [|apply Z.mod_pos_bound; lia..].
  assert (forall x, 0 <= x < 2 ^ 32 -> x = ((x - 1) mod 2 ^ 32 + 1) mod 2 ^ 32) as E.
  { intros x Hx. rewrite Zplus_mod_idemp_l. replace (x - 1 + 1) with x by lia. symmetry. by apply Z.mod_small. }
  by rewrite (E b Hb), (E b' Hb'), H.
Qed.

(** The booleans with every state replaced. *)
Definition restate (f : nat -> Z -> Z) (bs : bools) : bools :=
  imap (fun i => fmap (fun d => mk_cond_bool_datum (bool_value d) (f i (bool_state d)) (bool_flags d))) bs.

Lemma restate_lookup f bs i :
  restate f bs !! i =
    (fmap (fun d => mk_cond_bool_datum (bool_value d) (f i (bool_state d)) (bool_flags d))) <$> bs !! i.
Proof. unfold restate. by rewrite list_lookup_imap. Qed.

Lemma restate_struct f bs b :
  bool_struct (restate f bs) b =
    (fun d => mk_cond_bool_datum (bool_value d) (f (idx b) (bool_state d)) (bool_flags d)) <$> bool_struct bs b.
Proof. unfold bool_struct. fold (idx b). rewrite restate_lookup. by destruct (bs !! idx b) as [[d|]|]. Qed.

Lemma restate_restate f g bs : restate f (restate g bs) = restate (fun i st => f i (g i st)) bs.
Proof.
  apply list_eq. intros i. rewrite !restate_lookup. by destruct (bs !! i) as [[d|]|].
Qed.

Lemma restate_id f bs :
  (forall i d, bs !! i = Some (Some d) -> f i (bool_state d) = bool_state d) -> restate f bs = bs.
Proof.
  intros H. apply list_eq. intros i. rewrite restate_lookup.
  destruct (bs !! i) as [[d|]|] eqn:E; [|done..]. simpl. rewrite (H i d E). by destruct d.
Qed.

Lemma restate_ext f g bs : (forall i st, f i st = g i st) -> restate f bs = restate g bs.
Proof.
  intros H. apply list_eq. intros i. rewrite !restate_lookup.
  destruct (bs !! i) as [[d|]|]; simpl; by rewrite ?H.
Qed.

(** ** Sequences of assignments *)

Fixpoint set_all (bs : bools) (l : list (Z * Z)) : option bools :=
  match l with
  | [] => Some bs
  | (b, v) :: l => bs ← set_bool_state bs b v; set_all bs l
  end.

(** The state of boolean number [i] after the assignments. *)
Definition assigned (l : list (Z * Z)) (i : nat) (st : Z) : Z :=
  fold_left (fun st '(b, v) => if Nat.eqb (idx b) i then v else st) l st.

Lemma assigned_notin l i st : i ∉ (idx ∘ fst <$> l) -> assigned l i st = st.
Proof.
  unfold assigned. revert st. induction l as [|[b v] l IH]; intros st Hi; [done|]. simpl in *.
  apply not_elem_of_cons in Hi as [Hne Hi]. destruct (Nat.eqb_spec (idx b) i); [by subst|]. by apply IH.
Qed.

Lemma assigned_in l i st v :
  i ∈ (idx ∘ fst <$> l) -> (forall b w, (b, w) ∈ l -> idx b = i -> w = v) -> assigned l i st = v.
Proof.
  revert st. induction l as [|[b w] l IH]; intros st Hi Hv; [by apply elem_of_nil in Hi|].
  change (assigned ((b, w) :: l) i st) with (assigned l i (if Nat.eqb (idx b) i then w else st)).
  destruct (decide (i ∈ (idx ∘ fst <$> l))) as [Hin|Hout].
  - apply IH; [done|]. intros. eapply Hv; [by right|done].
  - rewrite assigned_notin by done. apply elem_of_cons in Hi as [->|Hi]; [|done]. simpl.
    rewrite Nat.eqb_refl. eapply Hv; [by left|done].
Qed.

Lemma set_state_restate bs b v :
  is_Some (bool_struct bs b) -> set_bool_state bs b v = Some (restate (assigned [(b, v)]) bs).
Proof.
  intros [d Hd]. unfold set_bool_state. rewrite Hd. cbn [mbind option_bind]. f_equal.
  unfold bool_struct in Hd. fold (idx b) in Hd |- *. destruct (bs !! idx b) as [[?|]|] eqn:E; simpl in Hd; simplify_eq.
  apply list_eq. intros i. rewrite restate_lookup. unfold assigned. simpl.
  destruct (Nat.eqb_spec (idx b) i) as [<-|Hne].
  - rewrite list_lookup_insert_eq by by eapply lookup_lt_Some. by rewrite E.
  - rewrite list_lookup_insert_ne by done. by destruct (bs !! i) as [[[]|]|].
Qed.

Lemma set_all_restate l bs :
  Forall (fun p => is_Some (bool_struct bs (fst p))) l -> set_all bs l = Some (restate (assigned l) bs).
Proof.
  revert bs. induction l as [|[b v] l IH]; intros bs Hl.
  - simpl. by rewrite restate_id.
  - apply Forall_cons in Hl as [Hb Hl]. cbn [set_all]. rewrite set_state_restate by done. cbn [mbind option_bind].
    rewrite IH, restate_restate; [done|]. eapply Forall_impl; [exact Hl|].
    intros [b' v'] [d Hd]. simpl in *. rewrite restate_struct, Hd. eauto.
Qed.

(** The loops of the model as sequences of assignments. *)

Lemma rd_slice_cons ids i n :
  0 <= i -> i + Z.of_nat (S n) <= zlength ids ->
  exists b, rd ids i = Some b /\ slice ids i (Z.of_nat (S n)) = b :: slice ids (i + 1) (Z.of_nat n).
Proof.
  intros Hi Hn. destruct (rd_ok ids i) as [b Hb]; [lia|]. exists b. split; [done|].
  replace (Z.of_nat (S n)) with (Z.of_nat n + 1) by lia. apply slice_cons; [done|lia].
Qed.

Lemma restore_set_all vals bs ids i :
  0 <= i -> i + zlength vals <= zlength ids ->
  restore_bools vals bs ids i = set_all bs (zip (slice ids i (zlength vals)) vals).
Proof.
  revert bs i. induction vals as [|v vals IH]; intros bs i Hi Hn; [done|]. unfold zlength in Hn at 1; simpl length in Hn.
  destruct (rd_slice_cons ids i (length vals) Hi Hn) as (b & Hb & Hs).
  cbn [restore_bools]. rewrite Hb. cbn [mbind option_bind]. unfold zlength at 1. cbn [length]. rewrite Hs. cbn [zip zip_with set_all].
  destruct (set_bool_state bs b v); [|done]. cbn [mbind option_bind]. apply IH; unfold zlength in *; lia.
Qed.

Fixpoint test_vals (n : nat) (test j : Z) : list Z :=
  match n with
  | O => []
  | S n => c_of_bool (ctrue (Z.land test (Z.shiftl 1 j))) :: test_vals n test (j + 1)
  end.

Lemma length_test_vals n test j : length (test_vals n test j) = n.
Proof. revert j. induction n; intros; simpl; auto. Qed.

Lemma assign_restore n bs ids test j : assign_test n bs ids test j = restore_bools (test_vals n test j) bs ids j.
Proof.
  revert bs j. induction n as [|n IH]; intros bs j; [done|]. cbn [assign_test test_vals restore_bools].
  destruct (rd ids j); [|done]. cbn [mbind option_bind]. destruct (set_bool_state _ _ _); [|done]. cbn. apply IH.
Qed.

Lemma save_bools_ok n bs ids i :
  0 <= i -> i + Z.of_nat n <= zlength ids ->
  Forall (fun b => is_Some (bool_struct bs b)) (slice ids i (Z.of_nat n)) ->
  exists vals, save_bools n bs ids i = Some vals /\
    Forall2 (fun b v => exists d, bool_struct bs b = Some d /\ bool_state d = v) (slice ids i (Z.of_nat n)) vals.
Proof.
  revert i. induction n as [|n IH]; intros i Hi Hn Hf; [by exists []|].
  destruct (rd_slice_cons ids i n Hi Hn) as (b & Hb & Hs). rewrite Hs in *.
  apply Forall_cons in Hf as [[d Hd] Hf]. destruct (IH (i + 1) ltac:(lia) ltac:(lia) Hf) as (vals & E & H).
  exists (bool_state d :: vals). cbn [save_bools]. rewrite Hb. cbn [mbind option_bind]. rewrite Hd.
  cbn [mbind option_bind]. rewrite E. split; [done|]. constructor; eauto.
Qed.

(** ** Assignments as numbers *)

(** The number whose bit [j] is the value of the boolean [ids[j]]. *)
Fixpoint encode (rho : Z -> bool) (ids : list Z) : Z :=
  match ids with
  | [] => 0
  | b :: ids => c_of_bool (rho b) + 2 * encode rho ids
  end.

Lemma encode_range rho ids : 0 <= encode rho ids < 2 ^ zlength ids.
Proof.
  induction ids as [|b ids IH]; [by vm_compute|]. unfold zlength in *. cbn [length encode].
  rewrite Nat2Z.inj_succ, Z.pow_succ_r by lia. destruct (rho b); simpl c_of_bool; lia.
Qed.

Lemma encode_bit rho ids j b :
  ids !! j = Some b -> Z.testbit (encode rho ids) (Z.of_nat j) = rho b.
Proof.
  revert j. induction ids as [|x ids IH]; intros j Hj; [done|]. cbn [encode]. destruct j as [|j]; simpl in Hj.
  - simplify_eq. rewrite Z.add_comm. destruct (rho b); simpl c_of_bool; rewrite ?Z.add_0_r.
    + apply Z.testbit_odd_0.
    + apply Z.testbit_even_0.
  - rewrite Nat2Z.inj_succ, Z.add_comm. destruct (rho x); simpl c_of_bool; rewrite ?Z.add_0_r.
    + rewrite Z.testbit_odd_succ by lia. by apply IH.
    + rewrite Z.testbit_even_succ by lia. by apply IH.
Qed.

(** Every number of the table is the number of a valuation. *)
Lemma encode_onto ids t : NoDup ids -> 0 <= t < 2 ^ zlength ids -> exists rho, encode rho ids = t.
Proof.
  revert t. induction ids as [|b ids IH]; intros t ND Ht.
  { exists (fun _ => false). unfold zlength in Ht. simpl in *. lia. }
  apply NoDup_cons in ND as [Hb ND]. unfold zlength in *. cbn [length] in Ht.
  rewrite Nat2Z.inj_succ, Z.pow_succ_r in Ht by lia. pose proof (Z.div_mod t 2 ltac:(lia)) as Hd.
  pose proof (Z.mod_pos_bound t 2 ltac:(lia)).
  destruct (IH (t / 2) ND) as [rho Hrho]; [split; [apply Z.div_pos|apply Z.div_lt_upper_bound]; lia|].
  exists (fun x => if bool_decide (x = b) then Z.odd t else rho x). cbn [encode].
  rewrite bool_decide_eq_true_2 by done.
  assert (encode (fun x => if bool_decide (x = b) then Z.odd t else rho x) ids = encode rho ids) as ->.
  { clear IH Hrho Ht. induction ids as [|y ids IH]; [done|]. cbn [encode].
    apply not_elem_of_cons in Hb as [Hy Hb]. apply NoDup_cons in ND as [_ ND].
    by rewrite bool_decide_eq_false_2, IH. }
  rewrite Hrho. pose proof (Zmod_odd t). destruct (Z.odd t); simpl c_of_bool; lia.
Qed.

Lemma test_vals_lookup n test j k :
  0 <= j -> (k < n)%nat -> test_vals n test j !! k = Some (c_of_bool (Z.testbit test (j + Z.of_nat k))).
Proof.
  revert j k. induction n as [|n IH]; intros j k Hj Hk; [lia|]. cbn [test_vals]. destruct k as [|k]; simpl.
  - rewrite Z.add_0_r. do 2 f_equal. unfold ctrue. rewrite Z.shiftl_1_l.
    destruct (Z.testbit test j) eqn:E.
    + apply negb_true_iff, Z.eqb_neq. intros H0. apply (f_equal (fun x => Z.testbit x j)) in H0.
      by rewrite Z.land_spec, E, Z.pow2_bits_true, Z.bits_0 in H0 by lia.
    + apply negb_false_iff, Z.eqb_eq, Z.bits_inj'. intros m Hm. rewrite Z.land_spec, Z.bits_0.
      destruct (Z.eq_dec m j) as [->|Hne]; [by rewrite E|]. rewrite Z.pow2_bits_false by done. apply andb_false_r.
  - rewrite IH by lia. do 3 f_equal. lia.
Qed.

Lemma beval_agree rho rho' e : (forall b, b ∈ bvars e -> rho b = rho' b) -> beval rho e = beval rho' e.
Proof.
  induction e as [b|e IH|op e1 IH1 e2 IH2]; simpl; intros H.
  - apply H. set_solver.
  - by rewrite IH.
  - rewrite IH1, IH2; [done|set_solver..].
Qed.

(** ** The booleans of an expression *)

Definition operands (l : list cond_expr) : list Z :=
  boolean <$> filter (fun x => expr_type x = COND_BOOL) l.

Lemma operands_app l1 l2 : operands (l1 ++ l2) = operands l1 ++ operands l2.
Proof. unfold operands. by rewrite filter_app, fmap_app. Qed.

Lemma operands_op t x : t <> COND_BOOL -> operands [mk_cond_expr t x] = [].
Proof. intros. unfold operands. by rewrite filter_cons_False. Qed.

Lemma rpn_operands e l : rpn e l -> operands l = bvars e.
Proof.
  induction 1 as [b|e l x _ IH|op e1 e2 l1 l2 x _ IH1 _ IH2]; [done|..]; simpl.
  - by rewrite operands_app, IH, operands_op, app_nil_r.
  - by rewrite !operands_app, IH1, IH2, operands_op, app_nil_r by by destruct op.
Qed.

Lemma operands_cons x l :
  operands (x :: l) = (if expr_type x =? COND_BOOL then [boolean x] else []) ++ operands l.
Proof.
  unfold operands. rewrite filter_cons. destruct (Z.eqb_spec (expr_type x) COND_BOOL).
  - by rewrite decide_True.
  - by rewrite decide_False.
Qed.

Lemma rpn_operands_ok bs e l : rpn e l -> Forall (bool_ready bs) (bvars e) -> operands_ok bs l.
Proof.
  intros Hr Hv. rewrite <- (rpn_operands e l Hr) in Hv. clear Hr. unfold operands_ok.
  induction l as [|x l IH]; [constructor|]. rewrite operands_cons in Hv. apply Forall_app in Hv as [Hx Hl].
  constructor; [|by apply IH]. intros E. rewrite E in Hx. change (COND_BOOL =? COND_BOOL) with true in Hx. cbn match in Hx. by rewrite Forall_singleton in Hx.
Qed.

Lemma present_loop_spec n t ids i :
  0 <= i -> i + Z.of_nat n <= zlength ids ->
  present_loop n t ids i = Some (bool_decide (t ∈ slice ids i (Z.of_nat n))).
Proof.
  revert i. induction n as [|n IH]; intros i Hi Hn; [by rewrite slice_0|].
  destruct (rd_slice_cons ids i n Hi Hn) as (b & Hb & Hs). cbn [present_loop].
  rewrite Hb, Hs. cbn [mbind option_bind]. destruct (Z.eqb_spec t b) as [->|Hne].
  - by rewrite bool_decide_eq_true_2 by by left.
  - rewrite IH by lia. f_equal. apply bool_decide_ext. set_solver.
Qed.

Lemma bool_present_spec t ids n :
  length ids = 5%nat -> 0 <= n <= COND_MAX_BOOLS ->
  bool_present t ids n = Some (bool_decide (t ∈ ztake n ids)).
Proof.
  intros Hl Hn. unfold bool_present. destruct (Z.ltb_spec COND_MAX_BOOLS n); [lia|].
  unfold COND_MAX_BOOLS in *. rewrite present_loop_spec by (unfold zlength; lia). rewrite Z2Nat.id by lia. done.
Qed.

(** [ids] lists the booleans [seen], as long as there are not too many. *)
Definition ids_ok (seen ids : list Z) (n : Z) : Prop :=
  length ids = 5%nat /\ 0 <= n /\
  (n <= COND_MAX_BOOLS -> NoDup (ztake n ids) /\ forall b, b ∈ ztake n ids <-> b ∈ seen).

Lemma ztake_insert n b (ids : list Z) :
  0 <= n < zlength ids -> ztake (n + 1) (<[Z.to_nat n := b]> ids) = ztake n ids ++ [b].
Proof.
  unfold ztake, zlength. intros Hn. replace (Z.to_nat (n + 1)) with (S (Z.to_nat n)) by lia.
  rewrite (take_S_r _ _ b) by (apply list_lookup_insert_eq; lia). by rewrite take_insert_ge by lia.
Qed.

Lemma ids_ok_seen seen ids n b : ids_ok seen ids n -> (n <= COND_MAX_BOOLS -> b ∈ seen) -> ids_ok (seen ++ [b]) ids n.
Proof.
  intros (Hl & Hn & H) Hb. split_and!; [done..|]. intros Hle. destruct (H Hle) as [ND E]. split; [done|].
  intros b'. rewrite E. specialize (Hb Hle). set_solver.
Qed.

Lemma ids_ok_new seen (ids : list Z) n b :
  ids_ok seen ids n -> n < COND_MAX_BOOLS -> b ∉ ztake n ids -> ids_ok (seen ++ [b]) (<[Z.to_nat n := b]> ids) (n + 1).
Proof.
  intros (Hl & Hn & H) Hlt Hb. unfold COND_MAX_BOOLS in *.
  destruct H as [ND E]; [lia|]. split_and!; [by rewrite length_insert|lia|].
  intros _. rewrite ztake_insert by (unfold zlength; lia). split.
  - apply NoDup_app. split_and!; [done|set_solver|apply NoDup_singleton].
  - intros b'. specialize (E b'). set_solver.
Qed.

Lemma find_bools_ok l seen ids n :
  ids_ok seen ids n -> n + zlength l < 2 ^ 32 ->
  exists ids' n', find_bools l ids n = Some (ids', n') /\ ids_ok (seen ++ operands l) ids' n'.
Proof.
  revert seen ids n. induction l as [|x l IH]; intros seen ids n H Hn.
  { exists ids, n. by rewrite app_nil_r. }
  unfold zlength in *. cbn [length] in Hn. pose proof H as (Hl & Hn0 & Hids).
  cbn [find_bools]. rewrite operands_cons. destruct (expr_type x =? COND_BOOL); [|apply IH; [done|lia]].
  rewrite app_assoc. destruct (Z.le_gt_cases n COND_MAX_BOOLS) as [Hle|Hgt].
  - rewrite bool_present_spec by lia. cbn [mbind option_bind].
    destruct (bool_decide_reflect (boolean x ∈ ztake n ids)) as [Hin|Hout]; simpl negb; cbn match.
    + apply IH; [|lia]. apply ids_ok_seen; [done|]. intros _. by apply Hids.
    + rewrite (wrap_small 32 (n + 1)) by (unfold in_range; lia). destruct (Z.ltb_spec n COND_MAX_BOOLS) as [Hlt|Hge].
      * rewrite wr_ok by (unfold zlength, COND_MAX_BOOLS in *; lia). cbn [mbind option_bind].
        apply IH; [|lia]. by apply ids_ok_new.
      * apply IH; [|lia]. split_and!; [done|lia|lia].
  - unfold bool_present. destruct (Z.ltb_spec COND_MAX_BOOLS n); [|lia]. cbn [mbind option_bind negb].
    destruct (Z.ltb_spec n COND_MAX_BOOLS); [lia|]. rewrite wrap_small by (unfold in_range; lia).
    apply IH; [|lia]. split_and!; [done|lia|lia].
Qed.

(** ** The truth table *)

Section Table.
Context (bs : bools) (e : bexp) (l : list cond_expr) (ids : list Z) (nb : Z).
Let used := ztake nb ids.
Hypothesis Hrpn : rpn e l.
Hypothesis Hdepth : depth e <= COND_EXPR_MAXDEPTH.
Hypothesis Hnb : 0 <= nb <= COND_MAX_BOOLS.
Hypothesis Hlen : length ids = 5%nat.
Hypothesis Hnodup : NoDup used.
Hypothesis Hrange : Forall (in_range 32) used.
Hypothesis Hdef : Forall (fun b => is_Some (bool_struct bs b)) used.
Hypothesis Hvars : forall b, b ∈ bvars e -> b ∈ used.

(** The valuation of round [test]. *)
Definition rho_test (test b : Z) : bool :=
  match list_find (fun b' => b = b') used with
  | Some (k, _) => Z.testbit test (Z.of_nat k)
  | None => false
  end.

Lemma rho_test_lookup test k b : used !! k = Some b -> rho_test test b = Z.testbit test (Z.of_nat k).
Proof using Hnodup.
  intros Hk. unfold rho_test. destruct (list_find (fun b' => b = b') used) as [[k' b']|] eqn:E.
  - apply list_find_Some in E as (Hk' & <- & _). by rewrite (NoDup_lookup _ _ _ _ Hnodup Hk Hk').
  - apply list_find_None in E. by eapply Forall_lookup_1 in E.
Qed.

Lemma encode_rho_test rho b : b ∈ used -> rho_test (encode rho used) b = rho b.
Proof using Hnodup.
  intros [k Hk]%list_elem_of_lookup_1. rewrite (rho_test_lookup _ k) by done. by apply encode_bit.
Qed.

Lemma length_used : length used = Z.to_nat nb.
Proof using Hlen Hnb. unfold used, ztake. rewrite length_take. unfold COND_MAX_BOOLS in *. lia. Qed.

(** Only booleans of the expression change. *)
Definition touched (g : nat -> Z -> Z) : Prop := forall i st, i ∉ (idx <$> used) -> g i st = st.

Lemma fst_zip_test test : idx ∘ fst <$> zip used (test_vals (Z.to_nat nb) test 0) = idx <$> used.
Proof using Hlen Hnb.
  rewrite list_fmap_compose. f_equal. apply fst_zip. by rewrite length_test_vals, length_used.
Qed.

Lemma assign_test_ok g test :
  touched g -> exists g', assign_test (Z.to_nat nb) (restate g bs) ids test 0 = Some (restate g' bs) /\
    touched g' /\ forall b, b ∈ used -> rho_of (restate g' bs) b = rho_test test b /\ bool_ready (restate g' bs) b.
Proof using Hdef Hlen Hnb Hnodup Hrange.
  intros Hg. pose proof length_used as HL. set (asg := zip used (test_vals (Z.to_nat nb) test 0)).
  exists (fun i st => assigned asg i (g i st)). split_and!.
  - rewrite assign_restore, restore_set_all; [|lia|].
    2:{ unfold zlength. rewrite length_test_vals. unfold COND_MAX_BOOLS in *. lia. }
    unfold zlength. rewrite length_test_vals, Z2Nat.id by lia. change (slice ids 0 nb) with used.
    rewrite set_all_restate, restate_restate; [done|].
    apply Forall_forall. intros [b v] Hb. apply elem_of_zip_l in Hb. simpl. rewrite restate_struct.
    rewrite Forall_forall in Hdef. destruct (Hdef b Hb) as [d ->]. eauto.
  - intros i st Hi. rewrite assigned_notin by (unfold asg; by rewrite fst_zip_test). by apply Hg.
  - intros b Hb. apply list_elem_of_lookup_1 in Hb as [k Hk].
    assert (forall st, assigned asg (idx b) st = c_of_bool (rho_test test b)) as Ha.
    { intros st. apply assigned_in.
      - unfold asg. rewrite fst_zip_test. apply list_elem_of_fmap. exists b. split; [done|]. by eapply list_elem_of_lookup_2.
      - intros b' w Hin He. apply list_elem_of_lookup_1 in Hin as [k' Hk'].
        apply lookup_zip_Some in Hk' as [Hb' Hw].
        assert (b' = b) as ->. { apply idx_inj; [by eapply Forall_lookup_1|by eapply Forall_lookup_1|done]. }
        rewrite (rho_test_lookup _ _ _ Hb').
        pose proof (lookup_lt_Some _ _ _ Hb'). rewrite test_vals_lookup in Hw by lia. by simplify_eq. }
    destruct (Forall_lookup_1 _ _ _ _ Hdef Hk) as [d Hd].
    unfold rho_of, bool_ready. rewrite restate_struct, Hd. simpl. rewrite Ha. split.
    + by destruct (rho_test test b).
    + eexists. split; [done|]. simpl. destruct (rho_test test b); auto.
Qed.

Lemma round_value g test :
  touched g -> exists g', assign_test (Z.to_nat nb) (restate g bs) ids test 0 = Some (restate g' bs) /\
    touched g' /\ cond_evaluate_expr (restate g' bs) l = Some (c_of_bool (beval (rho_test test) e)).
Proof using All.
  intros Hg. destruct (assign_test_ok g test Hg) as (g' & E & Hg' & H). exists g'. split_and!; [done..|].
  rewrite (evaluate_rpn _ e) by (done || apply Forall_forall; intros; by apply H, Hvars).
  destruct (Z.leb_spec (depth e) COND_EXPR_MAXDEPTH); [|lia]. do 2 f_equal.
  apply beval_agree. intros b Hb. by apply H, Hvars.
Qed.

(** The table the rounds from [test] on leave in [expr_pre_comp]. *)
Lemma precomp_ok n g test pre :
  touched g -> 0 <= test -> test + Z.of_nat n <= 32 -> 0 <= pre ->
  exists g' pre', precomp_loop n (restate g bs) l ids nb test pre = Some (true, restate g' bs, pre') /\
    touched g' /\ 0 <= pre' /\
    forall k, 0 <= k -> Z.testbit pre' k =
      Z.testbit pre k || ((test <=? k) && (k <? test + Z.of_nat n) && beval (rho_test k) e).
Proof using All.
  revert g test pre. induction n as [|n IH]; intros g test pre Hg Ht Hn Hpre.
  { exists g, pre. split_and!; [done..|]. intros k Hk.
    destruct (Z.leb_spec test k), (Z.ltb_spec k (test + Z.of_nat 0)); try lia; simpl; by rewrite orb_false_r. }
  destruct (round_value g test Hg) as (g1 & E1 & Hg1 & Ev). cbn [precomp_loop]. rewrite E1. cbn [mbind option_bind].
  rewrite Ev. cbn [mbind option_bind]. set (v := beval (rho_test test) e) in *.
  replace (c_of_bool v =? -1) with false by by destruct v. replace (ctrue (c_of_bool v)) with v by by destruct v.
  rewrite wrap_small by (apply one_shiftl_range; lia).
  destruct (IH g1 (test + 1) (if v then Z.lor pre (Z.shiftl 1 test) else pre)) as (g' & pre' & E & Hg' & Hp' & Hbits);
    [done|lia|lia|destruct v; [apply Z.lor_nonneg; split; [done|apply Z.shiftl_nonneg; lia]|done]|].
  exists g', pre'. split_and!; [done..|]. intros k Hk. rewrite Hbits by done.
  assert (Z.testbit (if v then Z.lor pre (Z.shiftl 1 test) else pre) k = Z.testbit pre k || ((k =? test) && v)) as ->.
  { destruct v; [rewrite Z.lor_spec, one_shiftl_bit by lia; by rewrite andb_true_r|].
    by rewrite andb_false_r, orb_false_r. }
  destruct (Z.eqb_spec k test) as [->|Hne].
  - replace (test + 1 <=? test) with false by lia. replace (test <=? test) with true by lia.
    rewrite (proj2 (Z.ltb_lt test (test + Z.of_nat (S n)))) by lia. unfold v. simpl. by rewrite orb_false_r.
  - replace (test + 1 <=? k) with (test <=? k) by (apply eq_true_iff_eq; rewrite !Z.leb_le; lia).
    replace (test + 1 + Z.of_nat n) with (test + Z.of_nat (S n)) by lia. simpl. by rewrite orb_false_r.
Qed.

Lemma restore_ok g vals :
  touched g -> save_bools (Z.to_nat nb) bs ids 0 = Some vals -> restore_bools vals (restate g bs) ids 0 = Some bs.
Proof using Hdef Hlen Hnb Hrange.
  intros Hg Hs. destruct (save_bools_ok (Z.to_nat nb) bs ids 0) as (vals' & E & F2).
  { lia. } { unfold zlength, COND_MAX_BOOLS in *. lia. } { by rewrite Z2Nat.id by lia. }
  rewrite Hs in E. simplify_eq. rewrite Z2Nat.id in F2 by lia. change (slice ids 0 nb) with used in F2.
  pose proof (Forall2_length _ _ _ F2) as HL. pose proof length_used as HU.
  assert (zlength vals' = nb) as HN by (unfold zlength; lia).
  rewrite restore_set_all; [|lia|unfold zlength, COND_MAX_BOOLS in *; lia].
  rewrite HN. change (slice ids 0 nb) with used. rewrite set_all_restate.
  2:{ apply Forall_forall. intros [b v] Hb. apply elem_of_zip_l in Hb. simpl. rewrite restate_struct.
      rewrite Forall_forall in Hdef. destruct (Hdef b Hb) as [d ->]. eauto. }
  rewrite restate_restate. f_equal. apply restate_id. intros i d Hi.
  assert (idx ∘ fst <$> zip used vals' = idx <$> used) as Hz.
  { rewrite list_fmap_compose. f_equal. apply fst_zip. lia. }
  destruct (decide (i ∈ (idx <$> used))) as [Hin|Hout].
  - apply assigned_in; [by rewrite Hz|]. intros b w Hbw <-.
    apply list_elem_of_lookup_1 in Hbw as [k Hk]. apply lookup_zip_Some in Hk as [Hb Hw].
    destruct (Forall2_lookup_lr _ _ _ _ _ _ F2 Hb Hw) as (d' & Hd' & <-).
    unfold bool_struct in Hd'. fold (idx b) in Hd'. rewrite Hi in Hd'. simpl in Hd'. by simplify_eq.
  - rewrite assigned_notin by by rewrite Hz. by apply Hg.
Qed.
End Table.

(** ** Normalized nodes *)

(** The node holds the expression [e]; if it has few booleans, they are
    listed without repetition and [expr_pre_comp] is the truth table of [e]. *)
Record normalized (cn : cond_node) (e : bexp) : Prop := {
  nm_rpn : rpn e (expr cn);
  nm_len : length (bool_ids cn) = 5%nat;
  nm_nbools : 0 <= nbools cn;
  nm_ids : nbools cn <= COND_MAX_BOOLS ->
    NoDup (ztake (nbools cn) (bool_ids cn)) /\ forall b, b ∈ ztake (nbools cn) (bool_ids cn) <-> b ∈ bvars e;
  nm_table : nbools cn <= COND_MAX_BOOLS ->
    in_range (2 ^ nbools cn) (expr_pre_comp cn) /\
    forall rho, Z.testbit (expr_pre_comp cn) (encode rho (ztake (nbools cn) (bool_ids cn))) = beval rho e
}.

(** The rules a node activates for a value of its expression. *)
Definition branch (cn : cond_node) (v : bool) : list nat * Z :=
  if v then (true_list cn, avtrue_list cn) else (false_list cn, avfalse_list cn).

(** One outer negation is taken off and the branches are exchanged for it. *)
Definition unnegated (cn : cond_node) (e : bexp) (cn' : cond_node) (e' : bexp) : Prop :=
  match e with
  | BNot e1 => e' = e1 /\ (exists x, expr cn = expr cn' ++ [mk_cond_expr COND_NOT x]) /\ forall v, branch cn' v = branch cn (negb v)
  | _ => e' = e /\ expr cn' = expr cn /\ forall v, branch cn' v = branch cn v
  end.

Lemma unnegated_branch cn e cn' e' rho : unnegated cn e cn' e' -> branch cn' (beval rho e') = branch cn (beval rho e).
Proof. destruct e as [b|e|op e1 e2]; intros (-> & _ & H); rewrite H; [done| |done]. cbn. by rewrite negb_involutive || done. Qed.

Lemma rpn_nonempty e l : rpn e l -> l <> [].
Proof. destruct 1; [done|by destruct l|by destruct l1, l2]. Qed.

Lemma strip_not_ok cn e :
  rpn e (expr cn) -> exists cn' e', strip_not cn = Some (inr cn') /\ rpn e' (expr cn') /\
    (forall b, b ∈ bvars e' <-> b ∈ bvars e) /\ depth e' = depth e /\
    unnegated cn e cn' e' /\
    cur_state cn' = cur_state cn /\ nbools cn' = nbools cn /\ bool_ids cn' = bool_ids cn /\
    expr_pre_comp cn' = expr_pre_comp cn /\ cn_flags cn' = cn_flags cn /\
    zlength (expr cn') <= zlength (expr cn).
Proof.
  intros Hr. unfold strip_not. remember (expr cn) as l0 eqn:El. destruct Hr as [b|e1 l x R|op e1 e2 l1 l2 x R1 R2].
  - simpl. exists cn, (BVar b). rewrite <- El. split_and!; try done; by constructor.
  - rewrite last_snoc. cbn [mbind option_bind expr_type]. replace (COND_NOT =? COND_NOT) with true by done.
    pose proof (rpn_nonempty _ _ R). rewrite bool_decide_eq_false_2 by (rewrite length_app; simpl; destruct l; [done|simpl; lia]).
    eexists _, e1. split; [done|]. cbn. rewrite removelast_last. split_and!; try done.
    + rewrite <- El. by exists x.
    + by intros [].
    + rewrite zlength_app. unfold zlength. lia.
  - rewrite app_assoc, last_snoc. cbn [mbind option_bind expr_type].
    replace (bop_type op =? COND_NOT) with false by by destruct op.
    exists cn, (BBin op e1 e2). rewrite <- El. split_and!; try done; [by constructor|by rewrite app_assoc].
Qed.

Lemma normalize_ok bs cn e :
  rpn e (expr cn) -> depth e <= COND_EXPR_MAXDEPTH ->
  Forall (bool_ready bs) (bvars e) -> Forall (in_range 32) (bvars e) -> zlength (expr cn) < 2 ^ 32 ->
  exists cn' e', cond_normalize_expr bs cn = Some (0, bs, cn') /\ normalized cn' e' /\ unnegated cn e cn' e' /\
    (forall rho, branch cn' (beval rho e') = branch cn (beval rho e)) /\
    cur_state cn' = cur_state cn /\ cn_flags cn' = cn_flags cn.
Proof.
  intros Hr Hd Hv Hrg Hl. unfold cond_normalize_expr.
  destruct (strip_not_ok (set_precomp cn 0 zero_ids 0) e Hr)
    as (c1 & e' & -> & Hr' & Hb' & Hd' & Hneg & Hcs & Hnb & Hids & _ & Hfl & Hl').
  pose proof (fun rho => unnegated_branch _ _ _ _ rho Hneg) as Hbr. cbn [mbind option_bind]. rewrite Hnb, Hids. cbn [nbools bool_ids set_precomp].
  destruct (find_bools_ok (expr c1) [] zero_ids 0) as (ids & n & -> & (Hlen & Hn0 & Hok)).
  { split_and!; [done|lia|]. intros _. split; [constructor|]. set_solver. } { cbn in Hl'. lia. }
  cbn [mbind option_bind]. rewrite app_nil_l, (rpn_operands _ _ Hr') in Hok.
  destruct (Z.leb_spec n COND_MAX_BOOLS) as [Hle|Hgt].
  2:{ exists (set_precomp c1 n ids 0), e'. split_and!; try done. split; try done; cbn; lia. }
  destruct (Hok Hle) as [ND Hin]. unfold COND_MAX_BOOLS in Hle.
  assert (forall b, b ∈ ztake n ids -> bool_ready bs b /\ in_range 32 b) as Hrdy.
  { intros b Hb. apply Hin, Hb' in Hb. rewrite Forall_forall in Hv, Hrg. auto. }
  assert (Hdef : Forall (fun b => is_Some (bool_struct bs b)) (ztake n ids)).
  { apply Forall_forall. intros b Hb. destruct (Hrdy b Hb) as [(d & -> & _) _]. eauto. }
  assert (Hrng : Forall (in_range 32) (ztake n ids)) by (apply Forall_forall; intros b Hb; by apply Hrdy).
  destruct (save_bools_ok (Z.to_nat n) bs ids 0) as (orig & Hsave & _);
    [lia|unfold zlength; lia|by rewrite Z2Nat.id by lia|]. rewrite Hsave. cbn [mbind option_bind].
  assert (2 ^ n <= 2 ^ 5) by (apply Z.pow_le_mono_r; lia). assert (0 < 2 ^ n) by lia.
  destruct (precomp_ok bs e' (expr c1) ids n Hr' ltac:(lia) ltac:(unfold COND_MAX_BOOLS; lia) Hlen ND Hrng Hdef
              ltac:(intros b Hb; by apply Hin) (Z.to_nat (2 ^ n)) (fun _ st => st) 0 0)
    as (g & pre & Hp & Hg & Hpos & Hbits); [done|lia|lia|lia|].
  rewrite restate_id in Hp by done. cbn [expr set_precomp]. rewrite Hp. cbn [mbind option_bind negb].
  rewrite (restore_ok bs ids n ltac:(unfold COND_MAX_BOOLS; lia) Hlen Hrng Hdef g orig Hg Hsave). cbn [mbind option_bind].
  eexists _, e'. split; [done|]. split_and!; [|done..]. split; [done|done|done|done|]. cbn. intros _.
  assert (zlength (ztake n ids) = n) as HL by (unfold zlength, ztake; rewrite length_take; lia).
  rewrite Z2Nat.id in Hbits by lia. split.
  - apply range_of_bits; [lia|done|]. intros i Hi. rewrite Hbits, Z.bits_0 by lia.
    destruct (Z.ltb_spec i (0 + 2 ^ n)); [lia|]. by rewrite andb_false_r.
  - intros rho. pose proof (encode_range rho (ztake n ids)) as He. rewrite HL in He.
    rewrite Hbits, Z.bits_0 by lia. destruct (Z.leb_spec 0 (encode rho (ztake n ids))); [|lia].
    destruct (Z.ltb_spec (encode rho (ztake n ids)) (0 + 2 ^ n)); [|lia]. simpl.
    apply beval_agree. intros b Hb. apply encode_rho_test; [done|]. by apply Hin.
Qed.

(** C33: normalizing a conditional whose expression needs at most the ten cells
    of the evaluation stack, over booleans the policy has, succeeds and leaves
    the booleans of the policy as they were.  If the expression is a negation,
    the last element is taken off and the two branches are exchanged; otherwise
    expression and branches stay.  So under every valuation the node activates
    the rules it activated before.  With at most five booleans, each is listed
    once and the table of results is that of the expression. *)
Theorem cond_normalize_expr_spec bs cn e :
  rpn e (expr cn) -> depth e <= COND_EXPR_MAXDEPTH ->
  Forall (bool_ready bs) (bvars e) -> Forall (in_range 32) (bvars e) -> zlength (expr cn) < 2 ^ 32 ->
  exists cn' e', cond_normalize_expr bs cn = Some (0, bs, cn') /\ normalized cn' e' /\ unnegated cn e cn' e' /\
    (forall rho, branch cn' (beval rho e') = branch cn (beval rho e)) /\
    cur_state cn' = cur_state cn /\ cn_flags cn' = cn_flags cn.
Proof. apply normalize_ok. Qed.

(** ** Comparison *)

Lemma same_bools_loop_ok a b n i :
  length (bool_ids a) = 5%nat -> length (bool_ids b) = 5%nat -> 0 <= nbools a <= COND_MAX_BOOLS ->
  0 <= i -> i + Z.of_nat n <= 5 ->
  same_bools_loop n a b i =
    Some (bool_decide (Forall (fun x => x ∈ ztake (nbools a) (bool_ids b)) (slice (bool_ids a) i (Z.of_nat n)))).
Proof.
  intros Ha Hb Hn. revert i. induction n as [|n IH]; intros i Hi Hin.
  { rewrite slice_0. by rewrite bool_decide_eq_true_2 by constructor. }
  destruct (rd_slice_cons (bool_ids a) i n) as (x & Hx & Hs); [lia|unfold zlength; lia|].
  cbn [same_bools_loop]. rewrite Hx, Hs. cbn [mbind option_bind]. rewrite bool_present_spec by done. cbn [mbind option_bind].
  rewrite IH by lia. destruct (bool_decide_reflect (x ∈ ztake (nbools a) (bool_ids b))) as [H|H].
  - f_equal. apply bool_decide_ext. rewrite Forall_cons. tauto.
  - symmetry. f_equal. apply bool_decide_eq_false_2. rewrite Forall_cons. tauto.
Qed.

Lemma expr_equal_short a b ea eb :
  normalized a ea -> normalized b eb -> nbools a = nbools b -> nbools a <= COND_MAX_BOOLS ->
  cond_expr_equal a b =
    Some (bool_decide (ztake (nbools a) (bool_ids a) ⊆ ztake (nbools b) (bool_ids b)) &&
          (expr_pre_comp a =? expr_pre_comp b)).
Proof.
  intros Na Nb E Hle. pose proof (nm_nbools _ _ Na). unfold cond_expr_equal, same_bools.
  replace (nbools a =? nbools b) with true by lia. cbn [negb].
  replace ((nbools a <=? COND_MAX_BOOLS) && (nbools b <=? COND_MAX_BOOLS)) with true by lia.
  unfold COND_MAX_BOOLS in Hle.
  rewrite same_bools_loop_ok; [|apply Na|apply Nb|unfold COND_MAX_BOOLS; lia|lia|lia]. cbn [mbind option_bind].
  rewrite Z2Nat.id by lia. change (slice (bool_ids a) 0 (nbools a)) with (ztake (nbools a) (bool_ids a)).
  rewrite <- E. f_equal.
  rewrite (bool_decide_ext _ (ztake (nbools a) (bool_ids a) ⊆ ztake (nbools a) (bool_ids b)))
    by (rewrite Forall_forall; set_solver).
  by destruct (bool_decide _).
Qed.

(** Postfix forms on an unbounded stack of truth values. *)
Fixpoint sem_run (rho : Z -> bool) (l : list cond_expr) (st : list bool) : option (list bool) :=
  match l with
  | [] => Some st
  | x :: l =>
      if expr_type x =? COND_BOOL then sem_run rho l (rho (boolean x) :: st)
      else if expr_type x =? COND_NOT then
        match st with u :: st => sem_run rho l (negb u :: st) | _ => None end
      else
        let bin f := match st with v :: u :: st => sem_run rho l (f u v :: st) | _ => None end in
        if expr_type x =? COND_OR then bin orb
        else if expr_type x =? COND_AND then bin andb
        else if expr_type x =? COND_EQ then bin Bool.eqb
        else bin xorb
  end.

Lemma rpn_sem rho e l : rpn e l -> forall rest st, sem_run rho (l ++ rest) st = sem_run rho rest (beval rho e :: st).
Proof.
  induction 1 as [b|e l x _ IH|op e1 e2 l1 l2 x _ IH1 _ IH2]; intros rest st; [done|..].
  - by rewrite <- app_assoc, IH.
  - rewrite <- !app_assoc, IH1, IH2. by destruct op.
Qed.

Lemma list_equal_sem rho la lb : expr_list_equal la lb = true -> forall st, sem_run rho la st = sem_run rho lb st.
Proof.
  revert lb. induction la as [|x la IH]; intros [|y lb] H st; [done..|]. cbn [expr_list_equal] in H.
  destruct (Z.eqb_spec (expr_type x) (expr_type y)) as [Et|]; [|done]. cbn [negb] in H.
  cbn [sem_run]. rewrite Et. rewrite Et in H. destruct (expr_type y =? COND_BOOL); cbn [andb] in H.
  - destruct (Z.eqb_spec (boolean x) (boolean y)) as [->|]; [|done]. by apply IH.
  - assert (forall st, sem_run rho la st = sem_run rho lb st) as IH' by (by apply IH).
    destruct st as [|u [|v st]]; rewrite ?IH'; done.
Qed.

(** Nodes that list their booleans in the same order: [cond_expr_equal] is
    equality of meaning.  Nodes with too many booleans for a table are equal
    only when their expressions have the same meaning. *)
Theorem cond_expr_equal_spec a b ea eb :
  normalized a ea -> normalized b eb -> exists r, cond_expr_equal a b = Some r /\
    (nbools a <= COND_MAX_BOOLS -> nbools a = nbools b ->
     ztake (nbools a) (bool_ids a) = ztake (nbools b) (bool_ids b) ->
     (r = true <-> forall rho, beval rho ea = beval rho eb)) /\
    (COND_MAX_BOOLS < nbools a -> r = true -> forall rho, beval rho ea = beval rho eb).
Proof.
  intros Na Nb. destruct (Z.eq_dec (nbools a) (nbools b)) as [E|Hne].
  2:{ exists false. unfold cond_expr_equal. replace (nbools a =? nbools b) with false by lia. split_and!; [done|lia|done]. }
  destruct (Z.le_gt_cases (nbools a) COND_MAX_BOOLS) as [Hle|Hgt].
  - eexists. split; [by eapply expr_equal_short|]. split; [|lia]. intros _ _ Hids. rewrite Hids.
    rewrite bool_decide_eq_true_2 by done. cbn [andb]. rewrite Z.eqb_eq.
    destruct (nm_table _ _ Na Hle) as [Ra Ta]. destruct (nm_table _ _ Nb ltac:(lia)) as [Rb Tb]. rewrite Hids in Ta. split.
    + intros Hp rho. by rewrite <- Ta, <- Tb, Hp.
    + intros Hs. apply (range_eq_bits (2 ^ nbools a)); [lia|done|by rewrite E|]. intros t Ht.
      pose proof (nm_nbools _ _ Na). pose proof (nm_len _ _ Nb) as Lb.
      assert (Hlen : zlength (ztake (nbools b) (bool_ids b)) = nbools a).
      { unfold COND_MAX_BOOLS in *. unfold zlength, ztake. rewrite length_take. lia. }
      destruct (encode_onto (ztake (nbools b) (bool_ids b)) t) as [rho <-]; [|by rewrite Hlen|by rewrite Ta, Tb].
      apply Nb. lia.
  - exists (expr_list_equal (expr a) (expr b)). unfold cond_expr_equal.
    replace (nbools a =? nbools b) with true by lia. replace (nbools a <=? COND_MAX_BOOLS) with false by lia.
    split_and!; [done|lia|]. intros _ Heq rho.
    pose proof (rpn_sem rho _ _ (nm_rpn _ _ Na) [] []) as Sa. pose proof (rpn_sem rho _ _ (nm_rpn _ _ Nb) [] []) as Sb.
    rewrite !app_nil_r in *. rewrite (list_equal_sem rho _ _ Heq), Sb in Sa. simpl in Sa. by simplify_eq.
Qed.

(** ** Where the comparison and the clean-up go wrong *)

(** Two booleans, the first on, and the conditionals [b1 && !b2] and
    [b2 && !b1]. *)
Definition sample_bools : bools :=
  [Some (mk_cond_bool_datum 1 1 0); Some (mk_cond_bool_datum 2 0 0)].

Definition and_not (b b' : Z) : list cond_expr :=
  [mk_cond_expr COND_BOOL b; mk_cond_expr COND_BOOL b'; mk_cond_expr COND_NOT 0; mk_cond_expr COND_AND 0].

Definition sample_node (e : list cond_expr) : cond_node :=
  mk_cond_node 0 e [0%nat] [1%nat] 0 0 0 zero_ids 0 0.

(** The node [cond_normalize_expr] makes of it. *)
Definition normal_node (e : list cond_expr) : cond_node :=
  match cond_normalize_expr sample_bools (sample_node e) with
  | Some (_, _, cn) => cn
  | None => sample_node e
  end.

(** [same_bools] compares the booleans of two nodes as sets, but the truth
    tables are indexed by the order in which each expression first mentions
    them: the nodes of [b1 && !b2] and [b2 && !b1], both normalized, compare
    as equal although one expression is true and the other false, and
    [cond_node_find] takes the one for the other. *)
Theorem cond_expr_equal_confuses :
  let a := normal_node (and_not 1 2) in
  let b := normal_node (and_not 2 1) in
  cond_normalize_expr sample_bools (sample_node (and_not 1 2)) = Some (0, sample_bools, a) /\
  cond_normalize_expr sample_bools (sample_node (and_not 2 1)) = Some (0, sample_bools, b) /\
  cond_expr_equal a b = Some true /\
  cond_evaluate_expr sample_bools (expr a) = Some 1 /\ cond_evaluate_expr sample_bools (expr b) = Some 0 /\
  cond_node_find sample_bools b [a] 0 [] = Some (Existing 0, []).
Proof. vm_compute. split_and!; reflexivity. Qed.

(** One boolean pushed eleven times and combined: too deep for the stack. *)
Definition deep_expr : list cond_expr :=
  replicate 11 (mk_cond_expr COND_BOOL 1) ++ replicate 10 (mk_cond_expr COND_AND 0).

(** When an expression turns out to be undefined, [cond_normalize_expr]
    returns -1 without restoring the booleans it was trying values on: the
    boolean that was on is off. *)
Theorem cond_normalize_expr_leaks :
  rho_of sample_bools 1 = true /\
  (fun '(rc, bs, _) => (rc, rho_of bs 1)) <$> cond_normalize_expr sample_bools (sample_node deep_expr) =
    Some (-1, false).
Proof. vm_compute. split; reflexivity. Qed.

(** ** Witnesses *)

Definition sample_exp (b b' : Z) : bexp := BBin BAnd (BVar b) (BNot (BVar b')).

Lemma sample_rpn b b' : rpn (sample_exp b b') (and_not b b').
Proof.
  apply (rpn_bin BAnd (BVar b) (BNot (BVar b')) [mk_cond_expr COND_BOOL b]
           ([mk_cond_expr COND_BOOL b'] ++ [mk_cond_expr COND_NOT 0])); [|apply rpn_not]; constructor.
Qed.

Lemma sample_ready : Forall (bool_ready sample_bools) [1; 2].
Proof. repeat constructor; eexists; (split; [vm_compute; reflexivity|]); simpl; auto. Qed.

Lemma cond_evaluate_expr_witness : cond_evaluate_expr sample_bools (and_not 1 2) = Some 1.
Proof. exact (cond_evaluate_expr_spec sample_bools (sample_exp 1 2) _ (sample_rpn 1 2) sample_ready). Defined.

Lemma cond_evaluate_expr_safe_witness :
  exists v, cond_evaluate_expr sample_bools (and_not 1 2) = Some v /\
    cond_evaluate_expr_on (replicate 9 7) sample_bools (and_not 1 2) = Some v /\ (v = -1 \/ v = 0 \/ v = 1).
Proof.
  apply cond_evaluate_expr_safe; [|reflexivity]. exact (rpn_operands_ok _ _ _ (sample_rpn 1 2) sample_ready).
Defined.

Lemma cond_normalize_expr_witness :
  let cn := sample_node (and_not 1 2 ++ [mk_cond_expr COND_NOT 0]) in
  exists cn' e', cond_normalize_expr sample_bools cn = Some (0, sample_bools, cn') /\
    normalized cn' e' /\ unnegated cn (BNot (sample_exp 1 2)) cn' e' /\
    (forall rho, branch cn' (beval rho e') = branch cn (beval rho (BNot (sample_exp 1 2)))) /\
    cur_state cn' = 0 /\ cn_flags cn' = 0.
Proof.
  apply (cond_normalize_expr_spec sample_bools (sample_node (and_not 1 2 ++ [mk_cond_expr COND_NOT 0])) (BNot (sample_exp 1 2)) (rpn_not _ _ 0 (sample_rpn 1 2)));
    [concrete|exact sample_ready|concrete|concrete].
Defined.

Lemma sample_normalized : normalized (normal_node (and_not 1 2)) (sample_exp 1 2).
Proof.
  split.
  - exact (sample_rpn 1 2).
  - reflexivity.
  - concrete.
  - intros _. split; [apply (bool_decide_unpack _); vm_compute; reflexivity|].
    change (ztake _ _) with [1; 2]. simpl. set_solver.
  - intros _. split; [concrete|]. intros rho.
    change (ztake _ _) with [1; 2]. change (expr_pre_comp _) with 2. cbn [encode beval sample_exp bop_fun].
    by destruct (rho 1), (rho 2).
Qed.

Lemma cond_expr_equal_witness :
  exists r, cond_expr_equal (normal_node (and_not 1 2)) (normal_node (and_not 1 2)) = Some r /\
    (2 <= COND_MAX_BOOLS -> 2 = 2 -> [1; 2] = [1; 2] ->
     (r = true <-> forall rho, beval rho (sample_exp 1 2) = beval rho (sample_exp 1 2))) /\
    (COND_MAX_BOOLS < 2 -> r = true -> forall rho, beval rho (sample_exp 1 2) = beval rho (sample_exp 1 2)).
Proof. exact (cond_expr_equal_spec _ _ _ _ sample_normalized sample_normalized). Defined.
