(* ===== verification/CondRules.v ===== *)
(** * CondRules: the rules of conditionals

    What the conditional part of a policy does to its rules: after
    [evaluate_conds] exactly the rules of the branch each expression selects
    are enabled, [cond_compute_av] grants what the enabled rules grant, and
    [cond_optimize_lists] only reorders. *)
From Stdlib Require Import ZArith Lia Bool.
From stdpp Require Import base option list list_numbers sets.
From S2P Require Import Prelude PolicyFile Mem Avtab AvtabThms Cond CondEval CondNorm.

(** ** Enabling a rule *)

Definition enabled (n : avtab_node) : bool := ctrue (Z.land (specified (key n)) AVTAB_ENABLED).

Definition spec16 (n : avtab_node) : Prop := in_range 16 (specified (key n)).

(** The same rule, but for the mark that says whether it is enabled. *)
Definition same_rule (n n' : avtab_node) : Prop :=
  source_type (key n') = source_type (key n) /\ target_type (key n') = target_type (key n) /\
  target_class (key n') = target_class (key n) /\ datum n' = datum n /\
  (forall i, 0 <= i -> i <> 15 -> Z.testbit (specified (key n')) i = Z.testbit (specified (key n)) i).

#[global] Instance same_rule_refl : Reflexive same_rule.
Proof. intros n. by split_and!. Qed.

#[global] Instance same_rule_trans : Transitive same_rule.
Proof.
  intros x y z (H1 & H2 & H3 & H4 & H5) (K1 & K2 & K3 & K4 & K5).
  split_and!; [congruence..|]. intros i Hi Hn. by rewrite K5, H5.
Qed.

Lemma enabled_bit_15 i : 0 <= i -> Z.testbit AVTAB_ENABLED i = (i =? 15).
Proof. intros. change AVTAB_ENABLED with (Z.shiftl 1 15). by apply one_shiftl_bit. Qed.

Lemma enabled_bit n : enabled n = Z.testbit (specified (key n)) 15.
Proof.
  unfold enabled, ctrue. destruct (Z.testbit _ 15) eqn:E.
  - apply negb_true_iff, Z.eqb_neq. intros H. apply (f_equal (fun x => Z.testbit x 15)) in H.
    by rewrite Z.land_spec, E in H.
  - apply negb_false_iff, Z.eqb_eq, Z.bits_inj'. intros i Hi. rewrite Z.land_spec, enabled_bit_15, Z.bits_0 by done.
    destruct (Z.eqb_spec i 15) as [->|]; [by rewrite E|]. apply andb_false_r.
Qed.

Lemma set_enabled_bit on n i :
  spec16 n -> 0 <= i ->
  Z.testbit (specified (key (set_enabled on n))) i = if i =? 15 then on else Z.testbit (specified (key n)) i.
Proof.
  intros Hn Hi. unfold set_enabled. cbn [key specified]. destruct on.
  - rewrite wrap_bit, Z.lor_spec, enabled_bit_15 by lia. destruct (Z.eqb_spec i 15) as [->|].
    + by rewrite orb_true_r.
    + rewrite orb_false_r. destruct (Z.ltb_spec i 16); [done|]. symmetry. by apply (testbit_high 16).
  - rewrite wrap_bit, Z.land_spec, lnot_w_bit, enabled_bit_15 by (lia || by vm_compute).
    destruct (Z.eqb_spec i 15) as [->|]; [by rewrite !andb_false_r|].
    rewrite andb_true_r. destruct (Z.ltb_spec i 16).
    + replace (i <? 32) with true by lia. by rewrite andb_true_r.
    + symmetry. by apply (testbit_high 16).
Qed.

Lemma set_enabled_enabled on n : spec16 n -> enabled (set_enabled on n) = on.
Proof. intros. by rewrite enabled_bit, set_enabled_bit. Qed.

Lemma set_enabled_same on n : spec16 n -> same_rule n (set_enabled on n).
Proof.
  intros Hn. split_and!; [done..|]. intros i Hi Hne. rewrite set_enabled_bit by done.
  by destruct (Z.eqb_spec i 15).
Qed.

Lemma set_enabled_spec16 on n : spec16 (set_enabled on n).
Proof. unfold spec16, set_enabled. destruct on; apply wrap_range; lia. Qed.

(** ** Switching lists of rules *)

Lemma switch_rules_ok on l rules :
  NoDup l -> Forall (fun p => p < length rules)%nat l ->
  exists rules', switch_rules on l rules = Some rules' /\ length rules' = length rules /\
    forall i, rules' !! i = if bool_decide (i ∈ l) then set_enabled on <$> rules !! i else rules !! i.
Proof.
  revert rules. induction l as [|p l IH]; intros rules ND Hl; [by exists rules|].
  apply NoDup_cons in ND as [Hp ND]. apply Forall_cons in Hl as [Hlt Hl]. cbn [switch_rules].
  destruct (lookup_lt_is_Some_2 rules p Hlt) as [n Hn]. rewrite Hn. cbn [mbind option_bind].
  destruct (IH (<[p := set_enabled on n]> rules) ND) as (rules' & E & HL & H).
  { by rewrite length_insert. }
  exists rules'. split; [done|]. split; [by rewrite HL, length_insert|]. intros i. rewrite H. destruct (decide (i = p)) as [->|Hne].
  - rewrite bool_decide_eq_false_2 by done. rewrite bool_decide_eq_true_2 by by left.
    by rewrite list_lookup_insert_eq, Hn.
  - rewrite list_lookup_insert_ne by done.
    rewrite (bool_decide_ext (i ∈ p :: l) (i ∈ l)) by (rewrite elem_of_cons; naive_solver). done.
Qed.

(** The rules of a conditional, and whether their marks agree with its state. *)
Definition node_rules (cn : cond_node) : list nat := true_list cn ++ false_list cn.
Definition all_rules (l : list cond_node) : list nat := mjoin (node_rules <$> l).

Definition in_sync (rules : list avtab_node) (cn : cond_node) : Prop :=
  (forall p n, p ∈ true_list cn -> rules !! p = Some n -> enabled n = (0 <? cur_state cn)) /\
  (forall p n, p ∈ false_list cn -> rules !! p = Some n -> enabled n = (cur_state cn =? 0)).

Lemma in_sync_frame rules rules' cn :
  (forall i, i ∈ node_rules cn -> rules' !! i = rules !! i) -> in_sync rules cn -> in_sync rules' cn.
Proof.
  unfold node_rules. intros H [Ht Hf]. split; intros p n Hp; rewrite H by set_solver; [by apply Ht|by apply Hf].
Qed.

(** [rules'] are the rules [rules], changed at most at the positions [l]. *)
Record rules_step (l : list nat) (rules rules' : list avtab_node) : Prop := {
  rs_length : length rules' = length rules;
  rs_same : forall i n, rules !! i = Some n -> exists n', rules' !! i = Some n' /\ same_rule n n' /\ spec16 n';
  rs_frame : forall i, i ∉ l -> rules' !! i = rules !! i
}.

Lemma rules_step_refl l rules : Forall spec16 rules -> rules_step l rules rules.
Proof.
  intros H. split; [done| |done]. intros i n Hi. exists n. split_and!; [done..|]. by eapply Forall_lookup_1.
Qed.

Lemma rules_step_trans l1 l2 r1 r2 r3 :
  rules_step l1 r1 r2 -> rules_step l2 r2 r3 -> rules_step (l1 ++ l2) r1 r3.
Proof.
  intros [L S F] [L' S' F']. split.
  - congruence.
  - intros i n Hn. destruct (S i n Hn) as (n' & Hn' & R & _). destruct (S' i n' Hn') as (n'' & Hn'' & R' & ?).
    exists n''. split_and!; [done| |done]. by transitivity n'.
  - intros i Hi. rewrite F', F; [done|set_solver..].
Qed.

Lemma rules_step_spec l rules rules' : rules_step l rules rules' -> Forall spec16 rules'.
Proof.
  intros [L S F]. apply Forall_lookup_2. intros i n Hn. pose proof (lookup_lt_Some _ _ _ Hn) as Hlt.
  rewrite L in Hlt. apply lookup_lt_is_Some_2 in Hlt as [m Hm]. destruct (S i m Hm) as (n' & E & _ & ?). by simplify_eq.
Qed.

Lemma switch_ok on l rules :
  NoDup l -> Forall (fun p => p < length rules)%nat l -> Forall spec16 rules ->
  exists rules', switch_rules on l rules = Some rules' /\ rules_step l rules rules' /\
    forall p n, p ∈ l -> rules' !! p = Some n -> enabled n = on.
Proof.
  intros ND Hl Hs. destruct (switch_rules_ok on l rules ND Hl) as (rules' & E & HL & H). exists rules'.
  split; [done|]. assert (Hin : forall i n, rules !! i = Some n -> spec16 n) by (intros; by eapply Forall_lookup_1).
  split.
  - split; [done| |].
    + intros i n Hn. rewrite H, Hn. case_bool_decide.
      * exists (set_enabled on n). split_and!; [done|apply set_enabled_same; by eapply Hin|apply set_enabled_spec16].
      * exists n. split_and!; [done..|by eapply Hin].
    + intros i Hi. by rewrite H, bool_decide_eq_false_2.
  - intros p n Hp Hn. rewrite H, bool_decide_eq_true_2 in Hn by done.
    destruct (rules !! p) as [m|] eqn:Hm; simpl in Hn; simplify_eq. apply set_enabled_enabled. by eapply Hin.
Qed.

(** ** Evaluating the conditionals *)

Definition lists_ok (rules : list avtab_node) (l : list nat) : Prop :=
  NoDup l /\ Forall (fun p => p < length rules)%nat l.

(** What becomes of the rules of a conditional whose expression has the value
    [st]: nothing if that is its state already, and else they are switched. *)
Definition switched (rules rules' : list avtab_node) (cn : cond_node) (st : Z) : Prop :=
  (st = cur_state cn -> forall i, i ∈ node_rules cn -> rules' !! i = rules !! i) /\
  (st <> cur_state cn \/ in_sync rules cn -> in_sync rules' (set_state cn st)).

Lemma switched_frame rules rules1 rules2 cn st :
  (forall i, i ∈ node_rules cn -> rules1 !! i = rules !! i) -> switched rules1 rules2 cn st -> switched rules rules2 cn st.
Proof.
  intros H [H1 H2]. split; [intros E i Hi; by rewrite (H1 E i Hi), H|]. intros [?|Hs]; apply H2; [by left|right]. by eapply in_sync_frame.
Qed.

Lemma switched_later rules rules1 rules2 cn st :
  (forall i, i ∈ node_rules cn -> rules2 !! i = rules1 !! i) -> switched rules rules1 cn st -> switched rules rules2 cn st.
Proof. intros H [H1 H2]. split; [intros E i Hi; by rewrite H, (H1 E i Hi)|]. intros Hs. eapply in_sync_frame; [exact H|]. by apply H2. Qed.

Lemma evaluate_node_ok bs rules cn :
  operands_ok bs (expr cn) -> lists_ok rules (node_rules cn) -> Forall spec16 rules ->
  exists rules' st, evaluate_cond_node bs rules cn = Some (rules', set_state cn st) /\
    cond_evaluate_expr bs (expr cn) = Some st /\
    rules_step (node_rules cn) rules rules' /\ switched rules rules' cn st.
Proof.
  intros Ho [ND Hl] Hs. unfold evaluate_cond_node.
  destruct (evaluate_total bs (expr cn) (replicate 9 0) Ho eq_refl) as (st & E & _ & Hst). rewrite E. cbn [mbind option_bind].
  destruct (Z.eqb_spec st (cur_state cn)) as [->|Hne]; cbn [negb].
  { exists rules, (cur_state cn). split_and!; [by destruct cn|done|by apply rules_step_refl|]. split; [done|]. intros [?|?]; [done|by destruct cn]. }
  unfold node_rules in *. apply NoDup_app in ND as (NDt & Hdisj & NDf). apply Forall_app in Hl as [Hlt Hlf].
  destruct (switch_ok (negb (st <=? 0)) (true_list cn) rules NDt Hlt Hs) as (r1 & E1 & S1 & V1).
  rewrite E1. cbn [mbind option_bind]. pose proof (rs_length _ _ _ S1) as L1.
  destruct (switch_ok (negb (ctrue st)) (false_list cn) r1 NDf) as (r2 & E2 & S2 & V2);
    [by rewrite L1|by eapply rules_step_spec|]. rewrite E2. cbn [mbind option_bind].
  exists r2, st. split_and!; [done|done|by eapply rules_step_trans|]. split; [done|]. intros _. split; cbn [true_list false_list cur_state set_state].
  - intros p n Hp Hn. rewrite (rs_frame _ _ _ S2) in Hn by (intros ?; by apply (Hdisj p)).
    rewrite (V1 p n) by done. destruct Hst as [->|[->| ->]]; done.
  - intros p n Hp Hn. rewrite (V2 p n) by done. unfold ctrue. apply negb_involutive.
Qed.

Lemma evaluate_loop_ok bs l rules :
  Forall (fun cn => operands_ok bs (expr cn)) l -> lists_ok rules (all_rules l) -> Forall spec16 rules ->
  exists rules' l', evaluate_loop bs rules l = Some (rules', l') /\
    rules_step (all_rules l) rules rules' /\
    Forall2 (fun cn cn' => exists st, cn' = set_state cn st /\ cond_evaluate_expr bs (expr cn) = Some st /\
               switched rules rules' cn st) l l'.
Proof.
  revert rules. induction l as [|cn l IH]; intros rules Ho [ND Hl] Hs.
  { exists rules, []. split_and!; [done|by apply rules_step_refl|constructor]. }
  unfold all_rules in *. cbn [fmap list_fmap mjoin list_join] in *.
  apply Forall_cons in Ho as [Hc Ho].
  apply NoDup_app in ND as (NDc & Hdisj & NDl). apply Forall_app in Hl as [Hlc Hll]. cbn [evaluate_loop].
  destruct (evaluate_node_ok bs rules cn Hc (conj NDc Hlc) Hs) as (r1 & st & E1 & Ev & S1 & Y1).
  rewrite E1. cbn [mbind option_bind].
  destruct (IH r1 Ho) as (r2 & l' & E2 & S2 & F2).
  { split; [done|]. by rewrite (rs_length _ _ _ S1). }
  { by eapply rules_step_spec. }
  rewrite E2. cbn [mbind option_bind]. exists r2, (set_state cn st :: l').
  split_and!; [done|by eapply rules_step_trans|]. constructor.
  - exists st. split_and!; [done..|]. eapply switched_later; [|exact Y1]. intros i Hi. apply (rs_frame _ _ _ S2). by apply Hdisj.
  - rewrite Forall2_lookup in F2 |- *. intros k. specialize (F2 k). inversion F2 as [c c' (st' & Ec & Hev & Hsw) Hk Hk'|]; constructor. exists st'. split_and!; [done..|].
    eapply switched_frame; [|exact Hsw]. intros i Hi. apply (rs_frame _ _ _ S1). intros Hi'. apply (Hdisj i Hi'). apply list_elem_of_join.
    exists (node_rules c). split; [done|]. apply list_elem_of_fmap. exists c. split; [done|]. by eapply list_elem_of_lookup_2.
Qed.

(** C34: for conditionals over booleans the policy has and in which no rule
    belongs to two lists: [evaluate_conds] returns, and the state of every
    conditional is then the value of its expression.  If that is a new state,
    or the marks of its rules agreed with the state before, exactly the rules of
    the selected branch are enabled (none when the value is undefined); if the
    state is the old one, the rules of the conditional are left as they were,
    whether their marks agree with it or not.  Rules are changed in nothing but
    the mark, and those that belong to no conditional not at all. *)
Theorem evaluate_conds_spec p :
  Forall (fun cn => operands_ok (bool_val_to_struct p) (expr cn)) (cond_list p) ->
  lists_ok (cond_rules p) (all_rules (cond_list p)) -> Forall spec16 (cond_rules p) ->
  exists p', evaluate_conds p = Some p' /\ bool_val_to_struct p' = bool_val_to_struct p /\
    rules_step (all_rules (cond_list p)) (cond_rules p) (cond_rules p') /\
    Forall2 (fun cn cn' => exists st, cn' = set_state cn st /\
               cond_evaluate_expr (bool_val_to_struct p) (expr cn) = Some st /\
               switched (cond_rules p) (cond_rules p') cn st) (cond_list p) (cond_list p').
Proof.
  intros Ho Hl Hs. unfold evaluate_conds.
  destruct (evaluate_loop_ok _ _ _ Ho Hl Hs) as (r & l' & E & S & F). rewrite E. cbn [mbind option_bind].
  eexists. split; [done|]. by split_and!.
Qed.

(** ** The decision *)

Lemma compute_visit fuel node spec avd l :
  visit_nodes fuel node spec = Some l -> compute_loop fuel node spec avd = Some (fold_left compute_node l avd).
Proof.
  revert node avd l. induction fuel as [|fuel IH]; intros [[n next]|] avd l H; cbn [visit_nodes compute_loop] in *; try by simplify_eq.
  destruct (visit_nodes fuel _ spec) as [l'|] eqn:E; [|done]. simplify_eq. cbn [fold_left]. by apply IH.
Qed.

(** The union and the intersection of the permissions of the rules of a kind. *)
Definition perms_or (flag : Z) (l : list avtab_node) (start : Z) : Z :=
  fold_left (fun a n => Z.lor a (data (datum n))) (filter (fun n => enabled_with flag n) l) start.
Definition perms_and (flag : Z) (l : list avtab_node) (start : Z) : Z :=
  fold_left (fun a n => Z.land a (data (datum n))) (filter (fun n => enabled_with flag n) l) start.

Lemma compute_fold l avd :
  fold_left compute_node l avd =
    mk_av_decision (perms_or AVTAB_ALLOWED l (allowed avd)) (decided avd)
      (perms_or AVTAB_AUDITALLOW l (auditallow avd)) (perms_and AVTAB_AUDITDENY l (auditdeny avd)) (seqno avd).
Proof.
  revert avd. induction l as [|n l IH]; intros avd; [by destruct avd|]. cbn [fold_left]. rewrite IH.
  unfold perms_or, perms_and, compute_node. rewrite !filter_cons.
  destruct (enabled_with AVTAB_ALLOWED n), (enabled_with AVTAB_AUDITDENY n), (enabled_with AVTAB_AUDITALLOW n); done.
Qed.

Lemma perms_or_bit flag l start i :
  0 <= i ->
  Z.testbit (perms_or flag l start) i =
    Z.testbit start i || existsb (fun n => enabled_with flag n && Z.testbit (data (datum n)) i) l.
Proof.
  intros Hi. unfold perms_or. revert start. induction l as [|n l IH]; intros start; cbn [existsb].
  { by rewrite orb_false_r. }
  rewrite filter_cons. destruct (enabled_with flag n).
  - rewrite decide_True by done. cbn [fold_left]. by rewrite IH, Z.lor_spec, orb_assoc.
  - rewrite decide_False by by intros []. by rewrite IH.
Qed.

Lemma perms_and_bit flag l start i :
  0 <= i ->
  Z.testbit (perms_and flag l start) i =
    Z.testbit start i && forallb (fun n => implb (enabled_with flag n) (Z.testbit (data (datum n)) i)) l.
Proof.
  intros Hi. unfold perms_and. revert start. induction l as [|n l IH]; intros start; cbn [forallb].
  { by rewrite andb_true_r. }
  rewrite filter_cons. destruct (enabled_with flag n).
  - rewrite decide_True by done. cbn [fold_left implb]. by rewrite IH, Z.land_spec, andb_assoc.
  - rewrite decide_False by by intros []. by rewrite IH.
Qed.


(** ** The order of the rules *)

Definition is_type (rules : list avtab_node) (p : nat) : Prop :=
  exists n, rules !! p = Some n /\ ctrue (Z.land (specified (key n)) AVTAB_TYPE) = true.

#[global] Instance is_type_dec rules p : Decision (is_type rules p).
Proof.
  refine (match rules !! p as o return (rules !! p = o -> _) with
          | Some n => fun E => cast_if (decide (ctrue (Z.land (specified (key n)) AVTAB_TYPE) = true))
          | None => fun E => right _ end eq_refl); unfold is_type; naive_solver.
Defined.

Lemma optimize_loop_ok rules types others cur :
  Forall (fun p => p < length rules)%nat cur -> Forall (is_type rules) types -> Forall (fun p => ~ is_type rules p) others ->
  optimize_loop rules (types ++ others) cur =
    Some (reverse (filter (is_type rules) cur) ++ types ++ others ++ filter (fun p => ~ is_type rules p) cur).
Proof.
  revert types others. induction cur as [|p cur IH]; intros types others Hc Ht Ho.
  { cbn [optimize_loop]. rewrite !filter_nil. simpl. by rewrite app_nil_r. }
  apply Forall_cons in Hc as [Hp Hc]. cbn [optimize_loop].
  destruct (lookup_lt_is_Some_2 rules p Hp) as [n Hn]. rewrite Hn. cbn [mbind option_bind].
  rewrite !filter_cons. destruct (decide (is_type rules p)) as [Hy|Hno].
  - assert (ctrue (Z.land (specified (key n)) AVTAB_TYPE) = true) as -> by (destruct Hy as (? & ? & ?); congruence).
    rewrite (decide_False (P := ~ is_type rules p)) by tauto. rewrite reverse_cons. cbn [andb].
    destruct (decide (types ++ others = [])) as [E|E].
    + rewrite bool_decide_eq_true_2 by done. cbn [negb]. apply app_eq_nil in E as [-> ->].
      cbn [app]. rewrite <- app_assoc. apply (IH [p] []); [done|by constructor|done].
    + rewrite bool_decide_eq_false_2 by done. cbn [negb]. rewrite <- app_assoc. apply (IH (p :: types) others); [done|by constructor|done].
  - assert (ctrue (Z.land (specified (key n)) AVTAB_TYPE) = false) as ->.
    { apply not_true_is_false. intros ?. apply Hno. by exists n. }
    rewrite decide_True by done. cbn [andb]. rewrite <- app_assoc. rewrite (IH types (others ++ [p])).
    + by rewrite <- !app_assoc.
    + done.
    + done.
    + apply Forall_app. split; [done|by apply Forall_singleton].
Qed.

(** [cond_optimize] puts the type rules first, the latest of them on top, and
    keeps the order of the others. *)
Theorem cond_optimize_spec rules l :
  Forall (fun p => p < length rules)%nat l ->
  cond_optimize rules l = Some (reverse (filter (is_type rules) l) ++ filter (fun p => ~ is_type rules p) l).
Proof. intros Hl. by apply (optimize_loop_ok rules [] [] l). Qed.

(** ** Witnesses *)

Definition rule_at (spec : Z) : avtab_node := mk_avtab_node (sample_rule 1 2 3 spec) (mk_avtab_datum 7 None).

(** The conditional [b1 && !b2] still in the state "false": its first rule is
    disabled and its second one, of the else branch, enabled. *)
Definition sample_policy : cond_policydb :=
  mk_cond_policydb sample_bools [rule_at AVTAB_ALLOWED; rule_at (Z.lor AVTAB_TRANSITION AVTAB_ENABLED)]
    [sample_node (and_not 1 2)].

Lemma evaluate_conds_witness :
  exists p', evaluate_conds sample_policy = Some p' /\ bool_val_to_struct p' = sample_bools /\
    rules_step [0%nat; 1%nat] (cond_rules sample_policy) (cond_rules p') /\
    Forall2 (fun cn cn' => exists st, cn' = set_state cn st /\
               cond_evaluate_expr sample_bools (expr cn) = Some st /\
               switched (cond_rules sample_policy) (cond_rules p') cn st) [sample_node (and_not 1 2)] (cond_list p').
Proof.
  apply (evaluate_conds_spec sample_policy).
  - constructor; [exact (rpn_operands_ok _ _ _ (sample_rpn 1 2) sample_ready)|constructor].
  - split; [apply (bool_decide_unpack _); vm_compute; reflexivity|repeat constructor].
  - concrete.
Defined.

Example sample_switched :
  (fun p => map enabled (cond_rules p)) <$> evaluate_conds sample_policy = Some [true; false].
Proof. reflexivity. Qed.


Lemma cond_optimize_witness :
  cond_optimize (cond_rules sample_policy) [0%nat; 1%nat] =
    Some (reverse (filter (is_type (cond_rules sample_policy)) [0%nat; 1%nat]) ++
          filter (fun p => ~ is_type (cond_rules sample_policy) p) [0%nat; 1%nat]).
Proof. apply cond_optimize_spec. repeat constructor. Defined.
