(* ===== verification/Codec.v ===== *)
(** * Codec: reading and writing parts of a binary policy

    The functions of libsepol's policydb.c and write.c that read or write a
    part of a policy are chains of accesses to the policy file, each followed
    by a test that leaves for an error label.  Here they are written in two
    small monads:
    - [R A], readers: the policy file and the allocator are threaded through,
      and a reader gives a value or fails.  What a failing function has
      already built is freed by the code, and its callers test only whether
      the return code is 0; a failure is therefore [None];
    - [W], writers: return code and file.

    [reads m img Q]: in front of the bytes [img] of a memory image, with no
    failing allocation, [m] consumes exactly [img] and gives a value in [Q].
    [writes w img]: into a memory image with enough room [w] appends exactly
    [img].  [sound m Q]: on any bytes, if [m] gives a value it is in [Q].
    The three compose along the monads, so that the facts about a composite
    function follow its text. *)
From Stdlib Require Import ZArith Lia Bool.
From stdpp Require Import base option list list_numbers gmap sets.
From S2P Require Import Prelude PolicyFile Ebitmap EbitmapThms EbitmapIO Hashtab HashtabThms Symtab Avtab AvtabThms AvtabIO.

(** ** Readers *)

Definition R (A : Type) : Type := policy_file -> oracle -> option A * policy_file * oracle.

Definition rret {A} (a : A) : R A := fun fp o => (Some a, fp, o).
Definition rfail {A} : R A := fun fp o => (None, fp, o).
Definition rbind {A B} (m : R A) (k : A -> R B) : R B :=
  fun fp o =>
    match m fp o with
    | (Some a, fp, o) => k a fp o
    | (None, fp, o) => (None, fp, o)
    end.

Notation "x <~ m ;; k" := (rbind m (fun x => k)) (at level 100, m at next level, right associativity).
Notation "m ~; k" := (rbind m (fun _ => k)) (at level 100, right associativity).

(** [if (!(b)) goto bad]. *)
Definition rcheck (b : bool) : R unit := if b then rret tt else rfail.

(** [malloc] or [calloc] with its test. *)
Definition ralloc : R unit :=
  fun fp o => let '(ok, o) := malloc o in ((if ok then Some tt else None), fp, o).

(** [rc = next_entry(buf, fp, bytes); if (rc < 0) goto bad]. *)
Definition rentry (bytes : Z) : R (list Z) :=
  fun fp o => let '(rc, buf, fp) := next_entry fp bytes in ((if rc <? 0 then None else Some buf), fp, o).

(** [if (ebitmap_read(&e, fp)) goto bad]. *)
Definition rebitmap : R ebitmap :=
  fun fp o => let '(rc, e, fp, o) := ebitmap_read fp o in ((if ctrue rc then None else Some e), fp, o).

(** [if (hashtab_insert(h, key, datum)) goto bad]. *)
Definition rinsert {K D} `{!KeyOps K} (h : option (hashtab K D)) (k : K) (d : D) : R (option (hashtab K D)) :=
  fun fp o => let '(rc, h, o) := hashtab_insert h k d o in ((if ctrue rc then None else Some h), fp, o).

(** [for (i = 0; i < n; i++)] around a reader that updates a state. *)
Fixpoint rloop {S} (n : nat) (f : S -> R S) (s : S) : R S :=
  match n with
  | O => rret s
  | S n => s <~ f s ;; rloop n f s
  end.

(** The string in a buffer of characters: up to the first NUL. *)
Fixpoint cstr (buf : list Z) : cstring :=
  match buf with
  | [] => []
  | c :: buf => if c =? 0 then [] else c :: cstr buf
  end.

Definition str_read (len : Z) : R cstring :=
  fun fp o =>
    if zero_or_saturated 64 len || exceeds_available_bytes fp len 1 then (None, fp, o) else
    let '(ok, o) := malloc o in
    if negb ok then (None, fp, o) else
    let '(rc, buf, fp) := next_entry fp len in
    if ctrue rc then (None, fp, o) else (Some (cstr buf), fp, o).

(** ** Writers *)

Definition W : Type := policy_file -> Z * policy_file.

Definition wdone : W := fun fp => (POLICYDB_SUCCESS, fp).
Definition wfail : W := fun fp => (POLICYDB_ERROR, fp).

(** [if (w(fp)) return POLICYDB_ERROR]. *)
Definition wseq (w1 w2 : W) : W :=
  fun fp => let '(rc, fp) := w1 fp in if ctrue rc then (POLICYDB_ERROR, fp) else w2 fp.

Notation "w1 ~> w2" := (wseq w1 w2) (at level 101, right associativity).

(** [items = put_entry(ptr, size, n, fp); if (items != n) return POLICYDB_ERROR]. *)
Definition wput (ptr : list Z) (size n : Z) : W :=
  fun fp => let '(items, fp) := put_entry ptr size n fp in
            if negb (items =? n) then (POLICYDB_ERROR, fp) else (POLICYDB_SUCCESS, fp).

(** The words [ws], stored in [buf] with [cpu_to_le32], in one call. *)
Definition wwords (ws : list Z) : W := wput (words32 ws) 4 (zlength ws).

(** [put_entry(key, 1, strlen(key), fp)]. *)
Definition wstr (key : cstring) : W := wput key 1 (zlength key).

Fixpoint wlist {A} (f : A -> W) (l : list A) : W :=
  match l with
  | [] => wdone
  | x :: l => f x ~> wlist f l
  end.

(** [hashtab_map(table, write_one, fp)]. *)
Definition wtable {K D} (h : option (hashtab K D)) (write_one : K -> D -> W) : W :=
  fun fp => hashtab_map h (fun k d fp => write_one k d fp) fp.

(** ** The triples *)

Definition reads {A} (m : R A) (img : list Z) (Q : A -> Prop) : Prop :=
  forall fp rest o, mem_ready fp -> mem_ok o -> pf_data fp = img ++ rest ->
  exists a o', m fp o = (Some a, with_data fp rest, o') /\ mem_ok o' /\ Q a.

Definition writes (w : W) (img : list Z) : Prop :=
  forall fp, room fp (zlength img) -> w fp = (POLICYDB_SUCCESS, wrote fp img).

Definition sound {A} (m : R A) (Q : A -> Prop) : Prop :=
  forall fp o a fp' o', pf_bytes fp -> m fp o = (Some a, fp', o') -> Q a /\ pf_bytes fp'.

(** *** Readers in front of an image *)

Lemma with_data_same fp : mem_ready fp -> with_data fp (pf_data fp) = fp.
Proof. intros [H1 H2]. unfold with_data. rewrite <- H1, <- H2. by destruct fp. Qed.

Lemma reads_ret {A} (a : A) (Q : A -> Prop) : Q a -> reads (rret a) [] Q.
Proof. intros HQ fp rest o Hfp M Hd. simpl in Hd. exists a, o. by rewrite <- Hd, with_data_same. Qed.

Lemma reads_bind {A B} (m : R A) (k : A -> R B) i1 i2 (P : A -> Prop) (Q : B -> Prop) :
  reads m i1 P -> (forall a, P a -> reads (k a) i2 Q) -> reads (rbind m k) (i1 ++ i2) Q.
Proof.
  intros Hm Hk fp rest o Hfp M Hd. rewrite <- app_assoc in Hd.
  destruct (Hm fp (i2 ++ rest) o Hfp M Hd) as (a & o1 & E & M1 & Ha).
  destruct (Hk a Ha (with_data fp (i2 ++ rest)) rest o1) as (b & o2 & E2 & M2 & Hb); [done..|].
  exists b, o2. unfold rbind. by rewrite E, E2, with_data_twice.
Qed.

Lemma reads_mono {A} (m : R A) img (P Q : A -> Prop) : reads m img P -> (forall a, P a -> Q a) -> reads m img Q.
Proof. intros H HPQ fp rest o Hfp M Hd. destruct (H fp rest o Hfp M Hd) as (a & o' & ? & ? & ?). eauto 10. Qed.

(** A first step that consumes nothing. *)
Lemma reads_step {A B} (m : R A) (k : A -> R B) img (P : A -> Prop) (Q : B -> Prop) :
  reads m [] P -> (forall a, P a -> reads (k a) img Q) -> reads (rbind m k) img Q.
Proof. intros. by apply (reads_bind m k [] img P Q). Qed.

Lemma reads_alloc {B} (k : unit -> R B) img Q : reads (k tt) img Q -> reads (rbind ralloc k) img Q.
Proof.
  intros Hk. apply (reads_step _ _ _ (fun _ => True)); [|by intros []].
  intros fp rest o Hfp M Hd. unfold ralloc. destruct (malloc o) as [ok o'] eqn:E.
  destruct (malloc_mem_ok _ _ _ E M) as [-> M']. exists tt, o'. simpl in Hd. by rewrite <- Hd, with_data_same.
Qed.

Lemma reads_check {B} b (k : unit -> R B) img Q : b = true -> reads (k tt) img Q -> reads (rbind (rcheck b) k) img Q.
Proof. intros -> Hk. apply (reads_step _ _ _ (fun _ => True)); [by apply reads_ret|by intros []]. Qed.

Lemma reads_entry bs n : n = zlength bs -> reads (rentry n) bs (eq bs).
Proof.
  intros -> fp rest o Hfp M Hd. exists bs, o. unfold rentry. by rewrite (next_entry_app fp bs rest _ Hfp Hd eq_refl).
Qed.

(** Reading an array of words and going on with its elements. *)
Lemma reads_words {B} (k : list Z -> R B) ws n img Q :
  n = 4 * zlength ws -> reads (k (words32 ws)) img Q -> reads (rbind (rentry n) k) (words32 ws ++ img) Q.
Proof.
  intros -> Hk. eapply reads_bind; [apply (reads_entry (words32 ws)); by rewrite zlength_words32|]. by intros _ <-.
Qed.

Lemma reads_ebitmap e : ebitmap_ok e -> reads rebitmap (ebitmap_image e) (eq e).
Proof.
  intros He fp rest o Hfp M Hd. destruct (ebitmap_read_image e fp rest o He Hfp M Hd) as [o' E].
  exists e, o'. unfold rebitmap. rewrite E. split_and!; [done| |done]. by eapply ebitmap_read_mem_ok.
Qed.

(** A name that can be stored: not empty, of bytes none of which is NUL. *)
Definition name_ok (s : cstring) : Prop := s <> [] /\ zlength s < 2 ^ 32 /\ Forall (fun c => 0 < c < 256) s.

Lemma cstr_name s : Forall (fun c => 0 < c < 256) s -> cstr s = s.
Proof.
  induction 1 as [|c s Hc _ IH]; [done|]. simpl. destruct (Z.eqb_spec c 0); [lia|]. by rewrite IH.
Qed.

Lemma zlength_name s : name_ok s -> 0 < zlength s < 2 ^ 32.
Proof. intros (Hne & Hl & _). split; [|done]. unfold zlength. destruct s; [done|simpl; lia]. Qed.

Lemma reads_str s : name_ok s -> reads (str_read (zlength s)) s (eq s).
Proof.
  intros Hs fp rest o Hfp M Hd. pose proof (zlength_name s Hs) as Hl. destruct Hs as (_ & _ & Hc).
  unfold str_read. assert (zero_or_saturated 64 (zlength s) = false) as -> by (unfold zero_or_saturated; lia).
  assert (exceeds_available_bytes fp (zlength s) 1 = false) as ->.
  { unfold exceeds_available_bytes. destruct Hfp as [-> ->]. rewrite Hd, zlength_app. pose proof (zlength_nonneg rest).
    repeat case_match; lia. }
  cbn [orb]. destruct (malloc o) as [ok o'] eqn:E. destruct (malloc_mem_ok _ _ _ E M) as [-> M']. cbn [negb].
  rewrite (next_entry_app fp s rest _ Hfp Hd eq_refl). cbn [ctrue Z.eqb negb]. rewrite cstr_name by done. eauto 10.
Qed.

Lemma insert_mem_ok {K D} `{!KeyOps K} (h : hashtab K D) k d o rc h' o' :
  hashtab_insert (Some h) k d o = (rc, h', o') -> mem_ok o -> mem_ok o'.
Proof.
  unfold hashtab_insert. intros H M. case_match; [by simplify_eq|].
  destruct (hashtab_check_resize h o) as [h1 o1] eqn:E. pose proof (resize_mem_ok _ _ _ _ E M) as M1.
  case_match; [|by simplify_eq]. destruct (malloc o1) as [ok o2] eqn:E2. destruct (malloc_mem_ok _ _ _ E2 M1) as [-> M2].
  cbn [negb] in H. by simplify_eq.
Qed.

Lemma reads_insert {K D} `{!EqDecision K, !Countable K, !KeyOps K, !KeyLaws K} (h : hashtab K D) k d :
  hashtab_ok h -> ht_nel h < 2 ^ 32 - 1 -> hashtab_abs h !! k = None ->
  reads (rinsert (Some h) k d) []
    (fun t => exists h', t = Some h' /\ hashtab_ok h' /\ hashtab_abs h' = <[k := d]> (hashtab_abs h)).
Proof.
  intros Hok Hn Hk fp rest o Hfp M Hd. simpl in Hd. unfold rinsert.
  pose proof (hashtab_insert_ok h k d o Hok) as Hp. destruct (hashtab_insert (Some h) k d o) as [[rc h'] o'] eqn:E.
  pose proof (insert_mem_ok _ _ _ _ _ _ _ E M) as M'.
  destruct Hp as (h2 & -> & Hok2 & [(-> & _ & Habs)|[(_ & [? Hs] & _)|(_ & _ & [Hfull|Hmem])]]);
    [|by rewrite Hk in Hs|lia|done].
  exists (Some h2), o'. rewrite <- Hd, with_data_same by done. split_and!; [done..|]. eauto.
Qed.

(** A loop that reads the images of a list, one after the other. *)
Lemma reads_loop {S A} (f : S -> R S) (img : A -> list Z) (l : list A) (Inv : list A -> S -> Prop) s :
  Inv [] s ->
  (forall done x todo s, l = done ++ x :: todo -> Inv done s -> reads (f s) (img x) (Inv (done ++ [x]))) ->
  reads (rloop (length l) f s) (concat (map img l)) (Inv l).
Proof.
  intros H0 Hstep. cut (forall todo done s, l = done ++ todo -> Inv done s ->
    reads (rloop (length todo) f s) (concat (map img todo)) (Inv l)).
  { intros H. by apply (H l []). }
  induction todo as [|x todo IH]; intros done s' Hl Hi.
  - rewrite app_nil_r in Hl. subst done. by apply reads_ret.
  - cbn [length rloop map concat]. eapply reads_bind; [by eapply Hstep|].
    intros s1 Hs1. apply (IH (done ++ [x])); [|done]. by rewrite <- app_assoc.
Qed.

(** *** Writers *)

Lemma writes_done : writes wdone [].
Proof. intros fp _. unfold wdone. by rewrite wrote_nil. Qed.

Lemma writes_seq w1 w2 i1 i2 : writes w1 i1 -> writes w2 i2 -> writes (w1 ~> w2) (i1 ++ i2).
Proof.
  intros H1 H2 fp Hr. rewrite zlength_app in Hr. pose proof (zlength_nonneg i2).
  unfold wseq. rewrite H1 by (eapply room_le; [|exact Hr]; lia). cbn [ctrue POLICYDB_SUCCESS Z.eqb negb].
  rewrite H2 by (by apply room_wrote). by rewrite wrote_app.
Qed.

Lemma writes_put bs size n : zlength bs = size * n -> 0 <= size * n -> writes (wput bs size n) bs.
Proof. intros Hb H0 fp Hr. unfold wput. rewrite put_entry_room by (done || by rewrite <- Hb). by rewrite Z.eqb_refl. Qed.

Lemma writes_words ws : writes (wwords ws) (words32 ws).
Proof. apply writes_put; [apply zlength_words32|]. pose proof (zlength_nonneg ws). lia. Qed.

Lemma writes_str s : writes (wstr s) s.
Proof. apply writes_put; [lia|]. pose proof (zlength_nonneg s). lia. Qed.

Lemma writes_ebitmap e : ebitmap_ok e -> writes (ebitmap_write e) (ebitmap_image e).
Proof. intros He fp Hr. by apply ebitmap_write_ok. Qed.

Lemma writes_list {A} (f : A -> W) (img : A -> list Z) l :
  Forall (fun x => writes (f x) (img x)) l -> writes (wlist f l) (concat (map img l)).
Proof. induction 1 as [|x l Hx _ IH]; [apply writes_done|]. cbn [wlist map concat]. by apply writes_seq. Qed.

(** What a table writes: the images of its bindings, in the order of its chains. *)
Definition bindings {K D} (h : option (hashtab K D)) : list (K * D) :=
  match h with Some h => concat (htable h) | None => [] end.

Definition table_image {K D} (img : K -> D -> list Z) (h : option (hashtab K D)) : list Z :=
  concat (map (fun b => img b.1 b.2) (bindings h)).

Lemma writes_table {K D} (h : option (hashtab K D)) write_one img :
  Forall (fun b => writes (write_one b.1 b.2) (img b.1 b.2)) (bindings h) ->
  writes (wtable h write_one) (table_image img h).
Proof.
  unfold wtable, table_image, hashtab_map. destruct h as [h|]; [|intros _; apply writes_done]. cbn [bindings].
  intros Hall fp Hr. rewrite table_map_flat. revert fp Hr.
  induction Hall as [|b l Hb _ IH]; intros fp Hr; cbn [chain_map map concat] in *.
  { by rewrite wrote_nil. }
  rewrite zlength_app in Hr. pose proof (zlength_nonneg (concat (map (fun b => img b.1 b.2) l))).
  rewrite Hb by (eapply room_le; [|exact Hr]; lia). cbn [ctrue POLICYDB_SUCCESS Z.eqb negb].
  rewrite IH by (by apply room_wrote). by rewrite wrote_app.
Qed.

(** *** Readers on any bytes *)

Lemma sound_ret {A} (a : A) (Q : A -> Prop) : Q a -> sound (rret a) Q.
Proof. intros H fp o a' fp' o' Hb E. unfold rret in E. by simplify_eq. Qed.

Lemma sound_bind {A B} (m : R A) (k : A -> R B) (P : A -> Prop) (Q : B -> Prop) :
  sound m P -> (forall a, P a -> sound (k a) Q) -> sound (rbind m k) Q.
Proof.
  intros Hm Hk fp o b fp' o' Hb E. unfold rbind in E. destruct (m fp o) as [[[a|] fp1] o1] eqn:E1; [|done].
  destruct (Hm _ _ _ _ _ Hb E1) as [Ha Hb1]. by eapply Hk.
Qed.

Lemma sound_mono {A} (m : R A) (P Q : A -> Prop) : sound m P -> (forall a, P a -> Q a) -> sound m Q.
Proof. intros H HPQ fp o a fp' o' Hb E. destruct (H _ _ _ _ _ Hb E). auto. Qed.

Lemma sound_fail {A} (Q : A -> Prop) : sound rfail Q.
Proof. by intros fp o a fp' o' Hb E. Qed.

Lemma sound_alloc : sound ralloc (fun _ => True).
Proof. intros fp o a fp' o' Hb E. unfold ralloc in E. destruct (malloc o) as [[] ?]; by simplify_eq. Qed.

Lemma sound_check b : sound (rcheck b) (fun _ => b = true).
Proof. destruct b; [by apply sound_ret|apply sound_fail]. Qed.

Lemma sound_entry n : sound (rentry n) (fun buf => bytes_ok buf /\ (length buf <= Z.to_nat n)%nat).
Proof.
  intros fp o a fp' o' Hb E. unfold rentry in E. destruct (next_entry fp n) as [[rc buf] fp1] eqn:E1.
  destruct (next_entry_bytes _ _ _ _ _ Hb E1) as (Hb1 & Hbuf & Hl & _). destruct (rc <? 0); by simplify_eq.
Qed.

Lemma cstr_ok buf : bytes_ok buf -> Forall (fun c => 0 < c < 256) (cstr buf).
Proof.
  induction 1 as [|c buf Hc _ IH]; [constructor|]. simpl. destruct (Z.eqb_spec c 0); constructor; [|done].
  unfold in_range in Hc. lia.
Qed.

Lemma sound_str len : sound (str_read len) (Forall (fun c => 0 < c < 256)).
Proof.
  intros fp o a fp' o' Hb E. unfold str_read in E. case_match; [done|]. destruct (malloc o) as [[] ?]; [|done]. cbn [negb] in E.
  destruct (next_entry fp len) as [[rc buf] fp1] eqn:E1.
  destruct (next_entry_bytes _ _ _ _ _ Hb E1) as (Hb1 & Hbuf & _ & _). case_match; simplify_eq. split; [by apply cstr_ok|done].
Qed.
