(* ===== verification/Symbols.v ===== *)
(** * Symbols: the symbols of a policy and their binary form

    Data of libsepol/include/sepol/policydb/policydb.h, constraint.h and
    mls_types.h, the [*_read] functions of libsepol/src/policydb.c and the
    [*_write] functions of libsepol/src/write.c for the eight symbol tables of
    a policy (commons, classes, roles, types, users, booleans, sensitivities,
    categories), and the loops of [policydb_read] and [policydb_write] over
    them.  The pointer [comdatum] of a class is what its [comkey] finds in the
    table of commons, and is not stored a second time; the fields [cache] of
    roles and users, and [notdefined] of levels, are neither read nor
    written. *)
From Stdlib Require Import ZArith Lia Bool.
From stdpp Require Import base option list list_numbers gmap sets.
From S2P Require Import Prelude PolicyFile Ebitmap EbitmapThms EbitmapIO Hashtab HashtabThms Symtab Avtab AvtabIO Cond Codec.

(** ** Versions *)

Definition POLICY_KERN : Z := 0.
Definition POLICY_BASE : Z := 1.
Definition POLICY_MOD : Z := 2.
Definition POLICYDB_VERSION_VALIDATETRANS : Z := 19.
Definition POLICYDB_VERSION_MLS : Z := 19.
Definition POLICYDB_VERSION_BOUNDARY : Z := 24.
Definition POLICYDB_VERSION_NEW_OBJECT_DEFAULTS : Z := 27.
Definition POLICYDB_VERSION_DEFAULT_TYPE : Z := 28.
Definition POLICYDB_VERSION_CONSTRAINT_NAMES : Z := 29.
Definition POLICYDB_VERSION_GLBLUB : Z := 32.
Definition MOD_POLICYDB_VERSION_VALIDATETRANS : Z := 5.
Definition MOD_POLICYDB_VERSION_MLS : Z := 5.
Definition MOD_POLICYDB_VERSION_MLS_USERS : Z := 6.
Definition MOD_POLICYDB_VERSION_PERMISSIVE : Z := 8.
Definition MOD_POLICYDB_VERSION_BOUNDARY : Z := 9.
Definition MOD_POLICYDB_VERSION_BOUNDARY_ALIAS : Z := 10.
Definition MOD_POLICYDB_VERSION_ROLEATTRIB : Z := 13.
Definition MOD_POLICYDB_VERSION_TUNABLE_SEP : Z := 14.
Definition MOD_POLICYDB_VERSION_NEW_OBJECT_DEFAULTS : Z := 15.
Definition MOD_POLICYDB_VERSION_DEFAULT_TYPE : Z := 16.
Definition MOD_POLICYDB_VERSION_GLBLUB : Z := 20.

(** What the functions ask of the policy, and whether [char] is signed on the
    machine. *)
Record pol := mk_pol { policy_type : Z; pol_vers : Z; char_signed : bool }.

Definition is_kern (p : pol) : bool := policy_type p =? POLICY_KERN.

(** [policy_type == POLICY_KERN && policyvers >= kern || policy_type == POLICY_BASE && policyvers >= base]. *)
Definition kern_or_base (p : pol) (kern base : Z) : bool :=
  (is_kern p && (kern <=? pol_vers p)) || ((policy_type p =? POLICY_BASE) && (base <=? pol_vers p)).

Definition policydb_has_boundary_feature (p : pol) : bool :=
  (is_kern p && (POLICYDB_VERSION_BOUNDARY <=? pol_vers p)) ||
  (negb (is_kern p) && (MOD_POLICYDB_VERSION_BOUNDARY <=? pol_vers p)).

(** An integer stored in a [char]. *)
Definition to_char (p : pol) (x : Z) : Z :=
  let c := u8 x in if char_signed p && (128 <=? c) then c - 256 else c.

(** ** Data *)

Record type_set := mk_type_set { ts_types : ebitmap; ts_negset : ebitmap; ts_flags : Z }.
Record role_set := mk_role_set { rs_roles : ebitmap; rs_flags : Z }.
Record perm_datum := mk_perm_datum { perm_value : Z }.
Record common_datum := mk_common_datum { com_value : Z; com_permissions : symtab perm_datum }.

Definition CEXPR_MAXDEPTH : Z := 5.
Definition CEXPR_NOT : Z := 1.
Definition CEXPR_AND : Z := 2.
Definition CEXPR_OR : Z := 3.
Definition CEXPR_ATTR : Z := 4.
Definition CEXPR_NAMES : Z := 5.
Definition CEXPR_XTARGET : Z := 16.

Record constraint_expr := mk_constraint_expr {
  ce_type : Z; ce_attr : Z; ce_op : Z; ce_names : ebitmap; ce_type_names : type_set }.
Record constraint_node := mk_constraint_node { con_permissions : Z; con_expr : list constraint_expr }.

Definition DEFAULT_GLBLUB : Z := 7.

Record class_datum := mk_class_datum {
  cla_value : Z; cla_comkey : option cstring; cla_permissions : symtab perm_datum;
  cla_constraints : list constraint_node; cla_validatetrans : list constraint_node;
  default_user : Z; default_role : Z; default_type : Z; default_range : Z }.

Definition ROLE_ATTRIB : Z := 1.
Definition OBJECT_R_VAL : Z := 1.
(** "object_r" *)
Definition OBJECT_R : cstring := [111; 98; 106; 101; 99; 116; 95; 114].

Record role_datum := mk_role_datum {
  role_value : Z; role_dominates : ebitmap; role_types : type_set;
  role_bounds : Z; role_flavor : Z; role_roles : ebitmap }.

Definition TYPE_ATTRIB : Z := 1.
Definition TYPE_ALIAS : Z := 2.
Definition TYPE_FLAGS_PERMISSIVE : Z := 1.
Definition TYPEDATUM_PROPERTY_PRIMARY : Z := 1.
Definition TYPEDATUM_PROPERTY_ATTRIBUTE : Z := 2.
Definition TYPEDATUM_PROPERTY_ALIAS : Z := 4.
Definition TYPEDATUM_PROPERTY_PERMISSIVE : Z := 8.

Record type_datum := mk_type_datum {
  type_value : Z; type_primary : Z; type_flavor : Z; type_types : ebitmap; type_flags : Z; type_bounds : Z }.

Record mls_level := mk_mls_level { sens : Z; cat : ebitmap }.
Record mls_range := mk_mls_range { level0 : mls_level; level1 : mls_level }.
Record mls_semantic_cat := mk_semantic_cat { cat_low : Z; cat_high : Z }.
Record mls_semantic_level := mk_semantic_level { ssens : Z; scat : list mls_semantic_cat }.
Record mls_semantic_range := mk_semantic_range { slevel0 : mls_semantic_level; slevel1 : mls_semantic_level }.

Record user_datum := mk_user_datum {
  user_value : Z; user_roles : role_set; user_range : mls_semantic_range; user_dfltlevel : mls_semantic_level;
  user_exp_range : mls_range; user_exp_dfltlevel : mls_level; user_bounds : Z }.

Record level_datum := mk_level_datum { lev_level : mls_level; lev_isalias : Z }.
Record cat_datum := mk_cat_datum { cat_value : Z; cat_isalias : Z }.

Abbreviation table D := (option (hashtab cstring D)).

Definition empty_type_set : type_set := mk_type_set ebitmap_init ebitmap_init 0.
Definition empty_level : mls_level := mk_mls_level 0 ebitmap_init.
Definition empty_semantic_level : mls_semantic_level := mk_semantic_level 0 [].

(** ** Readers (policydb.c) *)

Definition value_isvalid (value nprim : Z) : bool := negb (negb (ctrue value) || (nprim <? value)).

Definition role_set_read : R role_set :=
  roles <~ rebitmap ;; buf <~ rentry 4 ;; rret (mk_role_set roles (word32 buf 0)).

Definition type_set_read : R type_set :=
  types <~ rebitmap ;; negset <~ rebitmap ;; buf <~ rentry 4 ;; rret (mk_type_set types negset (word32 buf 0)).

(** [ebitmap_cpy] with its test. *)
Definition rcpy (e : ebitmap) : R ebitmap :=
  fun fp o => let '(rc, e, o) := ebitmap_cpy e o in ((if ctrue rc then None else Some e), fp, o).

(** The second [next_entry] writes over the start of [buf]. *)
Definition mls_read_range_helper : R mls_range :=
  old <~ rentry 4 ;;
  let items := word32 old 0 in
  rcheck (items <=? 2) ~;
  new <~ rentry (4 * items) ;;
  let buf := new ++ drop (length new) old in
  let sens0 := word32 buf 0 in
  let sens1 := if 1 <? items then word32 buf 1 else sens0 in
  cat0 <~ rebitmap ;;
  cat1 <~ (if 1 <? items then rebitmap else rcpy cat0) ;;
  rret (mk_mls_range (mk_mls_level sens0 cat0) (mk_mls_level sens1 cat1)).

(** Each category is put in front of those read before. *)
Definition mls_read_semantic_level_helper : R mls_semantic_level :=
  buf <~ rentry 8 ;;
  cats <~ rloop (Z.to_nat (word32 buf 1))
            (fun cats => ralloc ~; b <~ rentry 8 ;; rret (mk_semantic_cat (word32 b 0) (word32 b 1) :: cats)) [] ;;
  rret (mk_semantic_level (word32 buf 0) cats).

Definition mls_read_semantic_range_helper : R mls_semantic_range :=
  l0 <~ mls_read_semantic_level_helper ;; l1 <~ mls_read_semantic_level_helper ;; rret (mk_semantic_range l0 l1).

Definition mls_read_level : R mls_level :=
  buf <~ rentry 4 ;; cat <~ rebitmap ;; rret (mk_mls_level (word32 buf 0) cat).

(** [ebitmap_for_each_bit]: the bits the loop body runs on, each with its
    value, and the final value of the loop variable; one unit of fuel per
    evaluation of the loop condition.  [None]: out of fuel, or the body would
    follow a null pointer. *)
Fixpoint for_each_bit_loop (fuel : nat) (len : Z) (n : list ebitmap_node) (bit : Z) : option (list (Z * bool) * Z) :=
  match fuel with
  | O => None
  | S fuel =>
      if bit <? len then
        let '(n', bit') := ebitmap_next n bit in
        match for_each_bit_loop fuel len n' bit' with
        | None => None
        | Some (l, last) =>
            match n with
            | a :: _ => Some ((bit, ctrue (ebitmap_node_get_bit a bit)) :: l, last)
            | [] => None
            end
        end
      else Some ([], bit)
  end.

Definition for_each_bit (e : ebitmap) : option (list (Z * bool) * Z) :=
  for_each_bit_loop (S (64 * length (node e))) (ebitmap_length e) (node e) (ebitmap_startbit e).

(** The body of the loop of [mls_level_to_semantic]: [open] says that
    [open_cat] points to the first element of [cats]. *)
Definition to_semantic_step (i : Z) (on : bool) (st : bool * list mls_semantic_cat) : R (bool * list mls_semantic_cat) :=
  let '(open, cats) := st in
  if on then
    if open then rret (open, cats)
    else ralloc ~; rret (true, mk_semantic_cat (u32 (i + 1)) 0 :: cats)
  else if negb open then rret (open, cats)
  else match cats with
       | c :: cats => rret (false, mk_semantic_cat (cat_low c) i :: cats)
       | [] => rret (false, [])
       end.

Fixpoint to_semantic_loop (bits : list (Z * bool)) (st : bool * list mls_semantic_cat) : R (bool * list mls_semantic_cat) :=
  match bits with
  | [] => rret st
  | (i, on) :: bits => st <~ to_semantic_step i on st ;; to_semantic_loop bits st
  end.

Definition mls_level_to_semantic (l : mls_level) : R mls_semantic_level :=
  match for_each_bit (cat l) with
  | None => rfail
  | Some (bits, last) =>
      st <~ to_semantic_loop bits (false, []) ;;
      rret (mk_semantic_level (sens l)
              (match st with
               | (true, c :: cats) => mk_semantic_cat (cat_low c) last :: cats
               | (_, cats) => cats
               end))
  end.

Definition mls_range_to_semantic (r : mls_range) : R mls_semantic_range :=
  l0 <~ mls_level_to_semantic (level0 r) ;; l1 <~ mls_level_to_semantic (level1 r) ;; rret (mk_semantic_range l0 l1).

Definition perm_read (h : table perm_datum) (nprim : Z) : R (table perm_datum) :=
  ralloc ~;
  buf <~ rentry 8 ;;
  key <~ str_read (word32 buf 0) ;;
  let value := word32 buf 1 in
  rcheck (value_isvalid value nprim) ~;
  rinsert h key (mk_perm_datum value).

Definition PERM_SYMTAB_SIZE : Z := 32.

(** [symtab_init] of a zeroed table, with its test. *)
Definition rsymtab (size : Z) : R (table perm_datum) :=
  fun fp o =>
    let '(rc, s, o) := symtab_init (mk_symtab None 0) size o in
    ((if ctrue rc then None else Some (st_table s)), fp, o).

(** The permissions of a common or a class. *)
Definition perms_read (h : table perm_datum) (nprim nel : Z) : R (table perm_datum) :=
  rloop (Z.to_nat nel) (fun h => perm_read h nprim) h.

Definition common_read (h : table common_datum) : R (table common_datum) :=
  ralloc ~;
  buf <~ rentry 16 ;;
  key <~ str_read (word32 buf 0) ;;
  perms <~ rsymtab PERM_SYMTAB_SIZE ;;
  let nprim := word32 buf 2 in
  rcheck (nprim <=? PERM_SYMTAB_SIZE) ~;
  perms <~ perms_read perms nprim (word32 buf 3) ;;
  rinsert h key (mk_common_datum (word32 buf 1) (mk_symtab perms nprim)).

Section WithPolicy.
Variable p : pol.

(** One turn of the inner loop of [read_cons_helper]: the elements read so
    far, last first, and the depth of the stack. *)
Definition cons_expr_read (allowxtarget : bool) (st : list constraint_expr * Z) : R (list constraint_expr * Z) :=
  let '(es, depth) := st in
  ralloc ~; ralloc ~;
  buf <~ rentry 12 ;;
  let t := word32 buf 0 in
  let attr := word32 buf 1 in
  let op := word32 buf 2 in
  let plain := mk_constraint_expr t attr op ebitmap_init empty_type_set in
  if t =? CEXPR_NOT then rcheck (0 <=? depth) ~; rret (plain :: es, depth)
  else if (t =? CEXPR_AND) || (t =? CEXPR_OR) then rcheck (1 <=? depth) ~; rret (plain :: es, depth - 1)
  else if t =? CEXPR_ATTR then rcheck (negb (depth =? CEXPR_MAXDEPTH - 1)) ~; rret (plain :: es, depth + 1)
  else if t =? CEXPR_NAMES then
    rcheck (negb (negb allowxtarget && ctrue (Z.land attr CEXPR_XTARGET))) ~;
    rcheck (negb (depth =? CEXPR_MAXDEPTH - 1)) ~;
    names <~ rebitmap ;;
    tnames <~ (if negb (is_kern p) || (POLICYDB_VERSION_CONSTRAINT_NAMES <=? pol_vers p)
               then type_set_read else rret empty_type_set) ;;
    rret (mk_constraint_expr t attr op names tnames :: es, depth + 1)
  else rfail.

Definition cons_node_read (allowxtarget : bool) (cs : list constraint_node) : R (list constraint_node) :=
  ralloc ~;
  buf <~ rentry 8 ;;
  st <~ rloop (Z.to_nat (word32 buf 1)) (cons_expr_read allowxtarget) ([], -1) ;;
  rcheck (snd st =? 0) ~;
  rret (mk_constraint_node (word32 buf 0) (reverse (fst st)) :: cs).

Definition read_cons_helper (ncons : Z) (allowxtarget : bool) : R (list constraint_node) :=
  cs <~ rloop (Z.to_nat ncons) (cons_node_read allowxtarget) [] ;; rret (reverse cs).

Definition class_read (commons : table common_datum) (h : table class_datum) : R (table class_datum) :=
  ralloc ~;
  buf <~ rentry 24 ;;
  key <~ str_read (word32 buf 0) ;;
  let len2 := word32 buf 1 in
  let value := word32 buf 2 in
  rcheck (value <=? 2 ^ 16 - 1) ~;
  perms <~ rsymtab PERM_SYMTAB_SIZE ;;
  let nprim := word32 buf 3 in
  rcheck (nprim <=? PERM_SYMTAB_SIZE) ~;
  comkey <~ (if ctrue len2 then
               k <~ str_read len2 ;;
               rcheck (match hashtab_search commons k with Some _ => true | None => false end) ~; rret (Some k)
             else rret None) ;;
  perms <~ perms_read perms nprim (word32 buf 4) ;;
  constraints <~ read_cons_helper (word32 buf 5) false ;;
  validatetrans <~ (if kern_or_base p POLICYDB_VERSION_VALIDATETRANS MOD_POLICYDB_VERSION_VALIDATETRANS then
                      b <~ rentry 4 ;; read_cons_helper (word32 b 0) true
                    else rret []) ;;
  defaults <~ (if kern_or_base p POLICYDB_VERSION_NEW_OBJECT_DEFAULTS MOD_POLICYDB_VERSION_NEW_OBJECT_DEFAULTS then
                 b <~ rentry 12 ;; rret (to_char p (word32 b 0), to_char p (word32 b 1), to_char p (word32 b 2))
               else rret (0, 0, 0)) ;;
  dtype <~ (if kern_or_base p POLICYDB_VERSION_DEFAULT_TYPE MOD_POLICYDB_VERSION_DEFAULT_TYPE then
              b <~ rentry 4 ;; rret (to_char p (word32 b 0))
            else rret 0) ;;
  let '(duser, drole, drange) := defaults in
  rinsert h key (mk_class_datum value comkey (mk_symtab perms nprim) constraints validatetrans duser drole dtype drange).

Definition role_read (h : table role_datum) : R (table role_datum) :=
  ralloc ~;
  let bounded := policydb_has_boundary_feature p in
  buf <~ rentry (4 * if bounded then 3 else 2) ;;
  key <~ str_read (word32 buf 0) ;;
  let value := word32 buf 1 in
  dominates <~ rebitmap ;;
  types <~ (if is_kern p then t <~ rebitmap ;; rret (mk_type_set t ebitmap_init 0) else type_set_read) ;;
  attr <~ (if negb (is_kern p) && (MOD_POLICYDB_VERSION_ROLEATTRIB <=? pol_vers p) then
             b <~ rentry 4 ;; roles <~ rebitmap ;; rret (word32 b 0, roles)
           else rret (0, ebitmap_init)) ;;
  if strcmp key OBJECT_R =? 0 then rcheck (value =? OBJECT_R_VAL) ~; rret h
  else rinsert h key (mk_role_datum value dominates types (if bounded then word32 buf 2 else 0) (fst attr) (snd attr)).

Definition type_words : Z :=
  if policydb_has_boundary_feature p then
    if negb (is_kern p) && (MOD_POLICYDB_VERSION_BOUNDARY_ALIAS <=? pol_vers p) then 5 else 4
  else if is_kern p then 3
  else if MOD_POLICYDB_VERSION_PERMISSIVE <=? pol_vers p then 5 else 4.

(** The fields (primary, flavor, flags, bounds) that [type_read] gets from
    its words. *)
Definition type_fields (buf : list Z) : Z * Z * Z * Z :=
  if policydb_has_boundary_feature p then
    let aliased := negb (is_kern p) && (MOD_POLICYDB_VERSION_BOUNDARY_ALIAS <=? pol_vers p) in
    let properties := if aliased then word32 buf 3 else word32 buf 2 in
    let primary := if aliased then word32 buf 2
                   else if ctrue (Z.land properties TYPEDATUM_PROPERTY_PRIMARY) then 1 else 0 in
    let flavor := if ctrue (Z.land properties TYPEDATUM_PROPERTY_ATTRIBUTE) then TYPE_ATTRIB else 0 in
    let flavor := if ctrue (Z.land properties TYPEDATUM_PROPERTY_ALIAS) && negb (is_kern p) then TYPE_ALIAS else flavor in
    let flags := if ctrue (Z.land properties TYPEDATUM_PROPERTY_PERMISSIVE) && negb (is_kern p)
                 then TYPE_FLAGS_PERMISSIVE else 0 in
    (primary, flavor, flags, if aliased then word32 buf 4 else word32 buf 3)
  else
    (word32 buf 2, if negb (is_kern p) then word32 buf 3 else 0,
     if negb (is_kern p) && (MOD_POLICYDB_VERSION_PERMISSIVE <=? pol_vers p) then word32 buf 4 else 0, 0).

Definition type_read (h : table type_datum) : R (table type_datum) :=
  ralloc ~;
  buf <~ rentry (4 * type_words) ;;
  let '(primary, flavor, flags, bounds) := type_fields buf in
  types <~ (if negb (is_kern p) then rebitmap else rret ebitmap_init) ;;
  key <~ str_read (word32 buf 0) ;;
  rinsert h key (mk_type_datum (word32 buf 1) primary flavor types flags bounds).

Definition is_mod_or_base : bool := (policy_type p =? POLICY_MOD) || (policy_type p =? POLICY_BASE).

(** The MLS fields of a user: range and default level, expanded and semantic. *)
Definition user_mls_read : R (mls_range * mls_level * mls_semantic_range * mls_semantic_level) :=
  let no_range := mk_semantic_range empty_semantic_level empty_semantic_level in
  if (is_kern p && (POLICYDB_VERSION_MLS <=? pol_vers p)) ||
     (is_mod_or_base && (MOD_POLICYDB_VERSION_MLS <=? pol_vers p) && (pol_vers p <? MOD_POLICYDB_VERSION_MLS_USERS)) then
    range <~ mls_read_range_helper ;;
    dflt <~ mls_read_level ;;
    if negb (is_kern p) then
      srange <~ mls_range_to_semantic range ;;
      sdflt <~ mls_level_to_semantic dflt ;;
      rret (range, dflt, srange, sdflt)
    else rret (range, dflt, no_range, empty_semantic_level)
  else
    let no_exp := mk_mls_range empty_level empty_level in
    if is_mod_or_base && (MOD_POLICYDB_VERSION_MLS_USERS <=? pol_vers p) then
      srange <~ mls_read_semantic_range_helper ;;
      sdflt <~ mls_read_semantic_level_helper ;;
      rret (no_exp, empty_level, srange, sdflt)
    else rret (no_exp, empty_level, no_range, empty_semantic_level).

Definition user_read (h : table user_datum) : R (table user_datum) :=
  ralloc ~;
  let bounded := policydb_has_boundary_feature p in
  buf <~ rentry (4 * if bounded then 3 else 2) ;;
  key <~ str_read (word32 buf 0) ;;
  roles <~ (if is_kern p then r <~ rebitmap ;; rret (mk_role_set r 0) else role_set_read) ;;
  mls <~ user_mls_read ;;
  let '(exp_range, exp_dflt, range, dflt) := mls in
  rinsert h key (mk_user_datum (word32 buf 1) roles range dflt exp_range exp_dflt (if bounded then word32 buf 2 else 0)).

Definition cond_read_bool (h : table cond_bool_datum) : R (table cond_bool_datum) :=
  ralloc ~;
  buf <~ rentry 12 ;;
  let value := word32 buf 0 in
  let state := s32 (word32 buf 1) in
  rcheck (bool_isvalid (mk_cond_bool_datum value state 0)) ~;
  key <~ str_read (word32 buf 2) ;;
  flags <~ (if negb (is_kern p) && (MOD_POLICYDB_VERSION_TUNABLE_SEP <=? pol_vers p) then
              b <~ rentry 4 ;; rret (word32 b 0)
            else rret 0) ;;
  rinsert h key (mk_cond_bool_datum value state flags).

Definition sens_read (h : table level_datum) : R (table level_datum) :=
  ralloc ~;
  buf <~ rentry 8 ;;
  key <~ str_read (word32 buf 0) ;;
  ralloc ~;
  level <~ mls_read_level ;;
  rinsert h key (mk_level_datum level (u8 (word32 buf 1))).

Definition cat_read (h : table cat_datum) : R (table cat_datum) :=
  ralloc ~;
  buf <~ rentry 12 ;;
  key <~ str_read (word32 buf 0) ;;
  rinsert h key (mk_cat_datum (word32 buf 1) (u8 (word32 buf 2))).

(** ** Writers (write.c) *)

Definition mls_write_semantic_level_helper (l : mls_semantic_level) : W :=
  wwords [ssens l; u32 (zlength (scat l))] ~>
  wlist (fun c => wwords [cat_low c; cat_high c]) (scat l).

Definition mls_write_semantic_range_helper (r : mls_semantic_range) : W :=
  mls_write_semantic_level_helper (slevel0 r) ~> mls_write_semantic_level_helper (slevel1 r).

Definition mls_write_level (l : mls_level) : W := wwords [sens l] ~> (ebitmap_write (cat l) ~> wdone).

Definition mls_level_eq (l1 l2 : mls_level) : bool := (sens l1 =? sens l2) && ctrue (ebitmap_cmp (cat l1) (cat l2)).

Definition mls_write_range_helper (r : mls_range) : W :=
  let eq := mls_level_eq (level1 r) (level0 r) in
  wwords (if eq then [1; sens (level0 r)] else [2; sens (level0 r); sens (level1 r)]) ~>
  (ebitmap_write (cat (level0 r)) ~>
   (if eq then wdone else ebitmap_write (cat (level1 r)) ~> wdone)).

Definition sens_write (key : cstring) (d : level_datum) : W :=
  wwords [u32 (zlength key); lev_isalias d] ~> (wstr key ~> (mls_write_level (lev_level d) ~> wdone)).

Definition cat_write (key : cstring) (d : cat_datum) : W :=
  wwords [u32 (zlength key); cat_value d; cat_isalias d] ~> (wstr key ~> wdone).

Definition role_set_write (x : role_set) : W := ebitmap_write (rs_roles x) ~> (wwords [rs_flags x] ~> wdone).

Definition type_set_write (x : type_set) : W :=
  ebitmap_write (ts_types x) ~> (ebitmap_write (ts_negset x) ~> (wwords [ts_flags x] ~> wdone)).

Definition cond_write_bool (key : cstring) (d : cond_bool_datum) : W :=
  wwords [bool_value d; u32 (bool_state d); u32 (zlength key)] ~> (wstr key ~>
  (if negb (is_kern p) && (MOD_POLICYDB_VERSION_TUNABLE_SEP <=? pol_vers p) then wwords [bool_flags d] ~> wdone else wdone)).

Definition perm_write (key : cstring) (d : perm_datum) : W :=
  wwords [u32 (zlength key); perm_value d] ~> (wstr key ~> wdone).

(** [table->nel]; the tables of commons and classes are not null. *)
Definition nel_of {K D} (h : option (hashtab K D)) : Z := match h with Some h => ht_nel h | None => 0 end.

Definition common_write (key : cstring) (d : common_datum) : W :=
  let perms := com_permissions d in
  wwords [u32 (zlength key); com_value d; st_nprim perms; nel_of (st_table perms)] ~>
  (wstr key ~> (wtable (st_table perms) perm_write ~> wdone)).

Definition cons_expr_write (allowxtarget : bool) (e : constraint_expr) : W :=
  wwords [ce_type e; ce_attr e; ce_op e] ~>
  (if ce_type e =? CEXPR_NAMES then
     if negb allowxtarget && ctrue (Z.land (ce_attr e) CEXPR_XTARGET) then wfail else
     ebitmap_write (ce_names e) ~>
     (if negb (is_kern p) || (POLICYDB_VERSION_CONSTRAINT_NAMES <=? pol_vers p)
      then type_set_write (ce_type_names e) ~> wdone else wdone)
   else wdone).

Definition cons_node_write (allowxtarget : bool) (c : constraint_node) : W :=
  wwords [con_permissions c; u32 (zlength (con_expr c))] ~> wlist (cons_expr_write allowxtarget) (con_expr c).

Definition write_cons_helper (node : list constraint_node) (allowxtarget : bool) : W :=
  wlist (cons_node_write allowxtarget) node.

Definition glblub_version : bool := kern_or_base p POLICYDB_VERSION_GLBLUB MOD_POLICYDB_VERSION_GLBLUB.

Definition class_write (key : cstring) (d : class_datum) : W :=
  let perms := cla_permissions d in
  let len2 := match cla_comkey d with Some k => zlength k | None => 0 end in
  wwords [u32 (zlength key); u32 len2; cla_value d; st_nprim perms; nel_of (st_table perms);
          u32 (zlength (cla_constraints d))] ~>
  (wstr key ~>
  ((match cla_comkey d with Some k => wstr k | None => wdone end) ~>
  (wtable (st_table perms) perm_write ~>
  (write_cons_helper (cla_constraints d) false ~>
  ((if kern_or_base p POLICYDB_VERSION_VALIDATETRANS MOD_POLICYDB_VERSION_VALIDATETRANS then
      wwords [u32 (zlength (cla_validatetrans d))] ~> write_cons_helper (cla_validatetrans d) true
    else wdone) ~>
  ((if kern_or_base p POLICYDB_VERSION_NEW_OBJECT_DEFAULTS MOD_POLICYDB_VERSION_NEW_OBJECT_DEFAULTS then
      let range := if negb glblub_version && (default_range d =? DEFAULT_GLBLUB) then 0 else default_range d in
      wwords [u32 (default_user d); u32 (default_role d); u32 range]
    else wdone) ~>
  ((if kern_or_base p POLICYDB_VERSION_DEFAULT_TYPE MOD_POLICYDB_VERSION_DEFAULT_TYPE then
      wwords [u32 (default_type d)]
    else wdone) ~> wdone))))))).

Definition role_write (key : cstring) (d : role_datum) : W :=
  if (role_flavor d =? ROLE_ATTRIB) &&
     (is_kern p || (negb (is_kern p) && (pol_vers p <? MOD_POLICYDB_VERSION_ROLEATTRIB))) then wdone else
  wwords ([u32 (zlength key); role_value d] ++ (if policydb_has_boundary_feature p then [role_bounds d] else [])) ~>
  (wstr key ~>
  (ebitmap_write (role_dominates d) ~>
  ((if is_kern p then
      if role_value d =? OBJECT_R_VAL then ebitmap_write ebitmap_init ~> wdone
      else ebitmap_write (ts_types (role_types d)) ~> wdone
    else type_set_write (role_types d) ~> wdone) ~>
  (if negb (is_kern p) && (MOD_POLICYDB_VERSION_ROLEATTRIB <=? pol_vers p) then
     wwords [role_flavor d] ~> (ebitmap_write (role_roles d) ~> wdone)
   else wdone)))).

(** The words of a type: the property bits with boundaries, else the fields. *)
Definition type_entry (len : Z) (d : type_datum) : list Z :=
  [len; type_value d] ++
  (if policydb_has_boundary_feature p then
     let properties := 0 in
     let properties := if ctrue (type_primary d) then Z.lor properties TYPEDATUM_PROPERTY_PRIMARY else properties in
     let properties := if type_flavor d =? TYPE_ATTRIB then Z.lor properties TYPEDATUM_PROPERTY_ATTRIBUTE
                       else if (type_flavor d =? TYPE_ALIAS) && negb (is_kern p)
                       then Z.lor properties TYPEDATUM_PROPERTY_ALIAS else properties in
     let properties := if ctrue (Z.land (type_flags d) TYPE_FLAGS_PERMISSIVE) && negb (is_kern p)
                       then Z.lor properties TYPEDATUM_PROPERTY_PERMISSIVE else properties in
     (if negb (is_kern p) && (MOD_POLICYDB_VERSION_BOUNDARY_ALIAS <=? pol_vers p) then [type_primary d] else []) ++
     [properties; type_bounds d]
   else
     [type_primary d] ++
     (if negb (is_kern p) then
        [type_flavor d] ++ (if MOD_POLICYDB_VERSION_PERMISSIVE <=? pol_vers p then [type_flags d] else [])
      else [])).

Definition type_write (key : cstring) (d : type_datum) : W :=
  if is_kern p && (pol_vers p <? POLICYDB_VERSION_BOUNDARY) && (type_flavor d =? TYPE_ATTRIB) then wdone else
  wwords (type_entry (u32 (zlength key)) d) ~>
  ((if negb (is_kern p) then ebitmap_write (type_types d) ~> wdone else wdone) ~>
  (wstr key ~> wdone)).

Definition user_write (key : cstring) (d : user_datum) : W :=
  wwords ([u32 (zlength key); user_value d] ++ (if policydb_has_boundary_feature p then [user_bounds d] else [])) ~>
  (wstr key ~>
  ((if is_kern p then ebitmap_write (rs_roles (user_roles d)) ~> wdone else role_set_write (user_roles d) ~> wdone) ~>
  (if ((POLICYDB_VERSION_MLS <=? pol_vers p) && is_kern p) ||
      (is_mod_or_base && (MOD_POLICYDB_VERSION_MLS <=? pol_vers p) && (pol_vers p <? MOD_POLICYDB_VERSION_MLS_USERS)) then
     mls_write_range_helper (user_exp_range d) ~> (mls_write_level (user_exp_dfltlevel d) ~> wdone)
   else if is_mod_or_base && (MOD_POLICYDB_VERSION_MLS_USERS <=? pol_vers p) then
     mls_write_semantic_range_helper (user_range d) ~> (mls_write_semantic_level_helper (user_dfltlevel d) ~> wdone)
   else wdone))).

(** ** The symbol tables of a policy *)

Record symbols := mk_symbols {
  p_commons : symtab common_datum; p_classes : symtab class_datum; p_roles : symtab role_datum;
  p_types : symtab type_datum; p_users : symtab user_datum; p_bools : symtab cond_bool_datum;
  p_levels : symtab level_datum; p_cats : symtab cat_datum }.

(** [exceeds_available_bytes] with its test. *)
Definition ravailable (x size : Z) : R unit :=
  fun fp o => ((if exceeds_available_bytes fp x size then None else Some tt), fp, o).

(** One turn of the loop [for (i = 0; i < info->sym_num; i++)] of
    [policydb_read]: [p->symtab[i]] with the reader [read_f[i]]. *)
Definition symtab_read {D} (read_one : table D -> R (table D)) (s : symtab D) : R (symtab D) :=
  buf <~ rentry 8 ;;
  let nprim := word32 buf 0 in
  rcheck (negb (nprim =? 2 ^ 32 - 1)) ~;
  ravailable nprim 12 ~;
  let nel := word32 buf 1 in
  rcheck (negb (ctrue nel && negb (ctrue nprim))) ~;
  t <~ rloop (Z.to_nat nel) read_one (st_table s) ;;
  rret (mk_symtab t nprim).

(** The loop itself: the policies with booleans and MLS have all eight
    tables ([info->sym_num = SYM_NUM]). *)
Definition symbols_read (s : symbols) : R symbols :=
  commons <~ symtab_read common_read (p_commons s) ;;
  classes <~ symtab_read (class_read (st_table commons)) (p_classes s) ;;
  roles <~ symtab_read role_read (p_roles s) ;;
  types <~ symtab_read type_read (p_types s) ;;
  users <~ symtab_read user_read (p_users s) ;;
  bools <~ symtab_read cond_read_bool (p_bools s) ;;
  levels <~ symtab_read sens_read (p_levels s) ;;
  cats <~ symtab_read cat_read (p_cats s) ;;
  rret (mk_symbols commons classes roles types users bools levels cats).

(** [type_attr_uncount] and [role_attr_uncount]: what [hashtab_map] does to
    the counter. *)
Definition type_attr_uncount (k : cstring) (d : type_datum) (nel : Z) : Z * Z :=
  (0, if type_flavor d =? TYPE_ATTRIB then u32 (nel - 1) else nel).

Definition role_attr_uncount (k : cstring) (d : role_datum) (nel : Z) : Z * Z :=
  (0, if role_flavor d =? ROLE_ATTRIB then u32 (nel - 1) else nel).

(** One turn of the loop of [policydb_write], with the count [nel] that is
    announced. *)
Definition symtab_write {D} (s : symtab D) (nel : Z) (write_one : cstring -> D -> W) : W :=
  wwords [st_nprim s; nel] ~> (wtable (st_table s) write_one ~> wdone).

Definition symbols_write (s : symbols) : W :=
  let types_nel := if (pol_vers p <? POLICYDB_VERSION_BOUNDARY) && is_kern p
                   then snd (hashtab_map (st_table (p_types s)) type_attr_uncount (nel_of (st_table (p_types s))))
                   else nel_of (st_table (p_types s)) in
  let roles_nel := if is_kern p || (negb (is_kern p) && (pol_vers p <? MOD_POLICYDB_VERSION_ROLEATTRIB))
                   then snd (hashtab_map (st_table (p_roles s)) role_attr_uncount (nel_of (st_table (p_roles s))))
                   else nel_of (st_table (p_roles s)) in
  symtab_write (p_commons s) (nel_of (st_table (p_commons s))) common_write ~>
  (symtab_write (p_classes s) (nel_of (st_table (p_classes s))) class_write ~>
  (symtab_write (p_roles s) roles_nel role_write ~>
  (symtab_write (p_types s) types_nel type_write ~>
  (symtab_write (p_users s) (nel_of (st_table (p_users s))) user_write ~>
  (symtab_write (p_bools s) (nel_of (st_table (p_bools s))) cond_write_bool ~>
  (symtab_write (p_levels s) (nel_of (st_table (p_levels s))) sens_write ~>
   symtab_write (p_cats s) (nel_of (st_table (p_cats s))) cat_write)))))).
End WithPolicy.
