(* ===== verification/SymCodec.v ===== *)
(** * SymCodec: symbol tables in binary policies

    The interface [SymCodec] states what the reader and the writer of one kind
    of symbol promise each other; from it the round trip of whole symbol
    tables follows.  The table read back is not laid out like the one written
    (the chains differ when the sizes do), so it is compared by the finite maps
    the tables stand for. *)
From Stdlib Require Import ZArith Lia Bool.
From stdpp Require Import base option list list_numbers gmap sets.
From S2P Require Import Prelude PolicyFile Ebitmap EbitmapThms EbitmapIO Hashtab HashtabThms Symtab Avtab AvtabIO Cond Codec Symbols.

(** [img] is the binary form of a symbol; a symbol in [ok] is written as its
    form, and reading the form adds an equivalent symbol under its name, unless
    the name is one the reader skips ([keep] is false). *)
Class SymCodec {K D : Type} `{!EqDecision K, !Countable K, !KeyOps K, !KeyLaws K}
    (read_one : option (hashtab K D) -> R (option (hashtab K D))) (write_one : K -> D -> W)
    (img : K -> D -> list Z) (ok : K -> D -> Prop) (keep : K -> bool) (eqv : D -> D -> Prop) := {
  sc_writes k d : ok k d -> writes (write_one k d) (img k d);
  sc_reads k d h : ok k d -> hashtab_ok h -> ht_nel h < 2 ^ 32 - 1 -> (keep k = true -> hashtab_abs h !! k = None) ->
    reads (read_one (Some h)) (img k d) (fun t => exists h', t = Some h' /\ hashtab_ok h' /\
      if keep k then exists d', eqv d d' /\ hashtab_abs h' = <[k := d']> (hashtab_abs h) else h' = h)
}.

(** [h'] is [h0] with the symbols of [h], up to [eqv], added. *)
Definition table_added {K D} `{!EqDecision K, !Countable K} (keep : K -> bool) (eqv : D -> D -> Prop) (h0 h h' : hashtab K D) : Prop :=
  forall k, match hashtab_abs h !! k with
            | Some d => if keep k then exists d', hashtab_abs h' !! k = Some d' /\ eqv d d'
                        else hashtab_abs h' !! k = hashtab_abs h0 !! k
            | None => hashtab_abs h' !! k = hashtab_abs h0 !! k
            end.

Lemma hashtab_nel_size {K D} `{!EqDecision K, !Countable K, !KeyOps K, !KeyLaws K} (h : hashtab K D) : hashtab_ok h -> ht_nel h = Z.of_nat (size (hashtab_abs h)).
Proof.
  intros (_ & [_ Hinv] & Hn & _). rewrite Hn. f_equal. unfold hashtab_abs.
  rewrite <- (length_map_to_list). apply table_keys_NoDup in Hinv.
  by rewrite (Permutation_length (map_to_list_to_map _ Hinv)).
Qed.

Lemma bindings_nodup {K D} `{!EqDecision K, !Countable K, !KeyOps K, !KeyLaws K} (h : hashtab K D) : hashtab_ok h -> NoDup (bindings (Some h)).*1.
Proof. intros (_ & [_ Hinv] & _). by eapply table_keys_NoDup. Qed.

Lemma bindings_length {K D} `{!EqDecision K, !Countable K, !KeyOps K, !KeyLaws K} (h : hashtab K D) : hashtab_ok h -> ht_nel h = zlength (bindings (Some h)).
Proof. intros (_ & _ & Hn & _). exact Hn. Qed.

Section Tables.
Context {K D : Type} `{!EqDecision K, !Countable K, !KeyOps K, !KeyLaws K}.
Context {read_one : option (hashtab K D) -> R (option (hashtab K D))} {write_one : K -> D -> W}
        {img : K -> D -> list Z} {ok : K -> D -> Prop} {keep : K -> bool} {eqv : D -> D -> Prop}.
Context {codec : SymCodec read_one write_one img ok keep eqv}.

Definition all_ok (h : hashtab K D) : Prop := Forall (fun b => ok b.1 b.2) (bindings (Some h)).

Lemma writes_symbols h : all_ok h -> writes (wtable (Some h) write_one) (table_image img (Some h)).
Proof using codec. intros H. apply writes_table. eapply Forall_impl; [exact H|]. intros [k d] ?. by apply sc_writes. Qed.

Lemma table_image_size h :
  (forall k d, ok k d -> 12 <= zlength (img k d)) ->
  all_ok h -> 12 * zlength (bindings (Some h)) <= zlength (table_image img (Some h)).
Proof using.
  intros Hsize. unfold all_ok, table_image. induction 1 as [|[k d] l Hk _ IH]; [done|]. cbn [map concat].
  rewrite zlength_app. simpl in Hk. apply Hsize in Hk. simpl fst. simpl snd. unfold zlength in *. simpl length. lia.
Qed.

(** The table after the symbols [l] have been read. *)
Definition after (h0 : hashtab K D) (l : list (K * D)) (t : option (hashtab K D)) : Prop :=
  exists h, t = Some h /\ hashtab_ok h /\ ht_nel h <= ht_nel h0 + zlength l /\
  forall k, match (list_to_map l : gmap K D) !! k with
            | Some d => if keep k then exists d', hashtab_abs h !! k = Some d' /\ eqv d d'
                        else hashtab_abs h !! k = hashtab_abs h0 !! k
            | None => hashtab_abs h !! k = hashtab_abs h0 !! k
            end.

Lemma after_step h0 l k d (h : hashtab K D) h' :
  k ∉ l.*1 -> hashtab_ok h -> hashtab_ok h' -> ht_nel h <= ht_nel h0 + zlength l ->
  (forall k, match (list_to_map l : gmap K D) !! k with
             | Some d => if keep k then exists d', hashtab_abs h !! k = Some d' /\ eqv d d'
                         else hashtab_abs h !! k = hashtab_abs h0 !! k
             | None => hashtab_abs h !! k = hashtab_abs h0 !! k
             end) ->
  (if keep k then exists d', eqv d d' /\ hashtab_abs h' = <[k := d']> (hashtab_abs h) else h' = h) ->
  after h0 (l ++ [(k, d)]) (Some h').
Proof using KeyLaws0.
  intros Hk Hok Hok' Hn Habs Hstep. exists h'. split_and!; [done..| |].
  - unfold zlength in *. rewrite length_app. simpl length. destruct (keep k).
    + destruct Hstep as (d' & _ & E). rewrite (hashtab_nel_size h) in Hn by done. rewrite (hashtab_nel_size h'), E by done.
      rewrite map_size_insert. destruct (hashtab_abs h !! k); simpl; lia.
    + subst h'. lia.
  - intros k'. rewrite list_to_map_snoc by done. specialize (Habs k').
    destruct (decide (k' = k)) as [->|Hne].
    + rewrite lookup_insert_eq. destruct (keep k).
      * destruct Hstep as (d' & He & ->). exists d'. by rewrite lookup_insert_eq.
      * subst h'. rewrite not_elem_of_list_to_map_1 in Habs by done. done.
    + rewrite lookup_insert_ne by done. destruct (keep k).
      * destruct Hstep as (d' & He & ->). by rewrite lookup_insert_ne.
      * by subst h'.
Qed.

Lemma reads_symbols h h0 :
  all_ok h -> hashtab_ok h -> hashtab_ok h0 -> ht_nel h0 + ht_nel h < 2 ^ 32 ->
  (forall k, keep k = true -> is_Some (hashtab_abs h !! k) -> hashtab_abs h0 !! k = None) ->
  reads (rloop (Z.to_nat (ht_nel h)) read_one (Some h0)) (table_image img (Some h))
    (fun t => exists h', t = Some h' /\ hashtab_ok h' /\ table_added keep eqv h0 h h').
Proof using codec.
  intros Hall Hok Hok0 Hn Hfresh. pose proof (bindings_length h Hok) as Hl. pose proof (bindings_nodup h Hok) as ND.
  replace (Z.to_nat (ht_nel h)) with (length (bindings (Some h))) by (rewrite Hl; unfold zlength; lia).
  eapply reads_mono; [apply (reads_loop read_one (fun b => img b.1 b.2) (bindings (Some h)) (after h0))|].
  - exists h0. split_and!; [done..|unfold zlength; simpl; lia|]. intros k. simpl. by rewrite lookup_empty.
  - intros l [k d] todo t Hb (h1 & -> & Hok1 & Hn1 & Habs). simpl.
    assert (Hin : (k, d) ∈ bindings (Some h)) by (rewrite Hb; set_solver).
    unfold all_ok in Hall. rewrite Forall_forall in Hall. specialize (Hall _ Hin). simpl in Hall.
    rewrite Hb, fmap_app in ND. apply NoDup_app in ND as (_ & Hdis & _).
    assert (Hk : k ∉ l.*1) by (intros Hk; apply (Hdis k Hk); simpl; left).
    assert (Hlen : zlength l < zlength (bindings (Some h))).
    { rewrite Hb. unfold zlength. rewrite length_app. simpl. lia. }
    eapply reads_mono; [apply (sc_reads k d h1); [done|done|lia|]|].
    + intros Hkeep. specialize (Habs k). rewrite not_elem_of_list_to_map_1 in Habs by done. rewrite Habs.
      apply Hfresh; [done|]. unfold hashtab_abs. exists d. apply elem_of_list_to_map_1; [exact (bindings_nodup h Hok)|exact Hin].
    + intros t (h' & -> & Hok' & Hstep). by apply (after_step h0 l k d h1).
  - intros t (h' & -> & Hok' & _ & Habs). exists h'. split_and!; [done..|]. exact Habs.
Qed.
End Tables.

(** For exact codecs that skip nothing, reading into an empty table gives the
    same map. *)
Lemma table_added_eq {K D} `{!EqDecision K, !Countable K} (h0 h h' : hashtab K D) :
  hashtab_abs h0 = ∅ -> table_added (fun _ => true) eq h0 h h' -> hashtab_abs h' = hashtab_abs h.
Proof.
  intros H0 H. apply map_eq. intros k. specialize (H k). rewrite H0, lookup_empty in H.
  destruct (hashtab_abs h !! k) as [d|]; [|done]. destruct H as (d' & -> & ->). done.
Qed.
