(* ===== verification/SymbolsIO.v ===== *)
(** * SymbolsIO: the round trip of symbols

    For kernel policies of version 29 (constraint names) and later, each
    [*_write] function of write.c and the [*_read] function of policydb.c for
    the same kind of symbol agree on one binary form, which is given here as a
    function from symbols to bytes. *)
From Stdlib Require Import ZArith Lia Bool.
From stdpp Require Import base option list list_numbers gmap sets.
From S2P Require Import Prelude PolicyFile Ebitmap EbitmapThms EbitmapIO Hashtab HashtabThms Symtab Avtab AvtabIO Cond Codec Symbols SymCodec.

(** ** Steps *)

Lemma word32_at ws i w : ws !! i = Some w -> in_range 32 w -> word32 (words32 ws) i = w.
Proof. intros. rewrite <- (app_nil_r (words32 ws)). by apply word32_words32. Qed.

Lemma reads_last {A B} (m : R A) (k : A -> R B) img (P : A -> Prop) (Q : B -> Prop) :
  reads m img P -> (forall a, P a -> reads (k a) [] Q) -> reads (rbind m k) img Q.
Proof. intros Hm Hk. rewrite <- (app_nil_r img). by eapply reads_bind. Qed.

Lemma reads_ret_eq {A} (a : A) : reads (rret a) [] (eq a).
Proof. by apply reads_ret. Qed.

(** Inserting [d1] for the symbol [d] it is equivalent to. *)
Lemma reads_added {D} (h : hashtab cstring D) k (d d1 : D) (eqv : D -> D -> Prop) :
  hashtab_ok h -> ht_nel h < 2 ^ 32 - 1 -> hashtab_abs h !! k = None -> eqv d d1 ->
  reads (rinsert (Some h) k d1) [] (fun t => exists h', t = Some h' /\ hashtab_ok h' /\
    exists d', eqv d d' /\ hashtab_abs h' = <[k := d']> (hashtab_abs h)).
Proof.
  intros Hok Hn Hk He. eapply reads_mono; [by apply reads_insert|].
  intros t (h' & -> & Hok' & Habs). exists h'. split_and!; [done..|]. by exists d1.
Qed.

Lemma reads_cpy e : reads (rcpy e) [] (eq e).
Proof.
  assert (forall l o, mem_ok o -> exists o', cpy_loop l o = (Some l, o') /\ mem_ok o') as Hl.
  { induction l as [|a l IH]; intros o M; [by exists o|]. cbn [cpy_loop].
    destruct (malloc o) as [ok o1] eqn:E. destruct (malloc_mem_ok _ _ _ E M) as [-> M1]. cbn [negb].
    destruct (IH o1 M1) as (o' & -> & M'). exists o'. by destruct a. }
  intros fp rest o Hfp M Hd. destruct (Hl (node e) o M) as (o' & E & M'). exists e, o'.
  unfold rcpy, ebitmap_cpy. rewrite E. simpl in Hd. rewrite <- Hd, with_data_same by done. by destruct e.
Qed.

Lemma reads_symtab : reads (rsymtab PERM_SYMTAB_SIZE) []
  (fun t => exists h, t = Some h /\ hashtab_ok h /\ hashtab_abs h = ∅ /\ ht_nel h = 0).
Proof.
  intros fp rest o Hfp M Hd. unfold rsymtab, symtab_init.
  destruct (hashtab_create PERM_SYMTAB_SIZE o) as [[t|] o'] eqn:E.
  - pose proof (hashtab_create_spec (K := cstring) (D := perm_datum) PERM_SYMTAB_SIZE o t o' ltac:(done) E) as [Hok Habs].
    unfold hashtab_create in E. destruct (malloc o) as [ok1 o1] eqn:E1. destruct (malloc_mem_ok _ _ _ E1 M) as [-> M1].
    cbn [negb] in E. destruct (malloc o1) as [ok2 o2] eqn:E2. destruct (malloc_mem_ok _ _ _ E2 M1) as [-> M2].
    cbn [negb] in E. simplify_eq. simpl in Hd. eexists _, _. rewrite <- Hd, with_data_same by done.
    split_and!; [done..|]. eexists. by split_and!.
  - unfold hashtab_create in E. destruct (malloc o) as [ok1 o1] eqn:E1. destruct (malloc_mem_ok _ _ _ E1 M) as [-> M1].
    cbn [negb] in E. destruct (malloc o1) as [ok2 o2] eqn:E2. destruct (malloc_mem_ok _ _ _ E2 M1) as [-> M2]. done.
Qed.

Lemma name_len s : name_ok s -> in_range 32 (zlength s).
Proof. intros H. pose proof (zlength_name s H). unfold in_range. lia. Qed.

Lemma name_u32 s : name_ok s -> u32 (zlength s) = zlength s.
Proof. intros H. by apply wrap_small, name_len. Qed.

(** A last write before the successful return. *)
Lemma writes_end w img : writes w img -> writes (w ~> wdone) img.
Proof. intros H. rewrite <- (app_nil_r img). apply writes_seq; [done|apply writes_done]. Qed.

(** A small number is a word. *)
Lemma small_word x : 0 <= x <= 40 -> in_range 32 x.
Proof. unfold in_range. lia. Qed.
#[local] Hint Resolve name_len small_word : cdb.

(** The steps that open the body of a reader. *)
Ltac rword :=
  repeat match goal with
  | |- context [word32 (words32 ?ws) ?i] =>
      let w := eval cbn in (ws !! i) in
      lazymatch w with
      | Some ?x => rewrite (word32_at ws i x eq_refl) by (first [done | by auto with cdb | by apply small_word; lia])
      end
  end.
Ltac rstr := eapply reads_bind; [by apply reads_str|]; intros ? <-.
Ltac rmap := eapply reads_bind; [by apply reads_ebitmap|]; intros ? <-.

(** ** Permissions *)

Definition perm_image (k : cstring) (d : perm_datum) : list Z := words32 [zlength k; perm_value d] ++ k.

Definition perm_ok (nprim : Z) (k : cstring) (d : perm_datum) : Prop :=
  name_ok k /\ 0 < perm_value d <= nprim /\ nprim <= PERM_SYMTAB_SIZE.

#[global] Instance perm_codec nprim :
  SymCodec (fun h => perm_read h nprim) perm_write perm_image (perm_ok nprim) (fun _ => true) eq.
Proof.
  split.
  - intros k d (Hk & _ & _). unfold perm_write, perm_image. rewrite name_u32 by done. apply writes_seq; [apply writes_words|].
    apply writes_end. apply writes_str.
  - intros k d h (Hk & Hv & Hn) Hok Hnel Hfresh. unfold perm_read, perm_image.
    assert (in_range 32 (perm_value d)) by (unfold PERM_SYMTAB_SIZE in *; apply small_word; lia).
    apply reads_alloc, reads_words; [done|]. rword.
    eapply reads_last; [by apply reads_str|]. intros ? <-. apply reads_check.
    { unfold value_isvalid, ctrue. destruct (Z.eqb_spec (perm_value d) 0); [lia|]. simpl.
      by destruct (Z.ltb_spec nprim (perm_value d)); [lia|]. }
    apply reads_added; [done|done|by apply Hfresh|by destruct d].
Qed.

(** The permissions of a common or a class. *)
Definition perms_ok (s : symtab perm_datum) : Prop :=
  exists h, st_table s = Some h /\ hashtab_ok h /\ ht_nel h < 2 ^ 32 - 1 /\
    0 <= st_nprim s <= PERM_SYMTAB_SIZE /\ all_ok (ok := perm_ok (st_nprim s)) h.

Definition perms_eqv (s s' : symtab perm_datum) : Prop :=
  st_nprim s' = st_nprim s /\ (exists h', st_table s' = Some h' /\ hashtab_ok h') /\ symtab_abs s' = symtab_abs s.

Definition perms_image (s : symtab perm_datum) : list Z := table_image perm_image (st_table s).

Lemma reads_perms s h0 :
  perms_ok s -> hashtab_ok h0 -> hashtab_abs h0 = ∅ -> ht_nel h0 = 0 ->
  reads (perms_read (Some h0) (st_nprim s) (nel_of (st_table s))) (perms_image s)
    (fun t => perms_eqv s (mk_symtab t (st_nprim s))).
Proof.
  intros (h & Ht & Hok & Hnel & Hn & Hall) Hok0 H0 Hn0. unfold perms_read, perms_image, perms_eqv. rewrite Ht. cbn [nel_of].
  eapply reads_mono; [apply (reads_symbols (codec := perm_codec (st_nprim s)) h h0)|]; [done|done|done|lia| |].
  - intros k _ _. by rewrite H0.
  - intros t (h' & -> & Hok' & Hadd). split; [done|]. split; [by exists h'|]. unfold symtab_abs. cbn [st_table]. rewrite Ht. by eapply table_added_eq.
Qed.

Lemma writes_perms s : perms_ok s -> writes (wtable (st_table s) perm_write) (perms_image s).
Proof. intros (h & Ht & _ & _ & _ & Hall). unfold perms_image. rewrite Ht. by apply (writes_symbols (codec := perm_codec (st_nprim s))). Qed.

Lemma perms_words s : perms_ok s -> in_range 32 (st_nprim s) /\ in_range 32 (nel_of (st_table s)).
Proof.
  intros (h & -> & (_ & _ & Hn & _) & Hnel & Hp & _). cbn [nel_of]. split; [apply small_word; unfold PERM_SYMTAB_SIZE in *; lia|].
  unfold in_range. lia.
Qed.

(** ** Commons *)

Definition common_image (k : cstring) (d : common_datum) : list Z :=
  words32 [zlength k; com_value d; st_nprim (com_permissions d); nel_of (st_table (com_permissions d))] ++
  k ++ perms_image (com_permissions d).

Definition common_ok (k : cstring) (d : common_datum) : Prop :=
  name_ok k /\ in_range 32 (com_value d) /\ perms_ok (com_permissions d).

Definition common_eqv (d d' : common_datum) : Prop :=
  com_value d' = com_value d /\ perms_eqv (com_permissions d) (com_permissions d').

#[global] Instance common_codec : SymCodec common_read common_write common_image common_ok (fun _ => true) common_eqv.
Proof.
  split.
  - intros k d (Hk & _ & Hp). unfold common_write, common_image. cbv zeta. rewrite name_u32 by done.
    apply writes_seq; [apply writes_words|]. apply writes_seq; [apply writes_str|].
    apply writes_end. by apply writes_perms.
  - intros k d h (Hk & Hv & Hp) Hok Hnel Hfresh. unfold common_read, common_image.
    pose proof (perms_words _ Hp) as [Hw1 Hw2].
    apply reads_alloc, reads_words; [done|]. cbv zeta. rword. rstr.
    eapply reads_step; [apply reads_symtab|]. intros ? (h0 & -> & Hok0 & H0 & Hn0).
    apply reads_check; [destruct Hp as (? & ? & ? & ? & ? & ?); lia|].
    eapply reads_last; [by apply (reads_perms (com_permissions d) h0)|]. intros t Ht.
    apply reads_added; [done|done|by apply Hfresh|done].
Qed.

(** ** Kernel policies *)

Section Kern.
Context (p : pol).
Hypothesis Hkern : policy_type p = POLICY_KERN.
Hypothesis Hvers : POLICYDB_VERSION_CONSTRAINT_NAMES <= pol_vers p.

Lemma kern_is : is_kern p = true.
Proof using Hkern. unfold is_kern. by rewrite Hkern. Qed.

Lemma kern_base a b : a <= POLICYDB_VERSION_CONSTRAINT_NAMES -> kern_or_base p a b = true.
Proof using Hkern Hvers.
  intros Ha. unfold kern_or_base. rewrite kern_is. destruct (Z.leb_spec a (pol_vers p)); [done|lia].
Qed.

Lemma kern_boundary : policydb_has_boundary_feature p = true.
Proof using Hkern Hvers.
  unfold policydb_has_boundary_feature. rewrite kern_is. unfold POLICYDB_VERSION_BOUNDARY, POLICYDB_VERSION_CONSTRAINT_NAMES in *.
  destruct (Z.leb_spec 24 (pol_vers p)); [done|lia].
Qed.

Lemma kern_names : (POLICYDB_VERSION_CONSTRAINT_NAMES <=? pol_vers p) = true.
Proof using Hvers. by apply Z.leb_le. Qed.

(** *** Type sets and constraints *)

Definition type_set_image (x : type_set) : list Z :=
  ebitmap_image (ts_types x) ++ ebitmap_image (ts_negset x) ++ words32 [ts_flags x].

Definition type_set_ok (x : type_set) : Prop :=
  ebitmap_ok (ts_types x) /\ ebitmap_ok (ts_negset x) /\ in_range 32 (ts_flags x).

Lemma writes_type_set x : type_set_ok x -> writes (type_set_write x) (type_set_image x).
Proof using.
  intros (Ht & Hn & _). unfold type_set_write, type_set_image.
  apply writes_seq; [by apply writes_ebitmap|]. apply writes_seq; [by apply writes_ebitmap|].
  apply writes_end. apply writes_words.
Qed.

Lemma reads_type_set x : type_set_ok x -> reads type_set_read (type_set_image x) (eq x).
Proof using.
  intros (Ht & Hn & Hf). unfold type_set_read, type_set_image. rmap. rmap.
  rewrite <- (app_nil_r (words32 _)). apply reads_words; [done|]. rword. apply reads_ret. by destruct x.
Qed.

Definition cons_expr_image (e : constraint_expr) : list Z :=
  words32 [ce_type e; ce_attr e; ce_op e] ++
  (if ce_type e =? CEXPR_NAMES then ebitmap_image (ce_names e) ++ type_set_image (ce_type_names e) else []).

(** The depth of the stack after an element, when there is one. *)
Definition cons_depth_step (e : constraint_expr) (depth : Z) : option Z :=
  let t := ce_type e in
  if t =? CEXPR_NOT then if 0 <=? depth then Some depth else None
  else if (t =? CEXPR_AND) || (t =? CEXPR_OR) then if 1 <=? depth then Some (depth - 1) else None
  else if (t =? CEXPR_ATTR) || (t =? CEXPR_NAMES) then
    if depth =? CEXPR_MAXDEPTH - 1 then None else Some (depth + 1)
  else None.

Fixpoint cons_depth (es : list constraint_expr) (depth : Z) : option Z :=
  match es with
  | [] => Some depth
  | e :: es => depth ← cons_depth_step e depth; cons_depth es depth
  end.

Definition cons_expr_ok (xtarget : bool) (e : constraint_expr) : Prop :=
  in_range 32 (ce_type e) /\ in_range 32 (ce_attr e) /\ in_range 32 (ce_op e) /\
  if ce_type e =? CEXPR_NAMES
  then ebitmap_ok (ce_names e) /\ type_set_ok (ce_type_names e) /\ (xtarget = true \/ Z.land (ce_attr e) CEXPR_XTARGET = 0)
  else ce_names e = ebitmap_init /\ ce_type_names e = empty_type_set.

Definition cons_node_ok (xtarget : bool) (c : constraint_node) : Prop :=
  in_range 32 (con_permissions c) /\ zlength (con_expr c) < 2 ^ 32 /\
  Forall (cons_expr_ok xtarget) (con_expr c) /\ cons_depth (con_expr c) (-1) = Some 0.

Definition cons_node_image (c : constraint_node) : list Z :=
  words32 [con_permissions c; zlength (con_expr c)] ++ concat (map cons_expr_image (con_expr c)).

Lemma xtarget_check xtarget e :
  xtarget = true \/ Z.land (ce_attr e) CEXPR_XTARGET = 0 -> negb xtarget && ctrue (Z.land (ce_attr e) CEXPR_XTARGET) = false.
Proof using. intros [-> | ->]; [done|]. apply andb_false_r. Qed.

Lemma writes_cons_expr xtarget e : cons_expr_ok xtarget e -> writes (cons_expr_write p xtarget e) (cons_expr_image e).
Proof using Hvers.
  intros (_ & _ & _ & H). unfold cons_expr_write, cons_expr_image. apply writes_seq; [apply writes_words|].
  destruct (ce_type e =? CEXPR_NAMES); [|apply writes_done]. destruct H as (Hn & Ht & Hx).
  rewrite xtarget_check by done. apply writes_seq; [by apply writes_ebitmap|].
  rewrite kern_names, orb_true_r. apply writes_end. by apply writes_type_set.
Qed.

Lemma reads_cons_expr xtarget e es depth depth' :
  cons_expr_ok xtarget e -> cons_depth_step e depth = Some depth' ->
  reads (cons_expr_read p xtarget (es, depth)) (cons_expr_image e) (eq (e :: es, depth')).
Proof using Hvers.
  intros (Ht & Ha & Ho & H) Hd. unfold cons_expr_read, cons_expr_image, cons_depth_step in *.
  apply reads_alloc, reads_alloc, reads_words; [done|]. cbv zeta in *. rword.
  destruct (Z.eqb_spec (ce_type e) CEXPR_NAMES) as [E|_].
  - rewrite E in *. change (CEXPR_NAMES =? CEXPR_NOT) with false in *. change ((CEXPR_NAMES =? CEXPR_AND) || (CEXPR_NAMES =? CEXPR_OR)) with false in *.
    change ((CEXPR_NAMES =? CEXPR_ATTR) || true) with true in Hd. change (CEXPR_NAMES =? CEXPR_ATTR) with false. cbv iota in *.
    destruct H as (Hn & Hts & Hx). destruct (depth =? CEXPR_MAXDEPTH - 1); [done|]. simplify_eq.
    apply reads_check; [by rewrite xtarget_check|]. apply reads_check; [done|]. rmap.
    rewrite kern_names, orb_true_r. eapply reads_last; [by apply reads_type_set|]. intros ? <-. apply reads_ret.
    rewrite <- E. by destruct e.
  - destruct H as (Hn & Hts). rewrite orb_false_r in Hd.
    assert (mk_constraint_expr (ce_type e) (ce_attr e) (ce_op e) ebitmap_init empty_type_set = e) as ->.
    { rewrite <- Hn, <- Hts. by destruct e. }
    destruct (ce_type e =? CEXPR_NOT); [|destruct (_ || _)].
    + destruct (0 <=? depth); [|done]. simplify_eq. apply reads_check; [done|]. by apply reads_ret.
    + destruct (1 <=? depth); [|done]. simplify_eq. apply reads_check; [done|]. by apply reads_ret.
    + destruct (ce_type e =? CEXPR_ATTR); [|done]. destruct (depth =? CEXPR_MAXDEPTH - 1); [done|]. simplify_eq.
      apply reads_check; [done|]. by apply reads_ret.
Qed.

Lemma cons_depth_app l1 l2 d : cons_depth (l1 ++ l2) d = cons_depth l1 d ≫= cons_depth l2.
Proof using.
  revert d. induction l1 as [|e l1 IH]; intros d; [done|]. cbn [app cons_depth].
  destruct (cons_depth_step e d); [|done]. cbn [mbind option_bind]. apply IH.
Qed.

Lemma writes_cons_node xtarget c : cons_node_ok xtarget c -> writes (cons_node_write p xtarget c) (cons_node_image c).
Proof using Hvers.
  intros (_ & Hl & Hall & _). unfold cons_node_write, cons_node_image. pose proof (zlength_nonneg (con_expr c)).
  rewrite wrap_small by (unfold in_range; lia). apply writes_seq; [apply writes_words|]. apply writes_list.
  eapply Forall_impl; [exact Hall|]. intros e. apply writes_cons_expr.
Qed.

Lemma reads_cons_node xtarget cs c :
  cons_node_ok xtarget c -> reads (cons_node_read p xtarget cs) (cons_node_image c) (eq (c :: cs)).
Proof using Hvers.
  intros (Hp & Hl & Hall & Hd). unfold cons_node_read, cons_node_image. pose proof (zlength_nonneg (con_expr c)).
  assert (in_range 32 (zlength (con_expr c))) by (unfold in_range; lia).
  apply reads_alloc, reads_words; [done|]. rword.
  replace (Z.to_nat (zlength (con_expr c))) with (length (con_expr c)) by (unfold zlength; lia).
  eapply reads_last.
  { apply (reads_loop _ cons_expr_image (con_expr c)
      (fun done st => fst st = reverse done /\ cons_depth done (-1) = Some (snd st))); [done|].
    intros done e todo [es depth] Hsplit [Hes Hdep]. simpl in Hes, Hdep. subst es.
    rewrite Hsplit in Hall, Hd. apply Forall_app in Hall as [_ Hall]. apply Forall_cons in Hall as [He _].
    rewrite cons_depth_app, Hdep in Hd. cbn [mbind option_bind cons_depth] in Hd.
    destruct (cons_depth_step e depth) as [depth'|] eqn:Es; [|done].
    eapply reads_mono; [by apply reads_cons_expr|]. intros st <-. simpl. rewrite reverse_snoc. split; [done|].
    rewrite cons_depth_app, Hdep. cbn [mbind option_bind cons_depth]. by rewrite Es. }
  intros [es depth] [Hes Hdep]. simpl in Hes, Hdep. subst es. rewrite Hd in Hdep. simplify_eq. cbn [fst snd].
  apply reads_check; [done|]. apply reads_ret. rewrite reverse_involutive. by destruct c.
Qed.

Definition cons_image (cs : list constraint_node) : list Z := concat (map cons_node_image cs).

Definition cons_ok (xtarget : bool) (cs : list constraint_node) : Prop :=
  zlength cs < 2 ^ 32 /\ Forall (cons_node_ok xtarget) cs.

Lemma cons_word xtarget cs : cons_ok xtarget cs -> in_range 32 (zlength cs).
Proof using. intros [H _]. pose proof (zlength_nonneg cs). unfold in_range. lia. Qed.

Lemma writes_cons xtarget cs : cons_ok xtarget cs -> writes (write_cons_helper p cs xtarget) (cons_image cs).
Proof using Hvers.
  intros [_ Hall]. apply writes_list. eapply Forall_impl; [exact Hall|]. intros c. apply writes_cons_node.
Qed.

Lemma reads_cons xtarget cs : cons_ok xtarget cs -> reads (read_cons_helper p (zlength cs) xtarget) (cons_image cs) (eq cs).
Proof using Hvers.
  intros [_ Hall]. unfold read_cons_helper. replace (Z.to_nat (zlength cs)) with (length cs) by (unfold zlength; lia).
  eapply reads_last.
  { apply (reads_loop _ cons_node_image cs (fun done st => st = reverse done)); [done|].
    intros done c todo st Hsplit ->. rewrite Hsplit in Hall. apply Forall_app in Hall as [_ Hall]. apply Forall_cons in Hall as [Hc _].
    eapply reads_mono; [by apply reads_cons_node|]. intros st <-. by rewrite reverse_snoc. }
  intros ? ->. apply reads_ret. by rewrite reverse_involutive.
Qed.
(** *** Classes *)

(** A value the two [char] conversions keep. *)
Definition char_ok (x : Z) : Prop := 0 <= x < 128.

Lemma char_same x : char_ok x -> to_char p x = x /\ u32 x = x /\ in_range 32 x.
Proof using.
  unfold char_ok. intros Hx. unfold to_char. rewrite !wrap_small by (unfold in_range; lia).
  destruct (Z.leb_spec 128 x); [lia|]. rewrite andb_false_r. split_and!; [done..|unfold in_range; lia].
Qed.

Definition class_image (k : cstring) (d : class_datum) : list Z :=
  let ck := default [] (cla_comkey d) in
  words32 [zlength k; zlength ck; cla_value d; st_nprim (cla_permissions d); nel_of (st_table (cla_permissions d));
           zlength (cla_constraints d)] ++
  k ++ ck ++ perms_image (cla_permissions d) ++ cons_image (cla_constraints d) ++
  (words32 [zlength (cla_validatetrans d)] ++ cons_image (cla_validatetrans d)) ++
  words32 [default_user d; default_role d; default_range d] ++ words32 [default_type d].

(** [known] are the names of the commons. *)
Definition class_ok (known : cstring -> Prop) (k : cstring) (d : class_datum) : Prop :=
  name_ok k /\ 0 <= cla_value d < 2 ^ 16 /\ perms_ok (cla_permissions d) /\
  (forall ck, cla_comkey d = Some ck -> name_ok ck /\ known ck) /\
  cons_ok false (cla_constraints d) /\ cons_ok true (cla_validatetrans d) /\
  char_ok (default_user d) /\ char_ok (default_role d) /\ char_ok (default_range d) /\ char_ok (default_type d) /\
  (default_range d <> DEFAULT_GLBLUB \/ POLICYDB_VERSION_GLBLUB <= pol_vers p).

Definition class_eqv (d d' : class_datum) : Prop :=
  cla_value d' = cla_value d /\ cla_comkey d' = cla_comkey d /\
  perms_eqv (cla_permissions d) (cla_permissions d') /\
  cla_constraints d' = cla_constraints d /\ cla_validatetrans d' = cla_validatetrans d /\
  default_user d' = default_user d /\ default_role d' = default_role d /\
  default_range d' = default_range d /\ default_type d' = default_type d.

Lemma writes_class known k d : class_ok known k d -> writes (class_write p k d) (class_image k d).
Proof using Hkern Hvers.
  intros (Hk & _ & Hp & Hck & Hc & Hvt & Hdu & Hdr & Hdg & Hdt & Hglb). unfold class_write, class_image. cbv zeta.
  rewrite name_u32 by done. pose proof (cons_word _ _ Hc). pose proof (cons_word _ _ Hvt).
  rewrite (wrap_small 32 (zlength (cla_constraints d))), (wrap_small 32 (zlength (cla_validatetrans d))) by done.
  assert (match cla_comkey d with Some k => zlength k | None => 0 end = zlength (default [] (cla_comkey d))) as ->
    by by destruct (cla_comkey d).
  rewrite (wrap_small 32 (zlength (default [] _))).
  2:{ destruct (cla_comkey d) as [ck|]; [|by apply small_word; vm_compute]. by apply name_len, Hck. }
  apply writes_seq; [apply writes_words|]. apply writes_seq; [apply writes_str|].
  apply writes_seq; [destruct (cla_comkey d); [apply writes_str|apply writes_done]|].
  apply writes_seq; [by apply writes_perms|]. apply writes_seq; [by apply writes_cons|].
  rewrite !kern_base by done. apply writes_seq; [apply writes_seq; [apply writes_words|by apply writes_cons]|].
  assert (negb (glblub_version p) && (default_range d =? DEFAULT_GLBLUB) = false) as ->.
  { destruct Hglb as [Hne|Hv]; [by rewrite (proj2 (Z.eqb_neq _ _) Hne), andb_false_r|].
    unfold glblub_version, kern_or_base. rewrite kern_is, (proj2 (Z.leb_le _ _) Hv). done. }
  destruct (char_same _ Hdu) as (_ & -> & _), (char_same _ Hdr) as (_ & -> & _), (char_same _ Hdg) as (_ & -> & _), (char_same _ Hdt) as (_ & -> & _).
  apply writes_seq; [apply writes_words|]. apply writes_end. apply writes_words.
Qed.

Lemma reads_comkey known (cm : table common_datum) d (B : Type) (f : option cstring -> R B) img Q :
  (forall ck, cla_comkey d = Some ck -> name_ok ck /\ known ck) ->
  (forall ck, known ck -> is_Some (hashtab_search cm ck)) ->
  reads (f (cla_comkey d)) img Q ->
  reads (rbind (if ctrue (zlength (default [] (cla_comkey d))) then
           ck <~ str_read (zlength (default [] (cla_comkey d))) ;;
           rcheck (match hashtab_search cm ck with Some _ => true | None => false end) ~; rret (Some ck)
         else rret None) f) (default [] (cla_comkey d) ++ img) Q.
Proof using.
  intros Hck Hcm Hf. destruct (cla_comkey d) as [ck|]; simpl default.
  - destruct (Hck ck eq_refl) as [Hn Hkn]. pose proof (zlength_name ck Hn).
    assert (ctrue (zlength ck) = true) as -> by (unfold ctrue; lia).
    eapply reads_bind; [|intros a Ha; exact (eq_rect _ (fun a => reads (f a) img Q) Hf a Ha)].
    eapply reads_last; [by apply reads_str|]. intros ? <-. destruct (Hcm ck Hkn) as [dc ->].
    apply reads_check; [done|]. by apply reads_ret.
  - eapply reads_bind; [by apply (reads_ret None (eq None))|]. by intros ? <-.
Qed.

Lemma reads_class known (cm : table common_datum) k d h :
  class_ok known k d -> (forall ck, known ck -> is_Some (hashtab_search cm ck)) ->
  hashtab_ok h -> ht_nel h < 2 ^ 32 - 1 -> hashtab_abs h !! k = None ->
  reads (class_read p cm (Some h)) (class_image k d) (fun t => exists h', t = Some h' /\ hashtab_ok h' /\
    exists d', class_eqv d d' /\ hashtab_abs h' = <[k := d']> (hashtab_abs h)).
Proof using Hkern Hvers.
  intros (Hk & Hv & Hp & Hck & Hc & Hvt & Hdu & Hdr & Hdg & Hdt & Hglb) Hcm Hok Hnel Hfresh.
  pose proof (perms_words _ Hp) as [Hw1 Hw2]. pose proof (cons_word _ _ Hc). pose proof (cons_word _ _ Hvt).
  assert (in_range 32 (cla_value d)) by (unfold in_range; lia).
  assert (in_range 32 (zlength (default [] (cla_comkey d)))).
  { destruct (cla_comkey d) as [ck|]; [|by apply small_word; vm_compute]. by apply name_len, Hck. }
  unfold class_read, class_image. cbv zeta. apply reads_alloc, reads_words; [done|]. rword. rstr.
  apply reads_check; [lia|]. eapply reads_step; [apply reads_symtab|]. intros ? (h0 & -> & Hok0 & Hemp & Hn0).
  apply reads_check; [destruct Hp as (? & ? & ? & ? & ? & ?); lia|].
  apply (reads_comkey known); [done|done|].
  eapply reads_bind; [by apply (reads_perms (cla_permissions d) h0)|]. intros t Ht.
  eapply reads_bind; [by apply reads_cons|]. intros ? <-. rewrite !kern_base by done.
  eapply reads_bind; [apply reads_words; [done|]; rword; by apply reads_cons|]. intros ? <-.
  destruct (char_same _ Hdu) as (Eu & _ & ?), (char_same _ Hdr) as (Er & _ & ?), (char_same _ Hdg) as (Eg & _ & ?), (char_same _ Hdt) as (Et & _ & ?).
  eapply reads_bind.
  { rewrite <- (app_nil_r (words32 _)). apply reads_words; [done|]. rword. rewrite Eu, Er, Eg. apply reads_ret_eq. }
  intros ? <-. eapply reads_last.
  { rewrite <- (app_nil_r (words32 _)). apply reads_words; [done|]. rword. rewrite Et. apply reads_ret_eq. }
  intros ? <-. by apply reads_added.
Qed.

#[global] Instance class_codec known (cm : table common_datum) (Hcm : forall ck, known ck -> is_Some (hashtab_search cm ck)) :
  SymCodec (class_read p cm) (class_write p) class_image (class_ok known) (fun _ => true) class_eqv.
Proof using Hkern Hvers.
  split.
  - intros k d Hd. by eapply writes_class.
  - intros k d h Hd Hok Hnel Hfresh. eapply reads_class; [done|done|done|done|by apply Hfresh].
Qed.
(** *** Roles *)

(** [object_r] is written with an empty set of types. *)
Definition role_image (k : cstring) (d : role_datum) : list Z :=
  words32 [zlength k; role_value d; role_bounds d] ++ k ++ ebitmap_image (role_dominates d) ++
  ebitmap_image (if role_value d =? OBJECT_R_VAL then ebitmap_init else ts_types (role_types d)).

Definition role_keep (k : cstring) : bool := negb (strcmp k OBJECT_R =? 0).

Definition role_ok (k : cstring) (d : role_datum) : Prop :=
  name_ok k /\ in_range 32 (role_value d) /\ in_range 32 (role_bounds d) /\
  ebitmap_ok (role_dominates d) /\ ebitmap_ok (ts_types (role_types d)) /\
  ts_negset (role_types d) = ebitmap_init /\ ts_flags (role_types d) = 0 /\
  role_flavor d = 0 /\ role_roles d = ebitmap_init /\
  (if role_keep k then role_value d <> OBJECT_R_VAL else role_value d = OBJECT_R_VAL).

Lemma ebitmap_init_ok : ebitmap_ok ebitmap_init.
Proof using. done. Qed.

Lemma role_types_ok k d : role_ok k d ->
  ebitmap_ok (if role_value d =? OBJECT_R_VAL then ebitmap_init else ts_types (role_types d)).
Proof using. intros (_ & _ & _ & _ & Ht & _). by destruct (role_value d =? OBJECT_R_VAL). Qed.

#[global] Instance role_codec : SymCodec (role_read p) (role_write p) role_image role_ok role_keep eq.
Proof using Hkern Hvers.
  split.
  - intros k d Hd. pose proof (role_types_ok k d Hd) as Hts. destruct Hd as (Hk & _ & _ & Hdom & _ & _ & _ & Hf & _).
    unfold role_write, role_image. rewrite Hf. cbn [Z.eqb ROLE_ATTRIB andb]. rewrite kern_boundary, kern_is, name_u32 by done.
    apply writes_seq; [apply writes_words|]. apply writes_seq; [apply writes_str|].
    apply writes_seq; [by apply writes_ebitmap|]. destruct (role_value d =? OBJECT_R_VAL); apply writes_end, writes_end; by apply writes_ebitmap.
  - intros k d h Hd Hok Hnel Hfresh. pose proof (role_types_ok k d Hd) as Hts.
    destruct Hd as (Hk & Hv & Hb & Hdom & _ & Hneg & Hfl & Hf & Hr & Hval).
    unfold role_read, role_image. cbv zeta. rewrite kern_boundary, kern_is. apply reads_alloc, reads_words; [done|]. rword.
    rstr. rmap. cbn [negb andb]. eapply reads_last.
    { eapply reads_last; [by apply reads_ebitmap|]. intros ? <-. apply reads_ret_eq. }
    intros ? <-. eapply reads_step; [apply reads_ret_eq|]. intros ? <-. unfold role_keep in *.
    destruct (strcmp k OBJECT_R =? 0); cbn [negb] in *.
    + apply reads_check; [by apply Z.eqb_eq|]. apply reads_ret. eauto.
    + apply reads_added; [done|done|by apply Hfresh|]. rewrite (proj2 (Z.eqb_neq _ _) Hval). cbn [fst snd].
      destruct d as [? ? [] ? ? ?]; simpl in *. congruence.
Qed.

(** *** Types *)

Definition type_properties (d : type_datum) : Z :=
  Z.lor (if ctrue (type_primary d) then TYPEDATUM_PROPERTY_PRIMARY else 0)
        (if type_flavor d =? TYPE_ATTRIB then TYPEDATUM_PROPERTY_ATTRIBUTE else 0).

Definition type_image (k : cstring) (d : type_datum) : list Z :=
  words32 [zlength k; type_value d; type_properties d; type_bounds d] ++ k.

Definition type_ok (k : cstring) (d : type_datum) : Prop :=
  name_ok k /\ in_range 32 (type_value d) /\ in_range 32 (type_bounds d) /\
  (type_primary d = 0 \/ type_primary d = 1) /\ (type_flavor d = 0 \/ type_flavor d = TYPE_ATTRIB) /\
  type_flags d = 0 /\ type_types d = ebitmap_init.

#[global] Instance type_codec : SymCodec (type_read p) (type_write p) type_image type_ok (fun _ => true) eq.
Proof using Hkern Hvers.
  split.
  - intros k d (Hk & _ & _ & Hp & Hf & _). unfold type_write, type_image, type_entry.
    rewrite kern_boundary, kern_is, name_u32 by done. cbn [negb andb]. rewrite !andb_false_r.
    assert ((pol_vers p <? POLICYDB_VERSION_BOUNDARY) = false) as ->.
    { apply Z.ltb_ge. unfold POLICYDB_VERSION_BOUNDARY, POLICYDB_VERSION_CONSTRAINT_NAMES in *. lia. }
    cbn [andb app]. apply writes_seq.
    { replace (if type_flavor d =? TYPE_ATTRIB then _ else _) with (type_properties d); [apply writes_words|].
      unfold type_properties. by destruct Hp as [-> | ->], Hf as [-> | ->]. }
    apply (writes_seq wdone _ []); [apply writes_done|]. apply writes_end. apply writes_str.
  - intros k d h (Hk & Hv & Hb & Hp & Hf & Hfl & Ht) Hok Hnel Hfresh.
    assert (in_range 32 (type_properties d)).
    { unfold type_properties. destruct Hp as [-> | ->], Hf as [-> | ->]; by vm_compute. }
    unfold type_read, type_image, type_words, type_fields. cbv zeta. rewrite kern_boundary, kern_is. cbn [negb andb].
    apply reads_alloc, reads_words; [done|]. rword. rewrite !andb_false_r.
    eapply reads_step; [apply reads_ret_eq|]. intros ? <-. eapply reads_last; [by apply reads_str|]. intros ? <-.
    apply reads_added; [done|done|by apply Hfresh|]. unfold type_properties.
    destruct d; simpl in *; subst; by destruct Hp as [-> | ->], Hf as [-> | ->].
Qed.

(** *** Users *)

Definition level_image (l : mls_level) : list Z := words32 [sens l] ++ ebitmap_image (cat l).
Definition level_ok (l : mls_level) : Prop := in_range 32 (sens l) /\ ebitmap_ok (cat l).

Lemma writes_level l : level_ok l -> writes (mls_write_level l) (level_image l).
Proof using.
  intros [_ Hc]. apply writes_seq; [apply writes_words|]. apply writes_end. by apply writes_ebitmap.
Qed.

Lemma reads_level l : level_ok l -> reads mls_read_level (level_image l) (eq l).
Proof using.
  intros [Hs Hc]. unfold mls_read_level, level_image. apply reads_words; [done|]. rword.
  eapply reads_last; [by apply reads_ebitmap|]. intros ? <-. apply reads_ret. by destruct l.
Qed.

Lemma level_eq_same l1 l2 : mls_level_eq l1 l2 = true -> l1 = l2.
Proof using.
  unfold mls_level_eq, ebitmap_cmp. destruct l1 as [s1 [n1 h1]], l2 as [s2 [n2 h2]]; simpl.
  destruct (Z.eqb_spec s1 s2) as [->|]; [|done]. destruct (Z.eqb_spec h1 h2) as [->|]; [|done]. simpl.
  destruct (cmp_loop n1 n2) as [r1 r2] eqn:E. destruct r1, r2; try done. by apply cmp_loop_eq in E as ->.
Qed.

Definition range_image (r : mls_range) : list Z :=
  if mls_level_eq (level1 r) (level0 r)
  then words32 [1; sens (level0 r)] ++ ebitmap_image (cat (level0 r))
  else words32 [2; sens (level0 r); sens (level1 r)] ++ ebitmap_image (cat (level0 r)) ++ ebitmap_image (cat (level1 r)).

Lemma writes_range r : level_ok (level0 r) -> level_ok (level1 r) -> writes (mls_write_range_helper r) (range_image r).
Proof using.
  intros [_ H0] [_ H1]. unfold mls_write_range_helper, range_image. cbv zeta.
  destruct (mls_level_eq _ _); (apply writes_seq; [apply writes_words|]).
  - apply writes_end. by apply writes_ebitmap.
  - apply writes_seq; [by apply writes_ebitmap|]. rewrite <- (app_nil_r (ebitmap_image (cat (level1 r)))).
    apply writes_seq; [by apply writes_ebitmap|apply writes_done].
Qed.

Lemma words32_cons w ws : words32 (w :: ws) = words32 [w] ++ words32 ws.
Proof using. unfold words32. cbn [map concat]. by rewrite app_nil_r. Qed.

Lemma drop_words32 ws old : (length old <= length (words32 ws))%nat -> words32 ws ++ drop (length (words32 ws)) old = words32 ws.
Proof using. intros. by rewrite drop_ge, app_nil_r. Qed.

Lemma length_words32 ws : length (words32 ws) = (4 * length ws)%nat.
Proof using. pose proof (zlength_words32 ws). unfold zlength in *. lia. Qed.

Lemma reads_range r : level_ok (level0 r) -> level_ok (level1 r) -> reads mls_read_range_helper (range_image r) (eq r).
Proof using.
  intros [Hs0 Hc0] [Hs1 Hc1]. unfold mls_read_range_helper, range_image. cbv zeta.
  destruct (mls_level_eq (level1 r) (level0 r)) eqn:E; rewrite words32_cons, <- app_assoc;
    (apply reads_words; [done|]); rword; (apply reads_check; [done|]);
    (apply reads_words; [done|]); rewrite drop_words32 by (rewrite !length_words32; simpl; lia); rword.
  - eapply reads_last; [by apply reads_ebitmap|]. intros ? <-. change (1 <? 1) with false. cbv iota. eapply reads_step; [apply reads_cpy|]. intros ? <-. apply reads_ret.
    apply level_eq_same in E. destruct r as [l0 l1]; simpl in *. subst. by destruct l0.
  - rmap. change (1 <? 2) with true. cbv iota. eapply reads_last; [by apply reads_ebitmap|]. intros ? <-. apply reads_ret.
    destruct r as [[] []]; done.
Qed.

Definition user_image (k : cstring) (d : user_datum) : list Z :=
  words32 [zlength k; user_value d; user_bounds d] ++ k ++ ebitmap_image (rs_roles (user_roles d)) ++
  range_image (user_exp_range d) ++ level_image (user_exp_dfltlevel d).

Definition user_ok (k : cstring) (d : user_datum) : Prop :=
  name_ok k /\ in_range 32 (user_value d) /\ in_range 32 (user_bounds d) /\
  ebitmap_ok (rs_roles (user_roles d)) /\ rs_flags (user_roles d) = 0 /\
  level_ok (level0 (user_exp_range d)) /\ level_ok (level1 (user_exp_range d)) /\ level_ok (user_exp_dfltlevel d) /\
  user_range d = mk_semantic_range empty_semantic_level empty_semantic_level /\ user_dfltlevel d = empty_semantic_level.

Lemma kern_mls : (POLICYDB_VERSION_MLS <=? pol_vers p) = true.
Proof using Hvers. apply Z.leb_le. unfold POLICYDB_VERSION_MLS, POLICYDB_VERSION_CONSTRAINT_NAMES in *. lia. Qed.

#[global] Instance user_codec : SymCodec (user_read p) (user_write p) user_image user_ok (fun _ => true) eq.
Proof using Hkern Hvers.
  split.
  - intros k d (Hk & _ & _ & Hr & _ & Hl0 & Hl1 & Hdf & _). unfold user_write, user_image.
    rewrite kern_boundary, kern_is, kern_mls, name_u32 by done. cbn [andb orb app].
    apply writes_seq; [apply writes_words|]. apply writes_seq; [apply writes_str|]. apply writes_seq.
    { apply writes_end. by apply writes_ebitmap. }
    apply writes_seq; [by apply writes_range|]. apply writes_end. by apply writes_level.
  - intros k d h (Hk & Hv & Hb & Hr & Hrf & Hl0 & Hl1 & Hdf & Hsr & Hsl) Hok Hnel Hfresh.
    unfold user_read, user_image, user_mls_read. cbv zeta. rewrite kern_boundary, kern_is, kern_mls. cbn [andb orb negb].
    apply reads_alloc, reads_words; [done|]. rword. rstr. eapply reads_bind.
    { eapply reads_last; [by apply reads_ebitmap|]. intros ? <-. apply reads_ret_eq. }
    intros ? <-. eapply reads_last.
    { eapply reads_bind; [by apply reads_range|]. intros ? <-. eapply reads_last; [by apply reads_level|]. intros ? <-.
      apply reads_ret_eq. }
    intros ? <-. apply reads_added; [done|done|by apply Hfresh|].
    destruct d as [? [] ? ? ? ? ?]; simpl in *; by subst.
Qed.

(** *** Booleans, sensitivities and categories *)

Definition bool_image (k : cstring) (d : cond_bool_datum) : list Z :=
  words32 [bool_value d; bool_state d; zlength k] ++ k.

Definition bool_ok (k : cstring) (d : cond_bool_datum) : Prop :=
  name_ok k /\ in_range 32 (bool_value d) /\ (bool_state d = 0 \/ bool_state d = 1) /\ bool_flags d = 0.

#[global] Instance bool_codec : SymCodec (cond_read_bool p) (cond_write_bool p) bool_image bool_ok (fun _ => true) eq.
Proof using Hkern.
  split.
  - intros k d (Hk & _ & Hs & _). unfold cond_write_bool, bool_image. rewrite kern_is, name_u32 by done. cbn [negb andb].
    assert (u32 (bool_state d) = bool_state d) as -> by (by destruct Hs as [-> | ->]).
    apply writes_seq; [apply writes_words|]. apply writes_end. apply writes_str.
  - intros k d h (Hk & Hv & Hs & Hf) Hok Hnel Hfresh. unfold cond_read_bool, bool_image. rewrite kern_is. cbn [negb andb].
    assert (in_range 32 (bool_state d)) by (apply small_word; lia).
    apply reads_alloc, reads_words; [done|]. cbv zeta. rword.
    assert (s32 (bool_state d) = bool_state d) as -> by (by destruct Hs as [-> | ->]).
    apply reads_check; [unfold bool_isvalid; simpl; by destruct Hs as [-> | ->]|].
    eapply reads_last; [by apply reads_str|]. intros ? <-. eapply reads_step; [apply reads_ret_eq|]. intros ? <-.
    apply reads_added; [done|done|by apply Hfresh|]. destruct d; simpl in *; by subst.
Qed.
End Kern.

Definition sens_image (k : cstring) (d : level_datum) : list Z :=
  words32 [zlength k; lev_isalias d] ++ k ++ level_image (lev_level d).

Definition sens_ok (k : cstring) (d : level_datum) : Prop :=
  name_ok k /\ in_range 8 (lev_isalias d) /\ level_ok (lev_level d).

Lemma byte_word x : in_range 8 x -> in_range 32 x.
Proof. unfold in_range. lia. Qed.

#[global] Instance sens_codec : SymCodec sens_read sens_write sens_image sens_ok (fun _ => true) eq.
Proof.
  split.
  - intros k d (Hk & _ & Hl). unfold sens_write, sens_image. rewrite name_u32 by done.
    apply writes_seq; [apply writes_words|]. apply writes_seq; [apply writes_str|].
    apply writes_end. by apply writes_level.
  - intros k d h (Hk & Ha & Hl) Hok Hnel Hfresh. unfold sens_read, sens_image. pose proof (byte_word _ Ha).
    apply reads_alloc, reads_words; [done|]. rword. rstr. apply reads_alloc.
    eapply reads_last; [by apply reads_level|]. intros ? <-. rewrite wrap_small by done.
    apply reads_added; [done|done|by apply Hfresh|by destruct d].
Qed.

Definition cat_image (k : cstring) (d : cat_datum) : list Z :=
  words32 [zlength k; cat_value d; cat_isalias d] ++ k.

Definition cat_ok (k : cstring) (d : cat_datum) : Prop :=
  name_ok k /\ in_range 32 (cat_value d) /\ in_range 8 (cat_isalias d).

#[global] Instance cat_codec : SymCodec cat_read cat_write cat_image cat_ok (fun _ => true) eq.
Proof.
  split.
  - intros k d (Hk & _). unfold cat_write, cat_image. rewrite name_u32 by done.
    apply writes_seq; [apply writes_words|]. apply writes_end. apply writes_str.
  - intros k d h (Hk & Hv & Ha) Hok Hnel Hfresh. unfold cat_read, cat_image. pose proof (byte_word _ Ha).
    apply reads_alloc, reads_words; [done|]. rword. eapply reads_last; [by apply reads_str|]. intros ? <-.
    rewrite wrap_small by done. apply reads_added; [done|done|by apply Hfresh|by destruct d].
Qed.
