(* ===== verification/SymbolsThms.v ===== *)
(** * SymbolsThms: the symbol tables of a policy

    The eight tables together: what [policydb_write] writes of them,
    [policydb_read] reads back, for kernel policies of version 29 and later.
    The last part is about any bytes: the constraints that are accepted keep
    to the stack of the constraint evaluator. *)
From Stdlib Require Import ZArith Lia Bool.
From stdpp Require Import base option list list_numbers gmap sets.
From S2P Require Import Prelude PolicyFile Ebitmap EbitmapThms EbitmapIO Hashtab HashtabThms Symtab Avtab AvtabIO Cond Codec Symbols SymCodec SymbolsIO.

(** ** One table *)

Definition symtab_ok {D} (ok : cstring -> D -> Prop) (s : symtab D) : Prop :=
  exists h, st_table s = Some h /\ hashtab_ok h /\ all_ok (ok := ok) h /\ ht_nel h < 2 ^ 32 - 2 /\
    0 <= st_nprim s <= ht_nel h /\ (ht_nel h <> 0 -> st_nprim s <> 0).

(** A table that symbols can be read into: nothing but skipped names. *)
Definition symtab_start {D} (keep : cstring -> bool) (s : symtab D) : Prop :=
  exists h, st_table s = Some h /\ hashtab_ok h /\ ht_nel h <= 1 /\ forall k, keep k = true -> hashtab_abs h !! k = None.

Definition symtab_added {D} (keep : cstring -> bool) (eqv : D -> D -> Prop) (s0 s s' : symtab D) : Prop :=
  st_nprim s' = st_nprim s /\ exists h0 h h', st_table s0 = Some h0 /\ st_table s = Some h /\ st_table s' = Some h' /\
    hashtab_ok h' /\ table_added keep eqv h0 h h'.

Definition symtab_image {D} (img : cstring -> D -> list Z) (s : symtab D) : list Z :=
  words32 [st_nprim s; nel_of (st_table s)] ++ table_image img (st_table s).

Lemma reads_available {B} x size (k : unit -> R B) img Q :
  x * size <= zlength img -> x * size < 2 ^ 64 -> reads (k tt) img Q -> reads (rbind (ravailable x size) k) img Q.
Proof.
  intros Hx Hs Hk fp rest o Hfp M Hd. destruct (Hk fp rest o Hfp M Hd) as (a & o' & E & H).
  exists a, o'. split; [|done]. unfold rbind, ravailable.
  assert (exceeds_available_bytes fp x size = false) as ->; [|done].
  unfold exceeds_available_bytes. destruct Hfp as [-> ->]. rewrite Hd, zlength_app. pose proof (zlength_nonneg rest).
  destruct (Z.leb_spec (2 ^ 64) (x * size)); [lia|]. apply Z.ltb_ge. lia.
Qed.

Section One.
Context {D : Type} {read_one : table D -> R (table D)} {write_one : cstring -> D -> W}
        {img : cstring -> D -> list Z} {ok : cstring -> D -> Prop} {keep : cstring -> bool} {eqv : D -> D -> Prop}.
Context {codec : SymCodec read_one write_one img ok keep eqv}.

Lemma writes_symtab s : symtab_ok ok s -> writes (symtab_write s (nel_of (st_table s)) write_one) (symtab_image img s).
Proof using codec.
  intros (h & Ht & _ & Hall & _). unfold symtab_write, symtab_image. apply writes_seq; [apply writes_words|].
  apply writes_end. rewrite Ht. by apply writes_symbols.
Qed.

Lemma reads_symtab_table s s0 :
  (forall k d, ok k d -> 12 <= zlength (img k d)) ->
  symtab_ok ok s -> symtab_start keep s0 ->
  reads (symtab_read read_one s0) (symtab_image img s) (symtab_added keep eqv s0 s).
Proof using codec.
  intros Hsize (h & Ht & Hok & Hall & Hnel & Hnp & Hnz) (h0 & Ht0 & Hok0 & Hn0 & Hfresh).
  unfold symtab_read, symtab_image. rewrite Ht. cbn [nel_of]. pose proof Hok as (_ & _ & Hcnt & _).
  assert (in_range 32 (st_nprim s)) by (unfold in_range; lia). assert (in_range 32 (ht_nel h)) by (unfold in_range; lia).
  apply reads_words; [done|]. cbv zeta. rewrite !(word32_at _ 0 (st_nprim s)), !(word32_at _ 1 (ht_nel h)) by done.
  apply reads_check; [lia|]. pose proof (table_image_size h Hsize Hall) as Hsz. rewrite <- (bindings_length h Hok) in Hsz.
  apply reads_available; [lia|lia|]. apply reads_check.
  { unfold ctrue. destruct (Z.eqb_spec (ht_nel h) 0), (Z.eqb_spec (st_nprim s) 0); try done. by destruct Hnz. }
  rewrite Ht0. eapply reads_last; [apply (reads_symbols h h0); [done|done|done|lia|by intros k Hk _; apply Hfresh]|].
  intros t (h' & -> & Hok' & Hadd). apply reads_ret. split; [done|]. by exists h0, h, h'.
Qed.
End One.

(** ** All tables *)

Definition known_commons (s : symbols) (ck : cstring) : Prop := is_Some (symtab_abs (p_commons s) !! ck).

Definition symbols_ok (p : pol) (s : symbols) : Prop :=
  symtab_ok common_ok (p_commons s) /\ symtab_ok (class_ok p (known_commons s)) (p_classes s) /\
  symtab_ok role_ok (p_roles s) /\ symtab_ok type_ok (p_types s) /\ symtab_ok user_ok (p_users s) /\
  symtab_ok bool_ok (p_bools s) /\ symtab_ok sens_ok (p_levels s) /\ symtab_ok cat_ok (p_cats s).

(** The tables as [policydb_init] leaves them: empty but for [object_r]. *)
Definition symbols_start (s : symbols) : Prop :=
  symtab_start (fun _ => true) (p_commons s) /\ symtab_start (fun _ => true) (p_classes s) /\
  symtab_start role_keep (p_roles s) /\ symtab_start (fun _ => true) (p_types s) /\
  symtab_start (fun _ => true) (p_users s) /\ symtab_start (fun _ => true) (p_bools s) /\
  symtab_start (fun _ => true) (p_levels s) /\ symtab_start (fun _ => true) (p_cats s).

(** [s'] are the symbols of [s]; [object_r] is as it was in [s0]. *)
Definition symbols_added (s0 s s' : symbols) : Prop :=
  symtab_added (fun _ => true) common_eqv (p_commons s0) (p_commons s) (p_commons s') /\
  symtab_added (fun _ => true) class_eqv (p_classes s0) (p_classes s) (p_classes s') /\
  symtab_added role_keep eq (p_roles s0) (p_roles s) (p_roles s') /\
  symtab_added (fun _ => true) eq (p_types s0) (p_types s) (p_types s') /\
  symtab_added (fun _ => true) eq (p_users s0) (p_users s) (p_users s') /\
  symtab_added (fun _ => true) eq (p_bools s0) (p_bools s) (p_bools s') /\
  symtab_added (fun _ => true) eq (p_levels s0) (p_levels s) (p_levels s') /\
  symtab_added (fun _ => true) eq (p_cats s0) (p_cats s) (p_cats s').

Definition symbols_image (s : symbols) : list Z :=
  symtab_image common_image (p_commons s) ++ symtab_image class_image (p_classes s) ++
  symtab_image role_image (p_roles s) ++ symtab_image type_image (p_types s) ++
  symtab_image user_image (p_users s) ++ symtab_image bool_image (p_bools s) ++
  symtab_image sens_image (p_levels s) ++ symtab_image cat_image (p_cats s).

(** The forms of symbols are long enough for the check of [nprim]. *)
Ltac image_size :=
  intros k d (Hk & _); pose proof (zlength_name k Hk);
  unfold common_image, class_image, role_image, type_image, user_image, bool_image, sens_image, level_image, cat_image;
  cbv zeta; rewrite !zlength_app, !zlength_words32, ?zlength_image; unfold zlength in *; cbn [length]; lia.

Lemma uncount_none (l : list (cstring * role_datum)) n :
  Forall (fun b => role_ok b.1 b.2) l -> chain_map role_attr_uncount l n = (0, n).
Proof.
  induction 1 as [|[k d] l Hd _ IH]; [done|]. cbn [chain_map fst snd]. unfold role_attr_uncount at 1.
  destruct Hd as (_ & _ & _ & _ & _ & _ & _ & Hf & _). simpl in Hf. rewrite Hf. exact IH.
Qed.

Section Kern.
Context (p : pol).
Hypothesis Hkern : policy_type p = POLICY_KERN.
Hypothesis Hvers : POLICYDB_VERSION_CONSTRAINT_NAMES <= pol_vers p.

Lemma writes_symbol_tables s : symbols_ok p s -> writes (symbols_write p s) (symbols_image s).
Proof using Hkern Hvers.
  intros (Hco & Hcl & Hr & Hty & Hu & Hb & Hl & Hca). unfold symbols_write, symbols_image. cbv zeta.
  rewrite (kern_is p Hkern). cbn [orb].
  assert ((pol_vers p <? POLICYDB_VERSION_BOUNDARY) = false) as ->.
  { apply Z.ltb_ge. unfold POLICYDB_VERSION_BOUNDARY, POLICYDB_VERSION_CONSTRAINT_NAMES in *. lia. }
  cbn [andb].
  assert (snd (hashtab_map (st_table (p_roles s)) role_attr_uncount (nel_of (st_table (p_roles s)))) =
          nel_of (st_table (p_roles s))) as ->.
  { destruct Hr as (h & -> & _ & Hall & _). unfold hashtab_map. rewrite table_map_flat.
    by rewrite (uncount_none (concat (htable h)) _ Hall). }
  apply writes_seq; [by apply (writes_symtab (codec := common_codec))|].
  apply writes_seq.
  { destruct Hco as (h & Ht & Hok & _).
    apply (writes_symtab (codec := class_codec p Hkern Hvers (known_commons s) (st_table (p_commons s))
      ltac:(intros ck Hck; rewrite Ht, hashtab_search_ok by done; unfold known_commons, symtab_abs in Hck; by rewrite Ht in Hck)) _ Hcl). }
  apply writes_seq; [by apply (writes_symtab (codec := role_codec p Hkern Hvers))|].
  apply writes_seq; [by apply (writes_symtab (codec := type_codec p Hkern Hvers))|].
  apply writes_seq; [by apply (writes_symtab (codec := user_codec p Hkern Hvers))|].
  apply writes_seq; [by apply (writes_symtab (codec := bool_codec p Hkern))|].
  apply writes_seq; [by apply (writes_symtab (codec := sens_codec))|by apply (writes_symtab (codec := cat_codec))].
Qed.

(** The commons that are read back have the names of those written. *)
Lemma commons_known s0 s cm :
  symtab_start (fun _ => true) (p_commons s0) ->
  symtab_added (fun _ => true) common_eqv (p_commons s0) (p_commons s) cm ->
  forall ck, known_commons s ck -> is_Some (hashtab_search (st_table cm) ck).
Proof using.
  intros (h1 & Ht1 & _ & _ & He) (_ & h0 & h & h' & Ht0 & Ht & Ht' & Hok' & Hadd) ck [d Hd].
  rewrite Ht', hashtab_search_ok by done. unfold symtab_abs in Hd. rewrite Ht in Hd. specialize (Hadd ck). rewrite Hd in Hadd.
  destruct Hadd as (d' & -> & _). eauto.
Qed.

Lemma reads_symbol_tables s s0 :
  symbols_ok p s -> symbols_start s0 -> reads (symbols_read p s0) (symbols_image s) (symbols_added s0 s).
Proof using Hkern Hvers.
  intros (Hco & Hcl & Hr & Hty & Hu & Hb & Hl & Hca) (Zco & Zcl & Zr & Zty & Zu & Zb & Zl & Zca).
  unfold symbols_read, symbols_image.
  eapply reads_bind; [apply (reads_symtab_table (codec := common_codec)); [image_size|done|done]|]. intros cm Hcm.
  eapply reads_bind; [apply (reads_symtab_table (codec := class_codec p Hkern Hvers (known_commons s) (st_table cm)
     (commons_known s0 s cm Zco Hcm))); [image_size|done|done]|]. intros cl Hcl'.
  eapply reads_bind; [apply (reads_symtab_table (codec := role_codec p Hkern Hvers)); [image_size|done|done]|]. intros rl Hrl.
  eapply reads_bind; [apply (reads_symtab_table (codec := type_codec p Hkern Hvers)); [image_size|done|done]|]. intros ty Hty'.
  eapply reads_bind; [apply (reads_symtab_table (codec := user_codec p Hkern Hvers)); [image_size|done|done]|]. intros us Hus.
  eapply reads_bind; [apply (reads_symtab_table (codec := bool_codec p Hkern)); [image_size|done|done]|]. intros bo Hbo.
  eapply reads_bind; [apply (reads_symtab_table (codec := sens_codec)); [image_size|done|done]|]. intros le Hle.
  eapply reads_last; [apply (reads_symtab_table (codec := cat_codec)); [image_size|done|done]|]. intros ca Hca'.
  apply reads_ret. by split_and!.
Qed.

(** Writing the symbol tables of a kernel policy into a file and reading
    them back into freshly initialized tables gives the same symbols: the same
    names with the same data (the tables compared as finite maps, [object_r]
    being the one the tables were initialized with), and the reader stands
    just behind them, whatever follows. *)
Theorem symbols_roundtrip s s0 fp rest o :
  symbols_ok p s -> symbols_start s0 -> pf_ty fp <> PF_LEN -> pf_out fp = [] -> mem_ok o -> room fp (zlength (symbols_image s)) ->
  exists out s' o', symbols_write p s fp = (POLICYDB_SUCCESS, out) /\
    symbols_read p s0 (mem_file (pf_out out ++ rest)) o = (Some s', mem_file rest, o') /\ symbols_added s0 s s'.
Proof using Hkern Hvers.
  intros Hs H0 Hty Hout M Hlen.
  destruct (reads_symbol_tables s s0 Hs H0 (mem_file (symbols_image s ++ rest)) rest o) as (s' & o' & E & _ & Ha); [done..|].
  exists (wrote fp (symbols_image s)), s', o'. split; [by apply writes_symbol_tables|].
  by rewrite wrote_out, Hout, app_nil_l, E.
Qed.
End Kern.

(** ** Constraints from any bytes *)

(** The stack of the constraint evaluator stays inside its bounds on every
    prefix of the expression. *)
Lemma cons_depth_bounds es d d' :
  cons_depth es d = Some d' -> -1 <= d < CEXPR_MAXDEPTH -> -1 <= d' < CEXPR_MAXDEPTH.
Proof.
  revert d. induction es as [|e es IH]; intros d H Hd; cbn [cons_depth] in H; [by simplify_eq|].
  destruct (cons_depth_step e d) as [d1|] eqn:E; [|done]. cbn [mbind option_bind] in H. apply (IH d1 H).
  unfold cons_depth_step, CEXPR_MAXDEPTH in *. repeat case_match; simplify_eq; lia.
Qed.

Lemma sound_words n (Q : list Z -> Prop) : (forall buf, Q buf) -> sound (rentry n) Q.
Proof. intros H. eapply sound_mono; [apply sound_entry|]. by intros. Qed.

Lemma sound_loop {S} n (f : S -> R S) (Inv : S -> Prop) s :
  Inv s -> (forall s, Inv s -> sound (f s) Inv) -> sound (rloop n f s) Inv.
Proof.
  revert s. induction n as [|n IH]; intros s Hs Hf; [by apply sound_ret|]. cbn [rloop].
  eapply sound_bind; [by apply Hf|]. intros s' Hs'. by apply IH.
Qed.

Lemma sound_ebitmap : sound rebitmap ebitmap_ok.
Proof.
  intros fp o e fp' o' Hb E. unfold rebitmap in E. pose proof (ebitmap_read_ok fp o Hb) as H.
  destruct (ebitmap_read fp o) as [[[rc e1] fp1] o1] eqn:E1. destruct (ctrue rc) eqn:Hrc; [done|]. simplify_eq.
  split; [|by eapply ebitmap_read_bytes]. destruct H as [[_ H]|[Hlt _]]; [done|].
  unfold ctrue in Hrc. destruct (Z.eqb_spec rc 0); [lia|done].
Qed.

Lemma sound_type_set : sound type_set_read (fun x => ebitmap_ok (ts_types x) /\ ebitmap_ok (ts_negset x)).
Proof.
  unfold type_set_read. eapply sound_bind; [apply sound_ebitmap|]. intros t Ht.
  eapply sound_bind; [apply sound_ebitmap|]. intros n Hn.
  eapply sound_bind; [by apply (sound_words _ (fun _ => True))|]. intros buf _. by apply sound_ret.
Qed.

(** What a constraint that was read is like. *)
Definition cons_expr_sound (xtarget : bool) (e : constraint_expr) : Prop :=
  ebitmap_ok (ce_names e) /\ ebitmap_ok (ts_types (ce_type_names e)) /\ ebitmap_ok (ts_negset (ce_type_names e)) /\
  (ce_type e = CEXPR_NAMES -> xtarget = false -> Z.land (ce_attr e) CEXPR_XTARGET = 0).

Definition cons_node_sound (xtarget : bool) (c : constraint_node) : Prop :=
  Forall (cons_expr_sound xtarget) (con_expr c) /\ cons_depth (con_expr c) (-1) = Some 0.

Definition cons_inv (xtarget : bool) (st : list constraint_expr * Z) : Prop :=
  Forall (cons_expr_sound xtarget) (reverse (fst st)) /\ cons_depth (reverse (fst st)) (-1) = Some (snd st).

Lemma cons_inv_step xtarget es depth e depth' :
  cons_inv xtarget (es, depth) -> cons_expr_sound xtarget e -> cons_depth_step e depth = Some depth' ->
  cons_inv xtarget (e :: es, depth').
Proof.
  intros [Hf Hd] He Hs. unfold cons_inv. cbn [fst snd] in *. rewrite reverse_cons. split.
  - apply Forall_app. split; [done|]. by apply Forall_singleton.
  - rewrite cons_depth_app, Hd. cbn [mbind option_bind cons_depth]. by rewrite Hs.
Qed.

Lemma sound_cons_expr p xtarget st : cons_inv xtarget st -> sound (cons_expr_read p xtarget st) (cons_inv xtarget).
Proof.
  destruct st as [es depth]. intros Hi. unfold cons_expr_read.
  do 2 (eapply sound_bind; [apply sound_alloc|]; intros _ _).
  eapply sound_bind; [by apply (sound_words _ (fun _ => True))|]. intros buf _. cbv zeta.
  set (t := word32 buf 0). set (attr := word32 buf 1). set (op := word32 buf 2). clearbody t attr op.
  assert (forall e d', ce_type e = t -> ce_attr e = attr -> cons_expr_sound xtarget e -> cons_depth_step e depth = Some d' ->
    sound (rret (e :: es, d')) (cons_inv xtarget)) as Hret.
  { intros e d' _ _ He Hd. apply sound_ret. by eapply cons_inv_step. }
  assert (t <> CEXPR_NAMES -> cons_expr_sound xtarget (mk_constraint_expr t attr op ebitmap_init empty_type_set)) as Hplain.
  { intros Ht. by split_and!. }
  unfold cons_depth_step in Hret. cbv zeta in Hret.
  destruct (Z.eqb_spec t CEXPR_NOT) as [E|].
  { eapply sound_bind; [apply sound_check|]. intros [] Hc. apply Hret; [done|done|apply Hplain; by rewrite E|].
    cbn [ce_type]. rewrite E. cbn. by rewrite Hc. }
  destruct ((t =? CEXPR_AND) || (t =? CEXPR_OR)) eqn:E.
  { eapply sound_bind; [apply sound_check|]. intros [] Hc. apply Hret; [done|done|apply Hplain; intros Ht; by rewrite Ht in E|].
    cbn [ce_type]. rewrite E, Hc. by destruct (t =? CEXPR_NOT) eqn:E'; [apply Z.eqb_eq in E'|]. }
  destruct (Z.eqb_spec t CEXPR_ATTR) as [Ea|].
  { eapply sound_bind; [apply sound_check|]. intros [] Hc. apply Hret; [done|done|apply Hplain; by rewrite Ea|].
    cbn [ce_type]. rewrite Ea. cbn. by destruct (depth =? _). }
  destruct (Z.eqb_spec t CEXPR_NAMES) as [En|]; [|apply sound_fail].
  eapply sound_bind; [apply sound_check|]. intros [] Hx. eapply sound_bind; [apply sound_check|]. intros [] Hc.
  eapply sound_bind; [apply sound_ebitmap|]. intros names Hn.
  eapply (sound_bind _ _ (fun x => ebitmap_ok (ts_types x) /\ ebitmap_ok (ts_negset x))).
  { destruct (negb (is_kern p) || _); [apply sound_type_set|by apply sound_ret]. }
  intros ts [Ht1 Ht2]. apply Hret; [done|done| |].
  - split_and!; [done..|]. cbn [ce_type ce_attr]. intros _ ->. unfold ctrue in Hx. cbn [negb andb] in Hx.
    destruct (Z.eqb_spec (Z.land attr CEXPR_XTARGET) 0); [done|]. done.
  - cbn [ce_type]. rewrite En. cbn. by destruct (depth =? _).
Qed.

Lemma read_cons_helper_ok p ncons xtarget :
  sound (read_cons_helper p ncons xtarget) (Forall (fun c =>
    cons_node_sound xtarget c /\
    forall l1 l2, con_expr c = l1 ++ l2 -> exists d, cons_depth l1 (-1) = Some d /\ -1 <= d < CEXPR_MAXDEPTH)).
Proof.
  unfold read_cons_helper. eapply sound_bind.
  { apply (sound_loop _ _ (Forall (cons_node_sound xtarget))); [constructor|]. intros cs Hcs. unfold cons_node_read.
    eapply sound_bind; [apply sound_alloc|]. intros _ _.
    eapply sound_bind; [by apply (sound_words _ (fun _ => True))|]. intros buf _.
    eapply sound_bind; [apply (sound_loop _ _ (cons_inv xtarget)); [by split|apply sound_cons_expr]|]. intros [es d] [Hf Hd].
    eapply sound_bind; [apply sound_check|]. intros [] H0. apply Z.eqb_eq in H0. cbn [fst snd] in *. subst d.
    apply sound_ret. constructor; [|done]. by split. }
  intros cs Hcs. apply sound_ret. apply Forall_reverse. eapply Forall_impl; [exact Hcs|]. intros c Hc. split; [done|].
  intros l1 l2 Hl. destruct Hc as [_ Hd]. rewrite Hl, cons_depth_app in Hd.
  destruct (cons_depth l1 (-1)) as [d|] eqn:E; [|done]. exists d. split; [done|]. by eapply cons_depth_bounds.
Qed.

(** C28: Whatever bytes [read_cons_helper] is given, every constraint it accepts
    has well-formed name sets, mentions the third context only where
    validatetrans rules may, and is a complete postfix expression: evaluating
    it pops only what it pushed, never holds more than CEXPR_MAXDEPTH values,
    and ends with exactly one. *)
Theorem read_cons_helper_sound p ncons xtarget :
  sound (read_cons_helper p ncons xtarget) (Forall (fun c =>
    cons_node_sound xtarget c /\
    forall l1 l2, con_expr c = l1 ++ l2 -> exists d, cons_depth l1 (-1) = Some d /\ -1 <= d < CEXPR_MAXDEPTH)).
Proof. apply read_cons_helper_ok. Qed.
