(* ===== verification/SymbolsSample.v ===== *)
(** * SymbolsSample: a small policy, and a category set that grows

    Witnesses for the theorems on symbol tables, and the conversion of
    category sets that [user_read] makes for old modules, which joins ranges
    of categories over gaps. *)
From Stdlib Require Import ZArith Lia Bool.
From stdpp Require Import base option list list_numbers gmap sets.
From S2P Require Import Prelude PolicyFile Ebitmap EbitmapThms EbitmapRange EbitmapIO Hashtab HashtabThms Symtab Avtab AvtabIO Cond Codec Symbols SymCodec SymbolsIO SymbolsThms.

(** ** Tables with one symbol or none *)

Definition no_table {D} : hashtab cstring D := mk_hashtab [[]] 1 0.
Definition one_table {D} (k : cstring) (d : D) : hashtab cstring D := mk_hashtab [[(k, d)]] 1 1.
Definition none {D} : symtab D := mk_symtab (Some no_table) 0.
Definition one {D} (k : cstring) (d : D) : symtab D := mk_symtab (Some (one_table k d)) 1.

Lemma no_table_ok {D} : hashtab_ok (@no_table D).
Proof. split; [done|]. split; [|done]. split; [done|]. split; [split; constructor|done]. Qed.

Lemma one_table_ok {D} k (d : D) : hashtab_ok (one_table k d).
Proof.
  split; [done|]. split; [|done]. split; [done|]. split; [|done]. split; repeat constructor. simpl.
  pose proof (symhash_range 1 k). lia.
Qed.

Lemma none_start {D} : symtab_start (fun _ => true) (@none D).
Proof. exists no_table. split_and!; [done|apply no_table_ok|done|done]. Qed.

Lemma one_ok {D} (ok : cstring -> D -> Prop) k d : ok k d -> symtab_ok ok (one k d).
Proof. intros H. exists (one_table k d). split_and!; [done|apply one_table_ok|by constructor|done..]. Qed.

(** ** The sample policy *)

Definition sample_pol : pol := mk_pol POLICY_KERN 30 true.

Definition sample_common : common_datum := mk_common_datum 1 (one [114] (mk_perm_datum 1)).

(** A constraint [u1 == u2 and not (t1 == names)]. *)
Definition sample_constraint : constraint_node :=
  mk_constraint_node 1
    [mk_constraint_expr CEXPR_ATTR 1 1 ebitmap_init empty_type_set;
     mk_constraint_expr CEXPR_NAMES 4 1 sample_a (mk_type_set sample_b ebitmap_init 0);
     mk_constraint_expr CEXPR_NOT 0 0 ebitmap_init empty_type_set;
     mk_constraint_expr CEXPR_AND 0 0 ebitmap_init empty_type_set].

Definition sample_class : class_datum :=
  mk_class_datum 1 (Some [102]) (one [119] (mk_perm_datum 1)) [sample_constraint] [] 1 0 0 3.

Definition sample_role : role_datum := mk_role_datum 2 ebitmap_init (mk_type_set sample_a ebitmap_init 0) 0 0 ebitmap_init.
Definition object_r : role_datum := mk_role_datum 1 ebitmap_init empty_type_set 0 0 ebitmap_init.
Definition sample_type : type_datum := mk_type_datum 1 1 0 ebitmap_init 0 0.
Definition sample_level : mls_level := mk_mls_level 1 ebitmap_init.
Definition sample_user : user_datum :=
  mk_user_datum 1 (mk_role_set sample_a 0) (mk_semantic_range empty_semantic_level empty_semantic_level) empty_semantic_level
    (mk_mls_range sample_level (mk_mls_level 1 sample_a)) sample_level 0.

Definition sample_symbols : symbols :=
  mk_symbols (one [102] sample_common) (one [99] sample_class) (one [114] sample_role) (one [116] sample_type)
    (one [117] sample_user) (one [98] (mk_cond_bool_datum 1 1 0)) (one [115; 48] (mk_level_datum sample_level 0))
    (one [99; 48] (mk_cat_datum 1 0)).

Definition sample_start : symbols := mk_symbols none none (one OBJECT_R object_r) none none none none none.

Lemma name1 c : 0 < c < 256 -> name_ok [c].
Proof. intros H. split_and!; [done|done|by apply Forall_singleton]. Qed.

Lemma name2 c c' : 0 < c < 256 -> 0 < c' < 256 -> name_ok [c; c'].
Proof. intros H H'. split_and!; [done|done|]. constructor; [done|by apply Forall_singleton]. Qed.

Lemma one_perms c : 0 < c < 256 -> perms_ok (one [c] (mk_perm_datum 1)).
Proof.
  intros Hc. exists (one_table [c] (mk_perm_datum 1)). split_and!; [done|apply one_table_ok|done|done|done|].
  constructor; [|constructor]. split; [by apply name1|done].
Qed.

Lemma sample_constraint_ok : cons_node_ok false sample_constraint.
Proof.
  split_and!; [done|done| |done].
  repeat constructor; simpl; try done; try apply sample_a_ok; try apply sample_b_ok; by right.
Qed.

Lemma sample_class_ok : class_ok sample_pol (known_commons sample_symbols) [99] sample_class.
Proof.
  split_and!; try done.
  - by apply name1.
  - by apply one_perms.
  - intros ck [= <-]. split; [by apply name1|]. by exists sample_common.
  - split; [done|]. constructor; [apply sample_constraint_ok|constructor].
  - by left.
Qed.

Lemma sample_symbols_ok : symbols_ok sample_pol sample_symbols.
Proof.
  split_and!; apply one_ok.
  1: { split_and!; [by apply name1|done|by apply one_perms]. }
  1: { apply sample_class_ok. }
  all: split_and!; try done; try (by apply name1); try (by apply name2); try apply sample_a_ok; try (by left); try (by right).
Qed.

Lemma sample_start_ok : symbols_start sample_start.
Proof.
  split_and!; try apply none_start. exists (one_table OBJECT_R object_r). split_and!; [done|apply one_table_ok|done|].
  intros k Hk. unfold hashtab_abs. simpl. rewrite insert_empty. apply lookup_singleton_ne. intros <-. by vm_compute in Hk.
Qed.

Lemma symbols_roundtrip_witness :
  exists out s' o', symbols_write sample_pol sample_symbols (mk_policy_file PF_USE_MEMORY [] 4096 [] []) = (POLICYDB_SUCCESS, out) /\
    symbols_read sample_pol sample_start (mem_file (pf_out out ++ [7])) [] = (Some s', mem_file [7], o') /\
    symbols_added sample_start sample_symbols s'.
Proof.
  apply (symbols_roundtrip sample_pol eq_refl ltac:(done)); [exact sample_symbols_ok|exact sample_start_ok|discriminate|reflexivity|constructor|].
  split; [apply Z.leb_le|apply Z.ltb_lt]; vm_compute; reflexivity.
Defined.

(** ** Categories of old modules *)

(** The categories 64 and 129 (bits 63 and 128), in two nodes that do not
    touch. *)
Definition two_cats : ebitmap := mk_ebitmap [mk_node 0 (2 ^ 63); mk_node 128 1] 192.

(** Every category of the set is in one of the ranges. *)
Definition covered (l : mls_semantic_level) (b : Z) : bool :=
  existsb (fun c => (cat_low c <=? b + 1) && (b + 1 <=? cat_high c)) (scat l).

(** [mls_level_to_semantic] does not see the gap between two nodes of the
    category set: when the last bit of a node and the first bit of the next
    one are set, the range it has open goes on through the gap.  From the
    categories 64 and 129 it makes the range 64 to 129, which holds category
    100 as well. *)
Theorem mls_level_to_semantic_gap :
  ebitmap_ok two_cats /\
  ctrue (ebitmap_get_bit two_cats 99) = false /\
  exists l fp o, mls_level_to_semantic (mk_mls_level 1 two_cats) (mem_file []) [] = (Some l, fp, o) /\ covered l 99 = true.
Proof.
  split; [concrete|]. split; [reflexivity|]. exists (mk_semantic_level 1 [mk_semantic_cat 64 129]). do 2 eexists.
  split; [vm_compute; reflexivity|reflexivity].
Qed.
