(* ===== verification/Trans.v ===== *)
(** * Trans: transitions and role allows

    The rules of a policy outside the access vector tables: role transitions
    and role allow rules, type transitions that depend on a file name, and
    range transitions.  Data of libsepol/include/sepol/policydb/policydb.h;
    the hash functions and comparisons [filenametr_*] and [rangetr_*], the
    readers and [policydb_filetrans_insert] of libsepol/src/policydb.c; the
    writers of libsepol/src/write.c.

    The data of a file name transition is a list that is never empty: a first
    element and the rest. *)
From Stdlib Require Import ZArith Lia Bool.
From stdpp Require Import base option list list_numbers gmap sets.
From S2P Require Import Prelude PolicyFile Ebitmap EbitmapThms EbitmapIO Hashtab HashtabThms Symtab Avtab AvtabIO Cond Codec Symbols.

Definition POLICYDB_VERSION_RANGETRANS : Z := 21.
Definition POLICYDB_VERSION_FILENAME_TRANS : Z := 25.
Definition POLICYDB_VERSION_ROLETRANS : Z := 26.
Definition POLICYDB_VERSION_COMP_FTRANS : Z := 33.

(** ** Data *)

Record role_trans := mk_role_trans { rt_role : Z; rt_type : Z; rt_tclass : Z; rt_new_role : Z }.
Record role_allow := mk_role_allow { ra_role : Z; ra_new_role : Z }.
Record filename_trans_key := mk_ft_key { ft_ttype : Z; ft_tclass : Z; ft_name : cstring }.
Record filename_trans_datum := mk_ft_datum { ft_stypes : ebitmap; ft_otype : Z }.
Record range_trans := mk_range_trans { rg_source : Z; rg_target : Z; rg_class : Z }.
Record range_trans_rule := mk_range_trans_rule {
  rtr_stypes : type_set; rtr_ttypes : type_set; rtr_tclasses : ebitmap; rtr_trange : mls_semantic_range }.

Abbreviation ft_chain := (filename_trans_datum * list filename_trans_datum)%type.

#[global] Instance filename_trans_key_eq_dec : EqDecision filename_trans_key.
Proof. solve_decision. Defined.
#[global] Program Instance filename_trans_key_countable : Countable filename_trans_key :=
  inj_countable' (fun k => (ft_ttype k, ft_tclass k, ft_name k)) (fun '(t, c, n) => mk_ft_key t c n) _.
Next Obligation. by intros []. Qed.
#[global] Instance range_trans_eq_dec : EqDecision range_trans.
Proof. solve_decision. Defined.
#[global] Program Instance range_trans_countable : Countable range_trans :=
  inj_countable' (fun k => (rg_source k, rg_target k, rg_class k)) (fun '(s, t, c) => mk_range_trans s t c) _.
Next Obligation. by intros []. Qed.

(** ** Keys *)

Definition spaceship_cmp (a b : Z) : Z := c_of_bool (b <? a) - c_of_bool (a <? b).

(** The names are arrays of [unsigned char] and [unsigned long] has 64 bits. *)
Definition partial_name_hash (c prevhash : Z) : Z :=
  u64 (u64 (u64 (prevhash + u64 (Z.shiftl c 4)) + Z.shiftr c 4) * 11).

Definition filenametr_hash (size : Z) (k : filename_trans_key) : Z :=
  Z.land (fold_left (fun hash focus => partial_name_hash focus hash) (ft_name k) (Z.lxor (ft_ttype k) (ft_tclass k)))
    (u32 (size - 1)).

Definition filenametr_cmp (k1 k2 : filename_trans_key) : Z :=
  let v := spaceship_cmp (ft_ttype k1) (ft_ttype k2) in
  if ctrue v then v else
  let v := spaceship_cmp (ft_tclass k1) (ft_tclass k2) in
  if ctrue v then v else strcmp (ft_name k1) (ft_name k2).

Definition rangetr_hash (size : Z) (k : range_trans) : Z :=
  Z.land (u32 (u32 (rg_source k + u32 (Z.shiftl (rg_target k) 3)) + u32 (Z.shiftl (rg_class k) 5))) (u32 (size - 1)).

Definition rangetr_cmp (k1 k2 : range_trans) : Z :=
  let v := spaceship_cmp (rg_source k1) (rg_source k2) in
  if ctrue v then v else
  let v := spaceship_cmp (rg_target k1) (rg_target k2) in
  if ctrue v then v else spaceship_cmp (rg_class k1) (rg_class k2).

#[global] Instance filenametr_ops : KeyOps filename_trans_key :=
  {| hash_value := filenametr_hash; keycmp := filenametr_cmp |}.
#[global] Instance rangetr_ops : KeyOps range_trans := {| hash_value := rangetr_hash; keycmp := rangetr_cmp |}.

(** The fields [filename_trans] and [filename_trans_count] of a policy. *)
Record filename_trans := mk_filename_trans {
  ft_table : option (hashtab filename_trans_key ft_chain); ft_count : Z }.

(** An assignment through the pointer to the datum of [k] in the table. *)
Definition chain_assign {K D} `{!KeyOps K} (k : K) (d : D) (c : list (K * D)) : list (K * D) :=
  map (fun b => if keycmp b.1 k =? 0 then (b.1, d) else b) c.

Definition hashtab_assign {K D} `{!KeyOps K} (h : option (hashtab K D)) (k : K) (d : D) : option (hashtab K D) :=
  match h with
  | None => None
  | Some h =>
      let i := hash_value (ht_size h) k in
      Some (mk_hashtab (<[Z.to_nat i := chain_assign k d (slot (htable h) i)]> (htable h)) (ht_size h) (ht_nel h))
  end.

(** ** Inserting a file name transition *)

(** Where the loop over the data stops: at a datum that has [stype] (with its
    output type), at one with output type [otype] (the data before it, and
    what follows), or at the end. *)
Inductive ft_found := FtExists (present_otype : Z)
                    | FtHere (pre : list filename_trans_datum) (d : filename_trans_datum) (post : list filename_trans_datum)
                    | FtEnd.

Fixpoint ft_walk (stype otype : Z) (l : list filename_trans_datum) : ft_found :=
  match l with
  | [] => FtEnd
  | d :: l =>
      if ctrue (ebitmap_get_bit (ft_stypes d) (u32 (stype - 1))) then FtExists (ft_otype d)
      else if ft_otype d =? otype then FtHere [] d l
      else match ft_walk stype otype l with
           | FtHere pre d' post => FtHere (d :: pre) d' post
           | r => r
           end
  end.

(** The list of a chain, and the chain of a list that is not empty. *)
Definition chain_list (c : ft_chain) : list filename_trans_datum := c.1 :: c.2.
Definition list_chain (l : list filename_trans_datum) (dflt : ft_chain) : ft_chain :=
  match l with
  | [] => dflt
  | d :: l => (d, l)
  end.

(** [ebitmap_set_bit(&datum->stypes, stype - 1, 1)] on the datum between [pre]
    and [post] of the chain stored under [k], after counting the rule. *)
Definition ft_set_stype (p : filename_trans) (k : filename_trans_key) (pre post : list filename_trans_datum)
    (d : filename_trans_datum) (stype : Z) (o : oracle) : Z * option Z * filename_trans * oracle :=
  let '(rc, e, o) := ebitmap_set_bit (ft_stypes d) (u32 (stype - 1)) 1 o in
  let d := mk_ft_datum e (ft_otype d) in
  (rc, None, mk_filename_trans (hashtab_assign (ft_table p) k (list_chain (pre ++ d :: post) (d, []))) (u32 (ft_count p + 1)), o).

(** Result: the return code, [*present_otype] if it was set, the table and its
    count.  [name_alloc]: the caller hands its name over instead of having it
    duplicated. *)
Definition policydb_filetrans_insert (p : filename_trans) (stype ttype tclass : Z) (name : cstring) (name_alloc : bool)
    (otype : Z) (o : oracle) : Z * option Z * filename_trans * oracle :=
  let k := mk_ft_key ttype tclass name in
  let found := hashtab_search (ft_table p) k in
  let l := match found with Some c => chain_list c | None => [] end in
  match ft_walk stype otype l with
  | FtExists present => (SEPOL_EEXIST, Some present, p, o)
  | FtHere pre d post => ft_set_stype p k pre post d stype o
  | FtEnd =>
      let '(ok, o) := malloc o in
      if negb ok then (SEPOL_ENOMEM, None, p, o) else
      let d := mk_ft_datum ebitmap_init otype in
      match found with
      | Some _ => ft_set_stype p k l [] d stype o
      | None =>
          let '(ok, o) := if name_alloc then (true, o) else malloc o in
          if negb ok then (SEPOL_ENOMEM, None, p, o) else
          let '(ok, o) := malloc o in
          if negb ok then (SEPOL_ENOMEM, None, p, o) else
          let '(rc, h, o) := hashtab_insert (ft_table p) k (d, []) o in
          if ctrue rc then (SEPOL_ENOMEM, None, mk_filename_trans h (ft_count p), o)
          else ft_set_stype (mk_filename_trans h (ft_count p)) k [] [] d stype o
      end
  end.

(** ** Readers *)

(** [rloop] that collects what each turn reads, in order. *)
Definition rmany {A} (n : Z) (m : R A) : R (list A) :=
  l <~ rloop (Z.to_nat n) (fun l => x <~ m ;; rret (x :: l)) [] ;; rret (reverse l).

Section WithPolicy.
Context (p : pol) (process_class : Z).

Definition new_roletr : bool := is_kern p && (POLICYDB_VERSION_ROLETRANS <=? pol_vers p).
Definition new_rangetr : bool := is_kern p && (POLICYDB_VERSION_RANGETRANS <=? pol_vers p).

Definition role_trans_read_one : R role_trans :=
  ralloc ~;
  buf <~ rentry 12 ;;
  tclass <~ (if new_roletr then b <~ rentry 4 ;; rret (word32 b 0) else rret process_class) ;;
  rret (mk_role_trans (word32 buf 0) (word32 buf 1) tclass (word32 buf 2)).

Definition role_trans_read : R (list role_trans) :=
  buf <~ rentry 4 ;; rmany (word32 buf 0) role_trans_read_one.

Definition role_allow_read_one : R role_allow :=
  ralloc ~; buf <~ rentry 8 ;; rret (mk_role_allow (word32 buf 0) (word32 buf 1)).

Definition role_allow_read : R (list role_allow) :=
  buf <~ rentry 4 ;; rmany (word32 buf 0) role_allow_read_one.

(** [policydb_filetrans_insert] where a duplicate is ignored. *)
Definition rfiletrans (t : filename_trans) (stype ttype tclass : Z) (name : cstring) (otype : Z) : R filename_trans :=
  fun fp o =>
    let '(rc, _, t, o) := policydb_filetrans_insert t stype ttype tclass name true otype o in
    ((if ctrue rc && negb (rc =? SEPOL_EEXIST) then None else Some t), fp, o).

Definition filename_trans_read_one_compat (t : filename_trans) : R filename_trans :=
  buf <~ rentry 4 ;;
  name <~ str_read (word32 buf 0) ;;
  buf <~ rentry 16 ;;
  let stype := word32 buf 0 in
  rcheck (negb (stype =? 0)) ~;
  rfiletrans t stype (word32 buf 1) (word32 buf 2) name (word32 buf 3).

(** The loop of [filename_trans_check_datum]. *)
Fixpoint check_datum_loop (stypes otypes : ebitmap) (l : list filename_trans_datum) (o : oracle) : Z * oracle :=
  match l with
  | [] => (0, o)
  | d :: l =>
      if ctrue (ebitmap_get_bit otypes (ft_otype d)) then (-1, o) else
      let '(rc, otypes, o) := ebitmap_set_bit otypes (ft_otype d) 1 o in
      if ctrue rc then (-1, o) else
      if ctrue (ebitmap_match_any stypes (ft_stypes d)) then (-1, o) else
      let '(rc, stypes, o) := ebitmap_union stypes (ft_stypes d) o in
      if ctrue rc then (-1, o) else check_datum_loop stypes otypes l o
  end.

Definition filename_trans_check_datum (l : list filename_trans_datum) (o : oracle) : Z * oracle :=
  check_datum_loop ebitmap_init ebitmap_init l o.

(** [if (ndatum > 1 && filename_trans_check_datum(first)) goto err]. *)
Definition rcheck_datum (ndatum : Z) (l : list filename_trans_datum) : R unit :=
  fun fp o =>
    if 1 <? ndatum then
      let '(rc, o) := filename_trans_check_datum l o in ((if ctrue rc then None else Some tt), fp, o)
    else (Some tt, fp, o).

Definition filename_trans_datum_read : R filename_trans_datum :=
  ralloc ~; stypes <~ rebitmap ;; buf <~ rentry 4 ;; rret (mk_ft_datum stypes (word32 buf 0)).

(** What the data of one key add to [filename_trans_count]. *)
Definition add_cardinalities (l : list filename_trans_datum) (count : Z) : Z :=
  fold_left (fun n d => u32 (n + ebitmap_cardinality (ft_stypes d))) l count.

Definition filename_trans_read_one (t : filename_trans) : R filename_trans :=
  buf <~ rentry 4 ;;
  name <~ str_read (word32 buf 0) ;;
  buf <~ rentry 12 ;;
  let ndatum := word32 buf 2 in
  rcheck (negb (ndatum =? 0)) ~;
  l <~ rmany ndatum filename_trans_datum_read ;;
  rcheck_datum ndatum l ~;
  ralloc ~;
  match l with
  | [] => rfail
  | d :: l' =>
      h <~ rinsert (ft_table t) (mk_ft_key (word32 buf 0) (word32 buf 1) name) (d, l') ;;
      rret (mk_filename_trans h (add_cardinalities l (ft_count t)))
  end.

Definition filename_trans_read (t : filename_trans) : R filename_trans :=
  buf <~ rentry 4 ;;
  rloop (Z.to_nat (word32 buf 0))
    (if pol_vers p <? POLICYDB_VERSION_COMP_FTRANS then filename_trans_read_one_compat else filename_trans_read_one) t.

(** [range_read]: the table of a kernel policy, or the rules of a base module
    ([ntypes], [nclasses] are [nprim] of the types and classes). *)
Definition rset_bit (bit : Z) : R ebitmap :=
  fun fp o => let '(rc, e, o) := ebitmap_set_bit ebitmap_init bit 1 o in ((if ctrue rc then None else Some e), fp, o).

(** The part of the loop body that all policies share. *)
Definition range_read_entry (ntypes nclasses : Z) : R (range_trans * mls_range) :=
  ralloc ~;
  buf <~ rentry 8 ;;
  let source := word32 buf 0 in
  rcheck (value_isvalid source ntypes) ~;
  let target := word32 buf 1 in
  rcheck (value_isvalid target ntypes) ~;
  tclass <~ (if new_rangetr then b <~ rentry 4 ;; rret (word32 b 0) else rret process_class) ;;
  rcheck (value_isvalid tclass nclasses) ~;
  ralloc ~;
  r <~ mls_read_range_helper ;;
  rret (mk_range_trans source target tclass, r).

Definition range_read_one (ntypes nclasses : Z) (h : option (hashtab range_trans mls_range)) :
    R (option (hashtab range_trans mls_range)) :=
  rt <~ range_read_entry ntypes nclasses ;; rinsert h rt.1 rt.2.

Definition range_rule_read_one (ntypes nclasses : Z) : R range_trans_rule :=
  rt <~ range_read_entry ntypes nclasses ;;
  ralloc ~;
  stypes <~ rset_bit (u32 (rg_source rt.1 - 1)) ;;
  ttypes <~ rset_bit (u32 (rg_target rt.1 - 1)) ;;
  tclasses <~ rset_bit (u32 (rg_class rt.1 - 1)) ;;
  trange <~ mls_range_to_semantic rt.2 ;;
  rret (mk_range_trans_rule (mk_type_set stypes ebitmap_init 0) (mk_type_set ttypes ebitmap_init 0) tclasses trange).

Definition range_read (ntypes nclasses : Z) (h : option (hashtab range_trans mls_range)) :
    R (option (hashtab range_trans mls_range) * list range_trans_rule) :=
  buf <~ rentry 4 ;;
  if is_kern p then h <~ rloop (Z.to_nat (word32 buf 0)) (range_read_one ntypes nclasses) h ;; rret (h, [])
  else rules <~ rmany (word32 buf 0) (range_rule_read_one ntypes nclasses) ;; rret (h, rules).

(** ** Writers *)

Definition role_trans_write (l : list role_trans) : W :=
  let kept := filter (fun tr => new_roletr || (rt_tclass tr =? process_class) = true) l in
  wwords [u32 (zlength kept)] ~>
  wlist (fun tr => if negb new_roletr && negb (rt_tclass tr =? process_class) then wdone else
                   wwords [rt_role tr; rt_type tr; rt_new_role tr] ~>
                   (if new_roletr then wwords [rt_tclass tr] ~> wdone else wdone)) l.

Definition role_allow_write (l : list role_allow) : W :=
  wwords [u32 (zlength l)] ~> wlist (fun ra => wwords [ra_role ra; ra_new_role ra]) l.

(** [ebitmap_for_each_positive_bit] around a writer.  On a well-formed bitmap
    the loop ends ([for_each_positive_bit_spec]). *)
Definition wbits (e : ebitmap) (f : Z -> W) : W :=
  match for_each_positive_bit e with
  | Some bits => wlist f bits
  | None => wfail
  end.

Definition filename_write_one_compat (k : filename_trans_key) (c : ft_chain) : W :=
  wlist (fun d => wbits (ft_stypes d) (fun bit =>
           wwords [u32 (zlength (ft_name k))] ~> (wstr (ft_name k) ~>
           wwords [u32 (bit + 1); ft_ttype k; ft_tclass k; ft_otype d]))) (chain_list c).

Definition filename_write_one (k : filename_trans_key) (c : ft_chain) : W :=
  wwords [u32 (zlength (ft_name k))] ~> (wstr (ft_name k) ~>
  (wwords [ft_ttype k; ft_tclass k; u32 (zlength (chain_list c))] ~>
   wlist (fun d => ebitmap_write (ft_stypes d) ~> wwords [ft_otype d]) (chain_list c))).

Definition filename_trans_write (t : filename_trans) : W :=
  if pol_vers p <? POLICYDB_VERSION_FILENAME_TRANS then wdone
  else if pol_vers p <? POLICYDB_VERSION_COMP_FTRANS then
    wwords [ft_count t] ~> wtable (ft_table t) filename_write_one_compat
  else wwords [nel_of (ft_table t)] ~> wtable (ft_table t) filename_write_one.

Definition rangetrans_count (k : range_trans) (r : mls_range) (nel : Z) : Z * Z :=
  (0, if new_rangetr || (rg_class k =? process_class) then nel + 1 else nel).

Definition range_write_helper (k : range_trans) (r : mls_range) : W :=
  if negb new_rangetr && negb (rg_class k =? process_class) then wdone else
  wwords [rg_source k; rg_target k] ~>
  ((if new_rangetr then wwords [rg_class k] else wdone) ~> (mls_write_range_helper r ~> wdone)).

Definition range_write (h : option (hashtab range_trans mls_range)) : W :=
  wwords [u32 (hashtab_map h rangetrans_count 0).2] ~> wtable h range_write_helper.
End WithPolicy.
