(* ===== verification/TransIO.v ===== *)
(** * TransIO: the transitions behave like finite maps and survive storage

    The keys of file name and range transitions satisfy [KeyLaws]; the
    insertion of file name transitions refines a map from keys and source
    types to output types; reading what was written gives the same rules
    back. *)
From Stdlib Require Import ZArith Lia Bool Sorting.Sorted.
From stdpp Require Import base option list list_numbers gmap sets.
From S2P Require Import Prelude PolicyFile Ebitmap EbitmapThms EbitmapRange EbitmapIO Hashtab HashtabThms Symtab Avtab AvtabIO Cond Codec Symbols SymCodec SymbolsIO Trans.

(** ** Keys *)

Lemma spaceship_eq a b : spaceship_cmp a b = 0 <-> a = b.
Proof. unfold spaceship_cmp. destruct (Z.ltb_spec b a), (Z.ltb_spec a b); simpl; lia. Qed.

Lemma spaceship_lt a b : spaceship_cmp a b < 0 <-> a < b.
Proof. unfold spaceship_cmp. destruct (Z.ltb_spec b a), (Z.ltb_spec a b); simpl; lia. Qed.

Lemma spaceship_gt a b : 0 < spaceship_cmp a b <-> b < a.
Proof. unfold spaceship_cmp. destruct (Z.ltb_spec b a), (Z.ltb_spec a b); simpl; lia. Qed.

(** [if (v) return v] on the comparison of two numbers: lexicographic order. *)
Definition lex_cmp (a b rest : Z) : Z := let v := spaceship_cmp a b in if ctrue v then v else rest.

Lemma lex_cmp_spec a b rest :
  (lex_cmp a b rest = 0 <-> a = b /\ rest = 0) /\
  (lex_cmp a b rest < 0 <-> a < b \/ a = b /\ rest < 0) /\
  (0 < lex_cmp a b rest <-> b < a \/ a = b /\ 0 < rest).
Proof.
  unfold lex_cmp. pose proof (spaceship_eq a b). pose proof (spaceship_lt a b). pose proof (spaceship_gt a b).
  destruct (ctrue (spaceship_cmp a b)) eqn:E; [apply ctrue_true in E|apply ctrue_false in E]; lia.
Qed.

Lemma filenametr_cmp_lex k1 k2 :
  filenametr_cmp k1 k2 = lex_cmp (ft_ttype k1) (ft_ttype k2) (lex_cmp (ft_tclass k1) (ft_tclass k2) (strcmp (ft_name k1) (ft_name k2))).
Proof. done. Qed.

Lemma rangetr_cmp_lex k1 k2 :
  rangetr_cmp k1 k2 = lex_cmp (rg_source k1) (rg_source k2) (lex_cmp (rg_target k1) (rg_target k2)
    (lex_cmp (rg_class k1) (rg_class k2) 0)).
Proof. unfold rangetr_cmp, lex_cmp. by repeat case_match; [..|rewrite ctrue_false in *]. Qed.

Lemma land_size_range x size : 0 < size -> 0 <= Z.land x (u32 (size - 1)) < size.
Proof.
  intros Hs. pose proof (wrap_range 32 (size - 1) ltac:(lia)) as [? _].
  assert (u32 (size - 1) <= size - 1) by (apply Z.mod_le; lia).
  pose proof (land_bound_r x (u32 (size - 1))). lia.
Qed.

Lemma lex_cmp_eq a b r : lex_cmp a b r = 0 <-> a = b /\ r = 0.
Proof. apply lex_cmp_spec. Qed.

Lemma lex_cmp_antisym a b r r' : (0 < r <-> r' < 0) -> 0 < lex_cmp a b r <-> lex_cmp b a r' < 0.
Proof. pose proof (lex_cmp_spec a b r). pose proof (lex_cmp_spec b a r'). lia. Qed.

Lemma lex_cmp_trans a b c r r' r'' :
  (r < 0 -> r' < 0 -> r'' < 0) -> lex_cmp a b r < 0 -> lex_cmp b c r' < 0 -> lex_cmp a c r'' < 0.
Proof.
  intros Hr H1 H2. apply lex_cmp_spec in H1, H2. apply lex_cmp_spec. lia.
Qed.

#[global] Instance filenametr_laws : KeyLaws filename_trans_key.
Proof.
  split; simpl; unfold filenametr_hash; intros; rewrite ?filenametr_cmp_lex in *.
  - by apply land_size_range.
  - rewrite !lex_cmp_eq, strcmp_eq. destruct a, b; simpl. naive_solver.
  - do 2 apply lex_cmp_antisym. apply strcmp_antisym.
  - revert H H0. do 2 apply lex_cmp_trans. apply strcmp_trans.
Qed.

#[global] Instance rangetr_laws : KeyLaws range_trans.
Proof.
  split; simpl; unfold rangetr_hash; intros; rewrite ?rangetr_cmp_lex in *.
  - by apply land_size_range.
  - rewrite !lex_cmp_eq. destruct a, b; simpl. naive_solver.
  - do 3 apply lex_cmp_antisym. lia.
  - revert H H0. do 3 apply lex_cmp_trans. lia.
Qed.

(** ** Assignment to a datum *)

Section Assign.
Context {K D : Type} `{!EqDecision K, !Countable K, !KeyOps K, !KeyLaws K}.

Lemma chain_assign_keys (k : K) (d : D) c : (chain_assign k d c).*1 = c.*1.
Proof using. unfold chain_assign. induction c as [|[k' d'] c IH]; [done|]. cbn [map fmap list_fmap]. simpl. case_match; by f_equal. Qed.

Lemma chain_assign_lookup (k : K) (d : D) c k' :
  is_Some ((list_to_map c : gmap K D) !! k) ->
  (list_to_map (chain_assign k d c) : gmap K D) !! k' = (<[k := d]> (list_to_map c : gmap K D)) !! k'.
Proof using KeyLaws0.
  unfold chain_assign. induction c as [|[k0 d0] c IH]; simpl; [by intros [??]|].
  intros Hk. destruct (Z.eqb_spec (keycmp k0 k) 0) as [->%keycmp_eq|Hne]; simpl.
  - destruct (decide (k' = k)) as [->|Hk']; [by rewrite !lookup_insert_eq|].
    rewrite !lookup_insert_ne by done. clear IH Hk. induction c as [|[k1 d1] c IH]; [done|]. simpl.
    destruct (Z.eqb_spec (keycmp k1 k) 0) as [->%keycmp_eq|Hne]; simpl; [by rewrite !lookup_insert_ne|].
    destruct (decide (k' = k1)) as [->|]; [by rewrite !lookup_insert_eq|by rewrite !lookup_insert_ne].
  - assert (Hkk : k0 <> k) by (intros ->; apply Hne; by apply keycmp_eq).
    rewrite lookup_insert_ne in Hk by done. specialize (IH Hk).
    destruct (decide (k' = k0)) as [->|]; [by rewrite lookup_insert_eq, lookup_insert_ne, lookup_insert_eq by done|].
    rewrite lookup_insert_ne, IH by done. destruct (decide (k' = k)) as [->|]; [by rewrite !lookup_insert_eq|].
    by rewrite !lookup_insert_ne.
Qed.

Lemma chain_assign_sorted sz i (k : K) (d : D) c : Hashtab.chain_ok sz i c -> Hashtab.chain_ok sz i (chain_assign k d c).
Proof using.
  intros [Hs Hf]. unfold chain_assign. split.
  - induction Hs as [|x c Hs IH Hx]; [constructor|]. cbn [map]. inversion Hf; subst. constructor; [by apply IH|].
    apply Forall_map. eapply Forall_impl; [exact Hx|]. intros y Hy. unfold key_lt in *. by repeat case_match.
  - apply Forall_map. eapply Forall_impl; [exact Hf|]. intros y Hy. simpl. by case_match.
Qed.

Lemma hashtab_assign_spec h (k : K) (d : D) :
  hashtab_ok h -> is_Some (hashtab_abs h !! k) ->
  exists h', hashtab_assign (Some h) k d = Some h' /\ hashtab_ok h' /\ ht_nel h' = ht_nel h /\
             hashtab_abs h' = <[k := d]> (hashtab_abs h).
Proof using KeyLaws0.
  intros Hok Hk. pose proof Hok as (Hsz & Hinv & Hn & Hm). eexists. split; [done|].
  pose proof (slot_ok (ht_size h) (htable h) k ltac:(lia) Hinv) as Hc.
  pose proof (slot_lookup (ht_size h) (htable h) k ltac:(lia) Hinv) as Hsl.
  match goal with |- hashtab_ok ?x /\ _ => assert (Hok' : hashtab_ok x) end.
  { split; [done|]. split; [apply table_inv_update; [lia|done|by apply chain_assign_sorted]|]. split; [|done]. simpl.
    pose proof (length_concat_insert (htable h) _ _ (chain_assign k d (slot (htable h) (hash_value (ht_size h) k))) Hsl) as Hl.
    unfold chain_assign in Hl at 2. rewrite length_map in Hl. lia. }
  split; [done|]. split; [done|]. apply map_eq. intros k'. rewrite hashtab_abs_lookup by done. cbn [ht_size htable].
  rewrite tlookup_update by (lia || done). rewrite hashtab_abs_lookup in Hk by done.
  destruct (decide (k' = k)) as [->|Hne].
  - rewrite decide_True, chain_assign_lookup, !lookup_insert_eq by done. done.
  - rewrite lookup_insert_ne, hashtab_abs_lookup by done. case_decide as Hh; [|done].
    rewrite chain_assign_lookup, lookup_insert_ne by done. unfold tlookup. by rewrite Hh.
Qed.
End Assign.
