(* ===== verification/TransIns.v ===== *)
(** * TransIns: inserting file name transitions

    [policydb_filetrans_insert] against its purpose: the table is a map from
    keys (target type, class, file name) and source types to output types. *)
From Stdlib Require Import ZArith Lia Bool.
From stdpp Require Import base option list list_numbers gmap sets.
From S2P Require Import Prelude PolicyFile Ebitmap EbitmapThms EbitmapRange EbitmapIO Hashtab HashtabThms Symtab Avtab AvtabIO Cond Codec Symbols SymCodec Trans TransIO.

(** ** The map a table stands for *)

Definition datum_ok (d : filename_trans_datum) : Prop := ebitmap_ok (ft_stypes d) /\ in_range 32 (ft_otype d).

(** Two data of one key have different output types and no common source type. *)
Definition apart (d d' : filename_trans_datum) : Prop :=
  ft_otype d <> ft_otype d' /\ ebitmap_set (ft_stypes d) ## ebitmap_set (ft_stypes d').

Fixpoint data_ok (l : list filename_trans_datum) : Prop :=
  match l with
  | [] => True
  | d :: l => datum_ok d /\ Forall (apart d) l /\ data_ok l
  end.

(** The output type for the source type of bit [b]. *)
Fixpoint data_lookup (b : Z) (l : list filename_trans_datum) : option Z :=
  match l with
  | [] => None
  | d :: l => if bool_decide (b ∈ ebitmap_set (ft_stypes d)) then Some (ft_otype d) else data_lookup b l
  end.

Definition ft_ok (t : filename_trans) : Prop :=
  exists h, ft_table t = Some h /\ hashtab_ok h /\ map_Forall (fun _ c => data_ok (chain_list c)) (hashtab_abs h).

Definition ft_data (t : filename_trans) (k : filename_trans_key) : list filename_trans_datum :=
  match ft_table t with
  | None => []
  | Some h => match hashtab_abs h !! k with Some c => chain_list c | None => [] end
  end.

(** The output type for a source type (a value from 1 on). *)
Definition ft_lookup (t : filename_trans) (k : filename_trans_key) (stype : Z) : option Z :=
  data_lookup (stype - 1) (ft_data t k).

(** ** Lists of data *)

Lemma apart_sym d d' : apart d d' -> apart d' d.
Proof. intros [??]. split; [done|set_solver]. Qed.

Lemma data_ok_app l1 l2 :
  data_ok (l1 ++ l2) <-> data_ok l1 /\ data_ok l2 /\ Forall (fun d => Forall (apart d) l2) l1.
Proof.
  induction l1 as [|d l1 IH]; simpl.
  - split; [by intros|by intros (_ & ? & _)].
  - rewrite IH, Forall_app, Forall_cons. naive_solver.
Qed.

Lemma data_lookup_app b l1 l2 :
  data_lookup b (l1 ++ l2) = match data_lookup b l1 with Some x => Some x | None => data_lookup b l2 end.
Proof. induction l1 as [|d l1 IH]; [done|]. simpl. by case_bool_decide. Qed.

Lemma data_lookup_None b l : data_lookup b l = None <-> Forall (fun d => b ∉ ebitmap_set (ft_stypes d)) l.
Proof.
  induction l as [|d l IH]; simpl; [split; [constructor|done]|]. rewrite Forall_cons. case_bool_decide; [|by rewrite IH; naive_solver].
  split; [done|naive_solver].
Qed.

(** Adding a source type to a datum, when none before it has the type. *)
Lemma data_add_first pre d post b e b' :
  data_lookup b pre = None -> ebitmap_set e = {[b]} ∪ ebitmap_set (ft_stypes d) ->
  data_lookup b' (pre ++ mk_ft_datum e (ft_otype d) :: post) = if decide (b' = b) then Some (ft_otype d) else data_lookup b' (pre ++ d :: post).
Proof.
  intros Hp Hs. rewrite !data_lookup_app. simpl. rewrite Hs. destruct (decide (b' = b)) as [->|Hne]; [by rewrite Hp, bool_decide_true by set_solver|].
  destruct (data_lookup b' pre); [done|]. do 2 case_bool_decide; try done; set_solver.
Qed.

(** Adding a source type that no datum has to one of the data. *)
Lemma data_add pre d post b e :
  data_ok (pre ++ d :: post) -> data_lookup b (pre ++ d :: post) = None ->
  ebitmap_ok e -> ebitmap_set e = {[b]} ∪ ebitmap_set (ft_stypes d) ->
  data_ok (pre ++ mk_ft_datum e (ft_otype d) :: post) /\
  forall b', data_lookup b' (pre ++ mk_ft_datum e (ft_otype d) :: post) =
             if decide (b' = b) then Some (ft_otype d) else data_lookup b' (pre ++ d :: post).
Proof.
  intros Hok Hl He Hs. apply data_ok_app in Hok as (Hpre & (Hd & Hda & Hpost) & Hcross).
  rewrite data_lookup_app in Hl. destruct (data_lookup b pre) eqn:Hlp; [done|]. apply data_lookup_None in Hlp. cbn [data_lookup] in Hl.
  case_bool_decide as Hb; [done|]. apply data_lookup_None in Hl.
  assert (Hfree : forall d', b ∉ ebitmap_set (ft_stypes d') -> apart d d' -> apart (mk_ft_datum e (ft_otype d)) d').
  { intros d' Hb' [Hne Hdis]. split; [done|]. simpl. rewrite Hs. set_solver. }
  split.
  - apply data_ok_app. split_and!; [done| |].
    + split_and!; [by split; [|apply Hd]| |done]. rewrite Forall_forall in *. auto.
    + rewrite Forall_forall in *. intros x Hx. specialize (Hcross x Hx). apply Forall_cons in Hcross as [Hxd Hxp].
      constructor; [|done]. apply apart_sym, Hfree; [by apply Hlp|]. by apply apart_sym.
  - intros b'. apply data_add_first; [by apply data_lookup_None|done].
Qed.

(** A datum without source types changes nothing. *)
Lemma data_snoc_empty l otype :
  data_ok l -> in_range 32 otype -> Forall (fun d => ft_otype d <> otype) l ->
  data_ok (l ++ [mk_ft_datum ebitmap_init otype]) /\
  forall b, data_lookup b (l ++ [mk_ft_datum ebitmap_init otype]) = data_lookup b l.
Proof.
  intros Hl Ho Hne. split.
  - apply data_ok_app. split_and!; [done|by split_and!|]. eapply Forall_impl; [exact Hne|]. intros d Hd.
    constructor; [|constructor]. split; [done|set_solver].
  - intros b. rewrite data_lookup_app. destruct (data_lookup b l) eqn:E; [done|]. simpl. by rewrite bool_decide_false by set_solver.
Qed.

(** A datum with the output type [otype] comes before any with the source type
    of bit [b]. *)
Definition comes_first (otype b : Z) (l : list filename_trans_datum) : Prop :=
  exists pre d post, l = pre ++ d :: post /\ ft_otype d = otype /\ data_lookup b (pre ++ [d]) = None.

Lemma comes_first_cons otype b d l :
  comes_first otype b (d :: l) <-> b ∉ ebitmap_set (ft_stypes d) /\ (ft_otype d = otype \/ comes_first otype b l).
Proof.
  split.
  - intros ([|d' pre] & x & post & E & Ho & Hn); simplify_eq/=; case_bool_decide; try done; (split; [done|]); [by left|right]. by exists pre, x, post.
  - intros (Hb & [Ho|(pre & x & post & -> & Ho & Hn)]); [exists [], d, l|exists (d :: pre), x, post]; (split_and!; [done..|]); simpl; by rewrite bool_decide_false.
Qed.

(** ** The loop *)

Lemma get_bit_ctrue e b : ebitmap_ok e -> ctrue (ebitmap_get_bit e b) = bool_decide (b ∈ ebitmap_set e).
Proof. intros He. rewrite ebitmap_get_bit_spec by done. by case_bool_decide. Qed.

Lemma ft_walk_spec stype otype l :
  0 < stype < 2 ^ 32 -> data_ok l ->
  match ft_walk stype otype l with
  | FtExists x => data_lookup (stype - 1) l = Some x /\ ~ comes_first otype (stype - 1) l
  | FtHere pre d post => l = pre ++ d :: post /\ ft_otype d = otype /\ data_lookup (stype - 1) (pre ++ [d]) = None /\ data_lookup (stype - 1) l <> Some otype
  | FtEnd => data_lookup (stype - 1) l = None /\ Forall (fun d => ft_otype d <> otype) l
  end.
Proof.
  intros Hs. assert (u32 (stype - 1) = stype - 1) as E by (apply wrap_small; unfold in_range; lia).
  induction l as [|d l IH]; cbn [ft_walk data_lookup data_ok]; [done|]. intros ((He & Ho) & Hap & Hl). rewrite E, get_bit_ctrue by done.
  case_bool_decide as Hb; [rewrite comes_first_cons; tauto|]. destruct (Z.eqb_spec (ft_otype d) otype) as [Heq|Hne].
  - split_and!; [done..|by simpl; rewrite bool_decide_false|]. clear IH. intros Hx. induction l as [|d' l IH]; [done|]. simpl in Hx.
    inversion Hap as [|? ? [Hd' _] Hap']; subst. destruct Hl as (_ & _ & Hl). case_bool_decide; [congruence|by apply IH].
  - specialize (IH Hl). destruct (ft_walk stype otype l) as [x|pre d' post|].
    + rewrite comes_first_cons. tauto.
    + destruct IH as (-> & ? & ? & ?). split_and!; try done. simpl. by rewrite bool_decide_false.
    + destruct IH. split; [done|by constructor].
Qed.

(** ** The operation *)

(** The rules of [t'] are those of [t], with [k], [stype] going to [otype]. *)
Definition ft_added (k : filename_trans_key) (stype otype : Z) (t t' : filename_trans) : Prop :=
  forall k' s', ft_lookup t' k' s' = if decide (k' = k /\ s' = stype) then Some otype else ft_lookup t k' s'.

Definition ft_same (t t' : filename_trans) : Prop := forall k s, ft_lookup t' k s = ft_lookup t k s.

(** Replacing the data of one key. *)
Lemma ft_assign t h k l c n :
  ft_table t = Some h -> hashtab_ok h -> map_Forall (fun _ c => data_ok (chain_list c)) (hashtab_abs h) ->
  is_Some (hashtab_abs h !! k) -> data_ok l -> l = chain_list c ->
  let t' := mk_filename_trans (hashtab_assign (ft_table t) k c) n in
  ft_ok t' /\ nel_of (ft_table t') = nel_of (ft_table t) /\
  forall k', ft_data t' k' = if decide (k' = k) then l else ft_data t k'.
Proof.
  intros Ht Hok Hall Hk Hl -> t'. destruct (hashtab_assign_spec h k c Hok Hk) as (h' & E & Hok' & Hn & Habs).
  unfold t'. rewrite Ht, E. split_and!; [|exact Hn|].
  - exists h'. split_and!; [done..|]. rewrite Habs. by apply map_Forall_insert_2.
  - intros k'. unfold ft_data. simpl. rewrite Ht, Habs. destruct (decide (k' = k)) as [->|]; [by rewrite lookup_insert_eq|].
    by rewrite lookup_insert_ne.
Qed.

Lemma list_chain_mid pre d post c : pre ++ d :: post = chain_list (list_chain (pre ++ d :: post) c).
Proof. by destruct pre. Qed.

Lemma ft_set_stype_spec t h k pre d post stype o :
  ft_table t = Some h -> hashtab_ok h -> map_Forall (fun _ c => data_ok (chain_list c)) (hashtab_abs h) ->
  is_Some (hashtab_abs h !! k) -> data_ok (pre ++ d :: post) ->
  (forall b, data_lookup b (pre ++ d :: post) = data_lookup b (ft_data t k)) ->
  0 < stype < 2 ^ 32 -> ft_lookup t k stype = None ->
  let '(rc, present, t', o') := ft_set_stype t k pre post d stype o in
  present = None /\ ft_ok t' /\ ft_count t' = u32 (ft_count t + 1) /\ nel_of (ft_table t') = nel_of (ft_table t) /\
  ((rc = 0 /\ ft_added k stype (ft_otype d) t t') \/
   (rc <> 0 /\ rc <> SEPOL_EEXIST /\ ft_same t t' /\ (~ mem_ok o \/ 2 ^ 32 - 64 < stype))).
Proof.
  intros Ht Hok Hall Hk Hdat HL Hs Hnone. unfold ft_set_stype.
  assert (u32 (stype - 1) = stype - 1) as -> by (apply wrap_small; unfold in_range; lia).
  assert (Hd : datum_ok d) by (apply data_ok_app in Hdat as (_ & [? _] & _); done).
  assert (Hb : data_lookup (stype - 1) (pre ++ d :: post) = None) by (by rewrite HL).
  destruct (Z.lt_ge_cases (stype - 1) (2 ^ 32 - 64)) as [Hlow|Hhigh].
  - pose proof (ebitmap_set_bit_ok (ft_stypes d) (stype - 1) 1 o (proj1 Hd) ltac:(lia)) as Hset.
    destruct (ebitmap_set_bit (ft_stypes d) (stype - 1) 1 o) as [[rc e] o']. simpl in Hset.
    destruct Hset as [(-> & He & Hes)|(-> & -> & HM)].
    + destruct (data_add pre d post (stype - 1) e Hdat Hb He Hes) as [Hdat' Hlk].
      edestruct (ft_assign t h k (pre ++ mk_ft_datum e (ft_otype d) :: post)) as (Hok' & Hn & Hdata); [done..|apply list_chain_mid|].
      split_and!; [done|exact Hok'|done|exact Hn|]. left. split; [done|]. intros k' s'. unfold ft_lookup. rewrite Hdata.
      destruct (decide (k' = k)) as [->|Hne]; [|rewrite decide_False by tauto; done]. rewrite Hlk, HL.
      destruct (decide (s' = stype)) as [->|Hs']; [by rewrite !decide_True|]. by rewrite !decide_False by (lia || tauto).
    + assert (Hd' : mk_ft_datum (ft_stypes d) (ft_otype d) = d) by (by destruct d). rewrite Hd'.
      edestruct (ft_assign t h k (pre ++ d :: post)) as (Hok' & Hn & Hdata); [done..|apply list_chain_mid|].
      split_and!; [done|exact Hok'|done|exact Hn|]. right. split_and!; [done..| |by left]. intros k' s'. unfold ft_lookup. rewrite Hdata.
      destruct (decide (k' = k)) as [->|Hne]; [|done]. by rewrite HL.
  - rewrite ebitmap_set_bit_overflow by lia.
    assert (Hd' : mk_ft_datum (ft_stypes d) (ft_otype d) = d) by (by destruct d). rewrite Hd'.
    edestruct (ft_assign t h k (pre ++ d :: post)) as (Hok' & Hn & Hdata); [done..|apply list_chain_mid|].
    split_and!; [done|exact Hok'|done|exact Hn|]. right. split_and!; [done..| |right; lia]. intros k' s'. unfold ft_lookup. rewrite Hdata.
    destruct (decide (k' = k)) as [->|Hne]; [|done]. by rewrite HL.
Qed.

(** What an insertion may do to a table that has no rule for [k] and [stype]. *)
Definition ft_insert_new (k : filename_trans_key) (stype otype : Z) (o : oracle) (t : filename_trans)
    (r : Z * option Z * filename_trans * oracle) : Prop :=
  let '(rc, present, t', _) := r in
  present = None /\ ft_ok t' /\ nel_of (ft_table t') <= nel_of (ft_table t) + 1 /\
  ((rc = 0 /\ ft_added k stype otype t t' /\ ft_count t' = u32 (ft_count t + 1)) \/
   (rc <> 0 /\ rc <> SEPOL_EEXIST /\ ft_same t t' /\
    (~ mem_ok o \/ 2 ^ 32 - 64 < stype \/ nel_of (ft_table t) = 2 ^ 32 - 1))).

(** What an insertion does when the datum with the wanted output type comes
    before the one that has the source type, with output type [x]: unless it
    fails, both data have the source type after it. *)
Definition ft_insert_twice (k : filename_trans_key) (stype otype x : Z) (o : oracle) (t : filename_trans)
    (r : Z * option Z * filename_trans * oracle) : Prop :=
  let '(rc, present, t', _) := r in
  present = None /\ ft_count t' = u32 (ft_count t + 1) /\
  ((rc = 0 /\ ft_added k stype otype t t' /\ exists d, d ∈ ft_data t' k /\ stype - 1 ∈ ebitmap_set (ft_stypes d) /\ ft_otype d = x) \/
   (rc <> 0 /\ rc <> SEPOL_EEXIST /\ ft_same t t' /\ (~ mem_ok o \/ 2 ^ 32 - 64 < stype))).

Lemma data_lookup_in b l x : data_lookup b l = Some x -> exists d, d ∈ l /\ b ∈ ebitmap_set (ft_stypes d) /\ ft_otype d = x.
Proof.
  induction l as [|d l IH]; simpl; [done|]. case_bool_decide as Hb; intros E; [exists d; simplify_eq; split_and!; [left|done..]|].
  destruct (IH E) as (d' & ? & ? & ?). exists d'. split_and!; [by right|done..].
Qed.

Lemma ft_set_stype_twice t h k pre d post stype x o :
  ft_table t = Some h -> hashtab_ok h -> ebitmap_ok (ft_stypes d) -> ft_data t k = pre ++ d :: post -> is_Some (hashtab_abs h !! k) ->
  0 < stype < 2 ^ 32 -> data_lookup (stype - 1) (pre ++ [d]) = None -> ft_lookup t k stype = Some x ->
  ft_insert_twice k stype (ft_otype d) x o t (ft_set_stype t k pre post d stype o).
Proof.
  intros Ht Hok Hd El Hk Hs Hpd Hx. unfold ft_set_stype. assert (u32 (stype - 1) = stype - 1) as -> by (apply wrap_small; unfold in_range; lia).
  assert (Hput : forall e n, let t' := mk_filename_trans (hashtab_assign (ft_table t) k (list_chain (pre ++ mk_ft_datum e (ft_otype d) :: post) (mk_ft_datum e (ft_otype d), []))) n in
    forall k', ft_data t' k' = if decide (k' = k) then pre ++ mk_ft_datum e (ft_otype d) :: post else ft_data t k').
  { intros e n t' k'. unfold t'. rewrite Ht. destruct (hashtab_assign_spec h k (list_chain (pre ++ mk_ft_datum e (ft_otype d) :: post) (mk_ft_datum e (ft_otype d), [])) Hok Hk) as (h' & -> & _ & _ & Habs).
    unfold ft_data. cbn [ft_table]. rewrite Ht, Habs. destruct (decide (k' = k)) as [->|]; [rewrite lookup_insert_eq; symmetry; apply list_chain_mid|by rewrite lookup_insert_ne]. }
  assert (Hsame : forall n, ft_same t (mk_filename_trans (hashtab_assign (ft_table t) k (list_chain (pre ++ mk_ft_datum (ft_stypes d) (ft_otype d) :: post) (mk_ft_datum (ft_stypes d) (ft_otype d), []))) n)).
  { intros n k' s'. unfold ft_lookup. rewrite Hput. destruct (decide (k' = k)) as [->|]; [|done]. rewrite El. by destruct d. }
  destruct (Z.lt_ge_cases (stype - 1) (2 ^ 32 - 64)) as [Hlow|Hhigh].
  2:{ rewrite ebitmap_set_bit_overflow by lia. split_and!; [done..|]. right. split_and!; [done..|by apply Hsame|right; lia]. }
  pose proof (ebitmap_set_bit_ok (ft_stypes d) (stype - 1) 1 o Hd ltac:(lia)) as Hset. destruct (ebitmap_set_bit (ft_stypes d) (stype - 1) 1 o) as [[rc e] o']. simpl in Hset.
  destruct Hset as [(-> & He & Hes)|(-> & -> & HM)]; (split_and!; [done..|]).
  2:{ right. split_and!; [done..|by apply Hsame|by left]. }
  left. rewrite data_lookup_app in Hpd. destruct (data_lookup (stype - 1) pre) eqn:Hp; [done|]. split_and!; [done| |].
  - intros k' s'. unfold ft_lookup. rewrite Hput. destruct (decide (k' = k)) as [->|Hne]; [|rewrite decide_False by tauto; done]. rewrite (data_add_first _ _ _ (stype - 1)), El by done.
    destruct (decide (s' = stype)) as [->|Hs']; [by rewrite !decide_True|]. by rewrite !decide_False by (lia || tauto).
  - unfold ft_lookup in Hx. rewrite El, data_lookup_app, Hp in Hx. simpl in Hpd, Hx. case_bool_decide; [done|]. apply data_lookup_in in Hx as (d' & Hin & Hb & <-).
    exists d'. rewrite Hput, decide_True by done. split_and!; [apply elem_of_app; right; by right|done..].
Qed.

Lemma ft_insert_end t h k stype otype name_alloc o :
  ft_table t = Some h -> hashtab_ok h -> map_Forall (fun _ c => data_ok (chain_list c)) (hashtab_abs h) ->
  0 < stype < 2 ^ 32 -> in_range 32 otype ->
  ft_walk stype otype (ft_data t k) = FtEnd -> ft_lookup t k stype = None -> Forall (fun d => ft_otype d <> otype) (ft_data t k) ->
  ft_insert_new k stype otype o t (policydb_filetrans_insert t stype (ft_ttype k) (ft_tclass k) (ft_name k) name_alloc otype o).
Proof.
  intros Ht Hok Hall Hs Ho Hw Hnone Hne. unfold policydb_filetrans_insert.
  replace (mk_ft_key (ft_ttype k) (ft_tclass k) (ft_name k)) with k by (by destruct k).
  assert (Hokt : ft_ok t) by (by exists h). assert (Hsame0 : ft_same t t) by (intros k' s'; done).
  assert (Hsearch : hashtab_search (ft_table t) k = hashtab_abs h !! k) by (by rewrite Ht, hashtab_search_ok).
  rewrite Hsearch.
  assert (Hl : match hashtab_abs h !! k with Some c => chain_list c | None => [] end = ft_data t k) by (unfold ft_data; by rewrite Ht).
  rewrite Hl, Hw.
  assert (Hfail : forall rc o1 t1, ft_ok t1 -> nel_of (ft_table t1) <= nel_of (ft_table t) + 1 -> ft_same t t1 -> rc <> 0 -> rc <> SEPOL_EEXIST ->
            ~ mem_ok o \/ nel_of (ft_table t) = 2 ^ 32 - 1 -> ft_insert_new k stype otype o t (rc, None, t1, o1)).
  { intros. split_and!; [done..|]. right. tauto. }
  assert (Hmem : forall o1 o2, malloc o1 = (false, o2) -> (mem_ok o -> mem_ok o1) -> ~ mem_ok o).
  { intros o1 o2 E HM M. by destruct (malloc_mem_ok _ _ _ E (HM M)). }
  destruct (malloc o) as [ok o1] eqn:E1. destruct ok; cbn [negb]; [|apply Hfail; try done; [lia|]; left; by eapply Hmem].
  assert (M1 : mem_ok o -> mem_ok o1) by (intros M; by destruct (malloc_mem_ok _ _ _ E1 M)).
  destruct (hashtab_abs h !! k) as [c|] eqn:Hk.
  - rewrite <- Hl in *. destruct (data_snoc_empty (chain_list c) otype) as [Hdat HL]; [exact (map_Forall_lookup_1 _ _ _ _ Hall Hk)|done..|].
    pose proof (ft_set_stype_spec t h k (chain_list c) (mk_ft_datum ebitmap_init otype) [] stype o1 Ht Hok Hall ltac:(by eauto) Hdat) as Hset.
    rewrite <- Hl in Hset. specialize (Hset HL Hs Hnone). destruct (ft_set_stype _ _ _ _ _ _ _) as [[[rc pr] t'] o2].
    destruct Hset as (-> & Hok' & Hc & Hn & [[-> Hadd]|(? & ? & Hsame & Hwhy)]); split_and!; try done; [lia|by left|lia|right].
    split_and!; [done..|]. tauto.
  - destruct (if name_alloc then (true, o1) else malloc o1) as [ok2 o2] eqn:E2.
    assert (M2 : mem_ok o -> mem_ok o2 /\ ok2 = true).
    { intros M. destruct name_alloc; [by simplify_eq; auto|]. by destruct (malloc_mem_ok _ _ _ E2 (M1 M)). }
    destruct ok2; cbn [negb]; [|apply Hfail; try done; [lia|]; left; intros M; by destruct (M2 M)].
    destruct (malloc o2) as [ok3 o3] eqn:E3. destruct ok3; cbn [negb]; [|apply Hfail; try done; [lia|]; left; eapply Hmem; [exact E3|]; tauto].
    assert (M3 : mem_ok o -> mem_ok o3) by (intros M; by destruct (malloc_mem_ok _ _ _ E3 (proj1 (M2 M)))).
    rewrite Ht. pose proof (hashtab_insert_ok h k (mk_ft_datum ebitmap_init otype, []) o3 Hok) as Hins.
    destruct (hashtab_insert (Some h) k _ o3) as [[rc h2] o4] eqn:E4.
    destruct Hins as (h3 & -> & Hok3 & [(-> & _ & Habs)|[(_ & [? Hx] & _)|(-> & Habs & Hwhy)]]); [|by rewrite Hk in Hx|].
    2:{ change (ctrue SEPOL_ENOMEM) with true. cbv iota. apply Hfail; [| |intros k' s'|done|done|rewrite Ht; simpl; tauto].
        - exists h3. split_and!; [done..|by rewrite Habs].
        - rewrite Ht. simpl. rewrite !hashtab_nel_size, Habs by done. lia.
        - unfold ft_lookup, ft_data. simpl. by rewrite Ht, Habs. }
    change (ctrue SEPOL_OK) with false. cbv iota. set (t1 := mk_filename_trans (Some h3) (ft_count t)).
    assert (Hall3 : map_Forall (fun _ c => data_ok (chain_list c)) (hashtab_abs h3)).
    { rewrite Habs. by apply map_Forall_insert_2; [|done]. }
    assert (Hsame1 : ft_same t t1).
    { intros k' s'. unfold ft_lookup, ft_data, t1. simpl. rewrite Ht, Habs. destruct (decide (k' = k)) as [->|].
      - by rewrite lookup_insert_eq, Hk.
      - by rewrite lookup_insert_ne. }
    pose proof (ft_set_stype_spec t1 h3 k [] (mk_ft_datum ebitmap_init otype) [] stype o4 eq_refl Hok3 Hall3) as Hset.
    rewrite Habs, lookup_insert_eq in Hset. specialize (Hset ltac:(by eauto) ltac:(done)).
    unfold ft_data in Hset at 1. unfold t1 in Hset at 1. cbn [ft_table] in Hset. rewrite Habs, lookup_insert_eq in Hset.
    specialize (Hset (fun _ => eq_refl) Hs ltac:(by rewrite Hsame1)).
    destruct (ft_set_stype t1 _ _ _ _ _ _) as [[[rc pr] t'] o5].
    assert (Hn1 : nel_of (ft_table t1) <= nel_of (Some h) + 1).
    { unfold t1. simpl. rewrite !hashtab_nel_size, Habs by done. rewrite map_size_insert, Hk. simpl. lia. }
    destruct Hset as (-> & Hok' & Hc & Hn & [[-> Hadd]|(? & ? & Hsame & Hwhy)]); split_and!; try done; try (rewrite Hn, Ht; exact Hn1); [left|right].
    + split_and!; [done| |done]. intros k' s'. rewrite Hadd. simpl. by case_decide.
    + split_and!; [done..| |].
      * intros k' s'. by rewrite Hsame.
      * destruct Hwhy as [Hwhy|]; [|tauto]. left. intros M. apply Hwhy. exact (insert_mem_ok _ _ _ _ _ _ _ E4 (M3 M)).
Qed.

(** The call as a case distinction on the walk. *)
Lemma filetrans_unfold t h k stype otype name_alloc o :
  ft_table t = Some h -> hashtab_ok h -> ft_walk stype otype (ft_data t k) <> FtEnd ->
  policydb_filetrans_insert t stype (ft_ttype k) (ft_tclass k) (ft_name k) name_alloc otype o =
    match ft_walk stype otype (ft_data t k) with
    | FtExists x => (SEPOL_EEXIST, Some x, t, o)
    | FtHere pre d post => ft_set_stype t k pre post d stype o
    | FtEnd => (0, None, t, o)
    end.
Proof.
  intros Ht Hok Hend. unfold policydb_filetrans_insert.
  replace (mk_ft_key (ft_ttype k) (ft_tclass k) (ft_name k)) with k by (by destruct k).
  assert (Hl : match hashtab_search (ft_table t) k with Some c => chain_list c | None => [] end = ft_data t k).
  { unfold ft_data. by rewrite Ht, hashtab_search_ok. }
  rewrite Hl. by destruct (ft_walk stype otype (ft_data t k)).
Qed.

Lemma set_bit_loop_rc prev n bit value sbit hbit high o :
  (set_bit_loop prev n bit value sbit hbit high o).1.1.1 <> SEPOL_EEXIST.
Proof.
  assert (Hins : forall n, (set_bit_insert n bit value sbit hbit high o).1.1.1 <> SEPOL_EEXIST).
  { intros n'. unfold set_bit_insert. destruct (malloc o) as [[] ?]; by repeat case_match. }
  revert prev. induction n as [|a n IH]; intros prev; cbn [set_bit_loop]; [apply Hins|].
  specialize (IH (Some a)). destruct (set_bit_loop (Some a) n bit value sbit hbit high o) as [[[rc l] hi] o'].
  repeat case_match; try done; apply Hins.
Qed.

Lemma set_bit_rc e bit value o : (ebitmap_set_bit e bit value o).1.1 <> SEPOL_EEXIST.
Proof.
  unfold ebitmap_set_bit. case_match; [done|].
  pose proof (set_bit_loop_rc None (node e) bit value (align bit) (u32 (align bit + MAPSIZE)) (highbit e) o) as Hrc.
  by destruct (set_bit_loop _ _ _ _ _ _ _ _) as [[[rc l] hi] o'].
Qed.

Lemma ft_set_stype_rc t k pre post d stype o : (ft_set_stype t k pre post d stype o).1.1.1 <> SEPOL_EEXIST.
Proof.
  unfold ft_set_stype. pose proof (set_bit_rc (ft_stypes d) (u32 (stype - 1)) 1 o) as H.
  by destruct (ebitmap_set_bit (ft_stypes d) (u32 (stype - 1)) 1 o) as [[rc e] o'].
Qed.

(** What an insertion does to a table that has a rule for [k] and [stype]. *)
Definition ft_insert_again (k : filename_trans_key) (stype otype x : Z) (o : oracle) (t : filename_trans)
    (r : Z * option Z * filename_trans * oracle) : Prop :=
  (~ comes_first otype (stype - 1) (ft_data t k) /\ r = (SEPOL_EEXIST, Some x, t, o)) \/
  (comes_first otype (stype - 1) (ft_data t k) /\ x <> otype /\ ft_insert_twice k stype otype x o t r).

Lemma filetrans_insert_ok t k stype otype name_alloc o :
  ft_ok t -> 0 < stype < 2 ^ 32 -> in_range 32 otype ->
  let r := policydb_filetrans_insert t stype (ft_ttype k) (ft_tclass k) (ft_name k) name_alloc otype o in
  match ft_lookup t k stype with
  | None => ft_insert_new k stype otype o t r
  | Some x => ft_insert_again k stype otype x o t r
  end.
Proof.
  intros (h & Ht & Hok & Hall) Hs Ho. cbv zeta.
  assert (Hdat : data_ok (ft_data t k)).
  { unfold ft_data. rewrite Ht. destruct (hashtab_abs h !! k) as [c|] eqn:E; [|done]. exact (map_Forall_lookup_1 _ _ _ _ Hall E). }
  pose proof (ft_walk_spec stype otype (ft_data t k) Hs Hdat) as Hw.
  destruct (ft_walk stype otype (ft_data t k)) as [x|pre d post|] eqn:Ew.
  - destruct Hw as [Hx Hno]. rewrite (filetrans_unfold t h k), Ew by (done || by rewrite Ew). unfold ft_lookup. rewrite Hx. by left.
  - rewrite (filetrans_unfold t h k), Ew by (done || by rewrite Ew). destruct Hw as (El & <- & Hpd & Hne).
    assert (Hk : is_Some (hashtab_abs h !! k)).
    { unfold ft_data in El. rewrite Ht in El. destruct (hashtab_abs h !! k); [by eauto|]. by destruct pre. }
    destruct (ft_lookup t k stype) as [x|] eqn:Hl.
    + right. split; [by exists pre, d, post|]. split; [intros ->; by apply Hne|]. eapply ft_set_stype_twice; try done.
      rewrite El in Hdat. by apply data_ok_app in Hdat as (_ & [[? _] _] & _).
    + pose proof (ft_set_stype_spec t h k pre d post stype o Ht Hok Hall Hk) as Hset.
      rewrite <- El in Hset. specialize (Hset Hdat (fun _ => eq_refl) Hs Hl). unfold ft_insert_new.
      destruct (ft_set_stype t k pre post d stype o) as [[[rc pr] t'] o'].
      destruct Hset as (-> & Hok' & Hc & Hn & [[-> Hadd]|(? & ? & Hsame & Hwhy)]); split_and!; try done; [lia|by left|lia|right; tauto].
  - destruct Hw as [Hnone Hne]. unfold ft_lookup. rewrite Hnone. by apply (ft_insert_end t h).
Qed.

(** C29: every outcome of [policydb_filetrans_insert] on a table in which every
    source type has at most one output type per key.  A rule for a new source
    type is added, and nothing else changes, or the call fails (no memory, a
    full table, a source type beyond the bitmaps) and no rule has changed.  If
    there is a rule for the source type, SEPOL_EEXIST and the output type that
    is there are reported and the table stays as it was; but if the datum with
    the wanted output type comes before the one that has the source type, the
    source type is added to it too and is in two data afterwards, unless the
    call fails and no rule has changed. *)
Theorem filetrans_insert_spec t k stype otype name_alloc o :
  ft_ok t -> 0 < stype < 2 ^ 32 -> in_range 32 otype ->
  let r := policydb_filetrans_insert t stype (ft_ttype k) (ft_tclass k) (ft_name k) name_alloc otype o in
  match ft_lookup t k stype with
  | None => ft_insert_new k stype otype o t r
  | Some x => ft_insert_again k stype otype x o t r
  end.
Proof. apply filetrans_insert_ok. Qed.

(** ** A conflict that goes unnoticed *)

Definition sample_ft_key : filename_trans_key := mk_ft_key 3 4 [102].

(** The rules 5 -> 1 and 7 -> 2 of one key. *)
Definition sample_ft : filename_trans :=
  Eval vm_compute in
  let t := mk_filename_trans (Some (mk_hashtab (replicate 4 []) 4 0)) 0 in
  let '(_, _, t, _) := policydb_filetrans_insert t 5 3 4 [102] false 1 [] in
  let '(_, _, t, _) := policydb_filetrans_insert t 7 3 4 [102] false 2 [] in t.

Lemma sample_ft_ok : ft_ok sample_ft.
Proof.
  eexists. split; [done|]. split.
  - split_and!; try done. repeat (split; [by repeat constructor|]). done.
  - unfold hashtab_abs. simpl. rewrite insert_empty. apply map_Forall_singleton.
    cbn [chain_list fst snd data_ok]. split_and!; [split; [concrete|by split]| |split; [concrete|by split]|constructor|done].
    constructor; [|constructor]. split; [done|]. apply disjoint_intersection_L. vm_compute. done.
Qed.

Lemma filetrans_insert_witness :
  ft_insert_new sample_ft_key 6 1 [] sample_ft (policydb_filetrans_insert sample_ft 6 3 4 [102] false 1 []) /\
  ft_insert_again sample_ft_key 7 1 2 [] sample_ft (policydb_filetrans_insert sample_ft 7 3 4 [102] false 1 []).
Proof.
  split.
  - refine (filetrans_insert_spec sample_ft sample_ft_key 6 1 false [] sample_ft_ok _ _); [lia|unfold in_range; lia].
  - refine (filetrans_insert_spec sample_ft sample_ft_key 7 1 false [] sample_ft_ok _ _); [lia|unfold in_range; lia].
Defined.

(** The loop over the data of a key stops at the datum with the wanted output
    type, and the data behind it are not searched for the source type.  With
    the rules 5 -> 1 and 7 -> 2 in the table, 7 -> 1 is accepted: source type 7
    then has two output types, and [filename_trans_check_datum] refuses the
    data when the policy is read back. *)
Theorem filetrans_insert_conflict :
  ft_ok sample_ft /\ ft_lookup sample_ft sample_ft_key 7 = Some 2 /\
  let '(rc, _, t, _) := policydb_filetrans_insert sample_ft 7 3 4 [102] false 1 [] in
  rc = 0 /\ ft_lookup t sample_ft_key 7 = Some 1 /\
  (filename_trans_check_datum (ft_data t sample_ft_key) []).1 = -1.
Proof. split; [exact sample_ft_ok|]. vm_compute. done. Qed.
