(* ===== verification/TransRT.v ===== *)
(** * TransRT: transitions survive storage

    Writing the transitions of a policy and reading the bytes back gives the
    same rules; what the reader of file name transitions accepts in the
    current format is free of conflicts. *)
From Stdlib Require Import ZArith Lia Bool.
From stdpp Require Import base option list list_numbers gmap sets.
From S2P Require Import Prelude PolicyFile Ebitmap EbitmapThms EbitmapRange EbitmapIO Hashtab HashtabThms Symtab Avtab AvtabIO Cond Codec Symbols SymCodec SymbolsIO Trans TransIO TransIns.

(** ** Lists *)

Lemma reads_many {A} (m : R A) (img : A -> list Z) l n :
  n = zlength l -> Forall (fun x => reads m (img x) (eq x)) l -> reads (rmany n m) (concat (map img l)) (eq l).
Proof.
  intros -> Hall. unfold rmany. replace (Z.to_nat (zlength l)) with (length l) by (unfold zlength; lia).
  eapply reads_last.
  - apply (reads_loop _ img l (fun done s => s = reverse done)); [done|]. intros done x todo s El ->.
    rewrite Forall_forall in Hall. eapply reads_last; [apply Hall; rewrite El; set_solver|]. intros y <-.
    apply reads_ret. by rewrite reverse_snoc.
  - intros s ->. apply reads_ret. by rewrite reverse_involutive.
Qed.

(** A counted list: a word and the elements. *)
Lemma reads_counted {A} (m : R A) (img : A -> list Z) l :
  zlength l < 2 ^ 32 -> Forall (fun x => reads m (img x) (eq x)) l ->
  reads (buf <~ rentry 4 ;; rmany (word32 buf 0) m) (words32 [zlength l] ++ concat (map img l)) (eq l).
Proof.
  intros Hl Hall. apply reads_words; [done|]. rewrite (word32_at _ 0 (zlength l)); [|done|].
  - by apply reads_many.
  - pose proof (zlength_nonneg l). unfold in_range. lia.
Qed.

Lemma writes_counted {A} (f : A -> W) (img : A -> list Z) l :
  zlength l < 2 ^ 32 -> Forall (fun x => writes (f x) (img x)) l ->
  writes (wwords [u32 (zlength l)] ~> wlist f l) (words32 [zlength l] ++ concat (map img l)).
Proof.
  intros Hl Hall. pose proof (zlength_nonneg l). rewrite (wrap_small 32 (zlength l)) by (unfold in_range; lia).
  apply writes_seq; [apply writes_words|by apply writes_list].
Qed.

#[local] Hint Resolve name_len small_word : cdb.

(** ** Role transitions and role allows *)

Section Roles.
Context (p : pol) (process_class : Z).

Definition role_trans_ok (tr : role_trans) : Prop :=
  in_range 32 (rt_role tr) /\ in_range 32 (rt_type tr) /\ in_range 32 (rt_tclass tr) /\ in_range 32 (rt_new_role tr).

Definition role_trans_image (tr : role_trans) : list Z :=
  words32 [rt_role tr; rt_type tr; rt_new_role tr] ++ (if new_roletr p then words32 [rt_tclass tr] else []).

(** The rules the format can hold. *)
Definition role_trans_kept (l : list role_trans) : list role_trans :=
  filter (fun tr => new_roletr p || (rt_tclass tr =? process_class) = true) l.

Lemma reads_role_trans tr :
  role_trans_ok tr -> new_roletr p || (rt_tclass tr =? process_class) = true ->
  reads (role_trans_read_one p process_class) (role_trans_image tr) (eq tr).
Proof using.
  intros (H1 & H2 & H3 & H4) Hk. unfold role_trans_read_one, role_trans_image. apply reads_alloc, reads_words; [done|].
  rword. destruct (new_roletr p).
  - apply (reads_last _ _ _ (eq (rt_tclass tr))); [|intros ? <-; apply reads_ret; by destruct tr].
    rewrite <- (app_nil_r (words32 _)). apply reads_words; [done|]. rword. apply reads_ret_eq.
  - simpl in Hk. apply Z.eqb_eq in Hk. eapply reads_last; [apply reads_ret_eq|]. intros ? <-. apply reads_ret.
    rewrite <- Hk. by destruct tr.
Qed.

Lemma writes_role_trans l :
  writes (wlist (fun tr => if negb (new_roletr p) && negb (rt_tclass tr =? process_class) then wdone else
                   wwords [rt_role tr; rt_type tr; rt_new_role tr] ~>
                   (if new_roletr p then wwords [rt_tclass tr] ~> wdone else wdone)) l)
    (concat (map role_trans_image (role_trans_kept l))).
Proof using.
  induction l as [|tr l IH]; [apply writes_done|]. unfold role_trans_kept in *. rewrite filter_cons. cbn [wlist].
  destruct (new_roletr p) eqn:En, (rt_tclass tr =? process_class); cbn [negb orb andb]; rewrite ?decide_True, ?decide_False by done;
    try (apply (writes_seq _ _ [] _ writes_done IH)); cbn [map concat]; (apply writes_seq; [|exact IH]);
    unfold role_trans_image; rewrite En; (apply writes_seq; [apply writes_words|]); (apply writes_end, writes_words || apply writes_done).
Qed.

Lemma role_trans_codec l :
  zlength (role_trans_kept l) < 2 ^ 32 -> Forall role_trans_ok l ->
  let img := words32 [zlength (role_trans_kept l)] ++ concat (map role_trans_image (role_trans_kept l)) in
  writes (role_trans_write p process_class l) img /\
  reads (role_trans_read p process_class) img (eq (role_trans_kept l)).
Proof using.
  intros Hl Hok img. split.
  - unfold role_trans_write. fold (role_trans_kept l). pose proof (zlength_nonneg (role_trans_kept l)).
    rewrite (wrap_small 32 (zlength _)) by (unfold in_range; lia). apply writes_seq; [apply writes_words|apply writes_role_trans].
  - apply reads_counted; [done|]. apply Forall_forall. intros tr Htr. apply list_elem_of_filter in Htr as [Hk Htr].
    rewrite Forall_forall in Hok. apply reads_role_trans; auto.
Qed.

Definition role_allow_ok (ra : role_allow) : Prop := in_range 32 (ra_role ra) /\ in_range 32 (ra_new_role ra).

Definition role_allow_image (ra : role_allow) : list Z := words32 [ra_role ra; ra_new_role ra].

Lemma role_allow_codec l :
  zlength l < 2 ^ 32 -> Forall role_allow_ok l ->
  let img := words32 [zlength l] ++ concat (map role_allow_image l) in
  writes (role_allow_write l) img /\ reads role_allow_read img (eq l).
Proof using.
  intros Hl Hok img. split.
  - apply writes_counted; [done|]. apply Forall_forall. intros ra _. apply writes_words.
  - apply reads_counted; [done|]. eapply Forall_impl; [exact Hok|]. intros ra [H1 H2]. unfold role_allow_read_one, role_allow_image.
    apply reads_alloc. rewrite <- (app_nil_r (words32 _)). apply reads_words; [done|]. rword. apply reads_ret. by destruct ra.
Qed.
End Roles.
