(* ===== verification/TransFt.v ===== *)
(** * TransFt: file name transitions in storage

    The check [filename_trans_check_datum] decides whether the data of a key
    are free of conflicts; both formats of file name transitions are read back
    as they were written. *)
From Stdlib Require Import ZArith Lia Bool Sorting.Sorted.
From stdpp Require Import base option list list_numbers gmap sets.
From S2P Require Import Prelude PolicyFile Ebitmap EbitmapThms EbitmapRange EbitmapIO Hashtab HashtabThms Symtab Avtab AvtabIO Cond Codec Symbols SymCodec SymbolsIO Trans TransIO TransIns TransRT.

(** ** Memory *)

Lemma set_bit_loop_mem_ok prev n bit value sbit hbit high o rc l hi o' :
  set_bit_loop prev n bit value sbit hbit high o = (rc, l, hi, o') -> mem_ok o -> mem_ok o'.
Proof.
  assert (Hins : forall n l, set_bit_insert n bit value sbit hbit high o = (rc, l, hi, o') -> mem_ok o -> mem_ok o').
  { intros n' l'. unfold set_bit_insert. destruct (malloc o) as [ok o1] eqn:E. intros H M.
    pose proof (malloc_mem_ok_next _ _ _ E M). by repeat case_match; simplify_eq. }
  revert prev l. induction n as [|a n IH]; intros prev l; cbn [set_bit_loop]; [by eauto|].
  specialize (IH (Some a)). destruct (set_bit_loop (Some a) n bit value sbit hbit high o) as [[[rc1 l1] hi1] o1] eqn:E.
  intros H M. repeat case_match; simplify_eq; eauto.
Qed.

Lemma set_bit_mem_ok e bit value o rc e' o' : ebitmap_set_bit e bit value o = (rc, e', o') -> mem_ok o -> mem_ok o'.
Proof.
  unfold ebitmap_set_bit. case_match; [by intros; simplify_eq|].
  destruct (set_bit_loop _ _ _ _ _ _ _ _) as [[[rc1 l] hi] o1] eqn:E. intros Heq M. simplify_eq. by eapply set_bit_loop_mem_ok.
Qed.

Lemma or_loop_mem_ok n1 n2 o r o' : or_loop n1 n2 o = (r, o') -> mem_ok o -> mem_ok o'.
Proof.
  revert n2 o r. induction n1 as [|a n1 IH1]; induction n2 as [|b n2 IH2]; intros o r; simpl; [by intros; simplify_eq|..];
    destruct (malloc o) as [ok o1] eqn:E; intros H M; pose proof (malloc_mem_ok_next _ _ _ E M) as M1;
    repeat case_match; simplify_eq; try done;
    match goal with H : cons_res _ ?x = _ |- _ => destruct x as [r1 o2] eqn:E2; simpl in H; simplify_eq end; eauto.
Qed.

Lemma union_mem_ok e1 e2 o rc e' o' : ebitmap_union e1 e2 o = (rc, e', o') -> mem_ok o -> mem_ok o'.
Proof.
  unfold ebitmap_union, ebitmap_or. destruct (or_loop (node e1) (node e2) o) as [[l|] o1] eqn:E; simpl; intros H M; simplify_eq;
    by eapply or_loop_mem_ok.
Qed.

Lemma ebitmap_union_ok e1 e2 o :
  ebitmap_ok e1 -> ebitmap_ok e2 ->
  let '(rc, e, o') := ebitmap_union e1 e2 o in
  (rc = 0 /\ ebitmap_ok e /\ ebitmap_set e = ebitmap_set e1 ∪ ebitmap_set e2) \/ (rc = -1 /\ ~ mem_ok o).
Proof.
  intros H1 H2. pose proof (ebitmap_or_ok e1 e2 o H1 H2) as Hor. unfold ebitmap_union.
  destruct (ebitmap_or e1 e2 o) as [[rc e] o']. destruct Hor as [(-> & ? & ?)|(-> & _ & ?)]; simpl; [by left|by right].
Qed.

(** ** The check *)

(** Output types the check can record. *)
Definition small_otypes (l : list filename_trans_datum) : Prop := Forall (fun d => 0 <= ft_otype d < 2 ^ 32 - 64) l.

Lemma match_any_ctrue e1 e2 :
  ebitmap_ok e1 -> ebitmap_ok e2 -> ctrue (ebitmap_match_any e1 e2) = true <-> ~ ebitmap_set e1 ## ebitmap_set e2.
Proof.
  intros H1 H2. rewrite <- ebitmap_match_any_spec by done.
  assert (Hb : forall n1 n2, match_any_loop n1 n2 = 0 \/ match_any_loop n1 n2 = 1).
  { induction n1 as [|a n1 IH1]; induction n2 as [|b n2 IH2]; simpl; try (by left). repeat case_match; eauto. }
  unfold ebitmap_match_any. by destruct (Hb (node e1) (node e2)) as [-> | ->].
Qed.

Lemma check_datum_loop_complete l stypes otypes o :
  data_ok l -> small_otypes l -> ebitmap_ok stypes -> ebitmap_ok otypes -> mem_ok o ->
  Forall (fun d => ebitmap_set stypes ## ebitmap_set (ft_stypes d) /\ ft_otype d ∉ ebitmap_set otypes) l ->
  exists o', check_datum_loop stypes otypes l o = (0, o') /\ mem_ok o'.
Proof.
  revert stypes otypes o. induction l as [|d l IH]; intros stypes otypes o Hl Hsm Hs Ho M Hf; cbn [check_datum_loop]; [by eauto|].
  destruct Hl as ((Hd & _) & Hap & Hl). apply Forall_cons in Hf as [[Hdis Hno] Hf]. apply Forall_cons in Hsm as [Hb Hsm].
  rewrite get_bit_ctrue, bool_decide_false by done.
  pose proof (ebitmap_set_bit_ok otypes (ft_otype d) 1 o Ho Hb) as Hset.
  destruct (ebitmap_set_bit otypes (ft_otype d) 1 o) as [[rc otypes'] o1] eqn:E1. simpl in Hset.
  pose proof (set_bit_mem_ok _ _ _ _ _ _ _ E1 M) as M1. destruct Hset as [(-> & Ho' & Hos)|(_ & _ & HM)]; [|done].
  cbn [ctrue Z.eqb negb].
  destruct (ctrue (ebitmap_match_any stypes (ft_stypes d))) eqn:E2; [by apply match_any_ctrue in E2|]. clear E2.
  pose proof (ebitmap_union_ok stypes (ft_stypes d) o1 Hs Hd) as Hun.
  destruct (ebitmap_union stypes (ft_stypes d) o1) as [[rc stypes'] o2] eqn:E2.
  pose proof (union_mem_ok _ _ _ _ _ _ E2 M1) as M2. destruct Hun as [(-> & Hs' & Hss)|(_ & HM)]; [|done].
  cbn [ctrue Z.eqb negb]. apply IH; try done. rewrite Hss, Hos. rewrite Forall_forall in *. intros x Hx.
  destruct (Hf x Hx), (Hap x Hx). set_solver.
Qed.

Lemma check_datum_loop_sound l stypes otypes o o' :
  Forall datum_ok l -> ebitmap_ok stypes -> ebitmap_ok otypes -> check_datum_loop stypes otypes l o = (0, o') ->
  data_ok l /\ small_otypes l /\
  Forall (fun d => ebitmap_set stypes ## ebitmap_set (ft_stypes d) /\ ft_otype d ∉ ebitmap_set otypes) l.
Proof.
  revert stypes otypes o. induction l as [|d l IH]; intros stypes otypes o Hall Hs Ho; cbn [check_datum_loop].
  { by repeat split; constructor. }
  apply Forall_cons in Hall as [[Hd Hr] Hall]. rewrite get_bit_ctrue by done. case_bool_decide as Hno; [done|].
  destruct (Z.lt_ge_cases (ft_otype d) (2 ^ 32 - 64)) as [Hlow|Hhigh].
  2:{ rewrite ebitmap_set_bit_overflow by (unfold in_range in Hr; lia). done. }
  assert (Hb : 0 <= ft_otype d < 2 ^ 32 - 64) by (unfold in_range in Hr; lia).
  pose proof (ebitmap_set_bit_ok otypes (ft_otype d) 1 o Ho Hb) as Hset.
  destruct (ebitmap_set_bit otypes (ft_otype d) 1 o) as [[rc otypes'] o1]. simpl in Hset.
  destruct Hset as [(-> & Ho' & Hos)|(-> & _)]; [|done]. cbn [ctrue Z.eqb negb].
  destruct (ctrue (ebitmap_match_any stypes (ft_stypes d))) eqn:Em; [done|].
  assert (Hdis : ebitmap_set stypes ## ebitmap_set (ft_stypes d)).
  { destruct (decide (ebitmap_set stypes ## ebitmap_set (ft_stypes d))) as [|Hn]; [done|].
    apply match_any_ctrue in Hn; [|done..]. congruence. }
  pose proof (ebitmap_union_ok stypes (ft_stypes d) o1 Hs Hd) as Hun.
  destruct (ebitmap_union stypes (ft_stypes d) o1) as [[rc stypes'] o2].
  destruct Hun as [(-> & Hs' & Hss)|(-> & _)]; [|done]. cbn [ctrue Z.eqb negb]. intros E.
  destruct (IH stypes' otypes' o2 Hall Hs' Ho' E) as (Hl & Hsm & Hf). rewrite Hss, Hos in Hf.
  rewrite Forall_forall in Hf. split; [cbn [data_ok]; split_and!; [done| |done]|split; [by constructor|constructor; [done|]]];
    apply Forall_forall; intros x Hx; destruct (Hf x Hx) as [H1 H2]; split; set_solver.
Qed.

(** [filename_trans_check_datum] accepts exactly the data without conflicts
    (whose output types its bitmap can record), unless an allocation fails. *)
Theorem filename_trans_check_datum_spec l o :
  Forall datum_ok l -> mem_ok o ->
  (filename_trans_check_datum l o).1 = 0 <-> data_ok l /\ small_otypes l.
Proof.
  intros Hall M. unfold filename_trans_check_datum. split.
  - intros H. destruct (check_datum_loop _ _ l o) as [rc o'] eqn:E. simpl in H. subst rc.
    by destruct (check_datum_loop_sound l ebitmap_init ebitmap_init o o' Hall ltac:(done) ltac:(done) E) as (? & ? & _).
  - intros [Hl Hsm]. destruct (check_datum_loop_complete l ebitmap_init ebitmap_init o) as (o' & -> & _); try done.
    apply Forall_forall. intros d _. set_solver.
Qed.

Lemma filename_trans_check_datum_witness :
  (filename_trans_check_datum [mk_ft_datum sample_a 1; mk_ft_datum sample_b 2] []).1 = 0 <->
  data_ok [mk_ft_datum sample_a 1; mk_ft_datum sample_b 2] /\ small_otypes [mk_ft_datum sample_a 1; mk_ft_datum sample_b 2].
Proof. apply filename_trans_check_datum_spec; [repeat constructor; concrete|constructor]. Defined.

Lemma set_stype_mem_ok t k pre post d stype o rc pr t' o' :
  ft_set_stype t k pre post d stype o = (rc, pr, t', o') -> mem_ok o -> mem_ok o'.
Proof.
  unfold ft_set_stype. destruct (ebitmap_set_bit _ _ _ _) as [[rc1 e] o1] eqn:E. intros H M. simplify_eq. by eapply set_bit_mem_ok.
Qed.

Lemma filetrans_insert_mem_ok t stype ttype tclass name name_alloc otype o rc pr t' o' :
  policydb_filetrans_insert t stype ttype tclass name name_alloc otype o = (rc, pr, t', o') -> mem_ok o -> mem_ok o'.
Proof.
  unfold policydb_filetrans_insert. intros H M. destruct (ft_walk _ _ _) as [x|pre d post|]; [by simplify_eq|by eapply set_stype_mem_ok|].
  destruct (malloc o) as [ok1 o1] eqn:E1. destruct (malloc_mem_ok _ _ _ E1 M) as [-> M1]. cbn [negb] in H.
  destruct (hashtab_search _ _); [by eapply set_stype_mem_ok|].
  assert (exists o2, (if name_alloc then (true, o1) else malloc o1) = (true, o2) /\ mem_ok o2) as (o2 & E2 & M2).
  { destruct name_alloc; [by eauto|]. destruct (malloc o1) as [ok o2] eqn:E2. destruct (malloc_mem_ok _ _ _ E2 M1) as [-> ?]. eauto. }
  rewrite E2 in H. cbn [negb] in H. destruct (malloc o2) as [ok3 o3] eqn:E3. destruct (malloc_mem_ok _ _ _ E3 M2) as [-> M3]. cbn [negb] in H.
  destruct (hashtab_insert _ _ _ o3) as [[rc1 h1] o4] eqn:E4.
  assert (M4 : mem_ok o4).
  { destruct (ft_table t) as [h|]; [exact (insert_mem_ok _ _ _ _ _ _ _ E4 M3)|]. simpl in E4. by simplify_eq. }
  destruct (ctrue rc1); [by simplify_eq|]. by eapply set_stype_mem_ok.
Qed.

(** ** The rules of a table, as a list *)

Abbreviation ft_rule := (filename_trans_key * Z * Z)%type.

Definition datum_rules (k : filename_trans_key) (d : filename_trans_datum) : list ft_rule :=
  map (fun b => (k, b + 1, ft_otype d)) (nodes_bits (node (ft_stypes d))).

Definition data_rules (k : filename_trans_key) (l : list filename_trans_datum) : list ft_rule :=
  concat (map (datum_rules k) l).

Definition entry_rules (b : filename_trans_key * ft_chain) : list ft_rule := data_rules b.1 (chain_list b.2).

Definition rules_of (l : list (filename_trans_key * ft_chain)) : list ft_rule := concat (map entry_rules l).

Lemma elem_datum_rules k d k' s x :
  (k', s, x) ∈ datum_rules k d <-> k' = k /\ x = ft_otype d /\ s - 1 ∈ ebitmap_set (ft_stypes d).
Proof.
  unfold datum_rules, ebitmap_set. rewrite list_elem_of_fmap, elem_of_list_to_set. split.
  - intros (b & [= -> -> ->] & Hb). by replace (b + 1 - 1) with b by lia.
  - intros (-> & -> & Hb). exists (s - 1). split; [|done]. by replace (s - 1 + 1) with s by lia.
Qed.

Lemma elem_data_rules k l k' s x :
  data_ok l -> (k', s, x) ∈ data_rules k l <-> k' = k /\ data_lookup (s - 1) l = Some x.
Proof.
  unfold data_rules. induction l as [|d l IH]; cbn [map concat data_ok data_lookup].
  - rewrite elem_of_nil. naive_solver.
  - intros (Hd & Hap & Hl). rewrite elem_of_app, elem_datum_rules, IH by done. case_bool_decide as Hb.
    + split; [|naive_solver]. intros [(-> & -> & _)|[-> Hx]]; [done|]. exfalso.
      assert (Hnone : data_lookup (s - 1) l = None).
      { apply data_lookup_None. eapply Forall_impl; [exact Hap|]. intros d' [_ Hdis]. set_solver. }
      congruence.
    + naive_solver.
Qed.

Lemma data_rules_nodup k l : data_ok l -> NoDup (data_rules k l).*1.
Proof.
  unfold data_rules. induction l as [|d l IH]; cbn [map concat data_ok]; [constructor|]. intros ((Hd & _) & Hap & Hl).
  rewrite fmap_app, NoDup_app. split_and!; [| |by apply IH].
  - unfold datum_rules. rewrite <- list_fmap_compose. apply NoDup_fmap_2.
    + intros b b' H. cbn in H. injection H. lia.
    + destruct Hd as [Hn _]. by eapply sorted_lt_NoDup, nodes_bits_sorted.
  - intros [k' s] H1 H2. apply list_elem_of_fmap in H1 as ([[k1 s1] x1] & [= -> ->] & H1).
    apply list_elem_of_fmap in H2 as ([[k2 s2] x2] & [= <- <-] & H2).
    apply elem_datum_rules in H1 as (_ & _ & H1). fold (data_rules k l) in H2. apply elem_data_rules in H2 as [_ H2]; [|done].
    assert (Hnone : data_lookup (s1 - 1) l = None).
    { apply data_lookup_None. eapply Forall_impl; [exact Hap|]. intros d' [_ Hdis]. set_solver. }
    congruence.
Qed.

Lemma rules_of_spec l :
  NoDup l.*1 -> Forall (fun b => data_ok (chain_list b.2)) l ->
  NoDup (rules_of l).*1 /\
  forall k s x, (k, s, x) ∈ rules_of l <-> exists c, (k, c) ∈ l /\ data_lookup (s - 1) (chain_list c) = Some x.
Proof.
  unfold rules_of. induction l as [|[k c] l IH]; cbn [map concat fmap list_fmap].
  - intros _ _. split; [constructor|]. intros k s x. rewrite elem_of_nil. split; [done|]. by intros (c & ?%elem_of_nil & _).
  - intros [Hk ND]%NoDup_cons [Hc Hl]%Forall_cons. destruct (IH ND Hl) as [ND' Hin]. simpl in Hc. split.
    + rewrite fmap_app, NoDup_app. split_and!; [by apply data_rules_nodup| |done].
      intros [k' s] H1 H2. apply list_elem_of_fmap in H1 as ([[k1 s1] x1] & [= -> ->] & H1).
      apply elem_data_rules in H1 as [Hk1 H1]; [|done]. simpl in Hk1. subst k1.
      apply list_elem_of_fmap in H2 as ([[k2 s2] x2] & [= <- <-] & H2). apply Hin in H2 as (c2 & H2 & _).
      apply Hk, list_elem_of_fmap. by exists (k, c2).
    + intros k' s x. rewrite elem_of_app, Hin. unfold entry_rules. simpl. rewrite elem_data_rules by done. split.
      * intros [[-> H]|(c' & H & H')]; [exists c; split; [left|done]|exists c'; split; [by right|done]].
      * intros (c' & H & H'). apply elem_of_cons in H as [[= -> ->]|H]; [by left|right; eauto].
Qed.

(** The rules of a table are the lookups that succeed. *)
Lemma rules_of_table t h :
  ft_table t = Some h -> ft_ok t ->
  NoDup (rules_of (bindings (Some h))).*1 /\
  forall k s, (list_to_map (rules_of (bindings (Some h))) : gmap (filename_trans_key * Z) Z) !! (k, s) = ft_lookup t k s.
Proof.
  intros Ht (h' & Ht' & Hok & Hall). rewrite Ht in Ht'. injection Ht' as <-.
  pose proof (bindings_nodup h Hok) as NDb.
  assert (Hb : forall k c, (k, c) ∈ bindings (Some h) <-> hashtab_abs h !! k = Some c).
  { intros k c. unfold hashtab_abs. apply elem_of_list_to_map. exact NDb. }
  destruct (rules_of_spec (bindings (Some h)) NDb) as [ND Hin].
  { apply Forall_forall. intros [k c] Hkc. apply Hb in Hkc. exact (map_Forall_lookup_1 _ _ _ _ Hall Hkc). }
  split; [done|]. intros k s. apply option_eq. intros x. rewrite <- elem_of_list_to_map, Hin by done.
  unfold ft_lookup, ft_data. rewrite Ht. split.
  - intros (c & Hc & H). apply Hb in Hc. by rewrite Hc.
  - destruct (hashtab_abs h !! k) as [c|] eqn:E; [|done]. intros H. exists c. by rewrite Hb.
Qed.

(** *** Counting *)

Lemma cardinality_bits e : ebitmap_ok e -> ebitmap_cardinality e = zlength (nodes_bits (node e)).
Proof.
  intros He. rewrite ebitmap_cardinality_ok, ebitmap_set_size by done. done.
Qed.

Lemma add_cardinalities_spec k l n :
  Forall datum_ok l -> add_cardinalities l (u32 n) = u32 (n + zlength (data_rules k l)).
Proof.
  revert n. induction l as [|d l IH]; intros n Hl; unfold add_cardinalities; cbn [fold_left].
  { unfold data_rules. simpl. by rewrite Z.add_0_r. }
  apply Forall_cons in Hl as [[Hd _] Hl]. rewrite cardinality_bits by done. unfold data_rules. cbn [map concat].
  rewrite zlength_app. unfold datum_rules at 1. unfold zlength at 2. rewrite length_map. fold (zlength (nodes_bits (node (ft_stypes d)))).
  rewrite Z.add_assoc, wrap_wrap_add by done. exact (IH _ Hl).
Qed.

(** * The two formats of file name transitions

    Policies of version 33 and later store one entry for each key, older ones
    one entry for each rule; either way the rules that are read are the rules
    that were written. *)

#[local] Hint Resolve name_len small_word : cdb.

Definition ft_key_ok (k : filename_trans_key) : Prop :=
  name_ok (ft_name k) /\ in_range 32 (ft_ttype k) /\ in_range 32 (ft_tclass k).

(** ** One entry for each key *)

Definition ft_entry_ok (k : filename_trans_key) (c : ft_chain) : Prop :=
  ft_key_ok k /\ data_ok (chain_list c) /\ zlength (chain_list c) < 2 ^ 32 /\
  (1 < zlength (chain_list c) -> small_otypes (chain_list c)).

Definition datum_image (d : filename_trans_datum) : list Z := ebitmap_image (ft_stypes d) ++ words32 [ft_otype d].

Definition ft_image (k : filename_trans_key) (c : ft_chain) : list Z :=
  words32 [zlength (ft_name k)] ++ ft_name k ++
  words32 [ft_ttype k; ft_tclass k; zlength (chain_list c)] ++ concat (map datum_image (chain_list c)).

Lemma data_ok_Forall l : data_ok l -> Forall datum_ok l.
Proof. induction l as [|d l IH]; [constructor|]. intros (Hd & _ & Hl). constructor; auto. Qed.

Lemma reads_datum d : datum_ok d -> reads filename_trans_datum_read (datum_image d) (eq d).
Proof.
  intros [Hd Ho]. unfold filename_trans_datum_read, datum_image. apply reads_alloc. rmap.
  rewrite <- (app_nil_r (words32 _)). apply reads_words; [done|]. rword. apply reads_ret. by destruct d.
Qed.

Lemma reads_check_datum l n :
  n = zlength l -> data_ok l -> (1 < n -> small_otypes l) -> reads (rcheck_datum n l) [] (fun _ => True).
Proof.
  intros -> Hl Hsm fp rest o Hfp M Hd. unfold rcheck_datum. simpl in Hd. rewrite <- Hd, with_data_same by done.
  destruct (Z.ltb_spec 1 (zlength l)) as [Hlt|_]; [|by exists tt, o].
  destruct (check_datum_loop_complete l ebitmap_init ebitmap_init o) as (o' & E & M'); auto; [done..| |].
  { apply Forall_forall. intros d _. set_solver. }
  unfold filename_trans_check_datum. rewrite E. by exists tt, o'.
Qed.

Lemma reads_ft_one t h k c :
  ft_entry_ok k c -> ft_table t = Some h -> hashtab_ok h -> ht_nel h < 2 ^ 32 - 1 -> hashtab_abs h !! k = None ->
  reads (filename_trans_read_one t) (ft_image k c)
    (fun t' => exists h', ft_table t' = Some h' /\ hashtab_ok h' /\ hashtab_abs h' = <[k := c]> (hashtab_abs h) /\
                          ft_count t' = add_cardinalities (chain_list c) (ft_count t)).
Proof.
  intros ((Hn & Ht1 & Ht2) & Hdat & Hlen & Hsm) Ht Hok Hnel Hk. unfold filename_trans_read_one, ft_image.
  pose proof (zlength_nonneg (chain_list c)). assert (Hlr : in_range 32 (zlength (chain_list c))) by (unfold in_range; lia).
  apply reads_words; [done|]. rword. rstr. apply reads_words; [done|]. rword.
  apply reads_check. { unfold chain_list, zlength. simpl. destruct (Z.eqb_spec (Z.of_nat (S (length c.2))) 0); [lia|done]. }
  eapply reads_last; [apply reads_many; [done|eapply Forall_impl; [by apply data_ok_Forall|apply reads_datum]]|]. intros ? <-.
  apply (reads_step _ _ _ (fun _ => True)); [by apply reads_check_datum|]. intros _ _. apply reads_alloc.
  destruct c as [d l]. cbn [chain_list fst snd]. rewrite Ht. eapply reads_step; [by apply reads_insert|].
  intros t' (h' & -> & Hok' & Habs). apply reads_ret. exists h'. split_and!; [done..| |done].
  rewrite Habs. by destruct k.
Qed.

Lemma writes_ft_one k c : ft_entry_ok k c -> writes (filename_write_one k c) (ft_image k c).
Proof.
  intros ((Hn & _ & _) & Hdat & Hlen & _). unfold filename_write_one, ft_image. pose proof (zlength_nonneg (chain_list c)).
  rewrite name_u32, (wrap_small 32 (zlength (chain_list c))) by (done || unfold in_range; lia).
  apply writes_seq; [apply writes_words|]. apply writes_seq; [apply writes_str|]. apply writes_seq; [apply writes_words|].
  apply writes_list. eapply Forall_impl; [by apply data_ok_Forall|]. intros d [Hd _]. apply writes_seq; [by apply writes_ebitmap|apply writes_words].
Qed.

(** The table after the entries [l] have been read into an empty one. *)
Definition entries_read (l : list (filename_trans_key * ft_chain)) (t : filename_trans) : Prop :=
  exists h, ft_table t = Some h /\ hashtab_ok h /\ hashtab_abs h = list_to_map l /\ ft_count t = u32 (zlength (rules_of l)).

Lemma entries_read_step l k c t :
  NoDup (l ++ [(k, c)]).*1 -> zlength l < 2 ^ 32 - 1 -> ft_entry_ok k c -> entries_read l t ->
  reads (filename_trans_read_one t) (ft_image k c) (entries_read (l ++ [(k, c)])).
Proof.
  intros ND Hl Hkc (h & Ht & Hok & Habs & Hc). rewrite fmap_app, NoDup_app in ND. destruct ND as (ND & Hk & _).
  assert (Hk' : k ∉ l.*1) by (intros Hin; apply (Hk k Hin); simpl; left).
  eapply reads_mono; [apply (reads_ft_one t h k c Hkc Ht Hok)|].
  - rewrite hashtab_nel_size, Habs, map_size_list_to_map by done. unfold zlength in Hl. lia.
  - rewrite Habs. by apply not_elem_of_list_to_map_1.
  - intros t' (h' & Ht' & Hok' & Habs' & Hc'). exists h'. split_and!; [done..| |].
    + rewrite Habs', Habs, list_to_map_snoc by done. done.
    + rewrite Hc', Hc. destruct Hkc as (_ & Hdat & _). rewrite (add_cardinalities_spec k) by (by apply data_ok_Forall).
      f_equal. unfold rules_of. rewrite map_app, concat_app, zlength_app. cbn [map concat]. by rewrite app_nil_r.
Qed.

(** ** One entry for each rule *)

Definition rule_image (r : ft_rule) : list Z :=
  let '(k, s, x) := r in words32 [zlength (ft_name k)] ++ ft_name k ++ words32 [s; ft_ttype k; ft_tclass k; x].

Lemma concat_join {A} (l : list (list (list A))) : concat (concat l) = concat (map (fun x => concat x) l).
Proof. induction l as [|x l IH]; [done|]. cbn [concat map]. by rewrite concat_app, IH. Qed.

Lemma writes_compat_one k c :
  ft_key_ok k -> data_ok (chain_list c) ->
  writes (filename_write_one_compat k c) (concat (map rule_image (entry_rules (k, c)))).
Proof.
  intros (Hn & _ & _) Hdat. unfold filename_write_one_compat, entry_rules, data_rules. cbn [fst snd].
  rewrite concat_map, concat_join, !map_map. apply writes_list. eapply Forall_impl; [by apply data_ok_Forall|].
  intros d [Hd _]. unfold wbits, datum_rules. rewrite for_each_bits, map_map by done. apply writes_list. apply Forall_forall. intros b Hb.
  cbn [rule_image]. rewrite name_u32 by done. rewrite wrap_small by (assert (0 <= b < 2 ^ 32 - 64) by (apply (bits_range (ft_stypes d) b Hd); by apply elem_of_list_to_set); unfold in_range; lia).
  apply writes_seq; [apply writes_words|]. apply writes_seq; [apply writes_str|apply writes_words].
Qed.

Definition rule_ok (r : ft_rule) : Prop :=
  let '(k, s, x) := r in ft_key_ok k /\ 0 < s <= 2 ^ 32 - 64 /\ in_range 32 x.

Lemma reads_compat_one t k s x :
  rule_ok (k, s, x) -> ft_ok t -> nel_of (ft_table t) < 2 ^ 32 - 1 -> ft_lookup t k s = None ->
  reads (filename_trans_read_one_compat t) (rule_image (k, s, x))
    (fun t' => ft_ok t' /\ nel_of (ft_table t') <= nel_of (ft_table t) + 1 /\ ft_added k s x t t' /\
               ft_count t' = u32 (ft_count t + 1)).
Proof.
  intros ((Hn & Ht1 & Ht2) & Hs & Hx) Hok Hnel Hnone. unfold filename_trans_read_one_compat. cbn [rule_image].
  assert (in_range 32 s) by (unfold in_range; lia).
  apply reads_words; [done|]. rword. rstr. rewrite <- (app_nil_r (words32 [s; _; _; _])). apply reads_words; [done|]. rword.
  apply reads_check. { by destruct (Z.eqb_spec s 0); [lia|]. }
  intros fp rest o Hfp M Hd. simpl in Hd. unfold rfiletrans.
  pose proof (filetrans_insert_ok t k s x true o Hok ltac:(lia) Hx) as Hnew. cbv zeta in Hnew. rewrite Hnone in Hnew. unfold ft_insert_new in Hnew.
  destruct (policydb_filetrans_insert _ _ _ _ _ _ _ _) as [[[rc pr] t'] o'] eqn:E.
  pose proof (filetrans_insert_mem_ok _ _ _ _ _ _ _ _ _ _ _ _ E M) as M'.
  destruct Hnew as (-> & Hok' & Hn' & [(-> & Hadd & Hc)|(_ & _ & _ & [HM|[HM|HM]])]); [|done|lia|lia].
  exists t', o'. by rewrite <- Hd, with_data_same.
Qed.

Definition rules_read (l : list ft_rule) (t : filename_trans) : Prop :=
  ft_ok t /\ nel_of (ft_table t) <= zlength l /\ ft_count t = u32 (zlength l) /\
  forall k s, ft_lookup t k s = (list_to_map l : gmap (filename_trans_key * Z) Z) !! (k, s).

Lemma zlength_snoc {A} (l : list A) x : zlength (l ++ [x]) = zlength l + 1.
Proof. by rewrite zlength_app. Qed.

Lemma rules_read_step l r t :
  NoDup (l ++ [r]).*1 -> zlength l < 2 ^ 32 - 1 -> rule_ok r -> rules_read l t ->
  reads (filename_trans_read_one_compat t) (rule_image r) (rules_read (l ++ [r])).
Proof.
  intros ND Hl Hr (Hok & Hn & Hc & Hlk). destruct r as [[k s] x]. rewrite fmap_app, NoDup_app in ND. destruct ND as (ND & Hk & _).
  assert (Hk' : (k, s) ∉ l.*1) by (intros Hin; apply (Hk _ Hin); simpl; left).
  eapply reads_mono; [apply reads_compat_one; [done|done|lia|]|].
  - rewrite Hlk. by apply not_elem_of_list_to_map_1.
  - intros t' (Hok' & Hn' & Hadd & Hc'). split_and!; [done|rewrite zlength_snoc; lia| |].
    + rewrite Hc', Hc, zlength_snoc. by rewrite wrap_wrap_add.
    + intros k' s'. rewrite Hadd, Hlk, list_to_map_snoc by done. case_decide as Hd.
      * destruct Hd as [-> ->]. by rewrite lookup_insert_eq.
      * rewrite lookup_insert_ne by naive_solver. done.
Qed.

(** ** The round trip *)

Section RoundTrip.
Context (p : pol).
Hypothesis Hvers : POLICYDB_VERSION_FILENAME_TRANS <= pol_vers p.

(** A table that can be stored: well-formed, counted, with storable keys. *)
Definition ft_storable (t : filename_trans) : Prop :=
  exists h, ft_table t = Some h /\ ft_ok t /\ zlength (bindings (Some h)) < 2 ^ 32 /\
    ft_count t = zlength (rules_of (bindings (Some h))) /\ ft_count t < 2 ^ 32 /\
    Forall (fun b => ft_entry_ok b.1 b.2) (bindings (Some h)).

Definition ft_table_image (t : filename_trans) : list Z :=
  let l := bindings (ft_table t) in
  if pol_vers p <? POLICYDB_VERSION_COMP_FTRANS then words32 [zlength (rules_of l)] ++ concat (map rule_image (rules_of l))
  else words32 [zlength l] ++ concat (map (fun b => ft_image b.1 b.2) l).

(** The empty table that [policydb_init] creates. *)
Definition ft_empty (t : filename_trans) : Prop :=
  exists h, ft_table t = Some h /\ hashtab_ok h /\ hashtab_abs h = ∅ /\ ft_count t = 0.

Lemma writes_filename_trans t : ft_storable t -> writes (filename_trans_write p t) (ft_table_image t).
Proof using Hvers.
  intros (h & Ht & (h' & Ht' & Hok & _) & Hl & Hc & Hcl & Hall). rewrite Ht in Ht'. injection Ht' as <-.
  unfold filename_trans_write, ft_table_image. destruct (Z.ltb_spec (pol_vers p) POLICYDB_VERSION_FILENAME_TRANS); [lia|].
  rewrite Ht. destruct (pol_vers p <? POLICYDB_VERSION_COMP_FTRANS).
  - rewrite <- Hc. apply writes_seq; [apply writes_words|]. unfold rules_of. rewrite concat_map, concat_join, !map_map.
    rewrite (map_ext _ (fun b => concat (map rule_image (entry_rules (b.1, b.2))))) by (by intros []).
    apply (writes_table (Some h) _ (fun k c => concat (map rule_image (entry_rules (k, c))))).
    eapply Forall_impl; [exact Hall|]. intros [k c] (Hk & Hdat & _). by apply writes_compat_one.
  - simpl nel_of. rewrite (bindings_length h Hok). apply writes_seq; [apply writes_words|].
    apply (writes_table (Some h) filename_write_one ft_image). eapply Forall_impl; [exact Hall|]. intros [k c] Hkc. by apply writes_ft_one.
Qed.

Lemma storable_rules h :
  Forall (fun b => ft_entry_ok b.1 b.2) (bindings (Some h)) -> Forall rule_ok (rules_of (bindings (Some h))).
Proof using.
  intros Hall. unfold rules_of. apply Forall_concat, Forall_map. eapply Forall_impl; [exact Hall|]. intros [k c] (Hk & Hdat & _).
  apply Forall_forall. intros [[k' s] x] Hin. apply elem_data_rules in Hin as [-> Hlk]; [|done]. cbn [fst snd] in *.
  split; [done|]. clear Hk. induction (chain_list c) as [|d l IH]; [done|]. destruct Hdat as ([Hd Ho] & _ & Hl). cbn [data_lookup] in Hlk.
  case_bool_decide as Hb; [|by apply IH]. injection Hlk as <-. split; [|done]. pose proof (bits_range _ _ Hd Hb). lia.
Qed.

Lemma in_range_len {A} (l : list A) : zlength l < 2 ^ 32 -> in_range 32 (zlength l).
Proof. pose proof (zlength_nonneg l). unfold in_range. lia. Qed.

Lemma reads_filename_trans t t0 :
  ft_storable t -> ft_empty t0 ->
  reads (filename_trans_read p t0) (ft_table_image t)
    (fun t' => ft_ok t' /\ ft_same t t' /\ ft_count t' = ft_count t).
Proof using.
  intros (h & Ht & Hft & Hl & Hc & Hcl & Hall) (h0 & Ht0 & Hok0 & Habs0 & Hc0). pose proof (rules_of_table t h Ht Hft) as [ND Hlk].
  destruct Hft as (h' & Ht' & Hok & Hdata). rewrite Ht in Ht'. injection Ht' as <-.
  unfold filename_trans_read, ft_table_image. rewrite Ht. destruct (pol_vers p <? POLICYDB_VERSION_COMP_FTRANS).
  - apply reads_words; [done|]. rewrite Hc in Hcl. rewrite (word32_at _ 0 (zlength (rules_of (bindings (Some h))))) by (done || by apply in_range_len).
    replace (Z.to_nat (zlength _)) with (length (rules_of (bindings (Some h)))) by (unfold zlength; lia).
    eapply reads_mono; [apply (reads_loop _ rule_image _ rules_read)|].
    + split_and!; [exists h0; split_and!; [done..|by rewrite Habs0]| |by rewrite Hc0|].
      * rewrite Ht0. simpl. rewrite hashtab_nel_size, Habs0, map_size_empty by done. done.
      * intros k s. unfold ft_lookup, ft_data. rewrite Ht0, Habs0, lookup_empty. simpl. by rewrite lookup_empty.
    + intros done x todo t1 El Hr. pose proof (storable_rules h Hall) as Hrules. rewrite El in Hcl, Hrules, ND.
      rewrite zlength_app in Hcl. apply Forall_app in Hrules as [_ [Hx _]%Forall_cons].
      rewrite (cons_middle x done todo), app_assoc, fmap_app in ND. apply NoDup_app in ND as (ND & _ & _).
      apply rules_read_step; [done| |done|done]. unfold zlength in *. simpl in Hcl. lia.
    + intros t' (Hok' & _ & Hc' & Hlk'). split_and!; [done| |].
      * intros k s. by rewrite Hlk', Hlk.
      * rewrite Hc', Hc. apply wrap_small. by apply in_range_len.
  - apply reads_words; [done|]. rewrite (word32_at _ 0 (zlength (bindings (Some h)))) by (done || by apply in_range_len).
    replace (Z.to_nat (zlength _)) with (length (bindings (Some h))) by (unfold zlength; lia).
    eapply reads_mono; [apply (reads_loop _ (fun b => ft_image b.1 b.2) _ entries_read)|].
    + exists h0. split_and!; [done..|]. by rewrite Hc0.
    + intros done [k c] todo t1 El Hr. pose proof (bindings_nodup h Hok) as NDb. rewrite El in Hl, Hall, NDb.
      rewrite zlength_app in Hl. apply Forall_app in Hall as [_ [Hx _]%Forall_cons].
      rewrite (cons_middle (k, c) done todo), app_assoc, fmap_app in NDb. apply NoDup_app in NDb as (NDb & _ & _).
      apply entries_read_step; [done| |done|done]. unfold zlength in *. simpl in Hl. lia.
    + intros t' (h' & Ht' & Hok' & Habs' & Hc').
      assert (Heq : hashtab_abs h' = hashtab_abs h) by done. split_and!.
      * exists h'. split_and!; [done..|]. by rewrite Heq.
      * intros k s. unfold ft_lookup, ft_data. by rewrite Ht, Ht', Heq.
      * rewrite Hc', Hc. apply wrap_small, in_range_len. by rewrite <- Hc.
Qed.
End RoundTrip.
