(* ===== verification/TransThms.v ===== *)
(** * TransThms: the transitions of a policy

    Range transitions as a table that is read back; the round trip of file name
    transitions; what the reader of file name transitions accepts. *)
From Stdlib Require Import ZArith Lia Bool Sorting.Sorted.
From stdpp Require Import base option list list_numbers gmap sets.
From S2P Require Import Prelude PolicyFile Ebitmap EbitmapThms EbitmapRange EbitmapIO Hashtab HashtabThms Symtab Avtab AvtabIO Cond Codec Symbols SymCodec SymbolsIO SymbolsThms Trans TransIO TransIns TransRT TransFt.

#[local] Hint Resolve name_len small_word : cdb.

(** ** Range transitions *)

Section Range.
Context (p : pol) (process_class ntypes nclasses : Z).
Hypothesis Hkern : is_kern p = true.
Hypothesis Hvers : POLICYDB_VERSION_RANGETRANS <= pol_vers p.
Hypothesis Htypes : ntypes < 2 ^ 32.
Hypothesis Hclasses : nclasses < 2 ^ 32.

Definition range_ok (k : range_trans) (r : mls_range) : Prop :=
  0 < rg_source k <= ntypes /\ 0 < rg_target k <= ntypes /\ 0 < rg_class k <= nclasses /\
  level_ok (level0 r) /\ level_ok (level1 r).

Definition range_trans_image (k : range_trans) (r : mls_range) : list Z :=
  words32 [rg_source k; rg_target k] ++ words32 [rg_class k] ++ range_image r.

Lemma value_isvalid_ok v n : 0 < v <= n -> value_isvalid v n = true.
Proof. unfold value_isvalid, ctrue. destruct (Z.eqb_spec v 0), (Z.ltb_spec n v); simpl; lia. Qed.

Lemma new_rangetr_kern : new_rangetr p = true.
Proof using Hkern Hvers. unfold new_rangetr. rewrite Hkern. by apply Z.leb_le. Qed.

#[global] Instance range_codec :
  SymCodec (range_read_one p process_class ntypes nclasses) (range_write_helper p process_class) range_trans_image range_ok
    (fun _ => true) eq.
Proof using Hkern Hvers Htypes Hclasses.
  split.
  - intros k r (_ & _ & _ & H0 & H1). unfold range_write_helper, range_trans_image. rewrite new_rangetr_kern. cbn [negb andb].
    apply writes_seq; [apply writes_words|]. apply writes_seq; [apply writes_words|]. apply writes_end. by apply writes_range.
  - intros k r h (Hs & Ht & Hc & H0 & H1) Hok Hnel Hfresh. unfold range_read_one, range_trans_image.
    assert (in_range 32 (rg_source k)) by (unfold in_range; lia). assert (in_range 32 (rg_target k)) by (unfold in_range; lia).
    assert (in_range 32 (rg_class k)) by (unfold in_range; lia).
    apply (reads_last _ _ _ (eq (k, r))).
    + unfold range_read_entry. apply reads_alloc, reads_words; [done|]. rword.
      apply reads_check; [by apply value_isvalid_ok|]. apply reads_check; [by apply value_isvalid_ok|].
      rewrite new_rangetr_kern. apply (reads_bind _ _ _ _ (eq (rg_class k))).
      { rewrite <- (app_nil_r (words32 _)). apply reads_words; [done|]. rword. apply reads_ret_eq. }
      intros ? <-. apply reads_check; [by apply value_isvalid_ok|]. apply reads_alloc.
      eapply reads_last; [by apply reads_range|]. intros ? <-. apply reads_ret. by destruct k.
    + intros ? <-. cbn [fst snd]. eapply reads_mono; [apply reads_insert; [done|done|by apply Hfresh]|].
      intros t (h' & -> & Hok' & Habs). exists h'. split_and!; [done..|]. by exists r.
Qed.

Lemma rangetrans_count_all (h : hashtab range_trans mls_range) n :
  (hashtab_map (Some h) (rangetrans_count p process_class) n).2 = n + zlength (concat (htable h)).
Proof using Hkern Hvers.
  unfold hashtab_map. rewrite table_map_flat. generalize (concat (htable h)). intros l. revert n.
  induction l as [|[k r] l IH]; intros n; cbn [chain_map]; [unfold zlength; simpl; lia|].
  unfold rangetrans_count at 1. rewrite new_rangetr_kern. cbn [orb ctrue Z.eqb negb]. rewrite IH. unfold zlength. simpl. lia.
Qed.

(** A table of range transitions, written and read into an empty table. *)
Lemma range_table_codec h h0 :
  hashtab_ok h -> ht_nel h < 2 ^ 32 -> Forall (fun b => range_ok b.1 b.2) (bindings (Some h)) ->
  hashtab_ok h0 -> hashtab_abs h0 = ∅ ->
  let img := words32 [ht_nel h] ++ table_image range_trans_image (Some h) in
  writes (range_write p process_class (Some h)) img /\
  reads (range_read p process_class ntypes nclasses (Some h0)) img
    (fun r => exists h', r = (Some h', []) /\ hashtab_ok h' /\ hashtab_abs h' = hashtab_abs h).
Proof using Hkern Hvers Htypes Hclasses.
  intros Hok Hn Hall Hok0 Habs0 img.
  assert (Hnel : in_range 32 (ht_nel h)) by (destruct Hok as (_ & _ & E & _); unfold in_range; lia). split.
  - unfold range_write. rewrite rangetrans_count_all. rewrite Z.add_0_l.
    rewrite <- (bindings_length h Hok : ht_nel h = zlength (concat (htable h))).
    rewrite wrap_small by done. apply writes_seq; [apply writes_words|]. by apply writes_symbols.
  - unfold range_read, img. apply reads_words; [done|]. rewrite (word32_at _ 0 (ht_nel h)) by done. rewrite Hkern.
    eapply reads_last; [apply (reads_symbols (codec := range_codec) h h0)|]; try done.
    + rewrite (hashtab_nel_size h0), Habs0, map_size_empty by done. lia.
    + intros k _ _. by rewrite Habs0, lookup_empty.
    + intros t (h' & -> & Hok' & Hadd). apply reads_ret. exists h'. split_and!; [done..|]. by apply (table_added_eq h0).
Qed.
End Range.

(** ** What the reader of file name transitions accepts *)

Lemma sound_insert {K D} `{!EqDecision K, !Countable K, !KeyOps K, !KeyLaws K} (h : hashtab K D) k d :
  hashtab_ok h ->
  sound (rinsert (Some h) k d) (fun t => exists h', t = Some h' /\ hashtab_ok h' /\ hashtab_abs h' = <[k := d]> (hashtab_abs h)).
Proof.
  intros Hok fp o t fp' o' Hb E. unfold rinsert in E. pose proof (hashtab_insert_ok h k d o Hok) as Hp.
  destruct (hashtab_insert (Some h) k d o) as [[rc t1] o1]. destruct Hp as (h2 & -> & Hok2 & [(-> & _ & Habs)|[(-> & _)|(-> & _)]]); simpl in E; simplify_eq.
  split; [|done]. eauto.
Qed.

Lemma sound_many {A} n (m : R A) (P : A -> Prop) : sound m P -> sound (rmany n m) (fun l => Forall P l /\ zlength l = Z.max 0 n).
Proof.
  intros Hm. unfold rmany. eapply (sound_bind _ _ (fun l => Forall P l /\ zlength l = Z.max 0 n)).
  - cut (forall k l, Forall P l -> sound (rloop k (fun l => x <~ m ;; rret (x :: l)) l) (fun l' => Forall P l' /\ zlength l' = zlength l + Z.of_nat k)).
    { intros H. eapply sound_mono; [apply H; constructor|]. intros l [? Hl]. split; [done|]. rewrite Hl. unfold zlength. simpl. lia. }
    induction k as [|k IH]; intros l Hl; cbn [rloop]; [apply sound_ret; split; [done|lia]|].
    eapply (sound_bind _ _ (fun l' => exists x, l' = x :: l /\ P x)).
    + eapply sound_bind; [exact Hm|]. intros x Hx. apply sound_ret. eauto.
    + intros ? (x & -> & Hx). eapply sound_mono; [apply IH; by constructor|]. intros l' [? Hl']. split; [done|].
      rewrite Hl'. unfold zlength. simpl. lia.
  - intros l [Hl Hn]. apply sound_ret. split; [by apply Forall_reverse|]. unfold zlength in *. by rewrite length_reverse.
Qed.

Lemma sound_datum : sound filename_trans_datum_read datum_ok.
Proof.
  unfold filename_trans_datum_read. eapply sound_bind; [apply sound_alloc|]. intros _ _.
  eapply sound_bind; [apply sound_ebitmap|]. intros e He. eapply sound_bind; [apply sound_entry|]. intros buf [Hb _].
  apply sound_ret. split; [done|]. by apply word32_range.
Qed.

Lemma sound_check_datum n l :
  Forall datum_ok l -> n = zlength l -> sound (rcheck_datum n l) (fun _ => data_ok l).
Proof.
  intros Hl -> fp o u fp' o' Hb E. unfold rcheck_datum in E. destruct (Z.ltb_spec 1 (zlength l)) as [Hlt|Hle].
  - destruct (filename_trans_check_datum l o) as [rc o1] eqn:Ec. destruct (ctrue rc) eqn:Hrc; [done|]. simplify_eq.
    apply ctrue_false in Hrc. subst rc. split; [|done].
    by destruct (check_datum_loop_sound l ebitmap_init ebitmap_init o o' Hl ltac:(done) ltac:(done) Ec).
  - simplify_eq. split; [|done]. destruct l as [|d [|d' l]]; [done| |unfold zlength in Hle; simpl in Hle; lia].
    rewrite Forall_singleton in Hl. cbn [data_ok]. split; [exact Hl|]. split; [constructor|done].
Qed.

Lemma filename_trans_read_ok p t0 :
  ft_ok t0 -> POLICYDB_VERSION_COMP_FTRANS <= pol_vers p -> sound (filename_trans_read p t0) ft_ok.
Proof.
  intros H0 Hv. unfold filename_trans_read. destruct (Z.ltb_spec (pol_vers p) POLICYDB_VERSION_COMP_FTRANS); [lia|].
  eapply sound_bind; [by apply (sound_words _ (fun _ => True))|]. intros buf _. apply sound_loop; [done|].
  intros t (h & Ht & Hok & Hall). unfold filename_trans_read_one.
  eapply sound_bind; [by apply (sound_words _ (fun _ => True))|]. intros b1 _.
  eapply sound_bind; [apply sound_str|]. intros name _.
  eapply sound_bind; [apply sound_entry|]. intros b2 [Hb2 _]. cbv zeta.
  eapply sound_bind; [apply sound_check|]. intros [] Hnz.
  eapply sound_bind; [apply (sound_many _ _ _ sound_datum)|]. intros l [Hl Hlen].
  assert (Hn : in_range 32 (word32 b2 2)) by (by apply word32_range). unfold in_range in Hn.
  eapply sound_bind; [apply sound_check_datum; [done|lia]|]. intros [] Hdat.
  eapply sound_bind; [apply sound_alloc|]. intros _ _. destruct l as [|d l]; [apply sound_fail|].
  rewrite Ht. eapply sound_bind; [by apply sound_insert|]. intros t1 (h' & -> & Hok' & Habs). apply sound_ret.
  exists h'. split_and!; [done..|]. rewrite Habs. by apply map_Forall_insert_2.
Qed.

(** in the current format, whatever the bytes are, the table of file name
    transitions that is read is well-formed and free of conflicts: the data of
    a key have different output types and no common source type. *)
Theorem filename_trans_read_sound p t0 :
  ft_ok t0 -> POLICYDB_VERSION_COMP_FTRANS <= pol_vers p -> sound (filename_trans_read p t0) ft_ok.
Proof. apply filename_trans_read_ok. Qed.

(** ** The round trip of file name transitions *)

(** writing the file name transitions of a policy and reading them into an
    empty table gives the same rules, in both formats (one entry for each key
    from version 33 on, one for each rule before), and the same count. *)
Theorem filename_trans_roundtrip p t t0 fp rest o :
  POLICYDB_VERSION_FILENAME_TRANS <= pol_vers p ->
  ft_storable t -> ft_empty t0 -> pf_ty fp <> PF_LEN -> pf_out fp = [] -> mem_ok o -> room fp (zlength (ft_table_image p t)) ->
  exists out t' o', filename_trans_write p t fp = (POLICYDB_SUCCESS, out) /\
    filename_trans_read p t0 (mem_file (pf_out out ++ rest)) o = (Some t', mem_file rest, o') /\
    ft_ok t' /\ ft_same t t' /\ ft_count t' = ft_count t.
Proof.
  intros Hv Ht H0 Hty Hout M Hlen.
  destruct (reads_filename_trans p t t0 Ht H0 (mem_file (ft_table_image p t ++ rest)) rest o) as (t' & o' & E & _ & Hq); [done..|].
  exists (wrote fp (ft_table_image p t)), t', o'. split; [by apply writes_filename_trans|].
  by rewrite wrote_out, Hout, app_nil_l, E.
Qed.

Definition ft_none : filename_trans := mk_filename_trans (Some (mk_hashtab (replicate 4 []) 4 0)) 0.

Lemma ft_none_empty : ft_empty ft_none.
Proof. eexists. split_and!; try done. split_and!; try done. by repeat (split; [by repeat constructor|]). Qed.

Lemma sample_ft_key_ok : ft_key_ok sample_ft_key.
Proof. split; [|by split]. split; [done|]. split; [done|]. apply Forall_singleton. lia. Qed.

Lemma sample_ft_storable : ft_storable sample_ft.
Proof.
  eexists. split; [done|]. split; [apply sample_ft_ok|]. split_and!; try done.
  constructor; [|constructor]. split; [exact sample_ft_key_ok|]. split_and!; try done.
  - destruct sample_ft_ok as (h & [= <-] & _ & Hall). apply (map_Forall_lookup_1 _ _ sample_ft_key _ Hall). by vm_compute.
  - intros _. repeat constructor; simpl; lia.
Qed.

Lemma filename_trans_roundtrip_witness :
  exists out t' o', filename_trans_write (mk_pol POLICY_KERN 30 true) sample_ft (mk_policy_file PF_USE_MEMORY [] 4096 [] []) = (POLICYDB_SUCCESS, out) /\
    filename_trans_read (mk_pol POLICY_KERN 30 true) ft_none (mem_file (pf_out out ++ [7])) [] = (Some t', mem_file [7], o') /\
    ft_ok t' /\ ft_same sample_ft t' /\ ft_count t' = ft_count sample_ft.
Proof.
  apply filename_trans_roundtrip; [done|exact sample_ft_storable|exact ft_none_empty|done|done|constructor|].
  split; [apply Z.leb_le|apply Z.ltb_lt]; vm_compute; reflexivity.
Defined.

Lemma ft_none_ok : ft_ok ft_none.
Proof. destruct ft_none_empty as (h & ? & ? & E & _). exists h. split_and!; [done..|]. rewrite E. apply map_Forall_empty. Qed.

Lemma filename_trans_read_sound_witness : sound (filename_trans_read (mk_pol POLICY_KERN 33 true) ft_none) ft_ok.
Proof. apply (filename_trans_read_sound (mk_pol POLICY_KERN 33 true) ft_none); [exact ft_none_ok|vm_compute; discriminate]. Defined.
