(* ===== verification/Index.v ===== *)
(** * Index: from values to symbols, and the sets of types and roles

    The index arrays of a policy (libsepol/src/policydb.c): for every kind of
    symbol an array from values to names, for classes, roles, users and types
    one from values to the symbols.  The expansion of sets of types, roles and
    levels (libsepol/src/expand.c), which the caches of roles and users are
    filled with.

    A pointer to the datum of a symbol is modelled by the name of the symbol
    with the datum; the [cache] of a role or user is kept apart, under its
    name. *)
From Stdlib Require Import ZArith Lia Bool.
From stdpp Require Import base option list list_numbers gmap sets.
From S2P Require Import Prelude PolicyFile Ebitmap EbitmapThms EbitmapIO Hashtab HashtabThms Symtab Avtab AvtabIO Cond Codec Symbols.

Definition TYPE_STAR : Z := 1.
Definition TYPE_COMP : Z := 2.
Definition ROLE_STAR : Z := 1.
Definition ROLE_COMP : Z := 2.
Definition TYPE_FLAGS_EXPAND_ATTR_TRUE : Z := 2.

(** ** The index arrays *)

Abbreviation names := (list (option cstring)).
Abbreviation structs D := (list (option (cstring * D))).

(** The common part of the [*_index] functions: [value] must be valid and its
    place in the array of names free; then the name is stored, and with it the
    pointer to the datum where there is an array for it.  [None]: the place is
    outside an array. *)
Definition index_name (nprim value : Z) (k : cstring) (st : names) : option (Z * names) :=
  if negb (value_isvalid value nprim) then Some (- EINVAL, st) else
  old ← st !! Z.to_nat (value - 1);
  Some (match old with
        | Some _ => (- EINVAL, st)
        | None => (0, <[Z.to_nat (value - 1) := Some k]> st)
        end).

Definition index_struct {D} (nprim value : Z) (k : cstring) (d : D) (st : names * structs D) : option (Z * (names * structs D)) :=
  '(rc, n) ← index_name nprim value k st.1;
  if ctrue rc then Some (rc, (n, st.2)) else
  _ ← st.2 !! Z.to_nat (value - 1);
  Some (rc, (n, <[Z.to_nat (value - 1) := Some (k, d)]> st.2)).

Definition common_index (nprim : Z) (k : cstring) (d : common_datum) (st : names) : option (Z * names) :=
  index_name nprim (com_value d) k st.

Definition class_index (nprim : Z) (k : cstring) (d : class_datum) (st : names * structs class_datum) :
    option (Z * (names * structs class_datum)) := index_struct nprim (cla_value d) k d st.

Definition role_index (nprim : Z) (k : cstring) (d : role_datum) (st : names * structs role_datum) :
    option (Z * (names * structs role_datum)) := index_struct nprim (role_value d) k d st.

Definition type_index (nprim : Z) (k : cstring) (d : type_datum) (st : names * structs type_datum) :
    option (Z * (names * structs type_datum)) :=
  if ctrue (type_primary d) then index_struct nprim (type_value d) k d st else Some (0, st).

Definition user_index (nprim : Z) (k : cstring) (d : user_datum) (st : names * structs user_datum) :
    option (Z * (names * structs user_datum)) := index_struct nprim (user_value d) k d st.

Definition sens_index (nprim : Z) (k : cstring) (d : level_datum) (st : names) : option (Z * names) :=
  if negb (ctrue (lev_isalias d)) then index_name nprim (sens (lev_level d)) k st else Some (0, st).

Definition cat_index (nprim : Z) (k : cstring) (d : cat_datum) (st : names) : option (Z * names) :=
  if negb (ctrue (cat_isalias d)) then index_name nprim (cat_value d) k st else Some (0, st).

(** [calloc(nprim, sizeof(...))]. *)
Definition calloc_array {A} (nprim : Z) (o : oracle) : option (list (option A)) * oracle :=
  let '(ok, o) := malloc o in ((if ok then Some (replicate (Z.to_nat nprim) None) else None), o).

(** The arrays [policydb_index_classes] fills. *)
Record class_indexes := mk_class_indexes {
  p_common_val_to_name : names; p_class_val_to_name : names; class_val_to_struct : structs class_datum }.

Definition policydb_string_to_security_class (s : symbols) (class_name : cstring) : Z :=
  match hashtab_search (st_table (p_classes s)) class_name with
  | None => 0
  | Some d => cla_value d
  end.

(** [None]: the array has no entry for [tclass], the code follows a null
    pointer. *)
Definition policydb_string_to_av_perm (s : symbols) (ci : class_indexes) (tclass : Z) (perm_name : cstring) : option Z :=
  if negb (ctrue tclass) || (st_nprim (p_classes s) <? tclass) then Some 0 else
  match class_val_to_struct ci !! Z.to_nat (tclass - 1) with
  | Some (Some (_, c)) =>
      let bit p := u32 (Z.shiftl 1 (perm_value p - 1)) in
      match hashtab_search (st_table (cla_permissions c)) perm_name with
      | Some p => Some (bit p)
      | None =>
          match cla_comkey c with
          | None => Some 0
          | Some ck =>
              match hashtab_search (st_table (p_commons s)) ck with
              | None => Some 0
              | Some com =>
                  match hashtab_search (st_table (com_permissions com)) perm_name with
                  | Some p => Some (bit p)
                  | None => Some 0
                  end
              end
          end
      end
  | _ => None
  end.

(** ** Computations that allocate, fail, or go wrong *)

(** [None]: the code reads outside an array or follows a null pointer (or an
    assertion fails); [Some (None, _)]: it returns -1. *)
Definition X (A : Type) : Type := oracle -> option (option A * oracle).

Definition xret {A} (a : A) : X A := fun o => Some (Some a, o).
Definition xfail {A} : X A := fun o => Some (None, o).
Definition xfault {A} : X A := fun o => None.
Definition xbind {A B} (m : X A) (k : A -> X B) : X B :=
  fun o => match m o with
           | None => None
           | Some (None, o) => Some (None, o)
           | Some (Some a, o) => k a o
           end.
Notation "x <- m ;;; k" := (xbind m (fun x => k)) (at level 100, m at next level, right associativity).

(** [if (ebitmap_set_bit(&e, bit, value)) goto err], and [ebitmap_union]. *)
Definition xset (e : ebitmap) (bit value : Z) : X ebitmap :=
  fun o => let '(rc, e, o) := ebitmap_set_bit e bit value o in Some ((if ctrue rc then None else Some e), o).
Definition xunion (dst e : ebitmap) : X ebitmap :=
  fun o => let '(rc, e, o) := ebitmap_union dst e o in Some ((if ctrue rc then None else Some e), o).
Definition xcpy (e : ebitmap) : X ebitmap :=
  fun o => let '(rc, e, o) := ebitmap_cpy e o in Some ((if ctrue rc then None else Some e), o).

Fixpoint xfold {A S} (f : A -> S -> X S) (l : list A) (s : S) : X S :=
  match l with
  | [] => xret s
  | a :: l => s <- f a s ;;; xfold f l s
  end.

(** [ebitmap_for_each_positive_bit] and [for (i = 0; i < n; i++)]. *)
Definition xbits {S} (e : ebitmap) (f : Z -> S -> X S) (s : S) : X S :=
  match for_each_positive_bit e with
  | None => xfault
  | Some l => xfold f l s
  end.
Definition xupto {S} (n : Z) (f : Z -> S -> X S) (s : S) : X S := xfold f (seqZ 0 n) s.

(** ** Expansion of sets *)

Section Expand.
Context (nprim : Z) (tvs : structs type_datum).

(** [p->type_val_to_struct[i] && p->type_val_to_struct[i]->flavor == TYPE_ATTRIB]. *)
Definition is_attrib (t : option (cstring * type_datum)) : bool :=
  match t with Some (_, d) => type_flavor d =? TYPE_ATTRIB | None => false end.

Definition expand_type (expand : bool) (i : Z) (types : ebitmap) : X ebitmap :=
  if nprim <=? i then xfail else
  match tvs !! Z.to_nat i with
  | None => xfault
  | Some None => xfail
  | Some (Some (_, d)) =>
      if (type_flavor d =? TYPE_ATTRIB) && (expand || ctrue (Z.land (type_flags d) TYPE_FLAGS_EXPAND_ATTR_TRUE))
      then xunion types (type_types d) else xset types i 1
  end.

Definition expand_neg (i : Z) (neg_types : ebitmap) : X ebitmap :=
  match tvs !! Z.to_nat i with
  | None => xfault
  | Some None => xset neg_types i 1
  | Some (Some (_, d)) => if type_flavor d =? TYPE_ATTRIB then xunion neg_types (type_types d) else xset neg_types i 1
  end.

Definition expand_star (neg_types : ebitmap) (i : Z) (t : ebitmap) : X ebitmap :=
  if ctrue (ebitmap_get_bit neg_types i) then xret t else
  match tvs !! Z.to_nat i with
  | None => xfault
  | Some d => if is_attrib d then xret t else xset t i 1
  end.

Definition expand_comp (i : Z) (t : ebitmap) : X ebitmap :=
  match tvs !! Z.to_nat i with
  | None => xfault
  | Some d =>
      if is_attrib d then if ctrue (ebitmap_get_bit t i) then xfault else xret t
      else if ctrue (ebitmap_get_bit t i) then xset t i 0 else xset t i 1
  end.

Definition type_set_expand (set : type_set) (alwaysexpand : bool) : X ebitmap :=
  let expand := alwaysexpand || negb (ebitmap_is_empty (ts_negset set)) || ctrue (ts_flags set) in
  types <- xbits (ts_types set) (expand_type expand) ebitmap_init ;;;
  neg_types <- xbits (ts_negset set) expand_neg ebitmap_init ;;;
  if ctrue (Z.land (ts_flags set) TYPE_STAR) then xupto nprim (expand_star neg_types) ebitmap_init
  else
    t <- xbits types (fun i t => if ctrue (ebitmap_get_bit neg_types i) then xret t else xset t i 1) ebitmap_init ;;;
    if ctrue (Z.land (ts_flags set) TYPE_COMP) then xupto nprim expand_comp t else xret t.
End Expand.

(** [role_set_expand] as [policydb_user_cache] calls it, without a role map. *)
Definition role_set_expand (nroles : Z) (x : role_set) : X ebitmap :=
  if ctrue (Z.land (rs_flags x) ROLE_STAR) then xupto nroles (fun i r => xset r i 1) ebitmap_init
  else
    mapped_roles <- xcpy (rs_roles x) ;;;
    r <- xbits mapped_roles (fun i r => xset r i 1) ebitmap_init ;;;
    if ctrue (Z.land (rs_flags x) ROLE_COMP) then
      xupto nroles (fun i r => if ctrue (ebitmap_get_bit r i) then xset r i 0 else xset r i 1) r
    else xret r.

(** [mls_level_dom(l1, l2)]. *)
Definition mls_level_dom (l1 l2 : mls_level) : bool := (sens l2 <=? sens l1) && ctrue (ebitmap_contains (cat l1) (cat l2)).

Section Levels.
Context (mls : bool) (levels : symtab level_datum) (sens_names cat_names : names).

(** The arguments of the message about an invalid range of categories. *)
Definition cat_range_names (c : mls_semantic_cat) : X unit :=
  let name v := if 0 <? v then match cat_names !! Z.to_nat (v - 1) with Some _ => true | None => false end else true in
  if name (cat_low c) && name (cat_high c) then xret tt else xfault.

Definition expand_cat (avail : ebitmap) (c : mls_semantic_cat) (e : ebitmap) : X ebitmap :=
  if negb (ctrue (cat_low c)) || (cat_high c <? cat_low c) then _ <- cat_range_names c ;;; xfail else
  xfold (fun i e => if negb (ctrue (ebitmap_get_bit avail i)) then
                      match cat_names !! Z.to_nat i with Some _ => xfail | None => xfault end
                    else xset e i 1)
    (seqZ (cat_low c - 1) (cat_high c - cat_low c + 1)) e.

Definition mls_semantic_level_expand (sl : mls_semantic_level) : X mls_level :=
  if negb mls then xret empty_level
  else if negb (ctrue (ssens sl)) then xret empty_level
  else if st_nprim levels <? ssens sl then xfail
  else match sens_names !! Z.to_nat (ssens sl - 1) with
       | None => xfault
       | Some None => xfail
       | Some (Some key) =>
           match hashtab_search (st_table levels) key with
           | None => xfail
           | Some levdatum =>
               e <- xfold (expand_cat (cat (lev_level levdatum))) (scat sl) ebitmap_init ;;;
               xret (mk_mls_level (ssens sl) e)
           end
       end.

Definition mls_semantic_range_expand (sr : mls_semantic_range) : X mls_range :=
  l0 <- mls_semantic_level_expand (slevel0 sr) ;;;
  l1 <- mls_semantic_level_expand (slevel1 sr) ;;;
  if negb (mls_level_dom l1 l0) then xfail else xret (mk_mls_range l0 l1).
End Levels.

(** ** The other indexes and the caches *)

(** What [policydb_user_cache] leaves in a user. *)
Record user_cache := mk_user_cache { uc_roles : ebitmap; uc_range : mls_range; uc_dfltlevel : mls_level }.

Record indexes := mk_indexes {
  ix_roles : names * structs role_datum; ix_types : names * structs type_datum; ix_users : names * structs user_datum;
  ix_bools : names * bools; ix_sens : names; ix_cats : names;
  role_caches : gmap cstring ebitmap; user_caches : gmap cstring user_cache }.

Definition xcalloc {A} (n : Z) : X (list (option A)) :=
  fun o => let '(a, o) := calloc_array n o in Some (a, o).

(** [hashtab_map(table, f, p)], leaving with an error when [f] fails. *)
Definition xtable {D S} (h : option (hashtab cstring D)) (f : cstring -> D -> S -> X S) (s : S) : X S :=
  xfold (fun b s => f b.1 b.2 s) (bindings h) s.

(** The same around one of the [*_index] functions: the state is [None] once a
    place outside an array was used. *)
Definition stepping {D S} (f : cstring -> D -> S -> option (Z * S)) (k : cstring) (d : D) (st : option S) : Z * option S :=
  match s ← st; f k d s with
  | Some (rc, s) => (rc, Some s)
  | None => (-1, None)
  end.

Definition xindex {D S} (h : option (hashtab cstring D)) (f : cstring -> D -> S -> option (Z * S)) (s : S) : X S :=
  match hashtab_map h (stepping f) (Some s) with
  | (_, None) => xfault
  | (rc, Some s) => if ctrue rc then xfail else xret s
  end.

Definition policydb_index_classes (s : symbols) : X class_indexes :=
  commons <- xcalloc (st_nprim (p_commons s)) ;;;
  commons <- xindex (st_table (p_commons s)) (common_index (st_nprim (p_commons s))) commons ;;;
  cs <- xcalloc (st_nprim (p_classes s)) ;;;
  cn <- xcalloc (st_nprim (p_classes s)) ;;;
  st <- xindex (st_table (p_classes s)) (class_index (st_nprim (p_classes s))) (cn, cs) ;;;
  xret (mk_class_indexes commons st.1 st.2).

(** One turn of the loop over the symbol tables: nothing is allocated or
    indexed for a kind of symbol with no values. *)
Definition index_names {D S} (t : symtab D) (f : cstring -> D -> names * S -> option (Z * (names * S))) (s : S) : X (names * S) :=
  if ctrue (st_nprim t) then n <- xcalloc (st_nprim t) ;;; xindex (st_table t) f (n, s) else xret ([], s).

(** An index function without an array of symbols. *)
Definition names_only {D} (f : cstring -> D -> names -> option (Z * names)) (k : cstring) (d : D) (st : names * unit) : option (Z * (names * unit)) :=
  '(rc, n) ← f k d st.1; Some (rc, (n, tt)).

Definition bool_index (nprim : Z) (k : cstring) (d : cond_bool_datum) (st : names * bools) : option (Z * (names * bools)) :=
  '(rc, n, b) ← cond_index_bool nprim k d st.1 st.2; Some (rc, (n, b)).

Section Others.
Context (p : pol) (mls : bool) (s : symbols).

Definition policydb_role_cache (types : structs type_datum) (k : cstring) (role : role_datum) (caches : gmap cstring ebitmap) :
    X (gmap cstring ebitmap) :=
  cache <- type_set_expand (st_nprim (p_types s)) types (role_types role) true ;;; xret (<[k := cache]> caches).

Definition policydb_user_cache (sens_names cat_names : names) (k : cstring) (user : user_datum)
    (caches : gmap cstring user_cache) : X (gmap cstring user_cache) :=
  roles <- role_set_expand (st_nprim (p_roles s)) (user_roles user) ;;;
  if negb (is_kern p) && negb (policy_type p =? POLICY_MOD) then
    range <- mls_semantic_range_expand mls (p_levels s) sens_names cat_names (user_range user) ;;;
    dflt <- mls_semantic_level_expand mls (p_levels s) sens_names cat_names (user_dfltlevel user) ;;;
    xret (<[k := mk_user_cache roles range dflt]> caches)
  else xret (<[k := mk_user_cache roles (user_exp_range user) (user_exp_dfltlevel user)]> caches).

Definition xbool_structs (nprim : Z) : X bools := fun o => let '(b, o) := cond_init_bool_indexes nprim o in Some (b, o).

Definition policydb_index_others : X indexes :=
  role_structs <- xcalloc (st_nprim (p_roles s)) ;;;
  user_structs <- xcalloc (st_nprim (p_users s)) ;;;
  type_structs <- xcalloc (st_nprim (p_types s)) ;;;
  bool_structs <- xbool_structs (st_nprim (p_bools s)) ;;;
  roles <- index_names (p_roles s) (role_index (st_nprim (p_roles s))) role_structs ;;;
  types <- index_names (p_types s) (type_index (st_nprim (p_types s))) type_structs ;;;
  users <- index_names (p_users s) (user_index (st_nprim (p_users s))) user_structs ;;;
  bools <- index_names (p_bools s) (bool_index (st_nprim (p_bools s))) bool_structs ;;;
  senss <- index_names (p_levels s) (names_only (sens_index (st_nprim (p_levels s)))) tt ;;;
  cats <- index_names (p_cats s) (names_only (cat_index (st_nprim (p_cats s)))) tt ;;;
  rc <- xtable (st_table (p_roles s)) (policydb_role_cache types.2) ∅ ;;;
  uc <- xtable (st_table (p_users s)) (policydb_user_cache senss.1 cats.1) ∅ ;;;
  xret (mk_indexes roles types users bools senss.1 cats.1 rc uc).
End Others.
