(* ===== verification/IndexThms.v ===== *)
(** * IndexThms: the index arrays invert the symbol tables

    The arrays that the [*_index] functions fill are determined by the finite
    map of the symbol table: the place of a value holds the symbol with that
    value. *)
From Stdlib Require Import ZArith Lia Bool.
From stdpp Require Import base option list list_numbers gmap sets.
From S2P Require Import Prelude PolicyFile Ebitmap EbitmapThms EbitmapRange EbitmapIO Hashtab HashtabThms Symtab Avtab AvtabIO Cond Codec Symbols SymCodec TransIns TransFt Index.

(** ** Tables as lists of bindings *)

(** [hashtab_map] around an index function whose state is a part of that of
    another that goes wrong nowhere. *)
Lemma stepping_chain {D S T} (f : cstring -> D -> S -> option (Z * S)) (g : cstring -> D -> T -> Z * T) (part : T -> S) (I : T -> Prop) l st :
  I st -> (forall k d st, (k, d) ∈ l -> I st -> f k d (part st) = Some ((g k d st).1, part (g k d st).2) /\ I (g k d st).2) ->
  chain_map (stepping f) l (Some (part st)) = ((chain_map g l st).1, Some (part (chain_map g l st).2)).
Proof.
  revert st. induction l as [|[k d] l IH]; intros st Hst Hf; [done|]. cbn [chain_map fst snd]. destruct (Hf k d st) as [E H]; [left|done|].
  unfold stepping at 1. cbn [mbind option_bind]. rewrite E. destruct (g k d st) as [rc st1]. cbn [fst snd] in *. destruct (ctrue rc); [done|].
  apply IH; [done|]. intros k' d' st' Hin. apply Hf. by right.
Qed.

Section Inverse.
Context {D : Type} (val : D -> option Z) (nprim : Z).

(** What an index function does to arrays that have a place for every value;
    symbols without a value ([val d = None]: aliases) are passed over. *)
Definition index_by (k : cstring) (d : D) (st : names * structs D) : Z * (names * structs D) :=
  match val d with
  | Some v =>
      if negb (value_isvalid v nprim) then (- EINVAL, st) else
      match st.1 !! Z.to_nat (v - 1) with
      | Some None => (0, (<[Z.to_nat (v - 1) := Some k]> st.1, <[Z.to_nat (v - 1) := Some (k, d)]> st.2))
      | _ => (- EINVAL, st)
      end
  | None => (0, st)
  end.

Definition sized (st : names * structs D) : Prop := length st.1 = Z.to_nat nprim /\ length st.2 = Z.to_nat nprim.

(** The values of the symbols of [m] are valid and differ. *)
Definition values_ok (m : gmap cstring D) : Prop :=
  (forall k d v, m !! k = Some d -> val d = Some v -> 0 < v <= nprim) /\
  (forall k k' d d' v, m !! k = Some d -> m !! k' = Some d' -> val d = Some v -> val d' = Some v -> k = k').

(** [st] holds every symbol of [m] at the place of its value, and no other. *)
Definition inverse (m : gmap cstring D) (st : names * structs D) : Prop :=
  length st.1 = Z.to_nat nprim /\ length st.2 = Z.to_nat nprim /\
  (forall v k d, 0 < v <= nprim -> (st.2 !! Z.to_nat (v - 1) = Some (Some (k, d)) <-> m !! k = Some d /\ val d = Some v)) /\
  (forall v, 0 < v <= nprim -> st.1 !! Z.to_nat (v - 1) = option_map (option_map fst) (st.2 !! Z.to_nat (v - 1))).

Lemma value_isvalid_spec v n : value_isvalid v n = true <-> 0 <> v /\ v <= n.
Proof using. unfold value_isvalid, ctrue. destruct (Z.eqb_spec v 0), (Z.ltb_spec n v); simpl; lia. Qed.

Lemma inverse_empty : inverse ∅ (replicate (Z.to_nat nprim) None, replicate (Z.to_nat nprim) None).
Proof using.
  split_and!; simpl; [by rewrite length_replicate..| |].
  - intros v k d Hv. rewrite lookup_replicate_2 by lia. rewrite lookup_empty. naive_solver.
  - intros v Hv. by rewrite !lookup_replicate_2 by lia.
Qed.

(** The array of structs has a place for every value. *)
Lemma inverse_place m st v : inverse m st -> 0 < v <= nprim -> exists x, st.2 !! Z.to_nat (v - 1) = Some x.
Proof using. intros (_ & Hl & _) Hv. apply lookup_lt_is_Some. lia. Qed.

Lemma inverse_free m st v :
  inverse m st -> 0 < v <= nprim ->
  st.1 !! Z.to_nat (v - 1) = Some None <-> (forall k d, m !! k = Some d -> val d <> Some v).
Proof using.
  intros Hi Hv. pose proof (inverse_place m st v Hi Hv) as [x Hx]. destruct Hi as (_ & _ & Hs & Hn).
  rewrite (Hn v Hv), Hx. simpl. split.
  - intros [= Hx0] k d Hk Hd. destruct x as [|]; [done|]. assert (st.2 !! Z.to_nat (v - 1) = Some (Some (k, d))) by (by apply Hs). congruence.
  - intros Hfree. destruct x as [[k d]|]; [|done]. apply Hs in Hx as [Hk Hd]; [|done]. by destruct (Hfree k d).
Qed.

(** One symbol more. *)
Lemma inverse_step m st k d :
  inverse m st -> m !! k = None -> (forall v, val d = Some v -> 0 <= v) ->
  let '(rc, st') := index_by k d st in
  if bool_decide (rc = 0) then inverse (<[k := d]> m) st' /\
       (forall v, val d = Some v -> 0 < v <= nprim /\ forall k' d', m !! k' = Some d' -> val d' <> Some v)
  else exists v, val d = Some v /\ (0 < v <= nprim -> exists k' d', m !! k' = Some d' /\ val d' = Some v).
Proof using.
  intros Hi Hk Hnn. unfold index_by. destruct (val d) as [v|] eqn:Hv.
  2:{ split; [|done]. destruct Hi as (Hl1 & Hl2 & Hs & Hn). split_and!; [done..| |done].
      intros v k' d' Hv'. rewrite (Hs v k' d' Hv'). destruct (decide (k' = k)) as [->|]; [|by rewrite lookup_insert_ne].
      rewrite lookup_insert_eq, Hk. naive_solver. }
  specialize (Hnn v eq_refl). destruct (value_isvalid v nprim) eqn:Hval; cbn [negb].
  2:{ exists v. split; [done|]. intros Hr. assert (value_isvalid v nprim = true) by (apply value_isvalid_spec; lia). congruence. }
  apply value_isvalid_spec in Hval. assert (Hr : 0 < v <= nprim) by lia.
  pose proof (inverse_free m st v Hi Hr) as Hfree. pose proof (inverse_place m st v Hi Hr) as [x Hx]. pose proof Hi as (Hl1 & Hl2 & Hs & Hn).
  destruct (st.1 !! Z.to_nat (v - 1)) as [[k0|]|] eqn:Hp; cbn [ctrue Z.eqb negb].
  - rewrite (Hn v Hr), Hx in Hp. destruct x as [[k1 d1]|]; [|done]. apply Hs in Hx as [Hk1 Hd1]; [|done].
    cbn. exists v. split; [done|]. eauto.
  - rewrite bool_decide_true by done. pose proof (proj1 Hfree eq_refl) as Hnone. split; [|intros ? [= <-]; by split]. split_and!; simpl; [by rewrite length_insert..| |].
    + intros w k' d' Hw. destruct (decide (w = v)) as [->|Hne].
      * rewrite list_lookup_insert_eq by lia. split; [by intros [= <- <-]; rewrite lookup_insert_eq|].
        intros [Hk' Hd']. destruct (decide (k' = k)) as [->|]; [by rewrite lookup_insert_eq in Hk'; simplify_eq|].
        rewrite lookup_insert_ne in Hk' by done. by destruct (Hnone k' d').
      * rewrite list_lookup_insert_ne by lia. rewrite (Hs w k' d' Hw). destruct (decide (k' = k)) as [->|]; [|by rewrite lookup_insert_ne].
        rewrite lookup_insert_eq, Hk. naive_solver.
    + intros w Hw. destruct (decide (w = v)) as [->|Hne]; [by rewrite !list_lookup_insert_eq by lia|].
      rewrite !list_lookup_insert_ne by lia. by apply Hn.
  - rewrite (Hn v Hr), Hx in Hp. done.
Qed.

(** The loop over the symbols. *)
Lemma chain_map_index l m st :
  NoDup l.*1 -> (forall k, k ∈ l.*1 -> m !! k = None) -> Forall (fun b => forall v, val b.2 = Some v -> 0 <= v) l ->
  inverse m st -> values_ok m ->
  let '(rc, st') := chain_map index_by l st in
  if bool_decide (rc = 0) then inverse (list_to_map l ∪ m) st' /\ values_ok (list_to_map l ∪ m) else ~ values_ok (list_to_map l ∪ m).
Proof using.
  revert m st. induction l as [|[k d] l IH]; intros m st ND Hfresh Hnn Hi Hv; cbn [chain_map].
  { simpl. by rewrite (left_id_L ∅ (∪)). }
  apply NoDup_cons in ND as [Hk ND]. apply Forall_cons in Hnn as [Hn Hnn]. simpl in Hk, Hn.
  assert (Hmk : m !! k = None) by (apply Hfresh; simpl; left). cbn [fst snd].
  pose proof (inverse_step m st k d Hi Hmk Hn) as Hs. destruct (index_by k d st) as [rc st1].
  assert (Hunion : list_to_map ((k, d) :: l) ∪ m = list_to_map l ∪ <[k := d]> m).
  { simpl. rewrite <- insert_union_l, insert_union_r; [done|]. by apply not_elem_of_list_to_map_1. }
  case_bool_decide as Hrc.
  - subst rc. destruct Hs as [Hi1 Hnew]. cbn [ctrue Z.eqb negb]. rewrite Hunion. apply IH; [done| |done|done|].
    + intros k' Hk'. rewrite lookup_insert_ne by (intros ->; done). apply Hfresh. simpl. by right.
    + split.
      * intros k' d' v Hk' Hd'. destruct (decide (k' = k)) as [->|].
        -- rewrite lookup_insert_eq in Hk'. simplify_eq. by apply Hnew.
        -- rewrite lookup_insert_ne in Hk' by done. by eapply Hv.
      * intros k1 k2 d1 d2 v H1 H2 Hd1 Hd2. destruct (decide (k1 = k)) as [->|], (decide (k2 = k)) as [->|]; [done|..].
        -- rewrite lookup_insert_eq in H1. rewrite lookup_insert_ne in H2 by done. simplify_eq. by destruct (Hnew v Hd1) as [_ Hx]; destruct (Hx k2 d2).
        -- rewrite lookup_insert_eq in H2. rewrite lookup_insert_ne in H1 by done. simplify_eq. by destruct (Hnew v Hd2) as [_ Hx]; destruct (Hx k1 d1).
        -- rewrite lookup_insert_ne in H1, H2 by done. by eapply (proj2 Hv).
  - destruct (ctrue rc) eqn:Hc; [|by apply ctrue_false in Hc]. rewrite bool_decide_false by done.
    destruct Hs as (v & Hd & Hbad). intros [Hr Hinj].
    assert (Hkk : (list_to_map ((k, d) :: l) ∪ m) !! k = Some d) by (rewrite Hunion, lookup_union_r, lookup_insert_eq; [done|by apply not_elem_of_list_to_map_1]).
    destruct (Hbad (Hr k d v Hkk Hd)) as (k' & d' & Hk' & Hd').
    assert (Hne : k' <> k) by congruence. apply Hne.
    eapply (Hinj k' k d' d v); [|done..]. rewrite lookup_union_r; [done|]. apply not_elem_of_list_to_map_1. simpl.
    intros [?|Hin]%elem_of_cons; [done|]. rewrite Hfresh in Hk'; [done|]. simpl. by right.
Qed.

(** Filling fresh arrays succeeds exactly when the values are valid and
    differ, and then the arrays are the inverse of the table. *)
Lemma index_table h :
  hashtab_ok h -> map_Forall (fun _ d => forall v, val d = Some v -> 0 <= v) (hashtab_abs h) ->
  let '(rc, st) := hashtab_map (Some h) index_by (replicate (Z.to_nat nprim) None, replicate (Z.to_nat nprim) None) in
  if bool_decide (rc = 0) then inverse (hashtab_abs h) st /\ values_ok (hashtab_abs h) else ~ values_ok (hashtab_abs h).
Proof using.
  intros Hok Hnn. unfold hashtab_map. rewrite table_map_flat.
  pose proof (bindings_nodup h Hok) as ND. cbn [bindings] in ND.
  pose proof (chain_map_index (concat (htable h)) ∅ (replicate (Z.to_nat nprim) None, replicate (Z.to_nat nprim) None) ND) as H. rewrite (right_id_L ∅ (∪)) in H.
  apply H; [by intros; apply lookup_empty| |apply inverse_empty|by split; intros *; rewrite lookup_empty].
  apply Forall_forall. intros [k d] Hin. apply (Hnn k d). unfold hashtab_abs. by apply elem_of_list_to_map_1.
Qed.

(** An array of names only: the names of the arrays above. *)
Definition inverse_names (m : gmap cstring D) (n : names) : Prop := exists st, inverse m (n, st).

Lemma index_by_sized k d st : sized st -> sized (index_by k d st).2.
Proof using.
  intros [H1 H2]. unfold index_by. destruct (val d) as [v|]; [|done]. destruct (negb _); [done|]. destruct (st.1 !! _) as [[?|]|]; [done| |done].
  split; cbn; by rewrite length_insert.
Qed.

(** The index functions stay inside arrays of that size. *)
Lemma index_struct_by k d v st : val d = Some v -> 0 <= v -> sized st -> index_struct nprim v k d st = Some (index_by k d st).
Proof using.
  intros Hd Hv [H1 H2]. unfold index_by, index_struct, index_name. rewrite Hd. destruct (value_isvalid v nprim) eqn:E; cbn [negb mbind option_bind]; [|by destruct st].
  apply value_isvalid_spec in E. destruct (lookup_lt_is_Some_2 st.1 (Z.to_nat (v - 1))) as [x Hx]; [lia|]. destruct (lookup_lt_is_Some_2 st.2 (Z.to_nat (v - 1))) as [y Hy]; [lia|].
  rewrite Hx. cbn [mbind option_bind]. destruct x; cbn; [by destruct st|]. by rewrite Hy.
Qed.

Lemma index_name_by k d v st : val d = Some v -> 0 <= v -> sized st -> index_name nprim v k st.1 = Some ((index_by k d st).1, (index_by k d st).2.1).
Proof using.
  intros Hd Hv Hst. pose proof (index_struct_by k d v st Hd Hv Hst) as H. unfold index_struct in H. destruct (index_name nprim v k st.1) as [[rc n]|]; [|done]. cbn in H.
  destruct (ctrue rc); [by injection H as <-|]. destruct (st.2 !! _); [|done]. by injection H as <-.
Qed.

(** An index function on a part of the arrays, over a whole table. *)
Lemma xindex_cases {S} (f : cstring -> D -> S -> option (Z * S)) (part : names * structs D -> S) h o :
  hashtab_ok h -> map_Forall (fun _ d => forall v, val d = Some v -> 0 <= v) (hashtab_abs h) ->
  (forall k d st, (forall v, val d = Some v -> 0 <= v) -> sized st -> f k d (part st) = Some ((index_by k d st).1, part (index_by k d st).2)) ->
  exists r, xindex (Some h) f (part (replicate (Z.to_nat nprim) None, replicate (Z.to_nat nprim) None)) o = Some (r, o) /\
    match r with
    | Some s => values_ok (hashtab_abs h) /\ exists st, s = part st /\ inverse (hashtab_abs h) st
    | None => ~ values_ok (hashtab_abs h)
    end.
Proof using.
  intros Hok Hnn Hf. pose proof (index_table h Hok Hnn) as H. unfold xindex, hashtab_map in *. rewrite table_map_flat in H. rewrite table_map_flat.
  rewrite (stepping_chain f index_by part sized); [|split; apply length_replicate|].
  - destruct (chain_map index_by _ _) as [rc st]. cbn [fst snd]. destruct (ctrue rc) eqn:Hrc.
    + rewrite bool_decide_false in H by (intros ->; done). by exists None.
    + apply ctrue_false in Hrc as ->. rewrite bool_decide_true in H by done. destruct H. exists (Some (part st)). split; [done|]. split; [done|]. by exists st.
  - intros k d st Hin Hst. split; [apply Hf; [|done]|by apply index_by_sized]. apply (Hnn k d). unfold hashtab_abs. apply elem_of_list_to_map_1; [|done]. exact (bindings_nodup h Hok).
Qed.

(** The arrays depend on the map only. *)
Lemma inverse_unique m st st' : inverse m st -> inverse m st' -> st = st'.
Proof using.
  intros (H1 & H2 & Hs & Hn) (H1' & H2' & Hs' & Hn'). destruct st as [n s], st' as [n' s']. cbn [fst snd] in *.
  assert (Hss : forall v, 0 < v <= nprim -> s !! Z.to_nat (v - 1) = s' !! Z.to_nat (v - 1)).
  { intros v Hv. destruct (lookup_lt_is_Some_2 s (Z.to_nat (v - 1))) as [x Hx]; [lia|].
    destruct (lookup_lt_is_Some_2 s' (Z.to_nat (v - 1))) as [x' Hx']; [lia|]. rewrite Hx, Hx'. f_equal.
    destruct x as [[k d]|], x' as [[k' d']|]; try done.
    - apply Hs, Hs' in Hx; [|done..]. congruence.
    - apply Hs, Hs' in Hx; [|done..]. congruence.
    - apply Hs', Hs in Hx'; [|done..]. congruence. }
  assert (Hi : forall i, (i < Z.to_nat nprim)%nat -> exists v, 0 < v <= nprim /\ Z.to_nat (v - 1) = i).
  { intros i Hi. exists (Z.of_nat i + 1). lia. }
  f_equal; apply list_eq; intros i; (destruct (Nat.lt_ge_cases i (Z.to_nat nprim)) as [Hlt|Hge];
    [destruct (Hi i Hlt) as (v & Hv & <-)|rewrite !lookup_ge_None_2 by lia; done]).
  - by rewrite Hn, Hn', Hss.
  - by apply Hss.
Qed.
End Inverse.

(** ** The values of the kinds of symbols *)

Definition common_val (d : common_datum) : option Z := Some (com_value d).
Definition class_val (d : class_datum) : option Z := Some (cla_value d).
Definition role_val (d : role_datum) : option Z := Some (role_value d).
Definition type_val (d : type_datum) : option Z := if ctrue (type_primary d) then Some (type_value d) else None.
Definition user_val (d : user_datum) : option Z := Some (user_value d).
Definition bool_val (d : cond_bool_datum) : option Z := Some (bool_value d).
Definition sens_val (d : level_datum) : option Z := if ctrue (lev_isalias d) then None else Some (sens (lev_level d)).
Definition cat_val (d : cat_datum) : option Z := if ctrue (cat_isalias d) then None else Some (cat_value d).

(** A symbol table whose values, unsigned in the code, are not negative. *)
Definition indexable {D} (val : D -> option Z) (t : symtab D) : Prop :=
  exists h, st_table t = Some h /\ hashtab_ok h /\ map_Forall (fun _ d => forall v, val d = Some v -> 0 <= v) (hashtab_abs h).

Definition table_values_ok {D} (val : D -> option Z) (t : symtab D) : Prop := values_ok val (st_nprim t) (symtab_abs t).

(** An array is allocated, or memory has run out. *)
Lemma xcalloc_cases {A} n o :
  exists r o', @xcalloc A n o = Some (r, o') /\ (mem_ok o -> mem_ok o') /\ (r = Some (replicate (Z.to_nat n) None) \/ r = None /\ ~ mem_ok o).
Proof.
  unfold xcalloc, calloc_array. destruct (malloc o) as [ok o'] eqn:E. exists (if ok then Some (replicate (Z.to_nat n) None) else None), o'.
  split; [done|]. split; [intros M; by destruct (malloc_mem_ok _ _ _ E M)|]. destruct ok; [by left|right]. split; [done|].
  intros M. by destruct (malloc_mem_ok _ _ _ E M).
Qed.

Definition classes_indexed (s : symbols) (ci : class_indexes) : Prop :=
  inverse_names common_val (st_nprim (p_commons s)) (symtab_abs (p_commons s)) (p_common_val_to_name ci) /\
  inverse class_val (st_nprim (p_classes s)) (symtab_abs (p_classes s)) (p_class_val_to_name ci, class_val_to_struct ci).

Lemma index_classes_cases s o :
  indexable common_val (p_commons s) -> indexable class_val (p_classes s) ->
  exists r o', policydb_index_classes s o = Some (r, o') /\ (mem_ok o -> mem_ok o') /\
    match r with
    | Some ci => (table_values_ok common_val (p_commons s) /\ table_values_ok class_val (p_classes s)) /\ classes_indexed s ci
    | None => mem_ok o -> ~ (table_values_ok common_val (p_commons s) /\ table_values_ok class_val (p_classes s))
    end.
Proof.
  intros (h1 & E1 & Hok1 & Hn1) (h2 & E2 & Hok2 & Hn2). unfold policydb_index_classes, classes_indexed, table_values_ok, symtab_abs, xbind. rewrite E1, E2.
  destruct (xcalloc_cases (A := cstring) (st_nprim (p_commons s)) o) as (r1 & o1 & -> & M1 & [->|[-> F]]); [|by exists None, o1].
  destruct (xindex_cases common_val (st_nprim (p_commons s)) (common_index (st_nprim (p_commons s))) fst h1 o1 Hok1 Hn1) as (r & E & H1).
  { intros k d st Hd Hst. apply index_name_by; [done|by apply Hd|done]. }
  cbn [fst] in E. rewrite E. destruct r as [n1|]; [|exists None, o1; split_and!; [done..|]; by intros _ [? _]]. destruct H1 as (V1 & st1 & -> & I1).
  destruct (xcalloc_cases (A := cstring * class_datum) (st_nprim (p_classes s)) o1) as (r2 & o2 & -> & M2 & [->|[-> F]]);
    [|exists None, o2; split_and!; [done|auto|]; intros M; by destruct F; auto].
  destruct (xcalloc_cases (A := cstring) (st_nprim (p_classes s)) o2) as (r3 & o3 & -> & M3 & [->|[-> F]]);
    [|exists None, o3; split_and!; [done|auto|]; intros M; by destruct F; auto].
  destruct (xindex_cases class_val (st_nprim (p_classes s)) (class_index (st_nprim (p_classes s))) id h2 o3 Hok2 Hn2) as (r & E' & H2).
  { intros k d st Hd Hst. unfold class_index, id. rewrite (index_struct_by class_val) by (done || by apply Hd). by destruct (index_by _ _ _ _ _). }
  unfold id in E'. rewrite E'. destruct r as [st2|]; [|exists None, o3; split_and!; [done|auto|]; by intros _ [_ ?]]. destruct H2 as (V2 & st & -> & I2).
  eexists (Some _), o3. split; [done|]. split; [auto|]. cbn. split; [done|]. split; [exists st1.2; by destruct st1|by destruct st].
Qed.

(** with enough memory [policydb_index_classes] succeeds exactly when the
    values of the commons and of the classes lie between 1 and the number of
    values and no two symbols of a kind share one; then [class_val_to_struct]
    and [p_class_val_to_name] hold every class at the place of its value and
    nothing else, and [p_common_val_to_name] the commons. *)
Theorem policydb_index_classes_spec s o :
  indexable common_val (p_commons s) -> indexable class_val (p_classes s) -> mem_ok o ->
  match policydb_index_classes s o with
  | Some (Some ci, _) =>
      table_values_ok common_val (p_commons s) /\ table_values_ok class_val (p_classes s) /\
      inverse_names common_val (st_nprim (p_commons s)) (symtab_abs (p_commons s)) (p_common_val_to_name ci) /\
      inverse class_val (st_nprim (p_classes s)) (symtab_abs (p_classes s)) (p_class_val_to_name ci, class_val_to_struct ci)
  | Some (None, _) => ~ (table_values_ok common_val (p_commons s) /\ table_values_ok class_val (p_classes s))
  | None => False
  end.
Proof.
  intros H1 H2 M. destruct (index_classes_cases s o H1 H2) as (r & o' & -> & _ & H). destruct r as [ci|]; [|auto].
  destruct H as [[Hv1 Hv2] [Hi1 Hi2]]. by split_and!.
Qed.
