(* ===== verification/ExpandThms.v ===== *)
(** * ExpandThms: what the expansion of type and role sets computes

    [type_set_expand] and [role_set_expand] against the sets they are meant to
    compute, when memory does not run out. *)
From Stdlib Require Import ZArith Lia Bool.
From stdpp Require Import base option list list_numbers gmap sets.
From S2P Require Import Prelude PolicyFile Ebitmap EbitmapThms EbitmapRange EbitmapIO Hashtab HashtabThms Symtab Avtab AvtabIO Cond Codec Symbols SymCodec SymbolsIO TransIns TransFt Index.

(** ** Bitmaps *)

(** Beyond the last place there is room for, nothing is set. *)
Lemma set_bit_high e bit value o : 2 ^ 32 - 64 <= bit < 2 ^ 32 -> ebitmap_set_bit e bit value o = (- EINVAL, e, o).
Proof.
  intros Hb. unfold ebitmap_set_bit. destruct (align_props bit) as (H0 & H1 & H2); [unfold in_range; lia|].
  assert (align bit = 2 ^ 32 - 64) as ->.
  { destruct (Z.lt_trichotomy (align bit) (2 ^ 32 - 64)) as [Hlt|[?|Hlt]]; [|done|].
    - pose proof (aligned_lt (align bit) (2 ^ 32 - 64) H0 eq_refl Hlt). lia.
    - pose proof (aligned_lt (2 ^ 32 - 64) (align bit) eq_refl H0 Hlt). lia. }
  done.
Qed.

(** A copy is equal to the original. *)
Lemma cpy_loop_result n o l o' : cpy_loop n o = (Some l, o') -> l = n.
Proof.
  revert o l. induction n as [|[sb m] n IH]; intros o l E; cbn [cpy_loop] in E; [by simplify_eq|]. destruct (malloc o) as [[] o1]; [|done].
  cbn [negb] in E. destruct (cpy_loop n o1) as [[l1|] o2] eqn:E1; cbn [cons_res] in E; simplify_eq. by rewrite (IH _ _ E1).
Qed.

Lemma cpy_result e o : let '(rc, e', o') := ebitmap_cpy e o in rc = 0 -> e' = e.
Proof.
  unfold ebitmap_cpy. destruct (cpy_loop (node e) o) as [[l|] o1] eqn:E; [|done]. intros _. rewrite (cpy_loop_result _ _ _ _ E). by destruct e.
Qed.

(** ** Computations that go wrong nowhere *)

(** [m] stays inside the arrays, and a value it returns is in [Q]; if it is
    [strict] it returns one whenever no allocation fails. *)
Definition xruns (strict : bool) {A} (m : X A) (Q : A -> Prop) : Prop :=
  forall o, (strict = true -> mem_ok o) ->
  exists r o', m o = Some (r, o') /\ (strict = true -> mem_ok o' /\ r <> None) /\ (forall a, r = Some a -> Q a).
Abbreviation xok := (xruns true).

Lemma xok_elim {A} (m : X A) (Q : A -> Prop) o :
  xok m Q -> mem_ok o -> exists a o', m o = Some (Some a, o') /\ mem_ok o' /\ Q a.
Proof.
  intros H M. destruct (H o (fun _ => M)) as (r & o' & E & HM & HQ). destruct (HM eq_refl) as [M' Hr].
  destruct r as [a|]; [|done]. exists a, o'. auto.
Qed.

Lemma xok_intro {A} (m : X A) (Q : A -> Prop) :
  (forall o, mem_ok o -> exists a o', m o = Some (Some a, o') /\ mem_ok o' /\ Q a) -> xok m Q.
Proof.
  intros H o M. destruct (H o (M eq_refl)) as (a & o' & E & M' & Ha). exists (Some a), o'. split_and!; [done|done|].
  intros a' [= <-]. done.
Qed.

Lemma xok_ext {strict A} (m m' : X A) (Q : A -> Prop) : (forall o, m o = m' o) -> xruns strict m Q -> xruns strict m' Q.
Proof. intros He H o M. rewrite <- He. by apply H. Qed.

Section Strict.
Context {strict : bool}.
Abbreviation xrun := (xruns strict).

Lemma xok_ret {A} (a : A) (Q : A -> Prop) : Q a -> xrun (xret a) Q.
Proof using Type. intros H o M. exists (Some a), o. split_and!; [done|auto|]. by intros ? [= <-]. Qed.

Lemma xok_fail {A} (Q : A -> Prop) : strict = false -> xrun xfail Q.
Proof using Type. intros -> o M. by exists None, o. Qed.

Lemma xok_bind {A B} (m : X A) (k : A -> X B) (P : A -> Prop) (Q : B -> Prop) :
  xrun m P -> (forall a, P a -> xrun (k a) Q) -> xrun (xbind m k) Q.
Proof using Type.
  intros Hm Hk o M. destruct (Hm o M) as (r & o1 & E & M1 & Ha). unfold xbind. rewrite E. destruct r as [a|].
  - destruct (Hk a (Ha a eq_refl) o1) as (r2 & o2 & E2 & M2 & Hb); [intros Hs; apply (M1 Hs)|]. eauto.
  - exists None, o1. split_and!; [done|intros Hs; by destruct (M1 Hs)|done].
Qed.

Lemma xok_mono {A} (m : X A) (P Q : A -> Prop) : xrun m P -> (forall a, P a -> Q a) -> xrun m Q.
Proof using Type. intros H HPQ o M. destruct (H o M) as (r & o' & E & M' & HP). exists r, o'. split_and!; [done..|]. auto. Qed.

Lemma xok_set e bit value :
  ebitmap_ok e -> 0 <= bit < 2 ^ 32 - 64 \/ (strict = false /\ in_range 32 bit) ->
  xrun (xset e bit value) (fun e' => ebitmap_ok e' /\
    ebitmap_set e' = if value =? 0 then ebitmap_set e ∖ {[bit]} else {[bit]} ∪ ebitmap_set e).
Proof using Type.
  intros He Hb o M. unfold xset. destruct (decide (0 <= bit < 2 ^ 32 - 64)) as [Hr|Hr].
  - pose proof (ebitmap_set_bit_ok e bit value o He Hr) as H.
    destruct (ebitmap_set_bit e bit value o) as [[rc e'] o'] eqn:E. pose proof (set_bit_mem_ok _ _ _ _ _ _ _ E) as M'.
    destruct H as [(-> & ? & ?)|(-> & _ & Hm)].
    + exists (Some e'), o'. split_and!; [done|auto|]. by intros ? [= <-].
    + exists None, o'. split_and!; [done| |done]. intros Hs. by destruct (Hm (M Hs)).
  - destruct Hb as [?|[-> Hb]]; [done|]. unfold in_range in Hb. rewrite set_bit_high by lia. by exists None, o.
Qed.

Lemma xok_union e1 e2 :
  ebitmap_ok e1 -> ebitmap_ok e2 ->
  xrun (xunion e1 e2) (fun e => ebitmap_ok e /\ ebitmap_set e = ebitmap_set e1 ∪ ebitmap_set e2).
Proof using Type.
  intros H1 H2 o M. unfold xunion. pose proof (ebitmap_union_ok e1 e2 o H1 H2) as H.
  destruct (ebitmap_union e1 e2 o) as [[rc e'] o'] eqn:E. pose proof (union_mem_ok _ _ _ _ _ _ E) as M'.
  destruct H as [(-> & ? & ?)|(Hrc & Hm)].
  - exists (Some e'), o'. split_and!; [done|auto|]. by intros ? [= <-].
  - eexists _, o'. split; [done|]. split; [intros Hs; by destruct (Hm (M Hs))|]. by rewrite Hrc.
Qed.

Lemma xok_cpy e : xrun (xcpy e) (eq e).
Proof using Type.
  intros o M. unfold xcpy. pose proof (cpy_result e o) as H.
  destruct (ebitmap_cpy e o) as [[rc e1] o1] eqn:E. eexists _, o1. split; [done|]. split.
  - intros Hs. destruct (reads_cpy e (mem_file []) [] o) as (e' & o' & E' & M' & <-); [done|auto|done|].
    unfold rcpy in E'. rewrite E in E'. destruct (ctrue rc); simplify_eq. done.
  - intros a. destruct (ctrue rc) eqn:Hrc; [done|]. intros [= <-]. symmetry. apply H. by apply ctrue_false in Hrc.
Qed.

Lemma xok_fold {A S} (f : A -> S -> X S) (l : list A) (Inv : list A -> S -> Prop) s :
  Inv [] s -> (forall done x todo s, l = done ++ x :: todo -> Inv done s -> xrun (f x s) (Inv (done ++ [x]))) ->
  xrun (xfold f l s) (Inv l).
Proof using Type.
  intros H0 Hstep. cut (forall todo done s, l = done ++ todo -> Inv done s -> xrun (xfold f todo s) (Inv l)).
  { intros H. by apply (H l []). }
  induction todo as [|x todo IH]; intros done s' Hl Hi; cbn [xfold].
  - rewrite app_nil_r in Hl. subst. by apply xok_ret.
  - eapply xok_bind; [by eapply Hstep|]. intros s1 Hs1. apply (IH (done ++ [x])); [|done]. by rewrite <- app_assoc.
Qed.

(** A loop that builds a bitmap: the bits of [P x] for every [x] are added. *)
Lemma xok_collect {A} (f : A -> ebitmap -> X ebitmap) (l : list A) (P : A -> Z -> Prop) e :
  ebitmap_ok e ->
  (forall x e, x ∈ l -> ebitmap_ok e -> xrun (f x e) (fun e' => ebitmap_ok e' /\ forall b, b ∈ ebitmap_set e' <-> b ∈ ebitmap_set e \/ P x b)) ->
  xrun (xfold f l e) (fun e' => ebitmap_ok e' /\ forall b, b ∈ ebitmap_set e' <-> b ∈ ebitmap_set e \/ exists x, x ∈ l /\ P x b).
Proof using Type.
  intros He Hf. eapply (xok_fold f l (fun done e' => ebitmap_ok e' /\ forall b, b ∈ ebitmap_set e' <-> b ∈ ebitmap_set e \/ exists x, x ∈ done /\ P x b)).
  - split; [done|]. intros b. split; [by left|]. intros [?|(x & Hx & _)]; [done|]. by apply elem_of_nil in Hx.
  - intros done x todo e1 El [He1 H1]. eapply xok_mono; [apply Hf; [rewrite El; set_solver|done]|].
    intros e2 [He2 H2]. split; [done|]. intros b. rewrite H2, H1. setoid_rewrite elem_of_app. setoid_rewrite list_elem_of_singleton. naive_solver.
Qed.

Lemma elem_of_bits e b : b ∈ nodes_bits (node e) <-> b ∈ ebitmap_set e.
Proof using Type. by rewrite elem_of_nodes_bits, elem_of_ebitmap_set. Qed.

Lemma xok_bits_collect e (f : Z -> ebitmap -> X ebitmap) (P : Z -> Z -> Prop) :
  ebitmap_ok e ->
  (forall i e1, i ∈ ebitmap_set e -> ebitmap_ok e1 -> xrun (f i e1) (fun e' => ebitmap_ok e' /\ forall b, b ∈ ebitmap_set e' <-> b ∈ ebitmap_set e1 \/ P i b)) ->
  xrun (xbits e f ebitmap_init) (fun e' => ebitmap_ok e' /\ forall b, b ∈ ebitmap_set e' <-> exists i, i ∈ ebitmap_set e /\ P i b).
Proof using Type.
  intros He Hf. unfold xbits. rewrite for_each_bits by done. eapply xok_mono.
  - apply (xok_collect f (nodes_bits (node e)) P); [done|]. intros i e1 Hi. apply Hf. by apply elem_of_bits.
  - intros e' [He' H]. split; [done|]. intros b. rewrite H. setoid_rewrite elem_of_bits. split; [|by right].
    intros [Hb|?]; [|done]. by vm_compute in Hb.
Qed.

(** A loop over [0, n) that flips or sets bits, one at each turn. *)
Lemma xok_upto n (f : Z -> ebitmap -> X ebitmap) (Q : Z -> Prop -> Prop) e :
  0 <= n -> ebitmap_ok e ->
  (forall i e1, 0 <= i < n -> ebitmap_ok e1 -> (i ∈ ebitmap_set e1 <-> i ∈ ebitmap_set e) ->
     xrun (f i e1) (fun e' => ebitmap_ok e' /\ forall b, b ∈ ebitmap_set e' <-> if decide (b = i) then Q i (i ∈ ebitmap_set e) else b ∈ ebitmap_set e1)) ->
  xrun (xupto n f e) (fun e' => ebitmap_ok e' /\ forall b, b ∈ ebitmap_set e' <-> if decide (0 <= b < n) then Q b (b ∈ ebitmap_set e) else b ∈ ebitmap_set e).
Proof using Type.
  intros Hn He Hf. unfold xupto. eapply xok_mono.
  - apply (xok_fold f (seqZ 0 n) (fun done e' => ebitmap_ok e' /\ forall b, b ∈ ebitmap_set e' <-> if decide (b ∈ done) then Q b (b ∈ ebitmap_set e) else b ∈ ebitmap_set e)).
    + split; [done|]. intros b. rewrite decide_False by apply not_elem_of_nil. done.
    + intros done i todo e1 El [He1 H1]. assert (Hi : i ∈ seqZ 0 n) by (rewrite El; set_solver). apply elem_of_seqZ in Hi.
      assert (Hnd : i ∉ done). { pose proof (NoDup_seqZ 0 n) as ND. rewrite El in ND. apply NoDup_app in ND as (_ & Hd & _). intros Hx. by apply (Hd i Hx); left. }
      eapply xok_mono; [apply Hf; [lia|done|]|].
      * rewrite H1, decide_False by done. done.
      * intros e2 [He2 H2]. split; [done|]. intros b. rewrite H2. destruct (decide (b = i)) as [->|Hne].
        -- rewrite decide_True by set_solver. done.
        -- rewrite H1. destruct (decide (b ∈ done)); [rewrite decide_True by set_solver|rewrite decide_False by set_solver]; done.
  - intros e' [He' H]. split; [done|]. intros b. rewrite H. destruct (decide (0 <= b < n)); [rewrite decide_True by (apply elem_of_seqZ; lia)|rewrite decide_False by (rewrite elem_of_seqZ; lia)]; done.
Qed.

Lemma xok_added m e (P Q : Z -> Prop) :
  (forall b, P b <-> Q b) ->
  xrun m (fun e' => ebitmap_ok e' /\ forall b, b ∈ ebitmap_set e' <-> b ∈ ebitmap_set e \/ P b) ->
  xrun m (fun e' => ebitmap_ok e' /\ forall b, b ∈ ebitmap_set e' <-> b ∈ ebitmap_set e \/ Q b).
Proof using Type. intros HPQ H. eapply xok_mono; [done|]. intros e' [He' H']. split; [done|]. intros b. by rewrite H', HPQ. Qed.

Lemma get_bit_member e b : ebitmap_ok e -> ctrue (ebitmap_get_bit e b) = bool_decide (b ∈ ebitmap_set e).
Proof using Type. intros He. rewrite ebitmap_get_bit_spec by done. by case_bool_decide. Qed.

(** ** Sets of types *)

Section TypeSets.
Context (nprim : Z) (tvs : structs type_datum) (set : type_set) (alwaysexpand : bool).

(** Attributes stand for their types when this holds. *)
Definition expands (d : type_datum) : bool :=
  (type_flavor d =? TYPE_ATTRIB) &&
  (alwaysexpand || negb (ebitmap_is_empty (ts_negset set)) || ctrue (ts_flags set) || ctrue (Z.land (type_flags d) TYPE_FLAGS_EXPAND_ATTR_TRUE)).

Definition attribute (b : Z) : Prop := exists t, tvs !! Z.to_nat b = Some t /\ is_attrib t = true.

(** The type [b] is named by the positive part of the set, or excluded by
    the negative part. *)
Definition names_type (b : Z) : Prop :=
  exists i k d, i ∈ ebitmap_set (ts_types set) /\ tvs !! Z.to_nat i = Some (Some (k, d)) /\
    if expands d then b ∈ ebitmap_set (type_types d) else b = i.
Definition excludes_type (b : Z) : Prop :=
  exists i t, i ∈ ebitmap_set (ts_negset set) /\ tvs !! Z.to_nat i = Some t /\
    match t with
    | Some (_, d) => if type_flavor d =? TYPE_ATTRIB then b ∈ ebitmap_set (type_types d) else b = i
    | None => b = i
    end.

(** The types the set stands for. *)
Definition type_set_member (b : Z) : Prop :=
  if ctrue (Z.land (ts_flags set) TYPE_STAR) then 0 <= b < nprim /\ ~ attribute b /\ ~ excludes_type b
  else if ctrue (Z.land (ts_flags set) TYPE_COMP) && bool_decide (0 <= b < nprim)
       then ~ attribute b /\ ~ (names_type b /\ ~ excludes_type b)
       else names_type b /\ ~ excludes_type b.

(** What is needed of the policy and the set: the array has a place for every
    type, the excluded types have one, attributes hold well-formed bitmaps, and
    no attribute remains in a set to be complemented; for the expansion to
    succeed, the types named must be known. *)
Record type_set_ready : Prop := mk_type_set_ready {
  tsr_nprim : in_range 32 nprim;
  tsr_room : strict = true -> nprim <= 2 ^ 32 - 64;
  tsr_structs : length tvs = Z.to_nat nprim;
  tsr_types : ebitmap_ok (ts_types set);
  tsr_negset : ebitmap_ok (ts_negset set);
  tsr_named : strict = true -> forall i, i ∈ ebitmap_set (ts_types set) -> 0 <= i < nprim /\ exists kd, tvs !! Z.to_nat i = Some (Some kd);
  tsr_excluded : forall i, i ∈ ebitmap_set (ts_negset set) -> 0 <= i < nprim;
  tsr_attr : forall i k d, tvs !! i = Some (Some (k, d)) -> ebitmap_ok (type_types d);
  tsr_comp : ctrue (Z.land (ts_flags set) TYPE_COMP) = true -> forall b, 0 <= b < nprim -> attribute b -> ~ names_type b }.

Context (HR : type_set_ready).

Lemma place b : 0 <= b < nprim -> exists t, tvs !! Z.to_nat b = Some t.
Proof using HR. intros Hb. apply lookup_lt_is_Some. rewrite (tsr_structs HR). lia. Qed.

Lemma xok_add e b : ebitmap_ok e -> 0 <= b < 2 ^ 32 - 64 \/ 0 <= b < nprim -> xrun (xset e b 1) (fun e' => ebitmap_ok e' /\ forall x, x ∈ ebitmap_set e' <-> x ∈ ebitmap_set e \/ x = b).
Proof using HR.
  intros He Hb. eapply xok_mono; [apply xok_set; [done|]|].
  { pose proof (tsr_nprim HR). pose proof (tsr_room HR). destruct strict; [left; intuition lia|]. unfold in_range in *. right. split; [done|lia]. }
  intros e' [He' ->]. split; [done|]. intros x. simpl. set_solver.
Qed.

Lemma xok_add_union e e2 : ebitmap_ok e -> ebitmap_ok e2 ->
  xrun (xunion e e2) (fun e' => ebitmap_ok e' /\ forall x, x ∈ ebitmap_set e' <-> x ∈ ebitmap_set e \/ x ∈ ebitmap_set e2).
Proof using HR. intros H1 H2. eapply xok_mono; [by apply xok_union|]. intros e' [He' ->]. split; [done|]. intros x. set_solver. Qed.

Lemma expand_types_ok :
  let expand := alwaysexpand || negb (ebitmap_is_empty (ts_negset set)) || ctrue (ts_flags set) in
  xrun (xbits (ts_types set) (expand_type nprim tvs expand) ebitmap_init) (fun e => ebitmap_ok e /\ forall b, b ∈ ebitmap_set e <-> names_type b).
Proof using HR.
  intros expand. eapply xok_mono; [apply (xok_bits_collect (ts_types set) (expand_type nprim tvs expand)
    (fun i b => exists k d, tvs !! Z.to_nat i = Some (Some (k, d)) /\ if expands d then b ∈ ebitmap_set (type_types d) else b = i)); [apply HR|]|].
  - intros i e1 Hi He1. pose proof (bits_range _ _ (tsr_types HR) Hi) as Hr. unfold expand_type. destruct (Z.leb_spec nprim i).
    { apply xok_fail. apply not_true_is_false. intros Hs. destruct (tsr_named HR Hs i Hi). lia. }
    destruct (place i) as [t Ht]; [lia|]. rewrite Ht. destruct t as [[k d]|].
    2: { apply xok_fail. apply not_true_is_false. intros Hs. destruct (tsr_named HR Hs i Hi) as [_ [? Hd]]. congruence. }
    change ((type_flavor d =? TYPE_ATTRIB) && (expand || _)) with (expands d).
    apply (xok_added _ _ (fun b => if expands d then b ∈ ebitmap_set (type_types d) else b = i)); [naive_solver|].
    destruct (expands d); [apply xok_add_union; [done|by eapply (tsr_attr HR)]|apply xok_add; [done|by left]].
  - intros e [He H]. split; [done|]. intros b. rewrite H. unfold names_type. naive_solver.
Qed.

Lemma expand_negs_ok :
  xrun (xbits (ts_negset set) (expand_neg tvs) ebitmap_init) (fun e => ebitmap_ok e /\ forall b, b ∈ ebitmap_set e <-> excludes_type b).
Proof using HR.
  eapply xok_mono; [apply (xok_bits_collect (ts_negset set) (expand_neg tvs)
    (fun i b => exists t, tvs !! Z.to_nat i = Some t /\ match t with Some (_, d) => if type_flavor d =? TYPE_ATTRIB then b ∈ ebitmap_set (type_types d) else b = i | None => b = i end)); [apply HR|]|].
  - intros i e1 Hi He1. pose proof (tsr_excluded HR i Hi) as Hr. destruct (place i Hr) as [t Ht]. unfold expand_neg. rewrite Ht.
    apply (xok_added _ _ (fun b => match t with Some (_, d) => if type_flavor d =? TYPE_ATTRIB then b ∈ ebitmap_set (type_types d) else b = i | None => b = i end)); [naive_solver|].
    destruct t as [[k d]|]; [|by apply xok_add; [|right]]. destruct (type_flavor d =? TYPE_ATTRIB); [apply xok_add_union; [done|by eapply (tsr_attr HR)]|by apply xok_add; [|right]].
  - intros e [He H]. split; [done|]. intros b. rewrite H. unfold excludes_type. naive_solver.
Qed.

Lemma attribute_at b t : tvs !! Z.to_nat b = Some t -> attribute b <-> is_attrib t = true.
Proof using HR. unfold attribute. naive_solver. Qed.

Lemma expand_star_ok neg :
  ebitmap_ok neg ->
  xrun (xupto nprim (expand_star tvs neg) ebitmap_init)
      (fun e => ebitmap_ok e /\ forall b, b ∈ ebitmap_set e <-> 0 <= b < nprim /\ ~ attribute b /\ b ∉ ebitmap_set neg).
Proof using HR.
  intros Hneg. eapply xok_mono; [apply (xok_upto nprim (expand_star tvs neg) (fun b _ => ~ attribute b /\ b ∉ ebitmap_set neg)); [apply HR|done|]|].
  - intros i e1 Hi He1 Hsame. destruct (place i Hi) as [t Ht]. unfold expand_star. rewrite get_bit_member by done. rewrite Ht.
    assert (Hno : i ∉ ebitmap_set e1) by (rewrite Hsame; by vm_compute).
    assert (Hkeep : (attribute i \/ i ∈ ebitmap_set neg) ->
      xrun (xret e1) (fun e' => ebitmap_ok e' /\ forall b, b ∈ ebitmap_set e' <-> if decide (b = i) then ~ attribute i /\ i ∉ ebitmap_set neg else b ∈ ebitmap_set e1)).
    { intros Hor. apply xok_ret. split; [done|]. intros b. destruct (decide (b = i)); naive_solver. }
    case_bool_decide; [by apply Hkeep; right|]. destruct (is_attrib t) eqn:Ha; [by apply Hkeep; left; apply (attribute_at i t)|].
    eapply xok_mono; [by apply xok_add; [|right]|]. intros e' [He' H']. split; [done|]. intros b. rewrite H'. pose proof (attribute_at i t Ht) as Hat. rewrite Ha in Hat.
    destruct (decide (b = i)) as [->|]; [|by split; [intros [?|?]|left]]. split; [|by right]. intros _. split; [|done]. by rewrite Hat.
  - intros e [He H]. split; [done|]. intros b. rewrite H. destruct (decide (0 <= b < nprim)); [naive_solver|].
    split; [intros Hb; by vm_compute in Hb|naive_solver].
Qed.

Lemma expand_comp_ok t0 :
  ebitmap_ok t0 -> (forall b, 0 <= b < nprim -> attribute b -> b ∉ ebitmap_set t0) ->
  xrun (xupto nprim (expand_comp tvs) t0)
      (fun e => ebitmap_ok e /\ forall b, b ∈ ebitmap_set e <-> if bool_decide (0 <= b < nprim) then ~ attribute b /\ b ∉ ebitmap_set t0 else b ∈ ebitmap_set t0).
Proof using HR.
  intros Ht0 Hattr. eapply xok_mono; [apply (xok_upto nprim (expand_comp tvs) (fun b P => ~ attribute b /\ ~ P)); [apply HR|done|]|].
  - intros i e1 Hi He1 Hsame. destruct (place i Hi) as [t Ht]. unfold expand_comp. rewrite get_bit_member, Ht by done.
    assert (Hroom : 0 <= i < 2 ^ 32 - 64 \/ strict = false /\ in_range 32 i).
    { pose proof (tsr_nprim HR). pose proof (tsr_room HR). destruct strict; [left; intuition lia|]. unfold in_range in *. right. split; [done|lia]. }
    pose proof (attribute_at i t Ht) as Hat. destruct (is_attrib t) eqn:Ha.
    + assert (i ∉ ebitmap_set e1) by (rewrite Hsame; apply Hattr; [done|by apply (attribute_at i t)]).
      rewrite bool_decide_false by done. apply xok_ret. split; [done|]. intros b. destruct (decide (b = i)); naive_solver.
    + case_bool_decide; (eapply xok_mono; [by apply xok_set|]); intros e' [He' ->]; (split; [done|]); intros b; simpl; destruct (decide (b = i)); set_solver.
  - intros e [He H]. split; [done|]. intros b. rewrite H. case_bool_decide; [by rewrite decide_True|by rewrite decide_False].
Qed.

Lemma type_set_expand_ok :
  xrun (type_set_expand nprim tvs set alwaysexpand) (fun t => ebitmap_ok t /\ forall b, b ∈ ebitmap_set t <-> type_set_member b).
Proof using HR.
  unfold type_set_expand. eapply xok_bind; [apply expand_types_ok|]. intros types [Htypes Hin].
  eapply xok_bind; [apply expand_negs_ok|]. intros neg [Hneg Hex]. unfold type_set_member.
  destruct (ctrue (Z.land (ts_flags set) TYPE_STAR)).
  { eapply xok_mono; [by apply expand_star_ok|]. intros e [He H]. split; [done|]. intros b. by rewrite H, Hex. }
  eapply xok_bind.
  { apply (xok_bits_collect types _ (fun i b => b = i /\ ~ excludes_type i)); [done|].
    intros i e1 Hi He1. rewrite get_bit_member by done. pose proof (bits_range _ _ Htypes Hi) as Hr.
    case_bool_decide as Hb; rewrite Hex in Hb.
    - apply xok_ret. split; [done|]. naive_solver.
    - eapply xok_mono; [by apply xok_add; [|left]|]. intros e' [He' H']. split; [done|]. intros b. rewrite H'. naive_solver. }
  intros t [Ht Hm]. assert (Hm' : forall b, b ∈ ebitmap_set t <-> names_type b /\ ~ excludes_type b).
  { intros b. rewrite Hm. setoid_rewrite Hin. naive_solver. }
  destruct (ctrue (Z.land (ts_flags set) TYPE_COMP)) eqn:Hc; [|by apply xok_ret]. cbn [andb].
  eapply xok_mono; [apply expand_comp_ok; [done|]|].
  - intros b Hb Ha. rewrite Hm'. intros [Hn _]. by apply (tsr_comp HR Hc b Hb Ha).
  - intros e [He H]. split; [done|]. intros b. rewrite H. case_bool_decide; by rewrite Hm'.
Qed.
End TypeSets.
End Strict.
#[global] Arguments type_set_ready strict nprim tvs set alwaysexpand : clear implicits.

(** C31: when memory does not run out, [type_set_expand] builds the bitmap of
    exactly the types the set stands for: the types it names, attributes being
    replaced by their types where they are to be expanded, without the
    excluded ones; all other types when the set is complemented; every type
    but the excluded ones when it is a star. *)
Theorem type_set_expand_spec nprim tvs set alwaysexpand o :
  type_set_ready true nprim tvs set alwaysexpand -> mem_ok o ->
  exists t o', type_set_expand nprim tvs set alwaysexpand o = Some (Some t, o') /\ mem_ok o' /\ ebitmap_ok t /\
    forall b, b ∈ ebitmap_set t <-> type_set_member nprim tvs set alwaysexpand b.
Proof. intros HR M. by apply xok_elim; [apply type_set_expand_ok|]. Qed.

(** ** Sets of roles *)

(** The roles the set stands for. *)
Definition role_set_member (nroles : Z) (x : role_set) (b : Z) : Prop :=
  if ctrue (Z.land (rs_flags x) ROLE_STAR) then 0 <= b < nroles
  else if ctrue (Z.land (rs_flags x) ROLE_COMP) && bool_decide (0 <= b < nroles)
       then b ∉ ebitmap_set (rs_roles x) else b ∈ ebitmap_set (rs_roles x).

Definition role_set_ready (strict : bool) (nroles : Z) (x : role_set) : Prop :=
  in_range 32 nroles /\ (strict = true -> nroles <= 2 ^ 32 - 64) /\ ebitmap_ok (rs_roles x).

Lemma role_set_expand_ok strict nroles x :
  role_set_ready strict nroles x ->
  xruns strict (role_set_expand nroles x) (fun r => ebitmap_ok r /\ forall b, b ∈ ebitmap_set r <-> role_set_member nroles x b).
Proof.
  intros (Hn & Hroom & Hok).
  assert (Hr : forall i, 0 <= i < nroles -> 0 <= i < 2 ^ 32 - 64 \/ strict = false /\ in_range 32 i).
  { intros i Hi. unfold in_range in *. destruct strict; [left; intuition lia|right; split; [done|lia]]. }
  unfold in_range in Hn. unfold role_set_expand, role_set_member. destruct (ctrue (Z.land (rs_flags x) ROLE_STAR)).
  { eapply xok_mono; [apply (xok_upto nroles _ (fun _ _ => True)); [lia|done|]|].
    - intros i e1 Hi He1 _. eapply xok_mono; [apply xok_set; [done|auto]|]. intros e' [He' ->]. split; [done|].
      intros b. simpl. destruct (decide (b = i)); set_solver.
    - intros e [He H]. split; [done|]. intros b. rewrite H. destruct (decide (0 <= b < nroles)); [done|].
      split; [|done]. intros Hb. by vm_compute in Hb. }
  eapply xok_bind; [apply xok_cpy|]. intros ? <-. eapply xok_bind.
  { apply (xok_bits_collect (rs_roles x) _ (fun i b => b = i)); [done|]. intros i e1 Hi He1.
    eapply xok_mono; [apply xok_set; [done|left; by apply (bits_range _ _ Hok)]|]. intros e' [He' ->]. split; [done|]. intros b. simpl. set_solver. }
  intros r [Hr' Hm]. assert (Hm' : forall b, b ∈ ebitmap_set r <-> b ∈ ebitmap_set (rs_roles x)) by (intros b; rewrite Hm; naive_solver).
  destruct (ctrue (Z.land (rs_flags x) ROLE_COMP)); [|by apply xok_ret]. cbn [andb].
  eapply xok_mono; [apply (xok_upto nroles _ (fun _ P => ~ P)); [lia|done|]|].
  - intros i e1 Hi He1 Hsame. rewrite get_bit_member by done. case_bool_decide; (eapply xok_mono; [apply xok_set; [done|auto]|]);
      intros e' [He' ->]; (split; [done|]); intros b; simpl; destruct (decide (b = i)); set_solver.
  - intros e [He H]. split; [done|]. intros b. rewrite H. case_bool_decide; [rewrite decide_True by done|rewrite decide_False by done]; by rewrite Hm'.
Qed.
