(* ===== verification/IndexAll.v ===== *)
(** * IndexAll: the indexes and caches of a kernel policy

    [policydb_index_others] on a kernel policy: every array is the inverse of
    its symbol table, the cache of every role is the expansion of its type
    set, and the cache of every user that of its role set. *)
From Stdlib Require Import ZArith Lia Bool.
From stdpp Require Import base option list list_numbers gmap sets.
From S2P Require Import Prelude PolicyFile Ebitmap EbitmapThms EbitmapRange EbitmapIO Hashtab HashtabThms Symtab Avtab AvtabIO Cond Codec Symbols SymCodec SymbolsIO TransIns TransFt Index IndexThms ExpandThms.

(** ** One table *)

(** An allocation by itself. *)
Lemma xok_malloc {strict A} (a : A) : xruns strict (fun o => let '(ok, o) := malloc o in Some ((if ok then Some a else None), o)) (eq a).
Proof.
  intros o M. destruct (malloc o) as [ok o'] eqn:E. eexists _, o'. split; [done|]. split.
  - intros Hs. by destruct (malloc_mem_ok _ _ _ E (M Hs)) as [-> M'].
  - destruct ok; [|done]. by intros ? [= <-].
Qed.

Lemma xok_calloc {strict A} n : xruns strict (@xcalloc A n) (eq (replicate (Z.to_nat n) None)).
Proof.
  eapply (xok_ext (fun o => let '(ok, o) := malloc o in Some ((if ok then Some (replicate (Z.to_nat n) None) else None), o))); [|apply xok_malloc].
  intros o. unfold xcalloc, calloc_array. by destruct (malloc o).
Qed.

Lemma inverse_nothing {D} (val : D -> option Z) m : inverse val 0 m ([], []).
Proof. split_and!; [done..| |]; intros; lia. Qed.

Section Strict.
Context {strict : bool}.
Abbreviation xrun := (xruns strict).

Section Table.
Context {D : Type} (val : D -> option Z) (t : symtab D).
Context (Hix : indexable val t) (Hv : strict = true -> table_values_ok val t).

Lemma xok_index {S} (f : cstring -> D -> names * S -> option (Z * (names * S))) (part : names * structs D -> names * S) s0 :
  (forall k d st, (forall v, val d = Some v -> 0 <= v) -> sized (st_nprim t) st -> f k d (part st) = Some ((index_by val (st_nprim t) k d st).1, part (index_by val (st_nprim t) k d st).2)) ->
  part (replicate (Z.to_nat (st_nprim t)) None, replicate (Z.to_nat (st_nprim t)) None) = (replicate (Z.to_nat (st_nprim t)) None, s0) ->
  xrun (index_names t f s0) (fun r => exists st, r = part st /\ inverse val (st_nprim t) (symtab_abs t) st).
Proof using Hix Hv.
  intros Hf Hpart. destruct Hix as (h & E & Hok & Hn). unfold index_names. unfold table_values_ok, symtab_abs in *. rewrite E in *.
  destruct (ctrue (st_nprim t)) eqn:Hc; [|apply ctrue_false in Hc; rewrite Hc in Hpart |- *; apply xok_ret; exists ([], []); split; [by symmetry|apply inverse_nothing]].
  eapply xok_bind; [apply xok_calloc|]. intros ? <-. rewrite <- Hpart. intros o M. destruct (xindex_cases val (st_nprim t) f part h o Hok Hn Hf) as (r & -> & H).
  exists r, o. split; [done|]. split; [intros Hs; split; [auto|]; destruct r; [done|]; by destruct (H (Hv Hs))|]. intros a ->. apply H.
Qed.

Lemma xok_index_structs f :
  (forall k d st, (forall v, val d = Some v -> 0 <= v) -> sized (st_nprim t) st -> f k d st = Some (index_by val (st_nprim t) k d st)) ->
  xrun (index_names t f (replicate (Z.to_nat (st_nprim t)) None)) (inverse val (st_nprim t) (symtab_abs t)).
Proof using Hix Hv.
  intros Hf. eapply xok_mono; [apply (xok_index f id)|intros r (st & -> & H); exact H]; [|done]. intros k d st Hd Hst. unfold id. rewrite Hf by done. by destruct (index_by _ _ _ _ _).
Qed.

Lemma xok_index_names f :
  (forall k d st, (forall v, val d = Some v -> 0 <= v) -> sized (st_nprim t) st ->
     f k d st.1 = Some ((index_by val (st_nprim t) k d st).1, (index_by val (st_nprim t) k d st).2.1)) ->
  xrun (index_names t (names_only f) tt) (fun r => inverse_names val (st_nprim t) (symtab_abs t) r.1).
Proof using Hix Hv.
  intros Hf. eapply xok_mono; [apply (xok_index (names_only f) (fun st => (st.1, tt)))|intros r (st & -> & H); exists st.2; by destruct st]; [|done].
  intros k d st Hd Hst. unfold names_only. cbn [fst]. by rewrite Hf.
Qed.
End Table.

(** The array of booleans holds the data without their names. *)
Definition bools_of (st : structs cond_bool_datum) : bools := map (option_map snd) st.

Lemma bool_index_by nprim k d st :
  0 <= bool_value d -> sized nprim st ->
  bool_index nprim k d (st.1, bools_of st.2) = Some ((index_by bool_val nprim k d st).1, ((index_by bool_val nprim k d st).2.1, bools_of (index_by bool_val nprim k d st).2.2)).
Proof.
  intros Hv [H1 H2]. unfold bool_index, cond_index_bool, index_by, bool_val, value_isvalid. cbn [fst snd].
  rewrite negb_involutive. destruct (negb (ctrue (bool_value d)) || (nprim <? bool_value d)) eqn:E; [done|].
  assert (Hr : 0 < bool_value d <= nprim) by (unfold ctrue in E; lia).
  destruct (lookup_lt_is_Some_2 st.1 (Z.to_nat (bool_value d - 1))) as [x Hx]; [lia|]. destruct (lookup_lt_is_Some_2 st.2 (Z.to_nat (bool_value d - 1))) as [y Hy]; [lia|].
  rewrite Hx. cbn [mbind option_bind]. destruct x; [done|]. unfold bools_of. change (map (option_map snd) st.2) with (option_map snd <$> st.2).
  rewrite list_lookup_fmap, Hy. cbn. do 3 f_equal. symmetry. apply (list_fmap_insert (option_map snd) st.2 _ (Some (k, d))).
Qed.

Lemma xok_index_bools t :
  indexable bool_val t -> (strict = true -> table_values_ok bool_val t) ->
  xrun (index_names t (bool_index (st_nprim t)) (replicate (Z.to_nat (st_nprim t)) None))
      (fun r => exists st, inverse bool_val (st_nprim t) (symtab_abs t) (r.1, st) /\ r.2 = bools_of st).
Proof.
  intros Hix Hv. eapply xok_mono; [apply (xok_index bool_val t Hix Hv _ (fun st => (st.1, bools_of st.2)))|].
  - intros k d st Hd Hst. apply bool_index_by; [by apply Hd|done].
  - cbn [fst snd]. f_equal. unfold bools_of. change (map (option_map snd)) with (fmap (M := list) (option_map (@snd cstring cond_bool_datum))). by rewrite fmap_replicate.
  - intros r (st & -> & H). exists st.2. by destruct st.
Qed.

(** ** The caches *)

(** A cache for every symbol of the table. *)
Definition cached {D C} (P : D -> C -> Prop) (m : gmap cstring D) (caches : gmap cstring C) : Prop :=
  forall k, match m !! k with
            | Some d => exists c, caches !! k = Some c /\ P d c
            | None => caches !! k = None
            end.

Lemma xok_caches {D C} (h : hashtab cstring D) (f : cstring -> D -> gmap cstring C -> X (gmap cstring C)) (P : D -> C -> Prop) :
  hashtab_ok h ->
  (forall k d m, hashtab_abs h !! k = Some d -> xrun (f k d m) (fun m' => exists c, m' = <[k := c]> m /\ P d c)) ->
  xrun (xtable (Some h) f ∅) (cached P (hashtab_abs h)).
Proof.
  intros Hok Hf. pose proof (bindings_nodup h Hok) as ND. cbn [bindings] in ND. unfold xtable, bindings.
  eapply xok_mono; [apply (xok_fold _ (concat (htable h)) (fun done m => cached P (list_to_map done) m))|].
  - intros k. simpl. by rewrite !lookup_empty.
  - intros done [k d] todo m El Hm. eapply xok_mono.
    + apply Hf. simpl. unfold hashtab_abs. apply elem_of_list_to_map_1; [done|]. rewrite El. set_solver.
    + intros m' (c & -> & Hc) k'. simpl in *. rewrite El, fmap_app in ND. apply NoDup_app in ND as (_ & Hd & _).
      rewrite list_to_map_snoc by (intros Hin; apply (Hd k Hin); simpl; left).
      destruct (decide (k' = k)) as [->|]; [rewrite !lookup_insert_eq; eauto|]. rewrite !lookup_insert_ne by done. apply Hm.
  - intros m Hm. exact Hm.
Qed.

(** ** The whole of [policydb_index_others] *)

(** What is needed of a kernel policy: tables, and type and role sets whose
    expansion goes wrong nowhere; for success, valid and distinct values. *)
Record others_ready (s : symbols) : Prop := mk_others_ready {
  or_roles : indexable role_val (p_roles s) /\ (strict = true -> table_values_ok role_val (p_roles s));
  or_types : indexable type_val (p_types s) /\ (strict = true -> table_values_ok type_val (p_types s));
  or_users : indexable user_val (p_users s) /\ (strict = true -> table_values_ok user_val (p_users s));
  or_bools : indexable bool_val (p_bools s) /\ (strict = true -> table_values_ok bool_val (p_bools s));
  or_sens : indexable sens_val (p_levels s) /\ (strict = true -> table_values_ok sens_val (p_levels s));
  or_cats : indexable cat_val (p_cats s) /\ (strict = true -> table_values_ok cat_val (p_cats s));
  or_type_sets : forall k role st, symtab_abs (p_roles s) !! k = Some role -> inverse type_val (st_nprim (p_types s)) (symtab_abs (p_types s)) st ->
    type_set_ready strict (st_nprim (p_types s)) st.2 (role_types role) true;
  or_role_sets : forall k user, symtab_abs (p_users s) !! k = Some user -> role_set_ready strict (st_nprim (p_roles s)) (user_roles user) }.

Definition others_indexed (s : symbols) (ix : indexes) : Prop :=
  inverse role_val (st_nprim (p_roles s)) (symtab_abs (p_roles s)) (ix_roles ix) /\
  inverse type_val (st_nprim (p_types s)) (symtab_abs (p_types s)) (ix_types ix) /\
  inverse user_val (st_nprim (p_users s)) (symtab_abs (p_users s)) (ix_users ix) /\
  (exists st, inverse bool_val (st_nprim (p_bools s)) (symtab_abs (p_bools s)) ((ix_bools ix).1, st) /\ (ix_bools ix).2 = bools_of st) /\
  inverse_names sens_val (st_nprim (p_levels s)) (symtab_abs (p_levels s)) (ix_sens ix) /\
  inverse_names cat_val (st_nprim (p_cats s)) (symtab_abs (p_cats s)) (ix_cats ix) /\
  cached (fun role cache => ebitmap_ok cache /\ forall b, b ∈ ebitmap_set cache <->
            type_set_member (st_nprim (p_types s)) (ix_types ix).2 (role_types role) true b)
         (symtab_abs (p_roles s)) (role_caches ix) /\
  cached (fun user c => (ebitmap_ok (uc_roles c) /\ forall b, b ∈ ebitmap_set (uc_roles c) <-> role_set_member (st_nprim (p_roles s)) (user_roles user) b) /\
            uc_range c = user_exp_range user /\ uc_dfltlevel c = user_exp_dfltlevel user)
         (symtab_abs (p_users s)) (user_caches ix).

Lemma xok_bool_structs n : xrun (xbool_structs n) (eq (replicate (Z.to_nat n) None)).
Proof using Type.
  eapply (xok_ext (fun o => let '(ok, o) := malloc o in Some ((if ok then Some (replicate (Z.to_nat n) None) else None), o))); [|apply xok_malloc].
  intros o. unfold xbool_structs, cond_init_bool_indexes. by destruct (malloc o) as [[] ?].
Qed.

Section Spec.
Context (p : pol) (mls : bool) (s : symbols).
Context (Hkern : is_kern p = true) (HR : others_ready s).

Lemma role_caches_ok types :
  inverse type_val (st_nprim (p_types s)) (symtab_abs (p_types s)) types ->
  xrun (xtable (st_table (p_roles s)) (policydb_role_cache s types.2) ∅)
    (cached (fun role cache => ebitmap_ok cache /\ forall b, b ∈ ebitmap_set cache <->
               type_set_member (st_nprim (p_types s)) types.2 (role_types role) true b) (symtab_abs (p_roles s))).
Proof using HR.
  intros Ht. destruct (or_roles s HR) as [(h & E & Hok & _) _]. pose proof (or_type_sets s HR) as Hr. unfold symtab_abs in *. rewrite E in *.
  apply xok_caches; [done|]. intros k d m Hk. unfold policydb_role_cache.
  eapply xok_bind; [apply type_set_expand_ok; by eapply Hr|]. intros cache Hc. apply xok_ret. eauto.
Qed.

Lemma user_caches_ok sn cn :
  xrun (xtable (st_table (p_users s)) (policydb_user_cache p mls s sn cn) ∅)
    (cached (fun user c => (ebitmap_ok (uc_roles c) /\ forall b, b ∈ ebitmap_set (uc_roles c) <-> role_set_member (st_nprim (p_roles s)) (user_roles user) b) /\
               uc_range c = user_exp_range user /\ uc_dfltlevel c = user_exp_dfltlevel user) (symtab_abs (p_users s))).
Proof using Hkern HR.
  destruct (or_users s HR) as [(h & E & Hok & _) _]. pose proof (or_role_sets s HR) as Hr. unfold symtab_abs in *. rewrite E in *.
  apply xok_caches; [done|]. intros k d m Hk. unfold policydb_user_cache. rewrite Hkern. cbn [negb andb].
  eapply xok_bind; [apply role_set_expand_ok; by eapply Hr|]. intros cache Hc. apply xok_ret. eauto.
Qed.

Lemma index_others_ok : xrun (policydb_index_others p mls s) (others_indexed s).
Proof using Hkern HR.
  destruct HR as [[Ir Vr] [It Vt] [Iu Vu] [Ib Vb] [Il Vl] [Ic Vc] _ _]. unfold policydb_index_others.
  do 3 (eapply xok_bind; [apply xok_calloc|]; intros ? <-). eapply xok_bind; [apply xok_bool_structs|]; intros ? <-.
  eapply xok_bind; [apply (xok_index_structs role_val); [done..|]|]. { intros k d st Hd Hst. apply index_struct_by; [done|by apply Hd|done]. }
  intros roles Hro. eapply xok_bind; [apply (xok_index_structs type_val); [done..|]|].
  { intros k d st Hd Hst. unfold type_index, type_val in *. destruct (ctrue _) eqn:E; [apply index_struct_by; [by rewrite E|by apply Hd|done]|]. unfold index_by. by rewrite E. }
  intros types Hty. eapply xok_bind; [apply (xok_index_structs user_val); [done..|]|]. { intros k d st Hd Hst. apply index_struct_by; [done|by apply Hd|done]. }
  intros users Hus.
  eapply xok_bind; [by apply xok_index_bools|]. intros bools Hbo.
  eapply xok_bind; [apply (xok_index_names sens_val); [done..|]|]. { intros k d st Hd Hst. unfold sens_index, sens_val in *. destruct (ctrue _) eqn:E; cbn [negb]; [unfold index_by; by rewrite E|]. apply index_name_by; [by rewrite E|by apply Hd|done]. }
  intros senss Hse. eapply xok_bind; [apply (xok_index_names cat_val); [done..|]|]. { intros k d st Hd Hst. unfold cat_index, cat_val in *. destruct (ctrue _) eqn:E; cbn [negb]; [unfold index_by; by rewrite E|]. apply index_name_by; [by rewrite E|by apply Hd|done]. }
  intros cats Hca. eapply xok_bind; [by apply role_caches_ok|]. intros rc Hrc. eapply xok_bind; [apply user_caches_ok|]. intros uc Huc.
  apply xok_ret. by split_and!.
Qed.
End Spec.
End Strict.
#[global] Arguments others_ready strict s : clear implicits.

(** C30: on a kernel policy whose tables hold valid and distinct values and
    whose type and role sets can be expanded, [policydb_index_others] succeeds
    when memory does not run out: every array is the inverse of its symbol
    table, every role caches exactly the types its type set stands for, every
    user the roles its role set stands for, with the range and default level
    read from the policy. *)
Theorem policydb_index_others_spec p mls s o :
  is_kern p = true -> others_ready true s -> mem_ok o ->
  exists ix o', policydb_index_others p mls s o = Some (Some ix, o') /\ mem_ok o' /\ others_indexed s ix.
Proof. intros Hk HR M. by apply xok_elim; [apply index_others_ok|]. Qed.
