(* ===== verification/IndexSample.v ===== *)
(** * IndexSample: concrete indexes and sets

    Witnesses for the theorems on index arrays and on the expansion of
    sets. *)
From Stdlib Require Import ZArith Lia Bool.
From stdpp Require Import base option list list_numbers gmap sets.
From S2P Require Import Prelude PolicyFile Ebitmap EbitmapThms EbitmapRange EbitmapIO Hashtab HashtabThms Symtab Avtab AvtabIO Cond Codec Symbols SymCodec SymbolsIO SymbolsThms SymbolsSample TransIns TransFt Index IndexThms ExpandThms IndexAll.

Definition bit_set (bits : Z) : ebitmap := mk_ebitmap [mk_node 0 bits] 64.

(** To show something of every bit of a concrete set. *)
Lemma bits_forall e (P : Z -> Prop) : Forall P (nodes_bits (node e)) -> forall b, b ∈ ebitmap_set e -> P b.
Proof. intros H b Hb. apply elem_of_bits in Hb. rewrite Forall_forall in H. by apply H. Qed.

Ltac bits := apply bits_forall; vm_compute nodes_bits; repeat constructor; simpl; eauto; try lia.

(** ** One symbol of each kind *)

Definition ix_symbols : symbols :=
  mk_symbols (one [102] sample_common) (one [99] sample_class)
    (one [114] (mk_role_datum 1 ebitmap_init (mk_type_set (bit_set 1) ebitmap_init 0) 0 0 ebitmap_init)) (one [116] sample_type)
    (one [117] (mk_user_datum 1 (mk_role_set (bit_set 1) 0) (mk_semantic_range empty_semantic_level empty_semantic_level) empty_semantic_level
                  (mk_mls_range sample_level sample_level) sample_level 0))
    (one [98] (mk_cond_bool_datum 1 1 0)) (one [115; 48] (mk_level_datum sample_level 0)) (one [99; 48] (mk_cat_datum 1 0)).

Lemma one_abs {D} k (d : D) k' d' : symtab_abs (one k d) !! k' = Some d' -> k' = k /\ d' = d.
Proof. unfold symtab_abs, hashtab_abs. simpl. rewrite insert_empty. intros [-> ->]%lookup_singleton_Some. done. Qed.

Lemma one_indexable {D} (val : D -> option Z) k d : val d = Some 1 -> indexable val (one k d) /\ table_values_ok val (one k d).
Proof.
  intros Hd. split.
  - exists (one_table k d). split_and!; [done|apply one_table_ok|]. intros k' d' [-> ->]%(one_abs k d) v Hv. rewrite Hd in Hv. simplify_eq. lia.
  - split.
    + intros k' d' v [-> ->]%one_abs Hv. rewrite Hd in Hv. simplify_eq. simpl. lia.
    + by intros k1 k2 d1 d2 v [-> ->]%one_abs [-> ->]%one_abs _ _.
Qed.

Lemma policydb_index_classes_witness :
  match policydb_index_classes ix_symbols [] with
  | Some (Some ci, _) =>
      table_values_ok common_val (p_commons ix_symbols) /\ table_values_ok class_val (p_classes ix_symbols) /\
      inverse_names common_val 1 (symtab_abs (p_commons ix_symbols)) (p_common_val_to_name ci) /\
      inverse class_val 1 (symtab_abs (p_classes ix_symbols)) (p_class_val_to_name ci, class_val_to_struct ci)
  | Some (None, _) => ~ (table_values_ok common_val (p_commons ix_symbols) /\ table_values_ok class_val (p_classes ix_symbols))
  | None => False
  end.
Proof. apply (policydb_index_classes_spec ix_symbols []); [by apply one_indexable..|constructor]. Defined.

Lemma bit_set_one : ebitmap_ok (bit_set 1) /\ forall b, b ∈ ebitmap_set (bit_set 1) -> 0 <= b < 1.
Proof. split; [concrete|]. bits. Qed.

Lemma ix_types st :
  inverse type_val 1 (symtab_abs (p_types ix_symbols)) st -> st.2 = [Some ([116], sample_type)].
Proof.
  intros (_ & Hl & Hs & _). destruct st as [n [|x [|y l]]]; try done. simpl in *.
  assert (H : [x] !! 0%nat = Some (Some ([116], sample_type))) by by apply (Hs 1). simpl in H. by simplify_eq.
Qed.

(** Tables that are ready in any case. *)
Lemma ready_always {D} (val : D -> option Z) t strict :
  indexable val t /\ table_values_ok val t -> indexable val t /\ (strict = true -> table_values_ok val t).
Proof. intros [? ?]. by split. Qed.

Lemma ix_ready : others_ready true ix_symbols.
Proof.
  constructor; try by apply ready_always, one_indexable.
  - intros k role st [-> ->]%one_abs Hst. rewrite (ix_types st Hst). destruct bit_set_one as [Hok Hb]. constructor; try done.
    + intros _ i Hi. specialize (Hb i Hi). assert (i = 0) as -> by lia. split; [done|by eexists].
    + intros [|i] k d H; by simplify_eq/=.
  - intros k user [-> ->]%one_abs. destruct bit_set_one as [Hok Hb]. by split_and!.
Qed.

Lemma policydb_index_others_witness :
  exists ix o', policydb_index_others sample_pol true ix_symbols [] = Some (Some ix, o') /\ mem_ok o' /\ others_indexed ix_symbols ix.
Proof. apply (policydb_index_others_spec sample_pol true ix_symbols []); [reflexivity|exact ix_ready|constructor]. Defined.

(** ** A type set *)

(** The types 0 and 2, and the attribute 1 of both. *)
Definition ts_structs : structs type_datum :=
  [Some ([97], mk_type_datum 1 1 0 ebitmap_init 0 0); Some ([98], mk_type_datum 2 1 TYPE_ATTRIB (bit_set 5) 0 0);
   Some ([99], mk_type_datum 3 1 0 ebitmap_init 0 0)].

(** The types of the attribute but type 2. *)
Definition ts_sample : type_set := mk_type_set (bit_set 2) (bit_set 4) 0.

Lemma ts_ready : type_set_ready true 3 ts_structs ts_sample true.
Proof.
  constructor; try done.
  - intros _. bits.
  - bits.
  - intros [|[|[|i]]] k d H; simplify_eq/=; concrete.
Qed.

Lemma type_set_expand_witness :
  exists t o', type_set_expand 3 ts_structs ts_sample true [] = Some (Some t, o') /\ mem_ok o' /\ ebitmap_ok t /\
    forall b, b ∈ ebitmap_set t <-> type_set_member 3 ts_structs ts_sample true b.
Proof. apply (type_set_expand_spec 3 ts_structs ts_sample true []); [exact ts_ready|constructor]. Defined.
