(* ===== verification/SymbolsSound.v ===== *)
(** * SymbolsSound: the symbols a kernel policy can bring

    On any bytes: what the readers of the symbol tables of a kernel policy
    accept are well-formed tables of well-formed symbols. *)
From Stdlib Require Import ZArith Lia Bool.
From stdpp Require Import base option list list_numbers gmap sets.
From S2P Require Import Prelude PolicyFile Ebitmap EbitmapThms EbitmapRange EbitmapIO Hashtab HashtabThms Symtab Avtab AvtabThms AvtabIO Cond Codec Symbols SymCodec SymbolsIO SymbolsThms Trans TransIO TransIns TransRT TransFt TransThms Index IndexThms ExpandThms IndexAll.

(** ** Tables *)

Definition table_sound {D} (P : cstring -> D -> Prop) (t : table D) : Prop :=
  exists h, t = Some h /\ hashtab_ok h /\ map_Forall P (hashtab_abs h).

Definition symtab_sound {D} (P : cstring -> D -> Prop) (t : symtab D) : Prop :=
  in_range 32 (st_nprim t) /\ table_sound P (st_table t).

Lemma table_insert_sound {D} (P : cstring -> D -> Prop) t k d : table_sound P t -> P k d -> sound (rinsert t k d) (table_sound P).
Proof.
  intros (h & -> & Hok & Hall) Hd. eapply sound_mono; [by apply sound_insert|]. intros t' (h' & -> & Hok' & Habs).
  exists h'. split_and!; [done..|]. rewrite Habs. by apply map_Forall_insert_2.
Qed.

Lemma table_abs_sound {D} (P : cstring -> D -> Prop) (t : symtab D) : table_sound P (st_table t) -> map_Forall P (symtab_abs t).
Proof. intros (h & E & _ & H). unfold symtab_abs. by rewrite E. Qed.

(** The steps of a reader, one after the other. *)
Ltac sound_step :=
  first [ apply sound_alloc | apply sound_check | apply sound_str | apply sound_ebitmap | apply sound_entry ].
Tactic Notation "reading" simple_intropattern(pat) := eapply sound_bind; [sound_step|intros ? pat].

Lemma symtab_read_sound {D} (P : cstring -> D -> Prop) (f : table D -> R (table D)) s :
  table_sound P (st_table s) -> (forall t, table_sound P t -> sound (f t) (table_sound P)) -> sound (symtab_read f s) (symtab_sound P).
Proof.
  intros H0 Hf. unfold symtab_read. reading [Hb _]. reading _.
  eapply (sound_bind _ _ (fun _ => True)). { intros fp o x fp' o' Hfp E. unfold ravailable in E. case_match; by simplify_eq. }
  intros _ _. reading _. eapply sound_bind; [by apply sound_loop|]. intros t Ht. apply sound_ret. split; [by apply word32_range|done].
Qed.

(** ** Permissions, common and own *)

Definition perms_sound (t : symtab perm_datum) : Prop :=
  0 <= st_nprim t <= 32 /\ table_sound (fun _ d => 0 < perm_value d <= st_nprim t) (st_table t).

Lemma sound_symtab_init P : sound (rsymtab PERM_SYMTAB_SIZE) (table_sound P).
Proof.
  intros fp o t fp' o' Hfp E. unfold rsymtab, symtab_init in E. destruct (hashtab_create PERM_SYMTAB_SIZE o) as [[h|] o1] eqn:Eh; simpl in E; [|done].
  simplify_eq. split; [|done]. apply hashtab_create_spec in Eh as (Hok & Habs); [|done]. exists h. split_and!; [done..|]. rewrite Habs. apply map_Forall_empty.
Qed.

Lemma sound_perms t nprim nel :
  table_sound (fun _ d => 0 < perm_value d <= nprim) t -> sound (perms_read t nprim nel) (table_sound (fun _ d => 0 < perm_value d <= nprim)).
Proof.
  intros Ht. unfold perms_read. apply sound_loop; [done|]. clear t Ht. intros t Ht. unfold perm_read. reading _. reading [Hb _]. reading _. cbv zeta.
  reading Hv. apply table_insert_sound; [done|]. simpl. apply value_isvalid_spec in Hv. pose proof (word32_range a0 1 Hb). unfold in_range in *. lia.
Qed.

Definition common_sound (d : common_datum) : Prop := in_range 32 (com_value d) /\ perms_sound (com_permissions d).

Lemma sound_common t : table_sound (fun _ => common_sound) t -> sound (common_read t) (table_sound (fun _ => common_sound)).
Proof.
  intros Ht. unfold common_read. reading _. reading [Hb _]. reading _. eapply sound_bind; [apply sound_symtab_init|]. intros p0 Hp0. cbv zeta.
  reading Hn. eapply sound_bind; [by apply sound_perms|]. intros perms Hp. apply table_insert_sound; [done|]. split; [by apply word32_range|].
  split; [|done]. cbn. pose proof (word32_range a0 2 Hb). apply Z.leb_le in Hn. unfold in_range, PERM_SYMTAB_SIZE in *. lia.
Qed.

(** ** Classes *)

Definition class_sound (commons : gmap cstring common_datum) (d : class_datum) : Prop :=
  0 <= cla_value d < 2 ^ 16 /\ perms_sound (cla_permissions d) /\ (forall ck, cla_comkey d = Some ck -> is_Some (commons !! ck)) /\
  Forall (cons_node_sound false) (cla_constraints d) /\ Forall (cons_node_sound true) (cla_validatetrans d).

Lemma sound_cons p n x : sound (read_cons_helper p n x) (Forall (cons_node_sound x)).
Proof. eapply sound_mono; [apply read_cons_helper_ok|]. intros l Hl. eapply Forall_impl; [exact Hl|]. by intros c [? _]. Qed.

Lemma sound_class p (commons : symtab common_datum) t :
  table_sound (fun _ => common_sound) (st_table commons) -> table_sound (fun _ => class_sound (symtab_abs commons)) t ->
  sound (class_read p (st_table commons) t) (table_sound (fun _ => class_sound (symtab_abs commons))).
Proof.
  intros (hc & Ec & Hokc & _) Ht. unfold class_read. reading _. reading [Hb _]. reading _. cbv zeta. reading Hv.
  eapply sound_bind; [apply sound_symtab_init|]. intros p0 Hp0. reading Hn.
  eapply (sound_bind _ _ (fun ck => forall k, ck = Some k -> is_Some (symtab_abs commons !! k))).
  { destruct (ctrue _); [|by apply sound_ret]. reading _. reading Hk. apply sound_ret. intros k [= <-]. unfold symtab_abs. rewrite Ec in *.
    rewrite hashtab_search_ok in Hk by done. by destruct (hashtab_abs hc !! _). }
  intros ck Hck. eapply sound_bind; [by apply sound_perms|]. intros perms Hp. eapply sound_bind; [apply sound_cons|]. intros cs Hcs.
  eapply (sound_bind _ _ (Forall (cons_node_sound true))).
  { destruct (kern_or_base _ _ _); [|by apply sound_ret]. reading _. apply sound_cons. }
  intros vs Hvs. eapply (sound_bind _ _ (fun _ => True)). { destruct (kern_or_base _ _ _); [reading _|]; by apply sound_ret. }
  intros [[du dr] drg] _. eapply (sound_bind _ _ (fun _ => True)). { destruct (kern_or_base _ _ _); [reading _|]; by apply sound_ret. }
  intros dt _. apply table_insert_sound; [done|]. pose proof (word32_range a0 2 Hb). pose proof (word32_range a0 3 Hb).
  apply Z.leb_le in Hn, Hv. unfold in_range, PERM_SYMTAB_SIZE in *. split; [cbn; lia|]. split; [|done]. split; [cbn; lia|done].
Qed.

(** ** The other symbols *)

(** A role of a kernel policy names its types one by one. *)
Definition role_sound (d : role_datum) : Prop :=
  in_range 32 (role_value d) /\ ebitmap_ok (ts_types (role_types d)) /\ ts_negset (role_types d) = ebitmap_init /\ ts_flags (role_types d) = 0 /\
  ebitmap_ok (role_dominates d) /\ role_flavor d = 0 /\ role_roles d = ebitmap_init.

Definition type_sound (d : type_datum) : Prop := in_range 32 (type_value d) /\ type_types d = ebitmap_init.

Definition range_sound (r : mls_range) : Prop := level_ok (level0 r) /\ level_ok (level1 r).

Definition user_sound (d : user_datum) : Prop :=
  in_range 32 (user_value d) /\ ebitmap_ok (rs_roles (user_roles d)) /\ rs_flags (user_roles d) = 0 /\
  range_sound (user_exp_range d) /\ level_ok (user_exp_dfltlevel d).

Definition bool_sound (d : cond_bool_datum) : Prop := in_range 32 (bool_value d) /\ (bool_state d = 0 \/ bool_state d = 1).
Definition level_sound (d : level_datum) : Prop := level_ok (lev_level d).
Definition cat_sound (d : cat_datum) : Prop := in_range 32 (cat_value d).

Lemma sound_level : sound mls_read_level level_ok.
Proof. unfold mls_read_level. reading [Hb _]. reading He. apply sound_ret. split; [by apply word32_range|done]. Qed.

Lemma sound_cpy e : sound (rcpy e) (eq e).
Proof.
  intros fp o e' fp' o' Hfp E. unfold rcpy in E. pose proof (cpy_result e o) as H. destruct (ebitmap_cpy e o) as [[rc e1] o1].
  destruct (ctrue rc) eqn:Hrc; simplify_eq. apply ctrue_false in Hrc. split; [|done]. symmetry. auto.
Qed.

Lemma sound_range : sound mls_read_range_helper range_sound.
Proof.
  unfold mls_read_range_helper. reading [Hb _]. cbv zeta. reading Hc. reading [Hb2 _]. reading He0.
  eapply (sound_bind _ _ ebitmap_ok). { destruct (1 <? _); [apply sound_ebitmap|]. eapply sound_mono; [apply sound_cpy|]. by intros ? <-. }
  intros e1 He1. apply sound_ret.
  match goal with |- range_sound (mk_mls_range (mk_mls_level (word32 ?b 0) _) _) => assert (Hw : forall i, in_range 32 (word32 b i)) end.
  { intros i. apply word32_range. apply Forall_app. split; [done|]. by apply Forall_drop. }
  split; (split; [|done]); [apply Hw|]. cbn. destruct (1 <? _); apply Hw.
Qed.

Section Kern.
Context (p : pol) (Hkern : is_kern p = true).

Lemma sound_role t : table_sound (fun _ => role_sound) t -> sound (role_read p t) (table_sound (fun _ => role_sound)).
Proof using Hkern.
  intros Ht. unfold role_read. rewrite Hkern. cbn [negb andb]. reading _. cbv zeta. reading [Hb _]. reading _. reading Hdom.
  eapply (sound_bind _ _ (fun x => exists e, x = mk_type_set e ebitmap_init 0 /\ ebitmap_ok e)). { reading He. apply sound_ret. eauto. }
  intros x (e & -> & He). eapply (sound_bind _ _ (eq (0, ebitmap_init))); [by apply sound_ret|]. intros ? <-.
  destruct (strcmp _ _ =? 0); [reading _; by apply sound_ret|]. apply table_insert_sound; [done|]. split; [by apply word32_range|done].
Qed.

Lemma sound_type t : table_sound (fun _ => type_sound) t -> sound (type_read p t) (table_sound (fun _ => type_sound)).
Proof using Hkern.
  intros Ht. unfold type_read. rewrite Hkern. cbn [negb]. reading _. reading [Hb _]. destruct (type_fields p _) as [[[pr fl] fs] bd].
  eapply (sound_bind _ _ (eq ebitmap_init)); [by apply sound_ret|]. intros ? <-. reading _. apply table_insert_sound; [done|]. split; [by apply word32_range|done].
Qed.

Lemma sound_user t : table_sound (fun _ => user_sound) t -> sound (user_read p t) (table_sound (fun _ => user_sound)).
Proof using Hkern.
  intros Ht. unfold user_read, user_mls_read, is_mod_or_base. pose proof Hkern as Hty. apply Z.eqb_eq in Hty. rewrite Hkern, Hty. cbn [negb andb orb Z.eqb POLICY_MOD POLICY_BASE POLICY_KERN].
  reading _. cbv zeta. reading [Hb _]. reading _. eapply (sound_bind _ _ (fun x => exists e, x = mk_role_set e 0 /\ ebitmap_ok e)). { reading He. apply sound_ret. eauto. }
  intros x (e & -> & He). eapply (sound_bind _ _ (fun r => range_sound r.1.1.1 /\ level_ok r.1.1.2)).
  { destruct (_ <=? _); cbn [orb].
    - eapply sound_bind; [apply sound_range|]. intros r Hr. eapply sound_bind; [apply sound_level|]. intros l Hl. by apply sound_ret.
    - by apply sound_ret. }
  intros [[[r dl] sr] sdl] [Hr Hl]. cbn [fst snd] in *. apply table_insert_sound; [done|]. split; [by apply word32_range|]. by split_and!.
Qed.

Lemma sound_bool t : table_sound (fun _ => bool_sound) t -> sound (cond_read_bool p t) (table_sound (fun _ => bool_sound)).
Proof using Hkern.
  intros Ht. unfold cond_read_bool. rewrite Hkern. cbn [negb andb]. reading _. reading [Hb _]. cbv zeta. reading Hv. reading _.
  eapply (sound_bind _ _ (eq 0)); [by apply sound_ret|]. intros ? <-. apply table_insert_sound; [done|]. split; [by apply word32_range|].
  unfold bool_isvalid in Hv. cbn [bool_state] in *. destruct (Z.eqb_spec (s32 (word32 a0 1)) 0); [by left|]. destruct (Z.eqb_spec (s32 (word32 a0 1)) 1); [by right|done].
Qed.

Lemma sound_sens t : table_sound (fun _ => level_sound) t -> sound (sens_read t) (table_sound (fun _ => level_sound)).
Proof using Type.
  intros Ht. unfold sens_read. reading _. reading _. reading _. reading _. eapply sound_bind; [apply sound_level|]. intros l Hl. by apply table_insert_sound.
Qed.

Lemma sound_cat t : table_sound (fun _ => cat_sound) t -> sound (cat_read t) (table_sound (fun _ => cat_sound)).
Proof using Type.
  intros Ht. unfold cat_read. reading _. reading [Hb _]. reading _. apply table_insert_sound; [done|]. by apply word32_range.
Qed.
End Kern.

(** ** All symbols *)

Definition symbols_sound (s : symbols) : Prop :=
  symtab_sound (fun _ => common_sound) (p_commons s) /\ symtab_sound (fun _ => class_sound (symtab_abs (p_commons s))) (p_classes s) /\
  symtab_sound (fun _ => role_sound) (p_roles s) /\ symtab_sound (fun _ => type_sound) (p_types s) /\
  symtab_sound (fun _ => user_sound) (p_users s) /\ symtab_sound (fun _ => bool_sound) (p_bools s) /\
  symtab_sound (fun _ => level_sound) (p_levels s) /\ symtab_sound (fun _ => cat_sound) (p_cats s).

Lemma start_sound {D} (P : cstring -> D -> Prop) t : symtab_start (fun _ => true) t -> table_sound P (st_table t).
Proof. intros (h & E & Hok & _ & Hno). exists h. split_and!; [done..|]. intros k d Hk. by rewrite Hno in Hk. Qed.

(** What the tables are for the indexes. *)
Lemma sound_indexable {D} (P : cstring -> D -> Prop) (val : D -> option Z) t :
  symtab_sound P t -> (forall k d v, P k d -> val d = Some v -> 0 <= v) -> indexable val t.
Proof. intros [_ (h & E & Hok & Hall)] Hv. exists h. split_and!; [done..|]. intros k d Hk v. by apply (Hv k), (Hall k). Qed.

Lemma symbols_indexable s :
  symbols_sound s ->
  indexable common_val (p_commons s) /\ indexable class_val (p_classes s) /\ indexable role_val (p_roles s) /\ indexable type_val (p_types s) /\
  indexable user_val (p_users s) /\ indexable bool_val (p_bools s) /\ indexable sens_val (p_levels s) /\ indexable cat_val (p_cats s).
Proof.
  intros (H1 & H2 & H3 & H4 & H5 & H6 & H7 & H8). split_and!; (eapply sound_indexable; [done|]); intros k d v Hd Hv.
  - destruct Hd as [Hd _]. injection Hv as <-. apply Hd.
  - destruct Hd as [Hd _]. injection Hv as <-. apply Hd.
  - destruct Hd as [Hd _]. injection Hv as <-. apply Hd.
  - destruct Hd as [Hd _]. unfold type_val in Hv. destruct (ctrue _); simplify_eq. apply Hd.
  - destruct Hd as [Hd _]. injection Hv as <-. apply Hd.
  - destruct Hd as [Hd _]. injection Hv as <-. apply Hd.
  - destruct Hd as [Hd _]. unfold sens_val in Hv. destruct (ctrue _); simplify_eq. apply Hd.
  - unfold cat_val in Hv. destruct (ctrue _); simplify_eq. apply Hd.
Qed.

Lemma sound_levels s : symbols_sound s -> map_Forall (fun _ d => ebitmap_ok (cat (lev_level d))) (symtab_abs (p_levels s)).
Proof.
  intros (_ & _ & _ & _ & _ & _ & [_ H] & _). apply table_abs_sound in H. eapply map_Forall_impl; [exact H|]. by intros k d [_ ?].
Qed.
