(* ===== verification/Contexts.v ===== *)
(** * Contexts: security contexts and the objects labelled with them

    Security contexts and their validity (libsepol/src/context.c, mls.c), the
    initial SIDs, file systems, ports, interfaces, nodes and Xen resources with
    their contexts ([ocontext_t]) and the contexts of files in file systems
    without labels ([genfs_t]): their readers in policydb.c and their writers
    in write.c. *)
From Stdlib Require Import ZArith Lia Bool.
From stdpp Require Import base option list list_numbers gmap sets.
From S2P Require Import Prelude PolicyFile Ebitmap EbitmapThms EbitmapIO Hashtab HashtabThms Symtab Avtab AvtabIO Cond Codec Symbols Trans Index.

Definition OCON_ISID : Z := 0.
Definition OCON_FS : Z := 1.
Definition OCON_PORT : Z := 2.
Definition OCON_NETIF : Z := 3.
Definition OCON_NODE : Z := 4.
Definition OCON_FSUSE : Z := 5.
Definition OCON_NODE6 : Z := 6.
Definition OCON_IBPKEY : Z := 7.
Definition OCON_IBENDPORT : Z := 8.
Definition OCON_XEN_ISID : Z := 0.
Definition OCON_XEN_PIRQ : Z := 1.
Definition OCON_XEN_IOPORT : Z := 2.
Definition OCON_XEN_IOMEM : Z := 3.
Definition OCON_XEN_PCIDEVICE : Z := 4.
Definition OCON_XEN_DEVICETREE : Z := 5.
Definition POLICYDB_VERSION_XEN_DEVICETREE : Z := 30.
Definition IB_DEVICE_NAME_MAX : Z := 64.
Definition SEPOL_TARGET_XEN : Z := 1.

(** ** Data *)

Record context_struct := mk_context { ctx_user : Z; ctx_role : Z; ctx_type : Z; ctx_range : mls_range }.

Definition empty_range : mls_range := mk_mls_range empty_level empty_level.
Definition empty_context : context_struct := mk_context 0 0 0 empty_range.

(** The union [u]; [U_ZERO] is the state [calloc] leaves it in.  Addresses and
    the subnet prefix are kept in network order: the words and bytes of the
    file. *)
Inductive ocontext_u :=
| U_ZERO
| U_NAME (name : cstring)
| U_PORT (protocol low_port high_port : Z)
| U_NODE (addr mask : Z)
| U_NODE6 (addr mask : list Z)
| U_DEVICE (device : Z)
| U_PIRQ (pirq : Z)
| U_IOMEM (low_iomem high_iomem : Z)
| U_IOPORT (low_ioport high_ioport : Z)
| U_IBPKEY (subnet_prefix : list Z) (low_pkey high_pkey : Z)
| U_IBENDPORT (dev_name : cstring) (port : Z).

(** [oc_v] is the union of [sclass] and [behavior]. *)
Record ocontext := mk_ocontext {
  oc_u : ocontext_u; oc_v : Z; oc_context0 : context_struct; oc_context1 : context_struct; oc_sid0 : Z; oc_sid1 : Z }.

Record genfs := mk_genfs { fstype : cstring; head : list ocontext }.

(** ** Validity of contexts *)

(** [mls_range_contains(r1, r2)]. *)
Definition mls_range_contains (r1 r2 : mls_range) : bool :=
  mls_level_dom (level0 r2) (level0 r1) && mls_level_dom (level1 r1) (level1 r2).

Section Valid.
Context (mls : bool) (s : symbols) (ix : indexes).

(** [None]: outside the arrays. *)
Definition level_isvalid (l : mls_level) : option bool :=
  if negb (ctrue (sens l)) || (st_nprim (p_levels s) <? sens l) then Some false else
  key ← ix_sens ix !! Z.to_nat (sens l - 1);
  match key with
  | None => Some false
  | Some key =>
      match hashtab_search (st_table (p_levels s)) key with
      | None => Some false
      | Some levdatum =>
          bits ← for_each_positive_bit (cat l);
          Some (forallb (fun i => negb (st_nprim (p_cats s) <? i) && ctrue (ebitmap_get_bit (cat (lev_level levdatum)) i)) bits)
      end
  end.

Definition mls_context_isvalid (c : context_struct) : option bool :=
  if negb mls then Some true else
  if negb (mls_level_dom (level1 (ctx_range c)) (level0 (ctx_range c))) then Some false else
  v0 ← level_isvalid (level0 (ctx_range c));
  if negb v0 then Some false else
  v1 ← level_isvalid (level1 (ctx_range c));
  if negb v1 then Some false else
  if ctx_role c =? OBJECT_R_VAL then Some true else
  if negb (ctrue (ctx_user c)) || (st_nprim (p_users s) <? ctx_user c) then Some false else
  usrdatum ← (ix_users ix).2 !! Z.to_nat (ctx_user c - 1);
  match usrdatum with
  | None => Some false
  | Some (k, d) =>
      let exp_range := match user_caches ix !! k with Some u => uc_range u | None => user_exp_range d end in
      Some (mls_range_contains exp_range (ctx_range c))
  end.

(** The role's [cache] and the user's: empty until they are filled. *)
Definition role_cache (k : cstring) : ebitmap := default ebitmap_init (role_caches ix !! k).
Definition user_role_cache (k : cstring) : ebitmap :=
  match user_caches ix !! k with Some u => uc_roles u | None => ebitmap_init end.

Definition context_is_valid (c : context_struct) : option bool :=
  if negb (ctrue (ctx_role c)) || (st_nprim (p_roles s) <? ctx_role c) then Some false else
  if negb (ctrue (ctx_user c)) || (st_nprim (p_users s) <? ctx_user c) then Some false else
  if negb (ctrue (ctx_type c)) || (st_nprim (p_types s) <? ctx_type c) then Some false else
  if ctx_role c =? OBJECT_R_VAL then mls_context_isvalid c else
  role ← (ix_roles ix).2 !! Z.to_nat (ctx_role c - 1);
  match role with
  | None => Some false
  | Some (rk, _) =>
      if negb (ctrue (ebitmap_get_bit (role_cache rk) (ctx_type c - 1))) then Some false else
      usrdatum ← (ix_users ix).2 !! Z.to_nat (ctx_user c - 1);
      match usrdatum with
      | None => Some false
      | Some (uk, _) =>
          if negb (ctrue (ebitmap_get_bit (user_role_cache uk) (ctx_role c - 1))) then Some false else mls_context_isvalid c
      end
  end.

Definition policydb_context_isvalid (c : context_struct) : option bool := context_is_valid c.
End Valid.

(** ** Readers that can go wrong *)

(** [None]: outside an array or through a null pointer. *)
Definition RX (A : Type) : Type := policy_file -> oracle -> option (option A * policy_file * oracle).

Definition rxret {A} (a : A) : RX A := fun fp o => Some (Some a, fp, o).
Definition rxbind {A B} (m : RX A) (k : A -> RX B) : RX B :=
  fun fp o => match m fp o with
              | None => None
              | Some (None, fp, o) => Some (None, fp, o)
              | Some (Some a, fp, o) => k a fp o
              end.
Definition of_r {A} (m : R A) : RX A := fun fp o => Some (m fp o).
(** A pure computation that can go wrong. *)
Definition of_option {A} (m : option A) : RX A := fun fp o => match m with None => None | Some a => Some (Some a, fp, o) end.
Notation "x <== m ;; k" := (rxbind m (fun x => k)) (at level 100, m at next level, right associativity).

(** [for (i = 0; i < n; i++)], and a loop that collects what each turn reads. *)
Fixpoint rxloop {S} (n : nat) (f : S -> RX S) (s : S) : RX S :=
  match n with
  | O => rxret s
  | S n => s <== f s ;; rxloop n f s
  end.
Definition rxmany {A} (n : Z) (m : RX A) : RX (list A) :=
  l <== rxloop (Z.to_nat n) (fun l => x <== m ;; rxret (x :: l)) [] ;; rxret (reverse l).

(** ** Readers *)

Section Read.
Context (p : pol) (mls : bool) (s : symbols) (ix : indexes).

(** [if (!policydb_context_isvalid(p, c))]. *)
Definition rvalid (c : context_struct) : RX unit :=
  valid <== of_option (policydb_context_isvalid mls s ix c) ;; of_r (rcheck valid).

Definition context_read_and_validate : RX context_struct :=
  buf <== of_r (rentry 12) ;;
  range <== of_r (if kern_or_base p POLICYDB_VERSION_MLS MOD_POLICYDB_VERSION_MLS then mls_read_range_helper else rret empty_range) ;;
  let c := mk_context (word32 buf 0) (word32 buf 1) (word32 buf 2) range in
  _ <== rvalid c ;; rxret c.

(** The last step of most cases: the one context. *)
Definition labelled (u : ocontext_u) (v sid : Z) : RX ocontext :=
  c <== context_read_and_validate ;; rxret (mk_ocontext u v c empty_context sid 0).

Definition is_saturated32 (x : Z) : bool := x =? 2 ^ 32 - 1.

(** One turn of the inner loop of [ocontext_read_selinux], and below of
    [ocontext_read_xen]. *)
Definition ocontext_read_selinux_one (i : Z) : RX ocontext :=
  _ <== of_r ralloc ;;
  if i =? OCON_ISID then
    buf <== of_r (rentry 4) ;;
    _ <== of_r (rcheck (negb (is_saturated32 (word32 buf 0)))) ;;
    labelled U_ZERO 0 (word32 buf 0)
  else if (i =? OCON_FS) || (i =? OCON_NETIF) then
    buf <== of_r (rentry 4) ;;
    _ <== of_r (rcheck (word32 buf 0 <=? 63)) ;;
    name <== of_r (str_read (word32 buf 0)) ;;
    c0 <== context_read_and_validate ;;
    c1 <== context_read_and_validate ;;
    rxret (mk_ocontext (U_NAME name) 0 c0 c1 0 0)
  else if i =? OCON_IBPKEY then
    buf <== of_r (rentry 16) ;;
    _ <== of_r (rcheck ((word32 buf 2 <=? 65535) && (word32 buf 3 <=? 65535))) ;;
    labelled (U_IBPKEY (take 8 buf) (word32 buf 2) (word32 buf 3)) 0 0
  else if i =? OCON_IBENDPORT then
    buf <== of_r (rentry 8) ;;
    let len := word32 buf 0 in
    _ <== of_r (rcheck (negb ((len =? 0) || (IB_DEVICE_NAME_MAX - 1 <? len)))) ;;
    let port := word32 buf 1 in
    _ <== of_r (rcheck (negb ((255 <? port) || (port =? 0)))) ;;
    name <== of_r (str_read len) ;;
    labelled (U_IBENDPORT name port) 0 0
  else if i =? OCON_PORT then
    buf <== of_r (rentry 12) ;;
    labelled (U_PORT (u8 (word32 buf 0)) (u16 (word32 buf 1)) (u16 (word32 buf 2))) 0 0
  else if i =? OCON_NODE then
    buf <== of_r (rentry 8) ;;
    labelled (U_NODE (word32 buf 0) (word32 buf 1)) 0 0
  else if i =? OCON_FSUSE then
    buf <== of_r (rentry 8) ;;
    name <== of_r (str_read (word32 buf 1)) ;;
    labelled (U_NAME name) (word32 buf 0) 0
  else if i =? OCON_NODE6 then
    buf <== of_r (rentry 32) ;;
    labelled (U_NODE6 [word32 buf 0; word32 buf 1; word32 buf 2; word32 buf 3]
                [word32 buf 4; word32 buf 5; word32 buf 6; word32 buf 7]) 0 0
  else of_r rfail.

Definition ocontext_read_xen_one (i : Z) : RX ocontext :=
  _ <== of_r ralloc ;;
  if i =? OCON_XEN_ISID then
    buf <== of_r (rentry 4) ;;
    _ <== of_r (rcheck (negb (is_saturated32 (word32 buf 0)))) ;;
    labelled U_ZERO 0 (word32 buf 0)
  else if i =? OCON_XEN_PIRQ then
    buf <== of_r (rentry 4) ;;
    labelled (U_PIRQ (u16 (word32 buf 0))) 0 0
  else if i =? OCON_XEN_IOPORT then
    buf <== of_r (rentry 8) ;;
    labelled (U_IOPORT (word32 buf 0) (word32 buf 1)) 0 0
  else if i =? OCON_XEN_IOMEM then
    if POLICYDB_VERSION_XEN_DEVICETREE <=? pol_vers p then
      b64 <== of_r (rentry 16) ;;
      labelled (U_IOMEM (le_combine (take 8 b64)) (le_combine (take 8 (drop 8 b64)))) 0 0
    else
      buf <== of_r (rentry 8) ;;
      labelled (U_IOMEM (word32 buf 0) (word32 buf 1)) 0 0
  else if i =? OCON_XEN_PCIDEVICE then
    buf <== of_r (rentry 4) ;;
    labelled (U_DEVICE (word32 buf 0)) 0 0
  else if i =? OCON_XEN_DEVICETREE then
    buf <== of_r (rentry 4) ;;
    name <== of_r (str_read (word32 buf 0)) ;;
    labelled (U_NAME name) 0 0
  else of_r rfail.

(** The lists [p->ocontexts[i]] for the [i] of a list. *)
Fixpoint rlists (one : Z -> RX ocontext) (l : list Z) : RX (list (list ocontext)) :=
  match l with
  | [] => rxret []
  | i :: l =>
      buf <== of_r (rentry 4) ;;
      cs <== rxmany (word32 buf 0) (one i) ;;
      rest <== rlists one l ;;
      rxret (cs :: rest)
  end.

Definition ocontext_read_selinux (ocon_num : Z) : RX (list (list ocontext)) := rlists ocontext_read_selinux_one (seqZ 0 ocon_num).
Definition ocontext_read_xen (ocon_num : Z) : RX (list (list ocontext)) := rlists ocontext_read_xen_one (seqZ 0 ocon_num).

Definition ocontext_read (target ocon_num : Z) : RX (list (list ocontext)) :=
  if target =? SEPOL_TARGET_SELINUX then ocontext_read_selinux ocon_num
  else if target =? SEPOL_TARGET_XEN then ocontext_read_xen ocon_num
  else of_r rfail.

(** The place of a new file system in the list, ordered by name: what goes in
    front of it and behind it; [None]: it is there already. *)
Fixpoint genfs_place (name : cstring) (l : list genfs) : option (list genfs * list genfs) :=
  match l with
  | [] => Some ([], [])
  | g :: l' =>
      if strcmp name (fstype g) =? 0 then None
      else if strcmp name (fstype g) <? 0 then Some ([], l)
      else '(pre, post) ← genfs_place name l'; Some (g :: pre, post)
  end.

Definition oc_name (c : ocontext) : cstring := match oc_u c with U_NAME n => n | _ => [] end.

(** The place of a new entry: behind those with names at least as long. *)
Fixpoint entry_place (new : ocontext) (l : list ocontext) : option (list ocontext * list ocontext) :=
  match l with
  | [] => Some ([], [])
  | c :: l' =>
      if (strcmp (oc_name new) (oc_name c) =? 0) && (negb (ctrue (oc_v c)) || negb (ctrue (oc_v new)) || (oc_v new =? oc_v c))
      then None
      else if zlength (oc_name c) <? zlength (oc_name new) then Some ([], l)
      else '(pre, post) ← entry_place new l'; Some (c :: pre, post)
  end.

Definition genfs_read_entry (l : list ocontext) : RX (list ocontext) :=
  _ <== of_r ralloc ;;
  buf <== of_r (rentry 4) ;;
  name <== of_r (str_read (word32 buf 0)) ;;
  buf <== of_r (rentry 4) ;;
  newc <== labelled (U_NAME name) (word32 buf 0) 0 ;;
  match entry_place newc l with
  | None => of_r rfail
  | Some (pre, post) => rxret (pre ++ newc :: post)
  end.

Definition genfs_read_one (l : list genfs) : RX (list genfs) :=
  buf <== of_r (rentry 4) ;;
  _ <== of_r ralloc ;;
  name <== of_r (str_read (word32 buf 0)) ;;
  match genfs_place name l with
  | None => of_r rfail
  | Some (pre, post) =>
      buf <== of_r (rentry 4) ;;
      entries <== rxloop (Z.to_nat (word32 buf 0)) genfs_read_entry [] ;;
      rxret (pre ++ mk_genfs name entries :: post)
  end.

Definition genfs_read (l : list genfs) : RX (list genfs) :=
  buf <== of_r (rentry 4) ;; rxloop (Z.to_nat (word32 buf 0)) genfs_read_one l.
End Read.

(** ** Writers *)

Section Write.
Context (p : pol).

Definition context_write (c : context_struct) : W :=
  wwords [ctx_user c; ctx_role c; ctx_type c] ~>
  (if kern_or_base p POLICYDB_VERSION_MLS MOD_POLICYDB_VERSION_MLS then mls_write_range_helper (ctx_range c) ~> wdone else wdone).

(** Initial SIDs without a context are left out. *)
Definition omitted (i : Z) (c : ocontext) : bool := (i =? OCON_ISID) && negb (ctrue (ctx_user (oc_context0 c))).

(** The member of the union the index [i] stands for; a list with another
    member in it is none the program builds. *)
Definition ocontext_write_selinux_one (i : Z) (c : ocontext) : W :=
  let one := context_write (oc_context0 c) ~> wdone in
  if i =? OCON_ISID then
    if negb (ctrue (ctx_user (oc_context0 c))) then wdone else wwords [oc_sid0 c] ~> one
  else if (i =? OCON_FS) || (i =? OCON_NETIF) then
    match oc_u c with
    | U_NAME name => wwords [u32 (zlength name)] ~> (wstr name ~> (context_write (oc_context0 c) ~> (context_write (oc_context1 c) ~> wdone)))
    | _ => wfail
    end
  else if i =? OCON_IBPKEY then
    match oc_u c with
    | U_IBPKEY prefix low high => wput (prefix ++ words32 [low; high]) 4 4 ~> one
    | _ => wfail
    end
  else if i =? OCON_IBENDPORT then
    match oc_u c with
    | U_IBENDPORT name port => wwords [u32 (zlength name); port] ~> (wstr name ~> one)
    | _ => wfail
    end
  else if i =? OCON_PORT then
    match oc_u c with
    | U_PORT protocol low high => wwords [protocol; low; high] ~> one
    | _ => wfail
    end
  else if i =? OCON_NODE then
    match oc_u c with
    | U_NODE addr mask => wwords [addr; mask] ~> one
    | _ => wfail
    end
  else if i =? OCON_FSUSE then
    match oc_u c with
    | U_NAME name => wwords [oc_v c; u32 (zlength name)] ~> (wstr name ~> one)
    | _ => wfail
    end
  else if i =? OCON_NODE6 then
    match oc_u c with
    | U_NODE6 addr mask => wwords (addr ++ mask) ~> one
    | _ => wfail
    end
  else wdone.

Definition ocontext_write_xen_one (i : Z) (c : ocontext) : W :=
  let one := context_write (oc_context0 c) ~> wdone in
  if i =? OCON_XEN_ISID then
    if negb (ctrue (ctx_user (oc_context0 c))) then wdone else wwords [oc_sid0 c] ~> one
  else if i =? OCON_XEN_PIRQ then
    match oc_u c with
    | U_PIRQ pirq => wwords [pirq] ~> one
    | _ => wfail
    end
  else if i =? OCON_XEN_IOPORT then
    match oc_u c with
    | U_IOPORT low high => wwords [low; high] ~> one
    | _ => wfail
    end
  else if i =? OCON_XEN_IOMEM then
    match oc_u c with
    | U_IOMEM low high =>
        if POLICYDB_VERSION_XEN_DEVICETREE <=? pol_vers p then wput (le_split 8 low ++ le_split 8 high) 8 2 ~> one
        else if 2 ^ 32 - 1 <? high then wfail
        else wwords [u32 low; u32 high] ~> one
    | _ => wfail
    end
  else if i =? OCON_XEN_PCIDEVICE then
    match oc_u c with
    | U_DEVICE device => wwords [device] ~> one
    | _ => wfail
    end
  else if i =? OCON_XEN_DEVICETREE then
    match oc_u c with
    | U_NAME name => wwords [u32 (zlength name)] ~> (wstr name ~> one)
    | _ => wfail
    end
  else wdone.

Fixpoint wlists (one : Z -> ocontext -> W) (i : Z) (l : list (list ocontext)) : W :=
  match l with
  | [] => wdone
  | cs :: l => wwords [u32 (zlength (filter (fun c => omitted i c = false) cs))] ~> (wlist (one i) cs ~> wlists one (i + 1) l)
  end.

Definition ocontext_write_selinux (ocon_num : Z) (l : list (list ocontext)) : W :=
  wlists ocontext_write_selinux_one 0 (take (Z.to_nat ocon_num) l).
Definition ocontext_write_xen (ocon_num : Z) (l : list (list ocontext)) : W :=
  wlists ocontext_write_xen_one 0 (take (Z.to_nat ocon_num) l).

Definition ocontext_write (target ocon_num : Z) (l : list (list ocontext)) : W :=
  if target =? SEPOL_TARGET_SELINUX then ocontext_write_selinux ocon_num l
  else if target =? SEPOL_TARGET_XEN then ocontext_write_xen ocon_num l
  else wfail.

Definition genfs_write_entry (c : ocontext) : W :=
  match oc_u c with
  | U_NAME name => wwords [u32 (zlength name)] ~> (wstr name ~> (wwords [oc_v c] ~> (context_write (oc_context0 c) ~> wdone)))
  | _ => wfail
  end.

Definition genfs_write_one (g : genfs) : W :=
  wwords [u32 (zlength (fstype g))] ~>
  (wstr (fstype g) ~> (wwords [u32 (zlength (head g))] ~> wlist genfs_write_entry (head g))).

Definition genfs_write (l : list genfs) : W := wwords [u32 (zlength l)] ~> wlist genfs_write_one l.
End Write.
