(* ===== verification/ContextsIO.v ===== *)
(** * ContextsIO: labelled objects survive storage

    The round trip of security contexts, of the lists of labelled objects of a
    SELinux policy and of the file systems with labels by path. *)
From Stdlib Require Import ZArith Lia Bool.
From stdpp Require Import base option list list_numbers gmap sets sorting.
From S2P Require Import Prelude PolicyFile Ebitmap EbitmapThms EbitmapRange EbitmapIO Hashtab HashtabThms Symtab Avtab AvtabIO Cond Codec Symbols SymCodec SymbolsIO Trans TransIO TransIns TransRT Index Contexts.

#[local] Arguments words32 : simpl never.
#[local] Arguments app {A} : simpl never.

(** ** Triples for readers that can go wrong *)

Definition rreads {A} (m : RX A) (img : list Z) (Q : A -> Prop) : Prop :=
  forall fp rest o, mem_ready fp -> mem_ok o -> pf_data fp = img ++ rest ->
  exists a o', m fp o = Some (Some a, with_data fp rest, o') /\ mem_ok o' /\ Q a.

Lemma rreads_bind {A B} (m : RX A) (k : A -> RX B) i1 i2 (P : A -> Prop) (Q : B -> Prop) :
  rreads m i1 P -> (forall a, P a -> rreads (k a) i2 Q) -> rreads (rxbind m k) (i1 ++ i2) Q.
Proof.
  intros Hm Hk fp rest o Hfp M Hd. rewrite <- app_assoc in Hd.
  destruct (Hm fp (i2 ++ rest) o Hfp M Hd) as (a & o1 & E & M1 & Ha).
  destruct (Hk a Ha (with_data fp (i2 ++ rest)) rest o1) as (b & o2 & E2 & M2 & Hb); [done..|].
  exists b, o2. unfold rxbind. by rewrite E, E2, with_data_twice.
Qed.

(** A first step that consumes nothing, and a last one. *)
Lemma rreads_step {A B} (m : RX A) (k : A -> RX B) img (P : A -> Prop) (Q : B -> Prop) :
  rreads m [] P -> (forall a, P a -> rreads (k a) img Q) -> rreads (rxbind m k) img Q.
Proof. intros. by apply (rreads_bind m k [] img P Q). Qed.

Lemma rreads_last {A B} (m : RX A) (k : A -> RX B) img (P : A -> Prop) (Q : B -> Prop) :
  rreads m img P -> (forall a, P a -> rreads (k a) [] Q) -> rreads (rxbind m k) img Q.
Proof. intros. rewrite <- (app_nil_r img). by apply (rreads_bind m k img [] P Q). Qed.

Lemma rreads_mono {A} (m : RX A) img (P Q : A -> Prop) : rreads m img P -> (forall a, P a -> Q a) -> rreads m img Q.
Proof. intros H HPQ fp rest o Hfp M Hd. destruct (H fp rest o Hfp M Hd) as (a & o' & ? & ? & ?). eauto 10. Qed.

Lemma rreads_of_r {A} (m : R A) img Q : reads m img Q -> rreads (of_r m) img Q.
Proof. intros H fp rest o Hfp M Hd. destruct (H fp rest o Hfp M Hd) as (a & o' & E & ? & ?). exists a, o'. unfold of_r. by rewrite E. Qed.

Lemma rreads_ret {A} (a : A) (Q : A -> Prop) : Q a -> rreads (rxret a) [] Q.
Proof. intros. by apply (rreads_of_r (rret a)), reads_ret. Qed.

Lemma rreads_of_option {A} (m : option A) a : m = Some a -> rreads (of_option m) [] (eq a).
Proof. intros ->. by apply (rreads_of_r (rret a)), reads_ret. Qed.

Lemma rreads_alloc {B} (k : unit -> RX B) img Q : rreads (k tt) img Q -> rreads (rxbind (of_r ralloc) k) img Q.
Proof.
  intros Hk. apply (rreads_step _ _ _ (fun _ => True)); [|by intros []]. apply rreads_of_r. intros fp rest o Hfp M Hd. unfold ralloc.
  destruct (malloc o) as [ok o'] eqn:E. destruct (malloc_mem_ok _ _ _ E M) as [-> M']. exists tt, o'. rewrite app_nil_l in Hd. by rewrite <- Hd, with_data_same.
Qed.

Lemma rreads_check {B} b (k : unit -> RX B) img Q : b = true -> rreads (k tt) img Q -> rreads (rxbind (of_r (rcheck b)) k) img Q.
Proof. intros -> Hk. apply (rreads_step _ _ _ (fun _ => True)); [by apply rreads_of_r, reads_ret|by intros []]. Qed.

Lemma rreads_words {B} (k : list Z -> RX B) ws n img Q :
  n = 4 * zlength ws -> rreads (k (words32 ws)) img Q -> rreads (rxbind (of_r (rentry n)) k) (words32 ws ++ img) Q.
Proof. intros -> Hk. eapply rreads_bind; [apply rreads_of_r, (reads_entry (words32 ws)); by rewrite zlength_words32|]. by intros _ <-. Qed.

Lemma rreads_loop {S A} (f : S -> RX S) (img : A -> list Z) (l : list A) (Inv : list A -> S -> Prop) s :
  Inv [] s -> (forall done x todo s, l = done ++ x :: todo -> Inv done s -> rreads (f s) (img x) (Inv (done ++ [x]))) ->
  rreads (rxloop (length l) f s) (concat (map img l)) (Inv l).
Proof.
  intros H0 Hstep. cut (forall todo done s, l = done ++ todo -> Inv done s -> rreads (rxloop (length todo) f s) (concat (map img todo)) (Inv l)).
  { intros H. by apply (H l []). }
  induction todo as [|x todo IH]; intros done s' Hl Hi.
  - rewrite app_nil_r in Hl. subst done. by apply rreads_ret.
  - cbn [length rxloop map concat]. eapply rreads_bind; [by eapply Hstep|]. intros s1 Hs1. apply (IH (done ++ [x])); [|done]. by rewrite <- app_assoc.
Qed.

Lemma rreads_many {A} (m : RX A) (img : A -> list Z) l n :
  n = zlength l -> Forall (fun x => rreads m (img x) (eq x)) l -> rreads (rxmany n m) (concat (map img l)) (eq l).
Proof.
  intros -> Hall. unfold rxmany. replace (Z.to_nat (zlength l)) with (length l) by (unfold zlength; lia). eapply rreads_last.
  - apply (rreads_loop _ img l (fun done s => s = reverse done)); [done|]. intros done x todo s El ->.
    rewrite Forall_forall in Hall. eapply rreads_last; [apply Hall; rewrite El; set_solver|]. intros y <-. apply rreads_ret. by rewrite reverse_snoc.
  - intros s ->. apply rreads_ret. by rewrite reverse_involutive.
Qed.

#[local] Ltac rxstr := eapply rreads_bind; [by apply rreads_of_r, reads_str|]; intros ? <-.

Section Kern.
Context (p : pol) (mls : bool) (s : symbols) (ix : indexes).
Context (Hkern : policy_type p = POLICY_KERN) (Hvers : POLICYDB_VERSION_CONSTRAINT_NAMES <= pol_vers p).

(** ** Contexts *)

Definition context_ok (c : context_struct) : Prop :=
  in_range 32 (ctx_user c) /\ in_range 32 (ctx_role c) /\ in_range 32 (ctx_type c) /\
  level_ok (level0 (ctx_range c)) /\ level_ok (level1 (ctx_range c)) /\ policydb_context_isvalid mls s ix c = Some true.

Definition context_image (c : context_struct) : list Z :=
  words32 [ctx_user c; ctx_role c; ctx_type c] ++ range_image (ctx_range c).

Lemma kern_mls_range : kern_or_base p POLICYDB_VERSION_MLS MOD_POLICYDB_VERSION_MLS = true.
Proof using Hkern Hvers. by apply kern_base. Qed.

Lemma writes_context c : context_ok c -> writes (context_write p c) (context_image c).
Proof using Hkern Hvers.
  intros (_ & _ & _ & H0 & H1 & _). unfold context_write. rewrite kern_mls_range.
  apply writes_seq; [apply writes_words|]. by apply writes_end, writes_range.
Qed.

Lemma reads_context c : context_ok c -> rreads (context_read_and_validate p mls s ix) (context_image c) (eq c).
Proof using Hkern Hvers.
  intros (Hu & Hr & Ht & H0 & H1 & Hv). unfold context_read_and_validate. rewrite kern_mls_range.
  apply rreads_words; [done|]. rword. eapply rreads_last; [by apply rreads_of_r, reads_range|]. intros ? <-.
  assert (E : mk_context (ctx_user c) (ctx_role c) (ctx_type c) (ctx_range c) = c) by by destruct c.
  cbv zeta. rewrite E. eapply rreads_step; [|intros ? _; by apply rreads_ret]. unfold rvalid.
  eapply rreads_step; [by apply rreads_of_option|]. intros ? <-. by apply rreads_of_r, (reads_ret tt (fun _ => True)).
Qed.

Lemma reads_labelled c u v sid :
  context_ok c -> rreads (labelled p mls s ix u v sid) (context_image c) (eq (mk_ocontext u v c empty_context sid 0)).
Proof using Hkern Hvers. intros H. eapply rreads_last; [by apply reads_context|]. intros ? <-. by apply rreads_ret. Qed.

(** ** The objects of a SELinux policy *)

(** What an object in the list [i] is like. *)
Definition object_form (i : Z) (c : ocontext) : Prop :=
  match oc_u c with
  | U_ZERO => i = OCON_ISID /\ in_range 32 (oc_sid0 c) /\ oc_sid0 c <> 2 ^ 32 - 1 /\ oc_v c = 0
  | U_NAME n => name_ok n /\ oc_sid0 c = 0 /\ ((i = OCON_FS \/ i = OCON_NETIF) /\ zlength n <= 63 /\ oc_v c = 0 \/ i = OCON_FSUSE /\ in_range 32 (oc_v c))
  | U_PORT protocol low high => i = OCON_PORT /\ in_range 8 protocol /\ in_range 16 low /\ in_range 16 high /\ oc_sid0 c = 0 /\ oc_v c = 0
  | U_NODE addr mask => i = OCON_NODE /\ in_range 32 addr /\ in_range 32 mask /\ oc_sid0 c = 0 /\ oc_v c = 0
  | U_NODE6 addr mask => i = OCON_NODE6 /\ length addr = 4%nat /\ length mask = 4%nat /\ Forall (in_range 32) (addr ++ mask) /\ oc_sid0 c = 0 /\ oc_v c = 0
  | U_IBPKEY prefix low high => i = OCON_IBPKEY /\ length prefix = 8%nat /\ in_range 16 low /\ in_range 16 high /\ oc_sid0 c = 0 /\ oc_v c = 0
  | U_IBENDPORT name port => i = OCON_IBENDPORT /\ name_ok name /\ zlength name < IB_DEVICE_NAME_MAX /\ 0 < port < 256 /\ oc_sid0 c = 0 /\ oc_v c = 0
  | _ => False
  end.

(** File systems and interfaces have a second context. *)
Definition two_contexts (i : Z) : bool := (i =? OCON_FS) || (i =? OCON_NETIF).

Definition object_ok (i : Z) (c : ocontext) : Prop :=
  (object_form i c /\ oc_sid1 c = 0) /\ context_ok (oc_context0 c) /\
  if two_contexts i then context_ok (oc_context1 c) else oc_context1 c = empty_context.

Definition object_image (i : Z) (c : ocontext) : list Z :=
  (match oc_u c with
   | U_ZERO => words32 [oc_sid0 c]
   | U_NAME n => if two_contexts i then words32 [zlength n] ++ n else words32 [oc_v c; zlength n] ++ n
   | U_PORT protocol low high => words32 [protocol; low; high]
   | U_NODE addr mask => words32 [addr; mask]
   | U_NODE6 addr mask => words32 (addr ++ mask)
   | U_IBPKEY prefix low high => prefix ++ words32 [low; high]
   | U_IBENDPORT name port => words32 [zlength name; port] ++ name
   | _ => []
   end) ++ context_image (oc_context0 c) ++ (if two_contexts i then context_image (oc_context1 c) else []).

Lemma word_of w x : 0 <= w <= 32 -> in_range w x -> in_range 32 x.
Proof using. unfold in_range. intros Hw Hx. pose proof (Z.pow_le_mono_r 2 w 32). lia. Qed.

Lemma writes_object i c :
  object_ok i c -> ctx_user (oc_context0 c) <> 0 -> writes (ocontext_write_selinux_one p i c) (object_image i c).
Proof using Hkern Hvers.
  intros ((Hf & _) & H0 & H1) Hu. unfold object_image, ocontext_write_selinux_one. cbv zeta. pose proof (writes_context _ H0) as W0. apply writes_end in W0.
  assert (Hus : ctrue (ctx_user (oc_context0 c)) = true) by (unfold ctrue; by destruct (Z.eqb_spec (ctx_user (oc_context0 c)) 0)).
  unfold object_form in Hf. destruct (oc_u c) as [|n|pr lo hi|a m|a m|d|q|lo hi|lo hi|px lo hi|n port]; try done.
  - destruct Hf as (-> & _). cbn [Z.eqb OCON_ISID two_contexts orb OCON_FS OCON_NETIF]. rewrite Hus, app_nil_r. cbn [negb].
    apply writes_seq; [apply writes_words|done].
  - destruct Hf as (Hn & _ & [([-> | ->] & _)|[-> _]]); simpl in H1 |- *; rewrite ?app_nil_r, name_u32, <- app_assoc by done;
      (apply writes_seq; [apply writes_words|]); (apply writes_seq; [apply writes_str|]); try done;
      (apply writes_seq; [by apply writes_context|]); by apply writes_end, writes_context.
  - destruct Hf as (-> & _). simpl. rewrite app_nil_r. apply writes_seq; [apply writes_words|done].
  - destruct Hf as (-> & _). simpl. rewrite app_nil_r. apply writes_seq; [apply writes_words|done].
  - destruct Hf as (-> & _). simpl. rewrite app_nil_r. apply writes_seq; [apply writes_words|done].
  - destruct Hf as (-> & Hl & _). cbn -[words32 wput]. rewrite app_nil_r. apply writes_seq; [|done]. apply writes_put; [|lia].
    rewrite zlength_app, zlength_words32. unfold zlength. rewrite Hl. simpl. lia.
  - destruct Hf as (-> & Hn & _). simpl. rewrite app_nil_r, name_u32, <- app_assoc by done.
    apply writes_seq; [apply writes_words|]. apply writes_seq; [apply writes_str|done].
Qed.

#[local] Hint Resolve name_len small_word : cdb.

Lemma wrap_id w x : in_range w x -> wrap w x = x.
Proof using. apply wrap_small. Qed.

Lemma reads_object i c : object_ok i c -> rreads (ocontext_read_selinux_one p mls s ix i) (object_image i c) (eq c).
Proof using Hkern Hvers.
  intros ((Hf & Hs1) & H0 & H1). unfold object_image, ocontext_read_selinux_one. apply rreads_alloc.
  destruct c as [u v c0 c1 sid sid1]. unfold object_form in Hf. cbn [oc_u oc_v oc_context0 oc_context1 oc_sid0 oc_sid1] in *. subst sid1.
  destruct u as [|n|pr lo hi|a m|a m|d|q|lo hi|lo hi|px lo hi|n port]; try done.
  - destruct Hf as (-> & Hs & Hmax & ->). simpl in H1 |- *. subst c1. rewrite app_nil_r. apply rreads_words; [done|]. rword.
    apply rreads_check; [unfold is_saturated32; by destruct (Z.eqb_spec sid (2 ^ 32 - 1))|]. by apply reads_labelled.
  - destruct Hf as (Hn & -> & [(Hi & Hl & ->)|[-> Hv]]).
    + assert (E : two_contexts i = true) by (destruct Hi as [-> | ->]; done). rewrite E in *.
      assert (Ei : (i =? OCON_ISID) = false) by (destruct Hi as [-> | ->]; done). rewrite Ei. fold (two_contexts i). rewrite E.
      rewrite <- app_assoc. apply rreads_words; [done|]. rword. apply rreads_check; [by apply Z.leb_le|]. rxstr.
      eapply rreads_bind; [by apply reads_context|]. intros ? <-. eapply rreads_last; [by apply reads_context|]. intros ? <-. by apply rreads_ret.
    + simpl in H1 |- *. subst c1. rewrite app_nil_r, <- app_assoc. apply rreads_words; [done|]. rword. rxstr. by apply reads_labelled.
  - destruct Hf as (-> & Hp & Hlo & Hhi & -> & ->). simpl in H1 |- *. subst c1. rewrite app_nil_r. apply rreads_words; [done|].
    pose proof (word_of 8 pr ltac:(lia) Hp). pose proof (word_of 16 lo ltac:(lia) Hlo). pose proof (word_of 16 hi ltac:(lia) Hhi).
    rword. rewrite !wrap_id by done. by apply reads_labelled.
  - destruct Hf as (-> & Ha & Hm & -> & ->). simpl in H1 |- *. subst c1. rewrite app_nil_r. apply rreads_words; [done|]. rword. by apply reads_labelled.
  - destruct Hf as (-> & Ha & Hm & Hall & -> & ->). simpl in H1 |- *. subst c1. rewrite app_nil_r.
    destruct a as [|a0 [|a1 [|a2 [|a3 [|]]]]]; try done. destruct m as [|m0 [|m1 [|m2 [|m3 [|]]]]]; try done.
    change ([a0; a1; a2; a3] ++ [m0; m1; m2; m3]) with [a0; a1; a2; a3; m0; m1; m2; m3] in *.
    rewrite !Forall_cons in Hall. destruct Hall as (? & ? & ? & ? & ? & ? & ? & ? & _). apply rreads_words; [done|]. rword. by apply reads_labelled.
  - destruct Hf as (-> & Hl & Hlo & Hhi & -> & ->). cbn -[words32] in H1 |- *. subst c1. rewrite app_nil_r.
    pose proof (word_of 16 lo ltac:(lia) Hlo). pose proof (word_of 16 hi ltac:(lia) Hhi).
    eapply rreads_bind; [apply rreads_of_r, reads_entry; rewrite zlength_app, zlength_words32; unfold zlength; by rewrite Hl|]. intros ? <-.
    assert (Hw : forall j, word32 (px ++ words32 [lo; hi]) (2 + j) = word32 (words32 [lo; hi]) j).
    { intros j. unfold word32. f_equal. f_equal. rewrite drop_app_ge by lia. f_equal. lia. }
    pose proof (Hw 0%nat : word32 _ 2 = _) as Hw2. pose proof (Hw 1%nat : word32 _ 3 = _) as Hw3. rewrite Hw2, Hw3. rword. unfold in_range in Hlo, Hhi. apply rreads_check.
    { apply andb_true_intro. split; apply Z.leb_le; lia. }
    rewrite take_app_length' by done. by apply reads_labelled.
  - destruct Hf as (-> & Hn & Hl & Hp & -> & ->). simpl in H1 |- *. subst c1. rewrite app_nil_r, <- app_assoc.
    assert (in_range 32 port) by (unfold in_range; lia). apply rreads_words; [done|]. rword. pose proof (zlength_name n Hn).
    apply rreads_check; [destruct (Z.eqb_spec (zlength n) 0), (Z.ltb_spec (IB_DEVICE_NAME_MAX - 1) (zlength n)); simpl; lia || done|].
    apply rreads_check; [destruct (Z.eqb_spec port 0), (Z.ltb_spec 255 port); simpl; lia || done|]. rxstr. by apply reads_labelled.
Qed.
(** ** The lists *)

Lemma context_user c : context_ok c -> ctx_user c <> 0.
Proof using.
  intros (_ & _ & _ & _ & _ & Hv) E. unfold policydb_context_isvalid, context_is_valid in Hv. rewrite E in Hv.
  by destruct (negb (ctrue (ctx_role c)) || _).
Qed.

Definition kept (i : Z) (cs : list ocontext) : list ocontext := filter (fun c => omitted i c = false) cs.

Definition objects_ok (i : Z) (cs : list ocontext) : Prop := Forall (object_ok i) (kept i cs) /\ zlength (kept i cs) < 2 ^ 32.

Definition objects_image (i : Z) (cs : list ocontext) : list Z :=
  words32 [zlength (kept i cs)] ++ concat (map (object_image i) (kept i cs)).

Lemma writes_objects i cs :
  Forall (object_ok i) (kept i cs) ->
  writes (wlist (ocontext_write_selinux_one p i) cs) (concat (map (object_image i) (kept i cs))).
Proof using Hkern Hvers.
  induction cs as [|c cs IH]; intros Hall; [apply writes_done|]. unfold kept in *. rewrite filter_cons in *. cbn [wlist].
  destruct (omitted i c) eqn:Ho.
  - rewrite decide_False in * by done. unfold omitted in Ho. apply andb_prop in Ho as [Hi Hu]. apply Z.eqb_eq in Hi as ->.
    rewrite <- (app_nil_l (concat _)). apply writes_seq; [|by apply IH]. unfold ocontext_write_selinux_one. simpl. rewrite Hu. apply writes_done.
  - rewrite decide_True in * by done. apply Forall_cons in Hall as [Hc Hall]. cbn [map concat]. apply writes_seq; [|by apply IH].
    apply writes_object; [done|]. by apply context_user, Hc.
Qed.

Fixpoint lists_ok (i : Z) (ls : list (list ocontext)) : Prop :=
  match ls with [] => True | cs :: ls => objects_ok i cs /\ lists_ok (i + 1) ls end.
Fixpoint lists_image (i : Z) (ls : list (list ocontext)) : list Z :=
  match ls with [] => [] | cs :: ls => objects_image i cs ++ lists_image (i + 1) ls end.
Fixpoint lists_kept (i : Z) (ls : list (list ocontext)) : list (list ocontext) :=
  match ls with [] => [] | cs :: ls => kept i cs :: lists_kept (i + 1) ls end.

Lemma writes_lists i ls : lists_ok i ls -> writes (wlists (ocontext_write_selinux_one p) i ls) (lists_image i ls).
Proof using Hkern Hvers.
  revert i. induction ls as [|cs ls IH]; intros i; [intros; apply writes_done|]. cbn [lists_ok lists_image wlists]. intros [[Hcs Hn] Hls].
  fold (kept i cs). pose proof (zlength_nonneg (kept i cs)). rewrite (wrap_small 32 (zlength _)) by (unfold in_range; lia). unfold objects_image.
  rewrite <- app_assoc. apply writes_seq; [apply writes_words|]. apply writes_seq; [by apply writes_objects|by apply IH].
Qed.

Lemma reads_lists i ls :
  lists_ok i ls -> rreads (rlists (ocontext_read_selinux_one p mls s ix) (seqZ i (zlength ls))) (lists_image i ls) (eq (lists_kept i ls)).
Proof using Hkern Hvers.
  revert i. induction ls as [|cs ls IH]; intros i; [intros; by apply rreads_ret|]. cbn [lists_ok lists_image lists_kept]. intros [[Hcs Hn] Hls].
  replace (zlength (cs :: ls)) with (Z.succ (zlength ls)) by (unfold zlength; simpl length; lia).
  rewrite seqZ_cons by (pose proof (zlength_nonneg ls); lia). rewrite Z.pred_succ. cbn [rlists]. unfold objects_image. rewrite <- app_assoc.
  apply rreads_words; [done|]. rewrite (word32_at _ 0 (zlength (kept i cs))); [|done|pose proof (zlength_nonneg (kept i cs)); unfold in_range; lia].
  eapply rreads_bind; [apply (rreads_many _ (object_image i) (kept i cs)); [done|]|].
  { eapply Forall_impl; [exact Hcs|]. intros c. apply reads_object. }
  intros ? <-. eapply rreads_last; [by apply IH|]. intros ? <-. by apply rreads_ret.
Qed.

Lemma ocontext_codec ls ocon_num :
  zlength ls = ocon_num -> lists_ok 0 ls ->
  writes (ocontext_write_selinux p ocon_num ls) (lists_image 0 ls) /\
  rreads (ocontext_read_selinux p mls s ix ocon_num) (lists_image 0 ls) (eq (lists_kept 0 ls)).
Proof using Hkern Hvers.
  intros <- Hls. split; [|by apply reads_lists]. unfold ocontext_write_selinux.
  rewrite take_ge by (unfold zlength; lia). by apply writes_lists.
Qed.

(** ** File systems labelled by path *)

(** [c] stands in front of [new]: its name is at least as long, and the two
    do not say different things of the same files. *)
Definition entry_before (c new : ocontext) : Prop :=
  zlength (oc_name new) <= zlength (oc_name c) /\
  (oc_name new = oc_name c -> oc_v c <> 0 /\ oc_v new <> 0 /\ oc_v new <> oc_v c).

Definition genfs_before (g g' : genfs) : Prop := 0 < strcmp (fstype g') (fstype g).

Definition entry_ok (c : ocontext) : Prop :=
  oc_u c = U_NAME (oc_name c) /\ name_ok (oc_name c) /\ in_range 32 (oc_v c) /\ (oc_sid0 c = 0 /\ oc_sid1 c = 0) /\
  context_ok (oc_context0 c) /\ oc_context1 c = empty_context.

Definition genfs_one_ok (g : genfs) : Prop :=
  name_ok (fstype g) /\ zlength (head g) < 2 ^ 32 /\ Forall entry_ok (head g) /\ StronglySorted entry_before (head g).

Definition genfs_ok (l : list genfs) : Prop :=
  zlength l < 2 ^ 32 /\ Forall genfs_one_ok l /\ StronglySorted genfs_before l.

Definition entry_image (c : ocontext) : list Z :=
  words32 [zlength (oc_name c)] ++ oc_name c ++ words32 [oc_v c] ++ context_image (oc_context0 c).
Definition genfs_one_image (g : genfs) : list Z :=
  words32 [zlength (fstype g)] ++ fstype g ++ words32 [zlength (head g)] ++ concat (map entry_image (head g)).
Definition genfs_image (l : list genfs) : list Z := words32 [zlength l] ++ concat (map genfs_one_image l).

Lemma genfs_place_last name l : Forall (fun g => 0 < strcmp name (fstype g)) l -> genfs_place name l = Some (l, []).
Proof using.
  induction 1 as [|g l Hg _ IH]; [done|]. cbn [genfs_place]. destruct (Z.eqb_spec (strcmp name (fstype g)) 0); [lia|].
  destruct (Z.ltb_spec (strcmp name (fstype g)) 0); [lia|]. by rewrite IH.
Qed.

Lemma entry_place_last new l : Forall (fun c => entry_before c new) l -> entry_place new l = Some (l, []).
Proof using.
  induction 1 as [|c l [Hl Hc] _ IH]; [done|]. cbn [entry_place].
  destruct (Z.eqb_spec (strcmp (oc_name new) (oc_name c)) 0) as [E|E]; cbn [andb].
  - apply strcmp_eq in E. destruct (Hc E) as (H1 & H2 & H3). unfold ctrue.
    rewrite (proj2 (Z.eqb_neq _ _) H1), (proj2 (Z.eqb_neq _ _) H2), (proj2 (Z.eqb_neq _ _) H3). simpl.
    destruct (Z.ltb_spec (zlength (oc_name c)) (zlength (oc_name new))); [lia|]. by rewrite IH.
  - destruct (Z.ltb_spec (zlength (oc_name c)) (zlength (oc_name new))); [lia|]. by rewrite IH.
Qed.

Lemma in_front {A} (R : A -> A -> Prop) l front x todo : StronglySorted R l -> l = front ++ x :: todo -> Forall (fun y => R y x) front.
Proof using.
  intros HS ->. apply Forall_forall. intros y Hy. eapply (StronglySorted_app_1_elem_of R); [exact HS|exact Hy|left].
Qed.

Lemma reads_genfs_entry front c : entry_ok c -> Forall (fun c' => entry_before c' c) front ->
  rreads (genfs_read_entry p mls s ix front) (entry_image c) (eq (front ++ [c])).
Proof using Hkern Hvers.
  intros (Hu & Hn & Hv & [Hs Hs1] & Hc & Hc1) Hf. unfold genfs_read_entry, entry_image. apply rreads_alloc, rreads_words; [done|]. rword. rxstr.
  apply rreads_words; [done|]. rword. eapply rreads_last; [by apply reads_labelled|]. intros ? <-.
  assert (E : mk_ocontext (U_NAME (oc_name c)) (oc_v c) (oc_context0 c) empty_context 0 0 = c) by (rewrite <- Hu, <- Hc1, <- Hs at 1; rewrite <- Hs1 at 1; by destruct c).
  rewrite E, entry_place_last by done. by apply rreads_ret.
Qed.

Lemma len_word {A} (l : list A) : zlength l < 2 ^ 32 -> in_range 32 (zlength l).
Proof using. pose proof (zlength_nonneg l). unfold in_range. lia. Qed.
#[local] Hint Resolve len_word : cdb.

Lemma reads_genfs_one front g : genfs_one_ok g -> Forall (fun g' => genfs_before g' g) front ->
  rreads (genfs_read_one p mls s ix front) (genfs_one_image g) (eq (front ++ [g])).
Proof using Hkern Hvers.
  intros (Hn & Hl & Hall & HS) Hf. unfold genfs_read_one, genfs_one_image. apply rreads_words; [done|]. rword. apply rreads_alloc. rxstr.
  rewrite genfs_place_last by done. apply rreads_words; [done|]. rword.
  replace (Z.to_nat (zlength (head g))) with (length (head g)) by (unfold zlength; lia).
  eapply rreads_last; [apply (rreads_loop _ entry_image (head g) (fun front l => l = front)); [done|]|].
  - intros fr c todo l El ->. rewrite Forall_forall in Hall. eapply rreads_mono; [apply reads_genfs_entry|by intros ? <-].
    + apply Hall. rewrite El. set_solver.
    + by eapply in_front.
  - intros l ->. apply rreads_ret. by destruct g.
Qed.

Lemma writes_entry c : entry_ok c -> writes (genfs_write_entry p c) (entry_image c).
Proof using Hkern Hvers.
  intros (Hu & Hn & _ & _ & Hc & _). unfold genfs_write_entry, entry_image. rewrite Hu, name_u32 by done.
  apply writes_seq; [apply writes_words|]. apply writes_seq; [apply writes_str|]. apply writes_seq; [apply writes_words|].
  by apply writes_end, writes_context.
Qed.

Lemma writes_genfs_one g : genfs_one_ok g -> writes (genfs_write_one p g) (genfs_one_image g).
Proof using Hkern Hvers.
  intros (Hn & Hl & Hall & _). unfold genfs_write_one, genfs_one_image. rewrite name_u32 by done.
  apply writes_seq; [apply writes_words|]. apply writes_seq; [apply writes_str|]. apply writes_counted; [done|].
  eapply Forall_impl; [exact Hall|]. intros c. apply writes_entry.
Qed.

Lemma genfs_codec l :
  genfs_ok l -> writes (genfs_write p l) (genfs_image l) /\ rreads (genfs_read p mls s ix []) (genfs_image l) (eq l).
Proof using Hkern Hvers.
  intros (Hl & Hall & HS). split.
  - apply writes_counted; [done|]. eapply Forall_impl; [exact Hall|]. intros g. apply writes_genfs_one.
  - unfold genfs_read, genfs_image. apply rreads_words; [done|]. rword.
    replace (Z.to_nat (zlength l)) with (length l) by (unfold zlength; lia).
    eapply rreads_mono; [apply (rreads_loop _ genfs_one_image l (fun front l => l = front)); [done|]|by intros ? ->].
    intros front g todo l' El ->. rewrite Forall_forall in Hall. eapply rreads_mono; [apply reads_genfs_one|by intros ? <-].
    + apply Hall. rewrite El. set_solver.
    + by eapply in_front.
Qed.
End Kern.
