(* ===== verification/ContextsValid.v ===== *)
(** * ContextsValid: which contexts are valid

    [context_is_valid] looks at index arrays and caches; with the indexes
    complete it never leaves the arrays and decides validity in terms of the
    symbol tables alone.  Two policies with the same symbols therefore accept
    the same contexts. *)
From Stdlib Require Import ZArith Lia Bool.
From stdpp Require Import base option list list_numbers gmap sets.
From S2P Require Import Prelude PolicyFile Ebitmap EbitmapThms EbitmapRange EbitmapIO Hashtab HashtabThms Symtab Avtab AvtabIO Cond Codec Symbols SymCodec SymbolsIO Trans TransIO TransIns TransFt Index IndexThms ExpandThms IndexAll Contexts.

Section Valid.
Context (mls : bool) (s : symbols).

(** ** Validity in terms of the tables *)

(** The role may be used with the type of bit [t], the user with the role of
    bit [r]. *)
Definition role_allows (d : role_datum) (t : Z) : Prop :=
  forall st, inverse type_val (st_nprim (p_types s)) (symtab_abs (p_types s)) st ->
    type_set_member (st_nprim (p_types s)) st.2 (role_types d) true t.
Definition user_allows (d : user_datum) (r : Z) : Prop := role_set_member (st_nprim (p_roles s)) (user_roles d) r.

(** A level [mls_context_isvalid] admits: a known sensitivity and categories that
    go with it.  As in the code (mls.c:293) a bit may equal the number of
    categories, which no category has. *)
Definition valid_level (l : mls_level) : Prop :=
  0 < sens l <= st_nprim (p_levels s) /\
  exists k d, symtab_abs (p_levels s) !! k = Some d /\ sens_val d = Some (sens l) /\
    forall b, b ∈ ebitmap_set (cat l) -> b <= st_nprim (p_cats s) /\ b ∈ ebitmap_set (cat (lev_level d)).

Definition valid_range (c : context_struct) : Prop :=
  mls_level_dom (level1 (ctx_range c)) (level0 (ctx_range c)) = true /\
  valid_level (level0 (ctx_range c)) /\ valid_level (level1 (ctx_range c)) /\
  (ctx_role c <> OBJECT_R_VAL -> exists k d, symtab_abs (p_users s) !! k = Some d /\ user_value d = ctx_user c /\
     mls_range_contains (user_exp_range d) (ctx_range c) = true).

Definition valid_context (c : context_struct) : Prop :=
  0 < ctx_role c <= st_nprim (p_roles s) /\ 0 < ctx_user c <= st_nprim (p_users s) /\ 0 < ctx_type c <= st_nprim (p_types s) /\
  (ctx_role c <> OBJECT_R_VAL ->
     (exists k d, symtab_abs (p_roles s) !! k = Some d /\ role_value d = ctx_role c /\ role_allows d (ctx_type c - 1)) /\
     (exists k d, symtab_abs (p_users s) !! k = Some d /\ user_value d = ctx_user c /\ user_allows d (ctx_role c - 1))) /\
  (mls = true -> valid_range c).

(** ** The indexes *)

Context (ix : indexes) (Hix : others_indexed s ix).
Context (Hlevels : indexable sens_val (p_levels s)).
Context (Hcats : map_Forall (fun _ d => ebitmap_ok (cat (lev_level d))) (symtab_abs (p_levels s))).

Lemma range_test v n : 0 <= v -> negb (ctrue v) || (n <? v) = negb (bool_decide (0 < v <= n)).
Proof using. intros Hv. unfold ctrue. destruct (Z.eqb_spec v 0), (Z.ltb_spec n v); case_bool_decide; simpl; lia || done. Qed.

(** The place of a value in an array of structs: the symbol with the value,
    or nothing when there is none. *)
Lemma struct_at {D} (val : D -> option Z) n m st v :
  inverse val n m st -> 0 < v <= n ->
  (exists k d, st.2 !! Z.to_nat (v - 1) = Some (Some (k, d)) /\ m !! k = Some d /\ val d = Some v) \/
  (st.2 !! Z.to_nat (v - 1) = Some None /\ forall k d, m !! k = Some d -> val d <> Some v).
Proof using.
  intros Hi Hv. pose proof (inverse_place val n m st v Hi Hv) as [x Hx]. pose proof Hi as (_ & _ & Hs & _).
  destruct x as [[k d]|].
  - left. exists k, d. split; [done|]. by apply Hs in Hx.
  - right. split; [done|]. intros k d Hk Hd. assert (st.2 !! Z.to_nat (v - 1) = Some (Some (k, d))) by (by apply Hs). congruence.
Qed.

Lemma inverse_val_inj {D} (val : D -> option Z) n m st v k d k' d' :
  inverse val n m st -> 0 < v <= n -> m !! k = Some d -> val d = Some v -> m !! k' = Some d' -> val d' = Some v -> k = k' /\ d = d'.
Proof using.
  intros (_ & _ & Hs & _) Hv H1 H2 H3 H4. assert (E1 : st.2 !! Z.to_nat (v - 1) = Some (Some (k, d))) by (by apply Hs).
  assert (E2 : st.2 !! Z.to_nat (v - 1) = Some (Some (k', d'))) by (by apply Hs). rewrite E1 in E2. by simplify_eq.
Qed.

Definition decides (b : option bool) (P : Prop) : Prop := exists x, b = Some x /\ (x = true <-> P).

Lemma decides_false P : ~ P -> decides (Some false) P.
Proof using. intros H. exists false. done. Qed.

Lemma level_isvalid_spec l : 0 <= sens l -> ebitmap_ok (cat l) -> decides (level_isvalid s ix l) (valid_level l).
Proof using Hix Hlevels Hcats.
  intros Hs Hc. unfold level_isvalid. rewrite range_test by done. case_bool_decide as Hr; cbn [negb]; [|by apply decides_false; intros [? _]].
  destruct Hix as (_ & _ & _ & _ & [st Hi] & _). pose proof Hi as (_ & _ & _ & Hn). specialize (Hn (sens l) Hr). cbn [fst snd] in Hn.
  destruct (struct_at sens_val _ _ _ _ Hi Hr) as [(k & d & Hst & Hk & Hd)|[Hst Hno]]; cbn [snd] in Hst; rewrite Hst in Hn; simpl in Hn; rewrite Hn; simpl.
  - destruct Hlevels as (h & Eh & Hok & _). unfold symtab_abs in Hk. rewrite Eh in Hk |- *. rewrite hashtab_search_ok, Hk by done. simpl.
    rewrite for_each_bits by done. simpl. eexists. split; [done|]. rewrite forallb_forall. split.
    + intros Hall. split; [done|]. exists k, d. unfold symtab_abs. rewrite Eh. split_and!; [done..|]. intros b Hb.
      apply elem_of_bits, list_elem_of_In in Hb. specialize (Hall b Hb). apply andb_prop in Hall as [H1 H2].
      rewrite get_bit_member in H2 by (apply (Hcats k d); unfold symtab_abs; by rewrite Eh). apply bool_decide_eq_true in H2.
      split; [|done]. apply negb_true_iff, Z.ltb_ge in H1. done.
    + intros (_ & k' & d' & Hk' & Hd' & Hall) b Hb. destruct (inverse_val_inj sens_val _ _ _ (sens l) k d k' d' Hi Hr) as [<- <-]; try done.
      { unfold symtab_abs. by rewrite Eh. }
      apply list_elem_of_In, elem_of_bits in Hb. destruct (Hall b Hb) as [H1 H2]. apply andb_true_intro. split; [apply negb_true_iff, Z.ltb_ge; done|].
      rewrite get_bit_member by (by apply (Hcats k d)). by apply bool_decide_eq_true.
  - apply decides_false. intros (_ & k & d & Hk & Hd & _). by apply (Hno k d).
Qed.

Lemma user_range_spec c :
  0 < ctx_user c <= st_nprim (p_users s) ->
  decides (usrdatum ← (ix_users ix).2 !! Z.to_nat (ctx_user c - 1);
           match usrdatum with
           | None => Some false
           | Some (k, d) => Some (mls_range_contains (match user_caches ix !! k with Some u => uc_range u | None => user_exp_range d end) (ctx_range c))
           end)
    (exists k d, symtab_abs (p_users s) !! k = Some d /\ user_value d = ctx_user c /\ mls_range_contains (user_exp_range d) (ctx_range c) = true).
Proof using Hix.
  intros Hu. destruct Hix as (_ & _ & Hi & _ & _ & _ & _ & Hcache).
  destruct (struct_at user_val _ _ _ _ Hi Hu) as [(k & d & Hst & Hk & Hd)|[Hst Hno]]; rewrite Hst; simpl.
  - specialize (Hcache k). rewrite Hk in Hcache. destruct Hcache as (uc & -> & _ & -> & _). eexists. split; [done|]. split.
    + intros H. exists k, d. unfold user_val in Hd. by simplify_eq.
    + intros (k' & d' & Hk' & Hd' & H). destruct (inverse_val_inj user_val _ _ _ (ctx_user c) k d k' d' Hi Hu) as [<- <-]; try done. unfold user_val. by rewrite Hd'.
  - apply decides_false. intros (k & d & Hk & Hd & _). apply (Hno k d Hk). unfold user_val. by rewrite Hd.
Qed.

Lemma decides_mono b P Q : (P <-> Q) -> decides b P -> decides b Q.
Proof using. intros H (x & -> & Hx). exists x. split; [done|]. by rewrite Hx. Qed.

Definition context_ranges (c : context_struct) : Prop :=
  0 <= ctx_user c /\ 0 <= ctx_role c /\ 0 <= ctx_type c /\
  level_ok (level0 (ctx_range c)) /\ level_ok (level1 (ctx_range c)).

Lemma mls_context_isvalid_spec c : context_ranges c -> 0 < ctx_user c <= st_nprim (p_users s) -> decides (mls_context_isvalid mls s ix c) (mls = true -> valid_range c).
Proof using Hix Hlevels Hcats.
  intros (Hu & Hr & Ht & [Hs0 Hc0] & [Hs1 Hc1]) Hur. unfold mls_context_isvalid. destruct mls; cbn [negb]; [|by exists true].
  apply (decides_mono _ (valid_range c)); [naive_solver|]. unfold valid_range, in_range in *.
  destruct (mls_level_dom _ _); cbn [negb]; [|by apply decides_false; intros [? _]].
  destruct (level_isvalid_spec (level0 (ctx_range c)) ltac:(lia) Hc0) as (v0 & -> & H0). simpl. destruct v0; cbn [negb]; [|apply decides_false; intros (_ & Hv & _); by apply H0 in Hv].
  destruct (level_isvalid_spec (level1 (ctx_range c)) ltac:(lia) Hc1) as (v1 & -> & H1). simpl. destruct v1; cbn [negb]; [|apply decides_false; intros (_ & _ & Hv & _); by apply H1 in Hv].
  pose proof (proj1 H0 eq_refl). pose proof (proj1 H1 eq_refl). destruct (Z.eqb_spec (ctx_role c) OBJECT_R_VAL) as [Ho|Ho].
  { exists true. split; [done|]. split; [|done]. intros _. split_and!; try done. }
  rewrite range_test by lia. rewrite bool_decide_true by done. cbn [negb].
  eapply decides_mono; [|by apply user_range_spec]. split; [intros Hx; split_and!; done|intros (_ & _ & _ & Hx); by apply Hx].
Qed.

Lemma context_is_valid_ok c : context_ranges c -> decides (context_is_valid mls s ix c) (valid_context c).
Proof using Hix Hlevels Hcats.
  intros Hc. pose proof Hc as (Hu & Hr & Ht & _). unfold context_is_valid, valid_context. rewrite !range_test by done.
  case_bool_decide as Hrr; cbn [negb]; [|by apply decides_false; intros [? _]].
  case_bool_decide as Huu; cbn [negb]; [|by apply decides_false; intros (_ & ? & _)].
  case_bool_decide as Htt; cbn [negb]; [|by apply decides_false; intros (_ & _ & ? & _)].
  pose proof (mls_context_isvalid_spec c Hc Huu) as Hmls.
  destruct (Z.eqb_spec (ctx_role c) OBJECT_R_VAL) as [Ho|Ho].
  { eapply decides_mono; [|exact Hmls]. split; [|by intros (_ & _ & _ & _ & H)]. intros H. split_and!; try done; lia. }
  destruct Hix as (Hir & Hit & Hiu & _ & _ & _ & Hrc & Huc).
  destruct (struct_at role_val _ _ _ _ Hir Hrr) as [(rk & rd & Hst & Hk & Hd)|[Hst Hno]]; rewrite Hst; simpl.
  2:{ apply decides_false. intros (_ & _ & _ & Ha & _). destruct (Ha Ho) as [(k & d & Hk & Hd & _) _]. apply (Hno k d Hk). unfold role_val. by rewrite Hd. }
  pose proof (Hrc rk) as Hrc'. rewrite Hk in Hrc'. destruct Hrc' as (cache & Hca & Hcok & Hmem). unfold role_cache. rewrite Hca. cbn [default id].
  rewrite get_bit_member by done.
  assert (Hroles : bool_decide (ctx_type c - 1 ∈ ebitmap_set cache) = true <->
    exists k d, symtab_abs (p_roles s) !! k = Some d /\ role_value d = ctx_role c /\ role_allows d (ctx_type c - 1)).
  { rewrite bool_decide_eq_true, Hmem. split.
    - intros H. exists rk, rd. unfold role_val in Hd. simplify_eq. split_and!; [done..|]. intros st Hst'. by rewrite (inverse_unique _ _ _ _ _ Hst' Hit).
    - intros (k & d & Hk' & Hd' & Ha). destruct (inverse_val_inj role_val _ _ _ (ctx_role c) rk rd k d Hir Hrr) as [<- <-]; try done; [unfold role_val; by rewrite Hd'|].
      by apply Ha. }
  destruct (bool_decide (ctx_type c - 1 ∈ ebitmap_set cache)); cbn [negb]; [|apply decides_false; intros (_ & _ & _ & Ha & _); destruct (Ha Ho) as [H _]; by apply Hroles in H].
  pose proof (proj1 Hroles eq_refl) as Hrole. clear Hroles.
  destruct (struct_at user_val _ _ _ _ Hiu Huu) as [(uk & ud & Hust & Huk & Hud)|[Hust Hno]]; rewrite Hust; simpl.
  2:{ apply decides_false. intros (_ & _ & _ & Ha & _). destruct (Ha Ho) as [_ (k & d & Hk' & Hd' & _)]. apply (Hno k d Hk'). unfold user_val. by rewrite Hd'. }
  pose proof (Huc uk) as Huc'. rewrite Huk in Huc'. destruct Huc' as (uc & Huca & [Hucok Humem] & _). unfold user_role_cache. rewrite Huca, get_bit_member by done.
  assert (Husers : bool_decide (ctx_role c - 1 ∈ ebitmap_set (uc_roles uc)) = true <->
    exists k d, symtab_abs (p_users s) !! k = Some d /\ user_value d = ctx_user c /\ user_allows d (ctx_role c - 1)).
  { rewrite bool_decide_eq_true, Humem. split.
    - intros H. exists uk, ud. unfold user_val in Hud. by simplify_eq.
    - intros (k & d & Hk' & Hd' & Ha). destruct (inverse_val_inj user_val _ _ _ (ctx_user c) uk ud k d Hiu Huu) as [<- <-]; try done. unfold user_val. by rewrite Hd'. }
  destruct (bool_decide (ctx_role c - 1 ∈ ebitmap_set (uc_roles uc))); cbn [negb]; [|apply decides_false; intros (_ & _ & _ & Ha & _); destruct (Ha Ho) as [_ H]; by apply Husers in H].
  pose proof (proj1 Husers eq_refl) as Huser. eapply decides_mono; [|exact Hmls].
  split; [|by intros (_ & _ & _ & _ & H)]. intros H. split_and!; try done; lia.
Qed.
End Valid.

(** C22: with complete indexes [context_is_valid] stays inside the arrays and
    accepts exactly the valid contexts: known role, user and type, the type
    allowed for the role and the role for the user (unless the role is
    [object_r]), and in a MLS policy levels with known sensitivities and
    allowed categories (bits up to the number of categories included, as the
    code has it), the high one dominating the low one, within the range of the
    user. *)
Theorem context_is_valid_spec mls s ix c :
  others_indexed s ix -> indexable sens_val (p_levels s) ->
  map_Forall (fun _ d => ebitmap_ok (cat (lev_level d))) (symtab_abs (p_levels s)) -> context_ranges c ->
  exists b, context_is_valid mls s ix c = Some b /\ (b = true <-> valid_context mls s c).
Proof. intros Hix Hl Hcat Hc. by apply context_is_valid_ok. Qed.
