(* ===== verification/ContextsSound.v ===== *)
(** * ContextsSound: the labelled objects a policy can bring

    On any bytes: every object, file system and path that is accepted has a
    valid context, and file systems and paths are in the order that later
    searches rely on. *)
From Stdlib Require Import ZArith Lia Bool Sorted.
From stdpp Require Import base option list list_numbers gmap sets.
From S2P Require Import Prelude PolicyFile Ebitmap EbitmapThms EbitmapRange EbitmapIO Hashtab HashtabThms Symtab Avtab AvtabThms AvtabIO Cond Codec Symbols SymCodec SymbolsIO SymbolsThms Trans TransIO TransIns TransRT TransFt TransThms Index IndexThms ExpandThms IndexAll SymbolsSound Contexts ContextsIO ContextsValid.

(** ** Triples for readers that can go wrong *)

(** On any bytes [m] goes wrong nowhere, and a value it returns is in [Q]. *)
Definition rsound {A} (m : RX A) (Q : A -> Prop) : Prop :=
  forall fp o, pf_bytes fp -> exists r fp' o', m fp o = Some (r, fp', o') /\ forall a, r = Some a -> Q a /\ pf_bytes fp'.

Lemma rsound_ret {A} (a : A) (Q : A -> Prop) : Q a -> rsound (rxret a) Q.
Proof. intros H fp o Hb. exists (Some a), fp, o. split; [done|]. by intros ? [= <-]. Qed.

Lemma rsound_bind {A B} (m : RX A) (k : A -> RX B) (P : A -> Prop) (Q : B -> Prop) :
  rsound m P -> (forall a, P a -> rsound (k a) Q) -> rsound (rxbind m k) Q.
Proof.
  intros Hm Hk fp o Hb. destruct (Hm fp o Hb) as (r & fp1 & o1 & E & H). unfold rxbind. rewrite E. destruct r as [a|].
  - destruct (H a eq_refl) as [Ha Hb1]. by apply Hk.
  - by exists None, fp1, o1.
Qed.

Lemma rsound_mono {A} (m : RX A) (P Q : A -> Prop) : rsound m P -> (forall a, P a -> Q a) -> rsound m Q.
Proof. intros H HPQ fp o Hb. destruct (H fp o Hb) as (r & fp' & o' & E & Hr). exists r, fp', o'. split; [done|]. intros a ->. destruct (Hr a eq_refl). auto. Qed.

Lemma rsound_of_r {A} (m : R A) Q : sound m Q -> rsound (of_r m) Q.
Proof.
  intros H fp o Hb. unfold of_r. destruct (m fp o) as [[r fp'] o'] eqn:E. exists r, fp', o'. split; [done|]. intros a ->. by eapply H.
Qed.

Lemma rsound_of_option {A} (m : option A) : m <> None -> rsound (of_option m) (fun a => m = Some a).
Proof. intros Hm fp o Hb. unfold of_option. destruct m as [a|]; [|done]. exists (Some a), fp, o. split; [done|]. by intros ? [= <-]. Qed.

Lemma rsound_fail {A} (Q : A -> Prop) : rsound (of_r rfail) Q.
Proof. apply rsound_of_r, sound_fail. Qed.

Lemma rsound_loop {S} n (f : S -> RX S) (Inv : S -> Prop) s : Inv s -> (forall s, Inv s -> rsound (f s) Inv) -> rsound (rxloop n f s) Inv.
Proof.
  revert s. induction n as [|n IH]; intros s Hs Hf; [by apply rsound_ret|]. cbn [rxloop]. eapply rsound_bind; [by apply Hf|]. intros s' Hs'. by apply IH.
Qed.

Lemma rsound_many {A} n (m : RX A) (P : A -> Prop) : rsound m P -> rsound (rxmany n m) (Forall P).
Proof.
  intros Hm. unfold rxmany. eapply rsound_bind; [apply (rsound_loop _ _ (Forall P)); [constructor|]|].
  - intros l Hl. eapply rsound_bind; [exact Hm|]. intros x Hx. apply rsound_ret. by constructor.
  - intros l Hl. apply rsound_ret. by apply Forall_reverse.
Qed.

Tactic Notation "rreading" simple_intropattern(pat) := eapply rsound_bind; [apply rsound_of_r; sound_step|intros ? pat].

(** ** The indexes of any accepted symbols *)

(** The roles and users of a kernel policy can be expanded, or the expansion
    fails; it goes wrong in no case. *)
Lemma sound_ready s : symbols_sound s -> others_ready false s.
Proof.
  intros Hs. destruct (symbols_indexable s Hs) as (_ & _ & I3 & I4 & I5 & I6 & I7 & I8). pose proof Hs as (_ & _ & [Nr Hr] & [Nt Ht] & [_ Hu] & _).
  apply table_abs_sound in Hr, Ht, Hu. constructor; try by split.
  - intros k role st Hk (_ & Hl & Hst & _). destruct (Hr k role Hk) as (_ & R1 & R2 & R3 & _). constructor; rewrite ?R2, ?R3; try done.
    + intros i k' d Hd. assert (Hlt : (i < length st.2)%nat) by (by eapply lookup_lt_Some). unfold in_range in Nt.
      destruct (proj1 (Hst (Z.of_nat i + 1) k' d ltac:(lia))) as [Hk' _]; [by replace (Z.to_nat (Z.of_nat i + 1 - 1)) with i by lia|].
      destruct (Ht k' d Hk') as [_ ->]. done.
  - intros k user Hk. destruct (Hu k user Hk) as (_ & R1 & _). by split_and!.
Qed.

Section Sound.
Context (p : pol) (mls : bool) (s : symbols) (ix : indexes).
Context (Hs : symbols_sound s) (Hix : others_indexed s ix).

(** ** Contexts *)

(** Whether a context is valid can be decided without leaving the arrays. *)
Lemma check_safe c : context_ranges c -> exists b, policydb_context_isvalid mls s ix c = Some b /\ (b = true <-> valid_context mls s c).
Proof using Hs Hix. intros Hc. apply context_is_valid_ok; [done|by apply symbols_indexable|by apply sound_levels|done]. Qed.

Definition context_sound (c : context_struct) : Prop := context_ranges c /\ valid_context mls s c.

Lemma sound_context : rsound (context_read_and_validate p mls s ix) context_sound.
Proof using Hs Hix.
  unfold context_read_and_validate. rreading [Hb _]. eapply (rsound_bind _ _ range_sound).
  { apply rsound_of_r. destruct (kern_or_base _ _ _); [apply sound_range|by apply sound_ret]. }
  intros r [Hr0 Hr1]. cbv zeta. assert (Hc : context_ranges (mk_context (word32 a 0) (word32 a 1) (word32 a 2) r)).
  { pose proof (fun i => word32_range a i Hb) as Hw. unfold in_range in Hw. split_and!; try apply Hw; done. }
  eapply (rsound_bind _ _ (fun _ => valid_context mls s (mk_context (word32 a 0) (word32 a 1) (word32 a 2) r))).
  { unfold rvalid. destruct (check_safe _ Hc) as (b & -> & Hv). eapply rsound_bind; [by apply rsound_of_option|]. intros ? [= <-].
    destruct b; [|apply rsound_fail]. apply rsound_of_r, sound_ret. by apply Hv. }
  intros _ Hv. apply rsound_ret. by split.
Qed.

(** ** Objects *)

(** The form of the objects in the list [i] of a SELinux policy. *)
Definition object_kind (i : Z) (u : ocontext_u) : Prop :=
  match u with
  | U_ZERO => i = OCON_ISID
  | U_NAME _ => i = OCON_FS \/ i = OCON_NETIF \/ i = OCON_FSUSE
  | U_PORT _ _ _ => i = OCON_PORT
  | U_NODE _ _ => i = OCON_NODE
  | U_NODE6 addr mask => i = OCON_NODE6 /\ length addr = 4%nat /\ length mask = 4%nat
  | U_IBPKEY _ _ _ => i = OCON_IBPKEY
  | U_IBENDPORT _ _ => i = OCON_IBENDPORT
  | _ => False
  end.

Definition object_sound (target i : Z) (c : ocontext) : Prop :=
  context_sound (oc_context0 c) /\
  (target = SEPOL_TARGET_SELINUX -> object_kind i (oc_u c) /\ (two_contexts i = true -> context_sound (oc_context1 c))).

(** No SIDs have been looked up for it yet. *)
Definition object_fresh (i : Z) (c : ocontext) : Prop := oc_sid1 c = 0 /\ (i <> OCON_ISID -> oc_sid0 c = 0).
Definition object_new (target i : Z) (c : ocontext) : Prop := object_sound target i c /\ object_fresh i c.

Lemma sound_labelled target i u v sid :
  (i <> OCON_ISID -> sid = 0) -> (target = SEPOL_TARGET_SELINUX -> object_kind i u /\ two_contexts i = false) ->
  rsound (labelled p mls s ix u v sid) (object_new target i).
Proof using Hs Hix.
  intros Hsid Hk. unfold labelled. eapply rsound_bind; [apply sound_context|]. intros c Hc. apply rsound_ret.
  split; (split; [done|]); [|exact Hsid]. cbn. intros Ht. destruct (Hk Ht) as [? E]. rewrite E. by split.
Qed.

Ltac objects := repeat first [ by apply sound_labelled; intros ?; try done; split | apply rsound_fail | rreading _ | case_match; [|] ].

Lemma sound_selinux_one i : rsound (ocontext_read_selinux_one p mls s ix i) (object_new SEPOL_TARGET_SELINUX i).
Proof using Hs Hix.
  unfold ocontext_read_selinux_one. rreading _. destruct (Z.eqb_spec i OCON_ISID) as [->|]; [objects|]. destruct (_ || _) eqn:Etwo.
  - rreading _. rreading _. rreading _. eapply rsound_bind; [apply sound_context|]. intros c0 H0. eapply rsound_bind; [apply sound_context|]. intros c1 H1.
    apply rsound_ret. split; (split; [done|]); [|done]. intros _. cbn. split; [|done]. apply orb_prop in Etwo as [->%Z.eqb_eq | ->%Z.eqb_eq]; auto.
  - cbv zeta. repeat match goal with |- context [i =? ?k] => destruct (Z.eqb_spec i k) as [->|]; [objects|] end; objects.
    apply sound_labelled; [done|]. intros _. split; [by right; right|done].
Qed.

Lemma sound_xen_one i : rsound (ocontext_read_xen_one p mls s ix i) (object_new SEPOL_TARGET_XEN i).
Proof using Hs Hix. unfold ocontext_read_xen_one. rreading _. destruct (Z.eqb_spec i OCON_XEN_ISID) as [->|]; objects. Qed.

Lemma sound_lists one target l :
  (forall i, rsound (one i) (object_new target i)) -> rsound (rlists one l) (Forall2 (fun i => Forall (object_new target i)) l).
Proof using Type.
  intros Hone. induction l as [|i l IH]; [by apply rsound_ret; constructor|]. cbn [rlists]. rreading _. eapply rsound_bind; [apply rsound_many, Hone|]. intros cs Hcs.
  eapply rsound_bind; [exact IH|]. intros ls Hls. apply rsound_ret. by constructor.
Qed.

Definition objects_sound (target : Z) (ls : list (list ocontext)) : Prop := forall i cs, ls !! i = Some cs -> Forall (object_sound target (Z.of_nat i)) cs.
Definition objects_fresh (ls : list (list ocontext)) : Prop := forall i cs, ls !! i = Some cs -> Forall (object_fresh (Z.of_nat i)) cs.

Lemma sound_ocontexts target n :
  rsound (ocontext_read p mls s ix target n) (fun ls => zlength ls = Z.max 0 n /\ (objects_sound target ls /\ objects_fresh ls)).
Proof using Hs Hix.
  assert (H : forall one, (forall i, rsound (one i) (object_new target i)) ->
    rsound (rlists one (seqZ 0 n)) (fun ls => zlength ls = Z.max 0 n /\ (objects_sound target ls /\ objects_fresh ls))).
  { intros one Hone. eapply rsound_mono; [by apply (sound_lists one target)|]. intros ls Hall. pose proof (Forall2_length _ _ _ Hall) as Hl. rewrite length_seqZ in Hl. split; [unfold zlength; lia|].
    split; intros i cs Hi; destruct (Forall2_lookup_r _ _ _ _ _ Hall Hi) as (x & Hx & H); apply lookup_seqZ in Hx as [-> _]; (eapply Forall_impl; [exact H|by intros c []]). }
  unfold ocontext_read. destruct (Z.eqb_spec target SEPOL_TARGET_SELINUX) as [->|]; [apply H, sound_selinux_one|].
  destruct (Z.eqb_spec target SEPOL_TARGET_XEN) as [->|]; [apply H, sound_xen_one|apply rsound_fail].
Qed.

(** ** File systems *)

Definition entry_sound (c : ocontext) : Prop := oc_u c = U_NAME (oc_name c) /\ context_sound (oc_context0 c).
Definition entry_new (c : ocontext) : Prop := entry_sound c /\ oc_sid0 c = 0.

Definition genfs_with (P : ocontext -> Prop) (l : list genfs) : Prop :=
  StronglySorted genfs_before l /\ Forall (fun g => Forall P (head g) /\ StronglySorted entry_before (head g)) l.
Definition genfs_sound : list genfs -> Prop := genfs_with entry_sound.
Definition genfs_fresh (l : list genfs) : Prop := Forall (fun g => Forall (fun c => oc_sid0 c = 0) (head g)) l.

Lemma genfs_new l : genfs_with entry_new l -> genfs_sound l /\ genfs_fresh l.
Proof using Type.
  intros [HS Hall]. split; [split; [done|]|]; (eapply Forall_impl; [exact Hall|]); intros g [H1 H2]; [split; [|done]|]; (eapply Forall_impl; [exact H1|]); by intros c [].
Qed.

Lemma sorted_insert {A} (R : A -> A -> Prop) pre x post :
  StronglySorted R (pre ++ post) -> Forall (fun y => R y x) pre -> Forall (R x) post -> StronglySorted R (pre ++ x :: post).
Proof using Type.
  clear Hs Hix. induction pre as [|y pre IH]; intros HS Hpre Hpost; simpl in *; [by constructor|]. apply StronglySorted_inv in HS as [HS Hy].
  apply Forall_cons in Hpre as [Hyx Hpre]. apply Forall_app in Hy as [Hy1 Hy2]. constructor; [by apply IH|]. apply Forall_app. split; [done|by constructor].
Qed.

Lemma entry_place_sound new l pre post :
  StronglySorted entry_before l -> entry_place new l = Some (pre, post) ->
  l = pre ++ post /\ StronglySorted entry_before (pre ++ new :: post).
Proof using Type.
  clear Hs Hix. intros HS E.
  cut (l = pre ++ post /\ Forall (fun c => entry_before c new) pre /\ Forall (entry_before new) post).
  { intros (-> & H1 & H2). split; [done|]. by apply sorted_insert. }
  revert pre post E. induction HS as [|c l HS IH Hall]; intros pre post E; cbn [entry_place] in E; [by simplify_eq|].
  destruct ((strcmp _ _ =? 0) && _) eqn:Hdup; [done|]. destruct (Z.ltb_spec (zlength (oc_name c)) (zlength (oc_name new))) as [Hlt|Hge].
  - simplify_eq. split; [done|]. split; [constructor|].
    assert (Hb : forall x, zlength (oc_name x) <= zlength (oc_name c) -> entry_before new x).
    { intros x Hx. split; [lia|]. intros Heq. rewrite Heq in Hx. lia. }
    constructor; [apply Hb; lia|]. eapply Forall_impl; [exact Hall|]. intros x [Hx _]. by apply Hb.
  - destruct (entry_place new l) as [[pre' post']|]; [|done]. cbn in E. simplify_eq. destruct (IH _ _ eq_refl) as (-> & H1 & H2).
    split_and!; [done| |done]. constructor; [|done]. split; [done|]. intros Heq. rewrite Heq, (proj2 (strcmp_eq _ _) eq_refl) in Hdup. cbn [Z.eqb andb] in Hdup.
    apply orb_false_iff in Hdup as [[H3 H4]%orb_false_iff H5]. apply negb_false_iff, ctrue_spec in H3, H4. by apply Z.eqb_neq in H5.
Qed.

Lemma genfs_place_sound name l pre post :
  StronglySorted genfs_before l -> genfs_place name l = Some (pre, post) ->
  l = pre ++ post /\ forall es, StronglySorted genfs_before (pre ++ mk_genfs name es :: post).
Proof using Type.
  clear Hs Hix. intros HS E.
  cut (l = pre ++ post /\ Forall (fun g => 0 < strcmp name (fstype g)) pre /\ Forall (fun g => 0 < strcmp (fstype g) name) post).
  { intros (-> & H1 & H2). split; [done|]. intros es. by apply sorted_insert. }
  revert pre post E. induction HS as [|g l HS IH Hall]; intros pre post E; cbn [genfs_place] in E; [by simplify_eq|].
  destruct (Z.eqb_spec (strcmp name (fstype g)) 0); [done|]. destruct (Z.ltb_spec (strcmp name (fstype g)) 0) as [Hlt|Hge].
  - simplify_eq. split; [done|]. split; [constructor|]. constructor; [by apply strcmp_antisym|]. eapply Forall_impl; [exact Hall|].
    intros g' Hg'. apply strcmp_antisym. eapply strcmp_trans; [exact Hlt|]. by apply strcmp_antisym.
  - destruct (genfs_place name l) as [[pre' post']|]; [|done]. cbn in E. simplify_eq. destruct (IH _ _ eq_refl) as (-> & H1 & H2).
    split_and!; [done| |done]. constructor; [lia|done].
Qed.

Lemma sound_entry_read l :
  Forall entry_new l /\ StronglySorted entry_before l ->
  rsound (genfs_read_entry p mls s ix l) (fun l => Forall entry_new l /\ StronglySorted entry_before l).
Proof using Hs Hix.
  intros [Hl HS]. unfold genfs_read_entry. rreading _. rreading _. rreading _. rreading _. unfold labelled.
  eapply (rsound_bind _ _ entry_new). { eapply rsound_bind; [apply sound_context|]. intros c Hc. apply rsound_ret. by split. }
  intros new Hnew. destruct (entry_place new l) as [[pre post]|] eqn:E; [|apply rsound_fail]. apply rsound_ret.
  destruct (entry_place_sound _ _ _ _ HS E) as [-> HS']. split; [|done]. apply Forall_app in Hl as [H1 H2]. apply Forall_app. split; [done|by constructor].
Qed.

Lemma sound_genfs l : genfs_with entry_new l -> rsound (genfs_read p mls s ix l) (genfs_with entry_new).
Proof using Hs Hix.
  intros Hl. unfold genfs_read. rreading _. apply rsound_loop; [done|]. clear l Hl. intros l [HS Hl]. unfold genfs_read_one. rreading _. rreading _. rreading _.
  destruct (genfs_place _ l) as [[pre post]|] eqn:E; [|apply rsound_fail]. rreading _.
  eapply rsound_bind; [apply (rsound_loop _ _ (fun l => Forall entry_new l /\ StronglySorted entry_before l)); [by split; constructor|by apply sound_entry_read]|].
  intros es Hes. apply rsound_ret. destruct (genfs_place_sound _ _ _ _ HS E) as [-> HS']. split; [done|].
  apply Forall_app in Hl as [H1 H2]. apply Forall_app. split; [done|by constructor].
Qed.
End Sound.
