(* ===== verification/ContextText.v ===== *)
(** * ContextText: security contexts as text

    The text of a context ([user:role:type:range], libsepol/src/context.c), the
    text of its range of levels (mls.c) and the records between the two
    (context_record.c).  The code prints into a buffer whose size it computes
    first, so the model has the buffer: memory that was not written holds
    [UNINIT], and reading it, or leaving the buffer, is a fault. *)
From Stdlib Require Import ZArith Lia Bool.
From stdpp Require Import base option list list_numbers gmap sets.
From S2P Require Import Prelude PolicyFile Mem Ebitmap EbitmapThms EbitmapRange Hashtab HashtabThms Symtab Avtab AvtabIO Cond Codec Symbols Trans Index Contexts.

(** ** Strings in buffers *)

Definition UNINIT : Z := - 1.

Definition ch_colon : Z := 58.
Definition ch_dash : Z := 45.
Definition ch_comma : Z := 44.
Definition ch_dot : Z := 46.
Definition ch_dollar : Z := 36.

(** [malloc(n)] of a buffer, and [strdup(s)]. *)
Definition xmalloc (n : Z) : X (list Z) :=
  fun o => let '(ok, o) := malloc o in Some ((if ok then Some (replicate (Z.to_nat n) UNINIT) else None), o).
Definition strdup (s : cstring) : X cstring :=
  fun o => let '(ok, o) := malloc o in Some ((if ok then Some s else None), o).

(** A computation that allocates nothing: [None] is a fault. *)
Definition xopt {A} (m : option A) : X A := match m with Some a => xret a | None => xfault end.

(** The string that starts at the front of [l]. *)
Fixpoint cstr (l : list Z) : option cstring :=
  match l with
  | [] => None
  | c :: l => if c =? 0 then Some [] else if c =? UNINIT then None else s ← cstr l; Some (c :: s)
  end.

(** [strcpy(buf + i, s)]. *)
Definition strcpy (buf : list Z) (i : Z) (s : cstring) : option (list Z) := memcpy buf i (s ++ [0]) 0 (zlength s + 1).

(** A buffer and the place the next character goes to: [*p++ = c], and
    [strcpy(p, s); p += strlen(s)]. *)
Abbreviation cursor := (list Z * Z)%type.
Definition put_char (c : Z) (p : cursor) : option cursor := b ← wr p.1 p.2 c; Some (b, p.2 + 1).
Definition put_str (s : cstring) (p : cursor) : option cursor := b ← strcpy p.1 p.2 s; Some (b, p.2 + zlength s).

Fixpoint ofold {A S} (f : A -> S -> option S) (l : list A) (s : S) : option S :=
  match l with
  | [] => Some s
  | a :: l => s ← f a s; ofold f l s
  end.

(** The name at a place of one of the arrays; both a place outside the array
    and a missing name are faults for the code that reads it as a string. *)
Definition name_at (n : names) (i : Z) : option cstring := x ← n !! Z.to_nat i; x.

(** ** Levels to text *)

Section Print.
Context (mls : bool) (sens_names cat_names : names).

(** One turn of the loop over the bits in [mls_compute_context_len], on
    [range] and [len]. *)
Definition len_bit (b : Z * bool) (st : Z * Z) : option (Z * Z) :=
  let '(i, set) := b in
  let '(range, len) := st in
  if set then
    if ctrue range then Some (u32 (range + 1), len)
    else name ← name_at cat_names i; Some (u32 (range + 1), u32 (len + (zlength name + 1)))
  else
    if 1 <? range then name ← name_at cat_names (u32 (i - 1)); Some (0, u32 (len + (zlength name + 1)))
    else Some (0, len).

Definition len_level (l : mls_level) (len : Z) : option Z :=
  name ← name_at sens_names (u32 (sens l - 1));
  '(bits, i) ← for_each_bit (cat l);
  '(range, len) ← ofold len_bit bits (0, u32 (len + zlength name));
  if 1 <? range then name ← name_at cat_names (u32 (i - 1)); Some (u32 (len + (zlength name + 1))) else Some len.

(** The unsigned [len] is returned as an [int]. *)
Definition int32 (x : Z) : Z := if x <? 2 ^ 31 then x else x - 2 ^ 32.

Definition mls_compute_context_len (c : context_struct) : option Z :=
  if negb mls then Some 0 else
  let l0 := level0 (ctx_range c) in
  let l1 := level1 (ctx_range c) in
  len ← len_level l0 1;
  len ← (if mls_level_eq l0 l1 then Some len else len_level l1 (u32 (len + 1)));
  Some (int32 len).

(** The end of a range of categories: its last name, behind a dot if there
    is more than one between the first and the last. *)
Definition put_range_end (range i : Z) (p : cursor) : option cursor :=
  if 1 <? range then
    p ← put_char (if 2 <? range then ch_dot else ch_comma) p;
    name ← name_at cat_names (u32 (i - 1));
    put_str name p
  else Some p.

(** One turn of the loop over the bits in [mls_sid_to_context], on [range],
    [wrote_sep] and [scontextp]. *)
Definition put_bit (b : Z * bool) (st : Z * bool * cursor) : option (Z * bool * cursor) :=
  let '(i, set) := b in
  let '(range, wrote_sep, p) := st in
  if set then
    if ctrue range then Some (u32 (range + 1), wrote_sep, p)
    else
      p ← put_char (if wrote_sep then ch_comma else ch_colon) p;
      name ← name_at cat_names i;
      p ← put_str name p;
      Some (u32 (range + 1), true, p)
  else p ← put_range_end range i p; Some (0, wrote_sep, p).

Definition put_level (l : mls_level) (p : cursor) : option cursor :=
  name ← name_at sens_names (u32 (sens l - 1));
  p ← put_str name p;
  '(bits, i) ← for_each_bit (cat l);
  '(range, _, p) ← ofold put_bit bits (0, false, p);
  put_range_end range i p.

Definition mls_sid_to_context (c : context_struct) (p : cursor) : option cursor :=
  if negb mls then Some p else
  let l0 := level0 (ctx_range c) in
  let l1 := level1 (ctx_range c) in
  p ← put_char ch_colon p;
  p ← put_level l0 p;
  if mls_level_eq l0 l1 then Some p else p ← put_char ch_dash p; put_level l1 p.

(** The buffer [*str] points to. *)
Definition mls_to_string (c : context_struct) : X (list Z) :=
  len <- xopt (mls_compute_context_len c) ;;;
  let len := len + 1 in
  ptr <- xmalloc (u64 len) ;;;
  ptr2 <- xmalloc (u64 (len - 1)) ;;;
  xopt ('(b, p) ← mls_sid_to_context c (ptr, 0);
        let ptr := p - (len - 1) in
        if ptr + 1 <? 0 then None else
        s ← cstr (zdrop (ptr + 1) b);
        strcpy ptr2 0 s).
End Print.

(** ** Text to levels *)

(** The loops that look for the end of a field, [p] going on to the first
    character of some set, which is kept in [delim] and overwritten with a zero
    unless it is the end of the string: the field, [delim], and what [p] points
    to afterwards. *)
Fixpoint scan (stop : Z -> bool) (l : cstring) : cstring * Z * cstring :=
  match l with
  | [] => ([], 0, [])
  | c :: l => if stop c then ([], c, l) else let '(f, delim, p) := scan stop l in (c :: f, delim, p)
  end.

Definition low_end (c : Z) : bool := (c =? ch_colon) || (c =? ch_dash).
Definition cat_end (c : Z) : bool := (c =? ch_comma) || (c =? ch_dash).
Definition high_end (c : Z) : bool := c =? ch_colon.

(** [strchr(s, c)] cutting [s] in two there: the string in front and the one
    behind, if [c] occurs. *)
Fixpoint cut (c : Z) (s : cstring) : cstring * option cstring :=
  match s with
  | [] => ([], None)
  | x :: s => if x =? c then ([], Some s) else let '(f, r) := cut c s in (x :: f, r)
  end.

Section Parse.
Context (mls : bool) (levels : symtab level_datum) (cats : symtab cat_datum).

(** One category or range of categories of the list. *)
Definition sid_cats (field : cstring) (e : ebitmap) : X ebitmap :=
  let '(first, rngptr) := cut ch_dot field in
  match hashtab_search (st_table cats) first with
  | None => xfail
  | Some catdatum =>
      e <- xset e (u32 (cat_value catdatum - 1)) 1 ;;;
      match rngptr with
      | None => xret e
      | Some rng =>
          match hashtab_search (st_table cats) rng with
          | None => xfail
          | Some rngdatum =>
              if cat_value rngdatum <=? cat_value catdatum then xfail
              else xfold (fun i e => xset e i 1) (seqZ (cat_value catdatum) (cat_value rngdatum - cat_value catdatum)) e
          end
      end
  end.

(** [while (1)]: each turn but the last takes a comma. *)
Fixpoint sid_cats_loop (fuel : nat) (p : cstring) (e : ebitmap) : X (ebitmap * Z * cstring) :=
  match fuel with
  | O => xfault
  | S fuel =>
      let '(field, delim, p) := scan cat_end p in
      e <- sid_cats field e ;;;
      if negb (delim =? ch_comma) then xret (e, delim, p) else sid_cats_loop fuel p e
  end.

(** One turn of the loop over the two levels, up to the test for a dash:
    [field] is the sensitivity, [l] the level to fill in. *)
Definition sid_level (field : cstring) (delim : Z) (p : cstring) (l : mls_level) : X (mls_level * Z * cstring) :=
  match hashtab_search (st_table levels) field with
  | None => xfail
  | Some levdatum =>
      r <- (if delim =? ch_colon then sid_cats_loop (S (length p)) p (cat l) else xret (cat l, delim, p)) ;;;
      let '(e, delim, p) := r in
      xret (mk_mls_level (sens (lev_level levdatum)) e, delim, p)
  end.

Definition mls_level_cpy (src : mls_level) : X mls_level := e <- xcpy (cat src) ;;; xret (mk_mls_level (sens src) e).

(** A dash behind the high level only moves [p] on, which no caller looks at
    afterwards. *)
Definition mls_context_to_sid (oldc : Z) (scontext : cstring) (c : context_struct) : X context_struct :=
  if negb mls then xret c else
  if negb (ctrue oldc) then xfail else
  let '(field, delim, p) := scan low_end scontext in
  r <- sid_level field delim p (level0 (ctx_range c)) ;;;
  let '(l0, delim, p) := r in
  l1 <- (if delim =? ch_dash then
           let '(field, delim, p) := scan high_end p in
           r <- sid_level field delim p (level1 (ctx_range c)) ;;; xret r.1.1
         else mls_level_cpy l0) ;;;
  xret (mk_context (ctx_user c) (ctx_role c) (ctx_type c) (mk_mls_range l0 l1)).

Definition mls_from_string (str : cstring) (c : context_struct) : X context_struct :=
  tmp <- strdup str ;;; mls_context_to_sid ch_dollar tmp c.
End Parse.

(** ** Records *)

(** Pointers to strings, or null. *)
Record sepol_context := mk_sepol_context {
  sc_user : option cstring; sc_role : option cstring; sc_type : option cstring; sc_mls : option cstring }.

Definition sepol_context_create : X sepol_context :=
  fun o => let '(ok, o) := malloc o in Some ((if ok then Some (mk_sepol_context None None None None) else None), o).

Definition sepol_context_set_user (con : sepol_context) (user : cstring) : X sepol_context :=
  tmp <- strdup user ;;; xret (mk_sepol_context (Some tmp) (sc_role con) (sc_type con) (sc_mls con)).
Definition sepol_context_set_role (con : sepol_context) (role : cstring) : X sepol_context :=
  tmp <- strdup role ;;; xret (mk_sepol_context (sc_user con) (Some tmp) (sc_type con) (sc_mls con)).
Definition sepol_context_set_type (con : sepol_context) (type : cstring) : X sepol_context :=
  tmp <- strdup type ;;; xret (mk_sepol_context (sc_user con) (sc_role con) (Some tmp) (sc_mls con)).
Definition sepol_context_set_mls (con : sepol_context) (mls : cstring) : X sepol_context :=
  tmp <- strdup mls ;;; xret (mk_sepol_context (sc_user con) (sc_role con) (sc_type con) (Some tmp)).

(** [strdup] of a null pointer. *)
Definition xstrdup (s : option cstring) : X cstring := match s with Some s => strdup s | None => xfault end.

(** A null record is cloned to a null record. *)
Definition sepol_context_clone (con : option sepol_context) : X (option sepol_context) :=
  match con with
  | None => xret None
  | Some con =>
      _ <- sepol_context_create ;;;
      user <- xstrdup (sc_user con) ;;;
      role <- xstrdup (sc_role con) ;;;
      type <- xstrdup (sc_type con) ;;;
      mls <- match sc_mls con with None => xret None | Some m => m <- strdup m ;;; xret (Some m) end ;;;
      xret (Some (mk_sepol_context (Some user) (Some role) (Some type) mls))
  end.

Definition str_none : cstring := [60; 60; 110; 111; 110; 101; 62; 62].

(** The text [<<none>>] gives a null pointer. *)
Definition sepol_context_from_string (str : cstring) : X (option sepol_context) :=
  if strcmp str str_none =? 0 then xret None else
  con <- sepol_context_create ;;;
  tmp <- strdup str ;;;
  match cut ch_colon tmp with
  | (_, None) => xfail
  | (user, Some low) =>
      con <- sepol_context_set_user con user ;;;
      match cut ch_colon low with
      | (_, None) => xfail
      | (role, Some low) =>
          con <- sepol_context_set_role con role ;;;
          match cut ch_colon low with
          | (type, None) => con <- sepol_context_set_type con type ;;; xret (Some con)
          | (type, Some low) =>
              con <- sepol_context_set_type con type ;;;
              con <- sepol_context_set_mls con low ;;;
              xret (Some con)
          end
      end
  end.

(** The strings joined by colons. *)
Definition colons (l : list cstring) : cstring :=
  match l with [] => [] | s :: l => s ++ concat (map (fun s => ch_colon :: s) l) end.

(** [__builtin_add_overflow] over the sizes; [snprintf] of at most the size,
    whose result is the length of the whole text as an [int]. *)
Definition sepol_context_to_string (con : sepol_context) : X (list Z) :=
  match sc_user con, sc_role con, sc_type con with
  | Some user, Some role, Some type =>
      let fields := [user; role; type] ++ option_list (sc_mls con) in
      let text := colons fields in
      let total_sz := zlength text + 1 in
      if 2 ^ 64 <=? total_sz then xfail else
      str <- xmalloc total_sz ;;;
      if 2 ^ 31 <=? zlength text then xfail else xopt (strcpy str 0 text)
  | _, _, _ => xfault
  end.

(** ** Whole contexts *)

Section Whole.
Context (mls : bool) (s : symbols) (ix : indexes).

(** The buffer and its length. *)
Definition context_to_string (c : context_struct) : X (list Z * Z) :=
  user <- xopt (name_at (ix_users ix).1 (u32 (ctx_user c - 1))) ;;;
  role <- xopt (name_at (ix_roles ix).1 (u32 (ctx_role c - 1))) ;;;
  type <- xopt (name_at (ix_types ix).1 (u32 (ctx_type c - 1))) ;;;
  len <- xopt (mls_compute_context_len mls (ix_sens ix) (ix_cats ix) c) ;;;
  let scontext_len := u64 (u64 (zlength user + 1 + (zlength role + 1) + zlength type + len) + 1) in
  scontext <- xmalloc scontext_len ;;;
  xopt (scontext ← wr scontext (scontext_len - 1) 0;
        scontext ← strcpy scontext 0 (colons [user; role; type]);
        '(scontext, _) ← mls_sid_to_context mls (ix_sens ix) (ix_cats ix) c
                            (scontext, zlength user + 1 + zlength role + 1 + zlength type);
        Some (scontext, scontext_len)).

(** The four allocations at the top of [context_from_record], which are all
    made before the first is looked at. *)
Definition record_allocs : X unit :=
  fun o => let '(a, o) := malloc o in let '(b, o) := malloc o in let '(c, o) := malloc o in let '(d, o) := malloc o in
  Some ((if a && b && c && d then Some tt else None), o).

(** [record] may be null. *)
Definition context_from_record (record : option sepol_context) : X context_struct :=
  match record with
  | None => xfault
  | Some record =>
      match sc_user record, sc_role record, sc_type record with
      | Some user, Some role, Some type =>
          _ <- record_allocs ;;;
          match hashtab_search (st_table (p_users s)) user with
          | None => xfail
          | Some usrdatum =>
              match hashtab_search (st_table (p_roles s)) role with
              | None => xfail
              | Some roldatum =>
                  match hashtab_search (st_table (p_types s)) type with
                  | None => xfail
                  | Some typdatum =>
                      if type_flavor typdatum =? TYPE_ATTRIB then xfail else
                      let c := mk_context (user_value usrdatum) (role_value roldatum) (type_value typdatum) empty_range in
                      c <- match sc_mls record, mls with
                           | Some _, false => xfail
                           | None, true => xfail
                           | Some m, true => mls_from_string mls (p_levels s) (p_cats s) m c
                           | None, false => xret c
                           end ;;;
                      v <- xopt (context_is_valid mls s ix c) ;;;
                      if negb v then xfail else xret c
                  end
              end
          end
      | _, _, _ => xfault
      end
  end.

Definition context_to_record (c : context_struct) : X sepol_context :=
  con <- sepol_context_create ;;;
  user <- xopt (name_at (ix_users ix).1 (u32 (ctx_user c - 1))) ;;;
  con <- sepol_context_set_user con user ;;;
  role <- xopt (name_at (ix_roles ix).1 (u32 (ctx_role c - 1))) ;;;
  con <- sepol_context_set_role con role ;;;
  type <- xopt (name_at (ix_types ix).1 (u32 (ctx_type c - 1))) ;;;
  con <- sepol_context_set_type con type ;;;
  if mls then
    b <- mls_to_string mls (ix_sens ix) (ix_cats ix) c ;;;
    m <- xopt (cstr b) ;;;
    sepol_context_set_mls con m
  else xret con.

(** [con_str] holds [con_str_len] bytes; the string ends at the first zero. *)
Definition context_from_string (con_str : list Z) : X context_struct :=
  if (zlength con_str =? 0) || (zlength con_str =? 2 ^ 64 - 1) then xfail else
  con_cpy <- xmalloc (zlength con_str + 1) ;;;
  str <- xopt (b ← memcpy con_cpy 0 con_str 0 (zlength con_str); b ← wr b (zlength con_str) 0; cstr b) ;;;
  record <- sepol_context_from_string str ;;;
  context_from_record record.

Definition sepol_context_check (con : sepol_context) : X unit := _ <- context_from_record (Some con) ;;; xret tt.

Definition sepol_mls_contains (mls1 mls2 : cstring) : X bool :=
  fun o => let '(a, o) := malloc o in let '(b, o) := malloc o in
  if negb (a && b) then Some (None, o) else
  (c1 <- mls_from_string mls (p_levels s) (p_cats s) mls1 empty_context ;;;
   c2 <- mls_from_string mls (p_levels s) (p_cats s) mls2 empty_context ;;;
   xret (mls_range_contains (ctx_range c1) (ctx_range c2))) o.

Definition sepol_mls_check (m : cstring) : X unit :=
  _ <- xmalloc 0 ;;; _ <- mls_from_string mls (p_levels s) (p_cats s) m empty_context ;;; xret tt.
End Whole.
