(* ===== verification/ContextPrint.v ===== *)
(** * ContextPrint: what the text of a level is

    [ebitmap_for_each_bit] runs through the nodes of a bitmap and leaves out
    the windows without a node.  When no window that ends with a member is
    followed by such a gap, the printer sees every category between the first
    and the last, and the text is the sensitivity and the list of the maximal
    ranges of categories; the length computed beforehand is the length of this
    text, and the text is put into the buffer with its terminator. *)
From Stdlib Require Import ZArith Lia Bool.
From stdpp Require Import base option list list_numbers gmap sets.
From S2P Require Import Prelude PolicyFile Mem Ebitmap EbitmapThms EbitmapRange Hashtab HashtabThms Symtab Avtab AvtabIO Cond Codec Symbols SymCodec SymbolsIO Trans Index IndexThms ExpandThms IndexAll Contexts ContextText.

(** ** Iteration *)

(** The bits of the window of [a] from [bit] on. *)
Definition window_from (a : ebitmap_node) (bit : Z) : list (Z * bool) :=
  map (fun b => (b, node_bit a b)) (seqZ bit (startbit a + 64 - bit)).
Definition visited (l : list ebitmap_node) : list (Z * bool) := concat (map (fun a => window_from a (startbit a)) l).

Lemma window_from_end a : window_from a (startbit a + 64) = [].
Proof. unfold window_from. by replace (startbit a + 64 - (startbit a + 64)) with 0 by lia. Qed.

Lemma window_from_step a bit : bit < startbit a + 64 -> window_from a bit = (bit, node_bit a bit) :: window_from a (bit + 1).
Proof.
  intros H. unfold window_from. rewrite seqZ_cons by lia. cbn [map]. do 3 f_equal. lia.
Qed.

Lemma high_first lo a l : 0 <= lo -> nodes_ok lo (a :: l) -> startbit a + 64 <= nodes_high (a :: l) < 2 ^ 32.
Proof.
  intros Hlo Hok. pose proof Hok as (? & Ha & Hl). destruct (nodes_high_props lo (a :: l) Hlo Hok) as (_ & Hr & _ & _).
  destruct l as [|c l]; [unfold nodes_high in *; simpl in *; lia|]. rewrite nodes_high_cons in * by done.
  destruct (nodes_high_props (startbit a + 64) (c :: l) ltac:(lia) Hl) as (_ & _ & _ & Ht). destruct (Ht ltac:(done)). lia.
Qed.

Lemma for_each_bit_loop_spec fuel a l bit lo :
  0 <= lo -> nodes_ok lo (a :: l) -> startbit a <= bit < startbit a + 64 -> (64 * length l + Z.to_nat (startbit a + 64 - bit) < fuel)%nat ->
  for_each_bit_loop fuel (nodes_high (a :: l)) (a :: l) bit = Some (window_from a bit ++ visited l, nodes_high (a :: l)).
Proof.
  revert a l bit lo. induction fuel as [|fuel IH]; intros a l bit lo Hlo0 Hok Hb Hfuel; [lia|]. pose proof Hok as (Hlo & Ha & Hl).
  pose proof (high_first lo a l Hlo0 Hok) as Hhigh. cbn [for_each_bit_loop].
  replace (bit <? nodes_high (a :: l)) with true by lia. assert (Hw : u32 (bit + 1) = bit + 1) by (apply wrap_small; unfold in_range; lia).
  rewrite window_from_step, node_get_bit_ctrue by lia.
  assert (Hsame : bit < startbit a + 63 -> for_each_bit_loop fuel (nodes_high (a :: l)) (a :: l) (bit + 1) =
      Some (window_from a (bit + 1) ++ visited l, nodes_high (a :: l))) by (intros; apply (IH _ _ _ lo); [done|done|lia|lia]).
  destruct l as [|c l]; simpl ebitmap_next; cbv beta iota; rewrite ?Hw.
  - destruct (Z.lt_ge_cases bit (startbit a + 63)); [by rewrite Hsame|]. assert (bit + 1 = startbit a + 64) as -> by lia. rewrite window_from_end.
    destruct fuel as [|fuel]; [simpl in *; lia|]. simpl. unfold nodes_high; simpl. destruct (Z.ltb_spec (startbit a + 64) (startbit a + 64)); [lia|done].
  - destruct (Z.eqb_spec bit (startbit a + 64 - 1)) as [Hlast|]; rewrite ?Hw; [|rewrite Hsame by lia; done].
    rewrite nodes_high_cons by done. replace (bit + 1) with (startbit a + 64) by lia. rewrite window_from_end. pose proof Hl as (? & Hc & ?).
    rewrite (IH c l (startbit c) (startbit a + 64)); [done|lia|done|lia|]. simpl length in Hfuel. lia.
Qed.

Lemma for_each_bit_all e : ebitmap_ok e -> for_each_bit e = Some (visited (node e), nodes_high (node e)).
Proof.
  intros [H Hh]. unfold for_each_bit, ebitmap_length, ebitmap_startbit. rewrite Hh. destruct (node e) as [|a l]; [done|].
  rewrite (for_each_bit_loop_spec _ a l _ 0); [done|done|done|lia|]. simpl length. lia.
Qed.

(** ** Gaps *)

(** No window that ends with a member is followed by one without a node and,
    further on, by another node. *)
Fixpoint no_gap_after_member (l : list ebitmap_node) : bool :=
  match l with
  | a :: ((c :: _) as l') => ((startbit c =? startbit a + 64) || negb (node_bit a (startbit a + 63))) && no_gap_after_member l'
  | _ => true
  end.

Definition interval (m : Z -> bool) (lo hi : Z) : list (Z * bool) := map (fun b => (b, m b)) (seqZ lo (hi - lo)).

Lemma interval_split m lo mid hi : lo <= mid <= hi -> interval m lo hi = interval m lo mid ++ interval m mid hi.
Proof.
  intros H. unfold interval. rewrite <- map_app. f_equal. replace (hi - lo) with ((mid - lo) + (hi - mid)) by lia.
  rewrite seqZ_app by lia. do 2 f_equal. lia.
Qed.

Lemma interval_nil m lo : interval m lo lo = [].
Proof. unfold interval. by replace (lo - lo) with 0 by lia. Qed.

Lemma interval_cons m lo hi : lo < hi -> interval m lo hi = (lo, m lo) :: interval m (lo + 1) hi.
Proof. intros H. unfold interval. rewrite seqZ_cons by lia. cbn [map]. by replace (Z.pred (hi - lo)) with (hi - (lo + 1)) by lia. Qed.

Lemma interval_ext m m' lo hi : (forall b, lo <= b < hi -> m b = m' b) -> interval m lo hi = interval m' lo hi.
Proof. intros H. unfold interval. apply map_ext_in. intros b Hb%list_elem_of_In%elem_of_seqZ. rewrite H by lia. done. Qed.

Section Folds.
Context {S : Type} (f : Z * bool -> S -> option S).

(** A bit that is not a member does nothing in this state. *)
Definition idle (st : S) : Prop := forall b, f (b, false) st = Some st.
Context (Hidle : forall b st st', f (b, false) st = Some st' -> idle st').

Lemma ofold_app l1 l2 st : ofold f (l1 ++ l2) st = st ← ofold f l1 st; ofold f l2 st.
Proof using Type. revert st. induction l1 as [|x l1 IH]; intros st; [done|]. cbn [app ofold]. destruct (f x st); [apply IH|done]. Qed.

Lemma ofold_idle lo hi st : idle st -> ofold f (interval (fun _ => false) lo hi) st = Some st.
Proof using Type. intros H. unfold interval. induction (seqZ lo (hi - lo)) as [|b l IH]; [done|]. cbn [map ofold]. by rewrite H. Qed.

Lemma window_last a : window_from a (startbit a) = interval (node_bit a) (startbit a) (startbit a + 63) ++ [(startbit a + 63, node_bit a (startbit a + 63))].
Proof using Type.
  change (window_from a (startbit a)) with (interval (node_bit a) (startbit a) (startbit a + 64)).
  rewrite (interval_split _ _ (startbit a + 63)) by lia. f_equal. unfold interval. by replace (startbit a + 64 - (startbit a + 63)) with 1 by lia.
Qed.

(** Then the fold over the bits visited is the fold over all bits between the
    first and the last. *)
Lemma visited_all lo a l st :
  0 <= lo -> nodes_ok lo (a :: l) -> no_gap_after_member (a :: l) = true ->
  ofold f (visited (a :: l)) st = ofold f (interval (nodes_bit (a :: l)) (startbit a) (nodes_high (a :: l))) st.
Proof using Hidle.
  revert lo a st. induction l as [|c l IH]; intros lo a st Hlo0 Hok Hgap.
  - unfold visited, nodes_high. cbn [map concat last app]. rewrite app_nil_r. change (window_from a (startbit a)) with (interval (node_bit a) (startbit a) (startbit a + 64)).
    f_equal. apply interval_ext. intros b Hb. rewrite nodes_bit_unfold, nodes_bit_nil. by rewrite orb_false_r.
  - pose proof Hok as (Hlo & Ha & Hl). pose proof Hl as (Hc & Hcn & _). pose proof (high_first (startbit a + 64) c l ltac:(lia) Hl) as Hh.
    rewrite nodes_high_cons by done. cbn [no_gap_after_member] in Hgap. apply andb_prop in Hgap as [Hg Hgap].
    rewrite (interval_split _ _ (startbit a + 64)) by lia. rewrite (interval_split _ (startbit a + 64) (startbit c)) by lia.
    change (visited (a :: c :: l)) with (window_from a (startbit a) ++ visited (c :: l)). rewrite !ofold_app.
    rewrite (interval_ext _ (node_bit a) (startbit a)).
    2:{ intros b Hb. rewrite nodes_bit_unfold. rewrite (nodes_bit_low (startbit a + 64) (c :: l)) by (lia || done). by rewrite orb_false_r. }
    change (interval (node_bit a) (startbit a) (startbit a + 64)) with (window_from a (startbit a)).
    rewrite (interval_ext _ (fun _ => false) (startbit a + 64)).
    2:{ intros b Hb. rewrite nodes_bit_unfold, node_bit_out by lia. rewrite nodes_bit_low with (lo := startbit c); [done| |lia].
        cbn [nodes_ok]. split; [lia|]. by destruct Hl as (_ & ? & ?). }
    rewrite (interval_ext _ (nodes_bit (c :: l)) (startbit c)).
    2:{ intros b Hb. rewrite (nodes_bit_unfold a), node_bit_out by lia. done. }
    destruct (ofold f (window_from a (startbit a)) st) as [st'|] eqn:E; [|done]. cbn [mbind option_bind].
    apply orb_prop in Hg as [Hg|Hg].
    + apply Z.eqb_eq in Hg. rewrite Hg, interval_nil. cbn [app].
      rewrite <- Hg. by apply (IH (startbit a + 64)); [lia| |].
    + rewrite window_last in E. apply negb_true_iff in Hg. rewrite Hg, ofold_app in E.
      destruct (ofold f (interval (node_bit a) _ _) st) as [st0|]; [|done]. cbn [mbind option_bind ofold] in E.
      destruct (f (startbit a + 63, false) st0) as [st1|] eqn:E1; [|done]. cbn in E. simplify_eq.
      rewrite ofold_app, ofold_idle by (by eapply Hidle). cbn [mbind option_bind]. by apply (IH (startbit a + 64)); [lia| |].
Qed.
End Folds.

(** ** The text of a set of categories *)

Section Text.
Context (nm : Z -> cstring).

(** The fields of the text, each a category or a range of at least three: what
    an open run of members gives when it ends in front of [i]. *)
Definition close_run (run : option Z) (i : Z) : list (Z * Z) :=
  match run with
  | None => []
  | Some lo => if i - lo =? 2 then [(lo, lo); (i - 1, i - 1)] else [(lo, i - 1)]
  end.

Fixpoint fields_of (bits : list (Z * bool)) (run : option Z) (i : Z) : list (Z * Z) :=
  match bits with
  | [] => close_run run i
  | (b, true) :: bits => fields_of bits (Some (default b run)) i
  | (b, false) :: bits => close_run run b ++ fields_of bits None i
  end.

Definition field_text (f : Z * Z) : cstring := if f.1 =? f.2 then nm f.1 else nm f.1 ++ ch_dot :: nm f.2.
Definition comma_text (l : list (Z * Z)) : cstring := concat (map (fun f => ch_comma :: field_text f) l).
Definition list_text (l : list (Z * Z)) : cstring :=
  match l with [] => [] | f :: l => ch_colon :: field_text f ++ comma_text l end.

(** [X] is what is still to be printed for the fields [l]: of those the first
    name is out already when a run is open. *)
Definition still (run : option Z) (sep : bool) (l : list (Z * Z)) (X : cstring) : Prop :=
  match run with
  | None => X = if sep then comma_text l else list_text l
  | Some lo => sep = true /\ exists f l', l = f :: l' /\ field_text f ++ comma_text l' = nm lo ++ X
  end.

(** What is printed when a run ends in front of [i]. *)
Definition run_end (run : option Z) (i : Z) : cstring :=
  match run with
  | Some lo => if 1 <? i - lo then (if 2 <? i - lo then ch_dot else ch_comma) :: nm (i - 1) else []
  | None => []
  end.

Lemma still_close lo i l X :
  lo < i -> still None true l X ->
  still (Some lo) true (close_run (Some lo) i ++ l) (run_end (Some lo) i ++ X).
Proof using Type.
  intros Hlo ->. unfold close_run, run_end. split; [done|]. unfold field_text.
  destruct (Z.eqb_spec (i - lo) 2) as [E|E]; cbn [app]; eexists _, _; (split; [done|]); cbn [fst snd].
  - rewrite Z.eqb_refl, E. cbn [comma_text map concat]. unfold field_text. cbn [fst snd]. by rewrite Z.eqb_refl.
  - destruct (Z.ltb_spec 1 (i - lo)) as [H1|H1]; [|by replace (lo =? i - 1) with true by lia].
    replace (2 <? i - lo) with true by lia. replace (lo =? i - 1) with false by lia. by rewrite <- !app_assoc.
Qed.

(** ** Buffers *)

(** [w] has been printed, with its terminator, into a buffer of [cap] bytes. *)
Definition text_at (cap : Z) (w : cstring) (p : cursor) : Prop :=
  exists rest, p = (w ++ 0 :: rest, zlength w) /\ zlength w + 1 + zlength rest = cap.

Lemma zlength_S {A} (x : A) l : zlength (x :: l) = 1 + zlength l.
Proof using Type. unfold zlength. cbn [length]. lia. Qed.

Lemma zdrop_app_add {A} (w rest : list A) n : 0 <= n -> zdrop (zlength w + n) (w ++ rest) = zdrop n rest.
Proof using Type. intros Hn. unfold zdrop. rewrite Z2Nat.inj_add by (unfold zlength; lia). rewrite drop_app_add'; [done|]. unfold zlength. lia. Qed.

Lemma strcpy_at w rest s :
  zlength s < zlength rest -> strcpy (w ++ rest) (zlength w) s = Some (w ++ s ++ 0 :: zdrop (zlength s + 1) rest).
Proof using Type.
  intros H. unfold strcpy. pose proof (zlength_nonneg w). pose proof (zlength_nonneg s).
  rewrite memcpy_ok; rewrite ?zlength_app; try lia; [|change (zlength [0]) with 1; lia].
  rewrite ztake_app, zdrop_app_add by lia. replace (zlength s + 1) with (zlength (s ++ [0])) at 1 by (by rewrite zlength_app).
  by rewrite slice_full, <- app_assoc.
Qed.

Lemma put_str_at w rest s :
  zlength s < zlength rest -> exists p, put_str s (w ++ rest, zlength w) = Some p /\ text_at (zlength w + zlength rest) (w ++ s) p.
Proof using Type.
  intros H. unfold put_str. cbn [fst snd]. rewrite strcpy_at by done. cbn [mbind option_bind]. eexists. split; [done|].
  exists (zdrop (zlength s + 1) rest). rewrite <- app_assoc, zlength_app. split; [done|]. unfold zdrop, zlength in *. rewrite length_drop. lia.
Qed.

Lemma put_char_at w x rest c : put_char c (w ++ x :: rest, zlength w) = Some ((w ++ [c]) ++ rest, zlength (w ++ [c])).
Proof using Type.
  unfold put_char, wr. cbn [fst snd]. rewrite !zlength_app. change (zlength [c]) with 1. pose proof (zlength_nonneg w). pose proof (zlength_nonneg rest).
  rewrite zlength_S. replace ((0 <=? zlength w) && (zlength w <? zlength w + (1 + zlength rest))) with true by lia.
  cbn [mbind option_bind]. do 2 f_equal. unfold zlength. rewrite Nat2Z.id, insert_app_r_alt, Nat.sub_diag by lia. by rewrite <- app_assoc.
Qed.

(** A character and a string behind the text so far. *)
Lemma put_more cap w p c s :
  text_at cap w p -> zlength w + zlength s + 2 <= cap ->
  exists p1 p2, put_char c p = Some p1 /\ put_str s p1 = Some p2 /\ text_at cap (w ++ c :: s) p2.
Proof using Type.
  intros (rest & -> & Hcap) Hroom. rewrite put_char_at. destruct (put_str_at (w ++ [c]) rest s) as (p2 & E & Hp); [lia|].
  exists ((w ++ [c]) ++ rest, zlength (w ++ [c])), p2. split_and!; [done|done|]. rewrite <- app_assoc, zlength_app in Hp.
  by replace cap with (zlength w + zlength [c] + zlength rest) by (change (zlength [c]) with 1; lia).
Qed.

(** ** The loops *)

Context (names : names) (m : Z -> bool) (hi : Z) (Hhi : hi < 2 ^ 32).
Context (Hnames : forall b, 0 <= b < hi -> m b = true -> name_at names b = Some (nm b)).

Definition put_cats (bits : list (Z * bool)) (i : Z) (st : Z * bool * cursor) : option cursor :=
  '(range, _, p) ← ofold (put_bit names) bits st; put_range_end names range i p.
Definition len_cats (bits : list (Z * bool)) (i : Z) (st : Z * Z) : option Z :=
  '(range, len) ← ofold (len_bit names) bits st;
  if 1 <? range then name ← name_at names (u32 (i - 1)); Some (u32 (len + (zlength name + 1))) else Some len.

(** In front of bit [lo] the loop has an open run of members from [run] on. *)
Definition run_open (run : option Z) (lo range : Z) : Prop :=
  match run with
  | None => range = 0
  | Some r => 0 <= r < lo /\ range = lo - r /\ forall b, r <= b < lo -> m b = true
  end.

(** [X] is put behind the text so far, and counted. *)
Definition prints (bits : list (Z * bool)) (range : Z) (sep : bool) (X : cstring) : Prop :=
  (forall cap w p, text_at cap w p -> zlength w + zlength X + 1 <= cap ->
     exists p', put_cats bits hi (range, sep, p) = Some p' /\ text_at cap (w ++ X) p') /\
  (forall L, len_cats bits hi (range, u32 L) = Some (u32 (L + zlength X))).

Lemma u32_pred i : 0 < i < 2 ^ 32 -> u32 (i - 1) = i - 1.
Proof using Type. intros. apply wrap_small. unfold in_range. lia. Qed.

Lemma range_end_put run lo range cap w p :
  run_open run lo range -> 0 <= lo <= hi -> text_at cap w p -> zlength w + zlength (run_end run lo) + 1 <= cap ->
  exists p', put_range_end names range lo p = Some p' /\ text_at cap (w ++ run_end run lo) p'.
Proof using Hnames Hhi.
  intros Hrun Hlo Hp Hcap. unfold put_range_end. destruct run as [r|]; cbn [run_open run_end] in *.
  - destruct Hrun as (Hr & -> & Hm). destruct (Z.ltb_spec 1 (lo - r)) as [H1|H1]; [|exists p; by rewrite app_nil_r].
    rewrite zlength_S in Hcap. destruct (put_more cap w p (if 2 <? lo - r then ch_dot else ch_comma) (nm (lo - 1)) Hp) as (p1 & p2 & E1 & E2 & Ht); [lia|].
    exists p2. rewrite E1. cbn [mbind option_bind]. rewrite u32_pred, Hnames by (lia || apply Hm; lia). by cbn [mbind option_bind].
  - subst. exists p. by rewrite app_nil_r.
Qed.

Lemma range_end_len run lo range L :
  run_open run lo range -> 0 <= lo <= hi ->
  (if 1 <? range then name ← name_at names (u32 (lo - 1)); Some (u32 (u32 L + (zlength name + 1))) else Some (u32 L)) =
    Some (u32 (L + zlength (run_end run lo))).
Proof using Hnames Hhi.
  intros Hrun Hlo. destruct run as [r|]; cbn [run_open run_end] in *; [|subst; by rewrite Z.add_0_r].
  destruct Hrun as (Hr & -> & Hm). destruct (Z.ltb_spec 1 (lo - r)) as [H1|H1]; [|by rewrite Z.add_0_r].
  rewrite u32_pred, Hnames by (lia || apply Hm; lia). cbn [mbind option_bind]. rewrite wrap_wrap_add, zlength_S by lia. do 2 f_equal. lia.
Qed.

Lemma put_cats_cons x bits i st : put_cats (x :: bits) i st = st' ← put_bit names x st; put_cats bits i st'.
Proof using Type. unfold put_cats. cbn [ofold]. by destruct (put_bit names x st). Qed.

Lemma len_cats_cons x bits i st : len_cats (x :: bits) i st = st' ← len_bit names x st; len_cats bits i st'.
Proof using Type. unfold len_cats. cbn [ofold]. by destruct (len_bit names x st). Qed.

(** A bit inside a run, the first bit of a run, and a bit that is no member. *)
Lemma prints_inside bits b range sep X :
  0 < range < 2 ^ 32 - 1 -> prints bits (range + 1) sep X -> prints ((b, true) :: bits) range sep X.
Proof using Type.
  intros Hr [Hp Hl]. assert (ctrue range = true) as E by (unfold ctrue; lia). assert (u32 (range + 1) = range + 1) as E' by (apply wrap_small; unfold in_range; lia).
  split; [intros cap w p Hw Hcap; rewrite put_cats_cons; cbn [put_bit]|intros L; rewrite len_cats_cons; cbn [len_bit]];
    rewrite E, E'; cbn [mbind option_bind]; auto.
Qed.

Lemma prints_first bits b sep X :
  0 <= b < hi -> m b = true -> prints bits 1 true X -> prints ((b, true) :: bits) 0 sep ((if sep then ch_comma else ch_colon) :: nm b ++ X).
Proof using Hnames.
  intros Hb Hm [Hp Hl]. pose proof (Hnames b Hb Hm) as Hname. pose proof (zlength_nonneg X). split.
  - intros cap w p Hw Hcap. rewrite zlength_S, zlength_app in Hcap.
    destruct (put_more cap w p (if sep then ch_comma else ch_colon) (nm b) Hw) as (p1 & p2 & E1 & E2 & Ht); [lia|].
    destruct (Hp cap _ p2 Ht) as (p' & E' & Ht'); [rewrite zlength_app, zlength_S; lia|]. exists p'. split; [|by rewrite <- app_assoc in Ht'].
    rewrite put_cats_cons. cbn [put_bit]. change (ctrue 0) with false. cbn iota. rewrite E1. cbn [mbind option_bind]. rewrite Hname. cbn [mbind option_bind].
    rewrite E2. exact E'.
  - intros L. rewrite len_cats_cons. cbn [len_bit]. change (ctrue 0) with false. cbn iota. rewrite Hname. cbn [mbind option_bind].
    rewrite wrap_wrap_add by lia. change (u32 (0 + 1)) with 1. rewrite Hl, zlength_S, zlength_app. do 2 f_equal. lia.
Qed.

Lemma prints_skip bits b run range sep X :
  0 <= b <= hi -> run_open run b range -> prints bits 0 sep X -> prints ((b, false) :: bits) range sep (run_end run b ++ X).
Proof using Hnames Hhi.
  intros Hb Hrun [Hp Hl]. pose proof (zlength_nonneg X). split.
  - intros cap w p Hw Hcap. rewrite zlength_app in Hcap. destruct (range_end_put run b range cap w p Hrun Hb Hw ltac:(lia)) as (p1 & E1 & Ht).
    destruct (Hp cap _ p1 Ht) as (p' & E' & Ht'); [rewrite zlength_app; lia|]. exists p'. split; [|by rewrite app_assoc].
    rewrite put_cats_cons. cbn [put_bit]. rewrite E1. exact E'.
  - intros L. rewrite zlength_app, Z.add_assoc, <- Hl, len_cats_cons. pose proof (range_end_len run b range L Hrun Hb) as He. cbn [len_bit].
    destruct (1 <? range); [|by injection He as ->]. destruct (name_at names (u32 (b - 1))); [|done]. cbn [mbind option_bind] in *. by injection He as ->.
Qed.

(** What is printed from bit [lo] on. *)
Lemma prints_from n lo run sep range :
  hi - lo = Z.of_nat n -> 0 <= lo -> run_open run lo range -> (run <> None -> sep = true) ->
  exists X, still run sep (fields_of (interval m lo hi) run hi) X /\ prints (interval m lo hi) range sep X.
Proof using Hnames Hhi.
  revert lo run sep range. induction n as [|n IH]; intros lo run sep range Hn Hlo Hrun Hsep.
  - assert (lo = hi) as -> by lia. rewrite interval_nil. cbn [fields_of]. exists (run_end run hi). split; [|split].
    + destruct run as [r|]; [|by destruct sep]. rewrite (Hsep ltac:(done)). destruct Hrun as (Hr & _).
      rewrite <- (app_nil_r (run_end _ _)), <- (app_nil_r (close_run _ _)). apply still_close; [lia|done].
    + intros cap w p Hp Hcap. by apply range_end_put.
    + intros L. by apply range_end_len.
  - rewrite interval_cons by lia. destruct (m lo) eqn:Hm; cbn [fields_of]; [destruct run as [r|]; cbn [default]|].
    + destruct Hrun as (Hr & -> & Hrm). destruct (IH (lo + 1) (Some r) sep (lo - r + 1)) as (X & HX & Hp); [lia|lia| |done|].
      { split; [lia|]. split; [lia|]. intros b Hb. destruct (decide (b = lo)) as [->|]; [done|]. apply Hrm. lia. }
      exists X. split; [done|]. by apply prints_inside; [lia|].
    + cbn [run_open] in Hrun. subst. destruct (IH (lo + 1) (Some lo) true 1) as (X & HX & Hp); [lia|lia| |done|].
      { split; [lia|]. split; [lia|]. intros b Hb. by replace b with lo by lia. }
      eexists. split; [|by apply prints_first; [lia| |]].
      destruct HX as (_ & f & l' & -> & E). unfold still. rewrite <- E. by destruct sep.
    + destruct (IH (lo + 1) None sep 0) as (X & HX & Hp); [lia|lia|done|done|]. exists (run_end run lo ++ X).
      split; [|apply prints_skip; (lia || done)].
      destruct run as [r|]; [|done]. rewrite (Hsep ltac:(done)) in *. destruct Hrun as (Hr & _). by apply still_close; [lia|].
Qed.
End Text.

(** ** Levels and ranges *)

Section Levels.
Context (sens_names cat_names : names).

Definition cat_nm (b : Z) : cstring := default [] (name_at cat_names b).
Definition sens_nm (v : Z) : cstring := default [] (name_at sens_names (v - 1)).

Definition level_fields (l : mls_level) : list (Z * Z) :=
  match node (cat l) with
  | [] => []
  | (a :: _) as n => fields_of (interval (nodes_bit n) (startbit a) (nodes_high n)) None (nodes_high n)
  end.
Definition level_text (l : mls_level) : cstring := sens_nm (sens l) ++ list_text cat_nm (level_fields l).

(** The sensitivity and the categories have names, and no gap behind a member
    hides the end of a range. *)
Record printable_level (l : mls_level) : Prop := mk_printable_level {
  pl_sens : 0 < sens l < 2 ^ 32; pl_sens_name : is_Some (name_at sens_names (sens l - 1)); pl_ok : ebitmap_ok (cat l);
  pl_names : forall b, b ∈ ebitmap_set (cat l) -> is_Some (name_at cat_names b);
  pl_gaps : no_gap_after_member (node (cat l)) = true }.

Lemma put_idle b st st' : put_bit cat_names (b, false) st = Some st' -> idle (put_bit cat_names) st'.
Proof using Type. destruct st as [[range sep] p]. cbn [put_bit]. destruct (put_range_end _ _ _ _); [|done]. intros [= <-] b'. done. Qed.

Lemma len_idle b st st' : len_bit cat_names (b, false) st = Some st' -> idle (len_bit cat_names) st'.
Proof using Type.
  destruct st as [range len]. cbn [len_bit]. destruct (1 <? range); [destruct (name_at _ _); [|done]|]; cbn [mbind option_bind]; intros [= <-] b'; done.
Qed.

(** The loops over the categories. *)
Lemma cats_print e :
  ebitmap_ok e -> (forall b, b ∈ ebitmap_set e -> is_Some (name_at cat_names b)) -> no_gap_after_member (node e) = true ->
  let X := list_text cat_nm (level_fields (mk_mls_level 1 e)) in
  (forall cap w p, text_at cap w p -> zlength w + zlength X + 1 <= cap ->
     exists p', put_cats cat_names (visited (node e)) (nodes_high (node e)) (0, false, p) = Some p' /\ text_at cap (w ++ X) p') /\
  (forall L, len_cats cat_names (visited (node e)) (nodes_high (node e)) (0, u32 L) = Some (u32 (L + zlength X))).
Proof using Type.
  intros [Hok Hh] Hn Hg X. destruct (node e) as [|a l] eqn:En.
  { unfold X, level_fields. cbn [cat]. rewrite En. split; [|intros L; by rewrite Z.add_0_r]. intros cap w p Hp _. exists p. by rewrite app_nil_r. }
  pose proof (high_first 0 a l ltac:(done) Hok) as Hhigh. pose proof Hok as (Ha & _).
  destruct (prints_from cat_nm cat_names (nodes_bit (a :: l)) (nodes_high (a :: l)) ltac:(lia)) with (n := Z.to_nat (nodes_high (a :: l) - startbit a))
    (lo := startbit a) (run := @None Z) (sep := false) (range := 0) as (Y & HY & Hp & Hl); [|lia|lia|done|done|].
  { intros b Hb Hm. destruct (Hn b) as [k Hk]; [by apply elem_of_ebitmap_set; rewrite En|]. unfold cat_nm. by rewrite Hk. }
  assert (Y = X) as -> by (unfold X, level_fields; cbn [cat]; rewrite En; exact HY).
  unfold put_cats, len_cats in *. setoid_rewrite (visited_all _ put_idle 0 a l _ ltac:(done) Hok Hg). setoid_rewrite (visited_all _ len_idle 0 a l _ ltac:(done) Hok Hg).
  done.
Qed.

Lemma sens_name l : printable_level l -> name_at sens_names (u32 (sens l - 1)) = Some (sens_nm (sens l)).
Proof using Type. intros [Hs [k Hk] _ _ _]. rewrite u32_pred by lia. unfold sens_nm. by rewrite Hk. Qed.

Lemma put_level_text l w rest :
  printable_level l -> zlength (level_text l) < zlength rest ->
  exists p, put_level sens_names cat_names l (w ++ rest, zlength w) = Some p /\ text_at (zlength w + zlength rest) (w ++ level_text l) p.
Proof using Type.
  intros Hl Hroom. unfold put_level. rewrite sens_name by done. cbn [mbind option_bind]. destruct Hl as [_ _ Hok Hn Hg].
  destruct (cats_print _ Hok Hn Hg) as [Hp _]. unfold level_text in *. rewrite zlength_app in Hroom. change (level_fields (mk_mls_level 1 (cat l))) with (level_fields l) in Hp.
  pose proof (zlength_nonneg (list_text cat_nm (level_fields l))).
  destruct (put_str_at w rest (sens_nm (sens l))) as (p1 & -> & Ht); [lia|]. cbn [mbind option_bind]. rewrite for_each_bit_all by done. cbn [mbind option_bind].
  destruct (Hp _ _ _ Ht) as (p' & E & Ht'); [rewrite zlength_app; lia|]. exists p'. rewrite app_assoc. split; [exact E|done].
Qed.

Lemma len_level_text l L : printable_level l -> len_level sens_names cat_names l (u32 L) = Some (u32 (L + zlength (level_text l))).
Proof using Type.
  intros Hl. unfold len_level. rewrite sens_name by done. cbn [mbind option_bind]. destruct Hl as [_ _ Hok Hn Hg]. rewrite for_each_bit_all by done. cbn [mbind option_bind].
  destruct (cats_print _ Hok Hn Hg) as [_ Hlen]. rewrite wrap_wrap_add by lia. unfold level_text. rewrite zlength_app, Z.add_assoc. apply Hlen.
Qed.

Definition range_text (r : mls_range) : cstring :=
  level_text (level0 r) ++ (if mls_level_eq (level0 r) (level1 r) then [] else ch_dash :: level_text (level1 r)).

Definition printable (r : mls_range) : Prop := printable_level (level0 r) /\ printable_level (level1 r).

Lemma context_len_text c :
  printable (ctx_range c) -> zlength (range_text (ctx_range c)) < 2 ^ 31 - 1 ->
  mls_compute_context_len true sens_names cat_names c = Some (1 + zlength (range_text (ctx_range c))).
Proof using Type.
  intros [H0 H1] Hsz. unfold mls_compute_context_len. cbn [negb]. pose proof (len_level_text (level0 (ctx_range c)) 1 H0) as E0. change (u32 1) with 1 in E0. rewrite E0. cbn [mbind option_bind].
  unfold range_text in *. destruct (mls_level_eq _ _).
  - rewrite app_nil_r in *. pose proof (zlength_nonneg (level_text (level0 (ctx_range c)))). cbn [mbind option_bind]. rewrite wrap_small by (unfold in_range; lia).
    unfold int32. by replace (1 + _ <? _) with true by lia.
  - rewrite wrap_wrap_add by lia. rewrite len_level_text by done. cbn [mbind option_bind]. rewrite zlength_app, zlength_S in *.
    pose proof (zlength_nonneg (level_text (level0 (ctx_range c)))). pose proof (zlength_nonneg (level_text (level1 (ctx_range c)))).
    rewrite wrap_small by (unfold in_range; lia). unfold int32. replace (1 + zlength (level_text (level0 (ctx_range c))) + 1 + zlength (level_text (level1 (ctx_range c))) <? 2 ^ 31) with true by lia.
    f_equal. lia.
Qed.

Lemma sid_to_context_text c w x rest :
  printable (ctx_range c) -> zlength (range_text (ctx_range c)) < zlength rest ->
  exists p, mls_sid_to_context true sens_names cat_names c (w ++ x :: rest, zlength w) = Some p /\
    text_at (zlength w + 1 + zlength rest) (w ++ ch_colon :: range_text (ctx_range c)) p.
Proof using Type.
  intros [H0 H1] Hroom. unfold mls_sid_to_context. cbn [negb]. rewrite put_char_at. cbn [mbind option_bind]. unfold range_text in *.
  pose proof (zlength_nonneg (level_text (level0 (ctx_range c)))). pose proof (zlength_nonneg (level_text (level1 (ctx_range c)))).
  rewrite zlength_app in Hroom. destruct (put_level_text _ (w ++ [ch_colon]) rest H0) as (p1 & -> & Ht); [pose proof (zlength_nonneg (if mls_level_eq (level0 (ctx_range c)) (level1 (ctx_range c)) then [] else ch_dash :: level_text (level1 (ctx_range c)))); lia|].
  rewrite zlength_app in Ht. change (zlength [ch_colon]) with 1 in Ht. cbn [mbind option_bind]. destruct (mls_level_eq _ _).
  - exists p1. split; [done|]. by rewrite app_nil_r, <- app_assoc in *.
  - destruct Ht as (rest1 & -> & Hcap). rewrite put_char_at. cbn [mbind option_bind]. rewrite zlength_S in Hroom. rewrite !zlength_app in Hcap. change (zlength [ch_colon]) with 1 in Hcap.
    destruct (put_level_text _ (((w ++ [ch_colon]) ++ level_text (level0 (ctx_range c))) ++ [ch_dash]) rest1 H1) as (p2 & -> & Ht); [lia|].
    exists p2. split; [done|]. rewrite !zlength_app, <- !app_assoc in Ht. change (zlength [ch_colon]) with 1 in Ht. change (zlength [ch_dash]) with 1 in Ht.
    by rewrite <- Hcap.
Qed.
End Levels.

(** ** Whole contexts *)

Section Whole.
Context {strict : bool} (mls : bool) (ix : indexes) (c : context_struct) (user role type : cstring).
Abbreviation xrun := (xruns strict).

Lemma xok_opt {A} (m : option A) (a : A) (Q : A -> Prop) : m = Some a -> Q a -> xrun (xopt m) Q.
Proof using Type. intros -> H. by apply xok_ret. Qed.

Lemma xok_here {A B} (a : A) (k : A -> X B) (Q : B -> Prop) : xrun (k a) Q -> xrun (xbind (xret a) k) Q.
Proof using Type. intros H o. apply H. Qed.

Lemma xok_buffer n : xrun (xmalloc n) (eq (replicate (Z.to_nat n) UNINIT)).
Proof using Type. apply xok_malloc. Qed.

(** The names of the context. *)
Record named : Prop := mk_named {
  nd_user : 0 < ctx_user c < 2 ^ 32 /\ name_at (ix_users ix).1 (ctx_user c - 1) = Some user;
  nd_role : 0 < ctx_role c < 2 ^ 32 /\ name_at (ix_roles ix).1 (ctx_role c - 1) = Some role;
  nd_type : 0 < ctx_type c < 2 ^ 32 /\ name_at (ix_types ix).1 (ctx_type c - 1) = Some type;
  nd_mls : mls = true -> printable (ix_sens ix) (ix_cats ix) (ctx_range c) }.
Context (Hnamed : named).

Definition mls_part : cstring := if mls then ch_colon :: range_text (ix_sens ix) (ix_cats ix) (ctx_range c) else [].
Definition context_text : cstring := colons [user; role; type] ++ mls_part.

Lemma names_found :
  name_at (ix_users ix).1 (u32 (ctx_user c - 1)) = Some user /\ name_at (ix_roles ix).1 (u32 (ctx_role c - 1)) = Some role /\
  name_at (ix_types ix).1 (u32 (ctx_type c - 1)) = Some type.
Proof using Hnamed. destruct Hnamed as [[? ?] [? ?] [? ?] _]. by rewrite !u32_pred by done. Qed.

Lemma colons_length : zlength (colons [user; role; type]) = zlength user + 1 + zlength role + 1 + zlength type.
Proof using Type. unfold colons. cbn [map concat]. rewrite app_nil_r. cbn [app]. rewrite !zlength_app, !zlength_S, !zlength_app, !zlength_S. lia. Qed.

Lemma mls_part_len : zlength mls_part < 2 ^ 31 -> mls_compute_context_len mls (ix_sens ix) (ix_cats ix) c = Some (zlength mls_part).
Proof using Hnamed.
  unfold mls_part. intros Hsz. destruct mls eqn:E; [|done]. rewrite zlength_S in *. rewrite context_len_text; [done|by apply nd_mls|lia].
Qed.

(** The part printed by [mls_sid_to_context], into a buffer it fills up. *)
Lemma mls_part_put w rest :
  zlength rest = zlength mls_part ->
  exists p, mls_sid_to_context mls (ix_sens ix) (ix_cats ix) c (w ++ 0 :: rest, zlength w) = Some p /\ p.1 = w ++ mls_part ++ [0].
Proof using Hnamed.
  unfold mls_part. intros Hsz. destruct mls eqn:E.
  - rewrite zlength_S in Hsz. destruct (sid_to_context_text (ix_sens ix) (ix_cats ix) c w 0 rest) as (p & -> & (rest' & -> & Hcap)); [by apply nd_mls|lia|].
    eexists. split; [done|]. cbn [fst]. rewrite zlength_app, zlength_S in Hcap. assert (zlength rest' = 0) as Hr by lia.
    destruct rest'; [by rewrite <- app_assoc|]. rewrite zlength_S in Hr. pose proof (zlength_nonneg rest'). lia.
  - destruct rest; [|rewrite zlength_S in Hsz; pose proof (zlength_nonneg rest); change (zlength (@nil Z)) with 0 in Hsz; lia]. by eexists.
Qed.

Lemma context_to_string_ok :
  zlength context_text < 2 ^ 31 - 1 ->
  xrun (context_to_string mls ix c) (fun r => r = (context_text ++ [0], zlength context_text + 1)).
Proof using Hnamed.
  intros Hsz. unfold context_to_string. destruct names_found as (Eu & Er & Et). rewrite Eu, Er, Et. cbn [xopt].
  do 3 apply xok_here. unfold context_text in *. rewrite zlength_app in Hsz.
  pose proof colons_length as Hcl. pose proof (zlength_nonneg mls_part) as Hm. pose proof (zlength_nonneg (colons [user; role; type])) as Hc.
  rewrite mls_part_len by lia. cbn [xopt]. apply xok_here. cbv zeta.
  replace (zlength user + 1 + (zlength role + 1) + zlength type + zlength mls_part) with (zlength (colons [user; role; type]) + zlength mls_part) by lia.
  rewrite !(wrap_small 64) by (unfold in_range; rewrite ?wrap_small by (unfold in_range; lia); lia).
  rewrite <- Hcl. remember (colons [user; role; type]) as t eqn:Ht. eapply xok_bind; [apply xok_buffer|]. intros buf <-.
  rewrite zlength_app. replace (zlength t + zlength mls_part + 1 - 1) with (zlength t + zlength mls_part) by lia.
  assert (Hfill : zlength (replicate (Z.to_nat (zlength t + zlength mls_part + 1)) UNINIT) = zlength t + zlength mls_part + 1)
    by (unfold zlength at 1; rewrite length_replicate; lia).
  rewrite wr_ok by lia. cbn [mbind option_bind]. set (b1 := <[_ := 0]> _). assert (Hb1 : zlength b1 = zlength t + zlength mls_part + 1).
  { unfold b1. unfold zlength at 1. rewrite length_insert. exact Hfill. }
  pose proof (strcpy_at [] b1 t ltac:(lia)) as Es. cbn [app] in Es. change (zlength []) with 0 in Es. rewrite Es. cbn [mbind option_bind].
  destruct (mls_part_put t (zdrop (zlength t + 1) b1)) as (p & Ep & Hp); [unfold zdrop, zlength in *; rewrite length_drop; lia|].
  rewrite Ep. destruct p as [b2 i2]. cbn [fst] in Hp. subst b2. cbn [mbind option_bind xopt]. apply xok_ret. by rewrite <- app_assoc.
Qed.
End Whole.
