(* ===== verification/ContextParse.v ===== *)
(** * ContextParse: reading the text of contexts

    [context_from_string] on any bytes either fails or gives a valid context
    of the policy, with one exception that it does not survive; and it reads
    back what [context_to_string] has printed. *)
From Stdlib Require Import ZArith Lia Bool.
From stdpp Require Import base option list list_numbers gmap sets.
From S2P Require Import Prelude PolicyFile Mem Ebitmap EbitmapThms EbitmapRange EbitmapIO Hashtab HashtabThms Symtab Avtab AvtabIO Cond Codec Symbols SymCodec SymbolsIO Trans TransIns TransFt Index IndexThms ExpandThms IndexAll SymbolsSound Contexts ContextsValid ContextsSound ContextText ContextPrint.

(** ** Fields *)

Lemma scan_shorter stop l : let '(_, d, p) := scan stop l in (d = 0 /\ p = []) \/ (stop d = true /\ (length p < length l)%nat).
Proof.
  induction l as [|c l IH]; cbn [scan]; [by left|]. destruct (stop c) eqn:E; [right; split; [done|cbn; lia]|].
  destruct (scan stop l) as [[f d] p]. destruct IH as [?|[? ?]]; [by left|right]. split; [done|]. cbn [length]. lia.
Qed.

Lemma scan_app stop f c r : Forall (fun x => stop x = false) f -> stop c = true -> scan stop (f ++ c :: r) = (f, c, r).
Proof. intros Hf Hc. induction f as [|x f IH]; cbn [app scan]; [by rewrite Hc|]. inversion_clear Hf as [|? ? H1 H2]. by rewrite H1, IH. Qed.

Lemma scan_all stop f : Forall (fun x => stop x = false) f -> scan stop f = (f, 0, []).
Proof. intros Hf. induction f as [|x f IH]; [done|]. cbn [scan]. inversion_clear Hf as [|? ? H1 H2]. by rewrite H1, IH. Qed.

Lemma cut_app c f r : Forall (fun x => x <> c) f -> cut c (f ++ c :: r) = (f, Some r).
Proof. intros Hf. induction f as [|x f IH]; cbn [app cut]; [by rewrite Z.eqb_refl|]. inversion_clear Hf. by rewrite (proj2 (Z.eqb_neq x c)), IH. Qed.

Lemma cut_all c f : Forall (fun x => x <> c) f -> cut c f = (f, None).
Proof. intros Hf. induction f as [|x f IH]; [done|]. cbn [cut]. inversion_clear Hf. by rewrite (proj2 (Z.eqb_neq x c)), IH. Qed.

(** ** Any text *)

Section Sound.
Context (mls : bool) (s : symbols) (ix : indexes) (Hs : symbols_sound s) (Hix : others_indexed s ix).
Abbreviation xlax := (xruns false).

Lemma table_search {D} (P : cstring -> D -> Prop) t k d : symtab_sound P t -> hashtab_search (st_table t) k = Some d -> P k d.
Proof using Type. intros [_ (h & -> & Hok & Hall)]. rewrite hashtab_search_ok by done. apply Hall. Qed.

Lemma cat_found k d : hashtab_search (st_table (p_cats s)) k = Some d -> in_range 32 (cat_value d).
Proof using Hs. destruct Hs as (_ & _ & _ & _ & _ & _ & _ & Hc). intros H. by apply (table_search _ _ _ _ Hc) in H. Qed.

Lemma level_found k d : hashtab_search (st_table (p_levels s)) k = Some d -> level_ok (lev_level d).
Proof using Hs. destruct Hs as (_ & _ & _ & _ & _ & _ & Hl & _). intros H. by apply (table_search _ _ _ _ Hl) in H. Qed.

Lemma xset_lax e b : ebitmap_ok e -> in_range 32 b -> xlax (xset e b 1) ebitmap_ok.
Proof using Type. intros He Hb. eapply xok_mono; [apply xok_set; [done|by right]|]. by intros e' [? _]. Qed.

Lemma sid_cats_sound field e : ebitmap_ok e -> xlax (sid_cats (p_cats s) field e) ebitmap_ok.
Proof using Hs.
  intros He. unfold sid_cats. destruct (cut ch_dot field) as [first rng]. destruct (hashtab_search _ first) as [cd|] eqn:E1; [|by apply xok_fail].
  pose proof (cat_found _ _ E1) as Hcd. eapply xok_bind; [apply xset_lax; [done|by apply wrap_range]|]. intros e1 He1.
  destruct rng as [rng|]; [|by apply xok_ret]. destruct (hashtab_search _ rng) as [rd|] eqn:E2; [|by apply xok_fail].
  pose proof (cat_found _ _ E2) as Hrd. destruct (Z.leb_spec (cat_value rd) (cat_value cd)); [by apply xok_fail|].
  apply (xok_fold _ _ (fun _ e => ebitmap_ok e)); [done|]. intros done i todo e2 El He2. apply xset_lax; [done|].
  assert (i ∈ seqZ (cat_value cd) (cat_value rd - cat_value cd)) as Hi%elem_of_seqZ by (rewrite El, elem_of_app; right; by left). unfold in_range in *. lia.
Qed.

Lemma sid_cats_loop_sound fuel p e : (length p < fuel)%nat -> ebitmap_ok e -> xlax (sid_cats_loop (p_cats s) fuel p e) (fun r => ebitmap_ok r.1.1).
Proof using Hs.
  revert p e. induction fuel as [|fuel IH]; intros p e Hf He; [lia|]. cbn [sid_cats_loop]. pose proof (scan_shorter cat_end p) as Hp.
  destruct (scan cat_end p) as [[field delim] p']. eapply xok_bind; [by apply sid_cats_sound|]. intros e1 He1.
  destruct (Z.eqb_spec delim ch_comma) as [->|]; cbn [negb]; [|by apply xok_ret]. apply IH; [|done]. destruct Hp as [[? ?]|[_ ?]]; [done|lia].
Qed.

Lemma sid_level_sound field delim p l : ebitmap_ok (cat l) -> xlax (sid_level (p_levels s) (p_cats s) field delim p l) (fun r => level_ok r.1.1).
Proof using Hs.
  intros Hl. unfold sid_level. destruct (hashtab_search _ field) as [ld|] eqn:E; [|by apply xok_fail]. destruct (level_found _ _ E) as [Hsens _].
  eapply (xok_bind _ _ (fun r => ebitmap_ok r.1.1)); [destruct (delim =? ch_colon); [apply sid_cats_loop_sound; [lia|done]|by apply xok_ret]|].
  intros [[e d] q] He. apply xok_ret. by split.
Qed.

Lemma mls_context_to_sid_sound oldc text c :
  context_ranges c -> xlax (mls_context_to_sid mls (p_levels s) (p_cats s) oldc text c) context_ranges.
Proof using Hs.
  intros Hc. pose proof Hc as (Hu & Hr & Ht & [_ H0] & [_ H1]). unfold mls_context_to_sid. destruct (negb mls); [by apply xok_ret|]. destruct (negb _); [by apply xok_fail|].
  destruct (scan low_end text) as [[field delim] p]. eapply xok_bind; [by apply sid_level_sound|]. intros [[l0 d0] p0] Hl0.
  eapply (xok_bind _ _ level_ok).
  - destruct (d0 =? ch_dash).
    + destruct (scan high_end p0) as [[f1 d1] p1]. eapply xok_bind; [by apply sid_level_sound|]. intros r Hl1. by apply xok_ret.
    + unfold mls_level_cpy. eapply xok_bind; [apply xok_cpy|]. intros e <-. apply xok_ret. destruct Hl0. by split.
  - intros l1 Hl1. apply xok_ret. by split_and!.
Qed.

Lemma strdup_lax str : xlax (strdup str) (eq str).
Proof using Type. apply xok_malloc. Qed.

Lemma record_allocs_lax : xlax record_allocs (fun _ => True).
Proof using Type.
  intros o _. unfold record_allocs. destruct (malloc o) as [a o1], (malloc o1) as [b o2], (malloc o2) as [c o3], (malloc o3) as [d o4]. eexists _, o4. by split.
Qed.

Lemma context_from_record_sound r :
  is_Some (sc_user r) -> is_Some (sc_role r) -> is_Some (sc_type r) ->
  xlax (context_from_record mls s ix (Some r)) (context_sound mls s).
Proof using Hs Hix.
  intros [user Eu] [role Er] [type Et]. pose proof Hs as (_ & _ & Hro & Hty & Hus & _). unfold context_from_record. rewrite Eu, Er, Et.
  eapply xok_bind; [apply record_allocs_lax|]. intros _ _.
  destruct (hashtab_search _ user) as [ud|] eqn:E1; [|by apply xok_fail]. apply (table_search _ _ _ _ Hus) in E1 as [Hu _].
  destruct (hashtab_search _ role) as [rd|] eqn:E2; [|by apply xok_fail]. apply (table_search _ _ _ _ Hro) in E2 as [Hr _].
  destruct (hashtab_search _ type) as [td|] eqn:E3; [|by apply xok_fail]. apply (table_search _ _ _ _ Hty) in E3 as [Ht _].
  destruct (type_flavor td =? TYPE_ATTRIB); [by apply xok_fail|]. cbv zeta.
  assert (Hc : context_ranges (mk_context (user_value ud) (role_value rd) (type_value td) empty_range)).
  { unfold in_range in *. split_and!; try apply Hu; try apply Hr; try apply Ht; try done. }
  eapply (xok_bind _ _ context_ranges).
  { destruct (sc_mls r) as [m|], mls eqn:Em; try by apply xok_fail; try by apply xok_ret.
    - unfold mls_from_string. eapply xok_bind; [apply strdup_lax|]. intros tmp <-. rewrite <- Em. by apply mls_context_to_sid_sound.
    - by apply xok_ret. }
  intros c Hcr. destruct (check_safe mls s ix Hs Hix c Hcr) as (b & E & Hb). unfold policydb_context_isvalid in E. rewrite E. cbn [xopt]. apply xok_here.
  destruct b; [|by apply xok_fail]. apply xok_ret. split; [done|]. by apply Hb.
Qed.

(** ** Strings *)

(** The string at the front of some bytes. *)
Fixpoint string_of (l : list Z) : cstring :=
  match l with [] => [] | c :: l => if c =? 0 then [] else c :: string_of l end.

Lemma cstr_string l : Forall (in_range 8) l -> cstr (l ++ [0]) = Some (string_of l).
Proof using Type.
  induction 1 as [|c l Hc _ IH]; [done|]. cbn [app cstr string_of]. destruct (c =? 0); [done|]. unfold in_range, UNINIT in *.
  replace (c =? - 1) with false by lia. by rewrite IH.
Qed.

Lemma string_of_app text tail : Forall (fun c => c <> 0) text -> string_of (text ++ 0 :: tail) = text.
Proof using Type. induction 1 as [|c l Hc _ IH]; [done|]. cbn [app string_of]. by rewrite (proj2 (Z.eqb_neq c 0) Hc), IH. Qed.

Lemma string_of_text text : Forall (fun c => c <> 0) text -> string_of text = text.
Proof using Type. induction 1 as [|c l Hc _ IH]; [done|]. cbn [string_of]. by rewrite (proj2 (Z.eqb_neq c 0) Hc), IH. Qed.

(** The copy with a terminator that [context_from_string] makes. *)
Lemma copy_string l :
  Forall (in_range 8) l ->
  (b ← memcpy (replicate (Z.to_nat (zlength l + 1)) UNINIT) 0 l 0 (zlength l); b ← wr b (zlength l) 0; cstr b) = Some (string_of l).
Proof using Type.
  intros Hl. pose proof (zlength_nonneg l). assert (Hr : zlength (replicate (Z.to_nat (zlength l + 1)) UNINIT) = zlength l + 1) by (unfold zlength at 1; rewrite length_replicate; lia).
  rewrite memcpy_ok by lia. cbn [mbind option_bind]. rewrite slice_full, Z.add_0_l. change (ztake 0 ?x) with (@nil Z). cbn [app].
  assert (zdrop (zlength l) (replicate (Z.to_nat (zlength l + 1)) UNINIT) = [UNINIT]) as ->.
  { unfold zdrop. rewrite drop_replicate. by replace (Z.to_nat (zlength l + 1) - Z.to_nat (zlength l))%nat with 1%nat by lia. }
  rewrite wr_ok by (rewrite zlength_app; change (zlength [UNINIT]) with 1; lia). cbn [mbind option_bind]. unfold zlength. rewrite Nat2Z.id, insert_app_r_alt, Nat.sub_diag by lia.
  by apply cstr_string.
Qed.

(** ** Records *)

Lemma create_ok {strict} : xruns strict sepol_context_create (eq (mk_sepol_context None None None None)).
Proof using Type. apply xok_malloc. Qed.

Lemma strdup_then {strict A} str (f : cstring -> A) : xruns strict (tmp <- strdup str ;;; xret (f tmp)) (eq (f str)).
Proof using Type. eapply xok_bind; [apply xok_malloc|]. intros ? <-. by apply xok_ret. Qed.

(** The record of a text. *)
Definition record_of (str : cstring) : option sepol_context :=
  match cut ch_colon str with
  | (user, Some low) =>
      match cut ch_colon low with
      | (role, Some low) => let '(type, m) := cut ch_colon low in Some (mk_sepol_context (Some user) (Some role) (Some type) m)
      | _ => None
      end
  | _ => None
  end.

Lemma from_string_record {strict} str :
  strcmp str str_none <> 0 -> (strict = true -> record_of str <> None) ->
  xruns strict (sepol_context_from_string str) (fun r => r <> None /\ r = record_of str).
Proof using Type.
  intros Hn Hr. unfold sepol_context_from_string. rewrite (proj2 (Z.eqb_neq _ _) Hn). eapply xok_bind; [apply create_ok|]. intros con <-.
  eapply xok_bind; [apply xok_malloc|]. intros ? <-. unfold record_of in *. destruct (cut ch_colon str) as [user [low|]]; [|apply xok_fail; by destruct strict; [destruct Hr|]].
  eapply xok_bind; [apply strdup_then|]. intros ? <-. destruct (cut ch_colon low) as [role [low2|]]; [|apply xok_fail; by destruct strict; [destruct Hr|]].
  eapply xok_bind; [apply strdup_then|]. intros ? <-. destruct (cut ch_colon low2) as [type [m|]]; (eapply xok_bind; [apply strdup_then|]); intros ? <-; [|by apply xok_ret].
  eapply xok_bind; [apply strdup_then|]. intros ? <-. by apply xok_ret.
Qed.

Lemma record_complete str r : record_of str = Some r -> is_Some (sc_user r) /\ is_Some (sc_role r) /\ is_Some (sc_type r).
Proof using Type.
  unfold record_of. destruct (cut ch_colon str) as [? [low|]]; [|done]. destruct (cut ch_colon low) as [? [low2|]]; [|done].
  destruct (cut ch_colon low2). intros [= <-]. cbn. by split_and!; eexists.
Qed.

Lemma context_from_string_safe str :
  Forall (in_range 8) str -> strcmp (string_of str) str_none <> 0 -> xlax (context_from_string mls s ix str) (context_sound mls s).
Proof using Hs Hix.
  intros Hb Hn. unfold context_from_string. destruct (_ || _); [by apply xok_fail|]. eapply xok_bind; [apply xok_buffer|]. intros b <-.
  rewrite copy_string by done. cbn [xopt]. apply xok_here. eapply xok_bind; [by apply from_string_record|]. intros [r|] [Hr E]; [|done].
  destruct (record_complete _ _ (eq_sym E)) as (? & ? & ?). by apply context_from_record_sound.
Qed.
End Sound.

(** ** The fields cover the members *)

Definition in_field (b : Z) (f : Z * Z) : Prop := f.1 <= b <= f.2.
Definition covered (l : list (Z * Z)) (b : Z) : Prop := Exists (in_field b) l.

Lemma close_covers run i :
  (forall r, run = Some r -> r < i) ->
  Forall (fun f => f.1 <= f.2) (close_run run i) /\ forall b, covered (close_run run i) b <-> exists r, run = Some r /\ r <= b < i.
Proof.
  intros Hr. unfold covered, in_field. destruct run as [r|]; cbn [close_run]; [specialize (Hr r eq_refl)|].
  - destruct (Z.eqb_spec (i - r) 2) as [E|E]; (split; [repeat constructor; cbn; lia|]); intros b; rewrite ?Exists_cons, Exists_nil; cbn [fst snd].
    + split; [|intros (? & [= <-] & ?); lia]. intros [?|[?|[]]]; exists r; (split; [done|lia]).
    + split; [|intros (? & [= <-] & ?); lia]. intros [?|[]]; exists r; (split; [done|lia]).
  - split; [constructor|]. intros b. rewrite Exists_nil. split; [done|]. by intros (? & ? & _).
Qed.

Lemma fields_cover m hi n lo run :
  hi - lo = Z.of_nat n -> (forall r, run = Some r -> r < lo) ->
  Forall (fun f => f.1 <= f.2) (fields_of (interval m lo hi) run hi) /\
  forall b, covered (fields_of (interval m lo hi) run hi) b <-> (exists r, run = Some r /\ r <= b < lo) \/ (lo <= b < hi /\ m b = true).
Proof.
  revert lo run. induction n as [|n IH]; intros lo run Hn Hr.
  - assert (lo = hi) as -> by lia. rewrite interval_nil. cbn [fields_of]. destruct (close_covers run hi Hr) as [H1 H2]. split; [done|].
    intros b. rewrite H2. split; [by left|]. intros [?|[? _]]; [done|lia].
  - rewrite interval_cons by lia. destruct (m lo) eqn:Hm; cbn [fields_of].
    + destruct (IH (lo + 1) (Some (default lo run))) as [H1 H2]; [lia|intros r [= <-]; destruct run as [r|]; cbn; [specialize (Hr r eq_refl)|]; lia|].
      split; [done|]. intros b. rewrite H2. split.
      * intros [(r & [= <-] & Hb)|[Hb Hmb]]; [|right; split; [lia|done]]. destruct run as [r|]; cbn in Hb; [|right; split; [lia|by replace b with lo by lia]].
        destruct (decide (b = lo)) as [->|]; [right; split; [lia|done]|left; exists r; split; [done|lia]].
      * intros [(r & -> & Hb)|[Hb Hmb]]; [left; exists r; split; [done|lia]|]. destruct (decide (b = lo)) as [->|]; [|right; split; [lia|done]].
        left. exists (default lo run). split; [done|]. destruct run as [r|]; cbn; [specialize (Hr r eq_refl)|]; lia.
    + destruct (IH (lo + 1) None) as [H1 H2]; [lia|done|]. destruct (close_covers run lo Hr) as [H3 H4]. split; [by apply Forall_app|].
      intros b. unfold covered in *. rewrite Exists_app, H2, H4. split.
      * intros [?|[(? & ? & _)|[? ?]]]; [by left|done|right; split; [lia|done]].
      * intros [?|[Hb Hmb]]; [by left|right; right]. destruct (decide (b = lo)) as [->|]; [congruence|]. split; [lia|done].
Qed.

Lemma level_fields_cover l :
  ebitmap_ok (cat l) -> Forall (fun f => f.1 <= f.2) (level_fields l) /\ forall b, covered (level_fields l) b <-> b ∈ ebitmap_set (cat l).
Proof.
  intros [Hok _]. unfold level_fields. setoid_rewrite elem_of_ebitmap_set. destruct (node (cat l)) as [|a n] eqn:E.
  - split; [constructor|]. intros b. unfold covered. by rewrite Exists_nil, nodes_bit_nil.
  - pose proof (high_first 0 a n ltac:(done) Hok) as Hh. destruct (nodes_high_props 0 (a :: n) ltac:(done) Hok) as (_ & _ & Hhb & _).
    destruct (fields_cover (nodes_bit (a :: n)) (nodes_high (a :: n)) (Z.to_nat (nodes_high (a :: n) - startbit a)) (startbit a) None) as [H1 H2]; [lia|done|].
    split; [done|]. intros b. rewrite H2. split; [intros [(? & ? & _)|[_ ?]]; done|]. intros Hb. right. split; [|done]. split; [|by apply Hhb].
    destruct (Z.le_gt_cases (startbit a) b); [done|]. rewrite (nodes_bit_low (startbit a) (a :: n)) in Hb; [done| |lia].
    destruct Hok as (? & ? & ?). by split_and!.
Qed.

(** ** Printed text *)

Lemma found_name {D} (val : D -> option Z) t ns i k :
  indexable val t -> inverse_names val (st_nprim t) (symtab_abs t) ns -> 0 <= i -> name_at ns i = Some k ->
  exists d, hashtab_search (st_table t) k = Some d /\ val d = Some (i + 1).
Proof.
  intros (h & Eh & Hok & _) [st (Hl1 & Hl2 & Hst & Hn)] Hi Hk. unfold name_at in Hk. cbn [fst snd] in *.
  destruct (ns !! Z.to_nat i) as [x|] eqn:E; [|done]. cbn [mbind option_bind] in Hk. subst x. pose proof (lookup_lt_Some _ _ _ E) as Hlt.
  specialize (Hn (i + 1) ltac:(lia)). replace (i + 1 - 1) with i in Hn by lia. rewrite E in Hn. destruct (st !! Z.to_nat i) as [[[k' d]|]|] eqn:E2; [|done|done].
  cbn in Hn. injection Hn as <-. destruct (proj1 (Hst (i + 1) k d ltac:(lia))) as [Hm Hv]; [by replace (i + 1 - 1) with i by lia|].
  exists d. unfold symtab_abs in Hm. rewrite Eh in *. by rewrite hashtab_search_ok.
Qed.

Section RoundTrip.
Context (mls : bool) (s : symbols) (ix : indexes) (Hs : symbols_sound s) (Hix : others_indexed s ix).

(** The characters that separate the parts of the text are in no name. *)
Definition names_avoid {D} (bad : Z -> bool) (t : symtab D) : Prop :=
  map_Forall (fun k _ => Forall (fun x => (in_range 8 x /\ x <> 0) /\ bad x = false) k) (symtab_abs t).

Definition cat_bad (x : Z) : bool := cat_end x || (x =? ch_dot).
Definition plain_names : Prop :=
  names_avoid high_end (p_users s) /\ names_avoid high_end (p_roles s) /\ names_avoid high_end (p_types s) /\
  names_avoid low_end (p_levels s) /\ names_avoid cat_bad (p_cats s).
Context (Hplain : plain_names).

Abbreviation nm := (cat_nm (ix_cats ix)).

Lemma avoid_name {D} bad (t : symtab D) k d :
  names_avoid bad t -> (exists h, st_table t = Some h /\ hashtab_ok h) -> hashtab_search (st_table t) k = Some d ->
  Forall (fun x => (in_range 8 x /\ x <> 0) /\ bad x = false) k.
Proof using Type. intros H (h & E & Hok) Hk. apply (H k d). unfold symtab_abs. rewrite E in *. by rewrite hashtab_search_ok in Hk. Qed.

Lemma sound_table {D} (P : cstring -> D -> Prop) t : symtab_sound P t -> exists h, st_table t = Some h /\ hashtab_ok h.
Proof using Type. intros [_ (h & -> & Hok & _)]. eauto. Qed.

Lemma cat_name b :
  0 <= b -> is_Some (name_at (ix_cats ix) b) ->
  Forall (fun x => (in_range 8 x /\ x <> 0) /\ cat_bad x = false) (nm b) /\ exists d, hashtab_search (st_table (p_cats s)) (nm b) = Some d /\ cat_value d = b + 1.
Proof using Hs Hix Hplain.
  intros Hb [k Hk]. unfold cat_nm. rewrite Hk. cbn [default id]. destruct (symbols_indexable s Hs) as (_ & _ & _ & _ & _ & _ & _ & Hi).
  destruct Hix as (_ & _ & _ & _ & _ & Hn & _). destruct (found_name cat_val (p_cats s) _ b k Hi Hn Hb Hk) as (d & Hd & Hv). split.
  - eapply avoid_name; [by apply Hplain| |done]. by apply (sound_table (fun _ => cat_sound)), Hs.
  - exists d. split; [done|]. unfold cat_val in Hv. destruct (ctrue _); by simplify_eq.
Qed.

Lemma sens_name_found v :
  0 < v -> is_Some (name_at (ix_sens ix) (v - 1)) ->
  Forall (fun x => (in_range 8 x /\ x <> 0) /\ low_end x = false) (sens_nm (ix_sens ix) v) /\
  exists d, hashtab_search (st_table (p_levels s)) (sens_nm (ix_sens ix) v) = Some d /\ sens (lev_level d) = v.
Proof using Hs Hix Hplain.
  intros Hv [k Hk]. unfold sens_nm. rewrite Hk. cbn [default id]. destruct (symbols_indexable s Hs) as (_ & _ & _ & _ & _ & _ & Hi & _).
  destruct Hix as (_ & _ & _ & _ & Hn & _). destruct (found_name sens_val (p_levels s) _ (v - 1) k Hi Hn ltac:(lia) Hk) as (d & Hd & Hval). split.
  - eapply avoid_name; [by apply Hplain| |done]. by apply (sound_table (fun _ => level_sound)), Hs.
  - exists d. split; [done|]. unfold sens_val in Hval. destruct (ctrue _); simplify_eq. lia.
Qed.

(** A field with its two ends. *)
Definition field_ok (f : Z * Z) : Prop :=
  0 <= f.1 <= f.2 /\ f.2 < 2 ^ 32 - 64 /\ is_Some (name_at (ix_cats ix) f.1) /\ is_Some (name_at (ix_cats ix) f.2).

Lemma xset_add e b : ebitmap_ok e -> 0 <= b < 2 ^ 32 - 64 -> xok (xset e b 1) (fun e' => ebitmap_ok e' /\ forall x, x ∈ ebitmap_set e' <-> x ∈ ebitmap_set e \/ x = b).
Proof using Type.
  intros He Hb. eapply xok_mono; [apply xok_set; [done|by left]|]. intros e' [He' E]. split; [done|]. intros x. rewrite E. cbn. rewrite elem_of_union, elem_of_singleton. tauto.
Qed.

Lemma sid_cats_field f e :
  field_ok f -> ebitmap_ok e ->
  xok (sid_cats (p_cats s) (field_text nm f) e) (fun e' => ebitmap_ok e' /\ forall b, b ∈ ebitmap_set e' <-> b ∈ ebitmap_set e \/ in_field b f).
Proof using Hs Hix Hplain.
  intros (Hlo & Hhi & N1 & N2) He. destruct (cat_name f.1 ltac:(lia) N1) as [P1 (d1 & S1 & V1)]. destruct (cat_name f.2 ltac:(lia) N2) as [P2 (d2 & S2 & V2)].
  assert (Hdot : Forall (fun x => x <> ch_dot) (nm f.1)).
  { eapply Forall_impl; [exact P1|]. intros x [_ Hx]. unfold cat_bad in Hx. apply orb_false_elim in Hx as [_ Hx]. lia. }
  unfold sid_cats, field_text, in_field. destruct (Z.eqb_spec f.1 f.2) as [E|E].
  - rewrite cut_all, S1, V1 by done. replace (f.1 + 1 - 1) with f.1 by lia. rewrite wrap_small by (unfold in_range; lia).
    eapply xok_bind; [apply xset_add; [done|lia]|]. intros e1 [He1 H1]. apply xok_ret. split; [done|]. intros b. rewrite H1. intuition lia.
  - rewrite cut_app, S1, V1 by done. replace (f.1 + 1 - 1) with f.1 by lia. rewrite wrap_small by (unfold in_range; lia).
    eapply xok_bind; [apply xset_add; [done|lia]|]. intros e1 [He1 H1]. rewrite S2, V2. replace (f.2 + 1 <=? f.1 + 1) with false by lia.
    eapply xok_mono; [apply (xok_collect _ _ (fun x b => b = x)); [done|]|].
    + intros x e2 Hx%elem_of_seqZ He2. apply xset_add; [done|lia].
    + intros e2 [He2 H2]. split; [done|]. intros b. rewrite H2, H1. setoid_rewrite elem_of_seqZ. split; [intros [[?|?]|(? & ? & ->)]; (left; done) || (right; lia)|].
      intros [?|Hb]; [by left; left|]. destruct (decide (b = f.1)); [by left; right|right]. exists b. split; [lia|done].
Qed.

(** What follows the categories of a level: nothing, or a dash. *)
Definition level_end (tail : cstring) (delim : Z) (p : cstring) : Prop :=
  (tail = [] /\ delim = 0 /\ p = []) \/ (tail = ch_dash :: p /\ delim = ch_dash).

Lemma field_chars f : field_ok f -> Forall (fun x => cat_end x = false) (field_text nm f).
Proof using Hs Hix Hplain.
  intros (Hlo & Hhi & N1 & N2). destruct (cat_name f.1 ltac:(lia) N1) as [P1 _]. destruct (cat_name f.2 ltac:(lia) N2) as [P2 _].
  assert (H : forall k, Forall (fun x => (in_range 8 x /\ x <> 0) /\ cat_bad x = false) k -> Forall (fun x => cat_end x = false) k).
  { intros k Hk. eapply Forall_impl; [exact Hk|]. intros x [_ Hx]. unfold cat_bad in Hx. by apply orb_false_elim in Hx as [? _]. }
  unfold field_text. destruct (f.1 =? f.2); [by apply H|]. apply Forall_app. split; [by apply H|]. constructor; [done|by apply H].
Qed.

Lemma sid_cats_loop_fields fs f fuel tail delim p e :
  Forall field_ok (f :: fs) -> level_end tail delim p -> (length (field_text nm f ++ comma_text nm fs ++ tail) < fuel)%nat -> ebitmap_ok e ->
  xok (sid_cats_loop (p_cats s) fuel (field_text nm f ++ comma_text nm fs ++ tail) e)
    (fun r => (ebitmap_ok r.1.1 /\ forall b, b ∈ ebitmap_set r.1.1 <-> b ∈ ebitmap_set e \/ covered (f :: fs) b) /\ r.1.2 = delim /\ r.2 = p).
Proof using Hs Hix Hplain.
  intros Hfs Htail. revert f fuel e Hfs. induction fs as [|g fs IH]; intros f fuel e Hfs Hfuel He; (destruct fuel as [|fuel]; [lia|]); inversion_clear Hfs as [|? ? Hf Hfs'];
    pose proof (field_chars f Hf) as Hch; cbn [sid_cats_loop].
  - cbn [comma_text map concat app]. assert (scan cat_end (field_text nm f ++ tail) = (field_text nm f, delim, p)) as ->.
    { destruct Htail as [(-> & -> & ->)|[-> ->]]; [by rewrite app_nil_r, scan_all|by rewrite scan_app]. }
    eapply xok_bind; [by apply sid_cats_field|]. intros e1 [He1 H1]. replace (negb (delim =? ch_comma)) with true by (by destruct Htail as [(_ & -> & _)|[_ ->]]).
    apply xok_ret. cbn [fst snd]. split; [|done]. split; [done|]. intros b. unfold covered. rewrite H1, Exists_cons, Exists_nil. tauto.
  - assert (E : field_text nm f ++ comma_text nm (g :: fs) ++ tail = field_text nm f ++ ch_comma :: (field_text nm g ++ comma_text nm fs ++ tail)).
    { unfold comma_text. cbn [map concat app]. by rewrite <- !app_assoc. }
    rewrite E in *. rewrite scan_app by done. eapply xok_bind; [by apply sid_cats_field|]. intros e1 [He1 H1]. rewrite Z.eqb_refl. cbn [negb].
    eapply xok_mono; [apply (IH g fuel e1); [done| |done]; rewrite length_app in Hfuel; cbn [length] in Hfuel; lia|].
    intros [[e2 d2] p2] [[He2 H2] Hd]. cbn [fst snd] in *. split; [|done]. split; [done|]. intros b. unfold covered in *. rewrite H2, H1, (Exists_cons _ f). tauto.
Qed.

(** Bitmaps with the same members are the same. *)
Lemma bitmap_ext e1 e2 : ebitmap_ok e1 -> ebitmap_ok e2 -> (forall b, b ∈ ebitmap_set e1 <-> b ∈ ebitmap_set e2) -> e1 = e2.
Proof using Type.
  intros [H1 Hh1] [H2 Hh2] H. assert (node e1 = node e2) as E.
  { eapply nodes_canonical; [done|done|]. intros b. specialize (H b). rewrite !elem_of_ebitmap_set in H. by apply eq_true_iff_eq. }
  destruct e1 as [n1 h1], e2 as [n2 h2]. cbn in *. by subst.
Qed.

Lemma printed_fields l : printable_level (ix_sens ix) (ix_cats ix) l -> Forall field_ok (level_fields l).
Proof using Type.
  intros [_ _ Hok Hn _]. destruct (level_fields_cover l Hok) as [Hle Hc]. apply Forall_forall. intros f Hf. rewrite Forall_forall in Hle. specialize (Hle f Hf).
  assert (Hmem : forall b, in_field b f -> b ∈ ebitmap_set (cat l)). { intros b Hb. apply Hc, Exists_exists. eauto. }
  assert (H1 : f.1 ∈ ebitmap_set (cat l)) by (apply Hmem; unfold in_field; lia). assert (H2 : f.2 ∈ ebitmap_set (cat l)) by (apply Hmem; unfold in_field; lia).
  pose proof (bits_range _ _ Hok H1). pose proof (bits_range _ _ Hok H2). unfold field_ok. split_and!; [lia..|by apply Hn|by apply Hn].
Qed.

(** The text of a level behind its sensitivity, and what the scan for the end
    of the sensitivity makes of it. *)
Lemma sid_level_text l stop tail delim p :
  printable_level (ix_sens ix) (ix_cats ix) l -> level_end tail delim p ->
  (forall x, low_end x = false -> stop x = false) -> stop ch_colon = true -> (stop ch_dash = true \/ tail = []) ->
  let '(field, d, q) := scan stop (level_text (ix_sens ix) (ix_cats ix) l ++ tail) in
  xok (sid_level (p_levels s) (p_cats s) field d q empty_level) (eq (l, delim, p)).
Proof using Hs Hix Hplain.
  intros Hl Htail Hstop Hcolon Hdash. pose proof (printed_fields l Hl) as Hf. destruct Hl as [Hsens Hname Hok Hn _].
  destruct (sens_name_found (sens l) ltac:(lia) Hname) as [Hch (d & Hd & Hv)]. destruct (level_fields_cover l Hok) as [_ Hc].
  assert (Hfield : Forall (fun x => stop x = false) (sens_nm (ix_sens ix) (sens l))). { eapply Forall_impl; [exact Hch|]. intros x [_ Hx]. by apply Hstop. }
  unfold level_text. destruct (level_fields l) as [|f fs].
  - assert (scan stop ((sens_nm (ix_sens ix) (sens l) ++ list_text nm []) ++ tail) = (sens_nm (ix_sens ix) (sens l), delim, p)) as ->.
    { cbn [list_text]. rewrite app_nil_r. destruct Htail as [(-> & -> & ->)|[-> ->]]; [by rewrite app_nil_r, scan_all|]. destruct Hdash; [by rewrite scan_app|done]. }
    unfold sid_level. rewrite Hd. replace (delim =? ch_colon) with false by (by destruct Htail as [(_ & -> & _)|[_ ->]]).
    apply xok_here. apply xok_ret. rewrite Hv. destruct l as [sl cl]. cbn in *. do 3 f_equal. apply bitmap_ext; [done|done|]. intros b. rewrite <- Hc.
    unfold covered. by rewrite Exists_nil.
  - cbn [list_text]. rewrite <- app_assoc. cbn [app]. rewrite <- app_assoc, scan_app by done. unfold sid_level. rewrite Hd, Z.eqb_refl.
    eapply xok_bind; [eapply (sid_cats_loop_fields fs f); [done|done|lia|done]|]. intros [[e d'] p'] [[He H] [<- <-]]. cbn [fst snd] in *. apply xok_ret.
    rewrite Hv. destruct l as [sl cl]. cbn in *. do 3 f_equal. apply bitmap_ext; [done|done|]. intros b. rewrite H, Hc. split; [by right|]. intros [Hb|?]; [by vm_compute in Hb|done].
Qed.

Lemma level_cpy_ok {strict} l : xruns strict (mls_level_cpy l) (eq l).
Proof using Type. unfold mls_level_cpy. eapply xok_bind; [apply xok_cpy|]. intros ? <-. apply xok_ret. by destruct l. Qed.

Lemma mls_from_string_range r u ro t :
  printable (ix_sens ix) (ix_cats ix) r ->
  xok (mls_from_string true (p_levels s) (p_cats s) (range_text (ix_sens ix) (ix_cats ix) r) (mk_context u ro t empty_range)) (eq (mk_context u ro t r)).
Proof using Hs Hix Hplain.
  intros [H0 H1]. unfold mls_from_string. eapply xok_bind; [apply xok_malloc|]. intros ? <-. unfold mls_context_to_sid. cbn [negb ctx_range level0 level1 empty_range ctx_user ctx_role ctx_type].
  change (negb (ctrue ch_dollar)) with false. cbn iota. unfold range_text. destruct (mls_level_eq (level0 r) (level1 r)) eqn:E.
  - pose proof (sid_level_text (level0 r) low_end [] 0 [] H0) as Hp. destruct (scan low_end _) as [[field d] q].
    eapply xok_bind; [apply Hp; [by left|done|done|by left]|]. intros ? <-. cbn iota beta zeta. change (0 =? ch_dash) with false. cbn iota.
    eapply xok_bind; [apply level_cpy_ok|]. intros ? <-. apply xok_ret. apply level_eq_same in E. destruct r as [l0 l1]. cbn in *. by subst.
  - set (t1 := level_text _ _ (level1 r)). pose proof (sid_level_text (level0 r) low_end (ch_dash :: t1) ch_dash t1 H0) as Hp. destruct (scan low_end _) as [[field d] q].
    eapply xok_bind; [apply Hp; [by right|done|done|by left]|]. intros ? <-. cbn iota beta zeta. rewrite Z.eqb_refl.
    pose proof (sid_level_text (level1 r) high_end [] 0 [] H1) as Hp1. rewrite app_nil_r in Hp1. fold t1 in Hp1. destruct (scan high_end t1) as [[field1 d1] q1].
    eapply (xok_bind _ _ (eq (level1 r))).
    + eapply xok_bind; [apply Hp1; [by left| |done|by right]|intros ? <-; by apply xok_ret]. intros x Hx. unfold low_end, high_end in *. by apply orb_false_elim in Hx as [? _].
    + intros ? <-. apply xok_ret. by destruct r.
Qed.

(** ** The whole text *)

Lemma table_names {D} (P : cstring -> D -> Prop) (val : D -> option Z) t st v k :
  symtab_sound P t -> indexable val t -> inverse val (st_nprim t) (symtab_abs t) st -> names_avoid high_end t -> 0 < v -> name_at st.1 (v - 1) = Some k ->
  (Forall (fun x => in_range 8 x /\ x <> 0) k /\ Forall (fun x => x <> ch_colon) k) /\ exists d, hashtab_search (st_table t) k = Some d /\ val d = Some v.
Proof using Type.
  intros Hsnd Hi Hinv Hav Hv Hk. destruct (found_name val t st.1 (v - 1) k Hi) as (d & Hd & Hval); [exists st.2; by destruct st|lia|done|].
  pose proof (avoid_name _ _ _ _ Hav (sound_table _ _ Hsnd) Hd) as Hch. split; [|exists d; split; [done|by rewrite Hval; f_equal; lia]].
  split; (eapply Forall_impl; [exact Hch|]); intros x [? Hx]; [done|]. unfold high_end in Hx. lia.
Qed.

Definition text_char (x : Z) : Prop := in_range 8 x /\ x <> 0.

Lemma separators : text_char ch_colon /\ text_char ch_dash /\ text_char ch_comma /\ text_char ch_dot.
Proof using Type. by split_and!. Qed.

Lemma level_text_chars l : printable_level (ix_sens ix) (ix_cats ix) l -> Forall text_char (level_text (ix_sens ix) (ix_cats ix) l).
Proof using Hs Hix Hplain.
  intros Hl. pose proof (printed_fields l Hl) as Hf. destruct Hl as [Hsens Hname _ _ _]. destruct (sens_name_found (sens l) ltac:(lia) Hname) as [Hch _].
  assert (Hnames : forall bad k, Forall (fun x => (in_range 8 x /\ x <> 0) /\ bad x = false) k -> Forall text_char k).
  { intros bad k Hk. eapply Forall_impl; [exact Hk|]. by intros x [? _]. }
  assert (Hfield : forall f, field_ok f -> Forall text_char (field_text nm f)).
  { intros f (Hlo & _ & N1 & N2). destruct (cat_name f.1 ltac:(lia) N1) as [P1 _]. destruct (cat_name f.2 ltac:(lia) N2) as [P2 _]. unfold field_text.
    destruct (f.1 =? f.2); [by eapply Hnames|]. apply Forall_app. split; [by eapply Hnames|]. constructor; [apply separators|by eapply Hnames]. }
  unfold level_text. apply Forall_app. split; [by eapply Hnames|]. destruct Hf as [|f fs Hf Hfs]; [constructor|]. cbn [list_text]. constructor; [apply separators|].
  apply Forall_app. split; [by apply Hfield|]. unfold comma_text. apply Forall_concat, Forall_map. eapply Forall_impl; [exact Hfs|].
  intros g Hg. constructor; [apply separators|by apply Hfield].
Qed.

Lemma range_text_chars r : printable (ix_sens ix) (ix_cats ix) r -> Forall text_char (range_text (ix_sens ix) (ix_cats ix) r).
Proof using Hs Hix Hplain.
  intros [H0 H1]. unfold range_text. apply Forall_app. split; [by apply level_text_chars|]. destruct (mls_level_eq _ _); [constructor|].
  constructor; [apply separators|by apply level_text_chars].
Qed.

Section OneContext.
Context (c : context_struct) (user role type : cstring) (Hnamed : named mls ix c user role type).

Lemma context_names :
  ((Forall text_char user /\ Forall (fun x => x <> ch_colon) user) /\ exists d, hashtab_search (st_table (p_users s)) user = Some d /\ user_val d = Some (ctx_user c)) /\
  ((Forall text_char role /\ Forall (fun x => x <> ch_colon) role) /\ exists d, hashtab_search (st_table (p_roles s)) role = Some d /\ role_val d = Some (ctx_role c)) /\
  ((Forall text_char type /\ Forall (fun x => x <> ch_colon) type) /\ exists d, hashtab_search (st_table (p_types s)) type = Some d /\ type_val d = Some (ctx_type c)).
Proof using Hs Hix Hplain Hnamed.
  destruct Hnamed as [[Hu Nu] [Hr Nr] [Ht Nt] _]. destruct Hplain as (Pu & Pr & Pt & _). pose proof Hix as (Ir & It & Iu & _).
  destruct (symbols_indexable s Hs) as (_ & _ & Xr & Xt & Xu & _). pose proof Hs as (_ & _ & Sr & St & Su & _).
  split; [|split]; (eapply table_names; [eassumption..| |eassumption]; lia).
Qed.

Lemma context_text_chars : Forall text_char (context_text mls ix c user role type).
Proof using Hs Hix Hplain Hnamed.
  destruct context_names as ([[Hu _] _] & [[Hr _] _] & [[Ht _] _]). unfold context_text, mls_part, colons. cbn [map concat]. rewrite app_nil_r.
  apply Forall_app. split.
  - apply Forall_app. split; [done|]. cbn [app]. constructor; [apply separators|]. apply Forall_app. split; [done|]. constructor; [apply separators|done].
  - destruct mls eqn:E; [|constructor]. constructor; [apply separators|]. apply range_text_chars. by apply nd_mls in Hnamed.
Qed.

Lemma context_text_record :
  record_of (context_text mls ix c user role type) =
    Some (mk_sepol_context (Some user) (Some role) (Some type) (if mls then Some (range_text (ix_sens ix) (ix_cats ix) (ctx_range c)) else None)).
Proof using Hs Hix Hplain Hnamed.
  destruct context_names as ([[_ Hu] _] & [[_ Hr] _] & [[_ Ht] _]). unfold record_of, context_text, mls_part, colons. cbn [map concat]. rewrite app_nil_r.
  cbn [app]. rewrite <- app_assoc. cbn [app]. rewrite cut_app by done. rewrite <- app_assoc. cbn [app]. rewrite cut_app by done.
  destruct mls; [by rewrite cut_app|by rewrite app_nil_r, cut_all].
Qed.

Lemma context_text_not_none : strcmp (context_text mls ix c user role type) str_none <> 0.
Proof using Hs Hix Hplain Hnamed.
  intros E%strcmp_eq. pose proof context_text_record as H. rewrite E in H. by vm_compute in H.
Qed.

(** A context that is valid, with a type and not an attribute; without MLS it
    has no range. *)
Definition readable : Prop :=
  policydb_context_isvalid mls s ix c = Some true /\ (mls = false -> ctx_range c = empty_range) /\
  (forall d, hashtab_search (st_table (p_types s)) type = Some d -> type_flavor d <> TYPE_ATTRIB).
Context (Hread : readable).

Lemma record_allocs_ok : xok record_allocs (fun _ => True).
Proof using Type.
  apply xok_intro. intros o M. unfold record_allocs. destruct (malloc o) as [b1 o1] eqn:E1. destruct (malloc_mem_ok _ _ _ E1 M) as [-> M1].
  destruct (malloc o1) as [b2 o2] eqn:E2. destruct (malloc_mem_ok _ _ _ E2 M1) as [-> M2]. destruct (malloc o2) as [b3 o3] eqn:E3. destruct (malloc_mem_ok _ _ _ E3 M2) as [-> M3].
  destruct (malloc o3) as [b4 o4] eqn:E4. destruct (malloc_mem_ok _ _ _ E4 M3) as [-> M4]. by exists tt, o4.
Qed.

Lemma context_from_record_ok :
  xok (context_from_record mls s ix (Some (mk_sepol_context (Some user) (Some role) (Some type)
         (if mls then Some (range_text (ix_sens ix) (ix_cats ix) (ctx_range c)) else None)))) (eq c).
Proof using Hs Hix Hplain Hnamed Hread.
  destruct context_names as ([_ (ud & Eu & Vu)] & [_ (rd & Er & Vr)] & [_ (td & Et & Vt)]). destruct Hread as (Hv & Hr & Ht). unfold context_from_record.
  cbn [sc_user sc_role sc_type sc_mls]. eapply xok_bind; [apply record_allocs_ok|]. intros _ _. rewrite Eu, Er, Et. rewrite (proj2 (Z.eqb_neq _ _) (Ht td Et)). cbv zeta.
  unfold user_val, role_val, type_val in *. destruct (ctrue (type_primary td)); [|done]. simplify_eq. rewrite Vu, Vr, Vt.
  eapply (xok_bind _ _ (eq c)); [|intros ? <-; unfold policydb_context_isvalid in Hv; rewrite Hv; cbn [xopt]; apply xok_here; by apply xok_ret].
  pose proof (nd_mls _ _ _ _ _ _ Hnamed) as Hm. destruct mls; cbn [xopt].
  - specialize (Hm eq_refl). eapply xok_mono; [by apply mls_from_string_range|]. intros ? <-. by destruct c.
  - apply xok_ret. rewrite <- Hr by done. by destruct c.
Qed.

Lemma context_from_string_ok :
  zlength (context_text mls ix c user role type) < 2 ^ 31 - 1 ->
  xok (context_from_string mls s ix (context_text mls ix c user role type)) (eq c).
Proof using Hs Hix Hplain Hnamed Hread.
  intros Hsz. pose proof context_text_chars as Hch. pose proof (colons_length user role type) as Hlen. unfold context_from_string.
  assert (Hpos : 0 < zlength (context_text mls ix c user role type)).
  { unfold context_text. rewrite zlength_app. pose proof (zlength_nonneg user). pose proof (zlength_nonneg role). pose proof (zlength_nonneg type). pose proof (zlength_nonneg (mls_part mls ix c)). lia. }
  replace ((zlength _ =? 0) || _) with false by lia. eapply xok_bind; [apply xok_buffer|]. intros ? <-.
  rewrite copy_string by (eapply Forall_impl; [exact Hch|]; by intros x [? _]). rewrite string_of_text by (eapply Forall_impl; [exact Hch|]; by intros x [_ ?]). cbn [xopt]. apply xok_here.
  eapply xok_bind; [apply from_string_record; [apply context_text_not_none|by rewrite context_text_record]|]. intros r [_ ->]. rewrite context_text_record.
  apply context_from_record_ok.
Qed.

(** ** Records *)

Lemma mls_to_string_ok :
  mls = true -> zlength (range_text (ix_sens ix) (ix_cats ix) (ctx_range c)) < 2 ^ 31 - 2 ->
  xok (mls_to_string mls (ix_sens ix) (ix_cats ix) c) (eq (range_text (ix_sens ix) (ix_cats ix) (ctx_range c) ++ [0])).
Proof using Hs Hix Hplain Hnamed.
  intros Em Hsz. pose proof (nd_mls _ _ _ _ _ _ Hnamed Em) as Hp. pose proof (range_text_chars _ Hp) as Hch. unfold mls_to_string. rewrite Em, context_len_text by (done || lia).
  remember (range_text _ _ _) as t eqn:Ht. pose proof (zlength_nonneg t) as Hnn. cbn [xopt]. apply xok_here. cbv zeta.
  rewrite !(wrap_small 64) by (unfold in_range; lia). eapply xok_bind; [apply xok_buffer|]. intros ? <-. eapply xok_bind; [apply xok_buffer|]. intros ? <-.
  replace (Z.to_nat (1 + zlength t + 1)) with (S (Z.to_nat (zlength t + 1))) by lia. cbn [replicate].
  assert (Hrest : zlength (replicate (Z.to_nat (zlength t + 1)) UNINIT) = zlength t + 1) by (unfold zlength at 1; rewrite length_replicate; lia).
  destruct (sid_to_context_text (ix_sens ix) (ix_cats ix) c [] UNINIT (replicate (Z.to_nat (zlength t + 1)) UNINIT) Hp) as (p & E & (rest & -> & Hcap)); [rewrite Hrest, <- Ht; lia|].
  cbn [app] in E. change (zlength []) with 0 in E. rewrite E. cbn [app mbind option_bind]. rewrite <- Ht, zlength_S in *. cbn [app] in Hcap. change (zlength []) with 0 in Hcap. rewrite zlength_S, Hrest in Hcap.
  destruct rest as [|x rest]; [|rewrite zlength_S in Hcap; pose proof (zlength_nonneg rest); lia].
  replace (1 + zlength t - (1 + zlength t + 1 - 1) + 1) with 1 by lia. cbn [Z.ltb Z.compare]. change (zdrop 1 (ch_colon :: t ++ [0])) with (t ++ [0]).
  rewrite cstr_string, string_of_text by (eapply Forall_impl; [exact Hch|]; intros x Hx; apply Hx). cbn [mbind option_bind].
  pose proof (strcpy_at [] (replicate (Z.to_nat (1 + zlength t + 1 - 1)) UNINIT) t) as Es. cbn [app] in Es. change (zlength []) with 0 in Es.
  rewrite Es by (unfold zlength at 2; rewrite length_replicate; lia). cbn [xopt]. apply xok_ret. do 2 f_equal.
  unfold zdrop. rewrite drop_replicate. by replace (Z.to_nat (1 + zlength t + 1 - 1) - Z.to_nat (zlength t + 1))%nat with O by lia.
Qed.

Definition context_record : sepol_context :=
  mk_sepol_context (Some user) (Some role) (Some type) (if mls then Some (range_text (ix_sens ix) (ix_cats ix) (ctx_range c)) else None).

Lemma context_to_record_ok :
  zlength (context_text mls ix c user role type) < 2 ^ 31 - 2 -> xok (context_to_record mls ix c) (eq context_record).
Proof using Hs Hix Hplain Hnamed.
  intros Hsz. destruct (names_found mls ix c user role type Hnamed) as (Eu & Er & Et). unfold context_to_record. rewrite Eu, Er, Et. cbn [xopt].
  eapply xok_bind; [apply create_ok|]. intros ? <-. apply xok_here. eapply xok_bind; [apply strdup_then|]. intros ? <-. apply xok_here.
  eapply xok_bind; [apply strdup_then|]. intros ? <-. apply xok_here. eapply xok_bind; [apply strdup_then|]. intros ? <-. cbn [sc_user sc_role sc_type sc_mls].
  unfold context_record. pose proof (colons_length user role type) as Hcl. pose proof mls_to_string_ok as Hm. pose proof (nd_mls _ _ _ _ _ _ Hnamed) as Hpr.
  pose proof range_text_chars as Hchars. unfold context_text, mls_part in Hsz. destruct mls; [|by apply xok_ret].
  rewrite zlength_app, zlength_S in Hsz. pose proof (zlength_nonneg (colons [user; role; type])).
  eapply xok_bind; [apply Hm; [done|lia]|]. intros ? <-. specialize (Hchars _ (Hpr eq_refl)). rename Hchars into Hch.
  rewrite cstr_string, string_of_text by (eapply Forall_impl; [exact Hch|]; intros x Hx; apply Hx). cbn [xopt]. apply xok_here.
  apply (strdup_then _ (fun tmp => mk_sepol_context (Some user) (Some role) (Some type) (Some tmp))).
Qed.

Lemma record_to_string_ok :
  zlength (context_text mls ix c user role type) < 2 ^ 31 - 1 ->
  xok (sepol_context_to_string context_record) (eq (context_text mls ix c user role type ++ [0])).
Proof using Hnamed.
  intros Hsz. unfold sepol_context_to_string, context_record. cbn [sc_user sc_role sc_type sc_mls]. set (fields := [user; role; type] ++ _). cbv zeta.
  assert (colons fields = context_text mls ix c user role type) as ->.
  { unfold fields, context_text, mls_part, colons. destruct mls; cbn; rewrite !app_nil_r; [|done]. rewrite <- app_assoc. cbn. by rewrite <- app_assoc. }
  remember (context_text _ _ _ _ _ _) as t. pose proof (zlength_nonneg t). replace (2 ^ 64 <=? zlength t + 1) with false by lia. eapply xok_bind; [apply xok_buffer|]. intros ? <-.
  replace (2 ^ 31 <=? zlength t) with false by lia. pose proof (strcpy_at [] (replicate (Z.to_nat (zlength t + 1)) UNINIT) t) as Es. cbn [app] in Es. change (zlength []) with 0 in Es.
  rewrite Es by (unfold zlength at 2; rewrite length_replicate; lia). cbn [xopt]. apply xok_ret. do 2 f_equal. unfold zdrop. rewrite drop_replicate.
  by replace (Z.to_nat (zlength t + 1) - Z.to_nat (zlength t + 1))%nat with O by lia.
Qed.
End OneContext.
End RoundTrip.

(** C13: the text of a valid context of a policy whose names are free of
    separators, whose type is no attribute and whose levels can be printed (no
    gap behind a category that hides the end of a range), if it is shorter than
    2^31 - 1 bytes and memory lasts: [context_to_string] fills the buffer it has
    allocated exactly with the text and its terminator, and
    [context_from_string] makes the same context of the text. *)
Theorem context_text_roundtrip mls s ix c user role type o :
  symbols_sound s -> others_indexed s ix -> plain_names s -> named mls ix c user role type -> readable mls s ix c type ->
  zlength (context_text mls ix c user role type) < 2 ^ 31 - 1 -> mem_ok o ->
  exists o1 o2,
    context_to_string mls ix c o =
      Some (Some (context_text mls ix c user role type ++ [0], zlength (context_text mls ix c user role type) + 1), o1) /\
    context_from_string mls s ix (context_text mls ix c user role type) o1 = Some (Some c, o2).
Proof.
  intros Hs Hix Hp Hn Hr Hsz M. destruct (xok_elim _ _ o (context_to_string_ok mls ix c user role type Hn Hsz) M) as (r & o1 & E1 & M1 & ->).
  destruct (xok_elim _ _ o1 (context_from_string_ok mls s ix Hs Hix Hp c user role type Hn Hr Hsz) M1) as (r & o2 & E2 & _ & <-). by exists o1, o2.
Qed.

(** C14: on any bytes except the text [<<none>>], and whatever allocations
    fail, [context_from_string] stays inside its buffers and the arrays of the
    policy, and what it accepts is a valid context. *)
Theorem context_from_string_sound mls s ix str o :
  symbols_sound s -> others_indexed s ix -> Forall (in_range 8) str -> string_of str <> str_none ->
  exists r o', context_from_string mls s ix str o = Some (r, o') /\ forall c, r = Some c -> valid_context mls s c.
Proof.
  intros Hs Hix Hb Hn. destruct (context_from_string_safe mls s ix Hs Hix str Hb) with (o := o) as (r & o' & E & _ & Hr); [by rewrite strcmp_eq|done|].
  exists r, o'. split; [done|]. intros c Hc. by apply Hr.
Qed.

Lemma none_text mls s ix str o b o1 :
  Forall (in_range 8) str -> string_of str = str_none -> zlength str <> 0 -> zlength str <> 2 ^ 64 - 1 -> malloc o = (b, o1) ->
  context_from_string mls s ix str o = if b then None else Some (None, o1).
Proof.
  intros Hb Hn H0 H1 E. unfold context_from_string, xbind, xmalloc. replace ((zlength str =? 0) || (zlength str =? 2 ^ 64 - 1)) with false by lia. cbn iota.
  rewrite E. destruct b; [|done]. rewrite copy_string by done. by rewrite Hn.
Qed.

(** the text [<<none>>] stands for no context: its record is a null
    pointer, which [context_from_string] hands on to be followed. *)
Theorem context_from_string_null mls s ix o : mem_ok o -> context_from_string mls s ix str_none o = None.
Proof.
  intros M. destruct (malloc o) as [b o1] eqn:E. destruct (malloc_mem_ok _ _ _ E M) as [-> M1].
  apply (none_text _ _ _ _ _ true o1); [repeat constructor; unfold in_range; lia|done..].
Qed.

(** the two ways to print a context agree: [context_to_record] and then
    [sepol_context_to_string] give the same text with its terminator as
    [context_to_string], and [context_from_record] makes the context of the
    record again. *)
Theorem context_record_agrees mls s ix c user role type o :
  symbols_sound s -> others_indexed s ix -> plain_names s -> named mls ix c user role type -> readable mls s ix c type ->
  zlength (context_text mls ix c user role type) < 2 ^ 31 - 2 -> mem_ok o ->
  exists r text len o1 o2 o3 o4,
    context_to_record mls ix c o = Some (Some r, o1) /\ sepol_context_to_string r o1 = Some (Some text, o2) /\
    context_to_string mls ix c o2 = Some (Some (text, len), o3) /\ context_from_record mls s ix (Some r) o3 = Some (Some c, o4).
Proof.
  intros Hs Hix Hp Hn Hr Hsz M. assert (Hsz' : zlength (context_text mls ix c user role type) < 2 ^ 31 - 1) by lia.
  destruct (xok_elim _ _ o (context_to_record_ok mls s ix Hs Hix Hp c user role type Hn Hsz) M) as (? & o1 & E1 & M1 & <-).
  destruct (xok_elim _ _ o1 (record_to_string_ok mls ix c user role type Hn Hsz') M1) as (? & o2 & E2 & M2 & <-).
  destruct (xok_elim _ _ o2 (context_to_string_ok mls ix c user role type Hn Hsz') M2) as (? & o3 & E3 & M3 & ->).
  destruct (xok_elim _ _ o3 (context_from_record_ok mls s ix Hs Hix Hp c user role type Hn Hr) M3) as (? & o4 & E4 & _ & <-).
  by eexists _, _, _, o1, o2, o3, o4.
Qed.
