(* ===== verification/CondIO.v ===== *)
(** * CondIO: conditional policy in binary policies

    [cond_read_list] and what it calls (libsepol/src/conditional.c), and
    [cond_write_list] (write.c), for kernel policies from version 20 on.

    The lists of a conditional hold pointers to nodes of the table
    [te_cond_avtab], which grows while they are read, and the code compares
    these pointers.  The table is therefore modelled with the addresses of its
    nodes: [ct_heap] maps an address to the node, [ct_addrs] has the shape of
    the chains of [ct_table] and holds the address of every node in them. *)
From Stdlib Require Import ZArith Lia Bool.
From stdpp Require Import base option list list_numbers gmap sets.
From S2P Require Import Prelude PolicyFile Ebitmap EbitmapThms EbitmapIO Hashtab HashtabThms Symtab Avtab AvtabThms AvtabIO Cond Codec Symbols.

(** The second component of a heap cell: [parse_context] is not null. *)
Record cond_avtab := mk_cond_avtab {
  ct_table : avtab; ct_addrs : list (list nat); ct_heap : list (avtab_node * bool) }.

(** ** Nodes by address *)

(** The address of the node that [avtab_search_node] found, with [next] behind
    it in the chain. *)
Definition node_addr (t : cond_avtab) (k : avtab_key) (next : list avtab_node) : nat :=
  let chain := default [] (ct_addrs t !! Z.to_nat (avtab_hash k (av_mask (ct_table t)))) in
  default (length (ct_heap t)) (chain !! (length chain - S (length next))%nat).

(** [avtab_insert_nonunique(&p->te_cond_avtab, k, d)], and the address of the
    new node. *)
Definition cond_insert_nonunique (t : cond_avtab) (k : avtab_key) (d : avtab_datum) (o : oracle) :
    option nat * cond_avtab * oracle :=
  let hvalue := Z.to_nat (avtab_hash k (av_mask (ct_table t))) in
  let slot := av_slot (default [] (av_htable (ct_table t))) (avtab_hash k (av_mask (ct_table t))) in
  let at_ := length (nonunique_walk k (clear_enabled (specified k)) slot).1 in
  match avtab_insert_nonunique (ct_table t) k d o with
  | (None, tab, o) => (None, mk_cond_avtab tab (ct_addrs t) (ct_heap t), o)
  | (Some n, tab, o) =>
      let a := length (ct_heap t) in
      (Some a, mk_cond_avtab tab (alter (fun c => take at_ c ++ a :: drop at_ c) hvalue (ct_addrs t)) (ct_heap t ++ [(n, false)]), o)
  end.

(** [node_ptr->parse_context = (void * )1]. *)
Definition set_parse_context (t : cond_avtab) (a : nat) : cond_avtab :=
  mk_cond_avtab (ct_table t) (ct_addrs t) (alter (fun c => (c.1, true)) a (ct_heap t)).

(** ** Reading *)

Section Insertf.
Context (te : avtab) (other : list nat).

(** The tests for conflicting type rules. *)
Definition cond_insertf_conflict (t : cond_avtab) (k : avtab_key) : bool :=
  if ctrue (Z.land (specified k) AVTAB_TYPE) then
    match avtab_search te k with
    | Some _ => true
    | None =>
        if bool_decide (other <> []) then
          match avtab_search_node (ct_table t) k with
          | None => false
          | Some (n, next) =>
              match avtab_search_node_next (Some (n, next)) (specified k) with
              | Some _ => true
              | None => negb (bool_decide (node_addr t k next ∈ other))
              end
          end
        else match avtab_search (ct_table t) k with Some _ => true | None => false end
    end
  else false.

(** The table, the list built so far ([data->head]) and the allocator. *)
Definition cond_insertf (k : avtab_key) (d : avtab_datum) (st : cond_avtab * list nat * oracle) : Z * (cond_avtab * list nat * oracle) :=
  let '(t, l, o) := st in
  if cond_insertf_conflict t k then (-1, st) else
  match cond_insert_nonunique t k d o with
  | (None, t, o) => (-1, (t, l, o))
  | (Some a, t, o) =>
      let t := set_parse_context t a in
      let '(ok, o) := malloc o in
      if negb ok then (-1, (t, l, o)) else (0, (t, l ++ [a], o))
  end.
End Insertf.

Section Read.
Context (vers nbools_prim : Z) (te : avtab).

(** The table and [android_m_compat_optype], which [avtab_read_item] may set. *)
Abbreviation cond_state := (cond_avtab * Z)%type.

Definition cond_read_av_list (other : list nat) (st : cond_state) : R (list nat * cond_state) :=
  buf <~ rentry 4 ;;
  let len := word32 buf 0 in
  if len =? 0 then rret ([], st) else
  fun fp o =>
    let '(rc, fp, compat, (t, l, o)) := read_items (cond_insertf te other) (Z.to_nat len) fp vers st.2 (st.1, [], o) in
    ((if ctrue rc then None else Some (l, (t, compat))), fp, o).

(** An unsigned word stored in an [int]. *)
Definition to_int (x : Z) : Z := if x <? 2 ^ 31 then x else x - 2 ^ 32.

Definition cond_read_expr (es : list cond_expr) : R (list cond_expr) :=
  buf <~ rentry 8 ;;
  ralloc ~;
  let e := mk_cond_expr (word32 buf 0) (word32 buf 1) in
  rcheck (expr_isvalid nbools_prim e) ~; rret (es ++ [e]).

Definition cond_read_node (st : cond_state) : R (cond_node * cond_state) :=
  buf <~ rentry 4 ;;
  len <~ rentry 4 ;;
  es <~ rloop (Z.to_nat (word32 len 0)) cond_read_expr [] ;;
  tr <~ cond_read_av_list [] st ;;
  fl <~ cond_read_av_list tr.1 tr.2 ;;
  rret (mk_cond_node (to_int (word32 buf 0)) es tr.1 fl.1 0 0 0 zero_ids 0 0, fl.2).

Definition ralloc_avtab (t : cond_avtab) (nrules : Z) : R cond_avtab :=
  fun fp o =>
    let '(rc, tab, o) := avtab_alloc (ct_table t) nrules o in
    ((if ctrue rc then None else Some (mk_cond_avtab tab (replicate (length (default [] (av_htable tab))) []) (ct_heap t))), fp, o).

(** Into an empty [te_cond_avtab]. *)
Definition cond_read_list (t : cond_avtab) (compat : Z) : R (list cond_node * cond_state) :=
  buf <~ rentry 4 ;;
  t <~ ralloc_avtab t (av_nel te) ;;
  rloop (Z.to_nat (word32 buf 0))
    (fun s => ralloc ~; n <~ cond_read_node s.2 ;; rret (s.1 ++ [n.1], n.2)) ([], (t, compat)).
End Read.

(** ** Writing *)

Section Write.
Context (p : write_params) (compat : Z) (heap : list (avtab_node * bool)).

(** The nodes of a list that have a [parse_context]. *)
Definition parsed_nodes (l : list nat) : list avtab_node :=
  omap (fun a => c ← heap !! a; if (c.2 : bool) then Some c.1 else None) l.

Definition cond_write_av_list (l : list nat) : W :=
  let len := u32 (zlength (parsed_nodes l)) in
  wwords [len] ~>
  (if len =? 0 then wdone else wlist (avtab_write_item p compat) (parsed_nodes l)).

Definition cond_write_node (node : cond_node) : W :=
  wwords [u32 (cur_state node)] ~>
  (wwords [u32 (zlength (expr node))] ~>
  (wlist (fun e => wwords [expr_type e; boolean e]) (expr node) ~>
  (cond_write_av_list (true_list node) ~>
  (cond_write_av_list (false_list node) ~> wdone)))).

Definition cond_write_list (l : list cond_node) : W :=
  wwords [u32 (zlength l)] ~> wlist cond_write_node l.
End Write.
