(* ===== verification/CondIOThms.v ===== *)
(** * CondIOThms: conditionals survive storage

    The pointer table of [CondIO] stays a table of its nodes; the tests of
    [cond_insertf] are the rule they mean to enforce; writing the conditionals
    of a policy and reading them back gives the same conditionals. *)
From Stdlib Require Import ZArith Lia Bool.
From stdpp Require Import base option list list_numbers gmap sets.
From S2P Require Import Prelude PolicyFile Ebitmap EbitmapThms EbitmapIO Hashtab HashtabThms Symtab Avtab AvtabThms AvtabIO Cond Codec Symbols SymCodec SymbolsIO Trans TransIO TransIns TransRT CondIO.

(** ** The invariant of the pointer table *)

(** Chains and addresses have the same shape, an address in a chain is that of
    the node there, and every address is in a chain once. *)
Definition cond_tab_ok (t : cond_avtab) : Prop :=
  avtab_ok (ct_table t) /\
  Forall2 (Forall2 (fun n a => fst <$> ct_heap t !! a = Some n)) (default [] (av_htable (ct_table t))) (ct_addrs t) /\
  concat (ct_addrs t) ≡ₚ seq 0 (length (ct_heap t)).

Lemma Forall2_concat {A B} (P : A -> B -> Prop) l k : Forall2 (Forall2 P) l k -> Forall2 P (concat l) (concat k).
Proof. induction 1; [constructor|]. by apply Forall2_app. Qed.

Lemma Forall2_omap {A B} (f : B -> option A) l k : Forall2 (fun n a => f a = Some n) l k -> l = omap f k.
Proof. induction 1 as [|n a l k H _ IH]; [done|]. cbn. rewrite H. by f_equal. Qed.

Lemma omap_seq {A} (l : list A) : omap (fun a => l !! a) (seq 0 (length l)) = l.
Proof.
  induction l as [|x l IH]; [done|]. cbn [length seq]. cbn [omap list_omap lookup list_lookup]. f_equal.
  transitivity (omap (fun a => (x :: l) !! a) (S <$> seq 0 (length l))); [by rewrite fmap_S_seq|].
  rewrite <- IH at 2. generalize (seq 0 (length l)) as s. intros s. induction s as [|a s IHs]; [done|]. cbn. destruct (l !! a); by rewrite IHs.
Qed.

Lemma cond_tab_nodes t : cond_tab_ok t -> nodes_of (ct_table t) ≡ₚ (ct_heap t).*1.
Proof.
  intros (_ & Hsh & Hp). unfold nodes_of. apply Forall2_concat, Forall2_omap in Hsh. rewrite Hsh, Hp.
  rewrite <- (omap_seq (ct_heap t).*1), length_fmap. apply reflexive_eq. generalize (seq 0 (length (ct_heap t))) as l.
  induction l as [|a l IH]; [done|]. cbn. rewrite list_lookup_fmap, IH. done.
Qed.

Lemma search_walk_split k spec c n next :
  search_walk k spec c = Some (n, next) -> exists front, c = front ++ n :: next /\ node_matches k spec n = true.
Proof.
  induction c as [|x c IH]; [done|]. simpl. destruct (node_matches k spec x) eqn:E.
  - intros [= <- <-]. by exists [].
  - destruct (key_before k (key x)); [done|]. intros H. destruct (IH H) as (front & -> & ?). by exists (x :: front).
Qed.

(** The address [node_addr] computes is that of the node found. *)
Lemma node_addr_found t k n next :
  cond_tab_ok t -> avtab_search_node (ct_table t) k = Some (n, next) ->
  fst <$> ct_heap t !! node_addr t k next = Some n /\ node_matches k (clear_enabled (specified k)) n = true.
Proof.
  intros (Hok & Hsh & _) Hs. unfold avtab_search_node in Hs. destruct (av_htable (ct_table t)) as [tbl|] eqn:Ht; [|done].
  apply search_walk_split in Hs as (front & Hslot & Hm). split; [|done]. simpl in Hsh.
  destruct (avtab_ok_slot _ tbl k Hok Ht) as (Hhv & _ & _). unfold av_slot in Hslot.
  destruct (lookup_lt_is_Some_2 tbl (Z.to_nat (avtab_hash k (av_mask (ct_table t))))) as [c Hc]; [lia|]. rewrite Hc in Hslot. simpl in Hslot. subst c.
  destruct (Forall2_lookup_l _ _ _ _ _ Hsh Hc) as (chain & Hch & Hall). unfold node_addr. rewrite Hch. simpl.
  pose proof (Forall2_length _ _ _ Hall) as Hlen. rewrite length_app in Hlen. simpl in Hlen.
  replace (length chain - S (length next))%nat with (length front) by lia.
  destruct (Forall2_lookup_l _ _ _ (length front) n Hall) as (a & -> & Ha); [by rewrite list_lookup_middle|]. done.
Qed.

(** ** The tests for conflicts *)

(** A type rule may be added to a conditional when there is none like it
    outside of conditionals, and none in one, except for one in the other list
    of the same conditional. *)
Definition rule_fits (te : avtab) (heap : list avtab_node) (other : list nat) (k : avtab_key) : Prop :=
  let spec := clear_enabled (specified k) in
  Z.land (specified k) AVTAB_TYPE <> 0 ->
  matching k spec (nodes_of te) = [] /\
  (length (matching k spec heap) <= if bool_decide (other = []) then 0 else 1)%nat /\
  forall a n, heap !! a = Some n -> node_matches k spec n = true -> a ∈ other.

Lemma matching_perm k spec (l l' : list avtab_node) : l ≡ₚ l' -> length (matching k spec l) = length (matching k spec l').
Proof. intros H. by rewrite H. Qed.

Lemma matching_elem k spec (l : list avtab_node) (a : nat) n : l !! a = Some n -> node_matches k spec n = true -> n ∈ matching k spec l.
Proof. intros Ha Hm. apply list_elem_of_filter. split; [done|]. by eapply list_elem_of_lookup_2. Qed.

(** Two addresses of matching nodes are two matching nodes. *)
Lemma matching_two k spec (l : list avtab_node) (a b : nat) n m :
  l !! a = Some n -> l !! b = Some m -> a <> b -> node_matches k spec n = true -> node_matches k spec m = true ->
  (2 <= length (matching k spec l))%nat.
Proof.
  revert a b. induction l as [|x l IH]; intros a b Ha Hb Hne Hn Hm; [done|]. rewrite filter_cons.
  destruct a as [|a], b as [|b]; simplify_eq/=; try lia.
  - rewrite decide_True by done. pose proof (matching_elem k spec l b m Hb Hm) as Hin. simpl. destruct (matching k spec l); [by apply not_elem_of_nil in Hin|simpl; lia].
  - rewrite decide_True by done. pose proof (matching_elem k spec l a n Ha Hn) as Hin. simpl. destruct (matching k spec l); [by apply not_elem_of_nil in Hin|simpl; lia].
  - assert (2 <= length (matching k spec l))%nat by (eapply (IH a b); [done..|lia|done|done]). destruct (decide _); simpl; lia.
Qed.

Lemma search_none h k : avtab_ok h -> avtab_search h k = None <-> matching k (clear_enabled (specified k)) (nodes_of h) = [].
Proof. intros Hok. rewrite avtab_search_first by done. destruct (matching _ _ _); simpl; [done|]. split; done. Qed.

Lemma search_node_cases h k :
  avtab_ok h -> in_range 16 (specified k) ->
  match avtab_search_node h k with
  | None => matching k (clear_enabled (specified k)) (nodes_of h) = []
  | Some (n, next) =>
      exists rest, matching k (clear_enabled (specified k)) (nodes_of h) = n :: rest /\
      (avtab_search_node_next (Some (n, next)) (specified k) = None <-> rest = [])
  end.
Proof.
  intros Hok Hr. pose proof (visit_all h k Hok Hr) as Hv. destruct (avtab_search_node h k) as [[n next]|]; cbn [visit_nodes] in Hv.
  - destruct (visit_nodes _ (avtab_search_node_next _ _) _) as [l|] eqn:El; [|done]. simplify_eq. exists l. split; [done|].
    destruct (avtab_search_node_next (Some (n, next)) (specified k)) as [[m mext]|].
    + split; [done|]. intros ->. destruct (length (nodes_of h)); [done|]. cbn [visit_nodes] in El. by destruct (visit_nodes _ _ _).
    + by destruct (length (nodes_of h)); simplify_eq/=.
  - by simplify_eq.
Qed.

Lemma conflict_spec te other t k :
  avtab_ok te -> cond_tab_ok t -> in_range 16 (specified k) ->
  cond_insertf_conflict te other t k = false <-> rule_fits te (ct_heap t).*1 other k.
Proof.
  intros Hte Ht Hr. unfold cond_insertf_conflict, rule_fits. cbv zeta. set (spec := clear_enabled (specified k)).
  pose proof (cond_tab_nodes t Ht) as Hp. pose proof (matching_perm k spec _ _ Hp) as Hlen. pose proof (proj1 Ht) as Hok.
  destruct (ctrue (Z.land (specified k) AVTAB_TYPE)) eqn:Hty.
  2:{ apply ctrue_false in Hty. rewrite Hty. split; [by intros _ []|done]. }
  apply ctrue_true in Hty. pose proof (search_none te k Hte) as Hse. fold spec in Hse. destruct (avtab_search te k) as [d|].
  { split; [done|]. intros H. destruct (H Hty) as [Hm _]. by apply Hse in Hm. }
  pose proof (proj1 Hse eq_refl) as Hm. destruct (decide (other = [])) as [Ho|Ho].
  - rewrite (bool_decide_false (other <> [])) by (intros Hx; by apply Hx). rewrite (bool_decide_true (other = [])) by done.
    pose proof (search_none (ct_table t) k Hok) as Hsc. fold spec in Hsc. destruct (avtab_search (ct_table t) k).
    + split; [done|]. intros H. destruct (H Hty) as (_ & Hl & _). rewrite <- Hlen in Hl.
      assert (matching k spec (nodes_of (ct_table t)) = []) as Hz by (destruct (matching k spec (nodes_of (ct_table t))); [done|simpl in Hl; lia]).
      by apply Hsc in Hz.
    + split; [|done]. intros _ _. pose proof (proj1 Hsc eq_refl) as Hz. rewrite Hz in Hlen. split_and!; [done|rewrite <- Hlen; simpl; lia|].
      intros a n Ha Hn. pose proof (matching_elem k spec _ a n Ha Hn) as Hin. simpl in Hlen. destruct (matching k spec (ct_heap t).*1); [by apply not_elem_of_nil in Hin|done].
  - rewrite (bool_decide_true (other <> [])), (bool_decide_false (other = [])) by done.
    pose proof (search_node_cases (ct_table t) k Hok Hr) as Hc. fold spec in Hc.
    destruct (avtab_search_node (ct_table t) k) as [[n next]|] eqn:Es.
    + destruct Hc as (rest & Hmr & Hnext). rewrite Hmr in Hlen. simpl in Hlen. destruct (node_addr_found t k n next Ht Es) as [Ha Hmn]. fold spec in Hmn.
      assert (Ha' : (ct_heap t).*1 !! node_addr t k next = Some n) by (by rewrite list_lookup_fmap).
      destruct (avtab_search_node_next (Some (n, next)) (specified k)) as [x|].
      * split; [done|]. intros H. destruct (H Hty) as (_ & Hl & _). rewrite <- Hlen in Hl. destruct rest; [by specialize (proj2 Hnext eq_refl)|simpl in Hl; lia].
      * rewrite (proj1 Hnext eq_refl) in Hlen. simpl in Hlen. rewrite negb_false_iff, bool_decide_eq_true. split.
        -- intros Hin _. split_and!; [done|lia|]. intros b m Hb Hmb. destruct (decide (b = node_addr t k next)) as [->|Hne]; [done|].
           pose proof (matching_two k spec _ b _ m n Hb Ha' Hne Hmb Hmn). lia.
        -- intros H. destruct (H Hty) as (_ & _ & Hall). by eapply Hall.
    + rewrite Hc in Hlen. simpl in Hlen. split; [|done]. intros _ _. split_and!; [done|lia|].
      intros a n Ha Hn. pose proof (matching_elem k spec _ a n Ha Hn) as Hin. destruct (matching k spec (ct_heap t).*1); [by apply not_elem_of_nil in Hin|done].
Qed.

(** ** Insertion *)

Lemma Forall2_replace {A B} (P : A -> B -> Prop) l k i y g :
  Forall2 P l k -> (forall c, k !! i = Some c -> P y (g c)) -> Forall2 P (<[i := y]> l) (alter g i k).
Proof.
  intros H Hy. apply Forall2_lookup. intros j. pose proof (Forall2_length _ _ _ H) as Hl. rewrite Forall2_lookup in H. specialize (H j).
  destruct (decide (i = j)) as [->|Hne].
  - rewrite list_lookup_alter_eq. destruct (k !! j) as [c|] eqn:Ek; simpl.
    + rewrite list_lookup_insert_eq by (apply lookup_lt_Some in Ek; lia). constructor. by apply Hy.
    + rewrite lookup_ge_None_2; [constructor|]. rewrite length_insert. apply lookup_ge_None in Ek. lia.
  - by rewrite list_lookup_insert_ne, list_lookup_alter_ne.
Qed.

Lemma concat_alter {A} (g : list A -> list A) (l : list (list A)) i c x :
  l !! i = Some c -> g c ≡ₚ x :: c -> concat (alter g i l) ≡ₚ x :: concat l.
Proof.
  revert i. induction l as [|y l IH]; intros [|i] Hc Hg; simplify_eq/=.
  - by rewrite Hg.
  - rewrite IH by done. symmetry. apply Permutation_middle.
Qed.

Lemma insert_at_perm {A} n (a : A) c : take n c ++ a :: drop n c ≡ₚ a :: c.
Proof. rewrite <- Permutation_middle. by rewrite take_drop. Qed.

Lemma avtab_new_node_mem k d o n o' : avtab_new_node k d o = (Some n, o') -> mem_ok o -> mem_ok o'.
Proof.
  unfold avtab_new_node. intros E M. repeat case_match; simplify_eq;
    repeat match goal with H : malloc ?o = (_, _), M : mem_ok ?o |- _ => destruct (malloc_mem_ok _ _ _ H M) as [? ?]; clear H end; done.
Qed.

(** What a call that gives a node has done. *)
Lemma cond_insert_some t k d o a t' o' :
  cond_insert_nonunique t k d o = (Some a, t', o') ->
  a = length (ct_heap t) /\ ct_heap t' = ct_heap t ++ [(stored_node k d, false)] /\
  (cond_tab_ok t -> zlength (ct_heap t) < 2 ^ 32 - 1 -> cond_tab_ok t').
Proof.
  unfold cond_insert_nonunique. intros E. assert (Hnew : exists n, (avtab_insert_nonunique (ct_table t) k d o).1.1 = Some n /\ n = stored_node k d).
  { destruct (avtab_insert_nonunique (ct_table t) k d o) as [[[n|] tab] o1] eqn:Ei; [|done]. exists n. split; [done|].
    unfold avtab_insert_nonunique in Ei. destruct (av_htable (ct_table t)); [|done]. destruct (nonunique_walk _ _ _) as [pre post]. unfold avtab_insert_node in Ei.
    pose proof (avtab_new_node_spec k d o) as Hn. destruct (avtab_new_node k d o) as [[m|] o2]; [|done]. by simplify_eq. }
  destruct Hnew as (n & Hn & ->). destruct (avtab_insert_nonunique (ct_table t) k d o) as [[r tab] o1] eqn:Ei. cbn [fst] in Hn. subst r. simplify_eq.
  split_and!; [done..|]. intros Ht Hlen. pose proof (cond_tab_nodes t Ht) as Hp. destruct Ht as (Hok & Hsh & Hperm).
  assert (Hnel : av_nel (ct_table t) < 2 ^ 32 - 1).
  { rewrite avtab_ok_count by done. unfold zlength in *. by rewrite Hp, length_fmap. }
  pose proof (avtab_insert_nonunique_spec (ct_table t) k d o Hok Hnel) as Hi. rewrite Ei in Hi. destruct Hi as (_ & Hok' & _).
  unfold avtab_insert_nonunique in Ei. unfold cond_tab_ok. cbn [ct_table ct_addrs ct_heap].
  destruct (av_htable (ct_table t)) as [tbl|] eqn:Et; [|done]. change (default [] (Some tbl)) with tbl in *.
  destruct (avtab_ok_slot _ tbl k Hok Et) as (Hhv & [Hs _] & _).
  pose proof (nonunique_walk_spec k (clear_enabled (specified k)) _ Hs) as Hw.
  destruct (nonunique_walk k (clear_enabled (specified k)) (av_slot tbl (avtab_hash k (av_mask (ct_table t))))) as [pre post]. destruct Hw as (Hslot & _).
  unfold avtab_insert_node in Ei. destruct (avtab_new_node k d o) as [[n|] o2] eqn:En; [|done]. simplify_eq. cbn [av_htable default fst].
  assert (Hsh' : Forall2 (Forall2 (fun n a => fst <$> (ct_heap t ++ [(stored_node k d, false)]) !! a = Some n)) tbl (ct_addrs t)).
  { eapply Forall2_impl; [exact Hsh|]. intros l1 l2 H. eapply Forall2_impl; [exact H|]. intros m b Hb. simpl in Hb |- *.
    destruct (ct_heap t !! b) eqn:Eb; [|done]. by rewrite (lookup_app_l_Some _ _ _ _ Eb). }
  set (hv := Z.to_nat (avtab_hash k (av_mask (ct_table t)))) in *.
  destruct (lookup_lt_is_Some_2 tbl hv) as [c0 Hc0]; [lia|]. destruct (Forall2_lookup_l _ _ _ _ _ Hsh' Hc0) as (c1 & Hc1 & Hcc).
  assert (c0 = pre ++ post) as ->. { rewrite <- Hslot. unfold av_slot. fold hv. by rewrite Hc0. }
  split; [done|]. split.
  - apply Forall2_replace; [done|]. intros c Hc. simplify_eq. apply Forall2_app_inv_l in Hcc as (a1 & a2 & H1 & H2 & ->).
    pose proof (Forall2_length _ _ _ H1) as Hl1. rewrite (take_app_length' a1 a2), (drop_app_length' a1 a2) by done.
    apply Forall2_app; [done|]. constructor; [|done]. by rewrite list_lookup_middle.
  - rewrite length_app. cbn [length]. rewrite Nat.add_1_r, seq_S, Nat.add_0_l. rewrite (concat_alter _ _ _ c1 (length (ct_heap t)) Hc1 (insert_at_perm _ _ _)).
    rewrite Hperm. apply Permutation_cons_append.
Qed.

Lemma cond_insert_ok t k d o :
  cond_tab_ok t -> mem_ok o ->
  exists a t' o', cond_insert_nonunique t k d o = (Some a, t', o') /\ mem_ok o'.
Proof.
  intros (Hok & _) M. unfold cond_insert_nonunique, avtab_insert_nonunique.
  destruct (av_htable (ct_table t)) as [tbl|] eqn:Et; [|unfold avtab_ok in Hok; by rewrite Et in Hok].
  destruct (nonunique_walk _ _ _) as [pre post]. unfold avtab_insert_node. pose proof (avtab_new_node_spec k d o) as Hn.
  destruct (avtab_new_node k d o) as [[n|] o1] eqn:En; [|done]. do 3 eexists. split; [done|]. by eapply avtab_new_node_mem.
Qed.

Lemma set_parse_ok t a : cond_tab_ok t -> cond_tab_ok (set_parse_context t a).
Proof.
  intros (Hok & Hsh & Hp). split; [done|]. simpl. rewrite length_alter. split; [|done].
  eapply Forall2_impl; [exact Hsh|]. intros l1 l2 H. eapply Forall2_impl; [exact H|]. intros n b Hb. simpl in Hb |- *.
  destruct (decide (a = b)) as [->|]; [|by rewrite list_lookup_alter_ne]. rewrite list_lookup_alter_eq. by destruct (ct_heap t !! b).
Qed.

(** Handing a rule that fits to [cond_insertf]. *)
Lemma cond_insertf_ok te other n t l o :
  avtab_ok te -> cond_tab_ok t -> mem_ok o -> node_item_ok n -> zlength (ct_heap t) < 2 ^ 32 - 1 ->
  rule_fits te (ct_heap t).*1 other (key n) ->
  exists t' o', cond_insertf te other (key n) (datum n) (t, l, o) = (0, (t', l ++ [length (ct_heap t)], o')) /\
    mem_ok o' /\ cond_tab_ok t' /\ ct_heap t' = ct_heap t ++ [(n, true)].
Proof.
  intros Hte Ht M Hn Hlen Hf. unfold cond_insertf. rewrite (proj2 (conflict_spec te other t (key n) Hte Ht ltac:(apply Hn)) Hf).
  destruct (cond_insert_ok t (key n) (datum n) o Ht M) as (a & t' & o' & Ei & M'). rewrite Ei.
  destruct (cond_insert_some _ _ _ _ _ _ _ Ei) as (-> & Hh & Hok'). specialize (Hok' Ht Hlen).
  destruct (malloc o') as [ok o2] eqn:E. destruct (malloc_mem_ok _ _ _ E M') as [-> M2]. cbn [negb].
  do 2 eexists. split; [done|]. split; [done|]. split; [by apply set_parse_ok|]. simpl. rewrite Hh.
  rewrite (stored_node_valid _ _ Hn). rewrite alter_app_r_alt by lia. rewrite Nat.sub_diag. simpl. by destruct n.
Qed.

(** ** Lists *)

Lemma len_word_below {A} (l : list A) : zlength l < 2 ^ 32 -> in_range 32 (zlength l).
Proof. pose proof (zlength_nonneg l). unfold in_range. lia. Qed.

Section Lists.
Context (vers compat : Z) (te : avtab).
Context (Hvers : POLICYDB_VERSION_AVTAB <= vers) (Hcompat : compat = 0 \/ compat = 1) (Hte : avtab_ok te).

(** Rules that fit one after the other. *)
Fixpoint rules_fit (heap : list avtab_node) (other : list nat) (ns : list avtab_node) : Prop :=
  match ns with
  | [] => True
  | n :: ns => rule_fits te heap other (key n) /\ rules_fit (heap ++ [n]) other ns
  end.

Definition marked (ns : list avtab_node) : list (avtab_node * bool) := map (fun n => (n, true)) ns.

Lemma marked_fst ns : (marked ns).*1 = ns.
Proof using. unfold marked. induction ns; simpl; [done|]. by f_equal. Qed.

Lemma read_cond_items ns fp t l o other rest :
  mem_ready fp -> Forall (item_writable vers compat) ns -> rules_fit (ct_heap t).*1 other ns ->
  cond_tab_ok t -> mem_ok o -> zlength (ct_heap t) + zlength ns <= 2 ^ 32 - 1 ->
  pf_data fp = concat (map (item_image compat) ns) ++ rest ->
  exists t' o', read_items (cond_insertf te other) (length ns) fp vers compat (t, l, o) =
      (0, with_data fp rest, compat, (t', l ++ seq (length (ct_heap t)) (length ns), o')) /\
    mem_ok o' /\ cond_tab_ok t' /\ ct_heap t' = ct_heap t ++ marked ns.
Proof using Hvers Hcompat Hte.
  revert fp t l o. induction ns as [|n ns IH]; intros fp t l o Hfp Hall Hfit Ht M Hlen Hd; simpl.
  { exists t, o. rewrite !app_nil_r. split; [|done]. do 3 f_equal. simpl in Hd. rewrite <- Hd. by rewrite with_data_same. }
  apply Forall_cons in Hall as [Hn Hall]. destruct Hfit as [Hf Hfit]. cbn [map concat] in Hd. rewrite <- app_assoc in Hd.
  rewrite (read_item_image (cond_insertf te other) fp vers compat (t, l, o) n _ Hfp Hvers Hcompat Hn Hd).
  assert (Hlen1 : zlength (ct_heap t) < 2 ^ 32 - 1) by (unfold zlength in *; simpl in Hlen; lia).
  destruct (cond_insertf_ok te other n t l o Hte Ht M (proj1 Hn) Hlen1 Hf) as (t1 & o1 & -> & M1 & Ht1 & Hh1). cbn [ctrue Z.eqb negb].
  destruct (IH (with_data fp (concat (map (item_image compat) ns) ++ rest)) t1 (l ++ [length (ct_heap t)]) o1) as (t2 & o2 & -> & M2 & Ht2 & Hh2); try done.
  - by rewrite Hh1, fmap_app.
  - rewrite Hh1. unfold zlength in *. rewrite length_app. simpl in Hlen |- *. lia.
  - exists t2, o2. rewrite with_data_twice. split; [|split; [done|]; split; [done|by rewrite Hh2, Hh1, <- app_assoc]].
    rewrite Hh1, length_app, <- app_assoc. simpl. by rewrite Nat.add_1_r.
Qed.

Definition list_image (ns : list avtab_node) : list Z := words32 [zlength ns] ++ concat (map (item_image compat) ns).

Lemma reads_av_list ns t other :
  Forall (item_writable vers compat) ns -> rules_fit (ct_heap t).*1 other ns -> cond_tab_ok t ->
  zlength (ct_heap t) + zlength ns <= 2 ^ 32 - 1 ->
  reads (cond_read_av_list vers te other (t, compat)) (list_image ns)
    (fun r => r.1 = seq (length (ct_heap t)) (length ns) /\ exists t', r.2 = (t', compat) /\ cond_tab_ok t' /\ ct_heap t' = ct_heap t ++ marked ns).
Proof using Hvers Hcompat Hte.
  intros Hall Hfit Ht Hlen. unfold cond_read_av_list, list_image. apply reads_words; [done|].
  rewrite (word32_at _ 0 (zlength ns)); [|done|apply len_word_below; pose proof (zlength_nonneg (ct_heap t)); lia].
  destruct (Z.eqb_spec (zlength ns) 0) as [Hz|Hz].
  - destruct ns as [|n ns]; [|unfold zlength in Hz; simpl in Hz; lia]. apply reads_ret. split; [done|]. exists t. split_and!; [done..|by rewrite app_nil_r].
  - intros fp rest o Hfp M Hd. replace (Z.to_nat (zlength ns)) with (length ns) by (unfold zlength; lia). cbn [fst snd].
    destruct (read_cond_items ns fp t [] o other rest Hfp Hall Hfit Ht M Hlen Hd) as (t' & o' & -> & M' & Ht' & Hh).
    cbn [ctrue Z.eqb negb]. do 2 eexists. split; [done|]. split; [done|]. simpl. eauto.
Qed.
End Lists.

(** ** Conditionals *)

(** What a conditional says, without addresses. *)
Record cond_content := mk_content {
  cc_state : Z; cc_expr : list cond_expr; cc_true : list avtab_node; cc_false : list avtab_node }.

Definition cc_rules (c : cond_content) : list avtab_node := cc_true c ++ cc_false c.

(** The conditionals [cs] with their rules numbered from [base] on. *)
Definition node_at (base : nat) (c : cond_content) : cond_node :=
  mk_cond_node (cc_state c) (cc_expr c) (seq base (length (cc_true c))) (seq (base + length (cc_true c)) (length (cc_false c)))
    0 0 0 zero_ids 0 0.
Fixpoint nodes_from (base : nat) (cs : list cond_content) : list cond_node :=
  match cs with
  | [] => []
  | c :: cs => node_at base c :: nodes_from (base + length (cc_rules c)) cs
  end.

(** The rules fit in the order they are stored. *)
Definition content_fits (te : avtab) (heap : list avtab_node) (c : cond_content) : Prop :=
  rules_fit te heap [] (cc_true c) /\ rules_fit te (heap ++ cc_true c) (seq (length heap) (length (cc_true c))) (cc_false c).
Fixpoint contents_fit (te : avtab) (heap : list avtab_node) (cs : list cond_content) : Prop :=
  match cs with
  | [] => True
  | c :: cs => content_fits te heap c /\ contents_fit te (heap ++ cc_rules c) cs
  end.

Definition expr_ok (nbools_prim : Z) (e : cond_expr) : Prop :=
  expr_isvalid nbools_prim e = true /\ in_range 32 (expr_type e) /\ in_range 32 (boolean e).

Definition expr_image (e : cond_expr) : list Z := words32 [expr_type e; boolean e].

Lemma to_int_u32 x : - 2 ^ 31 <= x < 2 ^ 31 -> to_int (u32 x) = x.
Proof.
  intros Hx. unfold to_int, wrap. destruct (Z.le_gt_cases 0 x).
  - rewrite Z.mod_small by lia. by destruct (Z.ltb_spec x (2 ^ 31)); [|lia].
  - rewrite <- (Z.mod_unique x (2 ^ 32) (-1) (x + 2 ^ 32)); [|left; lia|lia]. destruct (Z.ltb_spec (x + 2 ^ 32) (2 ^ 31)); lia.
Qed.

Section Conds.
Context (vers compat nbools_prim : Z) (te : avtab).
Context (Hvers : POLICYDB_VERSION_AVTAB <= vers) (Hcompat : compat = 0 \/ compat = 1) (Hte : avtab_ok te).

Definition content_ok (c : cond_content) : Prop :=
  - 2 ^ 31 <= cc_state c < 2 ^ 31 /\ zlength (cc_expr c) < 2 ^ 32 /\ Forall (expr_ok nbools_prim) (cc_expr c) /\
  Forall (item_writable vers compat) (cc_true c) /\ Forall (item_writable vers compat) (cc_false c).

Definition content_image (c : cond_content) : list Z :=
  words32 [u32 (cc_state c)] ++ words32 [zlength (cc_expr c)] ++ concat (map expr_image (cc_expr c)) ++
  list_image compat (cc_true c) ++ list_image compat (cc_false c).

Lemma reads_exprs es :
  Forall (expr_ok nbools_prim) es ->
  reads (rloop (length es) (cond_read_expr nbools_prim) []) (concat (map expr_image es)) (eq es).
Proof using Hvers Hcompat Hte.
  intros Hall. eapply reads_mono; [apply (reads_loop _ expr_image es (fun front l => l = front)); [done|]|by intros ? ->].
  intros front e todo l El ->. rewrite Forall_forall in Hall. destruct (Hall e) as (Hv & Ht & Hb); [rewrite El; set_solver|].
  unfold cond_read_expr, expr_image. rewrite <- (app_nil_r (words32 _)). apply reads_words; [done|]. rword. apply reads_alloc, reads_check; [by destruct e|].
  apply reads_ret. by destruct e.
Qed.

Lemma reads_cond_node t c :
  content_ok c -> content_fits te (ct_heap t).*1 c -> cond_tab_ok t -> zlength (ct_heap t) + zlength (cc_rules c) <= 2 ^ 32 - 1 ->
  reads (cond_read_node vers nbools_prim te (t, compat)) (content_image c)
    (fun r => r.1 = node_at (length (ct_heap t)) c /\ exists t', r.2 = (t', compat) /\ cond_tab_ok t' /\ ct_heap t' = ct_heap t ++ marked (cc_rules c)).
Proof using Hvers Hcompat Hte.
  intros (Hs & Hel & He & Htr & Hfa) [Hft Hff] Ht Hlen. unfold cc_rules, zlength in Hlen. rewrite length_app in Hlen.
  unfold cond_read_node, content_image. apply reads_words; [done|].
  rewrite (word32_at _ 0 (u32 (cc_state c))); [|done|apply wrap_range; lia]. apply reads_words; [done|].
  rewrite (word32_at _ 0 (zlength (cc_expr c))); [|done|by apply len_word_below].
  replace (Z.to_nat (zlength (cc_expr c))) with (length (cc_expr c)) by (unfold zlength; lia).
  eapply reads_bind; [by apply reads_exprs|]. intros ? <-.
  eapply reads_bind; [apply (reads_av_list vers compat te Hvers Hcompat Hte (cc_true c) t []); [done..|unfold zlength; lia]|].
  intros [tr [t1 cp]] (Etr & t1' & Est & Ht1 & Hh1). cbn [fst snd] in *. simplify_eq.
  eapply reads_last; [apply (reads_av_list vers compat te Hvers Hcompat Hte (cc_false c)); [done| |done|]|].
  - rewrite Hh1, fmap_app, marked_fst. by rewrite length_fmap in Hff.
  - rewrite Hh1. unfold zlength, marked. rewrite length_app, length_map. lia.
  - intros [fl [t2 cp]] (Efl & t2' & Est2 & Ht2 & Hh2). cbn [fst snd] in *. simplify_eq. apply reads_ret. cbn [fst snd]. split.
    + unfold node_at. rewrite Hh1, length_app. unfold marked. rewrite length_map, to_int_u32 by done. done.
    + exists t2'. split_and!; [done..|]. rewrite Hh2, Hh1, <- app_assoc. unfold marked, cc_rules. by rewrite map_app.
Qed.

Definition conds_image (cs : list cond_content) : list Z := words32 [zlength cs] ++ concat (map content_image cs).
Definition all_rules (cs : list cond_content) : list avtab_node := concat (map cc_rules cs).

Lemma nodes_from_snoc base cs c : nodes_from base (cs ++ [c]) = nodes_from base cs ++ [node_at (base + length (all_rules cs)) c].
Proof using Hvers Hcompat Hte.
  revert base. induction cs as [|c0 cs IH]; intros base; [unfold all_rules; simpl; by rewrite Nat.add_0_r|]. cbn [nodes_from app]. rewrite IH.
  replace (length (all_rules (c0 :: cs))) with (length (cc_rules c0) + length (all_rules cs))%nat by (unfold all_rules; cbn [map concat]; by rewrite length_app).
  by rewrite Nat.add_assoc.
Qed.

Lemma contents_fit_mid cs1 c cs2 heap : contents_fit te heap (cs1 ++ c :: cs2) -> content_fits te (heap ++ all_rules cs1) c.
Proof using Hvers Hcompat Hte.
  revert heap. induction cs1 as [|c0 cs1 IH]; intros heap; cbn [app contents_fit].
  - intros [H _]. unfold all_rules. simpl. by rewrite app_nil_r.
  - intros [_ H]. unfold all_rules. cbn [map concat]. rewrite app_assoc. by apply IH.
Qed.

(** The state after the conditionals [cs]. *)
Definition conds_read (cs : list cond_content) (s : list cond_node * (cond_avtab * Z)) : Prop :=
  s.1 = nodes_from 0 cs /\ exists t, s.2 = (t, compat) /\ cond_tab_ok t /\ ct_heap t = marked (all_rules cs).

Lemma reads_conds_loop cs t :
  Forall content_ok cs -> contents_fit te [] cs -> cond_tab_ok t -> ct_heap t = [] -> zlength (all_rules cs) <= 2 ^ 32 - 1 ->
  reads (rloop (length cs) (fun s => ralloc ~; n <~ cond_read_node vers nbools_prim te s.2 ;; rret (s.1 ++ [n.1], n.2)) ([], (t, compat)))
    (concat (map content_image cs)) (conds_read cs).
Proof using Hvers Hcompat Hte.
  intros Hall Hfit Ht Hh Hlen. apply (reads_loop _ content_image cs conds_read); [split; [done|]; by exists t|].
  intros front c todo s El (Es & t1 & Et & Ht1 & Hh1). apply reads_alloc. rewrite Et. rewrite Forall_forall in Hall.
  assert (Hrules : all_rules cs = all_rules front ++ cc_rules c ++ all_rules todo).
  { rewrite El. unfold all_rules. by rewrite map_app, concat_app. }
  eapply reads_last; [apply reads_cond_node; [apply Hall; rewrite El; set_solver| |done|]|].
  - rewrite Hh1, marked_fst. rewrite El in Hfit. by apply (contents_fit_mid front c todo []).
  - rewrite Hrules in Hlen. unfold zlength in *. rewrite !length_app in Hlen. rewrite Hh1. unfold marked. rewrite length_map. lia.
  - intros [n [t2 cp]] (En & t2' & Est & Ht2 & Hh2). cbn [fst snd] in *. simplify_eq. apply reads_ret. split; cbn [fst snd].
    + rewrite nodes_from_snoc, Es, Hh1. unfold marked. by rewrite length_map.
    + exists t2'. split_and!; [done..|]. rewrite Hh2, Hh1. unfold marked, all_rules. rewrite !map_app, concat_app, map_app. simpl. by rewrite app_nil_r.
Qed.

Lemma fresh_tab tab : avtab_ok tab -> nodes_of tab = [] ->
  cond_tab_ok (mk_cond_avtab tab (replicate (length (default [] (av_htable tab))) []) []).
Proof using Hvers Hcompat Hte.
  intros Hok Hn. split; [done|]. cbn [ct_table ct_addrs ct_heap]. unfold nodes_of in Hn.
  generalize dependent (default [] (av_htable tab)). intros tbl Htbl. split.
  - induction tbl as [|c tbl IH]; [constructor|]. simpl in Htbl. apply app_nil in Htbl as [-> Htbl]. constructor; [constructor|by apply IH].
  - clear. induction tbl as [|c tbl IH]; done.
Qed.

Lemma reads_conds cs t0 :
  Forall content_ok cs -> contents_fit te [] cs -> ct_heap t0 = [] -> zlength (all_rules cs) <= 2 ^ 32 - 1 -> zlength cs < 2 ^ 32 ->
  0 < av_nel te ->
  reads (cond_read_list vers nbools_prim te t0 compat) (conds_image cs) (conds_read cs).
Proof using Hvers Hcompat Hte.
  intros Hall Hfit Hh Hlen Hcs Hnel. unfold cond_read_list, conds_image. apply reads_words; [done|].
  rewrite (word32_at _ 0 (zlength cs)); [|done|by apply len_word_below].
  replace (Z.to_nat (zlength cs)) with (length cs) by (unfold zlength; lia).
  eapply (reads_step _ _ _ (fun t => cond_tab_ok t /\ ct_heap t = [])); [|intros t [Ht Hht]; by apply reads_conds_loop].
  intros fp rest o Hfp M Hd. unfold ralloc_avtab. destruct (avtab_alloc (ct_table t0) (av_nel te) o) as [[rc tab] o'] eqn:Ea.
  assert (Hn32 : av_nel te < 2 ^ 32) by (unfold avtab_ok in Hte; destruct (av_htable te); [by apply Hte|done]).
  assert (rc = 0 /\ mem_ok o') as [-> M'].
  { unfold avtab_alloc in Ea. destruct (Z.eqb_spec (av_nel te) 0); [lia|]. destruct (malloc o) as [ok o1] eqn:E.
    destruct (malloc_mem_ok _ _ _ E M) as [-> M1]. cbn [negb] in Ea. by simplify_eq. }
  apply avtab_alloc_post in Ea as (Hok & Hnil & _); [|lia]. cbn [ctrue Z.eqb negb]. do 2 eexists. split; [rewrite app_nil_l in Hd; by rewrite <- Hd, with_data_same|]. split; [done|].
  rewrite Hh. split; [by apply fresh_tab|done].
Qed.

(** *** Writing *)

Definition content_of (heap : list (avtab_node * bool)) (n : cond_node) (c : cond_content) : Prop :=
  cur_state n = cc_state c /\ expr n = cc_expr c /\
  parsed_nodes heap (true_list n) = cc_true c /\ parsed_nodes heap (false_list n) = cc_false c.

Context (p : write_params) (Hp : policyvers p = vers) (Htarget : target_platform p = SEPOL_TARGET_SELINUX).

Lemma writes_item n : item_writable vers compat n -> writes (avtab_write_item p compat n) (item_image compat n).
Proof using Hp Htarget Hvers Hcompat Hte. intros Hn fp Hr. apply avtab_write_item_ok; [by rewrite Hp|done|done]. Qed.

Lemma writes_av_list heap l ns :
  parsed_nodes heap l = ns -> zlength ns < 2 ^ 32 -> Forall (item_writable vers compat) ns ->
  writes (cond_write_av_list p compat heap l) (list_image compat ns).
Proof using Hp Htarget Hvers Hcompat Hte.
  intros El Hn Hall. unfold cond_write_av_list, list_image. rewrite El. cbv zeta. rewrite (wrap_small 32) by by apply len_word_below.
  apply writes_seq; [apply writes_words|]. destruct (Z.eqb_spec (zlength ns) 0) as [Hz|Hz].
  - destruct ns as [|x ns]; [apply writes_done|unfold zlength in Hz; simpl in Hz; lia].
  - apply writes_list. eapply Forall_impl; [exact Hall|]. intros x. apply writes_item.
Qed.

Lemma writes_cond_node heap n c :
  content_of heap n c -> content_ok c -> zlength (cc_rules c) < 2 ^ 32 -> writes (cond_write_node p compat heap n) (content_image c).
Proof using Hp Htarget Hvers Hcompat Hte.
  intros (Hs & He & Ht & Hf) (_ & Hel & _ & Hat & Haf) Hlen. unfold cc_rules, zlength in Hlen. rewrite length_app in Hlen.
  unfold cond_write_node, content_image. rewrite Hs, He. rewrite (wrap_small 32 (zlength _)) by by apply len_word_below.
  apply writes_seq; [apply writes_words|]. apply writes_seq; [apply writes_words|].
  apply writes_seq; [apply writes_list, Forall_forall; intros e _; apply writes_words|].
  apply writes_seq; [apply writes_av_list; [done|unfold zlength; lia|done]|].
  apply writes_end, writes_av_list; [done|unfold zlength; lia|done].
Qed.

Lemma writes_conds heap l cs :
  Forall2 (content_of heap) l cs -> Forall content_ok cs -> zlength (all_rules cs) < 2 ^ 32 -> zlength cs < 2 ^ 32 ->
  writes (cond_write_list p compat heap l) (conds_image cs).
Proof using Hp Htarget Hvers Hcompat Hte.
  intros Hl Hall Hlen Hcs. unfold cond_write_list, conds_image. pose proof (Forall2_length _ _ _ Hl) as Hll.
  unfold zlength in *. rewrite Hll, (wrap_small 32) by (unfold in_range; lia). apply writes_seq; [apply writes_words|]. clear Hll Hcs.
  induction Hl as [|n c l cs Hc Hl IH]; [apply writes_done|]. apply Forall_cons in Hall as [Hok Hall]. cbn [map concat wlist].
  unfold all_rules in Hlen. cbn [map concat] in Hlen. rewrite length_app in Hlen. apply writes_seq.
  - apply writes_cond_node; [done|done|unfold zlength; lia].
  - apply IH; [done|]. unfold all_rules. lia.
Qed.
End Conds.
