(* ===== verification/CondSound.v ===== *)
(** * CondSound: what [cond_read_list] accepts

    On any bytes, the conditionals that are read are free of conflicts, their
    expressions are over known operators and booleans, and their lists share
    out the nodes of the table. *)
From Stdlib Require Import ZArith Lia Bool.
From stdpp Require Import base option list list_numbers gmap sets.
From S2P Require Import Prelude PolicyFile Ebitmap EbitmapThms EbitmapIO Hashtab HashtabThms Symtab Avtab AvtabThms AvtabIO Cond Codec Symbols SymCodec SymbolsIO SymbolsThms Trans TransIO TransIns TransRT CondIO CondIOThms.

Section Sound.
Context (vers nbools_prim : Z) (te : avtab).
Context (Hvers : POLICYDB_VERSION_AVTAB <= vers) (Hte : avtab_ok te).

Lemma rules_fit_snoc heap other ns n :
  rules_fit te heap other (ns ++ [n]) <-> rules_fit te heap other ns /\ rule_fits te (heap ++ ns) other (key n).
Proof using.
  revert heap. induction ns as [|m ns IH]; intros heap; cbn [app rules_fit].
  - rewrite app_nil_r. tauto.
  - rewrite IH, <- app_assoc. cbn [app]. tauto.
Qed.

(** A successful call of [cond_insertf]. *)
Lemma cond_insertf_some other k d t l o t' l' o' :
  item_ok k d -> cond_insertf te other k d (t, l, o) = (0, (t', l', o')) ->
  l' = l ++ [length (ct_heap t)] /\ ct_heap t' = ct_heap t ++ [(mk_avtab_node k d, true)] /\
  (cond_tab_ok t -> zlength (ct_heap t) < 2 ^ 32 - 1 -> cond_tab_ok t' /\ rule_fits te (ct_heap t).*1 other k).
Proof using Hte.
  intros Hk E. unfold cond_insertf in E. destruct (cond_insertf_conflict te other t k) eqn:Hc; [done|].
  destruct (cond_insert_nonunique t k d o) as [[[a|] t1] o1] eqn:Ei; [|done]. destruct (malloc o1) as [[] o2]; [|done]. cbn [negb] in E. simplify_eq.
  destruct (cond_insert_some _ _ _ _ _ _ _ Ei) as (-> & Hh & Hok). split; [done|]. split.
  - simpl. rewrite Hh, (stored_node_valid _ _ Hk), alter_app_r_alt by lia. by rewrite Nat.sub_diag.
  - intros Ht Hlen. split; [apply set_parse_ok; by apply Hok|]. apply conflict_spec in Hc; [done|done|done|apply Hk].
Qed.

(** The state of the loop over the rules of a list, which started with [h0]. *)
Definition items_read (h0 : list (avtab_node * bool)) (other : list nat) (st : cond_avtab * list nat * oracle) : Prop :=
  exists ns, ct_heap st.1.1 = h0 ++ marked ns /\ st.1.2 = seq (length h0) (length ns) /\ Forall node_item_ok ns /\
    (zlength (ct_heap st.1.1) < 2 ^ 32 -> cond_tab_ok st.1.1 /\ rules_fit te h0.*1 other ns).

Lemma items_read_step h0 other k d st st' :
  item_ok k d -> items_read h0 other st -> cond_insertf te other k d st = (0, st') -> items_read h0 other st'.
Proof using Hte.
  destruct st as [[t l] o], st' as [[t' l'] o']. intros Hk (ns & Hh & Hl & Hall & Hok) E. cbn [fst snd] in *.
  destruct (cond_insertf_some other k d t l o t' l' o' Hk E) as (-> & Hh' & Hok'). exists (ns ++ [mk_avtab_node k d]). cbn [fst snd]. split_and!.
  - rewrite Hh', Hh, <- app_assoc. unfold marked. by rewrite map_app.
  - rewrite Hl, Hh, length_app, length_app. unfold marked. rewrite length_map. cbn [length]. by rewrite Nat.add_1_r, seq_S.
  - apply Forall_app. split; [done|by apply Forall_singleton].
  - intros Hlen. rewrite Hh' in Hlen. unfold zlength in *. rewrite length_app in Hlen. cbn [length] in Hlen.
    destruct (Hok ltac:(lia)) as [Ht Hf]. destruct (Hok' Ht ltac:(lia)) as [Ht' Hr]. split; [done|]. apply rules_fit_snoc. split; [done|].
    rewrite Hh, fmap_app, marked_fst in Hr. done.
Qed.

Lemma cond_items_sound h0 other i fp compat st fp' compat' st' :
  pf_bytes fp -> items_read h0 other st ->
  read_items (cond_insertf te other) i fp vers compat st = (0, fp', compat', st') -> pf_bytes fp' /\ items_read h0 other st'.
Proof using Hte Hvers.
  revert fp compat st. induction i as [|i IH]; intros fp compat st Hb Hi E; cbn [read_items] in E; [by simplify_eq|].
  destruct (avtab_read_item _ fp vers compat st) as [[[rc fp1] cp1] st1] eqn:Er.
  destruct (avtab_read_item_sound _ _ _ _ _ _ _ _ _ Hb Hvers Er) as [Hb1 [[-> ->]|(k & d & Hk & Hins)]]; [done|].
  destruct (ctrue rc) eqn:Hrc; [simplify_eq; done|]. apply ctrue_false in Hrc. subst rc.
  eapply IH; [done| |exact E]. by eapply items_read_step.
Qed.

(** A list that was read behind the rules [h0]. *)
Definition list_read (h0 : list (avtab_node * bool)) (other : list nat) (r : list nat * (cond_avtab * Z)) : Prop :=
  exists ns, ct_heap r.2.1 = h0 ++ marked ns /\ r.1 = seq (length h0) (length ns) /\ Forall node_item_ok ns /\
    (zlength (ct_heap r.2.1) < 2 ^ 32 -> cond_tab_ok r.2.1 /\ rules_fit te h0.*1 other ns).

Lemma sound_av_list other t compat :
  (zlength (ct_heap t) < 2 ^ 32 -> cond_tab_ok t) ->
  sound (cond_read_av_list vers te other (t, compat)) (list_read (ct_heap t) other).
Proof using Hte Hvers.
  intros Ht. unfold cond_read_av_list. eapply sound_bind; [by apply (sound_words _ (fun _ => True))|]. intros buf _.
  destruct (Z.eqb_spec (word32 buf 0) 0).
  { apply sound_ret. exists []. unfold marked. cbn [fst snd map length seq]. split_and!; [by rewrite app_nil_r|done|constructor|]. intros H. split; [by apply Ht|done]. }
  intros fp o a fp' o' Hb E. cbn [fst snd] in E. destruct (read_items _ _ _ _ _ _) as [[[rc fp1] cp1] [[t1 l1] o1]] eqn:Er.
  destruct (ctrue rc) eqn:Hrc; [done|]. apply ctrue_false in Hrc. simplify_eq.
  assert (H0 : items_read (ct_heap t) other (t, [], o)).
  { exists []. unfold marked. cbn [fst snd map length seq]. split_and!; [by rewrite app_nil_r|done|constructor|]. intros H. split; [by apply Ht|done]. }
  destruct (cond_items_sound _ _ _ _ _ _ _ _ _ Hb H0 Er) as [Hb1 Hi].
  by split.
Qed.

(** An element of an expression that is read: one of the seven operators, and a
    number that is not above that of any boolean; it may be 0, which no boolean
    has. *)
Definition element_sound (e : cond_expr) : Prop :=
  expr_type e ∈ [COND_BOOL; COND_NOT; COND_OR; COND_AND; COND_XOR; COND_EQ; COND_NEQ] /\ 0 <= boolean e <= nbools_prim.

Lemma isvalid_sound e : 0 <= boolean e -> expr_isvalid nbools_prim e = true -> element_sound e.
Proof using.
  intros Hb. unfold expr_isvalid, element_sound, COND_LAST, COND_NEQ. destruct (Z.leb_spec (expr_type e) 0); [done|]. destruct (Z.ltb_spec 7 (expr_type e)); [done|]. cbn [orb].
  destruct (Z.ltb_spec nbools_prim (boolean e)); [done|]. intros _. split; [|lia]. unfold COND_BOOL, COND_NOT, COND_OR, COND_AND, COND_XOR, COND_EQ.
  rewrite !elem_of_cons. lia.
Qed.

(** What is known of every conditional that is read. *)
Definition content_sound (c : cond_content) : Prop := Forall element_sound (cc_expr c) /\ Forall node_item_ok (cc_rules c).

Lemma sound_cond_node t compat :
  (zlength (ct_heap t) < 2 ^ 32 -> cond_tab_ok t) ->
  sound (cond_read_node vers nbools_prim te (t, compat))
    (fun r => exists c, r.1 = node_at (length (ct_heap t)) c /\ ct_heap r.2.1 = ct_heap t ++ marked (cc_rules c) /\ content_sound c /\
      (zlength (ct_heap r.2.1) < 2 ^ 32 -> cond_tab_ok r.2.1 /\ content_fits te (ct_heap t).*1 c)).
Proof using Hte Hvers.
  intros Ht. unfold cond_read_node. eapply sound_bind; [by apply (sound_words _ (fun _ => True))|]. intros buf _.
  eapply sound_bind; [by apply (sound_words _ (fun _ => True))|]. intros len _.
  eapply (sound_bind _ _ (Forall element_sound)).
  { apply sound_loop; [constructor|]. intros es Hes. unfold cond_read_expr.
    eapply sound_bind; [apply sound_entry|]. intros b [Hb _]. eapply sound_bind; [apply sound_alloc|]. intros _ _.
    cbv zeta. eapply sound_bind; [apply sound_check|]. intros [] He. apply sound_ret, Forall_app. split; [done|]. apply Forall_singleton, isvalid_sound; [|done].
    cbn [boolean]. pose proof (word32_range b 1 Hb) as Hr. unfold in_range in Hr. lia. }
  intros es Hes. eapply sound_bind; [by apply (sound_av_list [])|]. intros [tr [t1 cp1]] (nt & Hh1 & Etr & Hnt & Hok1). cbn [fst snd] in *. subst tr.
  eapply sound_bind; [apply sound_av_list; intros H; by apply Hok1|]. intros [fl [t2 cp2]] (nf & Hh2 & Efl & Hnf & Hok2). cbn [fst snd] in *. subst fl.
  apply sound_ret. exists (mk_content (to_int (word32 buf 0)) es nt nf). cbn [fst snd]. split_and!.
  - unfold node_at. cbn [cc_state cc_expr cc_true cc_false]. rewrite Hh1, length_app. unfold marked. by rewrite length_map.
  - rewrite Hh2, Hh1, <- app_assoc. unfold marked, cc_rules. by rewrite map_app.
  - split; [done|]. unfold cc_rules. by apply Forall_app.
  - intros Hlen. destruct (Hok2 Hlen) as [Ht2 Hf2]. rewrite Hh2 in Hlen. unfold zlength in *. rewrite length_app in Hlen.
    destruct (Hok1 ltac:(lia)) as [Ht1 Hf1]. split; [done|]. split; [done|]. cbn [cc_true cc_false].
    rewrite Hh1, fmap_app, marked_fst in Hf2. by rewrite length_fmap.
Qed.

Lemma contents_fit_snoc heap cs c :
  contents_fit te heap (cs ++ [c]) <-> contents_fit te heap cs /\ content_fits te (heap ++ all_rules cs) c.
Proof using.
  revert heap. induction cs as [|c0 cs IH]; intros heap; cbn [app contents_fit].
  - unfold all_rules. simpl. rewrite app_nil_r. tauto.
  - rewrite IH. unfold all_rules. cbn [map concat]. rewrite <- app_assoc. tauto.
Qed.

(** The conditionals read so far: numbered as they came, their rules the heap
    of the table, and (as long as the rules can be counted in 32 bits) in a
    well-formed table and free of conflicts. *)
Definition conds_sound (r : list cond_node * (cond_avtab * Z)) : Prop :=
  exists cs, r.1 = nodes_from 0 cs /\ ct_heap r.2.1 = marked (all_rules cs) /\ Forall content_sound cs /\
    (zlength (all_rules cs) < 2 ^ 32 -> cond_tab_ok r.2.1 /\ contents_fit te [] cs).

Lemma conds_sound_step s :
  conds_sound s -> sound (ralloc ~; n <~ cond_read_node vers nbools_prim te s.2 ;; rret (s.1 ++ [n.1], n.2)) conds_sound.
Proof using Hte Hvers.
  destruct s as [ns [t cp]]. intros (cs & Ens & Hh & Hcs & Hok). cbn [fst snd] in *. eapply sound_bind; [apply sound_alloc|]. intros _ _.
  assert (Hml : forall l, length (marked l) = length l) by (intros l; unfold marked; by rewrite length_map).
  eapply sound_bind; [apply sound_cond_node; intros H; apply Hok; unfold zlength in *; by rewrite Hh, Hml in H|].
  intros [n [t1 cp1]] (c & En & Hh1 & Hc & Hok1). cbn [fst snd] in *. subst n. apply sound_ret. exists (cs ++ [c]). cbn [fst snd].
  assert (Hrules : all_rules (cs ++ [c]) = all_rules cs ++ cc_rules c) by (unfold all_rules; rewrite map_app, concat_app; simpl; by rewrite app_nil_r).
  split_and!.
  - by rewrite (nodes_from_snoc vers 0 te Hvers (or_introl eq_refl) Hte), <- Ens, Hh, Hml.
  - rewrite Hh1, Hh, Hrules. unfold marked. by rewrite map_app.
  - apply Forall_app. split; [done|by apply Forall_singleton].
  - rewrite Hrules. intros Hlen. unfold zlength in *. rewrite length_app in Hlen.
    destruct (Hok1 ltac:(rewrite Hh1, Hh, length_app, !Hml; lia)) as [Ht1 Hf]. split; [done|]. apply contents_fit_snoc.
    split; [apply Hok; lia|]. rewrite Hh, marked_fst in Hf. done.
Qed.

Lemma cond_read_list_ok t0 compat :
  ct_heap t0 = [] -> 0 < av_nel te -> sound (cond_read_list vers nbools_prim te t0 compat) conds_sound.
Proof using Hte Hvers.
  intros Hh Hnel. unfold cond_read_list. eapply sound_bind; [by apply (sound_words _ (fun _ => True))|]. intros buf _.
  eapply (sound_bind _ _ (fun t => cond_tab_ok t /\ ct_heap t = [])).
  - intros fp o a fp' o' Hb E. unfold ralloc_avtab in E. destruct (avtab_alloc (ct_table t0) (av_nel te) o) as [[rc tab] o1] eqn:Ea.
    destruct (ctrue rc) eqn:Hrc; [done|]. apply ctrue_false in Hrc. simplify_eq. split; [|done].
    assert (Hn32 : av_nel te < 2 ^ 32) by (unfold avtab_ok in Hte; destruct (av_htable te); [by apply Hte|done]).
    apply avtab_alloc_post in Ea as (Hok & Hnil & _); [|lia]. rewrite Hh. split; [|done].
    by apply (fresh_tab vers 0 te Hvers (or_introl eq_refl) Hte).
  - intros t [Ht Hht]. apply sound_loop; [|apply conds_sound_step]. exists []. split_and!; [done|done|constructor|done].
Qed.
End Sound.

(** C23: on any bytes, in the formats since version 20 and with the rules outside
    of conditionals read, what [cond_read_list] accepts is a list of
    conditionals over the seven operators and numbers of booleans at most the
    greatest (0, which is no boolean, included), whose rules have one specifier
    each; the lists of the conditionals hold every node of the table exactly
    once, in the order of the file; and with fewer than 2^32 rules the table is
    well formed, and no type rule conflicts with one outside of the conditionals
    or in another conditional. *)
Theorem cond_read_list_sound vers nbools_prim te t0 compat :
  POLICYDB_VERSION_AVTAB <= vers -> avtab_ok te -> 0 < av_nel te -> ct_heap t0 = [] ->
  sound (cond_read_list vers nbools_prim te t0 compat) (conds_sound nbools_prim te).
Proof. intros Hv Hte Hn Hh. by apply cond_read_list_ok. Qed.
