(* ===== verification/PolicydbSame.v ===== *)
(** * PolicydbSame: policies with the same symbols

    Two policies whose symbol tables denote the same finite maps can be indexed
    alike, accept the same contexts and give the same permissions to names. *)
From Stdlib Require Import ZArith Lia Bool.
From stdpp Require Import base option list list_numbers gmap sets.
From S2P Require Import Prelude PolicyFile Ebitmap EbitmapThms EbitmapRange EbitmapIO Hashtab HashtabThms Symtab Avtab AvtabThms AvtabIO Cond Codec Symbols SymCodec SymbolsIO SymbolsThms Trans TransIO TransIns TransRT TransFt TransThms Index IndexThms ExpandThms IndexAll Contexts ContextsIO ContextsValid.

(** ** Tables *)

Definition same_table {D} (eqv : D -> D -> Prop) (t t' : symtab D) : Prop :=
  st_nprim t' = st_nprim t /\ (exists h', st_table t' = Some h' /\ hashtab_ok h') /\
  forall k, option_Forall2 eqv (symtab_abs t !! k) (symtab_abs t' !! k).

Lemma same_abs {D} (t t' : symtab D) : same_table eq t t' -> symtab_abs t' = symtab_abs t.
Proof. intros (_ & _ & H). apply map_eq. intros k. specialize (H k). inversion H; congruence. Qed.

(** What is read back into an empty table. *)
Lemma added_same {D} (eqv : D -> D -> Prop) (t0 t t' : symtab D) :
  symtab_start (fun _ => true) t0 -> symtab_added (fun _ => true) eqv t0 t t' -> same_table eqv t t'.
Proof.
  intros (h0 & E0 & _ & _ & Hfresh) (Hn & h0' & h & h' & E0' & E & E' & Hok & Hadd). rewrite E0 in E0'. injection E0' as <-.
  split; [done|]. split; [by exists h'|]. intros k. specialize (Hadd k). unfold symtab_abs. rewrite E, E'.
  destruct (hashtab_abs h !! k) as [d|].
  - destruct Hadd as (d' & -> & Hd). by constructor.
  - rewrite Hadd, Hfresh by done. constructor.
Qed.

(** The roles, [object_r] being the same before. *)
Lemma roles_same (t0 t t' : symtab role_datum) :
  symtab_start role_keep t0 -> symtab_abs t !! OBJECT_R = symtab_abs t0 !! OBJECT_R ->
  symtab_added role_keep eq t0 t t' -> same_table eq t t'.
Proof.
  intros (h0 & E0 & _ & _ & Hfresh) Hobj (Hn & h0' & h & h' & E0' & E & E' & Hok & Hadd). rewrite E0 in E0'. injection E0' as <-.
  split; [done|]. split; [by exists h'|]. intros k. specialize (Hadd k). unfold symtab_abs in *. rewrite E, E0 in Hobj. rewrite E, E'.
  destruct (role_keep k) eqn:Hk.
  - destruct (hashtab_abs h !! k) as [d|]; [destruct Hadd as (d' & -> & <-); by constructor|]. rewrite Hadd, Hfresh by done. constructor.
  - unfold role_keep in Hk. apply negb_false_iff, Z.eqb_eq, strcmp_eq in Hk. subst k.
    replace (hashtab_abs h' !! OBJECT_R) with (hashtab_abs h !! OBJECT_R) by (rewrite Hobj; symmetry; by case_match).
    destruct (hashtab_abs h !! OBJECT_R); by constructor.
Qed.

Section Values.
Context {D : Type} (val : D -> option Z) (eqv : D -> D -> Prop) (Hval : forall d d', eqv d d' -> val d' = val d).

Lemma same_back (t t' : symtab D) k d' :
  same_table eqv t t' -> symtab_abs t' !! k = Some d' -> exists d, symtab_abs t !! k = Some d /\ eqv d d'.
Proof using. intros (_ & _ & H) Hk. specialize (H k). rewrite Hk in H. inversion H; subst. eauto. Qed.

Lemma same_forth (t t' : symtab D) k d :
  same_table eqv t t' -> symtab_abs t !! k = Some d -> exists d', symtab_abs t' !! k = Some d' /\ eqv d d'.
Proof using. intros (_ & _ & H) Hk. specialize (H k). rewrite Hk in H. inversion H; subst. eauto. Qed.

Lemma same_values t t' : same_table eqv t t' -> table_values_ok val t -> table_values_ok val t'.
Proof using Hval.
  intros Hs [Hr Hi]. pose proof Hs as (Hn & _ & _). split.
  - intros k d' v Hk Hv. destruct (same_back t t' k d' Hs Hk) as (d & Hd & He). rewrite Hn. apply (Hr k d v Hd). by rewrite <- (Hval _ _ He).
  - intros k1 k2 d1 d2 v H1 H2 V1 V2. destruct (same_back _ _ _ _ Hs H1) as (e1 & E1 & Q1), (same_back _ _ _ _ Hs H2) as (e2 & E2 & Q2).
    apply (Hi k1 k2 e1 e2 v E1 E2); [by rewrite <- (Hval _ _ Q1)|by rewrite <- (Hval _ _ Q2)].
Qed.

Lemma same_indexable t t' : same_table eqv t t' -> indexable val t -> indexable val t'.
Proof using Hval.
  intros Hs (h & E & Hok & Hall). pose proof Hs as (_ & (h' & E' & Hok') & _). exists h'. split_and!; [done..|]. intros k d' Hk v Hv.
  assert (Hk' : symtab_abs t' !! k = Some d') by (unfold symtab_abs; by rewrite E'). destruct (same_back _ _ _ _ Hs Hk') as (d & Hd & He).
  unfold symtab_abs in Hd. rewrite E in Hd. apply (Hall k d Hd). by rewrite <- (Hval _ _ He).
Qed.

Lemma same_ready t t' : same_table eqv t t' -> indexable val t /\ table_values_ok val t -> indexable val t' /\ table_values_ok val t'.
Proof using Hval. intros Hs [H1 H2]. split; [by eapply same_indexable|by eapply same_values]. Qed.

Lemma same_strict t t' (strict : bool) : same_table eqv t t' ->
  indexable val t /\ (strict = true -> table_values_ok val t) -> indexable val t' /\ (strict = true -> table_values_ok val t').
Proof using Hval. intros Hs [H1 H2]. split; [by eapply same_indexable|]. intros E. eapply same_values; [done|auto]. Qed.
End Values.

(** ** All symbols *)

Definition same_symbols (s s' : symbols) : Prop :=
  same_table common_eqv (p_commons s) (p_commons s') /\ same_table class_eqv (p_classes s) (p_classes s') /\
  same_table eq (p_roles s) (p_roles s') /\ same_table eq (p_types s) (p_types s') /\ same_table eq (p_users s) (p_users s') /\
  same_table eq (p_bools s) (p_bools s') /\ same_table eq (p_levels s) (p_levels s') /\ same_table eq (p_cats s) (p_cats s').

Lemma symbols_added_same s0 s s' :
  symbols_start s0 -> symtab_abs (p_roles s) !! OBJECT_R = symtab_abs (p_roles s0) !! OBJECT_R ->
  symbols_added s0 s s' -> same_symbols s s'.
Proof.
  intros (Z1 & Z2 & Z3 & Z4 & Z5 & Z6 & Z7 & Z8) Hobj (A1 & A2 & A3 & A4 & A5 & A6 & A7 & A8).
  split_and!; eauto using added_same, roles_same.
Qed.

(** What the indexes need. *)
Definition classes_ready (s : symbols) : Prop :=
  (indexable common_val (p_commons s) /\ table_values_ok common_val (p_commons s)) /\
  (indexable class_val (p_classes s) /\ table_values_ok class_val (p_classes s)).

Lemma same_classes_ready s s' : same_symbols s s' -> classes_ready s -> classes_ready s'.
Proof.
  intros (Hc & Hcl & _) [H1 H2]. split; (eapply same_ready; [|done|done]).
  - intros d d' [Hv _]. unfold common_val. by rewrite Hv.
  - intros d d' [Hv _]. unfold class_val. by rewrite Hv.
Qed.

Lemma same_others_ready s s' : same_symbols s s' -> others_ready true s -> others_ready true s'.
Proof.
  intros (_ & _ & Hr & Ht & Hu & Hb & Hl & Hc) [R1 R2 R3 R4 R5 R6 R7 R8]. pose proof Hr as (Nr & _). pose proof Ht as (Nt & _).
  constructor; try (eapply same_strict; [|done|done]; by intros ? ? ->).
  - intros k role st Hk Hst. rewrite (same_abs _ _ Hr) in Hk. rewrite Nt in *. rewrite (same_abs _ _ Ht) in Hst. by eapply R7.
  - intros k user Hk. rewrite (same_abs _ _ Hu) in Hk. rewrite Nr. by eapply R8.
Qed.

(** ** Contexts *)

Lemma same_valid mls s s' c : same_symbols s s' -> valid_context mls s c -> valid_context mls s' c.
Proof.
  intros (_ & _ & Hr & Ht & Hu & _ & Hl & Hc). pose proof Hr as (Nr & _). pose proof Ht as (Nt & _). pose proof Hu as (Nu & _).
  pose proof Hl as (Nl & _). pose proof Hc as (Nc & _).
  assert (HL : forall l, valid_level s l -> valid_level s' l).
  { intros l. unfold valid_level. by rewrite Nl, Nc, (same_abs _ _ Hl). }
  unfold valid_context, valid_range, role_allows, user_allows. rewrite Nr, Nt, Nu, (same_abs _ _ Hr), (same_abs _ _ Ht), (same_abs _ _ Hu).
  intros (H1 & H2 & H3 & H4 & H5). refine (conj H1 (conj H2 (conj H3 (conj H4 _)))). intros Hm. destruct (H5 Hm) as (D1 & D2 & D3 & D4). split_and!; auto.
Qed.

Section Contexts.
Context (mls : bool) (s s' : symbols) (ix ix' : indexes) (Hs : same_symbols s s').
Context (Hix : others_indexed s ix) (Hix' : others_indexed s' ix') (Hl : indexable sens_val (p_levels s)).
Context (Hcats : map_Forall (fun _ d => ebitmap_ok (cat (lev_level d))) (symtab_abs (p_levels s))).

Lemma same_context c : context_ok mls s ix c -> context_ok mls s' ix' c.
Proof using Hs Hix Hix' Hl Hcats.
  intros (H1 & H2 & H3 & H4 & H5 & Hv). split_and!; try done. unfold policydb_context_isvalid in *.
  assert (Hr : context_ranges c) by (unfold context_ranges, in_range in *; split_and!; lia || done).
  destruct (context_is_valid_ok mls s ix Hix Hl Hcats c Hr) as (b & Eb & Hb). rewrite Hv in Eb. injection Eb as <-.
  pose proof Hs as (_ & _ & _ & _ & _ & _ & Hlv & _).
  destruct (context_is_valid_ok mls s' ix' Hix') with (c := c) as (b' & Eb' & Hb'); [|by rewrite (same_abs _ _ Hlv)|done|].
  - eapply same_indexable; [|exact Hlv|exact Hl]. by intros ? ? ->.
  - rewrite Eb'. f_equal. apply Hb'. apply (same_valid mls s s' c Hs). by apply Hb.
Qed.

Lemma same_lists i ls : lists_ok mls s ix i ls -> lists_ok mls s' ix' i ls.
Proof using Hs Hix Hix' Hl Hcats.
  revert i. induction ls as [|cs ls IH]; intros i; [done|]. intros [[Hall Hn] Hls]. split; [|by apply IH]. split; [|done].
  eapply Forall_impl; [exact Hall|]. intros c (Hf & H0 & H1). split; [done|]. split; [by apply same_context|]. destruct (two_contexts i); [by apply same_context|done].
Qed.

Lemma same_genfs l : genfs_ok mls s ix l -> genfs_ok mls s' ix' l.
Proof using Hs Hix Hix' Hl Hcats.
  intros (Hn & Hall & HS). split_and!; [done| |done]. eapply Forall_impl; [exact Hall|]. intros g (G1 & G2 & G3 & G4). split_and!; try done.
  eapply Forall_impl; [exact G3|]. intros c (E1 & E2 & E3 & [E4 E4'] & E5 & E6). split_and!; try done. by apply same_context.
Qed.
End Contexts.

(** ** Permissions by name *)

(** The class with the name has the value that is looked up. *)
Lemma same_class_value s s' name :
  same_symbols s s' -> (exists h, st_table (p_classes s) = Some h /\ hashtab_ok h) ->
  policydb_string_to_security_class s' name = policydb_string_to_security_class s name.
Proof.
  intros (_ & Hc & _) (h & E & Hok). pose proof Hc as (_ & (h' & E' & Hok') & H). unfold policydb_string_to_security_class. specialize (H name).
  unfold symtab_abs in H. rewrite E, E' in *. rewrite !hashtab_search_ok by done. inversion H as [d d' [Hv _] H1 H2|H1 H2]; congruence.
Qed.

(** A permission is found by name alike in tables with the same contents. *)
Lemma same_perm_search (t t' : symtab perm_datum) name :
  perms_eqv t t' -> (exists h, st_table t = Some h /\ hashtab_ok h) -> hashtab_search (st_table t') name = hashtab_search (st_table t) name.
Proof.
  intros (_ & (h' & E' & Hok') & Habs) (h & E & Hok). unfold symtab_abs in Habs. rewrite E, E' in *. by rewrite !hashtab_search_ok, Habs.
Qed.

(** The tables of permissions of a policy are tables. *)
Definition perms_tables (s : symbols) : Prop :=
  (exists h, st_table (p_commons s) = Some h /\ hashtab_ok h) /\
  map_Forall (fun _ d => exists h, st_table (com_permissions d) = Some h /\ hashtab_ok h) (symtab_abs (p_commons s)) /\
  map_Forall (fun _ d => exists h, st_table (cla_permissions d) = Some h /\ hashtab_ok h) (symtab_abs (p_classes s)).

Lemma same_av_perm s s' ci ci' v name x :
  same_symbols s s' -> perms_tables s ->
  inverse class_val (st_nprim (p_classes s)) (symtab_abs (p_classes s)) (p_class_val_to_name ci, class_val_to_struct ci) ->
  inverse class_val (st_nprim (p_classes s')) (symtab_abs (p_classes s')) (p_class_val_to_name ci', class_val_to_struct ci') ->
  0 <= v -> policydb_string_to_av_perm s ci v name = Some x -> policydb_string_to_av_perm s' ci' v name = Some x.
Proof.
  intros (Hco & Hcl & _) ((hc & Ec & Hokc) & Hcp & Hclp) Hi Hi' Hv. pose proof Hcl as (Nc & _).
  unfold policydb_string_to_av_perm. rewrite Nc in *. rewrite range_test by done. case_bool_decide as Hr; cbn [negb]; [|done].
  destruct (struct_at class_val _ _ _ _ Hi Hr) as [(k & d & Hst & Hk & Hd)|[Hst _]]; cbn [snd] in Hst; rewrite Hst; [|done].
  destruct (same_forth class_eqv _ _ k d Hcl Hk) as (d' & Hk' & (Ev & Eck & Ep & _)).
  assert (Hst' : class_val_to_struct ci' !! Z.to_nat (v - 1) = Some (Some (k, d'))).
  { destruct Hi' as (_ & _ & Hs' & _). apply Hs'; [done|]. split; [done|]. unfold class_val in *. by rewrite Ev. }
  rewrite Hst', Eck, (same_perm_search _ _ name Ep (Hclp k d Hk)). destruct (hashtab_search _ name); [done|].
  destruct (cla_comkey d) as [ck|]; [|done]. pose proof Hco as (_ & (hc' & Ec' & Hokc') & Hcs). specialize (Hcs ck).
  rewrite Ec, Ec', !hashtab_search_ok by done. unfold symtab_abs in Hcs, Hcp. rewrite Ec in Hcp. rewrite Ec, Ec' in Hcs.
  destruct (hashtab_abs hc !! ck) as [com|] eqn:Ek; inversion Hcs as [? com' [_ Epc] E1 E2|E1 E2]; [|done].
  by rewrite (same_perm_search _ _ name Epc (Hcp ck com Ek)).
Qed.
