(* ===== verification/Policydb.v ===== *)
(** * Policydb: reading and writing a whole binary policy

    The frame around the sections of a policy: the table of compatible formats,
    the header, the order of the sections, the indexes built on the way and the
    maps between types and attributes; [policydb_read] (libsepol/src/policydb.c)
    and [policydb_write] (libsepol/src/write.c), for kernel policies from
    version 20 on, where the current format of access vectors begins. *)
From Stdlib Require Import ZArith Lia Bool.
From stdpp Require Import base option list list_numbers gmap sets.
From S2P Require Import Prelude PolicyFile Ebitmap EbitmapThms EbitmapIO Hashtab HashtabThms Symtab Avtab AvtabThms AvtabIO Cond Codec Symbols Trans Index Contexts CondIO.

(** ** Formats *)

Definition POLICYDB_VERSION_BASE : Z := 15.
Definition POLICYDB_VERSION_BOOL : Z := 16.
Definition POLICYDB_VERSION_IPV6 : Z := 17.
Definition POLICYDB_VERSION_NLCLASS : Z := 18.
Definition POLICYDB_VERSION_POLCAP : Z := 22.
Definition POLICYDB_VERSION_PERMISSIVE : Z := 23.
Definition POLICYDB_VERSION_INFINIBAND : Z := 31.
Definition POLICYDB_VERSION_MIN : Z := POLICYDB_VERSION_BASE.
Definition POLICYDB_VERSION_MAX : Z := POLICYDB_VERSION_COMP_FTRANS.
Definition MOD_POLICYDB_VERSION_BASE : Z := 4.
Definition MOD_POLICYDB_VERSION_RANGETRANS : Z := 6.
Definition MOD_POLICYDB_VERSION_POLCAP : Z := 7.
Definition MOD_POLICYDB_VERSION_FILENAME_TRANS : Z := 11.
Definition MOD_POLICYDB_VERSION_ROLETRANS : Z := 12.
Definition MOD_POLICYDB_VERSION_CONSTRAINT_NAMES : Z := 17.
Definition MOD_POLICYDB_VERSION_XPERMS_IOCTL : Z := 18.
Definition MOD_POLICYDB_VERSION_INFINIBAND : Z := 19.
Definition MOD_POLICYDB_VERSION_SELF_TYPETRANS : Z := 21.
Definition MOD_POLICYDB_VERSION_MIN : Z := MOD_POLICYDB_VERSION_BASE.
Definition MOD_POLICYDB_VERSION_MAX : Z := MOD_POLICYDB_VERSION_SELF_TYPETRANS.

Definition SYM_NUM : Z := 8.

Record policydb_compat_info := mk_compat {
  c_type : Z; c_version : Z; c_sym_num : Z; c_ocon_num : Z; c_target_platform : Z }.

(** The table [policydb_compat]: kernel policies, base policies, modules. *)
Definition compat_kern : list policydb_compat_info :=
  [mk_compat POLICY_KERN POLICYDB_VERSION_BOUNDARY SYM_NUM (OCON_XEN_PCIDEVICE + 1) SEPOL_TARGET_XEN;
   mk_compat POLICY_KERN POLICYDB_VERSION_XEN_DEVICETREE SYM_NUM (OCON_XEN_DEVICETREE + 1) SEPOL_TARGET_XEN;
   mk_compat POLICY_KERN POLICYDB_VERSION_BASE (SYM_NUM - 3) (OCON_FSUSE + 1) SEPOL_TARGET_SELINUX;
   mk_compat POLICY_KERN POLICYDB_VERSION_BOOL (SYM_NUM - 2) (OCON_FSUSE + 1) SEPOL_TARGET_SELINUX;
   mk_compat POLICY_KERN POLICYDB_VERSION_IPV6 (SYM_NUM - 2) (OCON_NODE6 + 1) SEPOL_TARGET_SELINUX;
   mk_compat POLICY_KERN POLICYDB_VERSION_NLCLASS (SYM_NUM - 2) (OCON_NODE6 + 1) SEPOL_TARGET_SELINUX;
   mk_compat POLICY_KERN POLICYDB_VERSION_MLS SYM_NUM (OCON_NODE6 + 1) SEPOL_TARGET_SELINUX;
   mk_compat POLICY_KERN POLICYDB_VERSION_AVTAB SYM_NUM (OCON_NODE6 + 1) SEPOL_TARGET_SELINUX;
   mk_compat POLICY_KERN POLICYDB_VERSION_RANGETRANS SYM_NUM (OCON_NODE6 + 1) SEPOL_TARGET_SELINUX;
   mk_compat POLICY_KERN POLICYDB_VERSION_POLCAP SYM_NUM (OCON_NODE6 + 1) SEPOL_TARGET_SELINUX;
   mk_compat POLICY_KERN POLICYDB_VERSION_PERMISSIVE SYM_NUM (OCON_NODE6 + 1) SEPOL_TARGET_SELINUX;
   mk_compat POLICY_KERN POLICYDB_VERSION_BOUNDARY SYM_NUM (OCON_NODE6 + 1) SEPOL_TARGET_SELINUX;
   mk_compat POLICY_KERN POLICYDB_VERSION_FILENAME_TRANS SYM_NUM (OCON_NODE6 + 1) SEPOL_TARGET_SELINUX;
   mk_compat POLICY_KERN POLICYDB_VERSION_ROLETRANS SYM_NUM (OCON_NODE6 + 1) SEPOL_TARGET_SELINUX;
   mk_compat POLICY_KERN POLICYDB_VERSION_NEW_OBJECT_DEFAULTS SYM_NUM (OCON_NODE6 + 1) SEPOL_TARGET_SELINUX;
   mk_compat POLICY_KERN POLICYDB_VERSION_DEFAULT_TYPE SYM_NUM (OCON_NODE6 + 1) SEPOL_TARGET_SELINUX;
   mk_compat POLICY_KERN POLICYDB_VERSION_CONSTRAINT_NAMES SYM_NUM (OCON_NODE6 + 1) SEPOL_TARGET_SELINUX;
   mk_compat POLICY_KERN POLICYDB_VERSION_XPERMS_IOCTL SYM_NUM (OCON_NODE6 + 1) SEPOL_TARGET_SELINUX;
   mk_compat POLICY_KERN POLICYDB_VERSION_INFINIBAND SYM_NUM (OCON_IBENDPORT + 1) SEPOL_TARGET_SELINUX;
   mk_compat POLICY_KERN POLICYDB_VERSION_GLBLUB SYM_NUM (OCON_IBENDPORT + 1) SEPOL_TARGET_SELINUX;
   mk_compat POLICY_KERN POLICYDB_VERSION_COMP_FTRANS SYM_NUM (OCON_IBENDPORT + 1) SEPOL_TARGET_SELINUX].

Definition compat_base : list policydb_compat_info :=
  [mk_compat POLICY_BASE MOD_POLICYDB_VERSION_BASE SYM_NUM (OCON_NODE6 + 1) SEPOL_TARGET_SELINUX;
   mk_compat POLICY_BASE MOD_POLICYDB_VERSION_MLS SYM_NUM (OCON_NODE6 + 1) SEPOL_TARGET_SELINUX;
   mk_compat POLICY_BASE MOD_POLICYDB_VERSION_MLS_USERS SYM_NUM (OCON_NODE6 + 1) SEPOL_TARGET_SELINUX;
   mk_compat POLICY_BASE MOD_POLICYDB_VERSION_POLCAP SYM_NUM (OCON_NODE6 + 1) SEPOL_TARGET_SELINUX;
   mk_compat POLICY_BASE MOD_POLICYDB_VERSION_PERMISSIVE SYM_NUM (OCON_NODE6 + 1) SEPOL_TARGET_SELINUX;
   mk_compat POLICY_BASE MOD_POLICYDB_VERSION_BOUNDARY SYM_NUM (OCON_NODE6 + 1) SEPOL_TARGET_SELINUX;
   mk_compat POLICY_BASE MOD_POLICYDB_VERSION_BOUNDARY_ALIAS SYM_NUM (OCON_NODE6 + 1) SEPOL_TARGET_SELINUX;
   mk_compat POLICY_BASE MOD_POLICYDB_VERSION_FILENAME_TRANS SYM_NUM (OCON_NODE6 + 1) SEPOL_TARGET_SELINUX;
   mk_compat POLICY_BASE MOD_POLICYDB_VERSION_ROLETRANS SYM_NUM (OCON_NODE6 + 1) SEPOL_TARGET_SELINUX;
   mk_compat POLICY_BASE MOD_POLICYDB_VERSION_ROLEATTRIB SYM_NUM (OCON_NODE6 + 1) SEPOL_TARGET_SELINUX;
   mk_compat POLICY_BASE MOD_POLICYDB_VERSION_TUNABLE_SEP SYM_NUM (OCON_NODE6 + 1) SEPOL_TARGET_SELINUX;
   mk_compat POLICY_BASE MOD_POLICYDB_VERSION_NEW_OBJECT_DEFAULTS SYM_NUM (OCON_NODE6 + 1) SEPOL_TARGET_SELINUX;
   mk_compat POLICY_BASE MOD_POLICYDB_VERSION_DEFAULT_TYPE SYM_NUM (OCON_NODE6 + 1) SEPOL_TARGET_SELINUX;
   mk_compat POLICY_BASE MOD_POLICYDB_VERSION_CONSTRAINT_NAMES SYM_NUM (OCON_NODE6 + 1) SEPOL_TARGET_SELINUX;
   mk_compat POLICY_BASE MOD_POLICYDB_VERSION_XPERMS_IOCTL SYM_NUM (OCON_NODE6 + 1) SEPOL_TARGET_SELINUX;
   mk_compat POLICY_BASE MOD_POLICYDB_VERSION_INFINIBAND SYM_NUM (OCON_IBENDPORT + 1) SEPOL_TARGET_SELINUX;
   mk_compat POLICY_BASE MOD_POLICYDB_VERSION_GLBLUB SYM_NUM (OCON_IBENDPORT + 1) SEPOL_TARGET_SELINUX;
   mk_compat POLICY_BASE MOD_POLICYDB_VERSION_SELF_TYPETRANS SYM_NUM (OCON_IBENDPORT + 1) SEPOL_TARGET_SELINUX].

Definition compat_mod : list policydb_compat_info :=
  [mk_compat POLICY_MOD MOD_POLICYDB_VERSION_BASE SYM_NUM 0 SEPOL_TARGET_SELINUX;
   mk_compat POLICY_MOD MOD_POLICYDB_VERSION_MLS SYM_NUM 0 SEPOL_TARGET_SELINUX;
   mk_compat POLICY_MOD MOD_POLICYDB_VERSION_MLS_USERS SYM_NUM 0 SEPOL_TARGET_SELINUX;
   mk_compat POLICY_MOD MOD_POLICYDB_VERSION_POLCAP SYM_NUM 0 SEPOL_TARGET_SELINUX;
   mk_compat POLICY_MOD MOD_POLICYDB_VERSION_PERMISSIVE SYM_NUM 0 SEPOL_TARGET_SELINUX;
   mk_compat POLICY_MOD MOD_POLICYDB_VERSION_BOUNDARY SYM_NUM 0 SEPOL_TARGET_SELINUX;
   mk_compat POLICY_MOD MOD_POLICYDB_VERSION_BOUNDARY_ALIAS SYM_NUM 0 SEPOL_TARGET_SELINUX;
   mk_compat POLICY_MOD MOD_POLICYDB_VERSION_FILENAME_TRANS SYM_NUM 0 SEPOL_TARGET_SELINUX;
   mk_compat POLICY_MOD MOD_POLICYDB_VERSION_ROLETRANS SYM_NUM 0 SEPOL_TARGET_SELINUX;
   mk_compat POLICY_MOD MOD_POLICYDB_VERSION_ROLEATTRIB SYM_NUM 0 SEPOL_TARGET_SELINUX;
   mk_compat POLICY_MOD MOD_POLICYDB_VERSION_TUNABLE_SEP SYM_NUM 0 SEPOL_TARGET_SELINUX;
   mk_compat POLICY_MOD MOD_POLICYDB_VERSION_NEW_OBJECT_DEFAULTS SYM_NUM 0 SEPOL_TARGET_SELINUX;
   mk_compat POLICY_MOD MOD_POLICYDB_VERSION_DEFAULT_TYPE SYM_NUM 0 SEPOL_TARGET_SELINUX;
   mk_compat POLICY_MOD MOD_POLICYDB_VERSION_CONSTRAINT_NAMES SYM_NUM 0 SEPOL_TARGET_SELINUX;
   mk_compat POLICY_MOD MOD_POLICYDB_VERSION_XPERMS_IOCTL SYM_NUM 0 SEPOL_TARGET_SELINUX;
   mk_compat POLICY_MOD MOD_POLICYDB_VERSION_INFINIBAND SYM_NUM 0 SEPOL_TARGET_SELINUX;
   mk_compat POLICY_MOD MOD_POLICYDB_VERSION_GLBLUB SYM_NUM 0 SEPOL_TARGET_SELINUX;
   mk_compat POLICY_MOD MOD_POLICYDB_VERSION_SELF_TYPETRANS SYM_NUM 0 SEPOL_TARGET_SELINUX].

Definition policydb_compat : list policydb_compat_info := compat_kern ++ compat_base ++ compat_mod.

Definition policydb_lookup_compat (version type target_platform : Z) : option policydb_compat_info :=
  List.find (fun c => (c_version c =? version) && (c_type c =? type) && (c_target_platform c =? target_platform)) policydb_compat.

(** ** The database *)

(** "SE Linux", "XenFlask" and "SE Linux Module" *)
Definition POLICYDB_STRING : cstring := [83; 69; 32; 76; 105; 110; 117; 120].
Definition POLICYDB_XEN_STRING : cstring := [88; 101; 110; 70; 108; 97; 115; 107].
Definition POLICYDB_MOD_STRING : cstring := [83; 69; 32; 76; 105; 110; 117; 120; 32; 77; 111; 100; 117; 108; 101].
Definition policydb_target_strings : list cstring := [POLICYDB_STRING; POLICYDB_XEN_STRING].
Definition POLICYDB_STRING_MAX_LENGTH : Z := 32.
Definition POLICYDB_MAGIC : Z := 0xf97cff8c.
Definition POLICYDB_MOD_MAGIC : Z := 0xf97cff8d.
Definition POLICYDB_CONFIG_MLS : Z := 1.
Definition POLICYDB_CONFIG_UNKNOWN_MASK : Z := 6.
Definition POLICYDB_CONFIG_ANDROID_EXTRA_MASK : Z := Z.shiftl 3 30.

(** "process", "dir", "domain", "transition" and "dyntransition" *)
Definition str_process : cstring := [112; 114; 111; 99; 101; 115; 115].
Definition str_dir : cstring := [100; 105; 114].
Definition str_domain : cstring := [100; 111; 109; 97; 105; 110].
Definition str_transition : cstring := [116; 114; 97; 110; 115; 105; 116; 105; 111; 110].
Definition str_dyntransition : cstring := [100; 121; 110] ++ str_transition.

(** What the header says: the fields [policy_type], [policyvers], [mls],
    [handle_unknown], [android_extra] and [target_platform], and the sizes in
    [info]. *)
Record header := mk_header {
  h_type : Z; h_vers : Z; h_mls : bool; h_unknown : Z; h_android : Z; h_target : Z }.

(** The fields of [policydb_t] a kernel policy has.  [db_decls] are the ids of
    the declarations below [global], [db_decl_index] is [decl_val_to_struct]
    with the places of the declarations in that list.  [db_cond] is
    [te_cond_avtab] with the addresses of its nodes, [db_compat] the global
    [avtab_android_m_compat]. *)
Record policydb := mk_policydb {
  db_header : header;
  db_policycaps : ebitmap; db_permissive_map : ebitmap;
  db_symbols : symbols;
  db_process_class : Z; db_dir_class : Z; db_process_trans : Z; db_process_trans_dyntrans : Z;
  db_te_avtab : avtab; db_cond : cond_avtab; db_cond_list : list cond_node; db_compat : Z;
  db_role_tr : list role_trans; db_role_allow : list role_allow; db_filename_trans : filename_trans;
  db_decls : list Z; db_decl_index : list (option nat);
  db_class_indexes : class_indexes; db_indexes : indexes;
  db_ocontexts : list (list ocontext); db_genfs : list genfs;
  db_range_tr : option (hashtab range_trans mls_range);
  db_type_attr_map : list ebitmap; db_attr_type_map : list ebitmap;
  db_unsupported_format : Z }.

(** A computation on memory as a reader. *)
Definition of_x {A} (m : X A) : RX A := fun fp o => match m o with None => None | Some (a, o) => Some (a, fp, o) end.

Fixpoint rxfold {A S} (f : A -> S -> RX S) (l : list A) (s : S) : RX S :=
  match l with
  | [] => rxret s
  | a :: l => s <== f a s ;; rxfold f l s
  end.

(** ** Indexing the declarations *)

Definition index_decl (num_decls : Z) (b : nat * Z) (arr : list (option nat)) : X (list (option nat)) :=
  let '(pos, decl_id) := b in
  if negb (value_isvalid decl_id num_decls) then xfail else
  match arr !! Z.to_nat (decl_id - 1) with
  | None => xfault
  | Some (Some _) => xfail
  | Some None => xret (<[Z.to_nat (decl_id - 1) := Some pos]> arr)
  end.

Definition policydb_index_decls (decls : list Z) : X (list (option nat)) :=
  let num_decls := u32 (zlength decls) in
  arr <- xcalloc num_decls ;;; xfold (index_decl num_decls) (imap pair decls) arr.

(** ** Reading *)

Definition policydb_set_target_platform (platform : Z) : option Z :=
  if platform =? SEPOL_TARGET_SELINUX then Some SEPOL_TARGET_SELINUX
  else if platform =? SEPOL_TARGET_XEN then Some SEPOL_TARGET_XEN
  else None.

(** The loop over [policydb_target_strings]; the platform stays as it was
    when it is set to an unknown one. *)
Fixpoint find_target (str : cstring) (i : Z) (l : list cstring) (target : Z) : option Z :=
  match l with
  | [] => None
  | t :: l => if strcmp str t =? 0 then Some (default target (policydb_set_target_platform i)) else find_target str (i + 1) l target
  end.

(** The header of any policy, up to the sizes of the tables; [target] is
    [target_platform] before. *)
Definition policydb_read_header (target : Z) : R (header * policydb_compat_info) :=
  buf <~ rentry 8 ;;
  let magic := word32 buf 0 in
  rcheck ((magic =? POLICYDB_MAGIC) || (magic =? POLICYDB_MOD_MAGIC)) ~;
  let kern := magic =? POLICYDB_MAGIC in
  let len := word32 buf 1 in
  rcheck (negb ((len =? 0) || (POLICYDB_STRING_MAX_LENGTH <? len))) ~;
  ralloc ~;
  chars <~ rentry len ;;
  let policydb_str := cstr chars in
  target <~ (if kern then
               match find_target policydb_str 0 policydb_target_strings target with
               | None => rfail
               | Some t => rret t
               end
             else rcheck (strcmp policydb_str POLICYDB_MOD_STRING =? 0) ~; rret target) ;;
  buf <~ rentry (4 * if kern then 4 else 5) ;;
  let bufindex := if kern then 0%nat else 1%nat in
  let policy_type := if kern then POLICY_KERN else word32 buf 0 in
  rcheck (kern || (policy_type =? POLICY_MOD) || (policy_type =? POLICY_BASE)) ~;
  let r_policyvers := word32 buf bufindex in
  rcheck (if kern then (POLICYDB_VERSION_MIN <=? r_policyvers) && (r_policyvers <=? POLICYDB_VERSION_MAX)
          else (MOD_POLICYDB_VERSION_MIN <=? r_policyvers) && (r_policyvers <=? MOD_POLICYDB_VERSION_MAX)) ~;
  let config := word32 buf (bufindex + 1) in
  let h := mk_header policy_type r_policyvers (ctrue (Z.land config POLICYDB_CONFIG_MLS))
             (Z.land config POLICYDB_CONFIG_UNKNOWN_MASK) (Z.land config POLICYDB_CONFIG_ANDROID_EXTRA_MASK) target in
  match policydb_lookup_compat r_policyvers policy_type target with
  | None => rfail
  | Some info =>
      rcheck ((word32 buf (bufindex + 2) =? c_sym_num info) && (word32 buf (bufindex + 3) =? c_ocon_num info)) ~;
      rret (h, info)
  end.

(** The first [sym_num] symbol tables; the formats have 5, 6 or all 8. *)
Definition symbols_read_upto (p : pol) (sym_num : Z) (s : symbols) : R symbols :=
  commons <~ symtab_read common_read (p_commons s) ;;
  classes <~ symtab_read (class_read p (st_table commons)) (p_classes s) ;;
  roles <~ symtab_read (role_read p) (p_roles s) ;;
  types <~ symtab_read (type_read p) (p_types s) ;;
  users <~ symtab_read (user_read p) (p_users s) ;;
  bools <~ (if 5 <? sym_num then symtab_read (cond_read_bool p) (p_bools s) else rret (p_bools s)) ;;
  levels <~ (if 6 <? sym_num then symtab_read sens_read (p_levels s) else rret (p_levels s)) ;;
  cats <~ (if 7 <? sym_num then symtab_read cat_read (p_cats s) else rret (p_cats s)) ;;
  rret (mk_symbols commons classes roles types users bools levels cats).

(** [avtab_read] as a reader of table and compatibility mode. *)
Definition ravtab (a : avtab) (vers compat : Z) : R (avtab * Z) :=
  fun fp o => let '(rc, a, fp, compat, o) := avtab_read a fp vers compat o in ((if ctrue rc then None else Some (a, compat)), fp, o).

(** One turn of the loop over the types: [type_attr_map[i]] is read, its bits
    are entered into [attr_type_map], and the type is added to itself. *)
Definition type_maps_read (vers : Z) (types : symtab type_datum) (tvs : structs type_datum) (i : Z)
    (maps : list ebitmap * list ebitmap) : RX (list ebitmap * list ebitmap) :=
  e <== of_r (if POLICYDB_VERSION_AVTAB <=? vers then rebitmap else rret ebitmap_init) ;;
  atm <== of_x (if POLICYDB_VERSION_AVTAB <=? vers then
                  xbits e (fun j atm =>
                    if i =? j then xret atm
                    else if st_nprim types <=? j then xfail
                    else match atm !! Z.to_nat j with
                         | None => xfault
                         | Some m => m' <- xset m i 1 ;;; xret (<[Z.to_nat j := m']> atm)
                         end) maps.2
                else xret maps.2) ;;
  datum <== of_option (tvs !! Z.to_nat i) ;;
  e <== of_x (match datum with Some _ => xset e i 1 | None => xret e end) ;;
  atm <== of_x (match datum with
                | Some (_, d) =>
                    if negb (type_flavor d =? TYPE_ATTRIB) then
                      match atm !! Z.to_nat i with
                      | None => xfault
                      | Some m => m' <- xset m i 1 ;;; xret (<[Z.to_nat i := m']> atm)
                      end
                    else xret atm
                | None => xret atm
                end) ;;
  rxret (<[Z.to_nat i := e]> maps.1, atm).

Definition xcalloc_maps (n : Z) : X (list ebitmap) :=
  fun o => let '(ok, o) := malloc o in Some ((if ok then Some (replicate (Z.to_nat n) ebitmap_init) else None), o).

Section Read.
Context (signed : bool).

Definition pol_of (h : header) : pol := mk_pol (h_type h) (h_vers h) signed.

Definition process_class_of (target : Z) (s : symbols) (before : Z) : Z :=
  if target =? SEPOL_TARGET_SELINUX then policydb_string_to_security_class s str_process
  else if target =? SEPOL_TARGET_XEN then policydb_string_to_security_class s str_domain
  else before.

(** The sections with rules, behind the symbols [s]. *)
Record rules := mk_rules {
  ru_te : avtab; ru_cond_list : list cond_node; ru_cond : cond_avtab; ru_compat : Z;
  ru_role_tr : list role_trans; ru_role_allow : list role_allow; ru_filename_trans : filename_trans }.

Definition policydb_read_rules (db : policydb) (h : header) (s : symbols) (process_class : Z) : R rules :=
  let p := pol_of h in
  let vers := h_vers h in
  te <~ ravtab (db_te_avtab db) vers (db_compat db) ;;
  conds <~ (if POLICYDB_VERSION_BOOL <=? vers
            then cond_read_list vers (st_nprim (p_bools s)) te.1 (db_cond db) te.2
            else rret (db_cond_list db, (db_cond db, te.2))) ;;
  role_tr <~ role_trans_read p process_class ;;
  role_allow <~ role_allow_read ;;
  ft <~ (if POLICYDB_VERSION_FILENAME_TRANS <=? vers then filename_trans_read p (db_filename_trans db)
         else rret (db_filename_trans db)) ;;
  rret (mk_rules te.1 conds.1 conds.2.1 conds.2.2 role_tr role_allow ft).

(** The indexes, and the sections that are checked against them. *)
Record labels := mk_labels {
  la_decl_index : list (option nat); la_class_indexes : class_indexes; la_trans : Z; la_dyntrans : Z;
  la_indexes : indexes; la_ocontexts : list (list ocontext); la_genfs : list genfs;
  la_range_tr : option (hashtab range_trans mls_range); la_maps : list ebitmap * list ebitmap }.

Definition policydb_read_labels (db : policydb) (h : header) (info : policydb_compat_info) (s : symbols) (process_class : Z) : RX labels :=
  let p := pol_of h in
  let vers := h_vers h in
  decl_index <== of_x (policydb_index_decls (db_decls db)) ;;
  ci <== of_x (policydb_index_classes s) ;;
  trans <== of_option (policydb_string_to_av_perm s ci process_class str_transition) ;;
  dyntrans <== of_option (policydb_string_to_av_perm s ci process_class str_dyntransition) ;;
  ix <== of_x (policydb_index_others p (h_mls h) s) ;;
  ocontexts <== ocontext_read p (h_mls h) s ix (h_target h) (c_ocon_num info) ;;
  genfs <== genfs_read p (h_mls h) s ix (db_genfs db) ;;
  range_tr <== of_r (if POLICYDB_VERSION_MLS <=? vers
                     then r <~ range_read p process_class (st_nprim (p_types s)) (st_nprim (p_classes s)) (db_range_tr db) ;; rret r.1
                     else rret (db_range_tr db)) ;;
  type_attr_map <== of_x (xcalloc_maps (st_nprim (p_types s))) ;;
  attr_type_map <== of_x (xcalloc_maps (st_nprim (p_types s))) ;;
  maps <== rxfold (type_maps_read vers (p_types s) (ix_types ix).2) (seqZ 0 (st_nprim (p_types s))) (type_attr_map, attr_type_map) ;;
  rxret (mk_labels decl_index ci trans dyntrans ix ocontexts genfs range_tr maps).

(** A kernel policy behind its header, into [db]. *)
Definition policydb_read_kern (db : policydb) (h : header) (info : policydb_compat_info) : RX policydb :=
  let vers := h_vers h in
  let target := h_target h in
  policycaps <== of_r (if POLICYDB_VERSION_POLCAP <=? vers then rebitmap else rret (db_policycaps db)) ;;
  permissive_map <== of_r (if POLICYDB_VERSION_PERMISSIVE <=? vers then rebitmap else rret (db_permissive_map db)) ;;
  s <== of_r (symbols_read_upto (pol_of h) (c_sym_num info) (db_symbols db)) ;;
  let process_class := process_class_of target s (db_process_class db) in
  let dir_class := if target =? SEPOL_TARGET_SELINUX then policydb_string_to_security_class s str_dir else db_dir_class db in
  r <== of_r (policydb_read_rules db h s process_class) ;;
  l <== policydb_read_labels db h info s process_class ;;
  rxret (mk_policydb h policycaps permissive_map s process_class dir_class (la_trans l) (Z.lor (la_trans l) (la_dyntrans l))
           (ru_te r) (ru_cond r) (ru_cond_list r) (ru_compat r) (ru_role_tr r) (ru_role_allow r) (ru_filename_trans r)
           (db_decls db) (la_decl_index l) (la_class_indexes l) (la_indexes l) (la_ocontexts l) (la_genfs l) (la_range_tr l)
           (la_maps l).1 (la_maps l).2 (db_unsupported_format db)).
End Read.

(** [policydb_read] on the image of a kernel policy.  What follows the header
    of a module is not modelled: there is no result ([None]), as where the code
    goes wrong. *)
Definition policydb_read (signed : bool) (db : policydb) : RX policydb :=
  h <== of_r (policydb_read_header (h_target (db_header db))) ;;
  if h_type h.1 =? POLICY_KERN then policydb_read_kern signed db h.1 h.2 else of_option None.

(** ** Writing *)

(** What [policydb_write] announces in the header. *)
Definition config_of (h : header) : Z :=
  Z.lor (Z.lor (if h_mls h then POLICYDB_CONFIG_MLS else 0) (Z.land POLICYDB_CONFIG_UNKNOWN_MASK (h_unknown h)))
    (Z.land POLICYDB_CONFIG_ANDROID_EXTRA_MASK (h_android h)).

(** [p->mls] in a format without MLS. *)
Definition mls_unsupported (h : header) : bool :=
  h_mls h &&
  (((h_vers h <? POLICYDB_VERSION_MLS) && (h_type h =? POLICY_KERN)) ||
   ((h_vers h <? MOD_POLICYDB_VERSION_MLS) && (h_type h =? POLICY_BASE)) ||
   ((h_vers h <? MOD_POLICYDB_VERSION_MLS) && (h_type h =? POLICY_MOD))).

(** Magic number and identifier, then version, flags and sizes of any policy;
    [k] writes the rest, in the format found. *)
Definition policydb_write_header (h : header) (k : policydb_compat_info -> W) : W :=
  if mls_unsupported h then wfail else
  let kern := h_type h =? POLICY_KERN in
  match (if kern then policydb_target_strings !! Z.to_nat (h_target h) else Some POLICYDB_MOD_STRING) with
  | None => wfail
  | Some policydb_str =>
      wwords [if kern then POLICYDB_MAGIC else POLICYDB_MOD_MAGIC; u32 (zlength policydb_str)] ~>
      (wstr policydb_str ~>
      (match policydb_lookup_compat (h_vers h) (h_type h) (h_target h) with
       | None => wfail
       | Some info =>
           wwords ((if kern then [] else [h_type h]) ++ [h_vers h; config_of h; c_sym_num info; c_ocon_num info]) ~> k info
       end))
  end.

(** The first [sym_num] symbol tables. *)
Definition symbols_write_upto (p : pol) (sym_num : Z) (s : symbols) : W :=
  let types_nel := if (pol_vers p <? POLICYDB_VERSION_BOUNDARY) && is_kern p
                   then snd (hashtab_map (st_table (p_types s)) type_attr_uncount (nel_of (st_table (p_types s))))
                   else nel_of (st_table (p_types s)) in
  let roles_nel := if is_kern p || (negb (is_kern p) && (pol_vers p <? MOD_POLICYDB_VERSION_ROLEATTRIB))
                   then snd (hashtab_map (st_table (p_roles s)) role_attr_uncount (nel_of (st_table (p_roles s))))
                   else nel_of (st_table (p_roles s)) in
  symtab_write (p_commons s) (nel_of (st_table (p_commons s))) common_write ~>
  (symtab_write (p_classes s) (nel_of (st_table (p_classes s))) (class_write p) ~>
  (symtab_write (p_roles s) roles_nel (role_write p) ~>
  (symtab_write (p_types s) types_nel (type_write p) ~>
  (symtab_write (p_users s) (nel_of (st_table (p_users s))) (user_write p) ~>
  ((if 5 <? sym_num then symtab_write (p_bools s) (nel_of (st_table (p_bools s))) (cond_write_bool p) else wdone) ~>
  ((if 6 <? sym_num then symtab_write (p_levels s) (nel_of (st_table (p_levels s))) sens_write else wdone) ~>
  (if 7 <? sym_num then symtab_write (p_cats s) (nel_of (st_table (p_cats s))) cat_write else wdone))))))).

Section Write.
Context (signed : bool).

(** A kernel policy behind its header. *)
Definition policydb_write_kern (db : policydb) (info : policydb_compat_info) : W :=
  let h := db_header db in
  let p := pol_of signed h in
  let vers := h_vers h in
  let wp := mk_write_params vers (h_target h) in
  let s := db_symbols db in
  (if POLICYDB_VERSION_POLCAP <=? vers then ebitmap_write (db_policycaps db) else wdone) ~>
  ((if POLICYDB_VERSION_PERMISSIVE <=? vers then ebitmap_write (db_permissive_map db) else wdone) ~>
  (symbols_write_upto p (c_sym_num info) s ~>
  (avtab_write wp (db_compat db) (db_te_avtab db) ~>
  ((if vers <? POLICYDB_VERSION_BOOL then wdone
    else cond_write_list wp (db_compat db) (ct_heap (db_cond db)) (db_cond_list db)) ~>
  (role_trans_write p (db_process_class db) (db_role_tr db) ~>
  (role_allow_write (db_role_allow db) ~>
  ((if POLICYDB_VERSION_FILENAME_TRANS <=? vers then filename_trans_write p (db_filename_trans db) else wdone) ~>
  (ocontext_write p (h_target h) (c_ocon_num info) (db_ocontexts db) ~>
  (genfs_write p (db_genfs db) ~>
  ((if POLICYDB_VERSION_MLS <=? vers then range_write p (db_process_class db) (db_range_tr db) else wdone) ~>
  ((if POLICYDB_VERSION_AVTAB <=? vers then wlist ebitmap_write (ztake (st_nprim (p_types s)) (db_type_attr_map db)) else wdone) ~> wdone))))))))))).
End Write.

Definition POLICYDB_UNSUPPORTED : Z := -2.

(** [policydb_write] of a kernel policy of version 20 or later. *)
Definition policydb_write (signed : bool) (db : policydb) : W :=
  fun fp => if ctrue (db_unsupported_format db) then (POLICYDB_UNSUPPORTED, fp)
            else policydb_write_header (db_header db) (policydb_write_kern signed db) fp.
