(* ===== verification/PolicydbIO.v ===== *)
(** * PolicydbIO: the frame of a policy, piece by piece

    Triples for readers that can go wrong, the header, the access vector table
    and the maps between types and attributes as codecs. *)
From Stdlib Require Import ZArith Lia Bool.
From stdpp Require Import base option list list_numbers gmap sets.
From S2P Require Import Prelude PolicyFile Ebitmap EbitmapThms EbitmapRange EbitmapIO Hashtab HashtabThms Symtab Avtab AvtabThms AvtabIO Cond Codec Symbols SymCodec SymbolsIO SymbolsThms Trans TransIO TransIns TransRT TransFt TransThms Index IndexThms ExpandThms IndexAll Contexts ContextsIO ContextsValid CondIO CondIOThms Policydb.

#[local] Arguments words32 : simpl never.

(** ** Triples *)

Lemma rreads_of_x {A} (m : X A) Q : xok m Q -> rreads (of_x m) [] Q.
Proof.
  intros H fp rest o Hfp M Hd. destruct (xok_elim m Q o H M) as (a & o' & E & M' & Ha). exists a, o'. unfold of_x. rewrite E.
  rewrite app_nil_l in Hd. by rewrite <- Hd, with_data_same.
Qed.

Lemma rreads_fold {A S} (f : A -> S -> RX S) (img : A -> list Z) (l : list A) (Inv : list A -> S -> Prop) s :
  Inv [] s ->
  (forall done x todo s, l = done ++ x :: todo -> Inv done s -> rreads (f x s) (img x) (Inv (done ++ [x]))) ->
  rreads (rxfold f l s) (concat (map img l)) (Inv l).
Proof.
  intros H0 Hstep. cut (forall todo done s, l = done ++ todo -> Inv done s ->
    rreads (rxfold f todo s) (concat (map img todo)) (Inv l)).
  { intros H. by apply (H l []). }
  induction todo as [|x todo IH]; intros done s' Hl Hi.
  - rewrite app_nil_r in Hl. subst done. by apply rreads_ret.
  - cbn [rxfold map concat]. eapply rreads_bind; [by eapply Hstep|].
    intros s1 Hs1. apply (IH (done ++ [x])); [|done]. by rewrite <- app_assoc.
Qed.

(** ** The header *)

(** A header of a kernel policy for SELinux whose flags are flags. *)
Definition header_ok (h : header) : Prop :=
  h_type h = POLICY_KERN /\ h_target h = SEPOL_TARGET_SELINUX /\
  POLICYDB_VERSION_CONSTRAINT_NAMES <= h_vers h <= POLICYDB_VERSION_MAX /\
  h_unknown h ∈ [0; 2; 4; 6] /\ h_android h ∈ map (fun x => Z.shiftl x 30) [0; 1; 2; 3].

Definition header_image (h : header) (info : policydb_compat_info) : list Z :=
  words32 [POLICYDB_MAGIC; zlength POLICYDB_STRING] ++ POLICYDB_STRING ++
  words32 [h_vers h; config_of h; c_sym_num info; c_ocon_num info].

(** The format of a version: infiniband brought two more kinds of objects. *)
Definition compat_of (vers : Z) : policydb_compat_info :=
  mk_compat POLICY_KERN vers SYM_NUM (if vers <? POLICYDB_VERSION_INFINIBAND then OCON_NODE6 + 1 else OCON_IBENDPORT + 1) SEPOL_TARGET_SELINUX.

Lemma vers_cases v (P : Z -> Prop) :
  POLICYDB_VERSION_CONSTRAINT_NAMES <= v <= POLICYDB_VERSION_MAX -> P 29 -> P 30 -> P 31 -> P 32 -> P 33 -> P v.
Proof.
  unfold POLICYDB_VERSION_CONSTRAINT_NAMES, POLICYDB_VERSION_MAX, POLICYDB_VERSION_COMP_FTRANS. intros H **.
  assert (v = 29 \/ v = 30 \/ v = 31 \/ v = 32 \/ v = 33) as [-> | [-> | [-> | [-> | ->]]]] by lia; done.
Qed.

Lemma compat_found h : header_ok h -> policydb_lookup_compat (h_vers h) (h_type h) (h_target h) = Some (compat_of (h_vers h)).
Proof. intros (-> & -> & Hv & _). by apply (vers_cases _ (fun v => policydb_lookup_compat v POLICY_KERN SEPOL_TARGET_SELINUX = Some (compat_of v))). Qed.

(** The flags are read back. *)
Lemma config_flags h :
  header_ok h ->
  in_range 32 (config_of h) /\ ctrue (Z.land (config_of h) POLICYDB_CONFIG_MLS) = h_mls h /\
  Z.land (config_of h) POLICYDB_CONFIG_UNKNOWN_MASK = h_unknown h /\
  Z.land (config_of h) POLICYDB_CONFIG_ANDROID_EXTRA_MASK = h_android h.
Proof.
  intros (_ & _ & _ & Hu & Ha). unfold config_of. destruct h as [ty v m u a tg]. cbn [h_mls h_unknown h_android] in *.
  assert (forall u0 a0, u0 ∈ [0; 2; 4; 6] -> a0 ∈ [0; 2 ^ 30; 2 ^ 31; 2 ^ 30 + 2 ^ 31] ->
    let c := Z.lor (Z.lor (if m then POLICYDB_CONFIG_MLS else 0) (Z.land POLICYDB_CONFIG_UNKNOWN_MASK u0)) (Z.land POLICYDB_CONFIG_ANDROID_EXTRA_MASK a0) in
    in_range 32 c /\ ctrue (Z.land c POLICYDB_CONFIG_MLS) = m /\ Z.land c POLICYDB_CONFIG_UNKNOWN_MASK = u0 /\
    Z.land c POLICYDB_CONFIG_ANDROID_EXTRA_MASK = a0) as H; [|by apply H].
  intros u0 a0 Hu0 Ha0. set_unfold in Hu0. set_unfold in Ha0.
  destruct m; destruct_or?; subst; vm_compute; done.
Qed.

Lemma writes_header h k img :
  header_ok h -> writes (k (compat_of (h_vers h))) img ->
  writes (policydb_write_header h k) (header_image h (compat_of (h_vers h)) ++ img).
Proof.
  intros Hh Hk. pose proof Hh as (Ht & Htg & Hv & _). unfold policydb_write_header, mls_unsupported, header_image. rewrite compat_found by done.
  rewrite Ht, Htg. unfold POLICYDB_VERSION_CONSTRAINT_NAMES, POLICYDB_VERSION_MLS in *.
  destruct (Z.ltb_spec (h_vers h) 19); [lia|]. cbn [Z.eqb POLICY_KERN POLICY_BASE POLICY_MOD andb orb]. rewrite !andb_false_r. cbn [orb].
  rewrite <- !app_assoc. apply writes_seq; [apply writes_words|]. apply writes_seq; [apply writes_str|].
  apply writes_seq; [apply writes_words|done].
Qed.

Lemma reads_header h target :
  header_ok h -> reads (policydb_read_header target) (header_image h (compat_of (h_vers h))) (eq (h, compat_of (h_vers h))).
Proof.
  intros Hh. pose proof Hh as (Ht & Htg & Hv & _). destruct (config_flags h Hh) as (Hr & Hm & Hu & Ha).
  assert (in_range 32 (h_vers h)) by (unfold in_range, POLICYDB_VERSION_MAX, POLICYDB_VERSION_COMP_FTRANS, POLICYDB_VERSION_CONSTRAINT_NAMES in *; lia).
  unfold policydb_read_header, header_image.
  apply reads_words; [done|]. rewrite !(word32_at _ 0 POLICYDB_MAGIC), !(word32_at _ 1 (zlength POLICYDB_STRING)) by done.
  apply reads_check; [done|]. apply reads_check; [done|]. apply reads_alloc.
  eapply reads_bind; [apply (reads_entry POLICYDB_STRING); done|]. intros ? <-. cbv zeta.
  eapply reads_step; [apply (reads_ret SEPOL_TARGET_SELINUX (eq SEPOL_TARGET_SELINUX)); done|]. intros ? <-.
  rewrite <- (app_nil_r (words32 _)). apply reads_words; [done|]. cbn [Z.eqb POLICYDB_MAGIC Pos.eqb Nat.add].
  rewrite !(word32_at _ 0 (h_vers h)), !(word32_at _ 1 (config_of h)) by done. apply reads_check; [done|].
  apply reads_check; [apply andb_true_intro; unfold POLICYDB_VERSION_MIN, POLICYDB_VERSION_BASE, POLICYDB_VERSION_CONSTRAINT_NAMES in *; split; apply Z.leb_le; lia|].
  rewrite <- Ht, <- Htg, compat_found by done.
  assert (in_range 32 (c_ocon_num (compat_of (h_vers h)))) by (unfold compat_of; cbn [c_ocon_num]; by destruct (_ <? _)).
  rewrite (word32_at _ 2 SYM_NUM), (word32_at _ 3 (c_ocon_num (compat_of (h_vers h)))) by done. rewrite !Z.eqb_refl. apply reads_check; [done|].
  apply reads_ret. rewrite Hm, Hu, Ha. by destruct h.
Qed.

(** ** The access vector table *)

Lemma writes_avtab wp compat a :
  avtab_ok a -> Forall (item_writable (policyvers wp) compat) (nodes_of a) -> target_platform wp = SEPOL_TARGET_SELINUX ->
  writes (avtab_write wp compat a) (avtab_image compat a).
Proof. intros Hok Hall Ht fp Hr. by apply avtab_write_image. Qed.

Lemma reads_avtab vers compat a a0 :
  avtab_ok a -> nodes_of a <> [] -> av_nel a < 2 ^ 32 - 1 -> no_duplicates [] (nodes_of a) ->
  Forall (item_writable vers compat) (nodes_of a) -> compat = 0 \/ compat = 1 -> POLICYDB_VERSION_AVTAB <= vers ->
  reads (ravtab a0 vers compat) (avtab_image compat a) (fun r => r.2 = compat /\ avtab_ok r.1 /\ nodes_of r.1 ≡ₚ nodes_of a).
Proof.
  intros Hok Hne Hnel Hnd Hall Hc Hv fp rest o Hfp M Hd.
  destruct (avtab_read_image vers compat a a0 fp rest o Hok Hne Hnel Hnd Hall Hc Hv Hfp M Hd) as (a' & o' & E & M' & Hok' & Hp).
  exists (a', compat), o'. unfold ravtab. by rewrite E.
Qed.

(** ** The maps between types and attributes *)

(** On well-formed bitmaps the set determines the bitmap. *)
Lemma ebitmap_ok_eq e1 e2 : ebitmap_ok e1 -> ebitmap_ok e2 -> ebitmap_set e1 = ebitmap_set e2 -> e1 = e2.
Proof.
  intros [H1 Hh1] [H2 Hh2] Hs. rewrite ebitmap_set_ext in Hs. pose proof (nodes_canonical _ _ _ _ H1 H2 Hs) as Heq.
  destruct e1 as [n1 h1], e2 as [n2 h2]. simpl in *. by subst.
Qed.

Section Maps.
Context (types : symtab type_datum) (tvs : structs type_datum).
Context (Hn : 0 <= st_nprim types <= 2 ^ 32 - 64) (Htvs : length tvs = Z.to_nat (st_nprim types)).

(** What is stored: a map for every value, of values, with the type in its
    own map. *)
Definition type_map_ok (tam : list ebitmap) : Prop :=
  zlength tam = st_nprim types /\
  forall i e, tam !! i = Some e -> ebitmap_ok e /\ (forall b, b ∈ ebitmap_set e -> b < st_nprim types) /\
    (forall kd, tvs !! i = Some (Some kd) -> Z.of_nat i ∈ ebitmap_set e).

(** [i] is a type, not an attribute. *)
Definition plain_type (i : Z) : Prop := exists k d, tvs !! Z.to_nat i = Some (Some (k, d)) /\ type_flavor d <> TYPE_ATTRIB.

(** The pairs of the map, turned around; [seen] are the values gone through. *)
Definition turned (tam : list ebitmap) (seen : Z -> Prop) (atm : list ebitmap) : Prop :=
  length atm = Z.to_nat (st_nprim types) /\
  forall j m, atm !! j = Some m -> ebitmap_ok m /\
    forall i, i ∈ ebitmap_set m <-> 0 <= i < st_nprim types /\ seen i /\
      if decide (i = Z.of_nat j) then plain_type i else exists e, tam !! Z.to_nat i = Some e /\ Z.of_nat j ∈ ebitmap_set e.

Definition attr_map_of (tam atm : list ebitmap) : Prop := turned tam (fun _ => True) atm.

Lemma attr_map_unique tam atm atm' : attr_map_of tam atm -> attr_map_of tam atm' -> atm = atm'.
Proof using Type.
  clear Hn Htvs. intros [Hl H] [Hl' H']. apply list_eq. intros j. destruct (atm !! j) as [m|] eqn:E, (atm' !! j) as [m'|] eqn:E'; try done.
  - destruct (H j m E) as [Hm Hb], (H' j m' E') as [Hm' Hb']. f_equal. apply ebitmap_ok_eq; [done..|]. apply set_eq. intros b. by rewrite Hb, Hb'.
  - apply lookup_lt_Some in E. apply lookup_ge_None in E'. lia.
  - apply lookup_lt_Some in E'. apply lookup_ge_None in E. lia.
Qed.

(** [atm'] is [atm] with bit [i] set in the maps [P]. *)
Definition marks (i : Z) (P : Z -> Prop) (atm atm' : list ebitmap) : Prop :=
  length atm' = length atm /\
  forall j m', atm' !! j = Some m' -> exists m, atm !! j = Some m /\ ebitmap_ok m' /\
    forall b, b ∈ ebitmap_set m' <-> b ∈ ebitmap_set m \/ (b = i /\ P (Z.of_nat j)).

Lemma marks_none i atm : Forall ebitmap_ok atm -> marks i (fun _ => False) atm atm.
Proof using Type.
  clear Hn Htvs. intros H. split; [done|]. intros j m Hm. exists m. split; [done|]. split; [by eapply Forall_lookup_1|]. tauto.
Qed.

Lemma marks_trans i (P Q : Z -> Prop) a b c : marks i P a b -> marks i Q b c -> marks i (fun j => P j \/ Q j) a c.
Proof using Type.
  clear Hn Htvs. intros [Hl H] [Hl' H']. split; [lia|]. intros j m3 H3. destruct (H' j m3 H3) as (m2 & H2 & Hok & Hb2).
  destruct (H j m2 H2) as (m1 & H1 & _ & Hb1). exists m1. split_and!; [done..|]. intros x. rewrite Hb2, Hb1. tauto.
Qed.

Lemma marks_mono i (P Q : Z -> Prop) a b : (forall j, P j <-> Q j) -> marks i P a b -> marks i Q a b.
Proof using Type.
  clear Hn Htvs. intros HPQ [Hl H]. split; [done|]. intros j m' Hm. destruct (H j m' Hm) as (m & ? & ? & Hb). exists m. split_and!; [done..|].
  intros x. by rewrite Hb, HPQ.
Qed.

Lemma marks_ok i P a b : marks i P a b -> Forall ebitmap_ok b.
Proof using Type. clear Hn Htvs. intros [_ H]. apply Forall_lookup. intros j m Hm. by destruct (H j m Hm) as (? & _ & ? & _). Qed.

(** One more map is turned around. *)
Lemma turned_step tam (seen : list Z) i e am am' :
  turned tam (fun x => x ∈ seen) am -> i ∉ seen -> 0 <= i < st_nprim types -> tam !! Z.to_nat i = Some e ->
  marks i (fun j => if decide (i = j) then plain_type i else j ∈ ebitmap_set e) am am' -> turned tam (fun x => x ∈ seen ++ [i]) am'.
Proof using Type.
  clear Hn Htvs. intros [Hla Hat] Hns Hi He [Hl' Hm]. split; [lia|]. intros j m' Hm'. destruct (Hm j m' Hm') as (m & Hj & Hok & Hb).
  destruct (Hat j m Hj) as [_ Hbm]. split; [done|]. intros b. rewrite Hb, Hbm. destruct (decide (b = i)) as [->|Hne].
  - split; [intros [(_ & ? & _)|[_ Hx]]; [done|]|intros (_ & _ & Hx); right; split; [done|]].
    + split; [done|]. split; [set_solver|]. destruct (decide (i = Z.of_nat j)); [done|]. eauto.
    + destruct (decide (i = Z.of_nat j)); [done|]. destruct Hx as (e' & He' & ?). congruence.
  - split; [intros [(? & ? & ?)|[? _]]; [|done]|intros (? & Hs & ?); left]; split_and!; try done; set_solver.
Qed.

(** The maps not turned yet do not matter. *)
Lemma turned_update tam tam' (seen : Z -> Prop) am :
  (forall i, seen i -> 0 <= i -> tam' !! Z.to_nat i = tam !! Z.to_nat i) -> turned tam seen am -> turned tam' seen am.
Proof using Type.
  clear Hn Htvs. intros Hs [Hl H]. split; [done|]. intros j m Hm. destruct (H j m Hm) as [Hok Hb]. split; [done|]. intros i. rewrite Hb.
  split; intros (Hi & Hsi & Hx); (split; [done|]); (split; [done|]); destruct (decide _); try done; [rewrite Hs by (done || lia)|rewrite <- Hs by (done || lia)]; done.
Qed.

(** At the end all have been. *)
Lemma turned_all tam am : turned tam (fun x => x ∈ seqZ 0 (st_nprim types)) am -> attr_map_of tam am.
Proof using Type.
  clear Hn Htvs. intros [Hla Hat]. split; [done|]. intros j m Hm. destruct (Hat j m Hm) as [Hok Hb]. split; [done|]. intros i. rewrite Hb, elem_of_seqZ.
  split; [intros (? & _ & ?)|intros (? & _ & ?)]; split_and!; done || lia.
Qed.

Lemma turned_none tam : turned tam (fun x => x ∈ []) (replicate (Z.to_nat (st_nprim types)) ebitmap_init).
Proof using Type.
  clear Hn Htvs. split; [by rewrite length_replicate|]. intros j m [-> Hj]%lookup_replicate. split; [done|]. intros i.
  split; [intros Hi; by vm_compute in Hi|]. intros (_ & Hi & _). by apply elem_of_nil in Hi.
Qed.

Lemma xok_mark {strict} i j atm :
  0 <= i < 2 ^ 32 - 64 \/ strict = false /\ in_range 32 i -> 0 <= j < zlength atm -> Forall ebitmap_ok atm ->
  xruns strict (match atm !! Z.to_nat j with
       | None => xfault
       | Some m => m' <- xset m i 1 ;;; xret (<[Z.to_nat j := m']> atm)
       end) (marks i (eq j) atm).
Proof using Type.
  clear Hn Htvs. intros Hi Hj Hall. unfold zlength in Hj. destruct (lookup_lt_is_Some_2 atm (Z.to_nat j)) as [m Hm]; [lia|]. rewrite Hm.
  pose proof (Forall_lookup_1 _ _ _ _ Hall Hm) as Hok. eapply xok_bind; [by apply xok_set|]. intros m' [Hm' Hs]. apply xok_ret.
  split; [by rewrite length_insert|]. intros j' m2 H2. destruct (decide (Z.to_nat j = j')) as [<-|Hne].
  - rewrite list_lookup_insert_eq in H2 by lia. simplify_eq. exists m. split_and!; [done..|]. intros b. rewrite Hs. simpl. set_unfold.
    rewrite Z2Nat.id by lia. tauto.
  - rewrite list_lookup_insert_ne in H2 by done. exists m2. split_and!; [done|by eapply Forall_lookup_1|]. intros b. split; [by left|].
    intros [?|[_ Hj']]; [done|]. subst j. by rewrite Nat2Z.id in Hne.
Qed.

(** The loop over the bits of one map. *)
Lemma xok_mark_bits {strict} i e atm :
  0 <= i < 2 ^ 32 - 64 \/ strict = false /\ in_range 32 i -> ebitmap_ok e ->
  (strict = true -> forall b, b ∈ ebitmap_set e -> b < st_nprim types) ->
  zlength atm = st_nprim types -> Forall ebitmap_ok atm ->
  xruns strict (xbits e (fun j atm =>
         if i =? j then xret atm
         else if st_nprim types <=? j then xfail
         else match atm !! Z.to_nat j with
              | None => xfault
              | Some m => m' <- xset m i 1 ;;; xret (<[Z.to_nat j := m']> atm)
              end) atm)
    (fun atm' => marks i (fun j => j ∈ ebitmap_set e /\ j <> i) atm atm' /\ forall b, b ∈ ebitmap_set e -> b = i \/ b < st_nprim types).
Proof using Type.
  clear Hn Htvs. intros Hi He Hb Hl Hall. unfold xbits. rewrite for_each_bits by done.
  eapply xok_mono; [apply (xok_fold _ (nodes_bits (node e)) (fun seen atm' => marks i (fun j => j ∈ seen /\ j <> i) atm atm' /\ forall b, b ∈ seen -> b = i \/ b < st_nprim types))|].
  - split; [|by intros b Hb0%elem_of_nil]. eapply marks_mono; [|by apply marks_none]. intros j. split; [done|]. intros [H _]. by apply elem_of_nil in H.
  - intros seen j todo atm1 El [Hm Hseen]. assert (Hj : j ∈ ebitmap_set e) by (apply elem_of_bits; rewrite El; set_solver).
    pose proof (bits_range e j He Hj). destruct (Z.eqb_spec i j) as [<-|Hne].
    + apply xok_ret. split; [|intros b; set_solver]. eapply marks_mono; [|exact Hm]. intros b. set_solver.
    + destruct (Z.leb_spec (st_nprim types) j).
      { apply xok_fail. apply not_true_is_false. intros Hs. specialize (Hb Hs j Hj). lia. }
      eapply xok_mono; [apply xok_mark; [done| |by eapply marks_ok]|].
      * destruct Hm as [Hlen _]. unfold zlength in *. rewrite Hlen. lia.
      * intros atm2 H2. split; [|intros b; set_solver]. eapply marks_mono; [|by eapply marks_trans]. intros b. set_solver.
  - intros atm' [H Hs]. split; [|intros b Hin; apply Hs; by apply elem_of_bits]. eapply marks_mono; [|exact H]. intros j. cbn beta. by rewrite elem_of_bits.
Qed.

Context (vers : Z) (Hvers : POLICYDB_VERSION_AVTAB <= vers).

(** One turn: the map of [i], as it is stored, turned around. *)
Lemma reads_type_map tam i e atm tam0 :
  type_map_ok tam -> 0 <= i < st_nprim types -> tam !! Z.to_nat i = Some e -> zlength atm = st_nprim types -> Forall ebitmap_ok atm ->
  rreads (type_maps_read vers types tvs i (tam0, atm)) (ebitmap_image e)
    (fun m => m.1 = <[Z.to_nat i := e]> tam0 /\ marks i (fun j => if decide (i = j) then plain_type i else j ∈ ebitmap_set e) atm m.2).
Proof using Hn Htvs Hvers.
  intros [Hl Htam] Hi He Hla Hall. destruct (Htam _ _ He) as (Hok & Hb & Hself). unfold type_maps_read.
  rewrite (proj2 (Z.leb_le _ _) Hvers). eapply rreads_last; [by apply rreads_of_r, reads_ebitmap|]. intros ? <-.
  assert (Hroom : 0 <= i < 2 ^ 32 - 64) by lia.
  eapply rreads_step; [apply rreads_of_x, xok_mark_bits; [by left|done..]|]. intros atm1 [H1 _]. cbn [fst snd].
  destruct (lookup_lt_is_Some_2 tvs (Z.to_nat i)) as [datum Hd]; [lia|].
  eapply rreads_step; [by apply rreads_of_option|]. intros ? <-.
  eapply (rreads_step _ _ _ (eq e)).
  { apply rreads_of_x. destruct datum as [kd|]; [|by apply xok_ret]. eapply xok_mono; [apply xok_set; [done|lia]|]. intros e' [He' Hs].
    apply ebitmap_ok_eq; [done..|]. rewrite Hs. specialize (Hself kd Hd). rewrite Z2Nat.id in Hself by lia. simpl. set_solver. }
  intros ? <-. eapply rreads_step; [|intros atm2 H2; apply rreads_ret; split; [done|exact H2]]. apply rreads_of_x. cbn [snd].
  assert (Hno : ~ plain_type i -> marks i (fun j => if decide (i = j) then plain_type i else j ∈ ebitmap_set e) atm atm1).
  { intros Hp. eapply marks_mono; [|exact H1]. intros j. cbn beta. destruct (decide (i = j)) as [<-|Hne]; [tauto|]. assert (j <> i) by congruence. tauto. }
  assert (Hplain : plain_type i <-> match datum with Some (_, d) => type_flavor d <> TYPE_ATTRIB | None => False end).
  { unfold plain_type. rewrite Hd. destruct datum as [[k d]|]; naive_solver. }
  destruct datum as [[k d]|]; [|apply xok_ret, Hno; intros H; by apply Hplain in H].
  destruct (Z.eqb_spec (type_flavor d) TYPE_ATTRIB); cbn [negb]; [apply xok_ret, Hno; intros H; by apply Hplain in H|].
  eapply xok_mono; [apply xok_mark; [by left| |by eapply marks_ok]|].
  - destruct H1 as [Hl1 _]. unfold zlength in *. rewrite Hl1. simpl. lia.
  - intros atm2 H2. eapply marks_mono; [|by eapply marks_trans]. intros j. cbn beta.
    destruct (decide (i = j)) as [<-|Hne]; [tauto|]. assert (j <> i) by congruence. tauto.
Qed.

Lemma index_images (tam : list ebitmap) :
  concat (map (fun i => ebitmap_image (default ebitmap_init (tam !! Z.to_nat i))) (seqZ 0 (zlength tam))) = concat (map ebitmap_image tam).
Proof using Type.
  clear Hn Htvs Hvers. f_equal. match goal with |- map ?f ?l = map ?g ?k => change (f <$> l = g <$> k) end. apply list_eq. intros i.
  rewrite !list_lookup_fmap. unfold zlength. destruct (tam !! i) as [e|] eqn:E.
  - rewrite lookup_seqZ_lt by (apply lookup_lt_Some in E; lia). simpl. by rewrite Z.add_0_l, Nat2Z.id, E.
  - rewrite lookup_seqZ_ge; [done|]. apply lookup_ge_None in E. lia.
Qed.

Lemma reads_type_maps tam :
  type_map_ok tam ->
  rreads (rxfold (type_maps_read vers types tvs) (seqZ 0 (st_nprim types))
            (replicate (Z.to_nat (st_nprim types)) ebitmap_init, replicate (Z.to_nat (st_nprim types)) ebitmap_init))
    (concat (map ebitmap_image tam)) (fun m => m.1 = tam /\ attr_map_of tam m.2).
Proof using Hn Htvs Hvers.
  intros Htam. pose proof Htam as [Hl _]. rewrite <- index_images, Hl. set (n := st_nprim types) in *.
  eapply rreads_mono; [apply (rreads_fold _ (fun i => ebitmap_image (default ebitmap_init (tam !! Z.to_nat i))) (seqZ 0 n)
    (fun seen m => m.1 = take (length seen) tam ++ replicate (length tam - length seen) ebitmap_init /\ turned tam (fun i => i ∈ seen) m.2))|].
  - split; cbn [fst snd].
    + simpl. rewrite Nat.sub_0_r. f_equal. unfold zlength in Hl. lia.
    + apply turned_none.
  - intros seen i todo [tm am] El [Htm Hat]. cbn [fst snd] in *.
    assert (Hi : 0 <= i < n /\ Z.to_nat i = length seen).
    { assert (H : seqZ 0 n !! length seen = Some i) by (rewrite El; by apply list_lookup_middle). apply lookup_seqZ in H. lia. }
    destruct Hi as [Hi Hseen]. destruct (lookup_lt_is_Some_2 tam (Z.to_nat i)) as [e He]; [unfold zlength in Hl; lia|]. rewrite He. simpl.
    eapply rreads_mono; [apply (reads_type_map tam i e am tm Htam Hi He)|].
    + destruct Hat as [Hla _]. unfold zlength. fold n. lia.
    + apply Forall_lookup. intros j m Hm. by apply (proj2 Hat j m).
    + intros [tm' am'] [-> Hm]. cbn [fst snd] in *. split.
      * rewrite length_app. simpl. rewrite Htm, Hseen. rewrite Hseen in He. apply lookup_lt_Some in He as Hlt.
        rewrite insert_app_r_alt by (rewrite length_take; lia). rewrite length_take, Nat.min_l, Nat.sub_diag by lia.
        replace (length tam - length seen)%nat with (S (length tam - (length seen + 1))) by lia. cbn [replicate]. simpl.
        rewrite Nat.add_1_r, (take_S_r _ _ e) by done. rewrite <- app_assoc. simpl. do 2 f_equal.
      * eapply turned_step; [done| |done|done|done]. pose proof (NoDup_seqZ 0 n) as ND. rewrite El in ND. apply NoDup_app in ND as (_ & Hd & _).
        intros Hx. by apply (Hd i Hx); left.
  - intros [tm am] [Htm Hat]. cbn [fst snd] in *. split.
    + rewrite Htm, length_seqZ. unfold zlength in Hl. rewrite take_ge by lia. replace (length tam - Z.to_nat n)%nat with 0%nat by lia. by rewrite app_nil_r.
    + by apply turned_all.
Qed.
End Maps.
