(* ===== verification/PolicydbThms.v ===== *)
(** * PolicydbThms: a whole policy survives storage

    [policydb_write] and [policydb_read] together: a kernel policy for SELinux,
    of version 29 to 33, is read back as it was written. *)
From Stdlib Require Import ZArith Lia Bool.
From stdpp Require Import base option list list_numbers gmap sets.
From S2P Require Import Prelude PolicyFile Ebitmap EbitmapThms EbitmapRange EbitmapIO Hashtab HashtabThms Symtab Avtab AvtabThms AvtabIO Cond Codec Symbols SymCodec SymbolsIO SymbolsThms Trans TransIO TransIns TransRT TransFt TransThms Index IndexThms ExpandThms IndexAll Contexts ContextsIO ContextsValid CondIO CondIOThms PolicydbSame Policydb PolicydbIO.

#[local] Arguments words32 : simpl never.

(** ** What is stored *)

Section Kern.
Context (signed : bool).

(** The conditionals of a database, without addresses. *)
Definition db_conds (db : policydb) (cs : list cond_content) : Prop :=
  Forall2 (content_of (ct_heap (db_cond db))) (db_cond_list db) cs.

(** A consistent kernel policy, all parts of which the format can hold. *)
Record db_ok (db : policydb) (cs : list cond_content) : Prop := mk_db_ok {
  do_header : header_ok (db_header db);
  do_caps : ebitmap_ok (db_policycaps db) /\ ebitmap_ok (db_permissive_map db);
  do_symbols : symbols_ok (pol_of signed (db_header db)) (db_symbols db);
  do_ready : classes_ready (db_symbols db) /\ others_ready true (db_symbols db);
  do_indexes : classes_indexed (db_symbols db) (db_class_indexes db) /\ others_indexed (db_symbols db) (db_indexes db);
  do_process : db_process_class db = policydb_string_to_security_class (db_symbols db) str_process /\
    db_dir_class db = policydb_string_to_security_class (db_symbols db) str_dir /\
    exists dyn, policydb_string_to_av_perm (db_symbols db) (db_class_indexes db) (db_process_class db) str_transition = Some (db_process_trans db) /\
      policydb_string_to_av_perm (db_symbols db) (db_class_indexes db) (db_process_class db) str_dyntransition = Some dyn /\
      db_process_trans_dyntrans db = Z.lor (db_process_trans db) dyn;
  do_compat : db_compat db = 0 \/ db_compat db = 1;
  do_avtab : avtab_ok (db_te_avtab db) /\ nodes_of (db_te_avtab db) <> [] /\ av_nel (db_te_avtab db) < 2 ^ 32 - 1 /\
    no_duplicates [] (nodes_of (db_te_avtab db)) /\
    Forall (item_writable (h_vers (db_header db)) (db_compat db)) (nodes_of (db_te_avtab db));
  do_conds : db_conds db cs /\ zlength cs < 2 ^ 32 /\ zlength (all_rules cs) < 2 ^ 32 /\ contents_fit (db_te_avtab db) [] cs /\
    Forall (content_ok (h_vers (db_header db)) (db_compat db) (st_nprim (p_bools (db_symbols db)))) cs;
  do_roles : Forall role_trans_ok (db_role_tr db) /\ zlength (db_role_tr db) < 2 ^ 32 /\
    Forall role_allow_ok (db_role_allow db) /\ zlength (db_role_allow db) < 2 ^ 32;
  do_filename_trans : ft_storable (db_filename_trans db);
  do_ocontexts : zlength (db_ocontexts db) = c_ocon_num (compat_of (h_vers (db_header db))) /\
    lists_kept 0 (db_ocontexts db) = db_ocontexts db /\
    lists_ok (h_mls (db_header db)) (db_symbols db) (db_indexes db) 0 (db_ocontexts db);
  do_genfs : genfs_ok (h_mls (db_header db)) (db_symbols db) (db_indexes db) (db_genfs db);
  do_range : exists h, db_range_tr db = Some h /\ hashtab_ok h /\ ht_nel h < 2 ^ 32 /\
    Forall (fun b => range_ok (st_nprim (p_types (db_symbols db))) (st_nprim (p_classes (db_symbols db))) b.1 b.2) (bindings (Some h));
  do_types : st_nprim (p_types (db_symbols db)) <= 2 ^ 32 - 64 /\ st_nprim (p_classes (db_symbols db)) < 2 ^ 32;
  do_maps : type_map_ok (p_types (db_symbols db)) (ix_types (db_indexes db)).2 (db_type_attr_map db) /\
    attr_map_of (p_types (db_symbols db)) (ix_types (db_indexes db)).2 (db_type_attr_map db) (db_attr_type_map db);
  do_format : db_unsupported_format db = 0 }.

(** A database that a policy can be read into: nothing in it but the role
    [object_r] and a first declaration. *)
Record db_start (db : policydb) : Prop := mk_db_start {
  ds_caps : ebitmap_ok (db_policycaps db) /\ ebitmap_ok (db_permissive_map db);
  ds_symbols : symbols_start (db_symbols db);
  ds_roles : map_Forall (fun _ d => role_types d = empty_type_set /\ in_range 32 (role_value d) /\ ebitmap_ok (role_dominates d) /\ role_flavor d = 0 /\ role_roles d = ebitmap_init) (symtab_abs (p_roles (db_symbols db)));
  ds_nprims : st_nprim (p_bools (db_symbols db)) = 0 /\ st_nprim (p_levels (db_symbols db)) = 0 /\ st_nprim (p_cats (db_symbols db)) = 0;
  ds_heap : ct_heap (db_cond db) = [];
  ds_filename_trans : ft_empty (db_filename_trans db);
  ds_genfs : db_genfs db = [];
  ds_range : exists h, db_range_tr db = Some h /\ hashtab_ok h /\ hashtab_abs h = ∅;
  ds_decls : db_decls db = [1] }.

(** Two databases that say the same: equal but for the order of the rules in
    the access vector table, the order of symbols in tables and the addresses
    of conditional rules. *)
Record db_same (db db' : policydb) (cs : list cond_content) : Prop := mk_db_same {
  dn_header : db_header db' = db_header db;
  dn_caps : db_policycaps db' = db_policycaps db /\ db_permissive_map db' = db_permissive_map db;
  dn_symbols : same_symbols (db_symbols db) (db_symbols db');
  dn_indexes : classes_indexed (db_symbols db') (db_class_indexes db') /\ others_indexed (db_symbols db') (db_indexes db');
  dn_classes : db_process_class db' = db_process_class db /\ db_dir_class db' = db_dir_class db /\
    db_process_trans db' = db_process_trans db /\ db_process_trans_dyntrans db' = db_process_trans_dyntrans db;
  dn_avtab : avtab_ok (db_te_avtab db') /\ nodes_of (db_te_avtab db') ≡ₚ nodes_of (db_te_avtab db);
  dn_conds : db_conds db' cs /\ cond_tab_ok (db_cond db') /\ db_compat db' = db_compat db;
  dn_roles : db_role_tr db' = db_role_tr db /\ db_role_allow db' = db_role_allow db;
  dn_filename_trans : ft_ok (db_filename_trans db') /\ ft_same (db_filename_trans db) (db_filename_trans db') /\
    ft_count (db_filename_trans db') = ft_count (db_filename_trans db);
  dn_ocontexts : db_ocontexts db' = db_ocontexts db /\ db_genfs db' = db_genfs db;
  dn_range : exists h h', db_range_tr db = Some h /\ db_range_tr db' = Some h' /\ hashtab_ok h' /\ hashtab_abs h' = hashtab_abs h;
  dn_maps : db_type_attr_map db' = db_type_attr_map db /\ db_attr_type_map db' = db_attr_type_map db }.

(** ** The image *)

Definition role_image_of (db : policydb) : list Z :=
  words32 [zlength (db_role_tr db)] ++ concat (map (role_trans_image (pol_of signed (db_header db))) (db_role_tr db)).

Definition range_table_image (db : policydb) : list Z :=
  words32 [nel_of (db_range_tr db)] ++ table_image range_trans_image (db_range_tr db).

Definition db_image (db : policydb) (cs : list cond_content) : list Z :=
  header_image (db_header db) (compat_of (h_vers (db_header db))) ++
  ebitmap_image (db_policycaps db) ++ ebitmap_image (db_permissive_map db) ++
  symbols_image (db_symbols db) ++ avtab_image (db_compat db) (db_te_avtab db) ++ conds_image (db_compat db) cs ++
  role_image_of db ++ (words32 [zlength (db_role_allow db)] ++ concat (map role_allow_image (db_role_allow db))) ++
  ft_table_image (pol_of signed (db_header db)) (db_filename_trans db) ++
  lists_image 0 (db_ocontexts db) ++ genfs_image (db_genfs db) ++ range_table_image db ++
  concat (map ebitmap_image (db_type_attr_map db)).

(** ** Writing *)

Definition no_ranges : hashtab range_trans mls_range := mk_hashtab [[]] 1 0.

Lemma no_ranges_ok : hashtab_ok no_ranges.
Proof using Type. split; [done|]. split; [|done]. split; [done|]. split; [split; constructor|done]. Qed.

Lemma pol_kern h : header_ok h -> policy_type (pol_of signed h) = POLICY_KERN /\ POLICYDB_VERSION_CONSTRAINT_NAMES <= pol_vers (pol_of signed h).
Proof using Type. intros (Ht & _ & Hv & _). split; [done|]. apply Hv. Qed.

(** The versions in question have every section. *)
Lemma vers_at_least h v : header_ok h -> v <= POLICYDB_VERSION_CONSTRAINT_NAMES -> (v <=? h_vers h) = true.
Proof using Type. intros (_ & _ & Hv & _) H. apply Z.leb_le. lia. Qed.

Lemma roles_kept h pc l : header_ok h -> role_trans_kept (pol_of signed h) pc l = l.
Proof using Type.
  intros Hh. unfold role_trans_kept. assert (new_roletr (pol_of signed h) = true) as ->.
  { unfold new_roletr. rewrite (kern_is _ (proj1 (pol_kern h Hh))). by apply vers_at_least. }
  induction l as [|x l IH]; [done|]. by rewrite filter_cons, decide_True, IH.
Qed.

Lemma writes_symbols_upto h s :
  header_ok h -> symbols_ok (pol_of signed h) s -> writes (symbols_write_upto (pol_of signed h) SYM_NUM s) (symbols_image s).
Proof using Type.
  intros Hh Hs. destruct (pol_kern h Hh) as [Hk Hv]. by apply (writes_symbol_tables _ Hk Hv).
Qed.

Lemma writes_db db cs : db_ok db cs -> writes (policydb_write signed db) (db_image db cs).
Proof using Type.
  intros [Hh [Hc1 Hc2] Hs _ _ _ Hcp (Ha1 & _ & _ & _ & Ha5) (Hcc & Hcn & Hcr & _ & Hco) (Hr1 & Hr2 & Hr3 & Hr4) Hft (Ho1 & _ & Ho2) Hg (hr & Er & Hr5 & Hr6 & Hr7) [Ht Hcl] [Hm _] Huf].
  destruct (pol_kern _ Hh) as [Hk Hv]. cut (writes (policydb_write_header (db_header db) (policydb_write_kern signed db)) (db_image db cs)).
  { intros H fp. unfold policydb_write. rewrite Huf. apply H. }
  unfold db_image. apply writes_header; [done|].
  unfold policydb_write_kern. cbv zeta.
  assert (Hvl : forall v, v <= POLICYDB_VERSION_CONSTRAINT_NAMES -> (v <=? h_vers (db_header db)) = true) by (intros; by apply vers_at_least).
  rewrite !Hvl by done. assert ((h_vers (db_header db) <? POLICYDB_VERSION_BOOL) = false) as ->.
  { apply Z.ltb_ge. by apply Z.leb_le, Hvl. }
  apply writes_seq; [by apply writes_ebitmap|]. apply writes_seq; [by apply writes_ebitmap|].
  apply writes_seq; [by apply writes_symbols_upto|].
  apply writes_seq; [apply writes_avtab; [done|done|apply Hh]|].
  apply writes_seq; [eapply (writes_conds (h_vers (db_header db))); try done; [apply Z.leb_le, Hvl; done|apply Hh]|].
  apply writes_seq.
  { pose proof (role_trans_codec (pol_of signed (db_header db)) (db_process_class db) (db_role_tr db)) as H.
    rewrite roles_kept in H by done. by apply H. }
  apply writes_seq; [by apply role_allow_codec|].
  apply writes_seq; [apply writes_filename_trans; [apply Z.leb_le, Hvl; done|done]|].
  apply writes_seq.
  { unfold ocontext_write. destruct Hh as (_ & -> & _). cbn [Z.eqb SEPOL_TARGET_SELINUX]. by eapply ocontext_codec. }
  apply writes_seq; [by eapply genfs_codec|].
  apply writes_seq.
  { unfold range_table_image. rewrite Er. cbn [nel_of].
    apply (range_table_codec (pol_of signed (db_header db)) (db_process_class db) (st_nprim (p_types (db_symbols db))) (st_nprim (p_classes (db_symbols db)))
      (kern_is _ Hk) (proj1 (Z.leb_le _ _) (Hvl POLICYDB_VERSION_RANGETRANS ltac:(done))) ltac:(lia) Hcl hr no_ranges); try done. apply no_ranges_ok. }
  apply writes_end. destruct Hm as [Hl Hm]. unfold ztake. rewrite take_ge by (unfold zlength in Hl; lia).
  apply writes_list, Forall_lookup. intros i e He. apply writes_ebitmap. by apply (Hm i e).
Qed.

(** ** Reading *)

(** Which rules fit depends on the rules of the table, not on their order. *)
Lemma contents_fit_perm te te' heap cs : nodes_of te' ≡ₚ nodes_of te -> contents_fit te heap cs -> contents_fit te' heap cs.
Proof using Type.
  intros Hp. assert (Hr : forall heap other ns, rules_fit te heap other ns -> rules_fit te' heap other ns).
  { intros hp other ns. revert hp. induction ns as [|n ns IH]; intros hp; [done|]. intros [Hf Hns]. split; [|by apply IH].
    intros Ht. destruct (Hf Ht) as (H1 & H2 & H3). split_and!; [|done|done].
    pose proof (matching_perm (key n) (clear_enabled (specified (key n))) _ _ Hp) as Hl. rewrite H1 in Hl. by apply nil_length_inv in Hl. }
  revert heap. induction cs as [|c cs IH]; intros heap; [done|]. intros [[H1 H2] H3]. split; [split; by apply Hr|by apply IH].
Qed.

Lemma parsed_marked (pre ns post : list avtab_node) : parsed_nodes (marked (pre ++ ns ++ post)) (seq (length pre) (length ns)) = ns.
Proof using Type.
  unfold parsed_nodes, marked. revert pre. induction ns as [|n ns IH]; intros pre; [done|]. cbn [length seq].
  cbn [omap list_omap]. change (map ?f ?l) with (f <$> l). rewrite list_lookup_fmap. rewrite (list_lookup_middle pre (ns ++ post) n) by done. simpl. f_equal.
  specialize (IH (pre ++ [n])). rewrite length_app, <- app_assoc in IH. simpl in IH. rewrite Nat.add_1_r in IH. exact IH.
Qed.

Lemma nodes_from_content pre cs : Forall2 (content_of (marked (pre ++ all_rules cs))) (nodes_from (length pre) cs) cs.
Proof using Type.
  revert pre. induction cs as [|c cs IH]; intros pre; [constructor|]. constructor.
  - unfold all_rules. cbn [map concat]. unfold node_at, cc_rules. split_and!; [done..| |]; cbn [true_list false_list].
    + rewrite <- !app_assoc. apply parsed_marked.
    + rewrite <- app_assoc, (app_assoc pre), <- length_app. apply parsed_marked.
  - specialize (IH (pre ++ cc_rules c)). rewrite length_app, <- app_assoc in IH. exact IH.
Qed.

(** The one declaration of a kernel policy. *)
Lemma xok_decls {strict} : xruns strict (policydb_index_decls [1]) (eq [Some 0%nat]).
Proof using Type.
  unfold policydb_index_decls. change (u32 (zlength [1])) with 1. eapply xok_bind; [apply xok_calloc|]. intros ? <-. by apply xok_ret.
Qed.

Lemma xok_maps {strict} n : xruns strict (xcalloc_maps n) (eq (replicate (Z.to_nat n) ebitmap_init)).
Proof using Type. apply xok_malloc. Qed.

Lemma xok_classes s : classes_ready s -> xok (policydb_index_classes s) (classes_indexed s).
Proof using Type.
  intros [[H1 V1] [H2 V2]]. apply xok_intro. intros o M. destruct (index_classes_cases s o H1 H2) as (r & o' & E & M' & Hr).
  destruct r as [ci|]; [|by destruct (Hr M)]. exists ci, o'. split_and!; [done|auto|apply Hr].
Qed.

Lemma symbols_perms p s : symbols_ok p s -> perms_tables s /\ (exists h, st_table (p_classes s) = Some h /\ hashtab_ok h).
Proof using Type.
  intros ((hc & Ec & Hokc & Hallc & _) & (hl & El & Hokl & Halll & _) & _). split; [|eauto]. split; [eauto|]. unfold symtab_abs. rewrite Ec, El.
  split; intros k d Hk; apply elem_of_list_to_map_2 in Hk.
  - unfold all_ok in Hallc. rewrite Forall_forall in Hallc. destruct (Hallc _ Hk) as (_ & _ & (h & ? & ? & _)). eauto.
  - unfold all_ok in Halll. rewrite Forall_forall in Halll. destruct (Halll _ Hk) as (_ & _ & (h & ? & ? & _) & _). eauto.
Qed.

Lemma class_value_range p s name : symbols_ok p s -> 0 <= policydb_string_to_security_class s name.
Proof using Type.
  intros (_ & (hl & El & Hokl & Halll & _) & _). unfold policydb_string_to_security_class. rewrite El, hashtab_search_ok by done.
  destruct (hashtab_abs hl !! name) as [d|] eqn:E; [|done]. apply elem_of_list_to_map_2 in E. unfold all_ok in Halll. rewrite Forall_forall in Halll.
  destruct (Halll _ E) as (_ & Hv & _). simpl in Hv. lia.
Qed.

(** The levels of a policy that can be stored. *)
Lemma levels_cats p s : symbols_ok p s -> map_Forall (fun _ d => ebitmap_ok (cat (lev_level d))) (symtab_abs (p_levels s)).
Proof using Type.
  intros (_ & _ & _ & _ & _ & _ & (h & E & Hok & Hall & _) & _). unfold symtab_abs. rewrite E. intros k d Hk. apply elem_of_list_to_map_2 in Hk.
  unfold all_ok in Hall. rewrite Forall_forall in Hall. by destruct (Hall _ Hk) as (_ & _ & [_ ?]).
Qed.

Section Read.
Context (db db0 : policydb) (cs : list cond_content) (Hdb : db_ok db cs) (H0 : db_start db0).
Context (Hobj : symtab_abs (p_roles (db_symbols db)) !! OBJECT_R = symtab_abs (p_roles (db_symbols db0)) !! OBJECT_R).
Let h := db_header db.
Let p := pol_of signed h.
Let s := db_symbols db.


(** Behind the symbols: [s'] are those read. *)
Context (s' : symbols) (Hss : same_symbols s s') (Hcompat : db_compat db0 = db_compat db).

(** What the rules and the labels must be. *)
Definition rules_same (r : rules) : Prop :=
  (avtab_ok (ru_te r) /\ nodes_of (ru_te r) ≡ₚ nodes_of (db_te_avtab db)) /\
  (Forall2 (content_of (ct_heap (ru_cond r))) (ru_cond_list r) cs /\ cond_tab_ok (ru_cond r) /\ ru_compat r = db_compat db) /\
  (ru_role_tr r = db_role_tr db /\ ru_role_allow r = db_role_allow db) /\
  ft_ok (ru_filename_trans r) /\ ft_same (db_filename_trans db) (ru_filename_trans r) /\
  ft_count (ru_filename_trans r) = ft_count (db_filename_trans db).

Definition labels_same (l : labels) : Prop :=
  (classes_indexed s' (la_class_indexes l) /\ others_indexed s' (la_indexes l)) /\
  (la_trans l = db_process_trans db /\ Z.lor (la_trans l) (la_dyntrans l) = db_process_trans_dyntrans db) /\
  (la_ocontexts l = db_ocontexts db /\ la_genfs l = db_genfs db) /\
  (exists h h', db_range_tr db = Some h /\ la_range_tr l = Some h' /\ hashtab_ok h' /\ hashtab_abs h' = hashtab_abs h) /\
  (la_maps l).1 = db_type_attr_map db /\ (la_maps l).2 = db_attr_type_map db.

Definition rules_image : list Z :=
  avtab_image (db_compat db) (db_te_avtab db) ++ conds_image (db_compat db) cs ++
  role_image_of db ++ (words32 [zlength (db_role_allow db)] ++ concat (map role_allow_image (db_role_allow db))) ++
  ft_table_image (pol_of signed (db_header db)) (db_filename_trans db).

Definition labels_image : list Z :=
  lists_image 0 (db_ocontexts db) ++ genfs_image (db_genfs db) ++ range_table_image db ++ concat (map ebitmap_image (db_type_attr_map db)).

Lemma have_section v : v <= POLICYDB_VERSION_CONSTRAINT_NAMES -> (v <=? h_vers h) = true.
Proof using Hdb. intros. apply vers_at_least; [apply Hdb|done]. Qed.

Lemma reads_rules pc : reads (policydb_read_rules signed db0 h s' pc) rules_image rules_same.
Proof using Hdb H0 Hss Hcompat.
  pose proof Hdb as [Hh _ _ _ _ _ Hcp (Ha1 & Ha2 & Ha3 & Ha4 & Ha5) (Hcc & Hcn & Hcr & Hfit & Hco) (Hr1 & Hr2 & Hr3 & Hr4) Hft _ _ _ _ _].
  pose proof Hss as (_ & _ & _ & _ & _ & (Nb & _) & _).
  unfold policydb_read_rules, rules_image. cbv zeta. rewrite !have_section, Hcompat by done.
  assert (Hav : POLICYDB_VERSION_AVTAB <= h_vers h) by (by apply Z.leb_le, have_section).
  eapply reads_bind; [apply (reads_avtab (h_vers h)); done|]. intros [te cp] (Ecp & Hte & Hperm). cbn [fst snd] in *. subst cp. rewrite Nb.
  eapply reads_bind; [apply reads_conds; try done|].
  - by eapply contents_fit_perm.
  - apply (ds_heap _ H0).
  - lia.
  - rewrite (avtab_ok_count te Hte). unfold zlength. rewrite Hperm. destruct (nodes_of (db_te_avtab db)); [done|simpl; lia].
  - intros [ns [t cp]] (En & t' & Et & Htab & Hheap). cbn [fst snd] in *. simplify_eq. eapply reads_bind.
    { pose proof (role_trans_codec (pol_of signed h) pc (db_role_tr db)) as H. rewrite roles_kept in H by done. by apply H. }
    intros ? <-. eapply reads_bind; [by apply role_allow_codec|]. intros ? <-.
    eapply reads_last; [apply reads_filename_trans; [done|apply (ds_filename_trans _ H0)]|]. intros ft Hft'. apply reads_ret.
    split_and!; cbn; try done; try apply Hft'. rewrite Hheap. apply (nodes_from_content [] cs).
Qed.

Lemma reads_labels :
  rreads (policydb_read_labels signed db0 h (compat_of (h_vers h)) s' (db_process_class db)) labels_image labels_same.
Proof using Hdb H0 Hss.
  pose proof Hdb as [Hh _ Hs [Rc Ro] [[_ Ic] Io] (Pc & _ & dyn & Pt & Pdyn & Ptd) _ _ _ _ _ (Ho1 & Hok & Ho2) Hg (hr & Er & Hr5 & Hr6 & Hr7) [Ht Hcl] [Hm Hatm] _].
  destruct H0 as [_ _ _ _ _ _ Zg (hz & Ez & Hz1 & Hz2) Zd]. destruct (pol_kern _ Hh) as [Hk Hv].
  destruct (symbols_perms _ _ Hs) as [Hpt _]. pose proof (class_value_range _ _ str_process Hs) as Hpc. rewrite <- Pc in Hpc.
  pose proof Hss as (_ & (Ncl & _) & _ & Hty & _). pose proof Hty as (Nty & _).
  unfold policydb_read_labels, labels_image. cbv zeta. rewrite !have_section, Zd, Zg, Ez by done.
  eapply rreads_step; [apply rreads_of_x, xok_decls|]. intros di _.
  eapply rreads_step; [by apply rreads_of_x, xok_classes, (same_classes_ready s)|]. intros ci Hci.
  eapply rreads_step; [apply rreads_of_option; eapply (same_av_perm s s'); [done|done|exact Ic|apply Hci|done|exact Pt]|]. intros ? <-.
  eapply rreads_step; [apply rreads_of_option; eapply (same_av_perm s s'); [done|done|exact Ic|apply Hci|done|exact Pdyn]|]. intros ? <-.
  eapply rreads_step; [apply rreads_of_x, index_others_ok; [by apply kern_is|by apply (same_others_ready s)]|]. intros ix Hix.
  assert (Hsens : indexable sens_val (p_levels s)) by apply Ro. pose proof (levels_cats _ _ Hs) as Hcats.
  eapply rreads_bind.
  { unfold ocontext_read. replace (h_target h) with SEPOL_TARGET_SELINUX by (symmetry; apply Hh). cbn [Z.eqb SEPOL_TARGET_SELINUX].
    eapply (ocontext_codec (pol_of signed h) (h_mls h) s' ix Hk Hv); [done|]. by eapply (same_lists _ s s'). }
  intros ? <-. eapply rreads_bind.
  { eapply (genfs_codec (pol_of signed h) (h_mls h) s' ix Hk Hv). by eapply (same_genfs _ s s'). }
  intros ? <-. eapply (rreads_bind _ _ _ _ (fun r => exists h', r = Some h' /\ hashtab_ok h' /\ hashtab_abs h' = hashtab_abs hr)).
  { apply rreads_of_r. unfold range_table_image. rewrite Er. cbn [nel_of]. rewrite Nty, Ncl. eapply reads_last.
    - apply (range_table_codec (pol_of signed h) (db_process_class db) (st_nprim (p_types s)) (st_nprim (p_classes s))
        (kern_is _ Hk) (proj1 (Z.leb_le _ _) (have_section POLICYDB_VERSION_RANGETRANS ltac:(done))) ltac:(unfold s; lia) Hcl hr hz); done.
    - intros r (h' & -> & H1 & H2). apply reads_ret. eauto. }
  intros rg (h' & -> & Hh' & Habs). eapply rreads_step; [apply rreads_of_x, xok_maps|]. intros ? <-.
  eapply rreads_step; [apply rreads_of_x, xok_maps|]. intros ? <-.
  assert (Htvs : (ix_types ix).2 = (ix_types (db_indexes db)).2).
  { destruct Hix as (_ & Hit & _), Io as (_ & Hit' & _). rewrite (same_abs _ _ Hty), Nty in Hit. by rewrite (inverse_unique _ _ _ _ _ Hit Hit'). }
  assert (Hn0 : 0 <= st_nprim (p_types s)) by (destruct Hs as (_ & _ & _ & (ht & _ & _ & _ & _ & ? & _) & _); unfold s; lia).
  assert (Hm' : type_map_ok (p_types s') (ix_types ix).2 (db_type_attr_map db)) by (unfold type_map_ok; by rewrite Nty, Htvs).
  eapply rreads_last; [apply (reads_type_maps (p_types s') (ix_types ix).2); [by rewrite Nty| |by apply Z.leb_le, have_section|exact Hm']|].
  { destruct Hix as (_ & Hit & _). apply Hit. }
  intros [tam atm] [Etam Hatm']. cbn [fst snd] in *. apply rreads_ret. split_and!; cbn; try done.
  - by exists hr, h'.
  - eapply (attr_map_unique (p_types s') (ix_types ix).2); [exact Hatm'|]. unfold attr_map_of, turned, plain_type. by rewrite Nty, Htvs.
Qed.

Lemma process_class_same : process_class_of (h_target h) s' (db_process_class db0) = db_process_class db.
Proof using Hdb Hss.
  unfold process_class_of. pose proof Hdb as [Hh _ Hs _ _ (-> & _) _ _ _ _ _ _ _ _ _ _ _]. destruct Hh as (_ & Htg & _). unfold h. rewrite Htg. cbn.
  apply (same_class_value s); [done|]. by destruct (symbols_perms _ _ Hs).
Qed.
End Read.

Lemma reads_db db db0 cs :
  db_ok db cs -> db_start db0 ->
  symtab_abs (p_roles (db_symbols db)) !! OBJECT_R = symtab_abs (p_roles (db_symbols db0)) !! OBJECT_R ->
  db_compat db0 = db_compat db ->
  rreads (policydb_read signed db0) (db_image db cs) (fun db' => db_same db db' cs).
Proof using Type.
  intros Hdb H0 Hobj Hcp. pose proof Hdb as [Hh [Hc1 Hc2] Hs _ _ (_ & Pd & _) _ _ _ _ _ _ _ _ _ _ _].
  destruct (pol_kern _ Hh) as [Hk Hv]. unfold policydb_read, db_image.
  eapply rreads_bind; [by apply rreads_of_r, reads_header|]. intros ? <-. cbn [fst snd].
  rewrite (proj1 Hh). cbn [Z.eqb POLICY_KERN].
  unfold policydb_read_kern. cbv zeta. rewrite !(have_section db cs Hdb) by done.
  eapply rreads_bind; [by apply rreads_of_r, reads_ebitmap|]. intros ? <-.
  eapply rreads_bind; [by apply rreads_of_r, reads_ebitmap|]. intros ? <-.
  eapply rreads_bind; [apply rreads_of_r; apply (reads_symbol_tables (pol_of signed (db_header db)) Hk Hv); [done|apply H0]|].
  intros s' Hadd. pose proof (symbols_added_same _ _ _ (ds_symbols _ H0) Hobj Hadd) as Hss.
  rewrite (process_class_same db db0 cs Hdb s' Hss).
  match goal with |- rreads _ ?i _ => assert (Ei : i = rules_image db cs ++ labels_image db) by (unfold rules_image, labels_image; by rewrite <- !app_assoc) end.
  rewrite Ei.
  eapply rreads_bind; [by apply rreads_of_r, reads_rules|]. intros r (Ra & Rc & Rr & Rf).
  eapply rreads_last; [by apply (reads_labels db db0 cs)|]. intros l (Li & [Lt1 Lt2] & Lo & Lr & Lm). apply rreads_ret.
  constructor; cbn; try done. split_and!; try done. rewrite Pd, (proj1 (proj2 Hh)). cbn. apply (same_class_value _ _ _ Hss). by destruct (symbols_perms _ _ Hs).
Qed.
End Kern.

(** C3: Writing a consistent kernel policy ([db_ok]: SELinux, version 29 to 33,
    complete indexes, rules outside of conditionals not empty and without
    duplicates, fields that fit the format, not marked as unsupported) into memory
    or to a stream and reading the image back, into a database fresh but for
    the role [object_r], gives, as long as memory and room last, a policy
    that says the same: equal header, flags and capabilities, the same symbols,
    rules (conditional ones with their expressions and branches), transitions,
    labelled objects, file systems, ranges and attribute maps; with the
    indexes, caches and process permissions rebuilt.  The reader stands just
    behind the image, whatever follows. *)
Theorem policydb_roundtrip signed db db0 cs fp rest o :
  db_ok signed db cs -> db_start db0 ->
  symtab_abs (p_roles (db_symbols db)) !! OBJECT_R = symtab_abs (p_roles (db_symbols db0)) !! OBJECT_R ->
  db_compat db0 = db_compat db ->
  pf_ty fp <> PF_LEN -> pf_out fp = [] -> mem_ok o -> room fp (zlength (db_image signed db cs)) ->
  exists out db' o', policydb_write signed db fp = (POLICYDB_SUCCESS, out) /\
    policydb_read signed db0 (mem_file (pf_out out ++ rest)) o = Some (Some db', mem_file rest, o') /\ db_same db db' cs.
Proof.
  intros Hdb H0 Hobj Hcp Hty Hout M Hlen.
  destruct (reads_db signed db db0 cs Hdb H0 Hobj Hcp (mem_file (db_image signed db cs ++ rest)) rest o) as (db' & o' & E & _ & Hs); [done..|].
  exists (wrote fp (db_image signed db cs)), db', o'. split; [by apply writes_db|]. by rewrite wrote_out, Hout, app_nil_l, E.
Qed.
