(* ===== verification/PolicydbSound.v ===== *)
(** * PolicydbSound: reading any bytes as a policy

    [policydb_read] on arbitrary bytes, with arbitrary failures of allocation:
    it stays inside its arrays, and a policy it accepts is consistent. *)
From Stdlib Require Import ZArith Lia Bool.
From stdpp Require Import base option list list_numbers gmap sets.
From S2P Require Import Prelude PolicyFile Ebitmap EbitmapThms EbitmapRange EbitmapIO Hashtab HashtabThms Symtab Avtab AvtabThms AvtabIO Cond Codec Symbols SymCodec SymbolsIO SymbolsThms Trans TransIO TransIns TransRT TransFt TransThms Index IndexThms ExpandThms IndexAll SymbolsSound Contexts ContextsIO ContextsValid ContextsSound CondIO CondIOThms CondSound PolicydbSame Policydb PolicydbIO PolicydbThms.

(** ** Triples *)

Lemma rsound_of_x {A} (m : X A) Q : xruns false m Q -> rsound (of_x m) Q.
Proof.
  intros H fp o Hb. destruct (H o) as (r & o' & E & _ & HQ); [done|]. exists r, fp, o'. unfold of_x. rewrite E. split; [done|]. auto.
Qed.

Lemma rsound_fold {A S} (f : A -> S -> RX S) (l : list A) (Inv : list A -> S -> Prop) s :
  Inv [] s -> (forall done x todo s, l = done ++ x :: todo -> Inv done s -> rsound (f x s) (Inv (done ++ [x]))) -> rsound (rxfold f l s) (Inv l).
Proof.
  intros H0 Hstep. cut (forall todo done s, l = done ++ todo -> Inv done s -> rsound (rxfold f todo s) (Inv l)).
  { intros H. by apply (H l []). }
  induction todo as [|x todo IH]; intros done s' Hl Hi; cbn [rxfold].
  - rewrite app_nil_r in Hl. subst. by apply rsound_ret.
  - eapply rsound_bind; [by eapply Hstep|]. intros s1 Hs1. apply (IH (done ++ [x])); [|done]. by rewrite <- app_assoc.
Qed.

(** ** The sections with rules *)

Lemma sound_any {A} (m : R A) : (forall fp o a fp' o', pf_bytes fp -> m fp o = (Some a, fp', o') -> pf_bytes fp') -> sound m (fun _ => True).
Proof. intros H fp o a fp' o' Hb E. split; [done|]. by eapply H. Qed.

(** The table of rules, in the formats since version 20. *)
Definition te_sound (vers : Z) (te : avtab) : Prop :=
  POLICYDB_VERSION_AVTAB <= vers -> avtab_ok te /\ Forall node_item_ok (nodes_of te) /\ 0 < av_nel te.

Lemma sound_avtab a vers compat : sound (ravtab a vers compat) (fun r => te_sound vers r.1).
Proof.
  intros fp o r fp' o' Hb E. unfold ravtab in E. destruct (avtab_read a fp vers compat o) as [[[[rc a'] fp1] cp] o1] eqn:Er.
  pose proof (avtab_read_bytes _ _ _ _ _ _ _ _ _ _ Hb Er) as Hb1. destruct (ctrue rc) eqn:Hrc; [done|]. simplify_eq. split; [|done].
  intros Hv. pose proof (avtab_read_ok a fp vers compat o Hb Hv) as H. rewrite Er in H. apply ctrue_false in Hrc. subst rc.
  destruct H as [(_ & Hok & Hall & Hlen & Hpos)|[? _]]; [|done]. cbn [fst]. rewrite (avtab_ok_count a' Hok). split_and!; [done..|lia].
Qed.

(** Conditionals: of the formats before version 20 only that they are read. *)
Lemma sound_av_list_any vers te other st : sound (cond_read_av_list vers te other st) (fun _ => True).
Proof.
  unfold cond_read_av_list. reading _. destruct (_ =? 0); [by apply sound_ret|]. apply sound_any. intros fp o r fp' o' Hb E.
  destruct (read_items _ _ _ _ _ _) as [[[rc fp1] cp1] [[t1 l1] o1]] eqn:Er. apply read_items_bytes in Er; [|done]. destruct (ctrue rc); by simplify_eq.
Qed.

Lemma sound_conds_any vers nbools te t compat : sound (cond_read_list vers nbools te t compat) (fun _ => True).
Proof.
  unfold cond_read_list. reading _. eapply (sound_bind _ _ (fun _ => True)).
  { apply sound_any. intros fp o r fp' o' Hb E. unfold ralloc_avtab in E. destruct (avtab_alloc _ _ _) as [[rc tab] o1]. destruct (ctrue rc); by simplify_eq. }
  intros t1 _. apply sound_loop; [done|]. intros s _. reading _. eapply (sound_bind _ _ (fun _ => True)); [|intros; by apply sound_ret].
  unfold cond_read_node. reading _. reading _. eapply (sound_bind _ _ (fun _ => True)).
  { apply sound_loop; [done|]. intros es _. unfold cond_read_expr. reading _. reading _. cbv zeta. reading _. by apply sound_ret. }
  intros es _. eapply sound_bind; [apply sound_av_list_any|]. intros tr _. eapply sound_bind; [apply sound_av_list_any|]. intros fl _. by apply sound_ret.
Qed.

Definition cond_sound (vers nbools : Z) (te : avtab) (r : list cond_node * (cond_avtab * Z)) : Prop :=
  POLICYDB_VERSION_AVTAB <= vers -> conds_sound nbools te r.

Lemma sound_conds vers nbools te t0 compat :
  te_sound vers te -> ct_heap t0 = [] -> sound (cond_read_list vers nbools te t0 compat) (cond_sound vers nbools te).
Proof.
  intros Hte Hh. destruct (decide (POLICYDB_VERSION_AVTAB <= vers)) as [Hv|Hv].
  - destruct (Hte Hv) as (Hok & _ & Hn). eapply sound_mono; [by apply cond_read_list_ok|]. intros r Hr _. exact Hr.
  - eapply sound_mono; [apply sound_conds_any|]. intros r _ H. done.
Qed.

Lemma sound_role_trans p pc : in_range 32 pc -> sound (role_trans_read p pc) (Forall role_trans_ok).
Proof.
  intros Hpc. unfold role_trans_read. reading _. eapply sound_mono; [apply (sound_many _ _ role_trans_ok)|by intros l [? _]].
  unfold role_trans_read_one. reading _. reading [Hb _]. eapply (sound_bind _ _ (in_range 32)).
  { destruct (new_roletr p); [reading [Hb2 _]|]; apply sound_ret; [by apply word32_range|done]. }
  intros tc Htc. apply sound_ret. split_and!; try (by apply word32_range). done.
Qed.

Lemma sound_role_allow : sound role_allow_read (Forall role_allow_ok).
Proof.
  unfold role_allow_read. reading _. eapply sound_mono; [apply (sound_many _ _ role_allow_ok)|by intros l [? _]].
  unfold role_allow_read_one. reading _. reading [Hb _]. apply sound_ret. split; by apply word32_range.
Qed.

(** File name transitions: free of conflicts in the format of version 33; in
    the older one a conflict can go unnoticed. *)
Lemma sound_filename_trans_any p t : sound (filename_trans_read p t) (fun _ => True).
Proof.
  unfold filename_trans_read. reading _. destruct (_ <? _); (apply sound_loop; [done|]); intros t1 _.
  - unfold filename_trans_read_one_compat. reading _. reading _. reading _. cbv zeta. reading _. apply sound_any.
    intros fp o r fp' o' Hb E. unfold rfiletrans in E. destruct (policydb_filetrans_insert _ _ _ _ _ _ _ _) as [[[rc x] t2] o2]. case_match; by simplify_eq.
  - unfold filename_trans_read_one. reading _. reading _. reading _. cbv zeta. reading _. eapply sound_bind; [apply (sound_many _ _ _ sound_datum)|]. intros l _.
    eapply (sound_bind _ _ (fun _ => True)).
    { apply sound_any. intros fp o r fp' o' Hb E. unfold rcheck_datum in E. destruct (1 <? _); [|by simplify_eq].
      destruct (filename_trans_check_datum l o) as [rc o1]. destruct (ctrue rc); by simplify_eq. }
    intros _ _. reading _. destruct l as [|d l]; [apply sound_fail|]. eapply (sound_bind _ _ (fun _ => True)); [|intros; by apply sound_ret].
    apply sound_any. intros fp o r fp' o' Hb E. unfold rinsert in E. destruct (hashtab_insert _ _ _ _) as [[rc h] o1]. case_match; by simplify_eq.
Qed.

Definition ft_sound (vers : Z) (t : filename_trans) : Prop := POLICYDB_VERSION_COMP_FTRANS <= vers -> ft_ok t.

Lemma sound_filename_trans p t0 : ft_ok t0 -> sound (filename_trans_read p t0) (ft_sound (pol_vers p)).
Proof.
  intros H0. destruct (decide (POLICYDB_VERSION_COMP_FTRANS <= pol_vers p)) as [Hv|Hv].
  - eapply sound_mono; [by apply filename_trans_read_ok|]. intros t Ht _. exact Ht.
  - eapply sound_mono; [apply sound_filename_trans_any|]. intros t _ H. done.
Qed.

(** ** Ranges *)

Definition ranges_sound (ntypes nclasses : Z) (t : option (hashtab range_trans mls_range)) : Prop :=
  exists h, t = Some h /\ hashtab_ok h /\ map_Forall (range_ok ntypes nclasses) (hashtab_abs h).

Lemma sound_valid v n : in_range 32 v -> sound (rcheck (value_isvalid v n)) (fun _ => 0 < v <= n).
Proof. intros Hv. eapply sound_mono; [apply sound_check|]. intros _ [H1 H2]%value_isvalid_spec. unfold in_range in Hv. lia. Qed.

Lemma sound_ranges p pc ntypes nclasses t :
  is_kern p = true -> in_range 32 pc -> ranges_sound ntypes nclasses t ->
  sound (range_read p pc ntypes nclasses t) (fun r => ranges_sound ntypes nclasses r.1).
Proof.
  intros Hk Hpc Ht. unfold range_read. rewrite Hk. reading _. eapply (sound_bind _ _ (ranges_sound ntypes nclasses)); [|intros h Hh; by apply sound_ret].
  apply sound_loop; [done|]. clear t Ht. intros t (h & -> & Hok & Hall). unfold range_read_one, range_read_entry.
  eapply (sound_bind _ _ (fun rt => range_ok ntypes nclasses rt.1 rt.2)).
  - reading _. reading [Hb _]. cbv zeta. eapply sound_bind; [by apply sound_valid, word32_range|]. intros ? Hs.
    eapply sound_bind; [by apply sound_valid, word32_range|]. intros ? Htg. eapply (sound_bind _ _ (in_range 32)).
    { destruct (new_rangetr p); [reading [Hb2 _]|]; apply sound_ret; [by apply word32_range|done]. }
    intros tc Htc. eapply sound_bind; [by apply sound_valid|]. intros ? Hc. reading _. eapply sound_bind; [apply sound_range|]. intros r [Hr0 Hr1].
    apply sound_ret. exact (conj Hs (conj Htg (conj Hc (conj Hr0 Hr1)))).
  - intros [k r] Hkr. cbn [fst snd] in *. eapply sound_mono; [by apply sound_insert|]. intros t' (h' & -> & Hok' & Habs). exists h'. split_and!; [done..|].
    rewrite Habs. by apply map_Forall_insert_2.
Qed.

(** ** The maps between types and attributes *)

Section Maps.
Context (vers : Z) (types : symtab type_datum) (tvs : structs type_datum).
Context (Hn : in_range 32 (st_nprim types)) (Htvs : length tvs = Z.to_nat (st_nprim types)).

(** The map of the type [i]. *)
Definition one_map_ok (i : Z) (e : ebitmap) : Prop :=
  ebitmap_ok e /\ (forall b, b ∈ ebitmap_set e -> b < st_nprim types) /\ (forall kd, tvs !! Z.to_nat i = Some (Some kd) -> i ∈ ebitmap_set e).

Lemma sound_type_map i tam atm :
  0 <= i < st_nprim types -> zlength atm = st_nprim types -> Forall ebitmap_ok atm ->
  rsound (type_maps_read vers types tvs i (tam, atm))
    (fun m => exists e, m.1 = <[Z.to_nat i := e]> tam /\ one_map_ok i e /\
       marks i (fun j => if decide (i = j) then plain_type tvs i else j ∈ ebitmap_set e) atm m.2).
Proof using Hn Htvs.
  intros Hi Hla Hall. assert (Hroom : 0 <= i < 2 ^ 32 - 64 \/ false = false /\ in_range 32 i) by (unfold in_range in *; right; split; [done|lia]).
  unfold type_maps_read. cbn [fst snd]. eapply (rsound_bind _ _ (fun e => ebitmap_ok e /\ (vers < POLICYDB_VERSION_AVTAB -> e = ebitmap_init))).
  { apply rsound_of_r. destruct (Z.leb_spec POLICYDB_VERSION_AVTAB vers); [|by apply sound_ret]. eapply sound_mono; [apply sound_ebitmap|]. intros e He. split; [done|lia]. }
  intros e [He Hold]. eapply (rsound_bind _ _ (fun atm' => marks i (fun j => j ∈ ebitmap_set e /\ j <> i) atm atm' /\ forall b, b ∈ ebitmap_set e -> b = i \/ b < st_nprim types)).
  { apply rsound_of_x. destruct (Z.leb_spec POLICYDB_VERSION_AVTAB vers); [by apply xok_mark_bits|]. rewrite Hold by done. apply xok_ret.
    split; [|intros b Hb; by vm_compute in Hb]. eapply marks_mono; [|by apply marks_none]. intros j. split; [done|]. intros [Hj _]. by vm_compute in Hj. }
  intros atm1 [H1 Hb1]. destruct (lookup_lt_is_Some_2 tvs (Z.to_nat i)) as [datum Hd]; [lia|]. rewrite Hd.
  eapply rsound_bind; [by apply rsound_of_option|]. intros ? [= <-].
  eapply (rsound_bind _ _ (fun e' => ebitmap_ok e' /\ forall b, b ∈ ebitmap_set e' <-> b ∈ ebitmap_set e \/ (b = i /\ datum <> None))).
  { apply rsound_of_x. destruct datum as [kd|]; [|apply xok_ret; split; [done|]; intros b; naive_solver]. eapply xok_mono; [by apply xok_set|].
    intros e' [He' ->]. split; [done|]. intros b. simpl. set_unfold. naive_solver. }
  intros e' [He' Hs']. eapply (rsound_bind _ _ (marks i (fun j => if decide (i = j) then plain_type tvs i else j ∈ ebitmap_set e) atm)).
  { apply rsound_of_x. assert (Hno : ~ plain_type tvs i -> marks i (fun j => if decide (i = j) then plain_type tvs i else j ∈ ebitmap_set e) atm atm1).
    { intros Hp. eapply marks_mono; [|exact H1]. intros j. cbn beta. destruct (decide (i = j)) as [<-|Hne]; [tauto|]. assert (j <> i) by congruence. tauto. }
    assert (Hplain : plain_type tvs i <-> match datum with Some (_, d) => type_flavor d <> TYPE_ATTRIB | None => False end).
    { unfold plain_type. rewrite Hd. destruct datum as [[k d]|]; naive_solver. }
    destruct datum as [[k d]|]; [|apply xok_ret, Hno; intros H; by apply Hplain in H].
    destruct (Z.eqb_spec (type_flavor d) TYPE_ATTRIB); cbn [negb]; [apply xok_ret, Hno; intros H; by apply Hplain in H|].
    eapply xok_mono; [apply xok_mark; [done| |by eapply marks_ok]|].
    - destruct H1 as [Hl1 _]. unfold zlength in *. rewrite Hl1. lia.
    - intros atm2 H2. eapply marks_mono; [|by eapply marks_trans]. intros j. cbn beta.
      destruct (decide (i = j)) as [<-|Hne]; [split; [by intros _; apply Hplain|by right]|]. split; [by intros [[? _]|?]|]. intros Hj. left. split; [done|congruence]. }
  intros atm2 H2. apply rsound_ret. exists e'. cbn [fst snd]. split; [done|]. split.
  - split; [done|]. split; [intros b [Hb|[-> _]]%Hs'; [destruct (Hb1 b Hb); [subst; lia|done]|lia]|]. intros kd Hkd. apply Hs'. right. split; [done|]. congruence.
  - eapply marks_mono; [|exact H2]. intros j. cbn beta. destruct (decide (i = j)); [done|]. rewrite Hs'. naive_solver.
Qed.

Lemma sound_type_maps :
  let none := replicate (Z.to_nat (st_nprim types)) ebitmap_init in
  rsound (rxfold (type_maps_read vers types tvs) (seqZ 0 (st_nprim types)) (none, none))
    (fun m => type_map_ok types tvs m.1 /\ attr_map_of types tvs m.1 m.2).
Proof using Hn Htvs.
  intros none. unfold in_range in Hn.
  eapply rsound_mono; [apply (rsound_fold _ (seqZ 0 (st_nprim types)) (fun seen m => length m.1 = Z.to_nat (st_nprim types) /\
    (forall i e, i ∈ seen -> m.1 !! Z.to_nat i = Some e -> one_map_ok i e) /\ turned types tvs m.1 (fun i => i ∈ seen) m.2))|].
  - split_and!; [by apply length_replicate|by intros i e Hi%elem_of_nil|apply turned_none].
  - intros seen i todo [tm am] El (Hl & Hseen & Hat). cbn [fst snd] in *.
    assert (Hi : 0 <= i < st_nprim types) by (assert (i ∈ seqZ 0 (st_nprim types)) as Hin%elem_of_seqZ by (rewrite El; set_solver); lia).
    assert (Hns : i ∉ seen).
    { pose proof (NoDup_seqZ 0 (st_nprim types)) as ND. rewrite El in ND. apply NoDup_app in ND as (_ & Hd & _). intros Hx. by apply (Hd i Hx); left. }
    assert (Hne : forall x, x ∈ seen -> 0 <= x -> Z.to_nat x <> Z.to_nat i) by (intros x Hx H0 E; assert (x = i) as -> by lia; done).
    eapply rsound_mono; [apply sound_type_map; [done| |]|].
    + destruct Hat as [Hla _]. unfold zlength. lia.
    + apply Forall_lookup. intros j m Hm. by apply (proj2 Hat j m).
    + intros [tm' am'] (e & Etm & He & Hm). cbn [fst snd] in *. subst tm'. assert (Hlk : <[Z.to_nat i:=e]> tm !! Z.to_nat i = Some e) by (apply list_lookup_insert_eq; lia).
      split_and!; [by rewrite length_insert| |].
      * intros x ex [Hx|Hx%list_elem_of_singleton]%elem_of_app Hlx; [|subst x; congruence].
        assert (0 <= x) by (assert (x ∈ seqZ 0 (st_nprim types)) as Hin%elem_of_seqZ by (rewrite El; set_solver); lia).
        rewrite list_lookup_insert_ne in Hlx by (symmetry; by apply Hne). by apply Hseen.
      * eapply turned_step; [|exact Hns|done|exact Hlk|exact Hm]. eapply turned_update; [|exact Hat]. intros x Hx H0. rewrite list_lookup_insert_ne; [done|symmetry; by apply Hne].
  - intros [tm am] (Hl & Hseen & Hat). cbn [fst snd] in *. split; [|by apply turned_all]. split; [unfold zlength; lia|]. intros i e He.
    assert (Hlt : (i < length tm)%nat) by (by eapply lookup_lt_Some).
    destruct (Hseen (Z.of_nat i) e) as (H1 & H2 & H3); [apply elem_of_seqZ; lia|by rewrite Nat2Z.id|]. split_and!; [done..|]. intros kd Hkd. apply (H3 kd). by rewrite Nat2Z.id.
Qed.
End Maps.

(** ** Header and symbols *)

Definition header_sound (r : header * policydb_compat_info) : Prop :=
  h_type r.1 = POLICY_KERN ->
  POLICYDB_VERSION_MIN <= h_vers r.1 <= POLICYDB_VERSION_MAX /\ (h_target r.1 = SEPOL_TARGET_SELINUX \/ h_target r.1 = SEPOL_TARGET_XEN) /\
  policydb_lookup_compat (h_vers r.1) POLICY_KERN (h_target r.1) = Some r.2.

Lemma sound_header target : sound (policydb_read_header target) header_sound.
Proof.
  unfold policydb_read_header. reading _. cbv zeta. reading _. reading _. reading _. reading _.
  eapply (sound_bind _ _ (fun t => word32 a 0 = POLICYDB_MAGIC -> t = SEPOL_TARGET_SELINUX \/ t = SEPOL_TARGET_XEN)).
  { destruct (Z.eqb_spec (word32 a 0) POLICYDB_MAGIC); [|reading _; by apply sound_ret].
    unfold policydb_target_strings. cbn [find_target]. destruct (_ =? 0); [apply sound_ret; by left|]. destruct (_ =? 0); [apply sound_ret; by right|apply sound_fail]. }
  intros tg Htg. reading _. reading Hty. reading Hv. destruct (policydb_lookup_compat _ _ _) as [info|] eqn:E; [|apply sound_fail]. reading _. apply sound_ret.
  intros Hk. cbn [fst snd h_type h_vers h_target] in *. destruct (Z.eqb_spec (word32 a 0) POLICYDB_MAGIC) as [Em|]; [|by rewrite Hk in Hty].
  apply andb_prop in Hv as [Hv1 Hv2]. split; [split; by apply Z.leb_le|]. split; [by apply Htg|done].
Qed.

Lemma start_roles t :
  symtab_start role_keep t -> map_Forall (fun _ d => role_types d = empty_type_set /\ in_range 32 (role_value d) /\ ebitmap_ok (role_dominates d) /\ role_flavor d = 0 /\ role_roles d = ebitmap_init) (symtab_abs t) ->
  table_sound (fun _ => role_sound) (st_table t).
Proof.
  intros (h & E & Hok & _) Hall. unfold symtab_abs in Hall. rewrite E in Hall. exists h. split_and!; [done..|]. eapply map_Forall_impl; [exact Hall|].
  intros k d (Hd & Hv & Hdom & Hrest). split; [done|]. by rewrite Hd.
Qed.

Lemma sound_symbols p n db0 : is_kern p = true -> db_start db0 -> sound (symbols_read_upto p n (db_symbols db0)) symbols_sound.
Proof.
  intros Hk [_ (Z1 & Z2 & Z3 & Z4 & Z5 & Z6 & Z7 & Z8) Hr (N6 & N7 & N8) _ _ _ _ _]. unfold symbols_read_upto.
  eapply sound_bind; [apply symtab_read_sound; [by apply start_sound|apply sound_common]|]. intros co [Nco Hco].
  eapply sound_bind; [apply (symtab_read_sound (fun _ => class_sound (symtab_abs co))); [by apply start_sound|intros; by apply sound_class]|]. intros cl Hcl.
  eapply sound_bind; [apply symtab_read_sound; [by apply start_roles|intros; by apply sound_role]|]. intros ro Hro.
  eapply sound_bind; [apply symtab_read_sound; [by apply start_sound|intros; by apply sound_type]|]. intros ty Hty.
  eapply sound_bind; [apply symtab_read_sound; [by apply start_sound|intros; by apply sound_user]|]. intros us Hus.
  assert (Hkeep : forall {D} (P : cstring -> D -> Prop) t, symtab_start (fun _ => true) t -> st_nprim t = 0 -> symtab_sound P t).
  { intros D P t Ht Hn. split; [by rewrite Hn|by apply start_sound]. }
  eapply (sound_bind _ _ (symtab_sound (fun _ => bool_sound))).
  { destruct (5 <? n); [apply symtab_read_sound; [by apply start_sound|intros; by apply sound_bool]|by apply sound_ret, Hkeep]. } intros bo Hbo.
  eapply (sound_bind _ _ (symtab_sound (fun _ => level_sound))).
  { destruct (6 <? n); [apply symtab_read_sound; [by apply start_sound|intros; by apply sound_sens]|by apply sound_ret, Hkeep]. } intros le Hle.
  eapply (sound_bind _ _ (symtab_sound (fun _ => cat_sound))).
  { destruct (7 <? n); [apply symtab_read_sound; [by apply start_sound|intros; by apply sound_cat]|by apply sound_ret, Hkeep]. } intros ca Hca.
  apply sound_ret. by split_and!.
Qed.

(** ** Classes and permissions *)

Lemma class_value_sound s name : symbols_sound s -> in_range 32 (policydb_string_to_security_class s name).
Proof.
  intros (_ & [_ (h & E & Hok & Hall)] & _). unfold policydb_string_to_security_class. rewrite E, hashtab_search_ok by done.
  destruct (hashtab_abs h !! name) as [d|] eqn:Ed; [|done]. destruct (Hall name d Ed) as [Hv _]. unfold in_range. lia.
Qed.

(** The permissions of a class that was found by name can be looked up. *)
Lemma av_perm_safe s ci name perm :
  symbols_sound s -> classes_indexed s ci ->
  policydb_string_to_av_perm s ci (policydb_string_to_security_class s name) perm <> None.
Proof.
  intros Hs [_ Hi]. pose proof (class_value_sound s name Hs) as Hr. unfold policydb_string_to_av_perm.
  destruct (negb _ || _) eqn:Hv; [done|]. apply orb_false_iff in Hv as [H1%negb_false_iff%ctrue_spec H2%Z.ltb_ge]. unfold in_range in Hr.
  destruct Hs as (_ & [_ (h & E & Hok & Hall)] & _). unfold policydb_string_to_security_class in *. rewrite E, hashtab_search_ok in * by done.
  destruct (hashtab_abs h !! name) as [d|] eqn:Ed; [|done]. destruct Hi as (_ & _ & Hst & _). cbn [snd] in Hst.
  rewrite (proj2 (Hst (cla_value d) name d ltac:(lia))); [by repeat case_match|]. unfold symtab_abs. by rewrite E.
Qed.

Lemma classes_ok s : symbols_sound s -> xruns false (policydb_index_classes s) (classes_indexed s).
Proof.
  intros Hs o _. destruct (symbols_indexable s Hs) as (I1 & I2 & _). destruct (index_classes_cases s o I1 I2) as (r & o1 & E1 & _ & Hr). exists r, o1.
  split_and!; [done..|]. intros ci ->. apply Hr.
Qed.

(** ** The whole *)

(** What is known of a policy that was accepted. *)
Record db_sound (db : policydb) : Prop := mk_db_sound {
  dd_header : h_type (db_header db) = POLICY_KERN /\ POLICYDB_VERSION_MIN <= h_vers (db_header db) <= POLICYDB_VERSION_MAX /\
    (h_target (db_header db) = SEPOL_TARGET_SELINUX \/ h_target (db_header db) = SEPOL_TARGET_XEN);
  dd_caps : ebitmap_ok (db_policycaps db) /\ ebitmap_ok (db_permissive_map db);
  dd_symbols : symbols_sound (db_symbols db);
  dd_indexes : classes_indexed (db_symbols db) (db_class_indexes db) /\ others_indexed (db_symbols db) (db_indexes db);
  dd_checks : forall c, context_ranges c ->
    exists b, policydb_context_isvalid (h_mls (db_header db)) (db_symbols db) (db_indexes db) c = Some b /\
      (b = true <-> valid_context (h_mls (db_header db)) (db_symbols db) c);
  dd_rules : te_sound (h_vers (db_header db)) (db_te_avtab db) /\
    cond_sound (h_vers (db_header db)) (st_nprim (p_bools (db_symbols db))) (db_te_avtab db) (db_cond_list db, (db_cond db, db_compat db));
  dd_roles : Forall role_trans_ok (db_role_tr db) /\ Forall role_allow_ok (db_role_allow db);
  dd_filename_trans : ft_sound (h_vers (db_header db)) (db_filename_trans db);
  dd_objects : objects_sound (h_mls (db_header db)) (db_symbols db) (h_target (db_header db)) (db_ocontexts db) /\
    genfs_sound (h_mls (db_header db)) (db_symbols db) (db_genfs db);
  dd_range : ranges_sound (st_nprim (p_types (db_symbols db))) (st_nprim (p_classes (db_symbols db))) (db_range_tr db);
  dd_maps : type_map_ok (p_types (db_symbols db)) (ix_types (db_indexes db)).2 (db_type_attr_map db) /\
    attr_map_of (p_types (db_symbols db)) (ix_types (db_indexes db)).2 (db_type_attr_map db) (db_attr_type_map db) }.

(** No SID of an object has been looked up. *)
Definition db_fresh (db : policydb) : Prop := objects_fresh (db_ocontexts db) /\ genfs_fresh (db_genfs db).

Section Read.
Context (signed : bool) (db0 : policydb) (H0 : db_start db0) (h : header) (info : policydb_compat_info).
Context (Hkern : h_type h = POLICY_KERN) (Htarget : h_target h = SEPOL_TARGET_SELINUX \/ h_target h = SEPOL_TARGET_XEN).

Lemma kern_here : is_kern (pol_of signed h) = true.
Proof using Hkern. unfold is_kern, pol_of. cbn. by rewrite Hkern. Qed.

(** The class of processes is one looked up by name. *)
Lemma process_class_named s before : exists name, process_class_of (h_target h) s before = policydb_string_to_security_class s name.
Proof using Htarget. unfold process_class_of. destruct Htarget as [-> | ->]; eauto. Qed.

Definition rules_sound (s : symbols) (r : rules) : Prop :=
  te_sound (h_vers h) (ru_te r) /\ cond_sound (h_vers h) (st_nprim (p_bools s)) (ru_te r) (ru_cond_list r, (ru_cond r, ru_compat r)) /\
  Forall role_trans_ok (ru_role_tr r) /\ Forall role_allow_ok (ru_role_allow r) /\ ft_sound (h_vers h) (ru_filename_trans r).

Lemma sound_rules s pc : in_range 32 pc -> sound (policydb_read_rules signed db0 h s pc) (rules_sound s).
Proof using H0.
  intros Hpc. unfold policydb_read_rules. cbv zeta. eapply sound_bind; [apply sound_avtab|]. intros [te cp] Hte. cbn [fst snd] in *.
  eapply (sound_bind _ _ (cond_sound (h_vers h) (st_nprim (p_bools s)) te)).
  { destruct (Z.leb_spec POLICYDB_VERSION_BOOL (h_vers h)) as [Hv|Hv].
    - apply sound_conds; [done|apply H0].
    - apply sound_ret. intros Hv'. unfold POLICYDB_VERSION_AVTAB, POLICYDB_VERSION_BOOL in *. lia. }
  intros [ns [t cp']] Hc. eapply sound_bind; [by apply sound_role_trans|]. intros tr Htr. eapply sound_bind; [apply sound_role_allow|]. intros al Hal.
  eapply (sound_bind _ _ (ft_sound (h_vers h))).
  { assert (Hft : ft_ok (db_filename_trans db0)).
    { destruct (ds_filename_trans _ H0) as (hf & E & Hok & Hemp & _). exists hf. split_and!; [done..|]. rewrite Hemp. apply map_Forall_empty. }
    destruct (_ <=? _); [by apply (sound_filename_trans (pol_of signed h))|]. apply sound_ret. intros _. exact Hft. }
  intros ft Hft. apply sound_ret. by split_and!.
Qed.

Definition labels_sound (s : symbols) (l : labels) : Prop :=
  classes_indexed s (la_class_indexes l) /\ others_indexed s (la_indexes l) /\
  (objects_sound (h_mls h) s (h_target h) (la_ocontexts l) /\ objects_fresh (la_ocontexts l)) /\ (genfs_sound (h_mls h) s (la_genfs l) /\ genfs_fresh (la_genfs l)) /\
  ranges_sound (st_nprim (p_types s)) (st_nprim (p_classes s)) (la_range_tr l) /\
  type_map_ok (p_types s) (ix_types (la_indexes l)).2 (la_maps l).1 /\ attr_map_of (p_types s) (ix_types (la_indexes l)).2 (la_maps l).1 (la_maps l).2.

Lemma sound_labels s name :
  symbols_sound s -> rsound (policydb_read_labels signed db0 h info s (policydb_string_to_security_class s name)) (labels_sound s).
Proof using H0 Hkern.
  intros Hs. destruct H0 as [_ _ _ _ _ _ Zg (hz & Ez & Hz1 & Hz2) Zd]. unfold policydb_read_labels. cbv zeta. rewrite Zd, Zg, Ez.
  eapply rsound_bind; [apply rsound_of_x, xok_decls|]. intros di _. eapply rsound_bind; [by apply rsound_of_x, classes_ok|]. intros ci Hci.
  eapply rsound_bind; [by apply rsound_of_option, av_perm_safe|]. intros tr _. eapply rsound_bind; [by apply rsound_of_option, av_perm_safe|]. intros dyn _.
  eapply rsound_bind; [apply rsound_of_x, index_others_ok; [apply kern_here|by apply sound_ready]|]. intros ix Hix.
  eapply rsound_bind; [by apply sound_ocontexts|]. intros oc [_ Hoc].
  eapply rsound_bind; [apply sound_genfs; [done|done|by split; constructor]|]. intros gf Hgf%genfs_new.
  eapply (rsound_bind _ _ (ranges_sound (st_nprim (p_types s)) (st_nprim (p_classes s)))).
  { apply rsound_of_r. assert (Hz : ranges_sound (st_nprim (p_types s)) (st_nprim (p_classes s)) (Some hz)) by (exists hz; split_and!; [done..|]; rewrite Hz2; apply map_Forall_empty).
    destruct (_ <=? _); [|by apply sound_ret]. eapply sound_bind; [apply sound_ranges; [apply kern_here|by apply class_value_sound|exact Hz]|]. intros r Hr. by apply sound_ret. }
  intros rg Hrg. eapply rsound_bind; [apply rsound_of_x, xok_maps|]. intros ? <-. eapply rsound_bind; [apply rsound_of_x, xok_maps|]. intros ? <-.
  pose proof Hix as (_ & (_ & Hlen & _) & _). pose proof Hs as (_ & _ & _ & [Nt _] & _).
  eapply rsound_bind; [by apply sound_type_maps|]. intros m [Hm1 Hm2]. apply rsound_ret. split_and!; try done; first [apply Hoc|apply Hgf].
Qed.

Lemma sound_kern :
  POLICYDB_VERSION_MIN <= h_vers h <= POLICYDB_VERSION_MAX -> rsound (policydb_read_kern signed db0 h info) (fun db => db_sound db /\ db_fresh db).
Proof using H0 Hkern Htarget.
  intros Hv. unfold policydb_read_kern. cbv zeta. destruct (ds_caps _ H0) as [C1 C2].
  eapply (rsound_bind _ _ ebitmap_ok). { apply rsound_of_r. destruct (_ <=? _); [apply sound_ebitmap|by apply sound_ret]. } intros caps Hcaps.
  eapply (rsound_bind _ _ ebitmap_ok). { apply rsound_of_r. destruct (_ <=? _); [apply sound_ebitmap|by apply sound_ret]. } intros perm Hperm.
  eapply rsound_bind; [apply rsound_of_r, (sound_symbols (pol_of signed h)); [apply kern_here|done]|]. intros s Hs.
  destruct (process_class_named s (db_process_class db0)) as [name ->].
  eapply rsound_bind; [apply rsound_of_r, sound_rules; by apply class_value_sound|]. intros r (R1 & R2 & R3 & R4 & R5).
  eapply rsound_bind; [by apply sound_labels|]. intros l (L1 & L2 & [L3 L3'] & [L4 L4'] & L5 & L6 & L7). apply rsound_ret.
  split; [|by split]. constructor; cbn; try done. intros c Hc. by apply check_safe.
Qed.
End Read.

(** The bytes begin with the header of a module. *)
Definition module_image (db0 : policydb) (fp : policy_file) (o : oracle) : Prop :=
  exists h fp' o', policydb_read_header (h_target (db_header db0)) fp o = (Some h, fp', o') /\ h_type h.1 <> POLICY_KERN.

Lemma read_sound signed db0 fp o :
  db_start db0 -> pf_bytes fp ->
  match policydb_read signed db0 fp o with
  | None => module_image db0 fp o
  | Some (r, _, _) => forall db, r = Some db -> db_sound db /\ db_fresh db
  end.
Proof.
  intros H0 Hb. unfold policydb_read, rxbind, of_r. destruct (policydb_read_header (h_target (db_header db0)) fp o) as [[[[h info]|] fp1] o1] eqn:E; [|done].
  destruct (sound_header _ _ _ _ _ _ Hb E) as [Hh Hb1]. cbn [fst snd] in *. destruct (Z.eqb_spec (h_type h) POLICY_KERN) as [Hk|Hk].
  - destruct (Hh Hk) as (Hv & Ht & _). destruct (sound_kern signed db0 H0 h info Hk Ht Hv fp1 o1 Hb1) as (r & fp' & o' & -> & Hr). intros db Hdb. by apply Hr.
  - cbn. by exists (h, info), fp1, o1.
Qed.

(** C4: on any bytes that are not the image of a module, and whichever
    allocations fail, [policydb_read] reads outside none of its arrays and
    follows no null pointer.  A kernel policy that it accepts, of any version,
    is consistent: symbol tables well formed, every index array the inverse of
    its table, the caches of roles and users exact, every context of an object
    valid and every context checkable, file systems and paths in order, ranges
    and attribute maps over known types; since version 20 also rules with one
    specifier each and conditionals without conflicts, and since version 33
    file name transitions with one output type for a source. *)
Theorem policydb_read_sound signed db0 fp o :
  db_start db0 -> pf_bytes fp -> ~ module_image db0 fp o ->
  exists r fp' o', policydb_read signed db0 fp o = Some (r, fp', o') /\ forall db, r = Some db -> db_sound db.
Proof.
  intros H0 Hb Hm. pose proof (read_sound signed db0 fp o H0 Hb) as H. destruct (policydb_read signed db0 fp o) as [[[r fp'] o']|]; [|done].
  exists r, fp', o'. split; [done|]. intros db Hdb. by apply H.
Qed.
