(* ===== verification/PolicydbInit.v ===== *)
(** * PolicydbInit: symbols with scopes, and the initial database

    [symtab_insert] enters a symbol together with the declarations it is
    declared or required in; [policydb_init] and [roles_init]
    (libsepol/src/policydb.c) make the database that policies are read into. *)
From Stdlib Require Import ZArith Lia Bool.
From stdpp Require Import base option list list_numbers gmap sets.
From S2P Require Import Prelude PolicyFile Ebitmap EbitmapThms EbitmapRange EbitmapIO Hashtab HashtabThms Symtab Avtab AvtabThms AvtabIO Cond Codec Symbols SymCodec SymbolsIO SymbolsThms Trans TransIO TransIns TransRT TransFt TransThms Index IndexThms ExpandThms IndexAll Contexts ContextsIO CondIO PolicydbSame Policydb PolicydbIO PolicydbThms.

Definition SCOPE_REQ : Z := 1.
Definition SCOPE_DECL : Z := 2.
Definition SYM_ROLES : Z := 2.
Definition SYM_USERS : Z := 4.
Definition ROLE_ROLE : Z := 0.

Record scope_datum := mk_scope { sc_scope : Z; sc_decl_ids : list Z }.

(** [add_i_to_a]: the list has grown by one element, or memory is exhausted. *)
Definition add_i_to_a (i : Z) (a : list Z) (o : oracle) : option (list Z) * oracle :=
  if zlength a =? 2 ^ 32 - 1 then (None, o) else
  let '(ok, o) := malloc o in ((if ok then Some (a ++ [i]) else None), o).

(** The last two elements exchanged; [None]: there are not two. *)
Definition swap_last (l : list Z) : option (list Z) :=
  match reverse l with
  | a :: b :: r => Some (reverse r ++ [a; b])
  | _ => None
  end.

Section Insert.
Context {D : Type} (sym : Z) (flavor : D -> Z) (set_value : D -> Z -> D).

(** From the search for [avrule_decl_id] on, with the scope datum of [key]:
    (return code, what the scope datum has become, allocator). *)
Definition scope_add (sd : scope_datum) (scope decl_id retval : Z) (o : oracle) : Z * scope_datum * oracle :=
  if bool_decide (decl_id ∈ sc_decl_ids sd) then (retval, sd, o) else
  match add_i_to_a decl_id (sc_decl_ids sd) o with
  | (None, o) => (- ENOMEM, sd, o)
  | (Some ids, o) =>
      if (sc_scope sd =? SCOPE_DECL) && (scope =? SCOPE_REQ) then
        match swap_last ids with
        | None => (-1, mk_scope (sc_scope sd) ids, o)
        | Some ids => (retval, mk_scope (sc_scope sd) ids, o)
        end
      else (retval, mk_scope (sc_scope sd) ids, o)
  end.

(** May the symbol be declared again?  Roles and users may, a role if neither
    declaration is of an attribute.  The symbol is in the table. *)
Definition redeclarable (t : symtab D) (key : cstring) (datum : D) : bool :=
  if negb (sym =? SYM_ROLES) && negb (sym =? SYM_USERS) then false
  else if sym =? SYM_ROLES then
    match hashtab_search (st_table t) key with
    | Some base_role => (flavor base_role =? ROLE_ROLE) && (flavor datum =? ROLE_ROLE)
    | None => false
    end
  else true.

(** [symtab_insert] where [value], if [primary], points into [datum]: the
    return code, the symbols and the scopes. *)
Definition symtab_insert (t : symtab D) (scopes : table scope_datum) (key : cstring) (datum : D) (scope decl_id : Z) (primary : bool)
    (o : oracle) : Z * symtab D * table scope_datum * oracle :=
  let next := u32 (st_nprim t + 1) in
  let '(rc, tab, o) := hashtab_insert (st_table t) key (if primary then set_value datum next else datum) o in
  if negb (rc =? SEPOL_OK) && negb (rc =? SEPOL_EEXIST) then (rc, mk_symtab tab (st_nprim t), scopes, o) else
  let t := mk_symtab tab (if (rc =? SEPOL_OK) && primary then next else st_nprim t) in
  let retval := if rc =? SEPOL_OK then 0 else 1 in
  let finish sd o := let '(rc, sd, o) := scope_add sd scope decl_id retval o in (rc, t, sd, o) in
  match hashtab_search scopes key with
  | None =>
      let '(ok, o) := malloc o in
      if negb ok then (- ENOMEM, t, scopes, o) else
      let '(ok, o) := malloc o in
      if negb ok then (- ENOMEM, t, scopes, o) else
      let sd := mk_scope scope [] in
      let '(rc, scopes, o) := hashtab_insert scopes key sd o in
      if ctrue rc then (rc, t, scopes, o) else
      let '(rc, t, sd, o) := finish sd o in (rc, t, hashtab_assign scopes key sd, o)
  | Some sd =>
      if (sc_scope sd =? SCOPE_DECL) && (scope =? SCOPE_DECL) && negb (redeclarable t key datum) then (-2, t, scopes, o) else
      let sd := if (sc_scope sd =? SCOPE_REQ) && (scope =? SCOPE_DECL) then mk_scope SCOPE_DECL (sc_decl_ids sd) else sd in
      let '(rc, t, sd, o) := finish sd o in (rc, t, hashtab_assign scopes key sd, o)
  end.
End Insert.

(** ** The initial database *)

(** A step that may leave for [err], with the [rc] that is returned then. *)
Definition E (A : Type) : Type := oracle -> (A + Z) * oracle.

Definition eret {A} (a : A) : E A := fun o => (inl a, o).
Definition ebind {A B} (m : E A) (k : A -> E B) : E B :=
  fun o => match m o with (inl a, o) => k a o | (inr rc, o) => (inr rc, o) end.
Notation "x <-! m ;; k" := (ebind m (fun x => k)) (at level 100, m at next level, right associativity).

Definition ealloc (rc : Z) : E unit := fun o => let '(ok, o) := malloc o in ((if ok then inl tt else inr rc), o).

(** [symtab_init] of a zeroed table; [rc] is returned if it fails. *)
Definition esymtab {D} (size rc : Z) : E (symtab D) :=
  fun o => let '(r, t, o) := symtab_init (mk_symtab None 0) size o in ((if ctrue r then inr rc else inl t), o).

Definition ecreate {K D} `{!KeyOps K} (size rc : Z) : E (option (hashtab K D)) :=
  fun o => let '(h, o) := hashtab_create size o in ((match h with Some h => inl (Some h) | None => inr rc end), o).

Fixpoint elist {A B} (f : A -> E B) (l : list A) : E (list B) :=
  match l with
  | [] => eret []
  | a :: l => b <-! f a ;; r <-! elist f l ;; eret (b :: r)
  end.

Definition symtab_sizes : list Z := [2; 32; 16; 512; 128; 16; 16; 16].
(** [symtab_sizes] of avrule_block.c *)
Definition decl_symtab_sizes : list Z := [2; 4; 8; 32; 16; 4; 2; 2].

(** [avrule_decl_create(1)]: only whether it succeeds is of interest here. *)
Definition avrule_decl_create (rc : Z) : E unit :=
  _ <-! ealloc rc ;; _ <-! elist (fun size => esymtab (D := unit) size rc) decl_symtab_sizes ;; eret tt.

Definition role_set_value (d : role_datum) (v : Z) : role_datum :=
  mk_role_datum v (role_dominates d) (role_types d) (role_bounds d) (role_flavor d) (role_roles d).

Definition zero_role : role_datum := mk_role_datum 0 ebitmap_init empty_type_set 0 0 ebitmap_init.

(** [roles_init]: [policy_type] is 0 after [memset]. *)
Definition roles_init (policy_type : Z) (roles : symtab role_datum) (scopes : table scope_datum) : E (symtab role_datum * table scope_datum) :=
  _ <-! ealloc (- ENOMEM) ;;
  _ <-! ealloc (- ENOMEM) ;;
  fun o =>
    let '(rc, roles, scopes, o) :=
      symtab_insert SYM_ROLES role_flavor role_set_value roles scopes OBJECT_R zero_role
        (if policy_type =? POLICY_MOD then SCOPE_REQ else SCOPE_DECL) 1 true o in
    if ctrue rc then (inr rc, o)
    else if negb (match hashtab_search (st_table roles) OBJECT_R with Some d => role_value d | None => 0 end =? OBJECT_R_VAL) then (inr (- EINVAL), o)
    else (inl (roles, scopes), o).

Definition zero_header : header := mk_header 0 0 false 0 0 SEPOL_TARGET_SELINUX.

(** The eight tables are created one after the other, then those of the
    scopes; [rc] is still 0 while the scopes and the first block are made. *)
Definition policydb_init_steps (compat : Z) : E (policydb * list (table scope_datum)) :=
  commons <-! esymtab 2 (-1) ;; classes <-! esymtab 32 (-1) ;; roles <-! esymtab 16 (-1) ;; types <-! esymtab 512 (-1) ;;
  users <-! esymtab 128 (-1) ;; bools <-! esymtab 16 (-1) ;; levels <-! esymtab 16 (-1) ;; cats <-! esymtab 16 (-1) ;;
  scopes <-! elist (fun size => esymtab size 0) symtab_sizes ;;
  _ <-! ealloc 0 ;;
  _ <-! avrule_decl_create 0 ;;
  r <-! roles_init 0 roles (default None (map st_table scopes !! Z.to_nat SYM_ROLES)) ;;
  ft <-! ecreate (Z.shiftl 1 10) (- ENOMEM) ;;
  range_tr <-! ecreate 256 (- ENOMEM) ;;
  let empty := mk_avtab None 0 0 0 in
  eret (mk_policydb zero_header ebitmap_init ebitmap_init
          (mk_symbols commons classes r.1 types users bools levels cats)
          0 0 0 0 empty (mk_cond_avtab empty [] []) [] compat [] [] (mk_filename_trans ft 0) [1] []
          (mk_class_indexes [] [] []) (mk_indexes ([], []) ([], []) ([], []) ([], []) [] [] ∅ ∅) [] [] range_tr [] [] 0,
        <[Z.to_nat SYM_ROLES := r.2]> (map st_table scopes)).

(** The return code, and the database: [None] when the tables have been
    freed. *)
Definition policydb_init (compat : Z) (o : oracle) : Z * option (policydb * list (table scope_datum)) * oracle :=
  match policydb_init_steps compat o with
  | (inl db, o) => (0, Some db, o)
  | (inr rc, o) => (rc, None, o)
  end.

(** * Declaring symbols, and the initial database

    What [symtab_insert] does to symbols and scopes; [policydb_init] makes a
    database that a policy can be read into, but may report success when it
    has none. *)

(** ** Declaring and requiring symbols *)

(** The list of declarations with [i]: at the end, or in front of the last
    one, which declares the symbol. *)
Definition add_decl (keep_last : bool) (i : Z) (ids : list Z) : list Z :=
  if bool_decide (i ∈ ids) then ids
  else if keep_last then take (length ids - 1) ids ++ [i] ++ drop (length ids - 1) ids
  else ids ++ [i].

Lemma swap_last_spec ids i : ids <> [] -> swap_last (ids ++ [i]) = Some (take (length ids - 1) ids ++ [i] ++ drop (length ids - 1) ids).
Proof.
  intros Hne. destruct (exists_last Hne) as (l & x & ->). unfold swap_last. rewrite !reverse_app. simpl.
  rewrite reverse_involutive, length_app. simpl. replace (length l + 1 - 1)%nat with (length l) by lia.
  by rewrite take_app_length, drop_app_length.
Qed.

Section Insert.
Context {D : Type} (sym : Z) (flavor : D -> Z) (set_value : D -> Z -> D).

(** The scope of a symbol after one more declaration or requirement;
    [again]: it may be declared again.  [None]: refused. *)
Definition scope_step (old : option scope_datum) (again : bool) (scope decl_id : Z) : option scope_datum :=
  match old with
  | None => Some (mk_scope scope [decl_id])
  | Some sd =>
      if (sc_scope sd =? SCOPE_DECL) && (scope =? SCOPE_DECL) && negb again then None else
      Some (mk_scope (if (sc_scope sd =? SCOPE_REQ) && (scope =? SCOPE_DECL) then SCOPE_DECL else sc_scope sd)
              (add_decl ((sc_scope sd =? SCOPE_DECL) && (scope =? SCOPE_REQ)) decl_id (sc_decl_ids sd)))
  end.

(** Roles and users may be declared again, roles only as roles; [d] is the
    datum in the table. *)
Definition declared_again (d : option D) (datum : D) : bool :=
  if sym =? SYM_ROLES then
    match d with Some base => (flavor base =? ROLE_ROLE) && (flavor datum =? ROLE_ROLE) | None => false end
  else sym =? SYM_USERS.

(** Scopes with declarations, fewer than the counter can hold. *)
Definition scopes_ok (m : gmap cstring scope_datum) : Prop :=
  map_Forall (fun _ sd => sc_decl_ids sd <> [] /\ zlength (sc_decl_ids sd) < 2 ^ 32 - 1) m.

Lemma scope_add_ok sd scope decl_id retval o :
  (sc_decl_ids sd <> [] \/ sc_scope sd <> SCOPE_DECL \/ scope <> SCOPE_REQ) -> zlength (sc_decl_ids sd) < 2 ^ 32 - 1 -> mem_ok o ->
  exists o', scope_add sd scope decl_id retval o =
    (retval, mk_scope (sc_scope sd) (add_decl ((sc_scope sd =? SCOPE_DECL) && (scope =? SCOPE_REQ)) decl_id (sc_decl_ids sd)), o') /\ mem_ok o'.
Proof.
  intros Hne Hl M. unfold scope_add, add_decl, add_i_to_a. case_bool_decide; [exists o; by destruct sd|].
  destruct (Z.eqb_spec (zlength (sc_decl_ids sd)) (2 ^ 32 - 1)); [lia|]. destruct (malloc o) as [ok o'] eqn:E.
  destruct (malloc_mem_ok _ _ _ E M) as [-> M']. exists o'. split; [|done].
  destruct (Z.eqb_spec (sc_scope sd) SCOPE_DECL); [|done]. destruct (Z.eqb_spec scope SCOPE_REQ); [|done]. cbn [andb].
  by rewrite swap_last_spec by naive_solver.
Qed.

Lemma symtab_insert_ok (t : symtab D) h hs key datum scope decl_id primary o :
  st_table t = Some h -> hashtab_ok h -> hashtab_ok hs -> ht_nel h < 2 ^ 32 - 1 -> ht_nel hs < 2 ^ 32 - 1 ->
  0 <= st_nprim t < 2 ^ 32 - 1 -> scopes_ok (hashtab_abs hs) -> mem_ok o ->
  exists rc t' h' hs' o', symtab_insert sym flavor set_value t (Some hs) key datum scope decl_id primary o = (rc, t', Some hs', o') /\
    mem_ok o' /\ st_table t' = Some h' /\ hashtab_ok h' /\ hashtab_ok hs' /\
    match hashtab_abs h !! key with
    | None => hashtab_abs h' = <[key := if primary then set_value datum (st_nprim t + 1) else datum]> (hashtab_abs h) /\
        st_nprim t' = if primary then st_nprim t + 1 else st_nprim t
    | Some _ => hashtab_abs h' = hashtab_abs h /\ st_nprim t' = st_nprim t
    end /\
    match scope_step (hashtab_abs hs !! key) (declared_again (hashtab_abs h' !! key) datum) scope decl_id with
    | None => rc = -2 /\ hashtab_abs hs' = hashtab_abs hs
    | Some sd => rc = (match hashtab_abs h !! key with Some _ => 1 | None => 0 end) /\ hashtab_abs hs' = <[key := sd]> (hashtab_abs hs)
    end.
Proof.
  intros Ht Hok Hoks Hn Hns Hp Hsc M. unfold symtab_insert. rewrite Ht, wrap_small by (unfold in_range; lia).
  set (d := if primary then set_value datum (st_nprim t + 1) else datum).
  pose proof (hashtab_insert_ok h key d o Hok) as Hi. destruct (hashtab_insert (Some h) key d o) as [[rc tab] o1] eqn:E1.
  pose proof (insert_mem_ok _ _ _ _ _ _ _ E1 M) as M1. destruct Hi as (h' & -> & Hok' & Hi).
  assert (Hsym : exists t', (rc = SEPOL_OK \/ rc = SEPOL_EEXIST) /\ t' = mk_symtab (Some h') (if (rc =? SEPOL_OK) && primary then st_nprim t + 1 else st_nprim t) /\
    (if rc =? SEPOL_OK then 0 else 1) = (match hashtab_abs h !! key with Some _ => 1 | None => 0 end) /\
    match hashtab_abs h !! key with
    | None => hashtab_abs h' = <[key := d]> (hashtab_abs h) /\ st_nprim t' = if primary then st_nprim t + 1 else st_nprim t
    | Some _ => hashtab_abs h' = hashtab_abs h /\ st_nprim t' = st_nprim t
    end).
  { exists (mk_symtab (Some h') (if (rc =? SEPOL_OK) && primary then st_nprim t + 1 else st_nprim t)).
    destruct Hi as [(-> & Hk & Habs)|[(-> & [d0 Hk] & Habs)|(_ & _ & [Hfull|Hmem])]]; [|..|lia|done].
    - rewrite Hk. split_and!; [by left|done..].
    - rewrite Hk. split_and!; [by right|done..]. }
  destruct Hsym as (t' & Hrc & Et & Eret & Habs). rewrite <- Et, Eret.
  assert (negb (rc =? SEPOL_OK) && negb (rc =? SEPOL_EEXIST) = false) as -> by (by destruct Hrc as [-> | ->]).
  set (ret := match hashtab_abs h !! key with Some _ => 1 | None => 0 end). assert (Htab : st_table t' = Some h') by (by rewrite Et). clear Et Eret Hi E1.
  rewrite hashtab_search_ok by done. destruct (hashtab_abs hs !! key) as [sd|] eqn:Esd; cbn [scope_step].
  - assert (Hag : redeclarable sym flavor t' key datum = declared_again (hashtab_abs h' !! key) datum).
    { unfold redeclarable, declared_again. rewrite Htab, hashtab_search_ok by done.
      destruct (Z.eqb_spec sym SYM_ROLES), (Z.eqb_spec sym SYM_USERS); done. }
    rewrite Hag. destruct ((sc_scope sd =? SCOPE_DECL) && (scope =? SCOPE_DECL) && negb (declared_again (hashtab_abs h' !! key) datum)) eqn:Eag;
      [exists (-2), t', h', hs, o1; rewrite Eag; by split_and!|].
    set (sd' := if (sc_scope sd =? SCOPE_REQ) && (scope =? SCOPE_DECL) then mk_scope SCOPE_DECL (sc_decl_ids sd) else sd).
    destruct (Hsc key sd Esd) as [Hne Hl].
    assert (Hids : sc_decl_ids sd' = sc_decl_ids sd) by (unfold sd'; destruct ((sc_scope sd =? SCOPE_REQ) && (scope =? SCOPE_DECL)); reflexivity).
    destruct (scope_add_ok sd' scope decl_id ret o1) as (o2 & -> & M2); [left; by rewrite Hids|by rewrite Hids|done|].
    destruct (hashtab_assign_spec hs key (mk_scope (sc_scope sd') (add_decl ((sc_scope sd' =? SCOPE_DECL) && (scope =? SCOPE_REQ)) decl_id (sc_decl_ids sd'))) Hoks) as (hs' & -> & Hoks' & _ & Habs'); [by rewrite Esd|].
    exists ret, t', h', hs', o2. rewrite Eag. split_and!; try done. rewrite Habs'. do 2 f_equal; [unfold sd'; destruct ((sc_scope sd =? SCOPE_REQ) && (scope =? SCOPE_DECL)); reflexivity|].
    rewrite Hids. f_equal. unfold sd'. destruct (Z.eqb_spec (sc_scope sd) SCOPE_REQ), (Z.eqb_spec scope SCOPE_DECL); try done. cbn [andb sc_scope]. subst scope.
    by rewrite !andb_false_r.
  - destruct (malloc o1) as [ok o2] eqn:E2. destruct (malloc_mem_ok _ _ _ E2 M1) as [-> M2]. cbn [negb].
    destruct (malloc o2) as [ok o3] eqn:E3. destruct (malloc_mem_ok _ _ _ E3 M2) as [-> M3]. cbn [negb].
    pose proof (hashtab_insert_ok hs key (mk_scope scope []) o3 Hoks) as Hi. destruct (hashtab_insert (Some hs) key _ o3) as [[rc2 tab2] o4] eqn:E4.
    pose proof (insert_mem_ok _ _ _ _ _ _ _ E4 M3) as M4.
    destruct Hi as (hs1 & -> & Hok1 & [(-> & _ & Habs1)|[(_ & [? Hk] & _)|(_ & _ & [Hfull|Hmem])]]); [|congruence|lia|done]. cbn [ctrue Z.eqb negb SEPOL_OK].
    destruct (scope_add_ok (mk_scope scope []) scope decl_id ret o4) as (o5 & -> & M5); [|done|done|].
    { right. destruct (decide (scope = SCOPE_DECL)) as [->|]; [by right|by left]. }
    cbn [sc_scope sc_decl_ids]. assert (add_decl ((scope =? SCOPE_DECL) && (scope =? SCOPE_REQ)) decl_id [] = [decl_id]) as ->.
    { unfold add_decl. rewrite bool_decide_false by apply not_elem_of_nil. by destruct (_ && _). }
    destruct (hashtab_assign_spec hs1 key (mk_scope scope [decl_id]) Hok1) as (hs2 & -> & Hok2 & _ & Habs2); [by rewrite Habs1, lookup_insert_eq|].
    exists ret, t', h', hs2, o5. split_and!; try done. by rewrite Habs2, Habs1, insert_insert_eq.
Qed.
End Insert.

(** C24: [symtab_insert], when memory lasts and neither the tables nor the values
    are used up: a new symbol is entered with the next value (if it is to have
    one) and 0 returned, an old one is left as it is and 1 is returned; the
    declaration is added once to the scope of the symbol, at the end, or before
    the last one when a declared symbol is only required; a required symbol
    becomes declared; a second declaration is refused with -2 unless the symbol
    is a user, or a role both times. *)
Theorem symtab_insert_spec {D} sym flavor set_value (t : symtab D) h hs key datum scope decl_id primary o :
  st_table t = Some h -> hashtab_ok h -> hashtab_ok hs -> ht_nel h < 2 ^ 32 - 1 -> ht_nel hs < 2 ^ 32 - 1 ->
  0 <= st_nprim t < 2 ^ 32 - 1 -> scopes_ok (hashtab_abs hs) -> mem_ok o ->
  exists rc t' h' hs' o', symtab_insert sym flavor set_value t (Some hs) key datum scope decl_id primary o = (rc, t', Some hs', o') /\
    mem_ok o' /\ st_table t' = Some h' /\ hashtab_ok h' /\ hashtab_ok hs' /\
    match hashtab_abs h !! key with
    | None => hashtab_abs h' = <[key := if primary then set_value datum (st_nprim t + 1) else datum]> (hashtab_abs h) /\
        st_nprim t' = if primary then st_nprim t + 1 else st_nprim t
    | Some _ => hashtab_abs h' = hashtab_abs h /\ st_nprim t' = st_nprim t
    end /\
    match scope_step (hashtab_abs hs !! key) (declared_again sym flavor (hashtab_abs h' !! key) datum) scope decl_id with
    | None => rc = -2 /\ hashtab_abs hs' = hashtab_abs hs
    | Some sd => rc = (match hashtab_abs h !! key with Some _ => 1 | None => 0 end) /\ hashtab_abs hs' = <[key := sd]> (hashtab_abs hs)
    end.
Proof. apply symtab_insert_ok. Qed.

(** ** The initial database *)

Definition eok {A} (m : E A) (Q : A -> Prop) : Prop := forall o, mem_ok o -> exists a o', m o = (inl a, o') /\ mem_ok o' /\ Q a.

Lemma eok_bind {A B} (m : E A) (k : A -> E B) (P : A -> Prop) (Q : B -> Prop) :
  eok m P -> (forall a, P a -> eok (k a) Q) -> eok (ebind m k) Q.
Proof.
  intros Hm Hk o M. destruct (Hm o M) as (a & o1 & E1 & M1 & Ha). destruct (Hk a Ha o1 M1) as (b & o2 & E2 & M2 & Hb).
  exists b, o2. unfold ebind. by rewrite E1, E2.
Qed.

Lemma eok_ret {A} (a : A) (Q : A -> Prop) : Q a -> eok (eret a) Q.
Proof. intros H o M. by exists a, o. Qed.

Lemma eok_alloc rc : eok (ealloc rc) (fun _ => True).
Proof. intros o M. unfold ealloc. destruct (malloc o) as [ok o'] eqn:E. destruct (malloc_mem_ok _ _ _ E M) as [-> M']. eauto. Qed.

(** The table that is created. *)
Definition fresh_table {K D} (size : Z) : hashtab K D := mk_hashtab (replicate (Z.to_nat size) []) size 0.

Lemma fresh_table_ok {K D} `{!EqDecision K, !Countable K, !KeyOps K, !KeyLaws K} size :
  0 < size < 2 ^ 32 -> hashtab_ok (@fresh_table K D size) /\ hashtab_abs (@fresh_table K D size) = ∅.
Proof.
  intros Hs. unfold hashtab_ok, hashtab_abs, table_inv, fresh_table. simpl. rewrite replicate_concat. split; [|done].
  split; [done|]. split; [|done]. split; [rewrite length_replicate; lia|apply replicate_table].
Qed.

Lemma eok_create {K D} `{!KeyOps K} size rc : eok (@ecreate K D _ size rc) (eq (Some (fresh_table size))).
Proof.
  intros o M. unfold ecreate, hashtab_create. destruct (malloc o) as [ok o1] eqn:E1. destruct (malloc_mem_ok _ _ _ E1 M) as [-> M1]. cbn [negb].
  destruct (malloc o1) as [ok o2] eqn:E2. destruct (malloc_mem_ok _ _ _ E2 M1) as [-> M2]. cbn [negb]. eauto.
Qed.

Lemma eok_symtab {D} size rc : eok (@esymtab D size rc) (eq (mk_symtab (Some (fresh_table size)) 0)).
Proof.
  intros o M. unfold esymtab, symtab_init, hashtab_create. destruct (malloc o) as [ok o1] eqn:E1. destruct (malloc_mem_ok _ _ _ E1 M) as [-> M1]. cbn [negb].
  destruct (malloc o1) as [ok o2] eqn:E2. destruct (malloc_mem_ok _ _ _ E2 M1) as [-> M2]. cbn [negb ctrue Z.eqb]. eauto.
Qed.

Lemma eok_list {A B} (f : A -> E B) (g : A -> B) l : (forall a, eok (f a) (eq (g a))) -> eok (elist f l) (eq (map g l)).
Proof.
  intros Hf. induction l as [|a l IH]; [by apply eok_ret|]. cbn [elist map]. eapply eok_bind; [apply Hf|]. intros ? <-.
  eapply eok_bind; [exact IH|]. intros ? <-. by apply eok_ret.
Qed.

Lemma eok_decl rc : eok (avrule_decl_create rc) (fun _ => True).
Proof.
  unfold avrule_decl_create. eapply eok_bind; [apply eok_alloc|]. intros _ _.
  eapply eok_bind; [apply (eok_list _ (fun size => mk_symtab (Some (fresh_table size)) 0)); intros; apply eok_symtab|]. intros _ _. by apply eok_ret.
Qed.

(** [object_r] as [policydb_init] makes it. *)
Definition object_r_datum : role_datum := role_set_value zero_role OBJECT_R_VAL.

Lemma eok_roles roles scopes :
  eok (roles_init 0 (mk_symtab (Some (fresh_table roles)) 0) (Some (fresh_table scopes)))
    (fun r => (exists h, st_table r.1 = Some h /\ hashtab_ok h /\ hashtab_abs h = {[OBJECT_R := object_r_datum]}) /\ exists hs, r.2 = Some hs /\ hashtab_ok hs) \/ ~ (0 < roles < 2 ^ 32 /\ 0 < scopes < 2 ^ 32).
Proof.
  destruct (decide (0 < roles < 2 ^ 32 /\ 0 < scopes < 2 ^ 32)) as [[Hr Hs]|]; [left|by right].
  destruct (fresh_table_ok (K := cstring) (D := role_datum) roles Hr) as [Hok Habs]. destruct (fresh_table_ok (K := cstring) (D := scope_datum) scopes Hs) as [Hoks Habss].
  unfold roles_init. eapply eok_bind; [apply eok_alloc|]. intros _ _. eapply eok_bind; [apply eok_alloc|]. intros _ _ o M.
  destruct (symtab_insert_ok SYM_ROLES role_flavor role_set_value (mk_symtab (Some (fresh_table roles)) 0) (fresh_table roles) (fresh_table scopes)
    OBJECT_R zero_role SCOPE_DECL 1 true o) as (rc & t' & h' & hs' & o' & E & M' & Ht & Hok' & Hoks' & Hsym & Hscope); try done.
  { rewrite Habss. apply map_Forall_empty. }
  cbn [Z.eqb POLICY_MOD]. rewrite E. rewrite Habss, lookup_empty in Hscope. destruct Hscope as [Hrc _]. rewrite Habs, lookup_empty in Hsym, Hrc. cbn in Hrc. subst rc.
  cbn [ctrue Z.eqb negb]. destruct Hsym as [Hsym _]. rewrite Ht, hashtab_search_ok, Hsym, lookup_insert_eq by done.
  exists (t', Some hs'), o'. split; [done|]. split; [done|]. split; [|by exists hs']. exists h'. split_and!; [done..|]. by rewrite Hsym, insert_empty.
Qed.

Lemma fresh_start {D} keep size : 0 < size < 2 ^ 32 -> symtab_start keep (mk_symtab (Some (@fresh_table cstring D size)) 0).
Proof.
  intros Hs. destruct (fresh_table_ok (K := cstring) (D := D) size Hs) as [Hok Habs]. exists (fresh_table size). split_and!; [done..|].
  intros k _. by rewrite Habs, lookup_empty.
Qed.

Lemma fresh_scope size : 0 < size < 2 ^ 32 -> exists h : hashtab cstring scope_datum, Some (fresh_table size) = Some h /\ hashtab_ok h.
Proof. intros Hs. exists (fresh_table size). split; [done|]. by apply fresh_table_ok. Qed.

Lemma policydb_init_steps_ok compat :
  eok (policydb_init_steps compat)
    (fun r => (db_start r.1 /\ db_compat r.1 = compat /\ symtab_abs (p_roles (db_symbols r.1)) = {[OBJECT_R := object_r_datum]}) /\
      Forall (fun t => exists h, t = Some h /\ hashtab_ok h) r.2).
Proof.
  unfold policydb_init_steps. do 8 (eapply eok_bind; [apply eok_symtab|]; intros ? <-).
  eapply eok_bind; [apply (eok_list _ (fun size => mk_symtab (Some (fresh_table size)) 0)); intros; apply eok_symtab|]. intros ? <-.
  eapply eok_bind; [apply eok_alloc|]. intros _ _. eapply eok_bind; [apply eok_decl|]. intros _ _.
  destruct (eok_roles 16 16) as [Hroles|[]]; [|lia]. eapply eok_bind; [exact Hroles|]. intros r [(h & Eh & Hok & Habs) (hs & Ehs & Hoks)].
  eapply eok_bind; [apply eok_create|]. intros ? <-. eapply eok_bind; [apply eok_create|]. intros ? <-. apply eok_ret. cbn [fst snd]. split.
  2:{ apply Forall_insert; [|by exists hs]. unfold symtab_sizes. cbn [map st_table]. repeat apply Forall_cons_2; [apply fresh_scope; lia..|constructor]. }
  destruct (fresh_table_ok (K := filename_trans_key) (D := ft_chain) (Z.shiftl 1 10)) as [Hft1 Hft2]; [done|].
  destruct (fresh_table_ok (K := range_trans) (D := mls_range) 256) as [Hr1 Hr2]; [done|].
  split_and!; [|done|unfold symtab_abs; cbn; by rewrite Eh].
  constructor; cbn; [done| | |done|done| |done| |done].
  - split_and!; try (by apply fresh_start). exists h. split_and!; [done..| |].
    + rewrite (hashtab_nel_size h Hok), Habs, map_size_singleton. lia.
    + intros k Hk. cbn. rewrite Habs. apply lookup_singleton_ne. intros <-. by vm_compute in Hk.
  - unfold symtab_abs. cbn. rewrite Eh, Habs. by apply map_Forall_singleton.
  - exists (fresh_table (Z.shiftl 1 10)). by split_and!.
  - exists (fresh_table 256). by split_and!.
Qed.

(** [policydb_init] returns 0 when memory does not run out, with a
    database that a policy can be read into: empty tables, the role [object_r]
    with value 1 alone, one declaration. *)
Theorem policydb_init_spec compat o :
  mem_ok o -> exists db scopes o', policydb_init compat o = (0, Some (db, scopes), o') /\
    db_start db /\ db_compat db = compat /\ symtab_abs (p_roles (db_symbols db)) = {[OBJECT_R := object_r_datum]}.
Proof.
  intros M. destruct (policydb_init_steps_ok compat o M) as ([db scopes] & o' & E & _ & H). exists db, scopes, o'. unfold policydb_init. rewrite E. by destruct H as [? _].
Qed.

Lemma init_scopes compat o db scopes o' : mem_ok o -> policydb_init compat o = (0, Some (db, scopes), o') -> Forall (fun t => exists h, t = Some h /\ hashtab_ok h) scopes.
Proof.
  intros M E. destruct (policydb_init_steps_ok compat o M) as ([db1 scopes1] & o1 & E1 & _ & _ & H). unfold policydb_init in E. rewrite E1 in E. by injection E as <- <- <-.
Qed.

Lemma policydb_init_witness :
  exists db scopes o', policydb_init 0 [] = (0, Some (db, scopes), o') /\
    db_start db /\ db_compat db = 0 /\ symtab_abs (p_roles (db_symbols db)) = {[OBJECT_R := object_r_datum]}.
Proof. apply (policydb_init_spec 0 []). constructor. Defined.

(** [policydb_init] can return 0, for success, after it has failed and
    freed all tables: when the seventeenth allocation, the first one for the
    scopes, fails, [rc] still holds the 0 of the loop before. *)
Theorem policydb_init_fails_silently : policydb_init 0 (replicate 16 true ++ [false]) = (0, None, []).
Proof. vm_compute. reflexivity. Qed.
