(* ===== verification/PolicydbConvert.v ===== *)
(** * PolicydbConvert: policies and memory images

    [policydb_to_image] and [policydb_from_image] (libsepol/src/policydb_convert.c):
    the length of the image is found out by a write that only counts, and the
    image is read again before it is handed out. *)
From Stdlib Require Import ZArith Lia Bool.
From stdpp Require Import base option list list_numbers gmap sets.
From S2P Require Import Prelude PolicyFile Ebitmap EbitmapThms EbitmapRange EbitmapIO Hashtab HashtabThms Symtab Avtab AvtabThms AvtabIO Cond Codec Symbols SymCodec SymbolsIO Trans Index IndexThms ExpandThms IndexAll Contexts ContextText CondIO CondIOThms PolicydbSame Policydb PolicydbIO PolicydbThms PolicydbInit.

Section Convert.
Context (signed : bool).

(** The policy, or failure. *)
Definition policydb_from_image (data : list Z) (db : policydb) : X policydb :=
  fun o => match policydb_read signed db (mem_file data) o with
           | None => None
           | Some (r, _, o) => Some (r, o)
           end.

(** A buffer of [len] bytes after [out] has been put at its front. *)
Definition filled (len : Z) (out : list Z) : list Z := out ++ replicate (Z.to_nat (len - zlength out)) UNINIT.

(** [newdata]; its length is [newlen].  [policydb_init] may claim success and
    leave no tables; the reader would then work on freed memory. *)
Definition policydb_to_image (compat : Z) (db : policydb) : X (list Z) :=
  fun o =>
    let '(rc, pf) := policydb_write signed db (mk_policy_file PF_LEN [] 0 [] []) in
    if ctrue rc then Some (None, o) else
    let '(ok, o) := malloc o in
    if negb ok then Some (None, o) else
    let tmp_len := pf_len pf in
    let '(rc, pf) := policydb_write signed db (mk_policy_file PF_USE_MEMORY [] tmp_len [] []) in
    if ctrue rc then Some (None, o) else
    let tmp_data := filled tmp_len (pf_out pf) in
    let '(rc, tmp_policydb, o) := policydb_init compat o in
    if ctrue rc then Some (None, o) else
    match tmp_policydb with
    | None => None
    | Some (tmp_policydb, _) =>
        match policydb_read signed tmp_policydb (mem_file tmp_data) o with
        | None => None
        | Some (None, _, o) => Some (None, o)
        | Some (Some _, _, o) => Some (Some tmp_data, o)
        end
    end.

Lemma filled_full bs : filled (zlength bs) bs = bs.
Proof using Type. unfold filled. by rewrite Z.sub_diag, app_nil_r. Qed.

Section Image.
Context (db : policydb) (cs : list cond_content) (Hdb : db_ok signed db cs).
Context (Hobj : symtab_abs (p_roles (db_symbols db)) !! OBJECT_R = Some object_r_datum).

(** A fresh database, as [policydb_init] makes it. *)
Definition fresh_db (db0 : policydb) : Prop :=
  db_start db0 /\ db_compat db0 = db_compat db /\ symtab_abs (p_roles (db_symbols db0)) = {[OBJECT_R := object_r_datum]}.

Lemma read_fresh db0 o :
  fresh_db db0 -> mem_ok o ->
  exists db' o', policydb_read signed db0 (mem_file (db_image signed db cs)) o = Some (Some db', mem_file [], o') /\ mem_ok o' /\ db_same db db' cs.
Proof using Hdb Hobj.
  intros (H0 & Hc & Hr) M. destruct (reads_db signed db db0 cs Hdb H0) with (fp := mem_file (db_image signed db cs)) (rest := @nil Z) (o := o) as (db' & o' & E & M' & Hs);
    [by rewrite Hobj, Hr, lookup_singleton|done|done|done|by rewrite app_nil_r|]. by exists db', o'.
Qed.

Lemma to_image_ok o :
  zlength (db_image signed db cs) < 2 ^ 64 -> mem_ok o ->
  exists o', policydb_to_image (db_compat db) db o = Some (Some (db_image signed db cs), o') /\ mem_ok o'.
Proof using Hdb Hobj.
  intros Hl M. pose proof (zlength_nonneg (db_image signed db cs)) as Hnn. unfold policydb_to_image.
  rewrite (writes_db signed db cs Hdb) by (cbn; lia). cbn [ctrue POLICYDB_SUCCESS Z.eqb negb].
  destruct (malloc o) as [ok o1] eqn:E. destruct (malloc_mem_ok _ _ _ E M) as [-> M1]. cbn [negb wrote pf_ty pf_len pf_out pf_data pf_io]. rewrite Z.add_0_l.
  rewrite (writes_db signed db cs Hdb) by (cbn; lia). cbn [ctrue POLICYDB_SUCCESS Z.eqb negb wrote pf_ty pf_out app]. rewrite filled_full.
  destruct (policydb_init_steps_ok (db_compat db) o1 M1) as ([db0 scopes] & o2 & E2 & M2 & (H0 & Hc & Hr) & _). unfold policydb_init. rewrite E2. cbn [fst] in *. cbn [ctrue Z.eqb negb].
  destruct (read_fresh db0 o2) as (db' & o3 & -> & M3 & _); [by split_and!|done|]. by exists o3.
Qed.
End Image.
End Convert.

(** C12: for a consistent SELinux kernel policy of version 29 to 33 ([db_ok]) with
    the role [object_r], whose image is shorter than 2^64 bytes, as long as memory
    lasts, [policydb_to_image] succeeds: the counting write gives the exact
    length of the image, the second write fills it, and the image is accepted by
    the reader; [policydb_from_image] makes a policy of it that says the same. *)
Theorem policydb_image_roundtrip signed db db0 cs o :
  db_ok signed db cs -> symtab_abs (p_roles (db_symbols db)) !! OBJECT_R = Some object_r_datum -> fresh_db db db0 ->
  zlength (db_image signed db cs) < 2 ^ 64 -> mem_ok o ->
  exists data o1 db' o2, policydb_to_image signed (db_compat db) db o = Some (Some data, o1) /\
    policydb_from_image signed data db0 o1 = Some (Some db', o2) /\ db_same db db' cs.
Proof.
  intros Hdb Hobj H0 Hl M. destruct (to_image_ok signed db cs Hdb Hobj o Hl M) as (o1 & E1 & M1).
  destruct (read_fresh signed db cs Hdb Hobj db0 o1 H0 M1) as (db' & o2 & E2 & _ & Hs). exists (db_image signed db cs), o1, db', o2.
  unfold policydb_from_image. by rewrite E2.
Qed.
