(* ===== verification/PolicydbSample.v ===== *)
(** * PolicydbSample: a small kernel policy

    A policy with one symbol of every kind (and [object_r]), access vector
    rules, a conditional, transitions, labelled objects, a file system and a
    range; witnesses for the theorems on whole policies. *)
From Stdlib Require Import ZArith Lia Bool.
From stdpp Require Import base option list list_numbers gmap sets.
From S2P Require Import Prelude PolicyFile Ebitmap EbitmapThms EbitmapRange EbitmapIO Hashtab HashtabThms Symtab Avtab AvtabThms AvtabIO Cond Codec Symbols SymCodec SymbolsIO SymbolsThms SymbolsSample Trans TransIO TransIns TransRT TransFt TransThms Index IndexThms ExpandThms IndexAll IndexSample Contexts ContextsIO ContextsValid CondIO CondIOThms CondSound PolicydbSame Policydb PolicydbIO PolicydbThms PolicydbSound PolicydbInit PolicydbConvert.

(** ** Symbols *)

(** A name written out. *)
Lemma name_lit s : negb (zlength s =? 0) && (zlength s <? 2 ^ 32) && forallb (fun c => (0 <? c) && (c <? 256)) s = true -> name_ok s.
Proof.
  intros H. apply andb_prop in H as [[H1 H2]%andb_prop H3]. split; [by intros ->|]. split; [lia|]. apply Forall_forall. intros c Hc.
  rewrite forallb_forall in H3. apply list_elem_of_In, H3, andb_prop in Hc. lia.
Qed.

Definition db_role : role_datum := mk_role_datum 2 ebitmap_init (mk_type_set (bit_set 1) ebitmap_init 0) 0 0 ebitmap_init.
Definition db_roles_table : hashtab cstring role_datum := mk_hashtab [[(OBJECT_R, object_r); ([114], db_role)]] 1 2.
Definition db_roles : symtab role_datum := mk_symtab (Some db_roles_table) 2.

(** The class "process" with the permission "transition". *)
Definition db_class : class_datum :=
  mk_class_datum 1 (Some [102]) (one str_transition (mk_perm_datum 1)) [sample_constraint] [] 1 0 0 3.

Definition db_user : user_datum :=
  mk_user_datum 1 (mk_role_set (bit_set 2) 0) (mk_semantic_range empty_semantic_level empty_semantic_level) empty_semantic_level
    (mk_mls_range sample_level sample_level) sample_level 0.

Definition db_sample_symbols : symbols :=
  mk_symbols (one [102] sample_common) (one str_process db_class) db_roles (one [116] sample_type)
    (one [117] db_user) (one [98] (mk_cond_bool_datum 1 1 0)) (one [115; 48] (mk_level_datum sample_level 0))
    (one [99; 48] (mk_cat_datum 1 0)).

Definition sample_header : header := mk_header POLICY_KERN 30 true 2 0 SEPOL_TARGET_SELINUX.

Lemma db_roles_ok : hashtab_ok db_roles_table.
Proof.
  split; [done|]. split; [|done]. split; [done|]. split; [|done]. split.
  - repeat constructor.
  - repeat constructor; simpl; match goal with |- symhash 1 ?k = _ => pose proof (symhash_range 1 k); lia end.
Qed.

Lemma db_roles_abs k d : symtab_abs db_roles !! k = Some d -> k = OBJECT_R /\ d = object_r \/ k = [114] /\ d = db_role.
Proof.
  unfold symtab_abs, hashtab_abs. simpl. rewrite insert_empty. rewrite lookup_insert_Some. intros [[<- <-]|[_ H]]; [by left|right].
  by apply lookup_singleton_Some in H as [<- <-].
Qed.

Lemma db_roles_indexable : indexable role_val db_roles /\ table_values_ok role_val db_roles.
Proof.
  split.
  - exists db_roles_table. split_and!; [done|apply db_roles_ok|]. intros k d [[-> ->]|[-> ->]]%db_roles_abs v [= <-]; simpl; lia.
  - split.
    + intros k d v [[-> ->]|[-> ->]]%db_roles_abs [= <-]; simpl; lia.
    + intros k1 k2 d1 d2 v [[-> ->]|[-> ->]]%db_roles_abs [[-> ->]|[-> ->]]%db_roles_abs [= <-] E; done.
Qed.

Lemma db_class_ok : class_ok (pol_of true sample_header) (known_commons db_sample_symbols) str_process db_class.
Proof.
  split; [by apply name_lit|]. split_and!; try done.
  - exists (one_table str_transition (mk_perm_datum 1)). split_and!; [done|apply one_table_ok|done|done|done|].
    constructor; [|constructor]. split; [by apply name_lit|done].
  - intros ck [= <-]. split; [by apply name1|]. by exists sample_common.
  - split; [done|]. constructor; [apply sample_constraint_ok|constructor].
  - by left.
Qed.

Lemma db_symbols_ok : symbols_ok (pol_of true sample_header) db_sample_symbols.
Proof.
  split_and!; try apply one_ok.
  1: { split_and!; [by apply name1|done|by apply one_perms]. }
  1: { apply db_class_ok. }
  1: { exists db_roles_table. split_and!; [done|apply db_roles_ok| |done..]. constructor; [|constructor; [|constructor]]; split_and!; try done; try concrete. }
  all: split_and!; try done; try (by apply name1); try (by apply name2); try concrete; try (by left); try (by right).
Qed.

(** The one type, and type sets that name it alone or nothing. *)
Lemma db_type_set x set :
  x = [Some ([116], sample_type)] -> ts_flags set = 0 -> ts_negset set = ebitmap_init -> ts_types set = bit_set 1 \/ ts_types set = ebitmap_init ->
  type_set_ready true 1 x set true.
Proof.
  intros -> Hf Hn Ht. destruct bit_set_one as [Hok1 Hb1]. constructor; rewrite ?Hf, ?Hn; try done.
  - by destruct Ht as [-> | ->].
  - destruct Ht as [-> | ->]; [|by intros _ i Hi]. intros _ i Hi. specialize (Hb1 i Hi). assert (i = 0) as -> by lia. split; [done|by eexists].
  - intros [|i] k d H; [|done]. simpl in H. injection H as <- <-. concrete.
Qed.

Lemma db_role_sets k role st :
  symtab_abs (p_roles db_sample_symbols) !! k = Some role -> inverse type_val 1 (symtab_abs (p_types db_sample_symbols)) st ->
  type_set_ready true 1 st.2 (role_types role) true.
Proof.
  intros Hk Hst. apply db_type_set; [by apply ix_types|..]; apply db_roles_abs in Hk as [[-> ->]|[-> ->]]; try done; [by right|by left].
Qed.

Lemma bit_set_two : ebitmap_ok (bit_set 2) /\ forall b, b ∈ ebitmap_set (bit_set 2) -> 0 <= b < 2.
Proof. split; [concrete|]. bits. Qed.

Lemma db_user_sets k user : symtab_abs (p_users db_sample_symbols) !! k = Some user -> role_set_ready true 2 (user_roles user).
Proof.
  intros [-> ->]%one_abs. destruct bit_set_two as [Hok Hb]. split; [done|]. by split.
Qed.

Lemma db_classes_ready : classes_ready db_sample_symbols.
Proof. split; by apply one_indexable. Qed.

Lemma db_others_ready : others_ready true db_sample_symbols.
Proof.
  constructor; [by apply ready_always, db_roles_indexable|by apply ready_always, one_indexable..|exact db_role_sets|exact db_user_sets].
Qed.

(** ** Its indexes *)

Definition no_class_indexes : class_indexes := mk_class_indexes [] [] [].
Definition no_indexes : indexes := mk_indexes ([], []) ([], []) ([], []) ([], []) [] [] ∅ ∅.

Definition the_class_indexes : class_indexes := 
  match policydb_index_classes db_sample_symbols [] with
  | Some (Some ci, _) => ci
  | _ => no_class_indexes
  end.
Definition the_indexes : indexes :=
  match policydb_index_others (pol_of true sample_header) true db_sample_symbols [] with
  | Some (Some ix, _) => ix
  | _ => no_indexes
  end.

Lemma the_classes_indexed : classes_indexed db_sample_symbols the_class_indexes.
Proof.
  destruct db_classes_ready as [[H1 V1] [H2 V2]]. destruct (index_classes_cases db_sample_symbols [] H1 H2) as (r & o' & E & _ & Hr).
  unfold the_class_indexes. rewrite E. destruct r as [ci|]; [apply Hr|]. by destruct (Hr (Forall_nil_2 _)).
Qed.

Lemma the_others_indexed : others_indexed db_sample_symbols the_indexes.
Proof.
  destruct (xok_elim _ _ [] (index_others_ok (pol_of true sample_header) true db_sample_symbols eq_refl db_others_ready) (Forall_nil_2 _)) as (ix & o' & E & _ & H).
  unfold the_indexes. by rewrite E.
Qed.

(** ** Contexts, objects and rules *)

Definition low : mls_range := mk_mls_range sample_level sample_level.
Definition object_context : context_struct := mk_context 1 1 1 low.
Definition process_context : context_struct := mk_context 1 2 1 low.

Lemma sample_contexts c : c = object_context \/ c = process_context -> context_ok true db_sample_symbols the_indexes c.
Proof. intros [-> | ->]; split_and!; try done; by vm_compute. Qed.

(** The kernel's initial context, a port, an interface, an IPv6 node, a kind
    of file system, and paths below "proc". *)
Definition sample_objects : list (list ocontext) :=
  [[mk_ocontext U_ZERO 0 process_context empty_context 1 0]; [];
   [mk_ocontext (U_PORT 6 80 443) 0 object_context empty_context 0 0];
   [mk_ocontext (U_NAME [108; 111]) 0 object_context object_context 0 0]; [];
   [mk_ocontext (U_NAME [101; 120; 116; 52]) 1 object_context empty_context 0 0];
   [mk_ocontext (U_NODE6 [0; 0; 0; 1] [2 ^ 32 - 1; 0; 0; 0]) 0 object_context empty_context 0 0]].

Definition sample_genfs : list genfs :=
  [mk_genfs [112; 114; 111; 99]
     [mk_ocontext (U_NAME [47; 110; 101; 116]) 0 object_context empty_context 0 0; mk_ocontext (U_NAME [47]) 0 object_context empty_context 0 0]].

(** [if b { allow 2 3 : 1 9; } else { type_transition 2 3 : 1 1; }] *)
Definition sample_content : cond_content :=
  mk_content 1 [mk_cond_expr COND_BOOL 1]
    [mk_avtab_node (mk_avtab_key 2 3 1 AVTAB_ALLOWED) (mk_avtab_datum 9 None)]
    [mk_avtab_node (mk_avtab_key 2 3 1 AVTAB_TRANSITION) (mk_avtab_datum 1 None)].

Definition sample_cond_node : cond_node := node_at 0 sample_content.
Definition sample_cond_avtab : cond_avtab := mk_cond_avtab (mk_avtab None 0 0 0) [] (marked (cc_rules sample_content)).

Definition sample_ranges_table : hashtab range_trans mls_range := mk_hashtab [[(mk_range_trans 1 1 1, low)]] 1 1.

Definition sample_db : policydb :=
  mk_policydb sample_header (bit_set 5) (bit_set 2) db_sample_symbols
    1 0 1 1 sample_avtab sample_cond_avtab [sample_cond_node] 0
    [mk_role_trans 2 1 1 1] [mk_role_allow 1 2] sample_ft [1] [Some 0%nat]
    the_class_indexes the_indexes sample_objects sample_genfs (Some sample_ranges_table) [bit_set 1] [bit_set 1] 0.

Lemma one_object i c :
  omitted i c = false -> object_form i c /\ oc_sid1 c = 0 -> oc_context0 c = object_context \/ oc_context0 c = process_context ->
  oc_context1 c = (if two_contexts i then object_context else empty_context) -> objects_ok true db_sample_symbols the_indexes i [c].
Proof.
  intros Ho Hf H0 H1. unfold objects_ok, kept. rewrite filter_cons, decide_True by done. split; [|done]. constructor; [|constructor].
  split; [done|]. split; [by apply sample_contexts|]. rewrite H1. destruct (two_contexts i); [|done]. apply sample_contexts. by left.
Qed.

Lemma sample_objects_ok : lists_ok true db_sample_symbols the_indexes 0 sample_objects.
Proof.
  split; [apply one_object; [done|split; [by split_and!|done]|by right|done]|]. split; [by repeat constructor|].
  split; [apply one_object; [done|split; [by split_and!|done]|by left|done]|].
  split; [apply one_object; [done|split; [|done]; split; [by apply name_lit|]; split; [done|]; left; split; [by right|done]|by left|done]|].
  split; [by repeat constructor|].
  split; [apply one_object; [done|split; [|done]; split; [by apply name_lit|]; split; [done|]; by right|by left|done]|].
  split; [apply one_object; [done|split; [|done]; split_and!; try done; by repeat constructor|by left|done]|done].
Qed.

Lemma sample_genfs_ok : genfs_ok true db_sample_symbols the_indexes sample_genfs.
Proof.
  split; [done|]. split; [|repeat constructor]. constructor; [|constructor]. split; [by apply name_lit|]. split; [done|]. split.
  - repeat constructor; try done; try (by apply name_lit); by vm_compute.
  - repeat constructor; by vm_compute.
Qed.

Lemma sample_content_ok : content_ok 30 0 1 sample_content.
Proof. split; [done|]. split; [done|]. split; [by repeat constructor|]. split; (constructor; [|constructor]); (split; [concrete|done]). Qed.

Lemma sample_content_fits : contents_fit sample_avtab [] [sample_content].
Proof.
  split; [|done]. split; (split; [|done]); intros Ht; [done|]. split_and!; [by vm_compute|by vm_compute; lia|].
  intros [|a] n Ha Hm; [|done]. simpl in Ha. injection Ha as <-. by vm_compute in Hm.
Qed.

Lemma sample_ranges_ok : hashtab_ok sample_ranges_table.
Proof.
  split; [done|]. split; [|done]. split; [done|]. split; [|done]. split; [by repeat constructor|]. by repeat constructor.
Qed.

(** The one type is in its own map, and no attribute. *)
Lemma sample_maps_ok x :
  x = [Some ([116], sample_type)] ->
  type_map_ok (p_types db_sample_symbols) x [bit_set 1] /\ attr_map_of (p_types db_sample_symbols) x [bit_set 1] [bit_set 1].
Proof.
  intros ->. destruct bit_set_one as [Hok Hb]. assert (H0 : 0 ∈ ebitmap_set (bit_set 1)) by (apply elem_of_bits; vm_compute; left).
  split; (split; [done|]); intros [|i] e He; [|done| |done]; simpl in He; injection He as <-.
  - split; [done|]. split; [intros b Hin; specialize (Hb b Hin); simpl; lia|done].
  - split; [done|]. intros i. split.
    + intros Hin. specialize (Hb i Hin). assert (i = 0) as -> by lia. split; [simpl; lia|]. split; [done|]. by exists [116], sample_type.
    + simpl. intros [Hi _]. by assert (i = 0) as -> by lia.
Qed.

Lemma sample_db_ok : db_ok true sample_db [sample_content].
Proof.
  constructor.
  - split_and!; try done; repeat (constructor; try done).
  - split; concrete.
  - exact db_symbols_ok.
  - exact (conj db_classes_ready db_others_ready).
  - exact (conj the_classes_indexed the_others_indexed).
  - split; [by vm_compute|]. split; [by vm_compute|]. exists 0. split_and!; by vm_compute.
  - by left.
  - split; [concrete|]. split; [by vm_compute|]. split; [by vm_compute|]. split; [by (vm_compute; repeat split)|apply sample_writable].
  - split; [constructor; [|constructor]; by split_and!|]. split; [done|]. split; [done|]. split; [exact sample_content_fits|].
    constructor; [exact sample_content_ok|constructor].
  - split; [by repeat constructor|]. split; [done|]. split; [by repeat constructor|done].
  - exact sample_ft_storable.
  - split; [done|]. split; [by vm_compute|exact sample_objects_ok].
  - exact sample_genfs_ok.
  - exists sample_ranges_table. split; [done|]. split; [exact sample_ranges_ok|]. split; [done|]. constructor; [|constructor]. by split_and!.
  - done.
  - apply sample_maps_ok, ix_types. apply the_others_indexed.
  - reflexivity.
Qed.

(** ** Witnesses *)

(** The database [policydb_init] makes. *)
Definition start_db : policydb :=
  match policydb_init 0 [] with
  | (_, Some (db, _), _) => db
  | _ => sample_db
  end.

Lemma start_db_ok : db_start start_db /\ db_compat start_db = 0 /\ symtab_abs (p_roles (db_symbols start_db)) = {[OBJECT_R := object_r]}.
Proof.
  destruct (policydb_init_steps_ok 0 [] (Forall_nil_2 _)) as ([db scopes] & o' & E & _ & H & _). unfold start_db, policydb_init. by rewrite E.
Qed.

Lemma policydb_roundtrip_witness :
  exists out db' o', policydb_write true sample_db (mk_policy_file PF_USE_MEMORY [] 8192 [] []) = (POLICYDB_SUCCESS, out) /\
    policydb_read true start_db (mem_file (pf_out out ++ [7])) [] = Some (Some db', mem_file [7], o') /\ db_same sample_db db' [sample_content].
Proof.
  destruct start_db_ok as (H1 & H2 & H3).
  apply (policydb_roundtrip true sample_db start_db [sample_content] (mk_policy_file PF_USE_MEMORY [] 8192 [] []) [7] []).
  - exact sample_db_ok.
  - exact H1.
  - rewrite H3. reflexivity.
  - exact H2.
  - discriminate.
  - reflexivity.
  - constructor.
  - split; [apply Z.leb_le|apply Z.ltb_lt]; vm_compute; reflexivity.
Defined.

Lemma policydb_image_roundtrip_witness :
  exists data o1 db' o2, policydb_to_image true 0 sample_db [] = Some (Some data, o1) /\
    policydb_from_image true data start_db o1 = Some (Some db', o2) /\ db_same sample_db db' [sample_content].
Proof.
  apply (policydb_image_roundtrip true sample_db start_db [sample_content] []).
  - exact sample_db_ok.
  - reflexivity.
  - exact start_db_ok.
  - apply Z.ltb_lt. vm_compute. reflexivity.
  - constructor.
Defined.

Lemma context_is_valid_witness :
  exists b, context_is_valid true db_sample_symbols the_indexes process_context = Some b /\ (b = true <-> valid_context true db_sample_symbols process_context).
Proof.
  apply (context_is_valid_spec true db_sample_symbols the_indexes process_context).
  - exact the_others_indexed.
  - by apply one_indexable.
  - intros k d [-> ->]%one_abs. concrete.
  - by split_and!.
Defined.

Lemma cond_read_list_sound_witness :
  sound (cond_read_list 30 1 sample_avtab (mk_cond_avtab (mk_avtab None 0 0 0) [] []) 0) (conds_sound 1 sample_avtab).
Proof. apply (cond_read_list_sound 30 1 sample_avtab (mk_cond_avtab (mk_avtab None 0 0 0) [] []) 0); [done|concrete|done|done]. Defined.

(** The role "r", declared in 1 and 2, is required in 3. *)
Lemma symtab_insert_witness :
  exists rc t' h' hs' o',
    symtab_insert SYM_ROLES role_flavor role_set_value db_roles (Some (one_table [114] (mk_scope SCOPE_DECL [1; 2]))) [114] db_role SCOPE_REQ 3 false [] =
      (rc, t', Some hs', o') /\
    mem_ok o' /\ st_table t' = Some h' /\ hashtab_ok h' /\ hashtab_ok hs' /\ (hashtab_abs h' = hashtab_abs db_roles_table /\ st_nprim t' = 2) /\
    (rc = 1 /\ hashtab_abs hs' = <[[114] := mk_scope SCOPE_DECL [1; 3; 2]]> (hashtab_abs (one_table [114] (mk_scope SCOPE_DECL [1; 2])))).
Proof.
  apply (symtab_insert_spec SYM_ROLES role_flavor role_set_value db_roles db_roles_table (one_table [114] (mk_scope SCOPE_DECL [1; 2]))
    [114] db_role SCOPE_REQ 3 false []); try done.
  - exact db_roles_ok.
  - apply one_table_ok.
  - intros k d Hk. apply (one_abs [114]) in Hk as [-> ->]. done.
  - constructor.
Defined.

(** A header, and then bytes that make up no policy; the twentieth allocation
    fails. *)
Lemma policydb_read_sound_witness :
  exists r fp' o',
    policydb_read true start_db (mem_file (header_image sample_header (compat_of 30) ++ [64; 0; 0; 0; 255; 255])) (replicate 19 true ++ [false]) = Some (r, fp', o') /\
    forall db, r = Some db -> db_sound db.
Proof.
  apply (policydb_read_sound true start_db).
  - apply start_db_ok.
  - vm_compute. repeat (constructor; [split; discriminate || reflexivity|]). constructor.
  - intros (h & fp' & o' & E & Hk). vm_compute in E. injection E as E _ _. apply Hk. rewrite <- E. reflexivity.
Defined.
