(* ===== verification/ContextTextSample.v ===== *)
(** * ContextTextSample: texts of contexts

    Witnesses for the theorems on the text of contexts, and two texts that are
    not what they should be. *)
From Stdlib Require Import ZArith Lia Bool.
From stdpp Require Import base option list list_numbers gmap sets.
From S2P Require Import Prelude PolicyFile Ebitmap EbitmapThms EbitmapRange Hashtab HashtabThms Symtab Avtab AvtabIO Cond Codec Symbols SymCodec SymbolsIO SymbolsThms SymbolsSample Trans Index IndexThms ExpandThms IndexAll IndexSample SymbolsSound Contexts ContextsIO ContextsValid ContextText ContextPrint ContextParse PolicydbSample.

(** ** A valid context *)

Lemma one_sound {D} (P : cstring -> D -> Prop) k d : P k d -> symtab_sound P (one k d).
Proof. intros H. split; [done|]. exists (one_table k d). split_and!; [done|apply one_table_ok|]. by intros k' d' [-> ->]%(one_abs k d). Qed.

Lemma sample_constraint_sound : cons_node_sound false sample_constraint.
Proof. split; [|done]. repeat constructor; cbn; try done; try (intros; lia). Qed.

Lemma sample_sound : symbols_sound db_sample_symbols.
Proof.
  unfold symbols_sound. split; [|split; [|split; [|split; [|split; [|split; [|split]]]]]]; try (apply one_sound).
  - split; [done|]. split; [done|]. by apply one_sound.
  - split; [done|]. split; [split; [done|]; by apply one_sound|]. split; [intros ck [= <-]; by eexists|]. split; [|constructor]. constructor; [apply sample_constraint_sound|constructor].
  - split; [done|]. exists db_roles_table. split_and!; [done|apply db_roles_ok|]. intros k d [[-> ->]|[-> ->]]%db_roles_abs; concrete.
  - concrete.
  - concrete.
  - split; [done|by right].
  - concrete.
  - concrete.
Qed.

Lemma names_clear {D} bad k (d : D) : forallb (fun x => (0 <? x) && (x <? 256) && negb (bad x)) k = true -> names_avoid bad (one k d).
Proof.
  intros H k' d' [-> ->]%one_abs. apply Forall_forall. intros x Hx. rewrite forallb_forall in H. apply list_elem_of_In, H in Hx. unfold in_range.
  apply andb_prop in Hx as [Hx%andb_prop Hb%negb_true_iff]. split; [lia|done].
Qed.

Lemma sample_plain : plain_names db_sample_symbols.
Proof.
  unfold plain_names. split; [|split; [|split; [|split]]]; try by apply names_clear.
  intros k d [[-> ->]|[-> ->]]%db_roles_abs; repeat constructor; done.
Qed.

Lemma sample_named : named true the_indexes process_context [117] [114] [116].
Proof.
  constructor; try by (split; [cbn; lia|by vm_compute]). intros _. split; (constructor; [cbn; lia|by eexists; vm_compute|concrete| |done]); intros b Hb; by vm_compute in Hb.
Qed.

Lemma sample_readable : readable true db_sample_symbols the_indexes process_context [116].
Proof. split; [by vm_compute|]. split; [done|]. intros d Hd. vm_compute in Hd. by simplify_eq. Qed.

(** The text is [u:r:t:s0]. *)
Lemma context_text_roundtrip_witness :
  exists o1 o2,
    context_to_string true the_indexes process_context [] =
      Some (Some (context_text true the_indexes process_context [117] [114] [116] ++ [0],
                  zlength (context_text true the_indexes process_context [117] [114] [116]) + 1), o1) /\
    context_from_string true db_sample_symbols the_indexes (context_text true the_indexes process_context [117] [114] [116]) o1 = Some (Some process_context, o2).
Proof.
  apply (context_text_roundtrip true db_sample_symbols the_indexes process_context [117] [114] [116] []).
  - exact sample_sound.
  - exact the_others_indexed.
  - exact sample_plain.
  - exact sample_named.
  - exact sample_readable.
  - vm_compute. reflexivity.
  - constructor.
Defined.

Lemma context_record_agrees_witness :
  exists r text len o1 o2 o3 o4,
    context_to_record true the_indexes process_context [] = Some (Some r, o1) /\ sepol_context_to_string r o1 = Some (Some text, o2) /\
    context_to_string true the_indexes process_context o2 = Some (Some (text, len), o3) /\
    context_from_record true db_sample_symbols the_indexes (Some r) o3 = Some (Some process_context, o4).
Proof.
  apply (context_record_agrees true db_sample_symbols the_indexes process_context [117] [114] [116] []).
  - exact sample_sound.
  - exact the_others_indexed.
  - exact sample_plain.
  - exact sample_named.
  - exact sample_readable.
  - vm_compute. reflexivity.
  - constructor.
Defined.

Lemma context_from_string_sound_witness :
  exists r o', context_from_string true db_sample_symbols the_indexes [117; 58; 114; 58; 116; 58; 115; 48; 45; 0; 255] [] = Some (r, o') /\
    forall c, r = Some c -> valid_context true db_sample_symbols c.
Proof.
  apply (context_from_string_sound true db_sample_symbols the_indexes [117; 58; 114; 58; 116; 58; 115; 48; 45; 0; 255] []).
  - exact sample_sound.
  - exact the_others_indexed.
  - concrete.
  - vm_compute. discriminate.
Defined.

Lemma context_from_string_null_witness : context_from_string true db_sample_symbols the_indexes str_none [] = None.
Proof. apply (context_from_string_null true db_sample_symbols the_indexes []). constructor. Defined.

(** ** Ranges of categories *)

(** The sensitivity "s" and the categories "c" with one more character for
    their number, from 1 to 192. *)
Definition text_sens : names := [Some [115]].
Definition text_cats : names := map (fun i => Some [99; i + 1]) (seqZ 0 192).
Definition text_buffer : cursor := (replicate 40 UNINIT, 0).
Definition text_of (p : option cursor) : option cstring := '(b, _) ← p; cstr b.

(** {0, 1, 2, 3, 7, 9, 10}: [s:c1.c4,c8,c10,c11]. *)
Example ranges_text :
  text_of (put_level text_sens text_cats (mk_mls_level 1 (mk_ebitmap [mk_node 0 0x68f] 64)) text_buffer) =
    Some [115; 58; 99; 1; 46; 99; 4; 44; 99; 8; 44; 99; 10; 44; 99; 11].
Proof. by vm_compute. Qed.

(** {62, 63, 128}, and everything between 62 and 128. *)
Definition cats_gap : ebitmap := mk_ebitmap [mk_node 0 (Z.shiftl 3 62); mk_node 128 1] 192.
Definition cats_all : ebitmap := mk_ebitmap [mk_node 0 (Z.shiftl 3 62); mk_node 64 (2 ^ 64 - 1); mk_node 128 1] 192.

(** when a window of 64 categories ends with a member and the next window
    has none, the text is wrong: the loops of [mls_sid_to_context] and
    [mls_compute_context_len] leave the window out, and the categories 62, 63
    and 128 are printed as the range from 62 to 128, like the level that has
    all of it. *)
Theorem mls_sid_to_context_gap :
  ebitmap_ok cats_gap /\ ebitmap_ok cats_all /\ 100 ∉ ebitmap_set cats_gap /\ 100 ∈ ebitmap_set cats_all /\
  put_level text_sens text_cats (mk_mls_level 1 cats_gap) text_buffer = put_level text_sens text_cats (mk_mls_level 1 cats_all) text_buffer /\
  text_of (put_level text_sens text_cats (mk_mls_level 1 cats_gap) text_buffer) = Some [115; 58; 99; 63; 46; 99; 129].
Proof.
  split; [concrete|]. split; [concrete|]. rewrite !elem_of_ebitmap_set. split; [by vm_compute|]. split; [by vm_compute|]. split; by vm_compute.
Qed.

(** text behind the categories of the high level is not looked at: the
    range [s0-s0:c0-x] is taken for [s0-s0:c0]. *)
Theorem mls_context_to_sid_trailing :
  let read text := mls_from_string true (p_levels db_sample_symbols) (p_cats db_sample_symbols) text empty_context [] in
  exists c, read [115; 48; 45; 115; 48; 58; 99; 48] = Some (Some c, []) /\ read [115; 48; 45; 115; 48; 58; 99; 48; 45; 120] = Some (Some c, []).
Proof. eexists. split; by vm_compute. Qed.
