(* ===== verification/Sidtab.v ===== *)
(** * Sidtab: the table of security identifiers

    libsepol/src/sidtab.c: contexts are known to the callers of the security
    server by numbers (SIDs).  The table is an array of chains ordered by SID;
    it implements a finite map, and [sepol_sidtab_context_to_sid] hands out one
    SID for each context, for good. *)
From Stdlib Require Import ZArith Lia Bool Sorting.Sorted.
From stdpp Require Import base option list list_numbers gmap sets sorting.
From S2P Require Import Prelude PolicyFile Ebitmap EbitmapThms EbitmapIO Hashtab HashtabThms Symtab Avtab AvtabIO Cond Codec Symbols SymCodec SymbolsIO Trans TransIns TransFt Index ExpandThms IndexAll Contexts ContextsSound ContextText ContextParse.

Definition SIDTAB_HASH_MASK : Z := 127.
Definition SIDTAB_SIZE : Z := 128.
Definition SECINITSID_UNLABELED : Z := 3.
Definition SEPOL_SECSID_NULL : Z := 0.
Definition EEXIST : Z := 17.

(** ** Operations *)

Abbreviation sid_chain := (list (Z * context_struct)).

(** [htable] may be null. *)
Record sidtab := mk_sidtab { sid_htable : option (list sid_chain); sid_nel : Z; next_sid : Z; shutdown : bool }.

Definition SIDTAB_HASH (sid : Z) : Z := Z.land sid SIDTAB_HASH_MASK.

Definition mls_context_cmp (c1 c2 : context_struct) : bool :=
  mls_level_eq (level0 (ctx_range c1)) (level0 (ctx_range c2)) && mls_level_eq (level1 (ctx_range c1)) (level1 (ctx_range c2)).
Definition context_cmp (c1 c2 : context_struct) : bool :=
  (ctx_user c1 =? ctx_user c2) && (ctx_role c1 =? ctx_role c2) && (ctx_type c1 =? ctx_type c2) && mls_context_cmp c1 c2.

Definition mls_range_cpy (src : mls_range) : X mls_range :=
  l0 <- mls_level_cpy (level0 src) ;;; l1 <- mls_level_cpy (level1 src) ;;; xret (mk_mls_range l0 l1).
Definition mls_context_cpy (src : context_struct) : X mls_range := mls_range_cpy (ctx_range src).
Definition context_cpy (src : context_struct) : X context_struct :=
  r <- mls_context_cpy src ;;; xret (mk_context (ctx_user src) (ctx_role src) (ctx_type src) r).

Definition sepol_sidtab_init (o : oracle) : Z * sidtab * oracle :=
  let '(ok, o) := malloc o in
  if negb ok then (- ENOMEM, mk_sidtab None 0 0 false, o)
  else (0, mk_sidtab (Some (replicate (Z.to_nat SIDTAB_SIZE) [])) 0 1 false, o).

(** [while (cur != NULL && sid > cur->sid)]: what is passed, and [cur] with
    what follows it. *)
Fixpoint sid_walk (sid : Z) (l : sid_chain) : sid_chain * sid_chain :=
  match l with
  | [] => ([], [])
  | x :: l' => if x.1 <? sid then let '(a, b) := sid_walk sid l' in (x :: a, b) else ([], l)
  end.

Definition chain_at (tbl : list sid_chain) (sid : Z) : sid_chain := default [] (tbl !! Z.to_nat (SIDTAB_HASH sid)).

(** Copying a context goes wrong nowhere; [None] is the failure. *)
Definition copy_or_fail (c : context_struct) (o : oracle) : option context_struct * oracle :=
  match context_cpy c o with Some (r, o) => (r, o) | None => (None, o) end.

Definition sepol_sidtab_insert (s : sidtab) (sid : Z) (c : context_struct) (o : oracle) : Z * sidtab * oracle :=
  match sid_htable s with
  | None => (- ENOMEM, s, o)
  | Some tbl =>
      let '(prev, cur) := sid_walk sid (chain_at tbl sid) in
      if match cur with x :: _ => x.1 =? sid | [] => false end then (- EEXIST, s, o) else
      let '(ok, o) := malloc o in
      if negb ok then (- ENOMEM, s, o) else
      match copy_or_fail c o with
      | (None, o) => (- ENOMEM, s, o)
      | (Some c, o) =>
          (0, mk_sidtab (Some (<[Z.to_nat (SIDTAB_HASH sid) := prev ++ (sid, c) :: cur]> tbl)) (u32 (sid_nel s + 1))
                (if next_sid s <=? sid then u32 (sid + 1) else next_sid s) (shutdown s), o)
      end
  end.

Definition sid_find (tbl : list sid_chain) (sid : Z) : option context_struct :=
  match (sid_walk sid (chain_at tbl sid)).2 with
  | x :: _ => if x.1 =? sid then Some x.2 else None
  | [] => None
  end.

Definition sepol_sidtab_search (s : sidtab) (sid : Z) : option context_struct :=
  match sid_htable s with
  | None => None
  | Some tbl => match sid_find tbl sid with Some c => Some c | None => sid_find tbl SECINITSID_UNLABELED end
  end.

(** [apply] returns its code and changes the state [args] points to. *)
Fixpoint sids_map {S} (apply : Z -> context_struct -> S -> Z * S) (l : sid_chain) (st : S) : Z * S :=
  match l with
  | [] => (0, st)
  | (sid, c) :: l => let '(ret, st) := apply sid c st in if ctrue ret then (ret, st) else sids_map apply l st
  end.

Definition sepol_sidtab_map {S} (s : sidtab) (apply : Z -> context_struct -> S -> Z * S) (st : S) : Z * S :=
  match sid_htable s with None => (0, st) | Some tbl => sids_map apply (concat tbl) st end.

(** [apply] may change the context; the chain that is left, how many nodes
    are gone, and the state. *)
Fixpoint remove_failing {S} (apply : Z -> context_struct -> S -> Z * context_struct * S) (l : sid_chain) (st : S) : sid_chain * Z * S :=
  match l with
  | [] => ([], 0, st)
  | (sid, c) :: l =>
      let '(ret, c, st) := apply sid c st in
      let '(l, gone, st) := remove_failing apply l st in
      if ctrue ret then (l, gone + 1, st) else ((sid, c) :: l, gone, st)
  end.

Fixpoint remove_all_failing {S} (apply : Z -> context_struct -> S -> Z * context_struct * S) (tbl : list sid_chain) (st : S) : list sid_chain * Z * S :=
  match tbl with
  | [] => ([], 0, st)
  | l :: tbl =>
      let '(l, gone, st) := remove_failing apply l st in
      let '(tbl, gone', st) := remove_all_failing apply tbl st in
      (l :: tbl, gone + gone', st)
  end.

Definition sepol_sidtab_map_remove_on_error {S} (s : sidtab) (apply : Z -> context_struct -> S -> Z * context_struct * S) (st : S) : sidtab * S :=
  match sid_htable s with
  | None => (s, st)
  | Some tbl => let '(tbl, gone, st) := remove_all_failing apply tbl st in (mk_sidtab (Some tbl) (u32 (sid_nel s - gone)) (next_sid s) (shutdown s), st)
  end.

(** [None]: a null table is followed. *)
Definition sepol_sidtab_search_context (s : sidtab) (c : context_struct) : option Z :=
  tbl ← sid_htable s;
  Some (match List.find (fun x => context_cmp x.2 c) (concat tbl) with Some (sid, _) => sid | None => 0 end).

(** The code, [*out_sid], and the table. *)
Definition sepol_sidtab_context_to_sid (s : sidtab) (c : context_struct) (o : oracle) : option (Z * Z * sidtab * oracle) :=
  sid ← sepol_sidtab_search_context s c;
  if ctrue sid then Some (0, sid, s, o) else
  sid ← sepol_sidtab_search_context s c;
  if ctrue sid then Some (0, sid, s, o) else
  if (next_sid s =? 2 ^ 32 - 1) || shutdown s then Some (- ENOMEM, SEPOL_SECSID_NULL, s, o) else
  let sid := next_sid s in
  let '(ret, s, o) := sepol_sidtab_insert (mk_sidtab (sid_htable s) (sid_nel s) (sid + 1) (shutdown s)) sid c o in
  if ctrue ret then Some (ret, SEPOL_SECSID_NULL, mk_sidtab (sid_htable s) (sid_nel s) (u32 (next_sid s - 1)) (shutdown s), o)
  else Some (0, sid, s, o).

Definition sepol_sidtab_set (src : sidtab) : sidtab := mk_sidtab (sid_htable src) (sid_nel src) (next_sid src) false.
Definition sepol_sidtab_shutdown (s : sidtab) : sidtab := mk_sidtab (sid_htable s) (sid_nel s) (next_sid s) true.
Definition sepol_sidtab_destroy (s : sidtab) : sidtab :=
  match sid_htable s with None => s | Some _ => mk_sidtab None 0 1 (shutdown s) end.

(** * One number for each context

    The table refines a finite map from SIDs to contexts; insertion and search
    are those of the map, and over any sequence of requests two contexts get
    the same SID exactly when they are equal. *)

(** ** Contexts *)

Lemma level_eq_refl l : mls_level_eq l l = true.
Proof. unfold mls_level_eq, ebitmap_cmp. rewrite !Z.eqb_refl. cbn. by rewrite (proj2 (cmp_loop_eq (node (cat l)) (node (cat l))) eq_refl). Qed.

Lemma context_cmp_eq c1 c2 : context_cmp c1 c2 = true <-> c1 = c2.
Proof.
  unfold context_cmp, mls_context_cmp. split; [|intros ->; by rewrite !Z.eqb_refl, !level_eq_refl].
  intros [[[Hu%Z.eqb_eq Hr%Z.eqb_eq]%andb_prop Ht%Z.eqb_eq]%andb_prop [H0 H1]%andb_prop]%andb_prop. apply level_eq_same in H0, H1.
  destruct c1 as [u1 r1 t1 [a1 b1]], c2 as [u2 r2 t2 [a2 b2]]. cbn in *. by subst.
Qed.

Lemma context_cpy_ok {strict} c : xruns strict (context_cpy c) (eq c).
Proof.
  unfold context_cpy, mls_context_cpy, mls_range_cpy. eapply xok_bind.
  - eapply xok_bind; [apply level_cpy_ok|]. intros ? <-. eapply xok_bind; [apply level_cpy_ok|]. intros ? <-. by apply (xok_ret (mk_mls_range _ _) (eq (ctx_range c))); destruct (ctx_range c).
  - intros ? <-. apply xok_ret. by destruct c.
Qed.

Lemma copy_cases c o : exists r o', copy_or_fail c o = (r, o') /\ ((r = Some c /\ (mem_ok o -> mem_ok o')) \/ (r = None /\ ~ mem_ok o)).
Proof.
  unfold copy_or_fail. destruct (context_cpy_ok (strict := false) c o ltac:(done)) as (r & o' & E & _ & Hr). rewrite E. exists r, o'. split; [done|].
  assert (Hm : mem_ok o -> mem_ok o' /\ r <> None).
  { intros M. destruct (context_cpy_ok (strict := true) c o (fun _ => M)) as (r2 & o2 & E2 & M2 & _). rewrite E in E2. injection E2 as <- <-. by apply M2. }
  destruct r as [c'|]; [left|right]; (split; [|tauto]); [by rewrite (Hr c' eq_refl)|done].
Qed.

(** ** The invariant *)

Definition sid_before (x y : Z * context_struct) : Prop := x.1 < y.1.

Definition chain_ok (i : nat) (l : sid_chain) : Prop :=
  StronglySorted sid_before l /\ Forall (fun x => Z.to_nat (SIDTAB_HASH x.1) = i) l.

Definition sidtab_abs (tbl : list sid_chain) : gmap Z context_struct := list_to_map (concat tbl).

Definition sidtab_ok (s : sidtab) : Prop :=
  exists tbl, sid_htable s = Some tbl /\ length tbl = Z.to_nat SIDTAB_SIZE /\ (forall i l, tbl !! i = Some l -> chain_ok i l) /\
    map_Forall (fun sid _ => 0 < sid < next_sid s) (sidtab_abs tbl) /\ 0 < next_sid s < 2 ^ 32.

Definition sids (s : sidtab) : gmap Z context_struct := match sid_htable s with Some tbl => sidtab_abs tbl | None => ∅ end.

Lemma hash_range sid : 0 <= sid -> (Z.to_nat (SIDTAB_HASH sid) < Z.to_nat SIDTAB_SIZE)%nat.
Proof.
  intros H. unfold SIDTAB_HASH, SIDTAB_HASH_MASK, SIDTAB_SIZE. change 127 with (Z.ones 7). rewrite Z.land_ones by lia.
  pose proof (Z.mod_pos_bound sid (2 ^ 7)). lia.
Qed.

(** The SIDs of all chains differ. *)
Lemma sids_nodup tbl : (forall i l, tbl !! i = Some l -> chain_ok i l) -> NoDup (concat tbl).*1.
Proof.
  intros H. assert (G : forall k t, (forall i l, t !! i = Some l -> chain_ok (k + i) l) -> NoDup (concat t).*1 /\ forall x, x ∈ (concat t).*1 -> (k <= Z.to_nat (SIDTAB_HASH x))%nat).
  { intros k t. revert k. induction t as [|l t IH]; intros k Ht; cbn [concat]; [split; [constructor|]; by intros x ?%elem_of_nil|].
    destruct (IH (S k)) as [IH1 IH2]; [intros i l' Hi; replace (S k + i)%nat with (k + S i)%nat by lia; by apply Ht|].
    pose proof (Ht 0%nat l eq_refl) as [Hs Hh]. rewrite Nat.add_0_r in Hh. rewrite fmap_app. split.
    - apply NoDup_app. split; [|split; [|done]].
      + clear -Hs. induction Hs as [|x l Hs IH Hx]; [constructor|]. cbn. constructor; [|done]. intros (y & E & Hy)%list_elem_of_fmap. rewrite Forall_forall in Hx.
        specialize (Hx y Hy). unfold sid_before in Hx. lia.
      + intros x (y & -> & Hy)%list_elem_of_fmap Hx. rewrite Forall_forall in Hh. specialize (Hh y Hy). cbn in Hh. specialize (IH2 _ Hx). lia.
    - intros x [(y & -> & Hy)%list_elem_of_fmap|Hx]%elem_of_app; [rewrite Forall_forall in Hh; rewrite (Hh y Hy); lia|]. specialize (IH2 _ Hx). lia. }
  by apply (G 0%nat).
Qed.

Lemma sidtab_lookup tbl sid c :
  (forall i l, tbl !! i = Some l -> chain_ok i l) -> sidtab_abs tbl !! sid = Some c <-> (sid, c) ∈ concat tbl.
Proof. intros H. unfold sidtab_abs. symmetry. apply elem_of_list_to_map. by apply sids_nodup. Qed.

(** ** Walking a chain *)

Lemma sid_walk_split sid l :
  StronglySorted sid_before l ->
  let '(a, b) := sid_walk sid l in l = a ++ b /\ Forall (fun x => x.1 < sid) a /\ Forall (fun x => sid <= x.1) b.
Proof.
  induction 1 as [|x l Hs IH Hx]; cbn [sid_walk]; [done|]. destruct (Z.ltb_spec x.1 sid) as [Hlt|Hge].
  - destruct (sid_walk sid l) as [a b]. destruct IH as (-> & Ha & Hb). split_and!; [done|by constructor|done].
  - split_and!; [done|constructor|]. constructor; [lia|]. eapply Forall_impl; [exact Hx|]. unfold sid_before. intros y ?. cbn in *. lia.
Qed.

Lemma sid_find_spec tbl sid :
  length tbl = Z.to_nat SIDTAB_SIZE -> (forall i l, tbl !! i = Some l -> chain_ok i l) -> 0 <= sid -> sid_find tbl sid = sidtab_abs tbl !! sid.
Proof.
  intros Hlen Hok Hsid. destruct (lookup_lt_is_Some_2 tbl (Z.to_nat (SIDTAB_HASH sid))) as [l Hl]; [rewrite Hlen; by apply hash_range|].
  pose proof (Hok _ _ Hl) as [Hs Hh]. unfold sid_find, chain_at. rewrite Hl. cbn [default id]. pose proof (sid_walk_split sid l Hs) as Hw.
  destruct (sid_walk sid l) as [a b]. destruct Hw as (-> & Ha & Hb). cbn [snd].
  assert (Hin : forall c, (sid, c) ∈ concat tbl <-> (sid, c) ∈ a ++ b).
  { intros c. rewrite list_elem_of_In, in_concat. split.
    - intros (l' & Hl' & Hc). apply list_elem_of_In, list_elem_of_lookup in Hl' as [i Hi]. pose proof (Hok _ _ Hi) as [_ Hh'].
      rewrite Forall_forall in Hh'. specialize (Hh' (sid, c) (proj2 (list_elem_of_In _ _) Hc)). cbn in Hh'. subst i. rewrite Hl in Hi. injection Hi as <-. by apply list_elem_of_In.
    - intros Hc. exists (a ++ b). split; [|by apply list_elem_of_In]. apply list_elem_of_In, list_elem_of_lookup. eauto. }
  destruct b as [|[sid' c] b].
  - destruct (sidtab_abs tbl !! sid) as [c|] eqn:E; [|done]. apply sidtab_lookup, Hin in E; [|done]. rewrite app_nil_r in E. rewrite Forall_forall in Ha. specialize (Ha _ E). cbn in Ha. lia.
  - cbn [fst snd]. destruct (Z.eqb_spec sid' sid) as [->|Hne].
    + symmetry. apply sidtab_lookup, Hin; [done|]. apply elem_of_app. right. by left.
    + destruct (sidtab_abs tbl !! sid) as [c'|] eqn:E; [|done]. apply sidtab_lookup, Hin in E; [|done]. exfalso. apply elem_of_app in E as [E|E].
      * rewrite Forall_forall in Ha. specialize (Ha _ E). cbn in Ha. lia.
      * apply list_elem_of_In in E. destruct E as [[= -> ->]|E]; [done|]. apply Forall_cons in Hb as [Hb1 Hb2]. cbn in Hb1.
        apply StronglySorted_app in Hs as (_ & _ & [Hx _]%StronglySorted_cons). rewrite Forall_forall in Hx. specialize (Hx _ (proj2 (list_elem_of_In _ _) E)). unfold sid_before in Hx. cbn in Hx. lia.
Qed.

(** ** Insertion and search *)

(** All nodes, in the order they are looked at. *)
Definition all_sids (s : sidtab) : sid_chain := concat (default [] (sid_htable s)).

Lemma insert_split (tbl : list sid_chain) i pre post x :
  tbl !! i = Some (pre ++ post) -> exists A B, concat tbl = A ++ B /\ concat (<[i := pre ++ x :: post]> tbl) = A ++ x :: B.
Proof.
  intros Hi. exists (concat (take i tbl) ++ pre), (post ++ concat (drop (S i) tbl)). rewrite <- (take_drop_middle _ _ _ Hi) at 1.
  rewrite insert_take_drop by (by eapply lookup_lt_Some). rewrite !concat_app. cbn [concat]. by rewrite <- !app_assoc.
Qed.

Lemma sidtab_insert_ok s sid c o :
  sidtab_ok s -> 0 < sid < 2 ^ 32 - 1 ->
  exists rc s' o', sepol_sidtab_insert s sid c o = (rc, s', o') /\ (mem_ok o -> mem_ok o') /\
    match sids s !! sid with
    | Some _ => rc = - EEXIST /\ s' = s
    | None => (rc = 0 /\ sidtab_ok s' /\ sids s' = <[sid := c]> (sids s) /\ next_sid s' = Z.max (next_sid s) (sid + 1) /\ shutdown s' = shutdown s /\
                exists A B, all_sids s = A ++ B /\ all_sids s' = A ++ (sid, c) :: B) \/
              (rc = - ENOMEM /\ s' = s /\ ~ mem_ok o)
    end.
Proof.
  intros (tbl & Et & Hlen & Hok & Hsids & Hnext) Hsid. unfold sepol_sidtab_insert, sids. rewrite Et.
  destruct (lookup_lt_is_Some_2 tbl (Z.to_nat (SIDTAB_HASH sid))) as [l Hl]; [rewrite Hlen; apply hash_range; lia|].
  pose proof (sid_find_spec tbl sid Hlen Hok ltac:(lia)) as Hfind. unfold sid_find, chain_at in *. rewrite Hl in *. cbn [default id] in *.
  pose proof (Hok _ _ Hl) as [Hs Hh]. pose proof (sid_walk_split sid l Hs) as Hw. destruct (sid_walk sid l) as [a b]. destruct Hw as (-> & Ha & Hb). cbn [snd] in Hfind.
  destruct (match b with x :: _ => x.1 =? sid | [] => false end) eqn:Eb.
  { exists (- EEXIST), s, o. split; [done|]. split; [done|]. destruct b as [|x b]; [done|]. rewrite Eb in Hfind. by rewrite <- Hfind. }
  assert (sidtab_abs tbl !! sid = None) as Hnone by (rewrite <- Hfind; destruct b as [|x b]; [done|]; by rewrite Eb). rewrite Hnone.
  destruct (malloc o) as [ok o1] eqn:Em. destruct ok; cbn [negb]; [|exists (- ENOMEM), s, o1; split; [done|]; split; [intros M; by destruct (malloc_mem_ok _ _ _ Em M)|right; split_and!; [done..|]; intros M; by destruct (malloc_mem_ok _ _ _ Em M)]].
  destruct (copy_cases c o1) as (r & o2 & -> & [[-> M2]|[-> M2]]).
  2:{ exists (- ENOMEM), s, o2. split; [done|]. split; [|right; split_and!; [done..|]]; intros M; destruct (malloc_mem_ok _ _ _ Em M); by destruct M2. }
  eexists 0, _, o2. split; [done|]. split; [intros M; destruct (malloc_mem_ok _ _ _ Em M); auto|]. left. split; [done|].
  set (tbl' := <[_ := _]> tbl). assert (Hok' : forall i l, tbl' !! i = Some l -> chain_ok i l).
  { intros i l' Hi. destruct (decide (i = Z.to_nat (SIDTAB_HASH sid))) as [->|Hne].
    - unfold tbl' in Hi. rewrite list_lookup_insert_eq in Hi by (by eapply lookup_lt_Some). injection Hi as <-. apply Forall_app in Hh as [Hh1 Hh2]. split.
      + apply sorted_insert; [done|done|]. destruct b as [|x b]; [constructor|]. apply StronglySorted_app in Hs as (_ & _ & [Hx _]%StronglySorted_cons).
        apply Forall_cons in Hb as [Hb1 _]. constructor; [unfold sid_before; cbn; lia|]. eapply Forall_impl; [exact Hx|]. unfold sid_before. cbn. intros y ?. lia.
      + apply Forall_app. split; [done|]. by constructor.
    - apply Hok. unfold tbl' in Hi. by rewrite list_lookup_insert_ne in Hi. }
  assert (Habs : sidtab_abs tbl' = <[sid := c]> (sidtab_abs tbl)).
  { unfold sidtab_abs. rewrite <- list_to_map_cons. apply list_to_map_proper; [by apply sids_nodup|]. destruct (insert_split tbl _ a b (sid, c) Hl) as (A & B & -> & E).
    unfold tbl'. rewrite E. by rewrite <- Permutation_middle. }
  assert (Hn : (if next_sid s <=? sid then u32 (sid + 1) else next_sid s) = Z.max (next_sid s) (sid + 1)).
  { destruct (Z.leb_spec (next_sid s) sid); [rewrite wrap_small by (unfold in_range; lia)|]; lia. }
  cbn [sid_htable next_sid shutdown]. rewrite Hn. split_and!; try done; [|unfold all_sids; rewrite Et; by apply insert_split]. exists tbl'. cbn [sid_htable next_sid]. split_and!; try done.
  - unfold tbl'. by rewrite length_insert.
  - rewrite Habs. apply map_Forall_insert_2; [lia|]. eapply map_Forall_impl; [exact Hsids|]. cbn. intros. lia.
  - lia.
  - lia.
Qed.

Lemma sidtab_search_ok s sid :
  sidtab_ok s -> 0 <= sid ->
  sepol_sidtab_search s sid = match sids s !! sid with Some c => Some c | None => sids s !! SECINITSID_UNLABELED end.
Proof.
  intros (tbl & Et & Hlen & Hok & _) Hsid. unfold sepol_sidtab_search, sids. rewrite Et. by rewrite !sid_find_spec.
Qed.

Lemma search_context_ok s c :
  sidtab_ok s -> exists sid, sepol_sidtab_search_context s c = Some sid /\
    ((0 < sid /\ sids s !! sid = Some c) \/ (sid = 0 /\ forall sid', sids s !! sid' <> Some c)).
Proof.
  intros (tbl & Et & Hlen & Hok & Hsids & _). unfold sepol_sidtab_search_context, sids. rewrite Et. cbn [mbind option_bind]. eexists. split; [done|].
  destruct (List.find _ (concat tbl)) as [[sid c']|] eqn:E.
  - apply List.find_some in E as [Hin Hc]. apply context_cmp_eq in Hc. cbn in Hc. subst c'. left. apply list_elem_of_In, sidtab_lookup in Hin; [|done].
    split; [|done]. by destruct (Hsids _ _ Hin).
  - right. split; [done|]. intros sid' Hs'. apply sidtab_lookup in Hs'; [|done]. apply list_elem_of_In in Hs'. pose proof (List.find_none _ _ E _ Hs') as Hn. cbn in Hn.
    assert (context_cmp c c = true) by (by apply context_cmp_eq). congruence.
Qed.

(** ** A number for a context *)

Lemma context_to_sid_ok s c o :
  sidtab_ok s ->
  exists rc sid s' o', sepol_sidtab_context_to_sid s c o = Some (rc, sid, s', o') /\ (mem_ok o -> mem_ok o') /\ sidtab_ok s' /\ shutdown s' = shutdown s /\
    ((rc = 0 /\ 0 < sid /\ sids s' !! sid = Some c /\
        (s' = s \/ (sids s !! sid = None /\ sids s' = <[sid := c]> (sids s) /\ exists A B, all_sids s = A ++ B /\ all_sids s' = A ++ (sid, c) :: B))) \/
     (rc = - ENOMEM /\ s' = s /\ (forall x, sids s !! x <> Some c) /\ (mem_ok o -> shutdown s = false -> next_sid s = 2 ^ 32 - 1) /\ sid = 0)).
Proof.
  intros Hs. unfold sepol_sidtab_context_to_sid. destruct (search_context_ok s c Hs) as (sid & E & H). rewrite E. cbn [mbind option_bind].
  destruct H as [[Hp Hl]|[-> Hno]].
  { replace (ctrue sid) with true by (unfold ctrue; lia). exists 0, sid, s, o. split_and!; try done. left. split_and!; try done. by left. }
  change (ctrue 0) with false. cbn iota.
  destruct (Z.eqb_spec (next_sid s) (2 ^ 32 - 1)) as [Hmax|Hmax]; cbn [orb].
  { exists (- ENOMEM), 0, s, o. split_and!; try done. by right. }
  destruct (shutdown s) eqn:Esd.
  { exists (- ENOMEM), 0, s, o. split_and!; try done. by right. }
  pose proof Hs as (tbl & Et & Hlen & Hok & Hsids & Hnext). set (s1 := mk_sidtab _ _ _ _).
  assert (Hs1 : sidtab_ok s1). { exists tbl. unfold s1. cbn. rewrite Et. split_and!; try done; try lia. eapply map_Forall_impl; [exact Hsids|]. cbn. intros. lia. }
  assert (Hsame : sids s1 = sids s) by done.
  destruct (sidtab_insert_ok s1 (next_sid s) c o Hs1 ltac:(lia)) as (rc & s2 & o2 & E2 & M2 & H2). rewrite E2. rewrite Hsame in H2.
  destruct (sids s !! next_sid s) as [c'|] eqn:Ec.
  { unfold sids in Ec. rewrite Et in Ec. apply Hsids in Ec. lia. }
  destruct H2 as [(-> & Hok2 & Hab & _ & Hsd & Hsplit)|(-> & -> & HM)].
  - change (ctrue 0) with false. cbn iota. exists 0, (next_sid s), s2, o2. split_and!; try done. left. split_and!; [done|lia|by rewrite Hab, lookup_insert_eq|]. right. by split_and!.
  - change (ctrue (- ENOMEM)) with true. cbn iota. assert (mk_sidtab (sid_htable s1) (sid_nel s1) (u32 (next_sid s1 - 1)) (shutdown s1) = s) as ->.
    { unfold s1. cbn. rewrite wrap_small by (unfold in_range; lia). rewrite Z.add_simpl_r. destruct s. cbn in *. by subst. }
    exists (- ENOMEM), 0, s, o2. split_and!; try done. by right.
Qed.

(** ** Sequences of requests *)

(** The answers to a list of requests. *)
Fixpoint requests (s : sidtab) (cs : list context_struct) (o : oracle) : option (list (Z * Z) * sidtab * oracle) :=
  match cs with
  | [] => Some ([], s, o)
  | c :: cs =>
      '(rc, sid, s, o) ← sepol_sidtab_context_to_sid s c o;
      '(l, s, o) ← requests s cs o;
      Some ((rc, sid) :: l, s, o)
  end.

(** A context that has a number keeps it. *)
Lemma search_context_stable s s' c sid A B d :
  all_sids s = A ++ B -> all_sids s' = A ++ (sid, d) :: B -> d <> c -> sid_htable s <> None -> sid_htable s' <> None ->
  sepol_sidtab_search_context s' c = sepol_sidtab_search_context s c.
Proof.
  unfold all_sids, sepol_sidtab_search_context. intros E E' Hd H H'. destruct (sid_htable s) as [tbl|]; [|done]. destruct (sid_htable s') as [tbl'|]; [|done].
  cbn [default id mbind option_bind] in *. rewrite E, E'. assert (Hc : context_cmp d c = false). { apply not_true_is_false. by rewrite context_cmp_eq. }
  assert (List.find (fun x => context_cmp x.2 c) (A ++ (sid, d) :: B) = List.find (fun x => context_cmp x.2 c) (A ++ B)) as ->; [|done].
  clear E E'. induction A as [|x A IH]; cbn [app List.find snd]; [by rewrite Hc|]. by rewrite IH.
Qed.

Lemma answered s c o rc sid s' o' :
  sidtab_ok s -> sepol_sidtab_context_to_sid s c o = Some (rc, sid, s', o') -> rc = 0 -> sepol_sidtab_search_context s' c = Some sid /\ 0 < sid.
Proof.
  intros Hs E ->. destruct (context_to_sid_ok s c o Hs) as (rc & sid2 & s2 & o2 & E2 & _ & Hs2 & _ & H). rewrite E in E2. injection E2 as <- <- <- <-.
  destruct H as [(_ & Hp & Hl & _)|(? & _)]; [|done]. split; [|done]. unfold sepol_sidtab_context_to_sid in E. destruct (search_context_ok s c Hs) as (x & Ex & Hx).
  rewrite Ex in E. cbn [mbind option_bind] in E. destruct Hx as [[Hx1 Hx2]|[-> Hno]].
  - replace (ctrue x) with true in E by (unfold ctrue; lia). by simplify_eq.
  - destruct (search_context_ok s' c Hs2) as (y & Ey & [[Hy1 Hy2]|[-> Hno2]]); [|by destruct (Hno2 sid)]. rewrite Ey. f_equal.
    destruct (context_to_sid_ok s c o Hs) as (rc & sid2 & s2 & o2 & E2 & _ & _ & _ & H). unfold sepol_sidtab_context_to_sid in E2. rewrite Ex in E2. cbn [mbind option_bind] in E2.
    rewrite E in E2. injection E2 as <- <- <- <-. destruct H as [(_ & _ & _ & [->|(_ & Hab & _)])|(? & _)]; [by destruct (Hno sid)| |done].
    rewrite Hab in Hy2. apply lookup_insert_Some in Hy2 as [[? _]|[_ ?]]; [done|]. by destruct (Hno y).
Qed.

Lemma request_step s c o rc sid s' o' :
  sidtab_ok s -> sepol_sidtab_context_to_sid s c o = Some (rc, sid, s', o') ->
  sidtab_ok s' /\ sids s ⊆ sids s' /\ forall c' x, sepol_sidtab_search_context s c' = Some x -> 0 < x -> sepol_sidtab_search_context s' c' = Some x.
Proof.
  intros Hs E. destruct (context_to_sid_ok s c o Hs) as (rc2 & sid2 & s2 & o2 & E2 & _ & Hs2 & _ & H). rewrite E in E2. injection E2 as <- <- <- <-. split; [done|].
  destruct H as [(-> & Hp & Hl & [->|(Hn & Hab & A & B & EA & EB)])|(-> & -> & _)]; [done| |done]. split; [rewrite Hab; by apply insert_subseteq|].
  intros c' x Hx Hpos. destruct Hs as (tbl & Et & _). destruct Hs2 as (tbl2 & Et2 & Hs2'). destruct (context_cmp c c') eqn:Ec.
  2:{ rewrite <- Hx. eapply search_context_stable; [done|done| |congruence|congruence]. intros ->. rewrite (proj2 (context_cmp_eq c' c') eq_refl) in Ec. done. }
  apply context_cmp_eq in Ec as ->.
  unfold sepol_sidtab_context_to_sid in E. rewrite Hx in E. cbn [mbind option_bind] in E. replace (ctrue x) with true in E by (unfold ctrue; lia). by simplify_eq.
Qed.

Lemma requests_ok cs s o :
  sidtab_ok s ->
  exists l s' o', requests s cs o = Some (l, s', o') /\ sidtab_ok s' /\ sids s ⊆ sids s' /\ length l = length cs /\
    (forall c x, sepol_sidtab_search_context s c = Some x -> 0 < x -> sepol_sidtab_search_context s' c = Some x) /\
    forall i c sid, cs !! i = Some c -> l !! i = Some (0, sid) -> sepol_sidtab_search_context s' c = Some sid /\ sids s' !! sid = Some c.
Proof.
  revert s o. induction cs as [|c cs IH]; intros s o Hs; cbn [requests]; [by exists [], s, o|].
  destruct (context_to_sid_ok s c o Hs) as (rc & sid & s1 & o1 & E & _ & Hs1 & _ & H). rewrite E. cbn [mbind option_bind].
  destruct (request_step s c o rc sid s1 o1 Hs E) as (_ & Hsub & Hkeep). destruct (IH s1 o1 Hs1) as (l & s' & o' & E' & Hs' & Hsub' & Hlen & Hkeep' & Hans).
  rewrite E'. cbn [mbind option_bind]. exists ((rc, sid) :: l), s', o'. split_and!; [done|done|by etrans|by cbn; rewrite Hlen|auto|].
  intros i c' sid' Hi Hl. destruct i as [|i]; [|by apply (Hans i)]. cbn in Hi, Hl. simplify_eq. destruct (answered s c' o 0 sid' s1 o1 Hs E eq_refl) as [Ha Hp].
  destruct H as [(_ & _ & Hc & _)|(? & _)]; [|done]. split; [by apply Hkeep'|]. by eapply lookup_weaken.
Qed.

(** C15: a SID table over any sequence of requests: every request is answered,
    with a code of its own when memory or numbers run out; two contexts get the
    same SID exactly when they are equal, whatever was asked in between, and
    looking up a SID that was handed out gives its context. *)
Theorem sidtab_interns s cs o :
  sidtab_ok s ->
  exists l s' o', requests s cs o = Some (l, s', o') /\ sidtab_ok s' /\ length l = length cs /\
    forall i j c d a b, cs !! i = Some c -> cs !! j = Some d -> l !! i = Some (0, a) -> l !! j = Some (0, b) ->
      (a = b <-> c = d) /\ 0 < a /\ sepol_sidtab_search s' a = Some c.
Proof.
  intros Hs. destruct (requests_ok cs s o Hs) as (l & s' & o' & E & Hs' & _ & Hlen & _ & Hans). exists l, s', o'. split_and!; [done..|].
  intros i j c d a b Hi Hj Ha Hb. destruct (Hans i c a Hi Ha) as [H1 H2]. destruct (Hans j d b Hj Hb) as [H3 H4]. split; [split; intros ->; congruence|].
  assert (0 < a). { destruct Hs' as (tbl & Et & _ & _ & Hsids & _). unfold sids in H2. rewrite Et in H2. apply Hsids in H2. lia. }
  split; [done|]. rewrite sidtab_search_ok by (done || lia). by rewrite H2.
Qed.

(** the table refines a finite map: [sepol_sidtab_insert] adds a binding,
    refuses a SID that is taken and leaves the table as it was when memory runs
    out; the invariant is kept. *)
Theorem sidtab_insert_spec s sid c o :
  sidtab_ok s -> 0 < sid < 2 ^ 32 - 1 ->
  exists rc s' o', sepol_sidtab_insert s sid c o = (rc, s', o') /\
    match sids s !! sid with
    | Some _ => rc = - EEXIST /\ s' = s
    | None => (rc = 0 /\ sidtab_ok s' /\ sids s' = <[sid := c]> (sids s)) \/ (rc = - ENOMEM /\ s' = s /\ ~ mem_ok o)
    end.
Proof.
  intros Hs Hsid. destruct (sidtab_insert_ok s sid c o Hs Hsid) as (rc & s' & o' & E & _ & H). exists rc, s', o'. split; [done|].
  destruct (sids s !! sid); [done|]. destruct H as [(? & ? & ? & _)|?]; [left|right]; done.
Qed.

Lemma sidtab_init_ok o rc s o' : sepol_sidtab_init o = (rc, s, o') -> rc = 0 -> sidtab_ok s /\ sids s = ∅.
Proof.
  unfold sepol_sidtab_init. destruct (malloc o) as [[] o1]; cbn [negb]; intros E Hrc; simplify_eq.
  assert (concat (replicate (Z.to_nat SIDTAB_SIZE) ([] : sid_chain)) = []) as Hc by (by vm_compute). split; [|unfold sids, sidtab_abs; cbn [sid_htable]; by rewrite Hc].
  eexists. cbn [sid_htable next_sid]. split_and!; [done|by rewrite length_replicate| | |lia|lia].
  - intros i l Hl. apply lookup_replicate in Hl as [-> _]. by split; constructor.
  - unfold sidtab_abs. rewrite Hc. apply map_Forall_empty.
Qed.

Definition sample_sidtab : sidtab := (sepol_sidtab_init []).1.2.
Definition sid_ctx (u : Z) : context_struct := mk_context u 1 1 empty_range.

Lemma sidtab_interns_witness :
  exists l s' o', requests sample_sidtab [sid_ctx 1; sid_ctx 2; sid_ctx 1] [true; true; false] = Some (l, s', o') /\ sidtab_ok s' /\ length l = 3%nat /\
    forall i j c d a b, [sid_ctx 1; sid_ctx 2; sid_ctx 1] !! i = Some c -> [sid_ctx 1; sid_ctx 2; sid_ctx 1] !! j = Some d -> l !! i = Some (0, a) -> l !! j = Some (0, b) ->
      (a = b <-> c = d) /\ 0 < a /\ sepol_sidtab_search s' a = Some c.
Proof. apply (sidtab_interns sample_sidtab [sid_ctx 1; sid_ctx 2; sid_ctx 1] [true; true; false]). by apply (sidtab_init_ok [] 0 _ []). Defined.

Lemma sidtab_insert_witness :
  exists rc s' o', sepol_sidtab_insert sample_sidtab 3 (sid_ctx 1) [] = (rc, s', o') /\
    match sids sample_sidtab !! 3 with
    | Some _ => rc = - EEXIST /\ s' = sample_sidtab
    | None => (rc = 0 /\ sidtab_ok s' /\ sids s' = <[3 := sid_ctx 1]> (sids sample_sidtab)) \/ (rc = - ENOMEM /\ s' = sample_sidtab /\ ~ mem_ok [])
    end.
Proof. apply (sidtab_insert_spec sample_sidtab 3 (sid_ctx 1) []); [by apply (sidtab_init_ok [] 0 _ [])|lia]. Defined.
