(* ===== verification/Constraint.v ===== *)
(** * Constraint: the evaluation of constraints

    [constraint_expr_eval_reason] of libsepol/src/services.c: a constraint in
    reverse polish notation is evaluated on a stack of CEXPR_MAXDEPTH entries;
    beside it the text of every operand is collected, and in the end the texts
    are put together in infix notation for the caller's buffer of reasons.
    The text is built whether or not there is such a buffer, and it allocates,
    so the decision depends on it: what goes wrong with it is returned as an
    error code, in place of the value.

    A buffer that grows ([cat_expr_buf], the buffer of reasons) is the text
    behind which it is full, what a [snprintf] that did not fit has left
    there, and its size.  The counters of the source are [int]s; the model
    does not wrap them, the texts are shorter than 2 GiB. *)
From Stdlib Require Import ZArith Lia Bool String Ascii.
From stdpp Require Import base option list list_numbers gmap sets.
From S2P Require Import Prelude PolicyFile Mem Ebitmap Hashtab Symtab Avtab Cond Codec Symbols Trans Index Contexts ContextText CondIO Policydb.

Open Scope Z_scope.

Definition REASON_BUF_SIZE : Z := 2048.
Definition EXPR_BUF_SIZE : Z := 1024.
Definition STACK_LEN : Z := 32.
Definition SHOW_GRANTED : Z := 1.

Definition CEXPR_USER : Z := 1.
Definition CEXPR_ROLE : Z := 2.
Definition CEXPR_TYPE : Z := 4.
Definition CEXPR_TARGET : Z := 8.
Definition CEXPR_L1L2 : Z := 32.
Definition CEXPR_L1H2 : Z := 64.
Definition CEXPR_H1L2 : Z := 128.
Definition CEXPR_H1H2 : Z := 256.
Definition CEXPR_L1H1 : Z := 512.
Definition CEXPR_L2H2 : Z := 1024.
Definition CEXPR_EQ : Z := 1.
Definition CEXPR_NEQ : Z := 2.
Definition CEXPR_DOM : Z := 3.
Definition CEXPR_DOMBY : Z := 4.
Definition CEXPR_INCOMP : Z := 5.

(** The characters of a literal. *)
Definition lit (s : string) : cstring := map (fun c => Z.of_N (N_of_ascii c)) (list_ascii_of_string s).

(** ["%s"] of a pointer that may be null. *)
Definition shown (s : option cstring) : cstring := default (lit "(null)") s.

(** [snprintf] into a [tmp_buf] of 128 bytes. *)
Definition tmp_buf (s : cstring) : cstring := take 127 s.

(** ** Growing buffers *)

Record tbuf := mk_tbuf { tb_used : cstring; tb_tail : cstring; tb_len : Z }.

Definition tb_text (b : tbuf) : cstring := tb_used b ++ tb_tail b.

(** The loop of [cat_expr_buf] and of the buffer of reasons: [snprintf] at the
    end of what is used, and a larger buffer as long as that does not fit.
    [false]: there is no larger buffer. *)
Fixpoint append_loop (step : Z) (fuel : nat) (s : cstring) (b : tbuf) : X (bool * tbuf) :=
  fun o =>
    let room := tb_len b - zlength (tb_used b) in
    if room <=? zlength s then
      let b := mk_tbuf (tb_used b) (if 0 <? room then take (Z.to_nat (room - 1)) s else tb_tail b) (tb_len b) in
      let '(ok, o) := malloc o in
      if negb ok then Some (Some (false, b), o) else
      match fuel with
      | O => None
      | S fuel => append_loop step fuel s (mk_tbuf (tb_used b) (tb_tail b) (tb_len b + step)) o
      end
    else Some (Some (true, mk_tbuf (tb_used b ++ s) [] (tb_len b)), o).

Definition append (step : Z) (s : cstring) (b : tbuf) : X (bool * tbuf) := append_loop step (S (length s)) s b.

Definition cat_expr_buf (s : cstring) (b : tbuf) : X tbuf := r <- append EXPR_BUF_SIZE s b ;;; xret r.2.

(** ** Permissions as text (util.c) *)

(** The callback; [v->name] is [None] as long as it is not set. *)
Definition perm_name (val : Z) (k : cstring) (d : perm_datum) (v : option cstring) : Z * option cstring :=
  if val =? perm_value d then (1, Some k) else (0, v).

(** Go on with the next element, or [goto out]. *)
Inductive progress (A : Type) :=
| Go (a : A)
| Out (rc : Z).
#[global] Arguments Go {A} a.
#[global] Arguments Out {A} rc.

Section Text.
Context (db : policydb).

Definition comdatum (c : class_datum) : option common_datum :=
  ck ← cla_comkey c; hashtab_search (st_table (p_commons (db_symbols db))) ck.

Definition perm_text (cladatum : class_datum) (i : Z) : option cstring :=
  let '(rc, v) := hashtab_map (st_table (cla_permissions cladatum)) (perm_name (i + 1)) None in
  let '(rc, v) := match comdatum cladatum with
                  | Some com => if negb (ctrue rc) then hashtab_map (st_table (com_permissions com)) (perm_name (i + 1)) v else (rc, v)
                  | None => (rc, v)
                  end in
  if rc =? 1 then v else None.

(** The loop over the permissions, from [i] on, with [remaining] bytes left;
    [None]: retry with a larger buffer. *)
Fixpoint av_loop (cladatum : class_datum) (av : Z) (perms : list Z) (p : cstring) (remaining : Z) : option cstring :=
  match perms with
  | [] => Some p
  | i :: perms =>
      if Z.testbit av i then
        match perm_text cladatum i with
        | None => av_loop cladatum av perms p remaining
        | Some name =>
            let s := lit " " ++ name in
            if remaining <=? zlength s then None else av_loop cladatum av perms (p ++ s) (remaining - zlength s)
        end
      else av_loop cladatum av perms p remaining
  end.

Fixpoint av_retry (fuel : nat) (cladatum : class_datum) (av size : Z) : X cstring :=
  fun o =>
    let size := 2 * size in
    if 2 ^ 64 <=? size then Some (None, o) else
    let '(ok, o) := malloc o in
    if negb ok then Some (None, o) else
    match av_loop cladatum av (seqZ 0 (st_nprim (cla_permissions cladatum))) [] size with
    | Some s => Some (Some s, o)
    | None => match fuel with O => None | S fuel => av_retry fuel cladatum av size o end
    end.

(** [None]: no class has the value, or it has more permissions than bits. *)
Definition sepol_av_to_string (tclass av : Z) : X cstring :=
  match class_val_to_struct (db_class_indexes db) !! Z.to_nat (tclass - 1) with
  | Some (Some (_, cladatum)) => if 32 <? st_nprim (cla_permissions cladatum) then xfault else av_retry 64 cladatum av 64
  | _ => xfault
  end.

(** ** What a constraint is about *)

(** [permstr ?: "<format-failure>"]. *)
Definition or_failure (m : X cstring) : X cstring :=
  fun o => match m o with
           | None => None
           | Some (r, o) => Some (Some (default (lit "<format-failure>") r), o)
           end.

Fixpoint class_info_loop (fuel : nat) (tclass : Z) (perms : option Z) (stmt name : cstring) (class_buf_len : Z) : X cstring :=
  fun o =>
    let class_buf_len := class_buf_len + EXPR_BUF_SIZE in
    let '(ok, o) := malloc o in
    if negb ok then Some (None, o) else
    let again o := match fuel with O => None | S fuel => class_info_loop fuel tclass perms stmt name class_buf_len o end in
    let front := stmt ++ name ++ lit " " in
    if class_buf_len <=? zlength stmt then again o else
    if class_buf_len <=? zlength front then again o else
    match (match perms with
           | Some av => (permstr <- or_failure (sepol_av_to_string tclass av) ;;; xret (lit "{" ++ permstr ++ lit " } ("))
           | None => xret (lit "(")
           end) o with
    | Some (Some rest, o) => if class_buf_len <=? zlength (front ++ rest) then again o else Some (Some (front ++ rest), o)
    | Some (None, o) => Some (None, o)
    | None => None
    end.

(** Enough turns of the loop of [get_class_info]: every one adds
    EXPR_BUF_SIZE bytes, and a permission text of [sepol_av_to_string] names
    each of the permissions once. *)
Definition class_info_fuel (tclass : Z) (name : cstring) : nat :=
  let perms : list cstring := match class_val_to_struct (db_class_indexes db) !! Z.to_nat (tclass - 1) with
               | Some (Some (_, c)) => omap (perm_text c) (seqZ 0 (st_nprim (cla_permissions c)))
               | _ => []
               end in
  (64 + length name + length (concat (map (cons 32%Z) perms)))%nat.

Definition get_class_info (tclass : Z) (constraint : constraint_node) (validatetrans : bool) : X cstring :=
  let mls := existsb (fun e => CEXPR_L1L2 <=? ce_attr e) (con_expr constraint) in
  let stmt := match validatetrans, mls with
              | false, false => lit "constrain "
              | false, true => lit "mlsconstrain "
              | true, false => lit "validatetrans "
              | true, true => lit "mlsvalidatetrans "
              end in
  match p_class_val_to_name (db_class_indexes db) !! Z.to_nat (tclass - 1) with
  | None => xfault
  | Some name =>
      class_info_loop (class_info_fuel tclass (shown name)) tclass (if validatetrans then None else Some (con_permissions constraint)) stmt (shown name) 0
  end.

(** ** The texts of operands *)

(** The members of a set, as the loops of [get_name_list] find them. *)
Definition entries (types : ebitmap) : list Z :=
  filter (fun i => ctrue (ebitmap_get_bit types i)) (seqZ (ebitmap_startbit types) (ebitmap_length types - ebitmap_startbit types)).

Definition value_names (type : Z) : names :=
  if type =? CEXPR_USER then (ix_users (db_indexes db)).1
  else if type =? CEXPR_ROLE then (ix_roles (db_indexes db)).1
  else (ix_types (db_indexes db)).1.

Definition cat_entry (type i : Z) (b : tbuf) : X tbuf :=
  match value_names type !! Z.to_nat i with
  | None => xfault
  | Some name => cat_expr_buf (tmp_buf (lit " " ++ shown name)) b
  end.

Definition listed (e : constraint_expr) (type : Z) : ebitmap :=
  if (h_type (db_header db) =? POLICY_KERN) && (POLICYDB_VERSION_CONSTRAINT_NAMES <=? h_vers (db_header db)) && (type =? CEXPR_TYPE)
  then ts_types (ce_type_names e) else ce_names e.

Definition get_name_list (e : constraint_expr) (type : Z) (src : option cstring) (op : cstring) (failed : bool) (b : tbuf) : X tbuf :=
  let members := entries (listed e type) in
  let counter := zlength members in
  b <- cat_expr_buf (tmp_buf (lit "(" ++ shown src ++ op)) b ;;;
  b <- (if counter =? 0 then cat_expr_buf (lit "<empty_set> ") b else xret b) ;;;
  b <- (if 1 <? counter then cat_expr_buf (lit " {") b else xret b) ;;;
  b <- xfold (cat_entry type) members b ;;;
  b <- (if 1 <? counter then cat_expr_buf (lit " }") b else xret b) ;;;
  cat_expr_buf (if failed then lit " -Fail-) " else lit ") ") b.

Definition msgcat (src tgt : option cstring) (op : cstring) (failed : bool) (b : tbuf) : X tbuf :=
  cat_expr_buf (tmp_buf (lit "(" ++ shown src ++ lit " " ++ op ++ lit " " ++ shown tgt ++ (if failed then lit " -Fail-) " else lit ") "))) b.

(** ** One element of a constraint *)

(** The stack [s] with [sp], the pointers [src] and [tgt], the buffers of
    [expr_list] that are done and the number of places there are for them. *)
Record cstate := mk_cstate {
  cs_s : list Z; cs_sp : Z; cs_src : option cstring; cs_tgt : option cstring; cs_texts : list cstring; cs_cap : Z }.

Definition set_stack (st : cstate) (s : list Z) (sp : Z) : cstate := mk_cstate s sp (cs_src st) (cs_tgt st) (cs_texts st) (cs_cap st).
Definition set_names (st : cstate) (src tgt : option cstring) : cstate := mk_cstate (cs_s st) (cs_sp st) src tgt (cs_texts st) (cs_cap st).

(** At [out] the buffers are freed up to the first null pointer, unless there
    are none: [null] says that one was stored behind them; without it the loop
    reads pointers that were never written. *)
Definition goto_out {A} (st : cstate) (null : bool) (rc : Z) : X (progress A) :=
  match cs_texts st with
  | [] => xret (Out rc)
  | _ => if null then xret (Out rc) else xfault
  end.

(** [free(p); p = strdup(s)], which may be null. *)
Definition redup (s : cstring) : X (option cstring) :=
  fun o => let '(ok, o) := malloc o in Some (Some (if ok then Some s else None), o).

Definition levels_of (attr : Z) (scontext tcontext : context_struct) : option (mls_level * mls_level * cstring * cstring) :=
  let l c := level0 (ctx_range c) in
  let h c := level1 (ctx_range c) in
  if attr =? CEXPR_L1L2 then Some (l scontext, l tcontext, lit "l1", lit "l2")
  else if attr =? CEXPR_L1H2 then Some (l scontext, h tcontext, lit "l1", lit "h2")
  else if attr =? CEXPR_H1L2 then Some (h scontext, l tcontext, lit "h1", lit "l2")
  else if attr =? CEXPR_H1H2 then Some (h scontext, h tcontext, lit "h1", lit "h2")
  else if attr =? CEXPR_L1H1 then Some (l scontext, h scontext, lit "l1", lit "h1")
  else if attr =? CEXPR_L2H2 then Some (l tcontext, h tcontext, lit "l2", lit "h2")
  else None.

Definition mls_level_incomp (l1 l2 : mls_level) : bool := negb (mls_level_dom l1 l2) && negb (mls_level_dom l2 l1).

(** The operators on levels and on values with their texts. *)
Definition mls_ops (op : Z) (l1 l2 : mls_level) : option (bool * cstring) :=
  if op =? CEXPR_EQ then Some (mls_level_eq l1 l2, lit "eq")
  else if op =? CEXPR_NEQ then Some (negb (mls_level_eq l1 l2), lit "!=")
  else if op =? CEXPR_DOM then Some (mls_level_dom l1 l2, lit "dom")
  else if op =? CEXPR_DOMBY then Some (mls_level_dom l2 l1, lit "domby")
  else if op =? CEXPR_INCOMP then Some (mls_level_incomp l2 l1, lit "incomp")
  else None.

Definition value_ops (op val1 val2 : Z) : option (bool * cstring) :=
  if op =? CEXPR_EQ then Some (val1 =? val2, lit "==")
  else if op =? CEXPR_NEQ then Some (negb (val1 =? val2), lit "!=")
  else None.

(** The entry of [role_val_to_struct]; [None]: outside the array. *)
Definition role_entry (val : Z) : option (option role_datum) :=
  match (ix_roles (db_indexes db)).2 !! Z.to_nat (u32 (val - 1)) with
  | None => None
  | Some r => Some (option_map snd r)
  end.

Definition dominates (r : option role_datum) (val : Z) : option bool :=
  r ← r; Some (ctrue (ebitmap_get_bit (role_dominates r) (u32 (val - 1)))).

(** [None]: a null pointer; [Some None]: another operator. *)
Definition role_ops (op : Z) (r1 r2 : option role_datum) (val1 val2 : Z) : option (option (bool * cstring)) :=
  if op =? CEXPR_DOM then b ← dominates r1 val2; Some (Some (b, lit "dom"))
  else if op =? CEXPR_DOMBY then b ← dominates r2 val1; Some (Some (b, lit "domby"))
  else if op =? CEXPR_INCOMP then
    match dominates r1 val2 with
    | None => None
    | Some true => Some (Some (false, lit "incomp"))
    | Some false => b ← dominates r2 val1; Some (Some (negb b, lit "incomp"))
    end
  else Some None.

(** [s[++sp] = v]. *)
Definition push_value (st : cstate) (v : bool) : X cstate :=
  s <- xopt (wr (cs_s st) (cs_sp st + 1) (Z.b2z v)) ;;; xret (set_stack st s (cs_sp st + 1)).

(** The end of the case of an attribute: the value and its text, or BUG. *)
Definition attr_done (st : cstate) (b : tbuf) (r : option (bool * cstring)) : X (progress (cstate * tbuf)) :=
  match r with
  | None => goto_out st false 0
  | Some (v, op) =>
      st <- push_value st v ;;;
      b <- msgcat (cs_src st) (cs_tgt st) op (negb v) b ;;;
      xret (Go (st, b))
  end.

Definition dup_names (st : cstate) (src tgt : cstring) : X cstate :=
  src <- redup src ;;; tgt <- redup tgt ;;; xret (set_names st src tgt).

Definition eval_attr (e : constraint_expr) (scontext tcontext : context_struct) (st : cstate) (b : tbuf) : X (progress (cstate * tbuf)) :=
  if cs_sp st =? CEXPR_MAXDEPTH - 1 then goto_out st false 0 else
  if ce_attr e =? CEXPR_USER then
    (st <- dup_names st (lit "u1") (lit "u2") ;;; attr_done st b (value_ops (ce_op e) (ctx_user scontext) (ctx_user tcontext)))
  else if ce_attr e =? CEXPR_TYPE then
    (st <- dup_names st (lit "t1") (lit "t2") ;;; attr_done st b (value_ops (ce_op e) (ctx_type scontext) (ctx_type tcontext)))
  else if ce_attr e =? CEXPR_ROLE then
    let val1 := ctx_role scontext in
    let val2 := ctx_role tcontext in
    (r1 <- xopt (role_entry val1) ;;;
    r2 <- xopt (role_entry val2) ;;;
    st <- dup_names st (lit "r1") (lit "r2") ;;;
    r <- xopt (role_ops (ce_op e) r1 r2 val1 val2) ;;;
    attr_done st b (match r with Some r => Some r | None => value_ops (ce_op e) val1 val2 end))
  else
    match levels_of (ce_attr e) scontext tcontext with
    | Some (l1, l2, src, tgt) => st <- dup_names st src tgt ;;; attr_done st b (mls_ops (ce_op e) l1 l2)
    | None => goto_out st false 0
    end.

Definition eval_names (e : constraint_expr) (scontext tcontext : context_struct) (xcontext : option context_struct) (st : cstate) (b : tbuf) :
    X (progress (cstate * tbuf)) :=
  if cs_sp st =? CEXPR_MAXDEPTH - 1 then goto_out st false 0 else
  let '(s_t_x_num, c) := if ctrue (Z.land (ce_attr e) CEXPR_TARGET) then (lit "2 ", Some tcontext)
                         else if ctrue (Z.land (ce_attr e) CEXPR_XTARGET) then (lit "3 ", xcontext)
                         else (lit "1 ", Some scontext) in
  match c with
  | None => goto_out st false 0
  | Some c =>
      match (if ctrue (Z.land (ce_attr e) CEXPR_USER) then Some (CEXPR_USER, ctx_user c, lit "u")
             else if ctrue (Z.land (ce_attr e) CEXPR_ROLE) then Some (CEXPR_ROLE, ctx_role c, lit "r")
             else if ctrue (Z.land (ce_attr e) CEXPR_TYPE) then Some (CEXPR_TYPE, ctx_type c, lit "t")
             else None) with
      | None => goto_out st false 0
      | Some (u_r_t, val1, letter) =>
          src <- redup (letter ++ s_t_x_num) ;;;
          let st := set_names st src (cs_tgt st) in
          let member := ctrue (ebitmap_get_bit (ce_names e) (u32 (val1 - 1))) in
          if ce_op e =? CEXPR_EQ then
            st <- push_value st member ;;; b <- get_name_list e u_r_t src (lit "==") (negb member) b ;;; xret (Go (st, b))
          else if ce_op e =? CEXPR_NEQ then
            st <- push_value st (negb member) ;;; b <- get_name_list e u_r_t src (lit "!=") member b ;;; xret (Go (st, b))
          else goto_out st false 0
      end
  end.

(** [s[sp] = !s[sp]], and [sp--; s[sp] op= s[sp + 1]]. *)
Definition eval_not (st : cstate) (b : tbuf) : X (progress (cstate * tbuf)) :=
  if cs_sp st <? 0 then goto_out st false (- EINVAL) else
  v <- xopt (rd (cs_s st) (cs_sp st)) ;;;
  s <- xopt (wr (cs_s st) (cs_sp st) (Z.b2z (negb (ctrue v)))) ;;;
  b <- cat_expr_buf (lit "not") b ;;; xret (Go (set_stack st s (cs_sp st), b)).

Definition eval_two (f : Z -> Z -> Z) (text : cstring) (st : cstate) (b : tbuf) : X (progress (cstate * tbuf)) :=
  if cs_sp st <? 1 then goto_out st false (- EINVAL) else
  let sp := cs_sp st - 1 in
  v <- xopt (rd (cs_s st) sp) ;;;
  w <- xopt (rd (cs_s st) (sp + 1)) ;;;
  s <- xopt (wr (cs_s st) sp (f v w)) ;;;
  b <- cat_expr_buf text b ;;; xret (Go (set_stack st s sp, b)).

Definition eval_case (e : constraint_expr) (scontext tcontext : context_struct) (xcontext : option context_struct) (st : cstate) (b : tbuf) :
    X (progress (cstate * tbuf)) :=
  if ce_type e =? CEXPR_NOT then eval_not st b
  else if ce_type e =? CEXPR_AND then eval_two Z.land (lit "and") st b
  else if ce_type e =? CEXPR_OR then eval_two Z.lor (lit "or") st b
  else if ce_type e =? CEXPR_ATTR then eval_attr e scontext tcontext st b
  else if ce_type e =? CEXPR_NAMES then eval_names e scontext tcontext xcontext st b
  else goto_out st false 0.

(** One turn of the loop: a place in [expr_list], a buffer, the case, and
    [expr_counter++]. *)
Definition eval_element (e : constraint_expr) (scontext tcontext : context_struct) (xcontext : option context_struct) (st : cstate) :
    X (progress cstate) :=
  fun o =>
    let full := cs_cap st <=? zlength (cs_texts st) in
    let '(ok, o) := if full then malloc o else (true, o) in
    if negb ok then goto_out st false (- ENOMEM) o else
    let cap := if full then if cs_cap st =? 0 then STACK_LEN else cs_cap st * 2 else cs_cap st in
    let st := mk_cstate (cs_s st) (cs_sp st) (cs_src st) (cs_tgt st) (cs_texts st) cap in
    let '(ok, o) := malloc o in
    if negb ok then goto_out st true (- ENOMEM) o else
    match eval_case e scontext tcontext xcontext st (mk_tbuf [] [] EXPR_BUF_SIZE) o with
    | Some (Some (Go (st, b)), o) =>
        Some (Some (Go (mk_cstate (cs_s st) (cs_sp st) (cs_src st) (cs_tgt st) (cs_texts st ++ [tb_text b]) (cs_cap st))), o)
    | Some (Some (Out rc), o) => Some (Some (Out rc), o)
    | Some (None, o) => Some (None, o)
    | None => None
    end.

Fixpoint eval_elements (es : list constraint_expr) (scontext tcontext : context_struct) (xcontext : option context_struct) (st : cstate) :
    X (progress cstate) :=
  match es with
  | [] => xret (Go st)
  | e :: es =>
      r <- eval_element e scontext tcontext xcontext st ;;;
      match r with
      | Go st => eval_elements es scontext tcontext xcontext st
      | Out rc => xret (Out rc)
      end
  end.

(** ** From reverse polish to infix notation *)

(** The global stack of texts, the last one first, and its size. *)
Record tstack := mk_tstack { ts_stack : list cstring; ts_len : Z }.

(** A text that finds no room is dropped. *)
Definition push (s : cstring) (t : tstack) : X tstack :=
  fun o =>
    if ts_len t <=? zlength (ts_stack t) then
      let '(ok, o) := malloc o in
      if negb ok then Some (Some t, o)
      else Some (Some (mk_tstack (s :: ts_stack t) (if ts_len t =? 0 then STACK_LEN else ts_len t * 2)), o)
    else Some (Some (mk_tstack (s :: ts_stack t) (ts_len t)), o).

Definition pop (t : tstack) : option cstring * tstack :=
  match ts_stack t with
  | [] => (None, t)
  | s :: l => (Some s, mk_tstack l (ts_len t))
  end.

(** [strncmp(s, prefix, strlen(prefix)) == 0]. *)
Definition begins (prefix s : cstring) : bool := bool_decide (take (length prefix) s = prefix).

(** [malloc(n)] and [sprintf] of [s] into it; [None] when there is no memory. *)
Definition sprintf_new (n : Z) (s : cstring) : X (option cstring) :=
  fun o => let '(ok, o) := malloc o in
           if negb ok then Some (Some None, o) else if n <? zlength s + 1 then None else Some (Some (Some s), o).

Definition infix_push (t : tstack) (s : option cstring) : X (tstack * bool) :=
  match s with
  | None => xret (t, false)
  | Some s => t <- push s t ;;; xret (t, true)
  end.

(** [false]: -ENOMEM.  The length of a null pointer is a fault. *)
Definition infix_step (x : cstring) (t : tstack) : X (tstack * bool) :=
  if begins (lit "and") x || begins (lit "or") x then
    let '(b, t) := pop t in
    b <- xopt b ;;;
    let '(a, t) := pop t in
    a <- xopt a ;;;
    r <- sprintf_new (zlength a + zlength b + 8) (a ++ lit " " ++ x ++ lit " " ++ b) ;;;
    infix_push t r
  else if begins (lit "not") x then
    let '(b, t) := pop t in
    b <- xopt b ;;;
    r <- sprintf_new (zlength b + 8) (if begins (lit "not") b then x ++ lit " (" ++ b ++ lit ")" else x ++ b) ;;;
    infix_push t r
  else t <- push x t ;;; xret (t, true).

Fixpoint infix_loop (xs : list cstring) (t : tstack) : X (tstack * bool) :=
  match xs with
  | [] => xret (t, true)
  | x :: xs => r <- infix_step x t ;;; if r.2 then infix_loop xs r.1 else xret (r.1, false)
  end.

(** ** The whole evaluation *)

(** The loop over [buffers]; [goto out1] when there is no memory. *)
Fixpoint reasons (buffers : list cstring) (b : tbuf) : X tbuf :=
  match buffers with
  | [] => xret b
  | s :: buffers => r <- append REASON_BUF_SIZE s b ;;; if r.1 then reasons buffers r.2 else xret r.2
  end.

(** What is kept between calls: the stack of texts, and, when the caller has
    one, the buffer of reasons with its counters. *)
Record eval_state := mk_eval_state { ev_stack : tstack; ev_reason : option tbuf }.

Definition constraint_expr_eval_reason (scontext tcontext : context_struct) (xcontext : option context_struct) (tclass : Z)
    (constraint : constraint_node) (flags : Z) (ev : eval_state) : X (Z * eval_state) :=
  fun o =>
    match get_class_info tclass constraint (bool_decide (is_Some xcontext)) o with
    | None => None
    | Some (None, o) => Some (Some (- ENOMEM, ev), o)
    | Some (Some class_buf, o) =>
        (r <- eval_elements (con_expr constraint) scontext tcontext xcontext (mk_cstate (replicate (Z.to_nat CEXPR_MAXDEPTH) 0) (- 1) None None [] 0) ;;;
         match r with
         | Out rc => xret (rc, ev)
         | Go st =>
             fun o =>
               let '(ok, o) := malloc o in
               (if negb ok then xret (- ENOMEM, ev) else
                r <- infix_loop (cs_texts st) (ev_stack ev) ;;;
                if negb r.2 then xret (- ENOMEM, mk_eval_state r.1 (ev_reason ev)) else
                let '(a, t) := pop r.1 in
                s0 <- xopt (rd (cs_s st) 0) ;;;
                let verdict := lit (if bool_decide (is_Some xcontext) then "Validatetrans" else "Constraint") ++ lit " " ++
                               lit (if ctrue s0 then "GRANTED" else "DENIED") ++ [10] in
                reason <- match ev_reason ev with
                          | Some b =>
                              if (s0 =? 0) || ((s0 =? 1) && (Z.land flags SHOW_GRANTED =? SHOW_GRANTED))
                              then b <- reasons (class_buf :: match a with Some a => [a; lit "); "; verdict] | None => [] end) b ;;; xret (Some b)
                              else xret (Some b)
                          | None => xret None
                          end ;;;
                xret (s0, mk_eval_state t reason)) o
         end) o
    end.
End Text.
