(* ===== verification/ConstraintThms.v ===== *)
(** * ConstraintThms: what a constraint means

    A constraint denotes a condition on two or three contexts, given by the
    tree its reverse polish notation describes and by set operations on the
    attributes at its leaves.  The evaluator computes it, and its text, as
    long as memory lasts; when memory runs out it may return -ENOMEM, which
    its callers take for true. *)
From Stdlib Require Import ZArith Lia Bool String.
From stdpp Require Import base option list list_numbers gmap sets.
From S2P Require Import Prelude PolicyFile Mem Ebitmap EbitmapThms EbitmapRange Hashtab Symtab Avtab Cond Codec Symbols SymCodec SymbolsIO SymbolsThms Trans Index ExpandThms Contexts ContextsValid ContextText CondIO Policydb Constraint.

Open Scope Z_scope.

(** ** Computations that may lack memory *)

(** [m] returns a value in [P]; while [g] holds and no allocation fails it goes
    wrong nowhere, and its value is in [Q] too. *)
Definition xmay (g : Prop) {A} (m : X A) (P Q : A -> Prop) : Prop :=
  forall o, match m o with
            | None => ~ (g /\ mem_ok o)
            | Some (None, _) => False
            | Some (Some a, o') => P a /\ (g -> mem_ok o -> mem_ok o' /\ Q a)
            end.

Lemma xmay_ret g {A} (a : A) (P Q : A -> Prop) : P a -> (g -> Q a) -> xmay g (xret a) P Q.
Proof. intros HP HQ o. cbn. auto. Qed.

Lemma xmay_bind g {A B} (m : X A) (k : A -> X B) (P Q : A -> Prop) (P' Q' : B -> Prop) :
  xmay g m P Q -> (forall a (g' : Prop), P a -> (g' -> g /\ Q a) -> xmay g' (k a) P' Q') -> xmay g (xbind m k) P' Q'.
Proof.
  intros Hm Hk o. specialize (Hm o). unfold xbind. destruct (m o) as [[[a|] o1]|]; [|done..]. destruct Hm as [HP HQ].
  assert (Hg : g /\ mem_ok o -> g /\ Q a) by (intros []; split; [done|by apply HQ]).
  specialize (Hk a (g /\ mem_ok o) HP Hg o1). destruct (k a o1) as [[[b|] o2]|]; [|done|].
  - destruct Hk as [HP' HQ']. split; [done|]. intros G M. apply HQ'; [done|by apply HQ].
  - intros [G M]. apply Hk. split; [done|by apply HQ].
Qed.

Lemma xmay_here g {A B} (a : A) (k : A -> X B) (P Q : B -> Prop) : xmay g (k a) P Q -> xmay g (xbind (xret a) k) P Q.
Proof. done. Qed.

Lemma xmay_some g {A B} (m : option A) (a : A) (k : A -> X B) (P Q : B -> Prop) : m = Some a -> xmay g (k a) P Q -> xmay g (xbind (xopt m) k) P Q.
Proof. intros ->. done. Qed.

Lemma xmay_mono g {A} (m : X A) (P Q P' Q' : A -> Prop) :
  xmay g m P Q -> (forall a, P a -> P' a) -> (forall a, g -> P a -> Q a -> Q' a) -> xmay g m P' Q'.
Proof.
  intros H HP HQ o. specialize (H o). destruct (m o) as [[[a|] o1]|]; [|done..]. destruct H as [H1 H2]. split; [auto|].
  intros G M. destruct (H2 G M). split; [done|auto].
Qed.

Lemma xmay_opt g {A} (m : option A) (a : A) (P Q : A -> Prop) : m = Some a -> P a -> (g -> Q a) -> xmay g (xopt m) P Q.
Proof. intros ->. apply xmay_ret. Qed.

Lemma xmay_ext g {A} (m m' : X A) (P Q : A -> Prop) : (forall o, m o = m' o) -> xmay g m' P Q -> xmay g m P Q.
Proof. intros He H o. rewrite He. apply H. Qed.

Lemma xmay_at g {A} (m : X A) (P Q : A -> Prop) o o1 :
  xmay (g /\ mem_ok o) m P Q -> (mem_ok o -> mem_ok o1) ->
  match m o1 with
  | None => ~ (g /\ mem_ok o)
  | Some (None, _) => False
  | Some (Some a, o') => P a /\ (g -> mem_ok o -> mem_ok o' /\ Q a)
  end.
Proof.
  intros H HM. specialize (H o1). destruct (m o1) as [[[a|] o2]|]; [|done|].
  - destruct H as [H1 H2]. split; [done|]. intros G M. apply H2; auto.
  - intros [G M]. apply H. auto.
Qed.

Lemma xmay_fault g {A} (P Q : A -> Prop) : ~ g -> xmay g xfault P Q.
Proof. intros H o. cbn. tauto. Qed.

(** An allocation. *)
Lemma xmay_malloc g {A} (f : bool -> X A) (P Q : A -> Prop) :
  xmay g (f true) P Q -> (forall g' : Prop, ~ g' -> xmay g' (f false) P Q) -> xmay g (fun o => let '(ok, o) := malloc o in f ok o) P Q.
Proof.
  intros Ht Hf o. destruct (malloc o) as [ok o1] eqn:E. assert (HM : mem_ok o -> ok = true /\ mem_ok o1) by (intros M; by apply (malloc_mem_ok o)).
  destruct ok.
  - specialize (Ht o1). destruct (f true o1) as [[[a|] o2]|]; [|done|].
    + destruct Ht as [? HQ]. split; [done|]. intros G M. apply HQ; [done|by apply HM].
    + intros [G M]. apply Ht. split; [done|by apply HM].
  - specialize (Hf False (fun x => x) o1). destruct (f false o1) as [[[a|] o2]|]; [|done|].
    + split; [tauto|]. intros G M. by destruct (HM M).
    + intros [G M]. by destruct (HM M).
Qed.

(** ** Texts *)

Lemma append_ok g step s b :
  0 < step -> 0 <= tb_len b - zlength (tb_used b) ->
  xmay g (append step s b) (fun r => 0 <= tb_len r.2 - zlength (tb_used r.2)) (fun r => r.1 = true /\ tb_used r.2 = tb_used b ++ s /\ tb_tail r.2 = []).
Proof.
  intros Hstep Hroom. unfold append. assert (Hfuel : (length s < S (length s) + Z.to_nat (tb_len b - zlength (tb_used b)))%nat) by lia.
  revert Hfuel. generalize (S (length s)) as fuel. intros fuel. revert b Hroom g. induction fuel as [|fuel IH]; intros b Hroom g Hfuel o; cbn [append_loop].
  - replace (_ <=? _) with false by (unfold zlength in *; lia). cbn. rewrite zlength_app. unfold zlength in *. split; [lia|]. by intros.
  - destruct (Z.leb_spec (tb_len b - zlength (tb_used b)) (zlength s)) as [Hle|Hgt].
    + revert o. apply (xmay_malloc g (fun ok o => if negb ok then _ else _)); cbn [negb].
      * set (b' := mk_tbuf _ _ _). apply (xmay_mono _ _ _ _ _ _ (IH b' ltac:(unfold b'; cbn; lia) g ltac:(unfold b'; cbn; lia))); [done|]. intros r _ _. by unfold b'.
      * intros g' Hg' o. cbn. split; [done|]. by intros.
    + cbn. rewrite zlength_app. split; [lia|]. by intros.
Qed.

(** A buffer that holds a text and has room for one more character. *)
Definition tb_ok (b : tbuf) : Prop := 0 <= tb_len b - zlength (tb_used b).
Definition holds_text (b : tbuf) (s : cstring) : Prop := tb_used b = s /\ tb_tail b = [].

Lemma cat_ok g s t b :
  tb_ok b -> (g -> tb_used b = t) -> xmay g (cat_expr_buf s b) tb_ok (fun b' => holds_text b' (t ++ s)).
Proof.
  intros Hb Ht. unfold cat_expr_buf. eapply xmay_bind; [by apply append_ok|]. intros r g' Hr Hg. apply xmay_ret; [done|].
  intros G. destruct (Hg G) as [G' (_ & H1 & H2)]. split; [|done]. by rewrite H1, Ht.
Qed.

(** ** Meaning *)

Definition level_dominates (l1 l2 : mls_level) : Prop := sens l2 <= sens l1 /\ ebitmap_set (cat l2) ⊆ ebitmap_set (cat l1).
Definition level_equal (l1 l2 : mls_level) : Prop := sens l1 = sens l2 /\ ebitmap_set (cat l1) = ebitmap_set (cat l2).

Definition compare_values (op v1 v2 : Z) : option bool :=
  if op =? CEXPR_EQ then Some (bool_decide (v1 = v2)) else if op =? CEXPR_NEQ then Some (bool_decide (v1 <> v2)) else None.

Definition compare_levels (op : Z) (l1 l2 : mls_level) : option bool :=
  if op =? CEXPR_EQ then Some (bool_decide (level_equal l1 l2))
  else if op =? CEXPR_NEQ then Some (bool_decide (~ level_equal l1 l2))
  else if op =? CEXPR_DOM then Some (bool_decide (level_dominates l1 l2))
  else if op =? CEXPR_DOMBY then Some (bool_decide (level_dominates l2 l1))
  else if op =? CEXPR_INCOMP then Some (bool_decide (~ level_dominates l1 l2 /\ ~ level_dominates l2 l1))
  else None.

(** [r1] and [r2] with the values [v1] and [v2]. *)
Definition compare_roles (op : Z) (r1 r2 : role_datum) (v1 v2 : Z) : option bool :=
  if op =? CEXPR_DOM then Some (bool_decide (v2 - 1 ∈ ebitmap_set (role_dominates r1)))
  else if op =? CEXPR_DOMBY then Some (bool_decide (v1 - 1 ∈ ebitmap_set (role_dominates r2)))
  else if op =? CEXPR_INCOMP then
    Some (bool_decide (v2 - 1 ∉ ebitmap_set (role_dominates r1) /\ v1 - 1 ∉ ebitmap_set (role_dominates r2)))
  else compare_values op v1 v2.

(** The levels an attribute compares: low or high, of the source or the
    target. *)
Definition compared_levels (attr : Z) (s t : mls_range) : option (mls_level * mls_level) :=
  if attr =? CEXPR_L1L2 then Some (level0 s, level0 t)
  else if attr =? CEXPR_L1H2 then Some (level0 s, level1 t)
  else if attr =? CEXPR_H1L2 then Some (level1 s, level0 t)
  else if attr =? CEXPR_H1H2 then Some (level1 s, level1 t)
  else if attr =? CEXPR_L1H1 then Some (level0 s, level1 s)
  else if attr =? CEXPR_L2H2 then Some (level0 t, level1 t)
  else None.

(** Whose attribute is looked up in a set of names, and which. *)
Definition named_context (attr : Z) (s t : context_struct) (x : option context_struct) : option context_struct :=
  if ctrue (Z.land attr CEXPR_TARGET) then Some t else if ctrue (Z.land attr CEXPR_XTARGET) then x else Some s.
Definition named_attribute (attr : Z) : option (Z * (context_struct -> Z)) :=
  if ctrue (Z.land attr CEXPR_USER) then Some (CEXPR_USER, ctx_user)
  else if ctrue (Z.land attr CEXPR_ROLE) then Some (CEXPR_ROLE, ctx_role)
  else if ctrue (Z.land attr CEXPR_TYPE) then Some (CEXPR_TYPE, ctx_type)
  else None.

Section Meaning.
Context (db : policydb).

Definition role_of (v : Z) : option role_datum := r ← (ix_roles (db_indexes db)).2 !! Z.to_nat (v - 1); snd <$> r.

(** The condition at a leaf; [None]: it is none that policies have. *)
Definition leaf_value (e : constraint_expr) (s t : context_struct) (x : option context_struct) : option bool :=
  if ce_type e =? CEXPR_ATTR then
    if ce_attr e =? CEXPR_USER then compare_values (ce_op e) (ctx_user s) (ctx_user t)
    else if ce_attr e =? CEXPR_TYPE then compare_values (ce_op e) (ctx_type s) (ctx_type t)
    else if ce_attr e =? CEXPR_ROLE then
      r1 ← role_of (ctx_role s); r2 ← role_of (ctx_role t); compare_roles (ce_op e) r1 r2 (ctx_role s) (ctx_role t)
    else '(l1, l2) ← compared_levels (ce_attr e) (ctx_range s) (ctx_range t); compare_levels (ce_op e) l1 l2
  else
    c ← named_context (ce_attr e) s t x;
    '(_, val) ← named_attribute (ce_attr e);
    if ce_op e =? CEXPR_EQ then Some (bool_decide (val c - 1 ∈ ebitmap_set (ce_names e)))
    else if ce_op e =? CEXPR_NEQ then Some (bool_decide (val c - 1 ∉ ebitmap_set (ce_names e)))
    else None.

Inductive cexp :=
| Leaf (e : constraint_expr)
| Not (a : cexp)
| And (a b : cexp)
| Or (a b : cexp).

(** The trees of an expression in reverse polish notation, the last one
    first. *)
Definition parse_step (e : constraint_expr) (l : list cexp) : option (list cexp) :=
  if ce_type e =? CEXPR_NOT then match l with a :: l => Some (Not a :: l) | _ => None end
  else if ce_type e =? CEXPR_AND then match l with b :: a :: l => Some (And a b :: l) | _ => None end
  else if ce_type e =? CEXPR_OR then match l with b :: a :: l => Some (Or a b :: l) | _ => None end
  else if (ce_type e =? CEXPR_ATTR) || (ce_type e =? CEXPR_NAMES) then Some (Leaf e :: l)
  else None.

Fixpoint parse (es : list constraint_expr) (l : list cexp) : option (list cexp) :=
  match es with
  | [] => Some l
  | e :: es => l ← parse_step e l; parse es l
  end.

Definition constraint_tree (c : constraint_node) : option cexp :=
  match parse (con_expr c) [] with Some [a] => Some a | _ => None end.

Fixpoint tree_value (a : cexp) (s t : context_struct) (x : option context_struct) : option bool :=
  match a with
  | Leaf e => leaf_value e s t x
  | Not a => negb <$> tree_value a s t x
  | And a b => v ← tree_value a s t x; w ← tree_value b s t x; Some (v && w)
  | Or a b => v ← tree_value a s t x; w ← tree_value b s t x; Some (v || w)
  end.

(** What a constraint says of two or three contexts. *)
Definition constraint_value (c : constraint_node) (s t : context_struct) (x : option context_struct) : option bool :=
  a ← constraint_tree c; tree_value a s t x.

(** ** The text *)

Definition value_name (type i : Z) : cstring := shown (default None (value_names db type !! Z.to_nat i)).

Definition names_text (e : constraint_expr) (type : Z) (src op : cstring) (failed : bool) : cstring :=
  let members := entries (listed db e type) in
  tmp_buf (lit "(" ++ src ++ op) ++
  (if zlength members =? 0 then lit "<empty_set> " else []) ++ (if 1 <? zlength members then lit " {" else []) ++
  concat (map (fun i => tmp_buf (lit " " ++ value_name type i)) members) ++
  (if 1 <? zlength members then lit " }" else []) ++ (if failed then lit " -Fail-) " else lit ") ").

Definition pair_text (src op tgt : cstring) (failed : bool) : cstring :=
  tmp_buf (lit "(" ++ src ++ lit " " ++ op ++ lit " " ++ tgt ++ (if failed then lit " -Fail-) " else lit ") ")).

(** The names of the operators, which differ for levels. *)
Definition op_text (levels : bool) (op : Z) : cstring :=
  if op =? CEXPR_EQ then lit (if levels then "eq" else "==")
  else if op =? CEXPR_NEQ then lit "!="
  else if op =? CEXPR_DOM then lit "dom"
  else if op =? CEXPR_DOMBY then lit "domby"
  else lit "incomp".

Definition attr_texts (attr : Z) : bool * cstring * cstring :=
  if attr =? CEXPR_USER then (false, lit "u1", lit "u2")
  else if attr =? CEXPR_TYPE then (false, lit "t1", lit "t2")
  else if attr =? CEXPR_ROLE then (false, lit "r1", lit "r2")
  else if attr =? CEXPR_L1L2 then (true, lit "l1", lit "l2")
  else if attr =? CEXPR_L1H2 then (true, lit "l1", lit "h2")
  else if attr =? CEXPR_H1L2 then (true, lit "h1", lit "l2")
  else if attr =? CEXPR_H1H2 then (true, lit "h1", lit "h2")
  else if attr =? CEXPR_L1H1 then (true, lit "l1", lit "h1")
  else (true, lit "l2", lit "h2").

Definition whose_letter (attr : Z) : cstring :=
  if ctrue (Z.land attr CEXPR_USER) then lit "u" else if ctrue (Z.land attr CEXPR_ROLE) then lit "r" else lit "t".
Definition whose_number (attr : Z) : cstring :=
  if ctrue (Z.land attr CEXPR_TARGET) then lit "2 " else if ctrue (Z.land attr CEXPR_XTARGET) then lit "3 " else lit "1 ".

Definition leaf_text (e : constraint_expr) (v : bool) : cstring :=
  if ce_type e =? CEXPR_ATTR then
    let '(levels, src, tgt) := attr_texts (ce_attr e) in pair_text src (op_text levels (ce_op e)) tgt (negb v)
  else names_text e (default CEXPR_TYPE (fst <$> named_attribute (ce_attr e))) (whose_letter (ce_attr e) ++ whose_number (ce_attr e)) (op_text false (ce_op e)) (negb v).

(** The infix notation the code makes of a tree. *)
Fixpoint tree_text (a : cexp) (s t : context_struct) (x : option context_struct) : cstring :=
  match a with
  | Leaf e => leaf_text e (default false (leaf_value e s t x))
  | Not a => let b := tree_text a s t x in if begins (lit "not") b then lit "not (" ++ b ++ lit ")" else lit "not" ++ b
  | And a b => tree_text a s t x ++ lit " and " ++ tree_text b s t x
  | Or a b => tree_text a s t x ++ lit " or " ++ tree_text b s t x
  end.
End Meaning.

(** ** Levels *)

Lemma contains_decides e1 e2 : ebitmap_ok e1 -> ebitmap_ok e2 -> ctrue (ebitmap_contains e1 e2) = bool_decide (ebitmap_set e2 ⊆ ebitmap_set e1).
Proof.
  intros H1 H2. pose proof (ebitmap_contains_spec e1 e2 H1 H2) as H. assert (Hv : ebitmap_contains e1 e2 = 0 \/ ebitmap_contains e1 e2 = 1).
  { unfold ebitmap_contains. repeat case_match; auto. }
  destruct Hv as [Hv|Hv]; rewrite Hv in *; [rewrite bool_decide_eq_false_2|rewrite bool_decide_eq_true_2]; naive_solver.
Qed.

Lemma dom_decides l1 l2 : level_ok l1 -> level_ok l2 -> mls_level_dom l1 l2 = bool_decide (level_dominates l1 l2).
Proof.
  intros [_ H1] [_ H2]. unfold mls_level_dom. rewrite contains_decides by done. apply eq_true_iff_eq. rewrite andb_true_iff, !bool_decide_eq_true, Z.leb_le. done.
Qed.

Lemma eq_decides l1 l2 : level_ok l1 -> level_ok l2 -> mls_level_eq l1 l2 = bool_decide (level_equal l1 l2).
Proof.
  intros [_ H1] [_ H2]. unfold mls_level_eq. pose proof (ebitmap_cmp_spec (cat l1) (cat l2) H1 H2) as H.
  apply eq_true_iff_eq. rewrite andb_true_iff, bool_decide_eq_true, Z.eqb_eq. unfold level_equal. rewrite <- H.
  assert (Hv : ebitmap_cmp (cat l1) (cat l2) = 0 \/ ebitmap_cmp (cat l1) (cat l2) = 1) by (unfold ebitmap_cmp; repeat case_match; auto).
  destruct Hv as [-> | ->]; unfold ctrue; cbn; intuition lia.
Qed.

Lemma mls_ops_ok op l1 l2 :
  level_ok l1 -> level_ok l2 -> mls_ops op l1 l2 = (fun v => (v, op_text true op)) <$> compare_levels op l1 l2.
Proof.
  intros H1 H2. unfold mls_ops, compare_levels, op_text, mls_level_incomp. rewrite !dom_decides, eq_decides by done.
  repeat case_match; try done; cbn; rewrite ?bool_decide_not; try done. do 2 f_equal. apply eq_true_iff_eq.
  rewrite andb_true_iff, !negb_true_iff, !bool_decide_eq_false, bool_decide_eq_true. tauto.
Qed.

Lemma value_ops_ok op v1 v2 : value_ops op v1 v2 = (fun v => (v, op_text false op)) <$> compare_values op v1 v2.
Proof.
  unfold value_ops, compare_values, op_text. repeat case_match; try done; cbn; do 2 f_equal; apply eq_true_iff_eq; rewrite ?negb_true_iff, ?Z.eqb_neq, ?Z.eqb_eq, bool_decide_eq_true; done.
Qed.

(** A context whose values are values of symbols and whose levels are sets. *)
Definition known_context (c : context_struct) : Prop :=
  0 < ctx_user c < 2 ^ 32 /\ 0 < ctx_role c < 2 ^ 32 /\ 0 < ctx_type c < 2 ^ 32 /\ level_ok (level0 (ctx_range c)) /\ level_ok (level1 (ctx_range c)).

Lemma before_value v : 0 < v < 2 ^ 32 -> u32 (v - 1) = v - 1.
Proof. intros. apply wrap_small. unfold in_range. lia. Qed.

(** ** Leaves *)

Section Leaves.
Context (db : policydb) (s t : context_struct) (x : option context_struct).
Context (Hs : known_context s) (Ht : known_context t) (Hx : forall c, x = Some c -> known_context c).
Context (Hroles : forall k d, Some (k, d) ∈ (ix_roles (db_indexes db)).2 -> ebitmap_ok (role_dominates d)).

(** A leaf whose names can be looked up. *)
Definition leaf_known (e : constraint_expr) : Prop :=
  ce_type e = CEXPR_ATTR \/
  ce_type e = CEXPR_NAMES /\ ebitmap_ok (ce_names e) /\
    forall type val, named_attribute (ce_attr e) = Some (type, val) ->
      Forall (fun i => 0 <= i < zlength (value_names db type)) (entries (listed db e type)).

Lemma redup_ok g (n : cstring) : xmay g (redup n) (fun _ => True) (eq (Some n)).
Proof using. apply (xmay_malloc g (fun ok => xret (if ok then Some n else None))); [by apply xmay_ret|]. intros g' H. by apply xmay_ret. Qed.

Definition renamed (st st' : cstate) : Prop :=
  cs_s st' = cs_s st /\ cs_sp st' = cs_sp st /\ cs_texts st' = cs_texts st /\ cs_cap st' = cs_cap st.

Lemma dup_names_ok g st a b : xmay g (dup_names st a b) (renamed st) (fun st' => cs_src st' = Some a /\ cs_tgt st' = Some b).
Proof using.
  unfold dup_names. eapply xmay_bind; [apply redup_ok|]. intros src g1 _ H1. eapply xmay_bind; [apply redup_ok|]. intros tgt g2 _ H2.
  apply xmay_ret; [done|]. intros G. destruct (H2 G) as [G1 <-]. destruct (H1 G1) as [_ <-]. done.
Qed.

Definition pushed (st : cstate) (v : bool) (st' : cstate) : Prop :=
  cs_s st' = <[Z.to_nat (cs_sp st + 1) := Z.b2z v]> (cs_s st) /\ cs_sp st' = cs_sp st + 1 /\ cs_texts st' = cs_texts st /\ cs_cap st' = cs_cap st.

Definition stack_room (st : cstate) : Prop := length (cs_s st) = 5%nat /\ - 1 <= cs_sp st < 4.

(** What a leaf does: its value on the stack, its text in the buffer. *)
Definition leaf_done (st : cstate) (v : bool) (r : progress (cstate * tbuf)) : Prop :=
  match r with Go (st', b) => pushed st v st' /\ tb_ok b | Out _ => False end.
Definition leaf_says (text : cstring) (r : progress (cstate * tbuf)) : Prop :=
  match r with Go (_, b) => holds_text b text | Out _ => False end.

Lemma push_value_ok g st v : stack_room st -> xmay g (push_value st v) (fun st' => pushed st v st' /\ cs_src st' = cs_src st /\ cs_tgt st' = cs_tgt st) (fun _ => True).
Proof using.
  intros [Hl Hsp]. unfold push_value. rewrite wr_ok by (unfold zlength; lia). by apply xmay_ret.
Qed.

Lemma attr_done_ok g st st0 b v op src tgt :
  renamed st0 st -> stack_room st0 -> tb_ok b -> (g -> tb_used b = [] /\ cs_src st = Some src /\ cs_tgt st = Some tgt) ->
  xmay g (attr_done st b (Some (v, op))) (leaf_done st0 v) (leaf_says (pair_text src op tgt (negb v))).
Proof using.
  intros (E1 & E2 & E3 & E4) Hr Hb HG. unfold attr_done. eapply xmay_bind; [apply push_value_ok; unfold stack_room; by rewrite E1, E2|].
  intros st' g1 [Hp [Hsrc Htgt]] H1. eapply xmay_bind; [apply (cat_ok _ _ []); [done|]; intros G; by apply HG, H1|].
  intros b' g2 Hb' H2. apply xmay_ret; [split; [|done]; unfold pushed in *; by rewrite <- E1, <- E2, <- E3, <- E4|].
  intros G. destruct (H2 G) as [G1 Ht']. destruct (H1 G1) as [G0 _]. destruct (HG G0) as (_ & Es & Et). cbn. unfold pair_text. by rewrite Hsrc, Htgt, Es, Et in Ht'.
Qed.

Lemma cat_when g (c : bool) w b t0 :
  tb_ok b -> (g -> holds_text b t0) -> xmay g (if c then cat_expr_buf w b else xret b) tb_ok (fun b' => holds_text b' (t0 ++ if c then w else [])).
Proof using.
  intros Hok HT. destruct c; [apply cat_ok; [done|]; intros G; by apply HT|]. apply xmay_ret; [done|]. intros G. rewrite app_nil_r. by apply HT.
Qed.

Lemma entries_ok g type l b t0 :
  Forall (fun i => 0 <= i < zlength (value_names db type)) l -> tb_ok b -> (g -> holds_text b t0) ->
  xmay g (xfold (cat_entry db type) l b) tb_ok (fun b' => holds_text b' (t0 ++ concat (map (fun i => tmp_buf (lit " " ++ value_name db type i)) l))).
Proof using.
  intros Hin. revert b g t0. induction Hin as [|i l Hi Hl IH]; intros b g t0 Hb HG; cbn [xfold map concat].
  - apply xmay_ret; [done|]. intros G. rewrite app_nil_r. by apply HG.
  - unfold zlength in Hi. destruct (lookup_lt_is_Some_2 (value_names db type) (Z.to_nat i)) as [n En]; [lia|].
    eapply xmay_bind; [unfold cat_entry; rewrite En; apply cat_ok; [done|]; intros G; by apply HG|].
    intros b1 g1 Hb1 H1. eapply xmay_mono; [apply (IH b1 g1 (t0 ++ tmp_buf (lit " " ++ shown n))); [done|apply H1]|done|].
    intros b2 _ _ HT. rewrite <- app_assoc in HT. unfold value_name. by rewrite En.
Qed.

Lemma names_ok g e type src op failed b :
  tb_ok b -> (g -> tb_used b = []) -> Forall (fun i => 0 <= i < zlength (value_names db type)) (entries (listed db e type)) ->
  xmay g (get_name_list db e type src op failed b) tb_ok (fun b' => holds_text b' (names_text db e type (shown src) op failed)).
Proof using.
  intros Hb Hb0 Hin. unfold get_name_list, names_text.
  eapply xmay_bind; [by apply (cat_ok _ _ [])|]. intros b1 g1 Hb1 H1. eapply xmay_bind; [apply cat_when; [done|apply H1]|].
  intros b2 g2 Hb2 H2. eapply xmay_bind; [apply cat_when; [done|apply H2]|]. intros b3 g3 Hb3 H3.
  eapply xmay_bind; [apply entries_ok; [done|done|apply H3]|]. intros b4 g4 Hb4 H4.
  eapply xmay_bind; [apply cat_when; [done|apply H4]|]. intros b5 g5 Hb5 H5.
  eapply xmay_mono; [apply cat_ok; [done|]; intros G; apply (H5 G)|done|]. intros b6 _ _ HT. by rewrite <- !app_assoc in HT.
Qed.

Lemma role_entry_ok v r : 0 < v < 2 ^ 32 -> role_of db v = Some r -> role_entry db v = Some (Some r) /\ ebitmap_ok (role_dominates r).
Proof using Hroles.
  intros Hv Hr. unfold role_of in Hr. unfold role_entry. rewrite before_value by done. destruct (_ !! _) as [[[k d]|]|] eqn:E; try done. cbn in Hr. simplify_eq.
  split; [done|]. apply (Hroles k). by eapply list_elem_of_lookup_2.
Qed.

Lemma dominates_ok r v : 0 < v < 2 ^ 32 -> ebitmap_ok (role_dominates r) -> dominates (Some r) v = Some (bool_decide (v - 1 ∈ ebitmap_set (role_dominates r))).
Proof using. intros Hv Hr. unfold dominates. cbn. by rewrite before_value, get_bit_member by done. Qed.

Lemma role_ops_ok op r1 r2 v1 v2 v :
  0 < v1 < 2 ^ 32 -> 0 < v2 < 2 ^ 32 -> ebitmap_ok (role_dominates r1) -> ebitmap_ok (role_dominates r2) -> compare_roles op r1 r2 v1 v2 = Some v ->
  exists r, role_ops op (Some r1) (Some r2) v1 v2 = Some r /\ match r with Some r => Some r | None => value_ops op v1 v2 end = Some (v, op_text false op).
Proof using.
  intros H1 H2 Hr1 Hr2. unfold compare_roles, role_ops. rewrite !dominates_ok by done.
  destruct (Z.eqb_spec op CEXPR_DOM) as [->|]; [|destruct (Z.eqb_spec op CEXPR_DOMBY) as [->|]; [|destruct (Z.eqb_spec op CEXPR_INCOMP) as [->|]]].
  - intros [= <-]. by eexists.
  - intros [= <-]. by eexists.
  - intros [= <-]. destruct (bool_decide_reflect (v2 - 1 ∈ ebitmap_set (role_dominates r1))); (eexists; split; [done|]); do 2 f_equal.
    + symmetry. apply bool_decide_eq_false_2. tauto.
    + rewrite <- bool_decide_not. apply bool_decide_ext. tauto.
  - intros Hv. exists None. split; [done|]. by rewrite value_ops_ok, Hv.
Qed.

(** Comparisons of attributes. *)
Lemma eval_attr_ok g e st b v :
  ce_type e = CEXPR_ATTR -> leaf_value db e s t x = Some v -> stack_room st -> tb_ok b -> (g -> tb_used b = []) ->
  xmay g (eval_attr db e s t st b) (leaf_done st v) (leaf_says (leaf_text db e v)).
Proof using Hs Ht Hroles.
  intros Ety Hv Hroom Hb Hb0. unfold eval_attr, leaf_value, leaf_text, attr_texts in *. rewrite Ety in *.
  change (CEXPR_ATTR =? CEXPR_ATTR) with true in *. cbn iota in *. destruct Hs as (Hs1 & Hs2 & Hs3 & Hs4 & Hs5). destruct Ht as (Ht1 & Ht2 & Ht3 & Ht4 & Ht5).
  replace (cs_sp st =? CEXPR_MAXDEPTH - 1) with false by (unfold CEXPR_MAXDEPTH; destruct Hroom; lia).
  assert (Hfinish : forall g a c r op, r = Some (v, op) -> (g -> tb_used b = []) ->
            xmay g (st' <- dup_names st a c ;;; attr_done st' b r) (leaf_done st v) (leaf_says (pair_text a op c (negb v)))).
  { intros g' a c r op -> Hg. eapply xmay_bind; [apply dup_names_ok|]. intros st' g1 Hst H1. apply attr_done_ok; [done..|]. intros G. destruct (H1 G) as [? [? ?]]. auto. }
  destruct (ce_attr e =? CEXPR_USER); [apply Hfinish; [by rewrite value_ops_ok, Hv|done]|].
  destruct (ce_attr e =? CEXPR_TYPE); [apply Hfinish; [by rewrite value_ops_ok, Hv|done]|].
  destruct (ce_attr e =? CEXPR_ROLE).
  { destruct (role_of db (ctx_role s)) as [r1|] eqn:E1; [|done]. destruct (role_of db (ctx_role t)) as [r2|] eqn:E2; [|done]. cbn [mbind option_bind] in Hv.
    destruct (role_entry_ok _ r1 Hs2 E1) as [-> Hd1]. destruct (role_entry_ok _ r2 Ht2 E2) as [-> Hd2].
    destruct (role_ops_ok _ _ _ _ _ _ Hs2 Ht2 Hd1 Hd2 Hv) as (r & Er & Hr).
    apply xmay_here, xmay_here. eapply xmay_bind; [apply dup_names_ok|]. intros st' g3 Hst G3. eapply xmay_some; [exact Er|]. rewrite Hr. apply attr_done_ok; [done..|]. naive_solver. }
  unfold compared_levels, levels_of in *.
  repeat match type of Hv with context [ce_attr e =? ?a] => destruct (ce_attr e =? a) end; try done; cbn [mbind option_bind] in Hv;
    (apply Hfinish; [by rewrite mls_ops_ok, Hv by done|done]).
Qed.

(** Attributes in sets of names. *)
Lemma eval_names_ok g e st b v :
  ce_type e = CEXPR_NAMES -> leaf_known e -> leaf_value db e s t x = Some v -> stack_room st -> tb_ok b -> (g -> tb_used b = []) ->
  xmay g (eval_names db e s t x st b) (leaf_done st v) (leaf_says (leaf_text db e v)).
Proof using Hs Ht Hx.
  intros Ety Hk Hv Hroom Hb Hb0. destruct Hk as [Hk|(_ & Hok & Hin)]; [by rewrite Ety in Hk|]. unfold eval_names, leaf_value, leaf_text in *. rewrite Ety in *.
  change (CEXPR_NAMES =? CEXPR_ATTR) with false in *. cbn iota in *.
  replace (cs_sp st =? CEXPR_MAXDEPTH - 1) with false by (unfold CEXPR_MAXDEPTH; destruct Hroom; lia).
  destruct (named_context (ce_attr e) s t x) as [c|] eqn:Ec; [|done]. cbn [mbind option_bind] in Hv.
  destruct (named_attribute (ce_attr e)) as [[type val]|] eqn:En; [|done]. cbn [mbind option_bind] in Hv. specialize (Hin type val eq_refl). cbn [fmap option_fmap option_map default fst].
  assert (Hc : known_context c). { unfold named_context in Ec. repeat case_match; simplify_eq; auto. }
  assert (Enum : (if ctrue (Z.land (ce_attr e) CEXPR_TARGET) then (lit "2 ", Some t)
      else if ctrue (Z.land (ce_attr e) CEXPR_XTARGET) then (lit "3 ", x) else (lit "1 ", Some s)) = (whose_number (ce_attr e), Some c)).
  { unfold named_context in Ec. unfold whose_number. repeat case_match; simplify_eq; done. }
  rewrite Enum. clear Enum.
  assert (Elet : (if ctrue (Z.land (ce_attr e) CEXPR_USER) then Some (CEXPR_USER, ctx_user c, lit "u") else if ctrue (Z.land (ce_attr e) CEXPR_ROLE)
      then Some (CEXPR_ROLE, ctx_role c, lit "r") else if ctrue (Z.land (ce_attr e) CEXPR_TYPE) then Some (CEXPR_TYPE, ctx_type c, lit "t") else None) = Some (type, val c, whose_letter (ce_attr e))).
  { unfold named_attribute in En. unfold whose_letter. repeat case_match; simplify_eq; done. }
  rewrite Elet. clear Elet. assert (Hval : 0 < val c < 2 ^ 32). { destruct Hc as (? & ? & ? & _). unfold named_attribute in En. repeat case_match; simplify_eq; done. }
  rewrite before_value, get_bit_member by done. eapply xmay_bind; [apply redup_ok|]. intros src g1 _ G1.
  assert (Hfinish : forall op w, v = w -> xmay g1 (st' <- push_value (set_names st src (cs_tgt st)) w ;;; b' <- get_name_list db e type src op (negb w) b ;;; xret (Go (st', b')))
      (leaf_done st v) (leaf_says (names_text db e type (whose_letter (ce_attr e) ++ whose_number (ce_attr e)) op (negb v)))).
  { intros op w <-. eapply xmay_bind; [by apply push_value_ok|]. intros st' g2 [Hp _] G2. eapply xmay_bind; [apply names_ok; [done|naive_solver|done]|].
    intros b' g3 Hb' G3. apply xmay_ret; [done|]. intros G. destruct (G3 G) as [G' HT]. destruct (G2 G') as [G'' _]. destruct (G1 G'') as [_ <-]. done. }
  unfold op_text. destruct (ce_op e =? CEXPR_EQ); [simplify_eq; by apply Hfinish|]. destruct (ce_op e =? CEXPR_NEQ); [|done].
  injection Hv as Hv. rewrite bool_decide_not in Hv. assert (bool_decide (val c - 1 ∈ ebitmap_set (ce_names e)) = negb v) as -> by by rewrite <- Hv, negb_involutive.
  rewrite negb_involutive. by apply Hfinish.
Qed.
End Leaves.
