(* ===== verification/ConstraintEval.v ===== *)
(** * ConstraintEval: the evaluator computes the meaning

    The stack machine against the trees of ConstraintThms, the conversion to
    infix notation, and the whole of [constraint_expr_eval_reason]. *)
From Stdlib Require Import ZArith Lia Bool String.
From stdpp Require Import base option list list_numbers gmap sets.
From S2P Require Import Prelude PolicyFile Mem Ebitmap EbitmapThms EbitmapRange Hashtab Symtab Avtab Cond Codec Symbols SymCodec SymbolsIO SymbolsThms Trans Index ExpandThms IndexAll Contexts ContextsValid ContextText CondIO Policydb Constraint ConstraintThms.

Open Scope Z_scope.

Section Eval.
Context (db : policydb) (s t : context_struct) (x : option context_struct).
Context (Hs : known_context s) (Ht : known_context t) (Hx : forall c, x = Some c -> known_context c).
Context (Hroles : forall k d, Some (k, d) ∈ (ix_roles (db_indexes db)).2 -> ebitmap_ok (role_dominates d)).

Abbreviation value a := (tree_value db a s t x).

(** An element that is an operator, or a leaf with a meaning. *)
Definition element_ready (e : constraint_expr) : Prop :=
  ce_type e = CEXPR_ATTR \/ ce_type e = CEXPR_NAMES -> leaf_known db e /\ is_Some (leaf_value db e s t x).

Definition element_text (e : constraint_expr) : cstring :=
  if ce_type e =? CEXPR_NOT then lit "not"
  else if ce_type e =? CEXPR_AND then lit "and"
  else if ce_type e =? CEXPR_OR then lit "or"
  else leaf_text db e (default false (leaf_value db e s t x)).

(** The stack holds the values of the trees. *)
Definition holds_values (st : cstate) (l : list cexp) : Prop :=
  length (cs_s st) = 5%nat /\ cs_sp st = zlength l - 1 /\
  exists vs, Forall2 (fun a v => value a = Some v) l vs /\
    forall i v, vs !! i = Some v -> cs_s st !! (length l - 1 - i)%nat = Some (Z.b2z v).

Lemma holds_push st st' l a v : holds_values st l -> zlength l < 5 -> value a = Some v -> pushed st v st' -> holds_values st' (a :: l).
Proof using.
  intros (Hl & Hsp & vs & Hvs & Hat) Hroom Hv (E1 & E2 & _ & _). unfold holds_values. rewrite E1, E2, length_insert, Hsp, zlength_cons. split_and!; [done|lia|].
  exists (v :: vs). split; [by constructor|]. intros i w Hi. replace (length (a :: l) - 1 - i)%nat with (length l - i)%nat by (simpl; lia).
  replace (Z.to_nat (zlength l - 1 + 1)) with (length l) by (unfold zlength; lia). unfold zlength in Hroom. destruct i as [|i]; cbn in Hi; simplify_eq.
  - rewrite Nat.sub_0_r. apply list_lookup_insert_eq. lia.
  - pose proof (lookup_lt_Some _ _ _ Hi) as Hlt. apply Forall2_length in Hvs. rewrite list_lookup_insert_ne by lia.
    replace (length l - S i)%nat with (length l - 1 - i)%nat by lia. by apply Hat.
Qed.

Lemma holds_top st a l : holds_values st (a :: l) ->
  exists v, value a = Some v /\ cs_s st !! length l = Some (Z.b2z v) /\ holds_values (mk_cstate (cs_s st) (cs_sp st - 1) (cs_src st) (cs_tgt st) (cs_texts st) (cs_cap st)) l.
Proof using.
  intros (Hl & Hsp & vs & Hvs & Hat). inversion Hvs as [|? v ? vs' Hv Hvs' E1 E2]; subst. exists v. split; [done|]. split.
  - specialize (Hat 0%nat v eq_refl). cbn in Hat. by rewrite !Nat.sub_0_r in Hat.
  - split; [done|]. rewrite zlength_cons in Hsp. split; [cbn; lia|]. exists vs'. split; [done|]. intros i w Hi. specialize (Hat (S i) w Hi). cbn in Hat |- *.
    by replace (length l - 1 - i)%nat with (length l - 0 - S i)%nat by lia.
Qed.

Lemma b2z_ctrue v : ctrue (Z.b2z v) = v.
Proof using. by destruct v. Qed.

(** Replacing the value on top. *)
Lemma holds_replace st l a a' v sn sp :
  holds_values st l -> zlength l < 5 -> value a' = Some v -> sn = <[length l := Z.b2z v]> (cs_s st) -> sp = zlength l ->
  holds_values (set_stack (mk_cstate (cs_s st) a (cs_src st) (cs_tgt st) (cs_texts st) (cs_cap st)) sn sp) (a' :: l).
Proof using.
  intros H Hl Hv -> ->. eapply (holds_push st); [done|done|done|]. destruct H as (_ & Hsp & _). unfold pushed, set_stack. cbn. rewrite Hsp.
  split_and!; [f_equal; unfold zlength; lia|lia|done|done].
Qed.

(** Operators. *)
Lemma eval_not_ok g st b a l :
  holds_values st (a :: l) -> zlength (a :: l) <= 5 -> tb_ok b -> (g -> tb_used b = []) ->
  xmay g (eval_not st b) (fun r => match r with Go (st', b') => holds_values st' (Not a :: l) /\ cs_texts st' = cs_texts st /\ cs_cap st' = cs_cap st /\ tb_ok b' | Out _ => False end)
    (leaf_says (lit "not")).
Proof using.
  intros H Hl Hb Hb0. destruct (holds_top st a l H) as (v & Hv & Htop & Hrest). pose proof H as (Hl5 & Hsp & _). rewrite zlength_cons in *. unfold eval_not.
  pose proof (zlength_nonneg l). replace (cs_sp st <? 0) with false by lia.
  eapply (xmay_some _ _ (Z.b2z v)); [unfold rd; replace (0 <=? cs_sp st) with true by lia; rewrite <- Htop; f_equal; unfold zlength in *; lia|].
  rewrite b2z_ctrue. eapply xmay_some; [apply wr_ok; unfold zlength in *; lia|].
  eapply xmay_bind; [by apply (cat_ok _ _ [])|]. intros b' g3 Hb' G3. apply xmay_ret; [|by intros G; apply G3]. split_and!; try done.
  eapply (holds_replace _ l (cs_sp st) (Not a) (negb v) _ (cs_sp st)) in Hrest; cbn [cs_s cs_src cs_tgt cs_texts cs_cap] in *.
  - exact Hrest.
  - lia.
  - cbn. by rewrite Hv.
  - f_equal. unfold zlength in *; lia.
  - lia.
Qed.

Lemma eval_two_ok g st b f (fb : bool -> bool -> bool) (mk : cexp -> cexp -> cexp) text a c l :
  (forall v w, f (Z.b2z v) (Z.b2z w) = Z.b2z (fb v w)) ->
  (forall v w, value a = Some v -> value c = Some w -> value (mk a c) = Some (fb v w)) ->
  holds_values st (c :: a :: l) -> zlength (c :: a :: l) <= 5 -> tb_ok b -> (g -> tb_used b = []) ->
  xmay g (eval_two f text st b) (fun r => match r with Go (st', b') => holds_values st' (mk a c :: l) /\ cs_texts st' = cs_texts st /\ cs_cap st' = cs_cap st /\ tb_ok b' | Out _ => False end)
    (leaf_says text).
Proof using.
  intros Hf Hmk H Hl Hb Hb0. destruct (holds_top st c (a :: l) H) as (w & Hw & Htop & Hrest). pose proof H as (Hl5 & Hsp & _).
  destruct (holds_top _ a l Hrest) as (v & Hv & Htop2 & Hrest2). cbn [cs_s cs_sp cs_src cs_tgt cs_texts cs_cap length] in *.
  rewrite !zlength_cons in *. pose proof (zlength_nonneg l). unfold eval_two. replace (cs_sp st <? 1) with false by lia.
  eapply (xmay_some _ _ (Z.b2z v)); [unfold rd; replace (0 <=? cs_sp st - 1) with true by lia; rewrite <- Htop2; f_equal; unfold zlength in *; lia|].
  eapply (xmay_some _ _ (Z.b2z w)); [unfold rd; replace (0 <=? cs_sp st - 1 + 1) with true by lia; rewrite <- Htop; f_equal; unfold zlength in *; lia|].
  rewrite Hf. eapply xmay_some; [apply wr_ok; unfold zlength in *; lia|].
  eapply xmay_bind; [by apply (cat_ok _ _ [])|]. intros b' g3 Hb' G3. apply xmay_ret; [|by intros G; apply G3]. split_and!; try done.
  eapply (holds_replace _ l (cs_sp st) (mk a c) (fb v w) _ (cs_sp st - 1)) in Hrest2; cbn [cs_s cs_src cs_tgt cs_texts cs_cap] in *.
  - exact Hrest2.
  - lia.
  - by apply Hmk.
  - f_equal. unfold zlength in *; lia.
  - lia.
Qed.

Definition element_done (st : cstate) (l : list cexp) (r : progress (cstate * tbuf)) : Prop :=
  match r with Go (st', b) => holds_values st' l /\ cs_texts st' = cs_texts st /\ cs_cap st' = cs_cap st /\ tb_ok b | Out _ => False end.

Lemma eval_case_ok g e st b l l' d :
  element_ready e -> holds_values st l -> zlength l <= 5 -> cons_depth_step e (zlength l - 1) = Some d -> parse_step e l = Some l' -> tb_ok b -> (g -> tb_used b = []) ->
  xmay g (eval_case db e s t x st b) (element_done st l') (leaf_says (element_text e)).
Proof using Hs Ht Hx Hroles.
  intros Hr Hst Hl Hd Hp Hb Hb0. unfold eval_case, parse_step, cons_depth_step, element_text, element_ready in *. cbv zeta in Hd.
  destruct (Z.eqb_spec (ce_type e) CEXPR_NOT); [destruct l as [|a l]; simplify_eq; by apply eval_not_ok|].
  destruct (Z.eqb_spec (ce_type e) CEXPR_AND).
  { destruct l as [|c [|a l]]; simplify_eq. apply (eval_two_ok _ _ _ _ andb And); try done; [by intros [] []|]. intros v w Hv Hw. cbn. by rewrite Hv, Hw. }
  destruct (Z.eqb_spec (ce_type e) CEXPR_OR).
  { destruct l as [|c [|a l]]; simplify_eq. apply (eval_two_ok _ _ _ _ orb Or); try done; [by intros [] []|]. intros v w Hv Hw. cbn. by rewrite Hv, Hw. }
  cbn [orb] in Hd. destruct (Z.eqb_spec (ce_type e) CEXPR_ATTR) as [Ety|].
  - cbn [orb] in *. destruct (Hr (or_introl Ety)) as [Hk [v Hv]]. rewrite Hv. simplify_eq. destruct (Z.eqb_spec (zlength l - 1) (CEXPR_MAXDEPTH - 1)); [done|].
    pose proof Hst as (Hl5 & Hsp & _). assert (stack_room st) by (split; [done|]; unfold CEXPR_MAXDEPTH in *; pose proof (zlength_nonneg l); lia).
    eapply xmay_mono; [by eapply (eval_attr_ok db s t x)| |by intros]. intros [[st' b']|]; [|done]. intros [Hpu Hb']. split; [|by destruct Hpu as (_ & _ & ? & ?)].
    eapply holds_push; [done|unfold CEXPR_MAXDEPTH in *; lia|exact Hv|done].
  - destruct (Z.eqb_spec (ce_type e) CEXPR_NAMES) as [Ety|]; [|done]. cbn [orb] in *. destruct (Hr (or_intror Ety)) as [Hk [v Hv]]. rewrite Hv. simplify_eq.
    destruct (Z.eqb_spec (zlength l - 1) (CEXPR_MAXDEPTH - 1)); [done|].
    pose proof Hst as (Hl5 & Hsp & _). assert (stack_room st) by (split; [done|]; unfold CEXPR_MAXDEPTH in *; pose proof (zlength_nonneg l); lia).
    eapply xmay_mono; [by eapply (eval_names_ok db s t x)| |by intros]. intros [[st' b']|]; [|done]. intros [Hpu Hb']. split; [|by destruct Hpu as (_ & _ & ? & ?)].
    eapply holds_push; [done|unfold CEXPR_MAXDEPTH in *; lia|exact Hv|done].
Qed.

(** The depth the reader counts is that of the trees. *)
Lemma depth_parses e (l : list cexp) d : cons_depth_step e (zlength l - 1) = Some d -> exists l', parse_step e l = Some l' /\ zlength l' - 1 = d.
Proof using.
  unfold cons_depth_step, parse_step. cbv zeta. intros H.
  destruct (ce_type e =? CEXPR_NOT). { destruct l as [|a l]; [done|]. rewrite zlength_cons in H. case_match; simplify_eq. eexists; split; [done|]. by rewrite zlength_cons. }
  destruct (ce_type e =? CEXPR_AND); cbn [orb] in H.
  { destruct l as [|c [|a l]]; try done. rewrite !zlength_cons in H. case_match; simplify_eq. eexists; split; [done|]. rewrite zlength_cons. lia. }
  destruct (ce_type e =? CEXPR_OR); cbn [orb] in H.
  { destruct l as [|c [|a l]]; try done. rewrite !zlength_cons in H. case_match; simplify_eq. eexists; split; [done|]. rewrite zlength_cons. lia. }
  destruct (_ || _); [|done]. case_match; simplify_eq. eexists; split; [done|]. rewrite zlength_cons. lia.
Qed.

Definition progress_ok (l : list cexp) (r : progress cstate) : Prop :=
  match r with Go st => holds_values st l | Out rc => rc = - ENOMEM end.

Lemma goto_out_ok g st null l :
  ~ g -> xmay g (goto_out st null (- ENOMEM)) (progress_ok l) (fun _ => False).
Proof using.
  intros Hg. unfold goto_out. destruct (cs_texts st); [by apply xmay_ret|]. destruct null; [by apply xmay_ret|]. by apply xmay_fault.
Qed.

(** [eval_element] once there is a place in [expr_list]. *)
Definition element_body (e : constraint_expr) (st : cstate) (ok : bool) : X (progress cstate) :=
  if negb ok then goto_out st true (- ENOMEM) else
  r <- eval_case db e s t x st (mk_tbuf [] [] EXPR_BUF_SIZE) ;;;
  match r with
  | Go (st, b) => xret (Go (mk_cstate (cs_s st) (cs_sp st) (cs_src st) (cs_tgt st) (cs_texts st ++ [tb_text b]) (cs_cap st)))
  | Out rc => xret (Out rc)
  end.

Definition with_cap (st : cstate) (cap : Z) : cstate := mk_cstate (cs_s st) (cs_sp st) (cs_src st) (cs_tgt st) (cs_texts st) cap.

Lemma element_body_eq e st o :
  match eval_case db e s t x st (mk_tbuf [] [] EXPR_BUF_SIZE) o with
  | Some (Some (Go (st, b)), o) => Some (Some (Go (mk_cstate (cs_s st) (cs_sp st) (cs_src st) (cs_tgt st) (cs_texts st ++ [tb_text b]) (cs_cap st))), o)
  | Some (Some (Out rc), o) => Some (Some (Out rc), o)
  | Some (None, o) => Some (None, o)
  | None => None
  end = element_body e st true o.
Proof using. unfold element_body, xbind. cbn [negb]. by destruct (eval_case _ _ _ _ _ _ _ o) as [[[[[]|]|]]|]. Qed.

Lemma eval_element_ok g e st l l' d :
  element_ready e -> holds_values st l -> zlength l <= 5 -> cons_depth_step e (zlength l - 1) = Some d -> parse_step e l = Some l' ->
  xmay g (eval_element db e s t x st) (progress_ok l') (fun r => exists st', r = Go st' /\ cs_texts st' = cs_texts st ++ [element_text e]).
Proof using Hs Ht Hx Hroles.
  intros Hr Hst Hl Hd Hp. set (Q := fun r => _).
  assert (Hout : forall g' st null, ~ g' -> xmay g' (goto_out st null (- ENOMEM)) (progress_ok l') Q) by (intros; eapply xmay_mono; [by apply goto_out_ok|done|done]).
  assert (Hmain : forall g cap, xmay g (fun o => let '(ok, o) := malloc o in element_body e (with_cap st cap) ok o) (progress_ok l') Q).
  { intros g' cap. apply xmay_malloc; unfold element_body; cbn [negb]; [|by intros; apply Hout].
    eapply xmay_bind; [eapply (eval_case_ok _ e (with_cap st cap)); [done|exact Hst|done..]|]. intros [[st' b]|]; [|done]. intros g1 (H1 & H2 & H3 & H4) G1.
    apply xmay_ret; [exact H1|]. intros G. destruct (G1 G) as [_ [E1 E2]]. eexists. split; [done|]. cbn in *. unfold tb_text. by rewrite H2, E1, E2, app_nil_r. }
  set (cap := if cs_cap st <=? zlength (cs_texts st) then if cs_cap st =? 0 then STACK_LEN else cs_cap st * 2 else cs_cap st).
  apply (xmay_ext _ _ (fun o => let '(ok, o) := if cs_cap st <=? zlength (cs_texts st) then malloc o else (true, o) in
     (fun ok : bool => if ok then fun o => let '(ok, o) := malloc o in element_body e (with_cap st cap) ok o else goto_out st false (- ENOMEM)) ok o)).
  - intros o. unfold eval_element. fold cap. cbv zeta. destruct (if cs_cap st <=? zlength (cs_texts st) then malloc o else (true, o)) as [[] o1]; cbn [negb]; [|done].
    destruct (malloc o1) as [[] o2]; cbn [negb]; [|done]. apply element_body_eq.
  - destruct (cs_cap st <=? zlength (cs_texts st)); [|apply Hmain]. apply xmay_malloc; [apply Hmain|by intros; apply Hout].
Qed.

Lemma depth_parse es (l : list cexp) d : cons_depth es (zlength l - 1) = Some d -> exists l', parse es l = Some l' /\ zlength l' - 1 = d.
Proof using.
  revert l. induction es as [|e es IH]; intros l H; cbn [cons_depth parse] in *; [simplify_eq; eauto|].
  destruct (cons_depth_step e (zlength l - 1)) as [d1|] eqn:E1; [|done]. cbn [mbind option_bind] in *. destruct (depth_parses e l d1 E1) as (l1 & -> & <-). by apply IH.
Qed.

Lemma eval_elements_ok g es st l l' d :
  Forall element_ready es -> holds_values st l -> zlength l <= 5 -> cons_depth es (zlength l - 1) = Some d -> parse es l = Some l' ->
  xmay g (eval_elements db es s t x st) (progress_ok l') (fun r => exists st', r = Go st' /\ cs_texts st' = cs_texts st ++ map element_text es).
Proof using Hs Ht Hx Hroles.
  intros Hes. revert g st l. induction Hes as [|e es He Hes IH]; intros g st l Hst Hl Hd Hp; cbn [cons_depth parse eval_elements map] in *.
  - simplify_eq. apply xmay_ret; [done|]. intros _. exists st. by rewrite app_nil_r.
  - destruct (cons_depth_step e (zlength l - 1)) as [d1|] eqn:E1; [|done]. destruct (parse_step e l) as [l1|] eqn:Ep; [|done]. cbn [mbind option_bind] in *.
    destruct (depth_parses e l d1 E1) as (l1' & Ep' & Hlen). simplify_eq.
    eapply xmay_bind; [by eapply eval_element_ok|]. intros [st'|rc] g1 Hr G1.
    + assert (zlength l1 <= 5). { pose proof (cons_depth_bounds [e] (zlength l - 1) (zlength l1 - 1)) as Hb. cbn in Hb. rewrite E1 in Hb. pose proof (zlength_nonneg l). unfold CEXPR_MAXDEPTH in Hb. specialize (Hb eq_refl). lia. }
      eapply xmay_mono; [by apply (IH g1 st' l1)|done|]. intros r G _ (st2 & -> & Et). destruct (G1 G) as [_ (st1 & E & Et1)]. simplify_eq. exists st2. by rewrite Et, Et1, <- app_assoc.
    + apply xmay_ret; [done|]. intros G. by destruct (G1 G) as [_ (? & ? & _)].
Qed.

(** ** The infix notation *)

Abbreviation text a := (tree_text db a s t x).

Lemma push_ok n tk : xok (push n tk) (fun tk' => ts_stack tk' = n :: ts_stack tk).
Proof using.
  apply xok_intro. intros o M. unfold push. destruct (_ <=? _).
  - destruct (malloc o) as [b o1] eqn:E. destruct (malloc_mem_ok _ _ _ E M) as [-> M1]. eexists _, o1. by split_and!.
  - eexists _, o. by split_and!.
Qed.

Lemma sprintf_ok n w : zlength w + 1 <= n -> xok (sprintf_new n w) (eq (Some w)).
Proof using.
  intros H. apply xok_intro. intros o M. unfold sprintf_new. destruct (malloc o) as [b o1] eqn:E. destruct (malloc_mem_ok _ _ _ E M) as [-> M1].
  cbn [negb]. replace (_ <? _) with false by lia. eexists _, o1. by split_and!.
Qed.

Lemma infix_push_ok tk w : xok (infix_push tk (Some w)) (fun r => r.2 = true /\ ts_stack r.1 = w :: ts_stack tk).
Proof using. eapply xok_bind; [apply push_ok|]. intros tk' H. by apply xok_ret. Qed.

Lemma leaf_text_opens e v : exists r, leaf_text db e v = 40 :: r.
Proof using.
  unfold leaf_text. destruct (ce_type e =? CEXPR_ATTR).
  - destruct (attr_texts (ce_attr e)) as [[lv src] tgt]. unfold pair_text, tmp_buf. eexists. cbn [lit list_ascii_of_string map app take]. reflexivity.
  - unfold names_text, tmp_buf. eexists. cbn [lit list_ascii_of_string map app take]. reflexivity.
Qed.

Lemma begins_paren r : begins (lit "and") (40 :: r) = false /\ begins (lit "or") (40 :: r) = false /\ begins (lit "not") (40 :: r) = false.
Proof using. split_and!; by apply bool_decide_eq_false_2. Qed.

Lemma infix_step_ok e l l' tk base :
  parse_step e l = Some l' -> ts_stack tk = map (fun a => text a) l ++ base ->
  xok (infix_step (element_text e) tk) (fun r => r.2 = true /\ ts_stack r.1 = map (fun a => text a) l' ++ base).
Proof using.
  intros Hp Hst. unfold parse_step, element_text in *.
  destruct (ce_type e =? CEXPR_NOT).
  { destruct l as [|a l]; simplify_eq. unfold infix_step, pop. rewrite Hst. cbn [map app]. change (begins (lit "and") (lit "not") || begins (lit "or") (lit "not")) with false.
    change (begins (lit "not") (lit "not")) with true. cbn iota. eapply xok_bind; [by apply (xok_ret (text a) (eq (text a)))|]. intros ? <-.
    eapply xok_bind; [apply sprintf_ok|]. { destruct (begins _ _); rewrite !zlength_app; change (zlength (lit "not")) with 3; change (zlength (lit " (")) with 2; change (zlength (lit ")")) with 1; lia. }
    intros ? <-. eapply xok_mono; [apply infix_push_ok|]. intros r [H1 H2]. split; [done|]. rewrite H2. cbn [tree_text map app]. by destruct (begins (lit "not") (text a)). }
  assert (Htwo : forall op a c l0, l = c :: a :: l0 -> begins (lit "and") op || begins (lit "or") op = true -> zlength op <= 3 ->
    xok (infix_step op tk) (fun r => r.2 = true /\ ts_stack r.1 = (text a ++ lit " " ++ op ++ lit " " ++ text c) :: map (fun a => text a) l0 ++ base)).
  { intros op a c l0 -> Hop Hlen. unfold infix_step, pop. rewrite Hst, Hop. cbn [map app ts_stack]. eapply xok_bind; [by apply (xok_ret (text c) (eq (text c)))|]. intros ? <-.
    eapply xok_bind; [by apply (xok_ret (text a) (eq (text a)))|]. intros ? <-. eapply xok_bind; [apply sprintf_ok|].
    { rewrite !zlength_app. change (zlength (lit " ")) with 1. lia. } intros ? <-. apply infix_push_ok. }
  destruct (ce_type e =? CEXPR_AND). { destruct l as [|c [|a l]]; simplify_eq. eapply xok_mono; [by apply (Htwo (lit "and"))|]. intros r [? ?]. by split. }
  destruct (ce_type e =? CEXPR_OR). { destruct l as [|c [|a l]]; simplify_eq. eapply xok_mono; [by apply (Htwo (lit "or"))|]. intros r [? ?]. by split. }
  destruct (_ || _); [|done]. simplify_eq. destruct (leaf_text_opens e (default false (leaf_value db e s t x))) as [r Er]. unfold infix_step. rewrite Er.
  destruct (begins_paren r) as (-> & -> & ->). cbn [orb]. eapply xok_bind; [apply push_ok|]. intros tk' Htk. apply xok_ret. split; [done|]. cbn [map app tree_text fst]. by rewrite Htk, Hst, Er.
Qed.

Lemma infix_loop_ok es l l' tk base :
  parse es l = Some l' -> ts_stack tk = map (fun a => text a) l ++ base ->
  xok (infix_loop (map element_text es) tk) (fun r => r.2 = true /\ ts_stack r.1 = map (fun a => text a) l' ++ base).
Proof using.
  revert l tk. induction es as [|e es IH]; intros l tk Hp Hst; cbn [parse infix_loop map] in *; [simplify_eq; by apply xok_ret|].
  destruct (parse_step e l) as [l1|] eqn:E; [|done]. cbn [mbind option_bind] in Hp. eapply xok_bind; [by eapply infix_step_ok|]. intros [tk1 b] [H1 H2]. cbn in H1, H2. subst b. by eapply IH.
Qed.

(** Nothing of it returns an error of its own. *)
Definition nosoft {A} (m : X A) : Prop := forall o, match m o with Some (None, _) => False | _ => True end.

Lemma nosoft_bind {A B} (m : X A) (k : A -> X B) : nosoft m -> (forall a, nosoft (k a)) -> nosoft (xbind m k).
Proof using. intros Hm Hk o. specialize (Hm o). unfold xbind. destruct (m o) as [[[a|] o1]|]; [apply Hk|done..]. Qed.

Lemma infix_loop_nosoft xs tk : nosoft (infix_loop xs tk).
Proof using.
  assert (Hpush : forall n tk, nosoft (push n tk)). { intros n tk' o. unfold push. destruct (_ <=? _); [|done]. by destruct (malloc o) as [[] ?]. }
  assert (Hret : forall A (a : A), nosoft (xret a)) by done. assert (Hopt : forall A (m : option A), nosoft (xopt m)) by by intros A [].
  assert (Hnew : forall n w, nosoft (sprintf_new n w)). { intros n w o. unfold sprintf_new. destruct (malloc o) as [[] ?]; cbn; [|done]. by destruct (_ <? _). }
  assert (Hip : forall tk w, nosoft (infix_push tk w)) by (intros tk' []; [by apply nosoft_bind|done]).
  revert tk. induction xs as [|w xs IH]; intros tk; cbn [infix_loop]; [done|]. apply nosoft_bind; [|intros [tk' []]; [apply IH|done]].
  unfold infix_step. destruct (_ || _); [|destruct (begins _ w)].
  - destruct (pop tk) as [b tk1]. apply nosoft_bind; [done|]. intros b'. destruct (pop tk1) as [a tk2]. apply nosoft_bind; [done|]. intros a'. by apply nosoft_bind.
  - destruct (pop tk) as [b tk1]. apply nosoft_bind; [done|]. intros b'. by apply nosoft_bind.
  - by apply nosoft_bind.
Qed.

Lemma xmay_of_xok g {A} (m : X A) (Q : A -> Prop) : nosoft m -> (g -> xok m Q) -> xmay g m (fun _ => True) Q.
Proof using.
  intros Hn H o. specialize (Hn o). destruct (m o) as [[[a|] o1]|] eqn:E; [|done|].
  - split; [done|]. intros G M. destruct (xok_elim _ _ o (H G) M) as (a' & o' & E' & M' & Ha). rewrite E in E'. by simplify_eq.
  - intros [G M]. destruct (xok_elim _ _ o (H G) M) as (a' & o' & E' & _). by rewrite E in E'.
Qed.

Lemma reasons_ok g bs b :
  tb_ok b -> xmay g (reasons bs b) tb_ok (fun b' => tb_used b' = tb_used b ++ concat bs /\ (tb_tail b = [] -> tb_tail b' = [])).
Proof using.
  revert g b. induction bs as [|w bs IH]; intros g b Hb; cbn [reasons concat].
  - apply xmay_ret; [done|]. by rewrite app_nil_r.
  - eapply xmay_bind; [by apply append_ok|]. intros [[] b'] g1 Hb' G1.
    + eapply xmay_mono; [by apply IH|done|]. intros b2 G _ [E2 T2]. destruct (G1 G) as [_ (_ & E1 & T1)]. cbn in *. split; [by rewrite E2, E1, <- app_assoc|auto].
    + apply xmay_ret; [done|]. intros G. by destruct (G1 G) as [_ (? & _)].
Qed.

(** ** The class and its permissions *)

Section Class.
Context (tclass : Z) (cname : cstring) (cla : class_datum) (shown_name : option cstring).
Context (Hcla : class_val_to_struct (db_class_indexes db) !! Z.to_nat (tclass - 1) = Some (Some (cname, cla))).
Context (Hname : p_class_val_to_name (db_class_indexes db) !! Z.to_nat (tclass - 1) = Some shown_name).
Context (Hperms : st_nprim (cla_permissions cla) <= 32).

(** The names of some permissions, each behind a blank. *)
Definition perms_named (js : list Z) : cstring := concat (map (cons 32) (omap (perm_text db cla) js)).

(** What [sepol_av_to_string] makes of an access vector; a text of 2^63 bytes
    or more it cannot make. *)
Definition av_text (av : Z) : cstring :=
  let names := perms_named (filter (fun i => Z.testbit av i = true) (seqZ 0 (st_nprim (cla_permissions cla)))) in
  if zlength names <? 2 ^ 63 then names else lit "<format-failure>".

Lemma av_loop_ok av js p remaining :
  0 < remaining ->
  av_loop db cla av js p remaining =
    let names := perms_named (filter (fun i => Z.testbit av i = true) js) in if zlength names <? remaining then Some (p ++ names) else None.
Proof using.
  revert p remaining. induction js as [|i js IH]; intros p remaining Hr; cbn [av_loop].
  { change (perms_named (filter _ [])) with ([] : cstring). change (zlength ([] : cstring)) with 0. replace (0 <? remaining) with true by lia. by rewrite app_nil_r. }
  rewrite filter_cons. destruct (Z.testbit av i) eqn:Ei; [rewrite decide_True by done|rewrite decide_False by (cbn; congruence); by apply IH].
  cbn [omap list_omap]. unfold perms_named. cbn [omap list_omap]. destruct (perm_text db cla i) as [n|]; [|by apply IH].
  cbn [map concat]. change (lit " " ++ n) with (32 :: n). cbv zeta. rewrite zlength_app.
  pose proof (zlength_nonneg (concat (map (cons 32) (omap (perm_text db cla) (filter (fun i => Z.testbit av i = true) js))))).
  destruct (Z.leb_spec remaining (zlength (32 :: n))).
  - replace (_ <? _) with false by lia. done.
  - rewrite IH by lia. cbv zeta. unfold perms_named. rewrite <- app_assoc. destruct (Z.ltb_spec (zlength (concat (map (cons 32) (omap (perm_text db cla) (filter (fun i => Z.testbit av i = true) js))))) (remaining - zlength (32 :: n)));
      [replace (_ <? _) with true by lia|replace (_ <? _) with false by lia]; done.
Qed.

Lemma av_retry_ok fuel k av o :
  0 <= k <= 63 -> 63 - k <= Z.of_nat fuel -> mem_ok o ->
  k < 63 \/ 2 ^ 63 <= zlength (perms_named (filter (fun i => Z.testbit av i = true) (seqZ 0 (st_nprim (cla_permissions cla))))) ->
  exists r o', av_retry db fuel cla av (2 ^ k) o = Some (r, o') /\ mem_ok o' /\ default (lit "<format-failure>") r = av_text av.
Proof using.
  assert (Hbig : 2 ^ 63 <= zlength (perms_named (filter (fun i => Z.testbit av i = true) (seqZ 0 (st_nprim (cla_permissions cla))))) ->
    default (lit "<format-failure>") None = av_text av). { intros H. unfold av_text. cbv zeta. by replace (_ <? _) with false by lia. }
  revert k o. induction fuel as [|fuel IH]; intros k o Hk Hf M Hlong; cbn [av_retry]; rewrite <- Z.pow_succ_r by lia.
  { assert (k = 63) as -> by lia. destruct Hlong as [?|Hlong]; [lia|]. exists None, o. split_and!; [done..|]. by apply Hbig. }
  destruct (Z.leb_spec (2 ^ 64) (2 ^ Z.succ k)) as [H64|H64].
  { exists None, o. split_and!; [done..|]. apply Hbig. destruct Hlong; [|done]. apply Z.pow_le_mono_r_iff in H64; lia. }
  apply Z.pow_lt_mono_r_iff in H64; [|lia..]. destruct (malloc o) as [b o1] eqn:E. destruct (malloc_mem_ok _ _ _ E M) as [-> M1]. cbn [negb].
  rewrite av_loop_ok by (apply Z.pow_pos_nonneg; lia). cbv zeta. destruct (Z.ltb_spec (zlength (perms_named (filter (fun i => Z.testbit av i = true) (seqZ 0 (st_nprim (cla_permissions cla)))))) (2 ^ Z.succ k)) as [Hfit|Hno].
  - eexists _, o1. split_and!; [done..|]. unfold av_text. cbv zeta. replace (_ <? _) with true; [done|].
    assert (2 ^ Z.succ k <= 2 ^ 63) by (apply Z.pow_le_mono_r; lia). lia.
  - apply IH; [lia|lia|done|]. destruct (Z.eq_dec (Z.succ k) 63) as [E63|]; [right; by rewrite <- E63|left; lia].
Qed.

Lemma av_to_string_ok av : xok (or_failure (sepol_av_to_string db tclass av)) (eq (av_text av)).
Proof using Hcla Hperms.
  apply xok_intro. intros o M. unfold or_failure, sepol_av_to_string. rewrite Hcla. replace (32 <? _) with false by lia.
  destruct (av_retry_ok 64 6 av o) as (r & o' & E & M' & Hr); [lia|lia|done|lia|]. change (2 ^ 6) with 64 in E. rewrite E. eexists _, o'. by split_and!.
Qed.

(** [get_class_info]: the statement, the class and what it is about. *)
Definition statement_text (mls validatetrans : bool) : cstring :=
  match validatetrans, mls with
  | false, false => lit "constrain "
  | false, true => lit "mlsconstrain "
  | true, false => lit "validatetrans "
  | true, true => lit "mlsvalidatetrans "
  end.
Definition class_text (c : constraint_node) (validatetrans : bool) : cstring :=
  (statement_text (existsb (fun e => CEXPR_L1L2 <=? ce_attr e) (con_expr c)) validatetrans ++ shown shown_name ++ lit " ") ++
  (if validatetrans then lit "(" else lit "{" ++ av_text (con_permissions c) ++ lit " } (").

Lemma perms_named_filter P `{!forall i, Decision (P i)} js : (length (perms_named (filter P js)) <= length (perms_named js))%nat.
Proof using.
  unfold perms_named. induction js as [|i js IH]; [done|]. rewrite filter_cons. destruct (decide (P i)); cbn [omap list_omap]; destruct (perm_text db cla i); cbn [map concat]; rewrite ?length_app; lia.
Qed.

Lemma class_info_loop_ok fuel perms stmt name len :
  let W := (stmt ++ name ++ lit " ") ++ match perms with None => lit "(" | Some av => lit "{" ++ av_text av ++ lit " } (" end in
  zlength W < len + EXPR_BUF_SIZE * (Z.of_nat fuel + 1) -> xok (class_info_loop db fuel tclass perms stmt name len) (eq W).
Proof using Hcla Hperms.
  intros W. revert len. induction fuel as [|fuel IH]; intros len Hlen; apply xok_intro; intros o M; cbn [class_info_loop];
    destruct (malloc o) as [b o1] eqn:E; destruct (malloc_mem_ok _ _ _ E M) as [-> M1]; cbn [negb].
  all: assert (Hw : zlength stmt <= zlength (stmt ++ name ++ lit " ") <= zlength W) by (unfold W; rewrite !zlength_app; repeat match goal with |- context [zlength ?l] => lazymatch goal with H : 0 <= zlength l |- _ => fail | _ => pose proof (zlength_nonneg l) end end; lia).
  all: assert (Hrest : exists o2, match perms with
           | Some av => (permstr <- or_failure (sepol_av_to_string db tclass av) ;;; xret (lit "{" ++ permstr ++ lit " } ("))
           | None => xret (lit "(")
           end o1 = Some (Some match perms with None => lit "(" | Some av => lit "{" ++ av_text av ++ lit " } (" end, o2) /\ mem_ok o2).
  1,3: destruct perms as [av|]; [|by exists o1]; destruct (xok_elim _ _ o1 (av_to_string_ok av) M1) as (a & o2 & E2 & M2 & <-); exists o2; unfold xbind; by rewrite E2.
  - destruct Hrest as (o2 & Er & M2). rewrite !(proj2 (Z.leb_gt _ _)) by lia. rewrite Er. fold W. rewrite (proj2 (Z.leb_gt _ _)) by lia. by exists W, o2.
  - destruct Hrest as (o2 & Er & M2). assert (Hagain : forall o, mem_ok o -> exists a o', class_info_loop db fuel tclass perms stmt name (len + EXPR_BUF_SIZE) o = Some (Some a, o') /\ mem_ok o' /\ W = a).
    { intros o' M'. apply (xok_elim _ _ o'); [|done]. apply IH. lia. }
    destruct (_ <=? zlength stmt); [by apply Hagain|]. destruct (_ <=? zlength (stmt ++ _)); [by apply Hagain|]. rewrite Er. fold W. destruct (_ <=? zlength W); [by apply Hagain|]. by exists W, o2.
Qed.

Lemma class_info_ok c validatetrans : xok (get_class_info db tclass c validatetrans) (eq (class_text c validatetrans)).
Proof using Hcla Hname Hperms.
  unfold get_class_info. rewrite Hname. eapply xok_mono; [apply class_info_loop_ok|].
  - unfold class_info_fuel. rewrite Hcla. pose proof (perms_named_filter (fun i => Z.testbit (con_permissions c) i = true) (seqZ 0 (st_nprim (cla_permissions cla)))) as Hp.
    unfold perms_named in Hp. unfold EXPR_BUF_SIZE. set (stmt := match validatetrans with true => _ | false => _ end).
    assert (zlength stmt <= 17) by (unfold stmt; destruct validatetrans, (existsb _ _); vm_compute; discriminate).
    rewrite !zlength_app. change (zlength (lit " ")) with 1. destruct validatetrans.
    + change (zlength (lit "(")) with 1. unfold zlength in *. lia.
    + rewrite !zlength_app. change (zlength (lit "{")) with 1. change (zlength (lit " } (")) with 4. unfold av_text, perms_named. cbv zeta. destruct (_ <? _).
      * unfold zlength in *. lia.
      * change (zlength (lit "<format-failure>")) with 16. unfold zlength in *. lia.
  - intros a <-. unfold class_text, statement_text. by destruct validatetrans, (existsb _ _).
Qed.

(** ** The whole evaluation *)

Lemma parse_values es l l' :
  Forall element_ready es -> Forall (fun a => is_Some (value a)) l -> parse es l = Some l' -> Forall (fun a => is_Some (value a)) l'.
Proof using.
  intros Hes. revert l. induction Hes as [|e es He Hes IH]; intros l Hl Hp; cbn [parse] in Hp; [by simplify_eq|].
  destruct (parse_step e l) as [l1|] eqn:E; [|done]. cbn [mbind option_bind] in Hp. apply (IH l1); [|done]. clear Hp IH. unfold parse_step in E.
  destruct (ce_type e =? CEXPR_NOT). { destruct l as [|a l]; simplify_eq. inversion_clear Hl as [|? ? [v Hv] ?]. constructor; [|done]. cbn. rewrite Hv. by eexists. }
  destruct (ce_type e =? CEXPR_AND).
  { destruct l as [|c [|a l]]; simplify_eq. inversion_clear Hl as [|? ? [v Hv] Hl']. inversion_clear Hl' as [|? ? [w Hw] ?]. constructor; [|done]. cbn. rewrite Hw, Hv. by eexists. }
  destruct (ce_type e =? CEXPR_OR).
  { destruct l as [|c [|a l]]; simplify_eq. inversion_clear Hl as [|? ? [v Hv] Hl']. inversion_clear Hl' as [|? ? [w Hw] ?]. constructor; [|done]. cbn. rewrite Hw, Hv. by eexists. }
  destruct ((ce_type e =? CEXPR_ATTR) || (ce_type e =? CEXPR_NAMES)) eqn:El; [|done]. simplify_eq. constructor; [|done]. apply He. apply orb_prop in El. lia.
Qed.

(** Every constraint that is read has a tree, and a value if its leaves
    have. *)
Lemma constraint_has_value c :
  cons_depth (con_expr c) (-1) = Some 0 -> Forall element_ready (con_expr c) ->
  exists a v, parse (con_expr c) [] = Some [a] /\ constraint_tree c = Some a /\ value a = Some v /\ constraint_value db c s t x = Some v.
Proof using.
  intros Hd Hes. destruct (depth_parse (con_expr c) [] 0) as (l' & Hp & Hlen); [done|]. pose proof (parse_values _ _ _ Hes (Forall_nil_2 _) Hp) as Hv.
  destruct l' as [|a [|]]; [done| |unfold zlength in Hlen; cbn in Hlen; lia]. inversion_clear Hv as [|? ? [v Hv'] _]. exists a, v.
  unfold constraint_value, constraint_tree. rewrite Hp. by split_and!.
Qed.

Definition verdict_text (granted : bool) : cstring :=
  lit (if bool_decide (is_Some x) then "Validatetrans" else "Constraint") ++ lit " " ++ lit (if granted then "GRANTED" else "DENIED") ++ [10].

(** What a constraint adds to the reasons: a statement of it if it is denied,
    or if granted ones are wanted too. *)
Definition reason_text (flags : Z) (c : constraint_node) : cstring :=
  match constraint_tree c, constraint_value db c s t x with
  | Some a, Some v =>
      if negb v || (Z.land flags SHOW_GRANTED =? SHOW_GRANTED)
      then class_text c (bool_decide (is_Some x)) ++ text a ++ lit "); " ++ verdict_text v else []
  | _, _ => []
  end.

Definition reasons_fit (ev : eval_state) : Prop := forall b, ev_reason ev = Some b -> tb_ok b /\ tb_tail b = [].

Definition reasons_after (ev : eval_state) (w : cstring) (ev' : eval_state) : Prop :=
  match ev_reason ev with
  | None => ev_reason ev' = None
  | Some b => exists b', ev_reason ev' = Some b' /\ tb_used b' = tb_used b ++ w /\ tb_tail b' = []
  end.

Lemma eval_reason_may g flags c ev v :
  cons_depth (con_expr c) (-1) = Some 0 -> Forall element_ready (con_expr c) -> constraint_value db c s t x = Some v -> (forall b, ev_reason ev = Some b -> tb_ok b) ->
  xmay g (constraint_expr_eval_reason db s t x tclass c flags ev)
    (fun r => (r.1 = Z.b2z v \/ r.1 = - ENOMEM) /\ forall b, ev_reason r.2 = Some b -> tb_ok b)
    (fun r => r.1 = Z.b2z v /\ ts_stack (ev_stack r.2) = ts_stack (ev_stack ev) /\ ((forall b, ev_reason ev = Some b -> tb_tail b = []) -> reasons_after ev (reason_text flags c) r.2)).
Proof using Hs Ht Hx Hroles Hcla Hname Hperms.
  intros Hd Hes Hv Hev. destruct (constraint_has_value c Hd Hes) as (a & v' & Hp & Ht' & Hva & Hv'). simplify_eq.
  set (P := fun r : Z * eval_state => _). set (Q := fun r : Z * eval_state => _).
  assert (Hnomem : forall g tk, ~ g -> xmay g (xret (- ENOMEM, mk_eval_state tk (ev_reason ev))) P Q).
  { intros g' tk G. apply xmay_ret; [|done]. split; [by right|done]. }
  assert (Hrest : forall g class_buf, (g -> class_buf = class_text c (bool_decide (is_Some x))) -> xmay g (r <- eval_elements db (con_expr c) s t x (mk_cstate (replicate (Z.to_nat CEXPR_MAXDEPTH) 0) (- 1) None None [] 0) ;;;
         match r with
         | Out rc => xret (rc, ev)
         | Go st =>
             fun o => let '(ok, o) := malloc o in
               (fun ok : bool => if negb ok then xret (- ENOMEM, ev) else
               r <- infix_loop (cs_texts st) (ev_stack ev) ;;;
                if negb r.2 then xret (- ENOMEM, mk_eval_state r.1 (ev_reason ev)) else
                let '(a, t) := pop r.1 in
                s0 <- xopt (rd (cs_s st) 0) ;;;
                let verdict := lit (if bool_decide (is_Some x) then "Validatetrans" else "Constraint") ++ lit " " ++
                               lit (if ctrue s0 then "GRANTED" else "DENIED") ++ [10] in
                reason <- match ev_reason ev with
                          | Some b =>
                              if (s0 =? 0) || ((s0 =? 1) && (Z.land flags SHOW_GRANTED =? SHOW_GRANTED))
                              then b <- reasons (class_buf :: match a with Some a => [a; lit "); "; verdict] | None => [] end) b ;;; xret (Some b)
                              else xret (Some b)
                          | None => xret None
                          end ;;;
                xret (s0, mk_eval_state t reason)) ok o
         end) P Q).
  { intros g0 class_buf Hcb. eapply xmay_bind; [eapply (eval_elements_ok _ _ _ [] [a] 0); [done| |done|done|done]|].
    { split_and!; [done|done|]. exists []. split; [constructor|]. by intros. }
    intros [st|rc] g1 Hst G1; cbn in Hst.
    2:{ subst rc. apply xmay_ret; [split; [by right|done]|]. intros G. by destruct (G1 G) as [_ (? & ? & _)]. }
    destruct (holds_top st a [] Hst) as (v' & Hv' & H0 & _). simplify_eq. cbn in H0.
    apply xmay_malloc; cbn [negb].
    2:{ intros g2 G2. destruct ev. by apply Hnomem. }
    eapply xmay_bind; [apply xmay_of_xok; [apply infix_loop_nosoft|]; intros G; destruct (G1 G) as [_ (st1 & [= <-] & Et)]; rewrite Et; cbn [cs_texts app]; by apply (infix_loop_ok _ _ _ _ (ts_stack (ev_stack ev)) Hp)|].
    intros [tk []] g2 _ G2; cbn [negb snd fst] in *; [|apply Hnomem; intros G; by destruct (G2 G) as [_ [? _]]].
    destruct (pop tk) as [top tk2] eqn:Epop.
    assert (Hpop : g2 -> top = Some (text a) /\ ts_stack tk2 = ts_stack (ev_stack ev)).
    { intros G. destruct (G2 G) as [_ [_ Htk]]. unfold pop in Epop. rewrite Htk in Epop. cbn in Epop. by simplify_eq. }
    eapply xmay_some; [unfold rd; cbn; exact H0|]. rewrite b2z_ctrue.
    set (show := (Z.b2z v =? 0) || ((Z.b2z v =? 1) && (Z.land flags SHOW_GRANTED =? SHOW_GRANTED))).
    assert (Hshow : show = negb v || (Z.land flags SHOW_GRANTED =? SHOW_GRANTED)) by (unfold show; by destruct v).
    eapply (xmay_bind _ _ _ (fun r => forall b, r = Some b -> tb_ok b)
       (fun r => (forall b, ev_reason ev = Some b -> tb_tail b = []) -> reasons_after ev (reason_text flags c) (mk_eval_state tk2 r))).
    - destruct (ev_reason ev) as [b|] eqn:Eb; [|apply xmay_ret; [done|]; intros _ _; unfold reasons_after; by rewrite Eb]. destruct show.
      + eapply xmay_bind; [apply reasons_ok; by apply Hev|]. intros b' g3 Hb' G3. apply xmay_ret; [by intros ? [= <-]|]. intros G Htail.
        destruct (G3 G) as [G' [E1 E2]]. destruct (Hpop G') as [-> _]. unfold reasons_after, reason_text. rewrite Eb, Ht', Hv, <- Hshow. exists b'. split; [done|].
        split; [|by apply E2, Htail]. rewrite E1. f_equal. cbn [concat]. rewrite app_nil_r. destruct (G2 G') as [G'' _]. destruct (G1 G'') as [G0 _]. by rewrite (Hcb G0).
      + apply xmay_ret; [intros ? [= <-]; by apply Hev|]. intros G Htail. unfold reasons_after, reason_text. rewrite Eb, Ht', Hv, <- Hshow. exists b. rewrite app_nil_r. split_and!; [done..|by apply Htail].
    - intros r g3 Hr G3. apply xmay_ret; [split; [by left|done]|]. intros G. destruct (G3 G) as [G' HQ]. destruct (Hpop G') as [_ Hstk]. split_and!; [done|done|exact HQ]. }
  intros o. unfold constraint_expr_eval_reason. pose proof (class_info_ok c (bool_decide (is_Some x))) as Hci.
  destruct (get_class_info db tclass c (bool_decide (is_Some x)) o) as [[[cb|] o1]|] eqn:E.
  - specialize (Hrest (g /\ mem_ok o) cb). assert (HM : mem_ok o -> cb = class_text c (bool_decide (is_Some x)) /\ mem_ok o1).
    { intros M. destruct (xok_elim _ _ o Hci M) as (cb' & o' & E' & M' & <-). rewrite E in E'. by simplify_eq. }
    refine (xmay_at g _ P Q o o1 (Hrest (fun G => proj1 (HM (proj2 G)))) (fun M => proj2 (HM M))).
  - split; [split; [by right|done]|]. intros G M. destruct (xok_elim _ _ o Hci M) as (cb' & o' & E' & _). by rewrite E in E'.
  - intros [G M]. destruct (xok_elim _ _ o Hci M) as (cb' & o' & E' & _). by rewrite E in E'.
Qed.
End Class.
End Eval.
