(* ===== verification/Services.v ===== *)
(** * Services: the decisions of the security server

    libsepol/src/services.c: whether a source may use permissions on a target
    ([context_struct_compute_av] with the rules, constraints, role allows and
    bounds of the policy), which transitions are valid, and the context of a
    new object ([sepol_compute_sid], with [mls_compute_sid] of mls.c).

    The policy and the SID table are globals of the source; here they are
    fields of the state, with the stack of texts the evaluation of constraints
    leaves behind.  [latest_granting] is 0 and [selinux_enforcing] is 1 in this
    library: nothing changes them. *)
From Stdlib Require Import ZArith Lia Bool String.
From stdpp Require Import base option list list_numbers gmap sets.
From S2P Require Import Prelude PolicyFile Mem Ebitmap Hashtab Symtab Avtab Cond Codec Symbols Trans Index Contexts ContextText CondIO Policydb Constraint Sidtab.

Open Scope Z_scope.

Definition SEPOL_COMPUTEAV_TE : Z := 1.
Definition SEPOL_COMPUTEAV_CONS : Z := 2.
Definition SEPOL_COMPUTEAV_RBAC : Z := 4.
Definition SEPOL_COMPUTEAV_BOUNDS : Z := 8.
Definition EPERM : Z := 1.
Definition EACCES : Z := 13.
Definition latest_granting : Z := 0.

Definition set_allowed (avd : sepol_av_decision) (a : Z) : sepol_av_decision :=
  mk_av_decision a (decided avd) (auditallow avd) (auditdeny avd) (seqno avd).

Section Decide.
Context (db : policydb).

(** ** Rules *)

(** The body of the loop over the unconditional rules. *)
Definition te_node (avd : sepol_av_decision) (n : avtab_node) : sepol_av_decision :=
  let d := data (datum n) in
  if specified (key n) =? AVTAB_ALLOWED then set_allowed avd (Z.lor (allowed avd) d)
  else if specified (key n) =? AVTAB_AUDITALLOW then mk_av_decision (allowed avd) (decided avd) (Z.lor (auditallow avd) d) (auditdeny avd) (seqno avd)
  else if specified (key n) =? AVTAB_AUDITDENY then mk_av_decision (allowed avd) (decided avd) (auditallow avd) (Z.land (auditdeny avd) d) (seqno avd)
  else avd.

(** One unit of fuel per node. *)
Fixpoint te_loop (fuel : nat) (node : option (avtab_node * list avtab_node)) (spec : Z) (avd : sepol_av_decision) : option sepol_av_decision :=
  match node with
  | None => Some avd
  | Some (n, _) =>
      match fuel with
      | O => None
      | S fuel => te_loop fuel (avtab_search_node_next node spec) spec (te_node avd n)
      end
  end.

Definition nodes_in (t : avtab) : nat := length (concat (default [] (av_htable t))).

(** The rules for one pair of attributes; the fields of a key have 16 bits. *)
Definition compute_pair (tclass i j : Z) (avd : sepol_av_decision) : option sepol_av_decision :=
  let avkey := mk_avtab_key (u16 (i + 1)) (u16 (j + 1)) tclass AVTAB_AV in
  avd ← te_loop (S (nodes_in (db_te_avtab db))) (avtab_search_node (db_te_avtab db) avkey) AVTAB_AV avd;
  cond_compute_av (S (nodes_in (ct_table (db_cond db)))) (ct_table (db_cond db)) avkey avd.

(** The loops over the attributes of source and target. *)
Definition compute_rules (tclass : Z) (scontext tcontext : context_struct) (avd : sepol_av_decision) : option sepol_av_decision :=
  sattr ← db_type_attr_map db !! Z.to_nat (u32 (ctx_type scontext - 1));
  tattr ← db_type_attr_map db !! Z.to_nat (u32 (ctx_type tcontext - 1));
  sbits ← for_each_positive_bit sattr;
  ofold (fun i avd => tbits ← for_each_positive_bit tattr; ofold (fun j => compute_pair tclass i j) tbits avd) sbits avd.

(** ** Constraints *)

(** The loop over the constraints of the class: a constraint with a permission
    that is still granted is evaluated, and takes its permissions away if it
    gives 0. *)
Fixpoint constrain (scontext tcontext : context_struct) (tclass flags : Z) (cs : list constraint_node) (st : sepol_av_decision * eval_state) :
    X (sepol_av_decision * eval_state) :=
  match cs with
  | [] => xret st
  | c :: cs =>
      let '(avd, ev) := st in
      if ctrue (Z.land (con_permissions c) (allowed avd)) then
        r <- constraint_expr_eval_reason db scontext tcontext None tclass c flags ev ;;;
        constrain scontext tcontext tclass flags cs
          (if negb (ctrue r.1) then set_allowed avd (Z.ldiff (allowed avd) (con_permissions c)) else avd, r.2)
      else constrain scontext tcontext tclass flags cs st
  end.

(** ** Roles *)

Definition role_allowed (scontext tcontext : context_struct) : bool :=
  existsb (fun ra => (ctx_role scontext =? ra_role ra) && (ctx_role tcontext =? ra_new_role ra)) (db_role_allow db).

Definition restrict_roles (scontext tcontext : context_struct) (tclass : Z) (avd : sepol_av_decision) : sepol_av_decision :=
  if (tclass =? db_process_class db) && ctrue (Z.land (allowed avd) (db_process_trans_dyntrans db)) &&
     negb (ctx_role scontext =? ctx_role tcontext) && negb (role_allowed scontext tcontext)
  then set_allowed avd (Z.ldiff (allowed avd) (db_process_trans_dyntrans db)) else avd.

(** ** The decision *)

(** [if (requested & ~avd->allowed) { *reason |= flag; requested &= avd->allowed; }],
    on [reason], which may be null, and [requested]. *)
Definition note (flag : Z) (avd : sepol_av_decision) (r : option Z * Z) : option Z * Z :=
  if ctrue (Z.ldiff r.2 (allowed avd)) then ((fun x => Z.lor x flag) <$> r.1, Z.land r.2 (allowed avd)) else r.

Definition type_struct (v : Z) : option type_datum :=
  match (ix_types (db_indexes db)).2 !! Z.to_nat (u32 (v - 1)) with
  | Some (Some (_, d)) => Some d
  | _ => None
  end.

Definition with_type (c : context_struct) (type : Z) : context_struct := mk_context (ctx_user c) (ctx_role c) type (ctx_range c).

(** [type_attribute_bounds_av], given [context_struct_compute_av]: the call for
    the types that bound those of the contexts has no reason and no buffer. *)
Definition type_attribute_bounds_av
    (compute_av : context_struct -> context_struct -> Z -> Z -> Z -> sepol_av_decision -> option Z -> eval_state -> X (Z * sepol_av_decision * option Z * eval_state))
    (scontext tcontext : context_struct) (tclass requested : Z) (avd : sepol_av_decision) (reason : option Z) (ev : eval_state) :
    X (sepol_av_decision * option Z * eval_state) :=
  source <- xopt (type_struct (ctx_type scontext)) ;;;
  if negb (ctrue (type_bounds source)) then xret (avd, reason, ev) else
  target <- xopt (type_struct (ctx_type tcontext)) ;;;
  r <- compute_av (with_type scontext (type_bounds source))
         (if ctrue (type_bounds target) then with_type tcontext (type_bounds target) else tcontext)
         tclass requested 0 (mk_av_decision 0 0 0 0 0) None (mk_eval_state (ev_stack ev) None) ;;;
  let ev := mk_eval_state (ev_stack r.2) (ev_reason ev) in
  let masked := Z.ldiff (allowed avd) (allowed r.1.1.2) in
  if negb (ctrue masked) then xret (avd, reason, ev) else
  xret (set_allowed avd (Z.ldiff (allowed avd) masked), (fun x => Z.lor x SEPOL_COMPUTEAV_BOUNDS) <$> reason, ev).

(** The calls of [context_struct_compute_av] and [type_attribute_bounds_av]
    nest; one unit of fuel per call.  The result: the code, [*avd], [*reason]
    and what is left by the evaluation of constraints. *)
Fixpoint context_struct_compute_av (fuel : nat) (scontext tcontext : context_struct) (tclass requested flags : Z)
    (avd : sepol_av_decision) (reason : option Z) (ev : eval_state) {struct fuel} : X (Z * sepol_av_decision * option Z * eval_state) :=
  match fuel with
  | O => xfault
  | S fuel =>
      if negb (ctrue tclass) || (st_nprim (p_classes (db_symbols db)) <? tclass) then xret (- EINVAL, avd, reason, ev) else
      avd <- xopt (compute_rules tclass scontext tcontext (mk_av_decision 0 (2 ^ 32 - 1) 0 (2 ^ 32 - 1) latest_granting)) ;;;
      let r := note SEPOL_COMPUTEAV_TE avd ((fun _ => 0) <$> reason, requested) in
      match class_val_to_struct (db_class_indexes db) !! Z.to_nat (tclass - 1) with
      | Some (Some (_, tclass_datum)) =>
          st <- constrain scontext tcontext tclass flags (cla_constraints tclass_datum) (avd, ev) ;;;
          let r := note SEPOL_COMPUTEAV_CONS st.1 r in
          let avd := restrict_roles scontext tcontext tclass st.1 in
          let r := note SEPOL_COMPUTEAV_RBAC avd r in
          res <- type_attribute_bounds_av (context_struct_compute_av fuel) scontext tcontext tclass r.2 avd r.1 st.2 ;;;
          xret (0, res.1.1, res.1.2, res.2)
      | _ => xfault
      end
  end.
End Decide.

(** ** The state of the server *)

(** [policydb] and [sidtab] with what they point to: [None] is memory that
    was freed; [sv_own] says that [policydb] points to [mypolicydb].
    [sv_stack] is the stack of texts of the constraint evaluation. *)
Record server := mk_server { sv_db : option policydb; sv_own : bool; sv_sidtab : sidtab; sv_stack : tstack }.

Definition set_sidtab (sv : server) (s : sidtab) : server := mk_server (sv_db sv) (sv_own sv) s (sv_stack sv).
Definition set_stack_of (sv : server) (t : tstack) : server := mk_server (sv_db sv) (sv_own sv) (sv_sidtab sv) t.

Definition sepol_set_sidtab (s : sidtab) (sv : server) : server := set_sidtab sv s.
Definition sepol_set_policydb (p : policydb) (sv : server) : server := mk_server (Some p) false (sv_sidtab sv) (sv_stack sv).

(** Chains of bounds are followed at most once through every type. *)
Definition bounds_fuel (db : policydb) : nat := S (Z.to_nat (st_nprim (p_types (db_symbols db)))).

(** ** Decisions for SIDs *)

(** The code, [*avd] and [*reason]; the text of the reasons when there is a
    buffer. *)
Definition compute_av_for (sv : server) (ssid tsid tclass requested : Z) (avd : sepol_av_decision) (reason : Z) (buf : option tbuf) (flags : Z) :
    X (Z * sepol_av_decision * Z * option tbuf * server) :=
  match sepol_sidtab_search (sv_sidtab sv) ssid with
  | None => xret (- EINVAL, avd, reason, None, sv)
  | Some scontext =>
      match sepol_sidtab_search (sv_sidtab sv) tsid with
      | None => xret (- EINVAL, avd, reason, None, sv)
      | Some tcontext =>
          db <- xopt (sv_db sv) ;;;
          r <- context_struct_compute_av db (bounds_fuel db) scontext tcontext tclass requested flags avd (Some reason) (mk_eval_state (sv_stack sv) buf) ;;;
          xret (r.1.1.1, r.1.1.2, default reason r.1.2, ev_reason r.2, set_stack_of sv (ev_stack r.2))
      end
  end.

Definition sepol_compute_av_reason (sv : server) (ssid tsid tclass requested : Z) (avd : sepol_av_decision) (reason : Z) :
    X (Z * sepol_av_decision * Z * server) :=
  r <- compute_av_for sv ssid tsid tclass requested avd reason None 0 ;;; xret (r.1.1, r.2).

(** [*reason_buf = NULL], and its counters are 0. *)
Definition no_reasons : tbuf := mk_tbuf [] [] 0.

Definition sepol_compute_av_reason_buffer (sv : server) (ssid tsid tclass requested : Z) (avd : sepol_av_decision) (reason flags : Z) :
    X (Z * sepol_av_decision * Z * option tbuf * server) :=
  compute_av_for sv ssid tsid tclass requested avd reason (Some no_reasons) flags.

Definition sepol_compute_av (sv : server) (ssid tsid tclass requested : Z) (avd : sepol_av_decision) : X (Z * sepol_av_decision * server) :=
  r <- sepol_compute_av_reason sv ssid tsid tclass requested avd 0 ;;; xret (r.1.1, r.2).

(** The loop over the [validatetrans] rules. *)
Fixpoint validate_loop (db : policydb) (ocontext ncontext tcontext : context_struct) (tclass flags : Z) (cs : list constraint_node) (ev : eval_state) :
    X (Z * eval_state) :=
  match cs with
  | [] => xret (0, ev)
  | c :: cs =>
      r <- constraint_expr_eval_reason db ocontext ncontext (Some tcontext) tclass c flags ev ;;;
      if negb (ctrue r.1) then xret (- EPERM, r.2) else validate_loop db ocontext ncontext tcontext tclass flags cs r.2
  end.

(** [None] for the buffer: it was not set. *)
Definition sepol_validate_transition_reason_buffer (sv : server) (oldsid newsid tasksid tclass flags : Z) : X (Z * option tbuf * server) :=
  db <- xopt (sv_db sv) ;;;
  if negb (ctrue tclass) || (st_nprim (p_classes (db_symbols db)) <? tclass) then xret (- EINVAL, None, sv) else
  match sepol_sidtab_search (sv_sidtab sv) oldsid, sepol_sidtab_search (sv_sidtab sv) newsid, sepol_sidtab_search (sv_sidtab sv) tasksid with
  | Some ocontext, Some ncontext, Some tcontext =>
      match class_val_to_struct (db_class_indexes db) !! Z.to_nat (tclass - 1) with
      | Some (Some (_, tclass_datum)) =>
          r <- validate_loop db ocontext ncontext tcontext tclass flags (cla_validatetrans tclass_datum) (mk_eval_state (sv_stack sv) (Some no_reasons)) ;;;
          xret (r.1, ev_reason r.2, set_stack_of sv (ev_stack r.2))
      | _ => xfault
      end
  | _, _, _ => xret (- EINVAL, None, sv)
  end.

(** ** Classes and permissions by name *)

Definition sepol_string_to_security_class (db : policydb) (class_name : cstring) : option Z :=
  cla_value <$> hashtab_search (st_table (p_classes (db_symbols db))) class_name.

(** The code and [*av]; [None]: no class has the value. *)
Definition sepol_string_to_av_perm (db : policydb) (tclass : Z) (perm_name : cstring) : option (Z * option Z) :=
  if negb (ctrue tclass) || (st_nprim (p_classes (db_symbols db)) <? tclass) then Some (- EINVAL, None) else
  match class_val_to_struct (db_class_indexes db) !! Z.to_nat (tclass - 1) with
  | Some (Some (_, tclass_datum)) =>
      let bit p := u32 (Z.shiftl 1 (perm_value p - 1)) in
      match hashtab_search (st_table (cla_permissions tclass_datum)) perm_name with
      | Some p => Some (0, Some (bit p))
      | None =>
          match comdatum db tclass_datum with
          | None => Some (-1, None)
          | Some com =>
              match hashtab_search (st_table (com_permissions com)) perm_name with
              | Some p => Some (0, Some (bit p))
              | None => Some (-1, None)
              end
          end
      end
  | _ => None
  end.

(** The text in the static buffer of 1024 bytes. *)
Definition sepol_av_perm_to_string (db : policydb) (tclass av : Z) : X cstring :=
  fun o => match sepol_av_to_string db tclass av o with
           | None => None
           | Some (Some avstr, o) => Some (Some (if zlength avstr <? 1024 then avstr else lit "<access-vector overflowed buffer>"), o)
           | Some (None, o) => Some (Some (lit "<format-failure>"), o)
           end.

(** ** SIDs and texts *)

(** The code and the text with its length. *)
Definition sepol_sid_to_context (sv : server) (sid : Z) : X (Z * option (list Z * Z)) :=
  match sepol_sidtab_search (sv_sidtab sv) sid with
  | None => xret (- EINVAL, None)
  | Some context =>
      db <- xopt (sv_db sv) ;;;
      fun o => match context_to_string (h_mls (db_header db)) (db_indexes db) context o with
               | None => None
               | Some (Some r, o) => Some (Some (0, Some r), o)
               | Some (None, o) => Some (Some (-1, None), o)
               end
  end.

(** The code and [*sid] ([None] if it was not set). *)
Definition sepol_context_to_sid (sv : server) (scontext : list Z) : X (Z * option Z * server) :=
  db <- xopt (sv_db sv) ;;;
  fun o => match context_from_string (h_mls (db_header db)) (db_symbols db) (db_indexes db) scontext o with
           | None => None
           | Some (None, o) => Some (Some (-1, None, sv), o)
           | Some (Some context, o) =>
               match sepol_sidtab_context_to_sid (sv_sidtab sv) context o with
               | None => None
               | Some (rc, sid, s, o) => Some (Some ((if rc <? 0 then -1 else 0), Some sid, set_sidtab sv s), o)
               end
           end.

(** ** New contexts *)

Definition DEFAULT_SOURCE : Z := 1.
Definition DEFAULT_TARGET : Z := 2.
Definition DEFAULT_SOURCE_LOW : Z := 1.
Definition DEFAULT_SOURCE_HIGH : Z := 2.
Definition DEFAULT_SOURCE_LOW_HIGH : Z := 3.
Definition DEFAULT_TARGET_LOW : Z := 4.
Definition DEFAULT_TARGET_HIGH : Z := 5.
Definition DEFAULT_TARGET_LOW_HIGH : Z := 6.

(** The code and the range that was set. *)
Definition ranged (R : Type) : Type := oracle -> Z * R * oracle.

(** Copies of two levels. *)
Definition copy_levels (l0 l1 : mls_level) : ranged mls_range :=
  fun o =>
    let '(rc, e0, o) := ebitmap_cpy (cat l0) o in
    if ctrue rc then (rc, empty_range, o) else
    let '(rc, e1, o) := ebitmap_cpy (cat l1) o in
    if ctrue rc then (rc, empty_range, o) else (0, mk_mls_range (mk_mls_level (sens l0) e0) (mk_mls_level (sens l1) e1), o).

Definition mls_copy_context (src : context_struct) : ranged mls_range := copy_levels (level0 (ctx_range src)) (level1 (ctx_range src)).
Definition mls_scopy_context (src : context_struct) : ranged mls_range := copy_levels (level0 (ctx_range src)) (level0 (ctx_range src)).
Definition mls_range_set (r : mls_range) : ranged mls_range := copy_levels (level0 r) (level1 r).
Definition mls_context_cpy_low (src : context_struct) : ranged mls_range := copy_levels (level0 (ctx_range src)) (level0 (ctx_range src)).
Definition mls_context_cpy_high (src : context_struct) : ranged mls_range := copy_levels (level1 (ctx_range src)) (level1 (ctx_range src)).
(** [mls_context_cpy] with its code. *)
Definition mls_context_cpy_rc (src : context_struct) : ranged mls_range :=
  fun o => let '(rc, r, o) := copy_levels (level0 (ctx_range src)) (level1 (ctx_range src)) o in ((if rc <? 0 then -1 else 0), r, o).

Definition mls_range_glblub (r1 r2 : mls_range) : ranged mls_range :=
  fun o =>
    if (sens (level1 r1) <? sens (level0 r2)) || (sens (level1 r2) <? sens (level0 r1)) then (- EINVAL, empty_range, o) else
    let '(rc, e0, o) := ebitmap_and (cat (level0 r1)) (cat (level0 r2)) o in
    if rc <? 0 then (-1, empty_range, o) else
    let '(rc, e1, o) := ebitmap_and (cat (level1 r1)) (cat (level1 r2)) o in
    if rc <? 0 then (-1, empty_range, o) else
    (0, mk_mls_range (mk_mls_level (Z.max (sens (level0 r1)) (sens (level0 r2))) e0) (mk_mls_level (Z.min (sens (level1 r1)) (sens (level1 r2))) e1), o).

Section NewContext.
Context (db : policydb).

(** [cladatum]: null for an unknown class. *)
Definition class_or_null (tclass : Z) : option class_datum :=
  if ctrue tclass && (tclass <=? st_nprim (p_classes (db_symbols db))) then
    match class_val_to_struct (db_class_indexes db) !! Z.to_nat (tclass - 1) with
    | Some (Some (_, d)) => Some d
    | _ => None
    end
  else None.

Definition change_range (scontext : context_struct) (tclass : Z) : ranged mls_range :=
  if tclass =? db_process_class db then mls_copy_context scontext else mls_scopy_context scontext.

Definition mls_compute_sid (scontext tcontext : context_struct) (tclass specified : Z) : ranged mls_range :=
  if negb (h_mls (db_header db)) then fun o => (0, empty_range, o) else
  if specified =? AVTAB_TRANSITION then
    match hashtab_search (db_range_tr db) (mk_range_trans (ctx_type scontext) (ctx_type tcontext) tclass) with
    | Some r => mls_range_set r
    | None =>
        let default_range := match class_or_null tclass with Some cladatum => default_range cladatum | None => 0 end in
        if default_range =? DEFAULT_SOURCE_LOW then mls_context_cpy_low scontext
        else if default_range =? DEFAULT_SOURCE_HIGH then mls_context_cpy_high scontext
        else if default_range =? DEFAULT_SOURCE_LOW_HIGH then mls_context_cpy_rc scontext
        else if default_range =? DEFAULT_TARGET_LOW then mls_context_cpy_low tcontext
        else if default_range =? DEFAULT_TARGET_HIGH then mls_context_cpy_high tcontext
        else if default_range =? DEFAULT_TARGET_LOW_HIGH then mls_context_cpy_rc tcontext
        else if default_range =? DEFAULT_GLBLUB then mls_range_glblub (ctx_range scontext) (ctx_range tcontext)
        else change_range scontext tclass
    end
  else if specified =? AVTAB_CHANGE then change_range scontext tclass
  else if specified =? AVTAB_MEMBER then mls_context_cpy_low scontext
  else fun o => (- EINVAL, empty_range, o).

(** The first enabled conditional rule. *)
Fixpoint enabled_rule (fuel : nat) (node : option (avtab_node * list avtab_node)) (spec : Z) : option (option avtab_datum) :=
  match node with
  | None => Some None
  | Some (n, _) =>
      if ctrue (Z.land (specified (key n)) AVTAB_ENABLED) then Some (Some (datum n)) else
      match fuel with
      | O => None
      | S fuel => enabled_rule fuel (avtab_search_node_next node spec) spec
      end
  end.

(** The rule for a new type: an unconditional one, or one that is enabled. *)
Definition type_rule (scontext tcontext : context_struct) (tclass specified : Z) : option (option avtab_datum) :=
  let avkey := mk_avtab_key (u16 (ctx_type scontext)) (u16 (ctx_type tcontext)) tclass (u16 specified) in
  match avtab_search (db_te_avtab db) avkey with
  | Some d => Some (Some d)
  | None => enabled_rule (S (nodes_in (ct_table (db_cond db)))) (avtab_search_node (ct_table (db_cond db)) avkey) specified
  end.

Definition new_user (cla : option class_datum) (scontext tcontext : context_struct) (specified : Z) : Z :=
  if (specified =? AVTAB_TRANSITION) || (specified =? AVTAB_CHANGE) then
    match cla with
    | Some d => if default_user d =? DEFAULT_TARGET then ctx_user tcontext else ctx_user scontext
    | None => ctx_user scontext
    end
  else if specified =? AVTAB_MEMBER then ctx_user tcontext
  else 0.

(** [default_role] and [default_type]; [otherwise] without a default. *)
Definition by_default (d : option Z) (source target otherwise : Z) : Z :=
  match d with
  | Some d => if d =? DEFAULT_SOURCE then source else if d =? DEFAULT_TARGET then target else otherwise
  | None => otherwise
  end.

Definition role_rule (scontext tcontext : context_struct) (tclass : Z) : option role_trans :=
  List.find (fun r => (rt_role r =? ctx_role scontext) && (rt_type r =? ctx_type tcontext) && (rt_tclass r =? tclass)) (db_role_tr db).

(** Everything of the new context but its range. *)
Definition new_identity (scontext tcontext : context_struct) (tclass specified : Z) : option (Z * Z * Z) :=
  let cla := class_or_null tclass in
  let process := tclass =? db_process_class db in
  let role := by_default (default_role <$> cla) (ctx_role scontext) (ctx_role tcontext) (if process then ctx_role scontext else OBJECT_R_VAL) in
  let type := by_default (default_type <$> cla) (ctx_type scontext) (ctx_type tcontext) (if process then ctx_type scontext else ctx_type tcontext) in
  rule ← type_rule scontext tcontext tclass specified;
  Some (new_user cla scontext tcontext specified,
        (if ctrue (Z.land specified AVTAB_TRANSITION)
         then match role_rule scontext tcontext tclass with Some r => rt_new_role r | None => role end else role),
        match rule with Some d => data d | None => type end).
End NewContext.

(** [-EACCES] since [selinux_enforcing] is 1. *)
Definition compute_sid_handle_invalid_context : Z := - EACCES.

(** The code and [*out_sid] ([None] if it was not set). *)
Definition sepol_compute_sid (sv : server) (ssid tsid tclass specified : Z) : X (Z * option Z * server) :=
  match sepol_sidtab_search (sv_sidtab sv) ssid, sepol_sidtab_search (sv_sidtab sv) tsid with
  | Some scontext, Some tcontext =>
      db <- xopt (sv_db sv) ;;;
      id <- xopt (new_identity db scontext tcontext tclass specified) ;;;
      fun o =>
        let '(rc, range, o) := mls_compute_sid db scontext tcontext tclass specified o in
        if ctrue rc then Some (Some (rc, None, sv), o) else
        let newcontext := mk_context id.1.1 id.1.2 id.2 range in
        match policydb_context_isvalid (h_mls (db_header db)) (db_symbols db) (db_indexes db) newcontext with
        | None => None
        | Some valid =>
            let rc := if valid then 0 else compute_sid_handle_invalid_context in
            if ctrue rc then Some (Some (rc, None, sv), o) else
            match sepol_sidtab_context_to_sid (sv_sidtab sv) newcontext o with
            | None => None
            | Some (rc, sid, s, o) => Some (Some (rc, Some sid, set_sidtab sv s), o)
            end
        end
  | _, _ => xret (- EINVAL, None, sv)
  end.

Definition sepol_transition_sid (sv : server) (ssid tsid tclass : Z) : X (Z * option Z * server) := sepol_compute_sid sv ssid tsid tclass AVTAB_TRANSITION.
Definition sepol_member_sid (sv : server) (ssid tsid tclass : Z) : X (Z * option Z * server) := sepol_compute_sid sv ssid tsid tclass AVTAB_MEMBER.
Definition sepol_change_sid (sv : server) (ssid tsid tclass : Z) : X (Z * option Z * server) := sepol_compute_sid sv ssid tsid tclass AVTAB_CHANGE.
