(* ===== verification/ServicesThms.v ===== *)
(** * ServicesThms: which permissions are granted

    The decision of [context_struct_compute_av] against a declarative account
    of what a policy permits: a rule that allows it, every constraint on it
    true, a role allow where roles change, and the same for the types that
    bound those of the contexts. *)
From Stdlib Require Import ZArith Lia Bool.
From stdpp Require Import base option list list_numbers gmap sets.
From S2P Require Import Prelude PolicyFile Mem Ebitmap EbitmapThms EbitmapRange Hashtab HashtabThms Symtab Avtab AvtabThms AvtabIO Cond CondRules Codec Symbols SymCodec SymbolsIO SymbolsThms SymbolsSound Trans Index IndexThms ExpandThms IndexAll Contexts ContextsValid ContextText CondIO CondIOThms CondSound Policydb PolicydbIO PolicydbSound Constraint ConstraintThms ConstraintEval Sidtab Services.

Open Scope Z_scope.

(** ** Rules *)

Section Rules.
Context (db : policydb) (tclass : Z).

(** A rule of a table for the attributes [i] and [j]. *)
Definition rule_for (tab : avtab) (i j : Z) (n : avtab_node) : Prop :=
  n ∈ nodes_of tab /\ source_type (key n) = u16 (i + 1) /\ target_type (key n) = u16 (j + 1) /\ target_class (key n) = tclass.

(** A rule of a kind that is in force: unconditional, or enabled. *)
Definition in_force (flag i j : Z) (n : avtab_node) : Prop :=
  (rule_for (db_te_avtab db) i j n /\ specified (key n) = flag) \/ (rule_for (ct_table (db_cond db)) i j n /\ enabled_with flag n = true).

(** What a step of the computation does: [A] are the permissions it grants,
    [B] those it audits when granted, [C] those it goes on auditing when
    denied. *)
Definition steps (f : sepol_av_decision -> option sepol_av_decision) (A B C : Z -> Prop) : Prop :=
  forall avd, exists avd', f avd = Some avd' /\ decided avd' = decided avd /\ seqno avd' = seqno avd /\
    forall p, 0 <= p ->
      (Z.testbit (allowed avd') p = true <-> Z.testbit (allowed avd) p = true \/ A p) /\
      (Z.testbit (auditallow avd') p = true <-> Z.testbit (auditallow avd) p = true \/ B p) /\
      (Z.testbit (auditdeny avd') p = true <-> Z.testbit (auditdeny avd) p = true /\ C p).

Lemma steps_ext f A B C A' B' C' :
  steps f A B C -> (forall p, A p <-> A' p) -> (forall p, B p <-> B' p) -> (forall p, C p <-> C' p) -> steps f A' B' C'.
Proof using.
  intros H HA HB HC avd. destruct (H avd) as (avd' & E & E1 & E2 & Hp). exists avd'. split_and!; [done..|]. intros p Hp0.
  specialize (Hp p Hp0). by rewrite <- HA, <- HB, <- HC.
Qed.

Lemma steps_seq f g A B C A' B' C' :
  steps f A B C -> steps g A' B' C' -> steps (fun avd => avd ← f avd; g avd) (fun p => A p \/ A' p) (fun p => B p \/ B' p) (fun p => C p /\ C' p).
Proof using.
  intros Hf Hg avd. destruct (Hf avd) as (avd1 & -> & E1 & E2 & H1). destruct (Hg avd1) as (avd2 & E & E3 & E4 & H2). cbn [mbind option_bind]. exists avd2.
  split_and!; [done|congruence|congruence|]. intros p Hp. destruct (H1 p Hp) as (a1 & a2 & a3), (H2 p Hp) as (b1 & b2 & b3). rewrite b1, b2, b3, a1, a2, a3. tauto.
Qed.

Lemma steps_fold {T} (f : T -> sepol_av_decision -> option sepol_av_decision) (A B C : T -> Z -> Prop) l :
  (forall x, x ∈ l -> steps (f x) (A x) (B x) (C x)) ->
  steps (ofold f l) (fun p => exists x, x ∈ l /\ A x p) (fun p => exists x, x ∈ l /\ B x p) (fun p => forall x, x ∈ l -> C x p).
Proof using.
  induction l as [|x l IH]; intros H.
  - intros avd. exists avd. cbn. split_and!; [done..|]. intros p _. split_and!; split; [tauto|intros [?|(x & Hx & _)]; [done|by apply not_elem_of_nil in Hx]|tauto|
      intros [?|(x & Hx & _)]; [done|by apply not_elem_of_nil in Hx]| |tauto]. intros ?. split; [done|]. intros x Hx. by apply not_elem_of_nil in Hx.
  - eapply steps_ext; [apply (steps_seq (f x) (ofold f l)); [apply H; left|apply IH; intros y Hy; apply H; by right]|..]; intros p; setoid_rewrite elem_of_cons; naive_solver.
Qed.

Lemma te_visit fuel node spec avd l : visit_nodes fuel node spec = Some l -> te_loop fuel node spec avd = Some (fold_left te_node l avd).
Proof using.
  revert node avd l. induction fuel as [|fuel IH]; intros [[n next]|] avd l H; cbn [visit_nodes te_loop] in *; try by simplify_eq.
  destruct (visit_nodes fuel _ spec) as [l'|] eqn:E; [|done]. simplify_eq. cbn [fold_left]. by apply IH.
Qed.

Lemma ofold_pure {T} (f : sepol_av_decision -> T -> sepol_av_decision) l avd : ofold (fun n avd => Some (f avd n)) l avd = Some (fold_left f l avd).
Proof using. revert avd. induction l as [|n l IH]; intros avd; [done|]. cbn. apply IH. Qed.

Lemma te_node_steps n :
  steps (fun avd => Some (te_node avd n)) (fun p => specified (key n) = AVTAB_ALLOWED /\ Z.testbit (data (datum n)) p = true)
    (fun p => specified (key n) = AVTAB_AUDITALLOW /\ Z.testbit (data (datum n)) p = true)
    (fun p => specified (key n) = AVTAB_AUDITDENY -> Z.testbit (data (datum n)) p = true).
Proof using.
  intros avd. eexists. split; [done|]. unfold te_node. destruct (Z.eqb_spec (specified (key n)) AVTAB_ALLOWED) as [E|].
  { rewrite E. split_and!; [done..|]. intros p Hp. cbn. rewrite Z.lor_spec, orb_true_iff. unfold AVTAB_ALLOWED, AVTAB_AUDITALLOW, AVTAB_AUDITDENY. intuition lia. }
  destruct (Z.eqb_spec (specified (key n)) AVTAB_AUDITALLOW) as [E|].
  { rewrite E. split_and!; [done..|]. intros p Hp. cbn. rewrite Z.lor_spec, orb_true_iff. unfold AVTAB_ALLOWED, AVTAB_AUDITALLOW, AVTAB_AUDITDENY. intuition lia. }
  destruct (Z.eqb_spec (specified (key n)) AVTAB_AUDITDENY) as [E|].
  { rewrite E. split_and!; [done..|]. intros p Hp. cbn. rewrite Z.land_spec, andb_true_iff. unfold AVTAB_ALLOWED, AVTAB_AUDITALLOW, AVTAB_AUDITDENY. intuition lia. }
  split_and!; [done..|]. intros p Hp. intuition.
Qed.

Lemma cond_node_steps n :
  steps (fun avd => Some (compute_node avd n)) (fun p => enabled_with AVTAB_ALLOWED n = true /\ Z.testbit (data (datum n)) p = true)
    (fun p => enabled_with AVTAB_AUDITALLOW n = true /\ Z.testbit (data (datum n)) p = true)
    (fun p => enabled_with AVTAB_AUDITDENY n = true -> Z.testbit (data (datum n)) p = true).
Proof using.
  intros avd. eexists. split; [done|]. unfold compute_node. destruct (enabled_with AVTAB_ALLOWED n), (enabled_with AVTAB_AUDITDENY n), (enabled_with AVTAB_AUDITALLOW n); cbn;
    (split_and!; [done..|]); intros p Hp; rewrite ?Z.lor_spec, ?Z.land_spec, ?orb_true_iff, ?andb_true_iff; intuition congruence.
Qed.

(** The nodes that match the key of a pair of attributes. *)
Lemma matching_rules tab i j n :
  n ∈ matching (mk_avtab_key (u16 (i + 1)) (u16 (j + 1)) tclass AVTAB_AV) (clear_enabled AVTAB_AV) (nodes_of tab) <->
    rule_for tab i j n /\ Z.land 7 (specified (key n)) <> 0.
Proof using.
  rewrite list_elem_of_filter. unfold rule_for, node_matches, same_types. cbn [source_type target_type target_class]. change (clear_enabled AVTAB_AV) with 7.
  unfold ctrue. rewrite !andb_true_iff, !Z.eqb_eq, negb_true_iff, Z.eqb_neq. intuition congruence.
Qed.

Lemma enabled_kind flag n : flag = AVTAB_ALLOWED \/ flag = AVTAB_AUDITALLOW \/ flag = AVTAB_AUDITDENY -> enabled_with flag n = true -> Z.land 7 (specified (key n)) <> 0.
Proof using.
  intros Hf He%Z.eqb_eq E. assert (Z.land flag (specified (key n)) = 0) as E0.
  { assert (Z.land flag 7 = flag) as <- by (by destruct Hf as [-> | [-> | ->]]). by rewrite <- Z.land_assoc, E, Z.land_0_r. }
  assert (Z.land flag (Z.lor flag AVTAB_ENABLED) = 0) as E1.
  { rewrite He. rewrite (Z.land_comm (specified _)), Z.land_assoc, (Z.land_comm flag), <- Z.land_assoc, E0. apply Z.land_0_r. }
  by destruct Hf as [-> | [-> | ->]].
Qed.

Lemma pair_steps i j :
  avtab_ok (db_te_avtab db) -> avtab_ok (ct_table (db_cond db)) ->
  steps (compute_pair db tclass i j) (fun p => exists n, in_force AVTAB_ALLOWED i j n /\ Z.testbit (data (datum n)) p = true)
    (fun p => exists n, in_force AVTAB_AUDITALLOW i j n /\ Z.testbit (data (datum n)) p = true)
    (fun p => forall n, in_force AVTAB_AUDITDENY i j n -> Z.testbit (data (datum n)) p = true).
Proof using.
  intros Hte Hct. set (k := mk_avtab_key (u16 (i + 1)) (u16 (j + 1)) tclass AVTAB_AV).
  assert (Hr : in_range 16 (specified k)) by (unfold k, in_range, AVTAB_AV; cbn; lia). pose proof (visit_all _ k Hte Hr) as V1. pose proof (visit_all _ k Hct Hr) as V2.
  eapply steps_ext; [apply (steps_seq (fun avd => te_loop (S (nodes_in (db_te_avtab db))) (avtab_search_node (db_te_avtab db) k) AVTAB_AV avd)
      (fun avd => cond_compute_av (S (nodes_in (ct_table (db_cond db)))) (ct_table (db_cond db)) k avd))|..].
  - intros avd. rewrite (te_visit _ _ _ _ _ V1), <- ofold_pure. apply steps_fold. intros n _. apply te_node_steps.
  - intros avd. unfold cond_compute_av. erewrite compute_visit by exact V2. rewrite <- ofold_pure. apply steps_fold. intros n _. apply cond_node_steps.
  - intros p. subst k. cbn beta. unfold in_force. setoid_rewrite matching_rules. split.
    + intros [(n & [Hn _] & Hs & Hb)|(n & [Hn _] & Hs & Hb)]; exists n; auto.
    + intros (n & [[Hn Hs]|[Hn Hs]] & Hb); [left|right]; exists n; (split_and!; [done| |done..]); [by rewrite Hs|by apply (enabled_kind AVTAB_ALLOWED); [left|]].
  - intros p. subst k. cbn beta. unfold in_force. setoid_rewrite matching_rules. split.
    + intros [(n & [Hn _] & Hs & Hb)|(n & [Hn _] & Hs & Hb)]; exists n; auto.
    + intros (n & [[Hn Hs]|[Hn Hs]] & Hb); [left|right]; exists n; (split_and!; [done| |done..]); [by rewrite Hs|by apply (enabled_kind AVTAB_AUDITALLOW); [right; left|]].
  - intros p. subst k. cbn beta. unfold in_force. setoid_rewrite matching_rules. split.
    + intros [H1 H2] n [[Hn Hs]|[Hn Hs]]; [apply H1|apply H2]; try done; (split; [done|]); [by rewrite Hs|by apply (enabled_kind AVTAB_AUDITDENY); [right; right|]].
    + intros H. split; intros n [Hn _] Hs; apply H; auto.
Qed.

(** A rule of a kind between the attributes of two types. *)
Definition rule_between (flag : Z) (s t : context_struct) (n : avtab_node) : Prop :=
  exists sattr tattr i j, db_type_attr_map db !! Z.to_nat (ctx_type s - 1) = Some sattr /\ db_type_attr_map db !! Z.to_nat (ctx_type t - 1) = Some tattr /\
    i ∈ ebitmap_set sattr /\ j ∈ ebitmap_set tattr /\ in_force flag i j n.

Lemma rules_steps s t :
  avtab_ok (db_te_avtab db) -> avtab_ok (ct_table (db_cond db)) -> Forall ebitmap_ok (db_type_attr_map db) ->
  0 < ctx_type s <= zlength (db_type_attr_map db) -> 0 < ctx_type t <= zlength (db_type_attr_map db) -> zlength (db_type_attr_map db) < 2 ^ 32 ->
  steps (compute_rules db tclass s t) (fun p => exists n, rule_between AVTAB_ALLOWED s t n /\ Z.testbit (data (datum n)) p = true)
    (fun p => exists n, rule_between AVTAB_AUDITALLOW s t n /\ Z.testbit (data (datum n)) p = true)
    (fun p => forall n, rule_between AVTAB_AUDITDENY s t n -> Z.testbit (data (datum n)) p = true).
Proof using.
  intros Hte Hct Hmap Hs Ht Hlen. unfold compute_rules. rewrite !before_value by lia. unfold zlength in Hs, Ht.
  destruct (lookup_lt_is_Some_2 (db_type_attr_map db) (Z.to_nat (ctx_type s - 1))) as [sattr Es]; [lia|].
  destruct (lookup_lt_is_Some_2 (db_type_attr_map db) (Z.to_nat (ctx_type t - 1))) as [tattr Et]; [lia|].
  rewrite Es, Et. cbn [mbind option_bind]. rewrite Forall_lookup in Hmap. rewrite !for_each_bits by eauto. cbn [mbind option_bind].
  assert (Hin : forall e b, b ∈ nodes_bits (node e) <-> b ∈ ebitmap_set e) by (intros; unfold ebitmap_set; by rewrite elem_of_list_to_set).
  assert (Hrb : forall flag n, rule_between flag s t n <-> exists i, i ∈ nodes_bits (node sattr) /\ exists j, j ∈ nodes_bits (node tattr) /\ in_force flag i j n).
  { intros flag n. setoid_rewrite Hin. unfold rule_between. rewrite Es, Et. split; [intros (? & ? & i & j & [= <-] & [= <-] & ?); naive_solver|naive_solver]. }
  eapply steps_ext; [apply steps_fold; intros i _; apply steps_fold; intros j _; by apply pair_steps|..]; intros p; cbn beta; setoid_rewrite Hrb; naive_solver.
Qed.
End Rules.

(** ** Policies that can be asked *)

(** Operators and attributes that exist, and names in range. *)
Definition leaf_checked (db : policydb) (validatetrans : bool) (e : constraint_expr) : bool :=
  if ce_type e =? CEXPR_ATTR then
    if (ce_attr e =? CEXPR_USER) || (ce_attr e =? CEXPR_TYPE) then (ce_op e =? CEXPR_EQ) || (ce_op e =? CEXPR_NEQ)
    else ((ce_attr e =? CEXPR_ROLE) || existsb (Z.eqb (ce_attr e)) [CEXPR_L1L2; CEXPR_L1H2; CEXPR_H1L2; CEXPR_H1H2; CEXPR_L1H1; CEXPR_L2H2]) &&
         (CEXPR_EQ <=? ce_op e) && (ce_op e <=? CEXPR_INCOMP)
  else if ce_type e =? CEXPR_NAMES then
    match named_attribute (ce_attr e) with
    | Some (type, _) => forallb (fun i => (0 <=? i) && (i <? zlength (value_names db type))) (entries (listed db e type))
    | None => false
    end && ((ce_op e =? CEXPR_EQ) || (ce_op e =? CEXPR_NEQ)) &&
    (validatetrans || ctrue (Z.land (ce_attr e) CEXPR_TARGET) || negb (ctrue (Z.land (ce_attr e) CEXPR_XTARGET)))
  else true.

Definition constraint_checked (db : policydb) (validatetrans : bool) (c : constraint_node) : Prop :=
  Forall (fun e => leaf_checked db validatetrans e = true) (con_expr c).

(** What the decisions rely on. *)
Record policy_ready (db : policydb) : Prop := mk_policy_ready {
  py_te : avtab_ok (db_te_avtab db);
  py_cond : avtab_ok (ct_table (db_cond db));
  py_map : Forall ebitmap_ok (db_type_attr_map db) /\ zlength (db_type_attr_map db) = st_nprim (p_types (db_symbols db));
  py_types : st_nprim (p_types (db_symbols db)) < 2 ^ 32 /\
    forall v, 0 < v <= st_nprim (p_types (db_symbols db)) -> exists d, type_struct db v = Some d /\ 0 <= type_bounds d <= st_nprim (p_types (db_symbols db));
  py_roles : st_nprim (p_roles (db_symbols db)) < 2 ^ 32 /\
    (forall v, 0 < v <= st_nprim (p_roles (db_symbols db)) -> is_Some (role_of db v)) /\
    (forall k d, Some (k, d) ∈ (ix_roles (db_indexes db)).2 -> ebitmap_ok (role_dominates d));
  py_classes : forall v, 0 < v <= st_nprim (p_classes (db_symbols db)) ->
    exists k d name, class_val_to_struct (db_class_indexes db) !! Z.to_nat (v - 1) = Some (Some (k, d)) /\
      p_class_val_to_name (db_class_indexes db) !! Z.to_nat (v - 1) = Some name /\ st_nprim (cla_permissions d) <= 32 /\
      Forall (fun c => cons_node_sound false c /\ constraint_checked db false c) (cla_constraints d) /\
      Forall (fun c => cons_node_sound true c /\ constraint_checked db true c) (cla_validatetrans d) }.

(** A context whose values are those of symbols. *)
Definition subject (db : policydb) (c : context_struct) : Prop :=
  0 < ctx_user c < 2 ^ 32 /\ 0 < ctx_role c <= st_nprim (p_roles (db_symbols db)) /\ 0 < ctx_type c <= st_nprim (p_types (db_symbols db)) /\
  level_ok (level0 (ctx_range c)) /\ level_ok (level1 (ctx_range c)).

Section Ready.
Context (db : policydb) (Hdb : policy_ready db).

Lemma subject_known c : subject db c -> known_context c.
Proof using Hdb. intros (H1 & H2 & H3 & H4 & H5). destruct Hdb. unfold known_context. split_and!; try done; lia. Qed.

(** The leaves of such constraints have a meaning for such contexts. *)
Lemma checked_ready vt e s t x :
  cons_expr_sound vt e -> leaf_checked db vt e = true -> subject db s -> subject db t -> (vt = true -> is_Some x) -> element_ready db s t x e.
Proof using Hdb.
  intros (Hn & _ & _ & Hxt) Hc Hs Ht Hx Hty. unfold leaf_checked in Hc. destruct Hs as (_ & Hs2 & _), Ht as (_ & Ht2 & _). destruct (py_roles db Hdb) as (_ & Hr & _).
  destruct (Z.eqb_spec (ce_type e) CEXPR_ATTR) as [Ety|Hne].
  - split; [by left|]. unfold leaf_value. rewrite Ety. change (CEXPR_ATTR =? CEXPR_ATTR) with true. cbn iota.
    destruct (ce_attr e =? CEXPR_USER); cbn [orb] in Hc. { unfold compare_values. destruct (ce_op e =? CEXPR_EQ); [by eexists|]. cbn [orb] in Hc. rewrite Hc. by eexists. }
    destruct (ce_attr e =? CEXPR_TYPE); cbn [orb] in Hc. { unfold compare_values. destruct (ce_op e =? CEXPR_EQ); [by eexists|]. cbn [orb] in Hc. rewrite Hc. by eexists. }
    apply andb_prop in Hc as [[Ha Ho1]%andb_prop Ho2]. unfold CEXPR_EQ, CEXPR_INCOMP in *.
    assert (Hop : ce_op e = 1 \/ ce_op e = 2 \/ ce_op e = 3 \/ ce_op e = 4 \/ ce_op e = 5) by lia.
    destruct (ce_attr e =? CEXPR_ROLE).
    + destruct (Hr _ Hs2) as [r1 ->], (Hr _ Ht2) as [r2 ->]. cbn [mbind option_bind]. by destruct Hop as [-> | [-> | [-> | [-> | ->]]]]; eexists.
    + cbn [orb existsb] in Ha. unfold compared_levels. repeat match goal with |- context [ce_attr e =? ?a] => destruct (ce_attr e =? a) end; try done; cbn [mbind option_bind];
        by destruct Hop as [-> | [-> | [-> | [-> | ->]]]]; eexists.
  - destruct Hty as [?|Ety]; [done|]. rewrite Ety in Hc. change (CEXPR_NAMES =? CEXPR_NAMES) with true in Hc. cbn iota in Hc.
    apply andb_prop in Hc as [[Ha Ho]%andb_prop Hxx]. destruct (named_attribute (ce_attr e)) as [[type val]|] eqn:En; [|done]. split.
    + right. split_and!; [done..|]. intros type' val' E. rewrite En in E. simplify_eq. rewrite forallb_forall in Ha. apply Forall_forall. intros i Hi%list_elem_of_In%Ha. lia.
    + unfold leaf_value. rewrite Ety. change (CEXPR_NAMES =? CEXPR_ATTR) with false. cbn iota.
      assert (is_Some (named_context (ce_attr e) s t x)) as [c ->].
      { unfold named_context. destruct (ctrue (Z.land (ce_attr e) CEXPR_TARGET)) eqn:Et; [by eexists|]. destruct (ctrue (Z.land (ce_attr e) CEXPR_XTARGET)); [|by eexists].
        destruct vt; [by apply Hx|done]. }
      rewrite En. cbn [mbind option_bind]. destruct (ce_op e =? CEXPR_EQ); [by eexists|]. cbn [orb] in Ho. rewrite Ho. by eexists.
Qed.

(** ** The meaning of a policy *)

Definition bounds_of (v : Z) : Z := match type_struct db v with Some d => type_bounds d | None => 0 end.

(** The target whose type is bounded too. *)
Definition bounded_target (t : context_struct) : context_struct :=
  if ctrue (bounds_of (ctx_type t)) then with_type t (bounds_of (ctx_type t)) else t.

(** A rule of the policy allows the role [old] to become [new]. *)
Definition role_change (old new : Z) : Prop := exists ra, ra ∈ db_role_allow db /\ ra_role ra = old /\ ra_new_role ra = new.

Lemma role_allowed_iff s t : role_allowed db s t = true <-> role_change (ctx_role s) (ctx_role t).
Proof using.
  unfold role_allowed, role_change. rewrite existsb_exists. setoid_rewrite list_elem_of_In. setoid_rewrite andb_true_iff. setoid_rewrite Z.eqb_eq. naive_solver.
Qed.

(** The permission [p] of a class is granted to [s] on [t]: a rule allows it,
    the constraints of the class on it hold, a process changes its role only as
    a rule says, and if the type of [s] is bounded the permission is granted to
    the type that bounds it. *)
Inductive permitted (tclass : Z) (cla : class_datum) : context_struct -> context_struct -> Z -> Prop :=
| permitted_intro s t p :
    (exists n, rule_between db tclass AVTAB_ALLOWED s t n /\ Z.testbit (data (datum n)) p = true) ->
    (forall c, c ∈ cla_constraints cla -> Z.testbit (con_permissions c) p = true -> constraint_value db c s t None = Some true) ->
    (tclass = db_process_class db -> Z.testbit (db_process_trans_dyntrans db) p = true -> ctx_role s <> ctx_role t -> role_change (ctx_role s) (ctx_role t)) ->
    (bounds_of (ctx_type s) <> 0 -> permitted tclass cla (with_type s (bounds_of (ctx_type s))) (bounded_target t) p) ->
    permitted tclass cla s t p.

(** The chain of bounds from a type has [n] more types. *)
Inductive bound_chain : Z -> nat -> Prop :=
| chain_end v : bounds_of v = 0 -> bound_chain v 0
| chain_next v n : bounds_of v <> 0 -> bound_chain (bounds_of v) n -> bound_chain v (S n).

Lemma chain_unique v n m : bound_chain v n -> bound_chain v m -> n = m.
Proof using.
  intros H. revert m. induction H as [v E|v n Hne H IH]; intros m H'; inversion H' as [? E'|? m' Hne' H'']; subst; try done. f_equal. by apply IH.
Qed.

Lemma bounds_in_range v : 0 < v <= st_nprim (p_types (db_symbols db)) -> bounds_of v <> 0 -> 0 < bounds_of v <= st_nprim (p_types (db_symbols db)).
Proof using Hdb. intros Hv Hb. destruct (py_types db Hdb) as [_ H]. destruct (H v Hv) as (d & E & Hd). unfold bounds_of in *. rewrite E in *. lia. Qed.

(** A chain goes through every type at most once. *)
Lemma chain_short v n : 0 < v <= st_nprim (p_types (db_symbols db)) -> bound_chain v n -> (n < Z.to_nat (st_nprim (p_types (db_symbols db))))%nat.
Proof using Hdb.
  intros Hv Hc. assert (exists l, NoDup l /\ length l = S n /\ forall w, w ∈ l -> 0 < w <= st_nprim (p_types (db_symbols db)) /\ exists m, bound_chain w m /\ (m <= n)%nat) as (l & Hnd & Hl & Hin).
  { induction Hc as [v E|v n Hne Hc IH].
    - exists [v]. split_and!; [apply NoDup_singleton|done|]. intros w ->%list_elem_of_singleton. split; [done|]. exists 0%nat. split; [by constructor|done].
    - destruct (IH (bounds_in_range v Hv Hne)) as (l & Hnd & Hl & Hin). exists (v :: l). split_and!; [|by cbn; rewrite Hl|].
      + constructor; [|done]. intros Hvl. destruct (Hin v Hvl) as [_ (m & Hm & Hle)]. pose proof (chain_unique v m (S n) Hm ltac:(by constructor)). lia.
      + intros w [->|Hw]%elem_of_cons; [split; [done|]; exists (S n); split; [by constructor|done]|]. destruct (Hin w Hw) as [? (m & ? & ?)]. split; [done|]. exists m. split; [done|lia]. }
  assert (Hsub : l ⊆ seqZ 1 (st_nprim (p_types (db_symbols db)))). { intros w Hw. apply elem_of_seqZ. destruct (Hin w Hw) as [? _]. lia. }
  apply submseteq_length in Hsub || (apply NoDup_submseteq in Hsub; [|done]; apply submseteq_length in Hsub). rewrite length_seqZ in Hsub. lia.
Qed.

(** ** The decision *)

Section Class.
Context (tclass : Z) (k : cstring) (cla : class_datum) (name : option cstring).
Context (Hclass : class_val_to_struct (db_class_indexes db) !! Z.to_nat (tclass - 1) = Some (Some (k, cla))).
Context (Hname : p_class_val_to_name (db_class_indexes db) !! Z.to_nat (tclass - 1) = Some name).
Context (Hperms : st_nprim (cla_permissions cla) <= 32).

Definition buffer_ok (ev : eval_state) : Prop := forall b, ev_reason ev = Some b -> tb_ok b.

Lemma eval_checked g vt s t x c flags ev :
  cons_node_sound vt c -> constraint_checked db vt c -> subject db s -> subject db t -> (vt = true -> is_Some x) -> (forall y, x = Some y -> subject db y) -> buffer_ok ev ->
  exists v, constraint_value db c s t x = Some v /\
    xmay g (constraint_expr_eval_reason db s t x tclass c flags ev)
      (fun r => (r.1 = Z.b2z v \/ r.1 = - ENOMEM) /\ buffer_ok r.2)
      (fun r => r.1 = Z.b2z v /\ ts_stack (ev_stack r.2) = ts_stack (ev_stack ev) /\
         ((forall b, ev_reason ev = Some b -> tb_tail b = []) -> reasons_after ev (reason_text db s t x cla name flags c) r.2)).
Proof using Hdb Hclass Hname Hperms.
  intros [Hes Hd] Hc Hs Ht Hx Hxs Hev.
  assert (Hr : Forall (element_ready db s t x) (con_expr c)).
  { apply Forall_forall. intros e He. rewrite Forall_forall in Hes. unfold constraint_checked in Hc. rewrite Forall_forall in Hc. eapply checked_ready; eauto. }
  destruct (constraint_has_value db s t x c Hd Hr) as (a & v & _ & _ & _ & Hv). exists v. split; [done|].
  destruct (py_roles db Hdb) as (_ & _ & Hroles). eapply eval_reason_may; try done; [by apply subject_known..|]. intros y Hy. by apply subject_known, Hxs.
Qed.

Definition untouched (avd avd' : sepol_av_decision) : Prop :=
  decided avd' = decided avd /\ auditallow avd' = auditallow avd /\ auditdeny avd' = auditdeny avd /\ seqno avd' = seqno avd.

Lemma constrain_ok g s t flags cs avd ev :
  Forall (fun c => cons_node_sound false c /\ constraint_checked db false c) cs -> subject db s -> subject db t -> buffer_ok ev ->
  xmay g (constrain db s t tclass flags cs (avd, ev))
    (fun r => untouched avd r.1 /\ buffer_ok r.2 /\ forall p, 0 <= p -> Z.testbit (allowed avd) p = true ->
       (forall c, c ∈ cs -> Z.testbit (con_permissions c) p = true -> constraint_value db c s t None = Some true) -> Z.testbit (allowed r.1) p = true)
    (fun r => ts_stack (ev_stack r.2) = ts_stack (ev_stack ev) /\ forall p, 0 <= p ->
       (Z.testbit (allowed r.1) p = true <-> Z.testbit (allowed avd) p = true /\
          forall c, c ∈ cs -> Z.testbit (con_permissions c) p = true -> constraint_value db c s t None = Some true)).
Proof using Hdb Hclass Hname Hperms.
  intros Hcs Hs Ht. revert g avd ev. induction Hcs as [|c cs [Hc1 Hc2] Hcs IH]; intros g avd ev Hev; cbn [constrain].
  - apply xmay_ret; [by split_and!|]. intros _. split; [done|]. intros p _. split; [|by intros []]. intros Hp. split; [done|]. intros c Hc. by apply not_elem_of_nil in Hc.
  - destruct (eval_checked g false s t None c flags ev Hc1 Hc2 Hs Ht) as (v & Hv & He); [done|done|done|].
    destruct (ctrue (Z.land (con_permissions c) (allowed avd))) eqn:Ect.
    + eapply xmay_bind; [exact He|]. intros [rc ev1] g1 [Hrc Hb] G1. cbn [fst snd] in *. eapply xmay_mono; [by apply IH|..].
      * intros [avd' ev'] (H1 & H2 & H3). cbn [fst snd] in *. split_and!; [|done|].
        { destruct (negb (ctrue rc)); exact H1. }
        intros p Hp Ha Hall. apply H3; [done| |intros c' Hc'; apply Hall; by right].
        destruct (ctrue rc) eqn:Erc; cbn [negb]; [done|]. cbn [set_allowed allowed]. rewrite Z.ldiff_spec, Ha. cbn. apply negb_true_iff, not_true_is_false. intros Hpc.
        specialize (Hall c ltac:(by left) Hpc). rewrite Hv in Hall. simplify_eq. by destruct Hrc as [-> | ->].
      * intros [avd' ev'] G _ (E & H). destruct (G1 G) as [_ (-> & E1 & _)]. cbn [fst snd] in *. split; [congruence|]. intros p Hp. rewrite (H p Hp).
        setoid_rewrite elem_of_cons. rewrite b2z_ctrue. destruct v; cbn [negb].
        -- naive_solver.
        -- cbn [set_allowed allowed]. rewrite Z.ldiff_spec, andb_true_iff, negb_true_iff. split.
           ++ intros [[Ha Hn] Hall]. split; [done|]. intros c' [->|Hc'] Hp'; [congruence|auto].
           ++ intros [Ha Hall]. split; [|auto]. split; [done|]. apply not_true_is_false. intros Hpc. specialize (Hall c (or_introl eq_refl) Hpc). congruence.
    + eapply xmay_mono; [by apply IH|..].
      * intros [avd' ev'] (H1 & H2 & H3). split_and!; [done..|]. intros p Hp Ha Hall. apply H3; [done..|]. intros c' Hc'. apply Hall. by right.
      * intros [avd' ev'] _ _ (E & H). split; [done|]. intros p Hp. rewrite (H p Hp). setoid_rewrite elem_of_cons. split; [|naive_solver]. intros [Ha Hall]. split; [done|].
        intros c' [->|Hc'] Hp'; [|auto]. exfalso. apply ctrue_false in Ect. assert (Hbit : Z.testbit (Z.land (con_permissions c) (allowed avd)) p = true) by (by rewrite Z.land_spec, Hp', Ha).
        rewrite Ect, Z.bits_0 in Hbit. done.
Qed.

Lemma land_bit a b p : Z.testbit a p = true -> Z.testbit b p = true -> ctrue (Z.land a b) = true.
Proof using.
  intros Ha Hb. apply not_false_is_true. intros E%ctrue_false. assert (H : Z.testbit (Z.land a b) p = true) by (by rewrite Z.land_spec, Ha, Hb).
  by rewrite E, Z.bits_0 in H.
Qed.

Lemma restrict_ok s t avd p :
  0 <= p ->
  (Z.testbit (allowed (restrict_roles db s t tclass avd)) p = true <-> Z.testbit (allowed avd) p = true /\
     (tclass = db_process_class db -> Z.testbit (db_process_trans_dyntrans db) p = true -> ctx_role s <> ctx_role t -> role_change (ctx_role s) (ctx_role t))).
Proof using.
  intros Hp. unfold restrict_roles. destruct (Z.eqb_spec tclass (db_process_class db)) as [Ep|Ep]; cbn [andb]; [|tauto].
  destruct (Z.eqb_spec (ctx_role s) (ctx_role t)) as [Er|Er]; cbn [andb negb]; [rewrite andb_false_r; cbn; tauto|]. rewrite andb_true_r.
  rewrite <- role_allowed_iff. destruct (role_allowed db s t); cbn [negb]; [rewrite andb_false_r; tauto|]. rewrite andb_true_r.
  destruct (ctrue (Z.land (allowed avd) (db_process_trans_dyntrans db))) eqn:E.
  - cbn [set_allowed allowed]. rewrite Z.ldiff_spec, andb_true_iff, negb_true_iff. split; [intros [Ha Hd]; split; [done|]; congruence|].
    intros [Ha Hall]. split; [done|]. apply not_true_is_false. intros Hd. by specialize (Hall Ep Hd Er).
  - split; [|tauto]. intros Ha. split; [done|]. intros _ Hd _. by rewrite (land_bit _ _ p Ha Hd) in E.
Qed.

Lemma restrict_untouched s t avd : untouched avd (restrict_roles db s t tclass avd).
Proof using. unfold restrict_roles. by case_match. Qed.

Lemma subject_bounded s : subject db s -> bounds_of (ctx_type s) <> 0 -> subject db (with_type s (bounds_of (ctx_type s))).
Proof using Hdb. intros (H1 & H2 & H3 & H4 & H5) Hb. pose proof (bounds_in_range _ H3 Hb). unfold subject. cbn [ctx_user ctx_role ctx_type ctx_range with_type]. tauto. Qed.

Lemma subject_target t : subject db t -> subject db (bounded_target t).
Proof using Hdb. intros H. unfold bounded_target, ctrue. destruct (Z.eqb_spec (bounds_of (ctx_type t)) 0); cbn [negb]; [done|by apply subject_bounded]. Qed.

Lemma subject_entry c : subject db c -> exists d, type_struct db (ctx_type c) = Some d /\ type_bounds d = bounds_of (ctx_type c).
Proof using Hdb. intros (_ & _ & H3 & _). destruct (py_types db Hdb) as [_ H]. destruct (H _ H3) as (d & E & _). exists d. unfold bounds_of. by rewrite E. Qed.

(** What is audited. *)
Definition audited (s t : context_struct) (avd : sepol_av_decision) : Prop :=
  decided avd = 2 ^ 32 - 1 /\ seqno avd = latest_granting /\
  forall p, 0 <= p ->
    (Z.testbit (auditallow avd) p = true <-> exists n, rule_between db tclass AVTAB_AUDITALLOW s t n /\ Z.testbit (data (datum n)) p = true) /\
    (Z.testbit (auditdeny avd) p = true <-> p < 32 /\ forall n, rule_between db tclass AVTAB_AUDITDENY s t n -> Z.testbit (data (datum n)) p = true).

Lemma audited_untouched s t avd avd' : untouched avd avd' -> audited s t avd -> audited s t avd'.
Proof using. intros (E1 & E2 & E3 & E4) (H1 & H2 & H3). unfold audited. by rewrite E1, E2, E3, E4. Qed.

Definition decision_ok (s t : context_struct) (r : Z * sepol_av_decision * option Z * eval_state) : Prop :=
  r.1.1.1 = 0 /\ buffer_ok r.2 /\ audited s t r.1.1.2 /\ forall p, 0 <= p -> permitted tclass cla s t p -> Z.testbit (allowed r.1.1.2) p = true.
Definition decision_exact (s t : context_struct) (ev : eval_state) (r : Z * sepol_av_decision * option Z * eval_state) : Prop :=
  ts_stack (ev_stack r.2) = ts_stack (ev_stack ev) /\ forall p, 0 <= p -> (Z.testbit (allowed r.1.1.2) p = true <-> permitted tclass cla s t p).

Context (Htclass : 0 < tclass <= st_nprim (p_classes (db_symbols db))).
Context (Hcons : Forall (fun c => cons_node_sound false c /\ constraint_checked db false c) (cla_constraints cla)).

Lemma permitted_iff s t p :
  permitted tclass cla s t p <->
    ((exists n, rule_between db tclass AVTAB_ALLOWED s t n /\ Z.testbit (data (datum n)) p = true) /\
     (forall c, c ∈ cla_constraints cla -> Z.testbit (con_permissions c) p = true -> constraint_value db c s t None = Some true)) /\
    (tclass = db_process_class db -> Z.testbit (db_process_trans_dyntrans db) p = true -> ctx_role s <> ctx_role t -> role_change (ctx_role s) (ctx_role t)) /\
    (bounds_of (ctx_type s) <> 0 -> permitted tclass cla (with_type s (bounds_of (ctx_type s))) (bounded_target t) p).
Proof using. clear Htclass Hcons. split; [intros H; inversion_clear H; tauto|]. intros [[H1 H2] [H3 H4]]. by constructor. Qed.

Lemma compute_av_ok n fuel g s t requested flags avd reason ev :
  bound_chain (ctx_type s) n -> (n < fuel)%nat -> subject db s -> subject db t -> buffer_ok ev ->
  xmay g (context_struct_compute_av db fuel s t tclass requested flags avd reason ev) (decision_ok s t) (decision_exact s t ev).
Proof using Hdb Hclass Hname Hperms Htclass Hcons.
  intros Hch. revert fuel g s Hch t requested flags avd reason ev. induction n as [|n IH]; intros [|fuel] g s Hch t requested flags avd reason ev Hfuel Hs Ht Hev; try lia; cbn [context_struct_compute_av].
  all: replace (negb (ctrue tclass) || (st_nprim (p_classes (db_symbols db)) <? tclass)) with false by (unfold ctrue; lia).
  all: destruct (py_map db Hdb) as [Hmap Hlen]; destruct (py_types db Hdb) as [Hn32 _].
  all: destruct (rules_steps db tclass s t (py_te db Hdb) (py_cond db Hdb) Hmap) with (avd := mk_av_decision 0 (2 ^ 32 - 1) 0 (2 ^ 32 - 1) latest_granting) as (avd1 & Er & Ed & Eq & Hbits);
    [destruct Hs as (_ & _ & ? & _); lia|destruct Ht as (_ & _ & ? & _); lia|lia|].
  all: assert (Haud : audited s t avd1) by (split_and!; [done..|]; intros p Hp; destruct (Hbits p Hp) as (_ & HB & HC); rewrite HB, HC; cbn [auditallow auditdeny];
    rewrite Z.bits_0; change (2 ^ 32 - 1) with (Z.ones 32); rewrite Z.testbit_ones_nonneg by lia; rewrite Z.ltb_lt; intuition congruence).
  all: assert (Hrule : forall p, 0 <= p -> (Z.testbit (allowed avd1) p = true <-> exists n, rule_between db tclass AVTAB_ALLOWED s t n /\ Z.testbit (data (datum n)) p = true))
    by (intros p Hp; destruct (Hbits p Hp) as (HA & _); rewrite HA; cbn [allowed]; rewrite Z.bits_0; intuition congruence).
  all: eapply xmay_some; [exact Er|]; rewrite Hclass; eapply xmay_bind; [by apply constrain_ok|]; intros [avd2 ev2] g1 (U2 & Hev2 & HP2) G1; cbn [fst snd] in *.
  all: pose proof (restrict_untouched s t avd2) as U3; set (avd3 := restrict_roles db s t tclass avd2) in *.
  all: assert (Haud3 : audited s t avd3) by (by eapply audited_untouched, audited_untouched).
  all: destruct (subject_entry s Hs) as (ds & Es & Eb); unfold type_attribute_bounds_av.
  - inversion Hch as [? Hb|]; subst. eapply (xmay_bind _ _ _ (fun r => r.1.1 = avd3 /\ r.2 = ev2) (fun _ => True)); [eapply xmay_some; [exact Es|]; rewrite Eb, Hb; by apply xmay_ret|].
    intros [[avd4 rs] ev4] g2 [E4 E5] G2. cbn [fst snd] in *. subst avd4 ev4. apply xmay_ret.
    + split_and!; [done..|]. cbn. intros p Hp [[H1 H2] [H3 _]]%permitted_iff. unfold avd3. rewrite restrict_ok by done. split; [|done]. apply HP2; [done|by apply Hrule|done].
    + intros G. destruct (G2 G) as [G' _]. destruct (G1 G') as [_ [Estk HQ]]. split; [done|]. cbn. intros p Hp. unfold avd3. rewrite restrict_ok, HQ, Hrule by done. rewrite permitted_iff, Hb. tauto.
  - inversion Hch as [|? ? Hb Hch']; subst. destruct (subject_entry t Ht) as (dt & Et & Ebt).
    set (t' := bounded_target t). set (s' := with_type s (bounds_of (ctx_type s))).
    eapply (xmay_bind _ _ _ (fun r => r.2 = mk_eval_state (ev_stack r.2) (ev_reason ev2) /\ untouched avd3 r.1.1 /\ forall p, 0 <= p -> Z.testbit (allowed avd3) p = true -> permitted tclass cla s' t' p -> Z.testbit (allowed r.1.1) p = true)
      (fun r => ts_stack (ev_stack r.2) = ts_stack (ev_stack ev2) /\ forall p, 0 <= p -> (Z.testbit (allowed r.1.1) p = true <-> Z.testbit (allowed avd3) p = true /\ permitted tclass cla s' t' p))).
    + eapply xmay_some; [exact Es|]. rewrite Eb. replace (ctrue (bounds_of (ctx_type s))) with true by (unfold ctrue; lia). cbn [negb]. eapply xmay_some; [exact Et|]. rewrite Ebt. fold (bounded_target t).
      eapply xmay_bind; [apply (IH fuel _ s'); [done|lia|by apply subject_bounded|by apply subject_target|done]|].
      intros [[[rc lo] rs] ev3] g2 (Hrc & _ & _ & Hlo) G2. cbn [fst snd] in *. cbv zeta.
      assert (Hmask : forall p, 0 <= p -> Z.testbit (Z.ldiff (allowed avd3) (Z.ldiff (allowed avd3) (allowed lo))) p = Z.testbit (allowed avd3) p && Z.testbit (allowed lo) p).
      { intros p Hp. rewrite !Z.ldiff_spec. by destruct (Z.testbit (allowed avd3) p), (Z.testbit (allowed lo) p). }
      destruct (ctrue (Z.ldiff (allowed avd3) (allowed lo))) eqn:Em; cbn [negb]; (apply xmay_ret; [split_and!; [done..|]|]); cbn [fst snd set_allowed allowed ev_stack].
      * intros p Hp Ha Hper. rewrite Hmask, Ha by done. by apply Hlo.
      * intros G. destruct (G2 G) as [_ [Estk Hex]]. cbn in Estk. split; [done|]. intros p Hp. rewrite Hmask, andb_true_iff, (Hex p Hp) by done. done.
      * done.
      * intros G. destruct (G2 G) as [_ [Estk Hex]]. cbn in Estk. split; [done|]. intros p Hp. pose proof (Hex p Hp) as Hx. cbn [fst snd] in Hx. change (bounded_target t) with t' in Hx. rewrite <- Hx. split; [|tauto]. intros Ha. split; [done|].
        apply ctrue_false in Em. assert (Hz : Z.testbit (Z.ldiff (allowed avd3) (allowed lo)) p = false) by (by rewrite Em, Z.bits_0). rewrite Z.ldiff_spec, Ha in Hz. cbn in Hz. by apply negb_false_iff in Hz.
    + intros [[avd4 rs] ev4] g2 (Hev4 & U4 & HP4) G2. cbn [fst snd] in *. apply xmay_ret.
      * split_and!; [done|rewrite Hev4; exact Hev2|by eapply audited_untouched|]. cbn. intros p Hp [[H1 H2] [H3 H4]]%permitted_iff. apply HP4; [done| |by apply H4].
        unfold avd3. rewrite restrict_ok by done. split; [|done]. apply HP2; [done|by apply Hrule|done].
      * intros G. destruct (G2 G) as [G' [E4 HQ4]]. destruct (G1 G') as [_ [Estk HQ]]. split; [cbn; congruence|]. cbn. intros p Hp. rewrite HQ4 by done. unfold avd3. rewrite restrict_ok, HQ, Hrule by done.
        rewrite (permitted_iff s t). fold s' t'. tauto.
Qed.
End Class.
End Ready.

(** ** Accepted policies *)

(** What the decisions need beyond what [policydb_read] checks: every value
    has its type, role and class, bounds are types, and constraints are about
    attributes and names that exist.  That the chains of bounds end is not part
    of it: the theorems on decisions ask for it with [bound_chain]. *)
Definition policy_checked (db : policydb) : bool :=
  let s := db_symbols db in
  forallb (fun v => match type_struct db v with Some d => (0 <=? type_bounds d) && (type_bounds d <=? st_nprim (p_types s)) | None => false end) (seqZ 1 (st_nprim (p_types s))) &&
  forallb (fun v => match role_of db v with Some _ => true | None => false end) (seqZ 1 (st_nprim (p_roles s))) &&
  forallb (fun v => match class_val_to_struct (db_class_indexes db) !! Z.to_nat (v - 1) with
                    | Some (Some (_, d)) =>
                        forallb (fun c => forallb (leaf_checked db false) (con_expr c)) (cla_constraints d) &&
                        forallb (fun c => forallb (leaf_checked db true) (con_expr c)) (cla_validatetrans d)
                    | _ => false
                    end) (seqZ 1 (st_nprim (p_classes s))).

(** A policy the decisions can work with: read, in a format since version 20,
    and checked.  Chains of bounds may still go round (see [bound_chain]). *)
Definition policy_usable (db : policydb) : Prop :=
  db_sound db /\ POLICYDB_VERSION_AVTAB <= h_vers (db_header db) /\ zlength (ct_heap (db_cond db)) < 2 ^ 32 /\ policy_checked db = true.

Lemma forallb_values f n : forallb f (seqZ 1 n) = true -> forall v, 0 < v <= n -> f v = true.
Proof. rewrite forallb_forall. intros H v Hv. apply H, list_elem_of_In, elem_of_seqZ. lia. Qed.

Lemma checked_constraints db vt cs :
  forallb (fun c => forallb (leaf_checked db vt) (con_expr c)) cs = true -> Forall (cons_node_sound vt) cs -> Forall (fun c => cons_node_sound vt c /\ constraint_checked db vt c) cs.
Proof.
  rewrite forallb_forall. intros H Hs. rewrite Forall_forall in Hs |- *. intros c Hc. split; [by apply Hs|]. apply Forall_forall. intros e He.
  apply list_elem_of_In, H in Hc. rewrite forallb_forall in Hc. by apply Hc, list_elem_of_In.
Qed.

Lemma usable_ready db : policy_usable db -> policy_ready db.
Proof.
  intros (Hd & Hv & Hh & Hc). destruct Hd as [_ _ Hsym [[_ Hci] (Hri & Hti & _)] _ [Hte Hco] _ _ _ _ [[Hml Hmap] _]]. pose proof Hsym as (_ & Hcl & [Nr Hr] & [Nt Ht] & _).
  apply andb_prop in Hc as [[Hc1 Hc2]%andb_prop Hc3]. constructor.
  - by apply Hte.
  - destruct (Hco Hv) as (cs & _ & Eh & _ & Htab). cbn [fst snd] in *. apply Htab. rewrite Eh in Hh. unfold marked, zlength in *. by rewrite length_map in Hh.
  - split; [|done]. apply Forall_lookup. intros i e He. by apply (Hmap i e).
  - split; [unfold in_range in Nt; lia|]. intros v Hv'. pose proof (forallb_values _ _ Hc1 v Hv') as H. cbn in H. destruct (type_struct db v) as [d|]; [|done]. exists d. split; [done|lia].
  - split_and!; [unfold in_range in Nr; lia| |].
    + intros v Hv'. pose proof (forallb_values _ _ Hc2 v Hv') as H. cbn in H. by destruct (role_of db v).
    + intros k d Hkd%list_elem_of_lookup_1. destruct Hkd as [i Hi]. destruct Hri as (_ & Hl2 & Hinv & _). pose proof (lookup_lt_Some _ _ _ Hi) as Hlt. unfold in_range in Nr.
      destruct (proj1 (Hinv (Z.of_nat i + 1) k d ltac:(lia))) as [Hk _]; [by replace (Z.to_nat (Z.of_nat i + 1 - 1)) with i by lia|].
      apply table_abs_sound in Hr. by apply (Hr k d).
  - intros v Hv'. pose proof (forallb_values _ _ Hc3 v Hv') as H. cbn in H. destruct (class_val_to_struct (db_class_indexes db) !! Z.to_nat (v - 1)) as [[[k d]|]|] eqn:E; try done.
    apply andb_prop in H as [H1 H2]. destruct Hci as (Hl1 & _ & Hinv & _). destruct (proj1 (Hinv v k d Hv') E) as [Hk _].
    destruct Hcl as [_ Hcl]. apply table_abs_sound in Hcl. destruct (Hcl k d Hk) as (_ & [Hp _] & _ & Hk1 & Hk2).
    destruct (lookup_lt_is_Some_2 (p_class_val_to_name (db_class_indexes db)) (Z.to_nat (v - 1))) as [name En]; [cbn in Hl1; lia|].
    exists k, d, name. split_and!; [done|done|lia|by apply checked_constraints..].
Qed.

(** ** The server *)

Definition server_ok (sv : server) (db : policydb) : Prop :=
  sv_db sv = Some db /\ policy_usable db /\ sidtab_ok (sv_sidtab sv) /\
  map_Forall (fun _ c => valid_context (h_mls (db_header db)) (db_symbols db) c /\ context_ranges c) (sids (sv_sidtab sv)).

Lemma valid_subject db c : policy_usable db -> valid_context (h_mls (db_header db)) (db_symbols db) c -> context_ranges c -> subject db c.
Proof.
  intros (Hd & _) (H1 & H2 & H3 & _) (_ & _ & _ & H4 & H5). destruct (dd_symbols db Hd) as (_ & _ & _ & _ & [Nu _] & _). unfold subject, in_range in *. split_and!; try done; lia.
Qed.

Lemma search_subject sv db sid c : server_ok sv db -> 0 <= sid -> sepol_sidtab_search (sv_sidtab sv) sid = Some c -> subject db c.
Proof.
  intros (_ & Hu & Hs & Hall) Hsid H. rewrite sidtab_search_ok in H by done.
  assert (exists i, sids (sv_sidtab sv) !! i = Some c) as [i Hi] by (destruct (sids (sv_sidtab sv) !! sid) eqn:E; simplify_eq; eauto).
  destruct (Hall i c Hi). by apply valid_subject.
Qed.

(** ** Transitions *)

Section Validate.
Context (db : policydb) (Hdb : policy_ready db) (old new task : context_struct).
Context (Hold : subject db old) (Hnew : subject db new) (Htask : subject db task).
Context (tclass : Z) (k : cstring) (cla : class_datum) (name : option cstring) (flags : Z).
Context (Hclass : class_val_to_struct (db_class_indexes db) !! Z.to_nat (tclass - 1) = Some (Some (k, cla))).
Context (Hname : p_class_val_to_name (db_class_indexes db) !! Z.to_nat (tclass - 1) = Some name).
Context (Hperms : st_nprim (cla_permissions cla) <= 32).

(** The rules that are evaluated, up to the first one that is violated, say
    why. *)
Fixpoint validate_text (cs : list constraint_node) : cstring :=
  match cs with
  | [] => []
  | c :: cs =>
      reason_text db old new (Some task) cla name flags c ++
      (if bool_decide (constraint_value db c old new (Some task) = Some true) then validate_text cs else [])
  end.

Lemma reasons_after_trans ev ev1 ev2 a b : reasons_after ev a ev1 -> reasons_after ev1 b ev2 -> reasons_after ev (a ++ b) ev2.
Proof using.
  unfold reasons_after. destruct (ev_reason ev) as [c|]; [|by intros ->]. intros (c1 & -> & E1 & _) (c2 & -> & E2 & T2). exists c2. by rewrite E2, E1, app_assoc.
Qed.

Lemma validate_ok g cs ev :
  Forall (fun c => cons_node_sound true c /\ constraint_checked db true c) cs -> buffer_ok ev ->
  xmay g (validate_loop db old new task tclass flags cs ev)
    (fun r => buffer_ok r.2 /\ (r.1 = 0 \/ r.1 = - EPERM) /\ (r.1 = - EPERM -> exists c, c ∈ cs /\ constraint_value db c old new (Some task) = Some false))
    (fun r => (r.1 = 0 <-> forall c, c ∈ cs -> constraint_value db c old new (Some task) = Some true) /\
       ts_stack (ev_stack r.2) = ts_stack (ev_stack ev) /\ ((forall b, ev_reason ev = Some b -> tb_tail b = []) -> reasons_after ev (validate_text cs) r.2)).
Proof using Hdb Hold Hnew Htask Hclass Hname Hperms.
  intros Hcs. revert g ev. induction Hcs as [|c cs [Hc1 Hc2] Hcs IH]; intros g ev Hev; cbn [validate_loop validate_text].
  - apply xmay_ret; [split_and!; [done|by left|done]|]. intros _. cbn. split_and!; [|done|].
    + split; [|done]. intros _ c Hc. by apply not_elem_of_nil in Hc.
    + intros Ht. unfold reasons_after. destruct (ev_reason ev) as [b|]; [|done]. exists b. rewrite app_nil_r. split_and!; [done..|by apply Ht].
  - destruct (eval_checked db Hdb tclass k cla name Hclass Hname Hperms g true old new (Some task) c flags ev Hc1 Hc2 Hold Hnew) as (v & Hv & He); [by eexists|by intros ? [= <-]|done|].
    eapply xmay_bind; [exact He|]. intros [rc ev1] g1 [Hrc Hb] G1. cbn [fst snd] in *. rewrite Hv. destruct (ctrue rc) eqn:Erc; cbn [negb].
    + eapply xmay_mono; [by apply IH|..].
      * intros [rc' ev'] (H1 & H2 & H3). split_and!; [done..|]. intros E. destruct (H3 E) as (c' & Hc' & ?). exists c'. split; [by right|done].
      * intros [rc' ev'] G _ (H1 & H2 & H3). destruct (G1 G) as [_ (-> & E1 & E2)]. cbn [fst snd] in *. rewrite b2z_ctrue in Erc. subst v. split_and!; [|congruence|].
        { rewrite H1. setoid_rewrite elem_of_cons. naive_solver. }
        intros Ht. rewrite bool_decide_eq_true_2 by done. eapply reasons_after_trans; [by apply E2|]. apply H3. specialize (E2 Ht). unfold reasons_after in E2.
        intros b Eb. rewrite Eb in E2. destruct (ev_reason ev); [|done]. by destruct E2 as (b' & [= <-] & _ & ?).
    + apply xmay_ret.
      * split_and!; [done|by right|]. intros _. exists c. split; [by left|]. rewrite Hv. destruct Hrc as [-> | ->]; [|done]. rewrite b2z_ctrue in Erc. by subst v.
      * intros G. destruct (G1 G) as [_ (-> & E1 & E2)]. cbn [fst snd] in *. rewrite b2z_ctrue in Erc. subst v. split_and!; [|done|].
        { split; [done|]. intros H. specialize (H c ltac:(by left)). congruence. }
        intros Ht. rewrite bool_decide_eq_false_2 by done. rewrite app_nil_r. by apply E2.
Qed.
End Validate.

(** ** Bounds that go round *)

(** While the chain of bounds goes on, so does the recursion. *)
Lemma compute_av_endless db tclass :
  0 < tclass <= st_nprim (p_classes (db_symbols db)) ->
  forall fuel s t requested flags avd reason ev o r o', (forall n, ~ bound_chain db (ctx_type s) n) ->
    context_struct_compute_av db fuel s t tclass requested flags avd reason ev o <> Some (Some r, o').
Proof.
  intros Hc fuel. induction fuel as [|fuel IH]; intros s t requested flags avd reason ev o r o' Hn E; [done|]. cbn [context_struct_compute_av] in E.
  replace (negb (ctrue tclass) || (st_nprim (p_classes (db_symbols db)) <? tclass)) with false in E by (unfold ctrue; lia).
  destruct (compute_rules db tclass s t _) as [avd1|]; [|done]. destruct (class_val_to_struct _ !! _) as [[[k cla]|]|]; try done.
  unfold xopt, xbind, xret in E. destruct (constrain db s t tclass flags (cla_constraints cla) (avd1, ev) o) as [[[[avd2 ev2]|] o2]|]; [|done..]. cbn [fst snd] in E.
  unfold type_attribute_bounds_av, xopt, xbind, xret, xfault in E. destruct (type_struct db (ctx_type s)) as [d|] eqn:Ed; [|done].
  assert (Hb : bounds_of db (ctx_type s) = type_bounds d) by (unfold bounds_of; by rewrite Ed).
  assert (Hd : type_bounds d <> 0). { intros E0. apply (Hn 0%nat). constructor. by rewrite Hb. }
  replace (ctrue (type_bounds d)) with true in E by (unfold ctrue; lia). cbn [negb] in E. destruct (type_struct db (ctx_type t)) as [d'|]; [|done].
  match type of E with context [context_struct_compute_av db fuel ?s' ?t' _ ?r ?f ?a ?re ?e o2] => destruct (context_struct_compute_av db fuel s' t' tclass r f a re e o2) as [[[r1|] o3]|] eqn:E1 end; [|done..].
  eapply IH; [|exact E1]. cbn. intros n H. apply (Hn (S n)). rewrite <- Hb in H. constructor; [congruence|done].
Qed.
