(* ===== verification/ServicesSpec.v ===== *)
(** * ServicesSpec: the answers of the security server

    For a server whose policy was accepted and whose SIDs name valid contexts:
    the access decisions are those of the declarative account of
    ServicesThms, transitions are judged by their rules, and the SIDs made
    for new objects name valid contexts. *)
From Stdlib Require Import ZArith Lia Bool.
From stdpp Require Import base option list list_numbers gmap sets.
From S2P Require Import Prelude PolicyFile Mem Ebitmap EbitmapThms EbitmapRange Hashtab HashtabThms Symtab Avtab AvtabThms AvtabIO Cond CondRules Codec Symbols SymCodec SymbolsIO SymbolsThms SymbolsSound Trans TransRT TransThms Index IndexThms ExpandThms IndexAll Contexts ContextsValid ContextsSound ContextText ContextPrint ContextParse CondIO CondIOThms CondSound Policydb PolicydbIO PolicydbSound Constraint ConstraintThms ConstraintEval Sidtab Services ServicesThms.

Open Scope Z_scope.

(** ** Why something is denied *)

Lemma note_zero flag avd x req y req' :
  flag <> 0 -> note flag avd (Some x, req) = (y, req') -> exists z, y = Some z /\ (z = 0 -> x = 0 /\ req' = req /\ Z.ldiff req (allowed avd) = 0).
Proof.
  intros Hf. unfold note. cbn [fst snd]. destruct (ctrue (Z.ldiff req (allowed avd))) eqn:E; intros [= <- <-]; eexists; (split; [done|]).
  - cbn. by intros [_ ?]%Z.lor_eq_0_iff.
  - intros ->. by apply ctrue_false in E.
Qed.

(** Where no reason is given, everything asked for is granted. *)
Lemma no_reason_granted db fuel s t tclass requested flags avd x ev o rc avd' reason ev' o' :
  0 < tclass <= st_nprim (p_classes (db_symbols db)) ->
  context_struct_compute_av db fuel s t tclass requested flags avd (Some x) ev o = Some (Some (rc, avd', reason, ev'), o') ->
  exists y, reason = Some y /\ (y = 0 -> Z.ldiff requested (allowed avd') = 0).
Proof.
  intros Hc E. destruct fuel as [|fuel]; [done|]. cbn [context_struct_compute_av] in E.
  replace (negb (ctrue tclass) || (st_nprim (p_classes (db_symbols db)) <? tclass)) with false in E by (unfold ctrue; lia).
  destruct (compute_rules db tclass s t _) as [avd1|]; [|done]. destruct (class_val_to_struct _ !! _) as [[[k cla]|]|]; try done.
  unfold xopt, xbind, xret in E. destruct (constrain db s t tclass flags (cla_constraints cla) (avd1, ev) o) as [[[[avd2 ev2]|] o2]|]; [|done..]. cbn [fst snd] in E.
  destruct (note SEPOL_COMPUTEAV_TE avd1 _) as [y1 r1] eqn:E1. apply note_zero in E1 as (z1 & -> & H1); [|done].
  destruct (note SEPOL_COMPUTEAV_CONS avd2 _) as [y2 r2] eqn:E2. apply note_zero in E2 as (z2 & -> & H2); [|done].
  set (avd3 := restrict_roles db s t tclass avd2) in *. destruct (note SEPOL_COMPUTEAV_RBAC avd3 _) as [y3 r3] eqn:E3. apply note_zero in E3 as (z3 & -> & H3); [|done].
  assert (Hz : z3 = 0 -> Z.ldiff requested (allowed avd3) = 0).
  { intros Hz. destruct (H3 Hz) as (Hz2 & _ & H). destruct (H2 Hz2) as (Hz1 & Er & _). destruct (H1 Hz1) as (_ & Er1 & _). congruence. }
  unfold type_attribute_bounds_av, xopt, xbind, xret, xfault in E. destruct (type_struct db (ctx_type s)) as [d|]; [|done].
  destruct (negb (ctrue (type_bounds d))); [simplify_eq; by eexists|]. destruct (type_struct db (ctx_type t)) as [d'|]; [|done].
  match type of E with context [context_struct_compute_av db fuel ?s' ?t' _ ?r ?f ?a ?re ?e o2] => destruct (context_struct_compute_av db fuel s' t' tclass r f a re e o2) as [[[r4|] o3]|] end; [|done..].
  destruct (negb (ctrue (Z.ldiff (allowed avd3) (allowed r4.1.1.2)))); simplify_eq; eexists; (split; [done|]); [done|]. cbn. by intros [_ ?]%Z.lor_eq_0_iff.
Qed.

(** ** Access decisions *)


(** The class with a value. *)
Definition class_of (db : policydb) (v : Z) (cla : class_datum) : Prop :=
  exists k, class_val_to_struct (db_class_indexes db) !! Z.to_nat (v - 1) = Some (Some (k, cla)).

Lemma decide_sids sv db ssid tsid s t tclass requested flags avd reason buf n :
  server_ok sv db -> 0 <= ssid -> 0 <= tsid -> sepol_sidtab_search (sv_sidtab sv) ssid = Some s -> sepol_sidtab_search (sv_sidtab sv) tsid = Some t ->
  0 < tclass <= st_nprim (p_classes (db_symbols db)) -> bound_chain db (ctx_type s) n -> (forall b, buf = Some b -> tb_ok b) ->
  exists cla, class_of db tclass cla /\
  xmay True (compute_av_for sv ssid tsid tclass requested avd reason buf flags)
    (fun r => r.1.1.1.1 = 0 /\ audited db tclass s t r.1.1.1.2 /\ (r.1.1.2 = 0 -> Z.ldiff requested (allowed r.1.1.1.2) = 0) /\
       (exists stack, r.2 = set_stack_of sv stack) /\ forall p, 0 <= p -> permitted db tclass cla s t p -> Z.testbit (allowed r.1.1.1.2) p = true)
    (fun r => ts_stack (sv_stack r.2) = ts_stack (sv_stack sv) /\ forall p, 0 <= p -> (Z.testbit (allowed r.1.1.1.2) p = true <-> permitted db tclass cla s t p)).
Proof.
  intros Hsv Hss Hts Es Et Hc Hn Hb. pose proof Hsv as (Edb & Hu & _). pose proof (usable_ready db Hu) as Hdb.
  pose proof (search_subject _ _ _ _ Hsv Hss Es) as Hs. pose proof (search_subject _ _ _ _ Hsv Hts Et) as Ht.
  destruct (py_classes db Hdb tclass Hc) as (k & cla & name & Hk & Hname & Hp & Hcs & _). exists cla. split; [by exists k|].
  assert (Hn' : (n < bounds_fuel db)%nat). { destruct Hs as (_ & _ & Hst & _). pose proof (chain_short db Hdb _ _ Hst Hn). unfold bounds_fuel. lia. }
  pose proof (compute_av_ok db Hdb tclass k cla name Hk Hname Hp Hc Hcs n (bounds_fuel db) True s t requested flags avd (Some reason) (mk_eval_state (sv_stack sv) buf) Hn Hn' Hs Ht Hb) as H.
  unfold compute_av_for. rewrite Es, Et. eapply xmay_some; [exact Edb|]. intros o. specialize (H o). unfold xbind, xret.
  destruct (context_struct_compute_av _ _ _ _ _ _ _ _ _ _ o) as [[[[[[rc avd'] rs] ev']|] o']|] eqn:E; [|done..].
  destruct H as [(H1 & H2 & H3 & H4) HQ]. destruct (no_reason_granted _ _ _ _ _ _ _ _ _ _ _ _ _ _ _ _ Hc E) as (y & -> & Hy). cbn [fst snd default] in *. split.
  - split_and!; [done|done|done|by eexists|done].
  - intros _ M. by destruct (HQ I M) as [M' [? ?]].
Qed.



(** C20: [context_struct_compute_av] does not return when the bounds of the
    source's type go round: whatever the number of nested calls allowed, there
    is no decision. *)
Theorem compute_av_cyclic_bounds db fuel s t tclass requested flags avd reason ev o :
  0 < tclass <= st_nprim (p_classes (db_symbols db)) -> (forall n, ~ bound_chain db (ctx_type s) n) ->
  forall r o', context_struct_compute_av db fuel s t tclass requested flags avd reason ev o <> Some (Some r, o').
Proof. intros Hc Hn r o'. by apply compute_av_endless. Qed.

(** ** Constraints *)


(** ** Transitions *)

(** C17: for three known SIDs and a known class of a policy that was read and
    checked, with memory left, [sepol_validate_transition_reason_buffer] permits
    the change of an object's context exactly when every [validatetrans] rule
    of its class holds of the old context, the new one and the task's, returns
    -EPERM otherwise, and its text names the rules it evaluated. *)
Theorem validate_transition_spec sv db osid nsid tsid old new task tclass flags o :
  server_ok sv db -> 0 <= osid -> 0 <= nsid -> 0 <= tsid -> sepol_sidtab_search (sv_sidtab sv) osid = Some old ->
  sepol_sidtab_search (sv_sidtab sv) nsid = Some new -> sepol_sidtab_search (sv_sidtab sv) tsid = Some task ->
  0 < tclass <= st_nprim (p_classes (db_symbols db)) -> mem_ok o ->
  exists cla name rc b stack o', class_of db tclass cla /\ p_class_val_to_name (db_class_indexes db) !! Z.to_nat (tclass - 1) = Some name /\
    sepol_validate_transition_reason_buffer sv osid nsid tsid tclass flags o = Some (Some (rc, Some b, set_stack_of sv stack), o') /\
    (rc = 0 \/ rc = - EPERM) /\ (rc = 0 <-> forall c, c ∈ cla_validatetrans cla -> constraint_value db c old new (Some task) = Some true) /\
    tb_used b = validate_text db old new task cla name flags (cla_validatetrans cla) /\ ts_stack stack = ts_stack (sv_stack sv).
Proof.
  intros Hsv Ho Hn Ht Eo En Et Hc M. pose proof Hsv as (Edb & Hu & _). pose proof (usable_ready db Hu) as Hdb.
  pose proof (search_subject _ _ _ _ Hsv Ho Eo) as So. pose proof (search_subject _ _ _ _ Hsv Hn En) as Sn. pose proof (search_subject _ _ _ _ Hsv Ht Et) as St.
  destruct (py_classes db Hdb tclass Hc) as (k & cla & name & Hk & Hname & Hp & _ & Hcs). unfold sepol_validate_transition_reason_buffer. rewrite Edb. unfold xopt, xbind, xret.
  replace (negb (ctrue tclass) || (st_nprim (p_classes (db_symbols db)) <? tclass)) with false by (unfold ctrue; lia). rewrite Eo, En, Et, Hk.
  pose proof (validate_ok db Hdb old new task So Sn St tclass k cla name flags Hk Hname Hp True (cla_validatetrans cla) (mk_eval_state (sv_stack sv) (Some no_reasons)) Hcs) as H.
  specialize (H ltac:(intros b [= <-]; done) o). destruct (validate_loop _ _ _ _ _ _ _ _ o) as [[[[rc ev']|] o']|]; [|done|tauto]. cbn [fst snd] in *.
  destruct H as [(_ & Hrc & _) HQ]. destruct (HQ I M) as (_ & Hall & E1 & E2). destruct (E2 ltac:(by intros b [= <-])) as (b & Eb & Eu & _). cbn in Eu. rewrite Eb.
  exists cla, name, rc, b, (ev_stack ev'), o'. split_and!; try done. by exists k.
Qed.

(** ** New objects *)

(** What is left to allocate after a copy or an intersection of bitmaps. *)
Lemma cpy_loop_mem n o r o' : cpy_loop n o = (r, o') -> mem_ok o -> mem_ok o'.
Proof.
  revert o r. induction n as [|a n IH]; intros o r; cbn [cpy_loop]; [by intros [= _ <-]|]. destruct (malloc o) as [[] o1] eqn:Em; cbn [negb]; intros E M; apply (malloc_mem_ok_next _ _ _ Em) in M.
  - unfold cons_res in E. destruct (cpy_loop n o1) as [[l|] o2] eqn:En; injection E as _ <-; by eapply IH.
  - by injection E as _ <-.
Qed.

Lemma cpy_mem e o rc e' o' : ebitmap_cpy e o = (rc, e', o') -> mem_ok o -> mem_ok o'.
Proof. unfold ebitmap_cpy. destruct (cpy_loop (node e) o) as [[l|] o1] eqn:E; intros [= _ _ <-]; by eapply cpy_loop_mem. Qed.

Lemma and_loop_mem n1 n2 o r o' : and_loop n1 n2 o = (r, o') -> mem_ok o -> mem_ok o'.
Proof.
  revert n2 o r. induction n1 as [|a n1 IH1]; intros n2; [destruct n2; by intros o r [= _ <-]|]. induction n2 as [|b n2 IH2]; intros o r; cbn [and_loop]; [by intros [= _ <-]|].
  destruct (startbit a =? startbit b). 2:{ destruct (startbit b <? startbit a); [apply IH2|apply IH1]. }
  destruct (ctrue _); [|apply IH1]. destruct (malloc o) as [[] o1] eqn:Em; cbn [negb]; intros E M; apply (malloc_mem_ok_next _ _ _ Em) in M.
  - unfold cons_res in E. destruct (and_loop n1 n2 o1) as [[l|] o2] eqn:En; injection E as _ <-; by eapply IH1.
  - by injection E as _ <-.
Qed.

Lemma and_mem e1 e2 o rc e o' : ebitmap_and e1 e2 o = (rc, e, o') -> mem_ok o -> mem_ok o'.
Proof. unfold ebitmap_and. destruct (and_loop _ _ o) as [[l|] o1] eqn:E; intros [= _ _ <-]; by eapply and_loop_mem. Qed.

Definition keeps_range {R} (m : ranged R) : Prop := forall o rc r o', m o = (rc, r, o') -> mem_ok o -> mem_ok o'.

Lemma keeps_copy l0 l1 : keeps_range (copy_levels l0 l1).
Proof.
  intros o rc r o' E M. unfold copy_levels in E. destruct (ebitmap_cpy (cat l0) o) as [[rc0 e0] o1] eqn:E0. apply (cpy_mem _ _ _ _ _ E0) in M. destruct (ctrue rc0); [by injection E as _ _ <-|].
  destruct (ebitmap_cpy (cat l1) o1) as [[rc1 e1] o2] eqn:E1. apply (cpy_mem _ _ _ _ _ E1) in M. by destruct (ctrue rc1); injection E as _ _ <-.
Qed.

Lemma keeps_glblub r1 r2 : keeps_range (mls_range_glblub r1 r2).
Proof.
  intros o rc r o' E M. unfold mls_range_glblub in E. destruct (_ || _); [by injection E as _ _ <-|]. destruct (ebitmap_and (cat (level0 r1)) _ o) as [[rc0 e0] o1] eqn:E0.
  apply (and_mem _ _ _ _ _ _ E0) in M. destruct (rc0 <? 0); [by injection E as _ _ <-|]. destruct (ebitmap_and (cat (level1 r1)) _ o1) as [[rc1 e1] o2] eqn:E1. apply (and_mem _ _ _ _ _ _ E1) in M.
  by destruct (rc1 <? 0); injection E as _ _ <-.
Qed.

Lemma keeps_mls_compute_sid db s t tclass spec : keeps_range (mls_compute_sid db s t tclass spec).
Proof.
  assert (Hrc : keeps_range (mls_context_cpy_rc s) /\ keeps_range (mls_context_cpy_rc t)).
  { split; intros o rc r o' E; unfold mls_context_cpy_rc in E; destruct (copy_levels _ _ o) as [[rc0 r0] o1] eqn:E0; injection E as _ _ <-; by eapply keeps_copy. }
  unfold mls_compute_sid, change_range. repeat (match goal with |- keeps_range (match ?x with _ => _ end) => destruct x end || cbv zeta); try apply keeps_copy; try apply keeps_glblub; try apply Hrc; by intros o rc r o' [= _ _ <-].
Qed.

Lemma copy_levels_ok l0 l1 o rc r o' : copy_levels l0 l1 o = (rc, r, o') -> (rc = 0 /\ r = mk_mls_range l0 l1) \/ rc = - ENOMEM.
Proof.
  unfold copy_levels, ebitmap_cpy. destruct (cpy_loop (node (cat l0)) o) as [[n0|] o0] eqn:E0; [|intros [= <- _ _]; by right]. change (ctrue 0) with false. cbn iota.
  destruct (cpy_loop (node (cat l1)) o0) as [[n1|] o1] eqn:E1; [|intros [= <- _ _]; by right]. change (ctrue 0) with false. cbn iota.
  intros [= <- <- <-]. left. split; [done|]. rewrite (cpy_loop_result _ _ _ _ E0), (cpy_loop_result _ _ _ _ E1). by destruct l0 as [? []], l1 as [? []].
Qed.

Lemma copy_succeeds l0 l1 o rc r o' : copy_levels l0 l1 o = (rc, r, o') -> mem_ok o -> rc = 0.
Proof.
  unfold copy_levels, ebitmap_cpy. intros E M. destruct (cpy_loop (node (cat l0)) o) as [[n0|] o0] eqn:E0; [|by apply cpy_loop_fail in E0]. change (ctrue 0) with false in E. cbn iota in E.
  apply (cpy_loop_mem _ _ _ _ E0) in M. destruct (cpy_loop (node (cat l1)) o0) as [[n1|] o1] eqn:E1; [|by apply cpy_loop_fail in E1]. by injection E as <- _ _.
Qed.

Lemma copy_rc_succeeds c o rc r o' : mls_context_cpy_rc c o = (rc, r, o') -> mem_ok o -> rc = 0.
Proof.
  unfold mls_context_cpy_rc. destruct (copy_levels _ _ o) as [[rc1 r1] o1] eqn:E1. intros E M. rewrite (copy_succeeds _ _ _ _ _ _ E1 M) in E. by injection E as <- _ _.
Qed.

Definition ranges_ok (r : mls_range) : Prop := level_ok (level0 r) /\ level_ok (level1 r).

Lemma copied l0 l1 o rc r o' : level_ok l0 -> level_ok l1 -> copy_levels l0 l1 o = (rc, r, o') -> rc = 0 -> ranges_ok r /\ r = mk_mls_range l0 l1.
Proof. intros H0 H1 E ->. by destruct (copy_levels_ok _ _ _ _ _ _ E) as [[_ ->]|?]. Qed.

Lemma copied_rc c o rc r o' : ranges_ok (ctx_range c) -> mls_context_cpy_rc c o = (rc, r, o') -> rc = 0 -> ranges_ok r /\ r = ctx_range c.
Proof.
  intros [H0 H1]. unfold mls_context_cpy_rc. destruct (copy_levels _ _ o) as [[rc1 r1] o1] eqn:E1. intros E Hrc. simplify_eq.
  destruct (copy_levels_ok _ _ _ _ _ _ E1) as [[-> ->] | -> ]; [|done]. split; [done|]. by destruct (ctx_range c).
Qed.

(** The range [mls_range_glblub] makes: from the greater low level to the
    lesser high level, with the categories both have. *)
Definition glblub (r1 r2 r : mls_range) : Prop :=
  sens (level0 r2) <= sens (level1 r1) /\ sens (level0 r1) <= sens (level1 r2) /\
  sens (level0 r) = Z.max (sens (level0 r1)) (sens (level0 r2)) /\ sens (level1 r) = Z.min (sens (level1 r1)) (sens (level1 r2)) /\
  ebitmap_set (cat (level0 r)) = ebitmap_set (cat (level0 r1)) ∩ ebitmap_set (cat (level0 r2)) /\
  ebitmap_set (cat (level1 r)) = ebitmap_set (cat (level1 r1)) ∩ ebitmap_set (cat (level1 r2)).

Lemma glblub_ok r1 r2 o rc r o' : ranges_ok r1 -> ranges_ok r2 -> mls_range_glblub r1 r2 o = (rc, r, o') -> rc = 0 -> ranges_ok r /\ glblub r1 r2 r.
Proof.
  intros [A0 A1] [B0 B1]. unfold mls_range_glblub. destruct (_ || _) eqn:Es; [intros E Hrc; by simplify_eq|]. apply orb_false_elim in Es as [Es1%Z.ltb_ge Es2%Z.ltb_ge].
  pose proof (ebitmap_and_ok (cat (level0 r1)) (cat (level0 r2)) o (proj2 A0) (proj2 B0)) as C0. destruct (ebitmap_and _ _ o) as [[rc0 e0] o0]. cbn in C0.
  destruct (Z.ltb_spec rc0 0) as [R0|R0]; [intros E Hrc; by simplify_eq|]. destruct C0 as [(-> & K0 & S0)|(-> & _)]; [|done].
  pose proof (ebitmap_and_ok (cat (level1 r1)) (cat (level1 r2)) o0 (proj2 A1) (proj2 B1)) as C1. destruct (ebitmap_and _ _ o0) as [[rc1 e1] o1]. cbn in C1.
  destruct (Z.ltb_spec rc1 0) as [R1|R1]; [intros E Hrc; by simplify_eq|]. destruct C1 as [(-> & K1 & S1)|(-> & _)]; [|done].
  intros E _. simplify_eq. destruct A0 as [A0 _], A1 as [A1 _], B0 as [B0 _], B1 as [B1 _]. unfold in_range in *. split; [|by split_and!]. split; (split; [|done]); unfold in_range; cbn; lia.
Qed.

(** With memory it fails only for ranges without a common level. *)
Lemma glblub_fails r1 r2 o rc r o' :
  ranges_ok r1 -> ranges_ok r2 -> mls_range_glblub r1 r2 o = (rc, r, o') -> mem_ok o -> rc <> 0 -> forall x, ~ glblub r1 r2 x.
Proof.
  intros [A0 A1] [B0 B1]. unfold mls_range_glblub. destruct (_ || _) eqn:Es. { intros _ _ _ x (H1 & H2 & _). lia. }
  pose proof (ebitmap_and_ok (cat (level0 r1)) (cat (level0 r2)) o (proj2 A0) (proj2 B0)) as C0. destruct (ebitmap_and _ _ o) as [[rc0 e0] o0] eqn:E0. cbn in C0.
  intros E M. destruct C0 as [(-> & _)|(_ & _ & ?)]; [|done]. apply (and_mem _ _ _ _ _ _ E0) in M. change (0 <? 0) with false in E. cbn iota in E.
  pose proof (ebitmap_and_ok (cat (level1 r1)) (cat (level1 r2)) o0 (proj2 A1) (proj2 B1)) as C1. destruct (ebitmap_and _ _ o0) as [[rc1 e1] o1]. cbn in C1.
  destruct C1 as [(-> & _)|(_ & _ & ?)]; [|done]. by injection E as <- _ _.
Qed.

(** The class of a new object: the one of the table of classes whose value it
    is, or none when no class has it. *)
Definition object_class (db : policydb) (tclass : Z) (cla : option class_datum) : Prop :=
  match cla with
  | Some d => 0 < tclass <= st_nprim (p_classes (db_symbols db)) /\ exists k, symtab_abs (p_classes (db_symbols db)) !! k = Some d /\ cla_value d = tclass
  | None => ~ 0 < tclass <= st_nprim (p_classes (db_symbols db))
  end.

Lemma class_or_null_ok db tclass : policy_usable db -> 0 <= tclass -> object_class db tclass (class_or_null db tclass).
Proof.
  intros Hu Ht. unfold class_or_null, ctrue. destruct (_ && _) eqn:E; [|cbn; lia]. assert (Hr : 0 < tclass <= st_nprim (p_classes (db_symbols db))) by lia.
  destruct (py_classes db (usable_ready db Hu) tclass Hr) as (k & d & _ & Hd & _). rewrite Hd. split; [done|]. exists k. pose proof Hu as [Hs _].
  destruct (dd_indexes db Hs) as [[_ (_ & _ & Hi & _)] _]. destruct (proj1 (Hi tclass k d Hr) Hd) as [Hk Hval]. split; [done|]. unfold class_val in Hval. by simplify_eq.
Qed.

(** The range transitions of a policy. *)
Definition range_rules (db : policydb) (k : range_trans) : option mls_range := h ← db_range_tr db; hashtab_abs h !! k.

Section NewRange.
Context (db : policydb) (Hu : policy_usable db) (s t : context_struct) (tclass : Z).
Context (Hs : ranges_ok (ctx_range s)) (Ht : ranges_ok (ctx_range t)).

(** The range of a new process, and of another object, by default. *)
Definition usual_range (r : mls_range) : Prop :=
  r = if tclass =? db_process_class db then ctx_range s else mk_mls_range (level0 (ctx_range s)) (level0 (ctx_range s)).

Definition low_of (c : context_struct) : mls_range := mk_mls_range (level0 (ctx_range c)) (level0 (ctx_range c)).
Definition high_of (c : context_struct) : mls_range := mk_mls_range (level1 (ctx_range c)) (level1 (ctx_range c)).

(** The range of a new object: that of the range transition of the policy, or
    as its class says. *)
Definition new_range (cla : option class_datum) (specified : Z) (r : mls_range) : Prop :=
  if negb (h_mls (db_header db)) then r = empty_range
  else if specified =? AVTAB_TRANSITION then
    match range_rules db (mk_range_trans (ctx_type s) (ctx_type t) tclass) with
    | Some rule => r = rule
    | None =>
        match default_range <$> cla with
        | Some 1 => r = low_of s
        | Some 2 => r = high_of s
        | Some 3 => r = ctx_range s
        | Some 4 => r = low_of t
        | Some 5 => r = high_of t
        | Some 6 => r = ctx_range t
        | Some 7 => glblub (ctx_range s) (ctx_range t) r
        | _ => usual_range r
        end
    end
  else if specified =? AVTAB_CHANGE then usual_range r
  else r = low_of s.

Lemma change_range_ok o rc r o' : change_range db s tclass o = (rc, r, o') -> rc = 0 -> ranges_ok r /\ usual_range r.
Proof using Hs.
  unfold change_range, usual_range, mls_copy_context, mls_scopy_context. destruct Hs as [H0 H1]. destruct (tclass =? db_process_class db); intros E Hrc;
    (eapply copied in E as [? ->]; [|done..]); [|done]. split; [done|]. by destruct (ctx_range s).
Qed.

Lemma new_range_ok specified o rc r o' :
  specified = AVTAB_TRANSITION \/ specified = AVTAB_MEMBER \/ specified = AVTAB_CHANGE ->
  mls_compute_sid db s t tclass specified o = (rc, r, o') -> rc = 0 -> ranges_ok r /\ new_range (class_or_null db tclass) specified r.
Proof using Hu Hs Ht.
  intros Hsp. unfold mls_compute_sid, new_range. destruct (negb (h_mls (db_header db))). { intros E _. simplify_eq. done. }
  pose proof Hs as [S0 S1]. pose proof Ht as [T0 T1]. destruct Hsp as [-> | [-> | ->]].
  - change (AVTAB_TRANSITION =? AVTAB_TRANSITION) with true. cbn iota. destruct Hu as [Hd _]. destruct (dd_range db Hd) as (h & Eh & Hok & Hall). unfold range_rules.
    rewrite Eh, hashtab_search_ok by done. cbn [mbind option_bind]. destruct (hashtab_abs h !! _) as [rule|] eqn:Er.
    + destruct (Hall _ _ Er) as (_ & _ & _ & R0 & R1).
      intros E Hrc. destruct (copied _ _ _ _ _ _ R0 R1 E Hrc) as [? ->]. split; [done|]. by destruct rule.
    + destruct (class_or_null db tclass) as [cla|]; cbn [fmap option_fmap option_map].
      2:{ change (0 =? _) with false. cbn iota. apply change_range_ok. }
      unfold DEFAULT_SOURCE_LOW, DEFAULT_SOURCE_HIGH, DEFAULT_SOURCE_LOW_HIGH, DEFAULT_TARGET_LOW, DEFAULT_TARGET_HIGH, DEFAULT_TARGET_LOW_HIGH, DEFAULT_GLBLUB.
      repeat match goal with |- context [default_range cla =? ?k] => destruct (Z.eqb_spec (default_range cla) k) as [->|] end; try (by apply copied); try (by apply copied_rc); [by apply glblub_ok|].
      intros E Hrc. destruct (change_range_ok _ _ _ _ E Hrc). split; [done|]. by repeat (case_match; try done; try lia).
  - change (AVTAB_MEMBER =? AVTAB_TRANSITION) with false. cbn. by apply copied.
  - change (AVTAB_CHANGE =? AVTAB_TRANSITION) with false. cbn. apply change_range_ok.
Qed.

Lemma change_range_succeeds o rc r o' : change_range db s tclass o = (rc, r, o') -> mem_ok o -> rc = 0.
Proof using. unfold change_range. destruct (_ =? _); apply copy_succeeds. Qed.

(** With memory there is no range only where there is none to give. *)
Lemma no_new_range specified o rc r o' :
  specified = AVTAB_TRANSITION \/ specified = AVTAB_MEMBER \/ specified = AVTAB_CHANGE ->
  mls_compute_sid db s t tclass specified o = (rc, r, o') -> mem_ok o -> rc <> 0 -> forall x, ~ new_range (class_or_null db tclass) specified x.
Proof using Hu Hs Ht.
  intros Hsp E M Hrc. cut (rc = 0 \/ forall x, ~ new_range (class_or_null db tclass) specified x); [tauto|]. clear Hrc. revert E. unfold mls_compute_sid, new_range.
  destruct (negb (h_mls (db_header db))). { intros E. left. by injection E as <- _ _. }
  assert (Hcopy : forall l0 l1, copy_levels l0 l1 o = (rc, r, o') -> rc = 0) by (intros l0 l1 E; by eapply copy_succeeds).
  destruct Hsp as [-> | [-> | ->]].
  - change (AVTAB_TRANSITION =? AVTAB_TRANSITION) with true. cbn iota. destruct Hu as [Hd _]. destruct (dd_range db Hd) as (h & Eh & Hok & Hall). unfold range_rules.
    rewrite Eh, hashtab_search_ok by done. cbn [mbind option_bind]. destruct (hashtab_abs h !! _) as [rule|]. { intros E. left. by eapply Hcopy. }
    destruct (class_or_null db tclass) as [cla|]; cbn [fmap option_fmap option_map].
    2:{ change (0 =? _) with false. cbn iota. intros E. left. by eapply change_range_succeeds. }
    unfold DEFAULT_SOURCE_LOW, DEFAULT_SOURCE_HIGH, DEFAULT_SOURCE_LOW_HIGH, DEFAULT_TARGET_LOW, DEFAULT_TARGET_HIGH, DEFAULT_TARGET_LOW_HIGH, DEFAULT_GLBLUB.
    repeat match goal with |- context [default_range cla =? ?k] => destruct (Z.eqb_spec (default_range cla) k) as [->|] end; intros E;
      try (left; by eapply Hcopy); try (left; by eapply copy_rc_succeeds); [|left; by eapply change_range_succeeds].
    destruct (Z.eq_dec rc 0) as [->|Hrc]; [by left|]. right. by eapply glblub_fails.
  - change (AVTAB_MEMBER =? AVTAB_TRANSITION) with false. cbn. intros E. left. by eapply Hcopy.
  - change (AVTAB_CHANGE =? AVTAB_TRANSITION) with false. cbn. intros E. left. by eapply change_range_succeeds.
Qed.
End NewRange.

Section NewType.
Context (db : policydb) (s t : context_struct) (tclass spec : Z).

(** A rule of the kind [spec] for the two types. *)
Definition kind_rule (tab : avtab) (n : avtab_node) : Prop :=
  n ∈ nodes_of tab /\ source_type (key n) = u16 (ctx_type s) /\ target_type (key n) = u16 (ctx_type t) /\ target_class (key n) = tclass /\ ctrue (Z.land spec (specified (key n))) = true.
Definition kind_enabled (n : avtab_node) : Prop := kind_rule (ct_table (db_cond db)) n /\ ctrue (Z.land (specified (key n)) AVTAB_ENABLED) = true.

(** A type, or none, by the rules: an unconditional rule goes before one that
    is enabled. *)
Definition type_by_rule (ty : option Z) : Prop :=
  match ty with
  | Some v => (exists n, kind_rule (db_te_avtab db) n /\ data (datum n) = v) \/
              ((forall n, ~ kind_rule (db_te_avtab db) n) /\ exists n, kind_enabled n /\ data (datum n) = v)
  | None => (forall n, ~ kind_rule (db_te_avtab db) n) /\ forall n, ~ kind_enabled n
  end.

Let avkey := mk_avtab_key (u16 (ctx_type s)) (u16 (ctx_type t)) tclass spec.

Lemma kind_matching tab n : clear_enabled spec = spec -> n ∈ matching avkey (clear_enabled spec) (nodes_of tab) <-> kind_rule tab n.
Proof using.
  intros ->. rewrite list_elem_of_filter. unfold kind_rule, node_matches, same_types, avkey. cbn [source_type target_type target_class]. rewrite !andb_true_iff, !Z.eqb_eq. intuition congruence.
Qed.

Lemma enabled_visit fuel node l :
  visit_nodes fuel node spec = Some l -> enabled_rule fuel node spec = Some (datum <$> List.find (fun n => ctrue (Z.land (specified (key n)) AVTAB_ENABLED)) l).
Proof using.
  revert node l. induction fuel as [|fuel IH]; intros [[n next]|] l H; cbn [visit_nodes enabled_rule] in *; try by simplify_eq.
  destruct (visit_nodes fuel _ spec) as [l'|] eqn:E; [|done]. simplify_eq. cbn [List.find]. destruct (ctrue _); [done|]. by apply IH.
Qed.

Lemma type_rule_ok :
  avtab_ok (db_te_avtab db) -> avtab_ok (ct_table (db_cond db)) -> in_range 16 spec -> clear_enabled spec = spec ->
  exists rule, type_rule db s t tclass spec = Some rule /\ type_by_rule (data <$> rule).
Proof using.
  intros Hte Hct Hr Hc. unfold type_rule. rewrite (wrap_small 16 spec) by done. fold avkey.
  assert (Hte' : forall n, ~ kind_rule (db_te_avtab db) n \/ True) by tauto. clear Hte'.
  rewrite avtab_search_first by done. change (specified avkey) with spec. pose proof (kind_matching (db_te_avtab db)) as Hk.
  destruct (matching avkey (clear_enabled spec) (nodes_of (db_te_avtab db))) as [|n l]; cbn [head fmap option_fmap option_map].
  - assert (Hno : forall n, ~ kind_rule (db_te_avtab db) n). { intros n Hn. apply Hk in Hn; [|done]. by apply not_elem_of_nil in Hn. }
    pose proof (visit_all _ avkey Hct Hr) as V. apply enabled_visit in V. unfold nodes_in. unfold nodes_of in V at 1. cbn [specified avkey] in V. rewrite V. eexists. split; [done|].
    destruct (List.find _ _) as [n|] eqn:E; cbn [fmap option_fmap option_map type_by_rule].
    + apply List.find_some in E as [E1%list_elem_of_In E2]. right. split; [done|]. exists n. split; [split; [by apply kind_matching in E1|done]|done].
    + split; [done|]. intros n [Hn He]. apply kind_matching in Hn; [|done]. apply list_elem_of_In in Hn. pose proof (List.find_none _ _ E _ Hn) as H. cbn in H. congruence.
  - eexists. split; [done|]. cbn. left. exists n. split; [|done]. apply Hk; [done|]. left.
Qed.
End NewType.

Lemma rule_data db tab n : policy_usable db -> tab = db_te_avtab db \/ tab = ct_table (db_cond db) -> n ∈ nodes_of tab -> 0 <= data (datum n).
Proof.
  intros (Hd & Hv & Hh & _) Htab Hn. cut (node_item_ok n).
  { unfold node_item_ok, item_ok, in_range. intros (_ & _ & _ & _ & _ & _ & H). destruct (ctrue _); lia. }
  destruct (dd_rules db Hd) as [Hte Hco]. destruct Htab as [-> | ->].
  - destruct (Hte Hv) as (_ & H & _). rewrite Forall_forall in H. by apply H.
  - destruct (Hco Hv) as (cs & _ & Eh & Hcs & Htab). cbn [fst snd] in *. rewrite Eh in Hh. unfold marked, zlength in Hh. rewrite length_map in Hh. destruct (Htab Hh) as [Hok _].
    rewrite (cond_tab_nodes _ Hok), Eh, marked_fst in Hn. rename Hn into Hn'.
    unfold all_rules in Hn'. apply list_elem_of_In, in_concat in Hn' as (l & Hl & Hn'%list_elem_of_In). apply in_map_iff in Hl as (c & <- & Hc%list_elem_of_In).
    rewrite Forall_forall in Hcs. destruct (Hcs c Hc) as [_ H]. rewrite Forall_forall in H. by apply H.
Qed.

(** What a class says of new objects: 1 is the value of the source, 2 that of
    the target, and with anything else there is no default. *)
Definition defaulted (said : option Z) (source target otherwise v : Z) : Prop :=
  (said = Some 1 -> v = source) /\ (said = Some 2 -> v = target) /\ (said <> Some 1 -> said <> Some 2 -> v = otherwise).

Lemma by_default_ok d a b c : defaulted d a b c (by_default d a b c).
Proof.
  unfold defaulted, by_default, DEFAULT_SOURCE, DEFAULT_TARGET. destruct d as [d|]; [|done]. destruct (Z.eqb_spec d 1) as [->|]; [done|]. destruct (Z.eqb_spec d 2) as [->|]; [done|].
  split_and!; intros; congruence.
Qed.

(** A role transition for a subject, the type of the target and the class. *)
Definition role_transition (s t : context_struct) (tclass : Z) (tr : role_trans) : Prop :=
  rt_role tr = ctx_role s /\ rt_type tr = ctx_type t /\ rt_tclass tr = tclass.

(** The role by the first role transition that applies, or none. *)
Definition role_by_rule (db : policydb) (s t : context_struct) (tclass : Z) (r : option Z) : Prop :=
  match r with
  | Some v => exists pre tr post, db_role_tr db = pre ++ tr :: post /\ role_transition s t tclass tr /\ (forall x, x ∈ pre -> ~ role_transition s t tclass x) /\ v = rt_new_role tr
  | None => forall x, x ∈ db_role_tr db -> ~ role_transition s t tclass x
  end.

Lemma find_first {A} (f : A -> bool) l :
  match List.find f l with
  | Some x => exists pre post, l = pre ++ x :: post /\ f x = true /\ forall y, y ∈ pre -> f y = false
  | None => forall y, y ∈ l -> f y = false
  end.
Proof.
  induction l as [|a l IH]; cbn [List.find]; [intros y Hy; by apply not_elem_of_nil in Hy|]. destruct (f a) eqn:Ea.
  - exists [], l. split_and!; [done..|]. intros y Hy. by apply not_elem_of_nil in Hy.
  - destruct (List.find f l) as [x|].
    + destruct IH as (pre & post & -> & Hx & Hpre). exists (a :: pre), post. split_and!; [done..|]. intros y [->|Hy]%elem_of_cons; auto.
    + intros y [->|Hy]%elem_of_cons; auto.
Qed.

Lemma role_rule_ok db s t tclass : role_by_rule db s t tclass (rt_new_role <$> role_rule db s t tclass).
Proof.
  assert (Hf : forall tr b, (rt_role tr =? ctx_role s) && (rt_type tr =? ctx_type t) && (rt_tclass tr =? tclass) = b -> if b then role_transition s t tclass tr else ~ role_transition s t tclass tr).
  { intros tr b <-. unfold role_transition. destruct (_ && _) eqn:E; lia. }
  unfold role_rule. pose proof (find_first (fun r => (rt_role r =? ctx_role s) && (rt_type r =? ctx_type t) && (rt_tclass r =? tclass)) (db_role_tr db)) as H.
  destruct (List.find _ _) as [tr|]; cbn.
  - destruct H as (pre & post & E & Htr & Hpre). exists pre, tr, post. split_and!; [done|by apply (Hf _ _ Htr)| |done]. intros x Hx. by apply (Hf _ _ (Hpre x Hx)).
  - intros x Hx. by apply (Hf _ _ (H x Hx)).
Qed.

(** The context of a new object: its user is that of the source, or of the
    target for a member or where its class says so; its role that of a role
    transition (only for a transition), or as the class says, or that of the
    source for a process and [object_r] for other objects; its type by the
    rules, or as the class says, or that of the source for a process and of the
    target for other objects. *)
Definition new_context (db : policydb) (s t : context_struct) (tclass spec : Z) (c : context_struct) : Prop :=
  exists cla role ty, object_class db tclass cla /\
  (ctx_user c = if (spec =? AVTAB_MEMBER) || bool_decide (default_user <$> cla = Some 2) then ctx_user t else ctx_user s) /\
  (spec = AVTAB_TRANSITION -> role_by_rule db s t tclass role) /\ (spec <> AVTAB_TRANSITION -> role = None) /\
  match role with
  | Some r => ctx_role c = r
  | None => defaulted (default_role <$> cla) (ctx_role s) (ctx_role t) (if tclass =? db_process_class db then ctx_role s else OBJECT_R_VAL) (ctx_role c)
  end /\
  type_by_rule db s t tclass spec ty /\
  match ty with
  | Some v => ctx_type c = v
  | None => defaulted (default_type <$> cla) (ctx_type s) (ctx_type t) (if tclass =? db_process_class db then ctx_type s else ctx_type t) (ctx_type c)
  end /\
  new_range db s t tclass cla spec (ctx_range c).

Section NewObject.
Context (db : policydb) (Hu : policy_usable db) (s t : context_struct) (Hs : subject db s) (Ht : subject db t) (tclass spec : Z) (Hclass : 0 <= tclass).
Context (Hspec : spec = AVTAB_TRANSITION \/ spec = AVTAB_MEMBER \/ spec = AVTAB_CHANGE).

Lemma by_default_nonneg d a b c : 0 <= a -> 0 <= b -> 0 <= c -> 0 <= by_default d a b c.
Proof using. intros. unfold by_default. destruct d; [|done]. by repeat case_match. Qed.

Lemma new_user_ok (cla : option class_datum) :
  new_user cla s t spec = if (spec =? AVTAB_MEMBER) || bool_decide (default_user <$> cla = Some 2) then ctx_user t else ctx_user s.
Proof using Hspec.
  unfold new_user. destruct Hspec as [-> | [-> | ->]]; cbn; (destruct cla as [d|]; cbn; [|done]); try done;
    (destruct (Z.eqb_spec (default_user d) DEFAULT_TARGET) as [->|Hne]; [by rewrite bool_decide_eq_true_2|rewrite bool_decide_eq_false_2 by (unfold DEFAULT_TARGET in *; congruence); done]).
Qed.

Lemma new_identity_ok :
  exists u r ty, new_identity db s t tclass spec = Some (u, r, ty) /\ 0 <= u /\ 0 <= r /\ 0 <= ty /\
    forall range, new_range db s t tclass (class_or_null db tclass) spec range -> new_context db s t tclass spec (mk_context u r ty range).
Proof using Hu Hs Ht Hspec Hclass.
  pose proof (usable_ready db Hu) as Hdb. destruct (type_rule_ok db s t tclass spec (py_te db Hdb) (py_cond db Hdb)) as (rule & Er & Hr).
  1: by destruct Hspec as [-> | [-> | ->]]. 1: by destruct Hspec as [-> | [-> | ->]].
  unfold new_identity. rewrite Er. cbn [mbind option_bind]. eexists _, _, _. split; [done|]. destruct Hs as (Su & Sr & St & _), Ht as (Tu & Tr & Tt & _). split_and!.
  - unfold new_user. repeat case_match; lia.
  - assert (H : forall x, 0 <= by_default (default_role <$> class_or_null db tclass) (ctx_role s) (ctx_role t) (if x : bool then ctx_role s else OBJECT_R_VAL)).
    { intros x. apply by_default_nonneg; [lia..|]. destruct x; [lia|done]. }
    destruct (ctrue _); [|apply H]. destruct (role_rule db s t tclass) as [tr|] eqn:E; [|apply H]. apply List.find_some in E as [E%list_elem_of_In _].
    destruct Hu as [Hd _]. destruct (dd_roles db Hd) as [Hroles _]. rewrite Forall_forall in Hroles. destruct (Hroles tr E) as (_ & _ & _ & H1). unfold in_range in H1. lia.
  - destruct rule as [d|]; [|apply by_default_nonneg; [lia..|]; destruct (_ =? _); lia]. cbn in Hr.
    destruct Hr as [(n & [Hn _] & <-)|(_ & n & [[Hn _] _] & <-)]; [exact (rule_data db _ n Hu (or_introl eq_refl) Hn)|exact (rule_data db _ n Hu (or_intror eq_refl) Hn)].
  - intros range Hrange. exists (class_or_null db tclass), (if spec =? AVTAB_TRANSITION then rt_new_role <$> role_rule db s t tclass else None), (data <$> rule).
    cbn [ctx_user ctx_role ctx_type ctx_range]. split_and!; [by apply class_or_null_ok|apply new_user_ok| | | |done| |done].
    + intros ->. apply role_rule_ok.
    + intros Hne. by destruct (Z.eqb_spec spec AVTAB_TRANSITION).
    + destruct Hspec as [-> | [-> | ->]]; cbn; try apply by_default_ok. destruct (role_rule db s t tclass); [done|apply by_default_ok].
    + destruct rule; [done|apply by_default_ok].
Qed.
End NewObject.

(** A valid context gets a SID, or memory or numbers have run out. *)
(** A table that takes no new context: it is being replaced, or all SIDs are
    used up. *)
Definition table_full (s : sidtab) : Prop := shutdown s = true \/ next_sid s = 2 ^ 32 - 1.

(** What there is to a failure with memory left: ranges without a common level,
    a context that is not valid, or a table that is full. *)
Definition no_new_sid (sv : server) (db : policydb) (s t : context_struct) (tclass spec rc : Z) : Prop :=
  (exists cla, object_class db tclass cla /\ forall r, ~ new_range db s t tclass cla spec r) \/
  (rc = - EACCES /\ exists c, new_context db s t tclass spec c /\ ~ valid_context (h_mls (db_header db)) (db_symbols db) c) \/
  (rc = - ENOMEM /\ table_full (sv_sidtab sv)).

Lemma intern_ok sv db c o :
  server_ok sv db -> context_sound (h_mls (db_header db)) (db_symbols db) c ->
  exists rc sid s2 o2, sepol_sidtab_context_to_sid (sv_sidtab sv) c o = Some (rc, sid, s2, o2) /\ server_ok (set_sidtab sv s2) db /\
    sids (sv_sidtab sv) ⊆ sids s2 /\ (rc = 0 /\ sids s2 !! sid = Some c \/ rc = - ENOMEM /\ set_sidtab sv s2 = sv /\ (mem_ok o -> table_full (sv_sidtab sv))).
Proof.
  intros (Edb & Hu & Htab & Hall) [Hc Hv]. destruct (context_to_sid_ok (sv_sidtab sv) c o Htab) as (rc & sid & s2 & o2 & E2 & _ & Htab2 & _ & H2).
  exists rc, sid, s2, o2. split; [done|]. destruct H2 as [(-> & _ & Hsid & [->|(Hn & Hab & _)])|(-> & -> & _ & Hfull & _)].
  - split_and!; try done. by left.
  - split_and!; [|rewrite Hab; by apply insert_subseteq|by left]. split_and!; try done. cbn. rewrite Hab. by apply map_Forall_insert_2.
  - split_and!; try done. right. split_and!; [done|by destruct sv|]. intros M. unfold table_full. destruct (shutdown (sv_sidtab sv)); [by left|]. right. by apply Hfull.
Qed.

Lemma new_sid_ok sv db ssid tsid s t tclass spec o :
  server_ok sv db -> 0 <= ssid -> 0 <= tsid -> sepol_sidtab_search (sv_sidtab sv) ssid = Some s -> sepol_sidtab_search (sv_sidtab sv) tsid = Some t ->
  0 <= tclass -> spec = AVTAB_TRANSITION \/ spec = AVTAB_MEMBER \/ spec = AVTAB_CHANGE ->
  exists rc sid sv' o', sepol_compute_sid sv ssid tsid tclass spec o = Some (Some (rc, sid, sv'), o') /\ server_ok sv' db /\ sids (sv_sidtab sv) ⊆ sids (sv_sidtab sv') /\
    (rc <> 0 -> sv' = sv) /\
    (rc = 0 -> exists x c, sid = Some x /\ sids (sv_sidtab sv') !! x = Some c /\ new_context db s t tclass spec c /\ valid_context (h_mls (db_header db)) (db_symbols db) c) /\
    (rc <> 0 -> mem_ok o -> no_new_sid sv db s t tclass spec rc).
Proof.
  intros Hsv Hss Hts Es Et Hcl Hspec. pose proof Hsv as (Edb & Hu & Htab & Hall). pose proof (search_subject _ _ _ _ Hsv Hss Es) as Ss. pose proof (search_subject _ _ _ _ Hsv Hts Et) as St.
  destruct (new_identity_ok db Hu s t Ss St tclass spec Hcl Hspec) as (u & r & ty & Eid & Hu0 & Hr0 & Hty0 & Hnew). unfold sepol_compute_sid. rewrite Es, Et, Edb. unfold xopt, xbind, xret. rewrite Eid. cbn [fst snd].
  destruct (mls_compute_sid db s t tclass spec o) as [[rc range] o1] eqn:Em. destruct (ctrue rc) eqn:Erc.
  { eexists _, _, sv, o1. split_and!; try done; [by intros ->|]. intros Hrc M. left. exists (class_or_null db tclass). split; [by apply class_or_null_ok|].
    destruct Ss as (_ & _ & _ & S0 & S1), St as (_ & _ & _ & T0 & T1). by eapply no_new_range. }
  apply ctrue_false in Erc. destruct Ss as (_ & _ & _ & S0 & S1), St as (_ & _ & _ & T0 & T1). destruct (new_range_ok db Hu s t tclass (conj S0 S1) (conj T0 T1) spec o rc range o1 Hspec Em Erc) as [[R0 R1] Hrange].
  set (c := mk_context u r ty range). assert (Hc : context_ranges c) by (by split_and!). pose proof Hu as [Hd _]. destruct (dd_checks db Hd c Hc) as (b & Eb & Hb). rewrite Eb.
  destruct b. 2:{ eexists _, _, sv, o1. split_and!; try done. intros _ _. right; left. split; [done|]. exists c. split; [by apply Hnew|]. by intros H%Hb. }
  assert (Hv : valid_context (h_mls (db_header db)) (db_symbols db) c) by (by apply Hb).
  change (ctrue 0) with false. cbn iota. destruct (intern_ok sv db c o1 Hsv (conj Hc Hv)) as (rc2 & sid & s2 & o2 & E2 & Hsv2 & Hsub & H2). rewrite E2. eexists _, _, _, o2.
  split_and!; [done..| | |]; destruct H2 as [[-> Hsid]|(-> & Esv & Hfull)]; try done.
  - intros _. exists sid, c. split_and!; try done. by apply Hnew.
  - intros _ M. right; right. split; [done|]. apply Hfull. by eapply keeps_mls_compute_sid.
Qed.

(** C11: the SID of a new object: [sepol_compute_sid], behind
    [sepol_transition_sid], [sepol_member_sid] and [sepol_change_sid], asked
    about two known SIDs under a policy that was read and checked, answers
    whichever allocations fail.  It gives no SID and leaves the server as it
    was, or the SID of a valid context whose user, role, type and range are
    those the rules and the class prescribe: the first role transition for
    the roles, type and class, the type rule in force, the default of the class
    for what no rule gives, and otherwise what the source has for a process,
    [object_r] and the type of the target for other objects; every SID keeps its
    context, and the server stays well formed.  With memory left it fails only
    if the ranges have no level in common, the context is not valid (-EACCES), or
    the table takes no new SID (-ENOMEM). *)
Theorem compute_sid_spec sv db ssid tsid s t tclass spec o :
  server_ok sv db -> 0 <= ssid -> 0 <= tsid -> sepol_sidtab_search (sv_sidtab sv) ssid = Some s -> sepol_sidtab_search (sv_sidtab sv) tsid = Some t ->
  0 <= tclass -> spec = AVTAB_TRANSITION \/ spec = AVTAB_MEMBER \/ spec = AVTAB_CHANGE ->
  exists rc sid sv' o', sepol_compute_sid sv ssid tsid tclass spec o = Some (Some (rc, sid, sv'), o') /\ server_ok sv' db /\ sids (sv_sidtab sv) ⊆ sids (sv_sidtab sv') /\
    (rc <> 0 -> sv' = sv) /\
    (rc = 0 -> exists x c, sid = Some x /\ sids (sv_sidtab sv') !! x = Some c /\ new_context db s t tclass spec c /\ valid_context (h_mls (db_header db)) (db_symbols db) c) /\
    (rc <> 0 -> mem_ok o -> no_new_sid sv db s t tclass spec rc).
Proof. apply new_sid_ok. Qed.

(** ** Texts and SIDs *)

Lemma text_sid_ok sv db str o :
  server_ok sv db -> Forall (in_range 8) str -> string_of str <> str_none ->
  exists rc sid sv' o', sepol_context_to_sid sv str o = Some (Some (rc, sid, sv'), o') /\ server_ok sv' db /\ sids (sv_sidtab sv) ⊆ sids (sv_sidtab sv') /\
    (rc = 0 /\ (exists x c, sid = Some x /\ sids (sv_sidtab sv') !! x = Some c /\ valid_context (h_mls (db_header db)) (db_symbols db) c) \/ rc = -1 /\ sv' = sv).
Proof.
  intros Hsv Hb Hn. pose proof Hsv as (Edb & [Hd Hu'] & Htab & Hall). unfold sepol_context_to_sid. rewrite Edb. unfold xopt, xbind, xret.
  destruct (dd_indexes db Hd) as [_ Hix]. destruct (context_from_string_safe (h_mls (db_header db)) (db_symbols db) (db_indexes db) (dd_symbols db Hd) Hix str Hb) with (o := o) as (r & o1 & E & _ & Hr); [by rewrite strcmp_eq|done|].
  rewrite E. destruct r as [c|]; [|eexists _, _, sv, o1; split_and!; try done; by right]. destruct (Hr c eq_refl) as [Hv Hc].
  destruct (intern_ok sv db c o1 Hsv (conj Hv Hc)) as (rc2 & sid & s2 & o2 & E2 & Hsv2 & Hsub & H2). rewrite E2. eexists _, _, _, o2. split_and!; [done..|].
  destruct H2 as [[-> Hsid]|[-> [Esv _]]]; [left|by right]. split; [done|]. by exists sid, c.
Qed.

(** a SID for any text: on any bytes except the text [<<none>>], and
    whichever allocations fail, [sepol_context_to_sid] stays inside its
    buffers, and the server stays well formed: a text that is accepted has the
    SID of a valid context, and every SID keeps its context. *)
Theorem context_to_sid_spec sv db str o :
  server_ok sv db -> Forall (in_range 8) str -> string_of str <> str_none ->
  exists rc sid sv' o', sepol_context_to_sid sv str o = Some (Some (rc, sid, sv'), o') /\ server_ok sv' db /\ sids (sv_sidtab sv) ⊆ sids (sv_sidtab sv') /\
    (rc = 0 /\ (exists x c, sid = Some x /\ sids (sv_sidtab sv') !! x = Some c /\ valid_context (h_mls (db_header db)) (db_symbols db) c) \/ rc = -1 /\ sv' = sv).
Proof. apply text_sid_ok. Qed.

Lemma context_to_sid_known s c o x : sidtab_ok s -> sids s !! x = Some c -> exists y, sepol_sidtab_context_to_sid s c o = Some (0, y, s, o) /\ sids s !! y = Some c /\ 0 < y.
Proof.
  intros Hs Hx. unfold sepol_sidtab_context_to_sid. destruct (search_context_ok s c Hs) as (y & E & [[Hp Hy]|[-> Hno]]); [|by destruct (Hno x)].
  rewrite E. cbn [mbind option_bind]. replace (ctrue y) with true by (unfold ctrue; lia). by exists y.
Qed.

(** C18: from a SID to the text and back, for a context of a policy that was read
    and checked, with names free of separators, a type that is no attribute,
    levels that can be printed (no gap in the categories), a text shorter than
    2^31 - 1 bytes and memory left: [sepol_context_to_sid] of the text that
    [sepol_sid_to_context] gives of a SID finds a SID of the same context, and
    makes no new one. *)
Theorem sid_text_roundtrip sv db sid c user role type o :
  let mls := h_mls (db_header db) in
  let text := context_text mls (db_indexes db) c user role type in
  server_ok sv db -> 0 <= sid -> sepol_sidtab_search (sv_sidtab sv) sid = Some c -> plain_names (db_symbols db) ->
  named mls (db_indexes db) c user role type -> readable mls (db_symbols db) (db_indexes db) c type -> zlength text < 2 ^ 31 - 1 -> mem_ok o ->
  exists o1 x o2, sepol_sid_to_context sv sid o = Some (Some (0, Some (text ++ [0], zlength text + 1)), o1) /\
    sepol_context_to_sid sv text o1 = Some (Some (0, Some x, sv), o2) /\ sepol_sidtab_search (sv_sidtab sv) x = Some c.
Proof.
  intros mls text Hsv Hsid Ec Hp Hn Hr Hsz M. pose proof Hsv as (Edb & [Hd Hu'] & Htab & Hall). destruct (dd_indexes db Hd) as [_ Hix].
  unfold sepol_sid_to_context, sepol_context_to_sid. rewrite Ec, Edb. unfold xopt, xbind, xret.
  destruct (xok_elim _ _ o (context_to_string_ok mls (db_indexes db) c user role type Hn Hsz) M) as (r & o1 & E1 & M1 & ->). fold mls. rewrite E1.
  destruct (xok_elim _ _ o1 (context_from_string_ok mls (db_symbols db) (db_indexes db) (dd_symbols db Hd) Hix Hp c user role type Hn Hr Hsz) M1) as (r & o2 & E2 & _ & <-). fold text in E2.
  pose proof Ec as Hx. rewrite sidtab_search_ok in Hx by done. assert (exists i, sids (sv_sidtab sv) !! i = Some c) as [i Hi] by (destruct (sids (sv_sidtab sv) !! sid) eqn:E; simplify_eq; eauto).
  destruct (context_to_sid_known (sv_sidtab sv) c o2 i Htab Hi) as (y & E3 & Hy & Hpos). exists o1, y, o2. rewrite E2, E3. split_and!; [done|by destruct sv|].
  rewrite sidtab_search_ok by (done || lia). by rewrite Hy.
Qed.
