(* ===== verification/ServicesObjects.v ===== *)
(** * ServicesObjects: the SIDs of labelled objects

    libsepol/src/services.c, from [sepol_fs_sid] to [sepol_fs_use]: the label
    of a file system, port, interface or node is the context of the first
    entry of the policy that matches; its SID is looked up once and kept in
    the entry ([sid[0]], and [sid[1]] for file systems and interfaces).

    The lists a policy file does not have are empty.  The functions are for
    SELinux policies: the entries of another target have another member of the
    union, which is nothing that can be read. *)
From Stdlib Require Import ZArith Lia Bool String.
From stdpp Require Import base option list list_numbers gmap sets sorting.
From S2P Require Import Prelude PolicyFile Mem Ebitmap EbitmapThms Hashtab HashtabThms Symtab Avtab AvtabThms AvtabIO Cond Codec Symbols SymCodec SymbolsIO SymbolsThms Trans TransFt Index IndexThms IndexAll SymbolsSound Contexts ContextsIO ContextsValid ContextsSound ContextText CondIO CondSound Policydb PolicydbIO PolicydbSound Sidtab Constraint Services ServicesThms ServicesSpec.

Open Scope Z_scope.

Definition SECINITSID_FS : Z := 4.
Definition SECINITSID_FILE : Z := 5.
Definition SECINITSID_PORT : Z := 9.
Definition SECINITSID_NETIF : Z := 10.
Definition SECINITSID_NETMSG : Z := 11.
Definition SECINITSID_NODE : Z := 12.
Definition SECURITY_FS_USE_GENFS : Z := 4.
Definition SECURITY_FS_USE_NONE : Z := 5.
Definition AF_INET : Z := 2.
Definition AF_INET6 : Z := 10.
Definition ENOENT : Z := 2.

Definition set_labels (db : policydb) (ocs : list (list ocontext)) (gs : list genfs) : policydb :=
  mk_policydb (db_header db) (db_policycaps db) (db_permissive_map db) (db_symbols db) (db_process_class db) (db_dir_class db)
    (db_process_trans db) (db_process_trans_dyntrans db) (db_te_avtab db) (db_cond db) (db_cond_list db) (db_compat db) (db_role_tr db)
    (db_role_allow db) (db_filename_trans db) (db_decls db) (db_decl_index db) (db_class_indexes db) (db_indexes db) ocs gs
    (db_range_tr db) (db_type_attr_map db) (db_attr_type_map db) (db_unsupported_format db).

Definition objects (db : policydb) (i : Z) : list ocontext := default [] (db_ocontexts db !! Z.to_nat i).

Definition set_object (i : Z) (k : nat) (c : ocontext) (db : policydb) : policydb :=
  set_labels db (alter (<[k := c]>) (Z.to_nat i) (db_ocontexts db)) (db_genfs db).

(** The entry [k] of the file system [g]. *)
Definition set_entry (g k : nat) (c : ocontext) (db : policydb) : policydb :=
  set_labels db (db_ocontexts db) (alter (fun x => mk_genfs (fstype x) (<[k := c]> (head x))) g (db_genfs db)).

Definition set_sids (c : ocontext) (sid0 sid1 : Z) : ocontext := mk_ocontext (oc_u c) (oc_v c) (oc_context0 c) (oc_context1 c) sid0 sid1.

Definition set_db (sv : server) (db : policydb) : server := mk_server (Some db) (sv_own sv) (sv_sidtab sv) (sv_stack sv).

(** The loops over a list, with the condition at which they stop; [None]: the
    condition reads another member of the union. *)
Fixpoint first_object (matches : ocontext -> option bool) (l : list ocontext) : option (option (nat * ocontext)) :=
  match l with
  | [] => Some None
  | c :: l =>
      b ← matches c;
      if b : bool then Some (Some (0%nat, c)) else
      r ← first_object matches l;
      Some (match r with Some (k, c) => Some (S k, c) | None => None end)
  end.

(** [if (!c->sid[0]) { rc = sepol_sidtab_context_to_sid(...); if (rc) goto out; }
    *out_sid = c->sid[0];]: the code, what is set, the entry and the table. *)
Definition object_sid (s : sidtab) (c : ocontext) : X (Z * option Z * ocontext * sidtab) :=
  if ctrue (oc_sid0 c) then xret (0, Some (oc_sid0 c), c, s) else
  fun o => match sepol_sidtab_context_to_sid s (oc_context0 c) o with
           | None => None
           | Some (rc, sid, s, o) => Some (Some (rc, (if ctrue rc then None else Some sid), set_sids c sid (oc_sid1 c), s), o)
           end.

(** The same for two contexts. *)
Definition object_sids (s : sidtab) (c : ocontext) : X (Z * option (Z * Z) * ocontext * sidtab) :=
  if ctrue (oc_sid0 c) && ctrue (oc_sid1 c) then xret (0, Some (oc_sid0 c, oc_sid1 c), c, s) else
  fun o => match sepol_sidtab_context_to_sid s (oc_context0 c) o with
           | None => None
           | Some (rc, sid0, s, o) =>
               let c := set_sids c sid0 (oc_sid1 c) in
               if ctrue rc then Some (Some (rc, None, c, s), o) else
               match sepol_sidtab_context_to_sid s (oc_context1 c) o with
               | None => None
               | Some (rc, sid1, s, o) =>
                   Some (Some (rc, (if ctrue rc then None else Some (sid0, sid1)), set_sids c sid0 sid1, s), o)
               end
           end.

(** The code, [*out_sid] ([None] if it was not set), and the server. *)
Definition sid_of_first (sv : server) (i : Z) (matches : ocontext -> option bool) (otherwise : Z) : X (Z * option Z * server) :=
  db <- xopt (sv_db sv) ;;;
  found <- xopt (first_object matches (objects db i)) ;;;
  match found with
  | None => xret (0, Some otherwise, sv)
  | Some (k, c) =>
      r <- object_sid (sv_sidtab sv) c ;;;
      xret (r.1.1.1, r.1.1.2, set_sidtab (set_db sv (set_object i k r.1.2 db)) r.2)
  end.

Definition sids_of_first (sv : server) (i : Z) (matches : ocontext -> option bool) (otherwise : Z * Z) : X (Z * option (Z * Z) * server) :=
  db <- xopt (sv_db sv) ;;;
  found <- xopt (first_object matches (objects db i)) ;;;
  match found with
  | None => xret (0, Some otherwise, sv)
  | Some (k, c) =>
      r <- object_sids (sv_sidtab sv) c ;;;
      xret (r.1.1.1, r.1.1.2, set_sidtab (set_db sv (set_object i k r.1.2 db)) r.2)
  end.

(** ** The objects *)

(** Two of the three callers compare in the other order. *)
Definition name_matches (name : cstring) (c : ocontext) : option bool :=
  match oc_u c with U_NAME n => Some (strcmp n name =? 0) | _ => None end.

Definition sepol_fs_sid (sv : server) (name : cstring) : X (Z * option (Z * Z) * server) :=
  sids_of_first sv OCON_FS (name_matches name) (SECINITSID_FS, SECINITSID_FILE).

Definition ibpkey_matches (subnet_prefix pkey : Z) (c : ocontext) : option bool :=
  match oc_u c with U_IBPKEY prefix low high => Some ((low <=? pkey) && (pkey <=? high) && (subnet_prefix =? le_combine prefix)) | _ => None end.

Definition sepol_ibpkey_sid (sv : server) (subnet_prefix pkey : Z) : X (Z * option Z * server) :=
  sid_of_first sv OCON_IBPKEY (ibpkey_matches subnet_prefix pkey) SECINITSID_UNLABELED.

Definition ibendport_matches (dev_name : cstring) (port : Z) (c : ocontext) : option bool :=
  match oc_u c with U_IBENDPORT name p => Some ((p =? port) && (strcmp dev_name name =? 0)) | _ => None end.

Definition sepol_ibendport_sid (sv : server) (dev_name : cstring) (port : Z) : X (Z * option Z * server) :=
  sid_of_first sv OCON_IBENDPORT (ibendport_matches dev_name port) SECINITSID_UNLABELED.

Definition port_matches (protocol port : Z) (c : ocontext) : option bool :=
  match oc_u c with U_PORT p low high => Some ((p =? protocol) && (low <=? port) && (port <=? high)) | _ => None end.

Definition sepol_port_sid (sv : server) (protocol port : Z) : X (Z * option Z * server) :=
  sid_of_first sv OCON_PORT (port_matches protocol port) SECINITSID_PORT.

Definition sepol_netif_sid (sv : server) (name : cstring) : X (Z * option (Z * Z) * server) :=
  sids_of_first sv OCON_NETIF (name_matches name) (SECINITSID_NETIF, SECINITSID_NETMSG).

(** The loop stops at the first word that differs. *)
Fixpoint match_words (n : nat) (input addr mask : list Z) : option bool :=
  match n with
  | O => Some true
  | S n =>
      match input, addr, mask with
      | w :: input, a :: addr, m :: mask => if a =? Z.land w m then match_words n input addr mask else Some false
      | _, _, _ => None
      end
  end.

Definition match_ipv6_addrmask (input addr mask : list Z) : option bool := match_words 4 input addr mask.

Definition node_matches_addr (addr : Z) (c : ocontext) : option bool :=
  match oc_u c with U_NODE a m => Some (a =? Z.land addr m) | _ => None end.
Definition node6_matches (input : list Z) (c : ocontext) : option bool :=
  match oc_u c with U_NODE6 a m => match_ipv6_addrmask input a m | _ => None end.

(** [addrp] as words of 32 bits. *)
Definition sepol_node_sid (sv : server) (domain : Z) (addrp : list Z) (addrlen : Z) : X (Z * option Z * server) :=
  if domain =? AF_INET then
    if negb (addrlen =? 4) then xret (- EINVAL, None, sv) else
    addr <- xopt (addrp !! 0%nat) ;;;
    sid_of_first sv OCON_NODE (node_matches_addr addr) SECINITSID_NODE
  else if domain =? AF_INET6 then
    if negb (addrlen =? 16) then xret (- EINVAL, None, sv) else
    sid_of_first sv OCON_NODE6 (node6_matches addrp) SECINITSID_NODE
  else xret (0, Some SECINITSID_NODE, sv).

(** ** File systems *)

Definition strncmp (a b : cstring) (n : Z) : Z := strcmp (take (Z.to_nat n) a) (take (Z.to_nat n) b).

(** The loop over the file systems: the first whose name is not before
    [fstype], with its place and the result of the last comparison. *)
Fixpoint genfs_search (fs : cstring) (l : list genfs) (cmp : Z) : option (nat * genfs) * Z :=
  match l with
  | [] => (None, cmp)
  | g :: l =>
      let cmp := strcmp fs (fstype g) in
      if cmp <=? 0 then (Some (0%nat, g), cmp) else
      let '(r, cmp) := genfs_search fs l cmp in (match r with Some (k, x) => Some (S k, x) | None => None end, cmp)
  end.

Definition path_matches (path : cstring) (sclass : Z) (c : ocontext) : option bool :=
  match oc_u c with
  | U_NAME n => Some ((negb (ctrue (oc_v c)) || (sclass =? oc_v c)) && (strncmp n path (zlength n) =? 0))
  | _ => None
  end.

Definition sepol_genfs_sid (sv : server) (fs path : cstring) (sclass : Z) : X (Z * option Z * server) :=
  db <- xopt (sv_db sv) ;;;
  match genfs_search fs (db_genfs db) 0 with
  | (Some (g, x), 0) =>
      found <- xopt (first_object (path_matches path sclass) (head x)) ;;;
      match found with
      | None => xret (- ENOENT, Some SECINITSID_UNLABELED, sv)
      | Some (k, c) =>
          r <- object_sid (sv_sidtab sv) c ;;;
          xret (r.1.1.1, r.1.1.2, set_sidtab (set_db sv (set_entry g k r.1.2 db)) r.2)
      end
  | _ => xret (- ENOENT, Some SECINITSID_UNLABELED, sv)
  end.

(** The code, [*behavior] and [*sid]. *)
Definition sepol_fs_use (sv : server) (fs : cstring) : X (Z * Z * option Z * server) :=
  db <- xopt (sv_db sv) ;;;
  found <- xopt (first_object (name_matches fs) (objects db OCON_FSUSE)) ;;;
  match found with
  | Some (k, c) =>
      r <- object_sid (sv_sidtab sv) c ;;;
      xret (r.1.1.1, oc_v c, r.1.1.2, set_sidtab (set_db sv (set_object OCON_FSUSE k r.1.2 db)) r.2)
  | None =>
      r <- sepol_genfs_sid sv fs (lit "/") (db_dir_class db) ;;;
      xret (0, (if ctrue r.1.1 then SECURITY_FS_USE_NONE else SECURITY_FS_USE_GENFS), r.1.2, r.2)
  end.

(** * Labels and the SIDs kept for them

    What a server keeps true whatever it is asked: its policy is consistent,
    every SID names a valid context, and a SID kept in an entry of the policy
    names the context of the entry.  The functions on labelled objects answer
    with the first entry that matches; for paths below a file system this is
    the longest prefix. *)

(** ** The invariant *)

(** The SID, if there is one, is one of the context. *)
Definition sid_names (tab : sidtab) (c : context_struct) (sid : Z) : Prop := sid = 0 \/ sids tab !! sid = Some c.

Definition object_labelled (tab : sidtab) (i : Z) (c : ocontext) : Prop :=
  (i <> OCON_ISID -> sid_names tab (oc_context0 c) (oc_sid0 c)) /\ sid_names tab (oc_context1 c) (oc_sid1 c).

Definition db_context (db : policydb) : context_struct -> Prop := context_sound (h_mls (db_header db)) (db_symbols db).

Record server_sound (sv : server) (db : policydb) : Prop := mk_server_sound {
  ss_db : sv_db sv = Some db;
  ss_policy : db_sound db;
  ss_table : sidtab_ok (sv_sidtab sv);
  ss_contexts : map_Forall (fun _ => db_context db) (sids (sv_sidtab sv));
  ss_objects : forall i cs, db_ocontexts db !! i = Some cs -> Forall (object_labelled (sv_sidtab sv) (Z.of_nat i)) cs;
  ss_genfs : Forall (fun g => Forall (fun c => sid_names (sv_sidtab sv) (oc_context0 c) (oc_sid0 c)) (head g)) (db_genfs db) }.

Lemma sid_names_mono tab tab' c sid : sids tab ⊆ sids tab' -> sid_names tab c sid -> sid_names tab' c sid.
Proof. intros H [->|E]; [by left|right]. by eapply lookup_weaken. Qed.

Lemma labelled_mono tab tab' i c : sids tab ⊆ sids tab' -> object_labelled tab i c -> object_labelled tab' i c.
Proof. intros H [H0 H1]. split; [intros Hi; eapply sid_names_mono; eauto|by eapply sid_names_mono]. Qed.

(** A policy that was just read. *)
Lemma fresh_sound sv db :
  sv_db sv = Some db -> db_sound db -> db_fresh db -> sidtab_ok (sv_sidtab sv) -> map_Forall (fun _ => db_context db) (sids (sv_sidtab sv)) -> server_sound sv db.
Proof.
  intros E Hd [Hf Hg] Ht Hc. constructor; try done.
  - intros i cs Hi. eapply Forall_impl; [by apply Hf|]. intros c [H1 H0]. split; [intros Hne; left; by apply H0|by left].
  - eapply Forall_impl; [exact Hg|]. intros g H. eapply Forall_impl; [exact H|]. intros c. by left.
Qed.

(** A table with more SIDs. *)
Lemma more_sids sv db tab :
  server_sound sv db -> sidtab_ok tab -> sids (sv_sidtab sv) ⊆ sids tab -> map_Forall (fun _ => db_context db) (sids tab) -> server_sound (set_sidtab sv tab) db.
Proof.
  intros [H1 H2 H3 H4 H5 H6] Ht Hsub Hc. constructor; try done; cbn [set_sidtab sv_sidtab].
  - intros i cs Hi. eapply Forall_impl; [by apply (H5 i)|]. intros c. by apply labelled_mono.
  - eapply Forall_impl; [exact H6|]. intros g H. eapply Forall_impl; [exact H|]. intros c. by apply sid_names_mono.
Qed.

(** A SID for a context, in a table whose contexts are all alike. *)
Lemma intern_table (P : context_struct -> Prop) tab c o :
  sidtab_ok tab -> map_Forall (fun _ => P) (sids tab) -> P c ->
  exists rc sid tab' o', sepol_sidtab_context_to_sid tab c o = Some (rc, sid, tab', o') /\ sidtab_ok tab' /\ map_Forall (fun _ => P) (sids tab') /\ sids tab ⊆ sids tab' /\
    sid_names tab' c sid /\ (rc = 0 /\ sids tab' !! sid = Some c \/ rc = - ENOMEM /\ tab' = tab /\ (mem_ok o -> shutdown tab = false -> next_sid tab = 2 ^ 32 - 1)).
Proof.
  intros Ht Hall Hc. destruct (context_to_sid_ok tab c o Ht) as (rc & sid & tab' & o' & E & _ & Ht' & _ & H). exists rc, sid, tab', o'. split; [done|]. split; [done|].
  destruct H as [(-> & _ & Hs & [->|(Hn & Hab & _)])|(-> & -> & _ & Hm & ->)].
  - split_and!; [done..|by right|by left].
  - split_and!; [rewrite Hab; by apply map_Forall_insert_2|rewrite Hab; by apply insert_subseteq|by right|by left].
  - split_and!; [done..|by left|by right].
Qed.

(** ** Changing the labels of a policy *)

Definition relabelled (db db' : policydb) : Prop := exists ocs gs, db' = set_labels db ocs gs.

Lemma relabelled_refl db : relabelled db db.
Proof. exists (db_ocontexts db), (db_genfs db). by destruct db. Qed.

Lemma relabelled_trans db1 db2 db3 : relabelled db1 db2 -> relabelled db2 db3 -> relabelled db1 db3.
Proof. intros (o1 & g1 & ->) (o2 & g2 & ->). by exists o2, g2. Qed.

Lemma set_labels_sound db ocs gs :
  db_sound db -> objects_sound (h_mls (db_header db)) (db_symbols db) (h_target (db_header db)) ocs -> genfs_sound (h_mls (db_header db)) (db_symbols db) gs ->
  db_sound (set_labels db ocs gs).
Proof. intros [] Ho Hg. by constructor. Qed.

(** Two entries that differ in their SIDs. *)
Definition same_entry (c c' : ocontext) : Prop := oc_u c' = oc_u c /\ oc_v c' = oc_v c /\ oc_context0 c' = oc_context0 c /\ oc_context1 c' = oc_context1 c.

Lemma same_set_sids c a b : same_entry c (set_sids c a b).
Proof. done. Qed.

Lemma set_object_sound sv db i k c c' tab :
  server_sound sv db -> 0 <= i -> i <> OCON_ISID -> objects db i !! k = Some c -> same_entry c c' -> object_labelled tab i c' ->
  sidtab_ok tab -> sids (sv_sidtab sv) ⊆ sids tab -> map_Forall (fun _ => db_context db) (sids tab) ->
  server_sound (set_sidtab (set_db sv (set_object i k c' db)) tab) (set_object i k c' db).
Proof.
  intros Hsv Hi0 Hi Hk (E1 & E2 & E3 & E4) Hl Ht Hsub Hc. pose proof (more_sids sv db tab Hsv Ht Hsub Hc) as [M1 M2 M3 M4 M5 M6]. cbn [set_sidtab sv_sidtab] in *.
  unfold objects in Hk. destruct (db_ocontexts db !! Z.to_nat i) as [cs|] eqn:Ecs; [|done]. cbn in Hk.
  assert (Halt : forall j cs', alter (<[k := c']>) (Z.to_nat i) (db_ocontexts db) !! j = Some cs' ->
    (j = Z.to_nat i /\ cs' = <[k := c']> cs) \/ db_ocontexts db !! j = Some cs').
  { intros j cs' Hj. destruct (decide (j = Z.to_nat i)) as [->|Hne]; [|right; by rewrite list_lookup_alter_ne in Hj]. rewrite list_lookup_alter_eq, Ecs in Hj. by simplify_option_eq; left. }
  constructor; try done.
  - apply set_labels_sound; [done| |apply (dd_objects db M2)]. destruct (dd_objects db M2) as [Ho _]. intros j cs' Hj. apply Halt in Hj as [[-> ->]|Hj]; [|by apply Ho].
    specialize (Ho _ _ Ecs). apply Forall_insert; [done|]. rewrite Forall_lookup in Ho. specialize (Ho k c Hk). unfold object_sound in *. by rewrite E1, E3, E4.
  - intros j cs' Hj. apply Halt in Hj as [[-> ->]|Hj]; [|by apply (M5 j)]. apply Forall_insert; [by apply (M5 (Z.to_nat i))|]. by rewrite Z2Nat.id.
Qed.

Lemma StronglySorted_insert_same {A} (R : A -> A -> Prop) l k x x' :
  StronglySorted R l -> l !! k = Some x -> (forall y, R y x -> R y x') -> (forall y, R x y -> R x' y) -> StronglySorted R (<[k := x']> l).
Proof.
  intros HS. revert k. induction HS as [|y l HS IH Hall]; intros k Hk Hl Hr; [done|]. destruct k as [|k]; cbn in *.
  - simplify_eq. constructor; [done|]. eapply Forall_impl; [exact Hall|done].
  - constructor; [by apply IH|]. apply Forall_insert; [done|]. apply Hl. rewrite Forall_lookup in Hall. by apply (Hall k).
Qed.

Lemma set_entry_sound sv db g x k c c' tab :
  server_sound sv db -> db_genfs db !! g = Some x -> head x !! k = Some c -> same_entry c c' -> sid_names tab (oc_context0 c') (oc_sid0 c') ->
  sidtab_ok tab -> sids (sv_sidtab sv) ⊆ sids tab -> map_Forall (fun _ => db_context db) (sids tab) ->
  server_sound (set_sidtab (set_db sv (set_entry g k c' db)) tab) (set_entry g k c' db).
Proof.
  intros Hsv Hg Hk (E1 & E2 & E3 & E4) Hl Ht Hsub Hc. pose proof (more_sids sv db tab Hsv Ht Hsub Hc) as [M1 M2 M3 M4 M5 M6]. cbn [set_sidtab sv_sidtab] in *.
  set (x' := mk_genfs (fstype x) (<[k := c']> (head x))).
  assert (Egs : db_genfs (set_entry g k c' db) = <[g := x']> (db_genfs db)).
  { cbn. apply list_eq. intros j. destruct (decide (g = j)) as [<-|Hne]; [|by rewrite list_lookup_alter_ne, list_lookup_insert_ne].
    rewrite list_lookup_alter_eq, list_lookup_insert_eq by (by eapply lookup_lt_Some). by rewrite Hg. }
  assert (Hname : oc_name c' = oc_name c) by (unfold oc_name; by rewrite E1).
  constructor; try done.
  - destruct (dd_objects db M2) as [Ho [HS Hall]]. apply set_labels_sound; [done|done|]. change (alter _ g (db_genfs db)) with (db_genfs (set_entry g k c' db)). rewrite Egs. rewrite Forall_lookup in Hall. destruct (Hall g x Hg) as [He HSe]. split.
    + apply (StronglySorted_insert_same genfs_before _ _ x); [done|done|by intros y ?..].
    + apply Forall_insert; [by apply Forall_lookup|]. split.
      * apply Forall_insert; [done|]. rewrite Forall_lookup in He. destruct (He k c Hk) as [H1 H2]. unfold entry_sound. by rewrite E1, E3, Hname.
      * apply (StronglySorted_insert_same entry_before _ _ c); [done|done| |]; intros y; unfold entry_before; by rewrite Hname, E2.
  - rewrite Egs. apply Forall_insert; [done|]. cbn. apply Forall_insert; [|done]. rewrite Forall_lookup in M6. by apply (M6 g).
Qed.

(** ** The first entry that matches *)

Definition first_match (b : ocontext -> bool) (l : list ocontext) (r : option (nat * ocontext)) : Prop :=
  match r with
  | None => forall c, c ∈ l -> b c = false
  | Some (k, c) => l !! k = Some c /\ b c = true /\ forall j c', (j < k)%nat -> l !! j = Some c' -> b c' = false
  end.

Lemma first_object_ok matches b l : (forall c, c ∈ l -> matches c = Some (b c)) -> exists r, first_object matches l = Some r /\ first_match b l r.
Proof.
  induction l as [|c l IH]; intros H; cbn [first_object].
  - exists None. split; [done|]. intros c Hc. by apply not_elem_of_nil in Hc.
  - rewrite H by left. cbn [mbind option_bind]. destruct (b c) eqn:Eb.
    + exists (Some (0%nat, c)). split; [done|]. split_and!; [done..|]. intros j c' Hj. lia.
    + destruct IH as (r & -> & Hr); [intros c' Hc'; apply H; by right|]. eexists. split; [done|]. destruct r as [[k c']|]; cbn in *.
      * destruct Hr as (H1 & H2 & H3). split_and!; [done..|]. intros [|j] c2 Hj; cbn; [by intros [= <-]|]. apply H3. lia.
      * intros c' [->|Hc']%elem_of_cons; [done|by apply Hr].
Qed.

(** The answer is a SID of the context, or there is no memory or no number
    left. *)
Definition answers (tab tab' : sidtab) (c : context_struct) (o : oracle) (rc : Z) (sid : option Z) : Prop :=
  (rc = 0 /\ exists x, sid = Some x /\ sids tab' !! x = Some c) \/
  (rc = - ENOMEM /\ sid = None /\ (mem_ok o -> shutdown tab = false -> next_sid tab = 2 ^ 32 - 1)).

Lemma object_sid_ok (P : context_struct -> Prop) tab c o :
  sidtab_ok tab -> map_Forall (fun _ => P) (sids tab) -> P (oc_context0 c) -> sid_names tab (oc_context0 c) (oc_sid0 c) ->
  exists rc sid c' tab' o', object_sid tab c o = Some (Some (rc, sid, c', tab'), o') /\ sidtab_ok tab' /\ map_Forall (fun _ => P) (sids tab') /\ sids tab ⊆ sids tab' /\
    same_entry c c' /\ oc_sid1 c' = oc_sid1 c /\ sid_names tab' (oc_context0 c') (oc_sid0 c') /\ answers tab tab' (oc_context0 c) o rc sid.
Proof.
  intros Ht Hall Hc Hsid. unfold object_sid. destruct (ctrue (oc_sid0 c)) eqn:E0.
  - exists 0, (Some (oc_sid0 c)), c, tab, o. split_and!; try done. left. split; [done|]. exists (oc_sid0 c). split; [done|]. destruct Hsid as [Hz|]; [by rewrite Hz in E0|done].
  - destruct (intern_table P tab (oc_context0 c) o Ht Hall Hc) as (rc & sid & tab' & o' & -> & Ht' & Hall' & Hsub & Hn & Hrc). eexists _, _, _, tab', o'. split; [done|].
    split_and!; try done. destruct Hrc as [[-> Hx]|(-> & _ & Hm)]; [left|right]; split_and!; try done. cbn. by exists sid.
Qed.

Lemma list_object db i c : db_sound db -> h_target (db_header db) = SEPOL_TARGET_SELINUX -> 0 <= i -> c ∈ objects db i ->
  db_context db (oc_context0 c) /\ object_kind i (oc_u c) /\ (two_contexts i = true -> db_context db (oc_context1 c)).
Proof.
  intros Hd Ht Hi Hc. unfold objects in Hc. destruct (db_ocontexts db !! Z.to_nat i) as [cs|] eqn:E; [|by apply not_elem_of_nil in Hc]. cbn in Hc.
  destruct (dd_objects db Hd) as [Ho _]. specialize (Ho _ _ E). rewrite Z2Nat.id in Ho by done. rewrite Forall_forall in Ho. destruct (Ho c Hc) as [H1 H2]. destruct (H2 Ht). by split_and!.
Qed.

Lemma list_labelled sv db i c : server_sound sv db -> 0 <= i -> c ∈ objects db i -> object_labelled (sv_sidtab sv) i c.
Proof.
  intros Hsv Hi Hc. unfold objects in Hc. destruct (db_ocontexts db !! Z.to_nat i) as [cs|] eqn:E; [|by apply not_elem_of_nil in Hc]. cbn in Hc.
  pose proof (ss_objects sv db Hsv _ _ E) as H. rewrite Z2Nat.id in H by done. rewrite Forall_forall in H. by apply H.
Qed.

Section First.
Context (sv : server) (db : policydb) (Hsv : server_sound sv db) (Htarget : h_target (db_header db) = SEPOL_TARGET_SELINUX).
Context (i : Z) (Hi : 0 < i) (matches : ocontext -> option bool) (b : ocontext -> bool).
Context (Hb : forall c, c ∈ objects db i -> matches c = Some (b c)).

(** What a function that answers with one SID does. *)
Definition first_answer (otherwise : Z) (o : oracle) (rc : Z) (sid : option Z) (sv' : server) : Prop :=
  exists db' r, server_sound sv' db' /\ relabelled db db' /\ sids (sv_sidtab sv) ⊆ sids (sv_sidtab sv') /\ first_match b (objects db i) r /\
    match r with
    | None => rc = 0 /\ sid = Some otherwise
    | Some (_, c) => answers (sv_sidtab sv) (sv_sidtab sv') (oc_context0 c) o rc sid
    end.

Lemma sid_of_first_ok otherwise o :
  exists rc sid sv' o', sid_of_first sv i matches otherwise o = Some (Some (rc, sid, sv'), o') /\ first_answer otherwise o rc sid sv'.
Proof using Hsv Htarget Hi Hb.
  unfold sid_of_first. rewrite (ss_db sv db Hsv). unfold xopt, xbind, xret. destruct (first_object_ok matches b (objects db i) Hb) as (r & Er & Hr). rewrite Er.
  destruct r as [[k c]|].
  2:{ exists 0, (Some otherwise), sv, o. split; [done|]. exists db, None. split_and!; try done. apply relabelled_refl. }
  pose proof Hr as (Hk & _). assert (Hc : c ∈ objects db i) by (by eapply list_elem_of_lookup_2).
  destruct (list_object db i c (ss_policy sv db Hsv) Htarget ltac:(lia) Hc) as (Hc0 & _ & _). destruct (list_labelled sv db i c Hsv ltac:(lia) Hc) as [Hl0 Hl1].
  destruct (object_sid_ok (db_context db) (sv_sidtab sv) c o (ss_table sv db Hsv) (ss_contexts sv db Hsv) Hc0) as (rc & sid & c' & tab' & o' & -> & Ht' & Hall' & Hsub & Hsame & E1 & Hn & Hans).
  { apply Hl0. unfold OCON_ISID. lia. }
  exists rc, sid, (set_sidtab (set_db sv (set_object i k c' db)) tab'), o'. split; [done|]. exists (set_object i k c' db), (Some (k, c)).
  split_and!; try done. 2: by eexists _, _.
  apply (set_object_sound sv db i k c); try done; try lia; try (unfold OCON_ISID; lia). split; [done|]. destruct Hsame as (_ & _ & _ & E). rewrite E1, E. by eapply sid_names_mono.
Qed.
End First.

Lemma port_sid_ok sv db protocol port o :
  server_sound sv db -> h_target (db_header db) = SEPOL_TARGET_SELINUX ->
  let covers c := match oc_u c with U_PORT p low high => (p =? protocol) && (low <=? port) && (port <=? high) | _ => false end in
  exists rc sid sv' o', sepol_port_sid sv protocol port o = Some (Some (rc, sid, sv'), o') /\ first_answer sv db OCON_PORT covers SECINITSID_PORT o rc sid sv'.
Proof.
  intros Hsv Ht covers. apply (sid_of_first_ok sv db Hsv Ht OCON_PORT ltac:(done)). intros c Hc. destruct (list_object db OCON_PORT c (ss_policy sv db Hsv) Ht ltac:(done) Hc) as (_ & Hk & _).
  unfold port_matches, covers. by destruct (oc_u c); try (cbn in Hk; by naive_solver).
Qed.

(** [sepol_port_sid] on a SELinux policy, whichever allocations fail: the
    SID names the context of the first entry of the policy with the protocol
    and a range of ports around the port; without one it is the initial SID of
    ports.  The SID is kept in the entry; the server stays sound and no SID
    changes. *)
Theorem port_sid_spec sv db protocol port o :
  server_sound sv db -> h_target (db_header db) = SEPOL_TARGET_SELINUX ->
  let covers c := match oc_u c with U_PORT p low high => (p =? protocol) && (low <=? port) && (port <=? high) | _ => false end in
  exists rc sid sv' o', sepol_port_sid sv protocol port o = Some (Some (rc, sid, sv'), o') /\ first_answer sv db OCON_PORT covers SECINITSID_PORT o rc sid sv'.
Proof. apply port_sid_ok. Qed.

(** ** Paths *)

Lemma genfs_search_ok fs l cmp :
  StronglySorted genfs_before l ->
  match genfs_search fs l cmp with
  | (Some (g, x), 0) => l !! g = Some x /\ fstype x = fs
  | _ => forall x, x ∈ l -> fstype x <> fs
  end.
Proof.
  intros HS. revert cmp. induction HS as [|x l HS IH Hall]; intros cmp; cbn [genfs_search]. { intros x Hx. by apply not_elem_of_nil in Hx. }
  destruct (Z.leb_spec (strcmp fs (fstype x)) 0) as [Hle|Hgt].
  - destruct (Z.eq_dec (strcmp fs (fstype x)) 0) as [E|Hne]; [rewrite E; split; [done|by apply strcmp_eq in E]|].
    assert (Hno : forall y, y ∈ x :: l -> fstype y <> fs).
    { intros y [->|Hy]%elem_of_cons E; [apply Hne; by apply strcmp_eq|]. rewrite Forall_forall in Hall. specialize (Hall y Hy). unfold genfs_before in Hall. rewrite E in Hall. lia. }
    by destruct (strcmp fs (fstype x)).
  - specialize (IH (strcmp fs (fstype x))). destruct (genfs_search fs l _) as [[[k y]|] cmp'].
    + assert (Hfs : fstype x <> fs). { intros E. apply eq_sym, strcmp_eq in E. lia. }
      destruct cmp'; [done|..]; intros z [->|Hz]%elem_of_cons; try done; by apply IH.
    + intros z [->|Hz]%elem_of_cons; [|by apply IH]. intros E. apply eq_sym, strcmp_eq in E. lia.
Qed.

Definition path_covers (path : cstring) (sclass : Z) (c : ocontext) : Prop := (oc_v c = 0 \/ sclass = oc_v c) /\ oc_name c `prefix_of` path.

#[local] Instance path_covers_dec path sclass c : Decision (path_covers path sclass c).
Proof. unfold path_covers. apply _. Defined.

Lemma strncmp_prefix n path : strncmp n path (zlength n) = 0 <-> n `prefix_of` path.
Proof.
  unfold strncmp, zlength. rewrite Nat2Z.id, strcmp_eq, firstn_all. split.
  - intros E. exists (drop (length n) path). rewrite E at 1. by rewrite take_drop.
  - intros [tail ->]. by rewrite take_app_length.
Qed.

Lemma path_matches_ok path sclass c : oc_u c = U_NAME (oc_name c) -> path_matches path sclass c = Some (bool_decide (path_covers path sclass c)).
Proof.
  intros E. unfold path_matches. rewrite E. f_equal. apply eq_true_iff_eq. rewrite bool_decide_eq_true, andb_true_iff, orb_true_iff, negb_true_iff, !Z.eqb_eq, strncmp_prefix.
  unfold path_covers, ctrue. rewrite negb_false_iff, Z.eqb_eq. done.
Qed.

(** The entry for a path: one whose name is the longest prefix among those
    for the class. *)
Definition path_entry (db : policydb) (fs path : cstring) (sclass : Z) (c : ocontext) : Prop :=
  exists x, x ∈ db_genfs db /\ fstype x = fs /\ c ∈ head x /\ path_covers path sclass c /\
    forall c', c' ∈ head x -> path_covers path sclass c' -> zlength (oc_name c') <= zlength (oc_name c).

Lemma sorted_lookup {A} (R : A -> A -> Prop) l k j x y : StronglySorted R l -> (k < j)%nat -> l !! k = Some x -> l !! j = Some y -> R x y.
Proof.
  intros HS. revert k j. induction HS as [|z l HS IH Hall]; intros k j Hkj Hk Hj; [done|]. destruct j as [|j]; [lia|]. cbn in Hj.
  destruct k as [|k]; cbn in Hk; [simplify_eq; rewrite Forall_lookup in Hall; by apply (Hall j)|]. apply (IH k j); [lia|done..].
Qed.

Lemma first_is_longest path sclass l k c :
  StronglySorted entry_before l -> first_match (fun c => bool_decide (path_covers path sclass c)) l (Some (k, c)) ->
  path_covers path sclass c /\ forall c', c' ∈ l -> path_covers path sclass c' -> zlength (oc_name c') <= zlength (oc_name c).
Proof.
  intros HS (Hk & Hb & Hfirst). apply bool_decide_eq_true in Hb. split; [done|]. intros c' [j Hj]%list_elem_of_lookup_1 Hc'.
  destruct (decide (j < k)%nat) as [Hlt|Hge]. { specialize (Hfirst j c' Hlt Hj). cbn in Hfirst. by apply bool_decide_eq_false in Hfirst. }
  destruct (decide (j = k)) as [->|Hne]; [by simplify_eq|]. by destruct (sorted_lookup entry_before l k j c c' HS ltac:(lia) Hk Hj).
Qed.

Lemma genfs_sid_ok sv db fs path sclass o :
  server_sound sv db ->
  exists rc sid sv' o' db', sepol_genfs_sid sv fs path sclass o = Some (Some (rc, sid, sv'), o') /\ server_sound sv' db' /\ relabelled db db' /\
    sids (sv_sidtab sv) ⊆ sids (sv_sidtab sv') /\
    ((exists c, path_entry db fs path sclass c /\ answers (sv_sidtab sv) (sv_sidtab sv') (oc_context0 c) o rc sid) \/
     (forall c, ~ path_entry db fs path sclass c) /\ rc = - ENOENT /\ sid = Some SECINITSID_UNLABELED /\ sv' = sv).
Proof.
  intros Hsv. unfold sepol_genfs_sid. rewrite (ss_db sv db Hsv). unfold xopt, xbind, xret. destruct (dd_objects db (ss_policy sv db Hsv)) as [_ [HS Hall]].
  pose proof (genfs_search_ok fs (db_genfs db) 0 HS) as Hg.
  assert (Hnone : (forall c, ~ path_entry db fs path sclass c) -> exists rc sid sv' o' db', Some (Some (- ENOENT, Some SECINITSID_UNLABELED, sv), o) = Some (Some (rc, sid, sv'), o') /\
    server_sound sv' db' /\ relabelled db db' /\ sids (sv_sidtab sv) ⊆ sids (sv_sidtab sv') /\
    ((exists c, path_entry db fs path sclass c /\ answers (sv_sidtab sv) (sv_sidtab sv') (oc_context0 c) o rc sid) \/
     (forall c, ~ path_entry db fs path sclass c) /\ rc = - ENOENT /\ sid = Some SECINITSID_UNLABELED /\ sv' = sv)).
  { intros Hno. exists (- ENOENT), (Some SECINITSID_UNLABELED), sv, o, db. split_and!; try done; [apply relabelled_refl|by right]. }
  assert (Hmiss : (forall x, x ∈ db_genfs db -> fstype x <> fs) -> forall c, ~ path_entry db fs path sclass c) by (intros H c (x & Hx & E & _); by apply (H x)).
  destruct (genfs_search fs (db_genfs db) 0) as [[[g x]|] [|cmp|cmp]]; try (by apply Hnone, Hmiss). destruct Hg as [Hg Ex].
  rewrite Forall_lookup in Hall. destruct (Hall g x Hg) as [He HSe]. rewrite Forall_forall in He.
  destruct (first_object_ok (path_matches path sclass) (fun c => bool_decide (path_covers path sclass c)) (head x)) as (r & -> & Hr); [intros c Hc; by apply path_matches_ok, He|].
  assert (Hx : x ∈ db_genfs db) by (by eapply list_elem_of_lookup_2).
  destruct r as [[k c]|].
  2:{ apply Hnone. intros c (y & Hy & Ey & Hc & Hcov & _). assert (y = x) as ->; [|specialize (Hr c Hc); cbn in Hr; by apply bool_decide_eq_false in Hr].
      apply list_elem_of_lookup_1 in Hy as [j Hj]. destruct (Nat.lt_trichotomy g j) as [Hlt|[->|Hgt]]; [|by simplify_eq|].
      - pose proof (sorted_lookup _ _ _ _ _ _ HS Hlt Hg Hj) as H. unfold genfs_before in H. rewrite Ex, Ey, (proj2 (strcmp_eq fs fs) eq_refl) in H. lia.
      - pose proof (sorted_lookup _ _ _ _ _ _ HS Hgt Hj Hg) as H. unfold genfs_before in H. rewrite Ex, Ey, (proj2 (strcmp_eq fs fs) eq_refl) in H. lia. }
  pose proof Hr as (Hk & _). assert (Hc : c ∈ head x) by (by eapply list_elem_of_lookup_2). destruct (He c Hc) as [_ Hc0].
  assert (Hl : sid_names (sv_sidtab sv) (oc_context0 c) (oc_sid0 c)). { pose proof (ss_genfs sv db Hsv) as H. rewrite Forall_forall in H. specialize (H x Hx). rewrite Forall_forall in H. by apply H. }
  destruct (object_sid_ok (db_context db) (sv_sidtab sv) c o (ss_table sv db Hsv) (ss_contexts sv db Hsv) Hc0 Hl) as (rc & sid & c' & tab' & o' & -> & Ht' & Hall' & Hsub & Hsame & _ & Hn & Hans).
  exists rc, sid, (set_sidtab (set_db sv (set_entry g k c' db)) tab'), o', (set_entry g k c' db). split_and!; try done.
  - by apply (set_entry_sound sv db g x k c).
  - by eexists _, _.
  - left. exists c. split; [|done]. destruct (first_is_longest _ _ _ _ _ HSe Hr). exists x. by split_and!.
Qed.

(** C21: [sepol_genfs_sid], whichever allocations fail, finds the file system by
    its name although the list is searched only up to the first greater name,
    and answers with a SID of the entry for the path: one for the class of the
    file whose name is a prefix of the path, and the longest.  Without an
    entry it reports -ENOENT and the SID of unlabeled objects.  The server
    stays sound and no SID changes. *)
Theorem genfs_sid_spec sv db fs path sclass o :
  server_sound sv db ->
  exists rc sid sv' o' db', sepol_genfs_sid sv fs path sclass o = Some (Some (rc, sid, sv'), o') /\ server_sound sv' db' /\ relabelled db db' /\
    sids (sv_sidtab sv) ⊆ sids (sv_sidtab sv') /\
    ((exists c, path_entry db fs path sclass c /\ answers (sv_sidtab sv) (sv_sidtab sv') (oc_context0 c) o rc sid) \/
     (forall c, ~ path_entry db fs path sclass c) /\ rc = - ENOENT /\ sid = Some SECINITSID_UNLABELED /\ sv' = sv).
Proof. apply genfs_sid_ok. Qed.

(** ** File systems and interfaces *)

Definition answers_both (tab' : sidtab) (c0 c1 : context_struct) (rc : Z) (r : option (Z * Z)) : Prop :=
  (rc = 0 /\ exists x y, r = Some (x, y) /\ sids tab' !! x = Some c0 /\ sids tab' !! y = Some c1) \/ (rc = - ENOMEM /\ r = None).

Lemma object_sids_ok (P : context_struct -> Prop) tab c o :
  sidtab_ok tab -> map_Forall (fun _ => P) (sids tab) -> P (oc_context0 c) -> P (oc_context1 c) ->
  sid_names tab (oc_context0 c) (oc_sid0 c) -> sid_names tab (oc_context1 c) (oc_sid1 c) ->
  exists rc r c' tab' o', object_sids tab c o = Some (Some (rc, r, c', tab'), o') /\ sidtab_ok tab' /\ map_Forall (fun _ => P) (sids tab') /\ sids tab ⊆ sids tab' /\
    same_entry c c' /\ sid_names tab' (oc_context0 c) (oc_sid0 c') /\ sid_names tab' (oc_context1 c) (oc_sid1 c') /\
    answers_both tab' (oc_context0 c) (oc_context1 c) rc r.
Proof.
  intros Ht Hall Hc0 Hc1 Hs0 Hs1. unfold object_sids. destruct (ctrue (oc_sid0 c) && ctrue (oc_sid1 c)) eqn:E.
  - apply andb_prop in E as [E0 E1]. exists 0, (Some (oc_sid0 c, oc_sid1 c)), c, tab, o. split_and!; try done. left. split; [done|].
    exists (oc_sid0 c), (oc_sid1 c). destruct Hs0 as [Hz|?]; [by rewrite Hz in E0|]. destruct Hs1 as [Hz|?]; [by rewrite Hz in E1|]. done.
  - destruct (intern_table P tab (oc_context0 c) o Ht Hall Hc0) as (rc & sid & tab1 & o1 & -> & Ht1 & Hall1 & Hsub1 & Hn1 & Hrc1). cbv zeta. destruct Hrc1 as [[-> Hx]|(-> & -> & _)].
    2:{ eexists (- ENOMEM), None, _, tab, o1. split; [done|]. split_and!; try done. by right. }
    change (ctrue 0) with false. cbn iota. cbn [set_sids oc_context1].
    destruct (intern_table P tab1 (oc_context1 c) o1 Ht1 Hall1 Hc1) as (rc & sid1 & tab2 & o2 & -> & Ht2 & Hall2 & Hsub2 & Hn2 & Hrc2). eexists rc, _, _, tab2, o2. split; [done|].
    split_and!; try done; [by etrans|by eapply sid_names_mono|]. destruct Hrc2 as [[-> Hy]|(-> & _)]; [left|by right]. split; [done|]. cbn. exists sid, sid1. split_and!; try done. by eapply lookup_weaken.
Qed.

(** What the functions for file systems and interfaces do. *)
Definition named_answer (sv : server) (db : policydb) (i : Z) (name : cstring) (otherwise : Z * Z) (rc : Z) (r : option (Z * Z)) (sv' : server) : Prop :=
  exists db' f, server_sound sv' db' /\ relabelled db db' /\ sids (sv_sidtab sv) ⊆ sids (sv_sidtab sv') /\
    first_match (fun c => bool_decide (oc_name c = name)) (objects db i) f /\
    match f with
    | None => rc = 0 /\ r = Some otherwise
    | Some (_, c) => answers_both (sv_sidtab sv') (oc_context0 c) (oc_context1 c) rc r
    end.

Lemma name_matches_ok db i name c :
  db_sound db -> h_target (db_header db) = SEPOL_TARGET_SELINUX -> i = OCON_FS \/ i = OCON_NETIF \/ i = OCON_FSUSE -> c ∈ objects db i ->
  name_matches name c = Some (bool_decide (oc_name c = name)).
Proof.
  intros Hd Ht Hi Hc. destruct (list_object db i c Hd Ht ltac:(destruct Hi as [-> | [-> | ->]]; done) Hc) as (_ & Hk & _). unfold name_matches, oc_name.
  destruct (oc_u c) as [|n|? ? ?|? ?|? ?|?|?|? ?|? ?|? ? ?|? ?]; try (destruct Hi as [-> | [-> | ->]]; cbn in Hk; naive_solver).
  f_equal. apply eq_true_iff_eq. by rewrite Z.eqb_eq, strcmp_eq, bool_decide_eq_true.
Qed.

Lemma sids_of_first_ok sv db i name otherwise o :
  server_sound sv db -> h_target (db_header db) = SEPOL_TARGET_SELINUX -> i = OCON_FS \/ i = OCON_NETIF ->
  exists rc r sv' o', sids_of_first sv i (name_matches name) otherwise o = Some (Some (rc, r, sv'), o') /\ named_answer sv db i name otherwise rc r sv'.
Proof.
  intros Hsv Htarget Hi. unfold sids_of_first. rewrite (ss_db sv db Hsv). unfold xopt, xbind, xret.
  destruct (first_object_ok (name_matches name) (fun c => bool_decide (oc_name c = name)) (objects db i)) as (f & -> & Hf).
  { intros c Hc. apply (name_matches_ok db i); [apply (ss_policy sv db Hsv)|done|tauto|done]. }
  destruct f as [[k c]|].
  2:{ exists 0, (Some otherwise), sv, o. split; [done|]. exists db, None. split_and!; try done. apply relabelled_refl. }
  assert (Hi0 : 0 < i /\ two_contexts i = true) by (destruct Hi as [-> | ->]; done). destruct Hi0 as [Hi0 Htwo].
  pose proof Hf as (Hk & _). assert (Hc : c ∈ objects db i) by (by eapply list_elem_of_lookup_2).
  destruct (list_object db i c (ss_policy sv db Hsv) Htarget ltac:(lia) Hc) as (Hc0 & _ & Hc1). destruct (list_labelled sv db i c Hsv ltac:(lia) Hc) as [Hl0 Hl1].
  destruct (object_sids_ok (db_context db) (sv_sidtab sv) c o (ss_table sv db Hsv) (ss_contexts sv db Hsv) Hc0 (Hc1 Htwo)) as (rc & r & c' & tab' & o' & -> & Ht' & Hall' & Hsub & Hsame & Hn0 & Hn1 & Hans).
  { apply Hl0. unfold OCON_ISID. lia. } { done. }
  exists rc, r, (set_sidtab (set_db sv (set_object i k c' db)) tab'), o'. split; [done|]. exists (set_object i k c' db), (Some (k, c)).
  split_and!; try done. 2: by eexists _, _.
  apply (set_object_sound sv db i k c); try done; try lia; try (unfold OCON_ISID; lia). destruct Hsame as (_ & _ & E0 & E1). split; [intros _; by rewrite E0|by rewrite E1].
Qed.

(** The two contexts of a file system, and of an interface. *)
Theorem fs_sid_spec sv db name o :
  server_sound sv db -> h_target (db_header db) = SEPOL_TARGET_SELINUX ->
  exists rc r sv' o', sepol_fs_sid sv name o = Some (Some (rc, r, sv'), o') /\ named_answer sv db OCON_FS name (SECINITSID_FS, SECINITSID_FILE) rc r sv'.
Proof. intros Hsv Ht. apply sids_of_first_ok; [done|done|by left]. Qed.

Theorem netif_sid_spec sv db name o :
  server_sound sv db -> h_target (db_header db) = SEPOL_TARGET_SELINUX ->
  exists rc r sv' o', sepol_netif_sid sv name o = Some (Some (rc, r, sv'), o') /\ named_answer sv db OCON_NETIF name (SECINITSID_NETIF, SECINITSID_NETMSG) rc r sv'.
Proof. intros Hsv Ht. apply sids_of_first_ok; [done|done|by right]. Qed.

(** ** Other objects *)

Theorem ibpkey_sid_spec sv db prefix pkey o :
  server_sound sv db -> h_target (db_header db) = SEPOL_TARGET_SELINUX ->
  let covers c := match oc_u c with U_IBPKEY p low high => (low <=? pkey) && (pkey <=? high) && (prefix =? le_combine p) | _ => false end in
  exists rc sid sv' o', sepol_ibpkey_sid sv prefix pkey o = Some (Some (rc, sid, sv'), o') /\ first_answer sv db OCON_IBPKEY covers SECINITSID_UNLABELED o rc sid sv'.
Proof.
  intros Hsv Ht covers. apply (sid_of_first_ok sv db Hsv Ht OCON_IBPKEY ltac:(done)). intros c Hc. destruct (list_object db OCON_IBPKEY c (ss_policy sv db Hsv) Ht ltac:(done) Hc) as (_ & Hk & _).
  unfold ibpkey_matches, covers. by destruct (oc_u c); try (cbn in Hk; by naive_solver).
Qed.

Theorem ibendport_sid_spec sv db name port o :
  server_sound sv db -> h_target (db_header db) = SEPOL_TARGET_SELINUX ->
  let covers c := match oc_u c with U_IBENDPORT n p => (p =? port) && (strcmp name n =? 0) | _ => false end in
  exists rc sid sv' o', sepol_ibendport_sid sv name port o = Some (Some (rc, sid, sv'), o') /\ first_answer sv db OCON_IBENDPORT covers SECINITSID_UNLABELED o rc sid sv'.
Proof.
  intros Hsv Ht covers. apply (sid_of_first_ok sv db Hsv Ht OCON_IBENDPORT ltac:(done)). intros c Hc. destruct (list_object db OCON_IBENDPORT c (ss_policy sv db Hsv) Ht ltac:(done) Hc) as (_ & Hk & _).
  unfold ibendport_matches, covers. by destruct (oc_u c); try (cbn in Hk; by naive_solver).
Qed.

(** The words of an address under a mask. *)
Definition masked (input mask : list Z) : list Z := zip_with Z.land input mask.

Lemma match_words_ok n input addr mask :
  length input = n -> length addr = n -> length mask = n -> match_words n input addr mask = Some (bool_decide (addr = masked input mask)).
Proof.
  revert input addr mask. induction n as [|n IH]; intros [|w input] [|a addr] [|m mask] H1 H2 H3; try done. cbn. destruct (Z.eqb_spec a (Z.land w m)) as [->|Hne].
  - rewrite IH by (cbn in *; lia). f_equal. apply bool_decide_ext. split; [by intros ->|by intros [= ->]].
  - rewrite bool_decide_eq_false_2; [done|]. by intros [= ? _].
Qed.

Theorem node_sid_inet_spec sv db addr o :
  server_sound sv db -> h_target (db_header db) = SEPOL_TARGET_SELINUX ->
  let covers c := match oc_u c with U_NODE a m => a =? Z.land addr m | _ => false end in
  exists rc sid sv' o', sepol_node_sid sv AF_INET [addr] 4 o = Some (Some (rc, sid, sv'), o') /\ first_answer sv db OCON_NODE covers SECINITSID_NODE o rc sid sv'.
Proof.
  intros Hsv Ht covers. apply (sid_of_first_ok sv db Hsv Ht OCON_NODE ltac:(done)). intros c Hc. destruct (list_object db OCON_NODE c (ss_policy sv db Hsv) Ht ltac:(done) Hc) as (_ & Hk & _).
  unfold node_matches_addr, covers. by destruct (oc_u c); try (cbn in Hk; by naive_solver).
Qed.

Theorem node_sid_inet6_spec sv db addr o :
  server_sound sv db -> h_target (db_header db) = SEPOL_TARGET_SELINUX -> length addr = 4%nat ->
  let covers c := match oc_u c with U_NODE6 a m => bool_decide (a = masked addr m) | _ => false end in
  exists rc sid sv' o', sepol_node_sid sv AF_INET6 addr 16 o = Some (Some (rc, sid, sv'), o') /\ first_answer sv db OCON_NODE6 covers SECINITSID_NODE o rc sid sv'.
Proof.
  intros Hsv Ht Hl covers. apply (sid_of_first_ok sv db Hsv Ht OCON_NODE6 ltac:(done)). intros c Hc. destruct (list_object db OCON_NODE6 c (ss_policy sv db Hsv) Ht ltac:(done) Hc) as (_ & Hk & _).
  unfold node6_matches, covers. destruct (oc_u c); try (cbn in Hk; by naive_solver). destruct Hk as (_ & ? & ?). by apply match_words_ok.
Qed.

(** * Memory that lasts

    A request takes the outcomes of its allocations off the front of the
    oracle; if none of them is a failure, none of those left for the next
    request is. *)

Definition keeps {A} (m : X A) : Prop := forall o r o', m o = Some (r, o') -> mem_ok o -> mem_ok o'.

Section Keeps.
Context {A B : Type}.

Lemma keeps_ret (a : A) : keeps (xret a).
Proof. by intros o r o' [= _ <-]. Qed.
Lemma keeps_fail : keeps (@xfail A).
Proof. by intros o r o' [= _ <-]. Qed.
Lemma keeps_fault : keeps (@xfault A).
Proof. done. Qed.
Lemma keeps_opt (m : option A) : keeps (xopt m).
Proof. destruct m; [apply keeps_ret|apply keeps_fault]. Qed.
Lemma keeps_bind (m : X A) (k : A -> X B) : keeps m -> (forall a, keeps (k a)) -> keeps (xbind m k).
Proof.
  intros Hm Hk o r o' E M. unfold xbind in E. destruct (m o) as [[[a|] o1]|] eqn:Em; [|injection E as _ <-; by eapply Hm|done]. eapply Hk; [exact E|]. by eapply Hm.
Qed.

(** One allocation. *)
Lemma keeps_malloc (f : bool -> option A) : keeps (fun o => let '(ok, o) := malloc o in Some (f ok, o)).
Proof. intros o r o' E M. destruct (malloc o) as [ok o1] eqn:Em. injection E as _ <-. by eapply malloc_mem_ok_next. Qed.
End Keeps.

Lemma keeps_fold {A B} (f : A -> B -> X B) l s : (forall a s, keeps (f a s)) -> keeps (xfold f l s).
Proof. intros Hf. revert s. induction l as [|a l IH]; intros s; cbn [xfold]; [by intros o r o' [= _ <-]|]. eapply keeps_bind; [apply Hf|apply IH]. Qed.

Create HintDb keeps.
#[export] Hint Resolve keeps_ret keeps_fail keeps_fault keeps_opt keeps_malloc : keeps.

(** Takes a computation apart. *)
Ltac keeps_step :=
  match goal with
  | |- keeps (xbind _ _) => apply keeps_bind; [|intros ?]
  | |- keeps (xfold _ _ _) => apply keeps_fold; intros ? ?
  | |- keeps (match ?x with _ => _ end) => destruct x
  | |- keeps (let '_ := ?x in _) => destruct x
  | _ => solve [eauto with keeps]
  end.
Ltac keeps := repeat (keeps_step || cbv zeta).

(** ** Bitmaps *)

Lemma keeps_set e bit value : keeps (xset e bit value).
Proof. intros o r o' E. unfold xset in E. destruct (ebitmap_set_bit e bit value o) as [[rc e1] o1] eqn:Es. injection E as _ <-. by eapply set_bit_mem_ok. Qed.

Lemma keeps_cpy e : keeps (xcpy e).
Proof. intros o r o' E. unfold xcpy in E. destruct (ebitmap_cpy e o) as [[rc e1] o1] eqn:Es. injection E as _ <-. by eapply cpy_mem. Qed.
#[export] Hint Resolve keeps_set keeps_cpy : keeps.

(** ** Texts *)

Lemma keeps_xmalloc n : keeps (xmalloc n).
Proof. apply keeps_malloc. Qed.
Lemma keeps_strdup s : keeps (strdup s).
Proof. apply keeps_malloc. Qed.
Lemma keeps_create : keeps sepol_context_create.
Proof. apply keeps_malloc. Qed.
Lemma keeps_record_allocs : keeps record_allocs.
Proof.
  intros o r o' E M. unfold record_allocs in E. destruct (malloc o) as [a o1] eqn:E1, (malloc o1) as [b o2] eqn:E2, (malloc o2) as [c o3] eqn:E3, (malloc o3) as [d o4] eqn:E4. injection E as _ <-.
  by repeat (eapply malloc_mem_ok_next; [eassumption|]).
Qed.
#[export] Hint Resolve keeps_xmalloc keeps_strdup keeps_create keeps_record_allocs : keeps.

Lemma keeps_sid_cats cats field e : keeps (sid_cats cats field e).
Proof. unfold sid_cats. keeps. Qed.
#[export] Hint Resolve keeps_sid_cats : keeps.

Lemma keeps_cats_loop cats fuel p e : keeps (sid_cats_loop cats fuel p e).
Proof. revert p e. induction fuel as [|fuel IH]; intros p e; cbn [sid_cats_loop]; keeps; apply IH. Qed.
#[export] Hint Resolve keeps_cats_loop : keeps.

Lemma keeps_mls_from_string mls levels cats str c : keeps (mls_from_string mls levels cats str c).
Proof. unfold mls_from_string, mls_context_to_sid, sid_level, mls_level_cpy. keeps. Qed.
#[export] Hint Resolve keeps_mls_from_string : keeps.

Lemma keeps_context_from_string mls s ix str : keeps (context_from_string mls s ix str).
Proof.
  unfold context_from_string, sepol_context_from_string, context_from_record, sepol_context_set_user, sepol_context_set_role, sepol_context_set_type, sepol_context_set_mls. keeps.
Qed.

(** ** SIDs *)

Lemma insert_mem s sid c o rc s' o' : sepol_sidtab_insert s sid c o = (rc, s', o') -> mem_ok o -> mem_ok o'.
Proof.
  unfold sepol_sidtab_insert. destruct (sid_htable s) as [tbl|]; [|by intros [= _ _ <-]]. destruct (sid_walk _ _) as [prev cur]. destruct (match cur with [] => _ | _ => _ end); [by intros [= _ _ <-]|].
  destruct (malloc o) as [ok o1] eqn:Em. destruct ok; cbn [negb]; intros E M; apply (malloc_mem_ok_next _ _ _ Em) in M; [|by injection E as _ _ <-].
  destruct (copy_cases c o1) as (r & o2 & Ec & Hc). rewrite Ec in E. destruct Hc as [[-> Hc]|[_ Hc]]; [|done]. injection E as _ _ <-. by apply Hc.
Qed.

Lemma context_to_sid_mem s c o rc sid s' o' : sepol_sidtab_context_to_sid s c o = Some (rc, sid, s', o') -> mem_ok o -> mem_ok o'.
Proof.
  unfold sepol_sidtab_context_to_sid. destruct (sepol_sidtab_search_context s c) as [x|]; [|done]. cbn [mbind option_bind]. destruct (ctrue x); [by intros [= _ _ _ <-]|]. destruct (_ || _); [by intros [= _ _ _ <-]|].
  destruct (sepol_sidtab_insert _ _ _ _) as [[ret s1] o1] eqn:E. destruct (ctrue ret); intros [= _ _ _ <-]; by eapply insert_mem.
Qed.

Lemma keeps_object_sid s c : keeps (object_sid s c).
Proof.
  unfold object_sid. keeps_step; [keeps|]. intros o r o' E. destruct (sepol_sidtab_context_to_sid _ _ _) as [[[[rc sid] s1] o1]|] eqn:Es; [|done]. injection E as _ <-. by eapply context_to_sid_mem.
Qed.

Lemma keeps_object_sids s c : keeps (object_sids s c).
Proof.
  unfold object_sids. keeps_step; [keeps|]. intros o r o' E M. destruct (sepol_sidtab_context_to_sid s _ _) as [[[[rc sid] s1] o1]|] eqn:E1; [|done]. apply (context_to_sid_mem _ _ _ _ _ _ _ E1) in M.
  cbv zeta in E. destruct (ctrue rc); [by injection E as _ <-|]. destruct (sepol_sidtab_context_to_sid s1 _ _) as [[[[rc2 sid2] s2] o2]|] eqn:E2; [|done]. injection E as _ <-. by eapply context_to_sid_mem.
Qed.
#[export] Hint Resolve keeps_object_sid keeps_object_sids : keeps.

Lemma keeps_first sv i matches otherwise : keeps (sid_of_first sv i matches otherwise).
Proof. unfold sid_of_first. keeps. Qed.
Lemma keeps_firsts sv i matches otherwise : keeps (sids_of_first sv i matches otherwise).
Proof. unfold sids_of_first. keeps. Qed.
#[export] Hint Resolve keeps_first keeps_firsts : keeps.

Lemma keeps_fs sv name : keeps (sepol_fs_sid sv name).
Proof. unfold sepol_fs_sid. keeps. Qed.
Lemma keeps_netif sv name : keeps (sepol_netif_sid sv name).
Proof. unfold sepol_netif_sid. keeps. Qed.
Lemma keeps_port sv protocol port : keeps (sepol_port_sid sv protocol port).
Proof. unfold sepol_port_sid. keeps. Qed.
Lemma keeps_ibpkey sv prefix pkey : keeps (sepol_ibpkey_sid sv prefix pkey).
Proof. unfold sepol_ibpkey_sid. keeps. Qed.
Lemma keeps_ibendport sv name port : keeps (sepol_ibendport_sid sv name port).
Proof. unfold sepol_ibendport_sid. keeps. Qed.
Lemma keeps_node sv domain addr len : keeps (sepol_node_sid sv domain addr len).
Proof. unfold sepol_node_sid. keeps. Qed.
Lemma keeps_genfs sv fs path sclass : keeps (sepol_genfs_sid sv fs path sclass).
Proof. unfold sepol_genfs_sid. keeps. Qed.
#[export] Hint Resolve keeps_fs keeps_netif keeps_port keeps_ibpkey keeps_ibendport keeps_node keeps_genfs : keeps.

Lemma keeps_text sv str : keeps (sepol_context_to_sid sv str).
Proof.
  unfold sepol_context_to_sid. keeps_step; [keeps|]. intros o r o' E M. destruct (context_from_string _ _ _ _ o) as [[[c|] o1]|] eqn:E1; [|injection E as _ <-; by eapply keeps_context_from_string|done].
  apply (keeps_context_from_string _ _ _ _ _ _ _ E1) in M. destruct (sepol_sidtab_context_to_sid _ _ _) as [[[[rc sid] s] o2]|] eqn:E2; [|done]. injection E as _ <-. by eapply context_to_sid_mem.
Qed.

(** ** New contexts *)

Lemma keeps_compute_sid sv ssid tsid tclass spec : keeps (sepol_compute_sid sv ssid tsid tclass spec).
Proof.
  unfold sepol_compute_sid. destruct (sepol_sidtab_search _ ssid) as [s|]; [|keeps]. destruct (sepol_sidtab_search _ tsid) as [t|]; [|keeps]. keeps_step; [keeps|]. keeps_step; [keeps|].
  intros o r o' E M. destruct (mls_compute_sid _ _ _ _ _ o) as [[rc range] o1] eqn:Em. apply (keeps_mls_compute_sid _ _ _ _ _ _ _ _ _ Em) in M. destruct (ctrue rc); [by injection E as _ <-|].
  destruct (policydb_context_isvalid _ _ _ _) as [v|]; [|done]. cbv zeta in E. destruct (ctrue _); [by injection E as _ <-|].
  destruct (sepol_sidtab_context_to_sid _ _ _) as [[[[rc2 sid] s2] o2]|] eqn:E2; [|done]. injection E as _ <-. by eapply context_to_sid_mem.
Qed.
#[export] Hint Resolve keeps_text keeps_compute_sid : keeps.
