(* ===== verification/ServicesRun.v ===== *)
(** * ServicesRun: a server that is asked and asked

    Requests to the security server in any order.  Whatever is asked and
    whichever allocations fail, the policy keeps its rules, every SID keeps its
    context, and the SIDs kept for labelled objects stay right. *)
From Stdlib Require Import ZArith Lia Bool.
From stdpp Require Import base option list list_numbers gmap sets.
From S2P Require Import Prelude PolicyFile Mem Ebitmap EbitmapThms Hashtab HashtabThms Symtab Avtab AvtabThms AvtabIO Cond Codec Symbols SymCodec SymbolsIO SymbolsThms SymbolsSound Trans Index IndexThms IndexAll Contexts ContextsIO ContextsValid ContextsSound ContextText ContextPrint ContextParse CondIO CondSound Policydb PolicydbIO PolicydbSound Constraint ConstraintThms ConstraintEval Sidtab Services ServicesThms ServicesSpec ServicesObjects.

Open Scope Z_scope.

Inductive request :=
| Access (ssid tsid tclass requested : Z)
| Validate (oldsid newsid tasksid tclass : Z)
| NewObject (ssid tsid tclass specified : Z)
| Text (context : list Z)
| FileSystem (name : cstring)
| Interface (name : cstring)
| Port (protocol port : Z)
| Pkey (subnet_prefix pkey : Z)
| EndPort (dev_name : cstring) (port : Z)
| Node (addr : Z)
| Node6 (addr : list Z)
| Path (fs path : cstring) (sclass : Z).

(** The server after a request. *)
Definition serve (r : request) (sv : server) : X server :=
  match r with
  | Access ssid tsid tclass requested => r <- sepol_compute_av_reason sv ssid tsid tclass requested (mk_av_decision 0 0 0 0 0) 0 ;;; xret r.2
  | Validate oldsid newsid tasksid tclass => r <- sepol_validate_transition_reason_buffer sv oldsid newsid tasksid tclass 0 ;;; xret r.2
  | NewObject ssid tsid tclass specified => r <- sepol_compute_sid sv ssid tsid tclass specified ;;; xret r.2
  | Text context => r <- sepol_context_to_sid sv context ;;; xret r.2
  | FileSystem name => r <- sepol_fs_sid sv name ;;; xret r.2
  | Interface name => r <- sepol_netif_sid sv name ;;; xret r.2
  | Port protocol port => r <- sepol_port_sid sv protocol port ;;; xret r.2
  | Pkey subnet_prefix pkey => r <- sepol_ibpkey_sid sv subnet_prefix pkey ;;; xret r.2
  | EndPort dev_name port => r <- sepol_ibendport_sid sv dev_name port ;;; xret r.2
  | Node addr => r <- sepol_node_sid sv AF_INET [addr] 4 ;;; xret r.2
  | Node6 addr => r <- sepol_node_sid sv AF_INET6 addr 16 ;;; xret r.2
  | Path fs path sclass => r <- sepol_genfs_sid sv fs path sclass ;;; xret r.2
  end.

Fixpoint serve_all (rs : list request) (sv : server) : X server :=
  match rs with
  | [] => xret sv
  | r :: rs => sv <- serve r sv ;;; serve_all rs sv
  end.

(** Arguments of the types that the functions take: numbers are not negative,
    the kind of a new object is one of the three, texts are bytes that fit into
    memory and an address of version 6 has four words. *)
Definition request_ok (r : request) : Prop :=
  match r with
  | Access ssid tsid tclass _ => 0 <= ssid /\ 0 <= tsid /\ 0 <= tclass
  | Validate oldsid newsid tasksid tclass => 0 <= oldsid /\ 0 <= newsid /\ 0 <= tasksid /\ 0 <= tclass
  | NewObject ssid tsid tclass specified => 0 <= ssid /\ 0 <= tsid /\ 0 <= tclass /\ (specified = AVTAB_TRANSITION \/ specified = AVTAB_MEMBER \/ specified = AVTAB_CHANGE)
  | Text context => Forall (in_range 8) context /\ zlength context < 2 ^ 64 - 1
  | Node6 addr => length addr = 4%nat
  | _ => True
  end.

(** Requests that evaluate constraints, which goes wrong without memory. *)
Definition evaluates (r : request) : bool := match r with Access _ _ _ _ | Validate _ _ _ _ => true | _ => false end.

(** The text [<<none>>], which stands for no context. *)
Definition no_context (r : request) : Prop := match r with Text context => string_of context = str_none | _ => False end.
#[export] Instance no_context_dec r : Decision (no_context r).
Proof. destruct r; cbn; apply _. Defined.

(** A server with a SELinux policy that can be asked, in which every chain of
    bounds ends. *)
Record server_good (sv : server) (db : policydb) : Prop := mk_server_good {
  sg_sound : server_sound sv db;
  sg_usable : policy_usable db;
  sg_target : h_target (db_header db) = SEPOL_TARGET_SELINUX;
  sg_bounds : forall v, 0 < v <= st_nprim (p_types (db_symbols db)) -> exists n, bound_chain db v n }.

Lemma good_ok sv db : server_good sv db -> server_ok sv db.
Proof.
  intros [[H1 H2 H3 H4 _ _] Hu _ _]. split_and!; try done. eapply map_Forall_impl; [exact H4|]. by intros sid c [].
Qed.

Lemma ok_sound sv db : server_ok sv db -> db_fresh db -> server_sound sv db.
Proof.
  intros (E & Hu & Ht & Hc) Hf. apply fresh_sound; try done; [by destruct Hu|]. eapply map_Forall_impl; [exact Hc|]. by intros sid c [].
Qed.

(** What a request leaves. *)
Definition goes_on (sv : server) (db : policydb) (sv' : server) : Prop :=
  exists db', server_good sv' db' /\ relabelled db db' /\ sids (sv_sidtab sv) ⊆ sids (sv_sidtab sv').

Lemma relabelled_chain db db' v n : relabelled db db' -> bound_chain db v n -> bound_chain db' v n.
Proof. intros (ocs & gs & ->). induction 1 as [v E|v n Hne H IH]; [by constructor|]. by apply chain_next. Qed.

Lemma sound_goes_on sv db sv' db' :
  server_good sv db -> server_sound sv' db' -> relabelled db db' -> sids (sv_sidtab sv) ⊆ sids (sv_sidtab sv') -> goes_on sv db sv'.
Proof.
  intros [_ (_ & Hv & Hh & Hc) Ht Hb] Hs Hr Hsub. exists db'. split; [|done]. pose proof (ss_policy sv' db' Hs) as Hd. pose proof Hr as (ocs & gs & ->). constructor; try done.
  intros v Hv'. destruct (Hb v Hv') as [n Hn]. exists n. by eapply relabelled_chain.
Qed.

(** The policy stays what it is. *)
Lemma ok_goes_on sv db sv' :
  server_good sv db -> server_ok sv' db -> sids (sv_sidtab sv) ⊆ sids (sv_sidtab sv') -> goes_on sv db sv'.
Proof.
  intros Hg (E & Hu & Ht & Hc) Hsub. apply (sound_goes_on sv db sv' db Hg); [|apply relabelled_refl|done].
  pose proof (more_sids sv db (sv_sidtab sv') (sg_sound sv db Hg) Ht Hsub) as H. destruct H as [H1 H2 H3 H4 H5 H6]; [eapply map_Forall_impl; [exact Hc|]; by intros sid c []|]. by constructor.
Qed.

Lemma stack_goes_on sv db stack : server_good sv db -> goes_on sv db (set_stack_of sv stack).
Proof. intros Hg. apply ok_goes_on; [done| |done]. by destruct (good_ok sv db Hg) as (H1 & H2 & H3 & H4). Qed.

Lemma same_goes_on sv db : server_good sv db -> goes_on sv db sv.
Proof. intros Hg. apply ok_goes_on; [done|by apply good_ok|done]. Qed.

(** ** One request *)

(** The outcome of a request: it goes wrong in an evaluation of constraints
    that lacks memory, or with the text [<<none>>], and the latter always when
    there is memory. *)
Definition served (r : request) (sv : server) (db : policydb) (o : oracle) (out : option (option server * oracle)) : Prop :=
  match out with
  | None => evaluates r = true /\ ~ mem_ok o \/ no_context r
  | Some (None, _) => False
  | Some (Some sv', o') => goes_on sv db sv' /\ (mem_ok o -> mem_ok o' /\ ~ no_context r)
  end.

(** A request that evaluates no constraint. *)
Lemma served_keeps r sv db o :
  keeps (serve r sv) -> ~ no_context r -> (exists sv' o', serve r sv o = Some (Some sv', o') /\ goes_on sv db sv') -> served r sv db o (serve r sv o).
Proof. intros Hk Hn (sv' & o' & E & H). rewrite E. split; [done|]. intros M. split; [by eapply Hk|done]. Qed.

Section One.
Context (sv : server) (db : policydb) (Hg : server_good sv db).

Lemma access_served ssid tsid tclass requested o :
  0 <= ssid -> 0 <= tsid -> 0 <= tclass -> served (Access ssid tsid tclass requested) sv db o (serve (Access ssid tsid tclass requested) sv o).
Proof using Hg.
  intros Hs Ht Hc0. pose proof (good_ok sv db Hg) as Hok. pose proof Hok as (Edb & _). cbn [serve]. unfold sepol_compute_av_reason, xbind at 1 2, xret.
  destruct (sepol_sidtab_search (sv_sidtab sv) ssid) as [s|] eqn:Es. 2:{ unfold compute_av_for. rewrite Es. split; [by apply same_goes_on|cbn; tauto]. }
  destruct (sepol_sidtab_search (sv_sidtab sv) tsid) as [t|] eqn:Et. 2:{ unfold compute_av_for. rewrite Es, Et. split; [by apply same_goes_on|cbn; tauto]. }
  destruct (negb (ctrue tclass) || (st_nprim (p_classes (db_symbols db)) <? tclass)) eqn:Ec.
  { unfold compute_av_for. rewrite Es, Et, Edb. unfold xopt, xbind, xret, bounds_fuel. cbn [context_struct_compute_av]. rewrite Ec. cbn. split; [by apply stack_goes_on|tauto]. }
  pose proof (search_subject _ _ _ _ Hok Hs Es) as (_ & _ & Hst & _). destruct (sg_bounds sv db Hg _ Hst) as [n Hn]. unfold ctrue in Ec.
  destruct (decide_sids sv db ssid tsid s t tclass requested 0 (mk_av_decision 0 0 0 0 0) 0 None n Hok Hs Ht Es Et ltac:(lia) Hn) as (cla & _ & H); [done|]. specialize (H o).
  destruct (compute_av_for _ _ _ _ _ _ _ _ _ o) as [[[[[[[rc avd'] reason'] b] sv']|] o']|]; cbn [fst snd] in *; [|done|by left; split; [|tauto]].
  destruct H as [(_ & _ & _ & [stack ->] & _) HM]. split; [by apply stack_goes_on|]. intros M. split; [by destruct (HM I M)|cbn; tauto].
Qed.

Lemma validate_served oldsid newsid tasksid tclass o :
  0 <= oldsid -> 0 <= newsid -> 0 <= tasksid -> 0 <= tclass -> served (Validate oldsid newsid tasksid tclass) sv db o (serve (Validate oldsid newsid tasksid tclass) sv o).
Proof using Hg.
  intros Ho Hn Ht Hc0. pose proof (good_ok sv db Hg) as Hok. pose proof Hok as (Edb & Hu & _). pose proof (usable_ready db Hu) as Hdb. cbn [serve].
  unfold sepol_validate_transition_reason_buffer. rewrite Edb. unfold xopt, xbind, xret.
  assert (Hsame : served (Validate oldsid newsid tasksid tclass) sv db o (Some (Some sv, o))) by (split; [by apply same_goes_on|cbn; tauto]).
  destruct (negb (ctrue tclass) || (st_nprim (p_classes (db_symbols db)) <? tclass)) eqn:Ec; [exact Hsame|]. unfold ctrue in Ec.
  destruct (sepol_sidtab_search (sv_sidtab sv) oldsid) as [old|] eqn:Eo; [|exact Hsame].
  destruct (sepol_sidtab_search (sv_sidtab sv) newsid) as [new|] eqn:En; [|exact Hsame].
  destruct (sepol_sidtab_search (sv_sidtab sv) tasksid) as [task|] eqn:Et; [|exact Hsame].
  destruct (py_classes db Hdb tclass ltac:(lia)) as (k & cla & name & Hk & Hname & Hp & _ & Hcs). rewrite Hk.
  pose proof (search_subject _ _ _ _ Hok Ho Eo) as So. pose proof (search_subject _ _ _ _ Hok Hn En) as Sn. pose proof (search_subject _ _ _ _ Hok Ht Et) as St.
  pose proof (validate_ok db Hdb old new task So Sn St tclass k cla name 0 Hk Hname Hp True (cla_validatetrans cla) (mk_eval_state (sv_stack sv) (Some no_reasons)) Hcs ltac:(intros b [= <-]; done) o) as H.
  destruct (validate_loop _ _ _ _ _ _ _ _ o) as [[[[rc ev']|] o']|]; cbn [fst snd]; [|done|by left; split; [|tauto]]. split; [by apply stack_goes_on|]. intros M. split; [by destruct (proj2 H I M)|cbn; tauto].
Qed.

Lemma new_object_served ssid tsid tclass spec o :
  0 <= ssid -> 0 <= tsid -> 0 <= tclass -> spec = AVTAB_TRANSITION \/ spec = AVTAB_MEMBER \/ spec = AVTAB_CHANGE -> exists sv' o', serve (NewObject ssid tsid tclass spec) sv o = Some (Some sv', o') /\ goes_on sv db sv'.
Proof using Hg.
  intros Hs Ht Hcl Hspec. pose proof (good_ok sv db Hg) as Hok. cbn [serve]. unfold xbind at 1.
  destruct (sepol_sidtab_search (sv_sidtab sv) ssid) as [s|] eqn:Es. 2:{ unfold sepol_compute_sid. rewrite Es. exists sv, o. split; [done|by apply same_goes_on]. }
  destruct (sepol_sidtab_search (sv_sidtab sv) tsid) as [t|] eqn:Et. 2:{ unfold sepol_compute_sid. rewrite Es, Et. exists sv, o. split; [done|by apply same_goes_on]. }
  destruct (new_sid_ok sv db ssid tsid s t tclass spec o Hok Hs Ht Es Et Hcl Hspec) as (rc & sid & sv' & o' & -> & Hsv' & Hsub & _). exists sv', o'. split; [done|by apply ok_goes_on].
Qed.

Lemma text_served context o : Forall (in_range 8) context -> string_of context <> str_none -> exists sv' o', serve (Text context) sv o = Some (Some sv', o') /\ goes_on sv db sv'.
Proof using Hg.
  intros H1 H2. cbn [serve]. unfold xbind at 1. destruct (text_sid_ok sv db context o (good_ok sv db Hg) H1 H2) as (rc & sid & sv' & o' & -> & Hsv' & Hsub & _). exists sv', o'. split; [done|by apply ok_goes_on].
Qed.

(** The text [<<none>>] goes wrong, unless there is not even memory for a copy. *)
Lemma none_served context o :
  Forall (in_range 8) context -> zlength context < 2 ^ 64 - 1 -> string_of context = str_none -> served (Text context) sv db o (serve (Text context) sv o).
Proof using Hg.
  intros Hb Hl Hn. destruct (good_ok sv db Hg) as (Edb & _). cbn [serve]. unfold sepol_context_to_sid. rewrite Edb. unfold xopt, xbind, xret.
  destruct (malloc o) as [b o1] eqn:Em. assert (Hz : zlength context <> 0) by (destruct context; [done|unfold zlength; cbn; lia]).
  rewrite (none_text _ _ _ _ _ _ _ Hb Hn Hz ltac:(lia) Em). destruct b; [by right|]. split; [by apply same_goes_on|]. intros M. by destruct (malloc_mem_ok _ _ _ Em M).
Qed.

(** An answer whose last part is the server. *)
Lemma answer_served {A} (m : X (A * server)) (P : A -> server -> Prop) o :
  (exists a sv' o', m o = Some (Some (a, sv'), o') /\ P a sv') -> (forall a sv', P a sv' -> goes_on sv db sv') ->
  exists sv' o', (r <- m ;;; xret r.2) o = Some (Some sv', o') /\ goes_on sv db sv'.
Proof. intros (a & sv' & o' & E & H) HP. exists sv', o'. unfold xbind. rewrite E. split; [done|by eapply HP]. Qed.

Lemma first_served m i b otherwise o :
  (exists rc sid sv' o', m o = Some (Some (rc, sid, sv'), o') /\ first_answer sv db i b otherwise o rc sid sv') -> exists sv' o', (r <- m ;;; xret r.2) o = Some (Some sv', o') /\ goes_on sv db sv'.
Proof using Hg.
  intros (rc & sid & sv' & o' & E & H). eapply (answer_served m (fun a sv' => first_answer sv db i b otherwise o a.1 a.2 sv')); [by exists (rc, sid), sv', o'|].
  intros a sv2 (db' & r & H1 & H2 & H3 & _). by apply (sound_goes_on sv db sv2 db').
Qed.

Lemma named_served m i name otherwise o :
  (exists rc r sv' o', m o = Some (Some (rc, r, sv'), o') /\ named_answer sv db i name otherwise rc r sv') -> exists sv' o', (r <- m ;;; xret r.2) o = Some (Some sv', o') /\ goes_on sv db sv'.
Proof using Hg.
  intros (rc & r & sv' & o' & E & H). eapply (answer_served m (fun a sv' => named_answer sv db i name otherwise a.1 a.2 sv')); [by exists (rc, r), sv', o'|].
  intros a sv2 (db' & f & H1 & H2 & H3 & _). by apply (sound_goes_on sv db sv2 db').
Qed.

(** Every request is answered, and the server goes on, unless an evaluation of
    constraints runs out of memory or the text is [<<none>>]. *)
Lemma serve_ok r o : request_ok r -> served r sv db o (serve r sv o).
Proof using Hg.
  pose proof (sg_sound sv db Hg) as Hs. pose proof (sg_target sv db Hg) as Ht. destruct (evaluates r) eqn:Ev.
  { destruct r; try discriminate Ev; intros Hr; [destruct Hr as (? & ? & ?); by apply access_served|destruct Hr as (? & ? & ? & ?); by apply validate_served]. }
  intros Hr. destruct (decide (no_context r)) as [Hn|Hn].
  { destruct r; try done. destruct Hr. by apply none_served. }
  apply served_keeps; [destruct r; try discriminate Ev; cbn [serve]; keeps|done|]. destruct r; try discriminate Ev; cbn [serve request_ok no_context] in *.
  - destruct Hr as (? & ? & ? & ?). by apply new_object_served.
  - destruct Hr. by apply text_served.
  - by eapply named_served, fs_sid_spec.
  - by eapply named_served, netif_sid_spec.
  - by eapply first_served, port_sid_ok.
  - by eapply first_served, ibpkey_sid_spec.
  - by eapply first_served, ibendport_sid_spec.
  - by eapply first_served, node_sid_inet_spec.
  - by eapply first_served, node_sid_inet6_spec.
  - unfold xbind. destruct (genfs_sid_ok sv db fs path sclass o Hs) as (rc & sid & sv' & o' & db' & -> & H1 & H2 & H3 & _). exists sv', o'. split; [done|]. by apply (sound_goes_on sv db sv' db').
Qed.
End One.

(** ** Any number of requests *)

Lemma goes_on_trans sv1 db1 sv2 db2 sv3 :
  relabelled db1 db2 -> sids (sv_sidtab sv1) ⊆ sids (sv_sidtab sv2) -> goes_on sv2 db2 sv3 -> goes_on sv1 db1 sv3.
Proof. intros Hr Hs (db3 & H1 & H2 & H3). exists db3. split_and!; [done|by eapply relabelled_trans|by etrans]. Qed.

Lemma run_ok sv db rs o :
  server_good sv db -> Forall request_ok rs ->
  match serve_all rs sv o with
  | None => ~ mem_ok o /\ Exists (fun r => evaluates r = true) rs \/ Exists no_context rs
  | Some (None, _) => False
  | Some (Some sv', o') => goes_on sv db sv' /\ (mem_ok o -> mem_ok o' /\ ~ Exists no_context rs)
  end.
Proof.
  intros Hg Hrs. revert sv db o Hg. induction Hrs as [|r rs Hr Hrs IH]; intros sv db o Hg; cbn [serve_all].
  { split; [by apply same_goes_on|]. intros M. split; [done|]. intros Hn%Exists_nil. done. }
  pose proof (serve_ok sv db Hg r o Hr) as H. unfold xbind at 1. destruct (serve r sv o) as [[[sv1|] o1]|]; [|done|rewrite !Exists_cons; cbn in H; tauto].
  destruct H as ((db1 & Hg1 & Hr1 & Hs1) & HM). specialize (IH sv1 db1 o1 Hg1). destruct (serve_all rs sv1 o1) as [[[sv2|] o2]|]; [|done|rewrite !Exists_cons; tauto].
  destruct IH as [IH HM2]. split; [by eapply goes_on_trans|]. rewrite Exists_cons. tauto.
Qed.

(** C8: a server with a SELinux policy that was read and checked and whose
    chains of bounds end, asked for any sequence of access decisions,
    transitions, new SIDs, SIDs of texts and labels of objects, whichever
    allocations fail: the rules of the policy stay as they are, every SID it
    has handed out keeps naming the same context, all its contexts are valid
    and the SIDs kept in the policy are those of their contexts.  A bad pointer
    is followed only in an evaluation of constraints when an allocation fails,
    or when a request is the text [<<none>>]. *)
Theorem server_run sv db rs o :
  server_good sv db -> Forall request_ok rs ->
  match serve_all rs sv o with
  | None => ~ mem_ok o /\ Exists (fun r => evaluates r = true) rs \/ Exists no_context rs
  | Some (None, _) => False
  | Some (Some sv', _) =>
      exists db', server_good sv' db' /\ relabelled db db' /\ sids (sv_sidtab sv) ⊆ sids (sv_sidtab sv')
  end.
Proof.
  intros Hg Hrs. pose proof (run_ok sv db rs o Hg Hrs) as H. destruct (serve_all rs sv o) as [[[sv'|] o']|]; [|done..]. apply H.
Qed.

(** C19: with memory, a server with a SELinux policy that was read and checked
    and whose chains of bounds end answers a sequence of requests exactly when
    none of them is the text [<<none>>], whose null pointer it follows; and a
    server that has answered can be asked again with the same rules. *)
Theorem server_answers sv db rs o :
  server_good sv db -> Forall request_ok rs -> mem_ok o ->
  (Exists no_context rs <-> serve_all rs sv o = None) /\
  (~ Exists no_context rs -> exists sv' o', serve_all rs sv o = Some (Some sv', o') /\ mem_ok o' /\ exists db', server_good sv' db' /\ relabelled db db').
Proof.
  intros Hg Hrs M. pose proof (run_ok sv db rs o Hg Hrs) as H. destruct (serve_all rs sv o) as [[[sv'|] o']|]; [|done|tauto].
  destruct H as [(db' & Hg' & Hr & _) HM]. destruct (HM M) as [M' Hn]. split; [split; [tauto|done]|]. intros _. exists sv', o'. split_and!; [done..|]. by exists db'.
Qed.
