(* ===== verification/ServicesLoad.v ===== *)
(** * ServicesLoad: a new policy for the security server

    libsepol/src/services.c: [sepol_load_policy] reads a policy, compares its
    classes with those in use and converts the contexts of the SID table by the
    names of their users, roles, types and levels ([convert_context], with
    [mls_convert_context] of mls.c); [sepol_set_policydb_from_file]; and
    [sepol_get_user_sids].

    While [policydb] points elsewhere, what happens to [mypolicydb] is not
    followed: it is then not the policy of the server. *)
From Stdlib Require Import ZArith Lia Bool String.
From stdpp Require Import base option list list_numbers gmap sets sorting.
From S2P Require Import Prelude PolicyFile Mem Ebitmap EbitmapThms EbitmapRange Hashtab HashtabThms Symtab Avtab AvtabThms AvtabIO Cond Codec Symbols SymCodec SymbolsIO SymbolsThms Trans TransFt Index IndexThms ExpandThms IndexAll SymbolsSound Contexts ContextsIO ContextsValid ContextsSound ContextText ContextPrint ContextParse CondIO CondSound Policydb PolicydbIO PolicydbThms PolicydbSound PolicydbInit Sidtab Constraint ConstraintThms Services ServicesThms ServicesSpec ServicesObjects.

Open Scope Z_scope.

(** ** Classes *)

Definition validate_perm (h : table perm_datum) (key : cstring) (perdatum : perm_datum) (st : unit) : Z * unit :=
  match hashtab_search h key with
  | None => (-1, st)
  | Some perdatum2 => (if negb (perm_value perdatum =? perm_value perdatum2) then -1 else 0, st)
  end.

Definition perms_changed (old new : symtab perm_datum) : bool := ctrue (hashtab_map (st_table old) (validate_perm (st_table new)) tt).1.

Definition validate_class (oldp newp : policydb) (key : cstring) (cladatum : class_datum) (st : unit) : Z * unit :=
  match hashtab_search (st_table (p_classes (db_symbols newp))) key with
  | None => (-1, st)
  | Some cladatum2 =>
      if negb (cla_value cladatum =? cla_value cladatum2) then (-1, st) else
      match comdatum oldp cladatum, comdatum newp cladatum2 with
      | Some _, None | None, Some _ => (-1, st)
      | Some com, Some com2 =>
          if perms_changed (com_permissions com) (com_permissions com2) then (-1, st)
          else if perms_changed (cla_permissions cladatum) (cla_permissions cladatum2) then (-1, st) else (0, st)
      | None, None => if perms_changed (cla_permissions cladatum) (cla_permissions cladatum2) then (-1, st) else (0, st)
      end
  end.

Definition classes_changed (oldp newp : policydb) : bool :=
  ctrue (hashtab_map (st_table (p_classes (db_symbols oldp))) (validate_class oldp newp) tt).1.

(** ** Contexts *)

Section Convert.
Context (oldp newp : policydb).

(** The loop over the categories of a level: the code and the set. *)
Fixpoint convert_cats (bits : list Z) (bitmap : ebitmap) (o : oracle) : option (Z * ebitmap * oracle) :=
  match bits with
  | [] => Some (0, bitmap, o)
  | i :: bits =>
      name ← name_at (ix_cats (db_indexes oldp)) i;
      match hashtab_search (st_table (p_cats (db_symbols newp))) name with
      | None => Some (- EINVAL, bitmap, o)
      | Some catdatum =>
          let '(rc, bitmap, o) := ebitmap_set_bit bitmap (u32 (cat_value catdatum - 1)) 1 o in
          if ctrue rc then Some (rc, bitmap, o) else convert_cats bits bitmap o
      end
  end.

Definition convert_level (l : mls_level) (o : oracle) : option (Z * mls_level * oracle) :=
  name ← name_at (ix_sens (db_indexes oldp)) (u32 (sens l - 1));
  match hashtab_search (st_table (p_levels (db_symbols newp))) name with
  | None => Some (- EINVAL, l, o)
  | Some levdatum =>
      bits ← for_each_positive_bit (cat l);
      '(rc, bitmap, o) ← convert_cats bits ebitmap_init o;
      Some (rc, mk_mls_level (sens (lev_level levdatum)) bitmap, o)
  end.

Definition mls_convert_context (range : mls_range) (o : oracle) : option (Z * mls_range * oracle) :=
  if negb (h_mls (db_header oldp)) then Some (0, range, o) else
  '(rc, l0, o) ← convert_level (level0 range) o;
  if ctrue rc then Some (rc, range, o) else
  '(rc, l1, o) ← convert_level (level1 range) o;
  if ctrue rc then Some (rc, range, o) else
  Some (0, mk_mls_range l0 l1, o).

(** [-EINVAL] since [selinux_enforcing] is 1. *)
Definition convert_context_handle_invalid_context : Z := - EINVAL.

(** The part before [bad]: the code and the context.  A name that is not there
    is a null pointer, which the search follows. *)
Definition convert_values (c : context_struct) (o : oracle) : option (Z * context_struct * oracle) :=
  user ← name_at (ix_users (db_indexes oldp)).1 (u32 (ctx_user c - 1));
  match hashtab_search (st_table (p_users (db_symbols newp))) user with
  | None => Some (- EINVAL, c, o)
  | Some usrdatum =>
      role ← name_at (ix_roles (db_indexes oldp)).1 (u32 (ctx_role c - 1));
      match hashtab_search (st_table (p_roles (db_symbols newp))) role with
      | None => Some (- EINVAL, c, o)
      | Some rol =>
          type ← name_at (ix_types (db_indexes oldp)).1 (u32 (ctx_type c - 1));
          match hashtab_search (st_table (p_types (db_symbols newp))) type with
          | None => Some (- EINVAL, c, o)
          | Some typdatum =>
              '(rc, range, o) ← mls_convert_context (ctx_range c) o;
              let c := mk_context (user_value usrdatum) (role_value rol) (type_value typdatum) range in
              if ctrue rc then Some (rc, c, o) else
              valid ← policydb_context_isvalid (h_mls (db_header newp)) (db_symbols newp) (db_indexes newp) c;
              Some (if negb valid then convert_context_handle_invalid_context else 0, c, o)
          end
      end
  end.

(** The label [bad]: the text of the old context is printed and freed; if
    there is none, [s] was not set. *)
Definition convert_context (c : context_struct) (o : oracle) : option (Z * context_struct * oracle) :=
  match copy_or_fail c o with
  | (None, o) => Some (- ENOMEM, c, o)
  | (Some oldc, o) =>
      '(rc, c, o) ← convert_values c o;
      if negb (ctrue rc) then Some (0, c, o) else
      match context_to_string (h_mls (db_header oldp)) (db_indexes oldp) oldc o with
      | Some (Some _, o) => Some (rc, c, o)
      | _ => None
      end
  end.
End Convert.

(** ** Loading *)

(** [sepol_sidtab_map(sidtab, clone_sid, &newsidtab)] *)
Definition clone_sid (sid : Z) (c : context_struct) (st : sidtab * oracle) : Z * (sidtab * oracle) :=
  let '(rc, s, o) := sepol_sidtab_insert st.1 sid c st.2 in (rc, (s, o)).

(** The conversion as [sepol_sidtab_map_remove_on_error] calls it; [None] when
    it has gone wrong. *)
Definition convert_sid (oldp newp : policydb) (sid : Z) (c : context_struct) (st : option oracle) : Z * context_struct * option oracle :=
  match st with
  | None => (0, c, None)
  | Some o => match convert_context oldp newp c o with
              | None => (0, c, None)
              | Some (rc, c, o) => (rc, c, Some o)
              end
  end.

(** From [sepol_sidtab_init] on, for a policy that was read: the code and the
    server. *)
Definition install_policy (sv : server) (oldp newp : policydb) : X (Z * server) :=
  fun o =>
    let '(_, newsidtab, o) := sepol_sidtab_init o in
    if classes_changed oldp newp then Some (Some (- EINVAL, sv), o) else
    let sv := set_sidtab sv (sepol_sidtab_shutdown (sv_sidtab sv)) in
    let '(rc, (newsidtab, o)) := sepol_sidtab_map (sv_sidtab sv) clone_sid (newsidtab, o) in
    if ctrue rc then Some (Some (- ENOMEM, sv), o) else
    match sepol_sidtab_map_remove_on_error newsidtab (convert_sid oldp newp) (Some o) with
    | (_, None) => None
    | (newsidtab, Some o) => Some (Some (0, mk_server (Some newp) (sv_own sv) (sepol_sidtab_set newsidtab) (sv_stack sv)), o)
    end.

(** [policydb_destroy(&mypolicydb)] *)
Definition destroy_mypolicydb (sv : server) : server := if sv_own sv then mk_server None true (sv_sidtab sv) (sv_stack sv) else sv.

(** [policydb_init] may claim success and leave no tables, which the reader
    would work on. *)
Definition sepol_load_policy (signed : bool) (compat : Z) (sv : server) (data : list Z) : X (Z * server) :=
  fun o =>
    match policydb_init compat o with
    | (0, None, _) => None
    | (_, None, o) => Some (Some (- ENOMEM, sv), o)
    | (_, Some (newp, _), o) =>
        match policydb_read signed newp (mem_file data) o with
        | None => None
        | Some (None, _, o) => Some (Some (- EINVAL, destroy_mypolicydb sv), o)
        | Some (Some newp, _, o) => match sv_db sv with None => None | Some oldp => install_policy sv oldp newp o end
        end
    end.

(** [mypolicydb.policy_type] is 0 for a kernel policy, so that nothing is
    freed before [policydb_init] clears [mypolicydb]. *)
Definition sepol_set_policydb_from_file (signed : bool) (compat : Z) (sv : server) (fp : policy_file) : X (Z * server) :=
  fun o =>
    match policydb_init compat o with
    | (0, None, _) => None
    | (_, None, o) => Some (Some (-1, destroy_mypolicydb sv), o)
    | (_, Some (newp, _), o) =>
        match policydb_read signed newp fp o with
        | None => None
        | Some (None, _, o) => Some (Some (-1, destroy_mypolicydb sv), o)
        | Some (Some newp, _, o) =>
            let '(rc, s, o) := sepol_sidtab_init o in
            Some (Some (rc, mk_server (Some newp) true s (sv_stack sv)), o)
        end
    end.

(** ** The SIDs of a user *)

Definition mls_level_between (l1 l2 l3 : mls_level) : bool := mls_level_dom l1 l2 && mls_level_dom l3 l1.

(** [None]: -EINVAL.  Without MLS the range stays as it was. *)
Definition mls_setup_user_range (fromcon : context_struct) (user : user_datum) (range : mls_range) (mls : bool) : option mls_range :=
  if negb mls then Some range else
  let fromcon_sen := level0 (ctx_range fromcon) in
  let fromcon_clr := level1 (ctx_range fromcon) in
  let user_low := level0 (user_exp_range user) in
  let user_clr := level1 (user_exp_range user) in
  let user_def := user_exp_dfltlevel user in
  sen ← (if mls_level_between user_def fromcon_sen fromcon_clr then Some user_def
         else if mls_level_between fromcon_sen user_def user_clr then Some fromcon_sen
         else if mls_level_between fromcon_clr user_low user_def then Some user_low
         else None);
  clr ← (if mls_level_dom user_clr fromcon_clr then Some fromcon_clr
         else if mls_level_dom fromcon_clr user_clr then Some user_clr
         else None);
  Some (mk_mls_range sen clr).

Definition SIDS_NEL : Z := 25.

(** [rc], [usercon.range], [mysids], [maxnel] and the server; [us_out] after
    [goto out] from inside the loops. *)
Record user_state := mk_user_state { us_rc : Z; us_range : mls_range; us_sids : list Z; us_maxnel : Z; us_server : server; us_out : bool }.

(** The body of the inner loop. *)
Definition user_type (db : policydb) (fromcon : context_struct) (user : user_datum) (role j : Z) (st : user_state) : X user_state :=
  if us_out st then xret st else
  if j + 1 =? ctx_type fromcon then xret st else
  match mls_setup_user_range fromcon user (us_range st) (h_mls (db_header db)) with
  | None => xret st
  | Some range =>
      let usercon := mk_context (user_value user) role (j + 1) range in
      r <- context_struct_compute_av db (bounds_fuel db) fromcon usercon (db_process_class db) (db_process_trans db) 0
             (mk_av_decision 0 0 0 0 0) (Some 0) (mk_eval_state (sv_stack (us_server st)) None) ;;;
      let sv := set_stack_of (us_server st) (ev_stack r.2) in
      let rc := r.1.1.1 in
      if ctrue rc || negb (ctrue (Z.land (allowed r.1.1.2) (db_process_trans db))) then xret (mk_user_state rc range (us_sids st) (us_maxnel st) sv false) else
      fun o =>
        match sepol_sidtab_context_to_sid (sv_sidtab sv) usercon o with
        | None => None
        | Some (rc, sid, s, o) =>
            let sv := set_sidtab sv s in
            if ctrue rc then Some (Some (mk_user_state rc range (us_sids st) (us_maxnel st) sv true), o) else
            if zlength (us_sids st) <? us_maxnel st then Some (Some (mk_user_state rc range (us_sids st ++ [sid]) (us_maxnel st) sv false), o) else
            let '(ok, o) := malloc o in
            if negb ok then Some (Some (mk_user_state (- ENOMEM) range (us_sids st) (us_maxnel st + SIDS_NEL) sv true), o) else
            Some (Some (mk_user_state rc range (us_sids st ++ [sid]) (us_maxnel st + SIDS_NEL) sv false), o)
        end
  end.

(** The body of the outer loop. *)
Definition user_role (db : policydb) (fromcon : context_struct) (user : user_datum) (i : Z) (st : user_state) : X user_state :=
  if us_out st then xret st else
  role <- xopt (match (ix_roles (db_indexes db)).2 !! Z.to_nat i with Some (Some (_, d)) => Some d | _ => None end) ;;;
  types <- xopt (for_each_positive_bit (ts_types (role_types role))) ;;;
  xfold (user_type db fromcon user (i + 1)) types st.

(** The code, [*sids] with [*nel] entries ([None] if they were not set), and
    the server; [uninit] is what [usercon.range] holds at first. *)
Definition sepol_get_user_sids (uninit : mls_range) (sv : server) (fromsid : Z) (username : cstring) : X (Z * option (list Z) * server) :=
  match sepol_sidtab_search (sv_sidtab sv) fromsid with
  | None => xret (- EINVAL, None, sv)
  | Some fromcon =>
      db <- xopt (sv_db sv) ;;;
      match hashtab_search (st_table (p_users (db_symbols db))) username with
      | None => xret (- EINVAL, None, sv)
      | Some user =>
          fun o =>
            let '(ok, o) := malloc o in
            (if negb ok then xret (- ENOMEM, None, sv) else
             roles <- xopt (for_each_positive_bit (rs_roles (user_roles user))) ;;;
             st <- xfold (user_role db fromcon user) roles (mk_user_state 0 uninit [] SIDS_NEL sv false) ;;;
             xret (us_rc st, (if us_out st then None else Some (us_sids st)), us_server st)) o
      end
  end.

(** * What a new policy does to the server

    Loading keeps the classes, and it keeps exactly the SIDs whose contexts
    have a counterpart in the new policy: the one with the same names. *)

(** ** Classes *)

(** Mapping a check over a table. *)
Lemma map_check {D} (h : hashtab cstring D) (f : cstring -> D -> unit -> Z * unit) :
  hashtab_ok h -> ctrue (hashtab_map (Some h) f tt).1 = false <-> map_Forall (fun k d => ctrue (f k d tt).1 = false) (hashtab_abs h).
Proof.
  intros Hok. destruct (hashtab_map_ok h f tt Hok) as (l & Hl & ->). rewrite map_Forall_to_list, <- Hl. clear Hl Hok. induction l as [|[k d] l IH]; cbn [chain_map fst snd]; [done|].
  rewrite Forall_cons. cbn [uncurry fst snd]. destruct (f k d tt) as [ret []] eqn:E. cbn [fst]. destruct (ctrue ret) eqn:Er; cbn [fst]; [rewrite Er; naive_solver|]. rewrite IH. tauto.
Qed.

Lemma map_Forall_same {A} (P Q : cstring -> A -> Prop) (m : gmap cstring A) :
  (forall k a, m !! k = Some a -> P k a <-> Q k a) -> map_Forall P m <-> map_Forall Q m.
Proof. intros H. split; intros HP k a Ha; apply (H k a Ha), HP, Ha. Qed.

(** The permissions of the first table are in the second with their values. *)
Definition perms_kept (old new : symtab perm_datum) : Prop :=
  map_Forall (fun k d => exists d', symtab_abs new !! k = Some d' /\ perm_value d' = perm_value d) (symtab_abs old).

Lemma perms_unchanged P Q old new : table_sound P (st_table old) -> table_sound Q (st_table new) -> perms_changed old new = false <-> perms_kept old new.
Proof.
  intros (h & Eh & Hok & _) (h' & Eh' & Hok' & _). unfold perms_changed, perms_kept, symtab_abs. rewrite Eh, Eh', map_check by done.
  apply map_Forall_same. intros k d _. unfold validate_perm. rewrite hashtab_search_ok by done. destruct (hashtab_abs h' !! k) as [d'|]; cbn [fst].
  - destruct (Z.eqb_spec (perm_value d) (perm_value d')) as [E|E]; cbn; split; intros; naive_solver.
  - split; [done|]. by intros (? & ? & _).
Qed.

(** A class of the policy in use is in the new one with its value, and its
    permissions, with those of its common, have kept theirs. *)
Definition class_kept (oldp newp : policydb) (k : cstring) (d : class_datum) : Prop :=
  exists d', symtab_abs (p_classes (db_symbols newp)) !! k = Some d' /\ cla_value d' = cla_value d /\ perms_kept (cla_permissions d) (cla_permissions d') /\
    match comdatum oldp d, comdatum newp d' with
    | Some c, Some c' => perms_kept (com_permissions c) (com_permissions c')
    | None, None => True
    | _, _ => False
    end.

Lemma comdatum_sound db d c : symbols_sound (db_symbols db) -> comdatum db d = Some c -> common_sound c.
Proof.
  intros ((_ & h & Eh & Hok & Hall) & _) H. unfold comdatum in H. destruct (cla_comkey d) as [ck|]; [|done]. cbn in H. rewrite Eh, hashtab_search_ok in H by done. by apply (Hall ck).
Qed.

Lemma classes_unchanged oldp newp :
  symbols_sound (db_symbols oldp) -> symbols_sound (db_symbols newp) ->
  classes_changed oldp newp = false <-> map_Forall (class_kept oldp newp) (symtab_abs (p_classes (db_symbols oldp))).
Proof.
  intros Ho Hn. pose proof Ho as (_ & [_ (h & Eh & Hok & Hall)] & _). pose proof Hn as (_ & [_ (h' & Eh' & Hok' & Hall')] & _).
  unfold classes_changed, symtab_abs at 1. rewrite Eh, map_check by done. apply map_Forall_same. intros k d Hk. destruct (Hall k d Hk) as (_ & [_ Hp] & _).
  unfold validate_class, class_kept, symtab_abs. rewrite Eh', hashtab_search_ok by done.
  destruct (hashtab_abs h' !! k) as [d'|] eqn:Ek; [|split; [done|]; by intros (? & ? & _)]. destruct (Hall' k d' Ek) as (_ & [_ Hp'] & _).
  destruct (Z.eqb_spec (cla_value d) (cla_value d')) as [Ev|Ev]; cbn [negb fst]; [|split; [done|]; intros (? & [= <-] & ? & _); congruence].
  pose proof (perms_unchanged _ _ _ _ Hp Hp') as Hpk.
  destruct (comdatum oldp d) as [c|] eqn:Ec, (comdatum newp d') as [c'|] eqn:Ec'.
  - pose proof (comdatum_sound oldp d c Ho Ec) as [_ [_ Hcp]]. pose proof (comdatum_sound newp d' c' Hn Ec') as [_ [_ Hcp']].
    pose proof (perms_unchanged _ _ _ _ Hcp Hcp') as Hck. destruct (perms_changed (com_permissions c) _); [|destruct (perms_changed (cla_permissions d) _)]; cbn [fst];
      (split; [try done|]); try (intros (? & [= <-] & _ & ?)); try rewrite Ec' in *; try naive_solver. intros _. exists d'. rewrite Ec'. naive_solver.
  - split; [done|]. intros (? & [= <-] & _ & _ & H). by rewrite Ec' in H.
  - split; [done|]. intros (? & [= <-] & _ & _ & H). by rewrite Ec' in H.
  - destruct (perms_changed (cla_permissions d) _); cbn [fst]; (split; [try done|]); try (intros (? & [= <-] & _ & ? & _)); try naive_solver. intros _. exists d'. rewrite Ec'. naive_solver.
Qed.

(** ** Contexts *)

Section Converts.
Context (oldp newp : policydb).

(** The bits of categories with the same name. *)
Definition cat_converts (b x : Z) : Prop :=
  exists k d, name_at (ix_cats (db_indexes oldp)) b = Some k /\ symtab_abs (p_cats (db_symbols newp)) !! k = Some d /\ x = u32 (cat_value d - 1) /\ x < 2 ^ 32 - 64.

Definition level_converts (l l' : mls_level) : Prop :=
  (exists k d, name_at (ix_sens (db_indexes oldp)) (sens l - 1) = Some k /\ symtab_abs (p_levels (db_symbols newp)) !! k = Some d /\ sens l' = sens (lev_level d)) /\
  ebitmap_ok (cat l') /\ (forall b, b ∈ ebitmap_set (cat l) -> exists x, cat_converts b x) /\
  (forall x, x ∈ ebitmap_set (cat l') <-> exists b, b ∈ ebitmap_set (cat l) /\ cat_converts b x).

Definition range_converts (r r' : mls_range) : Prop :=
  if h_mls (db_header oldp) then level_converts (level0 r) (level0 r') /\ level_converts (level1 r) (level1 r') else r' = r.

(** The context with the same names, valid in the new policy. *)
Definition converts (c c' : context_struct) : Prop :=
  (exists k d, name_at (ix_users (db_indexes oldp)).1 (ctx_user c - 1) = Some k /\ symtab_abs (p_users (db_symbols newp)) !! k = Some d /\ ctx_user c' = user_value d) /\
  (exists k d, name_at (ix_roles (db_indexes oldp)).1 (ctx_role c - 1) = Some k /\ symtab_abs (p_roles (db_symbols newp)) !! k = Some d /\ ctx_role c' = role_value d) /\
  (exists k d, name_at (ix_types (db_indexes oldp)).1 (ctx_type c - 1) = Some k /\ symtab_abs (p_types (db_symbols newp)) !! k = Some d /\ ctx_type c' = type_value d) /\
  range_converts (ctx_range c) (ctx_range c') /\ valid_context (h_mls (db_header newp)) (db_symbols newp) c'.

Lemma cat_converts_fun b x y : cat_converts b x -> cat_converts b y -> x = y.
Proof using. intros (k & d & E1 & E2 & -> & _) (k' & d' & E1' & E2' & -> & _). congruence. Qed.

Lemma level_converts_fun l l1 l2 : level_converts l l1 -> level_converts l l2 -> l1 = l2.
Proof using.
  intros ((k & d & E1 & E2 & E3) & Ho & _ & Hs) ((k' & d' & E1' & E2' & E3') & Ho' & _ & Hs'). destruct l1 as [s1 c1], l2 as [s2 c2]. cbn in *. f_equal; [congruence|].
  apply bitmap_ext; [done|done|]. intros b. by rewrite Hs, Hs'.
Qed.

Lemma converts_fun c c1 c2 : converts c c1 -> converts c c2 -> c1 = c2.
Proof using.
  intros ((? & ? & U1 & U2 & U3) & (? & ? & R1 & R2 & R3) & (? & ? & T1 & T2 & T3) & Hr & _) ((? & ? & U1' & U2' & U3') & (? & ? & R1' & R2' & R3') & (? & ? & T1' & T2' & T3') & Hr' & _).
  destruct c1 as [u1 r1 t1 g1], c2 as [u2 r2 t2 g2]. cbn in *. f_equal; try congruence. unfold range_converts in *. destruct (h_mls (db_header oldp)); [|congruence].
  destruct Hr as [H0 H1], Hr' as [H0' H1']. destruct g1, g2. cbn in *. f_equal; by eapply level_converts_fun.
Qed.

Context (Hnew : db_sound newp).

Lemma search_new {D} (P : cstring -> D -> Prop) t k : symtab_sound P t -> hashtab_search (st_table t) k = symtab_abs t !! k.
Proof using. intros [_ (h & Eh & Hok & _)]. unfold symtab_abs. rewrite Eh. by apply hashtab_search_ok. Qed.

Lemma cat_value_range k d : symtab_abs (p_cats (db_symbols newp)) !! k = Some d -> in_range 32 (u32 (cat_value d - 1)).
Proof using. intros _. apply wrap_range. done. Qed.

Lemma convert_cats_ok bits e o :
  (forall b, b ∈ bits -> is_Some (name_at (ix_cats (db_indexes oldp)) b)) -> ebitmap_ok e ->
  exists rc e' o', convert_cats oldp newp bits e o = Some (rc, e', o') /\ (mem_ok o -> mem_ok o') /\
    ((rc = 0 /\ ebitmap_ok e' /\ (forall b, b ∈ bits -> exists x, cat_converts b x) /\
        forall x, x ∈ ebitmap_set e' <-> x ∈ ebitmap_set e \/ exists b, b ∈ bits /\ cat_converts b x) \/
     (rc <> 0 /\ (mem_ok o -> exists b, b ∈ bits /\ forall x, ~ cat_converts b x))).
Proof using Hnew.
  revert e o. induction bits as [|b bits IH]; intros e o Hn He; cbn [convert_cats].
  { exists 0, e, o. split_and!; try done. left. split_and!; try done; [intros b Hb; by apply not_elem_of_nil in Hb|]. intros x. split; [by left|]. intros [?|(b & Hb & _)]; [done|by apply not_elem_of_nil in Hb]. }
  destruct (Hn b ltac:(left)) as [k Ek]. rewrite Ek. cbn [mbind option_bind]. pose proof (dd_symbols newp Hnew) as (_ & _ & _ & _ & _ & _ & _ & Hcats). rewrite (search_new _ _ k Hcats).
  assert (Hnone : (forall x, ~ cat_converts b x) -> forall rc e' o', rc <> 0 -> (mem_ok o -> mem_ok o') ->
    exists rc2 e2 o2, Some (rc, e', o') = Some (rc2, e2, o2) /\ (mem_ok o -> mem_ok o2) /\
    ((rc2 = 0 /\ ebitmap_ok e2 /\ (forall b', b' ∈ b :: bits -> exists x, cat_converts b' x) /\
        forall x, x ∈ ebitmap_set e2 <-> x ∈ ebitmap_set e \/ exists b', b' ∈ b :: bits /\ cat_converts b' x) \/
     (rc2 <> 0 /\ (mem_ok o -> exists b', b' ∈ b :: bits /\ forall x, ~ cat_converts b' x)))).
  { intros Hno rc e' o' Hrc M. exists rc, e', o'. split_and!; try done. right. split; [done|]. intros _. exists b. split; [left|done]. }
  destruct (symtab_abs (p_cats (db_symbols newp)) !! k) as [d|] eqn:Ed.
  2:{ apply Hnone; [|done|done]. intros x (k' & d' & E & E' & _). congruence. }
  destruct (decide (u32 (cat_value d - 1) < 2 ^ 32 - 64)) as [Hlt|Hge].
  2:{ rewrite set_bit_high by (pose proof (cat_value_range k d Ed); unfold in_range in *; lia). change (ctrue (- EINVAL)) with true. cbn iota. apply Hnone; [|done|done].
      intros x (k' & d' & E & E' & -> & Hlt). simplify_eq. lia. }
  assert (Hb : cat_converts b (u32 (cat_value d - 1))) by (by exists k, d).
  pose proof (cat_value_range k d Ed) as Hr. unfold in_range in Hr. pose proof (ebitmap_set_bit_ok e (u32 (cat_value d - 1)) 1 o He ltac:(lia)) as Hset.
  destruct (ebitmap_set_bit e _ 1 o) as [[rc e1] o1] eqn:Es. pose proof (set_bit_mem_ok _ _ _ _ _ _ _ Es) as M1. destruct Hset as [(-> & He1 & Hs1)|(-> & _ & Hm)].
  - change (ctrue 0) with false. cbn iota. destruct (IH e1 o1) as (rc & e' & o' & -> & M2 & H); [intros b' Hb'; apply Hn; by right|done|]. exists rc, e', o'. split_and!; [done|auto|].
    destruct H as [(-> & He' & Hall & Hset)|(Hrc & Hno)]; [left|right].
    + split_and!; try done. { intros b' [->|Hb']%elem_of_cons; [by eexists|by apply Hall]. }
      intros x. rewrite Hset, Hs1. cbn. rewrite elem_of_union, elem_of_singleton. setoid_rewrite elem_of_cons. split.
      * intros [[->|?]|(b' & ? & ?)]; [right; exists b; tauto|tauto|right; exists b'; tauto].
      * intros [?|(b' & [->|?] & Hx)]; [tauto|left; left; by eapply cat_converts_fun|right; by exists b'].
    + split; [done|]. intros M. destruct (Hno (M1 M)) as (b' & Hb' & H). exists b'. split; [by right|done].
  - change (ctrue (- ENOMEM)) with true. cbn iota. exists (- ENOMEM), e1, o1. split_and!; try done. right. split; [done|]. by intros M.
Qed.

Lemma convert_level_ok l o :
  printable_level (ix_sens (db_indexes oldp)) (ix_cats (db_indexes oldp)) l ->
  exists rc l' o', convert_level oldp newp l o = Some (rc, l', o') /\ (mem_ok o -> mem_ok o') /\
    ((rc = 0 /\ level_converts l l' /\ level_ok l') \/ (rc <> 0 /\ (mem_ok o -> forall l2, ~ level_converts l l2))).
Proof using Hnew.
  intros [Hs [k Ek] Hok Hnames _]. unfold convert_level. rewrite before_value by done. rewrite Ek. cbn [mbind option_bind].
  pose proof (dd_symbols newp Hnew) as (_ & _ & _ & _ & _ & _ & Hlev & _). rewrite (search_new _ _ k Hlev). destruct (symtab_abs (p_levels (db_symbols newp)) !! k) as [d|] eqn:Ed.
  2:{ exists (- EINVAL), l, o. split_and!; try done. right. split; [done|]. intros _ l2 ((k' & d' & E & E' & _) & _). congruence. }
  rewrite for_each_bits by done. cbn [mbind option_bind].
  destruct (convert_cats_ok (nodes_bits (node (cat l))) ebitmap_init o) as (rc & e & o' & -> & M & H); [intros b Hb; by apply Hnames, elem_of_bits|done|]. cbn [mbind option_bind].
  exists rc, (mk_mls_level (sens (lev_level d)) e), o'. split_and!; try done. destruct H as [(-> & He & Hall & Hset)|(Hrc & Hno)]; [left|right].
  - split; [done|]. pose proof (table_abs_sound _ _ (proj2 Hlev)) as Hl. destruct (Hl k d Ed) as [Hd _]. split; [|by split].
    split_and!; [by exists k, d|done|intros b Hb; by apply Hall, elem_of_bits|]. intros x. cbn [cat]. rewrite Hset. setoid_rewrite <- elem_of_bits.
    split; [intros [Hx|(b & Hb & Hx)]; [by apply not_elem_of_nil in Hx|by exists b]|]. intros (b & Hb & Hx). right. by exists b.
  - split; [done|]. intros M0 l2 (_ & _ & Hall & _). destruct (Hno M0) as (b & Hb & H). destruct (Hall b) as [x Hx]; [by apply elem_of_bits|]. by apply (H x).
Qed.

Lemma convert_range_ok r o :
  (h_mls (db_header oldp) = true -> printable (ix_sens (db_indexes oldp)) (ix_cats (db_indexes oldp)) r) -> level_ok (level0 r) -> level_ok (level1 r) ->
  exists rc r' o', mls_convert_context oldp newp r o = Some (rc, r', o') /\ (mem_ok o -> mem_ok o') /\
    ((rc = 0 /\ range_converts r r' /\ level_ok (level0 r') /\ level_ok (level1 r')) \/ (rc <> 0 /\ (mem_ok o -> forall r2, ~ range_converts r r2))).
Proof using Hnew.
  intros Hp H0 H1. unfold mls_convert_context, range_converts. destruct (h_mls (db_header oldp)); cbn [negb].
  2:{ exists 0, r, o. split_and!; try done. by left. }
  destruct (Hp eq_refl) as [P0 P1]. destruct (convert_level_ok _ o P0) as (rc & l0 & o1 & -> & M0 & C0). cbn [mbind option_bind]. destruct C0 as [(-> & C0 & L0)|(Hrc & Hno)].
  2:{ replace (ctrue rc) with true by (unfold ctrue; lia). exists rc, r, o1. split_and!; try done. right. split; [done|]. intros M r2 [Hr _]. by apply (Hno M (level0 r2)). }
  change (ctrue 0) with false. cbn iota. destruct (convert_level_ok _ o1 P1) as (rc & l1 & o2 & -> & M1 & C1). cbn [mbind option_bind]. destruct C1 as [(-> & C1 & L1)|(Hrc & Hno)].
  2:{ replace (ctrue rc) with true by (unfold ctrue; lia). exists rc, r, o2. split_and!; [done|auto|]. right. split; [done|]. intros M r2 [_ Hr]. by apply (Hno (M0 M) (level1 r2)). }
  exists 0, (mk_mls_range l0 l1), o2. split_and!; [done|auto|]. by left.
Qed.

(** A context whose text can be printed. *)
Definition nameable (c : context_struct) : Prop :=
  exists u r t, named (h_mls (db_header oldp)) (db_indexes oldp) c u r t /\ zlength (context_text (h_mls (db_header oldp)) (db_indexes oldp) c u r t) < 2 ^ 31 - 1.

Lemma convert_values_ok c o :
  nameable c -> context_ranges c ->
  exists rc c' o', convert_values oldp newp c o = Some (rc, c', o') /\ (mem_ok o -> mem_ok o') /\
    ((rc = 0 /\ converts c c' /\ db_context newp c') \/ (rc <> 0 /\ (mem_ok o -> forall c2, ~ converts c c2))).
Proof using Hnew.
  intros (u & r & t & [[Hu Eu] [Hr Er] [Ht Et] Hmls] & _) (_ & _ & _ & L0 & L1). unfold convert_values. rewrite !before_value by done. rewrite Eu, Er, Et. cbn [mbind option_bind].
  pose proof (dd_symbols newp Hnew) as (_ & _ & Sr & St & Su & _). rewrite (search_new _ _ u Su), (search_new _ _ r Sr), (search_new _ _ t St).
  assert (Hno : (forall c2, ~ converts c c2) -> exists rc c' o', Some (- EINVAL, c, o) = Some (rc, c', o') /\ (mem_ok o -> mem_ok o') /\
    ((rc = 0 /\ converts c c' /\ db_context newp c') \/ (rc <> 0 /\ (mem_ok o -> forall c2, ~ converts c c2)))).
  { intros H. exists (- EINVAL), c, o. split_and!; try done. by right. }
  destruct (symtab_abs (p_users (db_symbols newp)) !! u) as [du|] eqn:Du; [|apply Hno; intros c2 ((? & ? & ? & ? & _) & _); congruence].
  destruct (symtab_abs (p_roles (db_symbols newp)) !! r) as [dr|] eqn:Dr; [|apply Hno; intros c2 (_ & (? & ? & ? & ? & _) & _); congruence].
  destruct (symtab_abs (p_types (db_symbols newp)) !! t) as [dt|] eqn:Dt; [|apply Hno; intros c2 (_ & _ & (? & ? & ? & ? & _) & _); congruence]. clear Hno.
  destruct (convert_range_ok (ctx_range c) o Hmls L0 L1) as (rc & g & o' & -> & M & C). cbn [mbind option_bind]. destruct C as [(-> & C & G0 & G1)|(Hrc & Hno)].
  2:{ replace (ctrue rc) with true by (unfold ctrue; lia). eexists rc, _, o'. split; [done|]. split; [done|]. right. split; [done|]. intros M0 c2 (_ & _ & _ & Hg & _). by apply (Hno M0 (ctx_range c2)). }
  change (ctrue 0) with false. cbn iota. set (c' := mk_context _ _ _ g).
  assert (Hc : context_ranges c').
  { apply proj2, table_abs_sound in Su, Sr, St. destruct (Su u du Du) as (Vu & _). destruct (Sr r dr Dr) as (Vr & _). destruct (St t dt Dt) as (Vt & _). unfold in_range in *. split_and!; cbn; try done; lia. }
  destruct (dd_checks newp Hnew c' Hc) as (b & -> & Hb). cbn [mbind option_bind]. exists (if negb b then convert_context_handle_invalid_context else 0), c', o'. split_and!; try done.
  destruct b; [left|right]; cbn [negb].
  - assert (Hv : valid_context (h_mls (db_header newp)) (db_symbols newp) c') by (by apply Hb). split_and!; try done. split_and!; try done; [by exists u, du|by exists r, dr|by exists t, dt].
  - split; [done|]. intros _ c2 Hc2. assert (Hv : ~ valid_context (h_mls (db_header newp)) (db_symbols newp) c') by (rewrite <- Hb; discriminate). apply Hv.
    assert (c2 = c') as <-; [|apply Hc2]. destruct Hc2 as ((? & ? & ? & ? & U) & (? & ? & ? & ? & R) & (? & ? & ? & ? & T) & Hg & _). destruct c2 as [u2 r2 t2 g2]. cbn in *. unfold c'. f_equal; try congruence.
    unfold range_converts in *. destruct (h_mls (db_header oldp)); [|congruence]. destruct Hg as [Ha Hb'], C as [Ca Cb]. destruct g, g2. cbn in *. f_equal; by eapply level_converts_fun.
Qed.

Lemma convert_context_ok c o :
  nameable c -> context_ranges c ->
  match convert_context oldp newp c o with
  | None => ~ mem_ok o
  | Some (rc, c', o') => (mem_ok o -> mem_ok o') /\
      ((rc = 0 /\ converts c c' /\ db_context newp c') \/ (rc <> 0 /\ (mem_ok o -> forall c2, ~ converts c c2)))
  end.
Proof using Hnew.
  intros Hn Hc. unfold convert_context. destruct (copy_cases c o) as (r & o1 & -> & [[-> M1]|[-> M1]]); [|split; [done|]; by right].
  destruct (convert_values_ok c o1 Hn Hc) as (rc & c' & o2 & -> & M2 & H). cbn [mbind option_bind]. destruct H as [(-> & H)|(Hrc & Hno)].
  { change (ctrue 0) with false. cbn [negb]. split; [auto|by left]. }
  replace (ctrue rc) with true by (unfold ctrue; lia). cbn [negb]. destruct Hn as (u & r & t & Hn & Hsz).
  assert (Hs : mem_ok o2 -> exists r o3, context_to_string (h_mls (db_header oldp)) (db_indexes oldp) c o2 = Some (Some r, o3) /\ mem_ok o3).
  { intros M. destruct (xok_elim _ _ o2 (context_to_string_ok _ _ c u r t Hn Hsz) M) as (x & o3 & E & M3 & _). by exists x, o3. }
  destruct (context_to_string _ _ c o2) as [[[x|] o3]|].
  - split; [intros M; by destruct (Hs (M2 (M1 M))) as (? & ? & [= <- <-] & ?)|]. right. split; [done|]. intros M. apply Hno. auto.
  - intros M. by destruct (Hs (M2 (M1 M))) as (? & ? & ? & _).
  - intros M. by destruct (Hs (M2 (M1 M))) as (? & ? & ? & _).
Qed.

(** ** The SID table *)

(** What is left of a list of SIDs. *)
Definition converted (g : Prop) (l l' : sid_chain) : Prop :=
  (forall sid c', (sid, c') ∈ l' -> exists c, (sid, c) ∈ l /\ converts c c' /\ db_context newp c') /\
  (g -> forall sid c c', (sid, c) ∈ l -> converts c c' -> (sid, c') ∈ l').

Lemma converted_app g l1 l1' l2 l2' : converted g l1 l1' -> converted g l2 l2' -> converted g (l1 ++ l2) (l1' ++ l2').
Proof using.
  intros [A1 A2] [B1 B2]. split; setoid_rewrite elem_of_app.
  - intros sid c' [H|H]; [destruct (A1 _ _ H) as (c & ? & ?)|destruct (B1 _ _ H) as (c & ? & ?)]; exists c; tauto.
  - intros G sid c c' [H|H] Hc; [left; by eapply A2|right; by eapply B2].
Qed.

Lemma converted_weak (g g' : Prop) l l' : (g' -> g) -> converted g l l' -> converted g' l l'.
Proof using. intros H [H1 H2]. split; [done|]. intros G. by apply H2, H. Qed.

Lemma remove_none (l : sid_chain) : (remove_failing (convert_sid oldp newp) l None).2 = None.
Proof using. induction l as [|[sid c] l IH]; cbn [remove_failing convert_sid]; [done|]. destruct (remove_failing _ l None) as [[l' gone] st]. cbn in *. by subst. Qed.

Lemma remove_failing_ok i l o :
  Forall (fun x => nameable x.2 /\ context_ranges x.2) l -> chain_ok i l ->
  match remove_failing (convert_sid oldp newp) l (Some o) with
  | (_, _, None) => ~ mem_ok o
  | (l', _, Some o') => (mem_ok o -> mem_ok o') /\ converted (mem_ok o) l l' /\ chain_ok i l'
  end.
Proof using Hnew.
  revert o. induction l as [|[sid c] l IH]; intros o Hall Hch; cbn [remove_failing convert_sid].
  { split_and!; try done. split; [intros sid c' Hc; by apply not_elem_of_nil in Hc|intros _ sid c c' Hc; by apply not_elem_of_nil in Hc]. }
  apply Forall_cons in Hall as [[Hn Hr] Hall]. destruct Hch as [HS HF]. apply StronglySorted_inv in HS as [HS Hlt]. apply Forall_cons in HF as [Hh HF].
  pose proof (convert_context_ok c o Hn Hr) as Hc. cbn [snd] in *. destruct (convert_context oldp newp c o) as [[[rc c'] o1]|].
  2:{ pose proof (remove_none l) as Hno. destruct (remove_failing _ l None) as [[l' gone] st]. cbn in Hno. subst st. by change (ctrue 0) with false. }
  destruct Hc as [M1 Hc]. specialize (IH o1 Hall (conj HS HF)). destruct (remove_failing _ l (Some o1)) as [[l' gone] [o2|]]; [|destruct (ctrue rc); auto].
  destruct IH as (M2 & Hl & [HS' HF']). apply (converted_weak (mem_ok o1) (mem_ok o)) in Hl; [|done].
  assert (Hbefore : forall c2, Forall (sid_before (sid, c2)) l').
  { intros c2. apply Forall_forall. intros [sid' c3] Hx. destruct (proj1 Hl _ _ Hx) as (c4 & Hx' & _). rewrite Forall_forall in Hlt. by specialize (Hlt _ Hx'). }
  destruct Hc as [(-> & Hcv)|(Hrc & Hno)].
  - change (ctrue 0) with false. cbn iota. split_and!; [auto| |].
    + change ((sid, c) :: l) with ([(sid, c)] ++ l). change ((sid, c') :: l') with ([(sid, c')] ++ l'). apply converted_app; [|done]. split.
      * intros sid2 c2 [= -> ->]%list_elem_of_singleton. exists c. split; [left|done].
      * intros _ sid2 c2 c3 [= -> ->]%list_elem_of_singleton H3. destruct Hcv as [Hcv _]. rewrite (converts_fun c c3 c' H3 Hcv). left.
    + split; by constructor.
  - replace (ctrue rc) with true by (unfold ctrue; lia). split_and!; [auto| |done]. split.
    + intros sid2 c2 H2. destruct (proj1 Hl _ _ H2) as (c3 & ? & ?). exists c3. split; [by right|done].
    + intros G sid2 c2 c3 [[= -> ->]|H2]%elem_of_cons H3; [by destruct (Hno G c3)|]. by apply (proj2 Hl G sid2 c2).
Qed.

Lemma remove_all_none (tbl : list sid_chain) : (remove_all_failing (convert_sid oldp newp) tbl None).2 = None.
Proof using.
  induction tbl as [|l tbl IH]; cbn [remove_all_failing]; [done|]. pose proof (remove_none l) as Hl. destruct (remove_failing _ l None) as [[l' g] st]. cbn in Hl. subst st.
  destruct (remove_all_failing _ tbl None) as [[t' g'] st]. done.
Qed.

Lemma remove_all_ok k tbl o :
  Forall (fun x => nameable x.2 /\ context_ranges x.2) (concat tbl) -> (forall i l, tbl !! i = Some l -> chain_ok (k + i) l) ->
  match remove_all_failing (convert_sid oldp newp) tbl (Some o) with
  | (_, _, None) => ~ mem_ok o
  | (tbl', _, Some o') => (mem_ok o -> mem_ok o') /\ converted (mem_ok o) (concat tbl) (concat tbl') /\ length tbl' = length tbl /\
      forall i l, tbl' !! i = Some l -> chain_ok (k + i) l
  end.
Proof using Hnew.
  revert k o. induction tbl as [|l tbl IH]; intros k o Hall Hch; cbn [remove_all_failing concat].
  { split_and!; try done. split; [intros sid c' Hc; by apply not_elem_of_nil in Hc|intros _ sid c c' Hc; by apply not_elem_of_nil in Hc]. }
  apply Forall_app in Hall as [H1 H2]. pose proof (remove_failing_ok (k + 0) l o H1 (Hch 0%nat l eq_refl)) as Hl. destruct (remove_failing _ l (Some o)) as [[l' g] [o1|]].
  2:{ pose proof (remove_all_none tbl) as Hno. destruct (remove_all_failing _ tbl None) as [[t' g'] st]. cbn in Hno. by subst st. }
  destruct Hl as (M1 & Hc1 & Hk). specialize (IH (S k) o1 H2). destruct (remove_all_failing _ tbl (Some o1)) as [[t' g'] [o2|]].
  - destruct IH as (M2 & Hc2 & Hlen & Hk2). { intros i l2 Hi. replace (S k + i)%nat with (k + S i)%nat by lia. by apply Hch. }
    split_and!; [auto| |cbn; congruence|].
    + cbn [concat]. apply converted_app; [done|]. by eapply converted_weak.
    + intros [|i] l2 Hi; cbn in Hi; [by simplify_eq|]. replace (k + S i)%nat with (S k + i)%nat by lia. by apply Hk2.
  - intros M. apply IH; [|auto]. intros i l2 Hi. replace (S k + i)%nat with (k + S i)%nat by lia. by apply Hch.
Qed.
End Converts.

(** ** Copying the table *)

Lemma clone_ok l tab o :
  sidtab_ok tab -> NoDup l.*1 -> Forall (fun x => 0 < x.1 < 2 ^ 32 - 1 /\ sids tab !! x.1 = None) l ->
  exists rc tab' o', sids_map clone_sid l (tab, o) = (rc, (tab', o')) /\ (mem_ok o -> mem_ok o') /\
    ((rc = 0 /\ sidtab_ok tab' /\ forall sid c, sids tab' !! sid = Some c <-> sids tab !! sid = Some c \/ (sid, c) ∈ l) \/ (ctrue rc = true /\ ~ mem_ok o)).
Proof.
  revert tab o. induction l as [|[sid c] l IH]; intros tab o Ht Hnd Hall; cbn [sids_map clone_sid].
  { exists 0, tab, o. split_and!; try done. left. split_and!; try done. intros sid c. split; [by left|]. intros [?|Hc]; [done|by apply not_elem_of_nil in Hc]. }
  apply Forall_cons in Hall as [[Hs Hnone] Hall]. cbn in Hs, Hnone, Hnd. apply NoDup_cons in Hnd as [Hnot Hnd].
  destruct (sidtab_insert_ok tab sid c o Ht Hs) as (rc & tab1 & o1 & E & M1 & H). unfold clone_sid at 1. cbn [fst snd]. rewrite E. rewrite Hnone in H.
  destruct H as [(-> & Ht1 & Hab & _)|(-> & -> & Hm)].
  2:{ change (ctrue (- ENOMEM)) with true. cbn iota. exists (- ENOMEM), tab, o1. split_and!; try done. by right. }
  change (ctrue 0) with false. cbn iota. destruct (IH tab1 o1 Ht1 Hnd) as (rc & tab' & o' & -> & M2 & H).
  { apply Forall_forall. intros [sid2 c2] H2. rewrite Forall_forall in Hall. destruct (Hall _ H2) as [Hr Hn]. split; [done|]. cbn in *. rewrite Hab, lookup_insert_ne; [done|].
    intros <-. apply Hnot. apply list_elem_of_fmap. by exists (sid, c2). }
  exists rc, tab', o'. split_and!; [done|auto|]. destruct H as [(-> & Ht' & Hl)|[Hrc Hm]]; [left|right; split; [done|auto]]. split_and!; try done.
  intros sid2 c2. rewrite Hl, Hab, lookup_insert_Some, elem_of_cons. split.
  - intros [[[-> ->]|[_ ?]]|?]; [right; by left|by left|right; by right].
  - intros [H2|[[= -> ->]|H2]]; [|left; by left|by right]. destruct (decide (sid = sid2)) as [->|Hne]; [congruence|]. left. right. done.
Qed.

(** ** Loading *)

Lemma init_cases o : exists rc tab o', sepol_sidtab_init o = (rc, tab, o') /\ (mem_ok o -> mem_ok o') /\
  ((sidtab_ok tab /\ sids tab = ∅) \/ (~ mem_ok o /\ tab = mk_sidtab None 0 0 false)).
Proof.
  destruct (sepol_sidtab_init o) as [[rc tab] o'] eqn:E. exists rc, tab, o'. split; [done|]. destruct (Z.eq_dec rc 0) as [Hrc|Hrc]; unfold sepol_sidtab_init in E; destruct (malloc o) as [ok o1] eqn:Em.
  - assert (o' = o1) as -> by (destruct ok; cbn in E; congruence). split; [intros M; by destruct (malloc_mem_ok _ _ _ Em M)|]. left. apply (sidtab_init_ok o rc tab o1); [|done]. unfold sepol_sidtab_init. by rewrite Em.
  - destruct ok; simplify_eq/=. assert (Hm : ~ mem_ok o) by (intros M; by destruct (malloc_mem_ok _ _ _ Em M)). split; [done|by right].
Qed.

Section Install.
Context (sv : server) (oldp newp : policydb) (Hsv : server_sound sv oldp) (Hnew : db_sound newp) (Hfresh : db_fresh newp).
Context (Hnames : map_Forall (fun _ => nameable oldp) (sids (sv_sidtab sv))).

Definition kept_classes : Prop := map_Forall (class_kept oldp newp) (symtab_abs (p_classes (db_symbols oldp))).

(** The table after the conversion. *)
Definition converted_sids (g : Prop) (tab : sidtab) : Prop :=
  (forall sid c', sids tab !! sid = Some c' -> exists c, sids (sv_sidtab sv) !! sid = Some c /\ converts oldp newp c c') /\
  (g -> forall sid c c', sids (sv_sidtab sv) !! sid = Some c -> converts oldp newp c c' -> sids tab !! sid = Some c').

Lemma own_sids tbl : sid_htable (sv_sidtab sv) = Some tbl ->
  NoDup (concat tbl).*1 /\ Forall (fun x => 0 < x.1 < 2 ^ 32 - 1) (concat tbl) /\ forall sid c, sids (sv_sidtab sv) !! sid = Some c <-> (sid, c) ∈ concat tbl.
Proof using Hsv.
  intros Et. destruct (ss_table sv oldp Hsv) as (tbl' & Et' & Hlen & Hch & Hsids & Hnext). rewrite Et in Et'. injection Et' as <-.
  assert (Hl : forall sid c, sids (sv_sidtab sv) !! sid = Some c <-> (sid, c) ∈ concat tbl) by (intros sid c; unfold sids; rewrite Et; by apply sidtab_lookup).
  split_and!; [by apply sids_nodup| |done]. apply Forall_forall. intros [sid c] Hx. apply Hl in Hx. unfold sids in Hx. rewrite Et in Hx. apply Hsids in Hx. cbn. lia.
Qed.

(** The conversion of a copy of the table. *)
Lemma convert_table_ok tab o :
  sidtab_ok tab -> (forall sid c, sids tab !! sid = Some c <-> sids (sv_sidtab sv) !! sid = Some c) ->
  match sepol_sidtab_map_remove_on_error tab (convert_sid oldp newp) (Some o) with
  | (_, None) => ~ mem_ok o
  | (tab', Some o') => (mem_ok o -> mem_ok o') /\ sidtab_ok tab' /\ map_Forall (fun _ => db_context newp) (sids tab') /\ converted_sids (mem_ok o) tab'
  end.
Proof using Hsv Hnew Hnames.
  intros (tbl & Et & Hlen & Hch & Hsids & Hnext) Hsame. unfold sepol_sidtab_map_remove_on_error. rewrite Et.
  assert (Hin : forall sid c, (sid, c) ∈ concat tbl <-> sids (sv_sidtab sv) !! sid = Some c). { intros sid c. rewrite <- Hsame. unfold sids. rewrite Et. by rewrite sidtab_lookup. }
  pose proof (remove_all_ok oldp newp Hnew 0 tbl o) as H.
  destruct (remove_all_failing (convert_sid oldp newp) tbl (Some o)) as [[tbl' gone] [o'|]].
  2:{ apply H; [|done]. apply Forall_forall. intros [sid c] Hx%Hin. split; [by apply (Hnames sid)|by apply (ss_contexts sv oldp Hsv sid)]. }
  destruct H as (M & [Hc1 Hc2] & Hlen' & Hch'). { apply Forall_forall. intros [sid c] Hx%Hin. split; [by apply (Hnames sid)|by apply (ss_contexts sv oldp Hsv sid)]. } { done. }
  assert (Hl : forall sid c, sidtab_abs tbl' !! sid = Some c <-> (sid, c) ∈ concat tbl') by (intros sid c; by apply sidtab_lookup).
  assert (Hbound : map_Forall (fun sid _ => 0 < sid < next_sid tab) (sidtab_abs tbl')).
  { intros sid c' Hx%Hl. destruct (Hc1 _ _ Hx) as (c & Hc & _). apply sidtab_lookup in Hc; [|done]. by apply Hsids in Hc. }
  split; [done|]. split; [exists tbl'; split_and!; try done; [cbn; congruence|..]; cbn; lia|]. unfold converted_sids. cbn [sids sid_htable]. split.
  - intros sid c' Hx%Hl. by destruct (Hc1 _ _ Hx) as (c & _ & _ & ?).
  - split.
    + intros sid c' Hx%Hl. destruct (Hc1 _ _ Hx) as (c & Hc%Hin & Hcv & _). by exists c.
    + intros G sid c c' Hc%Hin Hcv. apply Hl. by apply (Hc2 G sid c).
Qed.

(** Whatever memory there is, the server is left as it was, or its SID table
    is closed, or it has the new policy and no SID of another context. *)
Lemma install_ok o :
  match install_policy sv oldp newp o with
  | None => ~ mem_ok o
  | Some (None, _) => False
  | Some (Some (rc, sv'), _) =>
      (rc = - EINVAL /\ ~ kept_classes /\ sv' = sv) \/
      (rc = - ENOMEM /\ ~ mem_ok o /\ sv' = set_sidtab sv (sepol_sidtab_shutdown (sv_sidtab sv))) \/
      (rc = 0 /\ kept_classes /\ sv_db sv' = Some newp /\ converted_sids (mem_ok o) (sv_sidtab sv') /\
         (server_sound sv' newp \/ ~ mem_ok o /\ sid_htable (sv_sidtab sv') = None))
  end.
Proof using Hsv Hnew Hfresh Hnames.
  unfold install_policy. destruct (init_cases o) as (rc0 & tab0 & o0 & -> & M0 & Hinit).
  pose proof (classes_unchanged oldp newp (dd_symbols oldp (ss_policy sv oldp Hsv)) (dd_symbols newp Hnew)) as Hk.
  destruct (classes_changed oldp newp) eqn:Ek. { left. split_and!; try done. intros H. by apply Hk in H. }
  assert (Hkept : kept_classes) by (by apply Hk). pose proof (ss_table sv oldp Hsv) as (tbl & Et & _). destruct (own_sids tbl Et) as (Hnd & Hrange & Hown).
  unfold sepol_sidtab_map. cbn [set_sidtab sv_sidtab sepol_sidtab_shutdown sid_htable]. rewrite Et. cbv beta iota.
  destruct Hinit as [[Ht0 Hs0]|[Hm ->]].
  - destruct (clone_ok (concat tbl) _ o0 Ht0 Hnd) as (rc & tab1 & o2 & -> & M1 & H). { eapply Forall_impl; [exact Hrange|]. intros x Hx. split; [done|]. by rewrite Hs0, lookup_empty. }
    destruct H as [(-> & Ht1 & Hl1)|[-> Hm]]. 2:{ right. left. split_and!; try done. auto. }
    change (ctrue 0) with false. cbn iota. pose proof (convert_table_ok tab1 o2 Ht1) as H.
    destruct (sepol_sidtab_map_remove_on_error tab1 _ _) as [tab2 [o3|]].
    2:{ intros M. apply H; [|auto]. intros sid c. rewrite Hl1, Hs0, lookup_empty, Hown. naive_solver. }
    destruct H as (M2 & Ht2 & Hc2 & Hcv1 & Hcv2). { intros sid c. rewrite Hl1, Hs0, lookup_empty, Hown. naive_solver. }
    right. right. split_and!; try done. { split; [done|]. intros M. apply Hcv2. auto. }
    left. apply fresh_sound; try done.
  - destruct (concat tbl) as [|[sid c] l] eqn:Ec; cbn [sids_map].
    + change (ctrue 0) with false. cbn. right. right. split_and!; try done. by right.
    + right. left. by split_and!.
Qed.
End Install.

(** C9: loading a policy over one whose contexts can all be printed (no gap in
    their categories): when the bytes are read, [sepol_load_policy] refuses a
    policy in which an existing class has gone or changed its value, a
    permission of it or of its common has, or it has gained or lost its common,
    and leaves the server as it was.  Otherwise the new policy is installed; a
    SID that stays names the counterpart of its context: the one with the same
    names of user, role, type, sensitivities and categories, which is valid in
    the new policy; and if memory lasts every SID whose context has a
    counterpart stays, and the server is sound.  Without memory the SIDs may
    also fail to be copied, which shuts the table down, or a bad pointer may be
    followed. *)
Theorem load_policy_spec signed compat sv oldp newp data o db0 scopes o1 fp o2 :
  server_sound sv oldp -> map_Forall (fun _ => nameable oldp) (sids (sv_sidtab sv)) -> db_start db0 -> Forall (in_range 8) data ->
  policydb_init compat o = (0, Some (db0, scopes), o1) -> policydb_read signed db0 (mem_file data) o1 = Some (Some newp, fp, o2) ->
  match sepol_load_policy signed compat sv data o with
  | None => ~ mem_ok o2
  | Some (None, _) => False
  | Some (Some (rc, sv'), _) =>
      (rc = - EINVAL /\ ~ kept_classes oldp newp /\ sv' = sv) \/
      (rc = - ENOMEM /\ ~ mem_ok o2 /\ sv' = set_sidtab sv (sepol_sidtab_shutdown (sv_sidtab sv))) \/
      (rc = 0 /\ kept_classes oldp newp /\ sv_db sv' = Some newp /\
         (forall sid c', sids (sv_sidtab sv') !! sid = Some c' -> exists c, sids (sv_sidtab sv) !! sid = Some c /\ converts oldp newp c c') /\
         (mem_ok o2 -> server_sound sv' newp /\ forall sid c c', sids (sv_sidtab sv) !! sid = Some c -> converts oldp newp c c' -> sids (sv_sidtab sv') !! sid = Some c'))
  end.
Proof.
  intros Hsv Hn H0 Hb Ei Er. unfold sepol_load_policy. rewrite Ei, Er, (ss_db sv oldp Hsv). pose proof (read_sound signed db0 (mem_file data) o1 H0 Hb) as Hr.
  rewrite Er in Hr. destruct (Hr newp eq_refl) as [Hd Hf].
  pose proof (install_ok sv oldp newp Hsv Hd Hf Hn o2) as H. destruct (install_policy sv oldp newp o2) as [[[[rc sv']|] o3]|]; [|done..].
  destruct H as [H|[H|(-> & Hk & Edb & [Hc1 Hc2] & Hs)]]; [by left|right; by left|]. right. right. split_and!; try done.
  intros M. destruct Hs as [Hs|[Hm _]]; [|tauto]. split; [done|]. intros sid c c'. by apply (Hc2 M).
Qed.
