(* ===== verification/Validate.v ===== *)
(** * Validate: whole policies checked

    libsepol/src/policydb_validate.c and polcaps.c, for kernel policies: that
    every value a policy mentions is the value of a symbol.  A value without a
    name is a gap; the gaps of each kind of symbol are collected first.

    Functions that return 0 or -1 are translated to booleans, [true] for 0.
    [None]: a place outside an array, a null pointer or a shift by more than
    the width.  Policies that were read have [notdefined] 0 in all levels. *)
From Stdlib Require Import ZArith Lia Bool String.
From stdpp Require Import base option list list_numbers gmap sets.
From S2P Require Import Prelude PolicyFile Mem Ebitmap Hashtab Symtab Avtab AvtabIO Cond Codec Symbols Trans Index Contexts ContextText CondIO Policydb PolicydbInit Sidtab Constraint Services ServicesObjects.

Open Scope Z_scope.

(** ** Capabilities (polcaps.c) *)

Definition polcap_names : list cstring :=
  [lit "network_peer_controls"; lit "open_perms"; lit "extended_socket_class"; lit "always_check_network"; lit "cgroup_seclabel";
   lit "nnp_nosuid_transition"; lit "genfs_seclabel_symlinks"; lit "ioctl_skip_cloexec"; lit "userspace_initial_context"; lit "netlink_xperm";
   lit "netif_wildcard"; lit "genfs_seclabel_wildcard"; lit "functionfs_seclabel"].

Definition POLICYDB_CAP_MAX : Z := 12.

Definition sepol_polcap_getname (capnum : Z) : option cstring :=
  if POLICYDB_CAP_MAX <? capnum then None else polcap_names !! Z.to_nat capnum.

(** ** Values, sets and gaps *)

Record validate := mk_validate { v_nprim : Z; v_gaps : ebitmap }.

Record flavors := mk_flavors {
  f_commons : validate; f_classes : validate; f_roles : validate; f_types : validate;
  f_users : validate; f_bools : validate; f_levels : validate; f_cats : validate }.

Definition gap_step (val_to_name : names) (i : Z) (gaps : ebitmap) : X ebitmap :=
  match val_to_name !! Z.to_nat i with
  | None => xfault
  | Some (Some _) => xret gaps
  | Some None => xset gaps i 1
  end.

Definition create_gap_ebitmap (val_to_name : names) (nprim : Z) : X ebitmap := xfold (gap_step val_to_name) (seqZ 0 nprim) ebitmap_init.

Definition validate_init (val_to_name : names) (nprim : Z) : X validate :=
  gaps <- create_gap_ebitmap val_to_name nprim ;;; xret (mk_validate nprim gaps).

(** Policies in which attributes have no names. *)
Definition unnamed_attributes (h : header) : bool :=
  (h_type h =? POLICY_KERN) && (POLICYDB_VERSION_AVTAB <=? h_vers h) && (h_vers h <=? POLICYDB_VERSION_PERMISSIVE).

Definition validate_array_init (p : policydb) : X flavors :=
  let s := db_symbols p in
  commons <- validate_init (p_common_val_to_name (db_class_indexes p)) (st_nprim (p_commons s)) ;;;
  classes <- validate_init (p_class_val_to_name (db_class_indexes p)) (st_nprim (p_classes s)) ;;;
  roles <- validate_init (ix_roles (db_indexes p)).1 (st_nprim (p_roles s)) ;;;
  types <- (if unnamed_attributes (db_header p) then xret (mk_validate (st_nprim (p_types s)) ebitmap_init)
            else validate_init (ix_types (db_indexes p)).1 (st_nprim (p_types s))) ;;;
  users <- validate_init (ix_users (db_indexes p)).1 (st_nprim (p_users s)) ;;;
  bools <- validate_init (ix_bools (db_indexes p)).1 (st_nprim (p_bools s)) ;;;
  levels <- validate_init (ix_sens (db_indexes p)) (st_nprim (p_levels s)) ;;;
  cats <- validate_init (ix_cats (db_indexes p)) (st_nprim (p_cats s)) ;;;
  xret (mk_flavors commons classes roles types users bools levels cats).

(** Values are unsigned. *)
Definition validate_value (value : Z) (f : validate) : bool :=
  negb ((value <=? 0) || (v_nprim f <? value)) && negb (ctrue (ebitmap_get_bit (v_gaps f) (value - 1))).

Definition validate_ebitmap (map : ebitmap) (f : validate) : bool :=
  negb ((0 <? ebitmap_length map) && (v_nprim f <=? ebitmap_highest_set_bit map)) && negb (ctrue (ebitmap_match_any map (v_gaps f))).

Definition among (x : Z) (l : list Z) : bool := existsb (Z.eqb x) l.

Definition validate_type_set (t : type_set) (f : validate) : bool :=
  validate_ebitmap (ts_types t) f && validate_ebitmap (ts_negset t) f && among (ts_flags t) [0; TYPE_STAR; TYPE_COMP].

Definition validate_empty_type_set (t : type_set) : bool :=
  ebitmap_is_empty (ts_types t) && ebitmap_is_empty (ts_negset t) && (ts_flags t =? 0).

Definition validate_role_set (r : role_set) (f : validate) : bool :=
  validate_ebitmap (rs_roles r) f && among (rs_flags r) [0; ROLE_STAR; ROLE_COMP].

(** [if (a) goto bad; if (b) goto bad;] where [a] or [b] may go wrong. *)
Definition oand (a b : option bool) : option bool := match a with Some true => b | r => r end.
Notation "a &&& b" := (oand a b) (at level 40, left associativity).

Fixpoint oall {A} (f : A -> option bool) (l : list A) : option bool :=
  match l with
  | [] => Some true
  | x :: l => f x &&& oall f l
  end.

(** [hashtab_map(table, f, args)]; the state says whether [f] went wrong. *)
Definition entry_checked {K D} (f : K -> D -> option bool) (k : K) (d : D) (fault : bool) : Z * bool :=
  match f k d with
  | None => (-1, true)
  | Some ok => (if ok then 0 else -1, fault)
  end.
Definition checked (r : Z * bool) : option bool := if r.2 then None else Some (r.1 =? 0).
Definition table_all {K D} (f : K -> D -> option bool) (h : option (hashtab K D)) : option bool := checked (hashtab_map h (entry_checked f) false).

(** ** Scopes *)

Definition validate_scope (nprim : Z) (d : scope_datum) : bool :=
  among (sc_scope d) [SCOPE_REQ; SCOPE_DECL] && forallb (fun i => value_isvalid i nprim) (sc_decl_ids d).

(** [global]: the number of declarations of every block. *)
Definition validate_scopes (scopes : list (table scope_datum)) (global : list Z) : option bool :=
  let num_decls := u32 (fold_left Z.add global 0) in
  oall (table_all (fun _ d => Some (validate_scope num_decls d))) scopes.

(** ** Constraints *)

Definition UINT32_MAX : Z := 2 ^ 32 - 1.

Section Constraints.
Context (fl : flavors).

Definition validate_names (is_validatetrans : bool) (e : constraint_expr) : bool :=
  negb (ctrue (Z.land (ce_attr e) CEXPR_XTARGET) && negb is_validatetrans) &&
  (ctrue (Z.land (ce_attr e) CEXPR_TYPE) || validate_empty_type_set (ce_type_names e)) &&
  among (ce_op e) [CEXPR_EQ; CEXPR_NEQ] &&
  (if among (ce_attr e) [CEXPR_USER; Z.lor CEXPR_USER CEXPR_TARGET; Z.lor CEXPR_USER CEXPR_XTARGET] then validate_ebitmap (ce_names e) (f_users fl)
   else if among (ce_attr e) [CEXPR_ROLE; Z.lor CEXPR_ROLE CEXPR_TARGET; Z.lor CEXPR_ROLE CEXPR_XTARGET] then validate_ebitmap (ce_names e) (f_roles fl)
   else if among (ce_attr e) [CEXPR_TYPE; Z.lor CEXPR_TYPE CEXPR_TARGET; Z.lor CEXPR_TYPE CEXPR_XTARGET]
   then validate_ebitmap (ce_names e) (f_types fl) && validate_type_set (ce_type_names e) (f_types fl)
   else false).

Definition validate_attr (e : constraint_expr) : bool :=
  ebitmap_is_empty (ce_names e) && validate_empty_type_set (ce_type_names e) &&
  (if among (ce_op e) [CEXPR_EQ; CEXPR_NEQ] then true
   else if among (ce_op e) [CEXPR_DOM; CEXPR_DOMBY; CEXPR_INCOMP]
   then negb (ctrue (Z.land (ce_attr e) CEXPR_USER) || ctrue (Z.land (ce_attr e) CEXPR_TYPE))
   else false) &&
  among (ce_attr e) [CEXPR_USER; CEXPR_ROLE; CEXPR_TYPE; CEXPR_L1L2; CEXPR_L1H2; CEXPR_H1L2; CEXPR_H1H2; CEXPR_L1H1; CEXPR_L2H2].

Definition validate_connective (e : constraint_expr) : bool :=
  (ce_op e =? 0) && (ce_attr e =? 0) && ebitmap_is_empty (ce_names e) && validate_empty_type_set (ce_type_names e).

(** One turn of the inner loop: the new [depth], or bad. *)
Definition validate_expr (is_validatetrans : bool) (e : constraint_expr) (depth : Z) : option Z :=
  if ce_type e =? CEXPR_NAMES then
    if (CEXPR_MAXDEPTH - 1 <=? depth) || negb (validate_names is_validatetrans e) then None else Some (depth + 1)
  else if ce_type e =? CEXPR_ATTR then
    if (CEXPR_MAXDEPTH - 1 <=? depth) || negb (validate_attr e) then None else Some (depth + 1)
  else
    depth ← (if ce_type e =? CEXPR_NOT then if depth <? 0 then None else Some depth
             else if (ce_type e =? CEXPR_AND) || (ce_type e =? CEXPR_OR) then if depth <? 1 then None else Some (depth - 1)
             else None);
    if validate_connective e then Some depth else None.

Fixpoint validate_exprs (is_validatetrans : bool) (es : list constraint_expr) (depth : Z) : option Z :=
  match es with
  | [] => Some depth
  | e :: es => depth ← validate_expr is_validatetrans e depth; validate_exprs is_validatetrans es depth
  end.

Definition validate_constraint_node (nperms : Z) (cons : constraint_node) : bool :=
  let is_validatetrans := nperms =? UINT32_MAX in
  (if is_validatetrans then con_permissions cons =? 0 else negb (con_permissions cons =? 0)) &&
  (if is_validatetrans || (nperms =? PERM_SYMTAB_SIZE) then true else con_permissions cons <? Z.shiftl 1 nperms) &&
  negb (is_null (con_expr cons)) &&
  match validate_exprs is_validatetrans (con_expr cons) (-1) with Some depth => depth =? 0 | None => false end.

Definition validate_constraint_nodes (nperms : Z) (cons : list constraint_node) : bool :=
  negb (negb (is_null cons) && (nperms =? 0)) && forallb (validate_constraint_node nperms) cons.
End Constraints.

(** ** Classes *)

(** [visited] has the bits of the values met so far. *)
Definition perm_visit (nprim inherited_nprim : Z) (k : cstring) (d : perm_datum) (visited : Z) : Z * Z :=
  if negb (value_isvalid (perm_value d) nprim) then (-1, visited) else
  if negb (inherited_nprim =? 0) && value_isvalid (perm_value d) inherited_nprim then (-1, visited) else
  if ctrue (Z.land (Z.shiftl 1 (perm_value d - 1)) visited) then (-1, visited) else
  (0, Z.lor visited (Z.shiftl 1 (perm_value d - 1))).

Definition validate_permission_symtab (permissions : symtab perm_datum) (inherited_nprim : Z) : bool :=
  (hashtab_map (st_table permissions) (perm_visit (st_nprim permissions) inherited_nprim) 0).1 =? 0.

(** [permissions.table->nel] *)
Definition table_nel (t : symtab perm_datum) : option Z := h ← st_table t; Some (ht_nel h).

Section Symbols.
Context (p : policydb) (fl : flavors).

Definition validate_common_datum (common : common_datum) : option bool :=
  let perms := com_permissions common in
  Some (validate_value (com_value common) (f_commons fl)) &&&
  Some (negb ((st_nprim perms =? 0) || (PERM_SYMTAB_SIZE <? st_nprim perms))) &&&
  (n ← table_nel perms; Some (st_nprim perms =? n)) &&&
  Some (validate_permission_symtab perms 0).

Definition validate_class_datum (class : class_datum) : option bool :=
  let perms := cla_permissions class in
  Some ((cla_value class <=? 2 ^ 16 - 1) && validate_value (cla_value class) (f_classes fl)) &&&
  match comdatum p class with Some common => validate_common_datum common | None => Some true end &&&
  (n ← table_nel perms; Some (negb ((PERM_SYMTAB_SIZE <? st_nprim perms) || (PERM_SYMTAB_SIZE <? n)))) &&&
  (n ← table_nel perms;
   inherited ← match comdatum p class with Some common => table_nel (com_permissions common) | None => Some 0 end;
   Some (st_nprim perms =? u32 (n + inherited))) &&&
  Some (validate_permission_symtab perms (match comdatum p class with Some common => st_nprim (com_permissions common) | None => 0 end) &&
        validate_constraint_nodes fl (st_nprim perms) (cla_constraints class) &&
        validate_constraint_nodes fl UINT32_MAX (cla_validatetrans class) &&
        among (default_user class) [0; DEFAULT_SOURCE; DEFAULT_TARGET] &&
        among (default_role class) [0; DEFAULT_SOURCE; DEFAULT_TARGET] &&
        among (default_type class) [0; DEFAULT_SOURCE; DEFAULT_TARGET] &&
        among (default_range class) [0; DEFAULT_SOURCE_LOW; DEFAULT_SOURCE_HIGH; DEFAULT_SOURCE_LOW_HIGH; DEFAULT_TARGET_LOW; DEFAULT_TARGET_HIGH; DEFAULT_TARGET_LOW_HIGH; DEFAULT_GLBLUB]).

(** ** Roles and types *)

(** [bounds && validate_value(bounds)] *)
Definition validate_bounds (bounds : Z) (f : validate) : bool := negb (ctrue bounds) || validate_value bounds f.

Definition validate_role_datum (role : role_datum) : bool :=
  validate_value (role_value role) (f_roles fl) && validate_ebitmap (role_dominates role) (f_roles fl) &&
  validate_type_set (role_types role) (f_types fl) && validate_bounds (role_bounds role) (f_roles fl) &&
  validate_ebitmap (role_roles role) (f_roles fl) && among (role_flavor role) [ROLE_ROLE; ROLE_ATTRIB].

Definition TYPE_TYPE : Z := 0.
Definition TYPE_FLAGS_EXPAND_ATTR_FALSE : Z := 4.
Definition TYPE_FLAGS_EXPAND_ATTR : Z := Z.lor TYPE_FLAGS_EXPAND_ATTR_TRUE TYPE_FLAGS_EXPAND_ATTR_FALSE.

Definition validate_simpletype (value : Z) : option bool :=
  Some (validate_value value (f_types fl)) &&&
  match (ix_types (db_indexes p)).2 !! Z.to_nat (value - 1) with
  | None => None
  | Some None => Some false
  | Some (Some (_, type)) => Some (negb (type_flavor type =? TYPE_ATTRIB))
  end.

Definition validate_type_datum (type : type_datum) : option bool :=
  Some (validate_value (type_value type) (f_types fl) && (negb (ctrue (type_primary type)) || validate_value (type_primary type) (f_types fl))) &&&
  (if (type_flavor type =? TYPE_TYPE) || (type_flavor type =? TYPE_ALIAS) then
     Some (ebitmap_is_empty (type_types type)) &&& (if ctrue (type_bounds type) then validate_simpletype (type_bounds type) else Some true)
   else if type_flavor type =? TYPE_ATTRIB then Some (validate_ebitmap (type_types type) (f_types fl) && negb (ctrue (type_bounds type)))
   else Some false) &&&
  Some (among (type_flags type) [0; TYPE_FLAGS_PERMISSIVE; TYPE_FLAGS_EXPAND_ATTR_TRUE; TYPE_FLAGS_EXPAND_ATTR_FALSE; TYPE_FLAGS_EXPAND_ATTR]).

(** ** Levels, users and booleans *)

Definition validate_mls_semantic_cat (cats : list mls_semantic_cat) : bool :=
  forallb (fun c => validate_value (cat_low c) (f_cats fl) && validate_value (cat_high c) (f_cats fl) && negb (cat_high c <? cat_low c)) cats.

Definition validate_mls_semantic_level (l : mls_semantic_level) : bool :=
  (ssens l =? 0) || (validate_value (ssens l) (f_levels fl) && validate_mls_semantic_cat (scat l)).

Definition validate_mls_semantic_range (r : mls_semantic_range) : bool :=
  validate_mls_semantic_level (slevel0 r) && validate_mls_semantic_level (slevel1 r).

Definition validate_mls_level (l : mls_level) : bool := validate_value (sens l) (f_levels fl) && validate_ebitmap (cat l) (f_cats fl).

Definition validate_level_datum (level : level_datum) : option bool :=
  let l1 := lev_level level in
  Some (validate_mls_level l1) &&&
  (if ctrue (lev_isalias level) then
     name ← name_at (ix_sens (db_indexes p)) (sens l1 - 1);
     match hashtab_search (st_table (p_levels (db_symbols p))) name with
     | None => Some false
     | Some actual => Some (ctrue (ebitmap_cmp (cat l1) (cat (lev_level actual))))
     end
   else Some true).

Definition validate_mls_range (r : mls_range) : bool := validate_mls_level (level0 r) && validate_mls_level (level1 r).

Definition validate_user_datum (user : user_datum) : bool :=
  let mls := h_mls (db_header p) && negb (h_type (db_header p) =? POLICY_MOD) in
  validate_value (user_value user) (f_users fl) && validate_role_set (user_roles user) (f_roles fl) &&
  validate_mls_semantic_range (user_range user) && validate_mls_semantic_level (user_dfltlevel user) &&
  (negb mls || validate_mls_range (user_exp_range user)) && (negb mls || validate_mls_level (user_exp_dfltlevel user)) &&
  validate_bounds (user_bounds user) (f_users fl).

Definition COND_BOOL_FLAGS_TUNABLE : Z := 1.

Definition validate_bool_datum (b : cond_bool_datum) : bool :=
  validate_value (bool_value b) (f_bools fl) && among (bool_state b) [0; 1] && among (bool_flags b) [0; COND_BOOL_FLAGS_TUNABLE].

(** ** The arrays and tables of symbols *)

(** A loop with [bool_xnor(array[i], ebitmap_get_bit(gaps, i))]. *)
Definition array_gaps {A} (array : list (option A)) (nprim : Z) (f : validate) : option bool :=
  oall (fun i => x ← array !! Z.to_nat i; Some (xorb (bool_decide (is_Some x)) (ctrue (ebitmap_get_bit (v_gaps f) i)))) (seqZ 0 nprim).

Definition validate_datum_array_gaps : option bool :=
  let s := db_symbols p in
  array_gaps (class_val_to_struct (db_class_indexes p)) (st_nprim (p_classes s)) (f_classes fl) &&&
  array_gaps (ix_roles (db_indexes p)).2 (st_nprim (p_roles s)) (f_roles fl) &&&
  (if unnamed_attributes (db_header p) then Some true else array_gaps (ix_types (db_indexes p)).2 (st_nprim (p_types s)) (f_types fl)) &&&
  array_gaps (ix_users (db_indexes p)).2 (st_nprim (p_users s)) (f_users fl) &&&
  array_gaps (ix_bools (db_indexes p)).2 (st_nprim (p_bools s)) (f_bools fl).

Definition validate_datum_array_entries : option bool :=
  let s := db_symbols p in
  table_all (fun _ => validate_common_datum) (st_table (p_commons s)) &&&
  table_all (fun _ => validate_class_datum) (st_table (p_classes s)) &&&
  table_all (fun _ d => Some (validate_role_datum d)) (st_table (p_roles s)) &&&
  table_all (fun _ => validate_type_datum) (st_table (p_types s)) &&&
  table_all (fun _ d => Some (validate_user_datum d)) (st_table (p_users s)) &&&
  (if h_mls (db_header p) then table_all (fun _ => validate_level_datum) (st_table (p_levels s)) else Some true) &&&
  table_all (fun _ d => Some (value_isvalid (cat_value d) (v_nprim (f_cats fl)))) (st_table (p_cats s)) &&&
  table_all (fun _ d => Some (validate_bool_datum d)) (st_table (p_bools s)).

(** ** Rules *)

Definition validate_avtab_key (k : avtab_key) (conditional : bool) : option bool :=
  (if (h_type (db_header p) =? POLICY_KERN) && ctrue (Z.land (specified k) AVTAB_TYPE)
   then validate_simpletype (source_type k) &&& validate_simpletype (target_type k)
   else Some (validate_value (source_type k) (f_types fl) && validate_value (target_type k) (f_types fl))) &&&
  Some (validate_value (target_class k) (f_classes fl) &&
        (let spec := Z.land 4095 (specified k) in
         if among spec [AVTAB_ALLOWED; AVTAB_AUDITALLOW; AVTAB_AUDITDENY; AVTAB_TRANSITION; AVTAB_MEMBER; AVTAB_CHANGE] then true
         else if among spec [AVTAB_XPERMS_ALLOWED; AVTAB_XPERMS_AUDITALLOW; AVTAB_XPERMS_DONTAUDIT]
         then (h_target (db_header p) =? SEPOL_TARGET_SELINUX) && negb conditional
         else false)).

Definition validate_xperms (x : avtab_extended_perms) : bool := among (x_specified x) [AVTAB_XPERMS_IOCTLDRIVER; AVTAB_XPERMS_IOCTLFUNCTION; AVTAB_XPERMS_NLMSG].

Definition PERMISSION_MASK (nprim : Z) : option Z :=
  if nprim =? PERM_SYMTAB_SIZE then Some UINT32_MAX else if PERM_SYMTAB_SIZE <? nprim then None else Some (Z.shiftl 1 nprim - 1).

Definition validate_access_vector (tclass av : Z) : option bool :=
  match class_val_to_struct (db_class_indexes p) !! Z.to_nat (tclass - 1) with
  | Some (Some (_, cladatum)) => mask ← PERMISSION_MASK (st_nprim (cla_permissions cladatum)); Some (ctrue (Z.land av mask))
  | _ => None
  end.

(** The checks on a datum that both kinds of rules share. *)
Definition validate_datum_of (k : avtab_key) (d : avtab_datum) : option bool :=
  (if ctrue (Z.land (specified k) AVTAB_AV)
   then validate_access_vector (target_class k) (if Z.land 4095 (specified k) =? AVTAB_AUDITDENY then lnot_w 32 (data d) else data d)
   else Some true) &&&
  (if ctrue (Z.land (specified k) AVTAB_TYPE) then validate_simpletype (data d) else Some true).

Definition validate_avtab_key_and_datum (k : avtab_key) (d : avtab_datum) : option bool :=
  validate_avtab_key k false &&& validate_datum_of k d &&&
  (if ctrue (Z.land (specified k) AVTAB_XPERMS) then x ← xperms d; Some (validate_xperms x) else Some true).

Definition validate_avtab (a : avtab) : option bool := checked (avtab_map a (entry_checked validate_avtab_key_and_datum) false).

(** The nodes of the chain from an address on. *)
Fixpoint from_node (a : nat) (l : list nat) : list nat :=
  match l with
  | [] => []
  | x :: l' => if Nat.eqb x a then l else from_node a l'
  end.
Definition chain_from (t : cond_avtab) (a : nat) : option (list avtab_node) :=
  match from_node a (concat (filter (fun c => a ∈ c) (ct_addrs t))) with
  | [] => None
  | l => mapM (fun x => c ← ct_heap t !! x; Some c.1) l
  end.

(** The inner loop goes from the node of the list to the end of its chain. *)
Definition validate_cond_av_list (l : list nat) : option bool :=
  oall (fun a => nodes ← chain_from (db_cond p) a;
                 oall (fun n => validate_avtab_key (key n) true &&& validate_datum_of (key n) (datum n)) nodes) l.

(** The rules of modules, which kernel policies do not have. *)
Definition validate_avrules (avrule : Z) : option bool := if avrule =? 0 then Some true else None.

Definition validate_bool_id_array (ids : list Z) (n : Z) : option bool :=
  Some (negb (COND_MAX_BOOLS <=? n)) &&& oall (fun i => id ← ids !! Z.to_nat i; Some (validate_value id (f_bools fl))) (seqZ 0 n).

Definition cond_depth (e : cond_expr) (depth : Z) : option Z :=
  if expr_type e =? COND_BOOL then if validate_value (boolean e) (f_bools fl) && negb (COND_EXPR_MAXDEPTH - 1 <=? depth) then Some (depth + 1) else None
  else if expr_type e =? COND_NOT then if negb (depth <? 0) && (boolean e =? 0) then Some depth else None
  else if among (expr_type e) [COND_OR; COND_AND; COND_XOR; COND_EQ; COND_NEQ] then if negb (depth <? 1) && (boolean e =? 0) then Some (depth - 1) else None
  else None.

Fixpoint cond_depths (es : list cond_expr) (depth : Z) : option Z :=
  match es with
  | [] => Some depth
  | e :: es => depth ← cond_depth e depth; cond_depths es depth
  end.

Definition validate_cond_expr (es : list cond_expr) : bool :=
  negb (is_null es) && match cond_depths es (-1) with Some depth => depth =? 0 | None => false end.

Definition COND_NODE_FLAGS_TUNABLE : Z := 1.

Definition validate_cond (c : cond_node) : option bool :=
  Some (validate_cond_expr (expr c)) &&& validate_cond_av_list (true_list c) &&& validate_cond_av_list (false_list c) &&&
  validate_avrules (avtrue_list c) &&& validate_avrules (avfalse_list c) &&& validate_bool_id_array (bool_ids c) (nbools c) &&&
  Some (among (cur_state c) [0; 1] && among (cn_flags c) [0; COND_NODE_FLAGS_TUNABLE]).

Definition validate_cond_list (l : list cond_node) : option bool := oall validate_cond l.

Definition validate_role_transes (l : list role_trans) : bool :=
  forallb (fun t => validate_value (rt_role t) (f_roles fl) && validate_value (rt_type t) (f_types fl) &&
                    validate_value (rt_tclass t) (f_classes fl) && validate_value (rt_new_role t) (f_roles fl)) l.

Definition validate_role_allows (l : list role_allow) : bool :=
  forallb (fun a => validate_value (ra_role a) (f_roles fl) && validate_value (ra_new_role a) (f_roles fl)) l.

(** A chain of data is never null. *)
Definition validate_filename_trans (k : filename_trans_key) (c : ft_chain) : option bool :=
  Some (validate_value (ft_ttype k) (f_types fl) && validate_value (ft_tclass k) (f_classes fl)) &&&
  oall (fun d => Some (validate_ebitmap (ft_stypes d) (f_types fl)) &&& validate_simpletype (ft_otype d)) (chain_list c).

(** ** Contexts *)

Definition validate_context (c : context_struct) : bool :=
  validate_value (ctx_user c) (f_users fl) && validate_value (ctx_role c) (f_roles fl) && validate_value (ctx_type c) (f_types fl) &&
  (negb (h_mls (db_header p)) || validate_mls_range (ctx_range c)).

Definition SELINUX_SID_SZ : Z := 28.
Definition XEN_SID_SZ : Z := 13.
Definition SECURITY_FS_USE_XATTR : Z := 1.
Definition SECURITY_FS_USE_TRANS : Z := 2.
Definition SECURITY_FS_USE_TASK : Z := 3.

Definition validate_selinux (i : Z) (c : ocontext) : option bool :=
  if i =? OCON_ISID then Some (negb ((oc_sid0 c =? SEPOL_SECSID_NULL) || (SELINUX_SID_SZ <=? oc_sid0 c)))
  else if (i =? OCON_FS) || (i =? OCON_NETIF) then Some (validate_context (oc_context1 c)) &&& match oc_u c with U_NAME _ => Some true | _ => None end
  else if i =? OCON_PORT then match oc_u c with U_PORT _ low high => Some (negb (high <? low)) | _ => None end
  else if i =? OCON_FSUSE then
    Some (among (oc_v c) [SECURITY_FS_USE_XATTR; SECURITY_FS_USE_TRANS; SECURITY_FS_USE_TASK]) &&& match oc_u c with U_NAME _ => Some true | _ => None end
  else if i =? OCON_IBPKEY then match oc_u c with U_IBPKEY _ low high => Some (negb (high <? low)) | _ => None end
  else if i =? OCON_IBENDPORT then match oc_u c with U_IBENDPORT _ port => Some (negb (port =? 0)) | _ => None end
  else Some true.

Definition validate_xen (i : Z) (c : ocontext) : option bool :=
  if i =? OCON_XEN_ISID then Some (negb ((oc_sid0 c =? SEPOL_SECSID_NULL) || (XEN_SID_SZ <=? oc_sid0 c)))
  else if i =? OCON_XEN_IOPORT then match oc_u c with U_IOPORT low high => Some (negb (high <? low)) | _ => None end
  else if i =? OCON_XEN_IOMEM then
    match oc_u c with
    | U_IOMEM low high => Some (negb (high <? low) && negb ((h_vers (db_header p) <? POLICYDB_VERSION_XEN_DEVICETREE) && (UINT32_MAX <? high)))
    | _ => None
    end
  else if i =? OCON_XEN_DEVICETREE then match oc_u c with U_NAME _ => Some true | _ => None end
  else Some true.

Definition OCON_NUM : Z := 9.

Definition validate_ocontexts : option bool :=
  oall (fun i => oall (fun c => Some (validate_context (oc_context0 c)) &&&
                                (if h_target (db_header p) =? SEPOL_TARGET_SELINUX then validate_selinux i c
                                 else if h_target (db_header p) =? SEPOL_TARGET_XEN then validate_xen i c else Some true)) (objects p i)) (seqZ 0 OCON_NUM).

Definition validate_genfs : bool :=
  forallb (fun g => forallb (fun c => validate_context (oc_context0 c) && (negb (ctrue (oc_v c)) || validate_value (oc_v c) (f_classes fl))) (head g)) (db_genfs p).

(** ** The rest *)

Definition validate_permissives : option bool := bits ← for_each_positive_bit (db_permissive_map p); oall validate_simpletype bits.

Definition validate_range_transition (k : range_trans) (r : mls_range) : bool :=
  validate_value (rg_source k) (f_types fl) && validate_value (rg_target k) (f_types fl) && validate_value (rg_class k) (f_classes fl) && validate_mls_range r.

(** [validate_typeattr_map] and [validate_attrtype_map] of a kernel policy. *)
Definition validate_maps (maps : list ebitmap) : option bool :=
  oall (fun i => m ← maps !! Z.to_nat i; Some (validate_ebitmap m (f_types fl))) (seqZ 0 (st_nprim (p_types (db_symbols p)))).
End Symbols.

Definition SEPOL_DENY_UNKNOWN : Z := 0.
Definition SEPOL_REJECT_UNKNOWN : Z := 2.
Definition SEPOL_ALLOW_UNKNOWN : Z := 4.

(** The cases of modules are left out; [p->mls] is a boolean. *)
Definition validate_properties (h : header) : bool :=
  (POLICYDB_VERSION_MIN <=? h_vers h) && (h_vers h <=? POLICYDB_VERSION_MAX) && negb (h_mls h && (h_vers h <? POLICYDB_VERSION_MLS)) &&
  among (h_target h) [SEPOL_TARGET_SELINUX; SEPOL_TARGET_XEN] && among (h_unknown h) [SEPOL_DENY_UNKNOWN; SEPOL_REJECT_UNKNOWN; SEPOL_ALLOW_UNKNOWN].

Definition validate_policycaps (p : policydb) : option bool :=
  bits ← for_each_positive_bit (db_policycaps p); Some (forallb (fun i => bool_decide (is_Some (sepol_polcap_getname i))) bits).

(** ** The whole policy *)

Definition policydb_checks (scopes : list (table scope_datum)) (global : list Z) (p : policydb) (fl : flavors) : option bool :=
  Some (validate_properties (db_header p)) &&& validate_policycaps p &&&
  validate_avtab p fl (db_te_avtab p) &&&
  (if POLICYDB_VERSION_BOOL <=? h_vers (db_header p) then validate_cond_list p fl (db_cond_list p) else Some true) &&&
  Some (validate_role_transes fl (db_role_tr p) && validate_role_allows fl (db_role_allow p)) &&&
  (if POLICYDB_VERSION_FILENAME_TRANS <=? h_vers (db_header p) then table_all (validate_filename_trans p fl) (ft_table (db_filename_trans p)) else Some true) &&&
  validate_ocontexts p fl &&& Some (validate_genfs p fl) &&& validate_scopes scopes global &&&
  validate_datum_array_gaps p fl &&& validate_datum_array_entries p fl &&& validate_permissives p fl &&&
  table_all (fun k r => Some (validate_range_transition fl k r)) (db_range_tr p) &&&
  validate_maps p fl (db_type_attr_map p) &&& validate_maps p fl (db_attr_type_map p).

(** For a kernel policy; [scopes] and [global] are [p->scope] and
    [p->global].  [false]: -1. *)
Definition policydb_validate (scopes : list (table scope_datum)) (global : list Z) (p : policydb) : X bool :=
  fun o =>
    match validate_array_init p o with
    | None => None
    | Some (None, o) => Some (Some false, o)
    | Some (Some fl, o) => match policydb_checks scopes global p fl with Some ok => Some (Some ok, o) | None => None end
    end.
