(* ===== verification/ValidateThms.v ===== *)
(** * ValidateThms: what a validated policy is

    [policydb_validate] accepts a policy that was read exactly when everything
    the policy mentions is there: [policy_valid].  A policy that it accepts
    and whose values have no gaps can be asked for decisions. *)
From Stdlib Require Import ZArith Lia Bool String.
From stdpp Require Import base option list list_numbers gmap sets.
From S2P Require Import Prelude PolicyFile Mem Ebitmap EbitmapThms EbitmapRange Hashtab HashtabThms Symtab Avtab AvtabThms AvtabIO Cond Codec Symbols SymCodec SymbolsIO SymbolsThms SymbolsSound Trans TransIns TransFt TransRT TransThms CondEval CondNorm Index IndexThms ExpandThms IndexAll Contexts ContextsIO ContextsValid ContextsSound ContextText ContextPrint ContextParse CondIO CondIOThms CondSound Policydb PolicydbIO PolicydbSound PolicydbInit Sidtab Constraint ConstraintThms Services ServicesThms ServicesObjects ServicesLoad Validate.

Open Scope Z_scope.

(** ** Checks and what they decide *)

Lemma decides_some b (P : Prop) : (b = true <-> P) -> decides (Some b) P.
Proof. by exists b. Qed.

Lemma decides_true : decides (Some true) True.
Proof. by exists true. Qed.

Lemma decides_and a b (P Q : Prop) : decides a P -> (P -> decides b Q) -> decides (a &&& b) (P /\ Q).
Proof.
  intros (x & -> & Hx) Hb. destruct x; cbn [oand].
  - destruct Hb as (y & -> & Hy); [by apply Hx|]. exists y. split; [done|]. rewrite Hy. naive_solver.
  - exists false. split; [done|]. naive_solver.
Qed.

Lemma decides_all {A} (f : A -> option bool) (P : A -> Prop) l : (forall x, x ∈ l -> decides (f x) (P x)) -> decides (oall f l) (Forall P l).
Proof.
  induction l as [|x l IH]; intros H; cbn [oall]; [by exists true|]. eapply decides_mono; [by rewrite Forall_cons|].
  apply decides_and; [apply H; left|]. intros _. apply IH. intros y Hy. apply H. by right.
Qed.

Lemma decides_as m (P Q : Prop) : decides m P -> (P <-> Q) -> decides m Q.
Proof. intros H E. by eapply decides_mono. Qed.

(** The checks of a function one by one; what is left are those that are
    calls, and then the comparison with the property. *)
Ltac checking :=
  lazymatch goal with
  | |- decides (_ &&& _) _ => eapply decides_and; [checking|intros ?; checking]
  | |- decides (Some _) _ => apply decides_some; reflexivity
  | |- _ => idtac
  end.
Ltac checks := eapply decides_as; [checking|].

Lemma entry_chain {K D} (f : K -> D -> option bool) (P : K -> D -> Prop) (l : list (K * D)) :
  Forall (fun x => decides (f x.1 x.2) (P x.1 x.2)) l -> decides (checked (chain_map (entry_checked f) l false)) (Forall (fun x => P x.1 x.2) l).
Proof.
  induction 1 as [|[k d] l (b & E & Hb) Hl IH]; cbn [chain_map fst snd] in *; [by exists true|]. unfold entry_checked at 1. rewrite E. destruct b.
  - change (ctrue 0) with false. cbn iota. eapply decides_mono; [|exact IH]. rewrite Forall_cons. cbn. naive_solver.
  - change (ctrue (-1)) with true. cbn iota. exists false. split; [done|]. rewrite Forall_cons. cbn. naive_solver.
Qed.

Lemma decides_table {K D} `{!EqDecision K, !Countable K, !KeyOps K, !KeyLaws K} (f : K -> D -> option bool) (P : K -> D -> Prop) (h : hashtab K D) :
  hashtab_ok h -> map_Forall (fun k d => decides (f k d) (P k d)) (hashtab_abs h) -> decides (table_all f (Some h)) (map_Forall P (hashtab_abs h)).
Proof.
  intros Hok Hall. unfold table_all. destruct (hashtab_map_ok h (entry_checked f) false Hok) as (l & Hl & ->). rewrite map_Forall_to_list, <- Hl in Hall.
  eapply decides_mono; [|apply (entry_chain f P l)]; [|eapply Forall_impl; [exact Hall|]; by intros []].
  rewrite map_Forall_to_list, <- Hl. split; intros H; (eapply Forall_impl; [exact H|]; by intros []).
Qed.

Lemma among_in x l : among x l = true <-> x ∈ l.
Proof. unfold among. rewrite existsb_exists, list_elem_of_In. split; [intros (y & Hy & E); by apply Z.eqb_eq in E as ->|intros H; exists x; split; [done|apply Z.eqb_refl]]. Qed.

Lemma among_decides x l : among x l = bool_decide (x ∈ l).
Proof. apply eq_true_iff_eq. by rewrite among_in, bool_decide_eq_true. Qed.

Lemma both_iff (P Q P' Q' : Prop) : (P <-> P') -> (Q <-> Q') -> P /\ Q <-> P' /\ Q'.
Proof. tauto. Qed.

Lemma forall_iff {A} (f : A -> bool) (P : A -> Prop) l : (forall x, x ∈ l -> f x = true <-> P x) -> forallb f l = true <-> Forall P l.
Proof. intros H. rewrite forallb_forall, Forall_forall. setoid_rewrite <- list_elem_of_In. naive_solver. Qed.

(** ** Values that are there *)

(** The value of a symbol; in an array without [gaps], of any place. *)
Definition known (gaps : bool) (n : names) (v : Z) : Prop := 0 < v /\ exists x, n !! Z.to_nat (v - 1) = Some x /\ (gaps = true -> is_Some x).

Definition all_known (P : Z -> Prop) (e : ebitmap) : Prop := forall b, b ∈ ebitmap_set e -> P (b + 1).

(** The checks with [f] are about [P]. *)
Definition judges (f : validate) (P : Z -> Prop) : Prop :=
  (forall v, validate_value v f = true <-> P v) /\ forall e, ebitmap_ok e -> validate_ebitmap e f = true <-> all_known P e.

Lemma empty_bits e : ebitmap_ok e -> ebitmap_is_empty e = true <-> ebitmap_set e = ∅.
Proof.
  intros [Hn _]. unfold ebitmap_is_empty, ebitmap_set. destruct (node e) as [|n l]; [done|]. split; [done|]. intros H. exfalso. destruct Hn as (_ & Hok & _).
  pose proof Hok as (_ & _ & _ & Hpos & _). assert (Hb : startbit n + Z.log2 (nmap n) ∈ nodes_bits (n :: l)).
  { apply elem_of_nodes_bits. rewrite nodes_bit_unfold, orb_true_iff. left. apply node_bit_spec. replace (startbit n + Z.log2 (nmap n) - startbit n) with (Z.log2 (nmap n)) by lia.
    split; [|by apply Z.bit_log2]. pose proof (Z.log2_nonneg (nmap n)). destruct Hok as (_ & _ & _ & _ & Hr). unfold in_range in Hr. pose proof (proj1 (Z.log2_lt_pow2 (nmap n) 64 Hpos) (proj2 Hr)). lia. }
  apply (elem_of_list_to_set (C := gset Z)) in Hb. rewrite H in Hb. set_solver.
Qed.

Section Judges.
Context (n : names) (nprim : Z) (Hlen : length n = Z.to_nat nprim).
Context (gaps : bool) (e0 : ebitmap) (H0 : ebitmap_ok e0) (Hgaps : forall b, b ∈ ebitmap_set e0 <-> gaps = true /\ 0 <= b < nprim /\ n !! Z.to_nat b = Some None).

Lemma known_place v : known gaps n v <-> 0 < v <= nprim /\ (v - 1) ∉ ebitmap_set e0.
Proof using Hlen Hgaps.
  rewrite Hgaps. unfold known. split.
  - intros (Hv & x & E & Hx). pose proof (lookup_lt_Some _ _ _ E). split; [lia|]. intros (Hg & _ & E'). rewrite E in E'. injection E' as ->. by destruct (Hx Hg).
  - intros [Hv Hno]. split; [lia|]. destruct (lookup_lt_is_Some_2 n (Z.to_nat (v - 1))) as [x E]; [lia|]. exists x. split; [done|]. intros Hg. destruct x; [done|]. destruct Hno. split_and!; [done|lia..|done].
Qed.

Lemma judges_place : judges (mk_validate nprim e0) (known gaps n).
Proof using Hlen H0 Hgaps.
  split.
  - intros v. rewrite known_place. unfold validate_value. cbn [v_nprim v_gaps]. rewrite get_bit_member by done. rewrite andb_true_iff, !negb_true_iff, orb_false_iff, bool_decide_eq_false, Z.leb_gt, Z.ltb_ge. naive_solver lia.
  - intros e He. unfold validate_ebitmap, all_known. cbn [v_nprim v_gaps]. setoid_rewrite known_place. rewrite andb_true_iff, !negb_true_iff.
    assert (Hm : ctrue (ebitmap_match_any e e0) = false <-> ebitmap_set e ## ebitmap_set e0).
    { pose proof (match_any_ctrue e e0 He H0) as H. destruct (ctrue (ebitmap_match_any e e0)); [split; [done|]; intros Hd; by destruct (proj1 H eq_refl)|].
      split; [|done]. intros _. destruct (decide (ebitmap_set e ## ebitmap_set e0)) as [|Hd]; [done|]. by apply H in Hd. }
    rewrite Hm. clear Hm.
    assert (Hh : (0 <? ebitmap_length e) && (nprim <=? ebitmap_highest_set_bit e) = false <-> forall b, b ∈ ebitmap_set e -> b < nprim).
    { rewrite andb_false_iff. destruct (decide (ebitmap_set e = ∅)) as [E|Hne].
      - split; [intros _ b Hb; rewrite E in Hb; set_solver|]. intros _. left. apply empty_bits in E; [|done]. unfold ebitmap_is_empty in E. unfold ebitmap_length. destruct (node e); [done|done].
      - destruct (ebitmap_highest_set_bit_spec e He Hne) as [Hin Hmax]. pose proof (bits_range e _ He Hin). split.
        + intros [Hz|Hn] b Hb; [|specialize (Hmax b Hb); lia]. unfold ebitmap_length in Hz. destruct (node e) as [|x l] eqn:E; [destruct Hne; by apply empty_bits; [|unfold ebitmap_is_empty; rewrite E]|].
          destruct He as [Hok Eh]. rewrite Eh, E in Hz. rewrite E in Hok. destruct (nodes_high_props 0 (x :: l) ltac:(done) Hok) as (_ & _ & Hlt & _).
          assert (Hb2 : nodes_bit (x :: l) b = true) by (rewrite <- E; by apply elem_of_ebitmap_set). specialize (Hlt b Hb2). assert (0 <= b) by (eapply bits_range; [split; [by rewrite E|by rewrite Eh, E]|done]). lia.
        + intros Hall. right. specialize (Hall _ Hin). lia. }
    rewrite Hh. clear Hh. split.
    + intros [Hlt Hd] b Hb. pose proof (bits_range e b He Hb). specialize (Hlt b Hb). split; [lia|]. replace (b + 1 - 1) with b by lia. set_solver.
    + intros H. split; [intros b Hb; destruct (H b Hb); lia|]. intros b Hb Hb0. destruct (H b Hb) as [_ Hno]. by replace (b + 1 - 1) with b in Hno by lia.
Qed.
End Judges.

(** The collection of the gaps. *)
Lemma collect_gaps {strict} (n : names) nprim :
  length n = Z.to_nat nprim -> in_range 32 nprim -> (strict = true -> nprim <= 2 ^ 32 - 64) ->
  xruns strict (validate_init n nprim) (fun f => judges f (known true n) /\ v_nprim f = nprim).
Proof.
  intros Hlen Hn Hs. unfold validate_init, create_gap_ebitmap.
  eapply xok_bind; [apply (xok_fold _ _ (fun done e => ebitmap_ok e /\ forall b, b ∈ ebitmap_set e <-> b ∈ done /\ n !! Z.to_nat b = Some None))|].
  - split; [by split|]. intros b. split; [intros Hb; cbn in Hb; set_solver|]. intros [Hb _]. by apply not_elem_of_nil in Hb.
  - intros done i todo e El [He Hset]. assert (Hi : 0 <= i < nprim).
    { assert (H : i ∈ seqZ 0 nprim) by (rewrite El; apply elem_of_app; right; left). apply elem_of_seqZ in H. lia. }
    unfold gap_step. destruct (lookup_lt_is_Some_2 n (Z.to_nat i)) as [x E]; [lia|]. rewrite E. destruct x as [x|].
    + apply xok_ret. split; [done|]. intros b. rewrite Hset, elem_of_app, list_elem_of_singleton. split; [naive_solver|]. intros [[?| ->] E']; [done|]. rewrite E in E'. discriminate.
    + unfold in_range in Hn. eapply xok_mono; [apply xok_set; [done|]|].
      { destruct strict; [left; specialize (Hs eq_refl); lia|right; split; [done|unfold in_range; lia]]. }
      intros e' [He' ->]. split; [done|]. intros b. cbn. rewrite elem_of_union, elem_of_singleton, Hset, elem_of_app, list_elem_of_singleton. naive_solver.
  - intros e [He Hset]. apply xok_ret. split; [|done]. apply judges_place; try done. intros b. rewrite Hset, elem_of_seqZ. naive_solver lia.
Qed.

(** ** Valid policies *)

Section Valid.
Context (db : policydb).

Definition is_common : Z -> Prop := known true (p_common_val_to_name (db_class_indexes db)).
Definition is_class : Z -> Prop := known true (p_class_val_to_name (db_class_indexes db)).
Definition is_role : Z -> Prop := known true (ix_roles (db_indexes db)).1.
Definition is_type : Z -> Prop := known (negb (unnamed_attributes (db_header db))) (ix_types (db_indexes db)).1.
Definition is_user : Z -> Prop := known true (ix_users (db_indexes db)).1.
Definition is_bool : Z -> Prop := known true (ix_bools (db_indexes db)).1.
Definition is_sens : Z -> Prop := known true (ix_sens (db_indexes db)).
Definition is_cat : Z -> Prop := known true (ix_cats (db_indexes db)).

(** A type and not an attribute. *)
Definition is_plain (v : Z) : Prop := is_type v /\ plain_type (ix_types (db_indexes db)).2 (v - 1).

Definition level_valid (l : mls_level) : Prop := is_sens (sens l) /\ all_known is_cat (cat l).
Definition range_valid (r : mls_range) : Prop := level_valid (level0 r) /\ level_valid (level1 r).

Definition context_valid (c : context_struct) : Prop :=
  is_user (ctx_user c) /\ is_role (ctx_role c) /\ is_type (ctx_type c) /\ (h_mls (db_header db) = true -> range_valid (ctx_range c)).

(** Constraints: the elements of their expressions. *)
Definition empty_types (t : type_set) : Prop := ebitmap_set (ts_types t) = ∅ /\ ebitmap_set (ts_negset t) = ∅ /\ ts_flags t = 0.

Definition types_valid (t : type_set) : Prop :=
  all_known is_type (ts_types t) /\ all_known is_type (ts_negset t) /\ ts_flags t ∈ [0; TYPE_STAR; TYPE_COMP].

Definition about (attr kind : Z) : Prop := attr ∈ [kind; Z.lor kind CEXPR_TARGET; Z.lor kind CEXPR_XTARGET].

Definition names_valid (validatetrans : bool) (e : constraint_expr) : Prop :=
  (validatetrans = false -> Z.land (ce_attr e) CEXPR_XTARGET = 0) /\ ce_op e ∈ [CEXPR_EQ; CEXPR_NEQ] /\
  (about (ce_attr e) CEXPR_USER /\ empty_types (ce_type_names e) /\ all_known is_user (ce_names e) \/
   about (ce_attr e) CEXPR_ROLE /\ empty_types (ce_type_names e) /\ all_known is_role (ce_names e) \/
   about (ce_attr e) CEXPR_TYPE /\ all_known is_type (ce_names e) /\ types_valid (ce_type_names e)).

Definition attr_valid (e : constraint_expr) : Prop :=
  ebitmap_set (ce_names e) = ∅ /\ empty_types (ce_type_names e) /\
  (ce_attr e ∈ [CEXPR_USER; CEXPR_TYPE] /\ ce_op e ∈ [CEXPR_EQ; CEXPR_NEQ] \/
   ce_attr e ∈ [CEXPR_ROLE; CEXPR_L1L2; CEXPR_L1H2; CEXPR_H1L2; CEXPR_H1H2; CEXPR_L1H1; CEXPR_L2H2] /\
   ce_op e ∈ [CEXPR_EQ; CEXPR_NEQ; CEXPR_DOM; CEXPR_DOMBY; CEXPR_INCOMP]).

Definition connective_valid (e : constraint_expr) : Prop :=
  ce_op e = 0 /\ ce_attr e = 0 /\ ebitmap_set (ce_names e) = ∅ /\ empty_types (ce_type_names e).

Definition element_valid (validatetrans : bool) (e : constraint_expr) : Prop :=
  if ce_type e =? CEXPR_NAMES then names_valid validatetrans e else if ce_type e =? CEXPR_ATTR then attr_valid e else connective_valid e.

(** [nperms]: the number of permissions; rules about transitions have none. *)
Definition constraint_valid (nperms : Z) (c : constraint_node) : Prop :=
  con_permissions c <> 0 /\ (nperms <> PERM_SYMTAB_SIZE -> con_permissions c < 2 ^ nperms) /\ Forall (element_valid false) (con_expr c).
Definition transition_valid (c : constraint_node) : Prop := con_permissions c = 0 /\ Forall (element_valid true) (con_expr c).
End Valid.

(** The checks are about the symbols of [db]. *)
Record judged (db : policydb) (fl : flavors) : Prop := mk_judged {
  j_commons : judges (f_commons fl) (is_common db); j_classes : judges (f_classes fl) (is_class db);
  j_roles : judges (f_roles fl) (is_role db); j_types : judges (f_types fl) (is_type db);
  j_users : judges (f_users fl) (is_user db); j_bools : judges (f_bools fl) (is_bool db);
  j_levels : judges (f_levels fl) (is_sens db); j_cats : judges (f_cats fl) (is_cat db);
  j_nprims : v_nprim (f_classes fl) = st_nprim (p_classes (db_symbols db)) /\ v_nprim (f_roles fl) = st_nprim (p_roles (db_symbols db)) /\
    v_nprim (f_types fl) = st_nprim (p_types (db_symbols db)) /\ v_nprim (f_users fl) = st_nprim (p_users (db_symbols db)) /\
    v_nprim (f_bools fl) = st_nprim (p_bools (db_symbols db)) /\ v_nprim (f_cats fl) = st_nprim (p_cats (db_symbols db)) }.

Lemma check_empty_types t : ebitmap_ok (ts_types t) -> ebitmap_ok (ts_negset t) -> validate_empty_type_set t = true <-> empty_types t.
Proof. intros H1 H2. unfold validate_empty_type_set, empty_types. rewrite !andb_true_iff, !empty_bits, Z.eqb_eq by done. tauto. Qed.

Lemma check_attr vt e : cons_expr_sound vt e -> validate_attr e = true <-> attr_valid e.
Proof.
  intros (H1 & H2 & H3 & _). unfold validate_attr, attr_valid. rewrite !andb_true_iff, empty_bits, check_empty_types, !among_decides, bool_decide_eq_true by done.
  assert (Ha : ce_attr e ∈ [CEXPR_USER; CEXPR_ROLE; CEXPR_TYPE; CEXPR_L1L2; CEXPR_L1H2; CEXPR_H1L2; CEXPR_H1H2; CEXPR_L1H1; CEXPR_L2H2] <->
    ce_attr e ∈ [CEXPR_USER; CEXPR_TYPE] \/ ce_attr e ∈ [CEXPR_ROLE; CEXPR_L1L2; CEXPR_L1H2; CEXPR_H1L2; CEXPR_H1H2; CEXPR_L1H1; CEXPR_L2H2]) by set_solver.
  assert (Ho : ce_op e ∈ [CEXPR_EQ; CEXPR_NEQ; CEXPR_DOM; CEXPR_DOMBY; CEXPR_INCOMP] <-> ce_op e ∈ [CEXPR_EQ; CEXPR_NEQ] \/ ce_op e ∈ [CEXPR_DOM; CEXPR_DOMBY; CEXPR_INCOMP]) by set_solver.
  assert (Hk1 : ce_attr e ∈ [CEXPR_USER; CEXPR_TYPE] -> ctrue (Z.land (ce_attr e) CEXPR_USER) || ctrue (Z.land (ce_attr e) CEXPR_TYPE) = true).
  { rewrite !elem_of_cons, !elem_of_nil. by intros [-> |[-> |[]]]. }
  assert (Hk2 : ce_attr e ∈ [CEXPR_ROLE; CEXPR_L1L2; CEXPR_L1H2; CEXPR_H1L2; CEXPR_H1H2; CEXPR_L1H1; CEXPR_L2H2] -> ctrue (Z.land (ce_attr e) CEXPR_USER) || ctrue (Z.land (ce_attr e) CEXPR_TYPE) = false).
  { rewrite !elem_of_cons, !elem_of_nil. by intros [-> |[-> |[-> |[-> |[-> |[-> |[-> |[]]]]]]]]. }
  rewrite Ha, Ho. clear Ha Ho. repeat case_bool_decide; destruct (ctrue (Z.land (ce_attr e) CEXPR_USER) || ctrue (Z.land (ce_attr e) CEXPR_TYPE)); cbn [negb]; naive_solver.
Qed.

Lemma check_connective vt e : cons_expr_sound vt e -> validate_connective e = true <-> connective_valid e.
Proof.
  intros (H1 & H2 & H3 & _). unfold validate_connective, connective_valid. rewrite !andb_true_iff, empty_bits, check_empty_types, !Z.eqb_eq by done. tauto.
Qed.

Section Checks.
Context (db : policydb) (fl : flavors) (J : judged db fl).

Lemma check_type_set t : ebitmap_ok (ts_types t) -> ebitmap_ok (ts_negset t) -> validate_type_set t (f_types fl) = true <-> types_valid db t.
Proof using J. intros H1 H2. unfold validate_type_set, types_valid. rewrite !andb_true_iff, among_in, !(proj2 (j_types _ _ J)) by done. tauto. Qed.

Lemma about_user attr : about attr CEXPR_USER -> Z.land attr 7 = CEXPR_USER.
Proof using. unfold about. rewrite !elem_of_cons, !elem_of_nil. by intros [-> |[-> |[-> |[]]]]. Qed.

Lemma about_role attr : about attr CEXPR_ROLE -> Z.land attr 7 = CEXPR_ROLE.
Proof using. unfold about. rewrite !elem_of_cons, !elem_of_nil. by intros [-> |[-> |[-> |[]]]]. Qed.

Lemma about_type attr : about attr CEXPR_TYPE -> Z.land attr 7 = CEXPR_TYPE.
Proof using. unfold about. rewrite !elem_of_cons, !elem_of_nil. by intros [-> |[-> |[-> |[]]]]. Qed.

Lemma kind_type attr k : Z.land attr 7 = k -> Z.land attr CEXPR_TYPE = Z.land k CEXPR_TYPE.
Proof using. intros <-. by rewrite <- Z.land_assoc. Qed.

Lemma check_names vt e : cons_expr_sound vt e -> validate_names fl vt e = true <-> names_valid db vt e.
Proof using J.
  intros (H1 & H2 & H3 & _). unfold validate_names, names_valid. rewrite !andb_true_iff, among_in.
  assert (Hx : negb (ctrue (Z.land (ce_attr e) CEXPR_XTARGET) && negb vt) = true <-> (vt = false -> Z.land (ce_attr e) CEXPR_XTARGET = 0)).
  { rewrite negb_true_iff, andb_false_iff, ctrue_false, negb_false_iff. destruct vt; naive_solver. }
  rewrite Hx, orb_true_iff, check_empty_types, !among_decides by done. clear Hx.
  repeat match goal with |- context [?a ∈ [?k; Z.lor ?k CEXPR_TARGET; Z.lor ?k CEXPR_XTARGET]] => fold (about a k) end.
  pose proof (about_user (ce_attr e)) as KU. pose proof (about_role (ce_attr e)) as KR. pose proof (about_type (ce_attr e)) as KT.
  assert (about (ce_attr e) CEXPR_USER -> ~ about (ce_attr e) CEXPR_ROLE /\ ~ about (ce_attr e) CEXPR_TYPE) by (intros E%KU; split; intros E'; [apply KR in E'|apply KT in E']; by rewrite E in E').
  assert (about (ce_attr e) CEXPR_ROLE -> ~ about (ce_attr e) CEXPR_TYPE) by (intros E%KR E'%KT; by rewrite E in E').
  repeat case_bool_decide; rewrite ?(proj2 (j_users _ _ J)), ?(proj2 (j_roles _ _ J)), ?andb_true_iff, ?(proj2 (j_types _ _ J)), ?check_type_set by done.
  - rewrite (kind_type _ _ (KU ltac:(done))). change (ctrue _ = true) with (false = true). intuition congruence.
  - rewrite (kind_type _ _ (KR ltac:(done))). change (ctrue _ = true) with (false = true). intuition congruence.
  - rewrite (kind_type _ _ (KT ltac:(done))). change (ctrue _ = true) with (true = true). intuition congruence.
  - intuition congruence.
Qed.

Lemma cons_depth_small e depth d : depth < CEXPR_MAXDEPTH -> cons_depth_step e depth = Some d -> d < CEXPR_MAXDEPTH.
Proof using. intros Hd. unfold cons_depth_step, CEXPR_MAXDEPTH in *. repeat case_match; intros; simplify_eq; lia. Qed.

(** A turn of the loop is one of [cons_depth] and a check of the element. *)
Lemma check_expr vt e depth d :
  cons_expr_sound vt e -> depth < CEXPR_MAXDEPTH -> validate_expr fl vt e depth = Some d <-> cons_depth_step e depth = Some d /\ element_valid db vt e.
Proof using J.
  intros He Hd. unfold validate_expr, cons_depth_step, element_valid. assert (Hm : (CEXPR_MAXDEPTH - 1 <=? depth) = (depth =? CEXPR_MAXDEPTH - 1)) by (unfold CEXPR_MAXDEPTH in *; lia).
  destruct (Z.eqb_spec (ce_type e) CEXPR_NAMES) as [-> |]; [|destruct (Z.eqb_spec (ce_type e) CEXPR_ATTR) as [-> |]]; rewrite ?Hm.
  - rewrite <- check_names by done. cbn. destruct (depth =? _), (validate_names _ _ _); cbn; naive_solver.
  - rewrite <- check_attr by done. cbn. destruct (depth =? _), (validate_attr _); cbn; naive_solver.
  - rewrite <- check_connective by done. rewrite !(Z.leb_antisym), !orb_false_r. destruct (ce_type e =? CEXPR_NOT).
    + destruct (depth <? 0), (validate_connective e); cbn; naive_solver.
    + destruct (_ || _); [|cbn; naive_solver]. destruct (depth <? 1), (validate_connective e); cbn; naive_solver.
Qed.

Lemma check_exprs vt es depth d :
  Forall (cons_expr_sound vt) es -> depth < CEXPR_MAXDEPTH ->
  validate_exprs fl vt es depth = Some d <-> cons_depth es depth = Some d /\ Forall (element_valid db vt) es.
Proof using J.
  intros Hes. revert depth. induction Hes as [|e es He Hes IH]; intros depth Hd; cbn [validate_exprs cons_depth]; [rewrite Forall_nil; tauto|]. rewrite Forall_cons, !bind_Some. split.
  - intros (d1 & H1 & H2). apply check_expr in H1 as [H1 Hv]; [|done..]. apply IH in H2 as [H2 Hvs]; [by eauto|]. by eapply cons_depth_small.
  - intros [(d1 & H1 & H2) [Hv Hvs]]. exists d1. rewrite check_expr, IH by (done || by eapply cons_depth_small). done.
Qed.

Lemma node_depth vt c :
  cons_node_sound vt c ->
  negb (is_null (con_expr c)) && match validate_exprs fl vt (con_expr c) (-1) with Some depth => depth =? 0 | None => false end = true <-> Forall (element_valid db vt) (con_expr c).
Proof using J.
  intros [Hes Hd]. destruct (is_null (con_expr c)) eqn:En; [by destruct (con_expr c)|]. cbn [negb andb]. pose proof (fun d => check_exprs vt (con_expr c) (-1) d Hes ltac:(done)) as H.
  destruct (validate_exprs fl vt (con_expr c) (-1)) as [d|]; split.
  - intros _. by apply (H d).
  - intros Hall. by injection (proj2 (H 0) (conj Hd Hall)) as ->.
  - done.
  - intros Hall. discriminate (proj2 (H 0) (conj Hd Hall)).
Qed.

Lemma check_constraints nperms cs :
  0 <= nperms <= 32 -> Forall (cons_node_sound false) cs ->
  validate_constraint_nodes fl nperms cs = true <-> (cs <> [] -> nperms <> 0) /\ Forall (constraint_valid db nperms) cs.
Proof using J.
  intros Hn Hs. unfold validate_constraint_nodes. rewrite andb_true_iff. apply both_iff; [destruct cs as [|c cs']; cbn; [naive_solver|]; rewrite negb_true_iff, Z.eqb_neq; naive_solver|].
  apply forall_iff. intros c Hc. rewrite Forall_forall in Hs. unfold validate_constraint_node, constraint_valid. replace (nperms =? UINT32_MAX) with false by (unfold UINT32_MAX; lia).
  rewrite <- andb_assoc, andb_true_iff, node_depth, andb_true_iff, negb_true_iff, Z.eqb_neq by auto. cbn [orb]. rewrite Z.shiftl_1_l. destruct (Z.eqb_spec nperms PERM_SYMTAB_SIZE); rewrite ?Z.ltb_lt; naive_solver.
Qed.

Lemma check_transitions cs :
  Forall (cons_node_sound true) cs -> validate_constraint_nodes fl UINT32_MAX cs = true <-> Forall (transition_valid db) cs.
Proof using J.
  intros Hs. unfold validate_constraint_nodes. rewrite andb_true_iff, andb_false_r. transitivity (forallb (validate_constraint_node fl UINT32_MAX) cs = true); [naive_solver|].
  apply forall_iff. intros c Hc. rewrite Forall_forall in Hs. unfold validate_constraint_node, transition_valid. change (UINT32_MAX =? UINT32_MAX) with true.
  rewrite <- andb_assoc, andb_true_iff, node_depth, andb_true_iff, Z.eqb_eq by auto. cbn [orb]. naive_solver.
Qed.
End Checks.

(** ** Permissions *)

(** The bits of the values met: [vals] are they. *)
Lemma perm_visit_chain nprim inherited (l : list (cstring * perm_datum)) (vals : list Z) visited :
  0 <= nprim <= 32 -> 0 <= inherited -> Forall (fun x => 0 < perm_value x.2 <= nprim) l -> (forall v, 0 < v -> Z.testbit visited (v - 1) = true <-> v ∈ vals) ->
  ((chain_map (perm_visit nprim inherited) l visited).1 =? 0) = true <->
  Forall (fun x => inherited < perm_value x.2) l /\ NoDup ((fun x => perm_value x.2) <$> l) /\ (forall v, v ∈ vals -> v ∉ (fun x => perm_value x.2) <$> l).
Proof.
  intros Hn Hi Hl. revert vals visited. induction Hl as [|[k d] l Hd Hl IH]; intros vals visited Hv; cbn [chain_map fst snd fmap list_fmap].
  - split; [intros _|done]. split_and!; [constructor..|]. intros v _. apply not_elem_of_nil.
  - unfold perm_visit at 1. cbn [fst snd] in *. rewrite (proj2 (value_isvalid_spec _ _)) by lia. cbn [negb].
    assert (Hinh : negb (inherited =? 0) && value_isvalid (perm_value d) inherited = true <-> perm_value d <= inherited) by (rewrite andb_true_iff, value_isvalid_spec, negb_true_iff, Z.eqb_neq; lia).
    destruct (negb (inherited =? 0) && _); [split; [done|]; intros [[Hx _]%Forall_cons _]; cbn in Hx; specialize (proj1 Hinh eq_refl); lia|].
    assert (Hgt : inherited < perm_value d) by (destruct (Z.le_gt_cases (perm_value d) inherited) as [H|]; [by apply Hinh in H|lia]). clear Hinh.
    rewrite Z.land_comm, land_one_shiftl by lia. destruct (Z.testbit visited (perm_value d - 1)) eqn:Eb.
    + split; [done|]. intros (_ & _ & H). apply Hv in Eb; [|lia]. destruct (H _ Eb). left.
    + change (ctrue 0) with false. cbn iota. rewrite (IH (perm_value d :: vals)).
      * rewrite Forall_cons, NoDup_cons. cbn [snd]. assert (Hno : perm_value d ∉ vals) by (intros H; apply Hv in H; [congruence|lia]). setoid_rewrite elem_of_cons. naive_solver.
      * intros v Hv'. rewrite Z.lor_spec, Z.shiftl_spec, elem_of_cons, orb_true_iff, Hv by lia. transitivity (v ∈ vals \/ v = perm_value d); [|tauto]. apply or_iff_compat_l.
        split; [|intros ->; by replace (perm_value d - 1 - (perm_value d - 1)) with 0 by lia]. intros H. destruct (Z.eq_dec v (perm_value d)) as [|Hne]; [done|].
        destruct (Z.lt_trichotomy v (perm_value d)) as [Hlt|[?|Hlt]]; [|lia|]; exfalso; [by rewrite Z.testbit_neg_r in H by lia|].
        rewrite (Z.bits_above_log2 1) in H by (cbn; lia). done.
Qed.

(** The permissions of a table have values of their own, above the inherited
    ones. *)
Definition perms_valid (inherited : Z) (m : gmap cstring perm_datum) : Prop :=
  map_Forall (fun _ d => inherited < perm_value d) m /\
  forall k1 k2 d1 d2, m !! k1 = Some d1 -> m !! k2 = Some d2 -> perm_value d1 = perm_value d2 -> k1 = k2.

Lemma distinct_values (m : gmap cstring perm_datum) l :
  l ≡ₚ map_to_list m ->
  NoDup ((fun x => perm_value x.2) <$> l) <-> forall k1 k2 d1 d2, m !! k1 = Some d1 -> m !! k2 = Some d2 -> perm_value d1 = perm_value d2 -> k1 = k2.
Proof.
  intros ->. split.
  - intros H k1 k2 d1 d2 H1%elem_of_map_to_list H2%elem_of_map_to_list E. apply list_elem_of_lookup_1 in H1 as [i1 H1], H2 as [i2 H2].
    assert (i1 = i2) as ->; [|congruence]. eapply NoDup_lookup; [exact H|..]; rewrite list_lookup_fmap; [by rewrite H1|by rewrite H2; cbn; f_equal].
  - intros H. apply NoDup_fmap_2_strong; [|apply NoDup_map_to_list]. intros [k1 d1] [k2 d2] H1%elem_of_map_to_list H2%elem_of_map_to_list E. cbn in E.
    pose proof (H _ _ _ _ H1 H2 E) as ->. congruence.
Qed.

Lemma check_perms t inherited : perms_sound t -> 0 <= inherited -> validate_permission_symtab t inherited = true <-> perms_valid inherited (symtab_abs t).
Proof.
  intros (Hn & h & E & Hok & Hall) Hi. unfold validate_permission_symtab, symtab_abs. rewrite E. destruct (hashtab_map_ok h (perm_visit (st_nprim t) inherited) 0 Hok) as (l & Hl & ->).
  rewrite (perm_visit_chain _ _ _ []); [|done|done| |].
  - unfold perms_valid. rewrite (distinct_values _ l Hl), map_Forall_to_list, <- Hl.
    apply both_iff; [split; intros H; (eapply Forall_impl; [exact H|]; by intros [])|]. split; [by intros [? _]|]. intros H. split; [done|]. intros v Hv. by apply not_elem_of_nil in Hv.
  - rewrite map_Forall_to_list, <- Hl in Hall. eapply Forall_impl; [exact Hall|]. by intros [].
  - intros v Hv. rewrite Z.bits_0. split; [done|]. intros H. by apply not_elem_of_nil in H.
Qed.

(** ** Valid symbols *)

Definition perm_count (t : symtab perm_datum) : Z := Z.of_nat (size (symtab_abs t)).

Lemma table_nel_ok P t : table_sound P (st_table t) -> table_nel t = Some (perm_count t).
Proof. intros (h & E & Hok & _). unfold table_nel, perm_count, symtab_abs. rewrite E. cbn. by rewrite (hashtab_nel_size h Hok). Qed.

Section ValidSymbols.
Context (db : policydb).

Definition common_valid (d : common_datum) : Prop :=
  is_common db (com_value d) /\ 0 < st_nprim (com_permissions d) /\ st_nprim (com_permissions d) = perm_count (com_permissions d) /\ perms_valid 0 (symtab_abs (com_permissions d)).

(** The permissions that a class inherits. *)
Definition inherited_perms (c : class_datum) : Z := match comdatum db c with Some com => st_nprim (com_permissions com) | None => 0 end.

Definition class_valid (d : class_datum) : Prop :=
  is_class db (cla_value d) /\ (forall com, comdatum db d = Some com -> common_valid com) /\
  st_nprim (cla_permissions d) = perm_count (cla_permissions d) + inherited_perms d /\
  perms_valid (inherited_perms d) (symtab_abs (cla_permissions d)) /\
  (cla_constraints d <> [] -> st_nprim (cla_permissions d) <> 0) /\ Forall (constraint_valid db (st_nprim (cla_permissions d))) (cla_constraints d) /\
  Forall (transition_valid db) (cla_validatetrans d) /\
  Forall (fun v => v ∈ [0; DEFAULT_SOURCE; DEFAULT_TARGET]) [default_user d; default_role d; default_type d] /\
  default_range d ∈ [0; DEFAULT_SOURCE_LOW; DEFAULT_SOURCE_HIGH; DEFAULT_SOURCE_LOW_HIGH; DEFAULT_TARGET_LOW; DEFAULT_TARGET_HIGH; DEFAULT_TARGET_LOW_HIGH; DEFAULT_GLBLUB].

Definition role_valid (d : role_datum) : Prop :=
  is_role db (role_value d) /\ all_known (is_role db) (role_dominates d) /\ all_known (is_type db) (ts_types (role_types d)) /\
  (role_bounds d <> 0 -> is_role db (role_bounds d)).

Definition type_valid (d : type_datum) : Prop :=
  is_type db (type_value d) /\ (type_primary d <> 0 -> is_type db (type_primary d)) /\ type_flavor d ∈ [TYPE_TYPE; TYPE_ALIAS; TYPE_ATTRIB] /\
  (type_bounds d <> 0 -> type_flavor d <> TYPE_ATTRIB /\ is_plain db (type_bounds d)) /\
  type_flags d ∈ [0; TYPE_FLAGS_PERMISSIVE; TYPE_FLAGS_EXPAND_ATTR_TRUE; TYPE_FLAGS_EXPAND_ATTR_FALSE; TYPE_FLAGS_EXPAND_ATTR].

Definition cat_range_valid (c : mls_semantic_cat) : Prop := is_cat db (cat_low c) /\ is_cat db (cat_high c) /\ cat_low c <= cat_high c.
Definition slevel_valid (l : mls_semantic_level) : Prop := ssens l <> 0 -> is_sens db (ssens l) /\ Forall cat_range_valid (scat l).

Definition user_valid (d : user_datum) : Prop :=
  is_user db (user_value d) /\ all_known (is_role db) (rs_roles (user_roles d)) /\
  (slevel_valid (slevel0 (user_range d)) /\ slevel_valid (slevel1 (user_range d)) /\ slevel_valid (user_dfltlevel d)) /\
  (h_mls (db_header db) = true -> range_valid db (user_exp_range d) /\ level_valid db (user_exp_dfltlevel d)) /\
  (user_bounds d <> 0 -> is_user db (user_bounds d)).

(** An alias has the categories of the level it is for. *)
Definition level_datum_valid (d : level_datum) : Prop :=
  level_valid db (lev_level d) /\
  (lev_isalias d <> 0 -> exists name actual, name_at (ix_sens (db_indexes db)) (sens (lev_level d) - 1) = Some name /\
     symtab_abs (p_levels (db_symbols db)) !! name = Some actual /\ cat (lev_level d) = cat (lev_level actual)).

Definition bool_valid (d : cond_bool_datum) : Prop := is_bool db (bool_value d) /\ bool_flags d ∈ [0; COND_BOOL_FLAGS_TUNABLE].
End ValidSymbols.

Lemma check_bounds f P b : judges f P -> validate_bounds b f = true <-> (b <> 0 -> P b).
Proof. intros [H _]. unfold validate_bounds. rewrite orb_true_iff, negb_true_iff, ctrue_false, H. destruct (decide (b = 0)); naive_solver. Qed.

Section SymbolChecks.
Context (db : policydb) (fl : flavors) (J : judged db fl).

Lemma check_common d : common_sound d -> decides (validate_common_datum fl d) (common_valid db d).
Proof using J.
  intros [_ Hp]. unfold validate_common_datum, common_valid. pose proof Hp as [Hn Ht].
  cbv zeta. rewrite (table_nel_ok _ _ Ht). cbn [mbind option_bind]. checks. rewrite (proj1 (j_commons _ _ J)), check_perms, negb_true_iff, orb_false_iff, Z.eqb_neq, Z.ltb_ge, Z.eqb_eq by done. unfold PERM_SYMTAB_SIZE. intuition lia.
Qed.

Context (Hs : symbols_sound (db_symbols db)).

Lemma check_class d : class_sound (symtab_abs (p_commons (db_symbols db))) d -> decides (validate_class_datum db fl d) (class_valid db d).
Proof using J Hs.
  intros (Hv & Hp & _ & Hc & Ht). pose proof Hp as [Hn Hpt]. unfold validate_class_datum, class_valid, inherited_perms. rewrite (table_nel_ok _ _ Hpt). cbv zeta. cbn [mbind option_bind].
  assert (Hcount : forall t, 0 <= perm_count t) by (unfold perm_count; lia). pose proof (Hcount (cla_permissions d)).
  assert (Hrest : forall inherited, 0 <= inherited -> _) by exact (fun inherited Hi => conj (check_perms _ inherited Hp Hi) (conj (check_constraints _ _ J _ _ Hn Hc) (check_transitions _ _ J _ Ht))).
  destruct (comdatum db d) as [com|] eqn:E.
  - pose proof (comdatum_sound db d com Hs E) as Hcom. pose proof (check_common com Hcom) as Hcv. destruct Hcom as [_ [Hnc Hct]]. rewrite (table_nel_ok _ _ Hct). cbn [mbind option_bind]. checks; [exact Hcv|].
    destruct (Hrest _ ltac:(apply Hnc)) as (R1 & R2 & R3). rewrite !andb_true_iff, R1, R2, R3, !among_in, negb_true_iff, orb_false_iff, !Z.ltb_ge, Z.leb_le, Z.eqb_eq, (proj1 (j_classes _ _ J)), !Forall_cons, Forall_nil.
    clear Hcv R1 R2 R3 Hrest. pose proof (Hcount (com_permissions com)). unfold common_valid, PERM_SYMTAB_SIZE in *. split.
    + intros [[[[H1 Hcv] H2] H3] H4]. rewrite wrap_small in H3 by (unfold in_range; lia). split_and!; try tauto; [by intros ? [= <-]|lia].
    + intros (H1 & Hcv & H2 & H3). specialize (Hcv com eq_refl) as Hcv'. rewrite wrap_small by (unfold in_range; lia). split_and!; try tauto; lia.
  - cbn [mbind option_bind]. checks. destruct (Hrest 0 ltac:(done)) as (R1 & R2 & R3).
    rewrite !andb_true_iff, R1, R2, R3, !among_in, negb_true_iff, orb_false_iff, !Z.ltb_ge, Z.leb_le, Z.eqb_eq, (proj1 (j_classes _ _ J)), !Forall_cons, Forall_nil.
    clear R1 R2 R3 Hrest. unfold PERM_SYMTAB_SIZE in *. split.
    + intros [[[[H1 _] H2] H3] H4]. rewrite wrap_small in H3 by (unfold in_range; lia). split_and!; try tauto; done.
    + intros (H1 & _ & H2 & H3). rewrite wrap_small by (unfold in_range; lia). split_and!; try tauto; lia.
Qed.

Lemma check_role d : role_sound d -> validate_role_datum fl d = true <-> role_valid db d.
Proof using J Hs.
  intros (_ & H1 & H2 & H3 & H4 & H5 & H6). unfold validate_role_datum, validate_type_set, role_valid. rewrite H2, H3, H5, H6.
  rewrite !andb_true_iff, (check_bounds _ _ _ (j_roles _ _ J)), (proj1 (j_roles _ _ J)), !(proj2 (j_roles _ _ J)), !(proj2 (j_types _ _ J)) by done.
  assert (He : forall P, all_known P ebitmap_init) by (intros P b Hb; cbn in Hb; set_solver). cbn. split; [tauto|]. intros H. split_and!; try done; apply H.
Qed.

Lemma check_mls_level l : level_ok l -> validate_mls_level fl l = true <-> level_valid db l.
Proof using J Hs. intros [_ Hc]. unfold validate_mls_level, level_valid. by rewrite andb_true_iff, (proj1 (j_levels _ _ J)), (proj2 (j_cats _ _ J)). Qed.

Lemma check_mls_range r : range_sound r -> validate_mls_range fl r = true <-> range_valid db r.
Proof using J Hs. intros [H0 H1]. unfold validate_mls_range, range_valid. by rewrite andb_true_iff, !check_mls_level. Qed.

Lemma check_slevel l : validate_mls_semantic_level fl l = true <-> slevel_valid db l.
Proof using J Hs.
  unfold validate_mls_semantic_level, validate_mls_semantic_cat, slevel_valid. rewrite orb_true_iff, andb_true_iff, (proj1 (j_levels _ _ J)), Z.eqb_eq.
  rewrite (forall_iff _ (cat_range_valid db)); [destruct (decide (ssens l = 0)); tauto|]. intros c _. unfold cat_range_valid. rewrite !andb_true_iff, !(proj1 (j_cats _ _ J)), negb_true_iff, Z.ltb_ge. tauto.
Qed.

Lemma check_user d : h_type (db_header db) = POLICY_KERN -> user_sound d -> validate_user_datum db fl d = true <-> user_valid db d.
Proof using J Hs.
  intros Hk (_ & H1 & H2 & H3 & H4). unfold validate_user_datum, validate_role_set, validate_mls_semantic_range, user_valid. rewrite H2, Hk. cbv zeta. rewrite andb_true_r.
  rewrite !andb_true_iff, (check_bounds _ _ _ (j_users _ _ J)), (proj1 (j_users _ _ J)), (proj2 (j_roles _ _ J)), !check_slevel, !orb_true_iff, check_mls_range, check_mls_level by done.
  change (among 0 _ = true) with (true = true). destruct (h_mls (db_header db)); cbn; intuition congruence.
Qed.

Lemma check_bool d : bool_sound d -> validate_bool_datum fl d = true <-> bool_valid db d.
Proof using J Hs. intros [_ Hb]. unfold validate_bool_datum, bool_valid. rewrite !andb_true_iff, (proj1 (j_bools _ _ J)), !among_in. assert (bool_state d ∈ [0; 1]) by (destruct Hb as [-> | ->]; set_solver). tauto. Qed.

Lemma check_level d : level_sound d -> decides (validate_level_datum db fl d) (level_datum_valid db d).
Proof using J Hs.
  intros Hl. unfold validate_level_datum, level_datum_valid. cbv zeta. eapply decides_and; [by apply decides_some, check_mls_level|]. intros [[Hv (x & Ex & Hx)] _].
  destruct (Hx eq_refl) as [name ->]. destruct (ctrue (lev_isalias d)) eqn:Ea; [|apply decides_some; apply ctrue_false in Ea; naive_solver].
  assert (lev_isalias d <> 0) by (unfold ctrue in Ea; lia). unfold name_at. rewrite Ex. cbn [mbind option_bind]. destruct Hs as (_ & _ & _ & _ & _ & _ & Hlev & _).
  rewrite (search_new _ _ _ Hlev). destruct (symtab_abs (p_levels (db_symbols db)) !! name) as [actual|] eqn:E; apply decides_some; [|naive_solver].
  assert (Hact : level_sound actual) by (destruct Hlev as [_ Hlev]; apply table_abs_sound in Hlev; by apply (Hlev _ _ E)). destruct Hl as [_ Hc], Hact as [_ Hc'].
  assert (Hcmp : ctrue (ebitmap_cmp (cat (lev_level d)) (cat (lev_level actual))) = true <-> cat (lev_level d) = cat (lev_level actual)).
  { pose proof (ebitmap_cmp_ok _ _ Hc Hc') as H1. destruct (ebitmap_cmp_bool (cat (lev_level d)) (cat (lev_level actual))) as [E1|E1]; rewrite E1 in *.
    - split; [|done]. intros _. by apply ebitmap_ok_eq, H1.
    - split; [done|]. intros H2. discriminate (proj2 H1 (f_equal _ H2)). }
  rewrite Hcmp. naive_solver.
Qed.

Context (Htypes : length (ix_types (db_indexes db)).2 = length (ix_types (db_indexes db)).1).

Lemma check_simpletype v : decides (validate_simpletype db fl v) (is_plain db v).
Proof using J Hs Htypes.
  unfold validate_simpletype, is_plain. eapply decides_and; [apply decides_some, (j_types _ _ J)|]. intros (_ & x & Ex & _). apply lookup_lt_Some in Ex. unfold plain_type.
  destruct (lookup_lt_is_Some_2 (ix_types (db_indexes db)).2 (Z.to_nat (v - 1))) as [y E]; [lia|]. rewrite E. destruct y as [[k d]|]; apply decides_some; [|naive_solver].
  rewrite negb_true_iff, Z.eqb_neq. naive_solver.
Qed.

Lemma check_type d : type_sound d -> decides (validate_type_datum db fl d) (type_valid db d).
Proof using J Hs Htypes.
  intros [_ He]. unfold validate_type_datum. rewrite He.
  assert (Hb : decides (if ctrue (type_bounds d) then validate_simpletype db fl (type_bounds d) else Some true) (type_bounds d <> 0 -> is_plain db (type_bounds d))).
  { destruct (ctrue (type_bounds d)) eqn:E; [|apply decides_some; apply ctrue_false in E; naive_solver]. eapply decides_mono; [|apply check_simpletype]. unfold ctrue in E. split; [done|]. intros H. apply H. lia. }
  assert (Hbits : validate_ebitmap ebitmap_init (f_types fl) = true) by (apply (j_types _ _ J); [done|]; intros b Hb'; cbn in Hb'; set_solver).
  eapply decides_as; [eapply decides_and; [eapply decides_and; [apply decides_some; reflexivity|]|intros _; apply decides_some; reflexivity]|].
  { intros _. instantiate (1 := type_flavor d ∈ [TYPE_TYPE; TYPE_ALIAS; TYPE_ATTRIB] /\ (type_bounds d <> 0 -> type_flavor d <> TYPE_ATTRIB /\ is_plain db (type_bounds d))).
    destruct ((type_flavor d =? TYPE_TYPE) || (type_flavor d =? TYPE_ALIAS)) eqn:E1; [|destruct (type_flavor d =? TYPE_ATTRIB) eqn:E2].
    - cbn [oand ebitmap_is_empty ebitmap_init node]. eapply decides_mono; [|exact Hb]. assert (type_flavor d ∈ [TYPE_TYPE; TYPE_ALIAS; TYPE_ATTRIB] /\ type_flavor d <> TYPE_ATTRIB); [|tauto].
      rewrite orb_true_iff, !Z.eqb_eq in E1. destruct E1 as [-> | ->]; (split; [set_solver|done]).
    - apply decides_some. apply Z.eqb_eq in E2. rewrite Hbits, E2. cbn [andb]. rewrite negb_true_iff, ctrue_false. split; [intros ->; split; [set_solver|done]|]. intros [_ H]. destruct (decide (type_bounds d = 0)); naive_solver.
    - apply decides_some. split; [done|]. rewrite orb_false_iff, !Z.eqb_neq in *. rewrite !elem_of_cons, elem_of_nil. naive_solver. }
  unfold type_valid. rewrite andb_true_iff, (proj1 (j_types _ _ J)). fold (validate_bounds (type_primary d) (f_types fl)). rewrite (check_bounds _ _ _ (j_types _ _ J)), among_in. tauto.
Qed.
End SymbolChecks.

(** ** Expressions of conditionals *)

Section Expressions.
Context (P : Z -> Prop) (fl : flavors) (J : judges (f_bools fl) P).

(** A postfix form over booleans that are there; operators name none. *)
Definition cond_expr_valid (es : list cond_expr) : Prop :=
  exists e, rpn e es /\ depth e <= COND_EXPR_MAXDEPTH /\ Forall P (bvars e) /\ Forall (fun x => expr_type x <> COND_BOOL -> boolean x = 0) es.

(** The expressions on the stack with their postfix forms, the first one at
    the bottom. *)
Definition stacked (stk : list (bexp * list cond_expr)) : Prop :=
  forall i e l, stk !! i = Some (e, l) -> rpn e l /\ Z.of_nat i + depth e <= COND_EXPR_MAXDEPTH /\ Forall P (bvars e).

Lemma stacked_snoc stk e l : stacked (stk ++ [(e, l)]) <-> stacked stk /\ rpn e l /\ zlength stk + depth e <= COND_EXPR_MAXDEPTH /\ Forall P (bvars e).
Proof using.
  unfold stacked, zlength. split.
  - intros H. split; [intros i e' l' E; apply (H i); by apply lookup_app_l_Some|]. apply (H (length stk)). by rewrite lookup_app_r, Nat.sub_diag by lia.
  - intros [H Hl] i e' l' E. apply lookup_app_Some in E as [E|[Hi E]]; [by apply (H i)|]. apply list_lookup_singleton_Some in E as [E [= <- <-]]. by replace i with (length stk) by lia.
Qed.

Lemma operator_type t : t ∈ [COND_OR; COND_AND; COND_XOR; COND_EQ; COND_NEQ] <-> exists op, bop_type op = t.
Proof using.
  rewrite !elem_of_cons, elem_of_nil. split; [|intros [[] <-]; tauto]. by intros [-> |[-> |[-> |[-> |[-> |[]]]]]]; [exists BOr|exists BAnd|exists BXor|exists BEq|exists BNeq].
Qed.

Lemma cond_depth_stack e stk d :
  stacked stk -> cond_depth fl e (zlength stk - 1) = Some d ->
  exists stk', stacked stk' /\ d = zlength stk' - 1 /\ concat stk'.*2 = concat stk.*2 ++ [e] /\ (expr_type e <> COND_BOOL -> boolean e = 0).
Proof using J.
  intros Hstk. unfold cond_depth. destruct e as [t b]. cbn [expr_type boolean]. destruct (Z.eqb_spec t COND_BOOL) as [-> |Hb]; [|destruct (Z.eqb_spec t COND_NOT) as [-> |Hn]].
  - destruct (validate_value b (f_bools fl) && _) eqn:E; [|done]. apply andb_prop in E as [Hv Hd]. intros [= <-]. exists (stk ++ [(BVar b, [mk_cond_expr COND_BOOL b])]).
    rewrite fmap_app, concat_app. split_and!; [|unfold zlength; rewrite length_app; cbn; lia|done|done]. apply stacked_snoc. apply J in Hv. rewrite negb_true_iff, Z.leb_gt in Hd. cbn.
    split_and!; [done|constructor|unfold COND_EXPR_MAXDEPTH in *; lia|by constructor].
  - destruct (negb _ && _) eqn:E; [|done]. apply andb_prop in E as [Hd Hz%Z.eqb_eq]. intros [= <-]. destruct stk as [|[e l] stk] using rev_ind; [done|]. clear IHstk.
    apply stacked_snoc in Hstk as (Hstk & Hr & Hde & Hv). exists (stk ++ [(BNot e, l ++ [mk_cond_expr COND_NOT b])]). rewrite !fmap_app, !concat_app. cbn. rewrite !app_nil_r, app_assoc.
    split_and!; [|unfold zlength; rewrite !length_app; cbn; lia|done|done]. apply stacked_snoc. split_and!; [done|by constructor|done|done].
  - destruct (among t _) eqn:Eop; [|done]. apply among_in, operator_type in Eop as [op <-]. destruct (negb _ && _) eqn:E; [|done]. apply andb_prop in E as [Hd Hz%Z.eqb_eq]. rewrite negb_true_iff, Z.ltb_ge in Hd. intros [= <-].
    destruct stk as [|[e2 l2] stk] using rev_ind; [done|]. clear IHstk. unfold zlength in Hd. rewrite length_app in Hd. destruct stk as [|[e1 l1] stk] using rev_ind; [cbn in Hd; lia|]. clear IHstk Hd.
    apply stacked_snoc in Hstk as (Hstk & Hr2 & Hd2 & Hv2). apply stacked_snoc in Hstk as (Hstk & Hr1 & Hd1 & Hv1). unfold zlength in Hd2. rewrite length_app in Hd2. cbn [length] in Hd2.
    exists (stk ++ [(BBin op e1 e2, l1 ++ l2 ++ [mk_cond_expr (bop_type op) b])]). rewrite !fmap_app, !concat_app. cbn. rewrite !app_nil_r, !app_assoc.
    split_and!; [|unfold zlength; rewrite !length_app; cbn; lia|done|done]. apply stacked_snoc. cbn. split_and!; [done|rewrite <- app_assoc; by constructor|unfold zlength in *; lia|by apply Forall_app].
Qed.

Lemma cond_depths_stack es stk d :
  stacked stk -> cond_depths fl es (zlength stk - 1) = Some d ->
  exists stk', stacked stk' /\ d = zlength stk' - 1 /\ concat stk'.*2 = concat stk.*2 ++ es /\ Forall (fun x => expr_type x <> COND_BOOL -> boolean x = 0) es.
Proof using J.
  revert stk. induction es as [|e es IH]; intros stk Hstk; cbn [cond_depths]; [intros [= <-]; exists stk; by rewrite app_nil_r|]. rewrite bind_Some. intros (d1 & H1 & H2).
  destruct (cond_depth_stack _ _ _ Hstk H1) as (stk1 & Hs1 & -> & E1 & Hb). destruct (IH stk1 Hs1 H2) as (stk2 & Hs2 & -> & E2 & Hbs). exists stk2. split_and!; [done..| |by constructor]. by rewrite E2, E1, <- app_assoc.
Qed.

Lemma rpn_depths e l :
  rpn e l -> Forall P (bvars e) -> Forall (fun x => expr_type x <> COND_BOOL -> boolean x = 0) l -> forall d rest, -1 <= d -> d + depth e < COND_EXPR_MAXDEPTH ->
  cond_depths fl (l ++ rest) d = cond_depths fl rest (d + 1).
Proof using J.
  induction 1 as [b|e l x H IH|op e1 e2 l1 l2 x H1 IH1 H2 IH2]; cbn [bvars depth]; intros Hv Hl d rest Hd Hm.
  - cbn. unfold cond_depth. cbn. apply Forall_cons in Hv as [Hv _]. rewrite (proj2 (proj1 J b) Hv). destruct (Z.leb_spec (COND_EXPR_MAXDEPTH - 1) d); [lia|]. done.
  - apply Forall_app in Hl as [Hl [Hx _]%Forall_cons]. rewrite <- app_assoc, IH by done. cbn. unfold cond_depth. cbn. cbn in Hx. rewrite (Hx ltac:(done)). destruct (Z.ltb_spec (d + 1) 0); [lia|]. done.
  - apply Forall_app in Hv as [Hv1 Hv2]. apply Forall_app in Hl as [Hl1 [Hl2 [Hx _]%Forall_cons]%Forall_app]. rewrite <- !app_assoc, IH1 by (done || lia). rewrite IH2 by (done || lia). pose proof (depth_pos e1). pose proof (depth_pos e2).
    assert (x = 0) as -> by (apply Hx; by destruct op). clear Hx. cbn. unfold cond_depth. cbn. replace (bop_type op =? COND_BOOL) with false by (by destruct op). replace (bop_type op =? COND_NOT) with false by (by destruct op).
    destruct (Z.ltb_spec (d + 1 + 1) 1); [lia|]. replace (d + 1 + 1 - 1) with (d + 1) by lia. by destruct op.
Qed.

Lemma check_cond_expr es : validate_cond_expr fl es = true <-> cond_expr_valid es.
Proof using J.
  unfold validate_cond_expr, cond_expr_valid. split.
  - intros [Hn Hm]%andb_prop. destruct (cond_depths fl es (-1)) as [d|] eqn:E; [|done]. apply Z.eqb_eq in Hm as ->.
    destruct (cond_depths_stack es [] 0) as (stk & Hs & Hlen & Hc & Hb); [by intros ? ? ? ?|done|]. unfold zlength in Hlen. destruct stk as [|[e l] [|]]; cbn in Hlen; [lia| |lia].
    cbn in Hc. rewrite app_nil_r in Hc. subst l. destruct (Hs 0%nat e es eq_refl) as (Hr & Hd & Hv). exists e. split_and!; [done|lia|done|done].
  - intros (e & Hr & Hd & Hv & Hb). pose proof (rpn_depths e es Hr Hv Hb (-1) [] ltac:(lia) ltac:(lia)) as H. rewrite app_nil_r in H. rewrite H. cbn. rewrite andb_true_r.
    destruct es; [|done]. by apply rpn_nonempty in Hr.
Qed.
End Expressions.

(** ** Rules *)

Section ValidRules.
Context (db : policydb).

(** Some permission of the class is in the vector. *)
Definition some_permission (tclass av : Z) : Prop :=
  exists name cla p, class_val_to_struct (db_class_indexes db) !! Z.to_nat (tclass - 1) = Some (Some (name, cla)) /\
    0 <= p < st_nprim (cla_permissions cla) /\ Z.testbit av p = true.

(** Rules in conditionals have no extended permissions. *)
Definition rule_valid (conditional : bool) (k : avtab_key) (d : avtab_datum) : Prop :=
  let kind := Z.land 4095 (specified k) in
  (if ctrue (Z.land (specified k) AVTAB_TYPE) then is_plain db (source_type k) /\ is_plain db (target_type k)
   else is_type db (source_type k) /\ is_type db (target_type k)) /\
  is_class db (target_class k) /\
  (kind ∈ [AVTAB_ALLOWED; AVTAB_AUDITALLOW; AVTAB_AUDITDENY; AVTAB_TRANSITION; AVTAB_MEMBER; AVTAB_CHANGE] \/
   conditional = false /\ kind ∈ [AVTAB_XPERMS_ALLOWED; AVTAB_XPERMS_AUDITALLOW; AVTAB_XPERMS_DONTAUDIT]) /\
  (Z.land (specified k) AVTAB_AV <> 0 -> some_permission (target_class k) (if kind =? AVTAB_AUDITDENY then lnot_w 32 (data d) else data d)) /\
  (Z.land (specified k) AVTAB_TYPE <> 0 -> is_plain db (data d)) /\
  (Z.land (specified k) AVTAB_XPERMS <> 0 -> conditional = false ->
     exists x, xperms d = Some x /\ x_specified x ∈ [AVTAB_XPERMS_IOCTLDRIVER; AVTAB_XPERMS_IOCTLFUNCTION; AVTAB_XPERMS_NLMSG]).
End ValidRules.

Lemma chain_checked (f : avtab_key -> avtab_datum -> option bool) (P : avtab_key -> avtab_datum -> Prop) (l : list avtab_node) :
  Forall (fun n => decides (f (key n) (datum n)) (P (key n) (datum n))) l ->
  exists r, av_chain_map (entry_checked f) l false = r /\ r.2 = false /\ (r.1 = 0 <-> Forall (fun n => P (key n) (datum n)) l) /\ (ctrue r.1 = false <-> r.1 = 0).
Proof.
  induction 1 as [|n l (b & E & Hb) Hl IH]; cbn [av_chain_map]; [by exists (0, false)|].
  unfold entry_checked at 1. rewrite E. destruct b.
  - change (ctrue 0) with false. cbn iota. destruct IH as (r & -> & H1 & H2 & H3). exists r. split_and!; [done..| |done]. rewrite H2, Forall_cons. naive_solver.
  - change (ctrue (-1)) with true. cbn iota. exists (-1, false). split_and!; [done..| |done]. rewrite Forall_cons. naive_solver.
Qed.

Lemma table_checked (f : avtab_key -> avtab_datum -> option bool) (P : avtab_key -> avtab_datum -> Prop) (tbl : list (list avtab_node)) :
  Forall (fun n => decides (f (key n) (datum n)) (P (key n) (datum n))) (concat tbl) ->
  decides (checked (av_table_map (entry_checked f) tbl false)) (Forall (fun n => P (key n) (datum n)) (concat tbl)).
Proof.
  induction tbl as [|c tbl IH]; cbn [av_table_map concat]; [by exists true|]. intros [Hc Ht]%Forall_app.
  destruct (chain_checked f P c Hc) as ([r1 r2] & E & H1 & H2 & H3). rewrite E. cbn [fst snd] in *. subst r2. destruct (ctrue r1) eqn:Er.
  - exists false. split; [unfold checked; cbn; f_equal; unfold ctrue in Er; lia|]. rewrite Forall_app, <- H2. split; [done|]. intros [Hz _]. by apply H3 in Hz.
  - eapply decides_mono; [|by apply IH]. rewrite Forall_app, <- H2. pose proof (proj1 H3 eq_refl). tauto.
Qed.

Lemma mask_nonzero av n : 0 <= n -> ctrue (Z.land av (Z.ones n)) = true <-> exists p, 0 <= p < n /\ Z.testbit av p = true.
Proof.
  intros Hn. assert (Ho : 0 <= Z.ones n) by (rewrite Z.ones_equiv; pose proof (Z.pow_pos_nonneg 2 n); lia). assert (Hl : 0 <= Z.land av (Z.ones n)) by (apply Z.land_nonneg; lia). split.
  - intros H. assert (Hpos : 0 < Z.land av (Z.ones n)) by (unfold ctrue in H; lia). pose proof (Z.bit_log2 _ Hpos) as Hb. rewrite Z.land_spec in Hb. apply andb_prop in Hb as [Hb1 Hb2].
    exists (Z.log2 (Z.land av (Z.ones n))). split; [|done]. apply Z.ones_spec_iff in Hb2; [|done]. exact Hb2.
  - intros (p & Hp & Hb). apply (land_bit _ _ p); [done|]. by apply Z.ones_spec_iff.
Qed.

Lemma elem_of_concat {A} (x : A) ls : x ∈ concat ls <-> exists l, x ∈ l /\ l ∈ ls.
Proof. rewrite list_elem_of_In, in_concat. setoid_rewrite list_elem_of_In. naive_solver. Qed.

Lemma from_node_in a l : a ∈ l -> exists l', from_node a l = a :: l' /\ a :: l' ⊆ l.
Proof.
  induction l as [|x l IH]; intros Ha; [by apply not_elem_of_nil in Ha|]. cbn [from_node]. destruct (Nat.eqb_spec x a) as [-> |Hne]; [by exists l|].
  apply elem_of_cons in Ha as [-> |Ha]; [done|]. destruct (IH Ha) as (l' & E & Hsub). exists l'. split; [done|]. set_solver.
Qed.

(** The rules from an address on are rules of the table. *)
Lemma chain_from_ok (t : cond_avtab) a :
  cond_tab_ok t -> (a < length (ct_heap t))%nat ->
  exists ns, chain_from t a = Some ns /\ (forall c, ct_heap t !! a = Some c -> c.1 ∈ ns) /\ Forall (fun n => n ∈ (ct_heap t).*1) ns.
Proof.
  intros (_ & _ & Hperm) Ha. assert (Hin : a ∈ concat (ct_addrs t)) by (rewrite Hperm; apply elem_of_seq; lia).
  assert (Hin' : a ∈ concat (filter (fun c => a ∈ c) (ct_addrs t))).
  { apply elem_of_concat in Hin as (c & Hac & Hc). apply elem_of_concat. exists c. split; [done|]. by apply list_elem_of_filter. }
  assert (Hsub : concat (filter (fun c => a ∈ c) (ct_addrs t)) ⊆ concat (ct_addrs t)).
  { intros x. rewrite !elem_of_concat. intros (c & Hx & [_ Hc]%list_elem_of_filter). eauto. }
  destruct (from_node_in _ _ Hin') as (l' & E & Hl). unfold chain_from. rewrite E.
  assert (Hheap' : forall x, x ∈ a :: l' -> is_Some (ct_heap t !! x)).
  { intros x Hx. apply lookup_lt_is_Some. apply Hl, Hsub in Hx. rewrite Hperm in Hx. apply elem_of_seq in Hx. lia. }
  assert (Hm : forall l, (forall x, x ∈ l -> is_Some (ct_heap t !! x)) -> exists ns, mapM (fun x => c ← ct_heap t !! x; Some c.1) l = Some ns /\ Forall2 (fun x n => exists c, ct_heap t !! x = Some c /\ c.1 = n) l ns).
  { induction l as [|x l IH]; intros Hx; [by exists []|]. destruct (Hx x ltac:(left)) as [c Ec]. destruct IH as (ns & En & Hn); [intros y Hy; apply Hx; by right|].
    exists (c.1 :: ns). split; [cbn; rewrite Ec; cbn; by rewrite En|]. constructor; [by eauto|done]. }
  destruct (Hm _ Hheap') as (ns & En & Hn). exists ns. split_and!; [done| |].
  - intros c Ec. apply Forall2_cons_inv_l in Hn as (n & ns' & (c' & Ec' & <-) & _ & ->). rewrite Ec in Ec'. injection Ec' as <-. left.
  - apply Forall_forall. intros n Hn'. apply list_elem_of_lookup_1 in Hn' as [i Hi]. destruct (Forall2_lookup_r _ _ _ _ _ Hn Hi) as (x & _ & c & Ec & <-). apply list_elem_of_fmap. exists c. split; [done|]. by eapply list_elem_of_lookup_2.
Qed.

(** The addresses in the lists are those of the table. *)
Lemma nodes_cover cs base a :
  (base <= a < base + length (all_rules cs))%nat <-> exists c, c ∈ nodes_from base cs /\ (a ∈ true_list c \/ a ∈ false_list c).
Proof.
  revert base. induction cs as [|c cs IH]; intros base; cbn [nodes_from all_rules map concat length]; [split; [lia|]; by intros (? & ?%not_elem_of_nil & _)|].
  rewrite length_app. change (concat (map cc_rules cs)) with (all_rules cs). setoid_rewrite elem_of_cons. specialize (IH (base + length (cc_rules c))%nat).
  assert (Hnode : a ∈ true_list (node_at base c) \/ a ∈ false_list (node_at base c) <-> (base <= a < base + length (cc_rules c))%nat).
  { unfold cc_rules. rewrite length_app. cbn [node_at true_list false_list]. rewrite !elem_of_seq. lia. }
  split.
  - intros Ha. destruct (decide (a < base + length (cc_rules c))%nat) as [Hlt|]; [exists (node_at base c); split; [by left|]; apply Hnode; lia|]. destruct (proj1 IH) as (c' & ? & ?); [lia|]. eauto.
  - intros (c' & [-> |Hc'] & Hin); [apply Hnode in Hin; lia|]. destruct (proj2 IH) as []; [by eauto|lia].
Qed.

(** What a node has that was read. *)
Lemma node_plain cs base c : c ∈ nodes_from base cs -> nbools c = 0 /\ avtrue_list c = 0 /\ avfalse_list c = 0 /\ cn_flags c = 0.
Proof. revert base. induction cs as [|c0 cs IH]; intros base; cbn [nodes_from]; [by intros ?%not_elem_of_nil|]. intros [-> |H]%elem_of_cons; [done|by eapply IH]. Qed.

Section RuleChecks.
Context (db : policydb) (fl : flavors) (J : judged db fl) (Hs : symbols_sound (db_symbols db)).
Context (Htypes : length (ix_types (db_indexes db)).2 = length (ix_types (db_indexes db)).1).
Context (Hclasses : classes_indexed (db_symbols db) (db_class_indexes db)).
Context (Hkern : h_type (db_header db) = POLICY_KERN) (Hsel : h_target (db_header db) = SEPOL_TARGET_SELINUX).

Lemma class_there v : is_class db v -> exists name cla, class_val_to_struct (db_class_indexes db) !! Z.to_nat (v - 1) = Some (Some (name, cla)) /\ 0 <= st_nprim (cla_permissions cla) <= 32.
Proof using Hs Htypes Hclasses.
  intros (Hv & x & Ex & Hx). destruct (Hx eq_refl) as [name ->]. destruct Hclasses as [_ (Hl1 & Hl2 & Hinv & Hname)]. cbn [fst snd] in *.
  assert (Hr : 0 < v <= st_nprim (p_classes (db_symbols db))) by (apply lookup_lt_Some in Ex; lia). rewrite (Hname v Hr) in Ex. destruct (class_val_to_struct (db_class_indexes db) !! Z.to_nat (v - 1)) as [[[k d]|]|] eqn:E; try done.
  exists k, d. split; [done|]. destruct (proj1 (Hinv v k d Hr) E) as [Hk _]. destruct Hs as (_ & [_ Hc] & _). apply table_abs_sound in Hc. by destruct (Hc k d Hk) as (_ & [? _] & _).
Qed.

Lemma check_access_vector tclass av : is_class db tclass -> decides (validate_access_vector db tclass av) (some_permission db tclass av).
Proof using Hs Htypes Hclasses.
  intros Hc. destruct (class_there tclass Hc) as (name & cla & E & Hn). unfold validate_access_vector, some_permission. rewrite E.
  assert (Hm : PERMISSION_MASK (st_nprim (cla_permissions cla)) = Some (Z.ones (st_nprim (cla_permissions cla)))).
  { unfold PERMISSION_MASK, PERM_SYMTAB_SIZE. destruct (Z.eqb_spec (st_nprim (cla_permissions cla)) 32) as [-> |]; [done|]. destruct (Z.ltb_spec 32 (st_nprim (cla_permissions cla))); [lia|]. unfold Z.ones. by rewrite Z.sub_1_r. }
  rewrite Hm. cbn [mbind option_bind]. apply decides_some. rewrite mask_nonzero by lia. naive_solver.
Qed.

(** The two kinds of [validate_avtab_key]. *)
Lemma check_key k conditional :
  decides (validate_avtab_key db fl k conditional)
    ((if ctrue (Z.land (specified k) AVTAB_TYPE) then is_plain db (source_type k) /\ is_plain db (target_type k) else is_type db (source_type k) /\ is_type db (target_type k)) /\
     is_class db (target_class k) /\
     (Z.land 4095 (specified k) ∈ [AVTAB_ALLOWED; AVTAB_AUDITALLOW; AVTAB_AUDITDENY; AVTAB_TRANSITION; AVTAB_MEMBER; AVTAB_CHANGE] \/
      conditional = false /\ Z.land 4095 (specified k) ∈ [AVTAB_XPERMS_ALLOWED; AVTAB_XPERMS_AUDITALLOW; AVTAB_XPERMS_DONTAUDIT])).
Proof using J Hs Htypes Hkern Hsel.
  unfold validate_avtab_key. rewrite Hkern, Hsel. cbn [Z.eqb andb]. apply decides_and.
  - destruct (ctrue _); [apply decides_and; [|intros _]; by eapply check_simpletype|]. apply decides_some. rewrite andb_true_iff, !(proj1 (j_types _ _ J)). done.
  - intros _. apply decides_some. rewrite andb_true_iff, (proj1 (j_classes _ _ J)), !among_decides. apply both_iff; [done|]. cbv zeta. change (SEPOL_TARGET_SELINUX =? SEPOL_TARGET_SELINUX) with true.
    repeat case_bool_decide; destruct conditional; cbn; intuition congruence.
Qed.

Lemma check_rule_datum k d :
  is_class db (target_class k) ->
  decides (validate_datum_of db fl k d)
    ((Z.land (specified k) AVTAB_AV <> 0 -> some_permission db (target_class k) (if Z.land 4095 (specified k) =? AVTAB_AUDITDENY then lnot_w 32 (data d) else data d)) /\
     (Z.land (specified k) AVTAB_TYPE <> 0 -> is_plain db (data d))).
Proof using J Hs Htypes Hclasses.
  intros Hc. unfold validate_datum_of. apply decides_and; [|intros _]; (destruct (ctrue _) eqn:E; [|apply decides_some; apply ctrue_false in E; naive_solver]).
  - eapply decides_mono; [|by apply check_access_vector]. unfold ctrue in E. split; [done|]. intros H. apply H. lia.
  - eapply decides_mono; [|by eapply check_simpletype]. unfold ctrue in E. split; [done|]. intros H. apply H. lia.
Qed.

Lemma check_te_rule k d : item_ok k d -> decides (validate_avtab_key_and_datum db fl k d) (rule_valid db false k d).
Proof using J Hs Htypes Hclasses Hkern Hsel.
  intros (_ & _ & _ & _ & _ & _ & Hx). unfold validate_avtab_key_and_datum. eapply decides_as; [apply decides_and; [apply decides_and; [apply check_key|]|]|].
  - intros (_ & Hc & _). by apply check_rule_datum.
  - intros _. instantiate (1 := Z.land (specified k) AVTAB_XPERMS <> 0 -> false = false -> exists x, xperms d = Some x /\ x_specified x ∈ [AVTAB_XPERMS_IOCTLDRIVER; AVTAB_XPERMS_IOCTLFUNCTION; AVTAB_XPERMS_NLMSG]).
    destruct (ctrue _) eqn:E; [|apply decides_some; apply ctrue_false in E; naive_solver]. destruct Hx as (_ & x & -> & _). cbn [mbind option_bind]. apply decides_some. unfold validate_xperms. rewrite among_in. unfold ctrue in E.
    split; [by eauto|]. intros H. destruct H as (x' & [= <-] & H); [lia|done|done].
  - unfold rule_valid. cbv zeta. tauto.
Qed.

Lemma check_cond_rule k d :
  decides (validate_avtab_key db fl k true &&& validate_datum_of db fl k d) (rule_valid db true k d).
Proof using J Hs Htypes Hclasses Hkern Hsel.
  eapply decides_as; [apply decides_and; [apply check_key|]|]; [intros (_ & Hc & _); by apply check_rule_datum|]. unfold rule_valid. cbv zeta.
  split; [|tauto]. intros [H1 H2]. split_and!; try tauto. done.
Qed.

Lemma check_te : avtab_ok (db_te_avtab db) -> Forall node_item_ok (nodes_of (db_te_avtab db)) ->
  decides (validate_avtab db fl (db_te_avtab db)) (Forall (fun n => rule_valid db false (key n) (datum n)) (nodes_of (db_te_avtab db))).
Proof using J Hs Htypes Hclasses Hkern Hsel.
  unfold avtab_ok, validate_avtab, avtab_map, nodes_of. destruct (av_htable (db_te_avtab db)) as [tbl|]; [|done]. cbn [default]. intros (Hlen & _) Hall. rewrite take_ge by lia.
  apply (table_checked _ (rule_valid db false)). eapply Forall_impl; [exact Hall|]. intros n. apply check_te_rule.
Qed.

(** *** Conditionals *)

Context (te : avtab) (Hconds : conds_sound (st_nprim (p_bools (db_symbols db))) te (db_cond_list db, (db_cond db, db_compat db))) (Hheap : zlength (ct_heap (db_cond db)) < 2 ^ 32).



Lemma check_av_list l :
  cond_tab_ok (db_cond db) -> Forall (fun a => (a < length (ct_heap (db_cond db)))%nat) l ->
  decides (validate_cond_av_list db fl l)
    (Forall (fun a => exists ns, chain_from (db_cond db) a = Some ns /\ Forall (fun n => rule_valid db true (key n) (datum n)) ns) l).
Proof using J Hs Htypes Hclasses Hkern Hsel.
  intros Htab Hl. unfold validate_cond_av_list. apply decides_all. intros a Ha. rewrite Forall_forall in Hl. destruct (chain_from_ok _ a Htab (Hl a Ha)) as (ns & E & _). rewrite E. cbn [mbind option_bind].
  eapply decides_mono; [|apply (decides_all _ (fun n => rule_valid db true (key n) (datum n))); intros n _; apply check_cond_rule]. naive_solver.
Qed.

Definition cond_node_valid (c : cond_node) : Prop := cond_expr_valid (is_bool db) (expr c) /\ cur_state c ∈ [0; 1].

Lemma check_conds :
  decides (validate_cond_list db fl (db_cond_list db))
    (Forall cond_node_valid (db_cond_list db) /\ Forall (fun c => rule_valid db true (key c.1) (datum c.1)) (ct_heap (db_cond db))).
Proof using J Hs Htypes Hclasses Hkern Hsel Hconds Hheap.
  destruct Hconds as (cs & E1 & E2 & _ & Htab). cbn [fst snd] in *. assert (Hlen : length (ct_heap (db_cond db)) = length (all_rules cs)) by (rewrite E2; apply length_map).
  destruct Htab as [Htab _]; [unfold zlength in *; lia|].
  assert (Hin : forall c a, c ∈ db_cond_list db -> a ∈ true_list c \/ a ∈ false_list c -> (a < length (ct_heap (db_cond db)))%nat).
  { intros c a Hc Ha. rewrite Hlen. destruct (proj2 (nodes_cover cs 0 a)) as [_ H]; [|exact H]. exists c. by rewrite <- E1. }
  set (valid_from := fun a => exists ns, chain_from (db_cond db) a = Some ns /\ Forall (fun n => rule_valid db true (key n) (datum n)) ns).
  eapply decides_as; [apply (decides_all _ (fun c => cond_node_valid c /\ Forall valid_from (true_list c) /\ Forall valid_from (false_list c)))|].
  - intros c Hc. destruct (node_plain cs 0 c) as (N1 & N2 & N3 & N4); [by rewrite <- E1|]. unfold validate_cond. rewrite N1, N2, N3, N4. unfold validate_avrules, validate_bool_id_array. cbn [Z.eqb oall seqZ].
    change (seqZ 0 0) with (@nil Z). cbn [oall]. checks; [apply check_av_list; [done|]; apply Forall_forall; intros a Ha; apply (Hin c a Hc); by left|apply check_av_list; [done|]; apply Forall_forall; intros a Ha; apply (Hin c a Hc); by right|].
    unfold cond_node_valid. rewrite (check_cond_expr _ _ (j_bools _ _ J)), andb_true_iff, among_in. change (among 0 _ = true) with (true = true). change (negb _ = true) with (true = true). fold valid_from. tauto.
  - rewrite !Forall_and. apply both_iff; [done|]. rewrite !Forall_forall. split.
    + intros [Ht Hf] [n ?] Hn. apply list_elem_of_lookup_1 in Hn as [a Ea]. destruct (proj1 (nodes_cover cs 0 a)) as (c & Hc & Hac); [apply lookup_lt_Some in Ea; lia|]. rewrite <- E1 in Hc.
      destruct (chain_from_ok _ a Htab (Hin c a Hc Hac)) as (ns & Ens & Hhead & _). assert (Hv : valid_from a) by (destruct Hac as [Ha|Ha]; [specialize (Ht c Hc)|specialize (Hf c Hc)]; rewrite Forall_forall in *; auto).
      destruct Hv as (ns' & Ens' & Hall). rewrite Ens in Ens'. injection Ens' as <-. rewrite Forall_forall in Hall. apply Hall. by apply (Hhead _ Ea).
    + intros Hall. assert (Hv : forall c a, c ∈ db_cond_list db -> a ∈ true_list c \/ a ∈ false_list c -> valid_from a).
      { intros c a Hc Ha. destruct (chain_from_ok _ a Htab (Hin c a Hc Ha)) as (ns & Ens & _ & Hns). exists ns. split; [done|]. eapply Forall_impl; [exact Hns|]. intros n Hn. cbn in Hn. apply list_elem_of_fmap in Hn as (x & -> & Hx). by apply Hall. }
      split; intros c Hc; apply Forall_forall; eauto.
Qed.
End RuleChecks.

(** ** Labels, transitions and maps *)

Section ValidRest.
Context (db : policydb).

Definition role_trans_valid (t : role_trans) : Prop :=
  is_role db (rt_role t) /\ is_type db (rt_type t) /\ is_class db (rt_tclass t) /\ is_role db (rt_new_role t).

Definition role_allow_valid (a : role_allow) : Prop := is_role db (ra_role a) /\ is_role db (ra_new_role a).

Definition filename_valid (k : filename_trans_key) (c : ft_chain) : Prop :=
  (is_type db (ft_ttype k) /\ is_class db (ft_tclass k)) /\ Forall (fun d => all_known (is_type db) (ft_stypes d) /\ is_plain db (ft_otype d)) (chain_list c).

(** The labelled objects of an SELinux policy. *)
Definition object_valid (i : Z) (c : ocontext) : Prop :=
  context_valid db (oc_context0 c) /\ (two_contexts i = true -> context_valid db (oc_context1 c)) /\
  (i = OCON_ISID -> oc_sid0 c <> SEPOL_SECSID_NULL /\ oc_sid0 c < SELINUX_SID_SZ) /\
  (i = OCON_FSUSE -> oc_v c ∈ [SECURITY_FS_USE_XATTR; SECURITY_FS_USE_TRANS; SECURITY_FS_USE_TASK]) /\
  match oc_u c with
  | U_PORT _ low high | U_IBPKEY _ low high => low <= high
  | U_IBENDPORT _ port => port <> 0
  | _ => True
  end.

Definition genfs_entry_valid (c : ocontext) : Prop := context_valid db (oc_context0 c) /\ (oc_v c <> 0 -> is_class db (oc_v c)).

Definition range_trans_valid (k : range_trans) (r : mls_range) : Prop :=
  (is_type db (rg_source k) /\ is_type db (rg_target k) /\ is_class db (rg_class k)) /\ range_valid db r.
End ValidRest.

Definition scope_valid (nprim : Z) (d : scope_datum) : Prop :=
  sc_scope d ∈ [SCOPE_REQ; SCOPE_DECL] /\ Forall (fun i => 0 <> i /\ i <= nprim) (sc_decl_ids d).

Definition scopes_valid (scopes : list (table scope_datum)) (global : list Z) : Prop :=
  Forall (fun t => match t with Some h => map_Forall (fun _ => scope_valid (u32 (fold_left Z.add global 0))) (hashtab_abs h) | None => True end) scopes.

(** The tables that [policydb_init] makes. *)
Definition scope_tables (scopes : list (table scope_datum)) : Prop := Forall (fun t => exists h, t = Some h /\ hashtab_ok h) scopes.

Lemma check_scopes scopes global :
  scope_tables scopes -> decides (validate_scopes scopes global) (scopes_valid scopes global).
Proof.
  unfold scope_tables. intros H. unfold validate_scopes, scopes_valid. cbv zeta. apply decides_all. intros t Ht. rewrite Forall_forall in H. destruct (H t Ht) as (h & -> & Hok).
  apply decides_table; [done|]. intros k d _. apply decides_some. unfold validate_scope, scope_valid. rewrite andb_true_iff, among_in. apply both_iff; [done|]. apply forall_iff. intros i _. apply value_isvalid_spec.
Qed.

Section RestChecks.
Context (db : policydb) (fl : flavors) (J : judged db fl) (Hs : symbols_sound (db_symbols db)).

Lemma check_role_transes l : validate_role_transes fl l = true <-> Forall (role_trans_valid db) l.
Proof using J.
  apply forall_iff. intros t _. unfold role_trans_valid. rewrite !andb_true_iff, !(proj1 (j_roles _ _ J)), (proj1 (j_types _ _ J)), (proj1 (j_classes _ _ J)). clear. tauto.
Qed.

Lemma check_role_allows l : validate_role_allows fl l = true <-> Forall (role_allow_valid db) l.
Proof using J. apply forall_iff. intros a _. unfold role_allow_valid. by rewrite andb_true_iff, !(proj1 (j_roles _ _ J)). Qed.

Lemma check_context c : context_ranges c -> validate_context db fl c = true <-> context_valid db c.
Proof using J Hs.
  intros (_ & _ & _ & H0 & H1). unfold validate_context, context_valid. rewrite !andb_true_iff, (proj1 (j_users _ _ J)), (proj1 (j_roles _ _ J)), (proj1 (j_types _ _ J)), orb_true_iff, (check_mls_range db fl J Hs) by done.
  destruct (h_mls (db_header db)); cbn; clear; intuition congruence.
Qed.

Lemma check_range_trans ntypes nclasses k r : range_ok ntypes nclasses k r -> validate_range_transition fl k r = true <-> range_trans_valid db k r.
Proof using J Hs.
  intros (_ & _ & _ & H0 & H1). unfold validate_range_transition, range_trans_valid. rewrite !andb_true_iff, !(proj1 (j_types _ _ J)), (proj1 (j_classes _ _ J)), (check_mls_range db fl J Hs) by done. clear. tauto.
Qed.

Lemma check_genfs mls : genfs_sound mls (db_symbols db) (db_genfs db) ->
  validate_genfs db fl = true <-> Forall (fun g => Forall (genfs_entry_valid db) (head g)) (db_genfs db).
Proof using J Hs.
  intros [_ Hall]. rewrite Forall_forall in Hall. apply forall_iff. intros g Hg. destruct (Hall g Hg) as [He _]. rewrite Forall_forall in He. apply forall_iff. intros c Hc. destruct (He c Hc) as [_ [Hr _]].
  unfold genfs_entry_valid. rewrite andb_true_iff, check_context by done. apply both_iff; [done|]. apply (check_bounds _ _ _ (j_classes _ _ J)).
Qed.

Lemma check_maps maps : zlength maps = st_nprim (p_types (db_symbols db)) -> Forall ebitmap_ok maps -> decides (validate_maps db fl maps) (Forall (all_known (is_type db)) maps).
Proof using J.
  intros Hl Hok. unfold validate_maps. eapply decides_as; [apply (decides_all _ (fun i => exists m, maps !! Z.to_nat i = Some m /\ all_known (is_type db) m))|].
  - intros i Hi%elem_of_seqZ. unfold zlength in Hl. destruct (lookup_lt_is_Some_2 maps (Z.to_nat i)) as [m E]; [lia|]. rewrite E. cbn [mbind option_bind]. apply decides_some. rewrite Forall_lookup in Hok.
    rewrite (proj2 (j_types _ _ J)) by (by eapply Hok). split; [by eauto|]. by intros (m' & [= <-] & H).
  - rewrite Forall_forall, Forall_lookup. unfold zlength in Hl. split.
    + intros H i m E. pose proof (lookup_lt_Some _ _ _ E). destruct (H (Z.of_nat i)) as (m' & E' & Hm); [apply elem_of_seqZ; lia|]. rewrite Nat2Z.id, E in E'. by injection E' as <-.
    + intros H i Hi%elem_of_seqZ. destruct (lookup_lt_is_Some_2 maps (Z.to_nat i)) as [m E]; [lia|]. eauto.
Qed.

Context (Htypes : length (ix_types (db_indexes db)).2 = length (ix_types (db_indexes db)).1) (Hsel : h_target (db_header db) = SEPOL_TARGET_SELINUX).

Lemma check_filename k c : data_ok (chain_list c) -> decides (validate_filename_trans db fl k c) (filename_valid db k c).
Proof using J Hs Htypes.
  intros Hd. unfold validate_filename_trans, filename_valid. apply decides_and; [apply decides_some; by rewrite andb_true_iff, (proj1 (j_types _ _ J)), (proj1 (j_classes _ _ J))|]. intros _.
  assert (Hall : Forall datum_ok (chain_list c)) by (revert Hd; induction (chain_list c); cbn; [constructor|]; intros (? & _ & ?); constructor; auto). rewrite Forall_forall in Hall.
  apply decides_all. intros d Hdd. destruct (Hall d Hdd) as [He _]. apply decides_and; [apply decides_some; by rewrite (proj2 (j_types _ _ J))|]. intros _. by eapply check_simpletype.
Qed.

Lemma check_permissives : ebitmap_ok (db_permissive_map db) -> decides (validate_permissives db fl) (forall b, b ∈ ebitmap_set (db_permissive_map db) -> is_plain db b).
Proof using J Hs Htypes.
  intros He. unfold validate_permissives. rewrite for_each_bits by done. cbn [mbind option_bind]. eapply decides_mono; [|apply (decides_all _ (is_plain db)); intros b _; by eapply check_simpletype].
  rewrite Forall_forall. unfold ebitmap_set. by setoid_rewrite elem_of_list_to_set.
Qed.

Lemma check_object mls i c : object_sound mls (db_symbols db) SEPOL_TARGET_SELINUX i c ->
  decides (Some (validate_context db fl (oc_context0 c)) &&& validate_selinux db fl i c) (object_valid db i c).
Proof using J Hs.
  intros [[H0 _] Hk]. destruct (Hk eq_refl) as [Hu H1]. unfold object_valid. apply decides_and; [by apply decides_some, check_context|]. intros _.
  assert (Hc1 : two_contexts i = true -> validate_context db fl (oc_context1 c) = true <-> context_valid db (oc_context1 c)) by (intros H; apply check_context; by destruct (H1 H)).
  clear H0 H1 Hk. unfold validate_selinux, two_contexts, OCON_ISID, OCON_FS, OCON_NETIF, OCON_PORT, OCON_FSUSE, OCON_IBPKEY, OCON_IBENDPORT in *.
  destruct (oc_u c) as [|name|protocol low high|addr mask|addr mask|dev|pirq|low high|low high|prefix low high|dev port]; cbn [object_kind] in Hu; try done.
  - subst i. cbn [Z.eqb orb] in *. apply decides_some. rewrite negb_true_iff, orb_false_iff, Z.eqb_neq, Z.leb_gt. clear. naive_solver.
  - destruct Hu as [-> |[-> | ->]]; cbn [Z.eqb Pos.eqb orb] in *.
    + eapply decides_as; [apply decides_and; [by apply decides_some, Hc1|intros _; apply decides_true]|]. clear. naive_solver.
    + eapply decides_as; [apply decides_and; [by apply decides_some, Hc1|intros _; apply decides_true]|]. clear. naive_solver.
    + eapply decides_as; [apply decides_and; [by apply decides_some, among_in|intros _; apply decides_true]|]. clear. naive_solver.
  - subst i. cbn [Z.eqb Pos.eqb orb] in *. apply decides_some. rewrite negb_true_iff, Z.ltb_ge. clear. naive_solver.
  - subst i. unfold OCON_NODE. cbn [Z.eqb Pos.eqb orb]. apply decides_some. clear. naive_solver.
  - destruct Hu as [-> _]. unfold OCON_NODE6. cbn [Z.eqb Pos.eqb orb]. apply decides_some. clear. naive_solver.
  - subst i. cbn [Z.eqb Pos.eqb orb] in *. apply decides_some. rewrite negb_true_iff, Z.ltb_ge. clear. naive_solver.
  - subst i. cbn [Z.eqb Pos.eqb orb] in *. apply decides_some. rewrite negb_true_iff, Z.eqb_neq. clear. naive_solver.
Qed.

Lemma check_objects mls : objects_sound mls (db_symbols db) SEPOL_TARGET_SELINUX (db_ocontexts db) ->
  decides (validate_ocontexts db fl) (Forall (fun i => Forall (object_valid db i) (objects db i)) (seqZ 0 OCON_NUM)).
Proof using J Hs Htypes Hsel.
  intros Ho. unfold validate_ocontexts. apply decides_all. intros i Hi%elem_of_seqZ. apply decides_all. intros c Hc. rewrite Hsel. change (SEPOL_TARGET_SELINUX =? SEPOL_TARGET_SELINUX) with true. cbn iota.
  apply (check_object mls). unfold objects in Hc. destruct (db_ocontexts db !! Z.to_nat i) as [cs|] eqn:E; [|by apply not_elem_of_nil in Hc]. pose proof (Ho _ _ E) as Hall. rewrite Z2Nat.id, Forall_forall in Hall by lia. by apply Hall.
Qed.
End RestChecks.

(** ** The collection of the gaps *)

Lemma inverse_length {D} (val : D -> option Z) nprim m st : inverse val nprim m st -> length st.1 = Z.to_nat nprim /\ length st.2 = Z.to_nat nprim.
Proof. by intros (H1 & H2 & _). Qed.

Lemma names_length {D} (val : D -> option Z) nprim m n : inverse_names val nprim m n -> length n = Z.to_nat nprim.
Proof. intros [st H]. by apply inverse_length in H as [? _]. Qed.

(** Symbols that fit the bitmaps: no bit is in the last node of the range. *)
Definition few_symbols (s : symbols) : Prop :=
  Forall (fun n => n <= 2 ^ 32 - 64) [st_nprim (p_commons s); st_nprim (p_classes s); st_nprim (p_roles s); st_nprim (p_types s);
                                      st_nprim (p_users s); st_nprim (p_bools s); st_nprim (p_levels s); st_nprim (p_cats s)].

Section Gaps.
Context (db : policydb) (Hs : symbols_sound (db_symbols db)).
Context (Hclasses : classes_indexed (db_symbols db) (db_class_indexes db)) (Hothers : others_indexed (db_symbols db) (db_indexes db)).

Lemma collect_type_gaps {strict} :
  (strict = true -> st_nprim (p_types (db_symbols db)) <= 2 ^ 32 - 64) ->
  xruns strict (if unnamed_attributes (db_header db) then xret (mk_validate (st_nprim (p_types (db_symbols db))) ebitmap_init)
                else validate_init (ix_types (db_indexes db)).1 (st_nprim (p_types (db_symbols db))))
    (fun f => judges f (is_type db) /\ v_nprim f = st_nprim (p_types (db_symbols db))).
Proof using Hs Hclasses Hothers.
  intros Hf. destruct Hothers as (_ & [Hl _]%inverse_length & _). destruct Hs as (_ & _ & _ & [Hn _] & _). unfold is_type. destruct (unnamed_attributes (db_header db)); cbn [negb].
  - apply xok_ret. split; [|done]. apply judges_place; [done|done|]. intros b. cbn. set_solver.
  - by apply collect_gaps.
Qed.

Lemma collect_all_gaps {strict} : (strict = true -> few_symbols (db_symbols db)) -> xruns strict (validate_array_init db) (judged db).
Proof using Hs Hclasses Hothers.
  intros Hf. unfold validate_array_init. cbv zeta. pose proof Hothers as (Ro & _ & Us & (bst & Bo & _) & Se & Ca & _). destruct Hclasses as [Co Cl].
  apply names_length in Co, Se, Ca. apply inverse_length in Cl as [Cl _], Ro as [Ro _], Us as [Us _], Bo as [Bo _]. cbn [fst snd] in *.
  pose proof Hs as ([N1 _] & [N2 _] & [N3 _] & _ & [N5 _] & [N6 _] & [N7 _] & [N8 _]).
  assert (Hfew : strict = true -> _) by exact Hf. unfold few_symbols in Hfew. rewrite !Forall_cons in Hfew.
  eapply xok_bind; [apply collect_gaps; [done|done|intros E; apply (Hfew E)]|]. intros f1 [J1 _].
  eapply xok_bind; [apply collect_gaps; [done|done|intros E; apply (Hfew E)]|]. intros f2 [J2 P2].
  eapply xok_bind; [apply collect_gaps; [done|done|intros E; apply (Hfew E)]|]. intros f3 [J3 P3].
  eapply xok_bind; [apply collect_type_gaps; intros E; apply (Hfew E)|]. intros f4 [J4 P4].
  eapply xok_bind; [apply collect_gaps; [done|done|intros E; apply (Hfew E)]|]. intros f5 [J5 P5].
  eapply xok_bind; [apply collect_gaps; [done|done|intros E; apply (Hfew E)]|]. intros f6 [J6 P6].
  eapply xok_bind; [apply collect_gaps; [done|done|intros E; apply (Hfew E)]|]. intros f7 [J7 _].
  eapply xok_bind; [apply collect_gaps; [done|done|intros E; apply (Hfew E)]|]. intros f8 [J8 P8]. apply xok_ret. by constructor.
Qed.

(** An array and the names say the same. *)
Lemma same_gaps {A} (array : list (option A)) n nprim f :
  judges f (known true n) -> v_nprim f = nprim -> length array = Z.to_nat nprim ->
  (forall i x, 0 <= i < nprim -> array !! Z.to_nat i = Some x -> is_Some x <-> exists name, n !! Z.to_nat i = Some (Some name)) -> decides (array_gaps array nprim f) True.
Proof using.
  intros [J _] Hn Hl Hsame. unfold array_gaps. eapply decides_as; [apply (decides_all _ (fun _ => True))|by split; [|intros _; apply Forall_true]].
  intros i Hi%elem_of_seqZ. destruct (lookup_lt_is_Some_2 array (Z.to_nat i)) as [x E]; [lia|]. rewrite E. cbn [mbind option_bind]. apply decides_some. split; [done|]. intros _.
  specialize (J (i + 1)). unfold validate_value, known in J. replace (i + 1 - 1) with i in J by lia. destruct (Z.leb_spec (i + 1) 0); [lia|]. destruct (Z.ltb_spec (v_nprim f) (i + 1)); [lia|]. cbn [orb negb andb] in J.
  specialize (Hsame i x ltac:(lia) E). case_bool_decide as Hx.
  - destruct (proj1 Hsame Hx) as [name En]. rewrite (proj1 (negb_true_iff _) (proj2 J ltac:(split; [lia|]; by exists (Some name)))). done.
  - destruct (ctrue (ebitmap_get_bit (v_gaps f) i)); [done|]. destruct (proj1 J eq_refl) as (_ & y & Ey & Hy). destruct (Hy eq_refl) as [name ->]. destruct Hx. apply Hsame. eauto.
Qed.

Lemma inverse_gaps {D} (val : D -> option Z) nprim m (st : names * structs D) f :
  inverse val nprim m st -> judges f (known true st.1) -> v_nprim f = nprim -> decides (array_gaps st.2 nprim f) True.
Proof using.
  intros (_ & Hl & _ & Hname) J Hn. cbn [fst snd] in *. eapply same_gaps; [done..|]. intros i x Hi E. specialize (Hname (i + 1) ltac:(lia)). replace (i + 1 - 1) with i in Hname by lia.
  rewrite Hname, E. destruct x as [[k d]|]; cbn; naive_solver.
Qed.
End Gaps.

(** ** Whole policies *)

Definition bindings_of {K D} `{!EqDecision K, !Countable K} (t : option (hashtab K D)) : gmap K D := match t with Some h => hashtab_abs h | None => ∅ end.

(** Everything that a policy mentions is there, and makes sense. *)
Record policy_valid (scopes : list (table scope_datum)) (global : list Z) (db : policydb) : Prop := mk_policy_valid {
  pv_header : (h_mls (db_header db) = true -> POLICYDB_VERSION_MLS <= h_vers (db_header db)) /\
    h_unknown (db_header db) ∈ [SEPOL_DENY_UNKNOWN; SEPOL_REJECT_UNKNOWN; SEPOL_ALLOW_UNKNOWN];
  pv_caps : forall b, b ∈ ebitmap_set (db_policycaps db) -> b <= POLICYDB_CAP_MAX;
  pv_rules : Forall (fun n => rule_valid db false (key n) (datum n)) (nodes_of (db_te_avtab db));
  pv_conds : Forall (cond_node_valid db) (db_cond_list db) /\ Forall (fun c => rule_valid db true (key c.1) (datum c.1)) (ct_heap (db_cond db));
  pv_role_rules : Forall (role_trans_valid db) (db_role_tr db) /\ Forall (role_allow_valid db) (db_role_allow db);
  pv_filenames : POLICYDB_VERSION_FILENAME_TRANS <= h_vers (db_header db) -> map_Forall (filename_valid db) (bindings_of (ft_table (db_filename_trans db)));
  pv_objects : Forall (fun i => Forall (object_valid db i) (objects db i)) (seqZ 0 OCON_NUM);
  pv_genfs : Forall (fun g => Forall (genfs_entry_valid db) (head g)) (db_genfs db);
  pv_scopes : scopes_valid scopes global;
  pv_commons : map_Forall (fun _ => common_valid db) (symtab_abs (p_commons (db_symbols db)));
  pv_classes : map_Forall (fun _ => class_valid db) (symtab_abs (p_classes (db_symbols db)));
  pv_roles : map_Forall (fun _ => role_valid db) (symtab_abs (p_roles (db_symbols db)));
  pv_types : map_Forall (fun _ => type_valid db) (symtab_abs (p_types (db_symbols db)));
  pv_users : map_Forall (fun _ => user_valid db) (symtab_abs (p_users (db_symbols db)));
  pv_levels : h_mls (db_header db) = true -> map_Forall (fun _ => level_datum_valid db) (symtab_abs (p_levels (db_symbols db)));
  pv_cats : map_Forall (fun _ d => cat_value d <> 0 /\ cat_value d <= st_nprim (p_cats (db_symbols db))) (symtab_abs (p_cats (db_symbols db)));
  pv_bools : map_Forall (fun _ => bool_valid db) (symtab_abs (p_bools (db_symbols db)));
  pv_permissives : forall b, b ∈ ebitmap_set (db_permissive_map db) -> is_plain db b;
  pv_ranges : map_Forall (range_trans_valid db) (bindings_of (db_range_tr db));
  pv_maps : Forall (all_known (is_type db)) (db_type_attr_map db) /\ Forall (all_known (is_type db)) (db_attr_type_map db) }.

(** A policy that was read, of the target and the versions with all parts. *)
Definition validated_policy (db : policydb) : Prop :=
  db_sound db /\ POLICYDB_VERSION_AVTAB <= h_vers (db_header db) /\ zlength (ct_heap (db_cond db)) < 2 ^ 32 /\
  h_target (db_header db) = SEPOL_TARGET_SELINUX /\ ft_ok (db_filename_trans db).

Section Whole.
Context (scopes : list (table scope_datum)) (Hscopes : scope_tables scopes) (global : list Z).
Context (db : policydb) (Hdb : validated_policy db) (fl : flavors) (J : judged db fl).

Lemma symtab_table {D} (P : cstring -> D -> Prop) (t : symtab D) (f : cstring -> D -> option bool) (Q : cstring -> D -> Prop) :
  symtab_sound P t -> (forall k d, P k d -> decides (f k d) (Q k d)) -> decides (table_all f (st_table t)) (map_Forall Q (symtab_abs t)).
Proof using.
  intros (_ & h & E & Hok & Hall) H. unfold symtab_abs. rewrite E. apply decides_table; [done|]. eapply map_Forall_impl; [exact Hall|]. exact H.
Qed.

Lemma types_same : length (ix_types (db_indexes db)).2 = length (ix_types (db_indexes db)).1.
Proof using Hdb. destruct Hdb as [Hd _]. destruct (dd_indexes db Hd) as [_ (_ & [H1 H2]%inverse_length & _)]. congruence. Qed.

Lemma check_entries :
  decides (validate_datum_array_entries db fl)
    (map_Forall (fun _ => common_valid db) (symtab_abs (p_commons (db_symbols db))) /\ map_Forall (fun _ => class_valid db) (symtab_abs (p_classes (db_symbols db))) /\
     map_Forall (fun _ => role_valid db) (symtab_abs (p_roles (db_symbols db))) /\ map_Forall (fun _ => type_valid db) (symtab_abs (p_types (db_symbols db))) /\
     map_Forall (fun _ => user_valid db) (symtab_abs (p_users (db_symbols db))) /\
     (h_mls (db_header db) = true -> map_Forall (fun _ => level_datum_valid db) (symtab_abs (p_levels (db_symbols db)))) /\
     map_Forall (fun _ d => cat_value d <> 0 /\ cat_value d <= st_nprim (p_cats (db_symbols db))) (symtab_abs (p_cats (db_symbols db))) /\
     map_Forall (fun _ => bool_valid db) (symtab_abs (p_bools (db_symbols db)))).
Proof using Hdb J.
  pose proof Hdb as [Hd _]. pose proof (dd_symbols db Hd) as Hs. pose proof types_same as Ht. destruct (dd_header db Hd) as [Hk _]. unfold validate_datum_array_entries. cbv zeta.
  pose proof Hs as (S1 & S2 & S3 & S4 & S5 & S6 & S7 & S8). checks.
  - eapply symtab_table; [exact S1|]. intros k d. by apply check_common.
  - eapply symtab_table; [exact S2|]. intros k d. by apply check_class.
  - eapply symtab_table; [exact S3|]. intros k d Hr. apply decides_some. by apply (check_role db fl J Hs).
  - eapply symtab_table; [exact S4|]. intros k d. by apply check_type.
  - eapply symtab_table; [exact S5|]. intros k d Hu. apply decides_some. by apply (check_user db fl J Hs).
  - instantiate (1 := h_mls (db_header db) = true -> map_Forall (fun _ => level_datum_valid db) (symtab_abs (p_levels (db_symbols db)))). destruct (h_mls (db_header db)).
    + eapply decides_mono; [|eapply symtab_table; [exact S7|]; intros k d; by apply check_level]. by split; [|intros HL; by apply HL].
    + by apply decides_some.
  - apply (symtab_table _ _ _ (fun _ d => cat_value d <> 0 /\ cat_value d <= st_nprim (p_cats (db_symbols db))) S8). intros k d _. apply decides_some. rewrite value_isvalid_spec. destruct (j_nprims _ _ J) as (_ & _ & _ & _ & _ & ->). clear. intuition congruence.
  - eapply symtab_table; [exact S6|]. intros k d Hb. apply decides_some. by apply (check_bool db fl J Hs).
  - clear. tauto.
Qed.

Lemma check_gaps : decides (validate_datum_array_gaps db fl) True.
Proof using Hdb J.
  pose proof Hdb as [Hd _]. destruct (dd_indexes db Hd) as [[_ Cl] (Ro & Ty & Us & (bst & Bo & Eb) & _)]. destruct (j_nprims _ _ J) as (P1 & P2 & P3 & P4 & P5 & _). unfold validate_datum_array_gaps. cbv zeta. checks.
  - by apply (inverse_gaps _ _ _ _ _ Cl (j_classes _ _ J)).
  - by apply (inverse_gaps _ _ _ _ _ Ro (j_roles _ _ J)).
  - pose proof (j_types _ _ J) as Jt. unfold is_type in Jt. destruct (unnamed_attributes (db_header db)); [apply decides_true|]. by apply (inverse_gaps _ _ _ _ _ Ty Jt).
  - by apply (inverse_gaps _ _ _ _ _ Us (j_users _ _ J)).
  - rewrite Eb. destruct Bo as (_ & Hl & _ & Hname). cbn [fst snd] in *. eapply same_gaps; [apply (j_bools _ _ J)|done|unfold bools_of; by rewrite length_map|]. intros i x Hi E. unfold bools_of in E. change (map (option_map snd) bst) with (option_map snd <$> bst) in E. rewrite list_lookup_fmap in E.
    specialize (Hname (i + 1) ltac:(lia)). replace (i + 1 - 1) with i in Hname by lia. rewrite Hname. destruct (bst !! Z.to_nat i) as [[[k d]|]|]; cbn in E; simplify_eq; cbn; clear; naive_solver.
  - clear. tauto.
Qed.

Lemma check_policycaps : ebitmap_ok (db_policycaps db) -> decides (validate_policycaps db) (forall b, b ∈ ebitmap_set (db_policycaps db) -> b <= POLICYDB_CAP_MAX).
Proof using.
  intros He. unfold validate_policycaps. rewrite for_each_bits by done. cbn [mbind option_bind]. apply decides_some. rewrite (forall_iff _ (fun b => b <= POLICYDB_CAP_MAX)).
  - rewrite Forall_forall. unfold ebitmap_set. by setoid_rewrite elem_of_list_to_set.
  - intros b Hb. assert (0 <= b) by (apply (bits_range _ b He); unfold ebitmap_set; by apply elem_of_list_to_set). rewrite bool_decide_eq_true. unfold sepol_polcap_getname, POLICYDB_CAP_MAX. destruct (Z.ltb_spec 12 b).
    + split; [|lia]. by intros [].
    + split; [done|]. intros _. apply lookup_lt_is_Some. cbn. lia.
Qed.

Lemma check_properties : validate_properties (db_header db) = true <->
  (h_mls (db_header db) = true -> POLICYDB_VERSION_MLS <= h_vers (db_header db)) /\ h_unknown (db_header db) ∈ [SEPOL_DENY_UNKNOWN; SEPOL_REJECT_UNKNOWN; SEPOL_ALLOW_UNKNOWN].
Proof using Hdb.
  pose proof Hdb as [Hd _]. destruct (dd_header db Hd) as (_ & [Hv1 Hv2] & Ht). unfold validate_properties. rewrite (proj2 (Z.leb_le _ _) Hv1), (proj2 (Z.leb_le _ _) Hv2), !andb_true_iff, !among_in.
  assert (h_target (db_header db) ∈ [SEPOL_TARGET_SELINUX; SEPOL_TARGET_XEN]) by (clear -Ht; set_solver). rewrite negb_true_iff, andb_false_iff, Z.ltb_ge. destruct (h_mls (db_header db)); intuition congruence.
Qed.

Lemma check_policy : decides (policydb_checks scopes global db fl) (policy_valid scopes global db).
Proof using Hscopes Hdb J.
  pose proof Hdb as (Hd & Hv & Hheap & Hsel & (hf & Ef & Hokf & Hft)). pose proof Hd as [[Hk _] [Hcap Hper] Hs [Hci _] _ [Hte Hco] _ _ [Hob Hge] (hr & Er & Hokr & Hrng) [[Hml Hmap] [Hal Hamap]]]. pose proof types_same as Ht. rewrite Hsel in Hob.
  destruct (Hte Hv) as (Htok & Hitems & _). specialize (Hco Hv). unfold policydb_checks.
  replace (POLICYDB_VERSION_BOOL <=? h_vers (db_header db)) with true by (unfold POLICYDB_VERSION_BOOL, POLICYDB_VERSION_AVTAB in *; lia). checks.
  - by apply check_policycaps.
  - by apply check_te.
  - by apply (check_conds db fl J Hs Ht Hci Hk Hsel _ Hco Hheap).
  - instantiate (1 := POLICYDB_VERSION_FILENAME_TRANS <= h_vers (db_header db) -> map_Forall (filename_valid db) (bindings_of (ft_table (db_filename_trans db)))).
    destruct (Z.leb_spec POLICYDB_VERSION_FILENAME_TRANS (h_vers (db_header db))) as [Hf|Hf]; [|apply decides_some; split; [intros _ Hf'; exfalso; lia|done]].
    rewrite Ef. cbn [bindings_of]. eapply decides_mono; [|apply (decides_table _ (filename_valid db)); [done|]; eapply map_Forall_impl; [exact Hft|]; intros k c; by apply check_filename]. split; [done|]. intros HF. by apply HF.
  - by eapply check_objects.
  - by apply check_scopes.
  - apply check_gaps.
  - apply check_entries.
  - by apply check_permissives.
  - rewrite Er. apply (decides_table _ (range_trans_valid db)); [done|]. eapply map_Forall_impl; [exact Hrng|]. intros k r HR. apply decides_some. by eapply (check_range_trans db fl J Hs).
  - apply check_maps; [done|done|]. apply Forall_lookup. intros i e Ee. by apply (Hmap i e).
  - apply check_maps; [done|unfold zlength; destruct Hs as (_ & _ & _ & [Nt _] & _); unfold in_range in Nt; lia|]. apply Forall_lookup. intros i e Ee. by apply (Hamap i e).
  - rewrite check_properties, andb_true_iff, (check_role_transes db fl J), (check_role_allows db fl J), (check_genfs db fl J Hs _ Hge). clear -Er. split.
    + intros H. constructor; rewrite ?Er; cbn [bindings_of]; tauto.
    + intros []. rewrite Er in *. cbn [bindings_of] in *. tauto.
Qed.
End Whole.

(** ** Validated policies can be asked *)

(** Every value of a type, a role and a class is the value of one. *)
Definition no_gaps (db : policydb) : Prop :=
  Forall is_Some (ix_types (db_indexes db)).2 /\ Forall is_Some (ix_roles (db_indexes db)).2 /\ Forall is_Some (class_val_to_struct (db_class_indexes db)).

Lemma entries_known gaps n e : ebitmap_ok e -> all_known (known gaps n) e -> forallb (fun i => (0 <=? i) && (i <? zlength n)) (entries e) = true.
Proof.
  intros He H. apply forallb_forall. intros i Hi%list_elem_of_In. unfold entries in Hi. apply list_elem_of_filter in Hi as [Hi _]. rewrite get_bit_member in Hi by done. apply bool_decide_unpack in Hi.
  destruct (H i Hi) as (Hpos & x & Ex & _). apply lookup_lt_Some in Ex. pose proof (bits_range e i He Hi). unfold zlength. lia.
Qed.

Section Usable.
Context (db : policydb).

Lemma named_kind attr : named_attribute attr = named_attribute (Z.land attr 7).
Proof using. unfold named_attribute. by rewrite <- !Z.land_assoc. Qed.

(** The names that are listed for the attribute of an element. *)
Lemma listed_known vt e type f :
  cons_expr_sound vt e -> names_valid db vt e -> named_attribute (ce_attr e) = Some (type, f) -> forallb (fun i => (0 <=? i) && (i <? zlength (value_names db type))) (entries (listed db e type)) = true.
Proof using.
  intros (H1 & H2 & _) (_ & _ & Hk) En. rewrite named_kind in En. unfold listed, value_names.
  destruct Hk as [(Ha%about_user & _ & Hn)|[(Ha%about_role & _ & Hn)|(Ha%about_type & Hn & Ht & _)]]; rewrite Ha in En; cbn in En; injection En as <- _; cbn; rewrite ?andb_false_r.
  - by eapply entries_known.
  - by eapply entries_known.
  - destruct (_ && _); by eapply entries_known.
Qed.

Lemma element_leaf vt e : cons_expr_sound vt e -> element_valid db vt e -> leaf_checked db vt e = true.
Proof using.
  intros Hs. unfold element_valid, leaf_checked. destruct (Z.eqb_spec (ce_type e) CEXPR_NAMES) as [-> |]; [|destruct (Z.eqb_spec (ce_type e) CEXPR_ATTR); [|done]].
  - intros Hv. pose proof Hv as (Hx & Ho & Hk). change (CEXPR_NAMES =? CEXPR_ATTR) with false. cbn iota. assert (Hn : is_Some (named_attribute (ce_attr e))).
    { rewrite named_kind. destruct Hk as [[Ha%about_user _]|[[Ha%about_role _]|[Ha%about_type _]]]; rewrite Ha; by eexists. }
    destruct Hn as [[type f] En]. rewrite En, (listed_known vt e type f) by done. rewrite !elem_of_cons, elem_of_nil in Ho. destruct Ho as [-> |[-> |[]]]; cbn; (destruct vt; [done|]); rewrite (Hx eq_refl); cbn; apply orb_true_r.
  - intros (_ & _ & Hk). rewrite !elem_of_cons, !elem_of_nil in Hk. destruct Hk as [[Ha Ho]|[Ha Ho]].
    + destruct Ha as [-> |[-> |[]]]; destruct Ho as [-> |[-> |[]]]; done.
    + destruct Ha as [-> |[-> |[-> |[-> |[-> |[-> |[-> |[]]]]]]]]; destruct Ho as [-> |[-> |[-> |[-> |[-> |[]]]]]]; done.
Qed.

Lemma elements_leaves vt cs :
  Forall (cons_node_sound vt) cs -> Forall (fun c => Forall (element_valid db vt) (con_expr c)) cs -> forallb (fun c => forallb (leaf_checked db vt) (con_expr c)) cs = true.
Proof using.
  intros Hs Hv. rewrite Forall_forall in Hs, Hv. apply forallb_forall. intros c Hc%list_elem_of_In. apply forallb_forall. intros e He%list_elem_of_In. destruct (Hs c Hc) as [Hes _]. specialize (Hv c Hc).
  rewrite Forall_forall in Hes, Hv. by apply element_leaf; auto.
Qed.

Context (scopes : list (table scope_datum)) (global : list Z) (Hdb : validated_policy db) (Hv : policy_valid scopes global db) (Hg : no_gaps db).

Lemma valid_usable : policy_usable db.
Proof using Hdb Hv Hg.
  pose proof Hdb as (Hd & Hvers & Hheap & _). split_and!; [done..|]. destruct Hg as (Gt & Gr & Gc). destruct (dd_indexes db Hd) as [[_ Cl] (Ro & Ty & _)]. pose proof (dd_symbols db Hd) as (_ & [_ Sc] & [Nr _] & [Nt _] & _).
  unfold policy_checked. cbv zeta. rewrite !andb_true_iff, !forallb_forall. setoid_rewrite <- list_elem_of_In. setoid_rewrite elem_of_seqZ. split; [split|].
  - intros v Hr. unfold type_struct. rewrite before_value by (unfold in_range in Nt; lia). destruct Ty as (Hl1 & Hl2 & Hinv & _). destruct (lookup_lt_is_Some_2 (ix_types (db_indexes db)).2 (Z.to_nat (v - 1))) as [x E]; [lia|].
    rewrite E. rewrite Forall_lookup in Gt. destruct (Gt _ _ E) as [[k d] ->]. destruct (proj1 (Hinv v k d ltac:(lia)) E) as [Hk _].
    destruct (pv_types _ _ _ Hv k d Hk) as (_ & _ & _ & Hb & _). destruct (decide (type_bounds d = 0)) as [-> |Hne]; [unfold in_range in Nt; lia|].
    destruct (Hb Hne) as [_ [(Hpos & y & Ey & _) _]]. apply lookup_lt_Some in Ey. lia.
  - intros v Hr. unfold role_of. destruct Ro as (_ & Hl2 & _). destruct (lookup_lt_is_Some_2 (ix_roles (db_indexes db)).2 (Z.to_nat (v - 1))) as [x E]; [lia|]. rewrite E. rewrite Forall_lookup in Gr. by destruct (Gr _ _ E) as [[k d] ->].
  - intros v Hr. destruct Cl as (_ & Hl2 & Hinv & _). cbn [fst snd] in *. destruct (lookup_lt_is_Some_2 (class_val_to_struct (db_class_indexes db)) (Z.to_nat (v - 1))) as [x E]; [lia|]. rewrite E. rewrite Forall_lookup in Gc.
    destruct (Gc _ _ E) as [[k d] ->]. destruct (proj1 (Hinv v k d ltac:(lia)) E) as [Hk _]. destruct (pv_classes _ _ _ Hv k d Hk) as (_ & _ & _ & _ & _ & H1 & H2 & _).
    apply table_abs_sound in Sc. destruct (Sc k d Hk) as (_ & _ & _ & S1 & S2). rewrite andb_true_iff. split; (apply elements_leaves; [done|]); [eapply Forall_impl; [exact H1|]; by intros c (_ & _ & ?)|eapply Forall_impl; [exact H2|]; by intros c [_ ?]].
Qed.
End Usable.

(** ** The theorems *)


(** With such a policy, a decision about contexts it knows comes back when the
    chain of bounds of the source's type ends, and only then. *)
Lemma usable_decides db s t tclass requested flags avd reason stack m :
  policy_usable db -> subject db s -> subject db t -> 0 < tclass <= st_nprim (p_classes (db_symbols db)) -> mem_ok m ->
  (forall n, bound_chain db (ctx_type s) n ->
     exists avd' reason' ev' m', context_struct_compute_av db (bounds_fuel db) s t tclass requested flags avd reason (mk_eval_state stack None) m = Some (Some (0, avd', reason', ev'), m')) /\
  ((forall n, ~ bound_chain db (ctx_type s) n) ->
     forall fuel r m', context_struct_compute_av db fuel s t tclass requested flags avd reason (mk_eval_state stack None) m <> Some (Some r, m')).
Proof.
  intros Hu Hs Ht Hc M. pose proof (usable_ready db Hu) as Hdb. split; [|intros Hn fuel r m'; by apply compute_av_endless].
  intros n Hn. destruct (py_classes db Hdb tclass Hc) as (k & cla & name & Hk & Hname & Hp & Hcs & _).
  assert (Hn' : (n < bounds_fuel db)%nat). { destruct Hs as (_ & _ & Hst & _). pose proof (chain_short db Hdb _ _ Hst Hn). unfold bounds_fuel. lia. }
  pose proof (compute_av_ok db Hdb tclass k cla name Hk Hname Hp Hc Hcs n (bounds_fuel db) True s t requested flags avd reason (mk_eval_state stack None) Hn Hn' Hs Ht ltac:(done) m) as H.
  destruct (context_struct_compute_av _ _ _ _ _ _ _ _ _ _ m) as [[[[[[rc avd'] rs] ev']|] m']|]; [|done|tauto]. destruct H as [[E _] _]. cbn in E. subst rc. by eexists _, _, _, _.
Qed.

