(* ===== verification/ServicesSample.v ===== *)
(** * ServicesSample: a server with a small policy

    A policy with two types, one bounded by the other, three roles, rules,
    constraints and a [validatetrans] rule, read from its image; a server with
    this policy and four SIDs.  Witnesses for the theorems on the server's
    answers and on validation, and answers that are not what they should
    be. *)
From Stdlib Require Import ZArith Lia Bool String.
From stdpp Require Import base option list list_numbers gmap sets.
From S2P Require Import Prelude PolicyFile Mem Ebitmap EbitmapThms Hashtab HashtabThms Symtab Avtab AvtabThms AvtabIO Cond Codec Symbols SymCodec SymbolsIO SymbolsSample Trans Index IndexThms IndexAll IndexSample Contexts ContextsValid ContextsSound ContextText ContextPrint ContextParse CondIO CondIOThms Policydb PolicydbIO PolicydbThms PolicydbSound PolicydbInit PolicydbSample Constraint ConstraintThms ConstraintEval Sidtab Services ServicesThms ServicesSpec ServicesObjects ServicesRun ServicesLoad Validate ValidateThms.

Open Scope Z_scope.

(** ** The policy *)

Definition table_of {D} (l : list (cstring * D)) : symtab D := mk_symtab (Some (mk_hashtab [l] 1 (zlength l))) (zlength l).

Definition leaf (type attr op : Z) (names : ebitmap) (types : type_set) : constraint_expr := mk_constraint_expr type attr op names types.
Definition compare (attr op : Z) : constraint_expr := leaf CEXPR_ATTR attr op ebitmap_init empty_type_set.
Definition one_type (bits : Z) : type_set := mk_type_set (bit_set bits) ebitmap_init 0.
Definition connective (c : Z) : constraint_expr := leaf c 0 0 ebitmap_init empty_type_set.

(** [t1 == t2 or u1 == u2 and l1 dom l2], and [t2 == a], on [read]. *)
Definition read_constraints : list constraint_node :=
  [mk_constraint_node 8 [compare CEXPR_TYPE CEXPR_EQ; compare CEXPR_ROLE CEXPR_NEQ; compare CEXPR_L1L2 CEXPR_DOM; connective CEXPR_AND; connective CEXPR_OR];
   mk_constraint_node 8 [leaf CEXPR_NAMES (CEXPR_TYPE + CEXPR_TARGET) CEXPR_EQ (bit_set 1) (one_type 1)]].

(** A change keeps the user, or the task has the type [a]. *)
Definition change_rule : constraint_node :=
  mk_constraint_node 0 [compare CEXPR_USER CEXPR_EQ; leaf CEXPR_NAMES (CEXPR_TYPE + CEXPR_XTARGET) CEXPR_EQ (bit_set 1) (one_type 1); connective CEXPR_OR].

Definition process_class : class_datum :=
  mk_class_datum 1 None
    (table_of [(str_transition, mk_perm_datum 1); (str_dyntransition, mk_perm_datum 2); (lit "fork", mk_perm_datum 3); (lit "read", mk_perm_datum 4)])
    read_constraints [change_rule] 0 0 0 0.
Definition file_class : class_datum := mk_class_datum 2 None (table_of [(lit "open", mk_perm_datum 1)]) [] [] 0 0 0 0.

Definition a_role (v : Z) : role_datum := mk_role_datum v ebitmap_init (one_type 3) 0 0 ebitmap_init.
Definition a_type (v bounds : Z) : type_datum := mk_type_datum v 1 0 ebitmap_init 0 bounds.
Definition a_user : user_datum :=
  mk_user_datum 1 (mk_role_set (bit_set 6) 0) (mk_semantic_range empty_semantic_level empty_semantic_level) empty_semantic_level
    (mk_mls_range sample_level sample_level) sample_level 0.

(** The type [b] is bounded by [a]; with [round], [a] by [b] too. *)
Definition server_symbols (round : bool) : symbols :=
  mk_symbols (one (lit "f") sample_common) (table_of [(str_process, process_class); (lit "file", file_class)])
    (table_of [(OBJECT_R, object_r); (lit "r", a_role 2); (lit "q", a_role 3)]) (table_of [(lit "a", a_type 1 (if round then 2 else 0)); (lit "b", a_type 2 1)])
    (one (lit "u") a_user) (one (lit "o") (mk_cond_bool_datum 1 1 0)) (one (lit "s0") (mk_level_datum sample_level 0)) (one (lit "c0") (mk_cat_datum 1 0)).

(** [allow a a : process { transition fork read }],
    [allow b a : process { transition dyntransition fork read }],
    [auditallow b a : process fork], [type_transition b a : file b]. *)
Definition server_rules : avtab := Eval vm_compute in
  fold_left (fun h kd => (avtab_insert h kd.1 kd.2 []).1.2)
    [(mk_avtab_key 1 1 1 AVTAB_ALLOWED, mk_avtab_datum 13 None);
     (mk_avtab_key 2 1 1 AVTAB_ALLOWED, mk_avtab_datum 15 None);
     (mk_avtab_key 2 1 1 AVTAB_AUDITALLOW, mk_avtab_datum 4 None);
     (mk_avtab_key 2 1 2 AVTAB_TRANSITION, mk_avtab_datum 2 None)]
    (avtab_alloc (mk_avtab None 0 0 0) 16 []).1.2.

Definition indexes_of (s : symbols) : class_indexes * indexes :=
  (match policydb_index_classes s [] with Some (Some ci, _) => ci | _ => no_class_indexes end,
   match policydb_index_others (pol_of true sample_header) true s [] with Some (Some ix, _) => ix | _ => no_indexes end).

(** TCP ports from 80 to 90 have the type [b]; files of [proc] have [a] below
    [/net] and [b] elsewhere. *)
Definition object_of (type : Z) : context_struct := mk_context 1 1 type low.
Definition server_objects : list (list ocontext) :=
  [[]; []; [mk_ocontext (U_PORT 6 80 90) 0 (object_of 2) empty_context 0 0]; []; []; []; []].
Definition server_genfs : list genfs :=
  [mk_genfs (lit "proc") [mk_ocontext (U_NAME (lit "/net")) 0 (object_of 1) empty_context 0 0; mk_ocontext (U_NAME (lit "/")) 0 (object_of 2) empty_context 0 0]].

Definition written_db (round : bool) : policydb :=
  let s := server_symbols round in
  mk_policydb sample_header (bit_set 5) (bit_set 2) s
    1 0 1 3 server_rules (mk_cond_avtab (mk_avtab None 0 0 0) [] []) [] 0
    [mk_role_trans 2 1 1 3] [mk_role_allow 3 2] (mk_filename_trans (Some (mk_hashtab (replicate 4 []) 4 0)) 0) [1] [Some 0%nat]
    (indexes_of s).1 (indexes_of s).2 server_objects server_genfs (Some (mk_hashtab [[]] 1 0)) [bit_set 1; bit_set 2] [bit_set 1; bit_set 2] 0.

Definition image_of (round : bool) : list Z :=
  pf_out (policydb_write true (written_db round) (mk_policy_file PF_USE_MEMORY [] 8192 [] [])).2.

Definition server_db (round : bool) : policydb :=
  match policydb_read true start_db (mem_file (image_of round)) [] with
  | Some (Some db, _, _) => db
  | _ => sample_db
  end.

Definition was_read {A B C} (r : option (option A * B * C)) : bool := match r with Some (Some _, _, _) => true | _ => false end.

Lemma image_read round : was_read (policydb_read true start_db (mem_file (image_of round)) []) = true.
Proof. destruct round; vm_compute; reflexivity. Qed.

Lemma read_mem round fp o : policydb_read true start_db (mem_file (image_of round)) [] = Some (Some (server_db round), fp, o) -> mem_ok o.
Proof.
  assert (H : match policydb_read true start_db (mem_file (image_of round)) [] with Some (_, _, []) => true | _ => false end = true) by (destruct round; vm_compute; reflexivity).
  destruct (policydb_read _ _ _ _) as [[[r fp'] [|??]]|]; try discriminate H. intros E. assert (o = []) as -> by (by injection E). constructor.
Qed.

Lemma server_db_read round : exists fp o, policydb_read true start_db (mem_file (image_of round)) [] = Some (Some (server_db round), fp, o).
Proof. pose proof (image_read round) as H. unfold server_db. destruct (policydb_read _ _ _ _) as [[[[db|] fp] o]|]; [by exists fp, o|done..]. Qed.

Lemma image_bytes round : forallb (fun x => (0 <=? x) && (x <? 256)) (image_of round) = true.
Proof. destruct round; vm_compute; reflexivity. Qed.

Lemma image_range round : Forall (in_range 8) (image_of round).
Proof. apply Forall_forall. intros x Hx. pose proof (image_bytes round) as Hi. rewrite forallb_forall in Hi. apply list_elem_of_In, Hi in Hx. unfold in_range. lia. Qed.

Lemma server_db_new round : db_sound (server_db round) /\ db_fresh (server_db round).
Proof.
  destruct (server_db_read round) as (fp & o & E). pose proof (read_sound true start_db (mem_file (image_of round)) [] (proj1 start_db_ok) (image_range round)) as H.
  rewrite E in H. exact (H _ eq_refl).
Qed.

Lemma server_db_sound round : db_sound (server_db round).
Proof. apply server_db_new. Qed.

Lemma server_db_usable round : policy_usable (server_db round).
Proof. split; [apply server_db_sound|]. split_and!; by destruct round; vm_compute. Qed.

(** ** The server *)

Definition subject_a : context_struct := mk_context 1 2 1 low.
Definition subject_b : context_struct := mk_context 1 2 2 low.
Definition subject_q : context_struct := mk_context 1 3 1 low.

Definition empty_server (round : bool) : server := mk_server (Some (server_db round)) true (sepol_sidtab_init []).1.2 (mk_tstack [] 0).

Definition with_sid (c : context_struct) (sv : server) : server :=
  match sepol_sidtab_context_to_sid (sv_sidtab sv) c [] with
  | Some (_, _, s, _) => set_sidtab sv s
  | None => sv
  end.

(** The SIDs 1, 2 and 3. *)
Definition sample_server (round : bool) : server := with_sid subject_q (with_sid subject_b (with_sid subject_a (empty_server round))).

Lemma empty_server_ok round : server_ok (empty_server round) (server_db round).
Proof.
  split; [done|]. split; [apply server_db_usable|]. destruct (sidtab_init_ok [] 0 (sepol_sidtab_init []).1.2 [] eq_refl eq_refl) as [H E]. split; [exact H|].
  cbn [empty_server sv_sidtab]. rewrite E. apply map_Forall_empty.
Qed.

Lemma with_sid_ok round c sv : server_ok sv (server_db round) -> context_ranges c ->
  policydb_context_isvalid (h_mls (db_header (server_db round))) (db_symbols (server_db round)) (db_indexes (server_db round)) c = Some true ->
  server_ok (with_sid c sv) (server_db round).
Proof.
  intros Hsv Hc Hv. destruct (dd_checks _ (server_db_sound round) c Hc) as (b & E & Hb). rewrite Hv in E. injection E as <-.
  destruct (intern_ok sv (server_db round) c [] Hsv) as (rc & sid & s & o & E & H & _); [split; [done|by apply Hb]|]. unfold with_sid. by rewrite E.
Qed.

Lemma subject_ranges role type : 0 <= role -> 0 <= type -> context_ranges (mk_context 1 role type low).
Proof. intros Hr Ht. split; [done|]. split; [done|]. split; [done|]. split; concrete. Qed.

Lemma sample_server_ok round : server_ok (sample_server round) (server_db round).
Proof.
  unfold sample_server. apply with_sid_ok; [|by apply subject_ranges|destruct round; vm_compute; reflexivity]. apply with_sid_ok; [|by apply subject_ranges|destruct round; vm_compute; reflexivity].
  apply with_sid_ok; [apply empty_server_ok|by apply subject_ranges|destruct round; vm_compute; reflexivity].
Qed.

#[local] Opaque server_db sample_server.

Lemma sid_a round : sepol_sidtab_search (sv_sidtab (sample_server round)) 1 = Some subject_a.
Proof. destruct round; vm_compute; reflexivity. Qed.
Lemma sid_b round : sepol_sidtab_search (sv_sidtab (sample_server round)) 2 = Some subject_b.
Proof. destruct round; vm_compute; reflexivity. Qed.
Lemma sid_q round : sepol_sidtab_search (sv_sidtab (sample_server round)) 3 = Some subject_q.
Proof. destruct round; vm_compute; reflexivity. Qed.
Lemma two_classes v : 0 < v <= 2 -> 0 < v <= st_nprim (p_classes (db_symbols (server_db false))).
Proof. intros [H1 H2]. split; [exact H1|]. assert (st_nprim (p_classes (db_symbols (server_db false))) = 2) as -> by (vm_compute; reflexivity). exact H2. Qed.

(** ** Decisions *)

(** The chain from [b] ends at [a]. *)
Lemma sample_chain : bound_chain (server_db false) 2 1.
Proof. constructor; [vm_compute; discriminate|]. constructor. vm_compute. reflexivity. Qed.



(** What a decision says: the code, the permissions and the reasons. *)
Definition answer (r : option (option (Z * sepol_av_decision * Z * server) * oracle)) : option (Z * Z * Z) :=
  match r with Some (Some (rc, avd, reason, _), _) => Some (rc, allowed avd, reason) | _ => None end.

(** constraints fail open: a type asks for a permission that a constraint
    takes away; if the first allocation of the evaluation fails,
    [constraint_expr_eval_reason] returns -ENOMEM, its caller takes every code
    but 0 for true, and the permission (8) is granted. *)
Theorem constraint_fails_open :
  answer (sepol_compute_av_reason (sample_server false) 2 1 1 15 (mk_av_decision 0 0 0 0 0) 0 []) = Some (0, 5, SEPOL_COMPUTEAV_CONS + SEPOL_COMPUTEAV_BOUNDS) /\
  answer (sepol_compute_av_reason (sample_server false) 2 1 1 15 (mk_av_decision 0 0 0 0 0) 0 [false]) = Some (0, 13, SEPOL_COMPUTEAV_BOUNDS).
Proof. split; vm_compute; reflexivity. Qed.

(** Bounds that go round. *)
Lemma round_bounds : bounds_of (server_db true) 1 = 2 /\ bounds_of (server_db true) 2 = 1.
Proof. split; vm_compute; reflexivity. Qed.

Lemma round_chain v n : bound_chain (server_db true) v n -> v <> 1 /\ v <> 2.
Proof.
  destruct round_bounds as [E1 E2]. induction 1 as [v E|v n Hne H IH]; (split; intros ->); [rewrite E1 in E; discriminate|rewrite E2 in E; discriminate|rewrite E1 in IH; lia|rewrite E2 in IH; lia].
Qed.

Lemma compute_av_cyclic_bounds_witness :
  (bounds_of (server_db true) 1 = 2 /\ bounds_of (server_db true) 2 = 1) /\
  forall r o', context_struct_compute_av (server_db true) 1000 subject_b subject_a 1 15 0 (mk_av_decision 0 0 0 0 0) None (mk_eval_state (mk_tstack [] 0) None) [] <> Some (Some r, o').
Proof.
  split; [exact round_bounds|].
  apply (compute_av_cyclic_bounds (server_db true) 1000 subject_b subject_a 1 15 0 (mk_av_decision 0 0 0 0 0) None (mk_eval_state (mk_tstack [] 0) None) []).
  - split; [reflexivity|]. vm_compute. discriminate.
  - intros n [_ H]%round_chain. by apply H.
Defined.

(** ** Constraints *)

Definition first_constraint : constraint_node := mk_constraint_node 8 [compare CEXPR_TYPE CEXPR_EQ; compare CEXPR_ROLE CEXPR_NEQ; compare CEXPR_L1L2 CEXPR_DOM; connective CEXPR_AND; connective CEXPR_OR].

(** The class as it was read. *)
Definition read_class : class_datum :=
  match class_val_to_struct (db_class_indexes (server_db false)) !! 0%nat with Some (Some (_, d)) => d | _ => process_class end.

Lemma read_class_of : class_of (server_db false) 1 read_class.
Proof.
  assert (H : match class_val_to_struct (db_class_indexes (server_db false)) !! 0%nat with Some (Some _) => true | _ => false end = true) by (vm_compute; reflexivity).
  unfold class_of, read_class. change (Z.to_nat (1 - 1)) with 0%nat. destruct (class_val_to_struct _ !! _) as [[[k d]|]|]; [by exists k|done..].
Qed.

Lemma first_constraint_read : first_constraint ∈ cla_constraints read_class.
Proof.
  assert (E : cla_constraints read_class !! 0%nat = Some first_constraint) by (vm_compute; reflexivity). by eapply list_elem_of_lookup_2.
Qed.

Lemma sample_subject sid c : 0 <= sid -> sepol_sidtab_search (sv_sidtab (sample_server false)) sid = Some c -> subject (server_db false) c.
Proof. apply search_subject, sample_server_ok. Qed.


(** [t1 == t2 or (u1 == u2 and r1 == r2)] and [(t1 == t2 or u1 == u2) and r1 == r2] *)
Definition or_last : constraint_node :=
  mk_constraint_node 8 [compare CEXPR_TYPE CEXPR_EQ; compare CEXPR_USER CEXPR_EQ; compare CEXPR_ROLE CEXPR_EQ; connective CEXPR_AND; connective CEXPR_OR].
Definition and_last : constraint_node :=
  mk_constraint_node 8 [compare CEXPR_TYPE CEXPR_EQ; compare CEXPR_USER CEXPR_EQ; connective CEXPR_OR; compare CEXPR_ROLE CEXPR_EQ; connective CEXPR_AND].

(** The code and the text of an evaluation. *)
Definition explained (c : constraint_node) : option (Z * cstring) :=
  match constraint_expr_eval_reason (server_db false) subject_a subject_q None 1 c SHOW_GRANTED (mk_eval_state (mk_tstack [] 0) (Some no_reasons)) [] with
  | Some (Some (rc, ev), _) => b ← ev_reason ev; Some (rc, tb_used b)
  | _ => None
  end.

(** the infix text of a constraint leaves out how it is grouped: two
    constraints, one of which holds of two contexts while the other does not,
    are explained with the same text, but for the verdict. *)
Theorem infix_text_ambiguous :
  explained or_last = Some (1, lit "constrain process { read } ((t1 == t2)  or (u1 == u2)  and (r1 == r2 -Fail-) ); Constraint GRANTED" ++ [10]) /\
  explained and_last = Some (0, lit "constrain process { read } ((t1 == t2)  or (u1 == u2)  and (r1 == r2 -Fail-) ); Constraint DENIED" ++ [10]).
Proof. split; vm_compute; reflexivity. Qed.

(** ** Transitions, new objects and texts *)

Lemma validate_transition_witness :
  exists cla name rc b stack o', class_of (server_db false) 1 cla /\ p_class_val_to_name (db_class_indexes (server_db false)) !! Z.to_nat (1 - 1) = Some name /\
    sepol_validate_transition_reason_buffer (sample_server false) 1 2 3 1 SHOW_GRANTED [] = Some (Some (rc, Some b, set_stack_of (sample_server false) stack), o') /\
    (rc = 0 \/ rc = - EPERM) /\ (rc = 0 <-> forall c, c ∈ cla_validatetrans cla -> constraint_value (server_db false) c subject_a subject_b (Some subject_q) = Some true) /\
    tb_used b = validate_text (server_db false) subject_a subject_b subject_q cla name SHOW_GRANTED (cla_validatetrans cla) /\ ts_stack stack = ts_stack (sv_stack (sample_server false)).
Proof.
  apply (validate_transition_spec (sample_server false) (server_db false) 1 2 3 subject_a subject_b subject_q 1 SHOW_GRANTED []).
  - apply sample_server_ok.
  - discriminate.
  - discriminate.
  - discriminate.
  - exact (sid_a false).
  - exact (sid_b false).
  - exact (sid_q false).
  - apply two_classes. lia.
  - constructor.
Defined.

(** A file made by [b] in a directory of [a], while memory runs out. *)
Lemma compute_sid_witness :
  exists rc sid sv' o', sepol_compute_sid (sample_server false) 2 1 2 AVTAB_TRANSITION [true; false] = Some (Some (rc, sid, sv'), o') /\ server_ok sv' (server_db false) /\
    sids (sv_sidtab (sample_server false)) ⊆ sids (sv_sidtab sv') /\ (rc <> 0 -> sv' = sample_server false) /\
    (rc = 0 -> exists x c, sid = Some x /\ sids (sv_sidtab sv') !! x = Some c /\ new_context (server_db false) subject_b subject_a 2 AVTAB_TRANSITION c /\
       valid_context (h_mls (db_header (server_db false))) (db_symbols (server_db false)) c) /\
    (rc <> 0 -> mem_ok [true; false] -> no_new_sid (sample_server false) (server_db false) subject_b subject_a 2 AVTAB_TRANSITION rc).
Proof.
  apply (compute_sid_spec (sample_server false) (server_db false) 2 1 subject_b subject_a 2 AVTAB_TRANSITION [true; false]).
  - apply sample_server_ok.
  - discriminate.
  - discriminate.
  - exact (sid_b false).
  - exact (sid_a false).
  - discriminate.
  - by left.
Defined.

Lemma context_to_sid_witness :
  exists rc sid sv' o', sepol_context_to_sid (sample_server false) (lit "u:object_r:b:s0") [] = Some (Some (rc, sid, sv'), o') /\ server_ok sv' (server_db false) /\
    sids (sv_sidtab (sample_server false)) ⊆ sids (sv_sidtab sv') /\
    (rc = 0 /\ (exists x c, sid = Some x /\ sids (sv_sidtab sv') !! x = Some c /\ valid_context (h_mls (db_header (server_db false))) (db_symbols (server_db false)) c) \/ rc = -1 /\ sv' = sample_server false).
Proof.
  apply (context_to_sid_spec (sample_server false) (server_db false) (lit "u:object_r:b:s0") []).
  - apply sample_server_ok.
  - vm_compute. repeat (constructor; [split; discriminate || reflexivity|]). constructor.
  - vm_compute. discriminate.
Defined.

(** The names of a table are free of separators. *)
Definition names_free {D} (bad : Z -> bool) (t : symtab D) : bool :=
  match st_table t with
  | Some h => forallb (fun x => forallb (fun c => (0 <? c) && (c <? 256) && negb (bad c)) x.1) (concat (htable h))
  | None => false
  end.

Lemma names_free_ok {D} bad (t : symtab D) : names_free bad t = true -> names_avoid bad t.
Proof.
  unfold names_free, names_avoid, symtab_abs, hashtab_abs. destruct (st_table t) as [h|]; [|done]. intros H k d Hk. cbn in Hk. apply elem_of_list_to_map_2 in Hk.
  rewrite forallb_forall in H. apply list_elem_of_In, H in Hk. cbn in Hk. apply Forall_forall. intros x Hx. rewrite forallb_forall in Hk. apply list_elem_of_In, Hk in Hx.
  apply andb_prop in Hx as [Hx%andb_prop Hb%negb_true_iff]. unfold in_range. split; [lia|done].
Qed.

(** The text of SID 2 is [u:r:b:s0]. *)
Lemma sid_text_roundtrip_witness :
  let text := context_text true (db_indexes (server_db false)) subject_b (lit "u") (lit "r") (lit "b") in
  exists o1 x o2, sepol_sid_to_context (sample_server false) 2 [] = Some (Some (0, Some (text ++ [0], zlength text + 1)), o1) /\
    sepol_context_to_sid (sample_server false) text o1 = Some (Some (0, Some x, sample_server false), o2) /\ sepol_sidtab_search (sv_sidtab (sample_server false)) x = Some subject_b.
Proof.
  assert (Em : h_mls (db_header (server_db false)) = true) by (vm_compute; reflexivity).
  pose proof (sid_text_roundtrip (sample_server false) (server_db false) 2 subject_b (lit "u") (lit "r") (lit "b") []) as H. cbv zeta in H. rewrite Em in H. apply H; clear H.
  - apply sample_server_ok.
  - discriminate.
  - exact (sid_b false).
  - split; [|split; [|split; [|split]]]; apply names_free_ok; vm_compute; reflexivity.
  - split; [split; [split; reflexivity|vm_compute; reflexivity]..|]. intros _.
    split; (split; [split; reflexivity|vm_compute; eexists; reflexivity|concrete|intros b Hb; vm_compute in Hb; discriminate Hb|vm_compute; reflexivity]).
  - split; [vm_compute; reflexivity|]. split; [done|]. intros d Hd.
    assert (E : type_flavor <$> hashtab_search (st_table (p_types (db_symbols (server_db false)))) (lit "b") = Some 0) by (vm_compute; reflexivity).
    rewrite Hd in E. cbn in E. injection E as ->. discriminate.
  - vm_compute. reflexivity.
  - constructor.
Defined.

(** ** Labelled objects *)

Lemma sample_server_sound round : server_sound (sample_server round) (server_db round).
Proof. exact (ok_sound _ _ (sample_server_ok round) (proj2 (server_db_new round))). Qed.

Lemma sample_target : h_target (db_header (server_db false)) = SEPOL_TARGET_SELINUX.
Proof. vm_compute. reflexivity. Qed.

(** The SID and the code of a label. *)
Definition label (r : option (option (Z * option Z * server) * oracle)) : option (Z * option context_struct) :=
  match r with
  | Some (Some (rc, sid, sv), _) => Some (rc, x ← sid; sids (sv_sidtab sv) !! x)
  | _ => None
  end.

Example sample_labels :
  label (sepol_port_sid (sample_server false) 6 84 []) = Some (0, Some (object_of 2)) /\
  label (sepol_genfs_sid (sample_server false) (lit "proc") (lit "/net/tcp") 2 []) = Some (0, Some (object_of 1)) /\
  label (sepol_genfs_sid (sample_server false) (lit "proc") (lit "/stat") 2 []) = Some (0, Some (object_of 2)) /\
  label (sepol_genfs_sid (sample_server false) (lit "proc") (lit "/stat") 2 [false]) = Some (- ENOMEM, None).
Proof. split_and!; vm_compute; reflexivity. Qed.

Lemma port_sid_witness :
  exists rc sid sv' o', sepol_port_sid (sample_server false) 6 84 [] = Some (Some (rc, sid, sv'), o') /\
    first_answer (sample_server false) (server_db false) OCON_PORT
      (fun c => match oc_u c with U_PORT p low high => (p =? 6) && (low <=? 84) && (84 <=? high) | _ => false end) SECINITSID_PORT [] rc sid sv'.
Proof. exact (port_sid_spec (sample_server false) (server_db false) 6 84 [] (sample_server_sound false) sample_target). Defined.

Lemma genfs_sid_witness :
  exists rc sid sv' o' db', sepol_genfs_sid (sample_server false) (lit "proc") (lit "/net/tcp") 2 [] = Some (Some (rc, sid, sv'), o') /\ server_sound sv' db' /\ relabelled (server_db false) db' /\
    sids (sv_sidtab (sample_server false)) ⊆ sids (sv_sidtab sv') /\
    ((exists c, path_entry (server_db false) (lit "proc") (lit "/net/tcp") 2 c /\ answers (sv_sidtab (sample_server false)) (sv_sidtab sv') (oc_context0 c) [] rc sid) \/
     (forall c, ~ path_entry (server_db false) (lit "proc") (lit "/net/tcp") 2 c) /\ rc = - ENOENT /\ sid = Some SECINITSID_UNLABELED /\ sv' = sample_server false).
Proof. apply (genfs_sid_spec (sample_server false) (server_db false) (lit "proc") (lit "/net/tcp") 2 []), sample_server_sound. Defined.

(** ** Sequences of requests *)

Lemma sample_good : server_good (sample_server false) (server_db false).
Proof.
  split; [apply sample_server_sound|apply server_db_usable|exact sample_target|]. intros v Hv.
  assert (E : st_nprim (p_types (db_symbols (server_db false))) = 2) by (vm_compute; reflexivity). rewrite E in Hv.
  assert (v = 1 \/ v = 2) as [->| ->] by lia; [|exists 1%nat; exact sample_chain]. exists 0%nat. constructor. vm_compute. reflexivity.
Qed.

Definition sample_requests : list request := [Access 2 1 1 15; Port 6 84; NewObject 2 1 2 AVTAB_TRANSITION; Path (lit "proc") (lit "/net") 2; Port 6 84; Validate 1 2 3 1].

(** Requests that end with the text without a context. *)
Definition none_requests : list request := sample_requests ++ [Text str_none].

Lemma sample_requests_ok : Forall request_ok sample_requests.
Proof. repeat constructor; discriminate || (by left). Qed.

Lemma none_requests_ok : Forall request_ok none_requests.
Proof. apply Forall_app. split; [exact sample_requests_ok|]. repeat constructor; vm_compute; (reflexivity || discriminate). Qed.

Lemma server_run_witness :
  match serve_all none_requests (sample_server false) [] with
  | None => ~ mem_ok [] /\ Exists (fun r => evaluates r = true) none_requests \/ Exists no_context none_requests
  | Some (None, _) => False
  | Some (Some sv', _) => exists db', server_good sv' db' /\ relabelled (server_db false) db' /\ sids (sv_sidtab (sample_server false)) ⊆ sids (sv_sidtab sv')
  end.
Proof. apply (server_run (sample_server false) (server_db false) none_requests []); [exact sample_good|exact none_requests_ok]. Defined.

Lemma server_answers_witness :
  (exists sv' o', serve_all sample_requests (sample_server false) [] = Some (Some sv', o') /\ mem_ok o' /\ exists db', server_good sv' db' /\ relabelled (server_db false) db') /\
  serve_all none_requests (sample_server false) [] = None.
Proof.
  split.
  - apply (server_answers (sample_server false) (server_db false) sample_requests []); [exact sample_good|exact sample_requests_ok|constructor|].
    intros H. unfold sample_requests in H. repeat (apply Exists_cons in H as [[]|H]). by apply Exists_nil in H.
  - apply (server_answers (sample_server false) (server_db false) none_requests []); [exact sample_good|exact none_requests_ok|constructor|].
    apply Exists_app. right. apply Exists_cons. left. vm_compute. reflexivity.
Defined.

Example requests_answered : (fun r => bool_decide (is_Some (r ≫= fst))) (serve_all sample_requests (sample_server false) []) = true.
Proof. vm_compute. reflexivity. Qed.

(** ** A policy loaded while the server runs *)

Lemma subject_nameable c r t :
  c = mk_context 1 r t low -> (r = 2 /\ t = 1 \/ r = 2 /\ t = 2 \/ r = 3 /\ t = 1) -> nameable (server_db false) c.
Proof.
  intros -> H. exists (lit "u"), (if r =? 2 then lit "r" else lit "q"), (if t =? 1 then lit "a" else lit "b").
  destruct H as [[-> ->]|[[-> ->]|[-> ->]]]; (split; [|vm_compute; reflexivity]);
  (split; [split; [split; reflexivity|vm_compute; reflexivity]..|]); intros _;
  (split; (split; [split; reflexivity|vm_compute; eexists; reflexivity|concrete|intros b Hb; vm_compute in Hb; discriminate Hb|vm_compute; reflexivity])).
Qed.

Lemma sample_nameable : map_Forall (fun _ => nameable (server_db false)) (sids (sv_sidtab (sample_server false))).
Proof.
  assert (E : map_to_list (sids (sv_sidtab (sample_server false))) = [(3, subject_q); (2, subject_b); (1, subject_a)]) by (vm_compute; reflexivity).
  apply map_Forall_to_list. rewrite E. repeat constructor; (eapply subject_nameable; [reflexivity|lia]).
Qed.

Lemma start_init : exists scopes, policydb_init 0 [] = (0, Some (start_db, scopes), []).
Proof.
  assert (H : match policydb_init 0 [] with (0, Some _, []) => true | _ => false end = true) by (vm_compute; reflexivity). unfold start_db.
  destruct (policydb_init 0 []) as [[[|?|?] [[db scopes]|]] [|??]]; try discriminate H. by exists scopes.
Qed.

(** The code, the SIDs and whether there is a policy. *)
Definition loaded (r : option (option (Z * server) * oracle)) : option (Z * list (Z * context_struct) * bool) :=
  match r with
  | Some (Some (rc, sv), _) => Some (rc, map_to_list (sids (sv_sidtab sv)), bool_decide (is_Some (sv_db sv)))
  | _ => None
  end.

Example load_keeps_sids :
  loaded (sepol_load_policy true 0 (sample_server false) (image_of true) []) = Some (0, [(3, subject_q); (2, subject_b); (1, subject_a)], true).
Proof. vm_compute. reflexivity. Qed.

Lemma loaded_answer r rc l b : loaded r = Some (rc, l, b) -> exists sv o, r = Some (Some (rc, sv), o).
Proof. destruct r as [[[[rc' sv]|] o]|]; cbn; intros H; try discriminate H. exists sv, o. congruence. Qed.

(** The policy whose bounds go round replaces the other. *)
Lemma load_policy_witness :
  exists sv' o', sepol_load_policy true 0 (sample_server false) (image_of true) [] = Some (Some (0, sv'), o') /\
    sv_db sv' = Some (server_db true) /\ server_sound sv' (server_db true) /\
    (forall sid c', sids (sv_sidtab sv') !! sid = Some c' <-> exists c, sids (sv_sidtab (sample_server false)) !! sid = Some c /\ converts (server_db false) (server_db true) c c').
Proof.
  destruct start_init as [scopes Ei]. destruct (server_db_read true) as (fp & o & Er). destruct (loaded_answer _ _ _ _ load_keeps_sids) as (sv' & o' & E).
  pose proof (load_policy_spec true 0 (sample_server false) (server_db false) (server_db true) (image_of true) [] start_db scopes [] fp o
    (sample_server_sound false) sample_nameable (proj1 start_db_ok) (image_range true) Ei Er) as H.
  rewrite E in H. destruct H as [(H & _)|[(H & _)|(_ & _ & Edb & H1 & H2)]]; [discriminate H..|]. destruct (H2 (read_mem true fp o Er)) as [Hs H3].
  exists sv', o'. split; [exact E|]. split; [exact Edb|]. split; [exact Hs|]. intros sid c'. split; [apply H1|]. intros (c & Hc & Hcv). exact (H3 sid c c' Hc Hcv).
Defined.

(** loading bytes that are no policy: [sepol_load_policy] reports -EINVAL and
    frees [mypolicydb], the policy in force, instead of the new one. *)
Theorem failed_load_frees_policy : loaded (sepol_load_policy true 0 (sample_server false) [1; 2; 3] []) = Some (- EINVAL, [(3, subject_q); (2, subject_b); (1, subject_a)], false).
Proof. vm_compute. reflexivity. Qed.

(** when the SIDs cannot be copied, [sepol_load_policy] reports -ENOMEM, keeps
    the policy, but leaves the SID table shut down: a text that had a SID
    before the attempt can still be looked up, one that had none gets none any
    more, however much memory there is. *)
Theorem failed_clone_shuts_sidtab :
  exists sv' o', sepol_load_policy true 0 (sample_server false) (image_of true) (replicate 195 true ++ [false]) = Some (Some (- ENOMEM, sv'), o') /\
    label (sepol_context_to_sid (sample_server false) (lit "u:object_r:b:s0") []) = Some (0, Some (object_of 2)) /\
    label (sepol_context_to_sid sv' (lit "u:object_r:b:s0") []) = Some (-1, None).
Proof.
  assert (H : match sepol_load_policy true 0 (sample_server false) (image_of true) (replicate 195 true ++ [false]) with
              | Some (Some (rc, sv'), _) => rc = - ENOMEM /\ label (sepol_context_to_sid sv' (lit "u:object_r:b:s0") []) = Some (-1, None)
              | _ => False
              end) by (vm_compute; split; reflexivity).
  destruct (sepol_load_policy _ _ _ _ _) as [[[[rc sv']|] o']|]; [|destruct H..]. destruct H as [-> H]. exists sv', o'. split_and!; [reflexivity|vm_compute; reflexivity|exact H].
Qed.

(** ** Validation *)

Definition sample_scopes : list (table scope_datum) := match policydb_init 0 [] with (_, Some (_, scopes), _) => scopes | _ => [] end.

Lemma sample_scope_tables : scope_tables sample_scopes.
Proof. destruct start_init as [scopes E]. unfold sample_scopes. rewrite E. apply (init_scopes 0 [] start_db scopes []); [constructor|exact E]. Qed.

Lemma server_db_validated round : validated_policy (server_db round).
Proof.
  pose proof (server_db_sound round) as Hd. split; [exact Hd|]. split; [destruct round; by vm_compute|]. split; [destruct round; by vm_compute|]. split; [destruct round; vm_compute; reflexivity|].
  assert (E : db_filename_trans (server_db round) = mk_filename_trans (Some (fresh_table (Z.shiftl 1 10))) 0) by (destruct round; vm_compute; reflexivity).
  rewrite E. destruct (fresh_table_ok (K := filename_trans_key) (D := ft_chain) (Z.shiftl 1 10)) as [Hok Habs]; [split; reflexivity|]. exists (fresh_table (Z.shiftl 1 10)). split_and!; [reflexivity|exact Hok|]. rewrite Habs. apply map_Forall_empty.
Qed.

Lemma server_db_accepted round : policydb_validate sample_scopes [1] (server_db round) [] = Some (Some true, []).
Proof. destruct round; vm_compute; reflexivity. Qed.


Definition filled {A} (l : list (option A)) : bool := forallb (fun x => match x with Some _ => true | None => false end) l.

Lemma filled_some {A} (l : list (option A)) : filled l = true -> Forall is_Some l.
Proof. intros H. apply Forall_forall. intros x Hx%list_elem_of_In. unfold filled in H. rewrite forallb_forall in H. specialize (H x Hx). by destruct x. Qed.


(** bounds that go round are accepted, and the recursion over them does not
    end. *)
Theorem cyclic_bounds_accepted :
  policydb_validate sample_scopes [1] (server_db true) [] = Some (Some true, []) /\ bounds_of (server_db true) 1 = 2 /\ bounds_of (server_db true) 2 = 1.
Proof. split; [exact (server_db_accepted true)|exact round_bounds]. Qed.
