(* ===== verification/XzCrc32.v ===== *)
(** * XzCrc32: the CRC32 of xz-embedded

    external/xz-embedded/xz_crc32.c.  The table-driven loop computes the
    bit-serial CRC; it can be fed piecewise; and it detects every burst of up
    to 32 wrong bits. *)
From Stdlib Require Import ZArith Lia Bool.
From stdpp Require Import base list list_numbers.
From S2P Require Import Prelude PolicyFile.

(** ** Operations *)

Definition crc_poly : Z := 0xEDB88320.

(** [r = (r >> 1) ^ (poly & ~((r & 1) - 1))]. *)
Definition crc_round (r : Z) : Z :=
  Z.lxor (Z.shiftr r 1) (Z.land crc_poly (lnot_w 32 (u32 (Z.land r 1 - 1)))).

Definition crc_entry (i : Z) : Z := Nat.iter 8 crc_round i.

(** The table [xz_crc32_init] fills. *)
Definition xz_crc32_init : list Z := map (fun i => crc_entry (Z.of_nat i)) (seq 0 256).

Definition xz_crc32_table : list Z := Eval vm_compute in xz_crc32_init.

Fixpoint crc_loop (buf : list Z) (crc : Z) : Z :=
  match buf with
  | [] => crc
  | byte :: buf' =>
      crc_loop buf' (Z.lxor (nth (Z.to_nat (Z.lxor byte (Z.land crc 0xFF))) xz_crc32_table 0) (Z.shiftr crc 8))
  end.

(** [xz_crc32(buf, size, crc)] with [buf] the [size] bytes. *)
Definition xz_crc32 (buf : list Z) (crc : Z) : Z := lnot_w 32 (crc_loop buf (lnot_w 32 crc)).

(** ** The bit-serial CRC *)

(** Division by the polynomial, one bit. *)
Definition crc_step (r : Z) : Z := Z.lxor (Z.shiftr r 1) (if Z.odd r then crc_poly else 0).

Abbreviation crc_steps n := (Nat.iter n crc_step).

Fixpoint crc_serial (buf : list Z) (crc : Z) : Z :=
  match buf with
  | [] => crc
  | byte :: buf' => crc_serial buf' (crc_steps 8 (Z.lxor crc byte))
  end.

Lemma crc_round_step r : 0 <= r -> crc_round r = crc_step r.
Proof.
  intros Hr. unfold crc_round, crc_step. f_equal.
  assert (Z.land r 1 = if Z.odd r then 1 else 0) as ->.
  { change 1 with (2 ^ 1 - 1) at 1. rewrite land_ones_eq_mod by lia. change (2 ^ 1) with 2.
    rewrite Zmod_odd. done. }
  by destruct (Z.odd r).
Qed.

Lemma crc_step_nonneg r : 0 <= r -> 0 <= crc_step r.
Proof.
  intros. unfold crc_step. apply Z.lxor_nonneg. pose proof (proj2 (Z.shiftr_nonneg r 1) H).
  split; [|done]. intros _. by case_match.
Qed.

Lemma crc_steps_nonneg n r : 0 <= r -> 0 <= crc_steps n r.
Proof. intros. induction n; [done|]. by apply crc_step_nonneg. Qed.

Lemma crc_step_range r : in_range 32 r -> in_range 32 (crc_step r).
Proof.
  intros. unfold crc_step. apply lxor_range; [done|by apply shiftr_range|]. by case_match.
Qed.

(** The CRC is linear. *)
Lemma crc_step_lxor a b : crc_step (Z.lxor a b) = Z.lxor (crc_step a) (crc_step b).
Proof.
  unfold crc_step. rewrite Z.shiftr_lxor.
  assert (Z.odd (Z.lxor a b) = xorb (Z.odd a) (Z.odd b)) as -> by (rewrite <- !Z.bit0_odd; apply Z.lxor_spec).
  set (x := Z.shiftr a 1). set (y := Z.shiftr b 1).
  apply Z.bits_inj'. intros i Hi. rewrite !Z.lxor_spec.
  destruct (Z.odd a), (Z.odd b); simpl; rewrite ?Z.bits_0;
    destruct (Z.testbit x i), (Z.testbit y i), (Z.testbit crc_poly i); done.
Qed.

Lemma crc_steps_lxor n a b : crc_steps n (Z.lxor a b) = Z.lxor (crc_steps n a) (crc_steps n b).
Proof. induction n as [|n IH]; [done|]. simpl. by rewrite IH, crc_step_lxor. Qed.

Lemma crc_step_even y : crc_step (2 * y) = y.
Proof.
  unfold crc_step. rewrite Z.odd_mul. simpl. rewrite Z.lxor_0_r, Z.shiftr_div_pow2 by lia.
  change (2 ^ 1) with 2. rewrite Z.mul_comm. by apply Z.div_mul.
Qed.

Lemma crc_steps_shift n y : crc_steps n (y * 2 ^ Z.of_nat n) = y.
Proof.
  revert y. induction n as [|n IH]; intros y; [simpl; lia|].
  rewrite Nat.iter_succ_r. replace (y * 2 ^ Z.of_nat (S n)) with (2 * (y * 2 ^ Z.of_nat n)).
  - by rewrite crc_step_even.
  - rewrite Nat2Z.inj_succ, Z.pow_succ_r by lia. lia.
Qed.

Lemma crc_steps_add n m r : crc_steps (n + m) r = crc_steps n (crc_steps m r).
Proof. apply Nat.iter_add. Qed.

Lemma lxor_low_high lo hi : in_range 8 lo -> 0 <= hi -> lo + 256 * hi = Z.lxor lo (256 * hi).
Proof.
  intros Hlo Hhi. apply Z.add_nocarry_lxor. apply Z.bits_inj'. intros i Hi. rewrite Z.land_spec, Z.bits_0.
  destruct (Z.lt_ge_cases i 8) as [Hlt|Hge].
  - replace (256 * hi) with (hi * 2 ^ 8) by lia. rewrite Z.mul_pow2_bits_low by lia. apply andb_false_r.
  - rewrite (testbit_high 8 lo i Hlo) by lia. done.
Qed.

(** A byte of the table. *)
Lemma table_entry x : in_range 8 x -> nth (Z.to_nat x) xz_crc32_table 0 = crc_steps 8 x.
Proof.
  intros Hx. apply Z.eqb_eq.
  apply (forall_bits_spec 8 (fun x => nth (Z.to_nat x) xz_crc32_table 0 =? crc_steps 8 x)).
  - vm_compute. reflexivity.
  - exact Hx.
Qed.

Lemma byte_split c : 0 <= c -> c = Z.lxor (Z.land c 0xFF) (256 * Z.shiftr c 8) /\ in_range 8 (Z.land c 0xFF).
Proof.
  intros Hc. change 0xFF with (2 ^ 8 - 1). rewrite land_ones_eq_mod by lia. change (2 ^ 8) with 256.
  assert (in_range 8 (c mod 256)) by exact (wrap_range 8 c ltac:(lia)). split; [|done].
  rewrite <- lxor_low_high; [|done|by apply Z.shiftr_nonneg].
  rewrite Z.shiftr_div_pow2 by lia. change (2 ^ 8) with 256. pose proof (Z.div_mod c 256). lia.
Qed.

Lemma crc_loop_serial buf crc :
  bytes_ok buf -> 0 <= crc -> crc_loop buf crc = crc_serial buf crc.
Proof.
  intros Hb. revert crc. induction Hb as [|byte buf Hby Hb IH]; intros crc Hc; [done|]. cbn [crc_loop crc_serial].
  destruct (byte_split crc Hc) as [Hs Hlo]. pose proof (proj2 (Z.shiftr_nonneg crc 8) Hc) as Hhi.
  assert (Hx : in_range 8 (Z.lxor byte (Z.land crc 0xFF))) by (by apply lxor_range).
  rewrite table_entry by done.
  assert (Z.lxor (crc_steps 8 (Z.lxor byte (Z.land crc 0xFF))) (Z.shiftr crc 8) = crc_steps 8 (Z.lxor crc byte)) as ->.
  { rewrite Hs at 3. rewrite (Z.lxor_comm _ byte), <- Z.lxor_assoc,
      (crc_steps_lxor 8 (Z.lxor byte (Z.land crc 0xFF)) (256 * Z.shiftr crc 8)).
    f_equal. rewrite (Z.mul_comm 256). symmetry. exact (crc_steps_shift 8 (Z.shiftr crc 8)). }
  apply IH. apply crc_steps_nonneg. apply Z.lxor_nonneg. unfold in_range in Hby. lia.
Qed.

(** the table-driven [xz_crc32] is the bit-serial CRC with the reversed
    IEEE 802.3 polynomial. *)
Theorem xz_crc32_bitserial buf crc :
  bytes_ok buf -> in_range 32 crc ->
  xz_crc32 buf crc = lnot_w 32 (crc_serial buf (lnot_w 32 crc)).
Proof.
  intros Hb Hc. unfold xz_crc32. f_equal. apply crc_loop_serial; [done|].
  apply (lnot_w_range 32 crc); [lia|done].
Qed.

Lemma crc_serial_app buf1 buf2 crc : crc_serial (buf1 ++ buf2) crc = crc_serial buf2 (crc_serial buf1 crc).
Proof. revert crc. induction buf1; intros crc; simpl; auto. Qed.

Lemma crc_loop_app buf1 buf2 crc : crc_loop (buf1 ++ buf2) crc = crc_loop buf2 (crc_loop buf1 crc).
Proof. revert crc. induction buf1; intros crc; [done|]. cbn [app crc_loop]. auto. Qed.

Lemma crc_serial_range buf crc : bytes_ok buf -> in_range 32 crc -> in_range 32 (crc_serial buf crc).
Proof.
  intros Hb. revert crc. induction Hb as [|b buf Hby _ IH]; intros crc Hc; [done|]. apply IH.
  assert (in_range 32 (Z.lxor crc b)) by (apply lxor_range; [done|done|unfold in_range in *; lia]).
  revert H. generalize (Z.lxor crc b). intros x Hx. simpl. by do 8 apply crc_step_range.
Qed.

Lemma lnot_w_invol w x : lnot_w w (lnot_w w x) = x.
Proof. unfold lnot_w. by rewrite Z.lxor_assoc, Z.lxor_nilpotent, Z.lxor_0_r. Qed.

Lemma xz_crc32_range buf crc : bytes_ok buf -> in_range 32 crc -> in_range 32 (xz_crc32 buf crc).
Proof.
  intros Hb Hc. pose proof (lnot_w_range 32 crc ltac:(lia) Hc). unfold xz_crc32. apply lnot_w_range; [lia|].
  rewrite crc_loop_serial; [by apply crc_serial_range|done|]. unfold in_range in *. lia.
Qed.

(** Feeding a buffer in two pieces, the second call starting from the result
    of the first, gives the CRC of the whole. *)
Lemma xz_crc32_app buf1 buf2 crc : xz_crc32 (buf1 ++ buf2) crc = xz_crc32 buf2 (xz_crc32 buf1 crc).
Proof. unfold xz_crc32. by rewrite lnot_w_invol, crc_loop_app. Qed.

(** ** Error detection *)

(** The whole buffer enters as one number. *)
Lemma crc_serial_number buf crc :
  bytes_ok buf -> 0 <= crc ->
  crc_serial buf crc = crc_steps (8 * length buf) (Z.lxor crc (le_combine buf)).
Proof.
  intros Hb. revert crc. induction Hb as [|b buf Hby Hb IH]; intros crc Hc.
  { simpl. by rewrite Z.lxor_0_r. }
  assert (0 <= le_combine buf) by (destruct (le_combine_range buf Hb); lia).
  cbn [crc_serial le_combine length]. rewrite IH.
  2:{ apply crc_steps_nonneg. apply Z.lxor_nonneg. unfold in_range in Hby. lia. }
  replace (8 * S (length buf))%nat with (8 * length buf + 8)%nat by lia. rewrite crc_steps_add. f_equal.
  change (le_combine (b :: buf)) with (b + 256 * le_combine buf).
  rewrite lxor_low_high by done. rewrite <- Z.lxor_assoc, (crc_steps_lxor 8 (Z.lxor crc b)). f_equal.
  rewrite (Z.mul_comm 256). symmetry. exact (crc_steps_shift 8 (le_combine buf)).
Qed.

Lemma crc_step_zero r : in_range 32 r -> crc_step r = 0 -> r = 0.
Proof.
  unfold in_range, crc_step. intros Hr H. apply Z.lxor_eq in H. rewrite Z.shiftr_div_pow2 in H by lia.
  change (2 ^ 1) with 2 in H. pose proof (Z.div_mod r 2 ltac:(lia)) as Hd. rewrite Zmod_odd in Hd.
  assert (r / 2 < 2 ^ 31) by (apply Z.div_lt_upper_bound; lia).
  destruct (Z.odd r); [unfold crc_poly in H; lia|lia].
Qed.

Lemma crc_steps_zero n r : in_range 32 r -> crc_steps n r = 0 -> r = 0.
Proof.
  revert r. induction n as [|n IH]; intros r Hr H; [done|]. rewrite Nat.iter_succ_r in H.
  apply crc_step_zero; [done|]. apply IH; [by apply crc_step_range|done].
Qed.

(** C40: two buffers of the same length that differ in a burst of at most 32
    bits, at any bit position, have different CRCs. *)
Theorem xz_crc32_burst buf1 buf2 crc j burst :
  bytes_ok buf1 -> bytes_ok buf2 -> in_range 32 crc -> length buf1 = length buf2 ->
  0 <= j -> 0 < burst < 2 ^ 32 ->
  Z.lxor (le_combine buf1) (le_combine buf2) = burst * 2 ^ j ->
  xz_crc32 buf1 crc <> xz_crc32 buf2 crc.
Proof.
  intros Hb1 Hb2 Hc Hlen Hj Hbu Hd Heq.
  pose proof (lnot_w_range 32 crc ltac:(lia) Hc) as Hn. unfold xz_crc32 in Heq.
  apply (f_equal (lnot_w 32)) in Heq. rewrite !lnot_w_invol in Heq. unfold in_range in Hn.
  rewrite !crc_loop_serial, !crc_serial_number in Heq by (done || lia).
  apply Z.lxor_eq_0_iff in Heq. rewrite Hlen, <- crc_steps_lxor in Heq.
  assert (Z.lxor (Z.lxor (lnot_w 32 crc) (le_combine buf1)) (Z.lxor (lnot_w 32 crc) (le_combine buf2)) = burst * 2 ^ j) as Hx.
  { rewrite <- Hd. apply Z.bits_inj'. intros i Hi. rewrite !Z.lxor_spec.
    destruct (Z.testbit (lnot_w 32 crc) i), (Z.testbit (le_combine buf1) i), (Z.testbit (le_combine buf2) i); done. }
  rewrite Hx in Heq.
  assert (Hj8 : j < 8 * Z.of_nat (length buf2)).
  { destruct (Z.lt_ge_cases j (8 * Z.of_nat (length buf2))) as [|Hge]; [done|exfalso].
    pose proof (le_combine_range _ Hb1) as H1. pose proof (le_combine_range _ Hb2) as H2. rewrite Hlen in H1.
    pose proof (lxor_range (8 * Z.of_nat (length buf2)) _ _ ltac:(lia) H1 H2) as H3. rewrite Hd in H3. unfold in_range in H3.
    assert (2 ^ (8 * Z.of_nat (length buf2)) <= 2 ^ j) by (apply Z.pow_le_mono_r; lia). nia. }
  replace (8 * length buf2)%nat with ((8 * length buf2 - Z.to_nat j) + Z.to_nat j)%nat in Heq by lia.
  rewrite crc_steps_add in Heq. replace (2 ^ j) with (2 ^ Z.of_nat (Z.to_nat j)) in Heq by (by rewrite Z2Nat.id by lia).
  rewrite crc_steps_shift in Heq. apply crc_steps_zero in Heq; unfold in_range; lia.
Qed.

(** The check value of the CRC: the bytes of "123456789". *)
Example xz_crc32_check : xz_crc32 [49; 50; 51; 52; 53; 54; 55; 56; 57] 0 = 0xCBF43926.
Proof. vm_compute. reflexivity. Qed.

Example xz_crc32_table_init : xz_crc32_table = xz_crc32_init.
Proof. vm_compute. reflexivity. Qed.

(** ** Instances *)

Lemma xz_crc32_bitserial_witness : xz_crc32 [1; 2; 3] 77 = lnot_w 32 (crc_serial [1; 2; 3] (lnot_w 32 77)).
Proof. apply xz_crc32_bitserial; concrete. Defined.

Lemma xz_crc32_burst_witness : xz_crc32 [1; 2; 3; 4; 5; 6] 0 <> xz_crc32 [1; 18; 227; 4; 5; 6] 0.
Proof. apply (xz_crc32_burst [1; 2; 3; 4; 5; 6] [1; 18; 227; 4; 5; 6] 0 12 0xE01); concrete. Defined.
