(* ===== verification/XzDict.v ===== *)
(** * XzDict: the LZMA dictionary of xz-embedded

    The "Dictionary" section of external/xz-embedded/xz_dec_lzma2.c, in the
    multi-call modes ([DEC_IS_MULTI]; the one caller in the tree,
    init/rootdir.cpp, uses XZ_DYNALLOC).  The ring buffer is related to the
    list of all bytes decoded since the last reset ([dict_inv]): the dictionary
    operations never leave the buffer, and a match is the LZ77 copy of that
    history. *)
From Stdlib Require Import ZArith Lia Bool.
From stdpp Require Import base list list_numbers.
From S2P Require Import Prelude PolicyFile Mem.

(** ** Data *)

(** [enum xz_mode] without XZ_SINGLE. *)
Inductive xz_mode := XZ_PREALLOC | XZ_DYNALLOC.

Record dictionary := mk_dict {
  d_buf : list Z;
  d_start : Z;
  d_pos : Z;
  d_full : Z;
  d_limit : Z;
  d_end : Z;
  d_size : Z;
  d_size_max : Z;
  d_allocated : Z;
  d_mode : xz_mode
}.

Record xz_buf := mk_xz_buf {
  b_in : list Z;
  in_pos : Z;
  in_size : Z;
  b_out : list Z;
  out_pos : Z;
  out_size : Z
}.

Definition set_dict_pos (d : dictionary) (buf : list Z) (start pos full : Z) : dictionary :=
  mk_dict buf start pos full (d_limit d) (d_end d) (d_size d) (d_size_max d) (d_allocated d) (d_mode d).

Definition set_limit (d : dictionary) (limit : Z) : dictionary :=
  mk_dict (d_buf d) (d_start d) (d_pos d) (d_full d) limit (d_end d) (d_size d) (d_size_max d)
    (d_allocated d) (d_mode d).

Definition set_in_pos (b : xz_buf) (p : Z) : xz_buf :=
  mk_xz_buf (b_in b) p (in_size b) (b_out b) (out_pos b) (out_size b).

Definition set_out (b : xz_buf) (out : list Z) (p : Z) : xz_buf :=
  mk_xz_buf (b_in b) (in_pos b) (in_size b) out p (out_size b).

(** ** Operations *)

Definition dict_reset (d : dictionary) : dictionary := set_limit (set_dict_pos d (d_buf d) 0 0 0) 0.

Definition dict_limit (d : dictionary) (out_max : Z) : dictionary :=
  if d_end d - d_pos d <=? out_max then set_limit d (d_end d) else set_limit d (d_pos d + out_max).

Definition dict_has_space (d : dictionary) : bool := d_pos d <? d_limit d.

(** [dict->pos - dist - 1], and the wrap of the ring. *)
Definition dict_offset (d : dictionary) (dist : Z) : Z :=
  let offset := u64 (d_pos d - dist - 1) in
  if d_pos d <=? dist then u64 (offset + d_end d) else offset.

Definition dict_get (d : dictionary) (dist : Z) : option Z :=
  if 0 <? d_full d then rd (d_buf d) (dict_offset d dist) else Some 0.

Definition dict_put (d : dictionary) (byte : Z) : option dictionary :=
  match wr (d_buf d) (d_pos d) byte with
  | None => None
  | Some buf =>
      let pos := d_pos d + 1 in
      Some (set_dict_pos d buf (d_start d) pos (if d_full d <? pos then pos else d_full d))
  end.

(** The body of the [do ... while (--left > 0)] loop, [n] times. *)
Fixpoint repeat_loop (n : nat) (e : Z) (buf : list Z) (pos back : Z) : option (list Z * Z) :=
  match n with
  | O => Some (buf, pos)
  | S n' =>
      match rd buf back with
      | None => None
      | Some v =>
          match wr buf pos v with
          | None => None
          | Some buf => repeat_loop n' e buf (pos + 1) (if back + 1 =? e then 0 else back + 1)
          end
      end
  end.

(** (result, dictionary, [*len]).  With [left = 0] the test [--left > 0] would
    hold for the next 2^32 - 1 rounds. *)
Definition dict_repeat (d : dictionary) (len dist : Z) : option (bool * dictionary * Z) :=
  if (d_full d <=? dist) || (d_size d <=? dist) then Some (false, d, len) else
  let left := u32 (Z.min (d_limit d - d_pos d) len) in
  let len := len - left in
  let rounds := if left =? 0 then 2 ^ 32 else left in
  match repeat_loop (Z.to_nat rounds) (d_end d) (d_buf d) (d_pos d) (dict_offset d dist) with
  | None => None
  | Some (buf, pos) =>
      Some (true, set_dict_pos d buf (d_start d) pos (if d_full d <? pos then pos else d_full d), len)
  end.

(** [dict_uncompressed]: [fuel] bounds the rounds of its loop. *)
Fixpoint dict_uncompressed_loop (fuel : nat) (d : dictionary) (b : xz_buf) (left : Z) :
    option (dictionary * xz_buf * Z) :=
  if (0 <? left) && (in_pos b <? in_size b) && (out_pos b <? out_size b) then
    match fuel with
    | O => None
    | S fuel =>
        let copy_size := Z.min (in_size b - in_pos b) (out_size b - out_pos b) in
        let copy_size := if d_end d - d_pos d <? copy_size then d_end d - d_pos d else copy_size in
        let copy_size := if left <? copy_size then left else copy_size in
        match memcpy (d_buf d) (d_pos d) (b_in b) (in_pos b) copy_size with
        | None => None
        | Some buf =>
            let pos := d_pos d + copy_size in
            let full := if d_full d <? pos then pos else d_full d in
            let pos := if pos =? d_end d then 0 else pos in
            match memcpy (b_out b) (out_pos b) (b_in b) (in_pos b) copy_size with
            | None => None
            | Some out =>
                dict_uncompressed_loop fuel (set_dict_pos d buf pos pos full)
                  (set_in_pos (set_out b out (out_pos b + copy_size)) (in_pos b + copy_size))
                  (left - copy_size)
            end
        end
    end
  else Some (d, b, left).

Definition dict_uncompressed (d : dictionary) (b : xz_buf) (left : Z) : option (dictionary * xz_buf * Z) :=
  dict_uncompressed_loop (Z.to_nat left) d b left.

Definition dict_flush (d : dictionary) (b : xz_buf) : option (dictionary * xz_buf * Z) :=
  let copy_size := d_pos d - d_start d in
  let pos := if d_pos d =? d_end d then 0 else d_pos d in
  match memcpy (b_out b) (out_pos b) (d_buf d) (d_start d) copy_size with
  | None => None
  | Some out =>
      Some (set_dict_pos d (d_buf d) pos pos (d_full d), set_out b out (out_pos b + copy_size), copy_size)
  end.

(** ** The history behind the ring

    [r] lists the bytes decoded since the last reset, the latest first. *)

(** Where the byte decoded [k] bytes before the latest one is. *)
Definition ring (e pos k : Z) : Z := if pos <=? k then pos - k - 1 + e else pos - k - 1.

Definition holds (buf : list Z) (e pos full : Z) (r : list Z) : Prop :=
  0 <= pos <= full /\ full <= e /\ e <= zlength buf /\ (full = pos \/ full = e) /\
  full = Z.min (zlength r) e /\
  forall k, 0 <= k < full -> rd buf (ring e pos k) = rd r k.

Definition dict_inv (d : dictionary) (r : list Z) : Prop :=
  holds (d_buf d) (d_end d) (d_pos d) (d_full d) r /\
  0 <= d_start d <= d_pos d /\ 0 < d_end d < 2 ^ 32 /\ d_size d = d_end d /\ 0 <= d_limit d <= d_end d /\
  bytes_ok (d_buf d) /\ bytes_ok r.

(** The LZ77 copy: [n] times the byte [dist] back. *)
Fixpoint lz_copy (n : nat) (dist : Z) (r : list Z) : list Z :=
  match n with
  | O => r
  | S n' => lz_copy n' dist (default 0 (rd r dist) :: r)
  end.

Definition buf_ok (b : xz_buf) : Prop :=
  0 <= in_pos b <= in_size b /\ in_size b = zlength (b_in b) /\ bytes_ok (b_in b) /\
  0 <= out_pos b <= out_size b /\ out_size b = zlength (b_out b) /\ bytes_ok (b_out b).

Lemma rd_cons x r k : 0 <= k -> rd (x :: r) k = if k =? 0 then Some x else rd r (k - 1).
Proof.
  intros Hk. unfold rd. replace (0 <=? k) with true by lia. destruct (Z.eqb_spec k 0) as [->|]; [done|].
  replace (0 <=? k - 1) with true by lia. by replace (Z.to_nat k) with (S (Z.to_nat (k - 1))) by lia.
Qed.

(** Writing the next byte. *)
Lemma holds_put buf e pos full r v buf' :
  holds buf e pos full r -> pos < e -> wr buf pos v = Some buf' ->
  holds buf' e (pos + 1) (Z.max full (pos + 1)) (v :: r).
Proof.
  intros (Hp & He & Hb & Hf & Hl & Hk) Hlt Hw. rewrite <- (wr_length _ _ _ _ Hw) in Hb.
  unfold holds. rewrite zlength_cons. split_and!; try lia. intros k Hkk. rewrite (rd_wr _ _ _ _ _ Hw).
  rewrite rd_cons by lia. unfold ring. destruct (Z.eqb_spec k 0) as [->|Hne].
  - replace (pos + 1 <=? 0) with false by lia. by replace (pos + 1 - 0 - 1 =? pos) with true by lia.
  - rewrite <- Hk by lia. unfold ring. destruct (Z.leb_spec (pos + 1) k).
    + replace (pos <=? k - 1) with true by lia. replace (pos + 1 - k - 1 + e =? pos) with false by lia. f_equal. lia.
    + replace (pos <=? k - 1) with false by lia. replace (pos + 1 - k - 1 =? pos) with false by lia. f_equal. lia.
Qed.

(** Back to the start of the buffer. *)
Lemma holds_wrap buf e pos full r :
  holds buf e pos full r -> holds buf e (if pos =? e then 0 else pos) full r.
Proof.
  intros (Hp & He & Hb & Hf & Hl & Hk). destruct (Z.eqb_spec pos e) as [->|]; [|done].
  unfold holds. split_and!; try lia. intros k Hkk. rewrite <- Hk by lia. unfold ring.
  replace (0 <=? k) with true by lia. replace (e <=? k) with false by lia. f_equal. lia.
Qed.

Lemma ring_range e pos full r buf k :
  holds buf e pos full r -> 0 <= k < full -> 0 <= ring e pos k < zlength buf.
Proof. intros (Hp & He & Hb & Hf & Hl & Hk) Hkk. unfold ring. case_match; lia. Qed.

Lemma dict_offset_ring d r dist :
  dict_inv d r -> 0 <= dist < d_full d -> dict_offset d dist = ring (d_end d) (d_pos d) dist.
Proof.
  intros ((Hp & He & Hb & Hf & _) & _ & Hend & _) Hd. unfold dict_offset, ring.
  destruct (Z.leb_spec (d_pos d) dist).
  - unfold wrap. rewrite Z.add_mod_idemp_l by lia. apply Z.mod_small. lia.
  - apply wrap_small. unfold in_range. lia.
Qed.

(** [dict_get] returns the byte decoded [dist] bytes before the latest
    one, and 0 when nothing has been decoded yet; it stays inside the buffer. *)
Theorem dict_get_spec d r dist :
  dict_inv d r -> 0 <= dist < d_full d \/ d_full d = 0 ->
  dict_get d dist = if d_full d =? 0 then Some 0 else rd r dist.
Proof.
  intros Hinv Hd. pose proof Hinv as ((Hp & _ & _ & _ & _ & Hk) & _). unfold dict_get.
  destruct (Z.eqb_spec (d_full d) 0) as [->|]; [done|]. replace (0 <? d_full d) with true by lia.
  rewrite (dict_offset_ring d r) by (done || lia). apply Hk. lia.
Qed.

Lemma dict_get_byte d r dist :
  dict_inv d r -> 0 <= dist < d_full d \/ d_full d = 0 ->
  exists v, dict_get d dist = Some v /\ in_range 8 v.
Proof.
  intros Hinv Hd. pose proof Hinv as (Hh & _ & _ & _ & _ & Hb & Hr). unfold dict_get.
  destruct (Z.ltb_spec 0 (d_full d)); [|by exists 0].
  rewrite (dict_offset_ring d r) by (done || lia).
  destruct (rd_ok (d_buf d) (ring (d_end d) (d_pos d) dist)) as [v Hv]; [eapply ring_range; [done|lia]|].
  exists v. split; [done|]. exact (rd_forall _ _ _ _ Hb Hv).
Qed.

Lemma max_full full pos : (if full <? pos then pos else full) = Z.max full pos.
Proof. destruct (Z.ltb_spec full pos); lia. Qed.

(** What an operation that adds bytes keeps. *)
Definition dict_frame (d d' : dictionary) : Prop :=
  d_start d' = d_start d /\ d_limit d' = d_limit d /\ d_end d' = d_end d /\ d_size d' = d_size d /\
  d_size_max d' = d_size_max d /\ d_allocated d' = d_allocated d /\ d_mode d' = d_mode d /\
  zlength (d_buf d') = zlength (d_buf d) /\ d_full d <= d_full d'.

Lemma dict_put_ok d r v :
  dict_inv d r -> dict_has_space d = true -> in_range 8 v ->
  exists d', dict_put d v = Some d' /\ dict_inv d' (v :: r) /\ d_pos d' = d_pos d + 1 /\ dict_frame d d'.
Proof.
  intros (Hh & Hs & He & Hsz & Hlim & Hb & Hr) Hsp Hv. unfold dict_has_space in Hsp. apply Z.ltb_lt in Hsp.
  pose proof Hh as (Hp & ? & ? & _). unfold dict_put.
  destruct (wr (d_buf d) (d_pos d) v) as [buf|] eqn:Hw; [|by rewrite wr_ok in Hw by lia].
  eexists. split; [done|]. rewrite max_full. unfold dict_inv, dict_frame; simpl.
  rewrite (wr_length _ _ _ _ Hw). split_and!; try done; try lia.
  - eapply holds_put; [done|lia|done].
  - by eapply wr_forall.
  - by constructor.
Qed.

(** ** Matches *)

Lemma repeat_loop_ok n e buf pos full r dist :
  holds buf e pos full r -> bytes_ok buf -> bytes_ok r -> 0 <= dist < full -> pos + Z.of_nat n <= e ->
  exists buf', repeat_loop n e buf pos (ring e pos dist) = Some (buf', pos + Z.of_nat n) /\
    holds buf' e (pos + Z.of_nat n) (Z.max full (pos + Z.of_nat n)) (lz_copy n dist r) /\
    bytes_ok buf' /\ bytes_ok (lz_copy n dist r) /\ zlength buf' = zlength buf.
Proof.
  revert buf pos full r. induction n as [|n IH]; intros buf pos full r Hh Hb Hr Hd Hn.
  { exists buf. rewrite Z.add_0_r. simpl. rewrite Z.max_l by (destruct Hh; lia). done. }
  pose proof Hh as (Hp & He & Hbl & Hf & Hl & Hk). cbn [repeat_loop lz_copy].
  destruct (rd_ok buf (ring e pos dist)) as [v Hv]; [by eapply ring_range|]. rewrite Hv.
  assert (in_range 8 v) by exact (rd_forall _ _ _ _ Hb Hv).
  assert (Hrd : rd r dist = Some v) by (by rewrite <- Hk). rewrite Hrd. cbn [default].
  destruct (wr buf pos v) as [buf1|] eqn:Hw; [|by rewrite wr_ok in Hw by lia].
  assert ((if ring e pos dist + 1 =? e then 0 else ring e pos dist + 1) = ring e (pos + 1) dist) as ->.
  { unfold ring. destruct (Z.leb_spec pos dist), (Z.leb_spec (pos + 1) dist); case_match; lia. }
  destruct (IH buf1 (pos + 1) (Z.max full (pos + 1)) (v :: r)) as (buf' & Hrun & Hh' & Hb' & Hr' & Hlen).
  - by eapply holds_put; [|lia|].
  - by eapply wr_forall.
  - by constructor.
  - lia.
  - lia.
  - exists buf'. replace (pos + Z.of_nat (S n)) with (pos + 1 + Z.of_nat n) by lia.
    rewrite (wr_length _ _ _ _ Hw) in Hlen. split; [done|]. split; [|done].
    replace (Z.max full (pos + 1 + Z.of_nat n)) with (Z.max (Z.max full (pos + 1)) (pos + 1 + Z.of_nat n)) by lia. done.
Qed.

(** The copy done when the dictionary has space for [len] bytes or less. *)
Lemma dict_repeat_ok d r len dist :
  dict_inv d r -> dict_has_space d = true -> 0 < len < 2 ^ 32 -> 0 <= dist ->
  let n := Z.min (d_limit d - d_pos d) len in
  if (dist <? d_full d) then
    exists d', dict_repeat d len dist = Some (true, d', len - n) /\
      dict_inv d' (lz_copy (Z.to_nat n) dist r) /\ d_pos d' = d_pos d + n /\ dict_frame d d'
  else dict_repeat d len dist = Some (false, d, len).
Proof.
  intros Hinv Hsp Hlen Hdist n. pose proof Hinv as (Hh & Hs & He & Hsz & Hlim & Hb & Hr). unfold dict_has_space in Hsp. apply Z.ltb_lt in Hsp.
  pose proof Hh as (Hp & Hfe & Hbl & Hf & Hl & _). unfold dict_repeat.
  destruct (Z.ltb_spec dist (d_full d)).
  2:{ by replace (d_full d <=? dist) with true by lia. }
  replace (d_full d <=? dist) with false by lia. replace (d_size d <=? dist) with false by lia. cbn [orb].
  assert (Hn : 0 < n <= d_limit d - d_pos d) by lia.
  rewrite wrap_small by (unfold in_range; lia). fold n. clearbody n. replace (n =? 0) with false by lia.
  rewrite (dict_offset_ring d r) by (done || lia).
  destruct (repeat_loop_ok (Z.to_nat n) (d_end d) (d_buf d) (d_pos d) (d_full d) r dist)
    as (buf' & -> & Hh' & Hb' & Hr' & Hzl); try done; [lia|].
  rewrite Z2Nat.id in * by lia. eexists. split; [done|]. rewrite max_full.
  unfold dict_inv, dict_frame; simpl. split_and!; try done; lia.
Qed.

(** a match of valid distance appends to the history the LZ77 copy of as
    many bytes as fit under the write limit, and reports how many are left; a
    distance beyond the history is refused and changes nothing.  No access
    leaves the buffer. *)
Theorem dict_repeat_spec d r len dist :
  dict_inv d r -> dict_has_space d = true -> 0 < len < 2 ^ 32 -> 0 <= dist ->
  let n := Z.min (d_limit d - d_pos d) len in
  if (dist <? d_full d) then
    exists d', dict_repeat d len dist = Some (true, d', len - n) /\
      dict_inv d' (lz_copy (Z.to_nat n) dist r) /\ d_pos d' = d_pos d + n /\ dict_frame d d'
  else dict_repeat d len dist = Some (false, d, len).
Proof. apply dict_repeat_ok. Qed.

(** ** Copying and flushing *)

(** Appending a run of bytes to the ring at once. *)
Lemma holds_app buf e pos full r src i n buf' :
  holds buf e pos full r -> memcpy buf pos src i n = Some buf' -> pos + n <= e ->
  holds buf' e (pos + n) (Z.max full (pos + n)) (reverse (slice src i n) ++ r).
Proof.
  intros (Hp & He & Hb & Hf & Hl & Hk) Hm Hn. pose proof (memcpy_inv _ _ _ _ _ _ Hm) as (? & ? & ? & ? & ? & _).
  rewrite <- (memcpy_length _ _ _ _ _ _ Hm) in Hb.
  assert (Hrl : zlength (reverse (slice src i n)) = n).
  { unfold zlength. rewrite length_reverse. by apply zlength_slice. }
  unfold holds. rewrite zlength_app, Hrl. split_and!; try lia. intros k Hkk.
  rewrite (rd_memcpy _ _ _ _ _ _ _ Hm) by (unfold ring; case_match; lia).
  unfold rd at 3. replace (0 <=? k) with true by lia. destruct (Z.ltb_spec k n) as [Hlt|Hge].
  - rewrite lookup_app_l by (unfold zlength in Hrl; lia). unfold ring. replace (pos + n <=? k) with false by lia.
    replace (_ && _) with true by lia.
    assert (Hlen : length (slice src i n) = Z.to_nat n) by (pose proof (zlength_slice src i n); unfold zlength in *; lia).
    rewrite reverse_lookup by lia. rewrite Hlen.
    pose proof (rd_slice src i n (n - 1 - k)) as Hr. unfold rd at 1 in Hr.
    replace (0 <=? n - 1 - k) with true in Hr by lia. replace (n - 1 - k <? n) with true in Hr by lia.
    replace (Z.to_nat n - S (Z.to_nat k))%nat with (Z.to_nat (n - 1 - k)) by lia. rewrite Hr by lia. f_equal. lia.
  - rewrite lookup_app_r by (unfold zlength in Hrl; lia).
    assert (rd r (k - n) = r !! (Z.to_nat k - length (reverse (slice src i n)))%nat) as <-.
    { unfold rd. replace (0 <=? k - n) with true by lia. f_equal. unfold zlength in Hrl. lia. }
    rewrite <- Hk by lia. unfold ring. destruct (Z.leb_spec (pos + n) k).
    + replace (pos <=? k - n) with true by lia. replace (_ && _) with false by lia. f_equal. lia.
    + replace (pos <=? k - n) with false by lia. replace (_ && _) with false by lia. f_equal. lia.
Qed.

(** The bytes between [start] and [pos] are the latest ones of the history. *)
Lemma holds_slice buf e pos full r start :
  holds buf e pos full r -> 0 <= start <= pos ->
  slice buf start (pos - start) = reverse (ztake (pos - start) r).
Proof.
  intros (Hp & He & Hb & Hf & Hl & Hk) Hs.
  assert (Hn : length (slice buf start (pos - start)) = Z.to_nat (pos - start)).
  { pose proof (zlength_slice buf start (pos - start)). unfold zlength in *. lia. }
  assert (Ht : length (ztake (pos - start) r) = Z.to_nat (pos - start)).
  { unfold ztake, zlength in *. rewrite length_take. lia. }
  apply list_eq. intros i. destruct (decide (i < Z.to_nat (pos - start))%nat).
  - pose proof (rd_slice buf start (pos - start) (Z.of_nat i)) as Hr. unfold rd at 1 in Hr.
    replace (0 <=? Z.of_nat i) with true in Hr by lia. replace (Z.of_nat i <? pos - start) with true in Hr by lia.
    rewrite Nat2Z.id in Hr. rewrite Hr by lia.
    rewrite reverse_lookup by lia. rewrite Ht. unfold ztake. rewrite lookup_take_lt by lia.
    specialize (Hk (pos - 1 - start - Z.of_nat i)). unfold ring in Hk.
    replace (pos <=? _) with false in Hk by lia. unfold rd at 2 in Hk. replace (0 <=? _) with true in Hk by lia.
    replace (Z.to_nat (pos - start) - S i)%nat with (Z.to_nat (pos - 1 - start - Z.of_nat i)) by lia.
    rewrite <- Hk by lia. f_equal. lia.
  - rewrite !lookup_ge_None_2; [done|rewrite length_reverse; lia|lia].
Qed.

(** [bs] stored into a buffer from position [p] on. *)
Definition put_out (out : list Z) (p : Z) (bs : list Z) : list Z :=
  ztake p out ++ bs ++ zdrop (p + zlength bs) out.

Lemma put_out_nil out p : 0 <= p -> put_out out p [] = out.
Proof.
  intros. unfold put_out, ztake, zdrop. simpl. change (zlength []) with 0. rewrite Z.add_0_r. apply take_drop.
Qed.

Lemma put_out_app out p bs bs' :
  0 <= p -> p + zlength bs + zlength bs' <= zlength out ->
  put_out (put_out out p bs) (p + zlength bs) bs' = put_out out p (bs ++ bs').
Proof.
  intros Hp Hl. pose proof (zlength_nonneg bs). pose proof (zlength_nonneg bs'). unfold put_out.
  assert (Ht : length (ztake p out) = Z.to_nat p).
  { unfold ztake, zlength in *. rewrite length_take. lia. }
  assert (Hn : Z.to_nat (p + zlength bs) = (length (ztake p out) + length bs)%nat) by (unfold zlength in *; lia).
  assert (ztake (p + zlength bs) (ztake p out ++ bs ++ zdrop (p + zlength bs) out) = ztake p out ++ bs) as ->.
  { unfold ztake at 1. rewrite app_assoc, Hn. by rewrite take_app_length' by (by rewrite length_app). }
  rewrite <- !app_assoc. do 3 f_equal. rewrite zlength_app, Z.add_assoc.
  unfold zdrop at 1. rewrite app_assoc. rewrite (Z2Nat.inj_add (p + zlength bs)) by lia.
  rewrite <- drop_drop, Hn, drop_app_length' by (by rewrite length_app).
  unfold zdrop. rewrite drop_drop. f_equal. lia.
Qed.

Lemma zlength_put_out out p bs :
  0 <= p -> p + zlength bs <= zlength out -> zlength (put_out out p bs) = zlength out.
Proof.
  intros. unfold put_out, ztake, zdrop, zlength in *. rewrite !length_app, length_take, length_drop. lia.
Qed.

Lemma memcpy_put_out dst j src i n :
  0 <= i -> 0 <= j -> 0 <= n -> i + n <= zlength src -> j + n <= zlength dst ->
  memcpy dst j src i n = Some (put_out dst j (slice src i n)).
Proof. intros. rewrite memcpy_ok by lia. unfold put_out. by rewrite zlength_slice by lia. Qed.

(** [b'] is [b] after [bs] was written to the output. *)
Definition output (b b' : xz_buf) (bs : list Z) : Prop :=
  b_in b' = b_in b /\ in_size b' = in_size b /\ out_size b' = out_size b /\
  out_pos b' = out_pos b + zlength bs /\ b_out b' = put_out (b_out b) (out_pos b) bs.

Lemma output_app b b1 b2 bs1 bs2 :
  buf_ok b -> buf_ok b2 -> output b b1 bs1 -> output b1 b2 bs2 -> output b b2 (bs1 ++ bs2).
Proof.
  intros (_ & _ & _ & Hop & Hos & _) (_ & _ & _ & Hop2 & Hos2 & _) (? & ? & ? & Ho1 & Hb1) (? & ? & ? & Ho2 & Hb2).
  unfold output. rewrite zlength_app. split_and!; try congruence; [lia|].
  pose proof (zlength_nonneg bs2). pose proof (zlength_nonneg bs1).
  rewrite Hb2, Hb1, Ho1. apply put_out_app; [lia|]. lia.
Qed.

Lemma output_refl b : 0 <= out_pos b -> output b b [].
Proof.
  intros. unfold output. change (zlength ([] : list Z)) with 0. rewrite put_out_nil by done.
  split_and!; (done || lia).
Qed.

Lemma put_out_bytes out p bs : bytes_ok out -> bytes_ok bs -> bytes_ok (put_out out p bs).
Proof.
  intros. unfold put_out, ztake, zdrop. rewrite !Forall_app. split_and!; auto using Forall_take, Forall_drop.
Qed.

Lemma dict_uncompressed_loop_ok fuel d b r left :
  dict_inv d r -> d_start d = d_pos d -> d_pos d < d_end d -> buf_ok b ->
  0 <= left <= Z.of_nat fuel ->
  exists n d' b', dict_uncompressed_loop fuel d b left = Some (d', b', left - n) /\
    0 <= n <= left /\ in_pos b' = in_pos b + n /\ buf_ok b' /\
    output b b' (slice (b_in b) (in_pos b) n) /\
    dict_inv d' (reverse (slice (b_in b) (in_pos b) n) ++ r) /\
    d_start d' = d_pos d' /\ d_pos d' < d_end d' /\ d_full d <= d_full d' /\ d_end d' = d_end d /\
    d_mode d' = d_mode d /\ d_size_max d' = d_size_max d /\ d_allocated d' = d_allocated d /\
    zlength (d_buf d') = zlength (d_buf d) /\
    (left - n = 0 \/ in_pos b' = in_size b' \/ out_pos b' = out_size b').
Proof.
  revert d b r left. induction fuel as [|fuel IH]; intros d b r left Hinv Hst Hlt Hb Hl;
    pose proof Hb as (Hip & His & Hbi & Hop & Hos & Hbo); cbn [dict_uncompressed_loop];
    destruct (_ && _ && _) eqn:Hc;
    try (exists 0, d, b; rewrite Z.sub_0_r, Z.add_0_r; unfold slice, ztake; simpl;
         split_and!; try done; try lia; by apply output_refl; lia).
  set (c0 := Z.min (in_size b - in_pos b) (out_size b - out_pos b)).
  set (c1 := if d_end d - d_pos d <? c0 then d_end d - d_pos d else c0).
  set (c := if left <? c1 then left else c1).
  assert (Hcr : 0 < c <= left /\ c <= in_size b - in_pos b /\ c <= out_size b - out_pos b /\ c <= d_end d - d_pos d).
  { unfold c, c1, c0. destruct (Z.ltb_spec (d_end d - d_pos d) (Z.min (in_size b - in_pos b) (out_size b - out_pos b)));
      case_match; lia. }
  clearbody c. clear c0 c1.
  destruct Hinv as (Hh & Hs & He & Hsz & Hlim & Hdb & Hr). pose proof Hh as (Hp & Hfe & Hbl & _).
  destruct (memcpy (d_buf d) (d_pos d) (b_in b) (in_pos b) c) as [buf|] eqn:Hm; [|by rewrite memcpy_ok in Hm by lia].
  rewrite memcpy_put_out by lia. rewrite max_full.
  pose proof (holds_app _ _ _ _ _ _ _ _ _ Hh Hm ltac:(lia)) as Hh1.
  assert (Hin : bytes_ok (slice (b_in b) (in_pos b) c)) by (by apply slice_forall).
  assert (Hzs : zlength (slice (b_in b) (in_pos b) c) = c) by (apply zlength_slice; lia).
  set (d1 := set_dict_pos d buf _ _ _). set (b1 := set_in_pos _ _).
  assert (Hb1 : buf_ok b1).
  { unfold buf_ok, b1; simpl. rewrite zlength_put_out by lia. split_and!; auto using put_out_bytes; lia. }
  assert (Ho1 : output b b1 (slice (b_in b) (in_pos b) c)).
  { unfold output, b1; simpl. rewrite Hzs. done. }
  destruct (IH d1 b1 (reverse (slice (b_in b) (in_pos b) c) ++ r) (left - c))
    as (n & d' & b' & -> & Hn & Hip' & Hb' & Ho' & Hinv' & Hrest); unfold d1; simpl.
  - unfold dict_inv; simpl. split_and!; try done; try (case_match; lia); try lia.
    + by apply holds_wrap.
    + by eapply memcpy_forall.
    + apply Forall_app. split; [by apply Forall_reverse|done].
  - done.
  - case_match; lia.
  - done.
  - lia.
  - exists (c + n), d', b'. simpl in *. rewrite <- (memcpy_length _ _ _ _ _ _ Hm).
    destruct Hrest as (? & ? & ? & ? & ? & ? & ? & ? & ?). rewrite slice_app, reverse_app, <- app_assoc by lia.
    split_and!; try done; try lia; [by replace (left - (c + n)) with (left - c - n) by lia|].
    by eapply output_app.
Qed.

Lemma dict_flush_ok d b r :
  dict_inv d r -> buf_ok b -> d_pos d - d_start d <= out_size b - out_pos b ->
  exists d' b', dict_flush d b = Some (d', b', d_pos d - d_start d) /\ in_pos b' = in_pos b /\ buf_ok b' /\
    output b b' (reverse (ztake (d_pos d - d_start d) r)) /\ dict_inv d' r /\
    d_start d' = d_pos d' /\ d_pos d' < d_end d' /\ d_full d' = d_full d /\ d_end d' = d_end d /\
    d_mode d' = d_mode d /\ d_size_max d' = d_size_max d /\ d_allocated d' = d_allocated d /\
    d_buf d' = d_buf d.
Proof.
  intros (Hh & Hs & He & Hsz & Hlim & Hdb & Hr) (Hip & His & Hbi & Hop & Hos & Hbo) Hfit.
  pose proof Hh as (Hp & Hfe & Hbl & _). unfold dict_flush. rewrite memcpy_put_out by lia.
  pose proof (holds_slice _ _ _ _ _ (d_start d) Hh ltac:(lia)) as Hsl.
  assert (Hzs : zlength (slice (d_buf d) (d_start d) (d_pos d - d_start d)) = d_pos d - d_start d)
    by (apply zlength_slice; lia).
  eexists _, _. split; [done|]. unfold buf_ok, output, dict_inv; simpl. rewrite <- Hsl, Hzs.
  rewrite zlength_put_out by lia.
  split_and!; try done; try (case_match; lia); try lia.
  - apply put_out_bytes; [done|by apply slice_forall].
  - by apply holds_wrap.
Qed.

(** flushing appends to the output exactly the bytes decoded since the
    last flush, in order, and keeps the history. *)
Theorem dict_flush_spec d b r :
  dict_inv d r -> buf_ok b -> d_pos d - d_start d <= out_size b - out_pos b ->
  exists d' b', dict_flush d b = Some (d', b', d_pos d - d_start d) /\ in_pos b' = in_pos b /\ buf_ok b' /\
    output b b' (reverse (ztake (d_pos d - d_start d) r)) /\ dict_inv d' r /\ d_start d' = d_pos d'.
Proof.
  intros. destruct (dict_flush_ok d b r) as (d' & b' & ? & ? & ? & ? & ? & ? & _); [done..|]. by exists d', b'.
Qed.

(** an uncompressed chunk is copied unchanged to the output and to the
    history, as far as input and output space allow. *)
Theorem dict_uncompressed_spec d b r left :
  dict_inv d r -> d_start d = d_pos d -> d_pos d < d_end d -> buf_ok b -> 0 <= left ->
  exists n d' b', dict_uncompressed d b left = Some (d', b', left - n) /\
    0 <= n <= left /\ in_pos b' = in_pos b + n /\ buf_ok b' /\
    output b b' (slice (b_in b) (in_pos b) n) /\
    dict_inv d' (reverse (slice (b_in b) (in_pos b) n) ++ r) /\
    (left - n = 0 \/ in_pos b' = in_size b' \/ out_pos b' = out_size b').
Proof.
  intros. destruct (dict_uncompressed_loop_ok (Z.to_nat left) d b r left)
    as (n & d' & b' & ? & ? & ? & ? & ? & ? & _ & _ & _ & _ & _ & _ & _ & _ & ?); [done..|lia|].
  by exists n, d', b'.
Qed.

(** ** Instances *)

(** "abc" was decoded, "a" flushed. *)
Definition sample_dict : dictionary :=
  mk_dict [97; 98; 99; 0; 0; 0; 0; 0] 1 3 3 6 8 8 8 8 XZ_DYNALLOC.

Lemma sample_dict_inv : dict_inv sample_dict [99; 98; 97].
Proof.
  split; [|concrete]. unfold holds. split_and!; try (by vm_compute); [by left|]. intros k Hk. simpl in Hk.
  assert (k = 0 \/ k = 1 \/ k = 2) as [-> | [-> | ->]] by lia; reflexivity.
Qed.

Lemma dict_repeat_witness :
  exists d', dict_repeat sample_dict 10 1 = Some (true, d', 10 - 3) /\
    dict_inv d' (lz_copy 3 1 [99; 98; 97]) /\ d_pos d' = 3 + 3 /\ dict_frame sample_dict d'.
Proof.
  apply (dict_repeat_spec sample_dict [99; 98; 97] 10 1); [apply sample_dict_inv|reflexivity|lia|lia].
Defined.

Definition sample_buf : xz_buf := mk_xz_buf [1; 2; 3; 4] 1 4 [0; 0; 0; 0; 0] 2 5.

Lemma dict_flush_witness :
  exists d' b', dict_flush sample_dict sample_buf = Some (d', b', 2) /\ in_pos b' = 1 /\ buf_ok b' /\
    output sample_buf b' (reverse (ztake 2 [99; 98; 97])) /\ dict_inv d' [99; 98; 97] /\ d_start d' = d_pos d'.
Proof.
  apply (dict_flush_spec sample_dict sample_buf [99; 98; 97]); [apply sample_dict_inv|concrete|by vm_compute].
Defined.

Lemma dict_uncompressed_witness :
  let d := mk_dict [97; 98; 99; 0; 0; 0; 0; 0] 3 3 3 6 8 8 8 8 XZ_DYNALLOC in
  exists n d' b', dict_uncompressed d sample_buf 9 = Some (d', b', 9 - n) /\
    0 <= n <= 9 /\ in_pos b' = in_pos sample_buf + n /\ buf_ok b' /\
    output sample_buf b' (slice (b_in sample_buf) (in_pos sample_buf) n) /\
    dict_inv d' (reverse (slice (b_in sample_buf) (in_pos sample_buf) n) ++ [99; 98; 97]) /\
    (9 - n = 0 \/ in_pos b' = in_size b' \/ out_pos b' = out_size b').
Proof.
  apply dict_uncompressed_spec; [|reflexivity|by vm_compute|concrete|lia].
  destruct sample_dict_inv as [Hh _]. split; [exact Hh|concrete].
Defined.
