(* ===== verification/XzLzma.v ===== *)
(** * XzLzma: the range decoder and the LZMA decoder of xz-embedded

    The "Range decoder" and "LZMA" sections of
    external/xz-embedded/xz_dec_lzma2.c and the state machine of xz_lzma2.h.
    The parts of [struct xz_dec_lzma2] these functions work on ([rc], [dict],
    [lzma]) are the record [core]; the functions run in the fault monad. *)
From Stdlib Require Import ZArith Lia Bool.
From stdpp Require Import base list list_numbers.
From S2P Require Import Prelude PolicyFile Mem XzDict.

(** ** Data *)

Definition RC_SHIFT_BITS : Z := 8.
Definition RC_TOP_VALUE : Z := 2 ^ 24.
Definition RC_BIT_MODEL_TOTAL_BITS : Z := 11.
Definition RC_BIT_MODEL_TOTAL : Z := 2 ^ 11.
Definition RC_MOVE_BITS : Z := 5.
Definition RC_INIT_BYTES : Z := 5.
Definition LZMA_IN_REQUIRED : Z := 21.
Definition STATES : Z := 12.
Definition LIT_STATES : Z := 7.
Definition POS_STATES_MAX : Z := 16.
Definition LITERAL_CODER_SIZE : Z := 0x300.
Definition LITERAL_CODERS_MAX : Z := 16.
Definition MATCH_LEN_MIN : Z := 2.
Definition LEN_LOW_SYMBOLS : Z := 8.
Definition LEN_MID_SYMBOLS : Z := 8.
Definition LEN_HIGH_SYMBOLS : Z := 256.
Definition DIST_STATES : Z := 4.
Definition DIST_SLOTS : Z := 64.
Definition DIST_MODEL_START : Z := 4.
Definition DIST_MODEL_END : Z := 14.
Definition FULL_DISTANCES : Z := 128.
Definition ALIGN_BITS : Z := 4.
Definition ALIGN_SIZE : Z := 16.
Definition PROBS_TOTAL : Z := 1846 + LITERAL_CODERS_MAX * LITERAL_CODER_SIZE.

(** [enum lzma_state], on which the code does arithmetic. *)
Definition STATE_LIT_LIT : Z := 0.
Definition STATE_SHORTREP_LIT_LIT : Z := 3.
Definition STATE_LIT_MATCH : Z := 7.
Definition STATE_LIT_LONGREP : Z := 8.
Definition STATE_LIT_SHORTREP : Z := 9.
Definition STATE_NONLIT_MATCH : Z := 10.
Definition STATE_NONLIT_REP : Z := 11.

Record rc_dec := mk_rc {
  range : Z;
  code : Z;
  init_bytes_left : Z;
  rc_in : list Z;
  rc_in_pos : Z;
  rc_in_limit : Z
}.

(** [struct lzma_dec]: the probability arrays, from [is_match] to [literal],
    are the one block of [PROBS_TOTAL] variables that [lzma_reset] takes them
    for. *)
Record lzma_dec := mk_lzma {
  rep0 : Z;
  rep1 : Z;
  rep2 : Z;
  rep3 : Z;
  state : Z;
  len : Z;
  lc : Z;
  literal_pos_mask : Z;
  pos_mask : Z;
  probs : list Z
}.

Record core := mk_core { rc : rc_dec; dict : dictionary; lzma : lzma_dec }.

(** Where the arrays are in the block. *)
Definition IS_MATCH : Z := 0.
Definition IS_REP : Z := 192.
Definition IS_REP0 : Z := 204.
Definition IS_REP1 : Z := 216.
Definition IS_REP2 : Z := 228.
Definition IS_REP0_LONG : Z := 240.
Definition DIST_SLOT : Z := 432.
Definition DIST_SPECIAL : Z := 688.
Definition DIST_ALIGN : Z := 802.
Definition MATCH_LEN_DEC : Z := 818.
Definition REP_LEN_DEC : Z := 1332.
Definition LITERAL : Z := 1846.
(** Inside [struct lzma_len_dec]. *)
Definition LEN_CHOICE : Z := 0.
Definition LEN_CHOICE2 : Z := 1.
Definition LEN_LOW : Z := 2.
Definition LEN_MID : Z := 130.
Definition LEN_HIGH : Z := 258.

(** A pointer into one of the arrays, which is [p_lo] to [p_hi] in the block. *)
Record prob_ptr := mk_ptr { p_lo : Z; p_hi : Z; p_off : Z }.

(** [array[i]] of an array of [n] rows of [m] variables. *)
Definition prob_row (base n m i : Z) : option prob_ptr :=
  if (0 <=? i) && (i <? n) then Some (mk_ptr (base + m * i) (base + m * i + m) (base + m * i)) else None.

(** [&probs[i]]. *)
Definition prob_elem (p : prob_ptr) (i : Z) : option Z :=
  if (p_lo p <=? p_off p + i) && (p_off p + i <? p_hi p) then Some (p_off p + i) else None.

Definition set_rc (s : core) (r : rc_dec) : core := mk_core r (dict s) (lzma s).
Definition set_dict (s : core) (d : dictionary) : core := mk_core (rc s) d (lzma s).
Definition set_lzma (s : core) (l : lzma_dec) : core := mk_core (rc s) (dict s) l.
Definition set_range_code (r : rc_dec) (rg cd : Z) : rc_dec :=
  mk_rc rg cd (init_bytes_left r) (rc_in r) (rc_in_pos r) (rc_in_limit r).
Definition set_probs (l : lzma_dec) (p : list Z) : lzma_dec :=
  mk_lzma (rep0 l) (rep1 l) (rep2 l) (rep3 l) (state l) (len l) (lc l) (literal_pos_mask l) (pos_mask l) p.
Definition set_state (l : lzma_dec) (st : Z) : lzma_dec :=
  mk_lzma (rep0 l) (rep1 l) (rep2 l) (rep3 l) st (len l) (lc l) (literal_pos_mask l) (pos_mask l) (probs l).
Definition set_len (l : lzma_dec) (n : Z) : lzma_dec :=
  mk_lzma (rep0 l) (rep1 l) (rep2 l) (rep3 l) (state l) n (lc l) (literal_pos_mask l) (pos_mask l) (probs l).
Definition set_reps (l : lzma_dec) (r0 r1 r2 r3 : Z) : lzma_dec :=
  mk_lzma r0 r1 r2 r3 (state l) (len l) (lc l) (literal_pos_mask l) (pos_mask l) (probs l).

(** ** Range decoder *)

Definition rc_reset (r : rc_dec) : rc_dec :=
  mk_rc (2 ^ 32 - 1) 0 RC_INIT_BYTES (rc_in r) (rc_in_pos r) (rc_in_limit r).

(** [rc_read_init]: (result, range decoder, buffers). *)
Fixpoint rc_read_init_loop (fuel : nat) (r : rc_dec) (b : xz_buf) : option (bool * rc_dec * xz_buf) :=
  if 0 <? init_bytes_left r then
    match fuel with
    | O => None
    | S fuel =>
        if in_pos b =? in_size b then Some (false, r, b) else
        match rd (b_in b) (in_pos b) with
        | None => None
        | Some byte =>
            rc_read_init_loop fuel
              (mk_rc (range r) (u32 (u32 (Z.shiftl (code r) 8) + byte)) (init_bytes_left r - 1)
                 (rc_in r) (rc_in_pos r) (rc_in_limit r))
              (set_in_pos b (in_pos b + 1))
        end
    end
  else Some (true, r, b).

Definition rc_read_init (r : rc_dec) (b : xz_buf) : option (bool * rc_dec * xz_buf) :=
  rc_read_init_loop (Z.to_nat RC_INIT_BYTES) r b.

Definition rc_limit_exceeded (r : rc_dec) : bool := rc_in_limit r <? rc_in_pos r.

Definition rc_is_finished (r : rc_dec) : bool := code r =? 0.

Definition rc_normalize : M core unit :=
  s <-- mget ;;
  let r := rc s in
  if range r <? RC_TOP_VALUE then
    byte <-- mlift (rd (rc_in r) (rc_in_pos r)) ;;
    mput (set_rc s (mk_rc (u32 (Z.shiftl (range r) RC_SHIFT_BITS))
      (u32 (u32 (Z.shiftl (code r) RC_SHIFT_BITS) + byte)) (init_bytes_left r)
      (rc_in r) (rc_in_pos r + 1) (rc_in_limit r)))
  else mret' tt.

(** [rc_bit(rc, &probs[a])] with [a] the place of the variable in the block. *)
Definition rc_bit (a : Z) : M core Z :=
  rc_normalize ;;;
  s <-- mget ;;
  let r := rc s in
  prob <-- mlift (rd (probs (lzma s)) a) ;;
  let bound := u32 (Z.shiftr (range r) RC_BIT_MODEL_TOTAL_BITS * prob) in
  if code r <? bound then
    ps <-- mlift (wr (probs (lzma s)) a (u16 (prob + Z.shiftr (RC_BIT_MODEL_TOTAL - prob) RC_MOVE_BITS))) ;;
    mput (set_lzma (set_rc s (set_range_code r bound (code r))) (set_probs (lzma s) ps)) ;;;
    mret' 0
  else
    ps <-- mlift (wr (probs (lzma s)) a (u16 (prob - Z.shiftr prob RC_MOVE_BITS))) ;;
    mput (set_lzma (set_rc s (set_range_code r (u32 (range r - bound)) (u32 (code r - bound))))
            (set_probs (lzma s) ps)) ;;;
    mret' 1.

(** [do ... while (symbol < limit)]. *)
Fixpoint bittree_loop (fuel : nat) (p : prob_ptr) (symbol limit : Z) : M core Z :=
  match fuel with
  | O => mfault
  | S fuel =>
      a <-- mlift (prob_elem p symbol) ;;
      bit <-- rc_bit a ;;
      let symbol := if ctrue bit then u32 (u32 (Z.shiftl symbol 1) + 1) else u32 (Z.shiftl symbol 1) in
      if symbol <? limit then bittree_loop fuel p symbol limit else mret' symbol
  end.

Definition rc_bittree (p : prob_ptr) (limit : Z) : M core Z := bittree_loop 32 p 1 limit.

(** [do ... while (++i < limit)]; the result is [*dest]. *)
Fixpoint bittree_reverse_loop (fuel : nat) (p : prob_ptr) (symbol i dest limit : Z) : M core Z :=
  match fuel with
  | O => mfault
  | S fuel =>
      a <-- mlift (prob_elem p symbol) ;;
      bit <-- rc_bit a ;;
      let symbol' := if ctrue bit then u32 (u32 (Z.shiftl symbol 1) + 1) else u32 (Z.shiftl symbol 1) in
      let dest := if ctrue bit then u32 (dest + Z.shiftl 1 i) else dest in
      if i + 1 <? limit then bittree_reverse_loop fuel p symbol' (i + 1) dest limit else mret' dest
  end.

Definition rc_bittree_reverse (p : prob_ptr) (dest limit : Z) : M core Z :=
  bittree_reverse_loop 32 p 1 0 dest limit.

(** [do ... while (--limit > 0)]. *)
Fixpoint rc_direct_loop (fuel : nat) (dest limit : Z) : M core Z :=
  match fuel with
  | O => mfault
  | S fuel =>
      rc_normalize ;;;
      s <-- mget ;;
      let r := rc s in
      let range' := Z.shiftr (range r) 1 in
      let code' := u32 (code r - range') in
      let mask := u32 (0 - Z.shiftr code' 31) in
      mput (set_rc s (set_range_code r range' (u32 (code' + Z.land range' mask)))) ;;;
      let dest := u32 (u32 (Z.shiftl dest 1) + u32 (mask + 1)) in
      let limit := u32 (limit - 1) in
      if 0 <? limit then rc_direct_loop fuel dest limit else mret' dest
  end.

Definition rc_direct (dest limit : Z) : M core Z := rc_direct_loop 32 dest limit.

(** ** LZMA *)

Definition lzma_state_literal (st : Z) : Z :=
  if st <=? STATE_SHORTREP_LIT_LIT then STATE_LIT_LIT
  else if st <=? STATE_LIT_SHORTREP then st - 3 else st - 6.

Definition lzma_state_match (st : Z) : Z := if st <? LIT_STATES then STATE_LIT_MATCH else STATE_NONLIT_MATCH.
Definition lzma_state_long_rep (st : Z) : Z := if st <? LIT_STATES then STATE_LIT_LONGREP else STATE_NONLIT_REP.
Definition lzma_state_short_rep (st : Z) : Z := if st <? LIT_STATES then STATE_LIT_SHORTREP else STATE_NONLIT_REP.
Definition lzma_state_is_literal (st : Z) : bool := st <? LIT_STATES.

Definition lzma_get_dist_state (l : Z) : Z :=
  if l <? DIST_STATES + MATCH_LEN_MIN then l - MATCH_LEN_MIN else DIST_STATES - 1.

Definition modify_lzma (f : lzma_dec -> lzma_dec) : M core unit :=
  s <-- mget ;; mput (set_lzma s (f (lzma s))).

(** Pointer to the literal coder probability array. *)
Definition lzma_literal_probs : M core prob_ptr :=
  s <-- mget ;;
  prev_byte <-- mlift (dict_get (dict s) 0) ;;
  let low := Z.shiftr prev_byte (8 - lc (lzma s)) in
  let high := Z.shiftl (Z.land (d_pos (dict s)) (literal_pos_mask (lzma s))) (lc (lzma s)) in
  mlift (prob_row LITERAL LITERAL_CODERS_MAX LITERAL_CODER_SIZE (low + high)).

(** The loop of a literal after a match. *)
Fixpoint matched_loop (fuel : nat) (p : prob_ptr) (symbol match_byte offset : Z) : M core Z :=
  match fuel with
  | O => mfault
  | S fuel =>
      let match_bit := Z.land match_byte offset in
      let match_byte := u32 (Z.shiftl match_byte 1) in
      a <-- mlift (prob_elem p (offset + match_bit + symbol)) ;;
      bit <-- rc_bit a ;;
      let symbol := if ctrue bit then u32 (u32 (Z.shiftl symbol 1) + 1) else u32 (Z.shiftl symbol 1) in
      let offset := if ctrue bit then Z.land offset match_bit else Z.land offset (lnot_w 32 match_bit) in
      if symbol <? 0x100 then matched_loop fuel p symbol match_byte offset else mret' symbol
  end.

Definition lzma_literal : M core unit :=
  p <-- lzma_literal_probs ;;
  s <-- mget ;;
  symbol <-- (if lzma_state_is_literal (state (lzma s)) then rc_bittree p 0x100
              else mb <-- mlift (dict_get (dict s) (rep0 (lzma s))) ;;
                   matched_loop 32 p 1 (u32 (Z.shiftl mb 1)) 0x100) ;;
  s <-- mget ;;
  d <-- mlift (dict_put (dict s) (u8 symbol)) ;;
  mput (set_dict s d) ;;;
  modify_lzma (fun l => set_state l (lzma_state_literal (state l))).

(** [lzma_len(s, l, pos_state)] with [l] the length decoder at [base]. *)
Definition lzma_len (base pos_state : Z) : M core unit :=
  bit <-- rc_bit (base + LEN_CHOICE) ;;
  (if negb (ctrue bit) then
     p <-- mlift (prob_row (base + LEN_LOW) POS_STATES_MAX LEN_LOW_SYMBOLS pos_state) ;;
     modify_lzma (fun l => set_len l MATCH_LEN_MIN) ;;;
     sym <-- rc_bittree p LEN_LOW_SYMBOLS ;;
     modify_lzma (fun l => set_len l (u32 (len l + u32 (sym - LEN_LOW_SYMBOLS))))
   else
     bit <-- rc_bit (base + LEN_CHOICE2) ;;
     if negb (ctrue bit) then
       p <-- mlift (prob_row (base + LEN_MID) POS_STATES_MAX LEN_MID_SYMBOLS pos_state) ;;
       modify_lzma (fun l => set_len l (MATCH_LEN_MIN + LEN_LOW_SYMBOLS)) ;;;
       sym <-- rc_bittree p LEN_MID_SYMBOLS ;;
       modify_lzma (fun l => set_len l (u32 (len l + u32 (sym - LEN_MID_SYMBOLS))))
     else
       p <-- mlift (prob_row (base + LEN_HIGH) 1 LEN_HIGH_SYMBOLS 0) ;;
       modify_lzma (fun l => set_len l (MATCH_LEN_MIN + LEN_LOW_SYMBOLS + LEN_MID_SYMBOLS)) ;;;
       sym <-- rc_bittree p LEN_HIGH_SYMBOLS ;;
       modify_lzma (fun l => set_len l (u32 (len l + u32 (sym - LEN_HIGH_SYMBOLS))))).

Definition set_rep0 (v : Z) : M core unit :=
  modify_lzma (fun l => set_reps l v (rep1 l) (rep2 l) (rep3 l)).

(** Decode the distance of a match of known length, from [dist_slot] on. *)
Definition lzma_match_dist (dist_slot : Z) : M core unit :=
  if dist_slot <? DIST_MODEL_START then set_rep0 dist_slot
  else
    let limit := Z.shiftr dist_slot 1 - 1 in
    let r0 := 2 + Z.land dist_slot 1 in
    if dist_slot <? DIST_MODEL_END then
      let r0 := u32 (Z.shiftl r0 limit) in
      let p := mk_ptr DIST_SPECIAL (DIST_SPECIAL + (FULL_DISTANCES - DIST_MODEL_END))
                 (DIST_SPECIAL + r0 - dist_slot - 1) in
      r0 <-- rc_bittree_reverse p r0 limit ;;
      set_rep0 r0
    else
      r0 <-- rc_direct r0 (limit - ALIGN_BITS) ;;
      let r0 := u32 (Z.shiftl r0 ALIGN_BITS) in
      p <-- mlift (prob_row DIST_ALIGN 1 ALIGN_SIZE 0) ;;
      r0 <-- rc_bittree_reverse p r0 ALIGN_BITS ;;
      set_rep0 r0.

Definition lzma_match (pos_state : Z) : M core unit :=
  modify_lzma (fun l => set_reps (set_state l (lzma_state_match (state l))) (rep0 l) (rep0 l) (rep1 l) (rep2 l)) ;;;
  lzma_len MATCH_LEN_DEC pos_state ;;;
  s <-- mget ;;
  p <-- mlift (prob_row DIST_SLOT DIST_STATES DIST_SLOTS (lzma_get_dist_state (len (lzma s)))) ;;
  sym <-- rc_bittree p DIST_SLOTS ;;
  lzma_match_dist (u32 (sym - DIST_SLOTS)).

(** [&array[state]] and [&array[state][pos_state]]. *)
Definition state_prob (base : Z) (s : core) : option Z :=
  match prob_row base 1 STATES 0 with Some p => prob_elem p (state (lzma s)) | None => None end.

Definition state_pos_prob (base pos_state : Z) (s : core) : option Z :=
  match prob_row base STATES POS_STATES_MAX (state (lzma s)) with
  | Some p => prob_elem p pos_state
  | None => None
  end.

(** The end of [lzma_rep_match]: a long repeat. *)
Definition long_rep (pos_state : Z) : M core unit :=
  modify_lzma (fun l => set_state l (lzma_state_long_rep (state l))) ;;;
  lzma_len REP_LEN_DEC pos_state.

Definition lzma_rep_match (pos_state : Z) : M core unit :=
  s <-- mget ;;
  a <-- mlift (state_prob IS_REP0 s) ;;
  bit <-- rc_bit a ;;
  if negb (ctrue bit) then
    a <-- mlift (state_pos_prob IS_REP0_LONG pos_state s) ;;
    bit <-- rc_bit a ;;
    if negb (ctrue bit) then
      modify_lzma (fun l => set_len (set_state l (lzma_state_short_rep (state l))) 1)
    else long_rep pos_state
  else
    a <-- mlift (state_prob IS_REP1 s) ;;
    bit <-- rc_bit a ;;
    if negb (ctrue bit) then
      modify_lzma (fun l => set_reps l (rep1 l) (rep0 l) (rep2 l) (rep3 l)) ;;;
      long_rep pos_state
    else
      a <-- mlift (state_prob IS_REP2 s) ;;
      bit <-- rc_bit a ;;
      (if negb (ctrue bit) then modify_lzma (fun l => set_reps l (rep2 l) (rep0 l) (rep1 l) (rep3 l))
       else modify_lzma (fun l => set_reps l (rep3 l) (rep0 l) (rep1 l) (rep2 l))) ;;;
      long_rep pos_state.

(** [dict_repeat(&s->dict, &s->lzma.len, s->lzma.rep0)]. *)
Definition repeat_match : M core bool :=
  s <-- mget ;;
  r <-- mlift (dict_repeat (dict s) (len (lzma s)) (rep0 (lzma s))) ;;
  let '(ok, d, n) := r in
  mput (set_lzma (set_dict s d) (set_len (lzma s) n)) ;;;
  mret' ok.

(** One round of the decoding loop: false when the input is corrupt. *)
Definition lzma_symbol : M core bool :=
  s <-- mget ;;
  let pos_state := Z.land (d_pos (dict s)) (pos_mask (lzma s)) in
  a <-- mlift (state_pos_prob IS_MATCH pos_state s) ;;
  bit <-- rc_bit a ;;
  if negb (ctrue bit) then lzma_literal ;;; mret' true
  else
    s <-- mget ;;
    a <-- mlift (state_prob IS_REP s) ;;
    bit <-- rc_bit a ;;
    (if ctrue bit then lzma_rep_match pos_state else lzma_match pos_state) ;;;
    repeat_match.

Fixpoint lzma_loop (fuel : nat) : M core bool :=
  s <-- mget ;;
  if dict_has_space (dict s) && negb (rc_limit_exceeded (rc s)) then
    match fuel with
    | O => mfault
    | S fuel => ok <-- lzma_symbol ;; if ok then lzma_loop fuel else mret' false
    end
  else mret' true.

(** The LZMA decoder core.  Every round fills the dictionary by a byte or
    more, so the space left bounds the rounds. *)
Definition lzma_main : M core bool :=
  s <-- mget ;;
  (if dict_has_space (dict s) && (0 <? len (lzma s)) then repeat_match else mret' true) ;;;
  s <-- mget ;;
  ok <-- lzma_loop (Z.to_nat (d_limit (dict s) - d_pos (dict s))) ;;
  if ok then rc_normalize ;;; mret' true else mret' false.

Definition lzma_reset (s : core) : core :=
  mk_core (rc_reset (rc s)) (dict s)
    (set_probs (set_reps (set_state (lzma s) STATE_LIT_LIT) 0 0 0 0)
       (replicate (Z.to_nat PROBS_TOTAL) (RC_BIT_MODEL_TOTAL / 2))).

(** [while (props >= step) { props -= step; ++count; }]. *)
Fixpoint props_loop (fuel : nat) (props step count : Z) : Z * Z :=
  match fuel with
  | O => (props, count)
  | S fuel => if step <=? props then props_loop fuel (props - step) step (count + 1) else (props, count)
  end.

(** [lzma_props]: the state is reset on success only. *)
Definition lzma_props (s : core) (props : Z) : bool * core :=
  if (4 * 5 + 4) * 9 + 8 <? props then (false, s) else
  let '(props, pb) := props_loop 256 props (9 * 5) 0 in
  let pos_mask' := u32 (Z.shiftl 1 pb - 1) in
  let '(props, lp) := props_loop 256 props 9 0 in
  let l := lzma s in
  let with_masks lpm := mk_lzma (rep0 l) (rep1 l) (rep2 l) (rep3 l) (state l) (len l) props lpm pos_mask' (probs l) in
  if 4 <? props + lp then (false, set_lzma s (with_masks lp))
  else (true, lzma_reset (set_lzma s (with_masks (u32 (Z.shiftl 1 lp - 1))))).
