(* ===== verification/XzLzmaSafe.v ===== *)
(** * XzLzmaSafe: the LZMA decoder core cannot leave its buffers

    One LZMA symbol never takes more than LZMA_IN_REQUIRED - 1 bytes of input
    plus one for the final normalization, as the comment at LZMA_IN_REQUIRED
    claims: 22 bits with adaptive probabilities and 26 direct bits shrink the
    range by less than 2^160 (a distance below 128 takes a 23rd adaptive bit
    but no direct ones, which is less).  With it, [lzma_main] is memory safe,
    terminates, and only ever extends the history of the dictionary. *)
From Stdlib Require Import ZArith Lia Bool.
From stdpp Require Import base list list_numbers.
From S2P Require Import Prelude PolicyFile Mem XzDict XzLzma.

(** ** The input budget of a symbol *)

(** Two orders of the same product. *)
Ltac reorder := apply Z.eq_le_incl; ring.

(** The least range between two symbols, and the least share of the range
    (of 2^24) that one adaptive bit and one direct bit keep. *)
Definition RANGE_MIN : Z := 253952.
Definition BIT_SHARE : Z := 253921.
Definition DIRECT_SHARE : Z := 2 ^ 23 - 1.

(** From range [r0] to range [r1] with [n] input bytes, [k] adaptive bits and
    [d] direct bits. *)
Definition spent (n k d r0 r1 : Z) : Prop :=
  0 <= n /\ 0 <= k /\ 0 <= d /\ 0 <= r0 /\
  r0 * 256 ^ n * BIT_SHARE ^ k * DIRECT_SHARE ^ d <= r1 * (2 ^ 24) ^ (k + d).

Lemma spent_nil r : 0 <= r -> spent 0 0 0 r r.
Proof. intros. unfold spent. rewrite !Z.pow_0_r. lia. Qed.

Lemma spent_bit n k d r0 r1 r2 m :
  spent n k d r0 r1 -> 0 <= m -> r1 * 256 ^ m * BIT_SHARE <= r2 * 2 ^ 24 -> spent (n + m) (k + 1) d r0 r2.
Proof.
  intros (Hn & Hk & Hd & Hr & H) Hm H2. unfold spent. split_and!; try lia.
  replace (k + 1 + d) with ((k + d) + 1) by lia.
  rewrite (Z.pow_add_r 256 n m), (Z.pow_add_r BIT_SHARE k 1), (Z.pow_add_r (2 ^ 24) (k + d) 1), !Z.pow_1_r by lia.
  set (A := BIT_SHARE ^ k) in *. set (B := DIRECT_SHARE ^ d) in *. set (C := (2 ^ 24) ^ (k + d)) in *.
  assert (0 <= C) by (apply Z.pow_nonneg; lia).
  assert (0 <= 256 ^ m) by (apply Z.pow_nonneg; lia).
  transitivity ((r1 * C) * (256 ^ m * BIT_SHARE)).
  - transitivity ((r0 * 256 ^ n * A * B) * (256 ^ m * BIT_SHARE)); [reorder|].
    apply Z.mul_le_mono_nonneg_r; [unfold BIT_SHARE; lia|done].
  - transitivity ((r1 * 256 ^ m * BIT_SHARE) * C); [reorder|].
    transitivity ((r2 * 2 ^ 24) * C); [|reorder]. by apply Z.mul_le_mono_nonneg_r.
Qed.

Lemma spent_direct n k d r0 r1 r2 m :
  spent n k d r0 r1 -> 0 <= m -> r1 * 256 ^ m * DIRECT_SHARE <= r2 * 2 ^ 24 -> spent (n + m) k (d + 1) r0 r2.
Proof.
  intros (Hn & Hk & Hd & Hr & H) Hm H2. unfold spent. split_and!; try lia.
  replace (k + (d + 1)) with ((k + d) + 1) by lia.
  rewrite (Z.pow_add_r 256 n m), (Z.pow_add_r DIRECT_SHARE d 1), (Z.pow_add_r (2 ^ 24) (k + d) 1), !Z.pow_1_r by lia.
  set (A := BIT_SHARE ^ k) in *. set (B := DIRECT_SHARE ^ d) in *. set (C := (2 ^ 24) ^ (k + d)) in *.
  assert (0 <= C) by (apply Z.pow_nonneg; lia).
  assert (0 <= 256 ^ m) by (apply Z.pow_nonneg; lia).
  transitivity ((r1 * C) * (256 ^ m * DIRECT_SHARE)).
  - transitivity ((r0 * 256 ^ n * A * B) * (256 ^ m * DIRECT_SHARE)); [reorder|].
    apply Z.mul_le_mono_nonneg_r; [unfold DIRECT_SHARE; lia|done].
  - transitivity ((r1 * 256 ^ m * DIRECT_SHARE) * C); [reorder|].
    transitivity ((r2 * 2 ^ 24) * C); [|reorder]. by apply Z.mul_le_mono_nonneg_r.
Qed.

(** More bits allow at least as much. *)
Lemma spent_weaken n k d k' d' r0 r1 : spent n k d r0 r1 -> k <= k' -> d <= d' -> spent n k' d' r0 r1.
Proof.
  intros (Hn & Hk & Hd & Hr & H) Hk' Hd'. unfold spent. split_and!; try lia.
  replace k' with (k + (k' - k)) by lia. replace d' with (d + (d' - d)) by lia.
  replace (k + (k' - k) + (d + (d' - d))) with ((k + d) + (k' - k) + (d' - d)) by lia.
  rewrite (Z.pow_add_r BIT_SHARE), (Z.pow_add_r DIRECT_SHARE), (Z.pow_add_r _ (k + d + (k' - k))), (Z.pow_add_r _ (k + d)) by lia.
  set (x := k' - k). set (y := d' - d).
  assert (Hx : 0 <= BIT_SHARE ^ x <= (2 ^ 24) ^ x).
  { split; [apply Z.pow_nonneg; unfold BIT_SHARE; lia|apply Z.pow_le_mono_l; unfold BIT_SHARE; lia]. }
  assert (Hy : 0 <= DIRECT_SHARE ^ y <= (2 ^ 24) ^ y).
  { split; [apply Z.pow_nonneg; unfold DIRECT_SHARE; lia|apply Z.pow_le_mono_l; unfold DIRECT_SHARE; lia]. }
  assert (0 <= r0 * 256 ^ n * BIT_SHARE ^ k * DIRECT_SHARE ^ d).
  { repeat apply Z.mul_nonneg_nonneg; try lia; apply Z.pow_nonneg; unfold BIT_SHARE, DIRECT_SHARE; lia. }
  transitivity ((r0 * 256 ^ n * BIT_SHARE ^ k * DIRECT_SHARE ^ d) * (BIT_SHARE ^ x * DIRECT_SHARE ^ y)); [reorder|].
  transitivity ((r1 * (2 ^ 24) ^ (k + d)) * ((2 ^ 24) ^ x * (2 ^ 24) ^ y)); [|reorder].
  apply Z.mul_le_mono_nonneg; try done; [apply Z.mul_nonneg_nonneg; lia|apply Z.mul_le_mono_nonneg; lia].
Qed.

(** An adaptive bit costs no more than seven direct ones. *)
Lemma spent_exchange n k d r0 r1 : spent n (k + 1) d r0 r1 -> 0 <= k -> spent n k (d + 7) r0 r1.
Proof.
  intros (Hn & _ & Hd & Hr & H) Hk. unfold spent. split_and!; try lia.
  replace (k + (d + 7)) with (k + 1 + d + 6) by lia.
  rewrite (Z.pow_add_r DIRECT_SHARE), (Z.pow_add_r (2 ^ 24) (k + 1 + d)) by lia.
  rewrite (Z.pow_add_r BIT_SHARE), Z.pow_1_r in H by lia.
  assert (DIRECT_SHARE ^ 7 <= BIT_SHARE * (2 ^ 24) ^ 6) as Hx by (vm_compute; discriminate).
  assert (0 <= r0 * 256 ^ n * BIT_SHARE ^ k * DIRECT_SHARE ^ d).
  { repeat apply Z.mul_nonneg_nonneg; try lia; apply Z.pow_nonneg; unfold BIT_SHARE, DIRECT_SHARE; lia. }
  transitivity ((r0 * 256 ^ n * BIT_SHARE ^ k * DIRECT_SHARE ^ d) * DIRECT_SHARE ^ 7); [reorder|].
  transitivity ((r0 * 256 ^ n * BIT_SHARE ^ k * DIRECT_SHARE ^ d) * (BIT_SHARE * (2 ^ 24) ^ 6));
    [by apply Z.mul_le_mono_nonneg_l|].
  transitivity ((r0 * 256 ^ n * (BIT_SHARE ^ k * BIT_SHARE) * DIRECT_SHARE ^ d) * (2 ^ 24) ^ 6); [reorder|].
  transitivity ((r1 * (2 ^ 24) ^ (k + 1 + d)) * (2 ^ 24) ^ 6); [|reorder].
  apply Z.mul_le_mono_nonneg_r; [lia|done].
Qed.

(** The arithmetic behind LZMA_IN_REQUIRED: with less than 2^24 of the range
    left, at most 20 bytes have been read. *)
Lemma spent_bytes n k d r0 r1 :
  spent n k d r0 r1 -> RANGE_MIN <= r0 -> r1 < RC_TOP_VALUE -> k <= 22 -> d <= 26 -> n <= 20.
Proof.
  intros H Hr0 Hr1 Hk Hd. apply (spent_weaken _ _ _ 22 26) in H; [|done|done].
  destruct H as (Hn & _ & _ & _ & H). destruct (Z.le_gt_cases n 20); [done|exfalso].
  assert (256 ^ 21 <= 256 ^ n) by (apply Z.pow_le_mono_r; lia).
  assert (RANGE_MIN * 256 ^ 21 <= r0 * 256 ^ n) by (apply Z.mul_le_mono_nonneg; unfold RANGE_MIN in *; lia).
  assert (RANGE_MIN * 256 ^ 21 * (BIT_SHARE ^ 22 * DIRECT_SHARE ^ 26) <=
          r0 * 256 ^ n * (BIT_SHARE ^ 22 * DIRECT_SHARE ^ 26)).
  { apply Z.mul_le_mono_nonneg_r; [vm_compute; discriminate|done]. }
  assert (r1 * (2 ^ 24) ^ (22 + 26) <= RC_TOP_VALUE * (2 ^ 24) ^ (22 + 26)).
  { apply Z.mul_le_mono_nonneg_r; [apply Z.pow_nonneg|]; lia. }
  assert (RC_TOP_VALUE * (2 ^ 24) ^ (22 + 26) < RANGE_MIN * 256 ^ 21 * (BIT_SHARE ^ 22 * DIRECT_SHARE ^ 26))
    by (vm_compute; reflexivity).
  lia.
Qed.

Lemma spent_norm n k d r0 r1 : spent n k d r0 r1 -> spent (n + 1) k d r0 (r1 * 256).
Proof.
  intros (Hn & Hk & Hd & Hr & H). unfold spent. split_and!; try lia.
  rewrite (Z.pow_add_r 256 n 1), Z.pow_1_r by lia.
  transitivity ((r0 * 256 ^ n * BIT_SHARE ^ k * DIRECT_SHARE ^ d) * 256); [reorder|].
  transitivity ((r1 * (2 ^ 24) ^ (k + d)) * 256); [|reorder]. lia.
Qed.

(** ** The state while a symbol is decoded *)

Definition probs_ok (ps : list Z) : Prop :=
  zlength ps = PROBS_TOTAL /\ Forall (fun p => 31 <= p <= 2017) ps.

(** [s0] is the state the symbol started in; [k] adaptive and [d] direct bits
    have been decoded since. *)
Definition sym (s0 : core) (k d : Z) (s : core) : Prop :=
  rc_in (rc s) = rc_in (rc s0) /\ rc_in_limit (rc s) = rc_in_limit (rc s0) /\
  bytes_ok (rc_in (rc s)) /\
  0 <= rc_in_pos (rc s0) /\ rc_in_pos (rc s0) + LZMA_IN_REQUIRED <= zlength (rc_in (rc s0)) /\
  RANGE_MIN <= range (rc s0) /\ RANGE_MIN <= range (rc s) < 2 ^ 32 /\ in_range 32 (code (rc s)) /\
  spent (rc_in_pos (rc s) - rc_in_pos (rc s0)) k d (range (rc s0)) (range (rc s)) /\
  probs_ok (probs (lzma s)).

(** Only the range decoder and the probabilities differ. *)
Definition rc_frame (s s' : core) : Prop :=
  dict s' = dict s /\ lzma s' = set_probs (lzma s) (probs (lzma s')).

Lemma rc_frame_refl s : rc_frame s s.
Proof. split; [done|]. by destruct s as [? ? []]. Qed.

Lemma rc_frame_trans s1 s2 s3 : rc_frame s1 s2 -> rc_frame s2 s3 -> rc_frame s1 s3.
Proof. intros [H1 H2] [H3 H4]. split; [congruence|]. rewrite H4, H2. done. Qed.

Lemma sym_input s0 k d s :
  sym s0 k d s -> k <= 22 -> d <= 26 -> range (rc s) < RC_TOP_VALUE ->
  0 <= rc_in_pos (rc s) < zlength (rc_in (rc s)).
Proof.
  intros (Hin & _ & _ & H0 & H21 & Hr0 & _ & _ & Hsp & _) Hk Hd Hr.
  pose proof (spent_bytes _ _ _ _ _ Hsp Hr0 Hr Hk Hd). destruct Hsp as (? & _).
  rewrite Hin. unfold LZMA_IN_REQUIRED in *. lia.
Qed.

Lemma rc_normalize_ok s0 k d s :
  sym s0 k d s -> k <= 22 -> d <= 26 ->
  wp rc_normalize (fun _ s' => sym s0 k d s' /\ RC_TOP_VALUE <= range (rc s') /\ rc_frame s s' /\
    lzma s' = lzma s /\ rc_in_pos (rc s) <= rc_in_pos (rc s')) s.
Proof.
  intros Hs Hk Hd. unfold rc_normalize. do 2 wp_step. destruct (Z.ltb_spec (range (rc s)) RC_TOP_VALUE) as [Hlt|].
  2:{ wp_step. split_and!; auto using rc_frame_refl; lia. }
  pose proof (sym_input _ _ _ _ Hs Hk Hd Hlt) as Hp.
  destruct (rd_ok (rc_in (rc s)) (rc_in_pos (rc s)) Hp) as [v Hv].
  wp_step. eapply wp_lift; [exact Hv|]. wp_step.
  destruct Hs as (Hin & Hli & Hb & H0 & H21 & Hr0 & Hr & Hc & Hsp & Hps).
  assert (Hsh : u32 (Z.shiftl (range (rc s)) RC_SHIFT_BITS) = range (rc s) * 256).
  { unfold RC_SHIFT_BITS, RC_TOP_VALUE, RANGE_MIN in *. rewrite Z.shiftl_mul_pow2 by lia.
    apply wrap_small. unfold in_range. lia. }
  unfold sym, RC_TOP_VALUE, RANGE_MIN, rc_frame in *; cbn [rc dict lzma set_rc range code rc_in rc_in_pos rc_in_limit].
  rewrite Hsh. split_and!; try done; try lia.
  - by apply wrap_range.
  - replace (rc_in_pos (rc s) + 1 - rc_in_pos (rc s0)) with (rc_in_pos (rc s) - rc_in_pos (rc s0) + 1) by lia.
    by apply spent_norm.
  - by destruct (lzma s).
Qed.

Lemma prob_up p : 31 <= p <= 2017 ->
  31 <= u16 (p + Z.shiftr (RC_BIT_MODEL_TOTAL - p) RC_MOVE_BITS) <= 2017.
Proof.
  intros. unfold RC_BIT_MODEL_TOTAL, RC_MOVE_BITS. rewrite Z.shiftr_div_pow2 by lia.
  change (2 ^ 11) with 2048. change (2 ^ 5) with 32.
  assert (0 <= (2048 - p) / 32) by (apply Z.div_pos; lia).
  assert (p + (2048 - p) / 32 <= 2017).
  { assert ((2048 - p) / 32 < 2018 - p); [|lia]. apply Z.div_lt_upper_bound; lia. }
  rewrite wrap_small by (unfold in_range; lia). lia.
Qed.

Lemma prob_down p : 31 <= p <= 2017 -> 31 <= u16 (p - Z.shiftr p RC_MOVE_BITS) <= 2017.
Proof.
  intros. unfold RC_MOVE_BITS. rewrite Z.shiftr_div_pow2 by lia. change (2 ^ 5) with 32.
  assert (0 <= p / 32) by (apply Z.div_pos; lia).
  assert (p / 32 < p - 30) by (apply Z.div_lt_upper_bound; lia).
  rewrite wrap_small by (unfold in_range; lia). lia.
Qed.

(** The split of a normalized range by a probability. *)
Lemma bound_share r p :
  RC_TOP_VALUE <= r < 2 ^ 32 -> 31 <= p <= 2017 ->
  let bound := Z.shiftr r RC_BIT_MODEL_TOTAL_BITS * p in
  RANGE_MIN <= bound <= r - RANGE_MIN /\ r * BIT_SHARE <= bound * 2 ^ 24 /\
  r * BIT_SHARE <= (r - bound) * 2 ^ 24.
Proof.
  unfold RC_TOP_VALUE, RC_BIT_MODEL_TOTAL_BITS, RANGE_MIN, BIT_SHARE. intros Hr Hp. cbv zeta.
  rewrite Z.shiftr_div_pow2 by lia. change (2 ^ 11) with 2048 in *.
  pose proof (Z.div_mod r 2048 ltac:(lia)) as Hd. pose proof (Z.mod_pos_bound r 2048 ltac:(lia)).
  set (q := r / 2048) in *. assert (8192 <= q) by (apply Z.div_le_lower_bound; lia).
  assert (31 * q <= q * p) by nia. assert (q * p <= q * 2017) by nia.
  split_and!; lia.
Qed.

Lemma rc_bit_ok s0 k d s a :
  sym s0 k d s -> k + 1 <= 22 -> d <= 26 -> 0 <= a < PROBS_TOTAL ->
  wp (rc_bit a) (fun bit s' => (bit = 0 \/ bit = 1) /\ sym s0 (k + 1) d s' /\ rc_frame s s') s.
Proof.
  intros Hs Hk Hd Ha. unfold rc_bit. wp_step.
  eapply wp_mono; [apply rc_normalize_ok; [exact Hs|lia|done]|]. cbv beta.
  intros _ s1 (Hs1 & Htop & Hf1 & _ & _). do 2 wp_step.
  pose proof Hs1 as (Hin & Hli & Hb & H0 & H21 & Hr0 & Hr & Hc & Hsp & Hlen & Hps).
  destruct (rd_ok (probs (lzma s1)) a) as [p Hp]; [by rewrite Hlen|].
  pose proof (rd_forall _ _ _ _ Hps Hp) as Hpr. cbv beta in Hpr.
  wp_step. eapply wp_lift; [exact Hp|].
  destruct (bound_share (range (rc s1)) p ltac:(lia) Hpr) as (Hbd & Hs0 & Hs1').
  set (bound := Z.shiftr _ _ * p) in *.
  rewrite (wrap_small 32 bound) by (unfold in_range, RANGE_MIN in *; lia).
  assert (Hnew : forall v, 31 <= v <= 2017 -> exists ps', wr (probs (lzma s1)) a v = Some ps' /\ probs_ok ps').
  { intros v Hv. destruct (wr (probs (lzma s1)) a v) as [ps'|] eqn:Hw; [|rewrite wr_ok in Hw by lia; done].
    exists ps'. split; [done|]. split; [by rewrite (wr_length _ _ _ _ Hw)|by eapply wr_forall]. }
  assert (Hfin : forall r' c' ps', RANGE_MIN <= r' < 2 ^ 32 -> in_range 32 c' -> probs_ok ps' ->
    range (rc s1) * BIT_SHARE <= r' * 2 ^ 24 ->
    let s2 := set_lzma (set_rc s1 (set_range_code (rc s1) r' c')) (set_probs (lzma s1) ps') in
    sym s0 (k + 1) d s2 /\ rc_frame s s2).
  { intros r' c' ps' Hr' Hc' Hps' Hsh. cbv zeta. split.
    - unfold sym; simpl. split_and!; try done; try lia; [|apply Hps'..].
      replace (rc_in_pos (rc s1) - rc_in_pos (rc s0)) with (rc_in_pos (rc s1) - rc_in_pos (rc s0) + 0) by lia.
      eapply spent_bit; [exact Hsp|lia|]. rewrite Z.pow_0_r. lia.
    - eapply rc_frame_trans; [exact Hf1|]. split; [done|]. done. }
  unfold in_range in Hc. destruct (Z.ltb_spec (code (rc s1)) bound).
  - destruct (Hnew _ (prob_up p Hpr)) as (ps' & Hw & Hok). wp_step. eapply wp_lift; [exact Hw|].
    do 3 wp_step. split; [by left|]. apply Hfin; unfold in_range; auto. unfold RANGE_MIN in *. lia.
  - destruct (Hnew _ (prob_down p Hpr)) as (ps' & Hw & Hok). wp_step. eapply wp_lift; [exact Hw|].
    do 3 wp_step. split; [by right|]. unfold RANGE_MIN in *. rewrite !wrap_small by (unfold in_range; lia).
    apply Hfin; unfold in_range; auto; lia.
Qed.

(** ** Bit trees *)

(** [p[1]] to [p[n - 1]] are variables of the array [p] points into. *)
Definition ptr_ok (p : prob_ptr) (n : Z) : Prop :=
  forall i, 1 <= i < n -> prob_elem p i = Some (p_off p + i) /\ 0 <= p_off p + i < PROBS_TOTAL.

Lemma prob_row_ok base n m i :
  0 <= base -> 0 <= m -> 0 <= i < n -> base + m * n <= PROBS_TOTAL ->
  exists p, prob_row base n m i = Some p /\ ptr_ok p m /\ p_off p = base + m * i /\
    forall j, 0 <= j < m -> prob_elem p j = Some (base + m * i + j).
Proof.
  intros Hb Hm Hi Ht. unfold prob_row. replace ((0 <=? i) && (i <? n)) with true by lia.
  eexists. split; [done|]. assert (m * i + m <= m * n) by nia. split_and!; [|done|].
  - intros j Hj. unfold prob_elem; simpl. replace (_ && _) with true by lia. split; [done|]. lia.
  - intros j Hj. unfold prob_elem; simpl. by replace (_ && _) with true by lia.
Qed.

(** One more bit of a symbol. *)
Lemma next_symbol symbol bit j :
  0 <= j <= 29 -> 2 ^ j <= symbol < 2 ^ (j + 1) -> bit = 0 \/ bit = 1 ->
  (if ctrue bit then u32 (u32 (Z.shiftl symbol 1) + 1) else u32 (Z.shiftl symbol 1)) = 2 * symbol + bit /\
  2 ^ (j + 1) <= 2 * symbol + bit < 2 ^ (j + 1 + 1).
Proof.
  intros Hj Hs Hbit. rewrite Z.shiftl_mul_pow2 by lia. rewrite !Z.pow_add_r in * by lia.
  change (2 ^ 1) with 2 in *. assert (2 ^ j <= 2 ^ 29) by (apply Z.pow_le_mono_r; lia).
  assert (0 < 2 ^ j) by (apply Z.pow_pos_nonneg; lia).
  destruct Hbit as [-> | ->]; cbn [ctrue Z.eqb negb]; rewrite !wrap_small; unfold in_range;
    rewrite ?wrap_small; unfold in_range; lia.
Qed.

Lemma bittree_loop_ok fuel rem s0 k d s p symbol m :
  sym s0 k d s -> k + Z.of_nat rem <= 22 -> d <= 26 -> m <= 16 -> ptr_ok p (2 ^ m) ->
  0 <= m - Z.of_nat rem -> (0 < rem <= fuel)%nat ->
  2 ^ (m - Z.of_nat rem) <= symbol < 2 ^ (m - Z.of_nat rem + 1) ->
  wp (bittree_loop fuel p symbol (2 ^ m)) (fun v s' =>
    2 ^ m <= v < 2 ^ (m + 1) /\ sym s0 (k + Z.of_nat rem) d s' /\ rc_frame s s') s.
Proof.
  revert rem k s symbol. induction fuel as [|fuel IH]; intros rem k s symbol Hs Hk Hd Hm Hp Hj Hf Hsy; [lia|].
  cbn [bittree_loop]. set (j := m - Z.of_nat rem) in *.
  assert (Hsm : 1 <= symbol < 2 ^ m).
  { assert (2 ^ 0 <= 2 ^ j) by (apply Z.pow_le_mono_r; lia).
    assert (2 ^ (j + 1) <= 2 ^ m) by (apply Z.pow_le_mono_r; lia). lia. }
  destruct (Hp symbol Hsm) as [Hel Hrg].
  wp_step. eapply wp_lift; [exact Hel|]. wp_step.
  eapply wp_mono; [apply (rc_bit_ok s0 k d s); [done|lia|done|done]|]. cbv beta.
  intros bit s1 (Hbit & Hs1 & Hf1).
  destruct (next_symbol symbol bit j ltac:(lia) Hsy Hbit) as [-> Hn].
  destruct rem as [|rem]; [lia|]. destruct rem as [|rem].
  - replace m with (j + 1) by lia. destruct (Z.ltb_spec (2 * symbol + bit) (2 ^ (j + 1))); [lia|].
    wp_step. done.
  - assert (2 ^ (j + 1 + 1) <= 2 ^ m) by (apply Z.pow_le_mono_r; lia).
    destruct (Z.ltb_spec (2 * symbol + bit) (2 ^ m)); [|lia].
    eapply wp_mono; [apply (IH (S rem) (k + 1)); try done; try lia|].
    + by replace (m - Z.of_nat (S rem)) with (j + 1) by lia.
    + cbv beta. intros v s2 (Hv & Hs2 & Hf2). split; [done|].
      replace (k + Z.of_nat (S (S rem))) with (k + 1 + Z.of_nat (S rem)) by lia.
      split; [done|]. by eapply rc_frame_trans.
Qed.

Lemma rc_bittree_ok s0 k d s p m :
  sym s0 k d s -> k + m <= 22 -> d <= 26 -> 0 < m <= 8 -> ptr_ok p (2 ^ m) ->
  wp (rc_bittree p (2 ^ m)) (fun v s' =>
    2 ^ m <= v < 2 * 2 ^ m /\ sym s0 (k + m) d s' /\ rc_frame s s') s.
Proof.
  intros Hs Hk Hd Hm Hp. unfold rc_bittree. eapply wp_mono.
  - apply (bittree_loop_ok 32 (Z.to_nat m) s0 k d); try done; try lia.
    replace (m - Z.of_nat (Z.to_nat m)) with 0 by lia. simpl. lia.
  - cbv beta. intros v s' (Hv & Hs' & Hf). rewrite Z2Nat.id in Hs' by lia.
    rewrite Z.pow_add_r in Hv by lia. split_and!; try done; lia.
Qed.

Lemma bittree_reverse_loop_ok fuel rem s0 k d s p symbol i dest limit :
  sym s0 k d s -> k + Z.of_nat rem <= 22 -> d <= 26 -> limit <= 16 -> ptr_ok p (2 ^ limit) ->
  i = limit - Z.of_nat rem -> 0 <= i -> (0 < rem <= fuel)%nat ->
  2 ^ i <= symbol < 2 ^ (i + 1) -> in_range 32 dest ->
  wp (bittree_reverse_loop fuel p symbol i dest limit) (fun v s' =>
    in_range 32 v /\ sym s0 (k + Z.of_nat rem) d s' /\ rc_frame s s') s.
Proof.
  revert rem k s symbol i dest. induction fuel as [|fuel IH];
    intros rem k s symbol i dest Hs Hk Hd Hm Hp Hi Hi0 Hf Hsy Hdest; [lia|].
  cbn [bittree_reverse_loop].
  assert (Hsm : 1 <= symbol < 2 ^ limit).
  { assert (2 ^ 0 <= 2 ^ i) by (apply Z.pow_le_mono_r; lia).
    assert (2 ^ (i + 1) <= 2 ^ limit) by (apply Z.pow_le_mono_r; lia). lia. }
  destruct (Hp symbol Hsm) as [Hel Hrg].
  wp_step. eapply wp_lift; [exact Hel|]. wp_step.
  eapply wp_mono; [apply (rc_bit_ok s0 k d s); [done|lia|done|done]|]. cbv beta.
  intros bit s1 (Hbit & Hs1 & Hf1).
  destruct (next_symbol symbol bit i ltac:(lia) Hsy Hbit) as [-> Hn].
  assert (Hd' : in_range 32 (if ctrue bit then u32 (dest + Z.shiftl 1 i) else dest))
    by (destruct (ctrue bit); [by apply wrap_range|done]).
  destruct (Z.ltb_spec (i + 1) limit).
  - destruct rem as [|rem]; [lia|]. eapply wp_mono; [apply (IH rem (k + 1)); try done; try lia|].
    cbv beta. intros v s2 (Hv & Hs2 & Hf2). split; [done|].
    replace (k + Z.of_nat (S rem)) with (k + 1 + Z.of_nat rem) by lia.
    split; [done|]. by eapply rc_frame_trans.
  - wp_step. by replace (Z.of_nat rem) with 1 by lia.
Qed.

Lemma rc_bittree_reverse_ok s0 k d s p dest limit :
  sym s0 k d s -> k + limit <= 22 -> d <= 26 -> 0 < limit <= 16 -> ptr_ok p (2 ^ limit) ->
  in_range 32 dest ->
  wp (rc_bittree_reverse p dest limit) (fun v s' =>
    in_range 32 v /\ sym s0 (k + limit) d s' /\ rc_frame s s') s.
Proof.
  intros Hs Hk Hd Hm Hp Hdest. unfold rc_bittree_reverse. eapply wp_mono.
  - apply (bittree_reverse_loop_ok 32 (Z.to_nat limit) s0 k d); try done; lia.
  - cbv beta. intros v s' (Hv & Hs' & Hf). rewrite Z2Nat.id in Hs' by lia. done.
Qed.

Lemma rc_direct_loop_ok fuel rem s0 k d s dest :
  sym s0 k d s -> k <= 22 -> d + Z.of_nat rem <= 26 -> (0 < rem <= fuel)%nat -> in_range 32 dest ->
  wp (rc_direct_loop fuel dest (Z.of_nat rem)) (fun v s' =>
    in_range 32 v /\ sym s0 k (d + Z.of_nat rem) s' /\ rc_frame s s') s.
Proof.
  revert rem d s dest. induction fuel as [|fuel IH]; intros rem d s dest Hs Hk Hd Hf Hdest; [lia|].
  cbn [rc_direct_loop]. wp_step.
  eapply wp_mono; [apply rc_normalize_ok; [exact Hs|lia|lia]|]. cbv beta.
  intros _ s1 (Hs1 & Htop & Hf1 & _ & _). do 4 wp_step.
  destruct Hs1 as (Hin & Hli & Hb & H0 & H21 & Hr0 & Hr & Hc & Hsp & Hps).
  assert (0 <= d) by apply Hsp.
  set (r' := Z.shiftr (range (rc s1)) 1).
  assert (Hr' : 2 * r' <= range (rc s1) <= 2 * r' + 1).
  { unfold r'. rewrite Z.shiftr_div_pow2 by lia. change (2 ^ 1) with 2.
    pose proof (Z.div_mod (range (rc s1)) 2 ltac:(lia)). pose proof (Z.mod_pos_bound (range (rc s1)) 2 ltac:(lia)). lia. }
  set (s2 := set_rc s1 _).
  assert (Hs2 : sym s0 k (d + 1) s2 /\ rc_frame s s2).
  { split.
    - unfold sym, s2, RANGE_MIN, RC_TOP_VALUE in *; simpl. split_and!; try done; try lia; [by apply wrap_range|].
      replace (rc_in_pos (rc s1) - rc_in_pos (rc s0)) with (rc_in_pos (rc s1) - rc_in_pos (rc s0) + 0) by lia.
      eapply spent_direct; [exact Hsp|lia|]. rewrite Z.pow_0_r. unfold DIRECT_SHARE. lia.
    - eapply rc_frame_trans; [exact Hf1|]. split; [done|]. by destruct s1 as [? ? []]. }
  destruct Hs2 as [Hs2 Hf2]. rewrite (wrap_small 32 (Z.of_nat rem - 1)) by (unfold in_range; lia).
  destruct (Z.ltb_spec 0 (Z.of_nat rem - 1)).
  - replace (Z.of_nat rem - 1) with (Z.of_nat (rem - 1)) by lia.
    eapply wp_mono; [apply (IH (rem - 1)%nat (d + 1)); try done; try lia; by apply wrap_range|]. cbv beta.
    intros v s3 (Hv & Hs3 & Hf3). split; [done|].
    replace (d + Z.of_nat rem) with (d + 1 + Z.of_nat (rem - 1)) by lia. split; [done|]. by eapply rc_frame_trans.
  - wp_step. replace (Z.of_nat rem) with 1 by lia. split; [by apply wrap_range|done].
Qed.

(** ** Symbols *)

Definition params_ok (l : lzma_dec) : Prop :=
  exists lp pb, 0 <= lc l /\ 0 <= lp /\ lc l + lp <= 4 /\ literal_pos_mask l = 2 ^ lp - 1 /\
    0 <= pb <= 4 /\ pos_mask l = 2 ^ pb - 1.

Definition reps_ok (l : lzma_dec) : Prop :=
  in_range 32 (rep0 l) /\ in_range 32 (rep1 l) /\ in_range 32 (rep2 l) /\ in_range 32 (rep3 l).

(** After anything but a literal, [rep0] is a distance inside the history. *)
Definition lz_ok (l : lzma_dec) (full : Z) : Prop :=
  params_ok l /\ reps_ok l /\ 0 <= state l < STATES /\ in_range 32 (len l) /\
  (LIT_STATES <= state l -> rep0 l < full).

Definition core_inv (s : core) (r : list Z) : Prop :=
  dict_inv (dict s) r /\ lz_ok (lzma s) (d_full (dict s)).

Lemma sym_weaken s0 k d k' d' s : sym s0 k d s -> k <= k' -> d <= d' -> sym s0 k' d' s.
Proof.
  intros (? & ? & ? & ? & ? & ? & ? & ? & ? & ?) Hk Hd. unfold sym. split_and!; try done; try lia.
  by eapply spent_weaken.
Qed.

Lemma sym_exchange s0 k d s : sym s0 (k + 1) d s -> 0 <= k -> sym s0 k (d + 7) s.
Proof.
  intros (? & ? & ? & ? & ? & ? & ? & ? & ? & ?) Hk. unfold sym. split_and!; try done; try lia.
  by apply spent_exchange.
Qed.

Lemma sym_same s0 k d s s' :
  sym s0 k d s -> rc s' = rc s -> probs (lzma s') = probs (lzma s) -> sym s0 k d s'.
Proof. unfold sym. intros H -> ->. done. Qed.

Lemma rc_frame_inv s s' r : rc_frame s s' -> core_inv s r -> core_inv s' r.
Proof. intros [Hd Hl] [H1 H2]. unfold core_inv. rewrite Hd, Hl. by split. Qed.

Lemma mask_bound x n : 0 <= n -> 0 <= Z.land x (2 ^ n - 1) < 2 ^ n.
Proof. intros. rewrite land_ones_eq_mod by done. apply Z.mod_pos_bound. lia. Qed.

Lemma mask_below x n m : 0 <= n <= m -> 0 <= Z.land x (2 ^ n - 1) < 2 ^ m.
Proof.
  intros. pose proof (mask_bound x n ltac:(lia)).
  assert (2 ^ n <= 2 ^ m) by (apply Z.pow_le_mono_r; lia). lia.
Qed.

(** The literal coder is one of the sixteen. *)
Lemma literal_coder_range l prev pos :
  params_ok l -> in_range 8 prev ->
  0 <= Z.shiftr prev (8 - lc l) + Z.shiftl (Z.land pos (literal_pos_mask l)) (lc l) < LITERAL_CODERS_MAX.
Proof.
  intros (lp & pb & Hlc & Hlp & Hsum & -> & _) Hp. unfold in_range in Hp.
  rewrite Z.shiftr_div_pow2, Z.shiftl_mul_pow2 by lia. pose proof (mask_bound pos lp Hlp) as Hm.
  assert (Hlow : 0 <= prev / 2 ^ (8 - lc l) < 2 ^ lc l).
  { assert (0 < 2 ^ (8 - lc l)) by (apply Z.pow_pos_nonneg; lia). split; [apply Z.div_pos; lia|].
    apply Z.div_lt_upper_bound; [lia|]. rewrite <- Z.pow_add_r by lia. replace (8 - lc l + lc l) with 8 by lia. lia. }
  assert (2 ^ lp * 2 ^ lc l <= 16).
  { rewrite <- Z.pow_add_r by lia. change 16 with (2 ^ 4). apply Z.pow_le_mono_r; lia. }
  unfold LITERAL_CODERS_MAX. nia.
Qed.

(** In a literal after a match, [offset] is 0 or 0x100. *)
Lemma matched_offsets mb offset bit :
  offset = 0 \/ offset = 0x100 ->
  let match_bit := Z.land mb offset in
  (match_bit = 0 \/ match_bit = 0x100) /\
  let offset' := if ctrue bit then Z.land offset match_bit else Z.land offset (lnot_w 32 match_bit) in
  offset' = 0 \/ offset' = 0x100.
Proof.
  intros Ho. cbv zeta.
  assert (Z.land mb offset = 0 \/ Z.land mb offset = 0x100) as Hm.
  { destruct Ho as [-> | ->]; [left; apply Z.land_0_r|].
    assert (Z.land mb 0x100 = if Z.testbit mb 8 then 0x100 else 0) as ->; [|case_match; auto].
    apply Z.bits_inj'. intros i Hi. rewrite Z.land_spec. change 0x100 with (2 ^ 8).
    rewrite Z.pow2_bits_eqb by lia. destruct (Z.eqb_spec 8 i) as [<-|Hne].
    - rewrite andb_true_r. destruct (Z.testbit mb 8); [by rewrite Z.pow2_bits_true by lia|by rewrite Z.bits_0].
    - rewrite andb_false_r. destruct (Z.testbit mb 8); [by rewrite Z.pow2_bits_false by lia|by rewrite Z.bits_0]. }
  split; [done|]. destruct Ho as [-> | ->], Hm as [-> | ->], (ctrue bit); vm_compute; auto.
Qed.

Lemma matched_loop_ok fuel rem s0 k d s p symbol mb offset :
  sym s0 k d s -> k + Z.of_nat rem <= 22 -> d <= 26 -> ptr_ok p 0x300 ->
  0 <= 8 - Z.of_nat rem -> (0 < rem <= fuel)%nat -> offset = 0 \/ offset = 0x100 ->
  2 ^ (8 - Z.of_nat rem) <= symbol < 2 ^ (8 - Z.of_nat rem + 1) ->
  wp (matched_loop fuel p symbol mb offset) (fun v s' =>
    sym s0 (k + Z.of_nat rem) d s' /\ rc_frame s s') s.
Proof.
  revert rem k s symbol mb offset.
  induction fuel as [|fuel IH]; intros rem k s symbol mb offset Hs Hk Hd Hp Hj Hf Ho Hsy; [lia|].
  cbn [matched_loop]. set (j := 8 - Z.of_nat rem) in *.
  assert (Hsm : 1 <= symbol < 0x100).
  { assert (2 ^ 0 <= 2 ^ j) by (apply Z.pow_le_mono_r; lia).
    assert (2 ^ (j + 1) <= 2 ^ 8) by (apply Z.pow_le_mono_r; lia). lia. }
  destruct (matched_offsets mb offset 0 Ho) as [Hmb _].
  destruct (Hp (offset + Z.land mb offset + symbol) ltac:(lia)) as [Hel Hrg].
  wp_step. eapply wp_lift; [exact Hel|]. wp_step.
  eapply wp_mono; [apply (rc_bit_ok s0 k d s); [done|lia|done|done]|]. cbv beta.
  intros bit s1 (Hbit & Hs1 & Hf1).
  destruct (next_symbol symbol bit j ltac:(lia) Hsy Hbit) as [-> Hn].
  destruct (matched_offsets mb offset bit Ho) as [_ Ho'].
  destruct rem as [|rem]; [lia|]. destruct rem as [|rem].
  - replace (j + 1) with 8 in Hn by lia. destruct (Z.ltb_spec (2 * symbol + bit) 0x100); [lia|]. wp_step. done.
  - assert (2 ^ (j + 1 + 1) <= 2 ^ 8) by (apply Z.pow_le_mono_r; lia).
    destruct (Z.ltb_spec (2 * symbol + bit) 0x100); [|lia].
    eapply wp_mono; [apply (IH (S rem) (k + 1)); try done; try lia|].
    + by replace (8 - Z.of_nat (S rem)) with (j + 1) by lia.
    + cbv beta. intros v s2 (Hs2 & Hf2).
      replace (k + Z.of_nat (S (S rem))) with (k + 1 + Z.of_nat (S rem)) by lia.
      split; [done|]. by eapply rc_frame_trans.
Qed.

Lemma state_literal_range st : 0 <= st < STATES -> 0 <= lzma_state_literal st < LIT_STATES.
Proof.
  unfold lzma_state_literal, STATE_SHORTREP_LIT_LIT, STATE_LIT_SHORTREP, STATE_LIT_LIT, STATES, LIT_STATES.
  repeat case_match; lia.
Qed.

(** A literal adds one byte to the history. *)
Lemma lzma_literal_ok s0 s r :
  sym s0 1 0 s -> core_inv s r -> dict_has_space (dict s) = true ->
  wp lzma_literal (fun _ s' => exists v, sym s0 9 0 s' /\ core_inv s' (v :: r) /\
    d_pos (dict s') = d_pos (dict s) + 1 /\ dict_frame (dict s) (dict s') /\ len (lzma s') = len (lzma s)) s.
Proof.
  intros Hs [Hd (Hpar & Hreps & Hst & Hlen & Hrep)] Hsp. unfold lzma_literal, lzma_literal_probs.
  pose proof Hd as ((Hp & _) & _).
  do 3 wp_step. destruct (dict_get_byte (dict s) r 0 Hd) as (pb & Hpb & Hpr); [lia|].
  wp_step. eapply wp_lift; [exact Hpb|].
  destruct (prob_row_ok LITERAL LITERAL_CODERS_MAX LITERAL_CODER_SIZE
    (Z.shiftr pb (8 - lc (lzma s)) + Z.shiftl (Z.land (d_pos (dict s)) (literal_pos_mask (lzma s))) (lc (lzma s))))
    as (p & Hrow & Hptr & _); [done|done|by apply literal_coder_range|done|].
  eapply wp_lift; [exact Hrow|]. do 3 wp_step.
  assert (Hbits : wp (if lzma_state_is_literal (state (lzma s)) then rc_bittree p 0x100
     else mb <-- mlift (dict_get (dict s) (rep0 (lzma s))) ;; matched_loop 32 p 1 (u32 (Z.shiftl mb 1)) 0x100)
     (fun v s' => sym s0 9 0 s' /\ rc_frame s s') s).
  { unfold lzma_state_is_literal. destruct (Z.ltb_spec (state (lzma s)) LIT_STATES).
    - change 0x100 with (2 ^ 8). eapply wp_mono; [apply (rc_bittree_ok s0 1 0 s p 8); try done|].
      + intros i Hi. apply Hptr. unfold LITERAL_CODER_SIZE. lia.
      + cbv beta. tauto.
    - destruct Hreps as (Hr0 & _). unfold in_range in Hr0.
      destruct (dict_get_byte (dict s) r (rep0 (lzma s)) Hd) as (mb & Hmb & _); [lia|].
      wp_step. eapply wp_lift; [exact Hmb|].
      eapply wp_mono; [apply (matched_loop_ok 32 8 s0 1 0); try done; try lia|]. cbv beta. done. }
  eapply wp_mono; [exact Hbits|]. cbv beta. intros v s1 [Hs1 [Hfd Hfl]].
  do 3 wp_step. destruct (dict_put_ok (dict s) r (u8 v) Hd Hsp) as (d' & Hput & Hinv' & Hpos' & Hfr);
    [by apply wrap_range|].
  eapply wp_lift; [by rewrite Hfd; exact Hput|]. do 2 wp_step. unfold modify_lzma. do 3 wp_step.
  exists (u8 v). split_and!.
  - by eapply sym_same.
  - split; [done|]. cbn [dict lzma set_dict set_lzma]. rewrite Hfl. unfold lz_ok; simpl.
    pose proof (state_literal_range (state (lzma s)) Hst). unfold STATES, LIT_STATES in *.
    split_and!; try done; lia.
  - done.
  - done.
  - simpl. by rewrite Hfl.
Qed.
