(* ===== verification/XzLzmaThms.v ===== *)
(** * XzLzmaThms: the LZMA decoder core

    Matches, the decoding loop and [lzma_main], on top of the input budget and
    the literals of [XzLzmaSafe]. *)
From Stdlib Require Import ZArith Lia Bool.
From stdpp Require Import base list list_numbers.
From S2P Require Import Prelude PolicyFile Mem XzDict XzLzma XzLzmaSafe.

(** Use a triple for the first step. *)
Ltac wp_apply tm := eapply wp_mono; [eapply tm|cbv beta].

(** ** Lengths *)

Definition len_post (s0 : core) (k d : Z) (s s' : core) : Prop :=
  sym s0 k d s' /\ dict s' = dict s /\
  exists n, 2 <= n <= 273 /\ lzma s' = set_len (set_probs (lzma s) (probs (lzma s'))) n.

Lemma wp_modify_lzma f (Q : unit -> core -> Prop) s :
  Q tt (set_lzma s (f (lzma s))) -> wp (modify_lzma f) Q s.
Proof. done. Qed.

(** One of the three branches of [lzma_len]. *)
Lemma len_branch_ok s0 k d s base n i lo m :
  sym s0 k d s -> k + m <= 22 -> d <= 26 -> 0 < m <= 8 -> 0 <= base -> 0 <= i < n ->
  base + 2 ^ m * n <= PROBS_TOTAL -> 2 <= lo -> lo + 2 ^ m <= 274 ->
  wp (p <-- mlift (prob_row base n (2 ^ m) i) ;;
      modify_lzma (fun l => set_len l lo) ;;;
      sym <-- rc_bittree p (2 ^ m) ;;
      modify_lzma (fun l => set_len l (u32 (len l + u32 (sym - 2 ^ m)))))
     (fun _ s' => len_post s0 (k + m) d s s') s.
Proof.
  intros Hs Hk Hd Hm Hb Hi Ht Hlo Hhi.
  destruct (prob_row_ok base n (2 ^ m) i) as (p & Hrow & Hptr & _); [done|lia|done|done|].
  wp_step. eapply wp_lift; [exact Hrow|]. wp_step. apply wp_modify_lzma. wp_step.
  wp_apply (rc_bittree_ok s0 k d (set_lzma s (set_len (lzma s) lo)) p m); try done.
  intros v s1 (Hv & Hs1 & [Hfd Hfl]). apply wp_modify_lzma. cbn [dict lzma set_lzma] in *.
  assert (len (lzma s1) = lo) as Hlen by (by rewrite Hfl).
  rewrite Hlen, (wrap_small 32 (v - 2 ^ m)) by (unfold in_range; lia).
  rewrite wrap_small by (unfold in_range; lia). split_and!.
  - by eapply sym_same.
  - done.
  - exists (lo + (v - 2 ^ m)). split; [lia|]. simpl. by rewrite Hfl.
Qed.

Lemma len_post_frame s0 k d s s1 s2 :
  rc_frame s s1 -> len_post s0 k d s1 s2 -> len_post s0 k d s s2.
Proof.
  intros [Hd Hl] (Hs & Hd2 & n & Hn & Hl2). split; [done|]. split; [congruence|].
  exists n. split; [done|]. by rewrite Hl2, Hl.
Qed.

Lemma len_post_weaken s0 k k' d s s' : len_post s0 k d s s' -> k <= k' -> len_post s0 k' d s s'.
Proof. intros (Hs & ? & ?) Hk. split; [by eapply sym_weaken|done]. Qed.

Lemma lzma_len_ok s0 k d s base pos_state :
  sym s0 k d s -> k + 10 <= 22 -> d <= 26 -> 0 <= base -> base + 514 <= PROBS_TOTAL ->
  0 <= pos_state < POS_STATES_MAX ->
  wp (lzma_len base pos_state) (fun _ s' => len_post s0 (k + 10) d s s') s.
Proof.
  intros Hs Hk Hd Hb Ht Hp. unfold lzma_len, LEN_CHOICE, LEN_CHOICE2, LEN_LOW, LEN_MID, LEN_HIGH, POS_STATES_MAX in *.
  wp_step. wp_apply (rc_bit_ok s0 k d s); [done|lia|lia|lia|]. intros bit s1 (_ & Hs1 & Hf1).
  destruct (negb (ctrue bit)).
  { wp_apply (len_branch_ok s0 (k + 1) d s1 (base + 2) 16 pos_state MATCH_LEN_MIN 3); try done; try lia.
    intros _ s2 H2. eapply len_post_weaken; [by eapply len_post_frame|lia]. }
  wp_step. wp_apply (rc_bit_ok s0 (k + 1) d s1); [done|lia|lia|lia|]. intros bit2 s2 (_ & Hs2 & Hf2).
  pose proof (rc_frame_trans _ _ _ Hf1 Hf2) as Hf. destruct (negb (ctrue bit2)).
  - wp_apply (len_branch_ok s0 (k + 1 + 1) d s2 (base + 130) 16 pos_state (MATCH_LEN_MIN + LEN_LOW_SYMBOLS) 3);
      try done; try lia.
    intros _ s3 H3. eapply len_post_weaken; [by eapply len_post_frame|lia].
  - wp_apply (len_branch_ok s0 (k + 1 + 1) d s2 (base + 258) 1 0 (MATCH_LEN_MIN + LEN_LOW_SYMBOLS + LEN_MID_SYMBOLS) 8);
      try done; try lia.
    intros _ s3 H3. eapply len_post_weaken; [by eapply len_post_frame|lia].
Qed.

(** ** Matches *)

(** What the decoding of a match, up to the copy, leaves. *)
Definition match_post (s0 s s' : core) : Prop :=
  sym s0 22 26 s' /\ dict s' = dict s /\ params_ok (lzma s') /\ reps_ok (lzma s') /\
  0 <= state (lzma s') < STATES /\ 1 <= len (lzma s') <= 273.

(** The part of [dist_special] for a slot. *)
Lemma dist_special_ok slot :
  DIST_MODEL_START <= slot < DIST_MODEL_END ->
  let limit := Z.shiftr slot 1 - 1 in
  let r0 := u32 (Z.shiftl (2 + Z.land slot 1) limit) in
  1 <= limit <= 5 /\ in_range 32 r0 /\
  ptr_ok (mk_ptr DIST_SPECIAL (DIST_SPECIAL + (FULL_DISTANCES - DIST_MODEL_END)) (DIST_SPECIAL + r0 - slot - 1)) (2 ^ limit).
Proof.
  unfold DIST_MODEL_START, DIST_MODEL_END. intros Hs. cbv zeta.
  assert (slot = 4 \/ slot = 5 \/ slot = 6 \/ slot = 7 \/ slot = 8 \/ slot = 9 \/ slot = 10 \/ slot = 11 \/
    slot = 12 \/ slot = 13) as Hc by lia.
  repeat destruct Hc as [-> | Hc]; try subst slot; (split; [done|]; split; [done|]);
    intros i; vm_compute (2 ^ _); vm_compute (mk_ptr _ _ _); intros Hi; unfold prob_elem;
    cbn [p_lo p_hi p_off]; unfold PROBS_TOTAL, LITERAL_CODERS_MAX, LITERAL_CODER_SIZE;
    replace (_ && _) with true by lia; (split; [done|lia]).
Qed.

Lemma slot_limit slot : DIST_MODEL_END <= slot < 64 -> 2 <= Z.shiftr slot 1 - 1 - ALIGN_BITS <= 26.
Proof.
  unfold DIST_MODEL_END, ALIGN_BITS. intros. rewrite Z.shiftr_div_pow2 by lia. change (2 ^ 1) with 2.
  assert (7 <= slot / 2) by (apply Z.div_le_lower_bound; lia).
  assert (slot / 2 < 32) by (apply Z.div_lt_upper_bound; lia). lia.
Qed.

Lemma set_rep0_ok s0 v s :
  sym s0 22 26 s -> params_ok (lzma s) -> reps_ok (lzma s) -> 0 <= state (lzma s) < STATES ->
  1 <= len (lzma s) <= 273 -> in_range 32 v ->
  wp (set_rep0 v) (fun _ s' => match_post s0 s s') s.
Proof.
  intros Hs Hp Hr Hst Hl Hv. unfold set_rep0. apply wp_modify_lzma. destruct Hr as (_ & ? & ? & ?).
  split; [by eapply sym_same|]. split_and!; try done; try (simpl; lia).
Qed.

Lemma match_post_frame s0 s s1 s2 : rc_frame s s1 -> match_post s0 s1 s2 -> match_post s0 s s2.
Proof. intros [Hd _] (? & Hd2 & ?). split; [done|]. split; [congruence|done]. Qed.

Lemma rc_frame_facts s s' :
  rc_frame s s' -> params_ok (lzma s) -> reps_ok (lzma s) ->
  params_ok (lzma s') /\ reps_ok (lzma s') /\ state (lzma s') = state (lzma s) /\ len (lzma s') = len (lzma s).
Proof. intros [_ ->]. done. Qed.

Lemma lzma_match_dist_ok s0 s slot :
  sym s0 18 0 s -> params_ok (lzma s) -> reps_ok (lzma s) -> 0 <= state (lzma s) < STATES ->
  1 <= len (lzma s) <= 273 -> 0 <= slot < DIST_SLOTS ->
  wp (lzma_match_dist slot) (fun _ s' => match_post s0 s s') s.
Proof.
  unfold DIST_SLOTS. intros Hs Hp Hr Hst Hl Hslot. unfold lzma_match_dist.
  assert (Hfin : forall s1 v, sym s0 22 26 s1 -> rc_frame s s1 -> in_range 32 v ->
    wp (set_rep0 v) (fun _ s' => match_post s0 s s') s1).
  { intros s1 v Hs1 Hf Hv. destruct (rc_frame_facts _ _ Hf Hp Hr) as (Hp1 & Hr1 & Hst1 & Hl1).
    wp_apply (set_rep0_ok s0 v s1); [done|done|done|by rewrite Hst1|by rewrite Hl1|done|].
    intros _ s2 H2. by eapply match_post_frame. }
  destruct (Z.ltb_spec slot DIST_MODEL_START).
  { apply Hfin; [by eapply sym_weaken|apply rc_frame_refl|unfold in_range; lia]. }
  destruct (Z.ltb_spec slot DIST_MODEL_END).
  - destruct (dist_special_ok slot ltac:(lia)) as (Hlim & Hr0 & Hptr). wp_step.
    wp_apply (rc_bittree_reverse_ok s0 17 (0 + 7) s); [by apply sym_exchange|lia|lia|lia|exact Hptr|done|].
    intros v s1 (Hv & Hs1 & Hf1). apply Hfin; [eapply sym_weaken; [exact Hs1|lia|lia]|done|done].
  - pose proof (slot_limit slot ltac:(lia)) as Hlim. wp_step. unfold rc_direct.
    set (n := Z.shiftr slot 1 - 1 - ALIGN_BITS) in *. clearbody n.
    replace n with (Z.of_nat (Z.to_nat n)) by lia.
    assert (0 <= Z.land slot 1 < 2) by exact (mask_bound slot 1 ltac:(done)).
    wp_apply (rc_direct_loop_ok 32 (Z.to_nat n) s0 18 0 s); [done|done|lia|lia|unfold in_range; lia|].
    intros v s1 (Hv & Hs1 & Hf1). wp_step.
    destruct (prob_row_ok DIST_ALIGN 1 ALIGN_SIZE 0) as (p & Hrow & Hptr & _); [done..|].
    eapply wp_lift; [exact Hrow|]. wp_step.
    wp_apply (rc_bittree_reverse_ok s0 18 (0 + Z.of_nat (Z.to_nat n)) s1); [done|done|lia|done|exact Hptr|by apply wrap_range|].
    intros v2 s2 (Hv2 & Hs2 & Hf2). apply Hfin; [eapply sym_weaken; [exact Hs2|done|lia]|by eapply rc_frame_trans|done].
Qed.

Lemma dist_state_range l : 2 <= l -> 0 <= lzma_get_dist_state l < DIST_STATES.
Proof. unfold lzma_get_dist_state, DIST_STATES, MATCH_LEN_MIN. intros. case_match; lia. Qed.

Lemma state_prob_ok base s :
  0 <= base -> base + STATES <= PROBS_TOTAL -> 0 <= state (lzma s) < STATES ->
  exists a, state_prob base s = Some a /\ 0 <= a < PROBS_TOTAL.
Proof.
  intros Hb Ht Hst. unfold state_prob.
  destruct (prob_row_ok base 1 STATES 0) as (p & -> & _ & _ & Hel); [done|done|done|lia|].
  rewrite Hel by done. eexists. split; [done|]. lia.
Qed.

Lemma state_pos_prob_ok base pos_state s :
  0 <= base -> base + POS_STATES_MAX * STATES <= PROBS_TOTAL -> 0 <= state (lzma s) < STATES ->
  0 <= pos_state < POS_STATES_MAX ->
  exists a, state_pos_prob base pos_state s = Some a /\ 0 <= a < PROBS_TOTAL.
Proof.
  unfold POS_STATES_MAX, STATES in *. intros Hb Ht Hst Hp. unfold state_pos_prob, STATES, POS_STATES_MAX.
  destruct (prob_row_ok base 12 16 (state (lzma s))) as (p & -> & _ & _ & Hel); [done|done|done|lia|].
  rewrite Hel by done. eexists. split; [done|]. lia.
Qed.

Lemma state_match_range st :
  (0 <= lzma_state_match st < STATES) /\ (0 <= lzma_state_long_rep st < STATES) /\
  (0 <= lzma_state_short_rep st < STATES).
Proof.
  unfold lzma_state_match, lzma_state_long_rep, lzma_state_short_rep, STATE_LIT_MATCH, STATE_NONLIT_MATCH,
    STATE_LIT_LONGREP, STATE_NONLIT_REP, STATE_LIT_SHORTREP, STATES. repeat case_match; lia.
Qed.

Lemma lzma_match_ok s0 s pos_state :
  sym s0 2 0 s -> params_ok (lzma s) -> reps_ok (lzma s) -> 0 <= pos_state < POS_STATES_MAX ->
  wp (lzma_match pos_state) (fun _ s' => match_post s0 s s') s.
Proof.
  intros Hs Hp Hr Hps. unfold lzma_match. wp_step. apply wp_modify_lzma.
  set (s1 := set_lzma s _). assert (Hs1 : sym s0 2 0 s1) by (by eapply sym_same).
  assert (Hr1 : reps_ok (lzma s1)) by (destruct Hr as (? & ? & ? & ?); done).
  destruct (state_match_range (state (lzma s))) as (Hst1 & _).
  wp_step. wp_apply (lzma_len_ok s0 2 0 s1 MATCH_LEN_DEC pos_state); [done..|].
  intros _ s2 (Hs2 & Hd2 & n & Hn & Hl2). do 3 wp_step.
  assert (Hlen : len (lzma s2) = n) by (by rewrite Hl2). rewrite Hlen.
  destruct (prob_row_ok DIST_SLOT DIST_STATES DIST_SLOTS (lzma_get_dist_state n)) as (p & Hrow & Hptr & _);
    [done|done|apply dist_state_range; lia|done|].
  eapply wp_lift; [exact Hrow|]. wp_step. change DIST_SLOTS with (2 ^ 6) in *.
  wp_apply (rc_bittree_ok s0 (2 + 10) 0 s2 p 6); [done..|]. intros v s3 (Hv & Hs3 & Hf3).
  destruct (rc_frame_facts _ _ Hf3) as (Hp3 & Hr3 & Hst3 & Hl3); [by rewrite Hl2|by rewrite Hl2|].
  rewrite wrap_small by (unfold in_range; lia).
  wp_apply (lzma_match_dist_ok s0 s3 (v - 2 ^ 6)).
  - done.
  - done.
  - done.
  - rewrite Hst3, Hl2. apply Hst1.
  - rewrite Hl3, Hlen. lia.
  - unfold DIST_SLOTS. lia.
  - intros _ s4 H4. eapply match_post_frame in H4; [|exact Hf3]. destruct H4 as (? & Hd4 & ?).
    split; [done|]. split; [by rewrite Hd4, Hd2|done].
Qed.

Lemma long_rep_ok s0 k s s1 pos_state :
  sym s0 k 0 s1 -> k <= 12 -> params_ok (lzma s1) -> reps_ok (lzma s1) -> dict s1 = dict s ->
  0 <= pos_state < POS_STATES_MAX ->
  wp (long_rep pos_state) (fun _ s' => match_post s0 s s') s1.
Proof.
  intros Hs Hk Hp Hr Hd Hps. unfold long_rep. wp_step. apply wp_modify_lzma.
  destruct (state_match_range (state (lzma s1))) as (_ & Hst1 & _).
  wp_apply (lzma_len_ok s0 k 0 (set_lzma s1 (set_state (lzma s1) (lzma_state_long_rep (state (lzma s1))))) REP_LEN_DEC pos_state);
    [by eapply sym_same|lia|done|done|done|done|].
  intros _ s2 (Hs2 & Hd2 & n & Hn & Hl2). unfold match_post. rewrite Hl2, Hd2. simpl.
  split_and!; try done; try lia; [|apply Hr..].
  eapply sym_weaken; [exact Hs2|lia|lia].
Qed.

Lemma lzma_rep_match_ok s0 s pos_state :
  sym s0 2 0 s -> params_ok (lzma s) -> reps_ok (lzma s) -> 0 <= state (lzma s) < STATES ->
  0 <= pos_state < POS_STATES_MAX ->
  wp (lzma_rep_match pos_state) (fun _ s' => match_post s0 s s') s.
Proof.
  intros Hs Hp Hr Hst Hps. pose proof Hr as (Hr0 & Hr1 & Hr2 & Hr3). unfold lzma_rep_match. do 3 wp_step.
  destruct (state_prob_ok IS_REP0 s) as (a0 & Ha0 & Hra0); [done..|]. eapply wp_lift; [exact Ha0|]. wp_step.
  wp_apply (rc_bit_ok s0 2 0 s a0); [done..|]. intros bit s1 (_ & Hs1 & Hf1).
  destruct (rc_frame_facts _ _ Hf1 Hp Hr) as (Hp1 & Hrr1 & Hst1 & Hl1). destruct Hf1 as [Hfd1 Hfl1].
  destruct (negb (ctrue bit)).
  - destruct (state_pos_prob_ok IS_REP0_LONG pos_state s) as (a & Ha & Hra); [done..|].
    wp_step. eapply wp_lift; [exact Ha|]. wp_step.
    wp_apply (rc_bit_ok s0 (2 + 1) 0 s1 a); [done..|]. intros bit2 s2 (_ & Hs2 & Hf2).
    destruct (rc_frame_facts _ _ Hf2 Hp1 Hrr1) as (Hp2 & Hrr2 & Hst2 & Hl2). destruct Hf2 as [Hfd2 Hfl2].
    destruct (negb (ctrue bit2)).
    + apply wp_modify_lzma. destruct (state_match_range (state (lzma s2))) as (_ & _ & Hss).
      split; [apply (sym_same s0 22 26 s2); [eapply sym_weaken; [exact Hs2|lia|lia]|done|done]|].
      split; [simpl; congruence|]. simpl. split_and!; try done; try apply Hss; try apply Hrr2; lia.
    + wp_apply (long_rep_ok s0 (2 + 1 + 1) s s2); try done. congruence.
  - destruct (state_prob_ok IS_REP1 s) as (a & Ha & Hra); [done..|].
    wp_step. eapply wp_lift; [exact Ha|]. wp_step.
    wp_apply (rc_bit_ok s0 (2 + 1) 0 s1 a); [done..|]. intros bit2 s2 (_ & Hs2 & Hf2).
    destruct (rc_frame_facts _ _ Hf2 Hp1 Hrr1) as (Hp2 & Hrr2 & Hst2 & Hl2). destruct Hf2 as [Hfd2 Hfl2].
    assert (Hreps2 : forall a b c e, in_range 32 a -> in_range 32 b -> in_range 32 c -> in_range 32 e ->
      reps_ok (set_reps (lzma s2) a b c e)) by done.
    destruct Hrr2 as (? & ? & ? & ?). destruct (negb (ctrue bit2)).
    + wp_step. apply wp_modify_lzma. wp_apply (long_rep_ok s0 (2 + 1 + 1) s); try done. simpl; congruence.
    + destruct (state_prob_ok IS_REP2 s) as (a2 & Ha2 & Hra2); [done..|].
      wp_step. eapply wp_lift; [exact Ha2|]. wp_step.
      wp_apply (rc_bit_ok s0 (2 + 1 + 1) 0 s2 a2); [done..|]. intros bit3 s3 (_ & Hs3 & Hf3).
      destruct (rc_frame_facts _ _ Hf3 Hp2) as (Hp3 & (? & ? & ? & ?) & Hst3 & Hl3); [done|]. destruct Hf3 as [Hfd3 Hfl3].
      wp_step. destruct (negb (ctrue bit3)); apply wp_modify_lzma;
        (wp_apply (long_rep_ok s0 (2 + 1 + 1 + 1) s); try done; simpl; congruence).
Qed.

(** ** Copies *)

Lemma lz_copy_app n dist r : exists new, lz_copy n dist r = new ++ r /\ length new = n.
Proof.
  revert r. induction n as [|n IH]; intros r; simpl; [by exists []|].
  destruct (IH (default 0 (rd r dist) :: r)) as (new & -> & Hl).
  exists (new ++ [default 0 (rd r dist)]). rewrite <- app_assoc, length_app. simpl. split; [done|lia].
Qed.

(** The dictionary grew by the bytes [new] (latest first). *)
Definition grown (d d' : dictionary) (r new : list Z) : Prop :=
  dict_inv d' (new ++ r) /\ d_pos d' = d_pos d + zlength new /\ d_pos d' <= d_limit d' /\ dict_frame d d'.

Lemma dict_frame_refl d : dict_frame d d.
Proof. by unfold dict_frame. Qed.

Lemma dict_frame_trans d1 d2 d3 : dict_frame d1 d2 -> dict_frame d2 d3 -> dict_frame d1 d3.
Proof. unfold dict_frame. intros (?&?&?&?&?&?&?&?&?) (?&?&?&?&?&?&?&?&?). split_and!; (congruence || lia). Qed.

Lemma grown_trans d d1 d2 r new1 new2 :
  grown d d1 r new1 -> grown d1 d2 (new1 ++ r) new2 -> grown d d2 r (new2 ++ new1).
Proof.
  intros (_ & Hp1 & _ & Hf1) (Hi2 & Hp2 & Hl2 & Hf2). unfold grown. rewrite <- app_assoc, zlength_app.
  split_and!; [done|lia|done|by eapply dict_frame_trans].
Qed.

Lemma repeat_match_ok s r :
  dict_inv (dict s) r -> dict_has_space (dict s) = true -> 0 < len (lzma s) < 2 ^ 32 ->
  in_range 32 (rep0 (lzma s)) ->
  wp repeat_match (fun ok s' => rc s' = rc s /\
    (exists n, lzma s' = set_len (lzma s) n /\ 0 <= n <= len (lzma s)) /\
    if ok then rep0 (lzma s) < d_full (dict s') /\
               exists new, new <> [] /\ grown (dict s) (dict s') r new
    else dict s' = dict s) s.
Proof.
  intros Hd Hsp Hlen Hr. unfold repeat_match. do 3 wp_step. unfold in_range in Hr.
  pose proof (dict_repeat_ok (dict s) r (len (lzma s)) (rep0 (lzma s)) Hd Hsp Hlen ltac:(lia)) as Hrep.
  cbv zeta in Hrep. unfold dict_has_space in Hsp. apply Z.ltb_lt in Hsp.
  set (n := Z.min _ _) in Hrep. assert (Hn : 0 < n <= len (lzma s) /\ n <= d_limit (dict s) - d_pos (dict s)) by lia.
  clearbody n. destruct (Z.ltb_spec (rep0 (lzma s)) (d_full (dict s))).
  - destruct Hrep as (d' & Heq & Hinv & Hpos & Hfr). eapply wp_lift; [exact Heq|]. cbv beta iota. do 3 wp_step.
    split; [done|]. split; [exists (len (lzma s) - n); split; [done|lia]|].
    destruct (lz_copy_app (Z.to_nat n) (rep0 (lzma s)) r) as (new & Hc & Hl). rewrite Hc in Hinv.
    pose proof Hfr as (_ & Hli & _ & _ & _ & _ & _ & _ & Hfull). cbn [dict set_lzma set_dict].
    split; [lia|]. exists new. split; [intros ->; simpl in Hl; lia|].
    unfold grown. rewrite Hpos. unfold zlength. split_and!; try done; lia.
  - eapply wp_lift; [exact Hrep|]. cbv beta iota. do 3 wp_step. split; [done|].
    split; [|done]. exists (len (lzma s)). split; [done|lia].
Qed.

(** ** One symbol *)

(** A state in which a symbol can start. *)
Definition rc_start (s : core) : Prop :=
  bytes_ok (rc_in (rc s)) /\ 0 <= rc_in_pos (rc s) /\ RANGE_MIN <= range (rc s) < 2 ^ 32 /\
  in_range 32 (code (rc s)) /\ probs_ok (probs (lzma s)) /\
  rc_in_limit (rc s) + LZMA_IN_REQUIRED <= zlength (rc_in (rc s)).

Lemma sym_start s : rc_start s -> rc_in_pos (rc s) <= rc_in_limit (rc s) -> sym s 0 0 s.
Proof.
  intros (Hb & Hp & Hr & Hc & Hps & Hl) Hlim. unfold sym. unfold RANGE_MIN in *.
  split_and!; try done; try lia; [|apply Hps..]. rewrite Z.sub_diag. apply spent_nil. lia.
Qed.

Lemma sym_rc_start s0 k d s :
  sym s0 k d s -> rc_start s0 -> rc_start s.
Proof.
  intros (Hin & Hli & Hb & H0 & H21 & Hr0 & Hr & Hc & Hsp & Hps) (_ & _ & _ & _ & _ & Hl).
  destruct Hsp as (Hn & _). unfold rc_start. rewrite Hli, Hin in *. split_and!; try done; try lia; apply Hps.
Qed.

Lemma pos_state_range l pos : params_ok l -> 0 <= Z.land pos (pos_mask l) < POS_STATES_MAX.
Proof. intros (lp & pb & _ & _ & _ & _ & Hpb & ->). exact (mask_below pos pb 4 ltac:(lia)). Qed.

Lemma lz_ok_set_len l full full' n :
  lz_ok l full -> full <= full' -> in_range 32 n -> lz_ok (set_len l n) full'.
Proof.
  intros (Hp & Hr & Hst & _ & Hrep) Hf Hn. unfold lz_ok; simpl. split_and!; try done; try lia; try apply Hr; try apply Hst.
Qed.

Lemma lzma_symbol_ok s r :
  core_inv s r -> rc_start s -> rc_in_pos (rc s) <= rc_in_limit (rc s) -> dict_has_space (dict s) = true ->
  wp lzma_symbol (fun ok s' => sym s 22 26 s' /\
    (ok = true -> exists new, new <> [] /\ core_inv s' (new ++ r) /\ grown (dict s) (dict s') r new)) s.
Proof.
  intros Hinv Hst Hlim Hsp. pose proof (sym_start s Hst Hlim) as Hs.
  pose proof Hinv as [Hd (Hpar & Hreps & Hstate & Hlen & Hrep)].
  pose proof (pos_state_range _ (d_pos (dict s)) Hpar) as Hps. unfold lzma_symbol. do 3 wp_step.
  destruct (state_pos_prob_ok IS_MATCH (Z.land (d_pos (dict s)) (pos_mask (lzma s))) s) as (a & Ha & Hra); [done..|].
  eapply wp_lift; [exact Ha|]. wp_step.
  wp_apply (rc_bit_ok s 0 0 s a); [done..|]. intros bit s1 (_ & Hs1 & Hf1).
  pose proof (rc_frame_inv _ _ _ Hf1 Hinv) as Hinv1.
  destruct (rc_frame_facts _ _ Hf1 Hpar Hreps) as (Hp1 & Hr1 & Hst1 & Hl1). destruct Hf1 as [Hfd1 Hfl1].
  destruct (negb (ctrue bit)).
  - wp_step. wp_apply (lzma_literal_ok s s1 r); [done|done|by rewrite Hfd1|].
    intros _ s2 (v & Hs2 & Hinv2 & Hpos2 & Hfr2 & _). wp_step. split; [by eapply sym_weaken|]. intros _.
    exists [v]. split; [done|]. split; [done|]. rewrite Hfd1 in Hpos2, Hfr2. split; [apply Hinv2|].
    split; [done|]. split; [|done]. unfold dict_has_space in Hsp. apply Z.ltb_lt in Hsp.
    destruct Hfr2 as (_ & -> & _). lia.
  - do 3 wp_step. destruct (state_prob_ok IS_REP s1) as (a1 & Ha1 & Hra1); [done|done|by rewrite Hst1|].
    eapply wp_lift; [exact Ha1|]. wp_step.
    wp_apply (rc_bit_ok s (0 + 1) 0 s1 a1); [done..|]. intros bit2 s2 (_ & Hs2 & Hf2).
    destruct (rc_frame_facts _ _ Hf2 Hp1 Hr1) as (Hp2 & Hr2 & Hst2 & Hl2). destruct Hf2 as [Hfd2 Hfl2].
    wp_step.
    assert (Hmatch : wp (if ctrue bit2 then lzma_rep_match (Z.land (d_pos (dict s)) (pos_mask (lzma s)))
      else lzma_match (Z.land (d_pos (dict s)) (pos_mask (lzma s)))) (fun _ s' => match_post s s2 s') s2).
    { destruct (ctrue bit2); [apply lzma_rep_match_ok|apply lzma_match_ok]; try done.
      by rewrite Hst2, Hst1. }
    eapply wp_mono; [exact Hmatch|]. cbv beta. intros _ s3 (Hs3 & Hd3 & Hp3 & Hr3 & Hst3 & Hl3).
    assert (Hd3' : dict s3 = dict s) by congruence.
    wp_apply (repeat_match_ok s3 r); [by rewrite Hd3'|by rewrite Hd3'|lia|apply Hr3|].
    intros ok s4 (Hrc4 & (n & Hl4 & Hn) & Hok).
    split; [eapply sym_same; [exact Hs3|done|by rewrite Hl4]|]. intros ->.
    destruct Hok as (Hrep4 & new & Hne & Hg). rewrite Hd3' in Hg. exists new. split; [done|]. split; [|done].
    split; [apply Hg|]. rewrite Hl4. unfold lz_ok; simpl. split_and!; try done; try apply Hr3; try apply Hst3; unfold in_range; lia.
Qed.

(** ** The loop *)

(** More than 20 bytes are only read when the last of them normalized the
    range. *)
Lemma spent_bytes_total n k d r0 r1 :
  spent n k d r0 r1 -> RANGE_MIN <= r0 -> r1 < 2 ^ 32 -> k <= 22 -> d <= 26 -> n <= 21.
Proof.
  intros H Hr0 Hr1 Hk Hd. apply (spent_weaken _ _ _ 22 26) in H; [|done|done].
  destruct H as (Hn & _ & _ & _ & H). destruct (Z.le_gt_cases n 21); [done|exfalso].
  assert (256 ^ 22 <= 256 ^ n) by (apply Z.pow_le_mono_r; lia).
  assert (RANGE_MIN * 256 ^ 22 <= r0 * 256 ^ n) by (apply Z.mul_le_mono_nonneg; unfold RANGE_MIN in *; lia).
  assert (RANGE_MIN * 256 ^ 22 * (BIT_SHARE ^ 22 * DIRECT_SHARE ^ 26) <=
          r0 * 256 ^ n * (BIT_SHARE ^ 22 * DIRECT_SHARE ^ 26)).
  { apply Z.mul_le_mono_nonneg_r; [vm_compute; discriminate|done]. }
  assert (r1 * (2 ^ 24) ^ (22 + 26) <= 2 ^ 32 * (2 ^ 24) ^ (22 + 26)).
  { apply Z.mul_le_mono_nonneg_r; [apply Z.pow_nonneg|]; lia. }
  assert (2 ^ 32 * (2 ^ 24) ^ (22 + 26) < RANGE_MIN * 256 ^ 22 * (BIT_SHARE ^ 22 * DIRECT_SHARE ^ 26))
    by (vm_compute; reflexivity).
  lia.
Qed.

(** Between symbols: normalized, or just behind a symbol that began within
    the limit. *)
Definition rc_mid (s : core) : Prop :=
  rc_start s /\
  (RC_TOP_VALUE <= range (rc s) /\ rc_in_pos (rc s) <= rc_in_limit (rc s) + LZMA_IN_REQUIRED \/
   exists s1, sym s1 22 26 s /\ rc_in_pos (rc s1) <= rc_in_limit (rc s1)).

(** The same input, further on. *)
Definition rc_ahead (s s' : core) : Prop :=
  rc_in (rc s') = rc_in (rc s) /\ rc_in_limit (rc s') = rc_in_limit (rc s) /\
  rc_in_pos (rc s) <= rc_in_pos (rc s').

Lemma rc_ahead_refl s : rc_ahead s s.
Proof. by unfold rc_ahead. Qed.

Lemma rc_ahead_trans s1 s2 s3 : rc_ahead s1 s2 -> rc_ahead s2 s3 -> rc_ahead s1 s3.
Proof. unfold rc_ahead. intros (?&?&?) (?&?&?). split_and!; (congruence || lia). Qed.

Lemma sym_ahead s0 k d s : sym s0 k d s -> rc_ahead s0 s.
Proof. intros (? & ? & _ & _ & _ & _ & _ & _ & (? & _) & _). split_and!; (done || lia). Qed.

Lemma grown_refl d r : dict_inv d r -> d_pos d <= d_limit d -> grown d d r [].
Proof.
  intros. unfold grown. change (zlength ([] : list Z)) with 0. split_and!; [done|lia|done|apply dict_frame_refl].
Qed.

Lemma lzma_loop_ok fuel s r :
  core_inv s r -> rc_mid s -> d_pos (dict s) <= d_limit (dict s) ->
  d_limit (dict s) - d_pos (dict s) <= Z.of_nat fuel ->
  wp (lzma_loop fuel) (fun ok s' => ok = true -> exists new, core_inv s' (new ++ r) /\
    grown (dict s) (dict s') r new /\ rc_mid s' /\ rc_ahead s s' /\
    (dict_has_space (dict s) && negb (rc_limit_exceeded (rc s)) = true -> new <> [])) s.
Proof.
  revert s r. induction fuel as [|fuel IH]; intros s r Hinv Hmid Hlim Hfuel; cbn [lzma_loop]; do 2 wp_step;
    destruct (dict_has_space (dict s) && negb (rc_limit_exceeded (rc s))) eqn:Hc;
    try (wp_step; intros _; exists []; split_and!; try done; apply grown_refl; [apply Hinv|done]).
  { unfold dict_has_space in Hc. lia. }
  apply andb_true_iff in Hc as [Hsp Hex%negb_true_iff]. unfold rc_limit_exceeded in Hex. apply Z.ltb_ge in Hex.
  wp_step. wp_apply (lzma_symbol_ok s r); [done|apply Hmid|done|done|].
  intros ok s1 [Hs1 Hok]. destruct ok; [|wp_step; done]. destruct (Hok eq_refl) as (new & Hne & Hinv1 & Hg).
  pose proof Hg as (_ & Hpos1 & Hlim1 & Hfr1). destruct Hfr1 as (_ & Hdl & _).
  assert (0 < zlength new) by (unfold zlength; destruct new; [done|simpl; lia]).
  wp_apply (IH s1 (new ++ r)); [done| |done|lia|].
  - split; [eapply sym_rc_start; [done|apply Hmid]|]. right. by exists s.
  - intros ok2 s2 H2 ->. destruct (H2 eq_refl) as (new2 & Hinv2 & Hg2 & Hmid2 & Hah2 & _).
    exists (new2 ++ new). rewrite <- app_assoc. split_and!; try done.
    + by eapply grown_trans.
    + eapply rc_ahead_trans; [by eapply sym_ahead|done].
    + intros _ He. apply app_eq_nil in He as [_ ->]. done.
Qed.

(** What the callers of [lzma_main] may rely on. *)
Definition main_post (s : core) (r : list Z) (s' : core) : Prop :=
  exists new, core_inv s' (new ++ r) /\ grown (dict s) (dict s') r new /\ rc_start s' /\
    RC_TOP_VALUE <= range (rc s') /\ rc_ahead s s' /\
    rc_in_pos (rc s') <= rc_in_limit (rc s') + LZMA_IN_REQUIRED /\
    (dict_has_space (dict s) = true -> new <> []).

(** [rc_normalize] at the end of [lzma_main]. *)
Lemma normalize_mid s :
  rc_mid s ->
  wp rc_normalize (fun _ s' => rc_start s' /\ RC_TOP_VALUE <= range (rc s') /\ rc_ahead s s' /\
    rc_in_pos (rc s') <= rc_in_limit (rc s') + LZMA_IN_REQUIRED /\ dict s' = dict s /\ lzma s' = lzma s) s.
Proof.
  intros [Hst Hor]. destruct (Z.le_gt_cases RC_TOP_VALUE (range (rc s))) as [Htop|Hlow].
  - assert (Hpos : rc_in_pos (rc s) <= rc_in_limit (rc s) + LZMA_IN_REQUIRED).
    { destruct Hor as [[_ ?]|(s1 & Hs1 & Hl1)]; [done|]. destruct Hs1 as (_ & -> & _ & _ & _ & Hr0 & Hr & _ & Hsp & _).
      pose proof (spent_bytes_total _ _ _ _ _ Hsp Hr0 ltac:(lia) ltac:(lia) ltac:(lia)). unfold LZMA_IN_REQUIRED. lia. }
    unfold rc_normalize. do 2 wp_step. replace (range (rc s) <? RC_TOP_VALUE) with false by lia. wp_step.
    split_and!; done.
  - destruct Hor as [[? _]|(s1 & Hs1 & Hl1)]; [lia|].
    pose proof (sym_input _ _ _ _ Hs1 ltac:(lia) ltac:(lia) ltac:(lia)) as Hin.
    wp_apply (rc_normalize_ok s1 22 26 s); [done..|]. intros _ s2 (Hs2 & Htop & [Hfd _] & Hl & Hmono).
    pose proof Hs1 as (Hin1 & Hli1 & _). pose proof Hs2 as (Hin2 & Hli2 & _ & _ & _ & Hr0 & Hr2 & _ & Hsp2 & _).
    pose proof (spent_bytes_total _ _ _ _ _ Hsp2 Hr0 ltac:(lia) ltac:(lia) ltac:(lia)).
    assert (rc_start s2).
    { destruct Hst as (_ & _ & _ & _ & _ & Hl21). destruct Hs2 as (_ & _ & Hb2 & H02 & _ & _ & _ & Hc2 & (Hn2 & _) & Hps2).
      unfold rc_start, RANGE_MIN, RC_TOP_VALUE in *. rewrite Hin2, Hli2 in *. rewrite Hin1, Hli1 in Hl21.
      split_and!; try done; try lia; apply Hps2. }
    unfold rc_ahead, LZMA_IN_REQUIRED. split_and!; try done; (congruence || lia).
Qed.

Lemma lz_ok_full l full full' : lz_ok l full -> full <= full' -> lz_ok l full'.
Proof. intros (? & ? & ? & ? & ?) ?. unfold lz_ok. split_and!; try done; lia. Qed.

(** The first step of [lzma_main]: the rest of a match that did not fit. *)
Lemma pending_ok s r :
  core_inv s r -> rc_mid s -> d_pos (dict s) <= d_limit (dict s) ->
  wp (if dict_has_space (dict s) && (0 <? len (lzma s)) then repeat_match else mret' true)
    (fun _ s' => exists new, core_inv s' (new ++ r) /\ grown (dict s) (dict s') r new /\ rc_mid s' /\ rc s' = rc s) s.
Proof.
  intros Hinv Hmid Hlim. pose proof Hinv as [Hd Hlz]. pose proof Hlz as (Hpar & Hreps & Hst & Hlen & Hrep).
  assert (Hsame : exists new, core_inv s (new ++ r) /\ grown (dict s) (dict s) r new /\ rc_mid s /\ rc s = rc s).
  { exists []. split_and!; try done. by apply grown_refl. }
  destruct (dict_has_space (dict s)) eqn:Hsp; [|by wp_step]. destruct (Z.ltb_spec 0 (len (lzma s))); [|by wp_step].
  cbn [andb]. unfold in_range in Hlen. wp_apply (repeat_match_ok s r); [done|done|lia|apply Hreps|].
  intros ok s1 (Hrc & (n & Hl & Hn) & Hok).
  assert (Hmid1 : rc_mid s1).
  { unfold rc_mid, rc_start in *. rewrite Hrc, Hl. cbn [probs set_len]. split; [apply Hmid|].
    destruct Hmid as [_ [?|(s2 & Hs2 & ?)]]; [by left|right]. exists s2. split; [|done].
    eapply sym_same; [exact Hs2|done|by rewrite Hl]. }
  destruct ok.
  - destruct Hok as (_ & new & _ & Hg). exists new. split_and!; try done.
    split; [apply Hg|]. rewrite Hl. eapply lz_ok_set_len; [done| |unfold in_range; lia].
    destruct Hg as (_ & _ & _ & Hfr). apply Hfr.
  - exists []. rewrite Hok. split_and!; try done; [|by apply grown_refl].
    split; [by rewrite Hok|]. rewrite Hl, Hok. eapply lz_ok_set_len; [done|lia|unfold in_range; lia].
Qed.

Lemma main_ok s r :
  core_inv s r -> rc_start s -> RC_TOP_VALUE <= range (rc s) -> rc_in_pos (rc s) <= rc_in_limit (rc s) ->
  d_pos (dict s) <= d_limit (dict s) ->
  wp lzma_main (fun ok s' => ok = true -> main_post s r s') s.
Proof.
  intros Hinv Hst Htop Hin Hlim. unfold lzma_main. do 3 wp_step.
  assert (Hmid : rc_mid s) by (split; [done|]; left; unfold LZMA_IN_REQUIRED; lia).
  eapply wp_mono; [by apply pending_ok|]. cbv beta. intros _ s1 (new1 & Hinv1 & Hg1 & Hmid1 & Hrc1).
  do 3 wp_step. pose proof Hg1 as (_ & Hpos1 & Hlim1 & Hfr1).
  wp_apply (lzma_loop_ok (Z.to_nat (d_limit (dict s1) - d_pos (dict s1))) s1 (new1 ++ r)); [done|done|done|lia|].
  intros ok s2 H2. destruct ok; [|wp_step; done].
  destruct (H2 eq_refl) as (new2 & Hinv2 & Hg2 & Hmid2 & Hah2 & Hne2). wp_step.
  wp_apply (normalize_mid s2); [done|]. intros _ s3 (Hst3 & Htop3 & Hah3 & Hpos3 & Hd3 & Hl3). wp_step. intros _.
  exists (new2 ++ new1). rewrite <- app_assoc. split_and!; try done.
  - destruct Hinv2. unfold core_inv. by rewrite Hd3, Hl3.
  - rewrite Hd3. by eapply grown_trans.
  - eapply rc_ahead_trans; [|done]. unfold rc_ahead in *. by rewrite <- Hrc1.
  - intros Hsp He. apply app_eq_nil in He as [He2 ->]. apply Hne2; [|done].
    apply andb_true_iff. split.
    + unfold dict_has_space in *. rewrite Z.ltb_lt in *. change (zlength []) with 0 in Hpos1.
      destruct Hfr1 as (_ & -> & _). lia.
    + unfold rc_limit_exceeded. rewrite Hrc1. lia.
Qed.

(** C26: the LZMA decoder core is memory safe and total: from a state whose
    dictionary holds a history and whose input has LZMA_IN_REQUIRED bytes
    behind the limit, [lzma_main] returns, and unless it reports corrupt input
    it has extended the history (by at least a byte if there was room), left
    the range decoder normalized, and read at most LZMA_IN_REQUIRED bytes past
    the limit. *)
Theorem lzma_main_safe s r :
  core_inv s r -> rc_start s -> RC_TOP_VALUE <= range (rc s) -> rc_in_pos (rc s) <= rc_in_limit (rc s) ->
  d_pos (dict s) <= d_limit (dict s) ->
  exists ok s', lzma_main s = Some (ok, s') /\ (ok = true -> main_post s r s').
Proof. intros. apply wp_run, main_ok; done. Qed.

(** ** Instances *)

Definition sample_core : core :=
  mk_core (mk_rc (2 ^ 32 - 1) 0 0 (replicate 40 0) 0 3) sample_dict
    (mk_lzma 0 0 0 0 0 0 3 0 3 (replicate (Z.to_nat PROBS_TOTAL) 1024)).

Lemma sample_probs_ok : probs_ok (replicate (Z.to_nat PROBS_TOTAL) 1024).
Proof. split; [unfold zlength; rewrite length_replicate; by rewrite Z2Nat.id|]. apply Forall_replicate. lia. Qed.

Lemma lzma_main_witness :
  exists ok s', lzma_main sample_core = Some (ok, s') /\ (ok = true -> main_post sample_core [99; 98; 97] s').
Proof.
  apply lzma_main_safe.
  - split; [apply sample_dict_inv|]. split; [exists 0, 2; concrete|concrete].
  - split; [by apply Forall_replicate|]. split_and!; try (by vm_compute); apply sample_probs_ok.
  - by vm_compute.
  - by vm_compute.
  - by vm_compute.
Defined.
