(* ===== verification/XzLzma2.v ===== *)
(** * XzLzma2: the LZMA2 decoder of xz-embedded

    The "LZMA2" section of external/xz-embedded/xz_dec_lzma2.c: the chunk layer
    over the LZMA decoder ([xz_dec_lzma2_run]), its input buffering
    ([lzma2_lzma]), [xz_dec_lzma2_create] and [xz_dec_lzma2_reset]. *)
From Stdlib Require Import ZArith Lia Bool.
From stdpp Require Import base list list_numbers.
From S2P Require Import Prelude PolicyFile Mem XzDict XzLzma.

(** ** Data *)

Inductive xz_ret :=
| XZ_OK | XZ_STREAM_END | XZ_UNSUPPORTED_CHECK | XZ_MEM_ERROR | XZ_MEMLIMIT_ERROR
| XZ_FORMAT_ERROR | XZ_OPTIONS_ERROR | XZ_DATA_ERROR | XZ_BUF_ERROR.

Inductive lzma2_seq :=
| SEQ_CONTROL | SEQ_UNCOMPRESSED_1 | SEQ_UNCOMPRESSED_2 | SEQ_COMPRESSED_0 | SEQ_COMPRESSED_1
| SEQ_PROPERTIES | SEQ_LZMA_PREPARE | SEQ_LZMA_RUN | SEQ_COPY.

#[global] Instance xz_ret_eq_dec : EqDecision xz_ret.
Proof. solve_decision. Defined.
#[global] Instance lzma2_seq_eq_dec : EqDecision lzma2_seq.
Proof. solve_decision. Defined.

Record lzma2_dec := mk_lzma2 {
  sequence : lzma2_seq;
  next_sequence : lzma2_seq;
  uncompressed : Z;
  compressed : Z;
  need_dict_reset : bool;
  need_props : bool
}.

Record xz_dec_lzma2 := mk_dec_lzma2 {
  lz : core;
  lzma2 : lzma2_dec;
  temp_size : Z;
  temp_buf : list Z
}.

Definition TEMP_BUF_SIZE : Z := 3 * LZMA_IN_REQUIRED.

Definition set_core (s : xz_dec_lzma2) (c : core) : xz_dec_lzma2 :=
  mk_dec_lzma2 c (lzma2 s) (temp_size s) (temp_buf s).
Definition set_lzma2 (s : xz_dec_lzma2) (l : lzma2_dec) : xz_dec_lzma2 :=
  mk_dec_lzma2 (lz s) l (temp_size s) (temp_buf s).
Definition set_temp (s : xz_dec_lzma2) (n : Z) (buf : list Z) : xz_dec_lzma2 :=
  mk_dec_lzma2 (lz s) (lzma2 s) n buf.
Definition set_seq (l : lzma2_dec) (q : lzma2_seq) : lzma2_dec :=
  mk_lzma2 q (next_sequence l) (uncompressed l) (compressed l) (need_dict_reset l) (need_props l).
Definition set_next (l : lzma2_dec) (q : lzma2_seq) : lzma2_dec :=
  mk_lzma2 (sequence l) q (uncompressed l) (compressed l) (need_dict_reset l) (need_props l).
Definition set_uncompressed (l : lzma2_dec) (n : Z) : lzma2_dec :=
  mk_lzma2 (sequence l) (next_sequence l) n (compressed l) (need_dict_reset l) (need_props l).
Definition set_compressed (l : lzma2_dec) (n : Z) : lzma2_dec :=
  mk_lzma2 (sequence l) (next_sequence l) (uncompressed l) n (need_dict_reset l) (need_props l).
Definition set_needs (l : lzma2_dec) (dict props : bool) : lzma2_dec :=
  mk_lzma2 (sequence l) (next_sequence l) (uncompressed l) (compressed l) dict props.

(** ** Input buffering *)

(** [lzma_main(s)] after [rc.in], [rc.in_pos] and [rc.in_limit] were set. *)
Definition run_main (s : xz_dec_lzma2) (buf : list Z) (pos limit : Z) : option (bool * xz_dec_lzma2) :=
  let r := rc (lz s) in
  match lzma_main (set_rc (lz s) (mk_rc (range r) (code r) (init_bytes_left r) buf pos limit)) with
  | Some (ok, c) => Some (ok, set_core s c)
  | None => None
  end.

Definition lz_in_pos (s : xz_dec_lzma2) : Z := rc_in_pos (rc (lz s)).

(** The way out of a part of [lzma2_lzma]: it returned, or goes on. *)
Inductive part := Return (ok : bool) | Continue.

(** The first part: decode from [temp.buf]. *)
Definition lzma2_temp (s : xz_dec_lzma2) (b : xz_buf) : option (part * xz_dec_lzma2 * xz_buf) :=
  let in_avail := in_size b - in_pos b in
  if (0 <? temp_size s) || (compressed (lzma2 s) =? 0) then
    let tmp := u32 (2 * LZMA_IN_REQUIRED - temp_size s) in
    let tmp := if u32 (compressed (lzma2 s) - temp_size s) <? tmp
               then u32 (compressed (lzma2 s) - temp_size s) else tmp in
    let tmp := if in_avail <? tmp then in_avail else tmp in
    match memcpy (temp_buf s) (temp_size s) (b_in b) (in_pos b) tmp with
    | None => None
    | Some buf =>
        let filled := temp_size s + tmp in
        let go buf limit :=
          match run_main (set_temp s (temp_size s) buf) buf 0 limit with
          | None => None
          | Some (ok, s) =>
              if negb ok || (filled <? lz_in_pos s) then Some (Return false, s, b) else
              let used := lz_in_pos s in
              let s := set_lzma2 s (set_compressed (lzma2 s) (u32 (compressed (lzma2 s) - used))) in
              if used <? temp_size s then
                let rest := temp_size s - used in
                match memcpy (temp_buf s) 0 (temp_buf s) used rest with
                | None => None
                | Some buf => Some (Return true, set_temp s rest buf, b)
                end
              else Some (Continue, set_temp s 0 (temp_buf s), set_in_pos b (in_pos b + (used - temp_size s)))
          end in
        if filled =? compressed (lzma2 s) then
          match memzero buf filled (TEMP_BUF_SIZE - temp_size s - tmp) with
          | None => None
          | Some buf => go buf filled
          end
        else if filled <? LZMA_IN_REQUIRED then
          Some (Return true, set_temp s filled buf, set_in_pos b (in_pos b + tmp))
        else go buf (filled - LZMA_IN_REQUIRED)
    end
  else Some (Continue, s, b).

(** The second part: decode directly from the input. *)
Definition lzma2_direct (s : xz_dec_lzma2) (b : xz_buf) : option (part * xz_dec_lzma2 * xz_buf) :=
  let in_avail := in_size b - in_pos b in
  if LZMA_IN_REQUIRED <=? in_avail then
    let limit := if u32 (compressed (lzma2 s) + LZMA_IN_REQUIRED) <=? in_avail
                 then in_pos b + compressed (lzma2 s) else in_size b - LZMA_IN_REQUIRED in
    match run_main s (b_in b) (in_pos b) limit with
    | None => None
    | Some (ok, s) =>
        if negb ok then Some (Return false, s, b) else
        let used := lz_in_pos s - in_pos b in
        if compressed (lzma2 s) <? used then Some (Return false, s, b)
        else Some (Continue, set_lzma2 s (set_compressed (lzma2 s) (compressed (lzma2 s) - used)),
                   set_in_pos b (lz_in_pos s))
    end
  else Some (Continue, s, b).

(** The third part: keep the rest of the input. *)
Definition lzma2_keep (s : xz_dec_lzma2) (b : xz_buf) : option (xz_dec_lzma2 * xz_buf) :=
  let in_avail := in_size b - in_pos b in
  if in_avail <? LZMA_IN_REQUIRED then
    let n := if compressed (lzma2 s) <? in_avail then compressed (lzma2 s) else in_avail in
    match memcpy (temp_buf s) 0 (b_in b) (in_pos b) n with
    | None => None
    | Some buf => Some (set_temp s n buf, set_in_pos b (in_pos b + n))
    end
  else Some (s, b).

Definition lzma2_lzma (s : xz_dec_lzma2) (b : xz_buf) : option (bool * xz_dec_lzma2 * xz_buf) :=
  match lzma2_temp s b with
  | None => None
  | Some (Return ok, s, b) => Some (ok, s, b)
  | Some (Continue, s, b) =>
      match lzma2_direct s b with
      | None => None
      | Some (Return ok, s, b) => Some (ok, s, b)
      | Some (Continue, s, b) =>
          match lzma2_keep s b with
          | None => None
          | Some (s, b) => Some (true, s, b)
          end
      end
  end.

(** ** Chunks *)

(** A step of [xz_dec_lzma2_run]: [Some ret] when it returned. *)
Definition step_result : Type := option (option xz_ret * xz_dec_lzma2 * xz_buf).

Definition set_lzma2_dict (s : xz_dec_lzma2) (d : dictionary) : xz_dec_lzma2 := set_core s (set_dict (lz s) d).

(** [case SEQ_CONTROL], with [tmp] the control byte just read. *)
Definition control_step (s : xz_dec_lzma2) (b : xz_buf) (tmp : Z) : step_result :=
  if tmp =? 0 then Some (Some XZ_STREAM_END, s, b) else
  let fresh := (0xE0 <=? tmp) || (tmp =? 1) in
  let s := if fresh then
             set_lzma2_dict (set_lzma2 s (set_needs (lzma2 s) false true)) (dict_reset (dict (lz s)))
           else s in
  if negb fresh && need_dict_reset (lzma2 s) then Some (Some XZ_DATA_ERROR, s, b) else
  if 0x80 <=? tmp then
    let s := set_lzma2 s (set_seq (set_uncompressed (lzma2 s) (Z.shiftl (Z.land tmp 0x1F) 16)) SEQ_UNCOMPRESSED_1) in
    if 0xC0 <=? tmp then
      Some (None, set_lzma2 s (set_next (set_needs (lzma2 s) (need_dict_reset (lzma2 s)) false) SEQ_PROPERTIES), b)
    else if need_props (lzma2 s) then Some (Some XZ_DATA_ERROR, s, b)
    else
      let s := set_lzma2 s (set_next (lzma2 s) SEQ_LZMA_PREPARE) in
      Some (None, if 0xA0 <=? tmp then set_core s (lzma_reset (lz s)) else s, b)
  else if 2 <? tmp then Some (Some XZ_DATA_ERROR, s, b)
  else Some (None, set_lzma2 s (set_next (set_seq (lzma2 s) SEQ_COMPRESSED_0) SEQ_COPY), b).

(** [case SEQ_LZMA_RUN]. *)
Definition run_step (s : xz_dec_lzma2) (b : xz_buf) : step_result :=
  let s := set_lzma2_dict s (dict_limit (dict (lz s)) (Z.min (out_size b - out_pos b) (uncompressed (lzma2 s)))) in
  match lzma2_lzma s b with
  | None => None
  | Some (false, s, b) => Some (Some XZ_DATA_ERROR, s, b)
  | Some (true, s, b) =>
      match dict_flush (dict (lz s)) b with
      | None => None
      | Some (d, b, n) =>
          let s := set_lzma2_dict s d in
          let s := set_lzma2 s (set_uncompressed (lzma2 s) (u32 (uncompressed (lzma2 s) - n))) in
          if uncompressed (lzma2 s) =? 0 then
            if (0 <? compressed (lzma2 s)) || (0 <? len (lzma (lz s))) || negb (rc_is_finished (rc (lz s)))
            then Some (Some XZ_DATA_ERROR, s, b)
            else Some (None, set_lzma2 (set_core s (set_rc (lz s) (rc_reset (rc (lz s)))))
                               (set_seq (lzma2 s) SEQ_CONTROL), b)
          else if (out_pos b =? out_size b) ||
                  ((in_pos b =? in_size b) && (temp_size s <? compressed (lzma2 s)))
          then Some (Some XZ_OK, s, b)
          else Some (None, s, b)
      end
  end.

(** [case SEQ_LZMA_PREPARE], falling through. *)
Definition prepare_step (s : xz_dec_lzma2) (b : xz_buf) : step_result :=
  if compressed (lzma2 s) <? RC_INIT_BYTES then Some (Some XZ_DATA_ERROR, s, b) else
  match rc_read_init (rc (lz s)) b with
  | None => None
  | Some (false, r, b) => Some (Some XZ_OK, set_core s (set_rc (lz s) r), b)
  | Some (true, r, b) =>
      let s := set_core s (set_rc (lz s) r) in
      run_step (set_lzma2 s (set_seq (set_compressed (lzma2 s) (compressed (lzma2 s) - RC_INIT_BYTES)) SEQ_LZMA_RUN)) b
  end.

(** [case SEQ_COPY]. *)
Definition copy_step (s : xz_dec_lzma2) (b : xz_buf) : step_result :=
  match dict_uncompressed (dict (lz s)) b (compressed (lzma2 s)) with
  | None => None
  | Some (d, b, rest) =>
      let s := set_lzma2_dict (set_lzma2 s (set_compressed (lzma2 s) rest)) d in
      if 0 <? rest then Some (Some XZ_OK, s, b)
      else Some (None, set_lzma2 s (set_seq (lzma2 s) SEQ_CONTROL), b)
  end.

(** A case that starts with [b->in[b->in_pos++]]. *)
Definition with_byte (b : xz_buf) (k : Z -> xz_buf -> step_result) : step_result :=
  match rd (b_in b) (in_pos b) with
  | None => None
  | Some v => k v (set_in_pos b (in_pos b + 1))
  end.

(** The [switch] of [xz_dec_lzma2_run]. *)
Definition lzma2_step (s : xz_dec_lzma2) (b : xz_buf) : step_result :=
  let l := lzma2 s in
  match sequence l with
  | SEQ_CONTROL => with_byte b (fun v b => control_step s b v)
  | SEQ_UNCOMPRESSED_1 =>
      with_byte b (fun v b =>
        Some (None, set_lzma2 s (set_seq (set_uncompressed l (u32 (uncompressed l + Z.shiftl v 8))) SEQ_UNCOMPRESSED_2), b))
  | SEQ_UNCOMPRESSED_2 =>
      with_byte b (fun v b =>
        Some (None, set_lzma2 s (set_seq (set_uncompressed l (u32 (uncompressed l + (v + 1)))) SEQ_COMPRESSED_0), b))
  | SEQ_COMPRESSED_0 =>
      with_byte b (fun v b =>
        Some (None, set_lzma2 s (set_seq (set_compressed l (Z.shiftl v 8)) SEQ_COMPRESSED_1), b))
  | SEQ_COMPRESSED_1 =>
      with_byte b (fun v b =>
        Some (None, set_lzma2 s (set_seq (set_compressed l (u32 (compressed l + (v + 1)))) (next_sequence l)), b))
  | SEQ_PROPERTIES =>
      with_byte b (fun v b =>
        match lzma_props (lz s) v with
        | (false, c) => Some (Some XZ_DATA_ERROR, set_core s c, b)
        | (true, c) => prepare_step (set_lzma2 (set_core s c) (set_seq l SEQ_LZMA_PREPARE)) b
        end)
  | SEQ_LZMA_PREPARE => prepare_step s b
  | SEQ_LZMA_RUN => run_step s b
  | SEQ_COPY => copy_step s b
  end.

Definition is_lzma_run (q : lzma2_seq) : bool := bool_decide (q = SEQ_LZMA_RUN).

Fixpoint lzma2_loop (fuel : nat) (s : xz_dec_lzma2) (b : xz_buf) : option (xz_ret * xz_dec_lzma2 * xz_buf) :=
  if (in_pos b <? in_size b) || is_lzma_run (sequence (lzma2 s)) then
    match fuel with
    | O => None
    | S fuel =>
        match lzma2_step s b with
        | None => None
        | Some (Some ret, s, b) => Some (ret, s, b)
        | Some (None, s, b) => lzma2_loop fuel s b
        end
    end
  else Some (XZ_OK, s, b).

(** Every round of the loop that does not return takes input or gives output,
    so what is left of both bounds the rounds. *)
Definition run_fuel (b : xz_buf) : nat :=
  S (Z.to_nat ((in_size b - in_pos b) + (out_size b - out_pos b))).

Definition xz_dec_lzma2_run (s : xz_dec_lzma2) (b : xz_buf) : option (xz_ret * xz_dec_lzma2 * xz_buf) :=
  lzma2_loop (run_fuel b) s b.

(** ** Creation and reset *)

(** [xz_dec_lzma2_create]: [s] is what the fresh memory of the decoder holds. *)
Definition xz_dec_lzma2_create (s : xz_dec_lzma2) (mode : xz_mode) (dict_max : Z) (o : oracle) :
    option xz_dec_lzma2 * oracle :=
  let '(ok, o) := malloc o in
  if negb ok then (None, o) else
  let d := dict (lz s) in
  let with_dict buf allocated :=
    set_lzma2_dict s (mk_dict buf (d_start d) (d_pos d) (d_full d) (d_limit d) (d_end d) (d_size d)
                        dict_max allocated mode) in
  match mode with
  | XZ_PREALLOC =>
      let '(ok, o) := malloc o in
      if negb ok then (None, o)
      else (Some (with_dict (replicate (Z.to_nat dict_max) 0) (d_allocated d)), o)
  | XZ_DYNALLOC => (Some (with_dict [] 0), o)
  end.

(** [xz_dec_lzma2_reset]; a dictionary buffer of 0 bytes stands for NULL. *)
Definition xz_dec_lzma2_reset (s : xz_dec_lzma2) (props : Z) (o : oracle) : xz_ret * xz_dec_lzma2 * oracle :=
  if 39 <? props then (XZ_OPTIONS_ERROR, s, o) else
  let d := dict (lz s) in
  let size := u32 (Z.shiftl (2 + Z.land props 1) (Z.shiftr props 1 + 11)) in
  let with_dict buf allocated e :=
    mk_dict buf (d_start d) (d_pos d) (d_full d) (d_limit d) e size (d_size_max d) allocated (d_mode d) in
  if d_size_max d <? size then
    (XZ_MEMLIMIT_ERROR, set_lzma2_dict s (with_dict (d_buf d) (d_allocated d) (d_end d)), o)
  else
  let finish d o :=
    let s := set_lzma2_dict s d in
    let s := set_core s (set_lzma (lz s) (set_len (lzma (lz s)) 0)) in
    let l := lzma2 s in
    (XZ_OK, set_temp (set_lzma2 s (set_needs (set_seq l SEQ_CONTROL) true (need_props l))) 0 (temp_buf s), o) in
  match d_mode d with
  | XZ_PREALLOC => finish (with_dict (d_buf d) (d_allocated d) size) o
  | XZ_DYNALLOC =>
      if d_allocated d <? size then
        let '(ok, o) := malloc o in
        if ok then finish (with_dict (replicate (Z.to_nat size) 0) (d_allocated d) size) o
        else (XZ_MEM_ERROR, set_lzma2_dict s (with_dict [] 0 size), o)
      else finish (with_dict (d_buf d) (d_allocated d) size) o
  end.
