(* ===== verification/XzLzma2Thms.v ===== *)
(** * XzLzma2Thms: the LZMA2 decoder is memory safe and total

    Whatever the input, [xz_dec_lzma2_run] stops, stays inside every buffer,
    and only ever appends to the output.  The invariant [l2_inv] says in which
    states of the chunk layer which parts of the decoder are initialised. *)
From Stdlib Require Import ZArith Lia Bool.
From stdpp Require Import base list list_numbers.
From S2P Require Import Prelude PolicyFile Mem XzDict XzLzma XzLzmaSafe XzLzmaThms XzLzma2.

(** ** The invariant *)

(** The memory behind the dictionary: what [xz_dec_lzma2_reset] relies on. *)
Definition dict_mem (d : dictionary) : Prop :=
  bytes_ok (d_buf d) /\
  match d_mode d with
  | XZ_PREALLOC => d_size_max d <= zlength (d_buf d)
  | XZ_DYNALLOC => d_allocated d <= zlength (d_buf d)
  end.

(** Facts about the dictionary that no dictionary reset changes. *)
Definition dict_base (d : dictionary) : Prop :=
  0 < d_end d < 2 ^ 32 /\ d_size d = d_end d /\ d_end d <= zlength (d_buf d) /\ dict_mem d.

Lemma dict_mem_same d d' :
  dict_mem d -> d_mode d' = d_mode d -> d_size_max d' = d_size_max d -> d_allocated d' = d_allocated d ->
  zlength (d_buf d') = zlength (d_buf d) -> bytes_ok (d_buf d') -> dict_mem d'.
Proof. unfold dict_mem. intros [_ H] -> -> -> -> Hb. done. Qed.

(** Everything decoded has been flushed. *)
Definition flushed (d : dictionary) (r : list Z) : Prop :=
  dict_inv d r /\ d_start d = d_pos d /\ d_pos d < d_end d.

(** The LZMA decoder is initialised. *)
Definition lz_ready (s : xz_dec_lzma2) : Prop :=
  lz_ok (lzma (lz s)) (d_full (dict (lz s))) /\ probs_ok (probs (lzma (lz s))).

(** The range decoder waits for some of its first bytes. *)
Definition rc_fresh (r : rc_dec) : Prop :=
  range r = 2 ^ 32 - 1 /\ in_range 32 (code r) /\ 0 < init_bytes_left r <= RC_INIT_BYTES.

Definition chunk_sizes (l : lzma2_dec) : Prop :=
  1 <= uncompressed l <= 2 ^ 21 /\ 1 <= compressed l <= 2 ^ 16.

Definition l2_inv (s : xz_dec_lzma2) (r : list Z) : Prop :=
  let l := lzma2 s in
  let reusable := need_props l = false -> lz_ready s /\ rc_fresh (rc (lz s)) in
  let prepared := lz_ready s /\ rc_fresh (rc (lz s)) in
  let next_ok := match next_sequence l with
                 | SEQ_PROPERTIES => 1 <= uncompressed l <= 2 ^ 21
                 | SEQ_LZMA_PREPARE => 1 <= uncompressed l <= 2 ^ 21 /\ prepared
                 | SEQ_COPY => reusable
                 | _ => False
                 end in
  dict_base (dict (lz s)) /\ zlength (temp_buf s) = TEMP_BUF_SIZE /\ bytes_ok (temp_buf s) /\
  in_range 32 (len (lzma (lz s))) /\
  (need_dict_reset l = false -> flushed (dict (lz s)) r) /\
  match sequence l with
  | SEQ_CONTROL => temp_size s = 0 /\ (need_dict_reset l = false -> reusable)
  | SEQ_UNCOMPRESSED_1 =>
      temp_size s = 0 /\ need_dict_reset l = false /\ 0 <= uncompressed l <= 0x1F0000 /\
      (next_sequence l = SEQ_PROPERTIES \/ next_sequence l = SEQ_LZMA_PREPARE /\ prepared)
  | SEQ_UNCOMPRESSED_2 =>
      temp_size s = 0 /\ need_dict_reset l = false /\ 0 <= uncompressed l <= 0x1FFF00 /\
      (next_sequence l = SEQ_PROPERTIES \/ next_sequence l = SEQ_LZMA_PREPARE /\ prepared)
  | SEQ_COMPRESSED_0 => temp_size s = 0 /\ need_dict_reset l = false /\ next_ok
  | SEQ_COMPRESSED_1 =>
      temp_size s = 0 /\ need_dict_reset l = false /\ next_ok /\ 0 <= compressed l <= 0xFF00
  | SEQ_PROPERTIES => temp_size s = 0 /\ need_dict_reset l = false /\ chunk_sizes l
  | SEQ_LZMA_PREPARE => temp_size s = 0 /\ need_dict_reset l = false /\ chunk_sizes l /\ prepared
  | SEQ_LZMA_RUN =>
      need_dict_reset l = false /\ 0 <= temp_size s < LZMA_IN_REQUIRED /\
      temp_size s <= compressed l <= 2 ^ 16 /\ 1 <= uncompressed l <= 2 ^ 21 /\ lz_ready s /\
      RC_TOP_VALUE <= range (rc (lz s)) < 2 ^ 32 /\ in_range 32 (code (rc (lz s)))
  | SEQ_COPY => temp_size s = 0 /\ need_dict_reset l = false /\ 1 <= compressed l <= 2 ^ 16 /\ reusable
  end.

(** ** Decoding a chunk *)

(** The state of [lzma2_lzma] when it runs: [r] is the history, [d] the
    dictionary at its start. *)
Definition running (s : xz_dec_lzma2) (r : list Z) : Prop :=
  core_inv (lz s) r /\ probs_ok (probs (lzma (lz s))) /\ d_pos (dict (lz s)) <= d_limit (dict (lz s)) /\
  RC_TOP_VALUE <= range (rc (lz s)) < 2 ^ 32 /\ in_range 32 (code (rc (lz s))) /\
  0 <= temp_size s < LZMA_IN_REQUIRED /\ temp_size s <= compressed (lzma2 s) <= 2 ^ 16 /\
  zlength (temp_buf s) = TEMP_BUF_SIZE /\ bytes_ok (temp_buf s).

(** What [lzma2_lzma] keeps of the chunk layer. *)
Definition l2_frame (l l' : lzma2_dec) : Prop := l' = set_compressed l (compressed l').

Lemma l2_frame_refl l : l2_frame l l.
Proof. by destruct l. Qed.

Lemma l2_frame_trans l1 l2 l3 : l2_frame l1 l2 -> l2_frame l2 l3 -> l2_frame l1 l3.
Proof. unfold l2_frame. intros -> H. rewrite H. done. Qed.

Lemma run_main_ok s r buf pos limit :
  running s r -> bytes_ok buf -> 0 <= pos <= limit -> limit + LZMA_IN_REQUIRED <= zlength buf ->
  exists ok s', run_main s buf pos limit = Some (ok, s') /\ lzma2 s' = lzma2 s /\ temp_size s' = temp_size s /\
    temp_buf s' = temp_buf s /\
    (ok = true -> exists new, running s' (new ++ r) /\ grown (dict (lz s)) (dict (lz s')) r new /\
       pos <= lz_in_pos s' <= limit + LZMA_IN_REQUIRED /\ (dict_has_space (dict (lz s)) = true -> new <> [])).
Proof.
  intros ((Hd & Hlz) & Hps & Hlim & Hr & Hc & Hts & Hcs & Htl & Htb) Hb Hpos Hl. unfold run_main.
  set (c := set_rc (lz s) _).
  destruct (wp_run _ _ _ (main_ok c r (conj Hd Hlz) ltac:(unfold rc_start, c; simpl; unfold RANGE_MIN, RC_TOP_VALUE in *; split_and!; try done; try lia; apply Hps)
    ltac:(unfold c; simpl; lia) ltac:(unfold c; simpl; lia) ltac:(done))) as (ok & c' & -> & Hpost).
  eexists ok, _. split; [done|]. split_and!; try done. intros ->.
  destruct (Hpost eq_refl) as (new & Hinv & Hg & Hst & Htop & Hah & Hpl & Hne). exists new.
  destruct Hah as (Hin & Hli & Hp). unfold lz_in_pos; simpl in *. rewrite Hli in Hpl.
  split; [|split; [done|split; [lia|done]]]. pose proof Hg as (_ & _ & Hlim' & _).
  destruct Hst as (_ & _ & Hr' & Hc' & Hps' & _). unfold running; simpl.
  split_and!; try done; try lia; try apply Hps'; try apply Hinv.
Qed.

(** Only the input position changed. *)
Definition in_frame (b b' : xz_buf) : Prop :=
  b' = set_in_pos b (in_pos b') /\ in_pos b <= in_pos b' <= in_size b.

Lemma in_frame_refl b : buf_ok b -> in_frame b b.
Proof. intros (? & _). split; [by destruct b|lia]. Qed.

Lemma in_frame_buf b b' : buf_ok b -> in_frame b b' -> buf_ok b'.
Proof. intros (? & ? & ? & ? & ? & ?) [Hb' ?]. rewrite Hb'. unfold buf_ok; simpl. split_and!; (done || lia). Qed.

Lemma in_frame_trans b1 b2 b3 : in_frame b1 b2 -> in_frame b2 b3 -> in_frame b1 b3.
Proof.
  intros [H1 ?] [H2 ?]. assert (in_size b2 = in_size b1) by (by rewrite H1).
  split; [rewrite H2 at 1; by rewrite H1 at 1|lia].
Qed.

Definition room (s : xz_dec_lzma2) : Prop := dict_has_space (dict (lz s)) = true.

(** [s'] and [b'] after decoding the bytes [new]. *)
Definition decoded (s : xz_dec_lzma2) (r new : list Z) (s' : xz_dec_lzma2) : Prop :=
  running s' (new ++ r) /\ grown (dict (lz s)) (dict (lz s')) r new /\ l2_frame (lzma2 s) (lzma2 s').

Lemma decoded_refl s r : running s r -> decoded s r [] s.
Proof.
  intros H. pose proof H as ([Hd _] & _ & Hl & _). split_and!; [done|by apply grown_refl|apply l2_frame_refl].
Qed.

Lemma decoded_trans s s1 s2 r new1 new2 :
  decoded s r new1 s1 -> decoded s1 (new1 ++ r) new2 s2 -> decoded s r (new2 ++ new1) s2.
Proof.
  intros (H1 & G1 & F1) (H2 & G2 & F2). unfold decoded. rewrite <- app_assoc.
  split_and!; [done|by eapply grown_trans|by eapply l2_frame_trans].
Qed.

(** Changes to the chunk layer and to [temp] that keep the state running. *)
Lemma running_update s r n used buf :
  running s r -> 0 <= n < LZMA_IN_REQUIRED -> n <= used <= 2 ^ 16 -> zlength buf = TEMP_BUF_SIZE -> bytes_ok buf ->
  running (set_temp (set_lzma2 s (set_compressed (lzma2 s) used)) n buf) r.
Proof. intros (? & ? & ? & ? & ? & ? & ? & ? & ?) ? ? ? ?. unfold running; simpl. split_and!; (done || lia). Qed.

Lemma returned_false s b (Q : part -> xz_dec_lzma2 -> xz_buf -> Prop) :
  buf_ok b ->
  exists p s' b', Some (Return false, s, b) = Some (p, s', b') /\ in_frame b b' /\ (p <> Return false -> Q p s' b').
Proof. intros. exists (Return false), s, b. split_and!; [done|by apply in_frame_refl|done]. Qed.

(** The run from [temp.buf] and the bookkeeping behind it. *)
Lemma lzma2_temp_go s r b buf tmp limit filled :
  filled = temp_size s + tmp -> running s r -> buf_ok b -> 0 <= tmp <= in_size b - in_pos b -> temp_size s + tmp <= compressed (lzma2 s) ->
  zlength buf = TEMP_BUF_SIZE -> bytes_ok buf -> 0 <= limit -> limit + LZMA_IN_REQUIRED <= TEMP_BUF_SIZE ->
  exists p s' b',
    match run_main (set_temp s (temp_size s) buf) buf 0 limit with
    | None => None
    | Some (ok, s) =>
        if negb ok || (filled <? lz_in_pos s) then Some (Return false, s, b) else
        let used := lz_in_pos s in
        let s := set_lzma2 s (set_compressed (lzma2 s) (u32 (compressed (lzma2 s) - used))) in
        if used <? temp_size s then
          let rest := temp_size s - used in
          match memcpy (temp_buf s) 0 (temp_buf s) used rest with
          | None => None
          | Some buf => Some (Return true, set_temp s rest buf, b)
          end
        else Some (Continue, set_temp s 0 (temp_buf s), set_in_pos b (in_pos b + (used - temp_size s)))
    end = Some (p, s', b') /\ in_frame b b' /\
    (p <> Return false -> exists new, decoded s r new s' /\ (room s -> new <> []) /\
       (p = Continue -> temp_size s' = 0)).
Proof.
  intros Hfill Hrun Hb Htmp Hfit Hbl Hbb Hl0 Hl.
  assert (Hrun1 : running (set_temp s (temp_size s) buf) r).
  { destruct Hrun as (? & ? & ? & ? & ? & ? & ? & ? & ?). unfold running; simpl. split_and!; (done || lia). }
  destruct (run_main_ok _ _ buf 0 limit Hrun1 Hbb ltac:(lia) ltac:(lia)) as (ok & s1 & -> & Hl2 & Hts & Htb & Hok).
  simpl in Hl2, Hts, Htb.
  destruct ok; cbn [negb orb]; [|by apply (returned_false s1 b (fun p s' _ => _))].
  rewrite Hl2. destruct (Z.ltb_spec filled (lz_in_pos s1)); [by apply (returned_false s1 b (fun p s' _ => _))|].
  destruct (Hok eq_refl) as (new & Hrun2 & Hg & Hpos & Hne). cbv zeta. cbn [temp_size temp_buf set_lzma2].
  pose proof Hrun as (_ & _ & _ & _ & _ & Htsz & Hcmp & _). unfold LZMA_IN_REQUIRED, TEMP_BUF_SIZE in *.
  rewrite Hts. set (used := lz_in_pos s1) in *.
  rewrite (wrap_small 32 (compressed (lzma2 s) - used)) by (unfold in_range; lia).
  destruct (Z.ltb_spec used (temp_size s)).
  - rewrite Htb. destruct (memcpy buf 0 buf used (temp_size s - used)) as [buf2|] eqn:Hm;
      [|by rewrite memcpy_ok in Hm by (unfold LZMA_IN_REQUIRED in *; lia)].
    eexists _, _, _. split; [done|]. split; [by apply in_frame_refl|]. intros _. exists new. split; [|done]. split; [|split; [done|]].
    + rewrite <- Hl2. apply running_update; [done|unfold LZMA_IN_REQUIRED; lia|rewrite Hl2; lia| |by eapply memcpy_forall].
      by rewrite (memcpy_length _ _ _ _ _ _ Hm).
    + unfold l2_frame; simpl. done.
  - pose proof Hb as (Hip & _).
    eexists _, _, _. split; [done|]. split; [split; [done|simpl; lia]|]. intros _. exists new. split; [|done]. split; [|split; [done|]].
    + rewrite <- Hl2, Htb. apply running_update; [done|done|rewrite Hl2; lia|done|done].
    + unfold l2_frame; simpl. done.
Qed.

Lemma lzma2_temp_ok s r b :
  running s r -> buf_ok b ->
  exists p s' b', lzma2_temp s b = Some (p, s', b') /\ in_frame b b' /\
    (p <> Return false -> exists new, decoded s r new s' /\ (p = Continue -> temp_size s' = 0) /\
       ((room s -> new <> []) \/ (p = Continue /\ s' = s /\ b' = b /\ 0 < compressed (lzma2 s)) \/
        (p = Return true /\ in_pos b' = in_size b' /\ temp_size s' < compressed (lzma2 s')))).
Proof.
  intros Hrun Hb. pose proof Hrun as (_ & _ & _ & _ & _ & Hts & Hcs & Htl & Htb).
  pose proof Hb as (Hip & His & Hbi & _). unfold lzma2_temp. unfold LZMA_IN_REQUIRED in *.
  destruct ((0 <? temp_size s) || (compressed (lzma2 s) =? 0)) eqn:Hc.
  2:{ exists Continue, s, b. split_and!; [done|by apply in_frame_refl|]. intros _. exists [].
      split_and!; [by apply decoded_refl|intros _; lia|]. right; left. split_and!; try done. lia. }
  rewrite !(wrap_small 32) by (unfold in_range; lia).
  set (t1 := if compressed (lzma2 s) - temp_size s <? 2 * 21 - temp_size s
             then compressed (lzma2 s) - temp_size s else 2 * 21 - temp_size s).
  set (tmp := if in_size b - in_pos b <? t1 then in_size b - in_pos b else t1).
  assert (Htmp : 0 <= tmp <= in_size b - in_pos b /\ temp_size s + tmp <= compressed (lzma2 s) /\
    temp_size s + tmp <= 42 /\
    (temp_size s + tmp < 21 -> temp_size s + tmp <> compressed (lzma2 s) -> tmp = in_size b - in_pos b)).
  { unfold tmp, t1. destruct (Z.ltb_spec (compressed (lzma2 s) - temp_size s) (2 * 21 - temp_size s)); case_match; lia. }
  clearbody tmp. clear t1.
  destruct (memcpy (temp_buf s) (temp_size s) (b_in b) (in_pos b) tmp) as [buf|] eqn:Hm;
    [|by rewrite memcpy_ok in Hm by (unfold TEMP_BUF_SIZE, LZMA_IN_REQUIRED in *; lia)].
  pose proof (memcpy_length _ _ _ _ _ _ Hm) as Hbl. rewrite Htl in Hbl.
  pose proof (memcpy_forall _ _ _ _ _ _ _ Hm Htb Hbi) as Hbb.
  assert (Hgo : forall buf limit, zlength buf = TEMP_BUF_SIZE -> bytes_ok buf -> 0 <= limit ->
    limit + LZMA_IN_REQUIRED <= TEMP_BUF_SIZE -> _) by
    (intros buf' limit Hl' Hb' H0 H1; exact (lzma2_temp_go s r b buf' tmp limit _ eq_refl Hrun Hb
       ltac:(lia) ltac:(lia) Hl' Hb' H0 H1)).
  destruct (Z.eqb_spec (temp_size s + tmp) (compressed (lzma2 s))) as [Heq|Hneq].
  - destruct (memzero buf (temp_size s + tmp) (TEMP_BUF_SIZE - temp_size s - tmp)) as [buf2|] eqn:Hz;
      [|by rewrite memzero_ok in Hz by (unfold TEMP_BUF_SIZE, LZMA_IN_REQUIRED in *; lia)].
    destruct (Hgo buf2 (temp_size s + tmp)) as (p & s' & b' & -> & Hf & Hpost).
    + by rewrite (memzero_length _ _ _ _ Hz).
    + by eapply memzero_bytes.
    + lia.
    + unfold TEMP_BUF_SIZE, LZMA_IN_REQUIRED. lia.
    + exists p, s', b'. split_and!; [done|done|]. intros Hp. destruct (Hpost Hp) as (new & ? & ? & ?).
      exists new. split_and!; auto.
  - destruct (Z.ltb_spec (temp_size s + tmp) 21).
    + exists (Return true), (set_temp s (temp_size s + tmp) buf), (set_in_pos b (in_pos b + tmp)).
      split_and!; [done|split; [done|simpl; lia]|]. intros _. exists [].
      pose proof (decoded_refl s r Hrun) as ((? & ? & ? & ? & ? & ? & ? & ? & ?) & Hg & Hfr).
      split_and!; [|done|].
      * split_and!; try done. unfold running; simpl. split_and!; try done; unfold LZMA_IN_REQUIRED; lia.
      * right; right. simpl. split_and!; [done| |lia]. lia.
    + destruct (Hgo buf (temp_size s + tmp - 21)) as (p & s' & b' & -> & Hf & Hpost).
      * done.
      * done.
      * lia.
      * unfold TEMP_BUF_SIZE, LZMA_IN_REQUIRED. lia.
      * exists p, s', b'. split_and!; [done|done|]. intros Hp. destruct (Hpost Hp) as (new & ? & ? & ?).
        exists new. split_and!; auto.
Qed.

Lemma lzma2_direct_ok s r b :
  running s r -> buf_ok b -> temp_size s = 0 ->
  exists p s' b', lzma2_direct s b = Some (p, s', b') /\ in_frame b b' /\
    (p <> Return false -> p = Continue /\ exists new, decoded s r new s' /\ temp_size s' = 0 /\
       (LZMA_IN_REQUIRED <= in_size b - in_pos b -> room s -> new <> []) /\
       (in_size b - in_pos b < LZMA_IN_REQUIRED -> s' = s /\ b' = b)).
Proof.
  intros Hrun Hb Ht0. pose proof Hrun as (_ & _ & _ & _ & _ & Hts & Hcs & Htl & Htb).
  pose proof Hb as (Hip & His & Hbi & _). unfold lzma2_direct.
  destruct (Z.leb_spec LZMA_IN_REQUIRED (in_size b - in_pos b)) as [Hav|Hav].
  2:{ exists Continue, s, b. split_and!; [done|by apply in_frame_refl|]. intros _. split; [done|]. exists [].
      split_and!; try done; [by apply decoded_refl|lia]. }
  unfold LZMA_IN_REQUIRED in *. rewrite wrap_small by (unfold in_range; lia).
  set (limit := if compressed (lzma2 s) + 21 <=? _ then _ else _).
  assert (Hlim : in_pos b <= limit <= in_size b - 21).
  { unfold limit. destruct (Z.leb_spec (compressed (lzma2 s) + 21) (in_size b - in_pos b)); lia. }
  clearbody limit.
  destruct (run_main_ok s r (b_in b) (in_pos b) limit Hrun Hbi ltac:(lia) ltac:(unfold LZMA_IN_REQUIRED; lia))
    as (ok & s1 & -> & Hl2 & Hts1 & Htb1 & Hok).
  destruct ok; cbn [negb]; [|by apply (returned_false s1 b (fun p s' b' => _))]. rewrite Hl2.
  destruct (Z.ltb_spec (compressed (lzma2 s)) (lz_in_pos s1 - in_pos b));
    [by apply (returned_false s1 b (fun p s' b' => _))|].
  destruct (Hok eq_refl) as (new & Hrun1 & Hg & Hpos & Hne). unfold LZMA_IN_REQUIRED in *.
  eexists _, _, _. split; [done|]. split; [split; [done|simpl; lia]|]. intros _. split; [done|].
  exists new. split_and!; [| |done|lia].
  - split; [|split; [done|by unfold l2_frame]].
    destruct Hrun1 as (? & ? & ? & ? & ? & ? & ? & ? & ?). unfold running; simpl. rewrite Hts1, Ht0.
    split_and!; (done || lia).
  - simpl. by rewrite Hts1.
Qed.

Lemma lzma2_keep_ok s r b :
  running s r -> buf_ok b -> temp_size s = 0 ->
  exists s' b', lzma2_keep s b = Some (s', b') /\ in_frame b b' /\ decoded s r [] s' /\
    (in_size b - in_pos b < LZMA_IN_REQUIRED -> 0 < compressed (lzma2 s) ->
     in_pos b < in_pos b' \/ in_pos b' = in_size b' /\ temp_size s' < compressed (lzma2 s')).
Proof.
  intros Hrun Hb Ht0. pose proof Hrun as (_ & _ & _ & _ & _ & Hts & Hcs & Htl & Htb).
  pose proof Hb as (Hip & His & Hbi & _). unfold lzma2_keep.
  destruct (Z.ltb_spec (in_size b - in_pos b) LZMA_IN_REQUIRED) as [Hav|Hav].
  2:{ exists s, b. split_and!; [done|by apply in_frame_refl|by apply decoded_refl|lia]. }
  set (n := if compressed (lzma2 s) <? _ then _ else _).
  assert (Hn : 0 <= n <= compressed (lzma2 s) /\ n <= in_size b - in_pos b /\
    (n = compressed (lzma2 s) \/ n = in_size b - in_pos b)).
  { unfold n. destruct (Z.ltb_spec (compressed (lzma2 s)) (in_size b - in_pos b)); lia. }
  clearbody n. unfold LZMA_IN_REQUIRED in *.
  destruct (memcpy (temp_buf s) 0 (b_in b) (in_pos b) n) as [buf|] eqn:Hm;
    [|by rewrite memcpy_ok in Hm by (unfold TEMP_BUF_SIZE, LZMA_IN_REQUIRED in *; lia)].
  eexists _, _. split; [done|]. split; [split; [done|simpl; lia]|].
  pose proof (decoded_refl s r Hrun) as ((? & ? & ? & ? & ? & ? & ? & ? & ?) & Hg & Hfr). split.
  - split_and!; try done. unfold running, LZMA_IN_REQUIRED; simpl. split_and!; try done; try lia.
    + by rewrite (memcpy_length _ _ _ _ _ _ Hm).
    + by eapply memcpy_forall.
  - simpl. lia.
Qed.

(** Input buffering: no byte is lost, nothing is read out of bounds, and
    whenever there is room for output the call decodes something, takes
    input, or needs more of it. *)
Lemma lzma2_lzma_ok s r b :
  running s r -> buf_ok b ->
  exists ok s' b', lzma2_lzma s b = Some (ok, s', b') /\ in_frame b b' /\
    (ok = true -> exists new, decoded s r new s' /\
       (room s -> new <> [] \/ in_pos b < in_pos b' \/
          in_pos b' = in_size b' /\ temp_size s' < compressed (lzma2 s'))).
Proof.
  intros Hrun Hb. unfold lzma2_lzma.
  destruct (lzma2_temp_ok s r b Hrun Hb) as (p1 & s1 & b1 & -> & Hf1 & H1).
  destruct p1 as [ok|].
  { exists ok, s1, b1. split_and!; [done|done|]. intros ->.
    destruct (H1 ltac:(done)) as (new & Hd & _ & Hpr). exists new. split; [done|].
    intros Hroom. destruct Hpr as [Hpr|[[? _]|(_ & ? & ?)]]; [left; by apply Hpr|done|by right; right]. }
  destruct (H1 ltac:(done)) as (new1 & Hd1 & Ht1 & Hpr1). specialize (Ht1 eq_refl).
  pose proof (in_frame_buf _ _ Hb Hf1) as Hb1. pose proof Hd1 as (Hrun1 & _).
  destruct (lzma2_direct_ok s1 _ b1 Hrun1 Hb1 Ht1) as (p2 & s2 & b2 & -> & Hf2 & H2).
  pose proof (in_frame_trans _ _ _ Hf1 Hf2) as Hf12.
  destruct p2 as [ok|].
  { exists ok, s2, b2. split_and!; [done|done|]. intros ->. by destruct (H2 ltac:(done)). }
  destruct (H2 ltac:(done)) as (_ & new2 & Hd2 & Ht2 & Hge & Hlt).
  pose proof (in_frame_buf _ _ Hb Hf12) as Hb2. pose proof Hd2 as (Hrun2 & _).
  destruct (lzma2_keep_ok s2 _ b2 Hrun2 Hb2 Ht2) as (s3 & b3 & -> & Hf3 & Hd3 & Hk).
  pose proof (in_frame_trans _ _ _ Hf12 Hf3) as Hf. pose proof (decoded_trans _ _ _ _ _ _ Hd1 Hd2) as Hd12.
  rewrite app_assoc in Hd3. pose proof (decoded_trans _ _ _ _ _ _ Hd12 Hd3) as Hd.
  exists true, s3, b3. split_and!; [done|done|]. intros _. exists ([] ++ new2 ++ new1). split; [done|].
  intros Hroom. simpl. destruct Hpr1 as [Hpr|[(_ & -> & -> & Hc)|[? _]]]; [| |done].
  - left. intros [_ ->]%app_eq_nil. by apply Hpr.
  - destruct (Z.le_gt_cases LZMA_IN_REQUIRED (in_size b - in_pos b)) as [Hav|Hav].
    + left. intros [-> _]%app_eq_nil. by apply Hge.
    + destruct (Hlt Hav) as [-> ->]. right. by apply Hk.
Qed.

(** ** The chunk layer *)

(** [r'] is the end of what was output so far, after [bs] more bytes. *)
Definition hist (r bs r' : list Z) : Prop := exists old, reverse bs ++ r = r' ++ old.

Lemma hist_refl r : hist r [] r.
Proof. exists []. by rewrite app_nil_r. Qed.

Lemma hist_trans r bs1 r1 bs2 r2 : hist r bs1 r1 -> hist r1 bs2 r2 -> hist r (bs1 ++ bs2) r2.
Proof.
  intros [o1 H1] [o2 H2]. exists (o2 ++ o1). by rewrite reverse_app, <- app_assoc, H1, app_assoc, H2, <- app_assoc.
Qed.

Definition good (ret : option xz_ret) : Prop := ret = None \/ ret = Some XZ_OK \/ ret = Some XZ_STREAM_END.

(** The outcome of a step, or of some steps. *)
Definition outcome (r : list Z) (b : xz_buf) (ret : option xz_ret) (s' : xz_dec_lzma2) (b' : xz_buf) : Prop :=
  buf_ok b' /\ in_pos b <= in_pos b' /\
  exists bs, output b b' bs /\ (good ret -> exists r', l2_inv s' r' /\ hist r bs r').

Definition progress (b b' : xz_buf) : Prop := in_pos b + out_pos b < in_pos b' + out_pos b'.

(** The input is used up or the output is full. *)
Definition stalled (b : xz_buf) : Prop := in_pos b = in_size b \/ out_pos b = out_size b.

Definition step_ok (r : list Z) (b : xz_buf) (res : step_result) : Prop :=
  exists ret s' b', res = Some (ret, s', b') /\ outcome r b ret s' b' /\ (ret = None -> progress b b') /\
    (ret = Some XZ_OK -> stalled b').

Lemma in_frame_output b b' : buf_ok b -> in_frame b b' -> output b b' [].
Proof.
  intros (_ & _ & _ & Hop & _) [-> _]. unfold output; simpl. change (zlength ([] : list Z)) with 0.
  rewrite put_out_nil by lia. split_and!; (done || lia).
Qed.

(** A step that produced nothing. *)
Lemma outcome_quiet r b ret s' b' :
  buf_ok b -> in_frame b b' -> (good ret -> exists r', l2_inv s' r' /\ (r' = r \/ r' = [])) ->
  outcome r b ret s' b'.
Proof.
  intros Hb Hf H. split; [by eapply in_frame_buf|]. split; [apply Hf|]. exists [].
  split; [by apply in_frame_output|]. intros Hg. destruct (H Hg) as (r' & Hinv & Hr). exists r'. split; [done|].
  destruct Hr as [-> | ->]; [apply hist_refl|by exists r].
Qed.

Lemma step_error r b s b' :
  buf_ok b -> in_frame b b' -> step_ok r b (Some (Some XZ_DATA_ERROR, s, b')).
Proof.
  intros Hb Hf. eexists _, _, _. split; [done|]. split; [|done]. apply outcome_quiet; [done|done|].
  by intros [?|[?|?]].
Qed.

Lemma outcome_in r b b1 ret s' b' :
  buf_ok b -> in_frame b b1 -> outcome r b1 ret s' b' -> outcome r b ret s' b'.
Proof.
  intros Hb Hf (Hb' & Hp & bs & Ho & Hg). split; [done|]. split; [destruct Hf; lia|]. exists bs. split; [|done].
  eapply (output_app b b1 b' [] bs); [done|done|by apply in_frame_output|done].
Qed.

(** A step behind input that was already taken. *)
Lemma step_ok_in r b b1 res :
  buf_ok b -> in_frame b b1 -> step_ok r b1 res -> step_ok r b res.
Proof.
  intros Hb Hf (ret & s' & b' & -> & Ho & Hp & Hs). eexists _, _, _. split; [done|]. split; [by eapply outcome_in|].
  split; [|done]. intros Hn. specialize (Hp Hn). unfold progress in *. destruct Hf as [Heq Hr].
  assert (out_pos b1 = out_pos b) by (by rewrite Heq). lia.
Qed.

Lemma dict_limit_ok d r m :
  flushed d r -> 0 <= m ->
  let d' := dict_limit d m in
  dict_inv d' r /\ d_start d' = d_pos d /\ d_pos d' = d_pos d /\ d_pos d' <= d_limit d' <= d_pos d + m /\
  d_full d' = d_full d /\ (0 < m -> dict_has_space d' = true).
Proof.
  intros [(Hh & Hs & He & Hsz & Hlim & Hb & Hr) [Hst Hpe]] Hm. unfold dict_limit.
  pose proof Hh as (Hp & _). destruct (Z.leb_spec (d_end d - d_pos d) m); unfold dict_inv, dict_has_space; simpl;
    split_and!; try done; try lia.
Qed.

Lemma dict_limit_mem d m : dict_mem d -> dict_mem (dict_limit d m).
Proof. unfold dict_limit. by case_match. Qed.

Lemma run_step_ok s r b :
  l2_inv s r -> sequence (lzma2 s) = SEQ_LZMA_RUN -> buf_ok b -> step_ok r b (run_step s b).
Proof.
  intros (Hbase & Htl & Htb & Hlen & Hfl & Hseq) Hq Hb. rewrite Hq in Hseq.
  destruct Hseq as (Hndr & Hts & Hcs & Hun & [Hlz Hps] & Hrg & Hcd). specialize (Hfl Hndr).
  pose proof Hb as (_ & _ & _ & Hop & _). unfold run_step.
  set (m := Z.min _ _). assert (Hm : 0 <= m <= out_size b - out_pos b /\ m <= uncompressed (lzma2 s)) by lia.
  destruct (dict_limit_ok _ _ m Hfl ltac:(lia)) as (Hd1 & Hst1 & Hpos1 & Hlim1 & Hful1 & Hsp1).
  set (s1 := set_lzma2_dict s _). assert (Hrun : running s1 r).
  { unfold running, s1, core_inv; simpl. rewrite Hful1. split_and!; try done; try apply Hlz; try apply Hps; lia. }
  destruct (lzma2_lzma_ok s1 r b Hrun Hb) as (ok & s2 & b2 & -> & Hf2 & Hok).
  destruct ok; [|by apply step_error]. destruct (Hok eq_refl) as (new & (Hrun2 & Hg & Hfr2) & Hpr).
  pose proof (in_frame_buf _ _ Hb Hf2) as Hb2. destruct Hg as (Hd2 & Hpos2 & Hlim2 & Hdf).
  assert (Hout2 : out_pos b2 = out_pos b /\ out_size b2 = out_size b) by (destruct Hf2 as [-> _]; done).
  pose proof Hdf as (Hs2 & Hli2 & _). unfold s1 in Hs2, Hpos2, Hli2; simpl in Hs2, Hpos2, Hli2.
  pose proof (zlength_nonneg new) as Hz.
  destruct (dict_flush_ok (dict (lz s2)) b2 (new ++ r) Hd2 Hb2 ltac:(lia))
    as (d3 & b3 & -> & Hip3 & Hb3 & Ho3 & Hd3 & Hst3 & Hpe3 & Hful3 & Hend3 & Hm3 & Hsm3 & Hal3 & Hbuf3).
  assert (Hn : d_pos (dict (lz s2)) - d_start (dict (lz s2)) = zlength new) by lia. rewrite Hn in *.
  rewrite ztake_app in Ho3. cbn [lzma2 set_lzma2_dict set_lzma2 set_core uncompressed set_uncompressed].
  unfold l2_frame in Hfr2. simpl in Hfr2. assert (Hu2 : uncompressed (lzma2 s2) = uncompressed (lzma2 s)) by (by rewrite Hfr2).
  rewrite Hu2, (wrap_small 32) by (unfold in_range; lia).
  destruct Hrun2 as ([_ Hlz2] & Hps2 & _ & Hrg2 & Hcd2 & Hts2 & Hcs2 & Htl2 & Htb2).
  assert (Hbase3 : dict_base d3).
  { pose proof Hdf as (_ & _ & _ & _ & Hsm2 & Hal2 & Hm2 & Hbl2 & _).
    pose proof Hbase as (_ & _ & _ & Hmem). apply (dict_limit_mem _ m) in Hmem.
    unfold dict_base. rewrite Hend3, Hbuf3. destruct Hd2 as ((_ & _ & ? & _) & _ & ? & ? & _ & ? & _).
    destruct Hd3 as (_ & _ & _ & ? & _). split_and!; try done; try lia.
    eapply dict_mem_same; [exact Hmem|by rewrite Hm3|by rewrite Hsm3|by rewrite Hal3|by rewrite Hbuf3|by rewrite Hbuf3]. }
  assert (Hout : output b b3 (reverse new)).
  { eapply (output_app b b2 b3 [] (reverse new)); [done|done|by apply in_frame_output|done]. }
  assert (Hip : in_pos b <= in_pos b3) by (destruct Hf2; lia).
  assert (Hhist : hist r (reverse new) (new ++ r)) by (exists []; by rewrite reverse_involutive, app_nil_r).
  assert (Hop3 : out_pos b3 = out_pos b + zlength new).
  { destruct Hout as (_ & _ & _ & -> & _). unfold zlength. by rewrite length_reverse. }
  pose proof Hlz2 as (_ & _ & _ & Hlen2 & _).
  assert (Hdone : forall ret s', (good ret -> l2_inv s' (new ++ r)) -> outcome r b ret s' b3).
  { intros ret s' H. split; [done|]. split; [done|]. exists (reverse new). split; [done|]. intros Hgd. eauto. }
  destruct (Z.eqb_spec (uncompressed (lzma2 s) - zlength new) 0) as [Hz0|Hnz].
  - destruct (_ || _ || _) eqn:Hchk.
    { eexists _, _, _. split; [done|]. split; [|done]. apply Hdone. by intros [?|[?|?]]. }
    eexists _, _, _. split; [done|]. split; [|split; [unfold progress; lia|done]]. apply Hdone. intros _.
    apply orb_false_iff in Hchk as [[Hc0 _]%orb_false_iff _]. simpl in Hc0.
    unfold l2_inv; simpl. split_and!; try done; [lia|].
    intros _ _. unfold lz_ready, rc_fresh; simpl. rewrite Hful3. split_and!; try done; apply Hps2.
  - assert (Hinv : l2_inv (set_lzma2 (set_lzma2_dict s2 d3)
        (set_uncompressed (lzma2 s2) (uncompressed (lzma2 s) - zlength new))) (new ++ r)).
    { assert (Hq2 : sequence (lzma2 s2) = SEQ_LZMA_RUN) by (by rewrite Hfr2).
      assert (Hnd2 : need_dict_reset (lzma2 s2) = false) by (by rewrite Hfr2).
      unfold l2_inv; simpl. rewrite Hq2. unfold lz_ready; simpl. rewrite Hful3.
      split_and!; try done; try lia; apply Hps2. }
    destruct (_ || _) eqn:Hchk.
    { eexists _, _, _. split; [done|]. split; [apply Hdone; by intros _|]. split; [done|]. intros _. unfold stalled. lia. }
    eexists _, _, _. split; [done|]. split; [apply Hdone; by intros _|]. split; [intros _|done].
    apply orb_false_iff in Hchk as [Hof Hif]. apply Z.eqb_neq in Hof.
    assert (Hos3 : out_size b3 = out_size b) by (by destruct Hout as (_ & _ & -> & _)).
    assert (His3 : in_size b3 = in_size b2) by (by destruct Ho3 as (_ & -> & _)).
    unfold progress. destruct (Z.eq_dec (zlength new) 0) as [Hz0|]; [|lia].
    destruct Hpr as [Hne|[Hin|[Hin Htc]]].
    + apply Hsp1. lia.
    + destruct new; [done|]. rewrite zlength_cons in Hz0. pose proof (zlength_nonneg new). lia.
    + lia.
    + simpl in Hif. lia.
Qed.

Lemma rd_in b : buf_ok b -> in_pos b < in_size b -> exists v, rd (b_in b) (in_pos b) = Some v /\ in_range 8 v.
Proof.
  intros (Hip & His & Hbi & _) Hlt. destruct (rd_ok (b_in b) (in_pos b)) as [v Hv]; [lia|].
  exists v. split; [done|]. exact (rd_forall _ _ _ _ Hbi Hv).
Qed.

Lemma in_frame_next b : buf_ok b -> in_pos b < in_size b -> in_frame b (set_in_pos b (in_pos b + 1)).
Proof. intros (? & _) ?. split; [done|simpl; lia]. Qed.

Lemma rc_read_init_loop_ok fuel rd b :
  range rd = 2 ^ 32 - 1 -> in_range 32 (code rd) -> 0 <= init_bytes_left rd <= Z.of_nat fuel -> buf_ok b ->
  exists ok r' b', rc_read_init_loop fuel rd b = Some (ok, r', b') /\ in_frame b b' /\ range r' = 2 ^ 32 - 1 /\
    in_range 32 (code r') /\ init_bytes_left r' <= init_bytes_left rd /\
    (ok = false -> 0 < init_bytes_left r' /\ in_pos b' = in_size b').
Proof.
  revert rd b. induction fuel as [|fuel IH]; intros rd b Hr Hc Hi Hb; cbn [rc_read_init_loop];
    destruct (Z.ltb_spec 0 (init_bytes_left rd)); try lia;
    try (exists true, rd, b; split_and!; try done; try lia; by apply in_frame_refl).
  destruct (Z.eqb_spec (in_pos b) (in_size b)).
  { exists false, rd, b. split_and!; try done; try lia; by apply in_frame_refl. }
  pose proof Hb as (Hip & _). destruct (rd_in b Hb ltac:(lia)) as (v & -> & _).
  destruct (IH (mk_rc (range rd) (u32 (u32 (Z.shiftl (code rd) 8) + v)) (init_bytes_left rd - 1)
    (rc_in rd) (rc_in_pos rd) (rc_in_limit rd)) (set_in_pos b (in_pos b + 1)))
    as (ok & r' & b' & -> & Hf & Hr' & Hc' & Hi' & Hfl); simpl.
  - done.
  - by apply wrap_range.
  - lia.
  - eapply in_frame_buf; [done|]. apply in_frame_next; [done|lia].
  - exists ok, r', b'. simpl in Hi'. split_and!; try done; [|lia].
    eapply in_frame_trans; [|done]. apply in_frame_next; [done|lia].
Qed.

Lemma l2_inv_base s r :
  l2_inv s r -> dict_base (dict (lz s)) /\ zlength (temp_buf s) = TEMP_BUF_SIZE /\ bytes_ok (temp_buf s) /\
  in_range 32 (len (lzma (lz s))).
Proof. intros (? & ? & ? & ? & _). done. Qed.

Lemma prepare_step_ok s r b :
  l2_inv s r -> sequence (lzma2 s) = SEQ_LZMA_PREPARE -> buf_ok b -> step_ok r b (prepare_step s b).
Proof.
  intros (Hbase & Htl & Htb & Hlen & Hfl & Hseq) Hq Hb. rewrite Hq in Hseq.
  destruct Hseq as (Hts & Hndr & [Hun Hcs] & Hlz & Hr & Hc & Hi). unfold prepare_step.
  destruct (Z.ltb_spec (compressed (lzma2 s)) RC_INIT_BYTES); [apply step_error; [done|by apply in_frame_refl]|].
  destruct (rc_read_init_loop_ok (Z.to_nat RC_INIT_BYTES) (rc (lz s)) b Hr Hc ltac:(unfold RC_INIT_BYTES in *; lia) Hb)
    as (ok & r' & b' & Hrun & Hf & Hr' & Hc' & Hi' & Hfalse). unfold rc_read_init. rewrite Hrun.
  pose proof (in_frame_buf _ _ Hb Hf) as Hb'. destruct ok.
  - eapply step_ok_in; [done|exact Hf|]. apply run_step_ok; [|done|done].
    unfold l2_inv; simpl. unfold RC_INIT_BYTES, LZMA_IN_REQUIRED, RC_TOP_VALUE in *. rewrite Hts, Hr'.
    split_and!; try done; try lia; try apply Hlz.
  - destruct (Hfalse eq_refl) as [Hi0 Hstall].
    eexists _, _, _. split; [done|]. split; [|split; [done|by intros _; left]]. apply outcome_quiet; [done|done|]. intros _. exists r.
    split; [|by left]. unfold l2_inv; simpl. rewrite Hq.
    unfold rc_fresh, RC_INIT_BYTES in *; simpl. split_and!; try done; try lia; apply Hlz.
Qed.

Lemma copy_step_ok s r b :
  l2_inv s r -> sequence (lzma2 s) = SEQ_COPY -> buf_ok b -> in_pos b < in_size b -> step_ok r b (copy_step s b).
Proof.
  intros (Hbase & Htl & Htb & Hlen & Hfl & Hseq) Hq Hb Hin. rewrite Hq in Hseq.
  destruct Hseq as (Hts & Hndr & Hcs & Hre). destruct (Hfl Hndr) as (Hd & Hst & Hpe). unfold copy_step, dict_uncompressed.
  destruct (dict_uncompressed_loop_ok (Z.to_nat (compressed (lzma2 s))) (dict (lz s)) b r (compressed (lzma2 s)) Hd Hst Hpe Hb)
    as (n & d' & b' & -> & Hn & Hip' & Hb' & Ho & Hd' & Hst' & Hpe' & Hful & Hend & Hm & Hsm & Hal & Hbl & Hwhy); [lia|].
  set (bs := slice (b_in b) (in_pos b) n) in *.
  assert (Hbase' : dict_base d').
  { unfold dict_base. rewrite Hend, Hbl. destruct Hbase as (? & ? & ? & ?).
    destruct Hd' as (_ & _ & _ & ? & _ & ? & _). split_and!; try done; try lia. by eapply dict_mem_same. }
  assert (Hlz : lz_ready s -> lz_ok (lzma (lz s)) (d_full d')) by (intros [? _]; by eapply lz_ok_full).
  assert (Hre' : need_props (lzma2 s) = false ->
    (lz_ok (lzma (lz s)) (d_full d') /\ probs_ok (probs (lzma (lz s)))) /\ rc_fresh (rc (lz s))).
  { intros Hnp. destruct (Hre Hnp) as [[H1 H2] H3]. split; [split; [by eapply lz_ok_full|done]|done]. }
  assert (Hip : in_pos b <= in_pos b') by lia. pose proof Hb as (_ & _ & _ & Hop & _).
  assert (Hzb : zlength bs = n) by (apply zlength_slice; [destruct Hb; lia..|destruct Hb' as (? & ? & _), Ho as (Hbi & ? & _); rewrite <- Hbi; lia]).
  assert (Hdone : forall ret s', (good ret -> l2_inv s' (reverse bs ++ r)) -> outcome r b ret s' b').
  { intros ret s' H. split; [done|]. split; [done|]. exists bs. split; [done|]. intros Hg.
    exists (reverse bs ++ r). split; [by apply H|]. exists []. by rewrite app_nil_r. }
  destruct (Z.ltb_spec 0 (compressed (lzma2 s) - n)).
  - eexists _, _, _. split; [done|]. split; [|split; [done|intros _; unfold stalled; lia]].
    apply Hdone. intros _. unfold l2_inv; simpl. rewrite Hq. split_and!; try done; lia.
  - eexists _, _, _. split; [done|]. split; [|split; [|done]].
    + apply Hdone. intros _. unfold l2_inv; simpl. split_and!; try done.
    + intros _. unfold progress. destruct Ho as (_ & _ & _ & -> & _). lia.
Qed.

Lemma props_loop_spec fuel props step count :
  0 <= props < Z.of_nat fuel -> 0 < step ->
  props_loop fuel props step count = (props mod step, count + props / step).
Proof.
  revert props count. induction fuel as [|fuel IH]; intros props count Hp Hs; [lia|]. cbn [props_loop].
  destruct (Z.leb_spec step props).
  - rewrite IH by lia. replace props with (props - step + 1 * step) at 3 4 by lia.
    rewrite Z.mod_add, Z.div_add by lia. f_equal. lia.
  - rewrite Z.mod_small, Z.div_small by lia. f_equal. lia.
Qed.

Lemma shiftl_mask n : 0 <= n <= 31 -> u32 (Z.shiftl 1 n - 1) = 2 ^ n - 1.
Proof.
  intros. rewrite Z.shiftl_1_l. apply wrap_small. unfold in_range.
  assert (0 < 2 ^ n) by (apply Z.pow_pos_nonneg; lia).
  assert (2 ^ n <= 2 ^ 31) by (apply Z.pow_le_mono_r; lia). lia.
Qed.

Lemma reset_probs_ok : probs_ok (replicate (Z.to_nat PROBS_TOTAL) (RC_BIT_MODEL_TOTAL / 2)).
Proof.
  split; [unfold zlength; rewrite length_replicate; by rewrite Z2Nat.id|]. apply Forall_replicate.
  unfold RC_BIT_MODEL_TOTAL. change (2 ^ 11 / 2) with 1024. lia.
Qed.

(** [lzma_props] accepts exactly the bytes (pb * 5 + lp) * 9 + lc with
    lc + lp <= 4 and pb <= 4. *)
Lemma lzma_props_ok c props :
  0 <= props < 256 ->
  let pb := props / 45 in
  let lp := props mod 45 / 9 in
  let lc' := props mod 45 mod 9 in
  exists c', lzma_props c props = ((props <=? 224) && (lc' + lp <=? 4), c') /\ dict c' = dict c /\
    len (lzma c') = len (lzma c) /\
    ((props <=? 224) && (lc' + lp <=? 4) = true ->
       lc (lzma c') = lc' /\ literal_pos_mask (lzma c') = 2 ^ lp - 1 /\ pos_mask (lzma c') = 2 ^ pb - 1 /\
       rc c' = rc_reset (rc c) /\ state (lzma c') = STATE_LIT_LIT /\
       rep0 (lzma c') = 0 /\ rep1 (lzma c') = 0 /\ rep2 (lzma c') = 0 /\ rep3 (lzma c') = 0 /\
       probs (lzma c') = replicate (Z.to_nat PROBS_TOTAL) (RC_BIT_MODEL_TOTAL / 2)).
Proof.
  intros Hp. cbv zeta. unfold lzma_props. change ((4 * 5 + 4) * 9 + 8) with 224. change (9 * 5) with 45.
  destruct (Z.ltb_spec 224 props).
  { exists c. replace (props <=? 224) with false by lia. split_and!; done. }
  replace (props <=? 224) with true by lia.
  pose proof (Z.mod_pos_bound props 45 ltac:(lia)).
  rewrite props_loop_spec by lia. rewrite props_loop_spec by lia. rewrite !Z.add_0_l. cbn [andb].
  set (pb := props / 45). set (lp := props mod 45 / 9). set (lcv := props mod 45 mod 9).
  assert (0 <= pb <= 4) by (unfold pb; split; [apply Z.div_pos; lia|apply Z.lt_succ_r, Z.div_lt_upper_bound; lia]).
  assert (0 <= lp <= 4) by (unfold lp; split; [apply Z.div_pos; lia|apply Z.lt_succ_r, Z.div_lt_upper_bound; lia]).
  rewrite !shiftl_mask by lia. destruct (Z.ltb_spec 4 (lcv + lp)).
  - replace (lcv + lp <=? 4) with false by lia. eexists. split; [done|]. split_and!; done.
  - replace (lcv + lp <=? 4) with true by lia. eexists. split; [done|]. split_and!; try done.
Qed.

(** [lzma_props] accepts exactly the property bytes that encode
    lc + lp <= 4 and pb <= 4 as (pb * 5 + lp) * 9 + lc, sets the three
    parameters to them, and resets the decoder. *)
Theorem lzma_props_spec c pb lp lc' :
  0 <= pb <= 4 -> 0 <= lp <= 4 -> 0 <= lc' <= 8 ->
  exists c', lzma_props c ((pb * 5 + lp) * 9 + lc') = (lc' + lp <=? 4, c') /\
    (lc' + lp <= 4 -> lc (lzma c') = lc' /\ literal_pos_mask (lzma c') = 2 ^ lp - 1 /\
       pos_mask (lzma c') = 2 ^ pb - 1 /\ probs_ok (probs (lzma c')) /\ rc c' = rc_reset (rc c)).
Proof.
  intros Hpb Hlp Hlc. set (props := (pb * 5 + lp) * 9 + lc').
  assert (Hm : props mod 45 = lp * 9 + lc' /\ props / 45 = pb).
  { unfold props. replace ((pb * 5 + lp) * 9 + lc') with (lp * 9 + lc' + pb * 45) by lia.
    rewrite Z.mod_add, Z.div_add, Z.mod_small, Z.div_small by lia. lia. }
  destruct Hm as [Hm Hd].
  assert (Hm2 : (lp * 9 + lc') mod 9 = lc' /\ (lp * 9 + lc') / 9 = lp).
  { rewrite (Z.add_comm (lp * 9)). rewrite Z.mod_add, Z.div_add, Z.mod_small, Z.div_small by lia. lia. }
  destruct Hm2 as [Hm2 Hd2]. destruct (lzma_props_ok c props ltac:(lia)) as (c' & Hrun & _ & _ & Hok).
  cbv zeta in *. rewrite Hm, Hd, Hm2, Hd2 in *. replace (props <=? 224) with true in * by lia. cbn [andb] in *.
  exists c'. split; [done|]. intros Hle. destruct Hok as (? & ? & ? & ? & _ & _ & _ & _ & _ & Hps); [lia|].
  split_and!; try done; rewrite Hps; apply reset_probs_ok.
Qed.

Lemma props_ready c c' props full :
  0 <= props < 256 -> lzma_props c props = (true, c') -> in_range 32 (len (lzma c)) ->
  lz_ok (lzma c') full /\ probs_ok (probs (lzma c')) /\ rc_fresh (rc c') /\ dict c' = dict c /\
  len (lzma c') = len (lzma c).
Proof.
  intros Hp H Hlen. destruct (lzma_props_ok c props Hp) as (c2 & Hrun & Hd & Hl & Hok). cbv zeta in *.
  rewrite H in Hrun. injection Hrun as Hb <-. symmetry in Hb.
  destruct (Hok Hb) as (Hlc & Hlp & Hpb & Hrc & Hst & H0 & H1 & H2 & H3 & Hps).
  apply andb_true_iff in Hb as [Hb1 Hb2].
  pose proof (Z.mod_pos_bound props 45 ltac:(lia)). pose proof (Z.mod_pos_bound (props mod 45) 9 ltac:(lia)).
  assert (0 <= props mod 45 / 9) by (apply Z.div_pos; lia).
  assert (0 <= props / 45 <= 4) by (split; [apply Z.div_pos; lia|apply Z.lt_succ_r, Z.div_lt_upper_bound; lia]).
  split_and!; try done.
  - split_and!.
    + exists (props mod 45 / 9), (props / 45). rewrite Hlc. split_and!; (done || lia).
    + unfold reps_ok, in_range. rewrite H0, H1, H2, H3. lia.
    + by rewrite Hst.
    + by rewrite Hst.
    + by rewrite Hl.
    + rewrite Hst. unfold STATE_LIT_LIT, LIT_STATES. lia.
  - rewrite Hps. apply reset_probs_ok.
  - by rewrite Hrc.
Qed.

Lemma dict_reset_ok d : dict_base d -> flushed (dict_reset d) [] /\ dict_base (dict_reset d).
Proof.
  intros (He & Hs & Hl & Hb & Hm). split; [|done]. split; [|simpl; lia].
  unfold dict_inv, holds; simpl. change (zlength ([] : list Z)) with 0. split_and!; try done; try lia.
Qed.

Lemma lzma_reset_ready s :
  params_ok (lzma (lz s)) -> in_range 32 (len (lzma (lz s))) ->
  lz_ready (set_core s (lzma_reset (lz s))) /\ rc_fresh (rc (lzma_reset (lz s))).
Proof.
  intros Hp Hl. split; [split; [|apply reset_probs_ok]|done].
  unfold lz_ok; simpl. split_and!; try done; unfold STATE_LIT_LIT, LIT_STATES, STATES; lia.
Qed.

Lemma control_uncompressed tmp : 0 <= tmp < 256 -> 0 <= Z.shiftl (Z.land tmp 0x1F) 16 <= 0x1F0000.
Proof.
  intros. rewrite Z.shiftl_mul_pow2 by lia. pose proof (mask_bound tmp 5 ltac:(lia)) as Hm.
  change (2 ^ 5 - 1) with 0x1F in Hm. change (2 ^ 5) with 32 in Hm. lia.
Qed.

Lemma control_step_ok s r b b' tmp :
  l2_inv s r -> sequence (lzma2 s) = SEQ_CONTROL -> buf_ok b -> in_frame b b' -> in_pos b < in_pos b' ->
  0 <= tmp < 256 -> step_ok r b (control_step s b' tmp).
Proof.
  intros Hinv Hq Hb Hf Hlt Htmp. pose proof Hinv as (Hbase & Htl & Htb & Hlen & Hfl & Hseq). rewrite Hq in Hseq.
  destruct Hseq as [Hts Hre]. pose proof (control_uncompressed tmp Htmp) as Hcu.
  assert (Hpb : progress b b').
  { unfold progress. assert (out_pos b' = out_pos b) by (by destruct Hf as [-> _]). lia. }
  unfold control_step. destruct (Z.eqb_spec tmp 0).
  { eexists _, _, _. split; [done|]. split; [|done]. apply outcome_quiet; [done|done|]. intros _. exists r. auto. }
  set (fresh := (0xE0 <=? tmp) || (tmp =? 1)).
  set (s1 := if fresh then _ else s).
  (* The state behind a possible dictionary reset. *)
  assert (Hs1 : exists r1, (r1 = r \/ r1 = []) /\ dict_base (dict (lz s1)) /\ temp_size s1 = 0 /\
    temp_buf s1 = temp_buf s /\ lzma (lz s1) = lzma (lz s) /\ rc (lz s1) = rc (lz s) /\
    need_dict_reset (lzma2 s1) = (if fresh then false else need_dict_reset (lzma2 s)) /\
    need_props (lzma2 s1) = (if fresh then true else need_props (lzma2 s)) /\
    (need_dict_reset (lzma2 s1) = false -> flushed (dict (lz s1)) r1) /\
    (need_dict_reset (lzma2 s1) = false -> need_props (lzma2 s1) = false -> lz_ready s1 /\ rc_fresh (rc (lz s1)))).
  { unfold s1. destruct fresh.
    - destruct (dict_reset_ok _ Hbase). exists []. split_and!; auto; simpl; done.
    - exists r. split_and!; auto. }
  clearbody s1. destruct Hs1 as (r1 & Hr1 & Hb1 & Ht1 & Htb1 & Hl1 & Hrc1 & Hnd1 & Hnp1 & Hfl1 & Hre1).
  destruct (negb fresh && need_dict_reset (lzma2 s1)) eqn:Hbad; [by apply step_error|].
  assert (Hnd : need_dict_reset (lzma2 s1) = false) by (rewrite Hnd1 in *; by destruct fresh).
  specialize (Hfl1 Hnd). specialize (Hre1 Hnd).
  assert (Hgo : forall s', l2_inv s' r1 -> step_ok r b (Some (None, s', b'))).
  { intros s' H. eexists _, _, _. split; [done|]. split; [|done]. apply outcome_quiet; [done|done|].
    intros _. exists r1. auto. }
  destruct (Z.leb_spec 0x80 tmp).
  - destruct (Z.leb_spec 0xC0 tmp).
    + apply Hgo. unfold l2_inv; simpl. rewrite Hl1, Htb1. split_and!; try done; try lia. by left.
    + cbn [lzma2 set_lzma2 need_props set_seq set_uncompressed].
      destruct (need_props (lzma2 s1)) eqn:Hnp; [by apply step_error|]. destruct (Hre1 eq_refl) as [Hlz Hrc].
      apply Hgo. destruct (Z.leb_spec 0xA0 tmp).
      * assert (Hlen1 : in_range 32 (len (lzma (lz s1)))) by (by rewrite Hl1).
        destruct (lzma_reset_ready s1 (proj1 (proj1 Hlz)) Hlen1) as [[Hz1 Hz2] Hz3].
        unfold l2_inv, lz_ready; simpl. rewrite Htb1. split_and!; try done; try lia. right. done.
      * unfold l2_inv; simpl. rewrite Hl1, Htb1. destruct Hlz as [Hz1 Hz2]. unfold lz_ready; simpl. rewrite <- Hl1.
        split_and!; try done; try lia; [by rewrite Hl1|]. right. done.
  - destruct (Z.ltb_spec 2 tmp); [by apply step_error|]. apply Hgo.
    unfold l2_inv; simpl. rewrite Hl1, Htb1. split_and!; done.
Qed.

Lemma with_byte_ok r b k :
  buf_ok b -> in_pos b < in_size b ->
  (forall v b', in_range 8 v -> in_frame b b' -> buf_ok b' -> in_pos b < in_pos b' -> step_ok r b (k v b')) ->
  step_ok r b (with_byte b k).
Proof.
  intros Hb Hlt Hk. destruct (rd_in b Hb Hlt) as (v & Hv & Hr). unfold with_byte. rewrite Hv.
  pose proof (in_frame_next b Hb Hlt) as Hf. apply Hk; [done|done|by eapply in_frame_buf|simpl; lia].
Qed.

(** A step that only took a byte of a chunk header. *)
Lemma header_step_ok r b s' b' :
  buf_ok b -> in_frame b b' -> in_pos b < in_pos b' -> l2_inv s' r -> step_ok r b (Some (None, s', b')).
Proof.
  intros Hb Hf Hlt Hinv. eexists _, _, _. split; [done|]. split; [|split; [|done]].
  - apply outcome_quiet; [done|done|]. intros _. exists r. auto.
  - intros _. unfold progress. assert (out_pos b' = out_pos b) by (by destruct Hf as [-> _]). lia.
Qed.

Lemma header_byte v : in_range 8 v -> Z.shiftl v 8 = 256 * v /\ 0 <= v < 256.
Proof. unfold in_range. intros. rewrite Z.shiftl_mul_pow2 by lia. lia. Qed.

Lemma lzma2_step_ok s r b :
  l2_inv s r -> buf_ok b -> in_pos b < in_size b \/ sequence (lzma2 s) = SEQ_LZMA_RUN ->
  step_ok r b (lzma2_step s b).
Proof.
  intros Hinv Hb Hin. pose proof Hinv as (Hbase & Htl & Htb & Hlen & Hfl & Hseq). unfold lzma2_step.
  destruct (sequence (lzma2 s)) eqn:Hq;
    try (destruct Hin as [Hin|Hin]; [|done]); try (apply with_byte_ok; [done|done|];
      intros v b' Hv Hf Hb' Hlt; destruct (header_byte v Hv) as [Hsh Hvr]; rewrite ?Hsh).
  - by apply control_step_ok.
  - destruct Hseq as (Hts & Hnd & Hun & Hnx). apply header_step_ok; try done. unfold l2_inv; simpl.
    rewrite wrap_small by (unfold in_range; lia). split_and!; try done; lia.
  - destruct Hseq as (Hts & Hnd & Hun & Hnx). apply header_step_ok; try done. unfold l2_inv; simpl.
    rewrite wrap_small by (unfold in_range; lia). split_and!; try done.
    destruct Hnx as [-> | [-> Hpr]]; [lia|split; [lia|done]].
  - destruct Hseq as (Hts & Hnd & Hnx). apply header_step_ok; try done. unfold l2_inv; simpl.
    split_and!; try done; lia.
  - destruct Hseq as (Hts & Hnd & Hnx & Hcs). apply header_step_ok; try done. unfold l2_inv, chunk_sizes in *; simpl.
    rewrite wrap_small by (unfold in_range; lia). split_and!; try done.
    revert Hnx. destruct (next_sequence (lzma2 s)); try done; intros Hnx; split_and!; try done; try lia; apply Hnx.
  - destruct Hseq as (Hts & Hnd & Hcs). destruct (lzma_props (lz s) v) as [ok c] eqn:Hp.
    destruct ok; [|by apply step_error]. eapply step_ok_in; [done|exact Hf|].
    destruct (props_ready _ _ _ (d_full (dict (lz s))) Hvr Hp Hlen) as (Hlz & Hps & Hrc & Hdc & Hlc).
    apply prepare_step_ok; [|done|done]. unfold l2_inv, lz_ready; simpl. rewrite Hdc, Hlc.
    split_and!; try done; try apply Hlz; apply Hps.
  - by apply prepare_step_ok.
  - by apply run_step_ok.
  - by apply copy_step_ok.
Qed.

(** ** The loop *)

Lemma lzma2_loop_ok fuel s r b :
  l2_inv s r -> buf_ok b -> (in_size b - in_pos b) + (out_size b - out_pos b) < Z.of_nat fuel ->
  exists ret s' b', lzma2_loop fuel s b = Some (ret, s', b') /\ outcome r b (Some ret) s' b' /\
    (ret = XZ_OK -> stalled b').
Proof.
  revert s r b. induction fuel as [|fuel IH]; intros s r b Hinv Hb Hfuel.
  { destruct Hb as (? & _ & _ & ? & _). lia. }
  cbn [lzma2_loop]. destruct ((in_pos b <? in_size b) || is_lzma_run (sequence (lzma2 s))) eqn:Hc.
  2:{ eexists _, _, _. split; [done|]. split.
      - apply outcome_quiet; [done|by apply in_frame_refl|]. intros _. exists r. auto.
      - intros _. left. destruct Hb as (? & _). apply orb_false_iff in Hc as [? _]. lia. }
  assert (Hin : in_pos b < in_size b \/ sequence (lzma2 s) = SEQ_LZMA_RUN).
  { apply orb_true_iff in Hc as [Hc|Hc]; [left; lia|right]. unfold is_lzma_run in Hc. by apply bool_decide_eq_true in Hc. }
  destruct (lzma2_step_ok s r b Hinv Hb Hin) as (ret & s1 & b1 & -> & Hout & Hpr & Hst).
  destruct ret as [ret|]; [exists ret, s1, b1; split_and!; try done; by intros ->; apply Hst|]. specialize (Hpr eq_refl). unfold progress in Hpr.
  destruct Hout as (Hb1 & Hip & bs & Ho & Hg). destruct (Hg (or_introl eq_refl)) as (r1 & Hinv1 & Hh).
  pose proof Ho as (_ & His & Hos & _).
  destruct (IH s1 r1 b1 Hinv1 Hb1 ltac:(lia)) as (ret & s2 & b2 & -> & (Hb2 & Hip2 & bs2 & Ho2 & Hg2) & Hst2).
  exists ret, s2, b2. split; [done|]. split; [|done]. split; [done|]. split; [lia|]. exists (bs ++ bs2).
  split; [by eapply output_app|]. intros Hgd. destruct (Hg2 Hgd) as (r2 & Hinv2 & Hh2). exists r2.
  split; [done|]. by eapply hist_trans.
Qed.

Lemma lzma2_run_ok s r b :
  l2_inv s r -> buf_ok b ->
  exists ret s' b' bs, xz_dec_lzma2_run s b = Some (ret, s', b') /\
    buf_ok b' /\ in_pos b <= in_pos b' /\ output b b' bs /\
    (ret = XZ_OK \/ ret = XZ_STREAM_END -> exists r', l2_inv s' r' /\ hist r bs r') /\
    (ret = XZ_OK -> stalled b').
Proof.
  intros Hinv Hb. pose proof Hb as (? & _ & _ & ? & _).
  destruct (lzma2_loop_ok (run_fuel b) s r b Hinv Hb) as (ret & s' & b' & Hrun & (Hb' & Hip & bs & Ho & Hg) & Hst).
  { unfold run_fuel. lia. }
  exists ret, s', b', bs. split_and!; try done. intros [-> | ->]; apply Hg; unfold good; auto.
Qed.

(** C25: whatever the input, [xz_dec_lzma2_run] terminates, no access leaves
    a buffer, the input position only moves forward within the input, the
    output is only appended to, XZ_OK means that the input is used up or the
    output is full, and unless an error is reported the decoder is left in a
    state it can go on from, with the dictionary holding the end of what was
    output. *)
Theorem xz_dec_lzma2_run_safe s r b :
  l2_inv s r -> buf_ok b ->
  exists ret s' b' bs, xz_dec_lzma2_run s b = Some (ret, s', b') /\
    buf_ok b' /\ in_pos b <= in_pos b' /\ output b b' bs /\
    (ret = XZ_OK \/ ret = XZ_STREAM_END -> exists r', l2_inv s' r' /\ hist r bs r') /\
    (ret = XZ_OK -> stalled b').
Proof. apply lzma2_run_ok. Qed.

(** ** Reset *)

Definition dict_size_of (props : Z) : Z := (2 + props mod 2) * 2 ^ (props / 2 + 11).

Lemma dict_size_ok props :
  0 <= props <= 39 ->
  u32 (Z.shiftl (2 + Z.land props 1) (Z.shiftr props 1 + 11)) = dict_size_of props /\
  0 < dict_size_of props < 2 ^ 32.
Proof.
  intros Hp. unfold dict_size_of. change 1 with (2 ^ 1 - 1) at 1. rewrite land_ones_eq_mod by lia.
  change (2 ^ 1) with 2. rewrite Z.shiftr_div_pow2 by lia. change (2 ^ 1) with 2.
  assert (0 <= props / 2 <= 19) by (split; [apply Z.div_pos; lia|apply Z.lt_succ_r, Z.div_lt_upper_bound; lia]).
  pose proof (Z.mod_pos_bound props 2 ltac:(lia)).
  assert (0 < 2 ^ (props / 2 + 11) <= 2 ^ 30).
  { split; [apply Z.pow_pos_nonneg; lia|apply Z.pow_le_mono_r; lia]. }
  rewrite Z.shiftl_mul_pow2 by lia.
  assert (0 < (2 + props mod 2) * 2 ^ (props / 2 + 11) < 2 ^ 32) by nia.
  split; [apply wrap_small; unfold in_range; lia|done].
Qed.

(** The parts of the decoder that exist before the first reset. *)
Definition dec_mem (s : xz_dec_lzma2) : Prop :=
  zlength (temp_buf s) = TEMP_BUF_SIZE /\ bytes_ok (temp_buf s) /\ dict_mem (dict (lz s)).

Lemma reset_ok s props o :
  dec_mem s -> 0 <= props < 256 ->
  let '(ret, s', _) := xz_dec_lzma2_reset s props o in
  (ret = XZ_OK /\ props <= 39 /\ dict_size_of props <= d_size_max (dict (lz s)) /\
     (forall r, l2_inv s' r) /\ d_size (dict (lz s')) = dict_size_of props) \/
  (ret = XZ_OPTIONS_ERROR /\ 39 < props /\ s' = s) \/
  (ret = XZ_MEMLIMIT_ERROR /\ props <= 39 /\ d_size_max (dict (lz s)) < dict_size_of props /\ dec_mem s') \/
  (ret = XZ_MEM_ERROR /\ d_mode (dict (lz s)) = XZ_DYNALLOC /\ ~ mem_ok o /\ dec_mem s').
Proof.
  intros (Htl & Htb & Hmem) Hp. unfold xz_dec_lzma2_reset. destruct (Z.ltb_spec 39 props); [auto 10|].
  destruct (dict_size_ok props ltac:(lia)) as [-> Hsz]. set (size := dict_size_of props) in *. clearbody size.
  destruct (Z.ltb_spec (d_size_max (dict (lz s))) size); [right; right; left; by split_and!|].
  pose proof Hmem as [Hb Hm].
  assert (Hfin : forall buf al, bytes_ok buf -> size <= zlength buf ->
    dict_mem (mk_dict buf (d_start (dict (lz s))) (d_pos (dict (lz s))) (d_full (dict (lz s))) (d_limit (dict (lz s)))
      size size (d_size_max (dict (lz s))) al (d_mode (dict (lz s)))) ->
    forall r, l2_inv (set_temp (set_lzma2 (set_core (set_lzma2_dict s (mk_dict buf (d_start (dict (lz s)))
      (d_pos (dict (lz s))) (d_full (dict (lz s))) (d_limit (dict (lz s)))
      size size (d_size_max (dict (lz s))) al (d_mode (dict (lz s))))) (set_lzma (lz (set_lzma2_dict s (mk_dict buf (d_start (dict (lz s)))
      (d_pos (dict (lz s))) (d_full (dict (lz s))) (d_limit (dict (lz s)))
      size size (d_size_max (dict (lz s))) al (d_mode (dict (lz s)))))) (set_len (lzma (lz s)) 0)))
      (set_needs (set_seq (lzma2 s) SEQ_CONTROL) true (need_props (lzma2 s)))) 0 (temp_buf s)) r).
  { intros buf al Hbb Hlen Hdm r. unfold l2_inv, dict_base; simpl. split_and!; try done; lia. }
  destruct (d_mode (dict (lz s))) eqn:Hmode.
  - left. split_and!; try done; try lia. apply Hfin; [done|lia|]. unfold dict_mem; simpl. done.
  - assert (Hrep : bytes_ok (replicate (Z.to_nat size) 0) /\ zlength (replicate (Z.to_nat size) 0) = size).
    { split; [by apply Forall_replicate|]. unfold zlength. rewrite length_replicate. lia. }
    destruct Hrep as [Hr1 Hr2]. destruct (Z.ltb_spec (d_allocated (dict (lz s))) size).
    + destruct (malloc o) as [[] o1] eqn:E.
      * left. split_and!; try done; try lia. apply Hfin; [done|lia|]. unfold dict_mem; simpl. rewrite Hr2.
        split; [done|lia].
      * right; right; right. split_and!; try done.
        intros M. by destruct (malloc_mem_ok _ _ _ E M).
    + left. split_and!; try done; try lia. apply Hfin; [done|lia|]. unfold dict_mem; simpl. done.
Qed.

(** [xz_dec_lzma2_reset] rejects properties above 39 and dictionaries
    above the limit, reports a failed allocation, and otherwise leaves the
    decoder ready to run with the dictionary size the properties encode,
    2 or 3 times a power of two. *)
Theorem xz_dec_lzma2_reset_spec s props o :
  dec_mem s -> 0 <= props < 256 ->
  let '(ret, s', _) := xz_dec_lzma2_reset s props o in
  (ret = XZ_OK /\ props <= 39 /\ dict_size_of props <= d_size_max (dict (lz s)) /\
     (forall r, l2_inv s' r) /\ d_size (dict (lz s')) = dict_size_of props) \/
  (ret = XZ_OPTIONS_ERROR /\ 39 < props /\ s' = s) \/
  (ret = XZ_MEMLIMIT_ERROR /\ props <= 39 /\ d_size_max (dict (lz s)) < dict_size_of props /\ dec_mem s') \/
  (ret = XZ_MEM_ERROR /\ d_mode (dict (lz s)) = XZ_DYNALLOC /\ ~ mem_ok o /\ dec_mem s').
Proof. apply reset_ok. Qed.

(** ** Where the comments on [struct dictionary] are wrong *)

(** "allocated: amount of memory currently allocated for the dictionary"
    is never recorded: in XZ_DYNALLOC mode a successful reset that allocates
    the buffer leaves [allocated] at 0, so every Block allocates anew. *)
Theorem dynalloc_allocated_stays_zero s props o s' o' :
  d_mode (dict (lz s)) = XZ_DYNALLOC -> d_allocated (dict (lz s)) = 0 ->
  xz_dec_lzma2_reset s props o = (XZ_OK, s', o') ->
  d_allocated (dict (lz s')) = 0.
Proof.
  intros Hm Ha H. unfold xz_dec_lzma2_reset in H. rewrite Hm, Ha in H.
  repeat case_match; simplify_eq; done.
Qed.

(** "pos <= limit" is not always true: an uncompressed chunk right after a
    dictionary reset moves [pos] past the limit, which is still 0. *)
Theorem copy_passes_limit :
  let d := dict_reset (mk_dict (replicate 16 0) 0 0 0 0 16 16 16 0 XZ_DYNALLOC) in
  match dict_uncompressed d (mk_xz_buf [65] 0 1 [0] 0 1) 1 with
  | Some (d', _, _) => d_limit d' < d_pos d'
  | None => False
  end.
Proof. vm_compute. reflexivity. Qed.

(** ** Instances *)

Definition sample_lzma2 : xz_dec_lzma2 :=
  mk_dec_lzma2 (mk_core (mk_rc 0 0 0 [] 0 0) (mk_dict [] 0 0 0 0 0 0 (2 ^ 26) 0 XZ_DYNALLOC) (mk_lzma 0 0 0 0 0 0 0 0 0 []))
    (mk_lzma2 SEQ_CONTROL SEQ_CONTROL 0 0 true true) 0 (replicate 63 0).

Lemma xz_dec_lzma2_reset_witness :
  let '(ret, s', _) := xz_dec_lzma2_reset sample_lzma2 0 [] in
  (ret = XZ_OK /\ 0 <= 39 /\ dict_size_of 0 <= 2 ^ 26 /\ (forall r, l2_inv s' r) /\ d_size (dict (lz s')) = dict_size_of 0) \/
  (ret = XZ_OPTIONS_ERROR /\ 39 < 0 /\ s' = sample_lzma2) \/
  (ret = XZ_MEMLIMIT_ERROR /\ 0 <= 39 /\ 2 ^ 26 < dict_size_of 0 /\ dec_mem s') \/
  (ret = XZ_MEM_ERROR /\ XZ_DYNALLOC = XZ_DYNALLOC /\ ~ mem_ok [] /\ dec_mem s').
Proof. apply (xz_dec_lzma2_reset_spec sample_lzma2 0 []); concrete. Defined.

(** The decoder just reset is in the state the run wants. *)
Lemma xz_dec_lzma2_run_witness :
  exists ret s' b' bs, xz_dec_lzma2_run (xz_dec_lzma2_reset sample_lzma2 0 []).1.2 sample_buf = Some (ret, s', b') /\
    buf_ok b' /\ in_pos sample_buf <= in_pos b' /\ output sample_buf b' bs /\
    (ret = XZ_OK \/ ret = XZ_STREAM_END -> exists r', l2_inv s' r' /\ hist [] bs r') /\
    (ret = XZ_OK -> stalled b').
Proof.
  apply xz_dec_lzma2_run_safe; [|concrete].
  destruct (reset_ok sample_lzma2 0 []) as [(_ & _ & _ & H & _)|[(_ & H & _)|[(_ & _ & H & _)|(_ & _ & H & _)]]];
    [concrete|concrete|apply H|by vm_compute in H|by vm_compute in H|destruct H; apply Forall_nil_2].
Defined.

Lemma dynalloc_witness : d_allocated (dict (lz (xz_dec_lzma2_reset sample_lzma2 0 []).1.2)) = 0.
Proof.
  destruct (xz_dec_lzma2_reset sample_lzma2 0 []) as [[ret s'] o'] eqn:E.
  assert (ret = XZ_OK) as -> by (apply (f_equal (fun r => r.1.1)) in E; by vm_compute in E).
  apply (dynalloc_allocated_stays_zero sample_lzma2 0 [] s' o'); [reflexivity|reflexivity|exact E].
Defined.
