(* ===== verification/XzStream.v ===== *)
(** * XzStream: the .xz stream decoder of xz-embedded

    external/xz-embedded/xz_dec_stream.c as it is built here (no CRC64, no
    BCJ, no XZ_DEC_ANY_CHECK; multi-call modes).  The LZMA2 decoder is used
    through the interface [BlockOps]; what the stream decoder relies on is
    [BlockLaws], in XzStreamPieces. *)
From Stdlib Require Import ZArith Lia Bool.
From stdpp Require Import base list list_numbers.
From S2P Require Import Prelude PolicyFile Mem XzCrc32 XzDict XzLzma XzLzma2.

(** ** The interface to the LZMA2 decoder *)

Class BlockOps (T : Type) := {
  bd_run : T -> xz_buf -> option (xz_ret * T * xz_buf);
  bd_reset : T -> Z -> oracle -> xz_ret * T * oracle;
}.

(** ** Data *)

Inductive xz_seq :=
| SEQ_STREAM_HEADER | SEQ_BLOCK_START | SEQ_BLOCK_HEADER | SEQ_BLOCK_UNCOMPRESS | SEQ_BLOCK_PADDING
| SEQ_BLOCK_CHECK | SEQ_INDEX | SEQ_INDEX_PADDING | SEQ_INDEX_CRC32 | SEQ_STREAM_FOOTER.

Inductive index_seq := SEQ_INDEX_COUNT | SEQ_INDEX_UNPADDED | SEQ_INDEX_UNCOMPRESSED.

Record xz_dec_hash := mk_hash { h_unpadded : Z; h_uncompressed : Z; h_crc32 : Z }.

Record block_header := mk_bh { bh_compressed : Z; bh_uncompressed : Z; bh_size : Z }.
Record block_info := mk_bl { bl_compressed : Z; bl_uncompressed : Z; bl_count : Z; bl_hash : xz_dec_hash }.
Record index_info := mk_ix { ix_sequence : index_seq; ix_size : Z; ix_count : Z; ix_hash : xz_dec_hash }.
Record temp_info := mk_temp { t_pos : Z; t_size : Z; t_buf : list Z }.

(** [struct xz_dec]; [x_mem] tells which of the coming allocations fail. *)
Record xz_dec (T : Type) := mk_xz_dec {
  x_sequence : xz_seq;
  x_pos : Z;
  x_vli : Z;
  x_in_start : Z;
  x_out_start : Z;
  x_crc : Z;
  check_type : Z;
  allow_buf_error : bool;
  x_header : block_header;
  x_block : block_info;
  x_index : index_info;
  x_temp : temp_info;
  x_lzma2 : T;
  x_mem : oracle
}.
Arguments mk_xz_dec {T}.
Arguments x_sequence {T}. Arguments x_pos {T}. Arguments x_vli {T}. Arguments x_in_start {T}.
Arguments x_out_start {T}. Arguments x_crc {T}. Arguments check_type {T}. Arguments allow_buf_error {T}.
Arguments x_header {T}. Arguments x_block {T}. Arguments x_index {T}. Arguments x_temp {T}.
Arguments x_lzma2 {T}. Arguments x_mem {T}.

Definition STREAM_HEADER_SIZE : Z := 12.
Definition HEADER_MAGIC : list Z := [0xFD; 0x37; 0x7A; 0x58; 0x5A; 0x00].
Definition HEADER_MAGIC_SIZE : Z := 6.
Definition FOOTER_MAGIC : list Z := [0x59; 0x5A].
Definition VLI_UNKNOWN : Z := 2 ^ 64 - 1.
Definition VLI_BYTES_MAX : Z := 9.
Definition XZ_CHECK_CRC32 : Z := 1.
Definition TEMP_SIZE : Z := 1024.

(** The bytes of a [struct xz_dec_hash] on a little-endian 64-bit machine,
    with its four bytes of padding. *)
Definition hash_bytes (h : xz_dec_hash) : list Z :=
  le_split 8 (h_unpadded h) ++ le_split 8 (h_uncompressed h) ++ le_split 4 (h_crc32 h) ++ [0; 0; 0; 0].

Definition hash_crc (h : xz_dec_hash) : xz_dec_hash :=
  mk_hash (h_unpadded h) (h_uncompressed h) (xz_crc32 (hash_bytes h) (h_crc32 h)).

(** [get_le32(buf + i)]. *)
Definition get_le32 (buf : list Z) (i : Z) : Z := le_combine (slice buf i 4).

(** ** Variable-length integers *)

(** The loop of [dec_vli]: (ret, [*in_pos], [s->pos], [s->vli]).  A shift by
    the width of [vli_type] or more is undefined. *)
Fixpoint dec_vli_loop (fuel : nat) (buf : list Z) (p size pos vli : Z) : option (xz_ret * Z * Z * Z) :=
  if p <? size then
    match fuel with
    | O => None
    | S fuel =>
        match rd buf p with
        | None => None
        | Some byte =>
            if 64 <=? pos then None else
            let vli := Z.lor vli (u64 (Z.shiftl (Z.land byte 0x7F) pos)) in
            if Z.land byte 0x80 =? 0 then
              if (byte =? 0) && negb (pos =? 0) then Some (XZ_DATA_ERROR, p + 1, pos, vli)
              else Some (XZ_STREAM_END, p + 1, 0, vli)
            else if pos + 7 =? 7 * VLI_BYTES_MAX then Some (XZ_DATA_ERROR, p + 1, pos + 7, vli)
            else dec_vli_loop fuel buf (p + 1) size (pos + 7) vli
        end
    end
  else Some (XZ_OK, p, pos, vli).

Definition dec_vli_pure (buf : list Z) (p size pos vli : Z) : option (xz_ret * Z * Z * Z) :=
  dec_vli_loop (Z.to_nat (size - p)) buf p size pos (if pos =? 0 then 0 else vli).

Section Stream.
Context {T : Type} `{BlockOps T}.

Definition set_xseq (s : xz_dec T) (q : xz_seq) : xz_dec T :=
  mk_xz_dec q (x_pos s) (x_vli s) (x_in_start s) (x_out_start s) (x_crc s) (check_type s) (allow_buf_error s)
    (x_header s) (x_block s) (x_index s) (x_temp s) (x_lzma2 s) (x_mem s).
Definition set_vli (s : xz_dec T) (pos vli : Z) : xz_dec T :=
  mk_xz_dec (x_sequence s) pos vli (x_in_start s) (x_out_start s) (x_crc s) (check_type s) (allow_buf_error s)
    (x_header s) (x_block s) (x_index s) (x_temp s) (x_lzma2 s) (x_mem s).
Definition set_starts (s : xz_dec T) (i o : Z) : xz_dec T :=
  mk_xz_dec (x_sequence s) (x_pos s) (x_vli s) i o (x_crc s) (check_type s) (allow_buf_error s)
    (x_header s) (x_block s) (x_index s) (x_temp s) (x_lzma2 s) (x_mem s).
Definition set_crc (s : xz_dec T) (c : Z) : xz_dec T :=
  mk_xz_dec (x_sequence s) (x_pos s) (x_vli s) (x_in_start s) (x_out_start s) c (check_type s) (allow_buf_error s)
    (x_header s) (x_block s) (x_index s) (x_temp s) (x_lzma2 s) (x_mem s).
Definition set_check (s : xz_dec T) (c : Z) : xz_dec T :=
  mk_xz_dec (x_sequence s) (x_pos s) (x_vli s) (x_in_start s) (x_out_start s) (x_crc s) c (allow_buf_error s)
    (x_header s) (x_block s) (x_index s) (x_temp s) (x_lzma2 s) (x_mem s).
Definition set_allow (s : xz_dec T) (a : bool) : xz_dec T :=
  mk_xz_dec (x_sequence s) (x_pos s) (x_vli s) (x_in_start s) (x_out_start s) (x_crc s) (check_type s) a
    (x_header s) (x_block s) (x_index s) (x_temp s) (x_lzma2 s) (x_mem s).
Definition set_header (s : xz_dec T) (h : block_header) : xz_dec T :=
  mk_xz_dec (x_sequence s) (x_pos s) (x_vli s) (x_in_start s) (x_out_start s) (x_crc s) (check_type s)
    (allow_buf_error s) h (x_block s) (x_index s) (x_temp s) (x_lzma2 s) (x_mem s).
Definition set_block (s : xz_dec T) (b : block_info) : xz_dec T :=
  mk_xz_dec (x_sequence s) (x_pos s) (x_vli s) (x_in_start s) (x_out_start s) (x_crc s) (check_type s)
    (allow_buf_error s) (x_header s) b (x_index s) (x_temp s) (x_lzma2 s) (x_mem s).
Definition set_index (s : xz_dec T) (i : index_info) : xz_dec T :=
  mk_xz_dec (x_sequence s) (x_pos s) (x_vli s) (x_in_start s) (x_out_start s) (x_crc s) (check_type s)
    (allow_buf_error s) (x_header s) (x_block s) i (x_temp s) (x_lzma2 s) (x_mem s).
Definition set_xtemp (s : xz_dec T) (t : temp_info) : xz_dec T :=
  mk_xz_dec (x_sequence s) (x_pos s) (x_vli s) (x_in_start s) (x_out_start s) (x_crc s) (check_type s)
    (allow_buf_error s) (x_header s) (x_block s) (x_index s) t (x_lzma2 s) (x_mem s).
Definition set_block_dec (s : xz_dec T) (l : T) (o : oracle) : xz_dec T :=
  mk_xz_dec (x_sequence s) (x_pos s) (x_vli s) (x_in_start s) (x_out_start s) (x_crc s) (check_type s)
    (allow_buf_error s) (x_header s) (x_block s) (x_index s) (x_temp s) l o.

(** ** Pieces *)

Definition fill_temp (s : xz_dec T) (b : xz_buf) : option (bool * xz_dec T * xz_buf) :=
  let t := x_temp s in
  let copy_size := Z.min (in_size b - in_pos b) (t_size t - t_pos t) in
  match memcpy (t_buf t) (t_pos t) (b_in b) (in_pos b) copy_size with
  | None => None
  | Some buf =>
      let pos := t_pos t + copy_size in
      let b := set_in_pos b (in_pos b + copy_size) in
      if pos =? t_size t then Some (true, set_xtemp s (mk_temp 0 (t_size t) buf), b)
      else Some (false, set_xtemp s (mk_temp pos (t_size t) buf), b)
  end.

(** [dec_vli(s, buf, &p, size)]: (ret, decoder, [p]). *)
Definition dec_vli (s : xz_dec T) (buf : list Z) (p size : Z) : option (xz_ret * xz_dec T * Z) :=
  match dec_vli_pure buf p size (x_pos s) (x_vli s) with
  | None => None
  | Some (ret, p, pos, vli) => Some (ret, set_vli s pos vli, p)
  end.

Definition dec_block (s : xz_dec T) (b : xz_buf) : option (xz_ret * xz_dec T * xz_buf) :=
  let s := set_starts s (in_pos b) (out_pos b) in
  match bd_run (x_lzma2 s) b with
  | None => None
  | Some (ret, l, b) =>
      let s := set_block_dec s l (x_mem s) in
      let k := x_block s in
      let k := mk_bl (u64 (bl_compressed k + (in_pos b - x_in_start s)))
                 (u64 (bl_uncompressed k + (out_pos b - x_out_start s))) (bl_count k) (bl_hash k) in
      let s := set_block s k in
      let h := x_header s in
      if (bh_compressed h <? bl_compressed k) || (bh_uncompressed h <? bl_uncompressed k)
      then Some (XZ_DATA_ERROR, s, b) else
      match (if check_type s =? XZ_CHECK_CRC32 then
               match sub_buf (b_out b) (x_out_start s) (out_pos b - x_out_start s) with
               | None => None
               | Some new => Some (set_crc s (xz_crc32 new (x_crc s)))
               end
             else Some s) with
      | None => None
      | Some s =>
      if bool_decide (ret = XZ_STREAM_END) then
        if negb (bh_compressed h =? VLI_UNKNOWN) && negb (bh_compressed h =? bl_compressed k)
        then Some (XZ_DATA_ERROR, s, b) else
        if negb (bh_uncompressed h =? VLI_UNKNOWN) && negb (bh_uncompressed h =? bl_uncompressed k)
        then Some (XZ_DATA_ERROR, s, b) else
        let unpadded := u64 (h_unpadded (bl_hash k) + u64 (bh_size h + bl_compressed k)) in
        let unpadded := if check_type s =? XZ_CHECK_CRC32 then u64 (unpadded + 4) else unpadded in
        let hash := hash_crc (mk_hash unpadded (u64 (h_uncompressed (bl_hash k) + bl_uncompressed k)) (h_crc32 (bl_hash k))) in
        Some (ret, set_block s (mk_bl (bl_compressed k) (bl_uncompressed k) (u64 (bl_count k + 1)) hash), b)
      else Some (ret, s, b)
      end
  end.

Definition index_update (s : xz_dec T) (b : xz_buf) : option (xz_dec T) :=
  let in_used := in_pos b - x_in_start s in
  let i := x_index s in
  match sub_buf (b_in b) (x_in_start s) in_used with
  | None => None
  | Some used =>
      Some (set_crc (set_index s (mk_ix (ix_sequence i) (u64 (ix_size i + in_used)) (ix_count i) (ix_hash i)))
              (xz_crc32 used (x_crc s)))
  end.

(** The [do ... while (s->index.count > 0)] loop. *)
Fixpoint dec_index_loop (fuel : nat) (s : xz_dec T) (b : xz_buf) : option (xz_ret * xz_dec T * xz_buf) :=
  match fuel with
  | O => None
  | S fuel =>
      match dec_vli s (b_in b) (in_pos b) (in_size b) with
      | None => None
      | Some (ret, s, p) =>
          let b := set_in_pos b p in
          if negb (bool_decide (ret = XZ_STREAM_END)) then
            match index_update s b with Some s => Some (ret, s, b) | None => None end
          else
          let i := x_index s in
          match ix_sequence i with
          | SEQ_INDEX_COUNT =>
              let s := set_index s (mk_ix SEQ_INDEX_COUNT (ix_size i) (x_vli s) (ix_hash i)) in
              if negb (x_vli s =? bl_count (x_block s)) then Some (XZ_DATA_ERROR, s, b) else
              let s := set_index s (mk_ix SEQ_INDEX_UNPADDED (ix_size i) (x_vli s) (ix_hash i)) in
              if 0 <? x_vli s then dec_index_loop fuel s b else Some (XZ_STREAM_END, s, b)
          | SEQ_INDEX_UNPADDED =>
              let h := ix_hash i in
              let h := mk_hash (u64 (h_unpadded h + x_vli s)) (h_uncompressed h) (h_crc32 h) in
              let s := set_index s (mk_ix SEQ_INDEX_UNCOMPRESSED (ix_size i) (ix_count i) h) in
              if 0 <? ix_count i then dec_index_loop fuel s b else Some (XZ_STREAM_END, s, b)
          | SEQ_INDEX_UNCOMPRESSED =>
              let h := ix_hash i in
              let h := hash_crc (mk_hash (h_unpadded h) (u64 (h_uncompressed h + x_vli s)) (h_crc32 h)) in
              let count := u64 (ix_count i - 1) in
              let s := set_index s (mk_ix SEQ_INDEX_UNPADDED (ix_size i) count h) in
              if 0 <? count then dec_index_loop fuel s b else Some (XZ_STREAM_END, s, b)
          end
      end
  end.

Definition dec_index (s : xz_dec T) (b : xz_buf) : option (xz_ret * xz_dec T * xz_buf) :=
  dec_index_loop (S (Z.to_nat (in_size b - in_pos b))) s b.

(** [crc_validate(s, b, 32)]: the shift is by less than 32. *)
Fixpoint crc_validate_loop (fuel : nat) (s : xz_dec T) (b : xz_buf) : option (xz_ret * xz_dec T * xz_buf) :=
  match fuel with
  | O => None
  | S fuel =>
      if in_pos b =? in_size b then Some (XZ_OK, s, b) else
      if 32 <=? x_pos s then None else
      match rd (b_in b) (in_pos b) with
      | None => None
      | Some byte =>
          let b := set_in_pos b (in_pos b + 1) in
          if negb (Z.land (Z.shiftr (x_crc s) (x_pos s)) 0xFF =? byte) then Some (XZ_DATA_ERROR, s, b) else
          let s := set_vli s (x_pos s + 8) (x_vli s) in
          if x_pos s <? 32 then crc_validate_loop fuel s b
          else Some (XZ_STREAM_END, set_crc (set_vli s 0 (x_vli s)) 0, b)
      end
  end.

Definition crc_validate (s : xz_dec T) (b : xz_buf) : option (xz_ret * xz_dec T * xz_buf) :=
  crc_validate_loop 5 s b.

(** [temp.buf[i]] for one of the first twelve of its 1024 bytes. *)
Definition tb (s : xz_dec T) (i : Z) : Z := default 0 (rd (t_buf (x_temp s)) i).

Definition dec_stream_header (s : xz_dec T) : xz_ret * xz_dec T :=
  let buf := t_buf (x_temp s) in
  if negb (bool_decide (slice buf 0 HEADER_MAGIC_SIZE = HEADER_MAGIC)) then (XZ_FORMAT_ERROR, s) else
  if negb (xz_crc32 (slice buf HEADER_MAGIC_SIZE 2) 0 =? get_le32 buf (HEADER_MAGIC_SIZE + 2)) then (XZ_DATA_ERROR, s) else
  if negb (tb s HEADER_MAGIC_SIZE =? 0) then (XZ_OPTIONS_ERROR, s) else
  let s := set_check s (tb s (HEADER_MAGIC_SIZE + 1)) in
  if XZ_CHECK_CRC32 <? check_type s then (XZ_OPTIONS_ERROR, s) else (XZ_OK, s).

Definition dec_stream_footer (s : xz_dec T) : xz_ret :=
  let buf := t_buf (x_temp s) in
  if negb (bool_decide (slice buf 10 2 = FOOTER_MAGIC)) then XZ_DATA_ERROR else
  if negb (xz_crc32 (slice buf 4 6) 0 =? get_le32 buf 0) then XZ_DATA_ERROR else
  if negb (Z.shiftr (ix_size (x_index s)) 2 =? get_le32 buf 4) then XZ_DATA_ERROR else
  if negb (tb s 8 =? 0) || negb (tb s 9 =? check_type s) then XZ_DATA_ERROR else XZ_STREAM_END.

(** The size field of a Block Header whose flag is [flag]: [None] when it is
    corrupt. *)
Definition header_vli (s : xz_dec T) (flag : Z) : option (option Z * xz_dec T) :=
  let t := x_temp s in
  if ctrue (Z.land (tb s 1) flag) then
    match dec_vli s (t_buf t) (t_pos t) (t_size t) with
    | None => None
    | Some (ret, s, p) =>
        let s := set_xtemp s (mk_temp p (t_size t) (t_buf t)) in
        Some (if bool_decide (ret = XZ_STREAM_END) then Some (x_vli s) else None, s)
    end
  else Some (Some VLI_UNKNOWN, s).

(** The loop over the Header Padding: whether it was all zero, and
    [temp.pos] after it. *)
Fixpoint header_padding (fuel : nat) (buf : list Z) (p size : Z) : option (bool * Z) :=
  if p <? size then
    match fuel with
    | O => None
    | S fuel =>
        match rd buf p with
        | None => None
        | Some byte => if negb (byte =? 0) then Some (false, p + 1) else header_padding fuel buf (p + 1) size
        end
    end
  else Some (true, p).

(** The filter flags and the padding, from [temp.pos] on. *)
Definition header_filters (s : xz_dec T) : option (xz_ret * xz_dec T) :=
  let t := x_temp s in
  let p := t_pos t in
  let at_pos (s : xz_dec T) (q : Z) := set_xtemp s (mk_temp q (t_size t) (t_buf t)) in
  if t_size t - p <? 2 then Some (XZ_DATA_ERROR, s) else
  match rd (t_buf t) p, rd (t_buf t) (p + 1) with
  | Some filter, Some props_size =>
      if negb (filter =? 0x21) then Some (XZ_OPTIONS_ERROR, at_pos s (p + 1)) else
      if negb (props_size =? 0x01) then Some (XZ_OPTIONS_ERROR, at_pos s (p + 2)) else
      if t_size t - (p + 2) <? 1 then Some (XZ_DATA_ERROR, at_pos s (p + 2)) else
      match rd (t_buf t) (p + 2) with
      | None => None
      | Some props =>
          let '(ret, l, o) := bd_reset (x_lzma2 s) props (x_mem s) in
          let s := at_pos (set_block_dec s l o) (p + 3) in
          if negb (bool_decide (ret = XZ_OK)) then Some (ret, s) else
          match header_padding (Z.to_nat (t_size t - (p + 3))) (t_buf t) (p + 3) (t_size t) with
          | None => None
          | Some (false, q) => Some (XZ_OPTIONS_ERROR, at_pos s q)
          | Some (true, _) =>
              let k := x_block s in
              Some (XZ_OK, set_block (at_pos s 0) (mk_bl 0 0 (bl_count k) (bl_hash k)))
          end
      end
  | _, _ => None
  end.

Definition dec_block_header (s : xz_dec T) : option (xz_ret * xz_dec T) :=
  let t := x_temp s in
  let size := t_size t - 4 in
  let s := set_xtemp s (mk_temp (t_pos t) size (t_buf t)) in
  match sub_buf (t_buf t) 0 size, sub_buf (t_buf t) size 4 with
  | Some header, Some stored =>
      if negb (xz_crc32 header 0 =? le_combine stored) then Some (XZ_DATA_ERROR, s) else
      let s := set_xtemp s (mk_temp 2 size (t_buf t)) in
      if ctrue (Z.land (tb s 1) 0x3F) then Some (XZ_OPTIONS_ERROR, s) else
      match header_vli s 0x40 with
      | None => None
      | Some (None, s) => Some (XZ_DATA_ERROR, s)
      | Some (Some c, s) =>
          let s := set_header s (mk_bh c (bh_uncompressed (x_header s)) (bh_size (x_header s))) in
          match header_vli s 0x80 with
          | None => None
          | Some (None, s) => Some (XZ_DATA_ERROR, s)
          | Some (Some u, s) => header_filters (set_header s (mk_bh c u (bh_size (x_header s))))
          end
      end
  | _, _ => None
  end.

(** Skip zero bytes while [n & 3]: (ret, [n], buffers), ret [None] when done. *)
Fixpoint skip_padding (fuel : nat) (n : Z) (b : xz_buf) : option (option xz_ret * Z * xz_buf) :=
  if ctrue (Z.land n 3) then
    match fuel with
    | O => None
    | S fuel =>
        if in_pos b =? in_size b then Some (Some XZ_OK, n, b) else
        match rd (b_in b) (in_pos b) with
        | None => None
        | Some byte =>
            let b := set_in_pos b (in_pos b + 1) in
            if negb (byte =? 0) then Some (Some XZ_DATA_ERROR, n, b) else skip_padding fuel (u64 (n + 1)) b
        end
    end
  else Some (None, n, b).

(** ** The state machine *)

(** One case of the [switch] in [dec_main], up to the next assignment of
    [s->sequence] (falling through to the following case and [break] both go
    on with that case): [Some ret] when [dec_main] returned. *)
Definition dec_step (s : xz_dec T) (b : xz_buf) : option (option xz_ret * xz_dec T * xz_buf) :=
  match x_sequence s with
  | SEQ_STREAM_HEADER =>
      match fill_temp s b with
      | None => None
      | Some (false, s, b) => Some (Some XZ_OK, s, b)
      | Some (true, s, b) =>
          let '(ret, s) := dec_stream_header (set_xseq s SEQ_BLOCK_START) in
          Some (if bool_decide (ret = XZ_OK) then None else Some ret, s, b)
      end
  | SEQ_BLOCK_START =>
      if in_pos b =? in_size b then Some (Some XZ_OK, s, b) else
      match rd (b_in b) (in_pos b) with
      | None => None
      | Some byte =>
          if byte =? 0 then
            Some (None, set_xseq (set_starts s (in_pos b) (x_out_start s)) SEQ_INDEX,
                  set_in_pos b (in_pos b + 1))
          else
            let size := u32 (u32 (byte + 1) * 4) in
            let h := x_header s in
            let s := set_header s (mk_bh (bh_compressed h) (bh_uncompressed h) size) in
            Some (None, set_xseq (set_xtemp s (mk_temp 0 size (t_buf (x_temp s)))) SEQ_BLOCK_HEADER, b)
      end
  | SEQ_BLOCK_HEADER =>
      match fill_temp s b with
      | None => None
      | Some (false, s, b) => Some (Some XZ_OK, s, b)
      | Some (true, s, b) =>
          match dec_block_header s with
          | None => None
          | Some (ret, s) =>
              if bool_decide (ret = XZ_OK) then Some (None, set_xseq s SEQ_BLOCK_UNCOMPRESS, b)
              else Some (Some ret, s, b)
          end
      end
  | SEQ_BLOCK_UNCOMPRESS =>
      match dec_block s b with
      | None => None
      | Some (ret, s, b) =>
          if bool_decide (ret = XZ_STREAM_END) then Some (None, set_xseq s SEQ_BLOCK_PADDING, b)
          else Some (Some ret, s, b)
      end
  | SEQ_BLOCK_PADDING =>
      let k := x_block s in
      match skip_padding 4 (bl_compressed k) b with
      | None => None
      | Some (ret, n, b) =>
          let s := set_block s (mk_bl n (bl_uncompressed k) (bl_count k) (bl_hash k)) in
          match ret with
          | Some ret => Some (Some ret, s, b)
          | None => Some (None, set_xseq s SEQ_BLOCK_CHECK, b)
          end
      end
  | SEQ_BLOCK_CHECK =>
      if check_type s =? XZ_CHECK_CRC32 then
        match crc_validate s b with
        | None => None
        | Some (ret, s, b) =>
            if bool_decide (ret = XZ_STREAM_END) then Some (None, set_xseq s SEQ_BLOCK_START, b)
            else Some (Some ret, s, b)
        end
      else Some (None, set_xseq s SEQ_BLOCK_START, b)
  | SEQ_INDEX =>
      match dec_index s b with
      | None => None
      | Some (ret, s, b) =>
          if bool_decide (ret = XZ_STREAM_END) then Some (None, set_xseq s SEQ_INDEX_PADDING, b)
          else Some (Some ret, s, b)
      end
  | SEQ_INDEX_PADDING =>
      match skip_padding 4 (u64 (ix_size (x_index s) + (in_pos b - x_in_start s))) b with
      | None => None
      | Some (Some XZ_OK, _, b) =>
          match index_update s b with Some s => Some (Some XZ_OK, s, b) | None => None end
      | Some (Some ret, _, b) => Some (Some ret, s, b)
      | Some (None, _, b) =>
          match index_update s b with
          | None => None
          | Some s =>
              if negb (bool_decide (hash_bytes (bl_hash (x_block s)) = hash_bytes (ix_hash (x_index s))))
              then Some (Some XZ_DATA_ERROR, s, b)
              else Some (None, set_xseq s SEQ_INDEX_CRC32, b)
          end
      end
  | SEQ_INDEX_CRC32 =>
      match crc_validate s b with
      | None => None
      | Some (ret, s, b) =>
          if bool_decide (ret = XZ_STREAM_END) then
            Some (None, set_xseq (set_xtemp s (mk_temp (t_pos (x_temp s)) STREAM_HEADER_SIZE (t_buf (x_temp s))))
                          SEQ_STREAM_FOOTER, b)
          else Some (Some ret, s, b)
      end
  | SEQ_STREAM_FOOTER =>
      match fill_temp s b with
      | None => None
      | Some (false, s, b) => Some (Some XZ_OK, s, b)
      | Some (true, s, b) => Some (Some (dec_stream_footer s), s, b)
      end
  end.

Fixpoint dec_loop (fuel : nat) (s : xz_dec T) (b : xz_buf) : option (xz_ret * xz_dec T * xz_buf) :=
  match fuel with
  | O => None
  | S fuel =>
      match dec_step s b with
      | None => None
      | Some (Some ret, s, b) => Some (ret, s, b)
      | Some (None, s, b) => dec_loop fuel s b
      end
  end.

(** At most eight steps take no input between two that do. *)
Definition dec_fuel (b : xz_buf) : nat := Z.to_nat (16 * (in_size b - in_pos b) + 16).

Definition dec_main (s : xz_dec T) (b : xz_buf) : option (xz_ret * xz_dec T * xz_buf) :=
  dec_loop (dec_fuel b) (set_starts s (in_pos b) (x_out_start s)) b.

(** [xz_dec_run] in a multi-call mode. *)
Definition xz_dec_run (s : xz_dec T) (b : xz_buf) : option (xz_ret * xz_dec T * xz_buf) :=
  let in_start := in_pos b in
  let out_start := out_pos b in
  match dec_main s b with
  | None => None
  | Some (ret, s, b) =>
      if bool_decide (ret = XZ_OK) && (in_start =? in_pos b) && (out_start =? out_pos b) then
        Some (if allow_buf_error s then XZ_BUF_ERROR else ret, set_allow s true, b)
      else Some (ret, set_allow s false, b)
  end.

Definition zero_hash : xz_dec_hash := mk_hash 0 0 0.

Definition xz_dec_reset (s : xz_dec T) : xz_dec T :=
  mk_xz_dec SEQ_STREAM_HEADER 0 (x_vli s) (x_in_start s) (x_out_start s) 0 (check_type s) false (x_header s)
    (mk_bl 0 0 0 zero_hash) (mk_ix SEQ_INDEX_COUNT 0 0 zero_hash)
    (mk_temp 0 STREAM_HEADER_SIZE (t_buf (x_temp s))) (x_lzma2 s) (x_mem s).
End Stream.

#[global] Instance lzma2_block_ops : BlockOps xz_dec_lzma2 := {
  bd_run := xz_dec_lzma2_run;
  bd_reset := xz_dec_lzma2_reset;
}.

(** [xz_dec_init]: [s] is what the fresh memory of the two structs holds. *)
Definition xz_dec_init (s : xz_dec xz_dec_lzma2) (mode : xz_mode) (dict_max : Z) : option (xz_dec xz_dec_lzma2) :=
  let '(ok, o) := malloc (x_mem s) in
  if negb ok then None else
  match xz_dec_lzma2_create (x_lzma2 s) mode dict_max o with
  | (None, _) => None
  | (Some l, o) => Some (xz_dec_reset (set_block_dec s l o))
  end.
