(* ===== verification/XzVli.v ===== *)
(** * XzVli: the variable-length integers of the .xz format

    The encoding of a number below 2^63 in base 128, least significant digit
    first, is the reference for [dec_vli] of xz_dec_stream.c, which decodes it
    from input that may arrive in pieces. *)
From Stdlib Require Import ZArith Lia Bool.
From stdpp Require Import base list list_numbers.
From S2P Require Import Prelude PolicyFile Mem XzDict XzLzma2 XzStream.

(** ** The encoding *)

Fixpoint vli_enc (fuel : nat) (v : Z) : list Z :=
  match fuel with
  | O => []
  | S fuel => if v <? 128 then [v] else (128 + v mod 128) :: vli_enc fuel (v / 128)
  end.

Definition vli_bytes (v : Z) : list Z := vli_enc 9 v.

(** The number the digits of a byte string stand for. *)
Fixpoint vli_val (bs : list Z) : Z :=
  match bs with
  | [] => 0
  | b :: bs => b mod 128 + 128 * vli_val bs
  end.

(** Bytes that announce another one. *)
Abbreviation more_bytes := (Forall (fun b => 128 <= b < 256)).

Lemma vli_val_app bs1 bs2 : vli_val (bs1 ++ bs2) = vli_val bs1 + 2 ^ (7 * zlength bs1) * vli_val bs2.
Proof.
  induction bs1 as [|b bs1 IH]; simpl; [change (2 ^ (7 * zlength [])) with 1; lia|].
  rewrite IH, zlength_cons. replace (7 * (zlength bs1 + 1)) with (7 + 7 * zlength bs1) by lia.
  pose proof (zlength_nonneg bs1). rewrite Z.pow_add_r by lia. change (2 ^ 7) with 128. lia.
Qed.

Lemma vli_val_range bs : 0 <= vli_val bs < 2 ^ (7 * zlength bs).
Proof.
  induction bs as [|b bs IH]; simpl; [done|]. rewrite zlength_cons.
  replace (7 * (zlength bs + 1)) with (7 + 7 * zlength bs) by lia. pose proof (zlength_nonneg bs).
  rewrite Z.pow_add_r by lia. change (2 ^ 7) with 128. pose proof (Z.mod_pos_bound b 128 ltac:(lia)). lia.
Qed.

Lemma vli_enc_val fuel bs b :
  more_bytes bs -> 0 <= b < 128 -> (b = 0 -> bs = []) -> (length bs < fuel)%nat ->
  vli_enc fuel (vli_val (bs ++ [b])) = bs ++ [b].
Proof.
  intros Hbs Hb Hmin. revert fuel. induction Hbs as [|c bs Hc Hbs IH]; intros [|fuel] Hf; simpl in Hf; try lia.
  - cbn -[Z.mul Z.add]. rewrite Z.mod_small by lia. rewrite Z.mul_0_r, Z.add_0_r. by replace (b <? 128) with true by lia.
  - assert (b <> 0) by (intros ->; by specialize (Hmin eq_refl)).
    assert (0 < vli_val (bs ++ [b])).
    { rewrite vli_val_app. simpl. rewrite Z.mod_small by lia. pose proof (vli_val_range bs).
      pose proof (zlength_nonneg bs). assert (0 < 2 ^ (7 * zlength bs)) by (apply Z.pow_pos_nonneg; lia). nia. }
    simpl. pose proof (Z.mod_pos_bound c 128 ltac:(lia)).
    replace (c mod 128 + 128 * vli_val (bs ++ [b]) <? 128) with false by lia.
    rewrite (Z.mul_comm 128), Z.mod_add, Z.div_add by lia. rewrite Z.mod_mod, (Z.div_small (c mod 128)) by lia.
    rewrite Z.add_0_l, IH by (done || lia). f_equal.
    replace c with ((c - 128) + 1 * 128) at 1 by lia. rewrite Z.mod_add, Z.mod_small by lia. lia.
Qed.

(** What an encoding looks like. *)
Definition encoding (v : Z) (l bs : list Z) (b : Z) : Prop :=
  l = bs ++ [b] /\ more_bytes bs /\ 0 <= b < 128 /\ (b = 0 -> bs = []) /\ vli_val l = v.

Lemma vli_enc_shape fuel v :
  0 <= v < 128 ^ Z.of_nat (S fuel) ->
  exists bs b, encoding v (vli_enc (S fuel) v) bs b /\ (length bs <= fuel)%nat.
Proof.
  revert v. induction fuel as [|fuel IH]; intros v Hv.
  - exists [], v. simpl in *. replace (v <? 128) with true by lia. unfold encoding; simpl.
    rewrite Z.mod_small by lia. split_and!; (done || lia).
  - rewrite Nat2Z.inj_succ, Z.pow_succ_r in Hv by lia. remember (S fuel) as n. simpl.
    destruct (Z.ltb_spec v 128).
    { exists [], v. unfold encoding; simpl. rewrite Z.mod_small by lia. split_and!; (done || lia). }
    pose proof (Z.div_mod v 128 ltac:(lia)). pose proof (Z.mod_pos_bound v 128 ltac:(lia)).
    destruct (IH (v / 128)) as (bs & b & (Hl & Hbs & Hb & Hmin & Hval) & Hlen).
    { split; [apply Z.div_pos; lia|apply Z.div_lt_upper_bound; lia]. }
    exists ((128 + v mod 128) :: bs), b. split; [|simpl; lia]. unfold encoding. split_and!; try lia.
    + by rewrite Hl.
    + constructor; [lia|done].
    + intros ->. rewrite (Hmin eq_refl) in Hl. rewrite Hl in Hval. simpl in Hval. rewrite Z.mod_0_l in Hval by lia. lia.
    + simpl. rewrite Hval. replace (128 + v mod 128) with (v mod 128 + 1 * 128) by lia.
      rewrite Z.mod_add, Z.mod_mod by lia. lia.
Qed.

Lemma vli_bytes_shape v :
  0 <= v < 2 ^ 63 -> exists bs b, encoding v (vli_bytes v) bs b /\ zlength bs < VLI_BYTES_MAX.
Proof.
  intros Hv. destruct (vli_enc_shape 8 v) as (bs & b & He & Hl); [done|]. exists bs, b. split; [done|].
  unfold zlength, VLI_BYTES_MAX. lia.
Qed.

Lemma vli_bytes_val bs b :
  more_bytes bs -> 0 <= b < 128 -> (b = 0 -> bs = []) -> zlength bs < VLI_BYTES_MAX ->
  vli_bytes (vli_val (bs ++ [b])) = bs ++ [b] /\ 0 <= vli_val (bs ++ [b]) < 2 ^ 63.
Proof.
  unfold VLI_BYTES_MAX. intros Hbs Hb Hmin Hl. split; [apply vli_enc_val; try done; unfold zlength in *; lia|].
  pose proof (vli_val_range (bs ++ [b])) as Hr. rewrite zlength_app in Hr. change (zlength [b]) with 1 in Hr.
  assert (2 ^ (7 * (zlength bs + 1)) <= 2 ^ 63) by (apply Z.pow_le_mono_r; lia). lia.
Qed.

(** ** The decoder *)

(** The bytes of a number read so far, when there are more to come. *)
Definition partial (bs : list Z) : Prop := more_bytes bs /\ zlength bs < VLI_BYTES_MAX.

(** What [dec_vli] returns: [bs] was read in earlier calls, [new] in this
    one. *)
Definition vli_result (bs new : list Z) (whole : bool) (r : xz_ret) (pos vli : Z) : Prop :=
  match r with
  | XZ_STREAM_END => pos = 0 /\ 0 <= vli < 2 ^ 63 /\ bs ++ new = vli_bytes vli
  | XZ_OK => whole = true /\ pos = 7 * zlength (bs ++ new) /\ vli = vli_val (bs ++ new) /\ partial (bs ++ new)
  | XZ_DATA_ERROR =>
      (forall v, 0 <= v < 2 ^ 63 -> ~ (bs ++ new) `prefix_of` vli_bytes v) /\
      (exists init b, bs ++ new = init ++ [b] /\ more_bytes init)
  | _ => False
  end.

Lemma vli_or bs byte :
  partial bs -> in_range 8 byte ->
  Z.lor (vli_val bs) (u64 (Z.shiftl (Z.land byte 0x7F) (7 * zlength bs))) = vli_val (bs ++ [byte]).
Proof.
  intros [_ Hl] Hb. unfold VLI_BYTES_MAX in Hl. pose proof (zlength_nonneg bs) as Hp. pose proof (vli_val_range bs) as Hv.
  rewrite vli_val_app. simpl. change 0x7F with (2 ^ 7 - 1). rewrite land_ones_eq_mod by lia. change (2 ^ 7) with 128.
  pose proof (Z.mod_pos_bound byte 128 ltac:(lia)) as Hm.
  assert (2 ^ (7 * zlength bs) <= 2 ^ 56) by (apply Z.pow_le_mono_r; lia).
  rewrite Z.shiftl_mul_pow2 by lia. rewrite wrap_small by (unfold in_range; nia).
  rewrite Z.mul_0_r, Z.add_0_r, (Z.mul_comm (2 ^ _)). rewrite <- Z.shiftl_mul_pow2 by lia.
  rewrite Z.add_nocarry_lxor, Z.lxor_lor; try done.
  all: apply Z.bits_inj'; intros i Hi; rewrite Z.land_spec, Z.bits_0, Z.shiftl_spec by done;
    destruct (Z.ltb_spec i (7 * zlength bs)); [rewrite (Z.testbit_neg_r _ (i - _)) by lia; apply andb_false_r|
      rewrite (testbit_high (7 * zlength bs)) by (done || lia); done].
Qed.

Lemma not_prefix_long bs v : more_bytes bs -> zlength bs = VLI_BYTES_MAX -> 0 <= v < 2 ^ 63 -> ~ bs `prefix_of` vli_bytes v.
Proof.
  intros Hbs Hl Hv [rest Hp]. destruct (vli_bytes_shape v Hv) as (bs' & b & (He & Hbs' & Hb & _) & Hl').
  unfold VLI_BYTES_MAX in *. rewrite He in Hp. assert (Hlen : length (bs' ++ [b]) = length (bs ++ rest)) by congruence.
  rewrite !length_app in Hlen. unfold zlength in *. simpl in Hlen.
  assert (rest = []) as -> by (destruct rest; [done|simpl in Hlen; lia]). rewrite app_nil_r in Hp. subst bs.
  apply Forall_app in Hbs as [_ Hbs]. apply Forall_singleton in Hbs as [? _]. lia.
Qed.

Lemma not_prefix_zero bs v : bs <> [] -> 0 <= v < 2 ^ 63 -> ~ (bs ++ [0]) `prefix_of` vli_bytes v.
Proof.
  intros Hne Hv [rest Hp]. destruct (vli_bytes_shape v Hv) as (bs' & b & (He & Hbs' & Hb & Hmin & _) & _).
  rewrite He, <- app_assoc in Hp. destruct rest as [|x rest _] using rev_ind.
  - apply app_inj_tail in Hp as [-> ->]. by apply Hne, Hmin.
  - rewrite !app_assoc in Hp. apply app_inj_tail in Hp as [Hp _]. subst bs'. rewrite <- app_assoc in Hbs'.
    apply Forall_app in Hbs' as [_ Hz]. apply Forall_cons in Hz as [[? _] _]. lia.
Qed.

Lemma byte_more byte : in_range 8 byte -> (Z.land byte 0x80 =? 0) = (byte <? 128).
Proof.
  intros Hb. pose proof (forall_bits_spec 8 (fun x => Bool.eqb (Z.land x 0x80 =? 0) (x <? 128)) byte) as H.
  apply eqb_prop, H; [by vm_compute|]. apply Hb.
Qed.

Lemma dec_vli_loop_ok fuel buf p size bs :
  bytes_ok buf -> partial bs -> 0 <= p <= size -> size <= zlength buf -> (Z.to_nat (size - p) <= fuel)%nat ->
  exists r p' pos vli, dec_vli_loop fuel buf p size (7 * zlength bs) (vli_val bs) = Some (r, p', pos, vli) /\
    p <= p' <= size /\ (p < size -> p < p') /\ vli_result bs (slice buf p (p' - p)) (p' =? size) r pos vli.
Proof.
  intros Hbuf. revert p bs. induction fuel as [|fuel IH]; intros p bs Hpart Hp Hsz Hf.
  - assert (p = size) as -> by lia. exists XZ_OK, size, (7 * zlength bs), (vli_val bs). simpl.
    rewrite Z.ltb_irrefl, Z.eqb_refl, Z.sub_diag, slice_0, app_nil_r. split_and!; (done || lia).
  - simpl. destruct (Z.ltb_spec p size) as [Hlt|].
    2: { assert (p = size) as -> by lia. exists XZ_OK, size, (7 * zlength bs), (vli_val bs).
         unfold vli_result. rewrite Z.eqb_refl, Z.sub_diag, slice_0, app_nil_r. split_and!; (done || lia). }
    destruct (rd_ok buf p) as [byte Hr]; [lia|]. rewrite Hr.
    pose proof (rd_forall _ _ _ _ Hbuf Hr) as Hbyte. pose proof Hpart as [Hmore Hl]. unfold VLI_BYTES_MAX in Hl.
    replace (64 <=? 7 * zlength bs) with false by lia. rewrite vli_or, byte_more by done.
    assert (Hone : slice buf p (p + 1 - p) = [byte]).
    { replace (p + 1 - p) with (0 + 1) by lia. erewrite slice_cons by (done || lia). by rewrite slice_0. }
    destruct (Z.ltb_spec byte 128) as [Hend|Hcont].
    + destruct ((byte =? 0) && negb (7 * zlength bs =? 0)) eqn:Hz.
      * do 4 eexists. split; [done|]. split; [lia|]. split; [lia|]. simpl. rewrite Hone. split; [|by exists bs, byte]. intros v Hv.
        assert (byte = 0) as -> by lia. apply not_prefix_zero; [|done]. intros ->. by vm_compute in Hz.
      * do 4 eexists. split; [done|]. split; [lia|]. split; [lia|]. simpl. rewrite Hone. unfold in_range in Hbyte.
        destruct (vli_bytes_val bs byte) as [-> Hv]; [done|lia| |done|done]. intros ->.
        destruct bs; [done|]. rewrite zlength_cons in Hz. pose proof (zlength_nonneg bs). lia.
    + assert (Hmore' : more_bytes (bs ++ [byte])).
      { apply Forall_app. split; [done|]. apply Forall_singleton. unfold in_range in Hbyte. change (2 ^ 8) with 256 in *. lia. }
      unfold VLI_BYTES_MAX. destruct (Z.eqb_spec (7 * zlength bs + 7) (7 * 9)).
      * do 4 eexists. split; [done|]. split; [lia|]. split; [lia|]. simpl. rewrite Hone. split; [|by exists bs, byte]. intros v Hv.
        apply not_prefix_long; [done| |done]. rewrite zlength_app. change (zlength [byte]) with 1. unfold VLI_BYTES_MAX. lia.
      * replace (7 * zlength bs + 7) with (7 * zlength (bs ++ [byte])) by (rewrite zlength_app; change (zlength [byte]) with 1; lia).
        destruct (IH (p + 1) (bs ++ [byte])) as (r & p' & pos & vli & -> & Hp' & Hprog & Hres); try lia.
        { split; [done|]. rewrite zlength_app. change (zlength [byte]) with 1. unfold VLI_BYTES_MAX. lia. }
        do 4 eexists. split; [done|]. split; [lia|]. split; [lia|].
        assert (Hs : slice buf p (p' - p) = [byte] ++ slice buf (p + 1) (p' - (p + 1))).
        { replace (p' - p) with (p' - (p + 1) + 1) by lia. by erewrite slice_cons by (done || lia). }
        unfold vli_result in *. rewrite Hs, app_assoc. done.
Qed.

Lemma dec_vli_ok buf p size bs vli :
  bytes_ok buf -> partial bs -> (bs <> [] -> vli = vli_val bs) -> 0 <= p <= size -> size <= zlength buf ->
  exists r p' pos vli', dec_vli_pure buf p size (7 * zlength bs) vli = Some (r, p', pos, vli') /\
    p <= p' <= size /\ (p < size -> p < p') /\ vli_result bs (slice buf p (p' - p)) (p' =? size) r pos vli'.
Proof.
  intros Hbuf Hpart Hv Hp Hsz. unfold dec_vli_pure.
  replace (if 7 * zlength bs =? 0 then 0 else vli) with (vli_val bs).
  - by apply dec_vli_loop_ok.
  - destruct bs as [|b bs]; [done|]. rewrite Hv by done. rewrite zlength_cons. pose proof (zlength_nonneg bs).
    by replace (7 * (zlength bs + 1) =? 0) with false by lia.
Qed.

(** C37: [dec_vli] accepts exactly the minimal base-128 encodings of numbers
    below 2^63: from the state that earlier calls left after the bytes [bs],
    it never leaves the buffer, it ends a number exactly when the bytes read
    are the encoding of its result, it asks for more only when the input is
    used up, and it reports an error only when no encoding begins with the
    bytes read. *)
Theorem dec_vli_spec buf p size bs vli :
  bytes_ok buf -> partial bs -> (bs <> [] -> vli = vli_val bs) -> 0 <= p <= size -> size <= zlength buf ->
  exists r p' pos vli', dec_vli_pure buf p size (7 * zlength bs) vli = Some (r, p', pos, vli') /\
    p <= p' <= size /\ (p < size -> p < p') /\ vli_result bs (slice buf p (p' - p)) (p' =? size) r pos vli'.
Proof. apply dec_vli_ok. Qed.

(** ** Reading an encoding back *)

Lemma last_ends v bs rest : 0 <= v < 2 ^ 63 -> more_bytes bs -> ~ vli_bytes v ++ rest = bs.
Proof.
  intros Hv Hbs <-. destruct (vli_bytes_shape v Hv) as (bs' & b & (He & _ & Hb & _) & _).
  rewrite He, <- app_assoc in Hbs. apply Forall_app in Hbs as [_ Hbs]. apply Forall_cons in Hbs as [[? _] _]. lia.
Qed.

Lemma vli_prefix_free v v' : 0 <= v < 2 ^ 63 -> 0 <= v' < 2 ^ 63 -> vli_bytes v `prefix_of` vli_bytes v' -> v = v'.
Proof.
  intros Hv Hv' [rest Hp]. destruct (vli_bytes_shape v' Hv') as (bs' & b & (He & Hbs' & _ & _ & Hval) & _).
  destruct rest as [|x rest _] using rev_ind.
  - rewrite app_nil_r in Hp. destruct (vli_bytes_shape v Hv) as (? & ? & (_ & _ & _ & _ & Hval') & _). congruence.
  - rewrite He, app_assoc in Hp. apply app_inj_tail in Hp as [Hp _]. by destruct (last_ends v bs' rest).
Qed.

Lemma vli_bytes_range v : 0 <= v < 2 ^ 63 -> bytes_ok (vli_bytes v).
Proof.
  intros Hv. destruct (vli_bytes_shape v Hv) as (bs & b & (-> & Hbs & Hb & _) & _). apply Forall_app. split.
  - eapply Forall_impl; [done|]. unfold in_range. change (2 ^ 8) with 256. simpl. lia.
  - apply Forall_singleton. unfold in_range. change (2 ^ 8) with 256. lia.
Qed.

(** Part of a number, cut off by the end of the buffer. *)
Lemma dec_vli_part v a c x :
  0 <= v < 2 ^ 63 -> vli_bytes v = a ++ c -> c <> [] ->
  partial a /\ exists vli, dec_vli_pure a 0 (zlength a) 0 x = Some (XZ_OK, zlength a, 7 * zlength a, vli) /\
    (a <> [] -> vli = vli_val a).
Proof.
  intros Hv Hac Hc. pose proof (vli_bytes_range v Hv) as Hbytes. rewrite Hac in Hbytes. apply Forall_app in Hbytes as [Ha _].
  destruct (dec_vli_ok a 0 (zlength a) [] x Ha) as (r & p' & pos & vli & Hd & Hp & _ & Hr); try done.
  { pose proof (zlength_nonneg a). lia. }
  change (7 * zlength ([] : list Z)) with 0 in Hd. rewrite Z.sub_0_r in Hr.
  assert (Hpre : slice a 0 p' `prefix_of` vli_bytes v).
  { rewrite Hac. transitivity a; [|by apply prefix_app_r]. unfold slice, zdrop, ztake. rewrite drop_0. apply prefix_take. }
  destruct r; simpl in Hr; try done.
  - destruct Hr as (Hw & -> & -> & Hpart). assert (p' = zlength a) as -> by lia.
    rewrite slice_full in *. split; [done|]. by eexists.
  - destruct Hr as (-> & Hv' & He). rewrite He in Hpre.
    apply vli_prefix_free in Hpre; [|done|done]. subst vli. rewrite Hac in He. apply (f_equal zlength) in He.
    rewrite zlength_slice, zlength_app in He by lia. destruct c; [done|]. rewrite zlength_cons in He.
    pose proof (zlength_nonneg c). lia.
  - destruct Hr as [Hr _]. by destruct (Hr v).
Qed.

(** encoding a number and decoding it gives the number back, also when
    the encoding arrives in two pieces, whatever follows it. *)
Theorem vli_roundtrip v a c rest x :
  0 <= v < 2 ^ 63 -> vli_bytes v = a ++ c -> c <> [] -> bytes_ok rest ->
  exists pos vli, dec_vli_pure a 0 (zlength a) 0 x = Some (XZ_OK, zlength a, pos, vli) /\
    dec_vli_pure (c ++ rest) 0 (zlength (c ++ rest)) pos vli = Some (XZ_STREAM_END, zlength c, 0, v).
Proof.
  intros Hv Hac Hc Hrest. destruct (dec_vli_part v a c x Hv Hac Hc) as (Hpart & vli & Ha & Hval).
  exists (7 * zlength a), vli. split; [done|].
  pose proof (vli_bytes_range v Hv) as Hbytes. rewrite Hac in Hbytes. apply Forall_app in Hbytes as [_ Hcb].
  destruct (dec_vli_ok (c ++ rest) 0 (zlength (c ++ rest)) a vli) as (r & p' & pos & vli' & Hd & Hp & _ & Hr); try done.
  { by apply Forall_app. } { pose proof (zlength_nonneg (c ++ rest)). lia. }
  rewrite Hd, Z.sub_0_r in *. set (new := slice (c ++ rest) 0 p') in *.
  assert (Hnew : (a ++ new) `prefix_of` (vli_bytes v ++ rest)).
  { rewrite Hac, <- app_assoc. apply prefix_app. unfold new, slice, zdrop, ztake. rewrite drop_0. apply prefix_take. }
  assert (Hcmp : (a ++ new) `prefix_of` vli_bytes v \/ vli_bytes v `prefix_of` (a ++ new)).
  { eapply prefix_weak_total; [done|]. by apply prefix_app_r. }
  destruct r; simpl in Hr; try done.
  - destruct Hr as (Hw & _ & _ & Hmore & _). assert (p' = zlength (c ++ rest)) as -> by lia.
    unfold new in Hmore. rewrite slice_full, app_assoc, <- Hac in Hmore. by destruct (last_ends v _ rest Hv Hmore).
  - destruct Hr as (-> & Hv' & He). assert (vli' = v) as ->.
    { rewrite He in Hcmp. destruct Hcmp as [Hcmp|Hcmp]; apply vli_prefix_free in Hcmp; done. }
    rewrite Hac in He. apply app_inv_head in He. assert (zlength new = p') as Hl by (apply zlength_slice; lia).
    rewrite He in Hl. by rewrite Hl.
  - destruct Hr as (Hr & init & b & He & Hmore). exfalso. destruct Hcmp as [Hcmp|[tl Htl]]; [by destruct (Hr v)|].
    destruct tl as [|y tl _] using rev_ind.
    + apply (Hr v Hv). rewrite Htl, app_nil_r. done.
    + rewrite He, app_assoc in Htl. apply app_inj_tail in Htl as [Htl _]. by destruct (last_ends v init tl).
Qed.

(** ** Instances *)

Lemma dec_vli_witness :
  exists r p' pos vli', dec_vli_pure [0xE5; 0x8E; 0x26; 7] 1 4 (7 * zlength [0xE5]) (vli_val [0xE5]) = Some (r, p', pos, vli') /\
    1 <= p' <= 4 /\ (1 < 4 -> 1 < p') /\ vli_result [0xE5] (slice [0xE5; 0x8E; 0x26; 7] 1 (p' - 1)) (p' =? 4) r pos vli'.
Proof. apply dec_vli_spec; [concrete|concrete|done|lia|by vm_compute]. Defined.

(** 624485, cut after its first byte. *)
Lemma vli_roundtrip_witness :
  exists pos vli, dec_vli_pure [0xE5] 0 1 0 9 = Some (XZ_OK, 1, pos, vli) /\
    dec_vli_pure ([0x8E; 0x26] ++ [7]) 0 3 pos vli = Some (XZ_STREAM_END, 2, 0, 624485).
Proof. apply (vli_roundtrip 624485 [0xE5] [0x8E; 0x26] [7] 9); [lia|reflexivity|done|concrete]. Defined.
