(* ===== verification/XzFormat.v ===== *)
(** * XzFormat: what a .xz file is

    The images of the parts of a .xz Stream as an encoder writes them: Stream
    Header, Blocks, Index and Stream Footer.  A Block holds data that the block
    decoder turns into its contents; this is said with traces of calls of the
    decoder, so it does not depend on how the input was cut into pieces.  The
    stream decoder is proved against these images in [XzStreamThms]. *)
From Stdlib Require Import ZArith Lia Bool.
From stdpp Require Import base list list_numbers.
From S2P Require Import Prelude PolicyFile Mem XzCrc32 XzDict XzLzma2 XzStream XzVli.

(** ** Headers *)

(** Zero bytes up to a multiple of four. *)
Definition pad4 (n : Z) : list Z := replicate (Z.to_nat (- n mod 4)) 0.

Definition with_crc (bs : list Z) : list Z := bs ++ le_split 4 (xz_crc32 bs 0).

Definition stream_header (ck : Z) : list Z := HEADER_MAGIC ++ with_crc [0; ck].

(** The fields of a Block Header; [bf_padding] counts the bytes of padding. *)
Record block_fields := mk_bf {
  bf_compressed : option Z; bf_uncompressed : option Z; bf_props : Z; bf_padding : nat
}.

Definition size_field (v : option Z) : list Z :=
  match v with Some v => vli_bytes v | None => [] end.

Definition size_flag (v : option Z) (flag : Z) : Z := match v with Some _ => flag | None => 0 end.

(** Everything between the size byte and the CRC32. *)
Definition header_fields (f : block_fields) : list Z :=
  (size_flag (bf_compressed f) 0x40 + size_flag (bf_uncompressed f) 0x80) ::
  size_field (bf_compressed f) ++ size_field (bf_uncompressed f) ++
  [0x21; 0x01; bf_props f] ++ replicate (bf_padding f) 0.

Definition header_size (f : block_fields) : Z := zlength (header_fields f) + 5.

Definition header_image (f : block_fields) : list Z :=
  with_crc ((header_size f / 4 - 1) :: header_fields f).

Definition size_ok (v : option Z) : Prop := match v with Some v => 0 <= v < 2 ^ 63 | None => True end.

Definition fields_ok (f : block_fields) : Prop :=
  size_ok (bf_compressed f) /\ size_ok (bf_uncompressed f) /\ in_range 8 (bf_props f) /\
  header_size f mod 4 = 0 /\ header_size f <= 1024.

(** ** Blocks *)

Record xz_block := mk_xb { xb_header : block_fields; xb_data : list Z; xb_out : list Z }.

Definition check_image (ck : Z) (out : list Z) : list Z :=
  if ck =? XZ_CHECK_CRC32 then le_split 4 (xz_crc32 out 0) else [].

Definition block_image (ck : Z) (k : xz_block) : list Z :=
  header_image (xb_header k) ++ xb_data k ++ pad4 (zlength (xb_data k)) ++ check_image ck (xb_out k).

(** The Index Record of a Block: its Unpadded Size and Uncompressed Size. *)
Definition block_record (ck : Z) (k : xz_block) : Z * Z :=
  (u64 (header_size (xb_header k) + zlength (xb_data k) + zlength (check_image ck (xb_out k))),
   u64 (zlength (xb_out k))).

(** ** Index and footer *)

Definition record_bytes (r : Z * Z) : list Z := vli_bytes r.1 ++ vli_bytes r.2.

Definition index_fields (recs : list (Z * Z)) : list Z :=
  0 :: vli_bytes (zlength recs) ++ concat (record_bytes <$> recs).

Definition index_padded (recs : list (Z * Z)) : list Z :=
  index_fields recs ++ pad4 (zlength (index_fields recs)).

Definition stream_footer (ck : Z) (recs : list (Z * Z)) : list Z :=
  let f := le_split 4 (u64 (zlength (index_padded recs)) / 4) ++ [0; ck] in
  le_split 4 (xz_crc32 f 0) ++ f ++ FOOTER_MAGIC.

(** The two sums and the chained CRC32 by which the decoder compares the
    Index with the Blocks. *)
Definition add_record (h : xz_dec_hash) (r : Z * Z) : xz_dec_hash :=
  hash_crc (mk_hash (u64 (h_unpadded h + r.1)) (u64 (h_uncompressed h + r.2)) (h_crc32 h)).

Definition records_hash (recs : list (Z * Z)) : xz_dec_hash := foldl add_record zero_hash recs.

(** ** Streams *)

Definition blocks_image (ck : Z) (blks : list xz_block) : list Z := concat (block_image ck <$> blks).
Definition contents (blks : list xz_block) : list Z := concat (xb_out <$> blks).

Definition stream_image (ck : Z) (blks : list xz_block) (recs : list (Z * Z)) : list Z :=
  stream_header ck ++ blocks_image ck blks ++ with_crc (index_padded recs) ++ stream_footer ck recs.

(** The bytes taken from the input between two states of the buffers. *)
Definition took (b b' : xz_buf) : list Z := slice (b_in b) (in_pos b) (in_pos b' - in_pos b).

Section Traces.
Context {T : Type} `{BlockOps T}.

(** [bd_trace props ret l cin cout]: reset with [props] and run some times,
    each time but the last returning XZ_OK, the block decoder is in state [l],
    returned [ret] last, took [cin] and wrote [cout]. *)
Inductive bd_trace (props : Z) : xz_ret -> T -> list Z -> list Z -> Prop :=
| trace_reset l o l' o' : bd_reset l props o = (XZ_OK, l', o') -> bd_trace props XZ_OK l' [] []
| trace_run l cin cout b ret l' b' bs :
    bd_trace props XZ_OK l cin cout -> bd_run l b = Some (ret, l', b') -> output b b' bs ->
    bd_trace props ret l' (cin ++ took b b') (cout ++ bs).

Definition block_ok (k : xz_block) : Prop :=
  let f := xb_header k in
  fields_ok f /\
  (forall v, bf_compressed f = Some v -> v = u64 (zlength (xb_data k))) /\
  (forall v, bf_uncompressed f = Some v -> v = u64 (zlength (xb_out k))) /\
  exists l, bd_trace (bf_props f) XZ_STREAM_END l (xb_data k) (xb_out k).

Definition stream_ok (ck : Z) (blks : list xz_block) (recs : list (Z * Z)) : Prop :=
  (ck = 0 \/ ck = XZ_CHECK_CRC32) /\ Forall block_ok blks /\
  zlength recs = u64 (zlength blks) /\ Forall (fun r => 0 <= r.1 < 2 ^ 63 /\ 0 <= r.2 < 2 ^ 63) recs /\
  records_hash recs = records_hash (block_record ck <$> blks).
End Traces.

(** ** Lemmas *)

Lemma records_hash_snoc recs r : records_hash (recs ++ [r]) = add_record (records_hash recs) r.
Proof. unfold records_hash. by rewrite foldl_app. Qed.

Lemma blocks_image_snoc ck blks k : blocks_image ck (blks ++ [k]) = blocks_image ck blks ++ block_image ck k.
Proof. unfold blocks_image. rewrite fmap_app, concat_app; simpl; by rewrite app_nil_r. Qed.

Lemma contents_snoc blks k : contents (blks ++ [k]) = contents blks ++ xb_out k.
Proof. unfold contents. rewrite fmap_app, concat_app; simpl; by rewrite app_nil_r. Qed.

Lemma took_app b b1 b2 :
  b_in b1 = b_in b -> 0 <= in_pos b <= in_pos b1 -> in_pos b1 <= in_pos b2 -> took b b2 = took b b1 ++ took b1 b2.
Proof.
  intros Hi Hp H2. unfold took. rewrite Hi. replace (in_pos b2 - in_pos b) with ((in_pos b1 - in_pos b) + (in_pos b2 - in_pos b1)) by lia.
  rewrite slice_app by lia. do 2 f_equal; lia.
Qed.

Lemma took_refl b : took b b = [].
Proof. unfold took. by rewrite Z.sub_diag. Qed.

(** The stored CRC32 is that of the bytes before it. *)
Lemma crc_stored bs stored c :
  bytes_ok stored -> zlength stored = 4 -> xz_crc32 bs 0 = le_combine stored -> c = stored -> c = le_split 4 (xz_crc32 bs 0).
Proof.
  intros Hb Hl He ->. rewrite He. rewrite <- (le_split_combine stored) at 1 by done. f_equal. unfold zlength in Hl. lia.
Qed.
