(* ===== verification/XzStreamPieces.v ===== *)
(** * XzStreamPieces: the parts of the stream decoder

    One lemma for each function of xz_dec_stream.c that [dec_main] calls: it
    does not fault, and it accepts exactly (or only) the bytes that
    [XzFormat] gives for the part it decodes. *)
From Stdlib Require Import ZArith Lia Bool.
From stdpp Require Import base list list_numbers.
From S2P Require Import Prelude PolicyFile Mem XzCrc32 XzDict XzLzma2 XzLzma2Thms XzStream XzVli XzFormat.

(** ** What the stream decoder relies on

    [bd_ready]: the decoder may be reset; [bd_inv]: it may be run. *)
Class BlockLaws (T : Type) `{BlockOps T} := {
  bd_ready : T -> Prop;
  bd_inv : T -> Prop;
  bd_inv_ready l : bd_inv l -> bd_ready l;
  bd_reset_ok l props o ret l' o' :
    bd_ready l -> in_range 8 props -> bd_reset l props o = (ret, l', o') ->
    ret <> XZ_STREAM_END /\ (ret = XZ_OK -> bd_inv l');
  bd_run_ok l b :
    bd_inv l -> buf_ok b ->
    exists ret l' b' bs, bd_run l b = Some (ret, l', b') /\ buf_ok b' /\ in_pos b <= in_pos b' /\ output b b' bs /\
      (ret = XZ_OK \/ ret = XZ_STREAM_END -> bd_inv l') /\ (ret = XZ_OK -> stalled b');
}.

(** The LZMA2 decoder keeps these promises. *)
#[global] Program Instance lzma2_block_laws : BlockLaws xz_dec_lzma2 := {
  bd_ready := dec_mem;
  bd_inv := fun l => exists r, l2_inv l r;
}.
Next Obligation. intros l [r (Hd & Htl & Htb & _)]. by destruct Hd as (_ & _ & _ & ?). Qed.
Next Obligation.
  intros l props o ret l' o' Hm Hp Hr. pose proof (reset_ok l props o Hm Hp) as H. simpl in Hr. rewrite Hr in H.
  destruct H as [(-> & _ & _ & H & _)|[(-> & _)|[(-> & _)|(-> & _)]]]; split; try done. intros _. exists []. apply H.
Qed.
Next Obligation.
  intros l b [r Hr] Hb. destruct (lzma2_run_ok l r b Hr Hb) as (ret & l' & b' & bs & ? & ? & ? & ? & Hi & ?).
  exists ret, l', b', bs. split_and!; try done. intros Hg. destruct (Hi Hg) as (r' & ? & _). by exists r'.
Qed.

(** Compute the fields of updated states, and nothing else. *)
Ltac xcbn :=
  cbn [x_sequence x_pos x_vli x_in_start x_out_start x_crc check_type allow_buf_error x_header x_block x_index x_temp
       x_lzma2 x_mem set_xseq set_vli set_starts set_crc set_check set_allow set_header set_block set_index set_xtemp
       set_block_dec ix_sequence ix_size ix_count ix_hash bl_compressed bl_uncompressed bl_count bl_hash bh_compressed
       bh_uncompressed bh_size t_pos t_size t_buf in_pos in_size b_in out_pos out_size b_out set_in_pos negb fst snd].

Tactic Notation "xcbn" "in" hyp(H) :=
  cbn [x_sequence x_pos x_vli x_in_start x_out_start x_crc check_type allow_buf_error x_header x_block x_index x_temp
       x_lzma2 x_mem set_xseq set_vli set_starts set_crc set_check set_allow set_header set_block set_index set_xtemp
       set_block_dec ix_sequence ix_size ix_count ix_hash bl_compressed bl_uncompressed bl_count bl_hash bh_compressed
       bh_uncompressed bh_size t_pos t_size t_buf in_pos in_size b_in out_pos out_size b_out set_in_pos negb fst snd] in H.

(** ** Buffers *)

Definition temp_ok (t : temp_info) : Prop := zlength (t_buf t) = TEMP_SIZE /\ bytes_ok (t_buf t).

Lemma in_frame_took b b' : in_frame b b' -> took b b' = slice (b_in b) (in_pos b) (in_pos b' - in_pos b).
Proof. done. Qed.

Lemma took_bytes b b' : bytes_ok (b_in b) -> bytes_ok (took b b').
Proof. apply slice_forall. Qed.

Lemma took_one b x : rd (b_in b) (in_pos b) = Some x -> took b (set_in_pos b (in_pos b + 1)) = [x].
Proof.
  intros Hr. unfold took. simpl. replace (in_pos b + 1 - in_pos b) with (0 + 1) by lia.
  by rewrite (slice_cons _ _ _ _ Hr).
Qed.

(** Reading one more byte. *)
Lemma in_frame_step b : buf_ok b -> in_pos b <> in_size b ->
  exists x, rd (b_in b) (in_pos b) = Some x /\ in_range 8 x /\ in_frame b (set_in_pos b (in_pos b + 1)) /\
    took b (set_in_pos b (in_pos b + 1)) = [x].
Proof.
  intros Hb Hne. pose proof Hb as (Hp & Hs & Hbytes & _). destruct (rd_ok (b_in b) (in_pos b)) as [x Hx]; [lia|].
  exists x. split; [done|]. split; [by eapply rd_forall|]. split; [split; simpl; [done|lia]|]. by apply took_one.
Qed.

Lemma took_frame b b1 b2 : buf_ok b -> in_frame b b1 -> in_frame b1 b2 -> took b b2 = took b b1 ++ took b1 b2.
Proof.
  intros (Hp & _) [H1 ?] [H2 ?]. apply took_app; [by rewrite H1|lia|lia].
Qed.

Lemma zlength_took b b' : buf_ok b -> in_pos b <= in_pos b' <= in_size b -> zlength (took b b') = in_pos b' - in_pos b.
Proof. intros (? & ? & _) ?. apply zlength_slice; lia. Qed.

Section Pieces.
Context {T : Type} `{BlockOps T}.
Implicit Types s : xz_dec T.

(** [fill_temp] appends what it takes to what it holds, and is done exactly
    when it has [temp.size] bytes. *)
Lemma fill_temp_ok s b :
  let t := x_temp s in
  temp_ok t -> 0 <= t_pos t < t_size t -> t_size t <= TEMP_SIZE -> buf_ok b ->
  exists full b' buf, fill_temp s b = Some (full,
      set_xtemp s (mk_temp (if (full : bool) then 0 else t_pos t + (in_pos b' - in_pos b)) (t_size t) buf), b') /\
    in_frame b b' /\ zlength buf = TEMP_SIZE /\ bytes_ok buf /\ (in_pos b < in_size b -> in_pos b < in_pos b') /\
    slice buf 0 (t_pos t + (in_pos b' - in_pos b)) = slice (t_buf t) 0 (t_pos t) ++ took b b' /\
    (if full then t_pos t + (in_pos b' - in_pos b) = t_size t
     else in_pos b' = in_size b /\ t_pos t + (in_pos b' - in_pos b) < t_size t).
Proof.
  intros t [Hl Hbt] Hp Hts (Hip & His & Hib & _). unfold fill_temp. fold t.
  set (n := Z.min (in_size b - in_pos b) (t_size t - t_pos t)).
  rewrite memcpy_put_out by lia. set (b' := set_in_pos b (in_pos b + n)).
  assert (Hn : in_pos b' - in_pos b = n) by (simpl; lia).
  assert (Hfr : in_frame b b') by (split; simpl; [done|lia]).
  assert (Hbuf : zlength (put_out (t_buf t) (t_pos t) (slice (b_in b) (in_pos b) n)) = TEMP_SIZE /\
     bytes_ok (put_out (t_buf t) (t_pos t) (slice (b_in b) (in_pos b) n))).
  { split; [rewrite zlength_put_out; rewrite ?zlength_slice; lia|].
    unfold put_out, ztake, zdrop. rewrite !Forall_app. split_and!; auto using Forall_take, Forall_drop, slice_forall. }
  assert (Hsl : slice (put_out (t_buf t) (t_pos t) (slice (b_in b) (in_pos b) n)) 0 (t_pos t + n) =
     slice (t_buf t) 0 (t_pos t) ++ took b b').
  { unfold put_out. rewrite app_assoc. unfold slice at 1. change (zdrop 0 ?l) with l. unfold took. rewrite Hn.
    replace (t_pos t + n) with (zlength (ztake (t_pos t) (t_buf t) ++ slice (b_in b) (in_pos b) n)).
    - rewrite ztake_app. done.
    - rewrite zlength_app, zlength_slice by lia. unfold ztake, zlength in *. rewrite length_take. lia. }
  destruct Hbuf as [Hbl Hbb]. destruct (Z.eqb_spec (t_pos t + n) (t_size t)) as [He|He].
  - exists true, b', (put_out (t_buf t) (t_pos t) (slice (b_in b) (in_pos b) n)). rewrite Hn.
    split_and!; try done; simpl; lia.
  - exists false, b', (put_out (t_buf t) (t_pos t) (slice (b_in b) (in_pos b) n)). rewrite Hn.
    split_and!; try done; simpl; lia.
Qed.

(** ** Stream Header and Stream Footer *)

Lemma get_le32_split buf i x :
  bytes_ok buf -> 0 <= i -> i + 4 <= zlength buf -> x = get_le32 buf i -> slice buf i 4 = le_split 4 x.
Proof.
  intros Hb Hi Hl ->. unfold get_le32. pose proof (zlength_slice buf i 4 ltac:(lia) ltac:(lia) Hl) as Hn.
  replace 4%nat with (length (slice buf i 4)) by (unfold zlength in Hn; lia).
  by rewrite le_split_combine by (by apply slice_forall).
Qed.

Lemma tb_rd s i : temp_ok (x_temp s) -> 0 <= i < TEMP_SIZE -> rd (t_buf (x_temp s)) i = Some (tb s i) /\ in_range 8 (tb s i).
Proof.
  intros [Hl Hb] Hi. unfold tb. destruct (rd_ok (t_buf (x_temp s)) i) as [x Hx]; [lia|]. rewrite Hx. split; [done|].
  by eapply rd_forall.
Qed.

Lemma slice_two buf i x y : rd buf i = Some x -> rd buf (i + 1) = Some y -> slice buf i 2 = [x; y].
Proof.
  intros Hx Hy. change 2 with (0 + 1 + 1). rewrite (slice_cons _ _ _ _ Hx) by lia. by rewrite (slice_cons _ _ _ _ Hy) by lia.
Qed.

Lemma dec_stream_header_ok s :
  temp_ok (x_temp s) ->
  let '(ret, s') := dec_stream_header s in
  ret <> XZ_STREAM_END /\
  (ret = XZ_OK -> exists ck, (ck = 0 \/ ck = XZ_CHECK_CRC32) /\ s' = set_check s ck /\
     slice (t_buf (x_temp s)) 0 STREAM_HEADER_SIZE = stream_header ck).
Proof.
  intros Ht. pose proof Ht as [Hl Hb]. unfold dec_stream_header, HEADER_MAGIC_SIZE, STREAM_HEADER_SIZE. change (6 + 2) with 8. change (6 + 1) with 7.
  unfold TEMP_SIZE in Hl. destruct (tb_rd s 6 Ht ltac:(done)) as [H6 _]. destruct (tb_rd s 7 Ht ltac:(done)) as [H7 H7r].
  case_bool_decide as Hm; simpl; [|by split].
  destruct (Z.eqb_spec (xz_crc32 (slice (t_buf (x_temp s)) 6 2) 0) (get_le32 (t_buf (x_temp s)) 8)) as [Hc|]; simpl; [|by split].
  destruct (Z.eqb_spec (tb s 6) 0) as [Hz|]; simpl; [|by split].
  unfold XZ_CHECK_CRC32. destruct (Z.ltb_spec 1 (tb s 7)); simpl; [by split|]. split; [done|]. intros _.
  exists (tb s 7). unfold in_range in H7r. split; [lia|]. split; [done|].
  change 12 with (6 + (2 + 4)). rewrite !slice_app by lia. change (0 + 6) with 6. change (6 + 2) with 8. rewrite Hm.
  unfold stream_header, with_crc. f_equal.
  rewrite Hz in H6. rewrite (slice_two _ _ _ _ H6 H7) in Hc |- *. by rewrite (get_le32_split _ 8 _ Hb ltac:(lia) ltac:(lia) Hc).
Qed.

Lemma dec_stream_footer_ok s :
  temp_ok (x_temp s) ->
  let ret := dec_stream_footer s in
  ret <> XZ_OK /\
  (ret = XZ_STREAM_END ->
     let f := le_split 4 (ix_size (x_index s) / 4) ++ [0; check_type s] in
     slice (t_buf (x_temp s)) 0 STREAM_HEADER_SIZE = le_split 4 (xz_crc32 f 0) ++ f ++ FOOTER_MAGIC).
Proof.
  intros Ht. pose proof Ht as [Hl Hb]. unfold dec_stream_footer, STREAM_HEADER_SIZE. unfold TEMP_SIZE in Hl.
  destruct (tb_rd s 8 Ht ltac:(done)) as [H8 _]. destruct (tb_rd s 9 Ht ltac:(done)) as [H9 _].
  case_bool_decide as Hm; simpl; [|by split].
  destruct (Z.eqb_spec (xz_crc32 (slice (t_buf (x_temp s)) 4 6) 0) (get_le32 (t_buf (x_temp s)) 0)) as [Hc|]; simpl; [|by split].
  destruct (Z.eqb_spec (Z.shiftr (ix_size (x_index s)) 2) (get_le32 (t_buf (x_temp s)) 4)) as [Hs|]; simpl; [|by split].
  destruct (Z.eqb_spec (tb s 8) 0) as [Hz|]; simpl; [|by split].
  destruct (Z.eqb_spec (tb s 9) (check_type s)) as [Hck|]; simpl; [|by split]. split; [done|]. intros _.
  rewrite Z.shiftr_div_pow2 in Hs by lia. change (2 ^ 2) with 4 in Hs.
  assert (Hf : slice (t_buf (x_temp s)) 4 6 = le_split 4 (ix_size (x_index s) / 4) ++ [0; check_type s]).
  { change 6 with (4 + 2). rewrite slice_app by lia. rewrite (get_le32_split _ 4 _ Hb) by (done || lia). f_equal.
    rewrite <- Hz, <- Hck. by apply slice_two. }
  change 12 with (4 + (6 + 2)). rewrite !slice_app by lia. change (0 + 4) with 4. change (4 + 6) with 10.
  rewrite Hm, Hf in *. rewrite (get_le32_split _ 0 _ Hb) by (done || lia). done.
Qed.
(** ** Check fields and padding *)

Lemma in_frame_lt b b' : in_frame b b' -> in_size b' = in_size b /\ b_in b' = b_in b.
Proof. by intros [-> _]. Qed.

Lemma crc_byte crc j : in_range 32 crc -> 0 <= j < 4 -> rd (le_split 4 crc) j = Some (Z.land (Z.shiftr crc (8 * j)) 0xFF).
Proof.
  intros Hc Hj. change 0xFF with (2 ^ 8 - 1). rewrite land_ones_eq_mod by lia. rewrite Z.shiftr_div_pow2 by lia.
  assert (j = 0 \/ j = 1 \/ j = 2 \/ j = 3) as [-> | [-> | [-> | ->]]] by lia;
    unfold le_split; cbn -[Z.div Z.modulo Z.pow]; rewrite ?Z.div_div by lia; [|reflexivity..].
  change (2 ^ (8 * 0)) with 1. by rewrite Z.div_1_r.
Qed.

Lemma ztake_snoc (l : list Z) j x : rd l j = Some x -> ztake (j + 1) l = ztake j l ++ [x].
Proof.
  intros Hr. pose proof (rd_some _ _ _ Hr). unfold rd in Hr. replace (0 <=? j) with true in Hr by lia.
  unfold ztake. rewrite Z2Nat.inj_add by lia. change (Z.to_nat 1) with 1%nat. rewrite Nat.add_1_r. by apply take_S_r.
Qed.

Lemma rd_middle (l rest : list Z) j x : 0 <= j <= zlength l -> rd (ztake j l ++ x :: rest) j = Some x.
Proof.
  intros Hj. unfold rd, ztake, zlength in *. replace (0 <=? j) with true by lia.
  rewrite lookup_app_r, length_take, Nat.min_l by (rewrite ?length_take; lia). by rewrite Nat.sub_diag.
Qed.

(** [crc_validate] has matched the first [x_pos / 8] bytes of the CRC; it
    accepts the rest and nothing else. *)
Definition crc_result (s : xz_dec T) (j : Z) (b : xz_buf) (ret : xz_ret) (s' : xz_dec T) (b' : xz_buf) : Prop :=
  match ret with
  | XZ_STREAM_END => ztake j (le_split 4 (x_crc s)) ++ took b b' = le_split 4 (x_crc s) /\
                     s' = set_crc (set_vli s 0 (x_vli s)) 0 /\ in_pos b < in_pos b'
  | XZ_OK => exists j', j <= j' < 4 /\ ztake j (le_split 4 (x_crc s)) ++ took b b' = ztake j' (le_split 4 (x_crc s)) /\
             s' = set_vli s (8 * j') (x_vli s) /\ in_pos b' = in_size b
  | XZ_DATA_ERROR => forall rest, ~ ztake j (le_split 4 (x_crc s)) ++ took b b' ++ rest = le_split 4 (x_crc s)
  | _ => False
  end.

Lemma crc_validate_loop_ok fuel s j b :
  in_range 32 (x_crc s) -> x_pos s = 8 * j -> 0 <= j < 4 -> buf_ok b -> (Z.to_nat (4 - j) < fuel)%nat ->
  exists ret s' b', crc_validate_loop fuel s b = Some (ret, s', b') /\ in_frame b b' /\ crc_result s j b ret s' b'.
Proof.
  revert s j b. induction fuel as [|fuel IH]; intros s j b Hc Hx Hj Hb Hf; [lia|]. cbn [crc_validate_loop].
  destruct (Z.eqb_spec (in_pos b) (in_size b)) as [He|Hne].
  { exists XZ_OK, s, b. split; [done|]. split; [by apply in_frame_refl|]. exists j.
    rewrite took_refl, app_nil_r, <- Hx. split_and!; try done; try lia. by destruct s. }
  rewrite Hx. replace (32 <=? 8 * j) with false by lia. destruct (in_frame_step b Hb Hne) as (x & -> & Hxr & Hfr & Htk).
  pose proof (crc_byte _ j Hc Hj) as Hcb. set (b1 := set_in_pos b (in_pos b + 1)) in *.
  destruct (Z.eqb_spec (Z.land (Z.shiftr (x_crc s) (8 * j)) 0xFF) x) as [Hb'|Hbad]; simpl.
  - rewrite Hb' in Hcb. destruct (Z.ltb_spec (8 * j + 8) 32) as [Hlt|Hge].
    + destruct (IH (set_vli s (8 * j + 8) (x_vli s)) (j + 1) b1) as (ret & s' & b' & -> & Hfr' & Hres); try (simpl; (done || lia)).
      { by eapply in_frame_buf. }
      exists ret, s', b'. split; [done|]. split; [by eapply in_frame_trans|].
      pose proof (took_frame _ _ _ Hb Hfr Hfr') as Ht. rewrite Htk in Ht. unfold crc_result in *. simpl in Hres.
      rewrite (ztake_snoc _ _ _ Hcb), <- app_assoc in Hres. rewrite Ht.
      destruct Hfr' as [_ Hfp]. simpl in Hfp.
      destruct ret; try done.
      * destruct Hres as (j' & ? & ? & -> & ?). exists j'. split_and!; try done; lia.
      * destruct Hres as (? & -> & ?). split_and!; try done; lia.
      * intros rest Hr. apply (Hres rest). rewrite <- !app_assoc in *. exact Hr.
    + assert (j = 3) as -> by lia. eexists XZ_STREAM_END, _, b1. split; [done|]. split; [done|].
      unfold crc_result. rewrite Htk, <- (ztake_snoc _ _ _ Hcb). split_and!; try done. simpl. lia.
  - exists XZ_DATA_ERROR, s, b1. split; [done|]. split; [done|]. simpl. rewrite Htk. intros rest Hr.
    apply (f_equal (fun l => rd l j)) in Hr. rewrite Hcb in Hr. cbn [app] in Hr.
    rewrite rd_middle in Hr by (rewrite zlength_le_split; lia). congruence.
Qed.
Lemma skip_padding_ok fuel m b :
  buf_ok b -> (Z.to_nat (- m mod 4) <= fuel)%nat ->
  exists ret z b', skip_padding fuel (u64 m) b = Some (ret, u64 (m + z), b') /\ in_frame b b' /\ 0 <= z <= - m mod 4 /\
    match ret with
    | None => took b b' = replicate (Z.to_nat z) 0 /\ z = - m mod 4
    | Some XZ_OK => took b b' = replicate (Z.to_nat z) 0 /\ in_pos b' = in_size b
    | Some XZ_DATA_ERROR => True
    | _ => False
    end.
Proof.
  revert m b. induction fuel as [|fuel IH]; intros m b Hb Hf.
  all: assert (Hm : Z.land (u64 m) 3 = m mod 4) by
    (change 3 with (2 ^ 2 - 1); rewrite land_ones_eq_mod by lia; unfold wrap; apply Z.mod_mod_divide; by exists (2 ^ 62)).
  all: cbn [skip_padding]; rewrite Hm; unfold ctrue.
  all: destruct (Z.eqb_spec (m mod 4) 0) as [Hz|Hnz]; simpl.
  1,3: exists None, 0, b; rewrite Z.add_0_r, took_refl; split_and!; try done; try (by apply in_frame_refl); apply Z_mod_zero_opp_full in Hz; lia.
  { Z.to_euclidean_division_equations. lia. }
  destruct (Z.eqb_spec (in_pos b) (in_size b)) as [He|Hne].
  { exists (Some XZ_OK), 0, b. rewrite Z.add_0_r, took_refl. split_and!; try done; try (by apply in_frame_refl).
    by apply Z.mod_pos_bound. }
  destruct (in_frame_step b Hb Hne) as (x & -> & Hxr & Hfr & Htk). set (b1 := set_in_pos b (in_pos b + 1)) in *.
  destruct (Z.eqb_spec x 0) as [->|]; simpl.
  2:{ exists (Some XZ_DATA_ERROR), 0, b1. rewrite Z.add_0_r. split_and!; try done. by apply Z.mod_pos_bound. }
  assert (Hs : - (m + 1) mod 4 = - m mod 4 - 1) by (Z.to_euclidean_division_equations; lia).
  rewrite wrap_wrap_add by lia. destruct (IH (m + 1) b1) as (ret & z & b' & -> & Hfr' & Hz & Hr);
    [by eapply in_frame_buf|rewrite Hs; pose proof (Z.mod_pos_bound (- m) 4 ltac:(lia)); lia|].
  exists ret, (z + 1), b'. split; [do 3 f_equal; f_equal; lia|]. split; [by eapply in_frame_trans|]. split; [lia|].
  rewrite (took_frame _ _ _ Hb Hfr Hfr'), Htk. replace (Z.to_nat (z + 1)) with (S (Z.to_nat z)) by lia.
  destruct ret as [[]|]; try done.
  - destruct Hr as [-> ?]. split; [done|]. by rewrite <- (proj1 (in_frame_lt _ _ Hfr)).
  - destruct Hr as [-> ?]. split; [done|lia].
Qed.
(** ** Block Header *)

Definition at_vli s (p w : Z) : xz_dec T :=
  set_xtemp (set_vli s 0 w) (mk_temp p (t_size (x_temp s)) (t_buf (x_temp s))).

Lemma dec_vli_temp s :
  let t := x_temp s in
  temp_ok t -> 0 <= t_pos t <= t_size t -> t_size t <= TEMP_SIZE -> x_pos s = 0 ->
  exists ret s' p, dec_vli s (t_buf t) (t_pos t) (t_size t) = Some (ret, s', p) /\
    (ret = XZ_STREAM_END -> t_pos t <= p <= t_size t /\ 0 <= x_vli s' < 2 ^ 63 /\
       slice (t_buf t) (t_pos t) (p - t_pos t) = vli_bytes (x_vli s') /\ s' = set_vli s 0 (x_vli s')).
Proof.
  intros t [Hl Hb] Hp Hs Hx. unfold dec_vli. rewrite Hx.
  destruct (dec_vli_ok (t_buf t) (t_pos t) (t_size t) [] (x_vli s)) as (r & p & pos & vli & Hd & Hpp & _ & Hr);
    try done; try lia.
  change (7 * zlength ([] : list Z)) with 0 in Hd. rewrite Hd. eexists r, _, p. split; [done|]. intros ->.
  destruct Hr as (-> & Hv & He). split_and!; try done; try lia; apply Hv.
Qed.

Lemma header_vli_ok s flag :
  let t := x_temp s in
  temp_ok t -> 0 <= t_pos t <= t_size t -> t_size t <= TEMP_SIZE -> x_pos s = 0 ->
  flag <> 0 -> Z.land (tb s 1) flag = 0 \/ Z.land (tb s 1) flag = flag ->
  exists r s', header_vli s flag = Some (r, s') /\
    (forall v, r = Some v -> exists fld p w, v = default VLI_UNKNOWN fld /\ size_ok fld /\
       size_flag fld flag = Z.land (tb s 1) flag /\ t_pos t <= p <= t_size t /\
       slice (t_buf t) (t_pos t) (p - t_pos t) = size_field fld /\ s' = at_vli s p w).
Proof.
  intros t Ht Hp Hs Hx Hf Hfl. unfold header_vli, ctrue. fold t. destruct (Z.eqb_spec (Z.land (tb s 1) flag) 0) as [Hz|Hnz]; simpl.
  - eexists _, s. split; [done|]. intros v [= <-]. exists None, (t_pos t), (x_vli s).
    rewrite Z.sub_diag, slice_0. split_and!; try done; try lia. unfold at_vli. rewrite <- Hx. by destruct s as [? ? ? ? ? ? ? ? ? ? ? []].
  - destruct (dec_vli_temp s Ht Hp Hs Hx) as (ret & s' & p & Hd & Hend). fold t in Hd. rewrite Hd.
    eexists _, _. split; [done|]. intros v. case_bool_decide as Hret; [|done]. intros [= <-].
    destruct (Hend Hret) as (Hpp & Hv & Hsl & Hs'). exists (Some (x_vli s')), p, (x_vli s').
    fold t in Hpp. split_and!; try done; try lia; [simpl; lia|]. by rewrite Hs' at 1.
Qed.

Lemma header_padding_ok fuel buf p size :
  bytes_ok buf -> 0 <= p <= size -> size <= zlength buf -> (Z.to_nat (size - p) <= fuel)%nat ->
  exists ok q, header_padding fuel buf p size = Some (ok, q) /\
    (ok = true -> slice buf p (size - p) = replicate (Z.to_nat (size - p)) 0).
Proof.
  intros Hb. revert p. induction fuel as [|fuel IH]; intros p Hp Hs Hf; cbn [header_padding].
  - assert (p = size) as -> by lia. rewrite Z.ltb_irrefl, Z.sub_diag. by exists true, size.
  - destruct (Z.ltb_spec p size).
    2:{ assert (p = size) as -> by lia. rewrite Z.sub_diag. by exists true, size. }
    destruct (rd_ok buf p) as [x Hx]; [lia|]. rewrite Hx. destruct (Z.eqb_spec x 0) as [->|]; simpl; [|by exists false, (p + 1)].
    destruct (IH (p + 1)) as (ok & q & -> & Hq); try lia. exists ok, q. split; [done|]. intros Hok.
    replace (size - p) with (size - (p + 1) + 1) by lia. rewrite (slice_cons _ _ _ _ Hx), (Hq Hok) by lia.
    by replace (Z.to_nat (size - (p + 1) + 1)) with (S (Z.to_nat (size - (p + 1)))) by lia.
Qed.

Context `{!BlockLaws T}.

(** The decoder when a Block Header was accepted. *)
Definition header_done s (l : T) (o : oracle) : xz_dec T :=
  set_block (set_xtemp (set_block_dec s l o) (mk_temp 0 (t_size (x_temp s)) (t_buf (x_temp s))))
    (mk_bl 0 0 (bl_count (x_block s)) (bl_hash (x_block s))).

Lemma header_filters_ok s :
  let t := x_temp s in
  temp_ok t -> 0 <= t_pos t <= t_size t -> t_size t <= TEMP_SIZE -> bd_ready (x_lzma2 s) ->
  exists ret s', header_filters s = Some (ret, s') /\ ret <> XZ_STREAM_END /\
    (ret = XZ_OK -> exists props l o, in_range 8 props /\ bd_reset (x_lzma2 s) props (x_mem s) = (XZ_OK, l, o) /\
       bd_inv l /\ t_pos t + 3 <= t_size t /\ s' = header_done s l o /\
       slice (t_buf t) (t_pos t) (t_size t - t_pos t) =
         [0x21; 0x01; props] ++ replicate (Z.to_nat (t_size t - (t_pos t + 3))) 0).
Proof.
  intros t [Hl Hb] Hp Hs Hrd. unfold header_filters. fold t. destruct (Z.ltb_spec (t_size t - t_pos t) 2); [by eexists _, _|].
  destruct (rd_ok (t_buf t) (t_pos t)) as [f Hf]; [lia|]. destruct (rd_ok (t_buf t) (t_pos t + 1)) as [ps Hps]; [lia|].
  rewrite Hf, Hps. destruct (Z.eqb_spec f 0x21) as [->|]; simpl; [|by eexists _, _].
  destruct (Z.eqb_spec ps 1) as [->|]; simpl; [|by eexists _, _].
  destruct (Z.ltb_spec (t_size t - (t_pos t + 2)) 1); simpl; [by eexists _, _|].
  destruct (rd_ok (t_buf t) (t_pos t + 2)) as [props Hpr]; [lia|]. rewrite Hpr.
  pose proof (rd_forall _ _ _ _ Hb Hpr) as Hprr. destruct (bd_reset (x_lzma2 s) props (x_mem s)) as [[ret l] o] eqn:Hre.
  destruct (bd_reset_ok _ _ _ _ _ _ Hrd Hprr Hre) as [Hne Hok].
  case_bool_decide as Hret; simpl; [subst ret|by eexists _, _].
  destruct (header_padding_ok (Z.to_nat (t_size t - (t_pos t + 3))) (t_buf t) (t_pos t + 3) (t_size t)) as (ok & q & -> & Hpad);
    try done; try lia.
  destruct ok; [|by eexists _, _]. eexists _, _. split; [done|]. split; [done|]. intros _. exists props, l, o.
  split_and!; auto; try lia. replace (t_size t - t_pos t) with (t_size t - (t_pos t + 3) + 1 + 1 + 1) by lia.
  rewrite (slice_cons _ _ _ _ Hf), (slice_cons _ _ _ _ Hps) by lia. replace (t_pos t + 1 + 1) with (t_pos t + 2) by lia.
  rewrite (slice_cons _ _ _ _ Hpr) by lia. replace (t_pos t + 2 + 1) with (t_pos t + 3) by lia. by rewrite Hpad.
Qed.
Lemma flags_split x :
  in_range 8 x ->
  (Z.land x 0x40 = 0 \/ Z.land x 0x40 = 0x40) /\ (Z.land x 0x80 = 0 \/ Z.land x 0x80 = 0x80) /\
  (Z.land x 0x3F = 0 -> x = Z.land x 0x40 + Z.land x 0x80).
Proof.
  intros Hx. pose proof (forall_bits_spec 8 (fun x => ((Z.land x 0x40 =? 0) || (Z.land x 0x40 =? 0x40)) &&
    ((Z.land x 0x80 =? 0) || (Z.land x 0x80 =? 0x80)) &&
    (negb (Z.land x 0x3F =? 0) || (x =? Z.land x 0x40 + Z.land x 0x80))) x ltac:(by vm_compute) Hx) as Hb.
  cbv beta in Hb. lia.
Qed.

Definition header_read s (f : block_fields) (l : T) (o : oracle) (w : Z) : xz_dec T :=
  header_done (set_header (set_vli (set_xtemp s (mk_temp 0 (t_size (x_temp s) - 4) (t_buf (x_temp s)))) 0 w)
    (mk_bh (default VLI_UNKNOWN (bf_compressed f)) (default VLI_UNKNOWN (bf_uncompressed f)) (bh_size (x_header s)))) l o.

Lemma dec_block_header_ok s :
  let t := x_temp s in
  temp_ok t -> 8 <= t_size t <= TEMP_SIZE -> x_pos s = 0 -> bd_ready (x_lzma2 s) ->
  exists ret s', dec_block_header s = Some (ret, s') /\ ret <> XZ_STREAM_END /\
    (ret = XZ_OK -> exists f l o w,
       size_ok (bf_compressed f) /\ size_ok (bf_uncompressed f) /\ in_range 8 (bf_props f) /\ header_size f = t_size t /\
       slice (t_buf t) 0 (t_size t) = with_crc (tb s 0 :: header_fields f) /\
       bd_reset (x_lzma2 s) (bf_props f) (x_mem s) = (XZ_OK, l, o) /\ bd_inv l /\ s' = header_read s f l o w).
Proof.
  intros t Ht Hs Hx Hrd. pose proof Ht as [Hl Hb]. unfold dec_block_header. fold t.
  unfold TEMP_SIZE in *. rewrite !sub_buf_ok by lia.
  destruct (Z.eqb_spec (xz_crc32 (slice (t_buf t) 0 (t_size t - 4)) 0) (le_combine (slice (t_buf t) (t_size t - 4) 4))) as [Hc|];
    cbn [negb]; [|by eexists _, _].
  set (s1 := set_xtemp _ (mk_temp 2 (t_size t - 4) (t_buf t))).
  destruct (tb_rd s 0 Ht ltac:(done)) as [H0 _]. destruct (tb_rd s 1 Ht ltac:(done)) as [H1 H1r]. fold t in H0, H1.
  change (tb s1 1) with (tb s 1). destruct (flags_split _ H1r) as (Hf40 & Hf80 & Hfl).
  unfold ctrue. destruct (Z.eqb_spec (Z.land (tb s 1) 0x3F) 0) as [H3f|]; cbn [negb]; [|by eexists _, _].
  destruct (header_vli_ok s1 0x40) as (c & s2 & -> & Hc2); try done; try (simpl; unfold TEMP_SIZE; lia).
  destruct c as [c|]; [|by eexists _, _]. destruct (Hc2 _ eq_refl) as (fc & p2 & w2 & Hcv & Hcok & Hcfl & Hp2 & Hsl2 & ->). simpl in Hp2, Hsl2.
  set (s3 := set_header _ _). destruct (header_vli_ok s3 0x80) as (u & s4 & -> & Hu2); try done; try (simpl; unfold TEMP_SIZE; lia).
  destruct u as [u|]; [|by eexists _, _]. destruct (Hu2 _ eq_refl) as (fu & p4 & w4 & Huv & Huok & Hufl & Hp4 & Hsl4 & ->). simpl in Hp4, Hsl4.
  match goal with |- context [header_filters ?x] => set (s5 := x) end.
  destruct (header_filters_ok s5) as (ret & s6 & -> & Hne & Hok); try done; try (simpl; unfold TEMP_SIZE; lia).
  exists ret, s6. split; [done|]. split; [done|]. intros Hret. destruct (Hok Hret) as (props & l & o & Hpr & Hre & Hinv & Hp6 & -> & Hsl6).
  simpl in Hp6, Hsl6. set (f := mk_bf fc fu props (Z.to_nat (t_size t - 4 - (p4 + 3)))).
  assert (Hhead : slice (t_buf t) 0 (t_size t - 4) = tb s 0 :: header_fields f).
  { replace (t_size t - 4) with (2 + ((p2 - 2) + ((p4 - p2) + (t_size t - 4 - p4)))) by lia.
    rewrite !slice_app by lia. rewrite (slice_two _ _ _ _ H0 H1). rewrite (Hfl H3f). unfold header_fields, f; simpl.
    change (tb s1 1) with (tb s 1) in *. change (tb s3 1) with (tb s 1) in *. rewrite Hcfl, Hufl.
    change (0 + 2) with 2. replace (2 + (p2 - 2)) with p2 by lia. replace (p2 + (p4 - p2)) with p4 by lia.
    rewrite Hsl2, Hsl4, Hsl6. done. }
  exists f, l, o, w4. split_and!; try done.
  - unfold header_size. apply (f_equal zlength) in Hhead. rewrite zlength_slice, zlength_cons in Hhead by lia. lia.
  - replace (t_size t) with (t_size t - 4 + 4) at 1 by lia. rewrite slice_app by lia. rewrite Z.add_0_l. unfold with_crc.
    rewrite <- Hhead at 1 2. f_equal. by apply (get_le32_split _ _ _ Hb); try lia.
  - unfold header_read. subst c u. done.
Qed.
End Pieces.
