(* ===== verification/XzStreamIndex.v ===== *)
(** * XzStreamIndex: decoding a Block and the Index

    [dec_block] keeps the sizes, the check and the hash in step with the data
    decoded so far; [dec_index] accepts only the fields of an Index. *)
From Stdlib Require Import ZArith Lia Bool.
From stdpp Require Import base list list_numbers.
From S2P Require Import Prelude PolicyFile Mem XzCrc32 XzDict XzLzma2 XzLzma2Thms XzStream XzVli XzFormat XzStreamPieces.

Lemma slice_put_out out p bs :
  0 <= p -> p + zlength bs <= zlength out -> slice (put_out out p bs) p (zlength bs) = bs.
Proof.
  intros Hp Hl. unfold put_out, slice. assert (Hz : zlength (ztake p out) = p).
  { unfold ztake, zlength in *. rewrite length_take. lia. }
  rewrite <- Hz at 1. by rewrite zdrop_app, ztake_app.
Qed.

(** The running value of the Check of a Block. *)
Definition check_value (ck : Z) (out : list Z) : Z := if ck =? XZ_CHECK_CRC32 then xz_crc32 out 0 else 0.

Section Blocks.
Context {T : Type} `{BlockLaws T}.
Implicit Types s : xz_dec T.

(** ** Blocks *)

(** The decoder inside a Block with header [f], of which it has taken [data]
    and written [out]. *)
Definition in_block s (f : block_fields) (data out : list Z) : Prop :=
  size_ok (bf_compressed f) /\ size_ok (bf_uncompressed f) /\
  x_header s = mk_bh (default VLI_UNKNOWN (bf_compressed f)) (default VLI_UNKNOWN (bf_uncompressed f)) (header_size f) /\
  bd_trace (bf_props f) XZ_OK (x_lzma2 s) data out /\ bd_inv (x_lzma2 s) /\
  bl_compressed (x_block s) = u64 (zlength data) /\ bl_uncompressed (x_block s) = u64 (zlength out) /\
  x_crc s = check_value (check_type s) out.

(** [s'] is [s] after a call of [dec_block]. *)
Definition block_call s s' : Prop :=
  s' = set_block (set_crc (set_block_dec (set_starts s (x_in_start s') (x_out_start s')) (x_lzma2 s') (x_mem s)) (x_crc s')) (x_block s').

Lemma size_check (v : option Z) (n : Z) :
  size_ok v -> negb (default VLI_UNKNOWN v =? VLI_UNKNOWN) && negb (default VLI_UNKNOWN v =? n) = false ->
  forall x, v = Some x -> x = n.
Proof. unfold VLI_UNKNOWN. intros Hv Hc x ->. simpl in *. lia. Qed.

Lemma check_value_app ck out bs :
  (if ck =? XZ_CHECK_CRC32 then xz_crc32 bs (check_value ck out) else check_value ck out) = check_value ck (out ++ bs).
Proof. unfold check_value. destruct (ck =? XZ_CHECK_CRC32); [by rewrite xz_crc32_app|done]. Qed.

Lemma block_record_sum ck f data out h :
  (if ck =? XZ_CHECK_CRC32 then u64 (u64 (h + u64 (header_size f + u64 (zlength data))) + 4)
   else u64 (h + u64 (header_size f + u64 (zlength data)))) =
  u64 (h + (block_record ck (mk_xb f data out)).1).
Proof.
  unfold block_record; simpl. unfold check_image. destruct (ck =? XZ_CHECK_CRC32).
  - rewrite zlength_le_split, wrap_wrap_add, !wrap_add_wrap by lia.
    replace (h + u64 (header_size f + zlength data) + 4) with (h + 4 + u64 (header_size f + zlength data)) by lia.
    rewrite wrap_add_wrap by lia. f_equal. lia.
  - rewrite !(wrap_add_wrap 64 (header_size f)), !wrap_add_wrap by lia. change (zlength ([] : list Z)) with 0. f_equal. lia.
Qed.

Lemma dec_block_ok s b f data out :
  in_block s f data out -> buf_ok b ->
  exists ret s' b' bs, dec_block s b = Some (ret, s', b') /\ buf_ok b' /\ in_pos b <= in_pos b' /\ output b b' bs /\
    (ret = XZ_OK -> stalled b' /\ block_call s s' /\ in_block s' f (data ++ took b b') (out ++ bs) /\
       bl_count (x_block s') = bl_count (x_block s) /\ bl_hash (x_block s') = bl_hash (x_block s)) /\
    (ret = XZ_STREAM_END -> exists k, k = mk_xb f (data ++ took b b') (out ++ bs) /\ block_call s s' /\
       bd_trace (bf_props f) XZ_STREAM_END (x_lzma2 s') (xb_data k) (xb_out k) /\ bd_inv (x_lzma2 s') /\
       (forall v, bf_compressed f = Some v -> v = u64 (zlength (xb_data k))) /\
       (forall v, bf_uncompressed f = Some v -> v = u64 (zlength (xb_out k))) /\
       bl_compressed (x_block s') = u64 (zlength (xb_data k)) /\ x_crc s' = check_value (check_type s) (xb_out k) /\
       bl_count (x_block s') = u64 (bl_count (x_block s) + 1) /\
       bl_hash (x_block s') = add_record (bl_hash (x_block s)) (block_record (check_type s) k)).
Proof.
  intros (Hfc & Hfu & Hh & Htr & Hinv & Hc & Hu & Hcrc) Hb. unfold dec_block.
  destruct (bd_run_ok (x_lzma2 s) b Hinv Hb) as (ret & l & b' & bs & Hrun & Hb' & Hip & Ho & Hgood & Hst).
  cbn [x_lzma2 set_starts]. rewrite Hrun. cbn [x_block set_block_dec set_starts x_in_start x_out_start check_type x_header set_block x_crc x_mem].
  pose proof Ho as (Hbi & His & Hos & Hop & Hbo). pose proof Hb as (_ & _ & _ & Hop0 & Hos0 & _). pose proof Hb' as (Hip' & His' & _ & Hop' & Hos' & _).
  pose proof (zlength_nonneg bs) as Hbsl.
  assert (Hci : u64 (bl_compressed (x_block s) + (in_pos b' - in_pos b)) = u64 (zlength (data ++ took b b'))).
  { rewrite Hc, wrap_wrap_add, zlength_app, zlength_took by (done || lia). done. }
  assert (Hui : u64 (bl_uncompressed (x_block s) + (out_pos b' - out_pos b)) = u64 (zlength (out ++ bs))).
  { rewrite Hu, wrap_wrap_add, zlength_app by lia. f_equal. lia. }
  rewrite Hci, Hui, Hh. cbn [bl_compressed bl_uncompressed bl_count bl_hash bh_compressed bh_uncompressed bh_size].
  destruct (_ || _); [by do 4 eexists|].
  assert (Hnew : sub_buf (b_out b') (out_pos b) (out_pos b' - out_pos b) = Some bs).
  { replace (out_pos b' - out_pos b) with (zlength bs) by lia.
    rewrite sub_buf_ok by lia. rewrite Hbo. rewrite slice_put_out by lia. done. }
  assert (Htr' : bd_trace (bf_props f) ret l (data ++ took b b') (out ++ bs)) by (by eapply trace_run).
  rewrite Hnew. set (k := mk_bl _ _ _ _). set (s1 := set_block (set_block_dec _ _ _) k).
  assert (Hcrc' : (if check_type s =? XZ_CHECK_CRC32 then Some (set_crc s1 (xz_crc32 bs (x_crc s))) else Some s1) =
     Some (set_crc s1 (check_value (check_type s) (out ++ bs)))).
  { rewrite <- check_value_app, <- Hcrc. by destruct (check_type s =? XZ_CHECK_CRC32). }
  rewrite Hcrc'. clear Hcrc'.
  case_bool_decide as Hret.
  2:{ eexists ret, _, b', bs. do 4 (split; [done|]). split; [|done]. intros Hok. subst ret.
      split_and!; try done; auto. split_and!; try done; auto. }
  subst ret. cbn [bh_compressed bh_uncompressed].
  destruct (negb (default VLI_UNKNOWN (bf_compressed f) =? VLI_UNKNOWN) && _) eqn:Hcc; [by do 4 eexists|].
  destruct (negb (default VLI_UNKNOWN (bf_uncompressed f) =? VLI_UNKNOWN) && _) eqn:Hcu; [by do 4 eexists|].
  eexists XZ_STREAM_END, _, b', bs. split; [done|]. split_and!; try done. intros _.
  eexists. split; [done|]. cbn [xb_data xb_out]. split_and!; try done; auto.
  - by apply size_check.
  - by apply size_check.
  - simpl. unfold add_record. f_equal. f_equal.
    by rewrite <- (block_record_sum (check_type s) f _ (out ++ bs)).
Qed.
(** ** The Index *)

Definition record_ok (r : Z * Z) : Prop := 0 <= r.1 < 2 ^ 63 /\ 0 <= r.2 < 2 ^ 63.

(** The fields read when [recs] are complete, the Number of Records being
    [n]. *)
Definition index_prefix (n : Z) (recs : list (Z * Z)) : list Z := 0 :: vli_bytes n ++ concat (record_bytes <$> recs).

(** The decoder inside the Index, of which it has taken [idx]: the records
    [recs] and the bytes [bs] of the next number. *)
Definition index_at s (idx : list Z) (recs : list (Z * Z)) (bs : list Z) : Prop :=
  let i := x_index s in
  let n := bl_count (x_block s) in
  Forall record_ok recs /\ partial bs /\ x_pos s = 7 * zlength bs /\ (bs <> [] -> x_vli s = vli_val bs) /\
  match ix_sequence i with
  | SEQ_INDEX_COUNT => recs = [] /\ idx = 0 :: bs /\ ix_hash i = zero_hash
  | SEQ_INDEX_UNPADDED =>
      0 <= n < 2 ^ 63 /\ idx = index_prefix n recs ++ bs /\ ix_count i = n - zlength recs /\ zlength recs < n /\
      ix_hash i = records_hash recs
  | SEQ_INDEX_UNCOMPRESSED =>
      0 <= n < 2 ^ 63 /\ ix_count i = n - zlength recs /\ zlength recs < n /\
      exists u, 0 <= u < 2 ^ 63 /\ idx = index_prefix n recs ++ vli_bytes u ++ bs /\
        let h := records_hash recs in
        ix_hash i = mk_hash (u64 (h_unpadded h + u)) (h_uncompressed h) (h_crc32 h)
  end.

Definition in_index s (idx : list Z) : Prop := exists recs bs, index_at s idx recs bs.

(** The Index fields are complete. *)
Definition index_read s (idx : list Z) : Prop :=
  exists recs, Forall record_ok recs /\ zlength recs = bl_count (x_block s) /\ idx = index_fields recs /\ x_pos s = 0 /\
    ix_hash (x_index s) = records_hash recs.

(** Only the Index part of the state changed, its size not. *)
Definition index_call s s' : Prop :=
  s' = set_index (set_vli s (x_pos s') (x_vli s')) (x_index s') /\ ix_size (x_index s') = ix_size (x_index s).

Lemma index_call_refl s : index_call s s.
Proof. by destruct s. Qed.

Lemma index_call_trans s1 s2 s3 : index_call s1 s2 -> index_call s2 s3 -> index_call s1 s3.
Proof. intros [H1 E1] [H2 E2]. split; [rewrite H2 at 1; rewrite H1 at 1; done|congruence]. Qed.

Lemma records_snoc recs r : concat (record_bytes <$> (recs ++ [r])) = concat (record_bytes <$> recs) ++ record_bytes r.
Proof. rewrite fmap_app, concat_app. simpl. by rewrite app_nil_r. Qed.

Lemma partial_nil : partial [].
Proof. split; [constructor|done]. Qed.

Lemma index_update_ok s b :
  0 <= x_in_start s <= in_pos b -> buf_ok b ->
  index_update s b = Some (set_crc
    (set_index s (mk_ix (ix_sequence (x_index s)) (u64 (ix_size (x_index s) + (in_pos b - x_in_start s)))
       (ix_count (x_index s)) (ix_hash (x_index s))))
    (xz_crc32 (slice (b_in b) (x_in_start s) (in_pos b - x_in_start s)) (x_crc s))).
Proof. intros Hs (? & ? & _). unfold index_update. by rewrite sub_buf_ok by lia. Qed.

(** The number goes on in the next piece of input. *)
Lemma index_at_more s idx recs bs new :
  index_at s idx recs bs -> partial (bs ++ new) ->
  index_at (set_vli s (7 * zlength (bs ++ new)) (vli_val (bs ++ new))) (idx ++ new) recs (bs ++ new).
Proof.
  intros (Hr & _ & _ & _ & Hm) Hp. split_and!; try done. xcbn. destruct (ix_sequence (x_index s)).
  - destruct Hm as (-> & -> & ->). done.
  - destruct Hm as (? & -> & ? & ? & ?). split_and!; try done; try lia. by rewrite app_assoc.
  - destruct Hm as (? & ? & ? & u & Hu & -> & ?). split_and!; try done; try lia. exists u. split_and!; try done; try lia.
    by rewrite <- !app_assoc.
Qed.

(** What [dec_index] gives. *)
Definition index_result s (idx : list Z) (b : xz_buf) (ret : xz_ret) s' (b' : xz_buf) : Prop :=
  match ret with
  | XZ_OK => exists s1, index_update s1 b' = Some s' /\ index_call s s1 /\ in_index s1 (idx ++ took b b') /\
               in_pos b' = in_size b
  | XZ_STREAM_END => index_call s s' /\ index_read s' (idx ++ took b b')
  | XZ_DATA_ERROR => True
  | _ => False
  end.

Lemma index_result_trans s idx b s1 b1 ret s' b' :
  buf_ok b -> in_frame b b1 -> in_frame b1 b' -> index_call s s1 ->
  index_result s1 (idx ++ took b b1) b1 ret s' b' -> index_result s idx b ret s' b'.
Proof.
  intros Hb H1 H2 Hc Hr. unfold index_result in *. rewrite (took_frame _ _ _ Hb H1 H2), app_assoc.
  rewrite (proj1 (in_frame_lt _ _ H1)) in Hr. destruct ret; try done.
  - destruct Hr as (s2 & ? & ? & ? & ?). exists s2. split_and!; try done. by eapply index_call_trans.
  - destruct Hr. split; [by eapply index_call_trans|done].
Qed.

Lemma dec_index_loop_ok fuel s b idx recs bs :
  index_at s idx recs bs -> buf_ok b -> 0 <= x_in_start s <= in_pos b -> in_size b - in_pos b < Z.of_nat fuel ->
  exists ret s' b', dec_index_loop fuel s b = Some (ret, s', b') /\ in_frame b b' /\ index_result s idx b ret s' b'.
Proof.
  revert s b idx recs bs. induction fuel as [|fuel IH]; intros s b idx recs bs Hat Hb Hin Hf; [destruct Hb; lia|].
  cbn [dec_index_loop]. unfold dec_vli. pose proof Hat as (Hrecs & Hpart & Hpos & Hvli & Hm). rewrite Hpos.
  pose proof Hb as (Hip & His & Hbytes & _).
  destruct (dec_vli_ok (b_in b) (in_pos b) (in_size b) bs (x_vli s)) as (r & p & pos & vli & -> & Hp & Hprog & Hr); try done; try lia.
  set (b1 := set_in_pos b p). assert (Hfr : in_frame b b1) by (split; simpl; [done|lia]).
  assert (Hb1 : buf_ok b1) by (by eapply in_frame_buf). change (slice (b_in b) (in_pos b) (p - in_pos b)) with (took b b1) in Hr.
  destruct (bool_decide (r = XZ_STREAM_END)) eqn:Hend; cbn [negb].
  2:{ rewrite index_update_ok by (simpl; (done || lia)). eexists r, _, b1. split; [done|]. split; [done|].
      destruct r; try done; simpl in Hr. destruct Hr as (Hw & -> & -> & Hp').
      exists (set_vli s (7 * zlength (bs ++ took b b1)) (vli_val (bs ++ took b b1))).
      split; [by rewrite index_update_ok by (simpl; (done || lia))|]. split; [by destruct s|].
      split; [|simpl; lia]. exists recs, (bs ++ took b b1). by apply index_at_more. }
  apply bool_decide_eq_true in Hend as ->. destruct Hr as (-> & Hv & He).
  assert (Hlt : in_pos b < in_size b).
  { destruct (Z.eq_dec (in_pos b) (in_size b)); [|lia]. assert (p = in_pos b) as -> by lia.
    unfold b1, took in He; simpl in He. rewrite Z.sub_diag, slice_0, app_nil_r in He. subst bs. destruct Hpart as [Hmore _].
    destruct (last_ends vli (vli_bytes vli) [] Hv Hmore). by rewrite app_nil_r. }
  assert (Hf' : in_size b1 - in_pos b1 < Z.of_nat fuel) by (simpl; lia).
  assert (Hgo : forall s1 idx1 recs1, index_at s1 idx1 recs1 [] -> idx1 = idx ++ took b b1 -> index_call s s1 ->
     x_in_start s1 = x_in_start s ->
     exists ret s' b', dec_index_loop fuel s1 b1 = Some (ret, s', b') /\ in_frame b b' /\ index_result s idx b ret s' b').
  { intros s1 idx1 recs1 Hat1 -> Hc Hst. destruct (IH s1 b1 _ recs1 [] Hat1 Hb1) as (ret & s' & b' & Hl & Hfr' & Hres);
      [rewrite Hst; simpl; lia|done|]. exists ret, s', b'. split; [done|]. split; [by eapply in_frame_trans|].
    by eapply index_result_trans. }
  assert (Hdone : forall s1, index_call s s1 -> index_read s1 (idx ++ took b b1) ->
     exists ret s' b', Some (XZ_STREAM_END, s1, b1) = Some (ret, s', b') /\ in_frame b b' /\ index_result s idx b ret s' b').
  { intros s1 Hc Hrd. by exists XZ_STREAM_END, s1, b1. }
  xcbn. destruct (ix_sequence (x_index s)) eqn:Hseq; xcbn.
  - destruct Hm as (-> & -> & Hh). destruct (Z.eqb_spec vli (bl_count (x_block s))) as [Hn|]; cbn [negb].
    2:{ by eexists XZ_DATA_ERROR, _, b1. }
    assert (Hidx : (0 :: bs) ++ took b b1 = index_prefix vli []) by (unfold index_prefix; simpl; by rewrite He, app_nil_r).
    rewrite Hidx in *. destruct (Z.ltb_spec 0 vli).
    + apply (Hgo _ (index_prefix vli []) []); [|done|by destruct s|done].
      split; [done|]. split; [apply partial_nil|]. do 2 (split; [done|]).
      xcbn. rewrite <- Hn, app_nil_r. change (zlength ([] : list (Z * Z))) with 0. split_and!; try done; lia.
    + apply Hdone; [by destruct s|]. exists []. xcbn. change (zlength ([] : list (Z * Z))) with 0. split_and!; try done; [lia|].
      unfold index_prefix, index_fields. change (zlength ([] : list (Z * Z))) with 0. by replace vli with 0 by lia.
  - destruct Hm as (Hn & -> & Hcnt & Hlt' & Hh). replace (0 <? ix_count (x_index s)) with true by lia.
    apply (Hgo _ ((index_prefix (bl_count (x_block s)) recs ++ bs) ++ took b b1) recs); [|done|by destruct s|done].
    split; [done|]. split; [apply partial_nil|]. do 2 (split; [done|]). xcbn. split_and!; try done; try lia.
    exists vli. split; [done|]. split; [by rewrite app_nil_r, <- app_assoc, He|by rewrite Hh].
  - destruct Hm as (Hn & Hcnt & Hlt' & u & Hu & -> & Hh). pose proof (zlength_nonneg recs).
    assert (Hw : u64 (ix_count (x_index s) - 1) = bl_count (x_block s) - zlength (recs ++ [(u, vli)])).
    { rewrite zlength_app. change (zlength [(u, vli)]) with 1. rewrite wrap_small by (unfold in_range; lia). lia. }
    assert (Hidx : (index_prefix (bl_count (x_block s)) recs ++ vli_bytes u ++ bs) ++ took b b1 =
       index_prefix (bl_count (x_block s)) (recs ++ [(u, vli)])).
    { unfold index_prefix. rewrite records_snoc. unfold record_bytes at 3. simpl. rewrite <- !app_assoc. by rewrite He. }
    assert (Hrecs' : Forall record_ok (recs ++ [(u, vli)])) by (apply Forall_app; split; [done|by apply Forall_singleton]).
    rewrite Hidx, Hw, Hh in *. destruct (Z.ltb_spec 0 (bl_count (x_block s) - zlength (recs ++ [(u, vli)]))).
    + apply (Hgo _ (index_prefix (bl_count (x_block s)) (recs ++ [(u, vli)])) (recs ++ [(u, vli)])); [|done|by destruct s|done].
      split; [done|]. split; [apply partial_nil|]. do 2 (split; [done|]). xcbn. rewrite app_nil_r, records_hash_snoc. split_and!; try done; lia.
    + apply Hdone; [by destruct s|]. exists (recs ++ [(u, vli)]). rewrite zlength_app in *.
      change (zlength [(u, vli)]) with 1 in *. xcbn. split_and!; try done.
      * lia.
      * unfold index_prefix, index_fields. rewrite zlength_app. change (zlength [(u, vli)]) with 1.
        by replace (zlength recs + 1) with (bl_count (x_block s)) by lia.
      * by rewrite records_hash_snoc.
Qed.

Lemma dec_index_ok s b idx :
  in_index s idx -> buf_ok b -> 0 <= x_in_start s <= in_pos b ->
  exists ret s' b', dec_index s b = Some (ret, s', b') /\ in_frame b b' /\ index_result s idx b ret s' b'.
Proof. intros (recs & bs & Hat) Hb Hin. eapply dec_index_loop_ok; try done. destruct Hb. lia. Qed.
End Blocks.
