(* ===== verification/XzStreamThms.v ===== *)
(** * XzStreamThms: the stream decoder accepts only .xz Streams

    The state of the decoder between two calls of [xz_dec_run] describes the
    bytes taken and written since the last reset ([run_inv]); every step of
    [dec_main] keeps this, so when the decoder reports the end of the Stream
    the bytes it took are the image of a Stream and what it wrote are the
    contents of its Blocks. *)
From Stdlib Require Import ZArith Lia Bool.
From stdpp Require Import base list list_numbers.
From S2P Require Import Prelude PolicyFile Mem XzCrc32 XzDict XzLzma2 XzLzma2Thms XzStream XzVli XzFormat XzStreamPieces XzStreamIndex.

Section Run.
Context {T : Type} `{BlockLaws T}.
Implicit Types s : xz_dec T.

(** ** The invariant *)

(** The Blocks [blks] are complete. *)
Definition blocks_done s (ck : Z) (blks : list xz_block) : Prop :=
  (ck = 0 \/ ck = XZ_CHECK_CRC32) /\ check_type s = ck /\ Forall block_ok blks /\
  bl_count (x_block s) = u64 (zlength blks) /\ bl_hash (x_block s) = records_hash (block_record ck <$> blks).

Definition before (ck : Z) (blks : list xz_block) : list Z := stream_header ck ++ blocks_image ck blks.

Definition fresh_index s : Prop := x_index s = mk_ix SEQ_INDEX_COUNT 0 0 zero_hash.

(** Between Blocks. *)
Definition at_block s (ck : Z) (blks : list xz_block) (o : list Z) : Prop :=
  x_pos s = 0 /\ x_crc s = 0 /\ fresh_index s /\ blocks_done s ck blks /\ o = contents blks.

(** The Index bytes [old] are in [index.size] and the CRC32. *)
Definition index_sum s (old : list Z) : Prop :=
  ix_size (x_index s) = u64 (zlength old) /\ x_crc s = xz_crc32 old 0.

(** The bytes [c] were taken and [o] written since the reset; [f] are the
    latest of the Index bytes, which [index_update] has not counted yet. *)
Definition x_inv s (c o f : list Z) : Prop :=
  let t := x_temp s in
  temp_ok t /\ bd_ready (x_lzma2 s) /\ in_range 32 (x_crc s) /\
  match x_sequence s with
  | SEQ_STREAM_HEADER =>
      t_size t = STREAM_HEADER_SIZE /\ 0 <= t_pos t < STREAM_HEADER_SIZE /\ c = slice (t_buf t) 0 (t_pos t) /\ o = [] /\
      x_pos s = 0 /\ x_crc s = 0 /\ fresh_index s /\ x_block s = mk_bl 0 0 0 zero_hash
  | SEQ_BLOCK_START => t_pos t = 0 /\ exists ck blks, at_block s ck blks o /\ c = before ck blks
  | SEQ_BLOCK_HEADER =>
      8 <= t_size t <= TEMP_SIZE /\ t_size t mod 4 = 0 /\ 0 <= t_pos t < t_size t /\ bh_size (x_header s) = t_size t /\
      (0 < t_pos t -> rd (t_buf t) 0 = Some (t_size t / 4 - 1)) /\
      exists ck blks, at_block s ck blks o /\ c = before ck blks ++ slice (t_buf t) 0 (t_pos t)
  | SEQ_BLOCK_UNCOMPRESS =>
      t_pos t = 0 /\ x_pos s = 0 /\ fresh_index s /\
      exists ck blks f data out, blocks_done s ck blks /\ fields_ok f /\ in_block s f data out /\
        c = before ck blks ++ header_image f ++ data /\ o = contents blks ++ out
  | SEQ_BLOCK_PADDING =>
      t_pos t = 0 /\ x_pos s = 0 /\ fresh_index s /\
      exists ck blks k z, blocks_done s ck (blks ++ [k]) /\ x_crc s = check_value ck (xb_out k) /\
        0 <= z <= - zlength (xb_data k) mod 4 /\ bl_compressed (x_block s) = u64 (zlength (xb_data k) + z) /\
        c = before ck blks ++ header_image (xb_header k) ++ xb_data k ++ replicate (Z.to_nat z) 0 /\
        o = contents (blks ++ [k])
  | SEQ_BLOCK_CHECK =>
      t_pos t = 0 /\ fresh_index s /\
      exists ck blks k j, blocks_done s ck (blks ++ [k]) /\ x_crc s = check_value ck (xb_out k) /\
        x_pos s = 8 * j /\ 0 <= j < 4 /\ (ck = 0 -> j = 0) /\
        c = before ck blks ++ header_image (xb_header k) ++ xb_data k ++ pad4 (zlength (xb_data k)) ++
              ztake j (le_split 4 (x_crc s)) /\
        o = contents (blks ++ [k])
  | SEQ_INDEX =>
      t_pos t = 0 /\ exists ck blks old, blocks_done s ck blks /\ in_index s (old ++ f) /\ index_sum s old /\
        c = before ck blks ++ old ++ f /\ o = contents blks
  | SEQ_INDEX_PADDING =>
      t_pos t = 0 /\ x_pos s = 0 /\
      exists ck blks recs old z, blocks_done s ck blks /\ Forall record_ok recs /\ zlength recs = bl_count (x_block s) /\
        ix_hash (x_index s) = records_hash recs /\ index_sum s old /\ 0 <= z <= - zlength (index_fields recs) mod 4 /\
        old ++ f = index_fields recs ++ replicate (Z.to_nat z) 0 /\ c = before ck blks ++ old ++ f /\ o = contents blks
  | SEQ_INDEX_CRC32 =>
      t_pos t = 0 /\
      exists ck blks recs j, stream_ok ck blks recs /\ check_type s = ck /\ index_sum s (index_padded recs) /\
        x_pos s = 8 * j /\ 0 <= j < 4 /\
        c = before ck blks ++ index_padded recs ++ ztake j (le_split 4 (x_crc s)) /\ o = contents blks
  | SEQ_STREAM_FOOTER =>
      t_size t = STREAM_HEADER_SIZE /\ 0 <= t_pos t < STREAM_HEADER_SIZE /\
      exists ck blks recs, stream_ok ck blks recs /\ check_type s = ck /\
        ix_size (x_index s) = u64 (zlength (index_padded recs)) /\
        c = before ck blks ++ with_crc (index_padded recs) ++ slice (t_buf t) 0 (t_pos t) /\ o = contents blks
  end.

Definition in_the_index (q : xz_seq) : bool := match q with SEQ_INDEX | SEQ_INDEX_PADDING => true | _ => false end.

(** During [dec_main]: [b] are the buffers. *)
Definition loop_inv s (b : xz_buf) (c o : list Z) : Prop :=
  exists f, x_inv s c o f /\
    (in_the_index (x_sequence s) = true ->
       0 <= x_in_start s <= in_pos b /\ f = slice (b_in b) (x_in_start s) (in_pos b - x_in_start s)) /\
    (x_sequence s = SEQ_BLOCK_HEADER -> t_pos (x_temp s) = 0 ->
       rd (b_in b) (in_pos b) = Some (t_size (x_temp s) / 4 - 1)).

(** Between two calls. *)
Definition run_inv s (c o : list Z) : Prop :=
  x_inv s c o [] /\ (x_sequence s = SEQ_BLOCK_HEADER -> 0 < t_pos (x_temp s)).

(** [c] is a Stream and [o] its contents. *)
Definition accepted (c o : list Z) : Prop :=
  exists ck blks recs, stream_ok ck blks recs /\ c = stream_image ck blks recs /\ o = contents blks.

(** ** Steps *)

Definition rank (q : xz_seq) : Z :=
  match q with
  | SEQ_STREAM_HEADER => 3 | SEQ_BLOCK_START => 2 | SEQ_BLOCK_HEADER => 1 | SEQ_BLOCK_UNCOMPRESS => 5
  | SEQ_BLOCK_PADDING => 4 | SEQ_BLOCK_CHECK => 3 | SEQ_INDEX => 8 | SEQ_INDEX_PADDING => 7 | SEQ_INDEX_CRC32 => 6
  | SEQ_STREAM_FOOTER => 5
  end.

Definition measure s (b : xz_buf) : Z := 16 * (in_size b - in_pos b) + rank (x_sequence s).

Definition step_out s (b : xz_buf) (c o : list Z) (ret : option xz_ret) s' (b' : xz_buf) (bs : list Z) : Prop :=
  match ret with
  | None => loop_inv s' b' (c ++ took b b') (o ++ bs) /\ measure s' b' < measure s b /\ allow_buf_error s' = allow_buf_error s
  | Some XZ_OK => run_inv s' (c ++ took b b') (o ++ bs) /\ stalled b' /\ allow_buf_error s' = allow_buf_error s
  | Some XZ_STREAM_END => accepted (c ++ took b b') (o ++ bs)
  | _ => True
  end.

Definition xstep_ok s (b : xz_buf) (c o : list Z) (res : option (option xz_ret * xz_dec T * xz_buf)) : Prop :=
  exists ret s' b' bs, res = Some (ret, s', b') /\ buf_ok b' /\ in_pos b <= in_pos b' /\ output b b' bs /\
    step_out s b c o ret s' b' bs.

(** A step that writes nothing. *)
Lemma quiet_step s b c o ret s' b' :
  buf_ok b -> in_frame b b' -> step_out s b c o ret s' b' [] -> xstep_ok s b c o (Some (ret, s', b')).
Proof.
  intros Hb Hf Ho. exists ret, s', b', []. split; [done|]. split; [by eapply in_frame_buf|]. split; [apply Hf|].
  split; [by apply in_frame_output|done].
Qed.
Lemma stalled_frame b b' : in_frame b b' -> in_pos b' = in_size b -> stalled b'.
Proof. intros Hf He. left. rewrite (proj1 (in_frame_lt _ _ Hf)). done. Qed.

Lemma measure_frame s b s' b' :
  in_frame b b' -> rank (x_sequence s') < rank (x_sequence s) \/ in_pos b < in_pos b' -> measure s' b' < measure s b.
Proof.
  intros Hf. pose proof (proj1 (in_frame_lt _ _ Hf)). destruct Hf as [_ ?]. unfold measure.
  destruct (x_sequence s), (x_sequence s'); simpl; lia.
Qed.

Lemma step_stream_header s b c o :
  loop_inv s b c o -> buf_ok b -> x_sequence s = SEQ_STREAM_HEADER -> xstep_ok s b c o (dec_step s b).
Proof.
  intros (f & (Ht & Hrd & Hcr & Hm) & _) Hb Hq. unfold dec_step. rewrite Hq in *.
  destruct Hm as (Hts & Htp & -> & -> & Hpos & Hcrc & Hix & Hbl).
  destruct (fill_temp_ok s b) as (full & b' & buf & -> & Hfr & Hl & Hbb & _ & Hsl & Hfull); try done; try (rewrite Hts; done || lia).
  destruct full.
  - set (s1 := set_xseq _ _). pose proof (dec_stream_header_ok s1 (conj Hl Hbb)) as Hdec.
    destruct (dec_stream_header s1) as [ret s2]. destruct Hdec as [Hne Hok]. apply quiet_step; try done. case_bool_decide as Hret.
    + subst ret. destruct (Hok eq_refl) as (ck & Hck & -> & Himg). unfold step_out. rewrite app_nil_l.
      split; [|split; [by apply measure_frame; [done|left; rewrite Hq]|done]]. exists []. split; [|done].
      subst s1. unfold x_inv. xcbn. split; [by split|]. do 2 (split; [done|]). split; [done|]. exists ck, [].
      unfold at_block, blocks_done, fresh_index. xcbn. rewrite Hbl. split_and!; try done.
      rewrite <- Hsl, Hfull, Hts. unfold before. rewrite app_nil_r. exact Himg.
    + unfold step_out. destruct ret; try done.
  - destruct Hfull as [He Hlt]. apply quiet_step; try done. unfold step_out, run_inv, x_inv. xcbn. rewrite Hq.
    split; [|split; [by eapply stalled_frame|done]]. split; [|done].
    split_and!; try done; try lia. destruct Hfr; lia.
Qed.
Lemma step_block_start s b c o :
  loop_inv s b c o -> buf_ok b -> x_sequence s = SEQ_BLOCK_START -> xstep_ok s b c o (dec_step s b).
Proof.
  intros (f & (Ht & Hrd & Hcr & Hm) & _) Hb Hq. unfold dec_step. rewrite Hq in *.
  destruct Hm as (Htp & ck & blks & Hat & ->). destruct (Z.eqb_spec (in_pos b) (in_size b)) as [He|Hne].
  { apply quiet_step; [done|by apply in_frame_refl|]. unfold step_out, run_inv, x_inv. rewrite Hq, took_refl, !app_nil_r.
    split_and!; try done; [by exists ck, blks|by left]. }
  destruct (in_frame_step b Hb Hne) as (x & Hx & Hxr & Hfr & Htk). rewrite Hx. unfold in_range in Hxr. change (2 ^ 8) with 256 in Hxr.
  destruct Hat as (Hpos & Hcrc & Hix & Hdone & ->).
  destruct (Z.eqb_spec x 0) as [->|Hxz].
  - apply quiet_step; try done. unfold step_out. rewrite app_nil_r. split; [|split; [apply measure_frame; [done|right; simpl; lia]|done]].
    exists [0]. split.
    + unfold x_inv. xcbn. do 3 (split; [done|]). split; [done|]. exists ck, blks, []. rewrite Htk. split_and!; try done.
      * exists [], []. split; [done|]. split; [apply partial_nil|]. unfold fresh_index in Hix. xcbn. by rewrite Hix.
      * unfold index_sum. xcbn. unfold fresh_index in Hix. by rewrite Hix.
    + xcbn. split; [|done]. intros _. split; [destruct Hb; lia|]. by rewrite <- Htk.
  - apply quiet_step; [done|by apply in_frame_refl|]. unfold step_out. rewrite took_refl, !app_nil_r.
    rewrite (wrap_small 32 (x + 1)) by (unfold in_range; lia). rewrite wrap_small by (unfold in_range; lia).
    split; [|split; [apply measure_frame; [by apply in_frame_refl|left; rewrite Hq; done]|done]]. exists [].
    assert (Hx4 : (x + 1) * 4 / 4 - 1 = x) by (rewrite Z.div_mul by lia; lia). split.
    + unfold x_inv. xcbn. do 3 (split; [done|]). unfold TEMP_SIZE. split_and!; try done; try lia; [by apply Z.mod_mul|].
      exists ck, blks. rewrite slice_0, app_nil_r. done.
    + xcbn. split; [done|]. intros _ _. by rewrite Hx4.
Qed.

(** The first byte that [fill_temp] stored. *)
Lemma first_byte s b b' buf x :
  let t := x_temp s in
  temp_ok t -> buf_ok b -> in_frame b b' -> 0 <= t_pos t -> zlength buf = TEMP_SIZE ->
  t_pos t + (in_pos b' - in_pos b) <= TEMP_SIZE ->
  (0 < t_pos t -> rd (t_buf t) 0 = Some x) -> (t_pos t = 0 -> rd (b_in b) (in_pos b) = Some x) ->
  (in_pos b < in_size b -> in_pos b < in_pos b') ->
  slice buf 0 (t_pos t + (in_pos b' - in_pos b)) = slice (t_buf t) 0 (t_pos t) ++ took b b' ->
  0 < t_pos t + (in_pos b' - in_pos b) /\ rd buf 0 = Some x.
Proof.
  intros t [Hl _] Hb [_ Hfr] Hp Hbl Hle Hst Hpk Hprog Hsl. pose proof Hb as (_ & His & _).
  assert (Hpos : 0 < t_pos t + (in_pos b' - in_pos b)).
  { destruct (Z.eq_dec (t_pos t) 0) as [Hz|]; [|lia]. specialize (Hpk Hz). apply rd_some in Hpk. lia. }
  split; [done|]. pose proof (rd_slice buf 0 (t_pos t + (in_pos b' - in_pos b)) 0 ltac:(lia) ltac:(lia)) as Hr.
  replace (0 <? _) with true in Hr by lia. rewrite Z.add_0_r in Hr. rewrite <- Hr, Hsl.
  destruct (Z.eq_dec (t_pos t) 0) as [Hz|Hnz].
  - rewrite Hz, slice_0. cbn [app]. specialize (Hpk Hz). pose proof (rd_some _ _ _ Hpk).
    unfold took. rewrite rd_slice by lia. replace (0 <? _) with true by lia. by rewrite Z.add_0_r.
  - specialize (Hst ltac:(lia)). pose proof (rd_slice (t_buf t) 0 (t_pos t) 0 ltac:(lia) ltac:(lia)) as Hr'.
    replace (0 <? t_pos t) with true in Hr' by lia. rewrite Z.add_0_r, Hst in Hr'. unfold rd in *. simpl in *.
    rewrite lookup_app_l; [done|]. by eapply lookup_lt_Some.
Qed.
Lemma step_block_header s b c o :
  loop_inv s b c o -> buf_ok b -> x_sequence s = SEQ_BLOCK_HEADER -> xstep_ok s b c o (dec_step s b).
Proof.
  intros (f0 & (Ht & Hrd & Hcr & Hm) & _ & Hpeek) Hb Hq. unfold dec_step. rewrite Hq in *.
  destruct Hm as (Hts & Hmod & Htp & Hbh & Hst & ck & blks & (Hpos & Hcrc & Hix & Hdone & ->) & ->). specialize (Hpeek eq_refl).
  destruct (fill_temp_ok s b) as (full & b' & buf & -> & Hfr & Hl & Hbb & Hprog & Hsl & Hfull); try done; try lia.
  assert (Hle : t_pos (x_temp s) + (in_pos b' - in_pos b) <= t_size (x_temp s)) by (destruct full; [|destruct Hfull]; lia).
  destruct (first_byte s b b' buf (t_size (x_temp s) / 4 - 1)) as [Hgt Hfst]; try done; try lia.
  assert (Hadv : full = true -> in_pos b < in_pos b') by (intros ->; lia).
  destruct full.
  - destruct (dec_block_header_ok (set_xtemp s (mk_temp 0 (t_size (x_temp s)) buf))) as (ret & s2 & -> & Hne & Hok); try done.
    case_bool_decide as Hret.
    + subst ret. destruct (Hok eq_refl) as (f & l & o & w & Hfc & Hfu & Hfp & Hhs & Himg & Hre & Hinv & ->). xcbn in Himg. xcbn in Hhs.
      unfold tb in Himg. xcbn in Himg. rewrite Hfst in Himg. cbn [default] in Himg. rewrite <- Hhs in Himg at 2.
      change (with_crc ((header_size f / 4 - 1) :: header_fields f)) with (header_image f) in Himg.
      apply quiet_step; try done. unfold step_out. rewrite app_nil_r.
      split; [|split; [apply measure_frame; [done|right; auto]|done]]. exists []. split; [|done].
      unfold x_inv, header_read, header_done. xcbn. split; [by split|]. split; [by apply bd_inv_ready|]. split; [done|].
      do 3 (split; [done|]). exists ck, blks, f, [], []. destruct Hdone as (Hck & Hct & Hblk & Hcnt & Hhash). split_and!; try done.
      * unfold TEMP_SIZE in Hts. unfold fields_ok. rewrite Hhs. split_and!; try done; lia.
      * unfold in_block. xcbn. rewrite Hbh, <- Hhs. split_and!; try done; [by eapply trace_reset|].
        rewrite Hcrc. unfold check_value. by destruct (_ =? _).
      * rewrite !app_nil_r, <- app_assoc, <- Hsl, Hfull. by rewrite Himg.
      * by rewrite app_nil_r.
    + apply quiet_step; try done. unfold step_out. destruct ret; done.
  - destruct Hfull as [He Hlt]. apply quiet_step; try done. unfold step_out, run_inv, x_inv. xcbn. rewrite Hq, app_nil_r.
    split; [|split; [by eapply stalled_frame|done]]. split; [|lia].
    split; [by split|]. do 2 (split; [done|]). split_and!; try done; try lia. exists ck, blks. split; [done|].
    by rewrite Hsl, <- app_assoc.
Qed.

Lemma output_bytes b b' bs : buf_ok b -> buf_ok b' -> output b b' bs -> bytes_ok bs.
Proof.
  intros (_ & _ & _ & Hp & Hs & _) (_ & _ & _ & Hp' & Hs' & Hbo) (_ & _ & Ho & Hop & Hb). pose proof (zlength_nonneg bs).
  rewrite <- (slice_put_out (b_out b) (out_pos b) bs), <- Hb by lia. by apply slice_forall.
Qed.

Lemma check_value_range ck out bs :
  in_range 32 (check_value ck out) -> bytes_ok bs -> in_range 32 (check_value ck (out ++ bs)).
Proof.
  intros Hr Hb. rewrite <- check_value_app. destruct (ck =? XZ_CHECK_CRC32); [by apply xz_crc32_range|done].
Qed.

Lemma block_call_frame s s' :
  block_call s s' -> x_sequence s' = x_sequence s /\ x_temp s' = x_temp s /\ x_pos s' = x_pos s /\ x_index s' = x_index s /\
    check_type s' = check_type s /\ allow_buf_error s' = allow_buf_error s.
Proof. intros ->. done. Qed.

Lemma fresh_index_eq s s' : x_index s' = x_index s -> fresh_index s -> fresh_index s'.
Proof. unfold fresh_index. congruence. Qed.

Lemma step_uncompress s b c o :
  loop_inv s b c o -> buf_ok b -> x_sequence s = SEQ_BLOCK_UNCOMPRESS -> xstep_ok s b c o (dec_step s b).
Proof.
  intros (f0 & (Ht & Hrd & Hcr & Hm) & _) Hb Hq. unfold dec_step. rewrite Hq in *.
  destruct Hm as (Htp & Hpos & Hix & ck & blks & f & data & out & Hdone & Hf & Hin & -> & ->).
  pose proof Hdone as (Hck & Hct & Hblk & Hcnt & Hhash). pose proof Hin as (_ & _ & _ & _ & _ & _ & _ & Hcv).
  destruct (dec_block_ok s b f data out Hin Hb) as (ret & s' & b' & bs & -> & Hb' & Hip & Ho & Hok & Hend).
  pose proof (output_bytes _ _ _ Hb Hb' Ho) as Hbs. rewrite Hcv in Hcr. pose proof (check_value_range _ _ _ Hcr Hbs) as Hcr'.
  case_bool_decide as Hret.
  - subst ret. destruct (Hend eq_refl) as (k & -> & Hcall & Htr & Hinv & Hsc & Hsu & Hlen & Hcv' & Hcnt' & Hhash').
    destruct (block_call_frame _ _ Hcall) as (Eq & Et & Ep & Ei & Ec & Ea).
    eexists None, _, b', bs. split; [done|]. do 3 (split; [done|]). unfold step_out.
    split; [|split; [|done]].
    + exists []. split; [|done]. unfold x_inv. xcbn. rewrite Et. split; [done|]. split; [by apply bd_inv_ready|].
      rewrite Hcv'. split; [done|]. split; [done|]. split; [congruence|]. split; [by apply (fresh_index_eq s)|].
      exists ck, blks, (mk_xb f (data ++ took b b') (out ++ bs)), 0. cbn [xb_data xb_out xb_header]. split_and!; try done.
      * unfold blocks_done. xcbn. split_and!; try done; try congruence.
        -- apply Forall_app. split; [done|]. apply Forall_singleton. split_and!; try done. by exists (x_lzma2 s').
        -- rewrite Hcnt', Hcnt, wrap_wrap_add, zlength_app by lia. done.
        -- rewrite Hhash', Hhash, fmap_app, Hct. cbn [fmap list_fmap]. by rewrite records_hash_snoc.
      * by rewrite Hct.
      * by apply Z.mod_pos_bound.
      * by rewrite Z.add_0_r.
      * rewrite <- !app_assoc, app_nil_r. done.
      * rewrite contents_snoc. cbn [xb_out]. by rewrite <- !app_assoc.
    + destruct Ho as (_ & Hs & _). unfold measure. xcbn. rewrite Hq, Hs. simpl. lia.
  - eexists (Some ret), s', b', bs. split; [done|]. do 3 (split; [done|]). unfold step_out. destruct ret; try done.
    destruct (Hok eq_refl) as (Hstall & Hcall & Hin' & Hcnt' & Hhash').
    destruct (block_call_frame _ _ Hcall) as (Eq & Et & Ep & Ei & Ec & Ea). pose proof Hin' as (_ & _ & _ & _ & Hinv & _ & _ & Hcv').
    split; [|done]. split; [|congruence]. unfold x_inv. rewrite Eq, Hq, Et, Hcv', Ec. split; [done|]. split; [by apply bd_inv_ready|].
    split; [done|]. split; [done|]. split; [congruence|]. split; [by apply (fresh_index_eq s)|].
    exists ck, blks, f, (data ++ took b b'), (out ++ bs). split_and!; try done.
    * unfold blocks_done. rewrite Ec, Hcnt', Hhash'. done.
    * by rewrite <- !app_assoc.
    * by rewrite <- app_assoc.
Qed.
Lemma replicate_add_Z z1 z2 : 0 <= z1 -> 0 <= z2 ->
  replicate (Z.to_nat (z1 + z2)) 0 = replicate (Z.to_nat z1) 0 ++ replicate (Z.to_nat z2) (0 : Z).
Proof. intros. rewrite Z2Nat.inj_add by lia. apply replicate_add. Qed.

Lemma pad_rest n z : 0 <= z <= - n mod 4 -> - (n + z) mod 4 = - n mod 4 - z.
Proof. intros. Z.to_euclidean_division_equations. lia. Qed.

Lemma step_padding s b c o :
  loop_inv s b c o -> buf_ok b -> x_sequence s = SEQ_BLOCK_PADDING -> xstep_ok s b c o (dec_step s b).
Proof.
  intros (f0 & (Ht & Hrd & Hcr & Hm) & _) Hb Hq. unfold dec_step. rewrite Hq in *.
  destruct Hm as (Htp & Hpos & Hix & ck & blks & k & z & Hdone & Hcv & Hz & Hlen & -> & ->). pose proof (pad_rest _ _ Hz) as Hpr.
  pose proof (Z.mod_pos_bound (- zlength (xb_data k)) 4 ltac:(lia)).
  rewrite Hlen. destruct (skip_padding_ok 4 (zlength (xb_data k) + z) b Hb) as (ret & z' & b' & -> & Hfr & Hz' & Hr); [rewrite Hpr; lia|].
  destruct ret as [ret|].
  - apply quiet_step; try done. unfold step_out. destruct ret; try done. destruct Hr as [Htk He].
    split; [|split; [by eapply stalled_frame|done]]. split; [|xcbn; congruence]. unfold x_inv. xcbn. rewrite Hq.
    do 3 (split; [done|]). split_and!; try done. exists ck, blks, k, (z + z'). rewrite Htk, replicate_add_Z by lia.
    split_and!; try done; try lia.
    + f_equal. lia.
    + by rewrite <- !app_assoc.
    + by rewrite app_nil_r.
  - destruct Hr as [Htk He]. apply quiet_step; try done. unfold step_out.
    split; [|split; [apply measure_frame; [done|left; rewrite Hq; done]|done]]. exists []. split; [|done]. unfold x_inv. xcbn.
    do 3 (split; [done|]). split_and!; try done. exists ck, blks, k, 0. rewrite Htk, He, Hpr, app_nil_r. split_and!; try done.
    unfold pad4. replace (- zlength (xb_data k) mod 4) with (z + (- zlength (xb_data k) mod 4 - z)) at 2 by lia.
    rewrite replicate_add_Z by lia. rewrite <- !app_assoc. do 4 f_equal. by rewrite app_nil_r.
Qed.

Lemma step_check s b c o :
  loop_inv s b c o -> buf_ok b -> x_sequence s = SEQ_BLOCK_CHECK -> xstep_ok s b c o (dec_step s b).
Proof.
  intros (f0 & (Ht & Hrd & Hcr & Hm) & _) Hb Hq. unfold dec_step. rewrite Hq in *.
  destruct Hm as (Htp & Hix & ck & blks & k & j & Hdone & Hcv & Hpos & Hj & Hj0 & -> & ->). pose proof Hdone as (Hck & Hct & _).
  assert (Hbef : before ck (blks ++ [k]) = before ck blks ++ header_image (xb_header k) ++ xb_data k ++
     pad4 (zlength (xb_data k)) ++ check_image ck (xb_out k)).
  { unfold before. rewrite blocks_image_snoc. unfold block_image. by rewrite <- !app_assoc. }
  rewrite Hct. destruct (Z.eqb_spec ck XZ_CHECK_CRC32) as [Hc1|Hc1].
  - destruct (crc_validate_loop_ok 5 s j b) as (ret & s' & b' & Hv & Hfr & Hres); try done; [lia|]. unfold crc_validate. rewrite Hv.
    case_bool_decide as Hret; [subst ret|]; apply quiet_step; try done.
    + destruct Hres as (Htk & -> & Hadv). unfold step_out. split; [|split; [apply measure_frame; [done|by right]|done]].
      exists []. split; [|done]. unfold x_inv. xcbn. do 3 (split; [done|]). split; [done|]. exists ck, (blks ++ [k]).
      rewrite app_nil_r. split; [by split_and!|]. rewrite Hbef. unfold check_image. replace (ck =? XZ_CHECK_CRC32) with true by lia.
      rewrite <- !app_assoc, Htk, Hcv. unfold check_value. by replace (ck =? XZ_CHECK_CRC32) with true by lia.
    + unfold step_out. destruct ret; try done. destruct Hres as (j' & Hj' & Htk & -> & He).
      split; [|split; [by eapply stalled_frame|done]]. split; [|xcbn; congruence]. unfold x_inv. xcbn. rewrite Hq.
      do 3 (split; [done|]). do 2 (split; [done|]). exists ck, blks, k, j'. split_and!; try done; try lia.
      * unfold XZ_CHECK_CRC32 in *. lia.
      * by rewrite <- !app_assoc, Htk.
      * by rewrite app_nil_r.
  - assert (ck = 0) as -> by (destruct Hck; done). rewrite (Hj0 eq_refl) in *.
    apply quiet_step; [done|by apply in_frame_refl|]. unfold step_out. rewrite took_refl, !app_nil_r.
    split; [|split; [apply measure_frame; [by apply in_frame_refl|left; rewrite Hq; done]|done]].
    exists []. split; [|done]. unfold x_inv. xcbn. do 3 (split; [done|]). split; [done|]. exists 0, (blks ++ [k]).
    split; [by split_and!|]. rewrite Hbef. change (check_image 0 (xb_out k)) with ([] : list Z). by rewrite app_nil_r.
Qed.
(** ** The Index *)

Lemma index_call_frame s s' :
  index_call s s' -> x_sequence s' = x_sequence s /\ x_temp s' = x_temp s /\ x_block s' = x_block s /\
    check_type s' = check_type s /\ x_crc s' = x_crc s /\ x_in_start s' = x_in_start s /\ x_lzma2 s' = x_lzma2 s /\
    allow_buf_error s' = allow_buf_error s /\ ix_size (x_index s') = ix_size (x_index s).
Proof. intros [-> ?]. done. Qed.

Lemma slice_took b b' i :
  buf_ok b -> in_frame b b' -> 0 <= i <= in_pos b ->
  slice (b_in b) i (in_pos b - i) ++ took b b' = slice (b_in b') i (in_pos b' - i).
Proof.
  intros (Hp & _) Hf Hi. rewrite (proj2 (in_frame_lt _ _ Hf)). destruct Hf as [_ Hf].
  replace (in_pos b' - i) with ((in_pos b - i) + (in_pos b' - in_pos b)) by lia. rewrite slice_app by lia.
  by replace (i + (in_pos b - i)) with (in_pos b) by lia.
Qed.

(** [index_update] counts the Index bytes since [in_start]. *)
Lemma index_update_sum s b old f :
  0 <= x_in_start s <= in_pos b -> buf_ok b -> f = slice (b_in b) (x_in_start s) (in_pos b - x_in_start s) ->
  index_sum s old -> in_range 32 (x_crc s) ->
  exists s', index_update s b = Some s' /\ index_sum s' (old ++ f) /\ in_range 32 (x_crc s') /\
    s' = set_crc (set_index s (mk_ix (ix_sequence (x_index s)) (ix_size (x_index s')) (ix_count (x_index s)) (ix_hash (x_index s)))) (x_crc s').
Proof.
  intros Hs Hb -> [Hz Hc] Hr. rewrite index_update_ok by done. eexists. split; [done|]. pose proof Hb as (? & ? & Hby & _).
  unfold index_sum. xcbn. rewrite Hz, Hc, wrap_wrap_add, xz_crc32_app, zlength_app, zlength_slice by lia.
  split; [done|]. split; [|done]. apply xz_crc32_range; [by apply slice_forall|]. by rewrite <- Hc.
Qed.

Lemma index_at_ext s s' idx recs bs :
  x_pos s' = x_pos s -> x_vli s' = x_vli s -> x_block s' = x_block s ->
  ix_sequence (x_index s') = ix_sequence (x_index s) -> ix_count (x_index s') = ix_count (x_index s) ->
  ix_hash (x_index s') = ix_hash (x_index s) -> index_at s idx recs bs -> index_at s' idx recs bs.
Proof. unfold index_at. by intros -> -> -> -> -> ->. Qed.

Lemma blocks_done_ext s s' ck blks :
  check_type s' = check_type s -> x_block s' = x_block s -> blocks_done s ck blks -> blocks_done s' ck blks.
Proof. unfold blocks_done. by intros -> ->. Qed.

Lemma step_index s b c o :
  loop_inv s b c o -> buf_ok b -> x_sequence s = SEQ_INDEX -> xstep_ok s b c o (dec_step s b).
Proof.
  intros (f & (Ht & Hrd & Hcr & Hm) & Hfs & _) Hb Hq. unfold dec_step. rewrite Hq in *. destruct (Hfs eq_refl) as [His Hf].
  destruct Hm as (Htp & ck & blks & old & Hdone & Hin & Hsum & -> & ->).
  destruct (dec_index_ok s b _ Hin Hb His) as (ret & s' & b' & -> & Hfr & Hres).
  pose proof (slice_took b b' (x_in_start s) Hb Hfr His) as Hst. rewrite <- Hf in Hst.
  assert (Hb' : buf_ok b') by (by eapply in_frame_buf). pose proof Hfr as [_ Hle].
  case_bool_decide as Hret; [subst ret|]; apply quiet_step; try done; unfold step_out.
  - destruct Hres as [Hcall (recs & Hrecs & Hlen & Hidx & Hpos & Hhash)].
    destruct (index_call_frame _ _ Hcall) as (Eq & Et & Eb & Ec & Er & Es & El & Ea & Ez).
    split; [|split; [apply measure_frame; [done|left; rewrite Hq; done]|done]]. exists (f ++ took b b'). split.
    + unfold x_inv. xcbn. rewrite Et, El, Er. do 3 (split; [done|]). split; [done|]. split; [done|].
      exists ck, blks, recs, old, 0. split_and!; try done; try (by rewrite app_nil_r).
      * by eapply blocks_done_ext.
      * unfold index_sum. xcbn. by rewrite Ez, Er.
      * by apply Z.mod_pos_bound.
      * by rewrite app_nil_r, <- Hidx, app_assoc.
      * by rewrite <- !app_assoc.
    + xcbn. rewrite Es. split; [|done]. intros _. split; [lia|done].
  - destruct ret; try done. destruct Hres as (s1 & Hup & Hcall & (recs & bs & Hat) & He).
    destruct (index_call_frame _ _ Hcall) as (Eq & Et & Eb & Ec & Er & Es & El & Ea & Ez).
    destruct (index_update_sum s1 b' old (f ++ took b b')) as (s2 & Hup2 & Hsum2 & Hcr2 & Hs2); try done.
    { rewrite Es. lia. } { by rewrite Es. } { unfold index_sum in *. by rewrite Ez, Er. } { by rewrite Er. }
    assert (s2 = s') as -> by congruence. split; [|split; [by eapply stalled_frame|rewrite Hs2; done]].
    split; [|rewrite Hs2; xcbn; congruence]. unfold x_inv.
    assert (x_sequence s' = SEQ_INDEX) as -> by (rewrite Hs2; xcbn; congruence).
    assert (x_temp s' = x_temp s) as -> by (rewrite Hs2; xcbn; congruence).
    assert (x_lzma2 s' = x_lzma2 s) as -> by (rewrite Hs2; xcbn; congruence). do 3 (split; [done|]). split; [done|].
    exists ck, blks, (old ++ f ++ took b b'). rewrite !app_nil_r. split_and!; try done.
    + eapply (blocks_done_ext s); [rewrite Hs2; xcbn; congruence|rewrite Hs2; xcbn; congruence|done].
    + exists recs, bs. rewrite <- app_assoc in Hat. eapply (index_at_ext s1); [by rewrite Hs2..|done].
    + by rewrite <- !app_assoc.
Qed.
Definition hash_ok (h : xz_dec_hash) : Prop :=
  in_range 64 (h_unpadded h) /\ in_range 64 (h_uncompressed h) /\ in_range 32 (h_crc32 h).

Lemma hash_bytes_ok h : bytes_ok (hash_bytes h).
Proof. unfold hash_bytes. rewrite !Forall_app. split_and!; try apply le_split_bytes. by repeat constructor. Qed.

Lemma records_hash_ok recs : hash_ok (records_hash recs).
Proof.
  induction recs as [|r recs IH] using rev_ind; [by split_and!|]. rewrite records_hash_snoc. unfold add_record, hash_crc.
  split_and!; simpl; try (by apply wrap_range). apply xz_crc32_range; [apply hash_bytes_ok|apply IH].
Qed.

Lemma hash_bytes_inj h h' : hash_ok h -> hash_ok h' -> hash_bytes h = hash_bytes h' -> h = h'.
Proof.
  destruct h as [a b c], h' as [a' b' c']. intros (Ha & Hb & Hc) (Ha' & Hb' & Hc') He. unfold hash_bytes in He.
  cbn [h_unpadded h_uncompressed h_crc32] in *.
  apply app_inj_1 in He as [E1 He]; [|by rewrite !length_le_split].
  apply app_inj_1 in He as [E2 He]; [|by rewrite !length_le_split]. apply app_inj_1 in He as [E3 _]; [|by rewrite !length_le_split].
  apply le_split_inj in E1, E2, E3; try done. by subst.
Qed.

Lemma step_index_padding s b c o :
  loop_inv s b c o -> buf_ok b -> x_sequence s = SEQ_INDEX_PADDING -> xstep_ok s b c o (dec_step s b).
Proof.
  intros (f & (Ht & Hrd & Hcr & Hm) & Hfs & _) Hb Hq. unfold dec_step. rewrite Hq in *. destruct (Hfs eq_refl) as [His Hf].
  destruct Hm as (Htp & Hpos & ck & blks & recs & old & z & Hdone & Hrecs & Hlen & Hhash & Hsum & Hz & Hof & -> & ->).
  pose proof (pad_rest _ _ Hz) as Hpr. pose proof (Z.mod_pos_bound (- zlength (index_fields recs)) 4 ltac:(lia)).
  assert (Hn : u64 (ix_size (x_index s) + (in_pos b - x_in_start s)) = u64 (zlength (index_fields recs) + z)).
  { destruct Hsum as [-> _]. rewrite wrap_wrap_add by lia. f_equal. pose proof Hb as (? & ? & _).
    transitivity (zlength (old ++ f)); [rewrite zlength_app, Hf, zlength_slice by lia; done|].
    rewrite Hof, zlength_app. unfold zlength at 2. rewrite length_replicate. lia. }
  rewrite Hn. destruct (skip_padding_ok 4 (zlength (index_fields recs) + z) b Hb) as (ret & z' & b' & -> & Hfr & Hz' & Hr); [rewrite Hpr; lia|].
  pose proof (slice_took b b' (x_in_start s) Hb Hfr His) as Hst. rewrite <- Hf in Hst.
  assert (Hb' : buf_ok b') by (by eapply in_frame_buf). pose proof Hfr as [_ Hle].
  destruct (index_update_sum s b' old (f ++ took b b')) as (s2 & Hup2 & Hsum2 & Hcr2 & Hs2); try done; [lia|].
  rewrite Hpr in Hz'. destruct ret as [ret|].
  - destruct ret; try done; [|by apply quiet_step]. destruct Hr as [Htk He]. rewrite Hup2. apply quiet_step; try done. unfold step_out.
    split; [|split; [by eapply stalled_frame|rewrite Hs2; done]]. split; [|rewrite Hs2; xcbn; congruence]. unfold x_inv.
    assert (x_sequence s2 = SEQ_INDEX_PADDING) as -> by (by rewrite Hs2).
    assert (x_temp s2 = x_temp s) as -> by (by rewrite Hs2). assert (x_lzma2 s2 = x_lzma2 s) as -> by (by rewrite Hs2).
    do 3 (split; [done|]). split; [done|]. split; [by rewrite Hs2|]. exists ck, blks, recs, (old ++ f ++ took b b'), (z + z').
    rewrite !app_nil_r. split_and!; try done; try lia.
    + eapply (blocks_done_ext s); [by rewrite Hs2..|done].
    + by rewrite Hs2.
    + by rewrite Hs2.
    + rewrite replicate_add_Z by lia. by rewrite app_assoc, Hof, Htk, <- app_assoc.
    + by rewrite <- !app_assoc.
  - destruct Hr as [Htk He]. rewrite Hup2. case_bool_decide as Hh; cbn [negb]; [|by apply quiet_step]. apply quiet_step; try done. unfold step_out.
    assert (Hpad : old ++ f ++ took b b' = index_padded recs).
    { unfold index_padded, pad4. replace (- zlength (index_fields recs) mod 4) with (z + z') by lia.
      rewrite replicate_add_Z by lia. by rewrite app_assoc, Hof, Htk, <- app_assoc. }
    rewrite Hpad in Hsum2. pose proof Hdone as (Hck & Hct & Hblk & Hcnt & Hbh).
    split; [|split; [apply measure_frame; [done|left; rewrite Hq; done]|rewrite Hs2; done]]. exists []. split; [|done]. unfold x_inv. xcbn.
    assert (x_temp s2 = x_temp s) as -> by (by rewrite Hs2). assert (x_lzma2 s2 = x_lzma2 s) as -> by (by rewrite Hs2).
    do 3 (split; [done|]). split; [done|]. exists ck, blks, recs, 0. rewrite app_nil_r.
    assert (Hx : x_pos s2 = 8 * 0) by (by rewrite Hs2). assert (Hc2 : check_type s2 = ck) by (by rewrite Hs2). split_and!; try done; try lia.
    + split_and!; try done; [congruence|]. rewrite <- Hhash, <- Hbh.
      apply hash_bytes_inj; [rewrite Hhash; apply records_hash_ok|rewrite Hbh; apply records_hash_ok|].
      rewrite Hs2 in Hh. xcbn in Hh. done.
    + by rewrite <- !app_assoc, Hpad.
    + by rewrite app_nil_r.
Qed.

Lemma step_index_crc s b c o :
  loop_inv s b c o -> buf_ok b -> x_sequence s = SEQ_INDEX_CRC32 -> xstep_ok s b c o (dec_step s b).
Proof.
  intros (f0 & (Ht & Hrd & Hcr & Hm) & _) Hb Hq. unfold dec_step. rewrite Hq in *.
  destruct Hm as (Htp & ck & blks & recs & j & Hok & Hct & [Hsz Hcrc] & Hpos & Hj & -> & ->).
  destruct (crc_validate_loop_ok 5 s j b) as (ret & s' & b' & Hv & Hfr & Hres); try done; [lia|]. unfold crc_validate. rewrite Hv.
  case_bool_decide as Hret; [subst ret|]; apply quiet_step; try done; unfold step_out.
  - destruct Hres as (Htk & -> & Hadv). split; [|split; [apply measure_frame; [done|by right]|done]].
    exists []. split; [|done]. unfold x_inv. xcbn. rewrite Htp. do 3 (split; [done|]). do 2 (split; [done|]). exists ck, blks, recs.
    rewrite slice_0, !app_nil_r. split_and!; try done. rewrite <- !app_assoc, Htk, Hcrc. done.
  - destruct ret; try done. destruct Hres as (j' & Hj' & Htk & -> & He).
    split; [|split; [by eapply stalled_frame|done]]. split; [|xcbn; congruence]. unfold x_inv. xcbn. rewrite Hq.
    do 3 (split; [done|]). split; [done|]. exists ck, blks, recs, j'. rewrite app_nil_r. split_and!; try done; try lia.
    by rewrite <- !app_assoc, Htk.
Qed.

Lemma step_footer s b c o :
  loop_inv s b c o -> buf_ok b -> x_sequence s = SEQ_STREAM_FOOTER -> xstep_ok s b c o (dec_step s b).
Proof.
  intros (f0 & (Ht & Hrd & Hcr & Hm) & _) Hb Hq. unfold dec_step. rewrite Hq in *.
  destruct Hm as (Hts & Htp & ck & blks & recs & Hok & Hct & Hsz & -> & ->).
  destruct (fill_temp_ok s b) as (full & b' & buf & -> & Hfr & Hl & Hbb & _ & Hsl & Hfull); try done; try (rewrite Hts; done || lia).
  destruct full.
  - set (s1 := set_xtemp _ _). destruct (dec_stream_footer_ok s1 (conj Hl Hbb)) as [Hne Hend].
    apply quiet_step; try done. unfold step_out. destruct (dec_stream_footer s1) eqn:Hd; try done.
    exists ck, blks, recs. rewrite app_nil_r. split_and!; try done. unfold stream_image, before. rewrite <- !app_assoc. do 3 f_equal.
    rewrite <- Hsl, Hfull, Hts. specialize (Hend eq_refl). subst s1. xcbn in Hend. rewrite Hsz, Hct in Hend. exact Hend.
  - destruct Hfull as [He Hlt]. apply quiet_step; try done. unfold step_out, run_inv, x_inv. xcbn. rewrite Hq, app_nil_r.
    split; [|split; [by eapply stalled_frame|done]]. split; [|done]. destruct Hfr.
    split; [by split|]. do 2 (split; [done|]). split_and!; try done; try lia. exists ck, blks, recs. split_and!; try done.
    by rewrite Hsl, <- !app_assoc.
Qed.
(** ** Calls *)

Lemma dec_step_ok s b c o : loop_inv s b c o -> buf_ok b -> xstep_ok s b c o (dec_step s b).
Proof.
  intros Hi Hb. destruct (x_sequence s) eqn:Hq;
    eauto using step_stream_header, step_block_start, step_block_header, step_uncompress, step_padding, step_check,
      step_index, step_index_padding, step_index_crc, step_footer.
Qed.

Lemma dec_loop_ok fuel s b c o :
  loop_inv s b c o -> buf_ok b -> measure s b < Z.of_nat fuel ->
  exists ret s' b' bs, dec_loop fuel s b = Some (ret, s', b') /\ buf_ok b' /\ in_pos b <= in_pos b' /\ output b b' bs /\
    step_out s b c o (Some ret) s' b' bs.
Proof.
  revert s b c o. induction fuel as [|fuel IH]; intros s b c o Hi Hb Hf.
  { pose proof Hb as (? & _). unfold measure in Hf. destruct (x_sequence s); simpl in Hf; lia. }
  cbn [dec_loop]. destruct (dec_step_ok s b c o Hi Hb) as (ret & s1 & b1 & bs1 & -> & Hb1 & Hp1 & Ho1 & Hout).
  destruct ret as [ret|]; [by exists ret, s1, b1, bs1|]. destruct Hout as (Hi1 & Hm & Ha).
  destruct (IH s1 b1 _ _ Hi1 Hb1) as (ret & s2 & b2 & bs2 & -> & Hb2 & Hp2 & Ho2 & Hout); [lia|].
  exists ret, s2, b2, (bs1 ++ bs2). split; [done|]. split; [done|]. split; [lia|]. split; [by eapply output_app|].
  pose proof Ho1 as (Hin & _). destruct Hb as (? & _).
  unfold step_out in *. rewrite (took_app b b1 b2), !app_assoc by (done || lia). destruct ret; try done.
  destruct Hout as (? & ? & ?). split_and!; try done. congruence.
Qed.

Lemma dec_main_ok s b c o :
  run_inv s c o -> buf_ok b ->
  exists ret s' b' bs, dec_main s b = Some (ret, s', b') /\ buf_ok b' /\ in_pos b <= in_pos b' /\ output b b' bs /\
    step_out s b c o (Some ret) s' b' bs.
Proof.
  intros [Hx Hh] Hb. unfold dec_main. set (s1 := set_starts s (in_pos b) (x_out_start s)).
  assert (Hi : loop_inv s1 b c o).
  { exists []. split; [exact Hx|]. split.
    - intros _. subst s1. xcbn. rewrite Z.sub_diag, slice_0. destruct Hb. split; [lia|done].
    - intros Hq Hz. specialize (Hh Hq). subst s1. xcbn in Hz. lia. }
  destruct (dec_loop_ok (dec_fuel b) s1 b c o Hi Hb) as (ret & s' & b' & bs & ? & ? & ? & ? & ?); [|by exists ret, s', b', bs].
  unfold measure, dec_fuel. destruct Hb as (? & _). destruct (x_sequence s1); simpl; lia.
Qed.

(** What a call of [xz_dec_run] does. *)
Definition run_post s (b : xz_buf) (c o : list Z) (ret : xz_ret) s' (b' : xz_buf) (bs : list Z) : Prop :=
  buf_ok b' /\ in_pos b <= in_pos b' /\ output b b' bs /\
  (ret = XZ_OK -> run_inv s' (c ++ took b b') (o ++ bs) /\ stalled b' /\
     (progress b b' \/ allow_buf_error s = false /\ allow_buf_error s' = true)) /\
  (ret = XZ_STREAM_END -> accepted (c ++ took b b') (o ++ bs)).

Lemma xz_dec_run_ok s b c o :
  run_inv s c o -> buf_ok b -> exists ret s' b' bs, xz_dec_run s b = Some (ret, s', b') /\ run_post s b c o ret s' b' bs.
Proof.
  intros Hi Hb. unfold xz_dec_run. destruct (dec_main_ok s b c o Hi Hb) as (ret & s' & b' & bs & -> & Hb' & Hp & Ho & Hout).
  pose proof Ho as (_ & _ & _ & Hop & _). pose proof (zlength_nonneg bs).
  destruct (bool_decide (ret = XZ_OK) && (in_pos b =? in_pos b') && (out_pos b =? out_pos b')) eqn:Hn.
  - apply andb_true_iff in Hn as [[Hret%bool_decide_eq_true Hi']%andb_true_iff Ho']. subst ret. destruct Hout as (Hi1 & Hst & Ha).
    eexists _, _, b', bs. split; [done|]. split; [done|]. split; [done|]. split; [done|]. rewrite Ha.
    destruct (allow_buf_error s) eqn:Hal; [done|]. split; [|done]. intros _. split_and!; try done. by right.
  - eexists ret, _, b', bs. split; [done|]. split; [done|]. split; [done|]. split; [done|]. split.
    + intros ->. destruct Hout as (Hi1 & Hst & Ha). split_and!; try done. left. unfold progress.
      rewrite bool_decide_eq_true_2 in Hn by done. simpl in Hn. lia.
    + intros ->. done.
Qed.

(** C2: [xz_dec_run], whatever the input and however it is cut into pieces:
    it returns, no access leaves a buffer, it only appends to the output; when
    it returns XZ_OK the input is used up or the output full, it made progress
    unless the call before did, and it can be called again; when it returns
    XZ_STREAM_END what was taken since the reset is the image of a .xz Stream
    and what was written is its contents. *)
Theorem xz_dec_run_safe s b c o :
  run_inv s c o -> buf_ok b -> exists ret s' b' bs, xz_dec_run s b = Some (ret, s', b') /\ run_post s b c o ret s' b' bs.
Proof. apply xz_dec_run_ok. Qed.

(** ** Streams *)

Lemma reset_run_inv s : temp_ok (x_temp s) -> bd_ready (x_lzma2 s) -> run_inv (xz_dec_reset s) [] [].
Proof. intros Ht Hr. split; [|done]. split; [done|]. split_and!; done. Qed.

(** Call [xz_dec_run] on one pair of buffers after the other as long as it
    returns XZ_OK: the last return value, the bytes taken and the bytes
    written. *)
Fixpoint feed s (bufs : list xz_buf) : option (xz_ret * list Z * list Z) :=
  match bufs with
  | [] => Some (XZ_OK, [], [])
  | b :: bufs =>
      match xz_dec_run s b with
      | None => None
      | Some (ret, s', b') =>
          let out := slice (b_out b') (out_pos b) (out_pos b' - out_pos b) in
          if bool_decide (ret = XZ_OK) then
            match feed s' bufs with
            | Some (ret, c, o) => Some (ret, took b b' ++ c, out ++ o)
            | None => None
            end
          else Some (ret, took b b', out)
      end
  end.

Lemma feed_ok bufs s c o :
  run_inv s c o -> Forall buf_ok bufs ->
  exists ret c' o', feed s bufs = Some (ret, c', o') /\ (ret = XZ_STREAM_END -> accepted (c ++ c') (o ++ o')).
Proof.
  revert s c o. induction bufs as [|b bufs IH]; intros s c o Hi Hbs; [by eexists _, _, _|].
  apply Forall_cons in Hbs as [Hb Hbs]. cbn [feed].
  destruct (xz_dec_run_ok s b c o Hi Hb) as (ret & s' & b' & bs & -> & Hb' & Hp & Ho & Hok & Hend).
  assert (slice (b_out b') (out_pos b) (out_pos b' - out_pos b) = bs) as ->.
  { destruct Ho as (_ & _ & Hos & Hop & ->). replace (out_pos b' - out_pos b) with (zlength bs) by lia.
    destruct Hb as (_ & _ & _ & ? & ? & _), Hb' as (_ & _ & _ & ? & ? & _). apply slice_put_out; lia. }
  case_bool_decide as Hret; [|by eexists ret, _, _]. destruct (Hok Hret) as (Hi' & _).
  destruct (IH s' _ _ Hi' Hbs) as (ret2 & c2 & o2 & -> & Hacc). eexists ret2, _, _. split; [done|].
  rewrite !app_assoc. exact Hacc.
Qed.

(** C1: feeding a decoder that was just reset any sequence of input pieces and
    output buffers never faults, and if it ends with XZ_STREAM_END the pieces
    make up the image of a .xz Stream (header, Blocks, Index and footer, each
    with its CRC32), every Block holds data the block decoder turns into its
    contents, each Block's Check and sizes and the Index match them, and the
    output is the contents of the Blocks in order. *)
Theorem xz_stream_accepted s bufs :
  temp_ok (x_temp s) -> bd_ready (x_lzma2 s) -> Forall buf_ok bufs ->
  exists ret c o, feed (xz_dec_reset s) bufs = Some (ret, c, o) /\ (ret = XZ_STREAM_END -> accepted c o).
Proof.
  intros Ht Hr Hb. destruct (feed_ok bufs _ [] [] (reset_run_inv s Ht Hr) Hb) as (ret & c & o & ? & ?). by exists ret, c, o.
Qed.
End Run.

(** ** The decoder as the program builds it *)

(** What the memory of the two structs holds when it is allocated: arrays of
    bytes of the declared sizes. *)
Definition fresh_memory (s : xz_dec xz_dec_lzma2) : Prop :=
  temp_ok (x_temp s) /\ zlength (temp_buf (x_lzma2 s)) = TEMP_BUF_SIZE /\ bytes_ok (temp_buf (x_lzma2 s)).

(** [xz_dec_init] fails only when an allocation fails, and otherwise gives
    a decoder that is ready to run. *)
Theorem xz_dec_init_spec s mode dict_max :
  fresh_memory s -> 0 <= dict_max ->
  match xz_dec_init s mode dict_max with
  | Some s' => run_inv s' [] []
  | None => ~ mem_ok (x_mem s)
  end.
Proof.
  intros (Ht & Htl & Htb) Hd. unfold xz_dec_init, xz_dec_lzma2_create.
  destruct (malloc (x_mem s)) as [ok o1] eqn:E1.
  destruct ok; simpl; [|intros M; by destruct (malloc_mem_ok _ _ _ E1 M)].
  destruct (malloc o1) as [ok o2] eqn:E2.
  destruct ok; simpl; [|intros M; destruct (malloc_mem_ok _ _ _ E1 M) as [_ M1]; by destruct (malloc_mem_ok _ _ _ E2 M1)].
  destruct mode; simpl.
  - destruct (malloc o2) as [ok o3] eqn:E3.
    destruct ok; simpl; [|intros M; destruct (malloc_mem_ok _ _ _ E1 M) as [_ M1];
      destruct (malloc_mem_ok _ _ _ E2 M1) as [_ M2]; by destruct (malloc_mem_ok _ _ _ E3 M2)].
    apply reset_run_inv; [done|]. split_and!; try done. split; [by apply Forall_replicate|].
    simpl. unfold zlength. rewrite length_replicate. lia.
  - apply reset_run_inv; [done|]. split_and!; try done.
Qed.

(** ** Instances *)

(** The output of xz with a CRC32 check and a 4 KiB dictionary for a line of
    text that repeats. *)
Definition sample_xz : list Z :=
  [253; 55; 122; 88; 90; 0; 0; 1; 105; 34; 222; 54; 2; 0; 33; 1; 0; 0; 0; 0; 55; 39; 151; 214; 224; 0; 131; 0; 30; 93; 0;
   52; 25; 73; 238; 141; 233; 86; 10; 231; 121; 154; 92; 169; 188; 170; 252; 2; 21; 174; 243; 17; 103; 39; 74; 59; 227;
   113; 152; 204; 0; 0; 0; 0; 110; 109; 122; 12; 0; 1; 54; 132; 1; 0; 0; 0; 90; 65; 172; 237; 62; 48; 13; 139; 2; 0; 0; 0;
   0; 1; 89; 90].

Definition sample_line : list Z :=
  [104; 101; 108; 108; 111; 32; 104; 101; 108; 108; 111; 32; 104; 101; 108; 108; 111; 32; 104; 101; 108; 108; 111; 44; 32;
   109; 97; 103; 105; 115; 107; 32; 109; 97; 103; 105; 115; 107; 32; 98; 111; 111; 116; 33].

Definition sample_text : list Z := sample_line ++ sample_line ++ sample_line.

Definition sample_dec : xz_dec xz_dec_lzma2 :=
  mk_xz_dec SEQ_STREAM_HEADER 0 0 0 0 0 0 false (mk_bh 0 0 0) (mk_bl 0 0 0 zero_hash)
    (mk_ix SEQ_INDEX_COUNT 0 0 zero_hash) (mk_temp 0 12 (replicate 1024 0)) sample_lzma2 [].

(** The input in pieces of [n] bytes, each with room for 50 bytes of
    output. *)
Fixpoint pieces (fuel : nat) (n : nat) (l : list Z) : list xz_buf :=
  match fuel with
  | O => []
  | S fuel => mk_xz_buf (take n l) 0 (zlength (take n l)) (replicate 150 0) 0 150 :: pieces fuel n (drop n l)
  end.

(** The decoder decodes it, in one piece and cut into pieces of 17 bytes. *)
Example sample_decoded :
  feed (xz_dec_reset sample_dec) (pieces 1 100 sample_xz) = Some (XZ_STREAM_END, sample_xz, sample_text) /\
  feed (xz_dec_reset sample_dec) (pieces 6 17 sample_xz) = Some (XZ_STREAM_END, sample_xz, sample_text).
Proof. split; vm_compute; reflexivity. Qed.

Lemma xz_stream_accepted_witness :
  exists ret c o, feed (xz_dec_reset sample_dec) (pieces 6 17 sample_xz) = Some (ret, c, o) /\ (ret = XZ_STREAM_END -> accepted c o).
Proof. apply xz_stream_accepted; [concrete|concrete|]. repeat (apply Forall_cons; split; [concrete|]). apply Forall_nil_2. Defined.

Lemma xz_dec_run_witness :
  let b := mk_xz_buf sample_xz 0 92 (replicate 20 0) 0 20 in
  exists ret s' b' bs, xz_dec_run (xz_dec_reset sample_dec) b = Some (ret, s', b') /\
    run_post (xz_dec_reset sample_dec) b [] [] ret s' b' bs.
Proof. apply xz_dec_run_safe; [apply reset_run_inv; concrete|concrete]. Defined.

Lemma xz_dec_init_witness :
  match xz_dec_init sample_dec XZ_DYNALLOC (2 ^ 26) with
  | Some s' => run_inv s' [] []
  | None => ~ mem_ok (x_mem sample_dec)
  end.
Proof. apply xz_dec_init_spec; [concrete|lia]. Defined.
